(* ===== verification/_CoqProject ===== *)
-Q . S2P
Prelude.v
Json.v
JsonText.v
Sha256.v
DiGraph.v
Topology.v
Membership.v
Readiness.v
Capacity.v
Fibers.v
TaskExecution.v
Writer.v
JobStore.v
ComponentRows.v
ComponentLife.v
ComponentSafety.v
Sessions.v
Sampling.v
ThreadOverrides.v
Interrupts.v
SelectedWork.v
SessionLife.v
SessionExit.v
SessionSafety.v
SessionSteps.v
InterruptSafety.v
Ancestors.v
Permits.v
PermitControl.v
JobRun.v
Network.v
NetworkSafety.v
JobCreation.v
CreationSafety.v
Operations.v
ComponentPump.v
ComponentCleanup.v
PumpSafety.v
DagRun.v
DagSafety.v
Driver.v
DriverSafety.v
