(* ===== verification/Prelude.v ===== *)
(** * Micro Workflow Manager: a verified model of its scheduling and state core

    The program (Python package [src/micro_workflow_manager]) runs jobs through a directed
    graph of nodes.  Communicating nodes are contracted into components whose quotient is
    acyclic; jobs live in SQLite tables changed by one writer, a job is run by the worker
    that holds its execution lease, and restarts, other processes and failures may strike
    between any two of a worker's steps.  This library models that core and proves it
    correct; [PROJECT.json] beside it maps every definition to its source lines.

    ** Files, in dependency order

    - [Prelude]: Python's exceptions and fallible calls ([result], [let!], [check!]); calls
      over shared state that may raise ([cmd], [do!], [catch], [finally]) with a Hoare
      rule for each; Python's [sorted], [int] and [strip]; tactics.
    - [Json], [JsonText]: JSON values, [json.dumps] and [json.loads] with their round trip,
      dictionaries.  [Sha256]: [hashlib.sha256] as an executable function on bytes.
    - [DiGraph]: the interface of the graph library ([networkx]), its documented laws, and
      an executable instance, so that clients are proved against the laws and evaluated
      with the instance.
    - [Topology] ([topology.py], [graph.py], [component_identity.py]): edge declarations,
      Hoeflein components, the component graph, intervals and execution units.
    - [Membership] ([storage/component_membership.py], [storage/membership_retirement.py]):
      the stored partition of nodes into active components, the closure a topology change
      forces, and the exact replacement of its rows.
    - [Readiness] ([component_readiness.py]): which result lineage makes a component ready.
    - [Capacity] ([api_limits.py], [workflow/component_scheduler.py], [runners/api.py],
      [runners/threaded.py]): Modules [Budget], [Pumps], [Lanes], [Startup], the integer
      arithmetic that shares API permits, pumps and lanes.
    - [Fibers] ([fibers.py]): the cooperative runtime that multiplexes generator bodies:
      futures, sleepers, deadlines, cancellation polling, admission and the pump loop.
    - [TaskExecution] ([workflow/task_execution.py]): one job's handler calls in the three
      runner modes, with retries, repeats and fallbacks.
    - [Writer] ([storage/sqlite/mutation_writer.py]): the single writer thread, its queue,
      transactions, savepoints, futures, watermark and durability barriers, as steps of
      clients and writer.
    - [JobStore] ([storage/execution_claims.py], [execution_terminal.py],
      [execution_restart.py], [restart_application.py], [execution_ownership.py]): the job
      tables and every operation on execution leases.
    - [ComponentRows] ([storage/component_result_identity.py], [storage/session_shapes.py]):
      the rows of component states, pending executions and successful results, over the
      tables of [JobStore] and [Membership], and their readers.
    - [ComponentLife] ([storage/component_states.py], [component_settlement.py],
      [component_transitions.py], [selected_component_lifecycle.py],
      [component_misalignment.py], [component_holds.py], [component_reservations.py]): every
      transaction on them; the record [authority] holds what interrupts, receiver guards and
      job selections decide inside a transaction, and theorems hold for each authority.
    - [ComponentSafety]: those transactions as runs of a small automaton, and what it keeps.
    - [Sessions] ([storage/session_selection.py], [session_scope.py], [session_liveness.py],
      [storage/execution_sessions.py]): the rows of execution sessions and interrupts over
      the tables of [ComponentRows], their readers, liveness, the check of a session's
      reserved scope, heartbeat and finish.
    - [Sampling] ([sample_selection.py], [storage/sample_planning.py],
      [storage/sample_history.py]): what a sampled run selects of a component, the record
      its admission keeps, the reader of that record, and when the sample is complete.
    - [ThreadOverrides] ([storage/thread_overrides.py]): node and API thread limits, pending
      or owned by a session; the record [thread_overrides] is what session transactions
      use of them, the class [OverrideLaws] what their theorems rely on.
    - [Interrupts] ([storage/interrupt_admission.py], [interrupt_common.py],
      [interrupt_coordination.py], [interrupt_observation.py], [interrupt_settlement.py]):
      an interrupt takes components of running sessions, pauses its running predecessors,
      freezes and holds its target, leaves fences and gives its scope back.
    - [SelectedWork] ([storage/job_producers.py], [selected_execution.py],
      [execution_ownership.py], [component_states.py]): which jobs a session started for
      selected jobs may run, accepted restarts, pending work of a component, and
      [claim_executions], the claim mutation with every reader it consults.
    - [SessionLife] ([storage/session_admission.py], [session_settlement.py]): creating a
      session, publishing inside it and settling it; [authority_of] is the [authority] of
      [ComponentLife] the interrupt tables and [SelectedWork] give.
    - [SessionExit] ([storage/execution_sessions.py]): the decision that either hands a
      session's driver accepted restarts or settles what is pending and ends the session.
    - [SessionSafety], [SessionSteps]: the invariant [scoped] of the reserved scope, each
      transaction as one of five changes of it, and [session_step], any committed
      transaction.
    - [InterruptSafety], [Ancestors]: pauses and freezes along [session_step]; the
      ancestors fences look at.
    - [Permits] ([storage/api_admission.py], [storage/api_admission_grouped.py]): the
      durable permits that bound concurrent API executions, singly and in groups.
    - [PermitControl] ([workflow/api_admission.py], [workflow/admission_wait.py]): the
      runtime owner of one permit, written against the class [PermitServices] with laws
      [PermitLaws]; [Permits] is shown to satisfy them for a writer that may lose answers.
    - [JobRun] ([workflow/job_lifecycle.py], [interrupt_cooperation.py]): one job from
      claim to terminal publication, against the tables of [JobStore].
    - [Network] ([network/manager.py], [network/recovery.py], [network/types.py],
      [network/configuration.py]): the shared network manager as steps of request
      coroutines, submitting threads and the event loop's drains; [NetworkSafety]: what
      every interleaving of them keeps.
    - [JobCreation] ([storage/job_creation.py], [auto_job_creation.py], [job_batches.py],
      [job_identity.py], [job_cleanup.py], [job_producers.py], [events.py]): jobs created
      singly, in groups with allocated ids and in batches, their input directories,
      idempotency keys and id sequences, deletion and reset; calls over tables that roll
      back and files that do not.  [CreationSafety]: what every sequence of them keeps, over
      histories that also record which inputs are prepared, which ids are reserved and which
      directories a deletion has still to remove.
    - [Operations] ([workflow/component_execution_operation.py]): what a running component
      keeps while its session decides about failed jobs, and its epochs, over the record
      [pumping] of what an operation calls.
    - [ComponentPump] ([workflow/component_scheduler.py], [component_state.py],
      [storage/job_queries.py]): coordinator and pumps of one running component as steps,
      with the rules of waiting members; [ComponentCleanup]
      ([component_failure_cleanup.py], [storage/execution_terminal.py]): settling what a
      failed component still holds; [PumpSafety]: what every interleaving keeps, and that
      pumps only report to their operation, as [Operations] assumes.
    - [DagRun] ([workflow/dag_scheduler.py], [dag_execution_operation.py]): the loop that
      launches ready components, shares the API pumps of [Capacity] and joins them, as steps
      over the record [dag_reads]; [DagSafety]: what every interleaving keeps.
    - [Driver] ([workflow/execution_session_driver.py]): the driver of a session, a root
      operation behind the class [RootOperation] and the continuations of restarts the
      session accepts, one [turn] at a time; [DriverSafety]: no such restart is lost.

    ** How state and operations correspond to the code

    A table is a finite map from its primary key to the columns the modelled operations
    use.  One call inside the writer is a function from tables to tables: an exception
    rolls back, so an error carries no tables.  Code outside the writer is a [cmd]: a
    function of a state holding what it shares with others, a log of its own effects and
    an outside world.  Handlers, faults of framework writes, the steps of other processes
    and the answers of the writer are read from that world, so a theorem about every world
    is a theorem about every interleaving at call boundaries.  Errors are values of
    [result]; exception classes are kept, message texts shortened to their fixed part.
    Integers are unbounded, as in Python.

    ** What the theorems show

    - Jobs ([JobStore], [JobRun]): an execution id leases at most one job and never
      returns once ended; claims are exclusive; a terminal status is published exactly
      once, by the lease holder; restarts fence the old lease; a whole run publishes at
      most once and returns a value only for a published DONE; grouped publication equals
      one transaction per update.
    - Writer ([Writer]): the thread refines an abstract queue of atomic operations; a
      barrier is over exactly when every earlier mutation is decided; the thread drains.
    - Components ([Membership], [ComponentLife], [ComponentSafety]): a membership change
      replaces exactly its closure; component rows stay readable under every sequence of
      transactions; a component has at most one execution at a time.
    - Selected work and exits ([SelectedWork], [SessionExit], [ThreadOverrides]): a claim
      takes only what was selected or created from it; a session ends over no claimed job
      and no accepted restart but those its driver gave up, and what it hands out can be
      claimed; thread limits follow their component into its session and back.
    - Samples ([Sampling]): a selection is the lowest ranked part of the population and
      grows with the count; every plan is admitted and reads back from the session's
      details; completion is exactly that nothing selectable is left to do.
    - Sessions ([SessionSteps], [InterruptSafety], [Ancestors]): every running session owns,
      or has lent along a chain of running interrupts, exactly what it was admitted with;
      an exit returns each loan to a lender that still runs and leaves nothing running or
      leased; an interrupt pauses its running predecessors until it is settled and freezes
      its target only over acknowledged work; ancestors are exactly the components with a
      route to the target.
    - Permits ([Permits], [PermitControl]): the number of permits stays within the limit;
      the grouped writer refines one transaction per request; a task runs only under a
      recorded permit and none is left behind unless the failure says so.
    - Network ([NetworkSafety]): shards count exactly the requests that hold them and are
      closed only when unused; a request is settled once and replayed within its limits;
      no wake-up of the ingress queue is lost.
    - Creation ([CreationSafety]): whatever file calls and commits fail, a key names a
      registered job, a registered job has its input, and an allocated id is free, as long as
      nothing is created at a node while its jobs are being deleted (an example shows what
      happens otherwise); a keyed job is created once, unless a plain batch overwrites its
      key; a group is served as if its callers came in turn; a job reads back as it was
      created.
    - Running components ([Operations], [PumpSafety], [ComponentCleanup]): an accepted
      restart is run or handed back to the session; each member has one pump, waiting
      members start only past their peers' work, and a component ends only when its pumps
      have; a failed one leaves none of its session's executions running.
    - Scheduling ([DagSafety]): no component is in flight twice and all are joined; the
      pumps the scheduler accounts for stay within the host's budget, and so do those that
      run as long as no unit is launched again; a boundary stops admission; something ready
      starts when nothing runs.
    - Driving a session ([DriverSafety]): every restart the session accepts is placed with
      the root or with the continuation of the component its proposal names or its owner ran
      in, which expects it and runs next, and a driver that returns has run
      them and left no operation unfinished.
    - Graph ([Topology], [Readiness]): the component graph is acyclic, components are the
      reachability classes, intervals and execution units are what they claim, snapshots
      do not depend on declaration order; readiness is exact on every input.
    - Runtime ([Fibers], [TaskExecution], [Capacity]): no fiber is lost, concurrency is
      bounded, failures are raised after all fibers exit; retries and fallbacks form one
      chain; every share is exact and within bounds.

    ** Fuel

    [Fibers.run_loop], [PermitControl.acquire], [PermitControl.pause_loop] and
    [JobRun.run_loop] stand for unbounded [while True] loops that wait for other processes;
    their fuel counts turns and running out yields "still waiting", never an answer.
    [Fibers.run_source_map], [PermitControl.acquire_terminates] and
    [JobRun.undisturbed_run] give fuel that suffices.  The remaining recursions are
    structural or, for the budget and pump loops, [Membership.closure],
    [Interrupts.ancestors_loop] (one step per edge and the target), [Sessions.descends] (one
    step per session, enough along any chain of loans in scoped tables) and
    [SelectedWork.descends_loop] (one step per execution), have fuel proved sufficient;
    [JsonText.loads] has two steps per character, enough for all text [dumps] writes;
    [SelectedWork.forward_loop] has the same fuel, as it too visits an execution once.
    [Operations.epochs] needs two turns, one of accepted restarts and one of ordinary work
    ([restarts_settled]).  [Driver.drive] and [Driver.complete] repeat while the session
    answers with new restarts, which other processes may go on requesting; their fuel
    counts turns and running out is no answer.

    ** Not modelled

    Operating-system effects (threads, processes, sockets, files but for the inputs of
    jobs, the SQLite engine), the supervisor's own threads, the scopes that open
    sessions, the loops around interrupt transactions, and the command line.  Of network access, the construction
    of clients, the shutdown of the manager, its diagnostics and the transport's own
    classes.  Of scheduling, the direct runner's sequential branches and the job sources of
    a node's pump.
    Parsing of ISO dates, digests of files, decoding of stored shapes and the graph library
    are arguments with their documented behaviour as hypotheses. *)
From Stdlib Require Export String Ascii ZArith Lia ZifyBool.
From stdpp Require Export base decidable numbers list sorting relations gmap strings fin_maps fin_sets.

#[export] Set Warnings "-clear-no-such-hyp".

(** ** Scope and notations *)

Declare Scope mwf_scope.
Delimit Scope mwf_scope with mwf.
#[global] Open Scope mwf_scope.

(** ** Python exceptions and the fallible result of a call *)

(** The exception classes the modelled code raises or catches. *)
Inductive exc_class :=
  | ValueError
  | TypeError
  | KeyError
  | IndexError
  | RuntimeError
  | FileNotFoundError
  | FileExistsError
  | TimeoutError
  | InvalidGraphError
  | InvalidJobError
  | JobFailedError
  | JobRestartedError
  | JobTimeoutError
  | ApiPermitStateError
  | ComponentExecutionIncomplete
  | ExecutionSessionHasActiveJobs
  | ComponentReservationConflict
  | RestartClaimChanged
  | InterruptAdmissionPaused
  | NoSelectedJobs
  | NetworkXError
  | KeyboardInterrupt
  | UserError.

#[export] Instance exc_class_eq_dec : EqDecision exc_class.
Proof. solve_decision. Defined.

(** An exception value: its class and its rendered message. *)
Record exc := Exc { exc_cls : exc_class; exc_msg : string }.

#[export] Instance exc_eq_dec : EqDecision exc.
Proof. solve_decision. Defined.

(** A call either returns a value or raises. *)
Inductive result (A : Type) :=
  | Ok (a : A)
  | Err (e : exc).
Arguments Ok {A} a.
Arguments Err {A} e.

#[export] Instance result_eq_dec {A} `{EqDecision A} : EqDecision (result A).
Proof. solve_decision. Defined.

Definition rbind {A B} (m : result A) (k : A → result B) : result B :=
  match m with Ok a => k a | Err e => Err e end.

Definition raise {A} (c : exc_class) (msg : string) : result A := Err (Exc c msg).

(** Raise unless the condition holds. *)
Definition require (b : bool) (c : exc_class) (msg : string) : result unit :=
  if b then Ok tt else raise c msg.

Notation "'let!' x ':=' m 'in' k" := (rbind m (λ x, k))
  (at level 10, x name, m at level 100, k at level 200) : mwf_scope.
Notation "'check!' b 'orelse' c 'saying' s 'in' k" := (rbind (require b c s) (λ _, k))
  (at level 10, b at level 100, c at level 9, s at level 9, k at level 200)
   : mwf_scope.

Definition is_ok {A} (m : result A) : bool :=
  match m with Ok _ => true | Err _ => false end.

Lemma rbind_ok {A B} (m : result A) (k : A → result B) b :
  rbind m k = Ok b ↔ ∃ a, m = Ok a ∧ k a = Ok b.
Proof.
  destruct m as [a|e]; cbn; split.
  - eauto.
  - intros (a' & [= ->] & H). exact H.
  - discriminate.
  - intros (a' & H & _). discriminate.
Qed.

Lemma require_ok b c s u : require b c s = Ok u ↔ b = true.
Proof. destruct b, u; cbn; split; try done; intros; discriminate. Qed.

(** Run a fallible function over a list, left to right, stopping at the
    first exception. *)
Fixpoint rmap {A B} (f : A → result B) (l : list A) : result (list B) :=
  match l with
  | [] => Ok []
  | x :: l => let! y := f x in let! ys := rmap f l in Ok (y :: ys)
  end.

Lemma rmap_ok {A B} (f : A → result B) l ys :
  rmap f l = Ok ys → Forall2 (λ x y, f x = Ok y) l ys.
Proof.
  revert ys. induction l as [|x l IH]; intros ys; cbn.
  - intros [= <-]. constructor.
  - intros H. apply rbind_ok in H as (y & Hy & H).
    apply rbind_ok in H as (ys' & Hys & [= <-]). constructor; auto.
Qed.

Lemma rmap_all {A B} (f : A → result B) l ys : Forall2 (λ x y, f x = Ok y) l ys → rmap f l = Ok ys.
Proof. induction 1 as [|x y l ys Hx _ IH]; cbn; [done|]. by rewrite Hx, IH. Qed.

Lemma rmap_exists {A B} (f : A → result B) (P : A → B → Prop) l : (∀ x, x ∈ l → ∃ y, f x = Ok y ∧ P x y) →
  ∃ ys, rmap f l = Ok ys ∧ Forall2 P l ys.
Proof.
  induction l as [|x l IH]; intros H; [by exists []|]. destruct (H x) as (y & Hy & Py); [apply list_elem_of_here|].
  destruct IH as (ys & Hys & Pys); [intros z Hz; apply H; by apply list_elem_of_further|]. exists (y :: ys). cbn. rewrite Hy, Hys. split; [done|by constructor].
Qed.

(** Thread a value through a fallible loop body. *)
Fixpoint rfold {A S} (f : S → A → result S) (s : S) (l : list A) : result S :=
  match l with
  | [] => Ok s
  | x :: l => let! s := f s x in rfold f s l
  end.

(** What every iteration keeps holds at the end. *)
Lemma rfold_keeps {A S} (P : S → Prop) (f : S → A → result S) l s s' :
  (∀ s x s', x ∈ l → P s → f s x = Ok s' → P s') → P s → rfold f s l = Ok s' → P s'.
Proof.
  revert s. induction l as [|x l IH]; intros s Hf Hs; cbn; [by intros [= <-]|].
  intros (s1 & H1 & H2)%rbind_ok. apply (IH s1); [|apply (Hf s x); [left|done..]|done].
  intros s2 y s3 Hy. apply Hf. by right.
Qed.

(** [any]: the first element the fallible test accepts ends it. *)
Fixpoint rexists {A} (f : A → result bool) (l : list A) : result bool :=
  match l with
  | [] => Ok false
  | x :: l => let! b := f x in if b : bool then Ok true else rexists f l
  end.

Lemma rexists_false {A} (f : A → result bool) (l : list A) : rexists f l = Ok false ↔ ∀ x, x ∈ l → f x = Ok false.
Proof.
  induction l as [|y l IH]; cbn [rexists]; [split; [intros _ x Hx; by apply not_elem_of_nil in Hx|done]|]. split.
  - intros H x Hx. apply rbind_ok in H as ([] & Hy & H); [discriminate H|]. apply elem_of_cons in Hx as [->|Hx]; [done|]. by apply IH.
  - intros H. rewrite (H y) by apply list_elem_of_here. cbn [rbind]. apply IH. intros x Hx. apply H. by apply list_elem_of_further.
Qed.

(** New rows of a table; a key that is taken violates its uniqueness. *)
Definition insert_unique {K V} `{Countable K} (table : string) (m : gmap K V) (rows : list (K * V)) : result (gmap K V) :=
  rfold (λ m q, match m !! q.1 with
                | Some _ => raise UserError ("UNIQUE constraint failed: " +:+ table)
                | None => Ok (<[q.1 := q.2]> m)
                end) m rows.

Lemma insert_unique_ok {K V} `{Countable K} table (m m' : gmap K V) rows : insert_unique table m rows = Ok m' →
  (∀ k v, m' !! k = Some v ↔ m !! k = Some v ∨ (k, v) ∈ rows) ∧ (∀ k, k ∈ rows.*1 → m !! k = None).
Proof.
  unfold insert_unique. revert m. induction rows as [|[k v] rows IH]; intros m; cbn [rfold].
  { intros [= <-]. split; [|by intros k ?%not_elem_of_nil]. intros k v. split; [by left|]. by intros [?|?%not_elem_of_nil]. }
  intros (m1 & Hm1 & Hr)%rbind_ok. cbn [fst snd] in Hm1. destruct (m !! k) eqn:Hk; [discriminate|]. injection Hm1 as <-.
  destruct (IH _ Hr) as [IH1 IH2]. split.
  - intros k' v'. rewrite IH1, elem_of_cons. destruct (decide (k' = k)) as [->|Hne].
    + rewrite lookup_insert_eq, Hk. split; [intros [[= <-]|?]; auto|]. intros [?|[[= <-]|?]]; auto. discriminate.
    + rewrite lookup_insert_ne by done. split; [intros [?|?]; auto|]. intros [?|[[= -> _]|?]]; auto. done.
  - intros k' [->|Hin]%elem_of_cons; [done|]. apply IH2 in Hin. destruct (decide (k' = k)) as [->|Hne]; [done|].
    by rewrite lookup_insert_ne in Hin.
Qed.

(** ** Stateful calls: Python code that reads and writes shared state and may raise *)

Definition cmd (St A : Type) : Type := St → result A * St.

Definition ret {St A} (a : A) : cmd St A := λ s, (Ok a, s).

Definition throw {St A} (e : exc) : cmd St A := λ s, (Err e, s).

Definition cbind {St A B} (m : cmd St A) (k : A → cmd St B) : cmd St B := λ s,
  match m s with (Ok a, s) => k a s | (Err e, s) => (Err e, s) end.

Notation "'do!' x ':=' m 'in' k" := (cbind m (λ x, k))
  (at level 10, x name, m at level 100, k at level 200) : mwf_scope.

(** [try: m except ...: h]. *)
Definition catch {St A} (m : cmd St A) (h : exc → cmd St A) : cmd St A := λ s,
  match m s with (Ok a, s) => (Ok a, s) | (Err e, s) => h e s end.

(** [try: m finally: f], for a clean-up that does not raise. *)
Definition finally {St A} (m : cmd St A) (f : St → St) : cmd St A := λ s,
  let '(r, s) := m s in (r, f s).

Lemma cbind_ok {St A B} (m : cmd St A) (k : A → cmd St B) s b s' :
  cbind m k s = (Ok b, s') ↔ ∃ a s1, m s = (Ok a, s1) ∧ k a s1 = (Ok b, s').
Proof.
  unfold cbind. destruct (m s) as [[a|e] s1]; split.
  - eauto.
  - intros (a' & s2 & [= -> ->] & H). exact H.
  - discriminate.
  - intros (a' & s2 & [=] & _).
Qed.

(** ** What a stateful call guarantees: from [P], the result and the new state satisfy [Q] *)

Definition triple {St A} (P : St → Prop) (m : cmd St A) (Q : result A → St → Prop) : Prop :=
  ∀ s, P s → Q (m s).1 (m s).2.

Lemma triple_cbind {St A B} (P : St → Prop) (m : cmd St A) (k : A → cmd St B) R Q :
  triple P m R → (∀ a, triple (R (Ok a)) (k a) Q) → (∀ e s, R (Err e) s → Q (Err e) s) →
  triple P (cbind m k) Q.
Proof.
  intros Hm Hk He s Hs. specialize (Hm s Hs). unfold cbind. destruct (m s) as [[a|e] s1]; [|by apply He].
  exact (Hk a s1 Hm).
Qed.

Lemma triple_catch {St A} (P : St → Prop) (m : cmd St A) (h : exc → cmd St A) (R : exc → St → Prop) Q :
  triple P m (λ r s, match r with Ok a => Q (Ok a) s | Err e => R e s end) →
  (∀ e, triple (R e) (h e) Q) → triple P (catch m h) Q.
Proof.
  intros Hm Hh s Hs. specialize (Hm s Hs). unfold catch. destruct (m s) as [[a|e] s1]; [exact Hm|].
  exact (Hh e s1 Hm).
Qed.

Lemma triple_weaken {St A} (P P' : St → Prop) (m : cmd St A) (Q Q' : result A → St → Prop) :
  triple P' m Q' → (∀ s, P s → P' s) → (∀ r s, Q' r s → Q r s) → triple P m Q.
Proof. intros Hm HP HQ s Hs. by apply HQ, Hm, HP. Qed.

(** ** Tactics *)

(** Split every successful [rbind] hypothesis into its steps. *)
Ltac inv_ok :=
  repeat match goal with
  | H : rbind (require ?b _ _) _ = Ok _ |- _ =>
      let Hb := fresh "Hg" in
      apply rbind_ok in H as ([] & Hb & H); apply require_ok in Hb
  | H : rbind ?m _ = Ok _ |- _ =>
      let x := fresh "x" in let Hx := fresh "Hx" in
      apply rbind_ok in H as (x & Hx & H)
  | H : Ok _ = Ok _ |- _ => injection H as H; subst
  | H : Err _ = Ok _ |- _ => discriminate H
  | H : Ok _ = Err _ |- _ => discriminate H
  | H : raise _ _ = Ok _ |- _ => discriminate H
  end.

(** Case on every [if]/[match] scrutinee the hypothesis [H] is stuck on. *)
Ltac case_hyp H :=
  repeat match type of H with
  | context [match ?x with _ => _ end] =>
      lazymatch x with
      | context [match _ with _ => _ end] => fail
      | _ => let E := fresh "E" in destruct x eqn:E
      end
  end.

Ltac case_goal :=
  repeat match goal with
  | |- context [match ?x with _ => _ end] =>
      lazymatch x with
      | context [match _ with _ => _ end] => fail
      | _ => let E := fresh "E" in destruct x eqn:E
      end
  end.

Create HintDb mwf.
Create Rewrite HintDb mwf_simp.

(** ** Total orders: the comparison Python's [sorted] uses *)

(** Types whose values Python compares totally: strings by code point,
    tuples and lists lexicographically, integers by value. *)
Class PyOrd (A : Type) := py_leb : A → A → bool.

Class PyOrdLaws (A : Type) `{PyOrd A} := {
  py_leb_total x y : py_leb x y = true ∨ py_leb y x = true;
  py_leb_antisym x y : py_leb x y = true → py_leb y x = true → x = y;
  py_leb_trans x y z : py_leb x y = true → py_leb y z = true → py_leb x z = true
}.

Definition py_le {A} `{PyOrd A} (x y : A) : Prop := py_leb x y = true.

#[export] Instance py_le_dec {A} `{PyOrd A} : RelDecision (py_le (A:=A)).
Proof. intros x y. unfold py_le. apply _. Defined.

#[export] Instance py_le_total {A} `{PyOrdLaws A} : Total (py_le (A:=A)).
Proof. intros x y. apply py_leb_total. Qed.

#[export] Instance py_le_trans {A} `{PyOrdLaws A} : Transitive (py_le (A:=A)).
Proof. intros x y z. apply py_leb_trans. Qed.

#[export] Instance py_le_antisymm {A} `{PyOrdLaws A} : AntiSymm (=) (py_le (A:=A)).
Proof. intros x y. apply py_leb_antisym. Qed.

Lemma py_leb_refl {A} `{PyOrdLaws A} (x : A) : py_leb x x = true.
Proof. destruct (py_leb_total x x); done. Qed.

#[export] Instance py_ord_Z : PyOrd Z := Z.leb.
#[export] Instance py_ord_laws_Z : PyOrdLaws Z.
Proof. split; unfold py_leb, py_ord_Z; intros; lia. Qed.

#[export] Instance py_ord_nat : PyOrd nat := Nat.leb.
#[export] Instance py_ord_laws_nat : PyOrdLaws nat.
Proof.
  split; unfold py_leb, py_ord_nat; intros *; rewrite ?Nat.leb_le; lia.
Qed.

(** Tuples of two compare by the first component, then by the second. *)
#[export] Instance py_ord_prod {A B} `{EqDecision A, PyOrd A, PyOrd B} : PyOrd (A * B) :=
  λ p q, if bool_decide (p.1 = q.1) then py_leb p.2 q.2 else py_leb p.1 q.1.

#[export] Instance py_ord_laws_prod {A B} `{EqDecision A, PyOrdLaws A, PyOrdLaws B} :
  PyOrdLaws (A * B).
Proof.
  split; unfold py_leb, py_ord_prod.
  - intros [a b] [c d]; cbn. do 2 case_bool_decide; subst; try done; apply py_leb_total.
  - intros [a b] [c d]; cbn. do 2 case_bool_decide; subst; try done.
    + intros ? ?. f_equal. by apply py_leb_antisym.
    + intros ? ?. by destruct (py_leb_antisym a c).
  - intros [a b] [c d] [e f]; cbn. repeat case_bool_decide; subst; try done.
    + apply py_leb_trans.
    + intros ? ?. by destruct (py_leb_antisym c e).
    + apply py_leb_trans.
Qed.

(** Lists and tuples of any length compare lexicographically. *)
Fixpoint list_leb {A} `{EqDecision A, PyOrd A} (l k : list A) : bool :=
  match l, k with
  | [], _ => true
  | _ :: _, [] => false
  | x :: l, y :: k => if bool_decide (x = y) then list_leb l k else py_leb x y
  end.

#[export] Instance py_ord_list {A} `{EqDecision A, PyOrd A} : PyOrd (list A) := list_leb.

#[export] Instance py_ord_laws_list {A} `{EqDecision A, PyOrdLaws A} : PyOrdLaws (list A).
Proof.
  split; unfold py_leb, py_ord_list.
  - induction x as [|a x IH]; intros [|b y]; cbn; auto.
    do 2 case_bool_decide; subst; try done; apply py_leb_total.
  - induction x as [|a x IH]; intros [|b y]; cbn; try done.
    do 2 case_bool_decide; subst; try done.
    + intros ? ?. f_equal. auto.
    + intros ? ?. by destruct (py_leb_antisym a b).
  - induction x as [|a x IH]; intros [|b y] [|c z]; cbn; try done.
    repeat case_bool_decide; subst; try done.
    + apply IH.
    + intros ? ?. by destruct (py_leb_antisym b c).
    + apply py_leb_trans.
Qed.

(** Strings compare as the lists of their code points. *)
Fixpoint codes (s : string) : list nat :=
  match s with EmptyString => [] | String c s => nat_of_ascii c :: codes s end.

Lemma codes_inj s t : codes s = codes t → s = t.
Proof.
  revert t. induction s as [|c s IH]; intros [|d t]; cbn; try done.
  intros [= Hc Hs]. f_equal; [|auto].
  rewrite <- (ascii_nat_embedding c), <- (ascii_nat_embedding d). by f_equal.
Qed.

#[export] Instance py_ord_string : PyOrd string := λ s t, list_leb (codes s) (codes t).

#[export] Instance py_ord_laws_string : PyOrdLaws string.
Proof.
  split; unfold py_leb, py_ord_string.
  - intros x y. apply (py_leb_total (codes x) (codes y)).
  - intros x y Hx Hy. apply codes_inj. by apply (py_leb_antisym (codes x) (codes y)).
  - intros x y z. apply (py_leb_trans (codes x) (codes y) (codes z)).
Qed.

(** [sorted(l)]. *)
Definition py_sorted {A} `{PyOrd A} (l : list A) : list A := merge_sort py_le l.

(** [sorted(set(l))]. *)
Definition py_sorted_set {A} `{EqDecision A, PyOrd A} (l : list A) : list A :=
  py_sorted (remove_dups l).

Section sorting.
Context {A : Type} `{EqDecision A, PyOrdLaws A}.
Implicit Types l k : list A.

Lemma py_sorted_perm l : py_sorted l ≡ₚ l.
Proof. apply merge_sort_Permutation. Qed.

Lemma py_sorted_sorted l : StronglySorted py_le (py_sorted l).
Proof. apply (StronglySorted_merge_sort py_le). Qed.

Lemma elem_of_py_sorted x l : x ∈ py_sorted l ↔ x ∈ l.
Proof. by rewrite py_sorted_perm. Qed.

(** Two lists with the same elements sort to the same list. *)
Lemma py_sorted_proper l k : l ≡ₚ k → py_sorted l = py_sorted k.
Proof.
  intros Hlk. apply (StronglySorted_unique py_le); auto using py_sorted_sorted.
  by rewrite !py_sorted_perm.
Qed.

Lemma elem_of_py_sorted_set x l : x ∈ py_sorted_set l ↔ x ∈ l.
Proof. unfold py_sorted_set. by rewrite elem_of_py_sorted, elem_of_remove_dups. Qed.

Lemma NoDup_py_sorted_set l : NoDup (py_sorted_set l).
Proof. unfold py_sorted_set. rewrite py_sorted_perm. apply NoDup_remove_dups. Qed.

(** [sorted(set(l))] depends on the set of elements only. *)
Lemma py_sorted_set_ext l k : (∀ x, x ∈ l ↔ x ∈ k) ↔ py_sorted_set l = py_sorted_set k.
Proof.
  split.
  - intros Hlk. apply py_sorted_proper, NoDup_Permutation;
      auto using NoDup_remove_dups. intros x. by rewrite !elem_of_remove_dups.
  - intros Heq x. by rewrite <- (elem_of_py_sorted_set x l), <- (elem_of_py_sorted_set x k), Heq.
Qed.

Lemma py_sorted_id l : StronglySorted py_le l → py_sorted l = l.
Proof.
  intros Hs. apply (StronglySorted_unique py_le); auto using py_sorted_sorted.
  apply py_sorted_perm.
Qed.

Lemma py_sorted_set_idemp l : py_sorted_set (py_sorted_set l) = py_sorted_set l.
Proof. apply py_sorted_set_ext. intros x. apply elem_of_py_sorted_set. Qed.

End sorting.

(** [sorted(l, key=f)]. *)
Definition le_by {A B} `{PyOrd B} (f : A → B) (x y : A) : Prop := py_le (f x) (f y).

#[export] Instance le_by_dec {A B} `{PyOrd B} (f : A → B) : RelDecision (le_by f).
Proof. intros x y. unfold le_by. apply _. Defined.

Definition sort_by {A B} `{PyOrd B} (f : A → B) (l : list A) : list A := merge_sort (le_by f) l.

Section sort_by.
Context {A B : Type} `{EqDecision B, PyOrdLaws B} (f : A → B).
Implicit Types l k : list A.

Lemma sort_by_perm l : sort_by f l ≡ₚ l.
Proof. apply merge_sort_Permutation. Qed.

Lemma elem_of_sort_by x l : x ∈ sort_by f l ↔ x ∈ l.
Proof. by rewrite sort_by_perm. Qed.

Lemma sort_by_sorted l : StronglySorted (le_by f) (sort_by f l).
Proof.
  apply StronglySorted_merge_sort.
  - intros x y z. apply py_leb_trans.
  - intros x y. apply py_leb_total.
Qed.

(** Distinct keys leave one order. *)
Lemma sort_by_unique l k : k ≡ₚ l → NoDup (f <$> l) → StronglySorted (le_by f) l → sort_by f k = l.
Proof.
  intros Hp Hnd Hs. apply (StronglySorted_unique_strong (le_by f)); [|apply sort_by_sorted|done|by rewrite sort_by_perm].
  intros x y Hx Hy Hxy Hyx. rewrite elem_of_sort_by, Hp in Hx.
  assert (f x = f y) as Hf by by apply (py_leb_antisym (f x) (f y)).
  apply list_elem_of_lookup in Hx as [i Hi], Hy as [j Hj].
  assert (i = j) as ->; [|congruence]. apply (NoDup_lookup (f <$> l) i j (f x)); [done| |];
    rewrite list_lookup_fmap, ?Hi, ?Hj; cbn; congruence.
Qed.

Lemma sort_by_id l : NoDup (f <$> l) → StronglySorted (le_by f) l → sort_by f l = l.
Proof. by apply sort_by_unique. Qed.
End sort_by.

Lemma StronglySorted_filter {A} (R : relation A) (P : A → Prop) `{∀ x, Decision (P x)} l :
  StronglySorted R l → StronglySorted R (filter P l).
Proof.
  induction 1 as [|x l Hs IH Hx]; [constructor|]. rewrite filter_cons. case_decide; [|done].
  constructor; [done|]. apply Forall_forall. intros y [_ Hy]%list_elem_of_filter. rewrite Forall_forall in Hx. auto.
Qed.

(** In a sorted list, an earlier element is below a later one. *)
Lemma StronglySorted_lookup {A} (R : relation A) l i j x y :
  StronglySorted R l → l !! i = Some x → l !! j = Some y → i < j → R x y.
Proof.
  intros Hs. revert i j. induction Hs as [|z l Hs IH Hz]; intros i j Hi Hj Hij; [done|].
  destruct j as [|j]; [lia|]. destruct i as [|i]; cbn in *.
  - simplify_eq. rewrite Forall_forall in Hz. apply Hz, list_elem_of_lookup. eauto.
  - apply (IH i j); auto with lia.
Qed.

#[export] Hint Resolve py_sorted_perm py_sorted_sorted NoDup_py_sorted_set py_leb_refl : mwf.
#[export] Hint Rewrite @elem_of_py_sorted @elem_of_py_sorted_set using typeclasses eauto : mwf_simp.

(** ** Integers written as text: Python's [int(text)] in base ten *)

Definition is_space (c : ascii) : bool :=
  let n := nat_of_ascii c in (n =? 32)%nat || ((9 <=? n) && (n <=? 13))%nat || ((28 <=? n) && (n <=? 31))%nat
    || (n =? 133)%nat || (n =? 160)%nat.

Fixpoint lstrip (s : string) : string :=
  match s with
  | String c s' => if is_space c then lstrip s' else s
  | EmptyString => ""
  end.

Fixpoint rstrip (s : string) : string :=
  match s with
  | EmptyString => ""
  | String c s =>
      match rstrip s with
      | EmptyString => if is_space c then "" else String c ""
      | r => String c r
      end
  end.

(** [s.lower()] on code points below 256. *)
Definition lower_char (c : ascii) : ascii :=
  let n := nat_of_ascii c in
  if ((65 <=? n) && (n <=? 90))%nat || ((192 <=? n) && (n <=? 222) && negb (n =? 215))%nat
  then ascii_of_nat (n + 32) else c.

Fixpoint lower (s : string) : string :=
  match s with EmptyString => "" | String c s => String (lower_char c) (lower s) end.

(** [s.strip()]. *)
Definition strip (s : string) : string := rstrip (lstrip s).

Definition digit (c : ascii) : option Z :=
  let n := nat_of_ascii c in
  if ((48 <=? n) && (n <=? 57))%nat then Some (Z.of_nat n - 48)%Z else None.

(** Digits with single underscores between them; [after] tells whether the
    previous character was a digit. *)
Fixpoint int_digits (s : string) (acc : Z) (after : bool) : option Z :=
  match s with
  | EmptyString => if after then Some acc else None
  | String c s =>
      match digit c with
      | Some d => int_digits s (acc * 10 + d)%Z true
      | None => if after && (nat_of_ascii c =? 95)%nat then int_digits s acc false else None
      end
  end.

Definition py_int (s : string) : option Z :=
  match strip s with
  | String "+" r => int_digits r 0 false
  | String "-" r => Z.opp <$> int_digits r 0 false
  | r => int_digits r 0 false
  end.

(** ** Sums over a dictionary *)

Definition sum_values (m : gmap string Z) : Z := map_fold (λ _ v acc, v + acc)%Z 0%Z m.

Lemma sum_values_empty : sum_values ∅ = 0%Z.
Proof. apply map_fold_empty. Qed.

Lemma sum_values_insert_new (m : gmap string Z) k v :
  m !! k = None → sum_values (<[k:=v]> m) = (v + sum_values m)%Z.
Proof. intros Hk. unfold sum_values. apply map_fold_insert_L; [intros; lia|done]. Qed.

Lemma sum_values_delete (m : gmap string Z) k v :
  m !! k = Some v → sum_values m = (v + sum_values (delete k m))%Z.
Proof.
  intros Hk. rewrite <- (insert_delete_id m k v) at 1 by done.
  apply sum_values_insert_new, lookup_delete_eq.
Qed.

Lemma sum_values_insert (m : gmap string Z) k v w :
  m !! k = Some v → sum_values (<[k:=w]> m) = (sum_values m - v + w)%Z.
Proof.
  intros Hk. rewrite (sum_values_delete m k v) by done.
  rewrite <- insert_delete_eq, sum_values_insert_new by apply lookup_delete_eq. lia.
Qed.

(** Pointwise comparison of two dictionaries over the same keys. *)
Lemma sum_values_le (m1 m2 : gmap string Z) :
  (∀ k v, m1 !! k = Some v → ∃ w, m2 !! k = Some w ∧ (v ≤ w)%Z) →
  (∀ k, is_Some (m2 !! k) → is_Some (m1 !! k)) →
  (sum_values m1 ≤ sum_values m2)%Z ∧
  (sum_values m1 < sum_values m2 → ∃ k v w, m1 !! k = Some v ∧ m2 !! k = Some w ∧ v < w)%Z.
Proof.
  revert m2. induction m1 as [|k v m1 Hk IH] using map_ind; intros m2 Hle Hdom.
  - assert (m2 = ∅) as ->.
    { apply map_eq. intros k. rewrite lookup_empty. apply eq_None_not_Some. intros Hs.
      apply Hdom in Hs as [? ?]. by rewrite lookup_empty in *. }
    split; [done|lia].
  - destruct (Hle k v) as (w & Hw & Hvw); [apply lookup_insert_eq|].
    destruct (IH (delete k m2)) as [IH1 IH2].
    + intros j x Hj. assert (j ≠ k) by congruence.
      rewrite lookup_delete_ne by done. apply Hle. by rewrite lookup_insert_ne.
    + intros j Hj. destruct (decide (j = k)) as [->|Hne].
      * rewrite lookup_delete_eq in Hj. by destruct Hj.
      * rewrite lookup_delete_ne in Hj by done. apply Hdom in Hj. by rewrite lookup_insert_ne in Hj.
    + rewrite sum_values_insert_new, (sum_values_delete m2 k w) by done. split; [lia|].
      intros Hlt. destruct (decide (v < w)%Z) as [Hl|Hl].
      * exists k, v, w. by rewrite lookup_insert_eq.
      * destruct IH2 as (j & x & y & Hx & Hy & Hxy); [lia|]. exists j, x, y.
        assert (j ≠ k) by congruence.
        rewrite lookup_delete_ne in Hy by done. by rewrite lookup_insert_ne.
Qed.
