(* ===== verification/Json.v ===== *)
(** JSON values, the text [json.dumps] writes for them, and the reading of a
    stored component key by [json.loads]; [JsonText] reads whole documents.

    A [string] stands for the sequence of its code points, so the model covers
    names over the code points 0 to 255.  The reader here accepts arrays of
    strings, the only JSON documents [component_identity.py] stores in that
    column; any other document is an error of the model. *)
From S2P Require Import Prelude.
From Stdlib Require Import DecimalString.

#[local] Arguments String.append !_ _ /.

(** ** Characters *)

Definition hex_digit (n : nat) : ascii :=
  ascii_of_nat (if (n <? 10)%nat then 48 + n else 87 + n).

(** The [\u00XX] escape of a code point below 256. *)
Definition u_escape (c : ascii) : string :=
  String "\" (String "u" (String "0" (String "0"
    (String (hex_digit (nat_of_ascii c / 16)) (String (hex_digit (nat_of_ascii c mod 16)) ""))))).

(** [json.encoder.py_encode_basestring] ([ensure_ascii=False]) and
    [py_encode_basestring_ascii] on one character. *)
Definition escape_char (ensure_ascii : bool) (c : ascii) : string :=
  let n := nat_of_ascii c in
  if (n =? 34)%nat then String "\" (String c "")
  else if (n =? 92)%nat then String "\" (String c "")
  else if (n =? 8)%nat then "\b"
  else if (n =? 9)%nat then "\t"
  else if (n =? 10)%nat then "\n"
  else if (n =? 12)%nat then "\f"
  else if (n =? 13)%nat then "\r"
  else if (n <? 32)%nat then u_escape c
  else if ensure_ascii && (126 <? n)%nat then u_escape c
  else String c "".

Fixpoint escape (ensure_ascii : bool) (s : string) : string :=
  match s with
  | EmptyString => ""
  | String c s => (escape_char ensure_ascii c ++ escape ensure_ascii s)%string
  end.

Definition quote : ascii := ascii_of_nat 34.

Definition dump_string (ensure_ascii : bool) (s : string) : string :=
  String quote (escape ensure_ascii s ++ String quote "")%string.

(** ** Values *)

#[warnings="-register-all"]
Inductive json :=
  | JNull
  | JBool (b : bool)
  | JInt (z : Z)
  (** A number with a fraction or an exponent, or one of [NaN], [Infinity] and
      [-Infinity], by its text. *)
  | JFloat (text : string)
  | JStr (s : string)
  | JArr (l : list json)
  | JObj (l : list (string * json)).

Fixpoint join (sep : string) (l : list string) : string :=
  match l with
  | [] => ""
  | [x] => x
  | x :: l => (x ++ sep ++ join sep l)%string
  end.

Definition dump_int (z : Z) : string := NilZero.string_of_int (Z.to_int z).

(** [json.dumps(value, ensure_ascii=..., separators=(item_sep, key_sep))]. *)
Fixpoint dumps (ensure_ascii : bool) (item_sep key_sep : string) (v : json) : string :=
  match v with
  | JNull => "null"
  | JBool b => if b then "true" else "false"
  | JInt z => dump_int z
  | JFloat t => t
  | JStr s => dump_string ensure_ascii s
  | JArr l => ("[" ++ join item_sep (map (dumps ensure_ascii item_sep key_sep) l) ++ "]")%string
  | JObj l =>
      ("{" ++ join item_sep (map (λ kv, dump_string ensure_ascii kv.1 ++ key_sep
        ++ dumps ensure_ascii item_sep key_sep kv.2)%string l) ++ "}")%string
  end.

(** ** Reading an array of strings *)

Definition hex_value (c : ascii) : option nat :=
  let n := nat_of_ascii c in
  if (48 <=? n)%nat && (n <=? 57)%nat then Some (n - 48)
  else if (97 <=? n)%nat && (n <=? 102)%nat then Some (n - 87)
  else if (65 <=? n)%nat && (n <=? 70)%nat then Some (n - 55)
  else None.

Definition hex4 (a b c d : ascii) : option nat :=
  a ← hex_value a; b ← hex_value b; c ← hex_value c; d ← hex_value d;
  Some (((a * 16 + b) * 16 + c) * 16 + d).

Definition short_escape (c : ascii) : option ascii :=
  let n := nat_of_ascii c in
  if (n =? 34)%nat || (n =? 92)%nat || (n =? 47)%nat then Some c
  else if (n =? 98)%nat then Some (ascii_of_nat 8)
  else if (n =? 102)%nat then Some (ascii_of_nat 12)
  else if (n =? 110)%nat then Some (ascii_of_nat 10)
  else if (n =? 114)%nat then Some (ascii_of_nat 13)
  else if (n =? 116)%nat then Some (ascii_of_nat 9)
  else None.

(** The rest of a string literal after its opening quote: the value and what
    follows the closing quote. *)
Fixpoint scan_string (s : string) : option (string * string) :=
  match s with
  | EmptyString => None
  | String c s =>
      let n := nat_of_ascii c in
      if (n =? 34)%nat then Some ("", s)
      else if (n =? 92)%nat then
        match s with
        | String "u" (String a (String b (String c (String d s)))) =>
            n ← hex4 a b c d;
            if (255 <? n)%nat then None
            else '(v, r) ← scan_string s; Some (String (ascii_of_nat n) v, r)
        | String e s =>
            c ← short_escape e; '(v, r) ← scan_string s; Some (String c v, r)
        | EmptyString => None
        end
      else if (n <? 32)%nat then None
      else '(v, r) ← scan_string s; Some (String c v, r)
  end.

Fixpoint skip_space (s : string) : string :=
  match s with
  | String c s' =>
      let n := nat_of_ascii c in
      if (n =? 32)%nat || (n =? 9)%nat || (n =? 10)%nat || (n =? 13)%nat then skip_space s' else s
  | EmptyString => ""
  end.

(** The elements of an array after an opening bracket or a comma; the fuel
    bounds the number of elements, of which a text of length [n] has at most
    [n]. *)
Fixpoint scan_items (fuel : nat) (s : string) : option (list string * string) :=
  match fuel with
  | O => None
  | S fuel =>
      match skip_space s with
      | String q s =>
          if (nat_of_ascii q =? 34)%nat then
            '(v, r) ← scan_string s;
            match skip_space r with
            | String "," r => '(l, r) ← scan_items fuel r; Some (v :: l, r)
            | String "]" r => Some ([v], r)
            | _ => None
            end
          else None
      | EmptyString => None
      end
  end.

(** [json.loads(value)] of an array of strings. *)
Definition loads_strings (s : string) : option (list string) :=
  match skip_space s with
  | String "[" r =>
      match skip_space r with
      | String "]" r' => if String.eqb (skip_space r') "" then Some [] else None
      | _ =>
          '(l, r') ← scan_items (String.length s) r;
          if String.eqb (skip_space r') "" then Some l else None
      end
  | _ => None
  end.

(** ** The reader inverts the writer *)

Lemma scan_escape_char ea c rest :
  scan_string (escape_char ea c ++ rest)%string
  = ('(v, r) ← scan_string rest; Some (String c v, r)).
Proof. destruct ea, c as [[] [] [] [] [] [] [] []]; reflexivity. Qed.

Lemma app_assoc_str (a b c : string) : ((a ++ b) ++ c)%string = (a ++ (b ++ c))%string.
Proof. induction a as [|x a IH]; cbn; [done|]. by rewrite IH. Qed.

Lemma scan_escape ea s r :
  scan_string (escape ea s ++ String quote r)%string = Some (s, r).
Proof.
  induction s as [|c s IH]; [reflexivity|].
  cbn [escape]. rewrite app_assoc_str, scan_escape_char. by rewrite IH.
Qed.

(** One item of an array, with the space [json.dumps] puts after a comma. *)
Lemma scan_item_dump ea s rest sep :
  skip_space sep = "" →
  skip_space (sep ++ dump_string ea s ++ rest)%string
    = String quote (escape ea s ++ String quote rest)%string.
Proof.
  intros Hsep. unfold dump_string.
  assert (∀ t, skip_space (sep ++ String quote t)%string = String quote t) as Hsp.
  { intros t. clear -Hsep. induction sep as [|c sep IH]; [reflexivity|].
    cbn in *. case_match; [auto|discriminate]. }
  cbn [String.append]. rewrite Hsp. f_equal. rewrite app_assoc_str. reflexivity.
Qed.

Definition dump_items (ea : bool) (gap : string) (l : list string) : string :=
  join (String "," gap) (map (dump_string ea) l).

Lemma dump_items_cons ea gap s t l :
  dump_items ea gap (s :: t :: l)
  = (dump_string ea s ++ String "," (gap ++ dump_items ea gap (t :: l)))%string.
Proof. reflexivity. Qed.

Lemma skip_comma r : skip_space (String "," r) = String "," r.
Proof. reflexivity. Qed.

Lemma scan_items_dump ea gap pre l fuel rest :
  skip_space gap = "" → skip_space pre = "" → l ≠ [] → length l ≤ fuel →
  scan_items fuel (pre ++ dump_items ea gap l ++ String "]" rest)%string = Some (l, rest).
Proof.
  intros Hgap. revert fuel pre. induction l as [|s l IH]; intros fuel pre Hpre Hl Hf; [done|].
  destruct fuel as [|fuel]; [cbn in Hf; lia|].
  destruct l as [|t l].
  - change (dump_items ea gap [s]) with (dump_string ea s).
    cbn [scan_items]. rewrite scan_item_dump by done.
    change (nat_of_ascii quote =? 34)%nat with true; cbv iota.
    rewrite scan_escape. reflexivity.
  - rewrite dump_items_cons, app_assoc_str. cbn [scan_items].
    rewrite scan_item_dump by done.
    change (nat_of_ascii quote =? 34)%nat with true; cbv iota.
    rewrite scan_escape. cbn [String.append]. rewrite app_assoc_str.
    cbn [mbind option_bind]. rewrite skip_comma. cbn in Hf. rewrite IH by (done || cbn; lia). reflexivity.
Qed.

Lemma length_app_str (a b : string) :
  String.length (a ++ b)%string = (String.length a + String.length b)%nat.
Proof. induction a as [|c a IH]; cbn; [done|]. by rewrite IH. Qed.

Lemma length_dump_items ea gap l : length l ≤ String.length (dump_items ea gap l).
Proof.
  induction l as [|s [|t l] IH]; [cbn; lia| |].
  - cbn. lia.
  - rewrite dump_items_cons, length_app_str. cbn [length String.length] in *.
    rewrite length_app_str. lia.
Qed.

Lemma dumps_strings ea gap l :
  dumps ea (String "," gap) ": " (JArr (map JStr l))
  = String "[" (dump_items ea gap l ++ "]")%string.
Proof. cbn [dumps]. rewrite map_map. reflexivity. Qed.

(** Reading back the array of strings [json.dumps] writes gives the array,
    whatever white space separates its items and with or without ASCII escapes. *)
Lemma loads_dumps_strings ea gap l :
  skip_space gap = "" →
  loads_strings (dumps ea (String "," gap) ": " (JArr (map JStr l))) = Some l.
Proof.
  intros Hgap. rewrite dumps_strings. destruct l as [|s l]; [reflexivity|].
  set (body := (dump_items ea gap (s :: l) ++ "]")%string).
  assert (∃ t, body = String quote t) as [t Ht].
  { unfold body. destruct l; cbn; eauto. }
  assert (scan_items (String.length (String "[" body)) body = Some (s :: l, "")) as Hscan.
  { apply (scan_items_dump ea gap ""); try done.
    cbn [String.length]. unfold body. rewrite length_app_str.
    pose proof (length_dump_items ea gap (s :: l)). lia. }
  unfold loads_strings. change (skip_space (String "[" body)) with (String "[" body).
  cbv iota beta. rewrite Hscan, Ht. reflexivity.
Qed.

#[export] Hint Resolve loads_dumps_strings : mwf.
