(* ===== verification/JsonText.v ===== *)
(** [json.loads] on whole documents, and that it inverts [json.dumps]: the texts the
    framework keeps in its [*_json] columns read back as the values it wrote. *)
From S2P Require Import Prelude Json.
From Stdlib Require Import DecimalString DecimalPos DecimalZ.

#[local] Arguments String.append !_ _ /.

(** ** Values *)

Section induction.
Context (P : json → Prop).
Context (null : P JNull) (bool_ : ∀ b, P (JBool b)) (int : ∀ z, P (JInt z)) (float : ∀ t, P (JFloat t)) (str : ∀ s, P (JStr s)).
Context (arr : ∀ l, Forall P l → P (JArr l)) (obj : ∀ l, Forall (λ kv, P kv.2) l → P (JObj l)).

Fixpoint json_nested_ind (v : json) : P v :=
  match v with
  | JNull => null
  | JBool b => bool_ b
  | JInt z => int z
  | JFloat t => float t
  | JStr s => str s
  | JArr l => arr l ((fix go (l : list json) : Forall P l :=
      match l with [] => List.Forall_nil P | v :: l => List.Forall_cons P v l (json_nested_ind v) (go l) end) l)
  | JObj l => obj l ((fix go (l : list (string * json)) : Forall (λ kv, P kv.2) l :=
      match l with [] => List.Forall_nil _ | kv :: l => List.Forall_cons (λ kv, P kv.2) kv l (json_nested_ind kv.2) (go l) end) l)
  end.
End induction.

#[export] Instance json_eq_dec : EqDecision json.
Proof.
  unfold EqDecision. fix go 1. intros [|b|z|t|s|l|l] [|b'|z'|t'|s'|l'|l']; try (right; discriminate); try (left; reflexivity).
  - destruct (decide (b = b')) as [->|]; [by left|right; congruence].
  - destruct (decide (z = z')) as [->|]; [by left|right; congruence].
  - destruct (decide (t = t')) as [->|]; [by left|right; congruence].
  - destruct (decide (s = s')) as [->|]; [by left|right; congruence].
  - assert (Decision (l = l')) as [->|].
    { revert l'. induction l as [|v l IH]; intros [|v' l']; try (right; discriminate); [by left|].
      destruct (go v v') as [->|]; [|right; congruence]. destruct (IH l') as [->|]; [by left|right; congruence]. }
    + by left.
    + right; congruence.
  - assert (Decision (l = l')) as [->|].
    { revert l'. induction l as [|[k v] l IH]; intros [|[k' v'] l']; try (right; discriminate); [by left|].
      destruct (decide (k = k')) as [->|]; [|right; congruence].
      destruct (go v v') as [->|]; [|right; congruence]. destruct (IH l') as [->|]; [by left|right; congruence]. }
    + by left.
    + right; congruence.
Defined.

(** A Python dictionary: its items in insertion order; assignment keeps the place of a key. *)
Definition dict : Type := list (string * json).

Fixpoint dict_get (k : string) (d : dict) : option json :=
  match d with [] => None | kv :: d => if bool_decide (kv.1 = k) then Some kv.2 else dict_get k d end.

Fixpoint dict_set (k : string) (v : json) (d : dict) : dict :=
  match d with
  | [] => [(k, v)]
  | kv :: d => if bool_decide (kv.1 = k) then (k, v) :: d else kv :: dict_set k v d
  end.

Definition dict_of (l : list (string * json)) : dict := foldl (λ d kv, dict_set kv.1 kv.2 d) [] l.

(** [sort_keys=True]. *)
Fixpoint sort_keys (v : json) : json :=
  match v with
  | JArr l => JArr (map sort_keys l)
  | JObj l => JObj (sort_by fst (map (λ kv, (kv.1, sort_keys kv.2)) l))
  | _ => v
  end.

(** ** Reading *)

Definition is_digit (c : ascii) : bool := let n := nat_of_ascii c in (48 <=? n)%nat && (n <=? 57)%nat.

Fixpoint digits (s : string) : string * string :=
  match s with
  | String c r => if is_digit c then let '(d, r) := digits r in (String c d, r) else ("", s)
  | EmptyString => ("", "")
  end.

Definition scan_int (s : string) : option (string * string) :=
  let '(sign, r) := match s with String "-" r => ("-", r) | _ => ("", s) end in
  match r with
  | String "0" r => Some ((sign ++ "0")%string, r)
  | String c _ => if is_digit c then let '(d, r) := digits r in Some ((sign ++ d)%string, r) else None
  | EmptyString => None
  end.

(** The fraction and the exponent of a number, empty when there is none. *)
Definition scan_fraction (s : string) : string * string :=
  match s with
  | String "." r => let '(d, r') := digits r in if String.eqb d "" then ("", s) else (String "." d, r')
  | _ => ("", s)
  end.

Definition scan_exponent (s : string) : string * string :=
  match s with
  | String c r =>
      if bool_decide (c = "e"%char) || bool_decide (c = "E"%char) then
        let '(sign, r) := match r with String "-" r => ("-", r) | String "+" r => ("+", r) | _ => ("", r) end in
        let '(d, r') := digits r in
        if String.eqb d "" then ("", s) else (String c (sign ++ d), r')
      else ("", s)
  | EmptyString => ("", s)
  end.

Definition scan_number (s : string) : option (json * string) :=
  '(i, r) ← scan_int s;
  let '(f, r) := scan_fraction r in
  let '(e, r) := scan_exponent r in
  if String.eqb (f ++ e) "" then z ← NilZero.int_of_string i; Some (JInt (Z.of_int z), r) else Some (JFloat (i ++ f ++ e), r).

Fixpoint strip_prefix (p s : string) : option string :=
  match p, s with
  | EmptyString, _ => Some s
  | String c p, String d s => if bool_decide (c = d) then strip_prefix p s else None
  | _, _ => None
  end.

Fixpoint scan_constant (table : list (string * json)) (s : string) : option (json * string) :=
  match table with
  | [] => None
  | (p, v) :: table => match strip_prefix p s with Some r => Some (v, r) | None => scan_constant table s end
  end.

Definition constants : list (string * json) :=
  [("null", JNull); ("true", JBool true); ("false", JBool false); ("NaN", JFloat "NaN"); ("Infinity", JFloat "Infinity");
   ("-Infinity", JFloat "-Infinity")].

(** The value a text begins with and what follows it; arrays and objects from their first
    element. *)
Fixpoint scan_value (fuel : nat) (s : string) : option (json * string) :=
  match fuel with
  | O => None
  | S fuel =>
      match s with
      | EmptyString => None
      | String c r =>
          if bool_decide (c = quote) then '(v, r) ← scan_string r; Some (JStr v, r)
          else if bool_decide (c = "["%char) then
            match skip_space r with
            | String "]" r => Some (JArr [], r)
            | r => '(l, r) ← scan_elements fuel r; Some (JArr l, r)
            end
          else if bool_decide (c = "{"%char) then
            match skip_space r with
            | String "}" r => Some (JObj [], r)
            | r => '(l, r) ← scan_members fuel r; Some (JObj (dict_of l), r)
            end
          else match scan_constant constants s with Some q => Some q | None => scan_number s end
      end
  end
with scan_elements (fuel : nat) (s : string) : option (list json * string) :=
  match fuel with
  | O => None
  | S fuel =>
      '(v, r) ← scan_value fuel s;
      match skip_space r with
      | String "]" r => Some ([v], r)
      | String "," r => '(l, r) ← scan_elements fuel (skip_space r); Some (v :: l, r)
      | _ => None
      end
  end
with scan_members (fuel : nat) (s : string) : option (list (string * json) * string) :=
  match fuel with
  | O => None
  | S fuel =>
      match s with
      | String c r =>
          if bool_decide (c = quote) then
            '(k, r) ← scan_string r;
            match skip_space r with
            | String ":" r =>
                '(v, r) ← scan_value fuel (skip_space r);
                match skip_space r with
                | String "}" r => Some ([(k, v)], r)
                | String "," r => '(l, r) ← scan_members fuel (skip_space r); Some ((k, v) :: l, r)
                | _ => None
                end
            | _ => None
            end
          else None
      | EmptyString => None
      end
  end.

(** [json.loads]; two steps for each character suffice ([loads_dumps]). *)
Definition loads (s : string) : option json :=
  '(v, r) ← scan_value (2 + 2 * String.length s) (skip_space s);
  if String.eqb (skip_space r) "" then Some v else None.

Example loads_nested : loads " [ 1, -20 ,3.5e+2, [], {} , [true,null ] ] "
  = Some (JArr [JInt 1; JInt (-20); JFloat "3.5e+2"; JArr []; JObj []; JArr [JBool true; JNull]]).
Proof. vm_compute. reflexivity. Qed.

(** ** Reading inverts writing *)

(** The values [json.dumps] writes without loss: no floats, and no key twice. *)
Fixpoint writable (v : json) : bool :=
  match v with
  | JFloat _ => false
  | JArr l => forallb writable l
  | JObj l => bool_decide (NoDup l.*1) && forallb (λ kv, writable kv.2) l
  | _ => true
  end.

Fixpoint weight (v : json) : nat :=
  match v with
  | JArr l => S (foldr (λ v n, S (weight v + n)) 0 l)
  | JObj l => S (foldr (λ kv n, S (weight kv.2 + n)) 0 l)
  | _ => 1
  end%nat.

(** A number ends before this text. *)
Definition ends (s : string) : bool :=
  match s with
  | EmptyString => true
  | String c _ => negb (is_digit c || bool_decide (c ∈ ["."; "e"; "E"]%char))
  end.

Section digits.
Lemma digits_uint d r : ends r = true → digits (NilEmpty.string_of_uint d ++ r)%string = (NilEmpty.string_of_uint d, r).
Proof.
  intros Hr. induction d as [|d IH|d IH|d IH|d IH|d IH|d IH|d IH|d IH|d IH|d IH]; cbn [NilEmpty.string_of_uint]; [|cbn; by rewrite IH..].
  destruct r as [|c r]; [done|]. cbn in Hr |- *. by destruct (is_digit c).
Qed.

Lemma nzhead_zero d d' : Decimal.nzhead d ≠ Decimal.D0 d'.
Proof. induction d; cbn; done || congruence. Qed.

Lemma to_uint_head p d : Pos.to_uint p ≠ Decimal.D0 d.
Proof.
  intros H. assert (Z.to_int (Z.of_int (Z.to_int (Zpos p))) = Decimal.norm (Z.to_int (Zpos p))) as E by apply DecimalZ.to_of.
  rewrite DecimalZ.of_to in E. cbn in E. injection E as E. rewrite H in E. unfold Decimal.unorm in E. cbn in E.
  destruct (Decimal.nzhead d) eqn:Hd; try congruence.
  - pose proof (DecimalPos.Unsigned.to_uint_nonzero p). congruence.
  - by apply nzhead_zero in Hd.
Qed.

Lemma scan_int_uint p (sign : bool) r : ends r = true →
  let text := ((if sign then "-" else "") ++ NilZero.string_of_uint (Pos.to_uint p))%string in
  scan_int (text ++ r)%string = Some (text, r).
Proof.
  intros Hr text. unfold text, NilZero.string_of_uint. pose proof (DecimalPos.Unsigned.to_uint_nonnil p) as Hn. pose proof (to_uint_head p) as Hz.
  destruct (Pos.to_uint p) as [|d|d|d|d|d|d|d|d|d|d] eqn:Hp; [done|by destruct (Hz d)|..];
    destruct sign; unfold scan_int; cbn; by rewrite (digits_uint d r Hr).
Qed.

Lemma scan_number_int z r : ends r = true → scan_number (dump_int z ++ r)%string = Some (JInt z, r).
Proof.
  intros Hr. assert (scan_int (dump_int z ++ r)%string = Some (dump_int z, r)) as Hi.
  { destruct z as [|p|p]; unfold dump_int; cbn [Z.to_int NilZero.string_of_int]; [done| |].
    - by apply (scan_int_uint p false r).
    - by apply (scan_int_uint p true r). }
  unfold scan_number. rewrite Hi. cbn [mbind option_bind].
  assert (scan_fraction r = ("", r)) as ->.
  { destruct r as [|c r]; [done|]. unfold scan_fraction. cbn in Hr. apply negb_true_iff, orb_false_iff in Hr as [_ Hr].
    apply bool_decide_eq_false in Hr. by destruct c as [[] [] [] [] [] [] [] []]; try done; destruct Hr; constructor. }
  assert (scan_exponent r = ("", r)) as ->.
  { destruct r as [|c r]; [done|]. unfold scan_exponent. cbn in Hr. apply negb_true_iff, orb_false_iff in Hr as [_ Hr].
    apply bool_decide_eq_false in Hr. rewrite !bool_decide_eq_false_2; [done|intros ->; apply Hr; set_solver..]. }
  cbn. unfold dump_int. rewrite NilZero.isi; cbn [mbind option_bind]; [by rewrite DecimalZ.of_to|..]; destruct z; cbn; try discriminate.
  - intros [= E]. by apply DecimalPos.Unsigned.to_uint_nonnil in E.
  - intros [= E]. by apply DecimalPos.Unsigned.to_uint_nonnil in E.
Qed.
End digits.

(** *** The text of a value begins with neither white space nor a closing bracket *)

Definition opens (c : ascii) : bool := negb (bool_decide (c ∈ [" "; "009"; "010"; "013"; "]"; "}"; ","; ":"]%char)).

Lemma dump_int_head z : ∃ c t, dump_int z = String c t ∧ (is_digit c = true ∨ c = "-"%char).
Proof.
  assert (∀ p, ∃ c t, NilZero.string_of_uint (Pos.to_uint p) = String c t ∧ is_digit c = true) as Hu.
  { intros p. pose proof (DecimalPos.Unsigned.to_uint_nonnil p). destruct (Pos.to_uint p); [done|..]; cbn; eauto. }
  destruct z as [|p|p]; cbn.
  - eauto.
  - destruct (Hu p) as (c & t & E & ?). eauto.
  - eauto.
Qed.

Lemma dumps_head ea sep ksep v : writable v = true → ∃ c t, dumps ea sep ksep v = String c t ∧ opens c = true.
Proof.
  destruct v as [|[]|z|t|s|l|l]; intros Hw; try discriminate Hw; cbn; eauto.
  - destruct (dump_int_head z) as (c & t & E & Hc). exists c, t. split; [done|].
    unfold opens. apply negb_true_iff, bool_decide_eq_false. intros Hin. destruct Hc as [Hd| ->]; [|set_solver].
    repeat (apply elem_of_cons in Hin as [->|Hin]; [discriminate Hd|]). by apply not_elem_of_nil in Hin.
Qed.

Lemma skip_gap gap s : skip_space gap = "" → skip_space (gap ++ s)%string = skip_space s.
Proof. induction gap as [|c gap IH]; cbn; [done|]. intros H. case_match; [auto|discriminate]. Qed.

Lemma skip_opens c t : opens c = true → skip_space (String c t) = String c t.
Proof.
  intros H. cbn. destruct (_ || _) eqn:E; [|done]. exfalso. unfold opens in H. apply negb_true_iff, bool_decide_eq_false in H. apply H.
  destruct c as [[] [] [] [] [] [] [] []]; try discriminate E; set_solver.
Qed.

Lemma not_closing {A} c t (x y : string → A) : opens c = true →
  match String c t with String "]" r => x r | r => y r end = y (String c t).
Proof. intros H. destruct c as [[] [] [] [] [] [] [] []]; done || discriminate H. Qed.

Lemma dict_set_new k v d : k ∉ d.*1 → dict_set k v d = d ++ [(k, v)].
Proof.
  induction d as [|[k' v'] d IH]; cbn; intros H; [done|]. rewrite bool_decide_eq_false_2 by set_solver. by rewrite IH by set_solver.
Qed.

Lemma dict_of_distinct l : NoDup l.*1 → dict_of l = l.
Proof.
  unfold dict_of. enough (∀ d, NoDup (d ++ l).*1 → foldl (λ d kv, dict_set kv.1 kv.2 d) d l = d ++ l) as H by (intros Hn; by apply (H [])).
  induction l as [|[k v] l IH]; intros d Hn; cbn [foldl]; [by rewrite app_nil_r|].
  rewrite fmap_app in Hn. cbn in Hn. rewrite dict_set_new by (apply NoDup_app in Hn as (_ & Hn & _); set_solver).
  rewrite IH; [by rewrite <- app_assoc|]. rewrite <- app_assoc, fmap_app. exact Hn.
Qed.

Section reading.
Context (ea : bool) (gap kgap : string) (Hgap : skip_space gap = "") (Hkgap : skip_space kgap = "").

Abbreviation dump := (dumps ea (String "," gap) (String ":" kgap)).
Definition member (kv : string * json) : string := (dump_string ea kv.1 ++ String ":" kgap ++ dump kv.2)%string.

Lemma dumps_object l : dump (JObj l) = String "{" (join (String "," gap) (map member l) ++ "}")%string.
Proof. reflexivity. Qed.

Definition reads (v : json) : Prop :=
  ∀ fuel r, (weight v ≤ fuel)%nat → ends r = true → scan_value fuel (dump v ++ r)%string = Some (v, r).

Lemma skip_dump v r : writable v = true → skip_space (gap ++ dump v ++ r)%string = (dump v ++ r)%string.
Proof.
  intros Hw. rewrite skip_gap by done. destruct (dumps_head ea (String "," gap) (String ":" kgap) v Hw) as (c & t & -> & Hc). by apply skip_opens.
Qed.

Lemma read_elements l : l ≠ [] → forallb writable l = true → Forall reads l → ∀ fuel r,
  (foldr (λ v n, S (weight v + n)) 0 l ≤ fuel)%nat →
  scan_elements fuel (join (String "," gap) (map dump l) ++ String "]" r)%string = Some (l, r).
Proof.
  induction l as [|v l IH]; intros Hl Hw Hr fuel r Hf; [done|]. destruct fuel as [|fuel]; [cbn in Hf; lia|].
  apply Forall_cons in Hr as [Hv Hr]. cbn [forallb] in Hw. apply andb_prop in Hw as [Hwv Hw]. cbn [foldr] in Hf. cbn [scan_elements].
  destruct l as [|v' l].
  - cbn [map join]. rewrite (Hv fuel (String "]" r)) by (done || lia). reflexivity.
  - change (join (String "," gap) (map dump (v :: v' :: l))) with (dump v ++ String "," gap ++ join (String "," gap) (map dump (v' :: l)))%string.
    rewrite app_assoc_str. rewrite Hv by (done || lia). cbn [mbind option_bind String.append]. rewrite skip_comma. cbn [Ascii.eqb].
    set (rest := join (String "," gap) (map dump (v' :: l))) in *.
    rewrite app_assoc_str, skip_gap by done.
    assert (∃ c t, rest = String c t ∧ opens c = true) as (c & t & Hrest & Hc).
    { cbn [forallb] in Hw. apply andb_prop in Hw as [Hwv' _]. destruct (dumps_head ea (String "," gap) (String ":" kgap) v' Hwv') as (c & t & E & Hc).
      unfold rest. destruct l; cbn [map join]; rewrite E; eauto. }
    replace (skip_space (rest ++ String "]" r)%string) with (rest ++ String "]" r)%string by (rewrite Hrest; symmetry; by apply skip_opens).
    rewrite IH by (done || cbn [foldr] in *; lia). reflexivity.
Qed.

Lemma read_members l : l ≠ [] → forallb (λ kv, writable kv.2) l = true → Forall (λ kv, reads kv.2) l → ∀ fuel r,
  (foldr (λ kv n, S (weight kv.2 + n)) 0 l ≤ fuel)%nat →
  scan_members fuel (join (String "," gap) (map member l) ++ String "}" r)%string = Some (l, r).
Proof.
  induction l as [|[k v] l IH]; intros Hl Hw Hr fuel r Hf; [done|]. destruct fuel as [|fuel]; [cbn in Hf; lia|].
  apply Forall_cons in Hr as [Hv Hr]. cbn [forallb] in Hw. apply andb_prop in Hw as [Hwv Hw]. cbn [foldr snd fst] in *.
  assert (∀ rest, ends rest = true → scan_members (S fuel) (member (k, v) ++ rest)%string
    = match skip_space rest with
      | String "}" r => Some ([(k, v)], r)
      | String "," r => '(l, r) ← scan_members fuel (skip_space r); Some ((k, v) :: l, r)
      | _ => None
      end) as Hone.
  { intros rest Hrest. unfold member, dump_string. cbn [fst snd String.append scan_members]. rewrite bool_decide_eq_true_2 by done.
    rewrite !app_assoc_str. cbn [String.append]. rewrite scan_escape. cbn [mbind option_bind]. rewrite app_assoc_str.
    change (skip_space (String ":" (kgap ++ dump v ++ rest)%string)) with (String ":" (kgap ++ dump v ++ rest)%string).
    cbn. rewrite skip_gap by done.
    replace (skip_space (dump v ++ rest)%string) with (dump v ++ rest)%string.
    2:{ destruct (dumps_head ea (String "," gap) (String ":" kgap) v Hwv) as (c & t & -> & Hc). symmetry. by apply skip_opens. }
    rewrite Hv by (done || lia). reflexivity. }
  destruct l as [|[k' v'] l].
  - cbn [map join]. rewrite Hone by done. reflexivity.
  - change (join (String "," gap) (map member ((k, v) :: (k', v') :: l))) with
      (member (k, v) ++ String "," gap ++ join (String "," gap) (map member ((k', v') :: l)))%string.
    rewrite app_assoc_str, Hone by done. cbn [String.append]. rewrite skip_comma.
    rewrite app_assoc_str, skip_gap by done.
    set (rest := join (String "," gap) (map member ((k', v') :: l))) in *.
    assert (∃ t, rest = String quote t) as (t & Hrest) by (unfold rest, member, dump_string; destruct l; cbn [map join]; eauto).
    replace (skip_space (rest ++ String "}" r)%string) with (rest ++ String "}" r)%string by (rewrite Hrest; reflexivity).
    rewrite IH by (done || cbn [foldr] in *; lia). reflexivity.
Qed.

Lemma read_value v : writable v = true → reads v.
Proof.
  induction v as [|b|z|t|s|l IH|l IH] using json_nested_ind; intros Hw fuel r Hf Hr; (destruct fuel as [|fuel]; [cbn in Hf; lia|]).
  - reflexivity.
  - by destruct b.
  - destruct (dump_int_head z) as (c & t & E & Hc). cbn [dumps scan_value]. pose proof (scan_number_int z r Hr) as Hn. rewrite E in Hn |- *.
    cbn [String.append] in *. assert (c ≠ quote ∧ c ≠ "["%char ∧ c ≠ "{"%char) as (H1 & H2 & H3).
    { destruct Hc as [Hd| ->]; [|done]. split_and!; intros ->; discriminate Hd. }
    rewrite !bool_decide_eq_false_2 by done.
    replace (scan_constant constants (String c (t ++ r))) with (@None (json * string)); [done|]. symmetry.
    destruct Hc as [Hd| ->].
    + unfold constants. cbn. rewrite !bool_decide_eq_false_2 by (intros <-; discriminate Hd). reflexivity.
    + destruct z as [|p|p]; cbn in E.
      * discriminate E.
      * pose proof (DecimalPos.Unsigned.to_uint_nonnil p). destruct (Pos.to_uint p); [done|..]; discriminate E.
      * injection E as <-. unfold NilZero.string_of_uint. pose proof (DecimalPos.Unsigned.to_uint_nonnil p). destruct (Pos.to_uint p); [done|..]; reflexivity.
  - discriminate Hw.
  - cbn [dumps]. unfold dump_string. cbn [String.append scan_value]. rewrite bool_decide_eq_true_2 by done.
    rewrite app_assoc_str. cbn [String.append]. by rewrite scan_escape.
  - cbn [dumps String.append scan_value]. rewrite (bool_decide_eq_false_2 ("["%char = quote)), bool_decide_eq_true_2 by done.
    destruct l as [|v l]; [reflexivity|]. rewrite app_assoc_str.
    assert (Forall reads (v :: l)) as Hl.
    { cbn [writable] in Hw. clear -IH Hw. revert IH Hw. generalize (v :: l). intros l0 IH. induction IH as [|x l0 Hx _ IH']; cbn; [by constructor|].
      intros [? ?]%andb_prop. constructor; auto. }
    assert (∃ c t, join (String "," gap) (map dump (v :: l)) = String c t ∧ opens c = true) as (c & t & E & Hc).
    { cbn [writable forallb] in Hw. apply andb_prop in Hw as [Hv _]. destruct (dumps_head ea (String "," gap) (String ":" kgap) v Hv) as (c & t & E & Hc).
      destruct l; cbn [map join]; rewrite E; eauto. }
    pose proof (read_elements (v :: l) ltac:(done) Hw Hl fuel r) as He. rewrite E in He |- *. cbn [String.append] in *. rewrite skip_opens by done.
    etransitivity; [exact (not_closing c _ (λ r, Some (JArr [], r)) (λ s, '(l, r) ← scan_elements fuel s; Some (JArr l, r)) Hc)|].
    cbv beta. rewrite He by (cbn [weight] in Hf; lia). reflexivity.
  - rewrite dumps_object. cbn [String.append scan_value]. rewrite (bool_decide_eq_false_2 ("{"%char = quote)), (bool_decide_eq_false_2 ("{"%char = "["%char)), bool_decide_eq_true_2 by done.
    destruct l as [|kv l]; [reflexivity|]. rewrite app_assoc_str. cbn [writable] in Hw. apply andb_prop in Hw as [Hn%bool_decide_eq_true Hw].
    assert (Forall (λ kv, reads kv.2) (kv :: l)) as Hl.
    { clear -IH Hw. revert IH Hw. generalize (kv :: l). intros l0 IH. induction IH as [|x l0 Hx _ IH']; cbn; [by constructor|].
      intros [? ?]%andb_prop. constructor; auto. }
    assert (∃ t, join (String "," gap) (map member (kv :: l)) = String quote t) as (t & E) by (unfold member, dump_string; destruct l; cbn [map join]; eauto).
    pose proof (read_members (kv :: l) ltac:(done) Hw Hl fuel r) as He. rewrite E in He |- *. cbn [String.append] in *.
    transitivity ('(l, r) ← scan_members fuel (String quote (t ++ String "}" r)); Some (JObj (dict_of l), r)); [reflexivity|].
    rewrite He by (cbn [weight] in Hf; lia). cbn [mbind option_bind]. by rewrite dict_of_distinct.
Qed.

Lemma weight_length v : writable v = true → (S (weight v) ≤ 2 * String.length (dump v))%nat.
Proof.
  induction v as [|b|z|t|s|l IH|l IH] using json_nested_ind; intros Hw.
  - cbn. lia.
  - destruct b; cbn; lia.
  - destruct (dump_int_head z) as (c & t & E & _). cbn [dumps weight]. rewrite E. cbn. lia.
  - discriminate Hw.
  - cbn. lia.
  - cbn [weight dumps writable] in *. cbn [String.append String.length]. rewrite length_app_str. cbn [String.length].
    enough (foldr (λ v n, S (weight v + n)) 0 l ≤ 2 * String.length (join (String "," gap) (map dump l)))%nat by lia.
    induction IH as [|v l Hv _ IH']; [cbn; lia|]. cbn [forallb] in Hw. apply andb_prop in Hw as [Hwv Hw]. specialize (Hv Hwv). specialize (IH' Hw).
    cbn [foldr]. destruct l as [|v' l]; [cbn [map join foldr]; lia|].
    change (join (String "," gap) (map dump (v :: v' :: l))) with (dump v ++ String "," gap ++ join (String "," gap) (map dump (v' :: l)))%string.
    rewrite !length_app_str. cbn [String.length]. lia.
  - rewrite dumps_object. cbn [weight writable] in *. cbn [String.append String.length]. rewrite length_app_str. cbn [String.length]. apply andb_prop in Hw as [_ Hw].
    enough (foldr (λ kv n, S (weight kv.2 + n)) 0 l ≤ 2 * String.length (join (String "," gap) (map member l)))%nat by lia.
    induction IH as [|kv l Hv _ IH']; [cbn; lia|]. cbn [forallb] in Hw. apply andb_prop in Hw as [Hwv Hw]. specialize (Hv Hwv). specialize (IH' Hw).
    cbn [foldr]. assert (String.length (dump kv.2) ≤ String.length (member kv))%nat.
    { unfold member. rewrite !length_app_str. cbn [String.length]. lia. }
    destruct l as [|kv' l]; [cbn [map join foldr]; lia|].
    change (join (String "," gap) (map member (kv :: kv' :: l))) with (member kv ++ String "," gap ++ join (String "," gap) (map member (kv' :: l)))%string.
    rewrite length_app_str. cbn [String.append String.length]. rewrite (length_app_str gap). lia.
Qed.

(** [json.loads(json.dumps(v)) == v], whatever white space the separators hold. *)
Lemma loads_dumps v : writable v = true → loads (dump v) = Some v.
Proof.
  intros Hw. unfold loads. destruct (dumps_head ea (String "," gap) (String ":" kgap) v Hw) as (c & t & E & Hc).
  assert (skip_space (dump v) = dump v) as -> by (rewrite E; by apply skip_opens).
  pose proof (weight_length v Hw). pose proof (read_value v Hw (2 + 2 * String.length (dump v)) "") as Hr.
  assert ((dump v ++ "")%string = dump v) as E0 by (generalize (dump v); intros s; induction s; cbn; congruence).
  rewrite E0 in Hr. rewrite Hr by (done || lia). reflexivity.
Qed.
End reading.
