(* ===== verification/Sha256.v ===== *)
(** SHA-256 (FIPS 180-4) as [hashlib.sha256] computes it, on texts whose characters are
    bytes, with the published test vectors. *)
From S2P Require Import Prelude.

#[local] Open Scope N_scope.

(** 32-bit words. *)
Definition word (n : N) : N := N.land n 0xffffffff.
Definition add32 (x y : N) : N := word (x + y).
Definition rotr (k x : N) : N := N.lor (N.shiftr x k) (word (N.shiftl x (32 - k))).
Definition xor3 (x y z : N) : N := N.lxor (N.lxor x y) z.

Definition big0 (x : N) : N := xor3 (rotr 2 x) (rotr 13 x) (rotr 22 x).
Definition big1 (x : N) : N := xor3 (rotr 6 x) (rotr 11 x) (rotr 25 x).
Definition small0 (x : N) : N := xor3 (rotr 7 x) (rotr 18 x) (N.shiftr x 3).
Definition small1 (x : N) : N := xor3 (rotr 17 x) (rotr 19 x) (N.shiftr x 10).
Definition choose (x y z : N) : N := N.lxor (N.land x y) (N.land (N.lxor x 0xffffffff) z).
Definition majority (x y z : N) : N := xor3 (N.land x y) (N.land x z) (N.land y z).

(** The constants are the first 32 bits of the fractional parts of the cube roots of the
    first 64 primes, and those the state starts from of the square roots of the first 8. *)
Definition is_prime (n : nat) : bool := forallb (λ d, negb (Nat.modulo n d =? 0)%nat) (seq 2 (n - 2)).
Definition primes : list N := Eval vm_compute in N.of_nat <$> filter (λ n, Is_true (is_prime n)) (seq 2 310).
Definition cube_root (x : N) : N :=
  foldl (λ r b, let r' := r + N.shiftl 1 (N.of_nat b) in if r' ^ 3 <=? x then r' else r) 0 (reverse (seq 0 40)).
Definition round_constants : list N := Eval vm_compute in (λ p, word (cube_root (N.shiftl p 96))) <$> primes.

(** The eight working words. *)
Record hash := Hash { ha : N; hb : N; hc : N; hd : N; he : N; hf : N; hg : N; hh : N }.

Definition hash_of (ws : list N) : hash :=
  let w i := nth i ws 0 in Hash (w 0%nat) (w 1%nat) (w 2%nat) (w 3%nat) (w 4%nat) (w 5%nat) (w 6%nat) (w 7%nat).

Definition initial_hash : hash :=
  Eval vm_compute in hash_of ((λ p, word (N.sqrt (N.shiftl p 64))) <$> primes).

(** The message schedule, latest word first. *)
Fixpoint extend (n : nat) (ws : list N) : list N :=
  match n with
  | O => ws
  | S n =>
      let w i := nth i ws 0 in
      extend n (add32 (add32 (small1 (w 1%nat)) (w 6%nat)) (add32 (small0 (w 14%nat)) (w 15%nat)) :: ws)
  end.

Definition hash_round (h : hash) (kw : N * N) : hash :=
  let t1 := add32 (add32 (hh h) (big1 (he h))) (add32 (choose (he h) (hf h) (hg h)) (add32 kw.1 kw.2)) in
  let t2 := add32 (big0 (ha h)) (majority (ha h) (hb h) (hc h)) in
  Hash (add32 t1 t2) (ha h) (hb h) (hc h) (add32 (hd h) t1) (he h) (hf h) (hg h).

Definition compress (h : hash) (block : list N) : hash :=
  let r := foldl hash_round h (zip round_constants (reverse (extend 48 (reverse block)))) in
  Hash (add32 (ha h) (ha r)) (add32 (hb h) (hb r)) (add32 (hc h) (hc r)) (add32 (hd h) (hd r))
    (add32 (he h) (he r)) (add32 (hf h) (hf r)) (add32 (hg h) (hg r)) (add32 (hh h) (hh r)).

(** Bytes, most significant first. *)
Fixpoint to_bytes (n : nat) (x : N) (acc : list N) : list N :=
  match n with O => acc | S n => to_bytes n (N.shiftr x 8) (N.land x 0xff :: acc) end.

Fixpoint words (l : list N) : list N :=
  match l with
  | a :: b :: c :: d :: l => (N.lor (N.lor (N.shiftl a 24) (N.shiftl b 16)) (N.lor (N.shiftl c 8) d)) :: words l
  | _ => []
  end.

Fixpoint blocks (fuel : nat) (l : list N) : list (list N) :=
  match fuel, l with
  | S fuel, _ :: _ => take 16 l :: blocks fuel (drop 16 l)
  | _, _ => []
  end.

(** The message with its end mark, zeros to 56 bytes modulo 64, and its length in bits. *)
Definition padded (l : list N) : list N :=
  let n := length l in
  l ++ 0x80 :: replicate (Nat.modulo (119 - Nat.modulo n 64) 64) 0 ++ to_bytes 8 (8 * N.of_nat n) [].

Fixpoint text_bytes (s : string) : list N :=
  match s with EmptyString => [] | String c s => N_of_ascii c :: text_bytes s end.

Definition text_of (l : list N) : string := foldr (λ b s, String (ascii_of_N b) s) EmptyString l.

(** [sha256(s).digest()]. *)
Definition digest (s : string) : string :=
  let ws := words (padded (text_bytes s)) in
  let h := foldl compress initial_hash (blocks (length ws) ws) in
  text_of (foldr (to_bytes 4) [] [ha h; hb h; hc h; hd h; he h; hf h; hg h; hh h]).

Definition hex_digits (b : N) (s : string) : string :=
  let digit n := ascii_of_N (if n <? 10 then 48 + n else 87 + n) in
  String (digit (N.shiftr b 4)) (String (digit (N.land b 0xf)) s).

(** [sha256(s).hexdigest()]. *)
Definition hexdigest (s : string) : string := foldr hex_digits EmptyString (text_bytes (digest s)).

(** [str.encode('utf-8')] of a text of code points below 256. *)
Fixpoint utf8 (s : string) : string :=
  match s with
  | EmptyString => EmptyString
  | String c s =>
      let n := N_of_ascii c in
      if n <? 128 then String c (utf8 s)
      else String (ascii_of_N (192 + N.shiftr n 6)) (String (ascii_of_N (128 + N.land n 63)) (utf8 s))
  end.

Example digest_empty : hexdigest "" = "e3b0c44298fc1c149afbf4c8996fb92427ae41e4649b934ca495991b7852b855".
Proof. vm_compute. reflexivity. Qed.

Example digest_abc : hexdigest "abc" = "ba7816bf8f01cfea414140de5dae2223b00361a396177a9cb410ff61f20015ad".
Proof. vm_compute. reflexivity. Qed.

Example digest_two_blocks : hexdigest "abcdbcdecdefdefgefghfghighijhijkijkljklmklmnlmnomnopnopq"
  = "248d6a61d20638b8e5c026930c3e6039a33ce45964ff2167f6ecedd419db06c1".
Proof. vm_compute. reflexivity. Qed.

(** ** The digest is 32 bytes, its text 64 lower-case hexadecimal digits *)

Lemma to_bytes_length n x acc : length (to_bytes n x acc) = (n + length acc)%nat.
Proof. revert x acc. induction n as [|n IH]; intros x acc; cbn [to_bytes]; [done|]. rewrite IH. cbn. lia. Qed.

Lemma to_bytes_small n x acc : Forall (λ b, b < 256) acc → Forall (λ b, b < 256) (to_bytes n x acc).
Proof.
  revert x acc. induction n as [|n IH]; intros x acc H; cbn [to_bytes]; [done|]. apply IH. constructor; [|done].
  change 0xff with (N.ones 8). rewrite N.land_ones. by apply N.mod_lt.
Qed.

Lemma text_bytes_of l : Forall (λ b, b < 256) l → text_bytes (text_of l) = l.
Proof.
  induction 1 as [|b l Hb _ IH]; [done|]. change (text_of (b :: l)) with (String (ascii_of_N b) (text_of l)). cbn [text_bytes].
  by rewrite IH, N_ascii_embedding.
Qed.

Lemma digest_bytes s : length (text_bytes (digest s)) = 32%nat ∧ Forall (λ b, b < 256) (text_bytes (digest s)).
Proof.
  assert (∀ ws, Forall (λ b, b < 256) (foldr (to_bytes 4) [] ws) ∧ length (foldr (to_bytes 4) [] ws) = (4 * length ws)%nat) as H.
  { induction ws as [|w ws [IH1 IH2]]; [by split|]. cbn [foldr]. split; [by apply to_bytes_small|]. rewrite to_bytes_length, IH2. cbn. lia. }
  unfold digest. cbv zeta. match goal with |- context [text_of (foldr (to_bytes 4) [] ?ws)] => destruct (H ws) as [H1 H2]; rewrite !(text_bytes_of _ H1) end.
  by split.
Qed.

Definition is_lower_hex (c : ascii) : bool :=
  let n := nat_of_ascii c in ((48 <=? n)%nat && (n <=? 57)%nat) || ((97 <=? n)%nat && (n <=? 102)%nat).

Lemma hex_digits_ok b s : b < 256 → ∃ c c', hex_digits b s = String c (String c' s) ∧ is_lower_hex c = true ∧ is_lower_hex c' = true.
Proof.
  intros Hb. assert (forallb (λ b, match hex_digits (N.of_nat b) "" with String c (String c' "") => is_lower_hex c && is_lower_hex c' | _ => false end) (seq 0 256) = true) as H
    by (vm_compute; reflexivity).
  rewrite forallb_forall in H. specialize (H (N.to_nat b)). rewrite N2Nat.id in H. unfold hex_digits in *. eexists _, _. split; [done|].
  apply andb_prop, H, in_seq. lia.
Qed.

Lemma hexdigest_digits s : String.length (hexdigest s) = 64%nat ∧ forallb is_lower_hex (list_ascii_of_string (hexdigest s)) = true.
Proof.
  destruct (digest_bytes s) as [Hl Hb]. unfold hexdigest.
  enough (∀ l, Forall (λ b, b < 256) l → String.length (foldr hex_digits "" l) = (2 * length l)%nat
    ∧ forallb is_lower_hex (list_ascii_of_string (foldr hex_digits "" l)) = true) as H by (destruct (H _ Hb) as [-> ?]; split; [lia|done]).
  induction 1 as [|b l Hb' _ [IH1 IH2]]; [done|]. cbn [foldr]. destruct (hex_digits_ok b (foldr hex_digits "" l) Hb') as (c & c' & -> & Hc & Hc').
  cbn. rewrite IH1, IH2, Hc, Hc'. split; [lia|done].
Qed.
