(* ===== verification/DiGraph.v ===== *)
(** The interface [topology.py] uses of the third-party package networkx: the
    directed graph [nx.DiGraph] and its algorithms, as a class of operations
    ([NxOps]) with the documented behaviour as laws ([NxLaws]), and a concrete
    implementation of the class ([ListGraph]) on which the operations of the
    framework can be evaluated. *)
From S2P Require Import Prelude.

(** ** Operations *)

(** [nx_scc], [nx_descendants], [nx_ancestors] return sets: their lists are
    read up to order.  [nx_descendants], [nx_ancestors] raise on a node outside
    the graph and the two sorts raise on a cyclic graph. *)
Class NxOps (V G : Type) := {
  nx_empty : G;
  nx_add_node : V → G → G;
  nx_add_edge : V → V → G → G;
  nx_nodes : G → list V;
  nx_edges : G → list (V * V);
  nx_scc : G → list (list V);
  nx_descendants : G → V → result (list V);
  nx_ancestors : G → V → result (list V);
  nx_topological_sort : G → result (list V);
  nx_lex_topological_sort : G → result (list V);
  nx_subgraph : G → list V → G
}.

Section notions.
Context {V G : Type} `{NxOps V G}.

Definition edge (g : G) (u v : V) : Prop := (u, v) ∈ nx_edges g.

(** A directed path of at least one edge, and of any length. *)
Definition reaches (g : G) : V → V → Prop := tc (edge g).
Definition reaches_or_self (g : G) : V → V → Prop := rtc (edge g).

Definition acyclic (g : G) : Prop := ∀ v, ¬ reaches g v v.

(** [g.has_edge(u, v)] and [u in g]. *)
Definition nx_has_edge `{EqDecision V} (g : G) (u v : V) : bool :=
  bool_decide ((u, v) ∈ nx_edges g).
Definition nx_has_node `{EqDecision V} (g : G) (u : V) : bool :=
  bool_decide (u ∈ nx_nodes g).

(** [g.predecessors(v)]. *)
Definition nx_predecessors `{EqDecision V} (g : G) (v : V) : list V :=
  fst <$> filter (λ e, e.2 = v) (nx_edges g).

(** [l] lists the nodes of [g], each once, every edge going forward. *)
Definition topological_order (g : G) (l : list V) : Prop :=
  l ≡ₚ nx_nodes g ∧
  ∀ u v i j, edge g u v → l !! i = Some u → l !! j = Some v → i < j.

End notions.

Class NxLaws (V G : Type) `{EqDecision V, PyOrd V, NxOps V G} := {
  nx_nodes_NoDup (g : G) : NoDup (nx_nodes g);
  nx_edges_NoDup (g : G) : NoDup (nx_edges g);
  nx_edge_nodes (g : G) u v : edge g u v → u ∈ nx_nodes g ∧ v ∈ nx_nodes g;
  nx_nodes_empty v : v ∉ nx_nodes (nx_empty (V:=V) (G:=G));
  nx_edge_empty u v : ¬ edge (nx_empty (V:=V) (G:=G)) u v;
  nx_nodes_add_node (g : G) u v : v ∈ nx_nodes (nx_add_node u g) ↔ v = u ∨ v ∈ nx_nodes g;
  nx_edge_add_node (g : G) w u v : edge (nx_add_node w g) u v ↔ edge g u v;
  nx_nodes_add_edge (g : G) a b v :
    v ∈ nx_nodes (nx_add_edge a b g) ↔ v = a ∨ v = b ∨ v ∈ nx_nodes g;
  nx_edge_add_edge (g : G) a b u v :
    edge (nx_add_edge a b g) u v ↔ (u = a ∧ v = b) ∨ edge g u v;
  nx_scc_cover (g : G) v : v ∈ nx_nodes g ↔ ∃ c, c ∈ nx_scc g ∧ v ∈ c;
  nx_scc_mutual (g : G) c u v : c ∈ nx_scc g → u ∈ c →
    (v ∈ c ↔ reaches_or_self g u v ∧ reaches_or_self g v u);
  nx_scc_disjoint (g : G) i j c d v :
    nx_scc g !! i = Some c → nx_scc g !! j = Some d → v ∈ c → v ∈ d → i = j;
  nx_scc_nonempty (g : G) : [] ∉ nx_scc g;
  nx_descendants_spec (g : G) u l : nx_descendants g u = Ok l →
    u ∈ nx_nodes g ∧ ∀ v, v ∈ l ↔ reaches g u v ∧ v ≠ u;
  nx_descendants_ok (g : G) u : u ∈ nx_nodes g → ∃ l, nx_descendants g u = Ok l;
  nx_ancestors_spec (g : G) v l : nx_ancestors g v = Ok l →
    v ∈ nx_nodes g ∧ ∀ u, u ∈ l ↔ reaches g u v ∧ u ≠ v;
  nx_ancestors_ok (g : G) u : u ∈ nx_nodes g → ∃ l, nx_ancestors g u = Ok l;
  nx_topological_sort_spec (g : G) l :
    nx_topological_sort g = Ok l → topological_order g l;
  nx_topological_sort_ok (g : G) : acyclic g → ∃ l, nx_topological_sort g = Ok l;
  nx_lex_topological_sort_spec (g : G) l :
    nx_lex_topological_sort g = Ok l → topological_order g l;
  nx_lex_topological_sort_ok (g : G) : acyclic g → ∃ l, nx_lex_topological_sort g = Ok l;
  (** the lexicographical sort does not depend on insertion order *)
  nx_lex_topological_sort_ext (g h : G) :
    (∀ v, v ∈ nx_nodes g ↔ v ∈ nx_nodes h) → (∀ u v, edge g u v ↔ edge h u v) →
    nx_lex_topological_sort g = nx_lex_topological_sort h;
  nx_nodes_subgraph (g : G) s v : v ∈ nx_nodes (nx_subgraph g s) ↔ v ∈ nx_nodes g ∧ v ∈ s;
  nx_edge_subgraph (g : G) s u v :
    edge (nx_subgraph g s) u v ↔ edge g u v ∧ u ∈ s ∧ v ∈ s
}.

#[export] Hint Resolve nx_nodes_NoDup nx_edges_NoDup : mwf.

Lemma reaches_in_nodes `{NxLaws V G} (g : G) u v :
  reaches g u v → u ∈ nx_nodes g ∧ v ∈ nx_nodes g.
Proof.
  induction 1 as [u v Huv|u w v Huw _ [_ IH]]; [by apply nx_edge_nodes|].
  split; [|done]. by apply nx_edge_nodes in Huw as [? _].
Qed.

(** ** A concrete graph *)

(** What was added, in insertion order: single nodes and edges. *)
Record list_graph (V : Type) := ListGraph {
  lg_added : list V;
  lg_edges : list (V * V)
}.
Arguments ListGraph {V} _ _.
Arguments lg_added {V} _.
Arguments lg_edges {V} _.

(** First occurrences, in order. *)
Definition dedup {A} `{EqDecision A} (l : list A) : list A := reverse (remove_dups (reverse l)).

Lemma elem_of_dedup {A} `{EqDecision A} (v : A) (l : list A) : v ∈ dedup l ↔ v ∈ l.
Proof. unfold dedup. by rewrite elem_of_reverse, elem_of_remove_dups, elem_of_reverse. Qed.

Lemma NoDup_dedup {A} `{EqDecision A} (l : list A) : NoDup (dedup l).
Proof. unfold dedup. rewrite reverse_Permutation. apply NoDup_remove_dups. Qed.

Section list_graph.
Context {V : Type} `{EqDecision V, PyOrdLaws V}.
Implicit Types (g : list_graph V) (u v w : V) (ks : list V).

Definition lg_nodes g : list V :=
  dedup (lg_added g ++ mjoin ((λ e, [e.1; e.2]) <$> lg_edges g)).

Definition lg_add_node v g : list_graph V := ListGraph (lg_added g ++ [v]) (lg_edges g).

Definition lg_add_edge u v g : list_graph V :=
  ListGraph (lg_added g ++ filter (.∉ lg_nodes g) [u; v]) (lg_edges g ++ [(u, v)]).

(** Warshall's closure: is there a path from [u] to [v] whose inner nodes are
    all in [ks]? *)
Fixpoint via g ks u v : bool :=
  match ks with
  | [] => bool_decide ((u, v) ∈ lg_edges g)
  | k :: ks => via g ks u v || (via g ks u k && via g ks k v)
  end.

Definition lg_reachb g u v : bool := via g (lg_nodes g) u v.

Definition lg_descendants g u : result (list V) :=
  if bool_decide (u ∈ lg_nodes g)
  then Ok (filter (λ v, lg_reachb g u v = true ∧ v ≠ u) (lg_nodes g))
  else raise NetworkXError "The node is not in the graph.".

Definition lg_ancestors g v : result (list V) :=
  if bool_decide (v ∈ lg_nodes g)
  then Ok (filter (λ u, lg_reachb g u v = true ∧ u ≠ v) (lg_nodes g))
  else raise NetworkXError "The node is not in the graph.".

(** The nodes mutually reachable with [u], [u] included. *)
Definition lg_component g u : list V :=
  filter (λ v, v = u ∨ (lg_reachb g u v = true ∧ lg_reachb g v u = true)) (lg_nodes g).

Definition lg_scc g : list (list V) := dedup (lg_component g <$> lg_nodes g).

(** Sorting by the number of ancestors, ties by the node order. *)
Definition lg_rank g v : nat := length (filter (λ u, lg_reachb g u v = true) (lg_nodes g)).

Definition lg_sort g : result (list V) :=
  if forallb (λ v, negb (lg_reachb g v v)) (lg_nodes g)
  then Ok (snd <$> py_sorted ((λ v, (lg_rank g v, v)) <$> lg_nodes g))
  else raise NetworkXError "Graph contains a cycle.".

Definition lg_subgraph g (s : list V) : list_graph V :=
  ListGraph (filter (.∈ s) (lg_nodes g))
            (filter (λ e, e.1 ∈ s ∧ e.2 ∈ s) (lg_edges g)).

#[export] Instance list_graph_ops : NxOps V (list_graph V) := {
  nx_empty := ListGraph [] [];
  nx_add_node := lg_add_node;
  nx_add_edge := lg_add_edge;
  nx_nodes := lg_nodes;
  nx_edges := λ g, dedup (lg_edges g);
  nx_scc := lg_scc;
  nx_descendants := lg_descendants;
  nx_ancestors := lg_ancestors;
  nx_topological_sort := lg_sort;
  nx_lex_topological_sort := lg_sort;
  nx_subgraph := lg_subgraph
}.

(** *** The laws hold of it *)

Lemma lg_edge g u v : edge g u v ↔ (u, v) ∈ lg_edges g.
Proof. apply elem_of_dedup. Qed.

Lemma elem_of_lg_nodes g v :
  v ∈ lg_nodes g ↔ v ∈ lg_added g ∨ ∃ u, (u, v) ∈ lg_edges g ∨ (v, u) ∈ lg_edges g.
Proof.
  unfold lg_nodes. rewrite elem_of_dedup, elem_of_app, list_elem_of_join.
  f_equiv. split.
  - intros (l & Hv & ([a b] & -> & He)%list_elem_of_fmap). cbn in Hv. set_solver.
  - intros (u & [He|He]); eexists; (split; [|apply list_elem_of_fmap; eauto]); set_solver.
Qed.

Lemma lg_edge_nodes g u v : edge g u v → u ∈ lg_nodes g ∧ v ∈ lg_nodes g.
Proof. rewrite lg_edge, !elem_of_lg_nodes. eauto 10. Qed.

(** A path whose inner nodes are all in [ks]. *)
Inductive path_via g ks : V → V → Prop :=
  | path_one u v : edge g u v → path_via g ks u v
  | path_cons u w v : edge g u w → w ∈ ks → path_via g ks w v → path_via g ks u v.

Lemma path_via_trans g ks u w v :
  path_via g ks u w → w ∈ ks → path_via g ks w v → path_via g ks u v.
Proof. induction 1; eauto using path_via. Qed.

Lemma path_via_mono g ks ks' u v : ks ⊆ ks' → path_via g ks u v → path_via g ks' u v.
Proof. intros Hs. induction 1; [by apply path_one|]. eapply path_cons; eauto. Qed.

Lemma path_via_split g k ks u v :
  path_via g (k :: ks) u v →
  path_via g ks u v ∨ (path_via g ks u k ∧ path_via g ks k v).
Proof.
  induction 1 as [u v Huv|u w v Huw Hw _ IH]; [left; by apply path_one|].
  apply elem_of_cons in Hw as [->|Hw].
  - right. split; [by apply path_one|]. destruct IH as [?|[??]]; done.
  - destruct IH as [Hv|[Hk Hv]]; [left|right]; eauto using path_via.
Qed.

Lemma via_spec g ks u v : via g ks u v = true ↔ path_via g ks u v.
Proof.
  revert u v. induction ks as [|k ks IH]; intros u v; cbn.
  - rewrite bool_decide_eq_true, <- lg_edge. split; [intros; by apply path_one|].
    destruct 1 as [|u w v _ Hw _]; [done|]. by apply not_elem_of_nil in Hw.
  - rewrite orb_true_iff, andb_true_iff, !IH. split.
    + assert (ks ⊆ k :: ks) as Hs by set_solver.
      intros [Hp|[Hp Hq]]; [by eapply path_via_mono|].
      eapply path_via_trans; [eapply path_via_mono; eauto|left|eapply path_via_mono; eauto].
    + apply path_via_split.
Qed.

Lemma lg_reachb_spec g u v : lg_reachb g u v = true ↔ reaches g u v.
Proof.
  unfold lg_reachb. rewrite via_spec. split.
  - induction 1; [by apply tc_once|]. eapply tc_l; eauto.
  - induction 1 as [|u w v Huw _ IH]; [by apply path_one|].
    eapply path_cons; eauto. by apply lg_edge_nodes in Huw as [_ ?].
Qed.

Lemma reaches_nodes g u v : reaches g u v → u ∈ lg_nodes g ∧ v ∈ lg_nodes g.
Proof.
  induction 1 as [u v Huv|u w v Huw _ [_ IH]]; [by apply lg_edge_nodes|].
  split; [|done]. by apply lg_edge_nodes in Huw as [? _].
Qed.

Lemma lg_reaches_or_self g u v : reaches_or_self g u v ↔ u = v ∨ lg_reachb g u v = true.
Proof. unfold reaches_or_self. by rewrite rtc_tc, lg_reachb_spec. Qed.

Lemma elem_of_lg_component g u v :
  u ∈ lg_nodes g →
  v ∈ lg_component g u ↔ reaches_or_self g u v ∧ reaches_or_self g v u.
Proof.
  intros Hu. unfold lg_component. rewrite list_elem_of_filter, !lg_reaches_or_self.
  split; [intros [[->|[? ?]] _]; auto|]. intros [Huv Hvu].
  destruct Huv as [->|Huv]; [split; [by left|done]|].
  destruct Hvu as [->|Hvu]; [split; [by left|done]|].
  split; [by right|]. apply lg_reachb_spec, reaches_nodes in Huv. apply Huv.
Qed.

Lemma lg_scc_elem g c : c ∈ lg_scc g ↔ ∃ u, u ∈ lg_nodes g ∧ c = lg_component g u.
Proof. unfold lg_scc. rewrite elem_of_dedup, list_elem_of_fmap. naive_solver. Qed.

Lemma lg_scc_mutual_law g c u v :
  c ∈ lg_scc g → u ∈ c → v ∈ c ↔ reaches_or_self g u v ∧ reaches_or_self g v u.
Proof.
  intros (w & Hw & ->)%lg_scc_elem Hu.
  rewrite elem_of_lg_component in * by done. destruct Hu as [Hwu Huw].
  unfold reaches_or_self in *. split; intros [H1 H2]; split; etrans; eauto.
Qed.

Lemma lg_component_eq g u v w :
  u ∈ lg_nodes g → v ∈ lg_nodes g → w ∈ lg_component g u → w ∈ lg_component g v →
  lg_component g u = lg_component g v.
Proof.
  intros Hu Hv Hwu Hwv. rewrite elem_of_lg_component in Hwu, Hwv by done.
  unfold lg_component. apply list_filter_iff. intros x.
  assert (∀ y, (x = y ∨ lg_reachb g y x = true ∧ lg_reachb g x y = true)
    ↔ (reaches_or_self g y x ∧ reaches_or_self g x y)) as Hx
    by (intros y; rewrite !lg_reaches_or_self; naive_solver).
  rewrite !Hx.
  assert (∀ a b c, reaches_or_self g a b → reaches_or_self g b c → reaches_or_self g a c) as Ht
    by (intros; unfold reaches_or_self in *; by etrans).
  destruct Hwu, Hwv. split; intros [??]; split; eauto 6.
Qed.

Lemma lg_scc_disjoint_law g i j c d v :
  lg_scc g !! i = Some c → lg_scc g !! j = Some d → v ∈ c → v ∈ d → i = j.
Proof.
  intros Hi Hj Hc Hd. apply (NoDup_lookup (lg_scc g) i j c); [apply NoDup_dedup|done|].
  rewrite Hj. f_equal. apply list_elem_of_lookup_2, lg_scc_elem in Hi as (a & Ha & ->).
  apply list_elem_of_lookup_2, lg_scc_elem in Hj as (b & Hb & ->).
  by apply (lg_component_eq g b a v).
Qed.

Lemma lg_sort_acyclic g : acyclic g ↔ forallb (λ v, negb (lg_reachb g v v)) (lg_nodes g) = true.
Proof.
  rewrite forallb_forall. unfold acyclic. split.
  - intros Hg v _. destruct (lg_reachb g v v) eqn:E; [|done].
    by apply lg_reachb_spec, Hg in E.
  - intros Hg v Hv. pose proof (reaches_nodes _ _ _ Hv) as [Hn _].
    apply list_elem_of_In, Hg in Hn. apply lg_reachb_spec in Hv. by rewrite Hv in Hn.
Qed.

Lemma lg_rank_edge g u v : acyclic g → edge g u v → lg_rank g u < lg_rank g v.
Proof.
  intros Hg Huv. unfold lg_rank.
  assert (filter (λ w, lg_reachb g w u = true) (lg_nodes g) ++ [u]
          ⊆+ filter (λ w, lg_reachb g w v = true) (lg_nodes g)) as Hsub.
  { apply NoDup_submseteq.
    - apply NoDup_app. split_and!; [apply NoDup_filter, NoDup_dedup| |apply NoDup_singleton].
      intros w [Hw _]%list_elem_of_filter ->%list_elem_of_singleton.
      apply lg_reachb_spec in Hw. by apply Hg in Hw.
    - intros w. rewrite elem_of_app, !list_elem_of_filter, list_elem_of_singleton.
      rewrite !lg_reachb_spec. intros [[Hw Hn]| ->].
      + split; [|done]. unfold reaches in *. eapply tc_r; eauto.
      + split; [by apply tc_once|]. by apply lg_edge_nodes in Huv as [? ?]. }
  apply submseteq_length in Hsub. rewrite length_app in Hsub. cbn in Hsub. lia.
Qed.

Lemma lg_sort_topological g l : lg_sort g = Ok l → topological_order g l.
Proof.
  unfold lg_sort. destruct (forallb _ _) eqn:Hb; [|done]. intros [= <-].
  apply lg_sort_acyclic in Hb. set (ps := py_sorted _).
  assert (ps ≡ₚ (λ v, (lg_rank g v, v)) <$> lg_nodes g) as Hps by apply py_sorted_perm.
  split.
  - rewrite Hps, <- list_fmap_compose. by rewrite list_fmap_id.
  - intros u v i j Huv Hi Hj. apply lg_rank_edge in Huv as Hr; [|done].
    rewrite list_lookup_fmap in Hi, Hj.
    destruct (ps !! i) as [[ru u']|] eqn:Ei; [|done]. destruct (ps !! j) as [[rv v']|] eqn:Ej; [|done].
    cbn in *. simplify_eq.
    assert (ru = lg_rank g u ∧ rv = lg_rank g v) as [-> ->].
    { apply list_elem_of_lookup_2 in Ei, Ej. rewrite Hps in Ei, Ej.
      apply list_elem_of_fmap in Ei as (? & [= -> ->] & _).
      apply list_elem_of_fmap in Ej as (? & [= -> ->] & _). done. }
    destruct (decide (i < j)) as [|Hij]; [done|exfalso].
    destruct (decide (i = j)) as [->|Hne]; [simplify_eq; lia|].
    pose proof (StronglySorted_lookup py_le ps j i _ _ (py_sorted_sorted _) Ej Ei) as Hle.
    specialize (Hle ltac:(lia)). unfold py_le, py_leb, py_ord_prod in Hle. cbn in Hle.
    case_bool_decide; [lia|]. unfold py_leb, py_ord_nat in Hle. apply Nat.leb_le in Hle. lia.
Qed.

Lemma lg_reaches_ext g h u v :
  (∀ u v, edge g u v ↔ edge h u v) → reaches g u v → reaches h u v.
Proof.
  intros He. unfold reaches. induction 1 as [u v Huv|u w v Huw _ IH].
  - by apply tc_once, He.
  - eapply tc_l; [by apply He|done].
Qed.

Lemma lg_reachb_ext g h u v :
  (∀ u v, edge g u v ↔ edge h u v) → lg_reachb g u v = lg_reachb h u v.
Proof.
  intros He. apply eq_true_iff_eq. rewrite !lg_reachb_spec.
  split; apply lg_reaches_ext; [done|]. intros a b. by rewrite He.
Qed.

Lemma lg_sort_ext g h :
  (∀ v, v ∈ lg_nodes g ↔ v ∈ lg_nodes h) → (∀ u v, edge g u v ↔ edge h u v) →
  lg_sort g = lg_sort h.
Proof.
  intros Hn He.
  assert (lg_nodes g ≡ₚ lg_nodes h) as Hp.
  { apply NoDup_Permutation; [apply NoDup_dedup..|done]. }
  assert (acyclic g ↔ acyclic h) as Ha.
  { unfold acyclic. split; intros Hg v Hv; eapply Hg, lg_reaches_ext; try exact Hv; [|done].
    intros a b. by rewrite He. }
  rewrite !lg_sort_acyclic in Ha. apply eq_true_iff_eq in Ha. unfold lg_sort. rewrite Ha.
  clear Ha. destruct (forallb _ _); [|reflexivity]. do 2 f_equal. apply py_sorted_proper.
  assert (∀ v, lg_rank g v = lg_rank h v) as Hr.
  { intros v. unfold lg_rank. rewrite Hp. f_equal. apply list_filter_iff.
    intros u. by rewrite (lg_reachb_ext g h). }
  rewrite Hp. erewrite list_fmap_ext; [done|]. intros i v _. by rewrite Hr.
Qed.

#[export] Instance list_graph_laws : NxLaws V (list_graph V).
Proof.
  split; cbn -[lg_nodes].
  - intros g. apply NoDup_dedup.
  - intros g. apply NoDup_dedup.
  - apply lg_edge_nodes.
  - intros v. rewrite elem_of_lg_nodes; cbn. set_solver.
  - intros u v. rewrite lg_edge; cbn. apply not_elem_of_nil.
  - intros g u v. rewrite !elem_of_lg_nodes; cbn. set_solver.
  - done.
  - intros g a b v. rewrite (elem_of_lg_nodes (lg_add_edge a b g)). unfold lg_add_edge.
    cbn -[lg_nodes filter]. rewrite elem_of_app, list_elem_of_filter.
    setoid_rewrite elem_of_app. setoid_rewrite list_elem_of_singleton.
    rewrite !elem_of_cons. split.
    + intros [[Hv|[_ [->|[->|Hv%not_elem_of_nil]]]]|(u & [[He|[= -> ->]]|[He|[= -> ->]]])];
        try tauto; right; right; apply elem_of_lg_nodes; eauto.
    + intros [->|[->|Hv%elem_of_lg_nodes]]; [right; eauto..|].
      destruct Hv as [Hv|(u & He)]; [by left; left|right; exists u; tauto].
  - intros g a b u v. rewrite !lg_edge; cbn.
    rewrite elem_of_app, list_elem_of_singleton. naive_solver.
  - intros g v. split.
    + intros Hv. exists (lg_component g v). rewrite lg_scc_elem, elem_of_lg_component by done.
      unfold reaches_or_self. eauto using rtc_refl.
    + intros (c & (u & Hu & ->)%lg_scc_elem & Hv). by apply list_elem_of_filter in Hv as [_ ?].
  - apply lg_scc_mutual_law.
  - apply lg_scc_disjoint_law.
  - intros g (u & Hu & Hc)%lg_scc_elem.
    assert (u ∈ lg_component g u) as Hin by (apply list_elem_of_filter; auto).
    rewrite <- Hc in Hin. by apply not_elem_of_nil in Hin.
  - intros g u l. unfold lg_descendants. case_bool_decide; [|done]. intros [= <-].
    split; [done|]. intros v. rewrite list_elem_of_filter, lg_reachb_spec.
    split; [naive_solver|]. intros [Hr Hne]. split; [done|]. by apply reaches_nodes in Hr as [? ?].
  - intros g u Hu. unfold lg_descendants. rewrite bool_decide_true by done. eauto.
  - intros g u l. unfold lg_ancestors. case_bool_decide; [|done]. intros [= <-].
    split; [done|]. intros v. rewrite list_elem_of_filter, lg_reachb_spec.
    split; [naive_solver|]. intros [Hr Hne]. split; [done|]. by apply reaches_nodes in Hr as [? ?].
  - intros g u Hu. unfold lg_ancestors. rewrite bool_decide_true by done. eauto.
  - apply lg_sort_topological.
  - intros g Hg%lg_sort_acyclic. unfold lg_sort. rewrite Hg. eauto.
  - apply lg_sort_topological.
  - intros g Hg%lg_sort_acyclic. unfold lg_sort. rewrite Hg. eauto.
  - apply lg_sort_ext.
  - intros g s v. rewrite elem_of_lg_nodes; cbn. rewrite list_elem_of_filter.
    setoid_rewrite list_elem_of_filter. cbn. split; [|naive_solver].
    intros [?|(u & [[[??] He]|[[??] He]])]; [naive_solver|..]; split; try done;
      by apply lg_edge, lg_edge_nodes in He as [? ?].
  - intros g s u v. rewrite !lg_edge; cbn. rewrite list_elem_of_filter. cbn. naive_solver.
Qed.

End list_graph.
