(* ===== verification/Topology.v ===== *)
(** Component identities, graph declarations and the calculation of Hoeflein
    components and of their quotient: [component_identity.py], [graph.py] and
    [topology.py].

    A node group of a graph file is a name, a collection of names or another
    object; a component set is the list of its members read up to order. *)
From S2P Require Import Prelude Json DiGraph.

(** ** Component identity ([component_identity.py]) *)

(** A component key: the sorted tuple of the members' names. *)
Abbreviation key := (list string).

Definition component_key (members : list string) : key := py_sorted_set members.

Definition encode_component_key (members : list string) : string :=
  dumps true ", " ": " (JArr (map JStr (component_key members))).

Definition decode_component_key (value : string) : result key :=
  match loads_strings value with
  | Some l => Ok l
  | None => raise ValueError "not an array of names"
  end.

Lemma component_key_set l : component_key (component_key l) = component_key l.
Proof. apply py_sorted_set_idemp. Qed.

Lemma elem_of_component_key x l : x ∈ component_key l ↔ x ∈ l.
Proof. apply elem_of_py_sorted_set. Qed.

Lemma component_key_ext l k : component_key l = component_key k ↔ ∀ x, x ∈ l ↔ x ∈ k.
Proof. symmetry. apply py_sorted_set_ext. Qed.

Lemma decode_encode_component_key l :
  decode_component_key (encode_component_key l) = Ok (component_key l).
Proof.
  unfold decode_component_key, encode_component_key.
  by rewrite (loads_dumps_strings true " ").
Qed.

#[export] Hint Rewrite elem_of_component_key component_key_set : mwf_simp.

(** ** Graph declarations ([graph.py]) *)

(** One side of an edge as a graph file may give it. *)
Inductive node_group :=
  | Name (s : string)
  | Names (l : list (option string))   (** [None]: an element that is not a string *)
  | NotIterable.

(** One entry of [EDGES]. *)
Inductive edge_item :=
  | Fan (start end_ : node_group)
  | Sequence (l : list node_group)
  | NotSized.

Definition is_str (o : option string) : bool := bool_decide (is_Some o).

Definition _node_group (value : node_group) : result (list string) :=
  let! values := match value with
                 | Name s => Ok [Some s]
                 | Names l => Ok l
                 | NotIterable => raise RuntimeError "Expected a node name or node collection"
                 end in
  check! negb (bool_decide (values = [])) orelse RuntimeError saying
    "A directed fan node collection cannot be empty" in
  check! forallb is_str values orelse RuntimeError saying
    "Node names must be strings" in
  Ok (omap id values).

Definition fan (start end_ : node_group) : edge_item := Fan start end_.

(** The two sides of an entry. *)
Definition edge_sides (item : edge_item) : result (node_group * node_group) :=
  match item with
  | Fan s e => Ok (s, e)
  | Sequence [s; e] => Ok (s, e)
  | Sequence _ | NotSized => raise RuntimeError "Invalid edge or fan"
  end.

(** The edges of one entry. *)
Definition expand_item (item : edge_item) : result (list (string * string)) :=
  let! sides := edge_sides item in
  let! starts := _node_group sides.1 in
  let! ends := _node_group sides.2 in
  check! negb ((1 <? length starts)%nat && (1 <? length ends)%nat) orelse RuntimeError saying
    "A directed fan may have a node collection on only one side. " in
  Ok (s ← starts; (λ e, (s, e)) <$> ends).

(** [normalize_edges(items)]; [None] is an absent [EDGES]. *)
Definition normalize_edges (items : option (list edge_item)) : result (list (string * string)) :=
  match items with
  | None => raise RuntimeError "graph.py must define EDGES or edges"
  | Some items =>
      let! parts := rmap expand_item items in
      let res := mjoin parts in
      check! negb (bool_decide (res = [])) orelse RuntimeError saying
    "graph.py must define at least one edge" in
      Ok res
  end.

(** ** Topology ([topology.py]) *)

Section topology.
Context {RG QG : Type} `{!NxOps string RG, !NxOps key QG}.

Record ComponentTopology := MkTopology {
  graph_obj : RG;
  autostart_edges : list (string * string)
}.

Implicit Types (t : ComponentTopology) (c : list string).

Definition hoeflein_step (g : RG) (e : string * string) : RG :=
  if nx_has_edge g e.1 e.2 then nx_add_edge e.2 e.1 g else g.

Definition hoeflein_graph t : RG := foldl hoeflein_step (graph_obj t) (autostart_edges t).

Definition hoeflein_components t : list (list string) := nx_scc (hoeflein_graph t).

Definition declared_autostart t : list (string * string) :=
  filter (λ e, nx_has_edge (graph_obj t) e.1 e.2 = true) (autostart_edges t).

Definition JEdge (e : string * string) : json := JArr [JStr e.1; JStr e.2].

Definition graph_shape t : string :=
  dumps false "," ":" (JObj [
    ("nodes", JArr (map JStr (py_sorted (nx_nodes (graph_obj t)))));
    ("edges", JArr (map JEdge (py_sorted (nx_edges (graph_obj t)))));
    ("autostart_edges", JArr (map JEdge (py_sorted_set (declared_autostart t))))]).

Record ComponentTopologySnapshot := MkSnapshot {
  shape_json : string;
  components : list key
}.

Definition snapshot t : ComponentTopologySnapshot :=
  MkSnapshot (graph_shape t) (py_sorted (component_key <$> hoeflein_components t)).

(** The first component holding the name, or the name alone. *)
Definition component_for t (node_name : string) : list string :=
  default [node_name] (list_find (λ c, node_name ∈ c) (hoeflein_components t) ≫= λ p, Some p.2).

Definition component_id t (node_name : string) : key := component_key (component_for t node_name).

(** [component_map]: the components and the index of each node's component. *)
Definition index_members (by_node : gmap string nat) (p : nat * list string) : gmap string nat :=
  foldl (λ m node_name, <[node_name := p.1]> m) by_node p.2.

Definition component_map t : list (list string) * gmap string nat :=
  let components := hoeflein_components t in
  (components, foldl index_members ∅ (imap pair components)).

(** [component_key(components[by_node[name]])]. *)
Definition key_of_node t (node_name : string) : result key :=
  let '(components, by_node) := component_map t in
  match by_node !! node_name ≫= λ i, components !! i with
  | Some c => Ok (component_key c)
  | None => raise KeyError node_name
  end.

Definition dag_step t (dag : result QG) (e : string * string) : result QG :=
  let! dag := dag in
  let! start_key := key_of_node t e.1 in
  let! end_key := key_of_node t e.2 in
  Ok (if bool_decide (start_key = end_key) then dag else nx_add_edge start_key end_key dag).

Definition dag_vertices t : QG :=
  foldl (λ dag c, nx_add_node (component_key c) dag) nx_empty (hoeflein_components t).

Definition component_dag t : result QG :=
  foldl (dag_step t) (Ok (dag_vertices t)) (nx_edges (graph_obj t)).

Definition component_descendants t (component : list string) : result (list key) :=
  let! dag := component_dag t in
  let! descendants := nx_descendants dag (component_key component) in
  let! order := nx_topological_sort dag in
  Ok (filter (.∈ descendants) order).

Definition component_interval t (start_node end_node : string) : result (list key) :=
  check! nx_has_node (graph_obj t) start_node orelse InvalidGraphError saying
    "Unknown interval endpoint node" in
  check! nx_has_node (graph_obj t) end_node orelse InvalidGraphError saying
    "Unknown interval endpoint node" in
  let! dag := component_dag t in
  let start := component_id t start_node in
  let end_ := component_id t end_node in
  let! descendants := nx_descendants dag start in
  check! bool_decide (end_ ∈ descendants) orelse InvalidGraphError saying
    "End component must be a strict directed descendant" in
  let! ancestors := nx_ancestors dag end_ in
  let selected := filter (λ k, k ∈ end_ :: ancestors ∧ k ≠ end_) (start :: descendants) in
  nx_lex_topological_sort (nx_subgraph dag selected).

Definition component_is_cyclic t c : bool :=
  (1 <? length (remove_dups c))%nat || existsb (λ n, nx_has_edge (graph_obj t) n n) c.

Definition component_predecessors t c : list string :=
  filter (.∉ c) (remove_dups (n ← c; nx_predecessors (graph_obj t) n)).

Definition component_predecessor_components t c : list key :=
  remove_dups (component_id t <$> component_predecessors t c).

Definition execution_components t (nodes : option (list string)) : result (list key) :=
  let selected := match nodes with None => nx_nodes (graph_obj t) | Some l => l end in
  if bool_decide (selected = []) then Ok []
  else let! dag := component_dag t in
       let! order := nx_topological_sort dag in
       Ok (filter (λ c, Exists (.∈ selected) c) order).

End topology.

Arguments ComponentTopology RG : clear implicits.

(** ** Facts *)

Section topology_facts.
Context {RG QG : Type} `{!NxOps string RG, !NxOps key QG}.
Context `{!NxLaws string RG, !NxLaws key QG}.
Implicit Types (t : ComponentTopology RG) (u v w n : string) (c : list string) (k : key).

(** *** The augmented graph *)

Lemma hoeflein_step_edge g e u v :
  edge (hoeflein_step g e) u v ↔ edge g u v ∨ (u = e.2 ∧ v = e.1 ∧ edge g e.1 e.2).
Proof.
  unfold hoeflein_step, nx_has_edge. case_bool_decide as He.
  - rewrite nx_edge_add_edge. unfold edge in *. naive_solver.
  - unfold edge in *. naive_solver.
Qed.

Lemma hoeflein_fold_edge (l : list (string * string)) (g0 g : RG) (done : list (string * string)) :
  (∀ u v, edge g u v ↔ edge g0 u v ∨ ((v, u) ∈ done ∧ edge g0 v u)) →
  ∀ u v, edge (foldl hoeflein_step g l) u v
         ↔ edge g0 u v ∨ ((v, u) ∈ done ++ l ∧ edge g0 v u).
Proof.
  revert g done. induction l as [|[a b] l IH]; intros g done Hg u v; cbn.
  - by rewrite app_nil_r.
  - rewrite (cons_middle (a, b) done l), app_assoc. apply IH. intros x y.
    rewrite hoeflein_step_edge, !Hg, elem_of_app, list_elem_of_singleton. cbn.
    split; [|naive_solver]. intros [?|(-> & -> & [?|[? ?]])]; naive_solver.
Qed.

(** The edges of the augmented graph: those of the raw graph and the reverse of
    each declared autostart edge, in whatever order they were declared. *)
Lemma hoeflein_graph_edge t u v :
  edge (hoeflein_graph t) u v
  ↔ edge (graph_obj t) u v ∨ ((v, u) ∈ autostart_edges t ∧ edge (graph_obj t) v u).
Proof.
  apply (hoeflein_fold_edge _ _ _ []). intros x y. split; [by left|].
  intros [?|[H _]]; [done|]. by apply not_elem_of_nil in H.
Qed.

Lemma hoeflein_graph_nodes t n :
  n ∈ nx_nodes (hoeflein_graph t) ↔ n ∈ nx_nodes (graph_obj t).
Proof.
  unfold hoeflein_graph. generalize (autostart_edges t) as l.
  generalize (graph_obj t) as g. intros g l. revert g.
  induction l as [|e l IH]; intros g; [done|]. cbn. rewrite IH.
  unfold hoeflein_step, nx_has_edge. case_bool_decide as He; [|done].
  rewrite nx_nodes_add_edge. apply nx_edge_nodes in He as [? ?]. naive_solver.
Qed.

(** Mutual reachability in the augmented graph. *)
Definition hreach t : string → string → Prop := reaches_or_self (hoeflein_graph t).
Definition same_component t u v : Prop := hreach t u v ∧ hreach t v u.

Lemma hreach_trans t u v w : hreach t u v → hreach t v w → hreach t u w.
Proof. unfold hreach, reaches_or_self. intros. by etrans. Qed.

Lemma hreach_refl t u : hreach t u u.
Proof. apply rtc_refl. Qed.

Lemma hreach_edge t u v : edge (graph_obj t) u v → hreach t u v.
Proof. intros He. apply rtc_once, hoeflein_graph_edge. by left. Qed.

Hint Resolve hreach_refl hreach_edge : mwf.

#[export] Instance same_component_equiv t : Equivalence (same_component t).
Proof.
  unfold same_component. split.
  - intros u. split; apply hreach_refl.
  - by intros u v [? ?].
  - intros u v w [? ?] [? ?]. split; eapply hreach_trans; eauto.
Qed.

(** *** Components *)

Lemma components_cover t n :
  n ∈ nx_nodes (graph_obj t) ↔ ∃ c, c ∈ hoeflein_components t ∧ n ∈ c.
Proof. rewrite <- hoeflein_graph_nodes. apply nx_scc_cover. Qed.

Lemma components_mutual t c u v :
  c ∈ hoeflein_components t → u ∈ c → v ∈ c ↔ same_component t u v.
Proof. apply nx_scc_mutual. Qed.

Lemma components_disjoint t c d n :
  c ∈ hoeflein_components t → d ∈ hoeflein_components t → n ∈ c → n ∈ d →
  component_key c = component_key d.
Proof.
  intros Hc Hd Hnc Hnd. apply component_key_ext. intros v.
  by rewrite (components_mutual t c n v), (components_mutual t d n v).
Qed.

Lemma component_for_node t n :
  n ∈ nx_nodes (graph_obj t) → component_for t n ∈ hoeflein_components t ∧ n ∈ component_for t n.
Proof.
  intros (c & Hc & Hn)%components_cover. unfold component_for.
  destruct (list_find _ _) as [[i d]|] eqn:E; cbn.
  - apply list_find_Some in E as (Hi & Hd & _). split; [|done].
    by eapply list_elem_of_lookup_2.
  - by eapply list_find_None, Forall_forall in E.
Qed.

Lemma elem_of_component_for t n v :
  n ∈ nx_nodes (graph_obj t) → v ∈ component_for t n ↔ same_component t n v.
Proof. intros [? ?]%component_for_node. by apply components_mutual. Qed.

Lemma elem_of_component_id t n v :
  n ∈ nx_nodes (graph_obj t) → v ∈ component_id t n ↔ same_component t n v.
Proof. intros Hn. unfold component_id. by rewrite elem_of_component_key, elem_of_component_for. Qed.

Lemma component_id_eq t u v :
  u ∈ nx_nodes (graph_obj t) → v ∈ nx_nodes (graph_obj t) →
  component_id t u = component_id t v ↔ same_component t u v.
Proof.
  intros Hu Hv. split.
  - intros Heq. rewrite <- elem_of_component_id, Heq, elem_of_component_id by done. done.
  - intros Huv. apply component_key_ext. intros x.
    rewrite !elem_of_component_for by done. by rewrite Huv.
Qed.

Lemma component_key_of_member t c n :
  c ∈ hoeflein_components t → n ∈ c → component_key c = component_id t n.
Proof.
  intros Hc Hn. assert (n ∈ nx_nodes (graph_obj t)) as Hg by (apply components_cover; eauto).
  destruct (component_for_node t n Hg). eapply components_disjoint; eauto.
Qed.

(** *** The node index *)

Lemma index_members_lookup (m : gmap string nat) p n :
  index_members m p !! n = if bool_decide (n ∈ p.2) then Some p.1 else m !! n.
Proof.
  destruct p as [i c]. unfold index_members. cbn. revert m.
  induction c as [|x c IH] using rev_ind; intros m; [done|].
  rewrite foldl_app. cbn. destruct (decide (n = x)) as [->|Hne].
  - rewrite lookup_insert_eq, bool_decide_true by set_solver. done.
  - rewrite lookup_insert_ne, IH by done. repeat case_bool_decide; set_solver.
Qed.

Definition index_all (l : list (list string)) : gmap string nat :=
  foldl index_members ∅ (imap pair l).

Lemma index_all_snoc l c n :
  index_all (l ++ [c]) !! n = if bool_decide (n ∈ c) then Some (length l) else index_all l !! n.
Proof.
  unfold index_all. rewrite imap_app, foldl_app. cbn [imap foldl].
  rewrite index_members_lookup. cbn. by rewrite Nat.add_0_r.
Qed.

Lemma index_fold_lookup (l : list (list string)) n i :
  index_all l !! n = Some i → ∃ c, l !! i = Some c ∧ n ∈ c.
Proof.
  induction l as [|c l IH] using rev_ind; [done|].
  rewrite index_all_snoc. case_bool_decide as Hn.
  - intros [= <-]. exists c. rewrite list_lookup_middle; auto.
  - intros (d & Hd & Hnd)%IH. exists d. split; [|done]. by apply lookup_app_l_Some.
Qed.

Lemma index_fold_total (l : list (list string)) n c :
  c ∈ l → n ∈ c → is_Some (index_all l !! n).
Proof.
  induction l as [|d l IH] using rev_ind; [by intros ?%not_elem_of_nil|].
  intros Hc Hn. rewrite index_all_snoc. case_bool_decide; [eauto|]. apply elem_of_app in Hc as [Hc|Hc]; [auto|].
  apply list_elem_of_singleton in Hc as ->. done.
Qed.

Lemma key_of_node_ok t n :
  n ∈ nx_nodes (graph_obj t) → key_of_node t n = Ok (component_id t n).
Proof.
  intros Hn. destruct (component_for_node t n Hn) as [Hc Hin].
  unfold key_of_node, component_map. fold (index_all (hoeflein_components t)).
  destruct (index_fold_total _ _ _ Hc Hin) as [i Hi].
  destruct (index_fold_lookup _ _ _ Hi) as (d & Hd & Hnd).
  rewrite Hi. cbn. rewrite Hd. f_equal. apply component_key_of_member; [|done].
  by eapply list_elem_of_lookup_2.
Qed.

(** *** The quotient *)

Lemma dag_vertices_nodes t k :
  k ∈ nx_nodes (dag_vertices (QG:=QG) t) ↔ ∃ c, c ∈ hoeflein_components t ∧ k = component_key c.
Proof.
  unfold dag_vertices. induction (hoeflein_components t) as [|c l IH] using rev_ind; cbn.
  - split; [by intros ?%nx_nodes_empty|]. by intros (? & ?%not_elem_of_nil & _).
  - rewrite foldl_app. cbn. rewrite nx_nodes_add_node, IH. set_solver.
Qed.

Lemma dag_vertices_edge t j k : ¬ edge (dag_vertices (QG:=QG) t) j k.
Proof.
  unfold dag_vertices. induction (hoeflein_components t) as [|c l IH] using rev_ind; cbn.
  - apply nx_edge_empty.
  - rewrite foldl_app. cbn. by rewrite nx_edge_add_node.
Qed.

(** A key of the quotient: the component of a node. *)
Lemma component_keys t k :
  (∃ c, c ∈ hoeflein_components t ∧ k = component_key c)
  ↔ ∃ n, n ∈ nx_nodes (graph_obj t) ∧ k = component_id t n.
Proof.
  split.
  - intros (c & Hc & ->). destruct c as [|n c]; [by apply nx_scc_nonempty in Hc|].
    exists n. split; [apply components_cover; eexists; split; [exact Hc|set_solver]|].
    apply component_key_of_member; [done|set_solver].
  - intros (n & Hn & ->). exists (component_for t n). split; [|done].
    by apply component_for_node.
Qed.

Lemma dag_fold_spec t (es : list (string * string)) :
  (∀ u v, (u, v) ∈ es → edge (graph_obj t) u v) →
  ∃ dag : QG, foldl (dag_step t) (Ok (dag_vertices t)) es = Ok dag ∧
    (∀ k, k ∈ nx_nodes dag ↔ ∃ n, n ∈ nx_nodes (graph_obj t) ∧ k = component_id t n) ∧
    (∀ j k, edge dag j k ↔ ∃ u v, (u, v) ∈ es ∧ j = component_id t u ∧
                            k = component_id t v ∧ j ≠ k).
Proof.
  induction es as [|[a b] es IH] using rev_ind; intros Hes.
  - exists (dag_vertices t). split_and!; [done| |].
    + intros k. by rewrite dag_vertices_nodes, component_keys.
    + intros j k. split; [by intros ?%dag_vertices_edge|].
      by intros (? & ? & ?%not_elem_of_nil & _).
  - destruct IH as (dag & Hdag & Hn & He); [set_solver|].
    destruct (nx_edge_nodes _ _ _ (Hes a b ltac:(set_solver))) as [Ha Hb].
    rewrite foldl_app, Hdag. cbn [foldl]. unfold dag_step. cbn [rbind fst snd].
    rewrite !key_of_node_ok by done. cbn [rbind].
    eexists; split; [done|]. case_bool_decide as Heq; split.
    + done.
    + intros j k. rewrite He. setoid_rewrite elem_of_app.
      split; [intros (u & v & ? & ?); eauto 10|].
      intros (u & v & [?|[= -> ->]%list_elem_of_singleton] & -> & -> & Hne); [eauto 10|done].
    + intros k. rewrite nx_nodes_add_edge, Hn. naive_solver.
    + intros j k. rewrite nx_edge_add_edge, He. setoid_rewrite elem_of_app.
      setoid_rewrite list_elem_of_singleton. split.
      * intros [[-> ->]|(u & v & ? & ?)]; eauto 10.
      * intros (u & v & [?|[= -> ->]] & -> & -> & ?); eauto 10.
Qed.

Lemma component_dag_ok t :
  ∃ dag : QG, component_dag t = Ok dag ∧
    (∀ k, k ∈ nx_nodes dag ↔ ∃ n, n ∈ nx_nodes (graph_obj t) ∧ k = component_id t n) ∧
    (∀ j k, edge dag j k ↔ ∃ u v, edge (graph_obj t) u v ∧ j = component_id t u ∧
                            k = component_id t v ∧ j ≠ k).
Proof. by apply dag_fold_spec. Qed.

Lemma component_dag_nodes t (dag : QG) k :
  component_dag t = Ok dag →
  k ∈ nx_nodes dag ↔ ∃ n, n ∈ nx_nodes (graph_obj t) ∧ k = component_id t n.
Proof. intros Hdag. destruct (component_dag_ok t) as (d & Hd & H & _).
  rewrite Hdag in Hd. injection Hd as <-. apply H. Qed.

Lemma component_dag_edge t (dag : QG) j k :
  component_dag t = Ok dag →
  edge dag j k ↔ ∃ u v, edge (graph_obj t) u v ∧ j = component_id t u ∧
                    k = component_id t v ∧ j ≠ k.
Proof. intros Hdag. destruct (component_dag_ok t) as (d & Hd & _ & H).
  rewrite Hdag in Hd. injection Hd as <-. apply H. Qed.

Lemma hreach_step_dag t (dag : QG) u v :
  component_dag t = Ok dag → edge (hoeflein_graph t) u v →
  reaches_or_self dag (component_id t u) (component_id t v).
Proof.
  intros Hdag He. assert (hreach t u v) as Huv by by apply rtc_once.
  destruct (nx_edge_nodes _ _ _ He) as [Hu Hv]. rewrite hoeflein_graph_nodes in Hu, Hv.
  destruct (decide (component_id t u = component_id t v)) as [->|Hne]; [apply rtc_refl|].
  apply rtc_once, (component_dag_edge t); [done|].
  apply hoeflein_graph_edge in He as [He|[_ He]]; [eauto 10|].
  destruct Hne. apply component_id_eq; [done..|]. split; [done|by apply hreach_edge].
Qed.

Lemma dag_reaches_hreach t (dag : QG) j k u v :
  component_dag t = Ok dag → reaches_or_self dag j k →
  u ∈ nx_nodes (graph_obj t) → v ∈ nx_nodes (graph_obj t) →
  j = component_id t u → k = component_id t v → hreach t u v.
Proof.
  intros Hdag Hjk. revert u. induction Hjk as [j|j m k Hjm _ IH]; intros u Hu Hv -> Hk.
  - apply component_id_eq in Hk; [|done..]. apply Hk.
  - apply (component_dag_edge t) in Hjm as (a & b & Hab & Ha & -> & _); [|done].
    destruct (nx_edge_nodes _ _ _ Hab) as [? ?].
    apply component_id_eq in Ha as [? _]; [|done..].
    eapply hreach_trans; [done|]. eapply hreach_trans; [by apply hreach_edge|]. by apply IH.
Qed.

(** The quotient preserves and reflects reachability. *)
Lemma dag_reaches_iff t (dag : QG) u v :
  component_dag t = Ok dag → u ∈ nx_nodes (graph_obj t) → v ∈ nx_nodes (graph_obj t) →
  reaches_or_self dag (component_id t u) (component_id t v) ↔ hreach t u v.
Proof.
  intros Hdag Hu Hv. split; [intros; by eapply dag_reaches_hreach|].
  unfold hreach, reaches_or_self. induction 1 as [|u w v Huw _ IH]; [apply rtc_refl|].
  etrans; [by eapply hreach_step_dag|]. apply IH; [|done].
  apply nx_edge_nodes in Huw as [_ ?]. by rewrite <- hoeflein_graph_nodes.
Qed.

Lemma dag_acyclic t (dag : QG) : component_dag t = Ok dag → acyclic dag.
Proof.
  intros Hdag k Hk. unfold reaches in Hk.
  assert (∃ m, edge dag k m ∧ reaches_or_self dag m k) as (m & Hkm & Hmk).
  { inversion Hk; subst; [eexists; split; [done|apply rtc_refl]|].
    eexists; split; [done|]. by apply tc_rtc. }
  apply (component_dag_edge t) in Hkm as (u & v & Huv & -> & -> & Hne); [|done].
  destruct (nx_edge_nodes _ _ _ Huv) as [? ?].
  apply (dag_reaches_iff t) in Hmk; [|done..].
  destruct Hne. apply component_id_eq; [done..|]. split; [by apply hreach_edge|done].
Qed.

Lemma dag_reaches_strict t (dag : QG) u v :
  component_dag t = Ok dag → u ∈ nx_nodes (graph_obj t) → v ∈ nx_nodes (graph_obj t) →
  reaches dag (component_id t u) (component_id t v) ∧ component_id t v ≠ component_id t u
  ↔ hreach t u v ∧ ¬ hreach t v u.
Proof.
  intros Hdag Hu Hv. pose proof (component_id_eq t u v Hu Hv) as Heq. unfold same_component in Heq.
  pose proof (dag_reaches_iff t dag u v Hdag Hu Hv) as Hr. unfold reaches_or_self in Hr.
  rewrite rtc_tc in Hr. unfold reaches. split.
  - intros [Ht Hne]. assert (hreach t u v) by naive_solver. naive_solver.
  - intros [H1 H2]. assert (component_id t u ≠ component_id t v) by naive_solver. naive_solver.
Qed.

(** *** Keys of the components, as a set *)

Lemma component_keys_NoDup t : NoDup (component_key <$> hoeflein_components t).
Proof.
  apply NoDup_alt. intros i j k Hi Hj. rewrite list_lookup_fmap in Hi, Hj.
  destruct (hoeflein_components t !! i) as [c|] eqn:Ei; [|done].
  destruct (hoeflein_components t !! j) as [d|] eqn:Ej; [|done]. cbn in Hi, Hj.
  injection Hi as Hi. injection Hj as Hj. subst k.
  destruct c as [|n c]; [by apply list_elem_of_lookup_2, nx_scc_nonempty in Ei|].
  apply (nx_scc_disjoint (hoeflein_graph t) i j (n :: c) d n); [done|done|set_solver|].
  rewrite <- elem_of_component_key, Hj, elem_of_component_key. set_solver.
Qed.

Lemma component_keys_perm t t' :
  (∀ n, n ∈ nx_nodes (graph_obj t) ↔ n ∈ nx_nodes (graph_obj t')) →
  (∀ u v, edge (hoeflein_graph t) u v ↔ edge (hoeflein_graph t') u v) →
  component_key <$> hoeflein_components t ≡ₚ component_key <$> hoeflein_components t'.
Proof.
  intros Hn He. apply NoDup_Permutation; [apply component_keys_NoDup..|]. intros k.
  assert (∀ u v, same_component t u v ↔ same_component t' u v) as Hs.
  { assert (∀ t t', (∀ u v, edge (hoeflein_graph t) u v ↔ edge (hoeflein_graph t') u v) →
      ∀ u v, hreach t u v → hreach t' u v) as Hr.
    { intros s s' Hss u v. unfold hreach, reaches_or_self. induction 1; [apply rtc_refl|].
      eapply rtc_l; [by apply Hss|done]. }
    assert (∀ u v, edge (hoeflein_graph t') u v ↔ edge (hoeflein_graph t) u v) as He'
      by (intros; by rewrite He).
    intros u v. unfold same_component. split; intros [? ?]; eauto. }
  assert (∀ s, k ∈ component_key <$> hoeflein_components s
    ↔ ∃ n, n ∈ nx_nodes (graph_obj s) ∧ k = component_id s n) as Hk.
  { intros s. rewrite list_elem_of_fmap, <- component_keys. naive_solver. }
  assert (∀ n, n ∈ nx_nodes (graph_obj t) → component_id t n = component_id t' n) as Hid.
  { intros n Hnn. apply component_key_ext. intros x. rewrite !elem_of_component_for; [apply Hs| |done].
    by apply Hn. }
  rewrite !Hk. split; intros (n & Hnn & ->); exists n; split; try by apply Hn.
  - by apply Hid.
  - symmetry. by apply Hid, Hn.
Qed.

(** *** Descendants, ancestors and intervals *)

Lemma dag_descendants t (dag : QG) u l :
  component_dag t = Ok dag → u ∈ nx_nodes (graph_obj t) →
  nx_descendants dag (component_id t u) = Ok l →
  ∀ k, k ∈ l ↔ ∃ v, v ∈ nx_nodes (graph_obj t) ∧ k = component_id t v ∧
                    hreach t u v ∧ ¬ hreach t v u.
Proof.
  intros Hdag Hu [_ Hl]%nx_descendants_spec k. rewrite Hl. split.
  - intros [Hr Hne]. destruct (reaches_in_nodes _ _ _ Hr) as [_ Hk].
    apply (component_dag_nodes t dag k Hdag) in Hk as (v & Hv & ->).
    exists v. split_and!; [done..| |]; by apply (dag_reaches_strict t dag u v Hdag Hu Hv).
  - intros (v & Hv & -> & H1 & H2). by apply (dag_reaches_strict t dag u v).
Qed.

Lemma dag_ancestors t (dag : QG) v l :
  component_dag t = Ok dag → v ∈ nx_nodes (graph_obj t) →
  nx_ancestors dag (component_id t v) = Ok l →
  ∀ k, k ∈ l ↔ ∃ u, u ∈ nx_nodes (graph_obj t) ∧ k = component_id t u ∧
                    hreach t u v ∧ ¬ hreach t v u.
Proof.
  intros Hdag Hv [_ Hl]%nx_ancestors_spec k. rewrite Hl. split.
  - intros [Hr Hne]. destruct (reaches_in_nodes _ _ _ Hr) as [Hk _].
    apply (component_dag_nodes t dag k Hdag) in Hk as (u & Hu & ->).
    exists u. split_and!; [done..| |]; apply (dag_reaches_strict t dag u v Hdag Hu Hv); auto.
  - intros (u & Hu & -> & H1 & H2).
    destruct (proj2 (dag_reaches_strict t dag u v Hdag Hu Hv)); auto.
Qed.

(** A list of keys is in execution order: every raw edge between two of its
    components goes forward. *)
Definition forward_order t (l : list key) : Prop :=
  NoDup l ∧ ∀ u v i j, edge (graph_obj t) u v → component_id t u ≠ component_id t v →
    l !! i = Some (component_id t u) → l !! j = Some (component_id t v) → i < j.

Lemma topological_forward t (dag : QG) l :
  component_dag t = Ok dag → topological_order dag l → forward_order t l.
Proof.
  intros Hdag [Hp Ho]. split; [rewrite Hp; apply nx_nodes_NoDup|].
  intros u v i j Huv Hne. apply Ho, (component_dag_edge t); eauto 10.
Qed.

Lemma forward_order_filter t l (P : key → Prop) `{!∀ k, Decision (P k)} :
  forward_order t l → forward_order t (filter P l).
Proof.
  intros [Hn Ho]. split; [by apply NoDup_filter|]. intros u v i j Huv Hne Hi Hj.
  assert (∀ (m : list key) i j x y, filter P m !! i = Some x → filter P m !! j = Some y →
    ∃ i' j', m !! i' = Some x ∧ m !! j' = Some y ∧ (i' < j' → i < j)) as Hf.
  { clear. induction m as [|z m IH]; [done|]. intros i j x y. rewrite filter_cons.
    destruct (decide (P z)) as [Hz|Hz].
    - destruct i as [|i], j as [|j]; cbn; intros Hi Hj; simplify_eq.
      + exists 0, 0. split_and!; [done..|lia].
      + destruct (IH j j y y Hj Hj) as (_ & j' & _ & ? & _). exists 0, (S j'). split_and!; [done..|lia].
      + destruct (IH i i x x Hi Hi) as (i' & _ & ? & _ & _). exists (S i'), 0. split_and!; [done..|lia].
      + destruct (IH i j x y Hi Hj) as (i' & j' & ? & ? & ?). exists (S i'), (S j').
        split_and!; [done..|lia].
    - intros Hi Hj. destruct (IH i j x y Hi Hj) as (i' & j' & ? & ? & ?). exists (S i'), (S j').
      split_and!; [done..|lia]. }
  destruct (Hf l i j _ _ Hi Hj) as (i' & j' & ? & ? & Hij). apply Hij. eauto.
Qed.

Lemma dag_subgraph_acyclic t (dag : QG) s :
  component_dag t = Ok dag → acyclic (nx_subgraph dag s).
Proof.
  intros Hdag k Hk. apply (dag_acyclic t dag Hdag k). revert Hk. unfold reaches.
  generalize k at 2 4. intros k'. induction 1 as [? ? He|? ? ? He _ IH].
  - apply tc_once. by apply nx_edge_subgraph in He as (? & _).
  - eapply tc_l; [|done]. by apply nx_edge_subgraph in He as (? & _).
Qed.

Lemma interval_selected t (dag : QG) a b ds anc k :
  component_dag t = Ok dag → a ∈ nx_nodes (graph_obj t) → b ∈ nx_nodes (graph_obj t) →
  nx_descendants dag (component_id t a) = Ok ds → component_id t b ∈ ds →
  nx_ancestors dag (component_id t b) = Ok anc →
  k ∈ filter (λ k, k ∈ component_id t b :: anc ∧ k ≠ component_id t b) (component_id t a :: ds)
  ↔ ∃ n, n ∈ nx_nodes (graph_obj t) ∧ k = component_id t n ∧
         hreach t a n ∧ hreach t n b ∧ ¬ hreach t b n.
Proof.
  intros Hdag Ha Hb Hds Hbd Hanc.
  pose proof (dag_descendants t dag a ds Hdag Ha Hds) as Hd.
  pose proof (dag_ancestors t dag b anc Hdag Hb Hanc) as Hc.
  rewrite list_elem_of_filter, !elem_of_cons, Hd, Hc. split.
  - intros [[[->|(n & Hn & -> & H1 & H2)] Hne] Hk]; [done|]. exists n. split_and!; try done.
    destruct Hk as [Hk|(m & Hm & Hk & H3 & _)].
    + apply component_id_eq in Hk as [_ ?]; done.
    + apply component_id_eq in Hk as [_ ?]; [|done..]. by eapply hreach_trans.
  - intros (n & Hn & -> & H1 & H2 & H3). split; [split|].
    + right. eauto 10.
    + rewrite component_id_eq by done. intros [_ ?]. done.
    + destruct (decide (component_id t n = component_id t a)) as [|Hne]; [by left|right].
      exists n. split_and!; try done. intros H4. destruct Hne. by apply component_id_eq.
Qed.

End topology_facts.


(** ** Properties *)

Section topology_properties.
Context {RG QG : Type} `{!NxOps string RG, !NxOps key QG}.
Context `{!NxLaws string RG, !NxLaws key QG}.

(** C36: contracting the Hoeflein components of any raw graph gives an acyclic
    quotient and [component_dag] never fails on it: its nodes are the components of
    the raw nodes, its edges are the raw edges between different components and no
    others, and between the components of two nodes it has a path exactly when the
    augmented graph has one between the nodes. *)
Theorem quotient_is_dag (t : ComponentTopology RG) :
  ∃ dag : QG, component_dag t = Ok dag ∧ acyclic dag ∧
    (∀ k, k ∈ nx_nodes dag ↔ ∃ n, n ∈ nx_nodes (graph_obj t) ∧ k = component_id t n) ∧
    (∀ j k, edge dag j k ↔ ∃ u v, edge (graph_obj t) u v ∧ j = component_id t u ∧
                            k = component_id t v ∧ j ≠ k) ∧
    ∀ u v, u ∈ nx_nodes (graph_obj t) → v ∈ nx_nodes (graph_obj t) →
      reaches_or_self dag (component_id t u) (component_id t v) ↔ hreach t u v.
Proof.
  destruct (component_dag_ok t) as (dag & Hdag & Hnodes & Hedges). exists dag.
  split_and!; [done|by eapply dag_acyclic|exact Hnodes|exact Hedges|]. intros. by apply dag_reaches_iff.
Qed.

(** The Hoeflein components partition the raw nodes into the classes of
    mutual reachability along raw edges and reversed declared autostart edges. *)
Theorem hoeflein_partition (t : ComponentTopology RG) :
  (∀ n, n ∈ nx_nodes (graph_obj t) ↔ ∃ c, c ∈ hoeflein_components t ∧ n ∈ c) ∧
  (∀ c u v, c ∈ hoeflein_components t → u ∈ c →
     v ∈ c ↔ same_component t u v) ∧
  (∀ u v, edge (hoeflein_graph t) u v
     ↔ edge (graph_obj t) u v ∨ ((v, u) ∈ autostart_edges t ∧ edge (graph_obj t) v u)).
Proof.
  split_and!; [apply components_cover|apply components_mutual|apply hoeflein_graph_edge].
Qed.

(** The half-open interval holds exactly the components on a directed route
    from the start (included) to the end (excluded), each once and in execution
    order. *)
Theorem component_interval_spec (t : ComponentTopology RG) a b l :
  component_interval (QG:=QG) t a b = Ok l →
  forward_order t l ∧
  ∀ k, k ∈ l ↔ ∃ n, n ∈ nx_nodes (graph_obj t) ∧ k = component_id t n ∧
                    hreach t a n ∧ hreach t n b ∧ ¬ hreach t b n.
Proof.
  unfold component_interval. intros H. inv_ok.
  unfold nx_has_node in *. rewrite bool_decide_eq_true in *.
  apply nx_lex_topological_sort_spec in H as [Hp Ho].
  pose proof (λ k, interval_selected t x a b x0 x1 k Hx Hg Hg0 Hx0 Hg1 Hx1) as Hs.
  split.
  - split; [rewrite Hp; apply nx_nodes_NoDup|]. intros u v i j Huv Hne Hi Hj.
    apply (Ho (component_id t u) (component_id t v)); [|done..]. apply nx_edge_subgraph.
    apply list_elem_of_lookup_2 in Hi as Hui, Hj as Hvj. rewrite Hp, nx_nodes_subgraph in Hui, Hvj.
    split_and!; [|apply Hui|apply Hvj]. apply (component_dag_edge t); eauto 10.
  - intros k. rewrite Hp, nx_nodes_subgraph, Hs, (component_dag_nodes t) by done.
    split; [by intros [_ ?]|]. intros (n & ? & ? & ?). split; [eauto|eauto 10].
Qed.

(** C40: [component_interval] answers exactly for two known nodes whose end is a
    strict directed descendant of the start, and raises [InvalidGraphError]
    otherwise. *)
Theorem component_interval_total (t : ComponentTopology RG) a b :
  let valid := a ∈ nx_nodes (graph_obj t) ∧ b ∈ nx_nodes (graph_obj t) ∧
               hreach t a b ∧ ¬ hreach t b a in
  (valid → ∃ l, component_interval (QG:=QG) t a b = Ok l) ∧
  (¬ valid → ∃ m, component_interval (QG:=QG) t a b = Err (Exc InvalidGraphError m)).
Proof.
  cbn. destruct (component_dag_ok (QG:=QG) t) as (dag & Hdag & _).
  unfold component_interval, nx_has_node.
  destruct (decide (a ∈ nx_nodes (graph_obj t))) as [Ha|Ha];
    [rewrite (bool_decide_true (a ∈ _)) by done|rewrite (bool_decide_false (a ∈ _)) by done; naive_solver].
  destruct (decide (b ∈ nx_nodes (graph_obj t))) as [Hb|Hb];
    [rewrite (bool_decide_true (b ∈ _)) by done|rewrite (bool_decide_false (b ∈ _)) by done; naive_solver].
  cbn [rbind require]. rewrite Hdag. cbn [rbind].
  destruct (nx_descendants_ok dag (component_id t a)) as [ds Hds];
    [apply (component_dag_nodes t); eauto|].
  destruct (nx_ancestors_ok dag (component_id t b)) as [anc Hanc];
    [apply (component_dag_nodes t); eauto|].
  rewrite Hds, Hanc. cbn [rbind].
  pose proof (dag_descendants t dag a ds Hdag Ha Hds (component_id t b)) as Hd.
  case_bool_decide as Hin; cbn [rbind require].
  - destruct (nx_lex_topological_sort_ok _ (dag_subgraph_acyclic t dag
      (filter (λ k, k ∈ component_id t b :: anc ∧ k ≠ component_id t b) (component_id t a :: ds)) Hdag))
      as [l Hl]. split; [by exists l|]. intros Hv. exfalso. apply Hv. split_and!; [done..| |];
      apply Hd in Hin as (v & Hvn & (Hbv & Hvb)%component_id_eq & H1 & H2); try done.
    + by eapply hreach_trans.
    + intros Hba. apply H2. by eapply hreach_trans.
  - split; [|naive_solver]. intros (_ & _ & H1 & H2). destruct Hin. apply Hd. eauto 10.
Qed.

(** the execution units of a node selection are the components holding a
    selected node, each once, every raw edge between units going forward; the
    call always succeeds. *)
Theorem execution_components_spec (t : ComponentTopology RG) (nodes : option (list string)) :
  ∃ l, execution_components (QG:=QG) t nodes = Ok l ∧ forward_order t l ∧
    ∀ k, k ∈ l ↔ ∃ n m, n ∈ nx_nodes (graph_obj t) ∧ k = component_id t n ∧
                        same_component t n m ∧
                        m ∈ default (nx_nodes (graph_obj t)) nodes.
Proof.
  destruct (component_dag_ok (QG:=QG) t) as (dag & Hdag & _).
  destruct (nx_topological_sort_ok dag (dag_acyclic t dag Hdag)) as [order Ho].
  apply nx_topological_sort_spec in Ho as Hto. unfold execution_components.
  set (sel := match nodes with None => _ | Some l => l end).
  change (default (nx_nodes (graph_obj t)) nodes) with sel.
  case_bool_decide as Hsel.
  - exists []. split_and!; [done|split; [constructor|done]|]. intros k. rewrite Hsel.
    split; [by intros ?%not_elem_of_nil|]. by intros (? & ? & ? & ? & ? & ?%not_elem_of_nil).
  - rewrite Hdag. cbn [rbind]. rewrite Ho. cbn [rbind]. eexists; split; [done|].
    split; [by apply forward_order_filter, (topological_forward t dag)|].
    intros k. destruct Hto as [Hp _]. rewrite list_elem_of_filter, Hp, (component_dag_nodes t) by done.
    rewrite Exists_exists. split.
    + intros [(m & Hm & Hs) (n & Hn & ->)]. rewrite elem_of_component_id in Hm by done. eauto 10.
    + intros (n & m & Hn & -> & Hnm & Hm). split; [|eauto]. exists m.
      by rewrite elem_of_component_id.
Qed.

(** a topology snapshot depends only on the set of nodes, the set of edges and
    the set of declared autostart edges: not on the order a graph file declares
    them in, nor on undeclared or repeated autostart edges. *)
Theorem snapshot_declaration_independent (t t' : ComponentTopology RG)
  (Hnodes : ∀ n, n ∈ nx_nodes (graph_obj t) ↔ n ∈ nx_nodes (graph_obj t'))
  (Hedges : ∀ u v, edge (graph_obj t) u v ↔ edge (graph_obj t') u v)
  (Hauto : ∀ e, e ∈ declared_autostart t ↔ e ∈ declared_autostart t') :
  snapshot t = snapshot t'.
Proof.
  unfold snapshot, graph_shape. f_equal.
  - rewrite (py_sorted_proper (nx_nodes (graph_obj t)) (nx_nodes (graph_obj t'))),
      (py_sorted_proper (nx_edges (graph_obj t)) (nx_edges (graph_obj t'))),
      (proj1 (py_sorted_set_ext (declared_autostart t) (declared_autostart t')) Hauto); [done| |].
    + apply NoDup_Permutation; [apply nx_edges_NoDup..|]. intros [u v]. apply Hedges.
    + apply NoDup_Permutation; [apply nx_nodes_NoDup..|done].
  - apply py_sorted_proper, component_keys_perm; [done|]. intros u v.
    assert (∀ (t : ComponentTopology RG) u v, edge (hoeflein_graph t) u v
       ↔ edge (graph_obj t) u v ∨ (v, u) ∈ declared_autostart t) as Hd.
    { intros s x y. rewrite hoeflein_graph_edge. unfold declared_autostart, nx_has_edge, edge.
      rewrite list_elem_of_filter, bool_decide_eq_true. cbn. naive_solver. }
    by rewrite !Hd, Hedges, Hauto.
Qed.

End topology_properties.

(** ** A concrete topology *)

Section demo_topology.

(** [a -> b -> c -> d] with the edge [b -> c] declared autostarting. *)
Definition demo_graph : list_graph string :=
  ListGraph [] [("a", "b"); ("b", "c"); ("c", "d")].

Definition demo_topology : ComponentTopology (list_graph string) :=
  MkTopology demo_graph [("b", "c")].

(** The same graph declared in another order, with an undeclared autostart edge. *)
Definition demo_topology_reordered : ComponentTopology (list_graph string) :=
  MkTopology (ListGraph ["d"] [("c", "d"); ("b", "c"); ("a", "b"); ("c", "d")])
             [("c", "b"); ("b", "c"); ("b", "c")].

Example demo_components :
  component_key <$> hoeflein_components demo_topology = [["a"]; ["b"; "c"]; ["d"]].
Proof. vm_compute. reflexivity. Qed.

Example demo_shape : graph_shape demo_topology = String.concat ""
  ["{"; String quote "nodes"; String quote ":["; dump_string false "a"; ","; dump_string false "b"; ",";
   dump_string false "c"; ","; dump_string false "d"; "],"; String quote "edges"; String quote ":[[";
   dump_string false "a"; ","; dump_string false "b"; "],["; dump_string false "b"; ",";
   dump_string false "c"; "],["; dump_string false "c"; ","; dump_string false "d"; "]],";
   String quote "autostart_edges"; String quote ":[["; dump_string false "b"; ",";
   dump_string false "c"; "]]}"].
Proof. vm_compute. reflexivity. Qed.

Lemma quotient_is_dag_witness :
  ∃ dag : list_graph key, component_dag demo_topology = Ok dag ∧ acyclic dag.
Proof.
  destruct (quotient_is_dag (QG:=list_graph key) demo_topology) as (dag & H1 & H2 & _).
  exists dag. split; assumption.
Defined.

Lemma hoeflein_partition_witness :
  ∃ c, c ∈ hoeflein_components demo_topology ∧ "b" ∈ c.
Proof.
  apply (proj1 (hoeflein_partition demo_topology)).
  apply (bool_decide_unpack ("b" ∈ nx_nodes (graph_obj demo_topology))). vm_compute. exact I.
Defined.

Lemma component_interval_spec_witness :
  component_interval (QG:=list_graph key) demo_topology "a" "d" = Ok [["a"]; ["b"; "c"]] ∧
  forward_order demo_topology [["a"]; ["b"; "c"]].
Proof.
  assert (component_interval (QG:=list_graph key) demo_topology "a" "d" = Ok [["a"]; ["b"; "c"]])
    as H by (vm_compute; reflexivity).
  split; [exact H|]. apply (proj1 (component_interval_spec demo_topology "a" "d" _ H)).
Defined.

Lemma component_interval_total_witness :
  ∃ m, component_interval (QG:=list_graph key) demo_topology "a" "x" = Err (Exc InvalidGraphError m).
Proof.
  apply (proj2 (component_interval_total (QG:=list_graph key) demo_topology "a" "x")).
  intros (_ & Hx & _). apply (bool_decide_pack _) in Hx. vm_compute in Hx. exact Hx.
Defined.

Lemma execution_components_spec_witness :
  ∃ l, execution_components (QG:=list_graph key) demo_topology (Some ["c"]) = Ok l ∧
       forward_order demo_topology l.
Proof.
  destruct (execution_components_spec (QG:=list_graph key) demo_topology (Some ["c"]))
    as (l & H1 & H2 & _). exists l. split; assumption.
Defined.

Lemma snapshot_declaration_independent_witness :
  snapshot demo_topology = snapshot demo_topology_reordered.
Proof.
  apply snapshot_declaration_independent.
  - change (nx_nodes (graph_obj demo_topology)) with ["a"; "b"; "c"; "d"].
    change (nx_nodes (graph_obj demo_topology_reordered)) with ["d"; "c"; "b"; "a"].
    set_solver.
  - intros u v. unfold edge.
    change (nx_edges (graph_obj demo_topology)) with [("a", "b"); ("b", "c"); ("c", "d")].
    change (nx_edges (graph_obj demo_topology_reordered)) with [("c", "d"); ("b", "c"); ("a", "b")].
    set_solver.
  - change (declared_autostart demo_topology) with [("b", "c")].
    change (declared_autostart demo_topology_reordered) with [("b", "c"); ("b", "c")].
    set_solver.
Defined.

End demo_topology.
