(* ===== verification/Membership.v ===== *)
(** Active component memberships ([storage/component_membership.py],
    [storage/membership_retirement.py]): the stored partition of the nodes into
    components, the calculation of a membership change (the closure of the requested
    components under shared nodes), and its atomic replacement in the tables.

    Tables are finite maps from their primary keys; the operations run inside one writer
    transaction, so raising leaves the tables as they were.  Collections handed in are
    lists of names. *)
From S2P Require Import Prelude Topology.

#[local] Open Scope Z_scope.

(** ** Names and members *)

Definition occurs (part s : string) : bool := bool_decide (is_Some (String.index 0 part s)).

(** [FileStorageBase.validate_node_name]. *)
Definition validate_node_name (node_name : string) : result string :=
  check! negb (bool_decide (node_name ∈ ["" ; "." ; ".."])) orelse ValueError saying "Invalid node name" in
  check! negb (occurs "/" node_name || occurs "\" node_name || occurs ".." node_name)
    orelse ValueError saying "Unsafe node name" in
  Ok node_name.

Definition _members (supplied : list string) : result key :=
  check! negb (bool_decide (supplied = [])) orelse ValueError saying "must contain raw-node names" in
  let! _ := rmap validate_node_name supplied in
  let normalized := component_key supplied in
  check! (length normalized =? length supplied)%nat orelse ValueError saying "contains duplicate raw-node names" in
  Ok normalized.

Definition _ordered_components (values : list (list string)) : result (list key) :=
  let! result := rmap _members values in
  check! bool_decide (NoDup result) orelse ValueError saying "contains duplicate components" in
  Ok result.

(** ** Values *)

Record active_component := ActiveComponent { ac_members : key; established_revision : Z }.

Record partition := ActiveComponentPartition { revision : Z; active : list active_component }.

Record history := HistoricalMembership {
  h_members : key;
  h_shape_id : Z;
  h_generation : Z;
  has_reusable_work : bool
}.

Record scope := ComponentPreparationScope { sc_members : key; generation_floor : option Z }.

Record change := MembershipChange {
  source : partition;
  target_shape_json : string;
  requested_components : list key;
  source_components : list key;
  target_components : list key;
  preparation : list scope;
  historical_memberships : list history;
  removed_members : list string
}.

#[export] Instance active_component_eq_dec : EqDecision active_component.
Proof. solve_decision. Defined.
#[export] Instance partition_eq_dec : EqDecision partition.
Proof. solve_decision. Defined.
#[export] Instance history_eq_dec : EqDecision history.
Proof. solve_decision. Defined.
#[export] Instance scope_eq_dec : EqDecision scope.
Proof. solve_decision. Defined.
#[export] Instance change_eq_dec : EqDecision change.
Proof. solve_decision. Defined.
#[export] Instance snapshot_eq_dec : EqDecision ComponentTopologySnapshot.
Proof. solve_decision. Defined.
#[export] Instance history_countable : Countable history.
Proof.
  apply (inj_countable' (λ h, (h_members h, h_shape_id h, h_generation h, has_reusable_work h))
    (λ '(m, s, g, b), HistoricalMembership m s g b)). by intros [].
Defined.

(** The dataclasses' [__post_init__] checks. *)
Definition make_active_component (members : list string) (established : Z) : result active_component :=
  let! members := _members members in
  check! (0 <=? established) orelse ValueError saying "Established revision must be a nonnegative integer" in
  Ok (ActiveComponent members established).

(** The loop over the sorted components: none is younger than the partition, none shares
    a node with an earlier one. *)
Fixpoint check_components (rev : Z) (claimed : gset string) (cs : list active_component) : result () :=
  match cs with
  | [] => Ok ()
  | c :: cs =>
      check! (established_revision c <=? rev)
        orelse ValueError saying "Active component was established after the partition revision" in
      check! bool_decide (claimed ## list_to_set (ac_members c)) orelse ValueError saying "Active components overlap" in
      check_components rev (claimed ∪ list_to_set (ac_members c)) cs
  end.

Definition make_partition (rev : Z) (cs : list active_component) : result partition :=
  check! (0 <=? rev) orelse ValueError saying "Membership revision must be a nonnegative integer" in
  let components := sort_by ac_members cs in
  check! bool_decide (NoDup (ac_members <$> components))
    orelse ValueError saying "Active partition contains a duplicate component" in
  let! _ := check_components rev ∅ components in
  Ok (ActiveComponentPartition rev components).

Definition make_history (members : list string) (shape generation : Z) (reusable : bool) : result history :=
  let! members := _members members in
  check! (1 <=? shape) orelse ValueError saying "Historical shape ID must be a positive integer" in
  check! (0 <=? generation) orelse ValueError saying "Historical alignment generation must be a nonnegative integer" in
  Ok (HistoricalMembership members shape generation reusable).

Definition make_scope (members : list string) (floor : option Z) : result scope :=
  let! members := _members members in
  check! (match floor with Some f => 0 <=? f | None => true end)
    orelse ValueError saying "Preparation generation floor must be a nonnegative integer or None" in
  Ok (ComponentPreparationScope members floor).

Definition preparation_components (c : change) : list key := sc_members <$> preparation c.

Definition changes_active_membership (c : change) : bool :=
  negb (bool_decide ((list_to_set (source_components c) : gset key) = list_to_set (target_components c))).

(** ** The tables *)

Record tables := Tables {
  (** The only row [component_partition_state] may have, by its key and check. *)
  t_revision : option Z;
  t_active : gmap string Z;
  t_members : gmap string string
}.

(** An [except ValueError] that raises another error. *)
Definition on_value_error {A} (m : result A) (msg : string) : result A :=
  match m with
  | Err e => if decide (exc_cls e = ValueError) then raise RuntimeError msg else Err e
  | Ok a => Ok a
  end.

Definition _read_partition_revision (t : tables) : result (option Z) :=
  match t_revision t with
  | None =>
      check! bool_decide (t_active t = ∅) && bool_decide (t_members t = ∅)
        orelse RuntimeError saying "Active membership rows have no partition state" in
      Ok None
  | Some rev =>
      check! (0 <=? rev) orelse RuntimeError saying "Invalid component partition revision" in
      Ok (Some rev)
  end.

(** The node names recorded for a component, in order. *)
Definition recorded_members (t : tables) (component_key : string) : list string :=
  py_sorted (map_to_list (filter (λ p, p.2 = component_key) (t_members t))).*1.

Definition _decode_active_component (t : tables) (row : string * Z) (rev : Z) : result active_component :=
  let! members := on_value_error (let! l := decode_component_key row.1 in _members l) "Invalid stored active component" in
  check! bool_decide (encode_component_key members = row.1)
    orelse RuntimeError saying "Stored active component key is not canonical" in
  check! bool_decide (recorded_members t row.1 = members)
    orelse RuntimeError saying "Active component disagrees with its member rows" in
  let! c := on_value_error (make_active_component members row.2) "Invalid active component revision" in
  check! (established_revision c <=? rev)
    orelse RuntimeError saying "Active component was established after the partition revision" in
  Ok c.

Definition active_rows (t : tables) : list (string * Z) := py_sorted (map_to_list (t_active t)).

Definition read_active_component_partition (t : tables) : result (option partition) :=
  let! rev := _read_partition_revision t in
  match rev with
  | None => Ok None
  | Some rev =>
      let! components := rmap (λ row, _decode_active_component t row rev) (active_rows t) in
      check! (size (t_members t) =? sum_list_with (λ c, length (ac_members c)) components)%nat
        orelse RuntimeError saying "Active membership contains an orphan member row" in
      let! p := on_value_error (make_partition rev components) "Invalid active component partition" in
      Ok (Some p)
  end.

(** A node has at most one membership row, by the primary key; the join drops it when
    its component row is missing. *)
Definition read_active_component_for_node (t : tables) (node_name : string) : result (option key) :=
  let! _ := validate_node_name node_name in
  let! rev := _read_partition_revision t in
  match rev with
  | None => Ok None
  | Some rev =>
      match (k ← t_members t !! node_name; e ← t_active t !! k; Some (k, e)) with
      | None => raise RuntimeError "Raw node has no active component membership"
      | Some row =>
          let! component := _decode_active_component t row rev in
          check! bool_decide (node_name ∈ ac_members component)
            orelse RuntimeError saying "Active component lookup returned the wrong raw node" in
          Ok (Some (ac_members component))
      end
  end.

(** A batch of inserts records every row or violates the primary key. *)
Fixpoint insert_rows {V} (rows : list (string * V)) (m : gmap string V) : result (gmap string V) :=
  match rows with
  | [] => Ok m
  | (k, v) :: rows =>
      match m !! k with
      | Some _ => raise UserError "UNIQUE constraint failed"
      | None => insert_rows rows (<[k := v]> m)
      end
  end.

Definition component_rows (rev : Z) (cs : list key) : list (string * Z) := (λ c, (encode_component_key c, rev)) <$> cs.

Definition member_rows (cs : list key) : list (string * string) :=
  c ← cs; (λ node, (node, encode_component_key c)) <$> c.

Definition initialize_active_component_partition (t : tables) (components : list (list string))
  : result (tables * partition) :=
  let! current := read_active_component_partition t in
  check! bool_decide (current = None) orelse RuntimeError saying "Active component membership is already initialized" in
  let! ordered := _ordered_components components in
  let normalized := py_sorted ordered in
  let! cs := rmap (λ item, make_active_component item 0) normalized in
  let! _ := make_partition 0 cs in
  check! bool_decide (t_revision t = None) orelse UserError saying "UNIQUE constraint failed" in
  let! a := insert_rows (component_rows 0 normalized) (t_active t) in
  let! m := insert_rows (member_rows normalized) (t_members t) in
  let t := Tables (Some 0) a m in
  let! result := read_active_component_partition t in
  match result with
  | Some p => Ok (t, p)
  | None => raise RuntimeError "Active component partition disappeared during initialization"
  end.

(** ** Observing a change: the closure of the requested components *)

(** The sort key of the observations. *)
Definition history_key (h : history) : Z * (key * Z) := (h_shape_id h, (h_members h, h_generation h)).

(** [set(a).intersection(b)]. *)
Definition meets (nodes : gset string) (members : key) : bool := existsb (λ n, bool_decide (n ∈ nodes)) members.

Definition nodes_of (cs : list key) : gset string := list_to_set (mjoin cs).

Record closure_state := ClosureState {
  selected_target : gset key;
  selected_active : gset key;
  selected_reusable : gset history
}.

#[export] Instance closure_state_eq_dec : EqDecision closure_state.
Proof. solve_decision. Defined.

Definition sizes (s : closure_state) : nat * nat * nat :=
  (size (selected_target s), size (selected_active s), size (selected_reusable s)).

(** One pass of the [while True] loop. *)
Definition closure_step (target : list key) (act : list active_component) (hist : list history)
    (s : closure_state) : closure_state :=
  let reached := nodes_of (elements (selected_target s ∪ selected_active s))
                 ∪ nodes_of (h_members <$> elements (selected_reusable s)) in
  let sel_active := selected_active s ∪ list_to_set (filter (λ m, meets reached m = true) (ac_members <$> act)) in
  let reached := reached ∪ nodes_of (elements sel_active) in
  let sel_reusable := selected_reusable s
    ∪ list_to_set (filter (λ h, has_reusable_work h && meets reached (h_members h) = true) hist) in
  let reached := reached ∪ nodes_of (h_members <$> elements sel_reusable) in
  let sel_target := selected_target s ∪ list_to_set (filter (λ m, meets reached m = true) target) in
  ClosureState sel_target sel_active sel_reusable.

(** The loop; [None] when the fuel runs out. *)
Fixpoint closure (fuel : nat) target act hist (s : closure_state) : option closure_state :=
  match fuel with
  | O => None
  | S fuel =>
      let s' := closure_step target act hist s in
      if decide (sizes s' = sizes s) then Some s' else closure fuel target act hist s'
  end.

(** [sorted(history)] with distinct identities. *)
Definition sorted_history (hist : list history) : result (list history) :=
  let hist := sort_by history_key hist in
  check! bool_decide (NoDup (history_key <$> hist))
    orelse ValueError saying "Historical membership observations contain duplicate identities" in
  Ok hist.

Definition max_generation (gs : list Z) : option Z :=
  match gs with [] => None | g :: gs => Some (foldl Z.max g gs) end.

Definition observe_membership_change (act : partition) (target_snapshot : ComponentTopologySnapshot)
    (requested : list (list string)) (historical : list history) : result change :=
  check! negb (bool_decide (shape_json target_snapshot = "")) orelse ValueError saying "Target graph shape must be nonempty text" in
  let! target := _ordered_components (components target_snapshot) in
  check! bool_decide (target = py_sorted target) orelse ValueError saying "Target components must use canonical snapshot order" in
  let! requested := _ordered_components requested in
  check! negb (bool_decide (requested = [])) && forallb (λ m, bool_decide (m ∈ target)) requested
    orelse ValueError saying "Requested components must belong to the target graph" in
  let! hist := sorted_history historical in
  let fuel := S (S (length target + length (active act) + length hist)) in
  match closure fuel target (active act) hist (ClosureState (list_to_set requested) ∅ ∅) with
  | None => raise RuntimeError "the closure does not end"
  | Some s =>
      let reusable_nodes := nodes_of (h_members <$> elements (selected_reusable s)) in
      let affected_nodes := nodes_of (elements (selected_target s ∪ selected_active s)) ∪ reusable_nodes in
      let relevant := filter (λ h, meets affected_nodes (h_members h) = true) hist in
      let prepared : gset key := list_to_set requested
        ∪ filter (λ m, meets reusable_nodes m = true) (selected_target s) in
      let! preparation := rmap (λ m, make_scope m (max_generation
          (h_generation <$> filter (λ h, meets (list_to_set m) (h_members h) = true) relevant)))
        (filter (λ m, m ∈ prepared) target) in
      Ok (MembershipChange act (shape_json target_snapshot) requested
            (py_sorted (elements (selected_active s)))
            (filter (λ m, m ∈ selected_target s) target)
            preparation relevant
            (py_sorted (elements (affected_nodes ∖ nodes_of target))))
  end.

Section shapes.
(** [component_snapshot_from_shape]. *)
Context (component_snapshot_from_shape : string → result ComponentTopologySnapshot).

(** [observe_removed_memberships]. *)
Definition observe_removed_memberships (act : partition) (snapshot : ComponentTopologySnapshot)
    (historical : list history) : result change :=
  let! canonical := component_snapshot_from_shape (shape_json snapshot) in
  check! bool_decide (snapshot = canonical)
    orelse ValueError saying "Removed membership observation requires a canonical target shape" in
  let! hist := sorted_history historical in
  let current_nodes := nodes_of (components snapshot) in
  let sources := filter (λ m, negb (meets current_nodes m)
      && negb (existsb (λ old, has_reusable_work old && meets (list_to_set (h_members old)) m) hist) = true)
    (ac_members <$> active act) in
  Ok (MembershipChange act (shape_json snapshot) [] sources [] [] hist (py_sorted (mjoin sources))).

Definition validate_membership_change (t : tables) (c : change) : result () :=
  let! current := read_active_component_partition t in
  check! bool_decide (current = Some (source c))
    orelse RuntimeError saying "Active component membership changed after observation" in
  let! expected := on_value_error
    (let! target := component_snapshot_from_shape (target_shape_json c) in
     if decide (requested_components c = [])
     then observe_removed_memberships (source c) target (historical_memberships c)
     else observe_membership_change (source c) target (requested_components c) (historical_memberships c))
    "Invalid observed membership change" in
  check! bool_decide (expected = c) orelse RuntimeError saying "Membership change does not match its observations" in
  Ok ().

(** The rows of some components deleted by one statement per component. *)
Definition delete_members (ks : list string) (m : gmap string string) : gmap string string * nat :=
  (filter (λ p, p.2 ∉ ks) m, size (filter (λ p, p.2 ∈ ks) m)).

Definition delete_components (ks : list string) (m : gmap string Z) : gmap string Z * nat :=
  (filter (λ p, p.1 ∉ ks) m, size (filter (λ p, p.1 ∈ ks) m)).

Definition _replace_active_component_closure (t : tables) (c : change) : result (tables * partition) :=
  let! _ := validate_membership_change t c in
  let current := source c in
  let source : gset key := list_to_set (source_components c) in
  let target : gset key := list_to_set (target_components c) in
  let known : gset key := list_to_set (ac_members <$> active current) in
  check! bool_decide (source ⊆ known) orelse RuntimeError saying "Membership replacement source is not active" in
  let unaffected := known ∖ source in
  check! bool_decide (nodes_of (elements unaffected) ## nodes_of (elements target))
    orelse RuntimeError saying "Membership replacement overlaps an unaffected active component" in
  if decide (source = target) then Ok (t, current) else
  let sources := py_sorted (elements source) in
  let targets := py_sorted (elements target) in
  let '(m, deleted) := delete_members (encode_component_key <$> sources) (t_members t) in
  check! (deleted =? sum_list_with length sources)%nat
    orelse RuntimeError saying "Active component members changed before replacement" in
  let '(a, deleted) := delete_components (encode_component_key <$> sources) (t_active t) in
  check! (deleted =? length sources)%nat orelse RuntimeError saying "Active components changed before replacement" in
  let rev := revision current + 1 in
  let! a := insert_rows (component_rows rev targets) a in
  let! m := insert_rows (member_rows targets) m in
  check! bool_decide (t_revision t = Some (revision current))
    orelse RuntimeError saying "Component partition revision changed before replacement" in
  let t := Tables (Some rev) a m in
  let! result := read_active_component_partition t in
  match result with
  | Some p =>
      check! (revision p =? rev) && bool_decide ((list_to_set (ac_members <$> active p) : gset key) = unaffected ∪ target)
        orelse RuntimeError saying "Active membership replacement did not persist exactly" in
      Ok (t, p)
  | None => raise RuntimeError "Active membership replacement did not persist exactly"
  end.
End shapes.

(** ** Members *)

#[local] Arguments decode_component_key : simpl never.
#[local] Arguments encode_component_key : simpl never.
#[local] Arguments _members : simpl never.
#[local] Arguments make_active_component : simpl never.

Definition valid_members (m : key) : Prop :=
  m ≠ [] ∧ component_key m = m ∧ Forall (λ n, validate_node_name n = Ok n) m.

#[export] Instance valid_members_dec m : Decision (valid_members m).
Proof. unfold valid_members. apply _. Defined.

Lemma validate_node_name_ok n n' : validate_node_name n = Ok n' → n' = n.
Proof. unfold validate_node_name. intros H. by inv_ok. Qed.

Lemma rmap_validate l : is_ok (rmap validate_node_name l) = true ↔ Forall (λ n, validate_node_name n = Ok n) l.
Proof.
  induction l as [|n l IH]; cbn; [done|]. rewrite Forall_cons, <- IH.
  destruct (validate_node_name n) as [n'|e] eqn:Hn; cbn.
  - rewrite (validate_node_name_ok _ _ Hn). destruct (rmap validate_node_name l); cbn; naive_solver.
  - naive_solver.
Qed.

Lemma members_ok l m : _members l = Ok m → valid_members m ∧ m = component_key l.
Proof.
  unfold _members. intros H. inv_ok. split; [|done]. unfold valid_members.
  assert (is_ok (rmap validate_node_name l) = true) as Hv by (by rewrite Hx). apply rmap_validate in Hv.
  rewrite component_key_set. split; [|split; [done|]].
  - destruct l as [|n l]; [done|]. intros Hc. assert (n ∈ component_key (n :: l)) as Hn.
    { rewrite elem_of_component_key. by left. }
    rewrite Hc in Hn. by apply not_elem_of_nil in Hn.
  - apply Forall_forall. intros n Hn. rewrite !elem_of_component_key in Hn. rewrite Forall_forall in Hv. auto.
Qed.

Lemma members_valid m : valid_members m → _members m = Ok m.
Proof.
  intros (Hne & Hk & Hv). unfold _members. rewrite Hk, Nat.eqb_refl, bool_decide_eq_false_2 by done.
  apply rmap_validate in Hv. destruct (rmap validate_node_name m); [done|discriminate].
Qed.

Lemma valid_members_NoDup m : valid_members m → NoDup m.
Proof. intros (_ & <- & _). apply NoDup_py_sorted_set. Qed.

Lemma valid_members_sorted m : valid_members m → py_sorted m = m.
Proof. intros (_ & <- & _). apply py_sorted_id, py_sorted_sorted. Qed.

Lemma encode_key_inj m m' : valid_members m → valid_members m' → encode_component_key m = encode_component_key m' → m = m'.
Proof.
  intros (_ & Hm & _) (_ & Hm' & _) He. pose proof (decode_encode_component_key m) as H.
  rewrite He, decode_encode_component_key in H. congruence.
Qed.

Lemma ordered_components_valid l : NoDup l → Forall valid_members l → _ordered_components l = Ok l.
Proof.
  intros Hnd Hv. unfold _ordered_components.
  assert (rmap _members l = Ok l) as ->.
  { clear Hnd. induction Hv as [|m l Hm Hl IH]; [done|]. cbn. by rewrite members_valid, IH. }
  cbn. by rewrite bool_decide_eq_true_2.
Qed.

Lemma ordered_components_ok l k : _ordered_components l = Ok k → NoDup k ∧ Forall valid_members k.
Proof.
  unfold _ordered_components. intros H. inv_ok. apply bool_decide_eq_true in Hg. split; [done|].
  apply rmap_ok in Hx. clear Hg. induction Hx as [|x y l' k' Hxy Hl IH]; constructor; [|done].
  by destruct (members_ok _ _ Hxy).
Qed.

(** ** Valid partitions and the tables that represent them *)

Definition valid_component (rev : Z) (c : active_component) : Prop :=
  valid_members (ac_members c) ∧ 0 ≤ established_revision c ≤ rev.

Definition members_of (p : partition) : list key := ac_members <$> active p.

Record valid_partition (p : partition) : Prop := {
  vp_revision : 0 ≤ revision p;
  vp_components : Forall (valid_component (revision p)) (active p);
  vp_disjoint : NoDup (mjoin (members_of p));
  vp_sorted : StronglySorted (le_by ac_members) (active p)
}.

Definition represents (t : tables) (p : partition) : Prop :=
  t_revision t = Some (revision p) ∧
  t_active t = list_to_map ((λ c, (encode_component_key (ac_members c), established_revision c)) <$> active p) ∧
  t_members t = list_to_map (member_rows (members_of p)).

(** Disjoint nonempty components are distinct. *)
Lemma disjoint_NoDup (l : list key) : Forall valid_members l → NoDup (mjoin l) → NoDup l.
Proof.
  induction 1 as [|m l Hm Hl IH]; cbn; [constructor|]. intros (H1 & Hd & H2)%NoDup_app.
  constructor; [|by apply IH]. intros Hin. destruct Hm as [Hne _]. destruct m as [|n m]; [done|].
  apply (Hd n); [by left|]. apply list_elem_of_join. exists (n :: m). split; [by left|done].
Qed.

(** A node of two of the components makes them one. *)
Lemma disjoint_eq (l : list key) m m' n : NoDup (mjoin l) → m ∈ l → m' ∈ l → n ∈ m → n ∈ m' → m = m'.
Proof.
  induction l as [|k l IH]; [set_solver|]. cbn. intros (H1 & Hd & H2)%NoDup_app Hm Hm' Hn Hn'.
  assert (∀ k', k' ∈ l → n ∈ k' → n ∈ mjoin l) as Hj by (intros; apply list_elem_of_join; eauto).
  apply elem_of_cons in Hm as [->|Hm], Hm' as [->|Hm']; auto.
  - exfalso. apply (Hd n); eauto.
  - exfalso. apply (Hd n); eauto.
Qed.

Lemma member_rows_fst l : (member_rows l).*1 = mjoin l.
Proof.
  unfold member_rows. induction l as [|m l IH]; [done|]. rewrite bind_cons, fmap_app, IH. cbn. f_equal.
  rewrite <- list_fmap_compose. apply list_fmap_id.
Qed.

Lemma elem_of_member_rows l n k : (n, k) ∈ member_rows l ↔ ∃ m, m ∈ l ∧ n ∈ m ∧ k = encode_component_key m.
Proof.
  unfold member_rows. rewrite list_elem_of_bind. split.
  - intros (m & (n' & [= -> ->] & Hn)%list_elem_of_fmap & Hm). eauto.
  - intros (m & Hm & Hn & ->). exists m. split; [|done]. apply list_elem_of_fmap. eauto.
Qed.

Lemma member_rows_lookup l n k : NoDup (mjoin l) →
  (list_to_map (member_rows l) : gmap string string) !! n = Some k ↔ ∃ m, m ∈ l ∧ n ∈ m ∧ k = encode_component_key m.
Proof.
  intros Hnd. rewrite <- elem_of_member_rows, elem_of_list_to_map; [done|]. by rewrite member_rows_fst.
Qed.

(** A sorted duplicate-free list is determined by its elements. *)
Lemma py_sorted_elems {A} `{EqDecision A, PyOrdLaws A} (l k : list A) :
  NoDup l → NoDup k → py_sorted k = k → (∀ x, x ∈ l ↔ x ∈ k) → py_sorted l = k.
Proof. intros Hl Hk Hs He. rewrite <- Hs. apply py_sorted_proper, NoDup_Permutation; done. Qed.

Lemma recorded_members_spec t k m :
  valid_members m → (∀ n, t_members t !! n = Some k ↔ n ∈ m) → recorded_members t k = m.
Proof.
  intros Hm Ht. unfold recorded_members. apply py_sorted_elems.
  - apply NoDup_fst_map_to_list.
  - by apply valid_members_NoDup.
  - by apply valid_members_sorted.
  - intros n. rewrite <- Ht, list_elem_of_fmap. split.
    + intros ([n' k'] & -> & Hin). apply elem_of_map_to_list, map_lookup_filter_Some in Hin as [Hin Hk]. cbn in *. congruence.
    + intros Hn. exists (n, k). split; [done|]. apply elem_of_map_to_list, map_lookup_filter_Some. done.
Qed.

Lemma check_components_spec rev claimed cs : Forall (λ c, NoDup (ac_members c)) cs →
  check_components rev claimed cs = Ok () ↔
  Forall (λ c, established_revision c ≤ rev) cs ∧ NoDup (mjoin (ac_members <$> cs)) ∧
  (∀ n, n ∈ mjoin (ac_members <$> cs) → n ∉ claimed).
Proof.
  intros H. revert claimed. induction H as [|c cs Hc Hcs IH]; intros claimed; cbn.
  { split; [|done]. intros _. split; [constructor|]. split; [constructor|]. by intros n ?%not_elem_of_nil. }
  rewrite Forall_cons, NoDup_app. setoid_rewrite elem_of_app. split.
  - intros H. apply rbind_ok in H as ([] & Hr%require_ok & H).
    apply rbind_ok in H as ([] & Hd%require_ok%bool_decide_eq_true & H). apply IH in H as (Hf & Hnd & Hn).
    split; [split; [lia|done]|]. split; [split; [done|]; split; [|done]|].
    + intros n Hc1 Hc2. apply (Hn n Hc2). apply elem_of_union_r. by apply elem_of_list_to_set.
    + intros n [Hn1|Hn1] Hcl; [apply (Hd n); [done|by apply elem_of_list_to_set]|].
      apply (Hn n Hn1). by apply elem_of_union_l.
  - intros ((Hr & Hf) & (_ & Hd & Hnd) & Hn). apply rbind_ok. exists (). split; [apply require_ok; lia|].
    apply rbind_ok. exists (). split.
    + apply require_ok, bool_decide_eq_true. intros n Hcl Hn1%elem_of_list_to_set. apply (Hn n); auto.
    + apply IH. split; [done|]. split; [done|].
      intros n Hn1 [Hcl|Hc1%elem_of_list_to_set]%elem_of_union; [apply (Hn n); auto|by apply (Hd n)].
Qed.

Lemma make_partition_ok rev cs p : Forall (λ c, valid_members (ac_members c) ∧ 0 ≤ established_revision c) cs →
  make_partition rev cs = Ok p → valid_partition p ∧ revision p = rev ∧ active p ≡ₚ cs.
Proof.
  intros Hcs H. unfold make_partition in H. inv_ok. apply bool_decide_eq_true in Hg0.
  assert (sort_by ac_members cs ≡ₚ cs) as Hp by apply sort_by_perm.
  assert (Forall (λ c, valid_members (ac_members c) ∧ 0 ≤ established_revision c) (sort_by ac_members cs)) as Hcs'.
  { by rewrite Hp. }
  destruct x. apply check_components_spec in Hx as (Hr & Hnd & _); last first.
  { eapply Forall_impl; [exact Hcs'|]. intros c [Hc _]. by apply valid_members_NoDup. }
  split; [|done]. split; cbn; [lia| |done|apply sort_by_sorted].
  apply Forall_forall. intros c Hc. rewrite Forall_forall in Hr, Hcs'. specialize (Hr c Hc).
  destruct (Hcs' c Hc). cbn in Hr. split; [done|lia].
Qed.

Lemma make_partition_perm p cs : valid_partition p → cs ≡ₚ active p → make_partition (revision p) cs = Ok p.
Proof.
  intros [Hr Hc Hd Hs] Hp. unfold make_partition.
  assert (Forall valid_members (members_of p)) as Hv.
  { apply Forall_fmap. eapply Forall_impl; [exact Hc|]. by intros c []. }
  rewrite (sort_by_unique ac_members (active p) cs); [|done|by apply disjoint_NoDup|done].
  rewrite bool_decide_eq_true_2 by (by apply disjoint_NoDup).
  rewrite (proj2 (Z.leb_le 0 (revision p))) by done. cbn.
  assert (check_components (revision p) ∅ (active p) = Ok ()) as ->; [|by destruct p].
  apply check_components_spec.
  - eapply Forall_impl; [exact Hc|]. intros c [? _]. by apply valid_members_NoDup.
  - split; [|split; [done|set_solver]]. eapply Forall_impl; [exact Hc|]. intros c [_ ?]. lia.
Qed.

Lemma partition_valid_members p : valid_partition p → Forall valid_members (members_of p).
Proof. intros H. apply Forall_fmap. eapply Forall_impl; [apply (vp_components p H)|]. by intros c []. Qed.

Lemma valid_make_component c rev : valid_component rev c → make_active_component (ac_members c) (established_revision c) = Ok c.
Proof.
  intros [Hm He]. unfold make_active_component. rewrite members_valid by done. cbn.
  rewrite (proj2 (Z.leb_le _ _)) by lia. by destruct c.
Qed.

Lemma decode_component t c rev :
  valid_component rev c →
  (∀ n, t_members t !! n = Some (encode_component_key (ac_members c)) ↔ n ∈ ac_members c) →
  _decode_active_component t (encode_component_key (ac_members c), established_revision c) rev = Ok c.
Proof.
  intros Hc Hn. pose proof Hc as [Hm He]. unfold _decode_active_component. cbn.
  rewrite decode_encode_component_key. cbn. rewrite (proj1 (proj2 Hm)), members_valid by done. cbn.
  rewrite !bool_decide_eq_true_2; [| |done]; last by apply recorded_members_spec. cbn.
  rewrite (valid_make_component _ _ Hc). cbn. by rewrite (proj2 (Z.leb_le _ _)) by lia.
Qed.

Lemma represented_members t p c n : valid_partition p → represents t p → c ∈ active p →
  t_members t !! n = Some (encode_component_key (ac_members c)) ↔ n ∈ ac_members c.
Proof.
  intros Hv (_ & _ & Ht) Hc. rewrite Ht, member_rows_lookup by apply (vp_disjoint p Hv).
  assert (ac_members c ∈ members_of p) as Hin by (apply list_elem_of_fmap; eauto).
  pose proof (partition_valid_members p Hv) as Hvm. rewrite Forall_forall in Hvm.
  split; [|eauto]. intros (m & Hm & Hn & He). apply encode_key_inj in He; [congruence|auto|auto].
Qed.

Definition component_row (c : active_component) : string * Z :=
  (encode_component_key (ac_members c), established_revision c).

Lemma component_rows_NoDup p : valid_partition p → NoDup (component_row <$> active p).*1.
Proof.
  intros Hv. pose proof (partition_valid_members p Hv) as Hvm.
  assert (NoDup (members_of p)) as Hnd by (apply disjoint_NoDup, (vp_disjoint p Hv); done).
  replace ((component_row <$> active p).*1) with (encode_component_key <$> members_of p);
    [|unfold members_of; by rewrite <- !list_fmap_compose].
  rewrite Forall_forall in Hvm. induction Hnd as [|m l Hm Hnd IH]; cbn; [constructor|].
  constructor; [|apply IH; intros; apply Hvm; by right].
  intros (m' & He & Hm')%list_elem_of_fmap. apply encode_key_inj in He as ->; [done| |]; apply Hvm; [by left|by right].
Qed.

Lemma rmap_perm {A B} (f : A → result B) (g : B → A) l k :
  l ≡ₚ g <$> k → (∀ y, y ∈ k → f (g y) = Ok y) → ∃ k', rmap f l = Ok k' ∧ k' ≡ₚ k.
Proof.
  intros Hp Hf. apply (Permutation_map_inv g) in Hp as (k' & -> & Hk). exists k'. split; [|by symmetry].
  assert (∀ y, y ∈ k' → f (g y) = Ok y) as Hf' by (intros y Hy; apply Hf; by rewrite Hk).
  clear Hk Hf. induction k' as [|y k' IH]; cbn; [done|]. rewrite Hf' by left. cbn.
  rewrite IH; [done|]. intros; apply Hf'; by right.
Qed.

Lemma sum_lengths_perm cs cs' : cs ≡ₚ cs' →
  sum_list_with (λ c, length (ac_members c)) cs = sum_list_with (λ c, length (ac_members c)) cs'.
Proof. induction 1; cbn; lia. Qed.

Lemma sum_lengths_join cs : sum_list_with (λ c, length (ac_members c)) cs = length (mjoin (ac_members <$> cs)).
Proof. induction cs as [|c cs IH]; cbn; [done|]. by rewrite IH, length_app. Qed.

(** Reading tables that represent a valid partition gives the partition back. *)
Lemma read_represented t p : valid_partition p → represents t p → read_active_component_partition t = Ok (Some p).
Proof.
  intros Hv Ht. pose proof Ht as (Hr & Ha & Hm). unfold read_active_component_partition, _read_partition_revision.
  rewrite Hr. pose proof (vp_revision p Hv). rewrite (proj2 (Z.leb_le 0 _)) by done. cbn.
  destruct (rmap_perm (λ row, _decode_active_component t row (revision p)) component_row (active_rows t) (active p))
    as (cs & -> & Hcs).
  - unfold active_rows. rewrite py_sorted_perm, Ha. apply map_to_list_to_map, component_rows_NoDup, Hv.
  - intros c Hc. apply decode_component; [|intros n; by apply (represented_members t p)].
    pose proof (vp_components p Hv) as Hvc. rewrite Forall_forall in Hvc. auto.
  - cbn. rewrite (sum_lengths_perm _ _ Hcs), sum_lengths_join, Hm, map_size_list_to_map;
      [|rewrite member_rows_fst; apply (vp_disjoint p Hv)].
    rewrite <- (length_fmap fst), member_rows_fst, Nat.eqb_refl. cbn. by rewrite make_partition_perm.
Qed.

Lemma on_value_error_ok {A} (m : result A) msg a : on_value_error m msg = Ok a ↔ m = Ok a.
Proof. unfold on_value_error. destruct m as [|e]; [done|]. case_decide; split; discriminate. Qed.

Lemma make_active_component_ok m e c : make_active_component m e = Ok c →
  valid_members (ac_members c) ∧ ac_members c = component_key m ∧ 0 ≤ e ∧ established_revision c = e.
Proof.
  unfold make_active_component. intros H. inv_ok. apply members_ok in Hx as [Hv ->]. cbn. split; [done|]. split; [done|]. lia.
Qed.

Lemma decode_component_ok t row rev c : _decode_active_component t row rev = Ok c →
  valid_component rev c ∧ component_row c = row ∧ recorded_members t row.1 = ac_members c.
Proof.
  unfold _decode_active_component. intros H. inv_ok. apply on_value_error_ok in Hx, Hx0.
  apply rbind_ok in Hx as (l & _ & Hm). apply members_ok in Hm as [Hv ->].
  apply bool_decide_eq_true in Hg, Hg0. apply make_active_component_ok in Hx0 as (Hc & Hm & He & Hes).
  rewrite component_key_set in Hm. rewrite Hm in *. split; [split; [by rewrite Hm|lia]|]. split; [|done].
  unfold component_row. rewrite Hm, Hg, Hes. by destruct row.
Qed.

Lemma recorded_members_elem t k n : n ∈ recorded_members t k ↔ t_members t !! n = Some k.
Proof.
  unfold recorded_members. rewrite elem_of_py_sorted, list_elem_of_fmap. split.
  - intros ([n' k'] & -> & Hin). apply elem_of_map_to_list, map_lookup_filter_Some in Hin as [Hin Hk]. cbn in *. congruence.
  - intros Hn. exists (n, k). split; [done|]. by apply elem_of_map_to_list, map_lookup_filter_Some.
Qed.

(** The reader accepts exactly the tables that represent a valid partition, and returns
    that partition. *)
Lemma read_ok t p : read_active_component_partition t = Ok (Some p) → valid_partition p ∧ represents t p.
Proof.
  unfold read_active_component_partition, _read_partition_revision. intros H. destruct (t_revision t) as [rev|] eqn:Hrev.
  2: { inv_ok. discriminate. }
  inv_ok. apply on_value_error_ok in Hx0. apply rmap_ok in Hx. apply Nat.eqb_eq in Hg0.
  assert (Forall (valid_component rev) x ∧ component_row <$> x = active_rows t ∧
    Forall (λ c, ∀ n, n ∈ ac_members c ↔ t_members t !! n = Some (encode_component_key (ac_members c))) x) as (Hv & Hrows & Hms).
  { clear Hg Hg0 Hx0. induction Hx as [|row c rows cs Hrow Hrest (IH1 & IH2 & IH3)]; [repeat split; constructor|].
    apply decode_component_ok in Hrow as (Hc & <- & Hm). split; [by constructor|]. split; [by cbn; rewrite IH2|].
    constructor; [|done]. intros n. rewrite <- Hm at 1. apply recorded_members_elem. }
  apply make_partition_ok in Hx0 as (Hp & Hr & Hperm).
  2: { eapply Forall_impl; [exact Hv|]. intros c [? ?]. split; [done|lia]. }
  split; [done|]. split; [by rewrite Hr|]. fold component_row.
  assert (t_active t = list_to_map (component_row <$> active p)) as Ha.
  { rewrite <- (list_to_map_to_list (t_active t)). apply list_to_map_proper; [apply NoDup_fst_map_to_list|].
    rewrite Hperm, Hrows. unfold active_rows. by rewrite py_sorted_perm. }
  split; [exact Ha|]. symmetry. apply map_subseteq_size_eq.
  - apply map_subseteq_spec. intros n k (m & Hm & Hn & ->)%member_rows_lookup; [|apply (vp_disjoint p Hp)].
    apply list_elem_of_fmap in Hm as (c & -> & Hc). rewrite Forall_forall in Hms. apply Hms; [|done]. by rewrite <- Hperm.
  - rewrite map_size_list_to_map by (rewrite member_rows_fst; apply (vp_disjoint p Hp)).
    rewrite <- (length_fmap fst), member_rows_fst, Hg0, <- (sum_lengths_perm _ _ Hperm), sum_lengths_join. done.
Qed.

Lemma read_iff t p : read_active_component_partition t = Ok (Some p) ↔ valid_partition p ∧ represents t p.
Proof. split; [apply read_ok|]. intros [? ?]. by apply read_represented. Qed.

(** ** The closure *)

Lemma meets_spec nodes m : meets nodes m = true ↔ ∃ n, n ∈ m ∧ n ∈ nodes.
Proof.
  unfold meets. rewrite existsb_exists. setoid_rewrite bool_decide_eq_true.
  split; intros (n & Hn & Hin); exists n; split; try done; by apply list_elem_of_In.
Qed.

Lemma elem_of_nodes_of n (l : list key) : n ∈ nodes_of l ↔ ∃ m, m ∈ l ∧ n ∈ m.
Proof. unfold nodes_of. rewrite elem_of_list_to_set, list_elem_of_join. naive_solver. Qed.

Section closure.
Context (target requested : list key) (act : list active_component) (hist : list history).

(** The member sets a change may touch: target components, active ones, and the members
    of a generation with reusable work. *)
Inductive region : key → Prop :=
  | region_target m : m ∈ target → region m
  | region_active c : c ∈ act → region (ac_members c)
  | region_history h : h ∈ hist → has_reusable_work h = true → region (h_members h).

(** The nodes reached from the requested components through shared members. *)
Inductive linked : string → Prop :=
  | linked_requested m n : m ∈ requested → n ∈ m → linked n
  | linked_region m n n' : region m → n ∈ m → linked n → n' ∈ m → linked n'.

Definition touched (m : key) : Prop := ∃ n, n ∈ m ∧ linked n.

(** The nodes a state of the loop has reached. *)
Definition reached (s : closure_state) (n : string) : Prop :=
  (∃ m, (m ∈ selected_target s ∨ m ∈ selected_active s) ∧ n ∈ m) ∨
  ∃ h, h ∈ selected_reusable s ∧ n ∈ h_members h.

Record sound (s : closure_state) : Prop := {
  so_target m : m ∈ selected_target s → m ∈ target;
  so_active m : m ∈ selected_active s → m ∈ ac_members <$> act;
  so_reusable h : h ∈ selected_reusable s → h ∈ hist ∧ has_reusable_work h = true;
  so_linked n : reached s n → linked n;
  so_requested m : m ∈ requested → m ∈ selected_target s
}.

Definition grows (s s' : closure_state) : Prop :=
  selected_target s ⊆ selected_target s' ∧ selected_active s ⊆ selected_active s' ∧
  selected_reusable s ⊆ selected_reusable s'.

Lemma closure_step_grows s : grows s (closure_step target act hist s).
Proof. unfold grows, closure_step. cbn. set_solver. Qed.

Lemma elem_of_reached_step s n :
  n ∈ nodes_of (elements (selected_target s ∪ selected_active s)) ∪ nodes_of (h_members <$> elements (selected_reusable s))
  ↔ reached s n.
Proof.
  unfold reached. rewrite elem_of_union, !elem_of_nodes_of. setoid_rewrite elem_of_elements. setoid_rewrite elem_of_union.
  setoid_rewrite list_elem_of_fmap. setoid_rewrite elem_of_elements. naive_solver.
Qed.

(** What one pass adds: members that meet a linked node. *)
Lemma linked_meets (nodes : gset string) m : (∀ n, n ∈ nodes → linked n) → region m → meets nodes m = true →
  ∀ n, n ∈ m → linked n.
Proof. intros Hn Hm (n0 & Hin & Hn0)%meets_spec n Hnm. exact (linked_region m n0 n Hm Hin (Hn _ Hn0) Hnm). Qed.

Lemma closure_step_sound s : sound s → sound (closure_step target act hist s).
Proof.
  intros [H1 H2 H3 H4 H5]. unfold closure_step.
  set (r1 := nodes_of (elements (selected_target s ∪ selected_active s)) ∪ _).
  set (sa := selected_active s ∪ _). set (r2 := r1 ∪ _). set (sr := selected_reusable s ∪ _).
  set (r3 := r2 ∪ _). set (st := selected_target s ∪ _).
  assert (∀ n, n ∈ r1 → linked n) as L1 by (intros n Hn%elem_of_reached_step; auto).
  assert (∀ m, m ∈ sa → m ∈ ac_members <$> act ∧ ∀ n, n ∈ m → linked n) as La.
  { intros m [Hm|Hm]%elem_of_union.
    - split; [auto|]. intros n Hn. apply H4. left. eauto.
    - apply elem_of_list_to_set, list_elem_of_filter in Hm as [Hmt Hm]. split; [done|].
      apply (linked_meets r1); [done| |done]. apply list_elem_of_fmap in Hm as (c & -> & Hc). by constructor. }
  assert (∀ n, n ∈ r2 → linked n) as L2.
  { intros n [Hn|(m & Hm%elem_of_elements & Hn)%elem_of_nodes_of]%elem_of_union; [auto|]. by eapply La. }
  assert (∀ h, h ∈ sr → (h ∈ hist ∧ has_reusable_work h = true) ∧ ∀ n, n ∈ h_members h → linked n) as Lr.
  { intros h [Hh|Hh]%elem_of_union.
    - split; [auto|]. intros n Hn. apply H4. right. eauto.
    - apply elem_of_list_to_set, list_elem_of_filter in Hh as [[Hw Hmt]%andb_true_iff Hh]. split; [done|].
      apply (linked_meets r2); [done|by constructor|done]. }
  assert (∀ n, n ∈ r3 → linked n) as L3.
  { intros n [Hn|(m & (h & -> & Hh%elem_of_elements)%list_elem_of_fmap & Hn)%elem_of_nodes_of]%elem_of_union; [auto|].
    by eapply Lr. }
  assert (∀ m, m ∈ st → m ∈ target ∧ ∀ n, n ∈ m → linked n) as Lt.
  { intros m [Hm|Hm]%elem_of_union.
    - split; [auto|]. intros n Hn. apply H4. left. eauto.
    - apply elem_of_list_to_set, list_elem_of_filter in Hm as [Hmt Hm]. split; [done|].
      apply (linked_meets r3); [done|by constructor|done]. }
  split; cbn.
  - intros m Hm. by apply Lt.
  - intros m Hm. by apply La.
  - intros h Hh. by apply Lr.
  - intros n [(m & [Hm|Hm] & Hn)|(h & Hh & Hn)]; [by eapply Lt|by eapply La|by eapply Lr].
  - intros m Hm. apply elem_of_union_l. auto.
Qed.

Lemma grows_sizes s s' : grows s s' →
  (size (selected_target s) ≤ size (selected_target s') ∧ size (selected_active s) ≤ size (selected_active s') ∧
   size (selected_reusable s) ≤ size (selected_reusable s'))%nat ∧
  (sizes s' = sizes s → s' = s).
Proof.
  intros (H1 & H2 & H3). split; [repeat split; by apply subseteq_size|]. unfold sizes. intros [= E1 E2 E3].
  destruct s, s'; cbn in *. f_equal; symmetry; apply leibniz_equiv, set_subseteq_size_equiv; try done; lia.
Qed.

Lemma closure_fixpoint fuel s s' : sound s → closure fuel target act hist s = Some s' →
  sound s' ∧ closure_step target act hist s' = s'.
Proof.
  revert s. induction fuel as [|fuel IH]; intros s Hs H; [done|]. cbn [closure] in H.
  destruct (grows_sizes _ _ (closure_step_grows s)) as [_ Hsz]. case_decide as Hd.
  - injection H as <-. pose proof (Hsz Hd) as He. split; [by apply closure_step_sound|]. by rewrite !He.
  - apply (IH (closure_step target act hist s)); [by apply closure_step_sound|done].
Qed.

Lemma size_list_to_set_le {A} `{Countable A} (l : list A) : (size (list_to_set l : gset A) ≤ length l)%nat.
Proof.
  induction l as [|x l IH]; cbn; [by rewrite size_empty|]. rewrite size_union_alt, size_singleton.
  pose proof (subseteq_size (list_to_set l ∖ {[x]} : gset A) (list_to_set l) ltac:(set_solver)). lia.
Qed.

(** Each pass but the last selects something new, and only so much can be selected. *)
Definition weight (s : closure_state) : nat :=
  size (selected_target s) + size (selected_active s) + size (selected_reusable s).

Lemma sound_weight s : sound s → (weight s ≤ length target + length act + length hist)%nat.
Proof.
  intros [H1 H2 H3 _ _]. unfold weight.
  assert (∀ `{Countable A} (X : gset A) (l : list A), (∀ x, x ∈ X → x ∈ l) → (size X ≤ length l)%nat) as Hsz.
  { intros A ? ? X l Hl. etrans; [apply (subseteq_size X (list_to_set l))|apply size_list_to_set_le].
    intros x Hx. by apply elem_of_list_to_set, Hl. }
  pose proof (Hsz _ _ _ _ _ H1). pose proof (Hsz _ _ _ _ _ H2) as Ha. rewrite length_fmap in Ha.
  assert (size (selected_reusable s) ≤ length hist)%nat by (apply Hsz; intros h Hh; by apply H3). lia.
Qed.

Lemma closure_terminates fuel s : sound s → (length target + length act + length hist < weight s + fuel)%nat →
  is_Some (closure fuel target act hist s).
Proof.
  revert s. induction fuel as [|fuel IH]; intros s Hs Hf.
  { pose proof (sound_weight s Hs). lia. }
  cbn [closure]. case_decide as Hd; [eauto|]. apply IH; [by apply closure_step_sound|].
  destruct (grows_sizes _ _ (closure_step_grows s)) as [(H1 & H2 & H3) _].
  assert (weight s < weight (closure_step target act hist s))%nat; [|lia]. unfold weight.
  enough (¬ (size (selected_target (closure_step target act hist s)) = size (selected_target s) ∧
    size (selected_active (closure_step target act hist s)) = size (selected_active s) ∧
    size (selected_reusable (closure_step target act hist s)) = size (selected_reusable s))) by lia.
  intros (E1 & E2 & E3). apply Hd. unfold sizes. congruence.
Qed.

(** A state the loop ends in has selected exactly what the requested components touch. *)
Lemma fixpoint_selects s m : closure_step target act hist s = s → (∃ n, n ∈ m ∧ reached s n) →
  (m ∈ target → m ∈ selected_target s) ∧ (m ∈ ac_members <$> act → m ∈ selected_active s) ∧
  (∀ h, h ∈ hist → has_reusable_work h = true → h_members h = m → h ∈ selected_reusable s).
Proof.
  intros He (n & Hn & Hr%elem_of_reached_step). rewrite <- He. unfold closure_step. cbn [selected_target selected_active selected_reusable].
  assert (∀ nodes : gset string, n ∈ nodes → meets nodes m = true) as Hmeet by (intros; apply meets_spec; eauto).
  repeat split.
  - intros Hm. apply elem_of_union_r, elem_of_list_to_set, list_elem_of_filter. split; [|done]. apply Hmeet.
    do 2 apply elem_of_union_l. done.
  - intros Hm. apply elem_of_union_r, elem_of_list_to_set, list_elem_of_filter. split; [|done]. by apply Hmeet.
  - intros h Hh Hw <-. apply elem_of_union_r, elem_of_list_to_set, list_elem_of_filter. split; [|done].
    rewrite Hw. apply Hmeet. by apply elem_of_union_l.
Qed.

Lemma linked_reached s n : sound s → closure_step target act hist s = s → linked n → reached s n.
Proof.
  intros Hs He. induction 1 as [m n Hm Hn|m n n' Hm Hn _ IH Hn'].
  - left. exists m. split; [left; by apply (so_requested s Hs)|done].
  - destruct (fixpoint_selects s m He) as (F1 & F2 & F3); [eauto|]. destruct Hm as [m Hm|c Hc|h Hh Hw].
    + left. eauto.
    + left. exists (ac_members c). split; [right; apply F2, list_elem_of_fmap; eauto|done].
    + right. exists h. split; [by apply F3|done].
Qed.

Record selects (s : closure_state) : Prop := {
  sel_target m : m ≠ [] → m ∈ selected_target s ↔ m ∈ target ∧ touched m;
  sel_active m : m ≠ [] → m ∈ selected_active s ↔ m ∈ ac_members <$> act ∧ touched m;
  sel_reusable h : h_members h ≠ [] → h ∈ selected_reusable s ↔ h ∈ hist ∧ has_reusable_work h = true ∧ touched (h_members h);
  sel_reached n : reached s n ↔ linked n
}.

Lemma fixpoint_exact s : sound s → closure_step target act hist s = s → selects s.
Proof.
  intros Hs He. assert (∀ n, reached s n ↔ linked n) as Hr.
  { intros n. split; [apply (so_linked s Hs)|by apply linked_reached]. }
  assert (∀ m, touched m → ∃ n, n ∈ m ∧ reached s n) as Ht by (intros m (n & Hn & Hl); exists n; by rewrite Hr).
  assert (∀ m : key, m ≠ [] → (∀ n, n ∈ m → linked n) → touched m) as Hne.
  { intros [|n m] Hm Hl; [done|]. exists n. split; [left|apply Hl; left]. }
  split; [| | |done].
  - intros m Hm. split.
    + intros Hin. split; [by apply (so_target s Hs)|]. apply Hne; [done|]. intros n Hn. apply Hr. left. eauto.
    + intros [Hin Htm]. by apply (fixpoint_selects s m He (Ht m Htm)).
  - intros m Hm. split.
    + intros Hin. split; [by apply (so_active s Hs)|]. apply Hne; [done|]. intros n Hn. apply Hr. left. eauto.
    + intros [Hin Htm]. by apply (fixpoint_selects s m He (Ht m Htm)).
  - intros h Hm. split.
    + intros Hin. destruct (so_reusable s Hs h Hin) as [Hh Hw]. split; [done|]. split; [done|]. apply Hne; [done|].
      intros n Hn. apply Hr. right. eauto.
    + intros (Hh & Hw & Htm). by apply (fixpoint_selects s (h_members h) He (Ht _ Htm)).
Qed.
End closure.

(** ** Observed changes *)

#[local] Arguments closure : simpl never.
#[local] Arguments _ordered_components : simpl never.
#[local] Arguments sorted_history : simpl never.

Definition valid_history (h : history) : Prop := valid_members (h_members h) ∧ 1 ≤ h_shape_id h ∧ 0 ≤ h_generation h.

Lemma closure_init_sound target requested act hist : (∀ m, m ∈ requested → m ∈ target) →
  sound target requested act hist (ClosureState (list_to_set requested) ∅ ∅).
Proof.
  intros Hr. split; cbn.
  - intros m Hm%elem_of_list_to_set. auto.
  - set_solver.
  - set_solver.
  - intros n [(m & [Hm%elem_of_list_to_set|Hm] & Hn)|(h & Hh & _)]; [|set_solver|set_solver].
    by apply (linked_requested _ _ _ _ m).
  - intros m Hm. by apply elem_of_list_to_set.
Qed.

(** The loop ends, in the closure. *)
Lemma closure_runs target requested act hist : (∀ m, m ∈ requested → m ∈ target) →
  ∃ s, closure (S (S (length target + length act + length hist))) target act hist
         (ClosureState (list_to_set requested) ∅ ∅) = Some s ∧
    sound target requested act hist s ∧ selects target requested act hist s.
Proof.
  intros Hr. pose proof (closure_init_sound target requested act hist Hr) as Hs.
  destruct (closure_terminates target requested act hist (S (S (length target + length act + length hist))) _ Hs) as [s Hc].
  { lia. }
  exists s. split; [done|]. destruct (closure_fixpoint target requested act hist _ _ _ Hs Hc) as [Hs' He].
  split; [done|]. by apply fixpoint_exact.
Qed.

(** Everything [observe_membership_change] computes from the final state of its loop. *)
Definition observed (p : partition) (shape : string) (target requested : list key) (hist : list history)
    (s : closure_state) : result change :=
  let reusable_nodes := nodes_of (h_members <$> elements (selected_reusable s)) in
  let affected_nodes := nodes_of (elements (selected_target s ∪ selected_active s)) ∪ reusable_nodes in
  let relevant := filter (λ h, meets affected_nodes (h_members h) = true) hist in
  let prepared : gset key := list_to_set requested
    ∪ filter (λ m, meets reusable_nodes m = true) (selected_target s) in
  let! preparation := rmap (λ m, make_scope m (max_generation
      (h_generation <$> filter (λ h, meets (list_to_set m) (h_members h) = true) relevant)))
    (filter (λ m, m ∈ prepared) target) in
  Ok (MembershipChange p shape requested (py_sorted (elements (selected_active s)))
        (filter (λ m, m ∈ selected_target s) target) preparation relevant
        (py_sorted (elements (affected_nodes ∖ nodes_of target)))).

Lemma observe_unfold p snap req target requested hist0 hist s :
  shape_json snap ≠ "" → _ordered_components (components snap) = Ok target → target = py_sorted target →
  _ordered_components req = Ok requested → requested ≠ [] → (∀ m, m ∈ requested → m ∈ target) →
  sorted_history hist0 = Ok hist →
  closure (S (S (length target + length (active p) + length hist))) target (active p) hist
    (ClosureState (list_to_set requested) ∅ ∅) = Some s →
  observe_membership_change p snap req hist0 = observed p (shape_json snap) target requested hist s.
Proof.
  intros H1 H2 H3 H4 H5 H6 H7 H8. unfold observe_membership_change.
  rewrite bool_decide_eq_false_2 by done. cbn. rewrite H2. cbn. rewrite bool_decide_eq_true_2 by done. cbn.
  rewrite H4. cbn. rewrite bool_decide_eq_false_2 by done. cbn.
  assert (forallb (λ m, bool_decide (m ∈ target)) requested = true) as ->.
  { apply forallb_forall. intros m Hm%list_elem_of_In. apply bool_decide_eq_true. auto. }
  cbn. rewrite H7. cbn [rbind]. by rewrite H8.
Qed.

Lemma observe_ok p snap req hist0 ch : observe_membership_change p snap req hist0 = Ok ch →
  ∃ target requested hist s,
    shape_json snap ≠ "" ∧ _ordered_components (components snap) = Ok target ∧ target = py_sorted target ∧
    _ordered_components req = Ok requested ∧ requested ≠ [] ∧ (∀ m, m ∈ requested → m ∈ target) ∧
    sorted_history hist0 = Ok hist ∧
    sound target requested (active p) hist s ∧ selects target requested (active p) hist s ∧
    observed p (shape_json snap) target requested hist s = Ok ch.
Proof.
  unfold observe_membership_change. intros H. inv_ok.
  apply negb_true_iff, bool_decide_eq_false in Hg. apply bool_decide_eq_true in Hg0.
  apply andb_true_iff in Hg1 as [Hne%negb_true_iff%bool_decide_eq_false Hin].
  assert (∀ m, m ∈ x0 → m ∈ x) as Hr.
  { intros m Hm. rewrite forallb_forall in Hin. apply (bool_decide_eq_true (m ∈ x)), Hin. by apply list_elem_of_In. }
  destruct (closure_runs x x0 (active p) x1 Hr) as (s & Hs & Hsound & Hsel). rewrite Hs in H.
  exists x, x0, x1, s. repeat (split; [done|]). done.
Qed.

Lemma sorted_history_ok l hist : sorted_history l = Ok hist →
  hist ≡ₚ l ∧ NoDup (history_key <$> hist) ∧ StronglySorted (le_by history_key) hist.
Proof.
  unfold sorted_history. intros H. inv_ok. apply bool_decide_eq_true in Hg. split; [apply sort_by_perm|].
  split; [done|apply sort_by_sorted].
Qed.

(** A part of the sorted observations is sorted already. *)
Lemma sorted_history_filter l hist (P : history → Prop) `{∀ h, Decision (P h)} :
  sorted_history l = Ok hist → sorted_history (filter P hist) = Ok (filter P hist).
Proof.
  intros (_ & Hnd & Hs)%sorted_history_ok. unfold sorted_history.
  assert (NoDup (history_key <$> filter P hist)) as Hnd'.
  { eapply sublist_NoDup; [exact Hnd|]. apply fmap_sublist, sublist_filter. }
  rewrite sort_by_id; [|done|by apply StronglySorted_filter]. by rewrite bool_decide_eq_true_2.
Qed.

Definition affected (s : closure_state) : gset string :=
  nodes_of (elements (selected_target s ∪ selected_active s)) ∪ nodes_of (h_members <$> elements (selected_reusable s)).

Lemma linked_mono target requested act hist hist' :
  (∀ h, h ∈ hist → has_reusable_work h = true → touched target requested act hist (h_members h) → h ∈ hist') →
  ∀ n, linked target requested act hist n → linked target requested act hist' n.
Proof.
  intros Hh n. induction 1 as [m n Hm Hn|m n n' Hm Hn Hl IH Hn']; [by apply (linked_requested _ _ _ _ m)|].
  apply (linked_region _ _ _ _ m n); try done. destruct Hm as [m Hm|c Hc|h Hh' Hw]; [by constructor|by constructor|].
  constructor; [|done]. apply Hh; [done|done|]. exists n. done.
Qed.

(** Irrelevant observations do not change what the closure selects. *)
Lemma relevant_selects target requested act hist s s' :
  Forall valid_members target → Forall (λ c, valid_members (ac_members c)) act → Forall valid_history hist →
  sound target requested act hist s → selects target requested act hist s →
  let relevant := filter (λ h, meets (affected s) (h_members h) = true) hist in
  sound target requested act relevant s' → selects target requested act relevant s' → s' = s.
Proof.
  intros Ht Ha Hh Hso Hse relevant Hso' Hse'.
  assert (∀ n, linked target requested act relevant n ↔ linked target requested act hist n) as Hl.
  { intros n. split; apply linked_mono.
    - intros h [_ Hin]%list_elem_of_filter _ _. done.
    - intros h Hin Hw (n' & Hn' & Hl'). apply list_elem_of_filter. split; [|done]. apply meets_spec.
      exists n'. split; [done|]. unfold affected. rewrite elem_of_reached_step. by apply (sel_reached _ _ _ _ s Hse). }
  assert (∀ m, touched target requested act relevant m ↔ touched target requested act hist m) as Htm.
  { intros m. unfold touched. by setoid_rewrite Hl. }
  rewrite Forall_forall in Ht. rewrite Forall_forall in Ha. rewrite Forall_forall in Hh.
  assert (∀ m, m ∈ target → m ≠ []) as Ht' by (intros m Hm; by destruct (Ht m Hm)).
  assert (∀ m, m ∈ ac_members <$> act → m ≠ []) as Ha'.
  { intros m (c & -> & Hc)%list_elem_of_fmap. by destruct (Ha c Hc). }
  assert (∀ h, h ∈ hist → h_members h ≠ []) as Hh' by (intros h Hin; by destruct (Hh h Hin) as [[? _] _]).
  destruct Hso as [A1 A2 A3 _ _], Hso' as [B1 B2 B3 _ _], Hse as [C1 C2 C3 _], Hse' as [D1 D2 D3 _].
  destruct s as [st sa sr], s' as [st' sa' sr']; cbn in *. f_equal; apply leibniz_equiv.
  - intros m. split; intros Hm.
    + apply C1; [auto|]. rewrite <- Htm. apply D1; auto.
    + apply D1; [auto|]. rewrite Htm. apply C1; auto.
  - intros m. split; intros Hm.
    + apply C2; [auto|]. rewrite <- Htm. apply D2; auto.
    + apply D2; [auto|]. rewrite Htm. apply C2; auto.
  - intros h. split; intros Hin.
    + destruct (B3 h Hin) as [Hr _]. assert (h ∈ hist) as Hm by by apply list_elem_of_filter in Hr as [_ ?].
      apply C3; [auto|]. apply D3 in Hin as (_ & Hw & Hx); [|auto]. rewrite <- Htm. done.
    + destruct (A3 h Hin) as [Hm _]. apply D3; [auto|]. pose proof Hin as (_ & Hw & Hx)%C3; [|auto]. rewrite Htm.
      split; [|done]. apply list_elem_of_filter. split; [|done]. apply meets_spec. destruct (h_members h) as [|n k] eqn:Hk.
      * by destruct (Hh' h Hm).
      * exists n. split; [left|]. unfold affected. apply elem_of_union_r, elem_of_nodes_of. exists (h_members h).
        split; [|rewrite Hk; left]. apply list_elem_of_fmap. exists h. split; [done|]. by apply elem_of_elements.
Qed.

Lemma observed_fields p shape target requested hist s ch : observed p shape target requested hist s = Ok ch →
  source ch = p ∧ target_shape_json ch = shape ∧ requested_components ch = requested ∧
  source_components ch = py_sorted (elements (selected_active s)) ∧
  target_components ch = filter (λ m, m ∈ selected_target s) target ∧
  historical_memberships ch = filter (λ h, meets (affected s) (h_members h) = true) hist.
Proof. unfold observed. intros H. inv_ok. done. Qed.

(** Observing again from the relevant observations the change recorded gives the change. *)
Lemma observe_again p snap req hist0 ch :
  valid_partition p → Forall valid_history hist0 → observe_membership_change p snap req hist0 = Ok ch →
  observe_membership_change p snap (requested_components ch) (historical_memberships ch) = Ok ch.
Proof.
  intros Hp Hh0 (target & requested & hist & s & H1 & H2 & H3 & H4 & H5 & H6 & H7 & Hso & Hse & Hob)%observe_ok.
  destruct (observed_fields _ _ _ _ _ _ _ Hob) as (_ & _ & -> & _ & _ & ->).
  set (relevant := filter _ hist). destruct (ordered_components_ok _ _ H2) as [_ Htv].
  destruct (ordered_components_ok _ _ H4) as [Hrnd Hrv].
  assert (Forall valid_history hist) as Hh.
  { pose proof (sorted_history_ok _ _ H7) as (Hperm & _ & _). by rewrite Hperm. }
  assert (Forall (λ c, valid_members (ac_members c)) (active p)) as Hact.
  { eapply Forall_impl; [apply (vp_components p Hp)|]. by intros c []. }
  destruct (closure_runs target requested (active p) relevant H6) as (s' & Hs' & Hso' & Hse').
  assert (s' = s) as ->.
  { apply (relevant_selects target requested (active p) hist s s' Htv Hact Hh Hso Hse Hso' Hse'). }
  rewrite (observe_unfold p snap requested target requested relevant relevant s); try done.
  - rewrite <- Hob. unfold observed. fold (affected s). fold relevant.
    assert (filter (λ h, meets (affected s) (h_members h) = true) relevant = relevant) as ->; [|done].
    subst relevant. rewrite list_filter_filter. apply list_filter_iff. intros h. naive_solver.
  - by apply ordered_components_valid.
  - by eapply sorted_history_filter.
Qed.

(** ** Replacement *)

Lemma insert_rows_ok {V} (rows : list (string * V)) m : NoDup rows.*1 → (∀ k, k ∈ rows.*1 → m !! k = None) →
  insert_rows rows m = Ok (list_to_map rows ∪ m).
Proof.
  revert m. induction rows as [|[k v] rows IH]; intros m; cbn; [by rewrite left_id_L by apply _|].
  intros [Hk Hnd]%NoDup_cons Hm. rewrite (Hm k) by left. rewrite IH; [|done|].
  - f_equal. rewrite <- insert_union_r, insert_union_l; [done|]. by apply not_elem_of_list_to_map_1.
  - intros k' Hk'. rewrite lookup_insert_ne by congruence. apply Hm. by right.
Qed.

Lemma component_rows_fst rev l : (component_rows rev l).*1 = encode_component_key <$> l.
Proof. unfold component_rows. by rewrite <- list_fmap_compose. Qed.

Lemma encode_keys_NoDup l : Forall valid_members l → NoDup l → NoDup (encode_component_key <$> l).
Proof.
  intros Hv Hnd. rewrite Forall_forall in Hv. induction Hnd as [|m l Hm Hnd IH]; cbn; [constructor|].
  constructor; [|apply IH; intros; apply Hv; by right].
  intros (m' & He & Hm')%list_elem_of_fmap. apply encode_key_inj in He as ->; [done| |]; apply Hv; [by left|by right].
Qed.

Lemma join_sublist_NoDup (k l : list key) : l `sublist_of` k → NoDup (mjoin k) → NoDup (mjoin l).
Proof.
  induction 1 as [|x l k Hs IH|x l k Hs IH]; cbn; [done| |].
  - intros (H1 & H2 & H3)%NoDup_app. apply NoDup_app. split; [done|]. split; [|auto].
    intros n Hn Hin. apply (H2 n Hn). apply list_elem_of_join in Hin as (m & Hn' & Hm). apply list_elem_of_join.
    exists m. split; [done|]. by eapply elem_of_sublist.
  - intros (_ & _ & H3)%NoDup_app. auto.
Qed.

(** Members that stay and the members that go. *)
Section replacement.
Context (p : partition) (Hp : valid_partition p) (sources targets : list key).
Context (Hsources : ∀ m, m ∈ sources → m ∈ members_of p) (Hsnd : NoDup sources).
Context (Htv : Forall valid_members targets) (Htd : NoDup (mjoin targets)).
Context (Hapart : ∀ m n, m ∈ members_of p → m ∉ sources → n ∈ m → n ∉ mjoin targets).

Definition kept : list active_component := filter (λ c, ac_members c ∉ sources) (active p).

Definition replaced : partition :=
  ActiveComponentPartition (revision p + 1)
    (sort_by ac_members (kept ++ ((λ m, ActiveComponent m (revision p + 1)) <$> targets))).

Lemma kept_members m : m ∈ ac_members <$> kept ↔ m ∈ members_of p ∧ m ∉ sources.
Proof.
  unfold kept, members_of. rewrite !list_elem_of_fmap. setoid_rewrite list_elem_of_filter. naive_solver.
Qed.

Lemma replaced_members : members_of replaced ≡ₚ (ac_members <$> kept) ++ targets.
Proof.
  unfold members_of, replaced. cbn. rewrite sort_by_perm, fmap_app, <- list_fmap_compose. f_equiv.
  by rewrite list_fmap_id.
Qed.

Lemma join_perm (l k : list key) : l ≡ₚ k → mjoin l ≡ₚ mjoin k.
Proof.
  induction 1 as [|x l k _ IH|x y l|l1 l2 l3 _ IH1 _ IH2]; cbn; [done|by rewrite IH| |by rewrite IH1].
  rewrite !app_assoc. f_equiv. apply Permutation_app_comm.
Qed.

Lemma kept_join_NoDup : NoDup (mjoin (ac_members <$> kept)).
Proof.
  apply (join_sublist_NoDup (members_of p)); [|apply (vp_disjoint p Hp)]. apply fmap_sublist, sublist_filter.
Qed.

Lemma replaced_valid : valid_partition replaced.
Proof.
  pose proof (vp_revision p Hp). pose proof (vp_components p Hp) as Hc. split.
  - cbn. lia.
  - cbn. rewrite sort_by_perm. apply Forall_app. split.
    + apply Forall_forall. intros c [_ Hin]%list_elem_of_filter. rewrite Forall_forall in Hc.
      destruct (Hc c Hin). split; [done|lia].
    + apply Forall_fmap. eapply Forall_impl; [exact Htv|]. intros m Hm. split; [done|cbn; lia].
  - rewrite (join_perm _ _ replaced_members), join_app. apply NoDup_app. split; [apply kept_join_NoDup|]. split; [|done].
    intros n Hn. apply list_elem_of_join in Hn as (m & Hn & [Hm Hs]%kept_members). by apply (Hapart m).
  - apply sort_by_sorted.
Qed.

Lemma replaced_represented a m :
  a = list_to_map (component_rows (revision p + 1) targets) ∪ list_to_map (component_row <$> kept) →
  m = list_to_map (member_rows targets) ∪ list_to_map (member_rows (ac_members <$> kept)) →
  represents (Tables (Some (revision p + 1)) a m) replaced.
Proof.
  intros -> ->. split; [done|]. cbn [t_active t_members]. fold component_row. split.
  - rewrite <- list_to_map_app. apply list_to_map_proper.
    + eapply NoDup_Permutation_proper; [|apply (component_rows_NoDup replaced), replaced_valid].
      cbn. rewrite sort_by_perm, !fmap_app, Permutation_app_comm. f_equiv. unfold component_rows. by rewrite <- !list_fmap_compose.
    + cbn. rewrite sort_by_perm, fmap_app, Permutation_app_comm. f_equiv. unfold component_rows. by rewrite <- !list_fmap_compose.
  - rewrite <- list_to_map_app. assert (member_rows targets ++ member_rows (ac_members <$> kept) ≡ₚ member_rows (members_of replaced)) as Hmr.
    { unfold member_rows. rewrite replaced_members, bind_app. apply Permutation_app_comm. }
    apply list_to_map_proper; [|done]. rewrite Hmr, member_rows_fst. apply (vp_disjoint _ replaced_valid).
Qed.

Context (t : tables) (Ht : represents t p).

Lemma active_lookup k e : t_active t !! k = Some e ↔ ∃ c, c ∈ active p ∧ component_row c = (k, e).
Proof.
  destruct Ht as (_ & -> & _). rewrite <- elem_of_list_to_map by apply (component_rows_NoDup p Hp).
  rewrite list_elem_of_fmap. naive_solver.
Qed.

Lemma members_lookup n k : t_members t !! n = Some k ↔ ∃ m, m ∈ members_of p ∧ n ∈ m ∧ k = encode_component_key m.
Proof. destruct Ht as (_ & _ & ->). apply member_rows_lookup, (vp_disjoint p Hp). Qed.

Lemma source_key m : m ∈ members_of p → encode_component_key m ∈ encode_component_key <$> sources ↔ m ∈ sources.
Proof.
  intros Hm. pose proof (partition_valid_members p Hp) as Hv. rewrite Forall_forall in Hv. split.
  - intros (m' & He & Hm')%list_elem_of_fmap. apply encode_key_inj in He as ->; auto.
  - intros Hin. apply list_elem_of_fmap. eauto.
Qed.

Lemma kept_NoDup_rows : NoDup (component_row <$> kept).*1.
Proof.
  eapply sublist_NoDup; [apply (component_rows_NoDup p Hp)|]. apply fmap_sublist, fmap_sublist, sublist_filter.
Qed.

Lemma members_deleted :
  delete_members (encode_component_key <$> sources) (t_members t) =
  (list_to_map (member_rows (ac_members <$> kept)), sum_list_with length sources).
Proof.
  unfold delete_members. f_equal.
  - apply map_eq. intros n. apply option_eq. intros k. rewrite map_lookup_filter_Some, members_lookup.
    rewrite member_rows_lookup by apply kept_join_NoDup. setoid_rewrite kept_members. cbn. split.
    + intros [(m & Hm & Hn & ->) Hk]. rewrite source_key in Hk by done. eauto.
    + intros (m & [Hm Hs] & Hn & ->). split; [eauto|]. by rewrite source_key.
  - assert (NoDup (mjoin sources)) as Hjs.
    { assert (sources ≡ₚ filter (λ m, m ∈ sources) (members_of p)) as Hps.
      { apply NoDup_Permutation; [done| |].
        - apply NoDup_filter, disjoint_NoDup, (vp_disjoint p Hp). by apply partition_valid_members.
        - intros m. rewrite list_elem_of_filter. naive_solver. }
      rewrite (join_perm _ _ Hps). eapply join_sublist_NoDup; [|apply (vp_disjoint p Hp)]. apply sublist_filter. }
    assert (filter (λ q, q.2 ∈ encode_component_key <$> sources) (t_members t) = list_to_map (member_rows sources)) as ->.
    { apply map_eq. intros n. apply option_eq. intros k. rewrite map_lookup_filter_Some, members_lookup.
      rewrite member_rows_lookup by done. cbn. split.
      - intros [(m & Hm & Hn & ->) Hk]. rewrite source_key in Hk by done. eauto.
      - intros (m & Hs & Hn & ->). split; [eauto|]. rewrite source_key; auto. }
    rewrite map_size_list_to_map by (by rewrite member_rows_fst).
    rewrite <- (length_fmap fst), member_rows_fst. clear. induction sources as [|m l IH]; cbn; [done|].
    rewrite length_app. f_equal. exact IH.
Qed.

Lemma components_deleted :
  delete_components (encode_component_key <$> sources) (t_active t) =
  (list_to_map (component_row <$> kept), length sources).
Proof.
  unfold delete_components. f_equal.
  - apply map_eq. intros k. apply option_eq. intros e. rewrite map_lookup_filter_Some, active_lookup.
    rewrite <- elem_of_list_to_map by apply kept_NoDup_rows. rewrite (list_elem_of_fmap component_row). cbn. split.
    + intros [(c & Hc & [= <- <-]) Hk]. rewrite source_key in Hk by (apply list_elem_of_fmap; eauto).
      exists c. split; [done|]. by apply list_elem_of_filter.
    + intros (c & [= -> ->] & [Hs Hc]%list_elem_of_filter). split; [eauto|]. rewrite source_key; [done|]. apply list_elem_of_fmap; eauto.
  - assert (filter (λ q, q.1 ∈ encode_component_key <$> sources) (t_active t) =
            list_to_map (component_row <$> filter (λ c, ac_members c ∈ sources) (active p))) as ->.
    { apply map_eq. intros k. apply option_eq. intros e. rewrite map_lookup_filter_Some, active_lookup.
      rewrite <- elem_of_list_to_map.
      - rewrite (list_elem_of_fmap component_row). cbn. split.
        + intros [(c & Hc & [= <- <-]) Hk]. rewrite source_key in Hk by (apply list_elem_of_fmap; eauto).
          exists c. split; [done|]. by apply list_elem_of_filter.
        + intros (c & [= -> ->] & [Hs Hc]%list_elem_of_filter). split; [eauto|]. rewrite source_key; [done|]. apply list_elem_of_fmap; eauto.
      - eapply sublist_NoDup; [apply (component_rows_NoDup p Hp)|]. apply fmap_sublist, fmap_sublist, sublist_filter. }
    rewrite map_size_list_to_map, length_fmap.
    + rewrite <- (length_fmap ac_members). apply Permutation_length, NoDup_Permutation; [|done|].
      * assert (NoDup (members_of p)) as Hnd by (apply disjoint_NoDup, (vp_disjoint p Hp); by apply partition_valid_members).
        eapply sublist_NoDup; [exact Hnd|]. apply fmap_sublist, sublist_filter.
      * intros m. rewrite list_elem_of_fmap. setoid_rewrite list_elem_of_filter. split; [naive_solver|].
        intros Hm. pose proof (Hsources m Hm) as (c & -> & Hc)%list_elem_of_fmap. eauto.
    + eapply sublist_NoDup; [apply (component_rows_NoDup p Hp)|]. apply fmap_sublist, fmap_sublist, sublist_filter.
Qed.

Lemma components_inserted :
  insert_rows (component_rows (revision p + 1) targets) (list_to_map (component_row <$> kept)) =
  Ok (list_to_map (component_rows (revision p + 1) targets) ∪ list_to_map (component_row <$> kept)).
Proof.
  pose proof (disjoint_NoDup _ Htv Htd) as Hnd. apply insert_rows_ok; rewrite component_rows_fst.
  - by apply encode_keys_NoDup.
  - intros k (m & -> & Hm)%list_elem_of_fmap. apply eq_None_not_Some. intros [e He].
    rewrite <- elem_of_list_to_map in He by apply kept_NoDup_rows.
    apply list_elem_of_fmap in He as (c & He & Hc). apply (f_equal fst) in He. cbn in He. pose proof (partition_valid_members p Hp) as Hv.
    assert (ac_members c ∈ ac_members <$> kept) as [Hcm Hs]%kept_members by (apply list_elem_of_fmap; eauto).
    rewrite Forall_forall in Htv. rewrite Forall_forall in Hv. apply encode_key_inj in He as ->; [|auto|auto].
    destruct (Hv _ Hcm) as [Hne _]. destruct (ac_members c) as [|n l] eqn:Hl; [done|].
    apply (Hapart (n :: l) n); [done|done|left|]. apply list_elem_of_join. exists (n :: l). split; [left|done].
Qed.

Lemma members_inserted :
  insert_rows (member_rows targets) (list_to_map (member_rows (ac_members <$> kept))) =
  Ok (list_to_map (member_rows targets) ∪ list_to_map (member_rows (ac_members <$> kept))).
Proof.
  apply insert_rows_ok; rewrite member_rows_fst; [done|]. intros n Hn. apply eq_None_not_Some. intros [k Hk].
  rewrite member_rows_lookup in Hk by apply kept_join_NoDup. destruct Hk as (m & [Hm Hs]%kept_members & Hnm & _).
  by apply (Hapart m n).
Qed.
End replacement.

(** A decoded shape: canonical members with valid names, no node in two of them. *)
Definition canonical_snapshot (snap : ComponentTopologySnapshot) : Prop :=
  Forall valid_members (components snap) ∧ NoDup (mjoin (components snap)).

Lemma ordered_components_canonical l k : Forall valid_members l → _ordered_components l = Ok k → k = l.
Proof.
  intros Hv. unfold _ordered_components. intros H. inv_ok. apply rmap_ok in Hx. clear Hg.
  induction Hx as [|m m' l k Hm Hl IH]; [done|]. apply Forall_cons in Hv as [Hmv Hv]. rewrite members_valid in Hm by done.
  injection Hm as ->. f_equal. auto.
Qed.

Lemma selected_apart p target requested hist s :
  valid_partition p → selects target requested (active p) hist s → sound target requested (active p) hist s →
  ∀ m n, m ∈ members_of p → m ∉ selected_active s → n ∈ m → n ∉ mjoin (filter (λ m, m ∈ selected_target s) target).
Proof.
  intros Hp Hse Hso m n Hm Hs Hn Hin. apply Hs.
  pose proof (partition_valid_members p Hp) as Hv. rewrite Forall_forall in Hv. destruct (Hv m Hm) as [Hne _].
  apply (sel_active _ _ _ _ s Hse); [done|]. split; [done|]. exists n. split; [done|].
  apply list_elem_of_join in Hin as (m' & Hn' & [Hm' _]%list_elem_of_filter). apply (so_linked _ _ _ _ s Hso). left. eauto.
Qed.

Lemma elem_of_replaced p sources targets c :
  c ∈ active (replaced p sources targets) ↔
  (c ∈ active p ∧ ac_members c ∉ sources) ∨ (ac_members c ∈ targets ∧ established_revision c = revision p + 1).
Proof.
  unfold replaced. cbn. rewrite elem_of_sort_by, elem_of_app. unfold kept. rewrite list_elem_of_filter. split.
  - intros [[? ?]|(m & -> & Hm)%list_elem_of_fmap]; [by left|by right].
  - intros [[? ?]|[Hm He]]; [by left|right]. apply list_elem_of_fmap. exists (ac_members c). split; [|done].
    destruct c. cbn in *. by subst.
Qed.

Section replace.
Context (component_snapshot_from_shape : string → result ComponentTopologySnapshot).
Context (t : tables) (p : partition) (snap : ComponentTopologySnapshot) (req : list (list string)) (hist0 : list history).
Context (ch : change).
Hypothesis Hread : read_active_component_partition t = Ok (Some p).
Hypothesis Hhist : Forall valid_history hist0.
Hypothesis Hsnap : canonical_snapshot snap.
Hypothesis Hshape : component_snapshot_from_shape (shape_json snap) = Ok snap.
Hypothesis Hobs : observe_membership_change p snap req hist0 = Ok ch.

Lemma change_validates : validate_membership_change component_snapshot_from_shape t ch = Ok ().
Proof.
  destruct (read_ok _ _ Hread) as [Hp _]. pose proof (observe_again _ _ _ _ _ Hp Hhist Hobs) as Hagain.
  apply observe_ok in Hobs as (target & requested & hist & s & _ & _ & _ & _ & Hne & _ & _ & _ & _ & Hob).
  destruct (observed_fields _ _ _ _ _ _ _ Hob) as (Hs & Hj & Hr & _).
  unfold validate_membership_change. rewrite Hread, Hs, Hj. cbn. rewrite bool_decide_eq_true_2 by done. cbn.
  rewrite Hshape. cbn. rewrite decide_False by (by rewrite Hr). rewrite Hagain. cbn. by rewrite bool_decide_eq_true_2.
Qed.

(** What the change selects, in terms of links. *)
Lemma change_selects : ∃ s,
  source ch = p ∧
  source_components ch = py_sorted (elements (selected_active s)) ∧
  target_components ch = filter (λ m, m ∈ selected_target s) (components snap) ∧
  sound (components snap) (requested_components ch) (active p) hist0 s ∧
  selects (components snap) (requested_components ch) (active p) hist0 s.
Proof.
  destruct (read_ok _ _ Hread) as [Hp _]. destruct Hsnap as [Hcv Hcd].
  apply observe_ok in Hobs as (target & requested & hist & s & _ & H2 & _ & _ & _ & _ & H7 & Hso & Hse & Hob).
  apply ordered_components_canonical in H2 as ->; [|done]. destruct (sorted_history_ok _ _ H7) as [Hperm _].
  assert (∀ h, h ∈ hist ↔ h ∈ hist0) as Hin by (intros h; by rewrite Hperm).
  destruct (observed_fields _ _ _ _ _ _ _ Hob) as (Hs & _ & Hr & Hsrc & Htg & _). exists s. rewrite Hr.
  assert (∀ n, linked (components snap) requested (active p) hist n ↔ linked (components snap) requested (active p) hist0 n) as Hl.
  { intros n. split; apply linked_mono; intros h Hh _ _; by apply Hin. }
  repeat (split; [done|]). split.
  - destruct Hso as [A1 A2 A3 A4 A5]. split; try done.
    + intros h Hh. rewrite <- Hin. auto.
    + intros n Hn. apply Hl. auto.
  - destruct Hse as [A1 A2 A3 A4]. unfold touched in *. setoid_rewrite Hl in A1. setoid_rewrite Hl in A2.
    setoid_rewrite Hl in A3. setoid_rewrite Hl in A4. setoid_rewrite Hin in A3. by split.
Qed.

Lemma replace_runs : ∃ t' p', _replace_active_component_closure component_snapshot_from_shape t ch = Ok (t', p') ∧
  read_active_component_partition t' = Ok (Some p') ∧
  if changes_active_membership ch then
    ∃ sources targets, p' = replaced p sources targets ∧
      (∀ m, m ∈ sources ↔ m ∈ source_components ch) ∧ (∀ m, m ∈ targets ↔ m ∈ target_components ch)
  else t' = t ∧ p' = p.
Proof.
  destruct (read_ok _ _ Hread) as [Hp Ht]. destruct change_selects as (s & Hs & Hsrc & Htg & Hso & Hse).
  unfold _replace_active_component_closure, changes_active_membership. rewrite change_validates, Hs, Hsrc, Htg. cbn [rbind].
  set (sources := py_sorted (elements (list_to_set (py_sorted (elements (selected_active s))) : gset key))).
  set (tset := list_to_set (filter (λ m, m ∈ selected_target s) (components snap)) : gset key).
  set (targets := py_sorted (elements tset)).
  assert (list_to_set (py_sorted (elements (selected_active s))) = selected_active s) as Hset.
  { apply leibniz_equiv. intros m. by rewrite elem_of_list_to_set, elem_of_py_sorted, elem_of_elements. }
  assert (∀ m, m ∈ sources ↔ m ∈ selected_active s) as Hsin.
  { intros m. unfold sources. by rewrite elem_of_py_sorted, elem_of_elements, Hset. }
  assert (∀ m, m ∈ targets ↔ m ∈ filter (λ m, m ∈ selected_target s) (components snap)) as Htin.
  { intros m. unfold targets, tset. by rewrite elem_of_py_sorted, elem_of_elements, elem_of_list_to_set. }
  destruct Hsnap as [Hcv Hcd]. pose proof (disjoint_NoDup _ Hcv Hcd) as Hcnd.
  assert (targets ≡ₚ filter (λ m, m ∈ selected_target s) (components snap)) as Htp.
  { apply NoDup_Permutation; [|by apply NoDup_filter|done]. unfold targets. rewrite py_sorted_perm. apply NoDup_elements. }
  assert (NoDup (mjoin targets)) as Htd.
  { rewrite (join_perm _ _ Htp). eapply join_sublist_NoDup; [apply sublist_filter|done]. }
  assert (Forall valid_members targets) as Htv.
  { rewrite Htp. apply Forall_forall. intros m [_ Hm]%list_elem_of_filter. rewrite Forall_forall in Hcv. auto. }
  assert (∀ m, m ∈ sources → m ∈ members_of p) as Hsrcs by (intros m Hm%Hsin; by apply (so_active _ _ _ _ s Hso)).
  assert (NoDup sources) as Hsnd by (unfold sources; rewrite py_sorted_perm; apply NoDup_elements).
  assert (∀ m n, m ∈ members_of p → m ∉ sources → n ∈ m → n ∉ mjoin targets) as Hapart.
  { intros m n Hm Hns Hn. rewrite (join_perm _ _ Htp).
    apply (selected_apart p _ _ _ s Hp Hse Hso m n Hm); [by rewrite <- Hsin|done]. }
  rewrite bool_decide_eq_true_2; cbn [rbind require]; last first.
  { rewrite Hset. intros m Hm. apply elem_of_list_to_set. by apply (so_active _ _ _ _ s Hso). }
  rewrite bool_decide_eq_true_2; cbn [rbind require]; last first.
  { intros n (m & Hm & Hn)%elem_of_nodes_of (m' & Hm' & Hn')%elem_of_nodes_of.
    apply elem_of_elements, elem_of_difference in Hm as [Hm%elem_of_list_to_set Hns]. rewrite Hset, <- Hsin in Hns.
    apply (Hapart m n Hm Hns Hn). apply list_elem_of_join. exists m'. split; [done|]. by apply elem_of_py_sorted. }
  destruct (decide _) as [He|He].
  { exists t, p. rewrite (bool_decide_eq_true_2 _ He). done. }
  rewrite (bool_decide_eq_false_2 _ He). cbn [negb].
  rewrite (members_deleted p Hp sources Hsrcs Hsnd t Ht), Nat.eqb_refl. cbn [rbind require].
  rewrite (components_deleted p Hp sources Hsrcs Hsnd t Ht), Nat.eqb_refl. cbn [rbind require].
  rewrite (components_inserted p Hp sources targets Htv Htd Hapart). cbn [rbind].
  rewrite (members_inserted p Hp sources targets Htd Hapart). cbn [rbind].
  rewrite bool_decide_eq_true_2 by apply Ht. cbn [rbind require].
  rewrite (read_represented _ (replaced p sources targets));
    [|by apply replaced_valid|by apply replaced_represented]. cbn [rbind].
  rewrite bool_decide_eq_true_2, Z.eqb_refl; cbn [rbind require andb].
  - eexists _, _. split; [done|]. split; [apply read_represented; [by apply replaced_valid|by apply replaced_represented]|].
    exists sources, targets. split; [done|]. split; [|done]. intros m. by rewrite Hsin, elem_of_py_sorted, elem_of_elements.
  - apply leibniz_equiv. intros m. rewrite elem_of_list_to_set. fold (members_of (replaced p sources targets)).
    rewrite (replaced_members p sources targets), elem_of_app, kept_members, Htin, elem_of_union, elem_of_difference, Hset, Hsin.
    unfold tset. by rewrite !elem_of_list_to_set.
Qed.

(** C30: replacing an observed membership change never fails and installs exactly its
    closure.  Let the stored tables hold the partition [p], let [ch] be what
    [observe_membership_change] calculated for it, a canonical snapshot, requested
    components and historical observations, and let the stored shape decode to the
    snapshot.  Then [_replace_active_component_closure] accepts [ch] and commits tables
    that read back as a valid partition: when the change alters the membership, every
    active component that the requested ones do not reach through shared nodes stays with
    its revision, every snapshot component they reach is established at the next
    revision, and nothing else is active; otherwise nothing changes. *)
Theorem replacement_exact :
  let touches := touched (components snap) (requested_components ch) (active p) hist0 in
  ∃ t' p', _replace_active_component_closure component_snapshot_from_shape t ch = Ok (t', p') ∧
    read_active_component_partition t' = Ok (Some p') ∧ valid_partition p' ∧
    if changes_active_membership ch then
      revision p' = revision p + 1 ∧
      ∀ c, c ∈ active p' ↔ (c ∈ active p ∧ ¬ touches (ac_members c)) ∨
        (ac_members c ∈ components snap ∧ touches (ac_members c) ∧ established_revision c = revision p')
    else t' = t ∧ p' = p.
Proof.
  intros touches. destruct replace_runs as (t' & p' & Hrun & Hread' & H). exists t', p'.
  split; [done|]. split; [done|]. split; [apply (read_ok _ _ Hread')|].
  destruct (changes_active_membership ch); [|done]. destruct H as (sources & targets & -> & Hsin & Htin).
  split; [done|]. destruct (read_ok _ _ Hread) as [Hp _]. destruct change_selects as (s & Hs & Hsrc & Htg & Hso & Hse).
  pose proof (partition_valid_members p Hp) as Hv. rewrite Forall_forall in Hv. destruct Hsnap as [Hcv _].
  rewrite Forall_forall in Hcv. intros c. rewrite elem_of_replaced, Hsin, Hsrc, elem_of_py_sorted, elem_of_elements.
  rewrite Htin, Htg, list_elem_of_filter. cbn [revision replaced].
  assert (c ∈ active p → ac_members c ∈ selected_active s ↔ touches (ac_members c)) as H1.
  { intros Hc. assert (ac_members c ∈ members_of p) as Hm by (apply list_elem_of_fmap; eauto).
    rewrite (sel_active _ _ _ _ s Hse) by by destruct (Hv _ Hm). naive_solver. }
  assert (ac_members c ∈ components snap → ac_members c ∈ selected_target s ↔ touches (ac_members c)) as H2.
  { intros Hc. rewrite (sel_target _ _ _ _ s Hse) by by destruct (Hcv _ Hc). naive_solver. }
  tauto.
Qed.
End replace.

(** ** A concrete change: [a] and [b] join, [c] stays *)

Module sample.
Definition p : partition :=
  ActiveComponentPartition 3 [ActiveComponent ["a"] 0; ActiveComponent ["b"] 2; ActiveComponent ["c"] 1].
Definition t : tables := Tables (Some 3)
  (list_to_map ((λ c, (encode_component_key (ac_members c), established_revision c)) <$> active p))
  (list_to_map (member_rows (members_of p))).
Definition snap : ComponentTopologySnapshot := MkSnapshot "shape" [["a"; "b"]; ["c"]].
Definition hist : list history := [HistoricalMembership ["b"] 1 0 true].
Definition decode (shape : string) : result ComponentTopologySnapshot := Ok snap.
Definition ch : change :=
  MembershipChange p "shape" [["a"; "b"]] [["a"]; ["b"]] [["a"; "b"]] [ComponentPreparationScope ["a"; "b"] (Some 0)] hist [].

Lemma read_t : read_active_component_partition t = Ok (Some p).
Proof. vm_compute. reflexivity. Qed.

Lemma hist_valid : Forall valid_history hist.
Proof. repeat constructor; vm_compute; done. Qed.

Lemma snap_canonical : canonical_snapshot snap.
Proof.
  split; [repeat constructor; vm_compute; done|]. apply (bool_decide_unpack _). vm_compute. exact I.
Qed.

Lemma observed_ch : observe_membership_change p snap [["b"; "a"]] hist = Ok ch.
Proof. vm_compute. reflexivity. Qed.
End sample.

Lemma replacement_exact_witness :
  ∃ t' p', _replace_active_component_closure sample.decode sample.t sample.ch = Ok (t', p') ∧ revision p' = 4 ∧
    ActiveComponent ["c"] 1 ∈ active p'.
Proof.
  destruct (Membership.replacement_exact sample.decode sample.t sample.p sample.snap [["b"; "a"]] sample.hist sample.ch
    sample.read_t sample.hist_valid sample.snap_canonical eq_refl sample.observed_ch) as (t' & p' & H & _ & _ & _).
  exists t', p'. split; [exact H|]. vm_compute in H. injection H as <- <-. vm_compute. split; [reflexivity|].
  right. left.
Defined.
