(* ===== verification/Readiness.v ===== *)
(** The readiness decision over direct-parent component observations:
    [component_readiness.py].

    A lifecycle, a stability or an origin is a value of any Python type, of which
    the code tells [None] and strings apart. *)
From S2P Require Import Prelude.

Inductive pyval :=
  | PNone
  | PStr (s : string)
  | PObj (tag : Z).   (** an object that is neither [None] nor a string *)

#[export] Instance pyval_eq_dec : EqDecision pyval.
Proof. solve_decision. Defined.

(** [isinstance(v, str) and v != '']. *)
Definition nonempty_str (v : pyval) : bool :=
  match v with PStr s => negb (bool_decide (s = "")) | _ => false end.

(** One parent: lifecycle, stability and exact instability origin. *)
Abbreviation observation := (pyval * pyval * pyval)%type (only parsing).
(** A ready result: stability, origin, and whether the override was used. *)
Abbreviation readiness := (pyval * pyval * bool)%type (only parsing).

Definition lifecycles : list pyval :=
  [PStr "queued"; PStr "running"; PStr "sampled"; PStr "done"; PStr "failed"].

(** [(stability == 'stable' and origin is None) or
     (stability == 'unstable' and isinstance(origin, str) and origin != '')]. *)
Definition valid_result (stability origin : pyval) : bool :=
  (bool_decide (stability = PStr "stable") && bool_decide (origin = PNone))
  || (bool_decide (stability = PStr "unstable") && nonempty_str origin).

(** The loop state: the last completed parent's result and the blocked flag. *)
Definition scan_parent (acc : result (option readiness * bool)) (p : observation)
  : result (option readiness * bool) :=
  let! acc := acc in
  let '(res, blocked) := acc in
  let '(lifecycle, stability, origin) := p in
  check! bool_decide (lifecycle ∈ lifecycles) orelse ValueError saying "unknown component lifecycle" in
  if negb (bool_decide (lifecycle = PStr "done")) then Ok (res, true)
  else
    check! valid_result stability origin orelse ValueError saying "invalid done component result" in
    let parent_result := (stability, origin, false) in
    let differs := match res with Some r => negb (bool_decide (r = parent_result)) | None => false end in
    Ok (Some parent_result, blocked || differs).

Definition calculate_component_readiness (parent_observations : list observation)
    (interrupt_start_origin : pyval) : result (option readiness) :=
  check! bool_decide (interrupt_start_origin = PNone) || nonempty_str interrupt_start_origin
    orelse ValueError saying "invalid interrupt start origin" in
  let blocked_result :=
    if bool_decide (interrupt_start_origin = PNone) then None
    else Some (PStr "unstable", interrupt_start_origin, true) in
  let! acc := foldl scan_parent (Ok (None, false)) parent_observations in
  let '(res, blocked) := acc in
  if blocked then Ok blocked_result
  else Ok (Some (default (PStr "stable", PNone, false) res)).

Definition calculate_sampled_resume_lineage (stability instability_origin : pyval)
    (parent_readiness : readiness) : result (option (pyval * pyval)) :=
  let retained := (stability, instability_origin) in
  check! bool_decide (retained = (PStr "stable", PNone))
         || (bool_decide (stability = PStr "unstable") && nonempty_str instability_origin)
    orelse ValueError saying "invalid sampled component result" in
  if bool_decide (parent_readiness.1.1 = PStr "unstable")
     && negb (bool_decide (retained = parent_readiness.1))
  then Ok None else Ok (Some retained).

Definition calculate_interrupt_sampled_resume_readiness (retained : pyval * pyval)
    (parent_observations : list observation) (interrupt_start_origin : pyval)
  : result (option readiness) :=
  let! readiness := calculate_component_readiness parent_observations interrupt_start_origin in
  let! completed := calculate_component_readiness
    (filter (λ p, p.1.1 = PStr "done") parent_observations) PNone in
  match completed with
  | None => Ok None
  | Some completed =>
      let! lineage := calculate_sampled_resume_lineage retained.1 retained.2 completed in
      match lineage, readiness with
      | None, _ => Ok None
      | Some l, Some r => Ok (Some (l.1, l.2, r.2))
      | Some _, None => raise TypeError "'NoneType' object is not subscriptable"
      end
  end.

(** ** Specification *)

(** A parent the calculation accepts. *)
Definition wf_parent (p : observation) : Prop :=
  p.1.1 ∈ lifecycles ∧ (p.1.1 = PStr "done" → valid_result p.1.2 p.2 = true).

#[export] Instance wf_parent_dec p : Decision (wf_parent p).
Proof. unfold wf_parent. apply _. Defined.

Definition completed_with (r : pyval * pyval) (p : observation) : Prop :=
  p = (PStr "done", r.1, r.2).

#[export] Instance completed_with_dec r p : Decision (completed_with r p).
Proof. unfold completed_with. apply _. Defined.

(** What the parents allow: the lineage every completed parent shares, the stable
    lineage without parents, and nothing as soon as one parent is unfinished or
    two of them disagree. *)
Definition shared_lineage (ps : list observation) : option (pyval * pyval) :=
  match ps with
  | [] => Some (PStr "stable", PNone)
  | p :: _ => if decide (Forall (completed_with (p.1.2, p.2)) ps) then Some (p.1.2, p.2) else None
  end.

Definition readiness_spec (ps : list observation) (interrupt : pyval) : option readiness :=
  match shared_lineage ps with
  | Some (s, o) => Some (s, o, false)
  | None => if decide (interrupt = PNone) then None else Some (PStr "unstable", interrupt, true)
  end.

(** The fold state agrees with the specification of the scanned prefix. *)
Lemma scan_parents_snoc ps p :
  foldl scan_parent (Ok (None, false)) (ps ++ [p])
  = scan_parent (foldl scan_parent (Ok (None, false)) ps) p.
Proof. by rewrite foldl_app. Qed.

Definition last_done (ps : list observation) : option observation :=
  last (filter (λ p, p.1.1 = PStr "done") ps).

Definition as_ready (p : observation) : readiness := (p.1.2, p.2, false).

Lemma last_done_snoc ps p :
  last_done (ps ++ [p]) = if decide (p.1.1 = PStr "done") then Some p else last_done ps.
Proof.
  unfold last_done. rewrite filter_app, filter_cons, filter_nil.
  case_decide; [apply last_snoc|by rewrite app_nil_r].
Qed.

Lemma last_done_completed ps q r :
  last_done ps = Some q → Forall (completed_with r) ps → q = (PStr "done", r.1, r.2).
Proof.
  intros El Hr. rewrite Forall_forall in Hr. apply Hr.
  unfold last_done in El. rewrite last_lookup in El.
  by apply list_elem_of_lookup_2, list_elem_of_filter in El as [_ ?].
Qed.

Lemma last_done_none ps r : last_done ps = None → Forall (completed_with r) ps → ps = [].
Proof.
  destruct ps as [|p ps] using rev_ind; [done|]. rewrite last_done_snoc, Forall_app, Forall_singleton.
  intros El [_ ->]. by rewrite decide_True in El.
Qed.

(** One more completed parent keeps the scan unblocked exactly when the whole
    prefix agrees with it. *)
Lemma completed_snoc ps st og :
  (∃ r, Forall (completed_with r) ps) ∧
  match as_ready <$> last_done ps with
  | Some r => negb (bool_decide (r = (st, og, false))) | None => false end = false
  ↔ ∃ r, Forall (completed_with r) (ps ++ [(PStr "done", st, og)]).
Proof.
  setoid_rewrite Forall_app. setoid_rewrite Forall_singleton. split.
  - intros [(r & Hr) Hd]. exists (st, og). split; [|done].
    destruct (last_done ps) as [q|] eqn:El; cbn in Hd.
    + rewrite (last_done_completed ps q r El Hr) in Hd.
      apply negb_false_iff, bool_decide_eq_true in Hd. injection Hd as <- <-. by destruct r.
    + by rewrite (last_done_none ps r El Hr).
  - intros (r & Hr & Hp). split; [by exists r|]. destruct (last_done ps) as [q|] eqn:El; [cbn|done].
    rewrite (last_done_completed ps q r El Hr). injection Hp as -> ->. by rewrite bool_decide_true.
Qed.

Lemma wf_parents_snoc ps p : Forall wf_parent (ps ++ [p]) ↔ Forall wf_parent ps ∧ wf_parent p.
Proof. by rewrite Forall_app, Forall_singleton. Qed.

Lemma scan_parents_ok ps :
  match foldl scan_parent (Ok (None, false)) ps with
  | Ok (res, blocked) =>
      Forall wf_parent ps ∧ res = as_ready <$> last_done ps ∧
      (blocked = false ↔ ∃ r, Forall (completed_with r) ps)
  | Err e => ¬ Forall wf_parent ps ∧ exc_cls e = ValueError
  end.
Proof.
  induction ps as [|[[lc st] og] ps IH] using rev_ind.
  { cbn. split_and!; [constructor|done|]. split; [|done]. exists (PNone, PNone). constructor. }
  rewrite scan_parents_snoc. destruct (foldl _ _ ps) as [[res blocked]|e]; cbn.
  2: { rewrite wf_parents_snoc. tauto. }
  destruct IH as (Hwf & -> & Hbl). rewrite last_done_snoc. cbn [fst snd].
  case_bool_decide as Hlc; cbn.
  2: { split; [|done]. rewrite wf_parents_snoc. intros [_ [? _]]. done. }
  case_bool_decide as Hdone; cbn.
  2: { rewrite decide_False by done. split_and!; [|done|].
       - apply wf_parents_snoc. split; [done|]. by split.
       - split; [done|]. intros (r & Hr). rewrite Forall_app, Forall_singleton in Hr.
         destruct Hr as [_ Hr]. unfold completed_with in Hr. by simplify_eq. }
  rewrite decide_True by done. subst lc. destruct (valid_result st og) eqn:Hv; cbn.
  - rewrite wf_parents_snoc, <- completed_snoc, orb_false_iff, Hbl.
    split_and!; [done|by split|done|done].
  - split; [|done]. rewrite wf_parents_snoc. intros [_ [_ Hw]]. cbn in Hw.
    rewrite Hv in Hw. by discriminate Hw.
Qed.

Lemma shared_lineage_spec ps r :
  ps ≠ [] → shared_lineage ps = Some r ↔ Forall (completed_with r) ps.
Proof.
  destruct ps as [|[[l s] o] ps]; [done|]. intros _. cbn. case_decide as Hd; split.
  - intros [= <-]. done.
  - intros Hr. apply Forall_cons in Hr as [Hr _]. unfold completed_with in Hr.
    injection Hr as -> -> ->. by destruct r.
  - done.
  - intros Hr. destruct Hd. pose proof Hr as [Hp _]%Forall_cons. unfold completed_with in Hp.
    injection Hp as -> -> ->. by destruct r.
Qed.

Lemma readiness_cases ps interrupt :
  match calculate_component_readiness ps interrupt with
  | Ok r => (interrupt = PNone ∨ nonempty_str interrupt = true) ∧ Forall wf_parent ps ∧
            r = readiness_spec ps interrupt
  | Err e => exc_cls e = ValueError ∧
             (¬ (interrupt = PNone ∨ nonempty_str interrupt = true) ∨ ¬ Forall wf_parent ps)
  end.
Proof.
  unfold calculate_component_readiness.
  destruct (bool_decide (interrupt = PNone) || nonempty_str interrupt) eqn:Hi; cbn.
  2: { split; [done|]. left. apply orb_false_iff in Hi as [Hi1 Hi2].
       apply bool_decide_eq_false in Hi1. rewrite Hi2. by intros [?|?]. }
  apply orb_true_iff in Hi. rewrite bool_decide_eq_true in Hi.
  pose proof (scan_parents_ok ps) as Hs. destruct (foldl _ _ ps) as [[res blocked]|e]; cbn.
  2: { split; [by apply Hs|]. right. by apply Hs. }
  destruct Hs as (Hwf & -> & Hbl). unfold readiness_spec. destruct ps as [|p ps].
  { destruct blocked; [|done]. cbn in Hbl. assert (true = false) by (apply Hbl; by exists (PNone, PNone)).
    done. }
  destruct blocked.
  - split_and!; [done..|]. destruct (shared_lineage (p :: ps)) as [r|] eqn:Er.
    + apply shared_lineage_spec in Er; [|done]. assert (true = false) by (apply Hbl; eauto). done.
    + repeat case_decide; repeat case_bool_decide; done.
  - destruct Hbl as [Hbl _]. destruct (Hbl eq_refl) as [r Hr].
    pose proof Hr as Hl. apply shared_lineage_spec in Hl as ->; [|done]. destruct r as [s o].
    split_and!; [done..|]. destruct (last_done (p :: ps)) as [q|] eqn:El; cbn.
    + by rewrite (last_done_completed _ q _ El Hr).
    + by apply (last_done_none _ _ El) in Hr.
Qed.

Lemma shared_lineage_perm ps ps' : ps ≡ₚ ps' → shared_lineage ps = shared_lineage ps'.
Proof.
  intros Hp. destruct (decide (ps = [])) as [->|Hn].
  { apply Permutation_nil_l in Hp as ->. done. }
  assert (ps' ≠ []) as Hn' by (intros ->; by apply Permutation_nil_r in Hp).
  apply option_eq. intros r. rewrite !shared_lineage_spec by done. by rewrite Hp.
Qed.

(** A sampled result the code accepts. *)
Definition wf_retained (r : pyval * pyval) : Prop := valid_result r.1 r.2 = true.

Lemma sampled_resume_lineage_ok r ready :
  wf_retained r →
  calculate_sampled_resume_lineage r.1 r.2 ready
  = Ok (if decide (ready.1.1 = PStr "unstable" ∧ r ≠ ready.1) then None else Some r).
Proof.
  destruct r as [s o]. unfold wf_retained, calculate_sampled_resume_lineage, valid_result. cbn.
  intros Hw.
  assert (bool_decide ((s, o) = (PStr "stable", PNone))
          || bool_decide (s = PStr "unstable") && nonempty_str o = true) as ->.
  { etransitivity; [|exact Hw]. f_equal. apply eq_true_iff_eq.
    rewrite andb_true_iff, !bool_decide_eq_true. split; [by intros [= -> ->]|by intros [-> ->]]. }
  cbn. repeat case_bool_decide; repeat case_decide; cbn; tauto.
Qed.

(** ** Properties *)

(** C38: readiness on every input.  A malformed override or parent raises
    [ValueError]; otherwise the result is the lineage all parents share when every
    parent is done, the stable lineage when there is none, and the authorised
    override, or nothing, when a parent is unfinished or two parents disagree. *)
Theorem readiness_correct ps interrupt :
  match calculate_component_readiness ps interrupt with
  | Ok r => (interrupt = PNone ∨ nonempty_str interrupt = true) ∧ Forall wf_parent ps ∧
            r = readiness_spec ps interrupt
  | Err e => exc_cls e = ValueError ∧
             (¬ (interrupt = PNone ∨ nonempty_str interrupt = true) ∨ ¬ Forall wf_parent ps)
  end.
Proof. apply readiness_cases. Qed.

Lemma readiness_correct_witness :
  calculate_component_readiness [(PStr "done", PStr "stable", PNone)] PNone
  = Ok (readiness_spec [(PStr "done", PStr "stable", PNone)] PNone).
Proof.
  pose proof (readiness_correct [(PStr "done", PStr "stable", PNone)] PNone) as H.
  change (calculate_component_readiness [(PStr "done", PStr "stable", PNone)] PNone)
    with (Ok (Some (PStr "stable", PNone, false))) in H |- *.
  destruct H as (_ & _ & H). exact (f_equal Ok H).
Defined.

(** readiness does not depend on the order the parents are observed in. *)
Theorem readiness_order_independent ps ps' interrupt (Hp : ps ≡ₚ ps') :
  match calculate_component_readiness ps interrupt, calculate_component_readiness ps' interrupt with
  | Ok r, Ok r' => r = r'
  | Err e, Err e' => exc_cls e = ValueError ∧ exc_cls e' = ValueError
  | _, _ => False
  end.
Proof.
  pose proof (readiness_cases ps interrupt) as H. pose proof (readiness_cases ps' interrupt) as H'.
  assert (Forall wf_parent ps ↔ Forall wf_parent ps') as Hw by by rewrite Hp.
  destruct (calculate_component_readiness ps _) as [r|e],
           (calculate_component_readiness ps' _) as [r'|e'].
  - destruct H as (_ & _ & ->), H' as (_ & _ & ->). unfold readiness_spec.
    by rewrite (shared_lineage_perm ps ps').
  - destruct H as (Hi & Hps & _), H' as [_ [Hn|Hn]]; [by apply Hn|by apply Hn, Hw].
  - destruct H' as (Hi & Hps & _), H as [_ [Hn|Hn]]; [by apply Hn|by apply Hn, Hw].
  - split; [apply H|apply H'].
Qed.

Lemma readiness_order_independent_witness :
  let a := (PStr "queued", PNone, PNone) in let b := (PStr "done", PStr "stable", PNone) in
  calculate_component_readiness [a; b] (PStr "s1") = calculate_component_readiness [b; a] (PStr "s1").
Proof.
  cbn zeta.
  pose proof (readiness_order_independent
    [(PStr "queued", PNone, PNone); (PStr "done", PStr "stable", PNone)]
    [(PStr "done", PStr "stable", PNone); (PStr "queued", PNone, PNone)] (PStr "s1")
    ltac:(apply Permutation_swap)) as H.
  vm_compute in H |- *. exact (f_equal Ok H).
Defined.

(** An authorised interrupt resume of a sampled component keeps the retained
    lineage exactly when the completed parents agree with each other and, if they
    are unstable, with it; the override flag records whether ordinary readiness
    blocked.  It never raises on well-formed observations. *)
Theorem interrupt_resume_correct retained ps interrupt
  (Hret : wf_retained retained) (Hint : nonempty_str interrupt = true) (Hps : Forall wf_parent ps) :
  calculate_interrupt_sampled_resume_readiness retained ps interrupt
  = Ok (match shared_lineage (filter (λ p, p.1.1 = PStr "done") ps) with
        | Some l =>
            if decide (l.1 = PStr "unstable" ∧ retained ≠ l) then None
            else Some (retained.1, retained.2, bool_decide (shared_lineage ps = None))
        | None => None
        end).
Proof.
  unfold calculate_interrupt_sampled_resume_readiness.
  pose proof (readiness_cases ps interrupt) as H1.
  pose proof (readiness_cases (filter (λ p, p.1.1 = PStr "done") ps) PNone) as H2.
  assert (Forall wf_parent (filter (λ p, p.1.1 = PStr "done") ps)) as Hf.
  { rewrite Forall_forall in *. intros p [_ Hp]%list_elem_of_filter. auto. }
  destruct (calculate_component_readiness ps interrupt) as [r|e]; cbn.
  2: { destruct H1 as [_ [Hn|Hn]]; exfalso; [apply Hn; by right|by apply Hn]. }
  destruct H1 as (_ & _ & ->).
  destruct (calculate_component_readiness (filter _ _) _) as [d|e]; cbn.
  2: { destruct H2 as [_ [Hn|Hn]]; exfalso; [apply Hn; by left|by apply Hn]. }
  destruct H2 as (_ & _ & ->). unfold readiness_spec.
  destruct (shared_lineage (filter _ ps)) as [[s o]|]; cbn; [|by rewrite decide_True].
  rewrite sampled_resume_lineage_ok by done. cbn. case_decide; [done|].
  destruct (shared_lineage ps) as [[s' o']|]; cbn; [done|].
  destruct (decide (interrupt = PNone)) as [->|]; done.
Qed.

Lemma interrupt_resume_correct_witness :
  calculate_interrupt_sampled_resume_readiness (PStr "stable", PNone)
    [(PStr "queued", PNone, PNone); (PStr "done", PStr "stable", PNone)] (PStr "s1")
  = Ok (Some (PStr "stable", PNone, true)).
Proof.
  rewrite interrupt_resume_correct; [vm_compute; reflexivity|reflexivity|reflexivity|].
  repeat constructor; unfold lifecycles; try (intros; discriminate); set_solver.
Defined.
