(* ===== verification/Capacity.v ===== *)
(** Capacity arithmetic: the aggregate API budget ([api_limits.py]), the pump
    allocation ([component_scheduler.allocate_api_pumps]), the split of a node
    limit over fiber lanes, the startup lane and burst calculations
    ([runners/api.py]) and the thread limits ([runners/threaded.py]).

    A dictionary from node names to integers is a [gmap string Z]; the
    calculations read it in sorted order, so its insertion order never matters.
    Machine integers do not occur: Python integers are unbounded. *)
From S2P Require Import Prelude.

#[local] Open Scope Z_scope.

(** ** The aggregate budget ([allocate_api_capacity]) *)

Module Budget.

(** One pass over the names in order, adding one slot to every name below its
    request until the target is met ([break]).  Returns the shares, the slots in
    use and whether anything changed. *)
Fixpoint grow_pass (target : Z) (checked : gmap string Z) (names : list string)
    (shares : gmap string Z) (used : Z) (changed : bool) : gmap string Z * Z * bool :=
  match names with
  | [] => (shares, used, changed)
  | name :: names =>
      let s := shares !!! name in
      if bool_decide (checked !!! name ≤ s) then grow_pass target checked names shares used changed
      else
        let shares := <[name := s + 1]> shares in
        let used := used + 1 in
        if used =? target then (shares, used, true)
        else grow_pass target checked names shares used true
  end.

(** [while used < target]: passes until the target is met or nothing changes. *)
Fixpoint grow (fuel : nat) (target : Z) (checked : gmap string Z) (names : list string)
    (shares : gmap string Z) (used : Z) : option (gmap string Z * Z) :=
  match fuel with
  | O => None
  | S fuel =>
      if used <? target then
        let '(shares, used, changed) := grow_pass target checked names shares used false in
        if changed then grow fuel target checked names shares used else Some (shares, used)
      else Some (shares, used)
  end.

Fixpoint shrink_pass (target : Z) (names : list string)
    (shares : gmap string Z) (used : Z) (changed : bool) : gmap string Z * Z * bool :=
  match names with
  | [] => (shares, used, changed)
  | name :: names =>
      let s := shares !!! name in
      if bool_decide (s ≤ 1) then shrink_pass target names shares used changed
      else
        let shares := <[name := s - 1]> shares in
        let used := used - 1 in
        if used =? target then (shares, used, true)
        else shrink_pass target names shares used true
  end.

Fixpoint shrink (fuel : nat) (target : Z) (names : list string)
    (shares : gmap string Z) (used : Z) : option (gmap string Z * Z) :=
  match fuel with
  | O => None
  | S fuel =>
      if target <? used then
        let '(shares, used, changed) := shrink_pass target names shares used false in
        if changed then shrink fuel target names shares used else Some (shares, used)
      else Some (shares, used)
  end.

(** [sorted(checked, key=lambda name: (-((target * checked[name]) % requested_total), name))]. *)
Definition by_remainder (target requested_total : Z) (checked : gmap string Z) : list string :=
  snd <$> py_sorted ((λ p, (- ((target * p.2) mod requested_total), p.1)) <$> map_to_list checked).

(** [None] only when the fuel of a loop runs out; [allocate_terminates] shows it
    never does. *)
Definition allocate_api_capacity (requested : gmap string Z) (configured_total : option Z)
  : option (gmap string Z) :=
  let checked := (λ v, Z.max 1 v) <$> requested in
  if bool_decide (checked = ∅) then Some ∅
  else
    let requested_total := sum_values checked in
    match configured_total with
    | Some total =>
        if requested_total <=? total then Some checked
        else
          let target := Z.max (Z.of_nat (size checked)) total in
          let shares := (λ v, Z.max 1 ((target * v) / requested_total)) <$> checked in
          let used := sum_values shares in
          let remainders := by_remainder target requested_total checked in
          grown ← grow (S (Z.to_nat (target - used))) target checked remainders shares used;
          shrunk ← shrink (S (Z.to_nat (grown.2 - target))) target (reverse remainders) grown.1 grown.2;
          Some shrunk.1
    | None => Some checked
    end.

(** *** Facts *)

(** Shares never leave the range from one slot to the request. *)
Definition within (checked shares : gmap string Z) : Prop :=
  dom shares = dom checked ∧
  ∀ k s c, shares !! k = Some s → checked !! k = Some c → 1 ≤ s ≤ c.

Lemma within_lookup checked shares k c :
  within checked shares → checked !! k = Some c → ∃ s, shares !! k = Some s ∧ 1 ≤ s ≤ c.
Proof.
  intros [Hd Hw] Hc. assert (k ∈ dom shares) as [s Hs]%elem_of_dom
    by (rewrite Hd; by eapply elem_of_dom_2). eauto.
Qed.

Lemma within_insert checked shares k s c :
  within checked shares → checked !! k = Some c → 1 ≤ s ≤ c → within checked (<[k:=s]> shares).
Proof.
  intros [Hd Hw] Hc Hs. split.
  - rewrite dom_insert_L, Hd. apply elem_of_dom_2 in Hc. set_solver.
  - intros j x y Hj Hy. destruct (decide (j = k)) as [->|Hne].
    + rewrite lookup_insert_eq in Hj. simplify_eq. lia.
    + rewrite lookup_insert_ne in Hj by done. eauto.
Qed.

Lemma within_names checked shares n names :
  within checked shares → (∀ m, m ∈ n :: names → is_Some (checked !! m)) →
  (∃ c s, checked !! n = Some c ∧ shares !! n = Some s ∧ 1 ≤ s ≤ c) ∧
  (∀ m, m ∈ names → is_Some (checked !! m)).
Proof.
  intros Hw Hn. destruct (Hn n) as [c Hc]; [set_solver|].
  destruct (within_lookup _ _ _ _ Hw Hc) as (s & Hs & ?). split; [eauto 10|].
  intros m Hm. apply Hn. set_solver.
Qed.

(** A pass keeps the accounting, never oversteps the target, and reports a change
    exactly when it handed out a slot. *)
Lemma grow_pass_spec target checked names shares used changed shares' used' changed' :
  within checked shares → used = sum_values shares → used < target →
  (∀ n, n ∈ names → is_Some (checked !! n)) →
  grow_pass target checked names shares used changed = (shares', used', changed') →
  within checked shares' ∧ used' = sum_values shares' ∧ used ≤ used' ≤ target ∧
  changed' = changed || (used <? used').
Proof.
  revert shares used changed. induction names as [|n names IH]; intros shares used changed Hw Hu Hlt Hn; cbn.
  { intros [= <- <- <-]. split_and!; try done; lia. }
  destruct (within_names _ _ _ _ Hw Hn) as [(c & s & Hc & Hs & Hsc) Hn'].
  rewrite (lookup_total_correct _ _ _ Hs), (lookup_total_correct _ _ _ Hc).
  case_bool_decide as Hfull; [by apply IH|].
  assert (within checked (<[n:=s + 1]> shares)) as Hw' by (eapply within_insert; eauto; lia).
  assert (used + 1 = sum_values (<[n:=s + 1]> shares)) as Hu'
    by (rewrite (sum_values_insert _ _ s) by done; lia).
  destruct (Z.eqb_spec (used + 1) target) as [Ht|Ht].
  - intros [= <- <- <-]. split_and!; try done; lia.
  - intros Hrun. apply IH in Hrun as (H1 & H2 & H3 & H4); [|done|done|lia|done].
    split_and!; try done; lia.
Qed.

(** A name below its request gets a slot. *)
Lemma grow_pass_progress target checked names shares used changed n s c :
  within checked shares → used = sum_values shares → used < target →
  (∀ m, m ∈ names → is_Some (checked !! m)) →
  n ∈ names → shares !! n = Some s → checked !! n = Some c → s < c →
  ∀ r, grow_pass target checked names shares used changed = r → used < r.1.2.
Proof.
  intros Hw Hu Hlt Hnames Hn Hs Hc Hsc [[shares' used'] changed']. cbn.
  revert changed Hnames Hn. induction names as [|m names IH]; intros changed Hnames Hn; cbn.
  { by apply not_elem_of_nil in Hn. }
  destruct (within_names _ _ _ _ Hw Hnames) as [(cm & sm & Hcm & Hsm & Hscm) Hn'].
  rewrite (lookup_total_correct _ _ _ Hsm), (lookup_total_correct _ _ _ Hcm).
  case_bool_decide as Hfull.
  - apply IH; [done|]. apply elem_of_cons in Hn as [->|]; [simplify_eq; lia|done].
  - destruct (Z.eqb_spec (used + 1) target); [intros [= <- <- <-]; lia|].
    intros Hrun. apply grow_pass_spec in Hrun as (_ & _ & ? & _); [lia| | |lia|done].
    + eapply within_insert; eauto. lia.
    + rewrite (sum_values_insert _ _ sm) by done. lia.
Qed.

(** Enough fuel reaches the target exactly when the requests allow it. *)
Lemma grow_reaches fuel target checked names shares used :
  within checked shares → used = sum_values shares → used ≤ target ≤ sum_values checked →
  (∀ n, n ∈ names ↔ is_Some (checked !! n)) → (Z.to_nat (target - used) < fuel)%nat →
  ∃ shares', grow fuel target checked names shares used = Some (shares', target) ∧
    within checked shares' ∧ target = sum_values shares'.
Proof.
  revert shares used. induction fuel as [|fuel IH]; intros shares used Hw Hu Ht Hn Hf; [lia|]. cbn.
  destruct (Z.ltb_spec used target) as [Hlt|Hge].
  2: { assert (used = target) as -> by lia. exists shares. split_and!; done. }
  destruct (sum_values_le shares checked) as [_ Hbelow].
  { intros k s Hs. destruct Hw as [Hd Hw]. apply elem_of_dom_2 in Hs as Hk.
    rewrite Hd, elem_of_dom in Hk. destruct Hk as [c Hc]. exists c. split; [done|].
    by apply (Hw k s c). }
  { intros k [c Hc]. destruct (within_lookup _ _ _ _ Hw Hc) as (s & Hs & _). eauto. }
  destruct Hbelow as (k & s & c & Hs & Hc & Hsc); [lia|].
  destruct (grow_pass _ _ _ _ _ _) as [[shares' used'] changed'] eqn:Hrun.
  assert (∀ n, n ∈ names → is_Some (checked !! n)) as Hn' by (intros; by apply Hn).
  pose proof (grow_pass_progress _ _ _ _ _ _ k s c Hw Hu Hlt Hn' ltac:(apply Hn; eauto) Hs Hc Hsc _ Hrun) as Hp.
  cbn in Hp. apply grow_pass_spec in Hrun as (Hw' & Hu' & Hb & ->); [|done..].
  rewrite (proj2 (Z.ltb_lt used used')) by done. cbn. apply IH; [done|done|lia|done|lia].
Qed.

(** *** The second loop, symmetric *)

Lemma shrink_pass_spec target checked names shares used changed shares' used' changed' :
  within checked shares → used = sum_values shares → target < used →
  (∀ n, n ∈ names → is_Some (checked !! n)) →
  shrink_pass target names shares used changed = (shares', used', changed') →
  within checked shares' ∧ used' = sum_values shares' ∧ target ≤ used' ≤ used ∧
  changed' = changed || (used' <? used).
Proof.
  revert shares used changed. induction names as [|n names IH]; intros shares used changed Hw Hu Hlt Hn; cbn.
  { intros [= <- <- <-]. split_and!; try done; lia. }
  destruct (within_names _ _ _ _ Hw Hn) as [(c & s & Hc & Hs & Hsc) Hn'].
  rewrite (lookup_total_correct _ _ _ Hs).
  case_bool_decide as Hfull; [by apply IH|].
  assert (within checked (<[n:=s - 1]> shares)) as Hw' by (eapply within_insert; eauto; lia).
  assert (used - 1 = sum_values (<[n:=s - 1]> shares)) as Hu'
    by (rewrite (sum_values_insert _ _ s) by done; lia).
  destruct (Z.eqb_spec (used - 1) target) as [Ht|Ht].
  - intros [= <- <- <-]. split_and!; try done; lia.
  - intros Hrun. apply IH in Hrun as (H1 & H2 & H3 & H4); [|done|done|lia|done].
    split_and!; try done; lia.
Qed.

Lemma shrink_pass_progress target checked names shares used changed n s :
  within checked shares → used = sum_values shares → target < used →
  (∀ m, m ∈ names → is_Some (checked !! m)) → n ∈ names → shares !! n = Some s → 1 < s →
  ∀ r, shrink_pass target names shares used changed = r → r.1.2 < used.
Proof.
  intros Hw Hu Hlt Hnames Hn Hs Hsc [[shares' used'] changed']. cbn.
  revert changed Hnames Hn. induction names as [|m names IH]; intros changed Hnames Hn; cbn.
  { by apply not_elem_of_nil in Hn. }
  destruct (within_names _ _ _ _ Hw Hnames) as [(cm & sm & Hcm & Hsm & Hscm) Hn'].
  rewrite (lookup_total_correct _ _ _ Hsm).
  case_bool_decide as Hfull.
  - apply IH; [done|]. apply elem_of_cons in Hn as [->|]; [simplify_eq; lia|done].
  - destruct (Z.eqb_spec (used - 1) target); [intros [= <- <- <-]; lia|].
    intros Hrun. eapply (shrink_pass_spec _ checked) in Hrun as (_ & _ & ? & _); [lia| | |lia|done].
    + eapply within_insert; eauto. lia.
    + rewrite (sum_values_insert _ _ sm) by done. lia.
Qed.

(** With every share at least one, the total is the number of names. *)
Lemma sum_values_ones (m : gmap string Z) :
  (∀ k v, m !! k = Some v → 1 ≤ v) →
  Z.of_nat (size m) ≤ sum_values m ∧
  (Z.of_nat (size m) < sum_values m → ∃ k v, m !! k = Some v ∧ 1 < v).
Proof.
  induction m as [|k v m Hk IH] using map_ind; intros Hm.
  - rewrite sum_values_empty, map_size_empty. split; lia.
  - rewrite sum_values_insert_new, map_size_insert_None by done.
    pose proof (Hm k v (lookup_insert_eq _ _ _)) as Hv.
    destruct IH as [IH1 IH2].
    { intros j w Hj. apply (Hm j). rewrite lookup_insert_ne by congruence. done. }
    split; [lia|]. intros Hlt. destruct (decide (1 < v)) as [Hv1|Hv1].
    + exists k, v. by rewrite lookup_insert_eq.
    + destruct IH2 as (j & w & Hj & Hw); [lia|]. exists j, w.
      rewrite lookup_insert_ne by congruence. done.
Qed.

Lemma shrink_reaches fuel target checked names shares used :
  within checked shares → used = sum_values shares →
  Z.of_nat (size checked) ≤ target ≤ used →
  (∀ n, n ∈ names ↔ is_Some (checked !! n)) → (Z.to_nat (used - target) < fuel)%nat →
  ∃ shares', shrink fuel target names shares used = Some (shares', target) ∧
    within checked shares' ∧ target = sum_values shares'.
Proof.
  revert shares used. induction fuel as [|fuel IH]; intros shares used Hw Hu Ht Hn Hf; [lia|]. cbn.
  destruct (Z.ltb_spec target used) as [Hlt|Hge].
  2: { assert (used = target) as -> by lia. exists shares. split_and!; done. }
  assert (∀ k v, shares !! k = Some v → 1 ≤ v ∧ is_Some (checked !! k)) as Hone.
  { intros k v Hv. destruct Hw as [Hd Hw]. apply elem_of_dom_2 in Hv as Hk.
    rewrite Hd, elem_of_dom in Hk. split; [|done]. destruct Hk as [c Hc].
    by destruct (Hw k v c). }
  destruct (sum_values_ones shares) as [_ Hbig]; [intros; by eapply Hone|].
  assert (size shares = size checked) as Hsz by (rewrite <- !size_dom; by destruct Hw as [-> _]).
  destruct Hbig as (k & s & Hs & Hs1); [lia|]. destruct (Hone k s Hs) as [_ Hk].
  destruct (shrink_pass _ _ _ _ _) as [[shares' used'] changed'] eqn:Hrun.
  assert (∀ n, n ∈ names → is_Some (checked !! n)) as Hn' by (intros; by apply Hn).
  pose proof (shrink_pass_progress _ checked _ _ _ _ k s Hw Hu Hlt Hn' ltac:(by apply Hn) Hs Hs1 _ Hrun) as Hp.
  cbn in Hp. eapply shrink_pass_spec in Hrun as (Hw' & Hu' & Hb & ->); [|done..].
  rewrite (proj2 (Z.ltb_lt used' used)) by done. cbn. apply IH; [done|done|lia|done|lia].
Qed.

(** *** The allocation *)

Definition checked_of (requested : gmap string Z) : gmap string Z := (λ v, Z.max 1 v) <$> requested.

Lemma checked_lookup requested k c : checked_of requested !! k = Some c → 1 ≤ c.
Proof. unfold checked_of. rewrite lookup_fmap. destruct (requested !! k); cbn; intros; simplify_eq; lia. Qed.

Lemma elem_of_by_remainder target total checked n :
  n ∈ by_remainder target total checked ↔ is_Some (checked !! n).
Proof.
  unfold by_remainder. rewrite list_elem_of_fmap. setoid_rewrite elem_of_py_sorted.
  setoid_rewrite list_elem_of_fmap. setoid_rewrite elem_of_map_to_list'. split.
  - intros (? & -> & (p & -> & Hp)). cbn. eauto.
  - intros [c Hc]. eexists; split; [|exists (n, c); split; [done|done]]. done.
Qed.

Lemma sum_checked_pos checked :
  (∀ k c, checked !! k = Some c → 1 ≤ c) → checked ≠ ∅ → 0 < Z.of_nat (size checked) ≤ sum_values checked.
Proof.
  intros Hc Hne. destruct (sum_values_ones checked Hc) as [Hs _].
  apply map_size_non_empty_iff in Hne. lia.
Qed.

Lemma initial_within target checked :
  (∀ k c, checked !! k = Some c → 1 ≤ c) → 0 ≤ target ≤ sum_values checked → checked ≠ ∅ →
  within checked ((λ v, Z.max 1 ((target * v) / sum_values checked)) <$> checked).
Proof.
  intros Hc Ht Hne. pose proof (sum_checked_pos checked Hc Hne).
  split; [apply dom_fmap_L|]. intros k s c Hs Hk.
  rewrite lookup_fmap, Hk in Hs. injection Hs as <-. specialize (Hc k c Hk). split; [lia|].
  apply Z.max_lub; [done|]. apply Z.div_le_upper_bound; [lia|]. nia.
Qed.

Lemma allocate_cases requested configured_total :
  let checked := checked_of requested in
  ∃ shares, allocate_api_capacity requested configured_total = Some shares ∧
    match configured_total with
    | Some total =>
        if decide (checked ≠ ∅ ∧ total < sum_values checked)
        then within checked shares ∧ sum_values shares = Z.max (Z.of_nat (size checked)) total
        else shares = checked
    | None => shares = checked
    end.
Proof.
  cbn. unfold allocate_api_capacity. fold (checked_of requested).
  pose proof (λ k c, checked_lookup requested k c) as Hone. set (checked := checked_of requested) in *.
  case_bool_decide as He.
  { exists ∅. split; [done|]. destruct configured_total; [|done].
    by rewrite decide_False by (intros [? _]; done). }
  destruct configured_total as [total|]; [|by exists checked].
  pose proof (sum_checked_pos checked Hone He) as Hpos.
  destruct (Z.leb_spec (sum_values checked) total) as [Hle|Hlt].
  { exists checked. split; [done|]. by rewrite decide_False by lia. }
  set (target := Z.max _ total).
  set (shares := _ <$> checked). set (names := by_remainder _ _ _).
  assert (∀ n, n ∈ names ↔ is_Some (checked !! n)) as Hn by apply elem_of_by_remainder.
  assert (within checked shares) as Hw by (apply initial_within; [done|lia|done]).
  assert (∀ n, n ∈ reverse names ↔ is_Some (checked !! n)) as Hr
    by (intros n; by rewrite elem_of_reverse).
  assert (∃ sh used, grow (S (Z.to_nat (target - sum_values shares))) target checked names shares
      (sum_values shares) = Some (sh, used) ∧ within checked sh ∧ used = sum_values sh ∧ target ≤ used)
    as (sh & used & Hg & Hw' & Hu' & Ht').
  { destruct (decide (sum_values shares ≤ target)) as [Hu|Hu].
    - destruct (grow_reaches (S (Z.to_nat (target - sum_values shares))) target checked names shares
        (sum_values shares)) as (sh & Hg & ? & ?); [done|done|lia|done|lia|].
      exists sh, target. split_and!; done.
    - exists shares, (sum_values shares). split_and!; [|done|done|lia]. cbn.
      destruct (Z.ltb_spec (sum_values shares) target); [lia|done]. }
  rewrite Hg. cbn [mbind option_bind fst snd].
  destruct (shrink_reaches (S (Z.to_nat (used - target))) target checked (reverse names) sh used)
    as (sh' & Hs & Hw'' & Ht''); [done|done|lia|done|lia|].
  rewrite Hs. exists sh'. split; [done|]. by rewrite decide_True by done.
Qed.

End Budget.

(** The allocation always terminates with an answer.  Within the budget every
    node keeps its request; over the budget the shares add up to exactly the budget
    (or to one slot per node when the budget is smaller), every node keeping
    between one slot and its request. *)
Theorem allocate_api_capacity_exact requested configured_total :
  let checked := (λ v, Z.max 1 v) <$> requested in
  ∃ shares, Budget.allocate_api_capacity requested configured_total = Some shares ∧
    match configured_total with
    | Some total =>
        if decide (checked ≠ ∅ ∧ total < sum_values checked)
        then (dom shares = dom checked ∧
              ∀ k s c, shares !! k = Some s → checked !! k = Some c → 1 ≤ s ≤ c) ∧
             sum_values shares = Z.max (Z.of_nat (size checked)) total
        else shares = checked
    | None => shares = checked
    end.
Proof. apply Budget.allocate_cases. Qed.

Lemma allocate_api_capacity_exact_witness :
  Budget.allocate_api_capacity {["a" := 10; "b" := 5; "c" := 1]} (Some 8)
    = Some {["a" := 5; "b" := 2; "c" := 1]} ∧
  ∃ shares, Budget.allocate_api_capacity {["a" := 10; "b" := 5; "c" := 1]} (Some 8) = Some shares ∧
    sum_values shares = 8.
Proof.
  split; [vm_compute; reflexivity|].
  destruct (allocate_api_capacity_exact {["a" := 10; "b" := 5; "c" := 1]} (Some 8)) as (s & Hs & H).
  exists s. split; [exact Hs|].
  rewrite decide_True in H by (split; [discriminate|vm_compute; reflexivity]). apply H.
Defined.

(** ** Controller pumps ([allocate_api_pumps]) *)

Module Pumps.

(** The key [max] compares: [limits[name] / (a * (a + 1))].  Quotients are compared
    exactly, by cross multiplication; the doubles Python compares order the same way
    as long as the limits stay below [2^39]. *)
Definition benefit_lt (limits allocations : gmap string Z) (x y : string) : bool :=
  let ax := allocations !!! x in
  let ay := allocations !!! y in
  limits !!! x * (ay * (ay + 1)) <? limits !!! y * (ax * (ax + 1)).

(** [max(candidates, key=...)] keeps the first of several maxima. *)
Fixpoint py_max (lt : string → string → bool) (best : string) (l : list string) : string :=
  match l with
  | [] => best
  | x :: l => py_max lt (if lt best x then x else best) l
  end.

Fixpoint pump_loop (fuel : nat) (limits independent : gmap string Z) (names : list string)
    (budget : Z) (allocations : gmap string Z) : option (gmap string Z) :=
  match fuel with
  | O => None
  | S fuel =>
      if sum_values allocations <? budget then
        match filter (λ name, allocations !!! name < independent !!! name) names with
        | [] => Some allocations
        | c :: candidates =>
            let chosen := py_max (benefit_lt limits allocations) c candidates in
            pump_loop fuel limits independent names budget
              (<[chosen := allocations !!! chosen + 1]> allocations)
        end
      else Some allocations
  end.

Definition independent_of (limits : gmap string Z) : gmap string Z :=
  (λ l, Z.min 12 (Z.max 1 ((l + 63) / 64))) <$> limits.

(** The number of loop rounds never exceeds [12] per name. *)
Definition allocate_api_pumps (limits : gmap string Z) (cpu_count : option Z)
    (logical_processors pump_budget : option Z) : result (option (gmap string Z)) :=
  let names := py_sorted (elements (dom limits)) in
  if bool_decide (names = []) then Ok (Some ∅)
  else
    check! negb (existsb (λ name, limits !!! name <? 1) names)
      orelse ValueError saying "API pump allocation limits must be integers >= 1" in
    let independent := independent_of limits in
    let independent_total := sum_values independent in
    let! pump_budget :=
      match pump_budget with
      | None =>
          let processors := match logical_processors with None => cpu_count | p => p end in
          let processors := default 1 processors in
          check! negb (processors <? 1)
            orelse ValueError saying "logical processor count must be an integer >= 1" in
          Ok (Z.max 12 (processors + 5))
      | Some b => Ok b
      end in
    check! negb (pump_budget <? 1)
      orelse ValueError saying "API pump budget must be an integer >= 1" in
    let budget := Z.max (Z.of_nat (length names)) (Z.min independent_total pump_budget) in
    Ok (pump_loop (S (Z.to_nat budget)) limits independent names budget ((λ _, 1) <$> limits)).

(** *** Facts *)

(** No slot could move from a name to another one with a larger marginal benefit. *)
Definition exchange_optimal (limits independent allocations : gmap string Z) : Prop :=
  ∀ i j ai aj li lj,
    allocations !! i = Some ai → allocations !! j = Some aj →
    limits !! i = Some li → limits !! j = Some lj →
    (∃ c, independent !! i = Some c ∧ ai < c) → 1 < aj → i ≠ j →
    li * ((aj - 1) * aj) ≤ lj * (ai * (ai + 1)).

Lemma py_max_elem lt best l : py_max lt best l ∈ best :: l.
Proof.
  revert best. induction l as [|x l IH]; intros best; cbn; [set_solver|].
  specialize (IH (if lt best x then x else best)). destruct (lt best x); set_solver.
Qed.

Section max.
Context (limits allocations : gmap string Z).
Context (Hpos : ∀ k, is_Some (allocations !! k) → 1 ≤ allocations !!! k).

(** The chosen name's marginal benefit is a maximum. *)
Lemma benefit_trans x y z :
  is_Some (allocations !! x) → is_Some (allocations !! y) → is_Some (allocations !! z) →
  benefit_lt limits allocations y x = false → benefit_lt limits allocations z y = false →
  benefit_lt limits allocations z x = false.
Proof using Hpos.
  intros Hx%Hpos Hy%Hpos Hz%Hpos. unfold benefit_lt. rewrite !Z.ltb_ge.
  set (ax := allocations !!! x) in *. set (ay := allocations !!! y) in *.
  set (az := allocations !!! z) in *. generalize (limits !!! x), (limits !!! y), (limits !!! z).
  intros lx ly lz H1 H2. set (dx := ax * (ax + 1)) in *. set (dy := ay * (ay + 1)) in *.
  set (dz := az * (az + 1)) in *.
  assert (0 < dx) by (unfold dx; nia). assert (0 < dy) by (unfold dy; nia).
  assert (0 < dz) by (unfold dz; nia). clearbody dx dy dz.
  apply (Zmult_le_reg_r _ _ dy); [lia|]. nia.
Qed.

Lemma py_max_spec best l x :
  (∀ k, k ∈ best :: l → is_Some (allocations !! k)) → x ∈ best :: l →
  benefit_lt limits allocations (py_max (benefit_lt limits allocations) best l) x = false.
Proof using Hpos.
  revert best x. induction l as [|y l IH]; intros best x Hd Hx; cbn.
  { apply list_elem_of_singleton in Hx as ->. unfold benefit_lt. lia. }
  assert (∀ k, k ∈ (if benefit_lt limits allocations best y then y else best) :: l →
    is_Some (allocations !! k)) as Hd'.
  { intros k Hk. apply Hd. destruct (benefit_lt _ _ _ _); set_solver. }
  destruct (decide (x ∈ l)) as [Hl|Hl].
  { apply IH; [done|]. set_solver. }
  pose proof (IH _ _ Hd' (list_elem_of_here _ _)) as Hb.
  eapply (benefit_trans x (if benefit_lt limits allocations best y then y else best)).
  - by apply Hd.
  - apply Hd'. set_solver.
  - apply Hd', py_max_elem.
  - assert (x = best ∨ x = y) as [->| ->] by set_solver;
      destruct (benefit_lt limits allocations best y) eqn:E; try done;
      unfold benefit_lt in *; lia.
  - done.
Qed.
End max.

Lemma pump_step limits independent allocations chosen a c :
  Budget.within independent allocations → dom limits = dom independent →
  (∀ k l, limits !! k = Some l → 1 ≤ l) →
  exchange_optimal limits independent allocations →
  allocations !! chosen = Some a → independent !! chosen = Some c → a < c →
  (∀ i ai ci, allocations !! i = Some ai → independent !! i = Some ci → ai < ci →
    benefit_lt limits allocations chosen i = false) →
  exchange_optimal limits independent (<[chosen := a + 1]> allocations).
Proof.
  intros Hw Hdom Hl Hex Ha Hc Hac Hmax i j ai aj li lj Hi Hj Hli Hlj (ci & Hci & Hlt) Haj Hne.
  assert (∀ k x, allocations !! k = Some x → 1 ≤ x) as Hpos.
  { intros k x Hk. destruct Hw as [Hd Hw]. apply elem_of_dom_2 in Hk as Hk'.
    rewrite Hd, elem_of_dom in Hk'. destruct Hk' as [y Hy]. by destruct (Hw k x y). }
  destruct (decide (j = chosen)) as [->|Hj'].
  - rewrite lookup_insert_eq in Hj. simplify_eq. rewrite lookup_insert_ne in Hi by done.
    pose proof (Hmax i ai ci Hi Hci Hlt) as Hb. unfold benefit_lt in Hb.
    rewrite (lookup_total_correct _ _ _ Ha), (lookup_total_correct _ _ _ Hi),
      (lookup_total_correct _ _ _ Hli), (lookup_total_correct _ _ _ Hlj) in Hb.
    apply Z.ltb_ge in Hb. replace (a + 1 - 1) with a by lia. done.
  - rewrite lookup_insert_ne in Hj by done. destruct (decide (i = chosen)) as [->|Hi'].
    + rewrite lookup_insert_eq in Hi. simplify_eq.
      assert (li * ((aj - 1) * aj) ≤ lj * (a * (a + 1))) as Hb
        by (eapply (Hex chosen j); eauto).
      pose proof (Hl _ _ Hlj). pose proof (Hpos _ _ Ha). nia.
    + rewrite lookup_insert_ne in Hi by done. eapply (Hex i j); eauto.
Qed.

Definition loop_ok limits independent budget (allocations : gmap string Z) : Prop :=
  Budget.within independent allocations ∧ exchange_optimal limits independent allocations ∧
  sum_values allocations ≤ budget.

Lemma pump_loop_spec fuel limits independent names budget allocations :
  dom limits = dom independent → (∀ k l, limits !! k = Some l → 1 ≤ l) →
  (∀ n, n ∈ names ↔ is_Some (independent !! n)) → budget ≤ sum_values independent →
  loop_ok limits independent budget allocations →
  (Z.to_nat (budget - sum_values allocations) < fuel)%nat →
  ∃ final, pump_loop fuel limits independent names budget allocations = Some final ∧
    loop_ok limits independent budget final ∧ sum_values final = budget.
Proof.
  intros Hdom Hl Hn Hb. revert allocations.
  induction fuel as [|fuel IH]; intros allocations Hok Hf; [lia|]. cbn.
  destruct Hok as (Hw & Hex & Hs).
  destruct (Z.ltb_spec (sum_values allocations) budget) as [Hlt|Hge].
  2: { exists allocations. split_and!; [done|done|lia]. }
  assert (∀ n, n ∈ filter (λ name, allocations !!! name < independent !!! name) names ↔
    ∃ a c, allocations !! n = Some a ∧ independent !! n = Some c ∧ a < c) as Hcand.
  { intros n. rewrite list_elem_of_filter, Hn. split.
    - intros [Hac [c Hc]]. destruct (Budget.within_lookup _ _ _ _ Hw Hc) as (a & Ha & _).
      rewrite (lookup_total_correct _ _ _ Ha), (lookup_total_correct _ _ _ Hc) in Hac. eauto.
    - intros (a & c & Ha & Hc & Hac).
      rewrite (lookup_total_correct _ _ _ Ha), (lookup_total_correct _ _ _ Hc). eauto. }
  destruct (filter _ names) as [|first rest] eqn:Hfil.
  { exfalso. destruct (sum_values_le allocations independent) as [_ Hbelow].
    - intros k s Hk. destruct Hw as [Hd Hw]. apply elem_of_dom_2 in Hk as Hk'.
      rewrite Hd, elem_of_dom in Hk'. destruct Hk' as [c Hc]. exists c. split; [done|].
      by apply (Hw k s c).
    - intros k [c Hc]. destruct (Budget.within_lookup _ _ _ _ Hw Hc) as (a & Ha & _). eauto.
    - destruct Hbelow as (k & a & c & Hbelow); [lia|].
      assert (k ∈ @nil string) as Hk by (apply Hcand; eauto). by apply elem_of_nil in Hk. }
  set (chosen := py_max _ first rest).
  destruct (proj1 (Hcand chosen) (py_max_elem _ _ _)) as (a & c & Ha & Hc & Hac).
  rewrite (lookup_total_correct _ _ _ Ha).
  assert (1 ≤ a ≤ c) by (destruct Hw as [_ Hw]; eauto).
  assert (sum_values (<[chosen:=a + 1]> allocations) = sum_values allocations + 1) as Hsum
    by (rewrite (sum_values_insert _ _ a) by done; lia).
  apply IH; [|lia]. split_and!; [|eapply pump_step; eauto|lia].
  { eapply Budget.within_insert; eauto. lia. }
  intros i ai ci Hi Hci Hlt'. unfold chosen. apply py_max_spec; [|intros k Hk|apply Hcand; eauto].
  - intros k [x Hx]. rewrite (lookup_total_correct _ _ _ Hx). destruct Hw as [Hd Hw].
    apply elem_of_dom_2 in Hx as Hk'. rewrite Hd, elem_of_dom in Hk'.
    destruct Hk' as [y Hy]. by destruct (Hw k x y).
  - apply Hcand in Hk as (x & _ & Hx & _). eauto.
Qed.

(** *** The allocation *)

Lemma independent_lookup limits k c :
  independent_of limits !! k = Some c → 1 ≤ c ≤ 12 ∧ is_Some (limits !! k).
Proof.
  unfold independent_of. rewrite lookup_fmap.
  destruct (limits !! k); cbn; intros; simplify_eq. split; [lia|eauto].
Qed.

Lemma independent_dom limits : dom limits = dom (independent_of limits).
Proof. unfold independent_of. by rewrite dom_fmap_L. Qed.

Lemma sum_values_const (m : gmap string Z) : sum_values ((λ _, 1) <$> m) = Z.of_nat (size m).
Proof.
  induction m as [|k v m Hk IH] using map_ind.
  - by rewrite fmap_empty, sum_values_empty, map_size_empty.
  - rewrite fmap_insert, sum_values_insert_new, IH, map_size_insert_None by (rewrite ?lookup_fmap, ?Hk; done).
    lia.
Qed.

Lemma length_names (m : gmap string Z) : length (py_sorted (elements (dom m))) = size m.
Proof. rewrite py_sorted_perm, <- size_dom. done. Qed.

Lemma elem_of_names (m : gmap string Z) n : n ∈ py_sorted (elements (dom m)) ↔ is_Some (m !! n).
Proof. by rewrite elem_of_py_sorted, elem_of_elements, elem_of_dom. Qed.

Lemma start_ok limits budget :
  let independent := independent_of limits in
  Z.of_nat (size limits) ≤ budget → loop_ok limits independent budget ((λ _, 1) <$> limits).
Proof.
  cbn. intros Hb. split; [split|split].
  - rewrite dom_fmap_L. apply independent_dom.
  - intros k s c. rewrite lookup_fmap. destruct (limits !! k) eqn:Hk; cbn; [|done].
    intros [= <-] Hc. apply independent_lookup in Hc as [? _]. lia.
  - intros i j ai aj li lj _ Hj _ _ _ Haj. rewrite lookup_fmap in Hj.
    destruct (limits !! j); cbn in Hj; simplify_eq; lia.
  - by rewrite sum_values_const.
Qed.

(** The pump budget a call works with: the argument, or the processors plus five. *)
Definition pump_budget_of (cpu_count logical_processors pump_budget : option Z) : Z :=
  match pump_budget with
  | Some b => b
  | None => Z.max 12 (default 1 (match logical_processors with None => cpu_count | p => p end) + 5)
  end.

Definition processors_valid (cpu_count logical_processors pump_budget : option Z) : Prop :=
  match pump_budget with
  | Some b => 1 ≤ b
  | None => 1 ≤ default 1 (match logical_processors with None => cpu_count | p => p end)
  end.

Lemma allocate_api_pumps_run limits cpu lp pb :
  (∀ k l, limits !! k = Some l → 1 ≤ l) → processors_valid cpu lp pb → limits ≠ ∅ →
  let budget := Z.max (Z.of_nat (size limits))
                  (Z.min (sum_values (independent_of limits)) (pump_budget_of cpu lp pb)) in
  allocate_api_pumps limits cpu lp pb
  = Ok (pump_loop (S (Z.to_nat budget)) limits (independent_of limits)
          (py_sorted (elements (dom limits))) budget ((λ _, 1) <$> limits)).
Proof.
  cbn zeta. intros Hl Hv Hne. unfold allocate_api_pumps.
  rewrite bool_decide_false.
  2: { intros He. apply Hne. apply map_size_empty_iff. by rewrite <- length_names, He. }
  replace (existsb _ _) with false.
  2: { symmetry. apply not_true_iff_false. rewrite existsb_exists. intros (n & Hn & Hlt).
       apply list_elem_of_In, elem_of_names in Hn as [l Hn].
       rewrite (lookup_total_correct _ _ _ Hn) in Hlt. specialize (Hl n l Hn). lia. }
  cbn [negb require rbind]. unfold processors_valid, pump_budget_of in *.
  rewrite length_names. destruct pb as [b|].
  - cbn [rbind]. rewrite (proj2 (Z.ltb_ge b 1)) by lia. done.
  - rewrite (proj2 (Z.ltb_ge _ 1)) by lia. cbn [negb require rbind].
    rewrite (proj2 (Z.ltb_ge _ 1)) by lia. done.
Qed.

Lemma allocate_api_pumps_cases limits cpu lp pb :
  (∀ k l, limits !! k = Some l → 1 ≤ l) → processors_valid cpu lp pb →
  ∃ allocations, allocate_api_pumps limits cpu lp pb = Ok (Some allocations) ∧
    Budget.within (independent_of limits) allocations ∧
    exchange_optimal limits (independent_of limits) allocations ∧
    sum_values allocations
    = Z.max (Z.of_nat (size limits))
        (Z.min (sum_values (independent_of limits)) (pump_budget_of cpu lp pb)).
Proof.
  intros Hl Hv. destruct (decide (limits = ∅)) as [->|Hne].
  { exists ∅. destruct (start_ok ∅ 0) as (Hw & Hex & _); [by rewrite map_size_empty|].
    rewrite fmap_empty in Hw, Hex. split; [done|]. split; [done|]. split; [done|].
    rewrite map_size_empty. unfold independent_of. rewrite fmap_empty, sum_values_empty.
      unfold processors_valid, pump_budget_of in *. destruct pb; lia. }
  rewrite allocate_api_pumps_run by done.
  set (budget := Z.max _ _).
  pose proof (Budget.sum_values_ones (independent_of limits)) as [Hsz _].
  { intros k v Hk. apply independent_lookup in Hk as [? _]. lia. }
  assert (size (independent_of limits) = size limits) as Hs by apply map_size_fmap.
  assert (sum_values ((λ _, 1) <$> limits) = Z.of_nat (size limits)) as Hone by apply sum_values_const.
  destruct (pump_loop_spec (S (Z.to_nat budget)) limits (independent_of limits)
    (py_sorted (elements (dom limits))) budget ((λ _, 1) <$> limits)) as (final & -> & (Hw & Hex & _) & Hf).
  - apply independent_dom.
  - done.
  - intros n. rewrite elem_of_names, <- !elem_of_dom. by rewrite independent_dom.
  - unfold budget. lia.
  - apply start_ok. unfold budget. lia.
  - rewrite Hone. lia.
  - eauto 10.
Qed.

End Pumps.

(** ** Fiber lanes ([_LaneCoordinator]) *)

Module Lanes.

(** [self.active]; the lock makes each call one step. *)
Record coordinator := Coordinator { active : gset nat }.

Definition init (lanes : nat) : coordinator := Coordinator (list_to_set (seq 0 lanes)).

(** [ordered.index(lane)]. *)
Fixpoint index (lane : nat) (l : list nat) : nat :=
  match l with [] => 0 | x :: l => if decide (x = lane) then 0 else S (index lane l) end%nat.

Definition limit_for (c : coordinator) (total : Z) (lane : nat) : result Z :=
  check! negb (total <? 1)
    orelse ValueError saying "runtime API concurrency must be an integer >= 1" in
  let ordered := py_sorted (elements (active c)) in
  if bool_decide (lane ∉ active c) || bool_decide (ordered = []) then Ok 0
  else
    let position := index lane ordered in
    let base := total / Z.of_nat (length ordered) in
    let remainder := total mod Z.of_nat (length ordered) in
    Ok (base + (if Z.of_nat position <? remainder then 1 else 0)).

Definition unregister (c : coordinator) (lane : nat) : coordinator :=
  Coordinator (active c ∖ {[lane]}).

(** What a lane receives, once the provider's value has been accepted. *)
Definition share (c : coordinator) (total : Z) (lane : nat) : Z :=
  match limit_for c total lane with Ok n => n | Err _ => 0 end.

Definition sum_list (l : list Z) : Z := foldr Z.add 0 l.

Lemma sum_list_perm l k : l ≡ₚ k → sum_list l = sum_list k.
Proof. unfold sum_list. induction 1; cbn; lia. Qed.

Lemma share_active c total lane :
  1 ≤ total → lane ∈ active c →
  let ordered := py_sorted (elements (active c)) in
  share c total lane = total / Z.of_nat (length ordered)
    + (if Z.of_nat (index lane ordered) <? total mod Z.of_nat (length ordered) then 1 else 0).
Proof.
  intros Ht Hin. cbn. unfold share, limit_for. rewrite (proj2 (Z.ltb_ge total 1)) by lia. cbn.
  rewrite bool_decide_false by tauto. rewrite bool_decide_false; [done|].
  intros He. apply elem_of_elements in Hin. rewrite <- elem_of_py_sorted, He in Hin. set_solver.
Qed.

(** Summing a function of the position over a duplicate-free list. *)
Lemma sum_by_index (f : nat → Z) l :
  NoDup l → sum_list ((λ x, f (index x l)) <$> l) = sum_list (f <$> seq 0 (length l)).
Proof.
  intros Hl. f_equal. revert f. induction Hl as [|x l Hx Hl IH]; intros f; [done|]. cbn.
  rewrite decide_True by done. f_equal.
  rewrite <- seq_shift, <- list_fmap_compose. unfold compose. rewrite <- (IH (λ n, f (S n))).
  apply list_fmap_ext. intros i y Hy. apply list_elem_of_lookup_2 in Hy.
  rewrite decide_False by set_solver. done.
Qed.

Lemma sum_split n b r k :
  sum_list ((λ i, b + (if Z.of_nat i <? r then 1 else 0)) <$> seq k n)
  = Z.of_nat n * b + Z.max 0 (Z.min (Z.of_nat n) (r - Z.of_nat k)).
Proof.
  revert k. induction n as [|n IH]; intros k; cbn -[Z.of_nat]; [lia|].
  unfold sum_list in *. cbn -[Z.of_nat]. rewrite IH.
  destruct (Z.ltb_spec (Z.of_nat k) r); lia.
Qed.

Lemma shares_sum c total :
  1 ≤ total → active c ≠ ∅ → sum_list (share c total <$> elements (active c)) = total.
Proof.
  intros Ht Hne. set (ordered := py_sorted (elements (active c))).
  assert (elements (active c) ≡ₚ ordered) as Hp by (symmetry; apply py_sorted_perm).
  rewrite (sum_list_perm _ (share c total <$> ordered)) by by rewrite Hp.
  rewrite (list_fmap_ext _ (λ lane, total / Z.of_nat (length ordered)
    + (if Z.of_nat (index lane ordered) <? total mod Z.of_nat (length ordered) then 1 else 0))).
  2: { intros i lane Hl. apply share_active; [done|].
       apply list_elem_of_lookup_2 in Hl. rewrite <- Hp in Hl. by apply elem_of_elements. }
  rewrite (sum_by_index (λ p, total / Z.of_nat (length ordered)
    + (if Z.of_nat p <? total mod Z.of_nat (length ordered) then 1 else 0)))
    by (rewrite <- Hp; apply NoDup_elements).
  rewrite sum_split. assert (0 < Z.of_nat (length ordered)).
  { destruct ordered eqn:E; cbn; [|lia]. exfalso. apply Hne. apply leibniz_equiv, elements_empty_iff.
    by apply Permutation_nil_r in Hp. }
  pose proof (Z.div_mod total (Z.of_nat (length ordered))).
  pose proof (Z.mod_pos_bound total (Z.of_nat (length ordered))). lia.
Qed.

Lemma share_balanced c total x y :
  1 ≤ total → x ∈ active c → y ∈ active c → share c total x ≤ share c total y + 1.
Proof. intros Ht Hx Hy. rewrite !share_active by done. case_match; case_match; lia. Qed.

End Lanes.

(** ** Startup lanes, admission bursts and thread limits *)

Module Startup.

(** [ApiRunner.__init__]: the strategy as stored. *)
Definition startup_strategy (argument env : option string) : string :=
  let truthy s := match s with Some "" => None | s => s end in
  lower (strip (default "adaptive" (match truthy argument with
                                    | Some s => Some s
                                    | None => truthy env
                                    end))).

Definition effective_limit (value : Z) : result Z :=
  check! negb (value <? 1)
    orelse ValueError saying "runtime API concurrency must be an integer >= 1" in
  Ok value.

(** [math.ceil(a / b)] for a positive divisor. *)
Definition ceil_div (a b : Z) : Z := - ((- a) / b).

Definition read_int (configured : string) (msg : string) (minimum : Z) : result Z :=
  match py_int configured with
  | None => raise ValueError msg
  | Some v => check! negb (v <? minimum) orelse ValueError saying msg in Ok v
  end.

(** [remaining] is the source's hint ([None] when it has none), [jobs_env] and
    [provider] the environment variable and the injected lane provider's answer. *)
Definition startup_lanes (strategy : string) (value : Z) (remaining : option Z)
    (jobs_env : option string) (provider : option Z) : result Z :=
  let! limit := effective_limit value in
  if bool_decide (strategy ∈ ["event"; "single"; "latency"]) then Ok 1
  else if bool_decide (strategy = "balanced") then
    match remaining with
    | Some r => if r <? 128 then Ok 1 else Ok (Z.min 2 limit)
    | None => Ok 1
    end
  else if bool_decide (strategy = "elastic") then
    match remaining with
    | Some r =>
        if r <=? 0 then Ok 1
        else if r <? 256 then Ok 1
        else
          match py_int (default "1500" jobs_env) with
          | None => raise ValueError "invalid literal for int() with base 10"
          | Some jobs_per_lane =>
              check! negb (jobs_per_lane <? 256)
                orelse ValueError saying "MWF_API_JOBS_PER_STARTUP_LANE must be >= 256" in
              Ok (Z.min 4 (Z.min limit (1 + ceil_div r jobs_per_lane)))
          end
    | None => Ok 1
    end
  else if bool_decide (strategy = "adaptive") then
    match provider with
    | Some lanes =>
        check! negb (lanes <? 1)
          orelse ValueError saying "API startup lane provider must return an integer >= 1" in
        Ok (Z.min lanes limit)
    | None => Ok (Z.min 12 (Z.max 1 ((limit + 63) / 64)))
    end
  else if String.prefix "lanes:" strategy then
    match py_int (String.substring 6 (String.length strategy - 6) strategy) with
    | None => raise ValueError "MWF_API_STARTUP_STRATEGY lanes value must be an integer"
    | Some requested =>
        check! negb (requested <? 1) orelse ValueError saying "API startup lanes must be >= 1" in
        Ok (Z.min requested limit)
    end
  else raise ValueError
    "API startup strategy must be elastic, balanced, event, latency, adaptive, single, or lanes:<count>".

(** The integers [_run_single_source] hands to its [FiberRuntime]. *)
Record fiber_settings := FiberSettings {
  start_burst : Z;
  max_admission_burst : Z;
  service_interval : Z;
  state_writer_service_interval : Z
}.

Definition service_interval_of (strategy : string) : Z :=
  if bool_decide (strategy = "latency") then 8
  else if bool_decide (strategy ∈ ["event"; "balanced"]) then 12 else 16.

Definition single_source_settings (strategy : string) (value : Z) (remaining : option Z)
    (microbatch_env max_burst_env rounds_env : option string) : result fiber_settings :=
  let! interval :=
    match microbatch_env with
    | None => Ok 1
    | Some t => read_int t "MWF_API_TERMINAL_MICROBATCH must be an integer >= 1" 1
    end in
  let! max_burst :=
    match max_burst_env with
    | None => Ok 512
    | Some t => read_int t "MWF_API_MAX_ADMISSION_BURST must be an integer >= 16" 16
    end in
  let! target_rounds :=
    match rounds_env with
    | None => Ok 4
    | Some t => read_int t "MWF_API_ADMISSION_TARGET_ROUNDS must be an integer >= 1" 1
    end in
  let! limit := effective_limit value in
  let burst :=
    match remaining with
    | Some r =>
        if 0 <? r then
          Z.min limit (Z.min r (Z.min max_burst (Z.max 64 (ceil_div r target_rounds))))
        else Z.min 64 max_burst
    | None => Z.min 64 max_burst
    end in
  Ok (FiberSettings burst max_burst (service_interval_of strategy) interval).

(** The integers [_run_sharded_source] gives every lane's [FiberRuntime]. *)
Definition sharded_source_settings (lanes : Z) (remaining : option Z) (microbatch : Z) : fiber_settings :=
  let per_lane :=
    match remaining with
    | Some r => if 0 <? r then ceil_div r lanes else 128
    | None => 128
    end in
  let lane_max_burst := Z.min 512 (Z.max 64 per_lane) in
  let lane_start_burst := Z.min lane_max_burst (Z.max 64 (ceil_div per_lane 2)) in
  FiberSettings lane_start_burst lane_max_burst (Z.max 4 (12 / Z.min lanes 3)) microbatch.

(** [runners/threaded.py]. *)
Definition MAX_RUNTIME_THREADS : Z := 4096.

Definition threaded_init (max_threads : Z) : result Z :=
  check! negb (max_threads <? 1) orelse ValueError saying "max_threads must be an integer >= 1" in
  check! negb (MAX_RUNTIME_THREADS <? max_threads)
    orelse ValueError saying "max_threads must be <= 4096" in
  Ok max_threads.

Definition threaded_effective_limit (max_threads : Z) (provider : option Z) : result Z :=
  let value := default max_threads provider in
  check! negb (value <? 1) orelse ValueError saying "runtime max_threads must be an integer >= 1" in
  check! negb (MAX_RUNTIME_THREADS <? value)
    orelse ValueError saying "runtime max_threads must be <= 4096" in
  Ok value.

Definition job_prefetch_workers (env : option string) : result Z :=
  match env with
  | None => Ok 2
  | Some t =>
      let! value := read_int t "MWF_THREADED_JOB_PREFETCH_WORKERS must be an integer >= 1" 1 in
      Ok (Z.min value 32)
  end.

Definition job_prefetch_batches (env workers_env : option string) : result Z :=
  match env with
  | None => job_prefetch_workers workers_env
  | Some t =>
      let! value := read_int t "MWF_THREADED_JOB_PREFETCH_BATCHES must be an integer >= 1" 1 in
      Ok (Z.min value 32)
  end.

(** *** Facts *)

Lemma ceil_div_pos a b : 0 < a → 0 < b → 1 ≤ ceil_div a b ≤ a.
Proof.
  intros Ha Hb. unfold ceil_div. pose proof (Z.div_mod (- a) b).
  pose proof (Z.mod_pos_bound (- a) b). nia.
Qed.

Lemma read_int_ok t msg minimum v : read_int t msg minimum = Ok v → minimum ≤ v.
Proof. unfold read_int. destruct (py_int t); [|done]. intros. inv_ok. lia. Qed.

Lemma startup_lanes_bounds strategy value remaining jobs_env provider n :
  startup_lanes strategy value remaining jobs_env provider = Ok n → 1 ≤ n ≤ value.
Proof.
  unfold startup_lanes, effective_limit. intros H. apply rbind_ok in H as (limit & Hl & H). inv_ok.
  assert (1 ≤ limit) by lia.
  repeat case_bool_decide; [inv_ok; lia| | | |].
  - case_hyp H; inv_ok; lia.
  - destruct remaining as [r|]; [|inv_ok; lia].
    destruct (Z.leb_spec r 0); [inv_ok; lia|]. destruct (r <? 256); [inv_ok; lia|].
    destruct (py_int _) as [j|]; [|done]. inv_ok.
    pose proof (ceil_div_pos r j). lia.
  - destruct provider; inv_ok; [lia|]. pose proof (Z.div_le_upper_bound (limit + 63) 64 limit). lia.
  - destruct (String.prefix _ _); [|done]. destruct (py_int _); [|done]. inv_ok. lia.
Qed.

Lemma single_source_bounds strategy value remaining mb xb rounds s :
  single_source_settings strategy value remaining mb xb rounds = Ok s →
  16 ≤ max_admission_burst s ∧ 1 ≤ start_burst s ≤ max_admission_burst s ∧
  1 ≤ state_writer_service_interval s ∧
  (∀ r, remaining = Some r → 0 < r → start_burst s ≤ Z.min value r).
Proof.
  unfold single_source_settings, effective_limit. intros H.
  apply rbind_ok in H as (interval & Hi & H). apply rbind_ok in H as (mx & Hm & H).
  apply rbind_ok in H as (rounds' & Hr & H). inv_ok. cbn.
  assert (1 ≤ interval) by (destruct mb; [by eapply read_int_ok|inv_ok; lia]).
  assert (16 ≤ mx) by (destruct xb; [by eapply read_int_ok|inv_ok; lia]).
  split; [done|]. destruct remaining as [r|]; [|split_and!; [lia..|done]].
  destruct (Z.ltb_spec 0 r); split_and!; try lia; intros; simplify_eq; lia.
Qed.

Lemma sharded_source_bounds lanes remaining microbatch :
  1 ≤ lanes →
  let s := sharded_source_settings lanes remaining microbatch in
  64 ≤ start_burst s ≤ max_admission_burst s ∧ max_admission_burst s ≤ 512 ∧
  4 ≤ service_interval s ≤ 12.
Proof.
  intros Hl. cbn. pose proof (Z.div_le_upper_bound 12 (Z.min lanes 3) 12). lia.
Qed.

End Startup.

(** ** Properties *)

(** With valid limits and a valid processor count or budget the pump allocation
    returns; every name gets between one pump and its own plateau of at most twelve,
    the pumps add up to exactly the shared budget, and no pump could move to another
    name with a larger marginal load reduction. *)
Theorem allocate_api_pumps_exact limits cpu lp pb
  (Hl : ∀ k l, limits !! k = Some l → 1 ≤ l) (Hv : Pumps.processors_valid cpu lp pb) :
  ∃ allocations, Pumps.allocate_api_pumps limits cpu lp pb = Ok (Some allocations) ∧
    (∀ k l, limits !! k = Some l →
       ∃ a, allocations !! k = Some a ∧ 1 ≤ a ≤ Z.min 12 (Z.max 1 ((l + 63) / 64))) ∧
    sum_values allocations
    = Z.max (Z.of_nat (size limits))
        (Z.min (sum_values (Pumps.independent_of limits)) (Pumps.pump_budget_of cpu lp pb)) ∧
    Pumps.exchange_optimal limits (Pumps.independent_of limits) allocations.
Proof.
  destruct (Pumps.allocate_api_pumps_cases limits cpu lp pb Hl Hv) as (al & Hr & Hw & Hex & Hs).
  exists al. split_and!; [done| |done|done]. intros k l Hk.
  apply (Budget.within_lookup _ _ k _ Hw). unfold Pumps.independent_of. by rewrite lookup_fmap, Hk.
Qed.

Lemma allocate_api_pumps_exact_witness :
  Pumps.allocate_api_pumps {["a" := 10; "b" := 500; "c" := 200]} (Some 4) None None
    = Ok (Some {["a" := 1; "b" := 7; "c" := 4]}) ∧
  ∃ al, Pumps.allocate_api_pumps {["a" := 10; "b" := 500; "c" := 200]} (Some 4) None None = Ok (Some al) ∧
    sum_values al = 12.
Proof.
  split; [vm_compute; reflexivity|].
  destruct (allocate_api_pumps_exact {["a" := 10; "b" := 500; "c" := 200]} (Some 4) None None)
    as (al & H & _ & Hs & _).
  - intros k l Hk. apply elem_of_map_to_list in Hk. vm_compute in Hk.
    repeat (apply elem_of_cons in Hk as [Hk|Hk]; [injection Hk; lia|]). by apply elem_of_nil in Hk.
  - unfold Pumps.processors_valid. cbn. lia.
  - exists al. split; [exact H|]. rewrite Hs. vm_compute. reflexivity.
Defined.

(** Whatever lanes are still running, their shares of a valid node limit add up
    to exactly that limit and differ by at most one; a lane that has left gets
    nothing, and leaving never gives a share back to it. *)
Theorem lane_limits_exact c total (Ht : 1 ≤ total) :
  (Lanes.active c ≠ ∅ →
     Lanes.sum_list (Lanes.share c total <$> elements (Lanes.active c)) = total) ∧
  (∀ x y, x ∈ Lanes.active c → y ∈ Lanes.active c → Lanes.share c total x ≤ Lanes.share c total y + 1) ∧
  (∀ x, x ∉ Lanes.active c → Lanes.limit_for c total x = Ok 0) ∧
  (∀ x, Lanes.limit_for (Lanes.unregister c x) total x = Ok 0).
Proof.
  assert (∀ c x, x ∉ Lanes.active c → Lanes.limit_for c total x = Ok 0) as Hout.
  { intros c' x Hx. unfold Lanes.limit_for. rewrite (proj2 (Z.ltb_ge total 1)) by lia. cbn.
    by rewrite bool_decide_true. }
  split_and!; [by apply Lanes.shares_sum|intros; by apply Lanes.share_balanced|apply Hout|].
  intros x. apply Hout. cbn. set_solver.
Qed.

Lemma lane_limits_exact_witness :
  (Lanes.share (Lanes.unregister (Lanes.init 4) 1) 100 <$> [0; 1; 2; 3]%nat) = [34; 0; 33; 33] ∧
  Lanes.limit_for (Lanes.unregister (Lanes.init 4) 1) 100 1 = Ok 0.
Proof.
  split; [vm_compute; reflexivity|].
  destruct (lane_limits_exact (Lanes.init 4) 100) as (_ & _ & _ & H); [lia|]. apply H.
Defined.

(** Admission sizing stays within the node limit.  A strategy that is accepted
    starts between one lane and the limit; a single-lane runtime starts with at least
    one job, never more than the limit, the queue, or the burst cap (at least 16);
    every lane of a sharded run starts with 64 to 512 jobs and services the scheduler
    every 4 to 12 steps. *)
Theorem startup_sizes_bounded :
  (∀ strategy value remaining jobs_env provider n,
     Startup.startup_lanes strategy value remaining jobs_env provider = Ok n → 1 ≤ n ≤ value) ∧
  (∀ strategy value remaining mb xb rounds s,
     Startup.single_source_settings strategy value remaining mb xb rounds = Ok s →
     16 ≤ Startup.max_admission_burst s ∧
     1 ≤ Startup.start_burst s ≤ Startup.max_admission_burst s ∧
     1 ≤ Startup.state_writer_service_interval s ∧
     (∀ r, remaining = Some r → 0 < r → Startup.start_burst s ≤ Z.min value r)) ∧
  (∀ lanes remaining microbatch, 1 ≤ lanes →
     let s := Startup.sharded_source_settings lanes remaining microbatch in
     64 ≤ Startup.start_burst s ≤ Startup.max_admission_burst s ∧
     Startup.max_admission_burst s ≤ 512 ∧ 4 ≤ Startup.service_interval s ≤ 12).
Proof.
  split_and!.
  - apply Startup.startup_lanes_bounds.
  - apply Startup.single_source_bounds.
  - apply Startup.sharded_source_bounds.
Qed.

Lemma startup_sizes_bounded_witness :
  Startup.startup_lanes (Startup.startup_strategy (Some " LANES:7 ") None) 5 None None None = Ok 5 ∧
  1 ≤ 5 ≤ 5 ∧ 64 ≤ Startup.start_burst (Startup.sharded_source_settings 4 (Some 1000) 1) ≤ 250.
Proof.
  destruct startup_sizes_bounded as (H1 & _ & H3).
  split; [vm_compute; reflexivity|]. split.
  - eapply (H1 "lanes:7" 5 None None None). vm_compute. reflexivity.
  - apply (H3 4 (Some 1000) 1). lia.
Defined.
