(* ===== verification/Fibers.v ===== *)
(** The cooperative API runtime ([fibers.py], class [FiberRuntime]): greenlets that
    suspend on futures and sleeps, the ready queue, deadlines, cancellation polling
    and the admission loop [run_source].

    The runtime is one record threaded through the operations.  Objects the code
    shares by reference are shared by name: a [_FiberState] by its index, a
    [_FutureWaiter] (held by the waiter lists and by the deadline heap) by an
    allocation number, a [Future] by its identity.  A heap is the list of its
    entries in pop order; entries are ordered by deadline and then by serial number,
    as their tuples compare.  Times are integers (clock ticks).  User code and the
    surroundings act through the parameters below, each of which may change the
    outside world: the fiber bodies, the cancellation checks, the clock, the limit
    provider, the job source, and the completions other threads deliver. *)
From S2P Require Import Prelude.

#[local] Open Scope Z_scope.

Definition fut := nat.
Definition chk := nat.

Section fibers.
Context {val item W : Type}.

(** [_Resume]. *)
Record resume := Resume { res_value : option val; res_error : option exc }.

Definition no_resume : resume := Resume None None.

(** What [fiber.switch] comes back with: the body raised, returned, or yielded a
    [_FutureWait], a [_SleepWait] or anything else (its type's name). *)
Inductive yielded :=
  | Raised (e : exc)
  | Returned (v : val)
  | FutureWait (future : fut) (deadline : option Z) (cancellation_check : option chk)
  | SleepWait (deadline : Z) (cancellation_check : option chk)
  | OtherYield (type_name : string).

(** The surroundings. *)
Record surroundings := Surroundings {
  switch : nat → item → resume → W → yielded * W;
  run_check : chk → W → option exc * W;
  monotonic : W → Z * W;
  limit_provider : W → Z * W;
  pull : nat → W → list item * W;
  wait_for_change : option (Z → W → bool * W);
  other_threads : W → list (fut * result val) * W;
  admission_pressure_provider : option (W → bool * W);
  original_sleep : W → W;
  event_wait : Z → W → W
}.

(** [_FiberState]; its greenlet lives in the outside world. *)
Record fiber_state := FiberState {
  fs_item : item;
  fs_done : bool;
  wait_token : nat;
  pending_future : option fut
}.

(** [_FutureWaiter]. *)
Record waiter := Waiter {
  w_state : nat;
  w_token : nat;
  w_deadline : option Z;
  w_check : option chk;
  w_active : bool
}.

Record settings := Settings {
  poll_interval : Z;
  start_burst : nat;
  max_admission_burst : nat;
  service_interval : nat;
  state_writer_service_interval : nat;
  admission_pressure_wait : Z
}.

(** [FiberRuntime].  [callbacks] and [outcomes] are the futures' own state: the
    callbacks registered and not yet called, and the results of finished futures. *)
Record runtime := Runtime {
  states : gmap nat fiber_state;
  waiters : gmap nat waiter;
  future_waiters : list (fut * list nat);
  future_deadlines : list (Z * nat * fut * nat);
  sleepers : list (Z * nat * nat * nat * option chk);
  serial : nat;
  ready : list (nat * resume);
  completed_futures : list fut;
  wake_event : bool;
  active_count : Z;
  results : gmap nat val;
  first_error : option exc;
  next_cancellation_poll : Z;
  callbacks : list fut;
  outcomes : gmap fut (result val);
  world : W
}.

Definition set_states x r := Runtime x (waiters r) (future_waiters r) (future_deadlines r) (sleepers r) (serial r) (ready r) (completed_futures r) (wake_event r) (active_count r) (results r) (first_error r) (next_cancellation_poll r) (callbacks r) (outcomes r) (world r).
Definition set_waiters x r := Runtime (states r) x (future_waiters r) (future_deadlines r) (sleepers r) (serial r) (ready r) (completed_futures r) (wake_event r) (active_count r) (results r) (first_error r) (next_cancellation_poll r) (callbacks r) (outcomes r) (world r).
Definition set_future_waiters x r := Runtime (states r) (waiters r) x (future_deadlines r) (sleepers r) (serial r) (ready r) (completed_futures r) (wake_event r) (active_count r) (results r) (first_error r) (next_cancellation_poll r) (callbacks r) (outcomes r) (world r).
Definition set_future_deadlines x r := Runtime (states r) (waiters r) (future_waiters r) x (sleepers r) (serial r) (ready r) (completed_futures r) (wake_event r) (active_count r) (results r) (first_error r) (next_cancellation_poll r) (callbacks r) (outcomes r) (world r).
Definition set_sleepers x r := Runtime (states r) (waiters r) (future_waiters r) (future_deadlines r) x (serial r) (ready r) (completed_futures r) (wake_event r) (active_count r) (results r) (first_error r) (next_cancellation_poll r) (callbacks r) (outcomes r) (world r).
Definition set_serial x r := Runtime (states r) (waiters r) (future_waiters r) (future_deadlines r) (sleepers r) x (ready r) (completed_futures r) (wake_event r) (active_count r) (results r) (first_error r) (next_cancellation_poll r) (callbacks r) (outcomes r) (world r).
Definition set_ready x r := Runtime (states r) (waiters r) (future_waiters r) (future_deadlines r) (sleepers r) (serial r) x (completed_futures r) (wake_event r) (active_count r) (results r) (first_error r) (next_cancellation_poll r) (callbacks r) (outcomes r) (world r).
Definition set_completed x r := Runtime (states r) (waiters r) (future_waiters r) (future_deadlines r) (sleepers r) (serial r) (ready r) x (wake_event r) (active_count r) (results r) (first_error r) (next_cancellation_poll r) (callbacks r) (outcomes r) (world r).
Definition set_wake x r := Runtime (states r) (waiters r) (future_waiters r) (future_deadlines r) (sleepers r) (serial r) (ready r) (completed_futures r) x (active_count r) (results r) (first_error r) (next_cancellation_poll r) (callbacks r) (outcomes r) (world r).
Definition set_active_count x r := Runtime (states r) (waiters r) (future_waiters r) (future_deadlines r) (sleepers r) (serial r) (ready r) (completed_futures r) (wake_event r) x (results r) (first_error r) (next_cancellation_poll r) (callbacks r) (outcomes r) (world r).
Definition set_results x r := Runtime (states r) (waiters r) (future_waiters r) (future_deadlines r) (sleepers r) (serial r) (ready r) (completed_futures r) (wake_event r) (active_count r) x (first_error r) (next_cancellation_poll r) (callbacks r) (outcomes r) (world r).
Definition set_first_error x r := Runtime (states r) (waiters r) (future_waiters r) (future_deadlines r) (sleepers r) (serial r) (ready r) (completed_futures r) (wake_event r) (active_count r) (results r) x (next_cancellation_poll r) (callbacks r) (outcomes r) (world r).
Definition set_next_poll x r := Runtime (states r) (waiters r) (future_waiters r) (future_deadlines r) (sleepers r) (serial r) (ready r) (completed_futures r) (wake_event r) (active_count r) (results r) (first_error r) x (callbacks r) (outcomes r) (world r).
Definition set_callbacks x r := Runtime (states r) (waiters r) (future_waiters r) (future_deadlines r) (sleepers r) (serial r) (ready r) (completed_futures r) (wake_event r) (active_count r) (results r) (first_error r) (next_cancellation_poll r) x (outcomes r) (world r).
Definition set_outcomes x r := Runtime (states r) (waiters r) (future_waiters r) (future_deadlines r) (sleepers r) (serial r) (ready r) (completed_futures r) (wake_event r) (active_count r) (results r) (first_error r) (next_cancellation_poll r) (callbacks r) x (world r).
Definition set_world x r := Runtime (states r) (waiters r) (future_waiters r) (future_deadlines r) (sleepers r) (serial r) (ready r) (completed_futures r) (wake_event r) (active_count r) (results r) (first_error r) (next_cancellation_poll r) (callbacks r) (outcomes r) x.

(** [FiberRuntime.__init__]: the checked settings, and the empty runtime at clock
    time [now]. *)
Definition make_settings (poll start max_burst interval writer wait : Z) : result settings :=
  check! negb (poll <=? 0) orelse ValueError saying "poll_interval must be positive" in
  check! negb (start <? 1) orelse ValueError saying "start_burst must be an integer >= 1" in
  check! negb (max_burst <? 1)
    orelse ValueError saying "max_admission_burst must be an integer >= 1" in
  check! negb (interval <? 1) orelse ValueError saying "service_interval must be an integer >= 1" in
  check! negb (writer <? 1)
    orelse ValueError saying "state_writer_service_interval must be an integer >= 1" in
  check! negb (wait <? 0) orelse ValueError saying "admission_pressure_wait must be >= 0" in
  Ok (Settings poll (Z.to_nat (Z.min start max_burst)) (Z.to_nat max_burst) (Z.to_nat interval)
        (Z.to_nat writer) wait).

Definition runtime_init (cfg : settings) (now : Z) (w : W) : runtime :=
  Runtime ∅ ∅ [] [] [] 0 [] [] false 0 ∅ None (now + poll_interval cfg) [] ∅ w.

Definition with_done (b : bool) (st : fiber_state) := FiberState (fs_item st) b (wait_token st) (pending_future st).
Definition with_token (t : nat) (st : fiber_state) := FiberState (fs_item st) (fs_done st) t (pending_future st).
Definition with_pending (f : option fut) (st : fiber_state) := FiberState (fs_item st) (fs_done st) (wait_token st) f.

Definition set_state (i : nat) (st : fiber_state) (r : runtime) : runtime := set_states (<[i:=st]> (states r)) r.

Definition append_ready (i : nat) (res : resume) (r : runtime) : runtime := set_ready (ready r ++ [(i, res)]) r.

Definition or_error (e : exc) (r : runtime) : runtime :=
  set_first_error (Some (default e (first_error r))) r.

Definition finish (i : nat) (st : fiber_state) (r : runtime) : runtime :=
  set_active_count (active_count r - 1) (set_state i (with_done true st) r).

(** *** Futures *)

(** [_future_completed]. *)
Definition future_completed (f : fut) (r : runtime) : runtime :=
  set_wake true (set_completed (completed_futures r ++ [f]) r).

(** [Future.set_result] or [set_exception] in another thread: the outcome is stored
    and every registered callback is called once. *)
Definition complete (c : fut * result val) (r : runtime) : runtime :=
  match outcomes r !! c.1 with
  | Some _ => r
  | None =>
      let fired := filter (λ f, f = c.1) (callbacks r) in
      let r := set_outcomes (<[c.1 := c.2]> (outcomes r)) r in
      let r := set_callbacks (filter (λ f, f ≠ c.1) (callbacks r)) r in
      foldl (λ r f, future_completed f r) r fired
  end.

(** [Future.add_done_callback(self._future_completed)]. *)
Definition add_done_callback (f : fut) (r : runtime) : runtime :=
  match outcomes r !! f with
  | Some _ => future_completed f r
  | None => set_callbacks (f :: callbacks r) r
  end.

(** [_ORIGINAL_FUTURE_RESULT(future, timeout=0)]. *)
Definition future_result_now (f : fut) (r : runtime) : resume :=
  match outcomes r !! f with
  | Some (Ok v) => Resume (Some v) None
  | Some (Err e) => Resume None (Some e)
  | None => Resume None (Some (Exc TimeoutError ""))
  end.

Definition fw_lookup (f : fut) (l : list (fut * list nat)) : option (list nat) :=
  snd <$> head (filter (λ p, p.1 = f) l).

Definition fw_pop (f : fut) (l : list (fut * list nat)) : list (fut * list nat) :=
  filter (λ p, p.1 ≠ f) l.

(** [waiters.append(waiter)] on the list stored under [f]. *)
Definition fw_append (f : fut) (w : nat) (l : list (fut * list nat)) : list (fut * list nat) :=
  (λ p, if decide (p.1 = f) then (p.1, p.2 ++ [w]) else p) <$> l.

(** [self._future_waiters[f] = ws] for a key that is present. *)
Definition fw_set (f : fut) (ws : list nat) (l : list (fut * list nat)) : list (fut * list nat) :=
  (λ p, if decide (p.1 = f) then (p.1, ws) else p) <$> l.

(** [heapq.heappush] on entries with deadline and serial number first. *)
Definition entry_before (d1 : Z) (s1 : nat) (d2 : Z) (s2 : nat) : bool :=
  (d1 <? d2) || ((d1 =? d2) && (s1 <? s2)%nat).

Fixpoint push_deadline (x : Z * nat * fut * nat) (h : list (Z * nat * fut * nat)) :=
  match h with
  | [] => [x]
  | y :: h' => if entry_before x.1.1.1 x.1.1.2 y.1.1.1 y.1.1.2 then x :: h else y :: push_deadline x h'
  end.

Fixpoint push_sleeper (x : Z * nat * nat * nat * option chk) (h : list (Z * nat * nat * nat * option chk)) :=
  match h with
  | [] => [x]
  | y :: h' =>
      if entry_before x.1.1.1.1 x.1.1.1.2 y.1.1.1.1 y.1.1.1.2 then x :: h else y :: push_sleeper x h'
  end.

(** [waiter.active = False]. *)
Definition deactivate (w : nat) (r : runtime) : runtime :=
  set_waiters (alter (λ x, Waiter (w_state x) (w_token x) (w_deadline x) (w_check x) false) w (waiters r)) r.

(** Whether a waiter of future [f] still describes its fiber's current wait. *)
Definition current_wait (r : runtime) (f : fut) (x : waiter) : option fiber_state :=
  match states r !! w_state x with
  | Some st =>
      if fs_done st || negb (wait_token st =? w_token x)%nat
         || negb (bool_decide (pending_future st = Some f))
      then None else Some st
  | None => None
  end.

(** Take a fiber off its future and queue it. *)
Definition wake_fiber (i : nat) (st : fiber_state) (res : resume) (r : runtime) : runtime :=
  append_ready i res (set_state i (with_pending None st) r).

End fibers.

Arguments resume : clear implicits.
Arguments yielded : clear implicits.
Arguments surroundings : clear implicits.
Arguments fiber_state : clear implicits.
Arguments runtime : clear implicits.

(** ** The runtime's operations *)

Section operations.
Context {val item W : Type} (env : surroundings val item W) (cfg : settings).
Abbreviation runtime := (runtime val item W).
Implicit Types r : runtime.

(** Other threads complete futures while the pump runs. *)
Definition arrivals (r : runtime) : runtime :=
  let '(cs, w) := other_threads env (world r) in foldl (λ r c, complete c r) (set_world w r) cs.

Definition call_check (c : option chk) (r : runtime) : option exc * runtime :=
  match c with
  | None => (None, r)
  | Some c => let '(e, w) := run_check env c (world r) in (e, set_world w r)
  end.

(** Suspend fiber [i] on a future: [_resume_state]'s first branch. *)
Definition park_future (i : nat) (st : fiber_state item) (f : fut) (deadline : option Z)
    (check : option chk) (r : runtime) : runtime :=
  let r := set_state i (with_pending (Some f) st) r in
  let r :=
    match fw_lookup f (future_waiters r) with
    | Some _ => r
    | None => add_done_callback f (set_future_waiters (future_waiters r ++ [(f, [])]) r)
    end in
  let w := fresh (dom (waiters r)) in
  let r := set_waiters (<[w := Waiter i (wait_token st) deadline check true]> (waiters r)) r in
  let r := set_future_waiters (fw_append f w (future_waiters r)) r in
  match deadline with
  | Some d =>
      let r := set_serial (S (serial r)) r in
      set_future_deadlines (push_deadline (d, serial r, f, w) (future_deadlines r)) r
  | None => r
  end.

Definition park_sleep (i : nat) (st : fiber_state item) (deadline : Z) (check : option chk)
    (r : runtime) : runtime :=
  let r := set_serial (S (serial r)) (set_state i st r) in
  set_sleepers (push_sleeper (deadline, serial r, i, wait_token st, check) (sleepers r)) r.

(** [_resume_state]. *)
Definition resume_state (i : nat) (res : resume val) (r : runtime) : runtime :=
  match states r !! i with
  | None => r
  | Some st =>
      if fs_done st then r
      else
        let '(y, w) := switch env i (fs_item st) res (world r) in
        let r := set_world w r in
        match y with
        | Raised e => or_error e (finish i st r)
        | Returned v => let r := finish i st r in set_results (<[i:=v]> (results r)) r
        | FutureWait f deadline check =>
            park_future i (with_token (S (wait_token st)) st) f deadline check r
        | SleepWait deadline check =>
            park_sleep i (with_token (S (wait_token st)) st) deadline check r
        | OtherYield name =>
            or_error (Exc RuntimeError ("API fiber yielded unsupported value " ++ name))
              (finish i (with_token (S (wait_token st)) st) r)
        end
  end.

(** [_new_state], stored under its index. *)
Definition new_state (i : nat) (x : item) (r : runtime) : runtime :=
  set_active_count (active_count r + 1) (set_state i (FiberState x false 0 None) r).

(** One waiter of a completed future. *)
Definition deliver_one (f : fut) (res : resume val) (r : runtime) (w : nat) : runtime :=
  match waiters r !! w with
  | None => r
  | Some x =>
      let r := deactivate w r in
      match current_wait r f x with
      | None => r
      | Some st => wake_fiber (w_state x) st res r
      end
  end.

Definition deliver (r : runtime) (f : fut) : runtime :=
  match fw_lookup f (future_waiters r) with
  | None => r
  | Some ws =>
      let r := set_future_waiters (fw_pop f (future_waiters r)) r in
      foldl (deliver_one f (future_result_now f r)) r ws
  end.

(** [_process_futures]: drain the queue, clear the event, and set it again when a
    completion slipped in. *)
Definition process_futures (r : runtime) : runtime :=
  let r := arrivals r in
  let r := foldl deliver (set_completed [] r) (completed_futures r) in
  let r := arrivals r in
  let r := set_wake false r in
  let r := arrivals r in
  if bool_decide (completed_futures r = []) then r else set_wake true r.

(** The first loop of [_process_deadlines]. *)
Fixpoint expire_sleepers (now : Z) (h : list (Z * nat * nat * nat * option chk)) (r : runtime) : runtime :=
  match h with
  | [] => set_sleepers [] r
  | (d, _, i, token, check) :: h' =>
      if d <=? now then
        match states r !! i with
        | Some st =>
            if fs_done st || negb (wait_token st =? token)%nat then expire_sleepers now h' r
            else
              let '(e, r) := call_check check r in
              match e with
              | Some e => expire_sleepers now h' (append_ready i (Resume None (Some e)) r)
              | None => expire_sleepers now h' (append_ready i no_resume r)
              end
        | None => expire_sleepers now h' r
        end
      else set_sleepers h r
  end.

(** The second loop. *)
Fixpoint expire_futures (now : Z) (h : list (Z * nat * fut * nat)) (r : runtime) : runtime :=
  match h with
  | [] => set_future_deadlines [] r
  | (d, _, f, w) :: h' =>
      if d <=? now then
        match waiters r !! w with
        | Some x =>
            if negb (w_active x) then expire_futures now h' r
            else
              match current_wait r f x with
              | None => expire_futures now h' (deactivate w r)
              | Some st =>
                  expire_futures now h'
                    (wake_fiber (w_state x) st (Resume None (Some (Exc TimeoutError ""))) (deactivate w r))
              end
        | None => expire_futures now h' r
        end
      else set_future_deadlines h r
  end.

Definition process_deadlines (now : Z) (r : runtime) : runtime :=
  let r := expire_sleepers now (sleepers r) r in expire_futures now (future_deadlines r) r.

(** One waiter of the cancellation poll: kept or not. *)
Definition poll_waiter (f : fut) (acc : list nat * runtime) (w : nat) : list nat * runtime :=
  let '(keep, r) := acc in
  match waiters r !! w with
  | None => (keep, r)
  | Some x =>
      if negb (w_active x) then (keep, r)
      else
        match current_wait r f x with
        | None => (keep, deactivate w r)
        | Some st =>
            let '(e, r) := call_check (w_check x) r in
            match e with
            | Some e => (keep, wake_fiber (w_state x) st (Resume None (Some e)) (deactivate w r))
            | None => (keep ++ [w], r)
            end
        end
  end.

Definition poll_future (r : runtime) (p : fut * list nat) : runtime :=
  let '(keep, r) := foldl (poll_waiter p.1) ([], r) p.2 in
  match keep with
  | [] => set_future_waiters (fw_pop p.1 (future_waiters r)) r
  | _ => set_future_waiters (fw_set p.1 keep (future_waiters r)) r
  end.

(** The sleepers' half of the poll; the survivors keep their order. *)
Fixpoint poll_sleepers (h : list (Z * nat * nat * nat * option chk))
    (rebuilt : list (Z * nat * nat * nat * option chk)) (r : runtime) : runtime :=
  match h with
  | [] => set_sleepers rebuilt r
  | (d, s, i, token, check) :: h' =>
      match states r !! i with
      | Some st =>
          if fs_done st || negb (wait_token st =? token)%nat then poll_sleepers h' rebuilt r
          else
            let '(e, r) := call_check check r in
            match e with
            | Some e => poll_sleepers h' rebuilt (append_ready i (Resume None (Some e)) r)
            | None => poll_sleepers h' (rebuilt ++ [(d, s, i, token, check)]) r
            end
      | None => poll_sleepers h' rebuilt r
      end
  end.

Definition poll_cancellation (r : runtime) : runtime :=
  let r := foldl poll_future r (future_waiters r) in poll_sleepers (sleepers r) [] r.

(** [_next_wait_timeout]: stale entries leave the top of the deadline heap. *)
Fixpoint prune_deadlines (now timeout : Z) (h : list (Z * nat * fut * nat)) (r : runtime) : Z * runtime :=
  match h with
  | [] => (timeout, set_future_deadlines [] r)
  | (d, _, f, w) :: h' =>
      let live := match waiters r !! w with
                  | Some x => w_active x && bool_decide (is_Some (current_wait r f x))
                  | None => false
                  end in
      if live then (Z.min timeout (Z.max 0 (d - now)), set_future_deadlines h r)
      else prune_deadlines now timeout h' r
  end.

Definition read_clock (r : runtime) : Z * runtime :=
  let '(t, w) := monotonic env (world r) in (t, set_world w r).

Definition next_wait_timeout (r : runtime) : Z * runtime :=
  let '(now, r) := read_clock r in
  let timeout := Z.max 0 (next_cancellation_poll r - now) in
  let timeout := match sleepers r with
                 | (d, _, _, _, _) :: _ => Z.min timeout (Z.max 0 (d - now))
                 | [] => timeout
                 end in
  prune_deadlines now timeout (future_deadlines r) r.

(** ** [run_source] *)

(** The wait loop of [_yield_to_state_writer]; every sleep moves the clock on by at
    least one tick, so the rounds below outlast the deadline. *)
Fixpoint yield_rounds (rounds : nat) (provider : W → bool * W) (deadline : Z) (w : W) : W :=
  match rounds with
  | O => w
  | S rounds =>
      let '(pressure, w) := provider w in
      if pressure then
        let '(now, w) := monotonic env w in
        if now <? deadline then yield_rounds rounds provider deadline (original_sleep env w) else w
      else w
  end.

Definition yield_to_state_writer (w : W) : W :=
  match admission_pressure_provider env with
  | None => w
  | Some provider =>
      let '(pressure, w) := provider w in
      if pressure then
        let '(now, w) := monotonic env w in
        yield_rounds (S (Z.to_nat (admission_pressure_wait cfg))) provider
          (now + admission_pressure_wait cfg) w
      else w
  end.

Definition yield_writer (r : runtime) : runtime := set_world (yield_to_state_writer (world r)) r.

(** [resume_ready]; [serviced] counts from the start of the call. *)
Fixpoint resume_ready_from (serviced max_states : nat) (r : runtime) : nat * runtime :=
  match max_states with
  | O => (serviced, r)
  | S max_states =>
      match ready r with
      | [] => (serviced, r)
      | (i, res) :: q =>
          let r := resume_state i res (set_ready q r) in
          let serviced := S serviced in
          let r := if (serviced mod state_writer_service_interval cfg =? 0)%nat then yield_writer r else r in
          resume_ready_from serviced max_states r
      end
  end.

Definition resume_ready (max_states : nat) (r : runtime) : runtime :=
  let '(serviced, r) := resume_ready_from 0 max_states r in
  if (serviced mod state_writer_service_interval cfg =? 0)%nat then r else yield_writer r.

(** Futures, deadlines, the cancellation timer, and a bounded number of fibers. *)
Definition service (r : runtime) : runtime :=
  let r := process_futures r in
  let '(now, r) := read_clock r in
  let r := process_deadlines now r in
  let r := if next_cancellation_poll r <=? now
           then set_next_poll (now + poll_interval cfg) (poll_cancellation r) else r in
  resume_ready (service_interval cfg) r.

(** The loop's variables: the runtime, the items of a plain iterable not yet taken
    ([None] for a refreshable source), and the preclaimed items given back. *)
Record loop_state := LoopState {
  rt : runtime;
  iterator : option (list item);
  source_exhausted : bool;
  next_index : nat;
  admission_burst : nat;
  abandoned : list item
}.

Definition with_rt r (s : loop_state) :=
  LoopState r (iterator s) (source_exhausted s) (next_index s) (admission_burst s) (abandoned s).
Definition with_burst n (s : loop_state) :=
  LoopState (rt s) (iterator s) (source_exhausted s) (next_index s) n (abandoned s).

(** [pull_items]. *)
Definition pull_items (capacity : nat) (s : loop_state) : list item * loop_state :=
  match capacity with
  | O => ([], s)
  | _ =>
      match iterator s with
      | None =>
          let '(xs, w) := pull env capacity (world (rt s)) in (xs, with_rt (set_world w (rt s)) s)
      | Some l =>
          if source_exhausted s then ([], s)
          else (take capacity l,
                LoopState (rt s) (Some (drop capacity l)) (bool_decide (length l < capacity)%nat)
                  (next_index s) (admission_burst s) (abandoned s))
      end
  end.

(** [abandon_unstarted]; what an item's own hook does stays outside. *)
Definition abandon_unstarted (xs : list item) (s : loop_state) : loop_state :=
  LoopState (rt s) (iterator s) (source_exhausted s) (next_index s) (admission_burst s) (abandoned s ++ xs).

(** Create, store and start the next fiber. *)
Definition start_fiber (x : item) (s : loop_state) : loop_state :=
  let i := next_index s in
  LoopState (resume_state i no_resume (new_state i x (rt s))) (iterator s) (source_exhausted s)
    (S i) (admission_burst s) (abandoned s).

Definition failed (s : loop_state) : bool := bool_decide (is_Some (first_error (rt s))).

(** The admission [for] loop, from position [position] on. *)
Fixpoint admit_items (position : nat) (xs : list item) (s : loop_state) : loop_state :=
  match xs with
  | [] => s
  | x :: xs =>
      let s := start_fiber x s in
      if failed s then abandon_unstarted xs s
      else if (S position mod service_interval cfg =? 0)%nat then
        let s := with_rt (service (rt s)) s in
        if failed s then abandon_unstarted xs s else admit_items (S position) xs s
      else admit_items (S position) xs s
  end.

(** The loop that restarts an idle refreshable pump. *)
Fixpoint admit_refill (xs : list item) (s : loop_state) : loop_state :=
  match xs with
  | [] => s
  | x :: xs =>
      let s := start_fiber x s in
      if failed s then abandon_unstarted xs s else admit_refill xs s
  end.

Definition MIN_ADMISSION_BURST : nat := 16.

Definition probe_burst : nat := Nat.min MIN_ADMISSION_BURST (max_admission_burst cfg).

(** How many items the admission phase asks for. *)
Definition requested_items (refreshable : bool) (limit active : Z) (burst : nat) : nat :=
  let capacity := Z.max 0 (limit - active) in
  let refill_floor := if refreshable && (64 <=? limit) then Z.min 32 (Z.max 1 (limit / 8)) else 1 in
  if (0 <? active) && (0 <? capacity) && (capacity <? refill_floor) then 0%nat
  else Nat.min (Z.to_nat capacity) burst.

Definition next_burst (requested added : nat) (limit active : Z) (burst : nat) : nat :=
  if (0 <? requested)%nat && (added =? requested)%nat && (active + Z.of_nat added <? limit) then
    Nat.min (max_admission_burst cfg) (Nat.max probe_burst (requested * 2))
  else if (added <? requested)%nat then probe_burst else burst.

Definition read_limit (s : loop_state) : Z * loop_state :=
  let '(limit, w) := limit_provider env (world (rt s)) in (limit, with_rt (set_world w (rt s)) s).

(** The admission phase: the limit it read, the number of items it pulled. *)
Definition admission (s : loop_state) : result (Z * nat * loop_state) :=
  let s := with_rt (yield_writer (rt s)) s in
  let active := active_count (rt s) in
  let '(limit, s) := read_limit s in
  check! negb (limit <? 0)
    orelse ValueError saying "runtime API lane concurrency must be an integer >= 0" in
  let requested := requested_items (bool_decide (iterator s = None)) limit active (admission_burst s) in
  let '(pulled, s) := pull_items requested s in
  let added := length pulled in
  let s := with_burst (next_burst requested added limit active (admission_burst s)) s in
  Ok (limit, added, admit_items 0 pulled s).

Inductive control := Continue | Break | RaiseFirst (e : exc).

Definition wait_event (s : loop_state) : loop_state :=
  let '(timeout, r) := next_wait_timeout (rt s) in
  with_rt (set_world (event_wait env timeout (world r)) r) s.

(** The idle refreshable pump: one more probe, then the source's own event. *)
Definition refill_idle (limit : Z) (s : loop_state) : control * loop_state :=
  let '(refill, s) := pull_items (Nat.min (Z.to_nat limit) probe_burst) s in
  match refill with
  | [] =>
      match wait_for_change env with
      | Some waiter =>
          let '(timeout, r) := next_wait_timeout (rt s) in
          let timeout := if timeout =? 0 then poll_interval cfg else timeout in
          let '(changed, w) := waiter timeout (world r) in
          ((if changed : bool then Continue else Break), with_rt (set_world w r) s)
      | None => (Break, s)
      end
  | _ => (Continue, admit_refill refill (with_burst probe_burst s))
  end.

(** The second half of a turn, after admission. *)
Definition settle (limit : Z) (added : nat) (s : loop_state) : control * loop_state :=
  let s := with_rt (resume_ready (service_interval cfg) (rt s)) s in
  let s := with_rt (service (rt s)) s in
  let active := active_count (rt s) in
  let rest s :=
    if negb (bool_decide (ready (rt s) = [])) then (Continue, s)
    else if (0 <? added)%nat && (active <? limit) then (Continue, s)
    else (Continue, wait_event s) in
  match first_error (rt s) with
  | Some e => if active =? 0 then (RaiseFirst e, s) else (Continue, wait_event s)
  | None =>
      if active =? 0 then
        if limit =? 0 then (Break, s)
        else
          match iterator s with
          | None => if (added =? 0)%nat then refill_idle limit s else rest s
          | Some _ => if source_exhausted s then (Break, s) else rest s
          end
      else rest s
  end.

(** One turn of [while True].  A failure stops admission only. *)
Definition turn (s : loop_state) : result (control * loop_state) :=
  let s := with_rt (service (rt s)) s in
  if failed s then Ok (settle 0 0 s)
  else let! a := admission s in Ok (settle a.1.1 a.1.2 a.2).

(** [[self._results[index] for index in sorted(self._results)]]. *)
Definition ordered_results (r : runtime) : list val :=
  omap (λ i, results r !! i) (py_sorted (elements (dom (results r)))).

Fixpoint run_loop (fuel : nat) (s : loop_state) : option (result (list val) * loop_state) :=
  match fuel with
  | O => None
  | S fuel =>
      match turn s with
      | Err e => Some (Err e, s)
      | Ok (Continue, s) => run_loop fuel s
      | Ok (Break, s) => Some (Ok (ordered_results (rt s)), s)
      | Ok (RaiseFirst e, s) => Some (Err e, s)
      end
  end.

Definition loop_init (now : Z) (items : option (list item)) (w : W) : loop_state :=
  LoopState (runtime_init cfg now w) items false 0 (start_burst cfg) [].

Definition run_source (fuel : nat) (now : Z) (items : option (list item)) (w : W) :=
  run_loop fuel (loop_init now items w).

End operations.

(** ** Invariants *)

Section invariant.
Context {val item : Type}.
Abbreviation fiber_state := (fiber_state item).

Definition sleeper_fiber (x : Z * nat * nat * nat * option chk) : nat := x.1.1.2.
Definition sleeper_token (x : Z * nat * nat * nat * option chk) : nat := x.1.2.

Definition live_fibers (sts : gmap nat fiber_state) : gmap nat fiber_state :=
  filter (λ p, fs_done p.2 = false) sts.

(** A waiter that will wake fiber [i], in state [st], on its future. *)
Definition wakes (ws : gmap nat waiter) (w i : nat) (st : fiber_state) : Prop :=
  ∃ x, ws !! w = Some x ∧ w_active x = true ∧ w_state x = i ∧ w_token x = wait_token st.

(** Where every fiber is: [P] lists the fibers that are queued, asleep or in the
    pump's hands; a live fiber is in [P] exactly when it is not parked on a future,
    and a parked fiber has an active waiter listed under its future.  [S] are the
    sleepers, [L f w] says that waiter [w] is listed under [f], [owner] names the
    future a waiter was created for, [h] is the deadline heap, [n] the count. *)
Record core (owner : gmap nat fut) (P : list nat) (S : list (Z * nat * nat * nat * option chk))
    (L : fut → nat → Prop) (sts : gmap nat fiber_state) (ws : gmap nat waiter)
    (h : list (Z * nat * fut * nat)) (n : Z) : Prop := {
  core_nodup : NoDup P;
  core_place i st : sts !! i = Some st → i ∈ P ↔ fs_done st = false ∧ pending_future st = None;
  core_done i st : sts !! i = Some st → fs_done st = true → pending_future st = None;
  core_dom i : i ∈ P → is_Some (sts !! i);
  core_token x st : x ∈ S → sts !! sleeper_fiber x = Some st → wait_token st = sleeper_token x;
  core_parked i st f : sts !! i = Some st → pending_future st = Some f → ∃ w, L f w ∧ wakes ws w i st;
  core_listed f w : L f w → owner !! w = Some f;
  core_heap d s f w : (d, s, f, w) ∈ h → owner !! w = Some f;
  core_owner w : is_Some (owner !! w) → is_Some (ws !! w);
  core_count : n = Z.of_nat (size (live_fibers sts))
}.

Lemma core_perm owner P P' S L sts ws h n :
  P ≡ₚ P' → core owner P S L sts ws h n → core owner P' S L sts ws h n.
Proof.
  intros HP [H1 H2 H3 H4 H5 H6 H7 H8 H9 H10]. split; try done; [by rewrite <- HP| |].
  - intros i st. rewrite <- HP. auto.
  - intros i. rewrite <- HP. auto.
Qed.

Lemma core_weaken owner P S S' L sts ws h h' n :
  S' ⊆ S → h' ⊆ h → core owner P S L sts ws h n → core owner P S' L sts ws h' n.
Proof. intros HS Hh [H1 H2 H3 H4 H5 H6 H7 H8 H9 H10]. split; eauto. Qed.

Lemma core_relist owner P S (L L' : fut → nat → Prop) sts ws h n :
  (∀ f w, L' f w → owner !! w = Some f) →
  (∀ i st f w, sts !! i = Some st → pending_future st = Some f → L f w → wakes ws w i st →
     ∃ w', L' f w' ∧ wakes ws w' i st) →
  core owner P S L sts ws h n → core owner P S L' sts ws h n.
Proof.
  intros HL Hp [H1 H2 H3 H4 H5 H6 H7 H8 H9 H10]. split; eauto.
  intros i st f Hi Hf. destruct (H6 i st f Hi Hf) as (w & ? & ?). eauto.
Qed.

(** Replacing one fiber's state by another live one keeps the count. *)
Lemma live_replace (sts : gmap nat fiber_state) i st st' :
  sts !! i = Some st → fs_done st = false → fs_done st' = false →
  size (live_fibers (<[i:=st']> sts)) = size (live_fibers sts).
Proof.
  intros Hi Hd Hd'. unfold live_fibers. rewrite map_filter_insert_True by done.
  rewrite map_size_insert_Some; [done|]. exists st. by apply map_lookup_filter_Some_2.
Qed.

Lemma live_finish (sts : gmap nat fiber_state) i st st' :
  sts !! i = Some st → fs_done st = false → fs_done st' = true →
  Z.of_nat (size (live_fibers (<[i:=st']> sts))) = Z.of_nat (size (live_fibers sts)) - 1.
Proof.
  intros Hi Hd Hd'. unfold live_fibers. rewrite map_filter_insert_False by (cbn; congruence).
  rewrite map_filter_delete.
  assert (filter (λ p : nat * fiber_state, fs_done p.2 = false) sts !! i = Some st) as Hl
    by by apply map_lookup_filter_Some_2.
  rewrite map_size_delete_Some by eauto.
  assert (size (filter (λ p : nat * fiber_state, fs_done p.2 = false) sts) ≠ 0%nat).
  { apply map_size_non_empty_iff. intros He. by rewrite He in Hl. }
  lia.
Qed.

Lemma live_new (sts : gmap nat fiber_state) i st' :
  sts !! i = None → fs_done st' = false →
  Z.of_nat (size (live_fibers (<[i:=st']> sts))) = Z.of_nat (size (live_fibers sts)) + 1.
Proof.
  intros Hi Hd'. unfold live_fibers. rewrite map_filter_insert_True by done.
  rewrite map_size_insert_None; [lia|]. apply map_lookup_filter_None. by left.
Qed.

(** A waiter is switched off: no parked fiber may rely on it. *)
Definition switch_off (w : nat) (ws : gmap nat waiter) : gmap nat waiter :=
  alter (λ x, Waiter (w_state x) (w_token x) (w_deadline x) (w_check x) false) w ws.

Lemma wakes_switch_off ws w w' i (st : fiber_state) :
  w' ≠ w → wakes ws w' i st → wakes (switch_off w ws) w' i st.
Proof. intros Hne (x & Hx & ?). exists x. unfold switch_off. by rewrite lookup_alter_ne. Qed.

Lemma core_switch_off owner P S L sts ws h n w :
  core owner P S L sts ws h n →
  (∀ i st f, sts !! i = Some st → pending_future st = Some f → owner !! w = Some f →
     ¬ wakes ws w i st) →
  core owner P S L sts (switch_off w ws) h n.
Proof.
  intros [H1 H2 H3 H4 H5 H6 H7 H8 H9 H10] Hno. split; eauto.
  - intros i st f Hi Hf. destruct (H6 i st f Hi Hf) as (w' & HL & Hw).
    destruct (decide (w' = w)) as [->|Hne].
    + exfalso. eapply Hno; eauto.
    + exists w'. split; [done|]. by apply wakes_switch_off.
  - intros w' Hw'. unfold switch_off. apply lookup_alter_is_Some. auto.
Qed.

(** A parked fiber is taken off its future and put in the pump's hands. *)
Lemma core_wake owner P S L sts ws h n i st f :
  core owner P S L sts ws h n → sts !! i = Some st → pending_future st = Some f →
  core owner (i :: P) S L (<[i:=with_pending None st]> sts) ws h n.
Proof.
  intros [H1 H2 H3 H4 H5 H6 H7 H8 H9 H10] Hi Hf.
  assert (fs_done st = false) as Hd
    by (destruct (fs_done st) eqn:E; [|done]; rewrite (H3 i st Hi E) in Hf; done).
  assert (i ∉ P) as HiP by (intros Hin; apply (H2 i st Hi) in Hin as [_ ?]; congruence).
  split; try done.
  - by constructor.
  - intros j st'. destruct (decide (j = i)) as [->|Hne].
    + rewrite lookup_insert_eq. intros [= <-]. cbn. split; [done|]. intros _. left.
    + rewrite lookup_insert_ne by done. intros Hj. rewrite elem_of_cons, (H2 j st' Hj). naive_solver.
  - intros j st'. destruct (decide (j = i)) as [->|Hne]; [by rewrite lookup_insert_eq; intros [= <-]|].
    rewrite lookup_insert_ne by done. apply H3.
  - intros j [->|Hj]%elem_of_cons; [rewrite lookup_insert_eq; eauto|].
    apply lookup_insert_is_Some'. right. auto.
  - intros x st' Hx. destruct (decide (sleeper_fiber x = i)) as [Heq|Hne].
    + rewrite Heq, lookup_insert_eq. intros [= <-]. cbn. apply (H5 x st); [done|by rewrite Heq].
    + rewrite lookup_insert_ne by done. auto.
  - intros j st' f'. destruct (decide (j = i)) as [->|Hne]; [by rewrite lookup_insert_eq; intros [= <-]|].
    rewrite lookup_insert_ne by done. apply H6.
  - by rewrite (live_replace sts i st).
Qed.

(** The fiber in hand finishes. *)
Lemma core_finish owner P S L sts ws h n i st st' :
  core owner (i :: P) S L sts ws h n → sts !! i = Some st →
  fs_done st' = true → pending_future st' = None → i ∉ sleeper_fiber <$> S →
  core owner P S L (<[i:=st']> sts) ws h (n - 1).
Proof.
  intros [H1 H2 H3 H4 H5 H6 H7 H8 H9 H10] Hi Hd Hp HiS. apply NoDup_cons in H1 as [HiP H1].
  destruct (proj1 (H2 i st Hi)) as [Hd0 Hp0]; [left|].
  split; try done.
  - intros j st''. destruct (decide (j = i)) as [->|Hne].
    + rewrite lookup_insert_eq. intros [= <-]. split; [done|]. intros [? _]. congruence.
    + rewrite lookup_insert_ne by done. intros Hj. rewrite <- (H2 j st'' Hj), elem_of_cons. naive_solver.
  - intros j st''. destruct (decide (j = i)) as [->|Hne]; [by rewrite lookup_insert_eq; intros [= <-]|].
    rewrite lookup_insert_ne by done. apply H3.
  - intros j Hj. apply lookup_insert_is_Some'. right. apply H4. by right.
  - intros x st'' Hx. rewrite lookup_insert_ne; [by auto|]. intros ->. apply HiS.
    apply list_elem_of_fmap. eauto.
  - intros j st'' f'. destruct (decide (j = i)) as [->|Hne].
    + rewrite lookup_insert_eq. intros [= <-]. congruence.
    + rewrite lookup_insert_ne by done. apply H6.
  - by rewrite (live_finish sts i st), H10.
Qed.

(** A new fiber, in hand. *)
Lemma core_new owner P S L sts ws h n i st' :
  core owner P S L sts ws h n → sts !! i = None → fs_done st' = false → pending_future st' = None →
  (∀ x, x ∈ S → is_Some (sts !! sleeper_fiber x)) →
  core owner (i :: P) S L (<[i:=st']> sts) ws h (n + 1).
Proof.
  intros [H1 H2 H3 H4 H5 H6 H7 H8 H9 H10] Hi Hd Hp HS.
  split; try done.
  - constructor; [|done]. intros [? ?]%H4. congruence.
  - intros j st''. destruct (decide (j = i)) as [->|Hne].
    + rewrite lookup_insert_eq. intros [= <-]. split; [done|]. intros _. left.
    + rewrite lookup_insert_ne by done. intros Hj. rewrite elem_of_cons, (H2 j st'' Hj). naive_solver.
  - intros j st''. destruct (decide (j = i)) as [->|Hne]; [by rewrite lookup_insert_eq; intros [= <-]|].
    rewrite lookup_insert_ne by done. apply H3.
  - intros j [->|Hj]%elem_of_cons; [rewrite lookup_insert_eq; eauto|].
    apply lookup_insert_is_Some'. right. auto.
  - intros x st'' Hx. rewrite lookup_insert_ne; [by auto|]. intros ->. apply HS in Hx as [? ?]. congruence.
  - intros j st'' f'. destruct (decide (j = i)) as [->|Hne].
    + rewrite lookup_insert_eq. intros [= <-]. congruence.
    + rewrite lookup_insert_ne by done. apply H6.
  - by rewrite live_new, H10.
Qed.

(** The fiber in hand falls asleep: it stays in [P], as a sleeper. *)
Lemma core_sleep owner P S L sts ws h n i st st' x :
  core owner (i :: P) S L sts ws h n → sts !! i = Some st →
  fs_done st' = false → pending_future st' = None → i ∉ sleeper_fiber <$> S →
  sleeper_fiber x = i → sleeper_token x = wait_token st' →
  core owner (i :: P) (x :: S) L (<[i:=st']> sts) ws h n.
Proof.
  intros [H1 H2 H3 H4 H5 H6 H7 H8 H9 H10] Hi Hd Hp HiS Hx Ht.
  destruct (proj1 (H2 i st Hi)) as [Hd0 Hp0]; [left|].
  split; try done.
  - intros j st''. destruct (decide (j = i)) as [->|Hne].
    + rewrite lookup_insert_eq. intros [= <-]. split; [done|]. intros _. left.
    + rewrite lookup_insert_ne by done. apply H2.
  - intros j st''. destruct (decide (j = i)) as [->|Hne]; [by rewrite lookup_insert_eq; intros [= <-]|].
    rewrite lookup_insert_ne by done. apply H3.
  - intros j Hj. apply lookup_insert_is_Some'. right. by apply H4.
  - intros y st'' [->|Hy]%elem_of_cons.
    + rewrite Hx, lookup_insert_eq. by intros [= <-].
    + rewrite lookup_insert_ne; [by auto|]. intros ->. apply HiS. apply list_elem_of_fmap. eauto.
  - intros j st'' f'. destruct (decide (j = i)) as [->|Hne].
    + rewrite lookup_insert_eq. intros [= <-]. congruence.
    + rewrite lookup_insert_ne by done. apply H6.
  - by rewrite (live_replace sts i st).
Qed.

(** The fiber in hand parks on future [f] through the new waiter [w]. *)
Lemma core_park owner P S L sts ws h n i st st' f w x h' :
  core owner (i :: P) S L sts ws h n → sts !! i = Some st →
  fs_done st' = false → pending_future st' = Some f → i ∉ sleeper_fiber <$> S →
  ws !! w = None → w_state x = i → w_token x = wait_token st' → w_active x = true →
  (∀ d s f' w', (d, s, f', w') ∈ h' → (d, s, f', w') ∈ h ∨ (f' = f ∧ w' = w)) →
  core (<[w:=f]> owner) P S (λ f' w', L f' w' ∨ (f' = f ∧ w' = w)) (<[i:=st']> sts) (<[w:=x]> ws) h' n.
Proof.
  intros [H1 H2 H3 H4 H5 H6 H7 H8 H9 H10] Hi Hd Hp HiS Hw Hxi Hxt Hxa Hh.
  apply NoDup_cons in H1 as [HiP H1]. destruct (proj1 (H2 i st Hi)) as [Hd0 Hp0]; [left|].
  assert (owner !! w = None) as Hown.
  { destruct (owner !! w) eqn:E; [|done]. destruct (H9 w) as [? ?]; [eauto|congruence]. }
  assert (∀ w' j (s : fiber_state), wakes ws w' j s → wakes (<[w:=x]> ws) w' j s) as Hmono.
  { intros w' j s (y & Hy & ?). exists y. rewrite lookup_insert_ne by congruence. done. }
  split; try done.
  - intros j st''. destruct (decide (j = i)) as [->|Hne].
    + rewrite lookup_insert_eq. intros [= <-]. split; [done|]. intros [_ ?]. congruence.
    + rewrite lookup_insert_ne by done. intros Hj. rewrite <- (H2 j st'' Hj), elem_of_cons. naive_solver.
  - intros j st''. destruct (decide (j = i)) as [->|Hne].
    + rewrite lookup_insert_eq. intros [= <-]. congruence.
    + rewrite lookup_insert_ne by done. apply H3.
  - intros j Hj. apply lookup_insert_is_Some'. right. apply H4. by right.
  - intros y st'' Hy. rewrite lookup_insert_ne; [by auto|]. intros ->. apply HiS.
    apply list_elem_of_fmap. eauto.
  - intros j st'' f'. destruct (decide (j = i)) as [->|Hne].
    + rewrite lookup_insert_eq. intros [= <-] Hf'. exists w. split; [right; split; [congruence|done]|].
      exists x. by rewrite lookup_insert_eq.
    + rewrite lookup_insert_ne by done. intros Hj Hf'.
      destruct (H6 j st'' f' Hj Hf') as (w' & HL & Hw'). eauto.
  - intros f' w' [HL|[-> ->]]; [|apply lookup_insert_eq].
    apply H7 in HL. rewrite lookup_insert_ne by congruence. done.
  - intros d s f' w' [Hin|[-> ->]]%Hh; [|apply lookup_insert_eq].
    apply H8 in Hin. rewrite lookup_insert_ne by congruence. done.
  - intros w'. rewrite !lookup_insert_is_Some'. intros [->|Hw']; [by left|right; auto].
  - by rewrite (live_replace sts i st).
Qed.

End invariant.

(** ** The operations preserve the invariants *)

Section preservation.
Context {val item W : Type} (env : surroundings val item W) (cfg : settings).
Abbreviation runtime := (runtime val item W).
Abbreviation loop_state := (@loop_state val item W).
Implicit Types (r : runtime) (fw : list (fut * list nat)).

(** [L f w] for the waiter table as stored. *)
Definition listed (fw : list (fut * list nat)) (f : fut) (w : nat) : Prop :=
  ∃ ws, (f, ws) ∈ fw ∧ w ∈ ws.

(** Results belong to finished fibers; a fiber that finished without one failed. *)
Definition bookkeeping r : Prop :=
  (∀ i, is_Some (results r !! i) → ∃ st, states r !! i = Some st ∧ fs_done st = true) ∧
  (∀ i st, states r !! i = Some st → fs_done st = true → is_Some (results r !! i) ∨ is_Some (first_error r)).

(** The runtime in the middle of an operation: [X] are the fibers in hand, [S] the
    sleepers not yet examined, [L] the waiters still to be considered; [D] are the
    fibers ever created and [B] bounds the active ones. *)
Definition flight (D : gset nat) (B : Z) (X : list nat) (S : list (Z * nat * nat * nat * option chk))
    (L : fut → nat → Prop) r : Prop :=
  (∃ owner, core owner (X ++ (ready r).*1 ++ (sleeper_fiber <$> S)) S L
     (states r) (waiters r) (future_deadlines r) (active_count r)) ∧
  bookkeeping r ∧ dom (states r) = D ∧ active_count r ≤ B.

(** Every future somebody waits on will call back, or already has and is queued. *)
Definition signals (Q : list fut) r : Prop :=
  NoDup (future_waiters r).*1 ∧
  (∀ f, f ∈ (future_waiters r).*1 → (outcomes r !! f = None ∧ f ∈ callbacks r) ∨ f ∈ Q) ∧
  (∀ f, f ∈ Q → is_Some (outcomes r !! f)) ∧
  (∀ f, f ∈ callbacks r → outcomes r !! f = None).

Definition wf D B X r : Prop :=
  flight D B X (sleepers r) (listed (future_waiters r)) r ∧ signals (completed_futures r) r.

(** Parts no completion touches. *)
Definition view r :=
  (states r, waiters r, future_waiters r, future_deadlines r, sleepers r, serial r, ready r,
   active_count r, results r, first_error r, next_cancellation_poll r).

Lemma flight_view D B X S L r r' : view r' = view r → flight D B X S L r → flight D B X S L r'.
Proof.
  unfold flight, bookkeeping, view. intros Hv. injection Hv as E1 E2 E3 E4 E5 E6 E7 E8 E9 E10 E11.
  by rewrite E1, E2, E4, E7, E8, E9, E10.
Qed.

Lemma view_fields r r' :
  view r' = view r → sleepers r' = sleepers r ∧ future_waiters r' = future_waiters r ∧
  future_deadlines r' = future_deadlines r ∧ ready r' = ready r ∧ first_error r' = first_error r ∧
  states r' = states r ∧ active_count r' = active_count r ∧ waiters r' = waiters r.
Proof. unfold view. intros Hv. injection Hv. by intros. Qed.

Lemma future_completed_view f r : view (future_completed f r) = view r.
Proof. done. Qed.

Lemma foldl_completed_view l r : view (foldl (λ r f, future_completed f r) r l) = view r.
Proof. revert r. induction l as [|f l IH]; intros r; cbn; [done|]. by rewrite IH. Qed.

Lemma complete_view c r : view (complete c r) = view r.
Proof. unfold complete. destruct (outcomes r !! c.1); [done|]. by rewrite foldl_completed_view. Qed.

Lemma arrivals_view r : view (arrivals env r) = view r.
Proof.
  unfold arrivals. destruct (other_threads env (world r)) as [cs w].
  assert (∀ cs r, view (foldl (λ r c, complete c r) r cs) = view r) as H; [|by rewrite H].
  clear. induction cs as [|c cs IH]; intros r; cbn; [done|]. by rewrite IH, complete_view.
Qed.

Lemma add_done_callback_view f r : view (add_done_callback f r) = view r.
Proof. unfold add_done_callback. by destruct (outcomes r !! f). Qed.

(** Completions keep the signals. *)
Lemma foldl_completed_fields l r :
  let r' := foldl (λ r f, future_completed f r) r l in
  completed_futures r' = completed_futures r ++ l ∧ callbacks r' = callbacks r ∧
  outcomes r' = outcomes r ∧ (wake_event r' = wake_event r ∨ wake_event r' = true) ∧
  (l ≠ [] → wake_event r' = true).
Proof.
  revert r. induction l as [|f l IH]; intros r; cbn.
  { rewrite app_nil_r. split_and!; auto; done. }
  destruct (IH (future_completed f r)) as (-> & -> & -> & Hw & _). cbn. rewrite <- app_assoc.
  split_and!; try done; intros; destruct Hw; auto.
Qed.

Lemma signals_complete Q c r :
  signals (Q ++ completed_futures r) r → signals (Q ++ completed_futures (complete c r)) (complete c r).
Proof.
  pose proof (view_fields _ _ (complete_view c r)) as (_ & Hfw & _).
  unfold signals. rewrite Hfw. unfold complete. destruct (outcomes r !! c.1) eqn:Ho; [done|]. cbv zeta.
  set (fired := filter _ (callbacks r)). set (r1 := set_callbacks _ _).
  pose proof (foldl_completed_fields fired r1) as (-> & -> & -> & _). unfold r1, fired. cbn.
  intros (Hnd & Hkey & Hq & Hcb). split_and!; [done| | |].
  - intros f Hf. destruct (decide (f = c.1)) as [->|Hne].
    + right. rewrite !elem_of_app. destruct (Hkey _ Hf) as [[_ Hin]|[?|?]%elem_of_app]; auto.
      right. right. apply list_elem_of_filter. auto.
    + rewrite lookup_insert_ne by done. destruct (Hkey _ Hf) as [[? Hin]|[?|?]%elem_of_app].
      * left. split; [done|]. by apply list_elem_of_filter.
      * right. rewrite !elem_of_app. auto.
      * right. rewrite !elem_of_app. auto.
  - intros f. rewrite lookup_insert_is_Some', !elem_of_app. intros [Hf|[Hf|Hf]].
    + right. apply Hq. rewrite elem_of_app. auto.
    + right. apply Hq. rewrite elem_of_app. auto.
    + apply list_elem_of_filter in Hf as [-> _]. by left.
  - intros f [Hne Hf]%list_elem_of_filter. rewrite lookup_insert_ne by done. auto.
Qed.

Lemma signals_arrivals Q r :
  signals (Q ++ completed_futures r) r → signals (Q ++ completed_futures (arrivals env r)) (arrivals env r).
Proof.
  unfold arrivals. destruct (other_threads env (world r)) as [cs w]. intros H.
  assert (signals (Q ++ completed_futures (set_world w r)) (set_world w r)) as H' by exact H.
  revert H'. generalize (set_world w r). clear H. induction cs as [|c cs IH]; intros r' H; cbn; [done|].
  by apply IH, signals_complete.
Qed.

(** A new key is registered before anybody waits under it. *)
Lemma signals_new_key f r :
  fw_lookup f (future_waiters r) = None → signals (completed_futures r) r →
  let r' := add_done_callback f (set_future_waiters (future_waiters r ++ [(f, [])]) r) in
  signals (completed_futures r') r'.
Proof.
  intros Hnone (Hnd & Hkey & Hq & Hcb). cbn.
  assert (f ∉ (future_waiters r).*1) as Hf.
  { intros [[f' ws] [Heq Hin]]%list_elem_of_fmap. cbn in Heq. subst f'. unfold fw_lookup in Hnone.
    apply fmap_None, head_None in Hnone.
    assert ((f, ws) ∈ @nil (fut * list nat)) as Hx by (rewrite <- Hnone; by apply list_elem_of_filter).
    by apply elem_of_nil in Hx. }
  assert (NoDup (future_waiters r ++ [(f, [])]).*1) as Hnd'.
  { rewrite fmap_app. apply NoDup_app. split_and!; [done| |cbn; constructor; [set_solver|constructor]].
    intros x Hx Hx'. cbn in Hx'. apply list_elem_of_singleton in Hx' as ->. done. }
  unfold add_done_callback. cbn. destruct (outcomes r !! f) eqn:Ho; cbn; unfold signals; cbn.
  - split_and!; [done| | |done].
    + intros g. rewrite fmap_app, elem_of_app. cbn. rewrite list_elem_of_singleton, elem_of_app.
      intros [Hg| ->]; [destruct (Hkey g Hg); auto|]. right. right. left.
    + intros g. rewrite elem_of_app, list_elem_of_singleton. intros [Hg| ->]; eauto.
  - split_and!; [done| |done|].
    + intros g. rewrite fmap_app, elem_of_app. cbn. rewrite list_elem_of_singleton, elem_of_cons.
      intros [Hg| ->]; [destruct (Hkey g Hg) as [[? ?]|?]; auto|]. auto.
    + intros g [->|Hg]%elem_of_cons; auto.
Qed.


(** *** Waiter tables and heaps *)

Lemma push_sleeper_perm x h : push_sleeper x h ≡ₚ x :: h.
Proof.
  induction h as [|y h IH]; cbn; [done|]. destruct (entry_before _ _ _ _); [done|].
  rewrite IH. apply perm_swap.
Qed.

Lemma push_deadline_perm x h : push_deadline x h ≡ₚ x :: h.
Proof.
  induction h as [|y h IH]; cbn; [done|]. destruct (entry_before _ _ _ _); [done|].
  rewrite IH. apply perm_swap.
Qed.

Lemma fw_append_keys f w fw : (fw_append f w fw).*1 = fw.*1.
Proof. unfold fw_append. rewrite <- list_fmap_compose. apply list_fmap_ext. intros i p _. cbn. by case_decide. Qed.

Lemma fw_set_keys f ws fw : (fw_set f ws fw).*1 = fw.*1.
Proof. unfold fw_set. rewrite <- list_fmap_compose. apply list_fmap_ext. intros i p _. cbn. by case_decide. Qed.

Lemma fw_lookup_Some f ws fw : fw_lookup f fw = Some ws → (f, ws) ∈ fw.
Proof.
  unfold fw_lookup. intros H. apply fmap_Some in H as ([f' ws'] & Hh & ->).
  apply head_Some_elem_of, list_elem_of_filter in Hh as [Heq Hin]. cbn in *. by subst.
Qed.

Lemma fw_lookup_None f fw ws : fw_lookup f fw = None → (f, ws) ∉ fw.
Proof.
  unfold fw_lookup. intros Hn Hin. apply fmap_None, head_None in Hn.
  assert ((f, ws) ∈ @nil (fut * list nat)) as Hx by (rewrite <- Hn; by apply list_elem_of_filter).
  by apply elem_of_nil in Hx.
Qed.

Lemma fw_unique f ws ws' fw : NoDup fw.*1 → (f, ws) ∈ fw → (f, ws') ∈ fw → ws = ws'.
Proof.
  intros Hnd H1 H2. apply list_elem_of_lookup in H1 as [i Hi], H2 as [j Hj].
  assert (i = j) as ->; [|congruence].
  apply (NoDup_lookup fw.*1 i j f Hnd); rewrite list_lookup_fmap; [by rewrite Hi|by rewrite Hj].
Qed.

Lemma listed_append f w fw f' w' :
  is_Some (fw_lookup f fw) → listed (fw_append f w fw) f' w' ↔ listed fw f' w' ∨ (f' = f ∧ w' = w).
Proof.
  intros [ws0 Hws0%fw_lookup_Some]. unfold listed, fw_append. setoid_rewrite list_elem_of_fmap. split.
  - intros (ws & ([g us] & Heq & Hin) & Hw). cbn in Heq. case_decide as Hg; cbn in *; simplify_eq.
    + apply elem_of_app in Hw as [Hw| ->%list_elem_of_singleton]; eauto.
    + eauto.
  - intros [(ws & Hin & Hw)|[-> ->]].
    + destruct (decide (f' = f)) as [->|Hne].
      * exists (ws ++ [w]). split; [exists (f, ws); cbn; rewrite decide_True by done; done|].
        rewrite elem_of_app. auto.
      * exists ws. split; [exists (f', ws); cbn; rewrite decide_False by done; done|done].
    + exists (ws0 ++ [w]). split; [exists (f, ws0); cbn; rewrite decide_True by done; done|].
      rewrite elem_of_app. right. by apply list_elem_of_singleton.
Qed.

Lemma listed_new_key f fw f' w' : listed (fw ++ [(f, [])]) f' w' ↔ listed fw f' w'.
Proof.
  unfold listed. split; intros (ws & Hin & Hw); exists ws; (split; [|done]).
  - apply elem_of_app in Hin as [?|Hin%list_elem_of_singleton]; [done|]. simplify_eq. set_solver.
  - apply elem_of_app. auto.
Qed.

Lemma listed_split f ws fw f' w' :
  NoDup fw.*1 → fw_lookup f fw = Some ws →
  listed fw f' w' ↔ listed (fw_pop f fw) f' w' ∨ (f' = f ∧ w' ∈ ws).
Proof.
  intros Hnd Hws%fw_lookup_Some. unfold listed, fw_pop. setoid_rewrite list_elem_of_filter. cbn. split.
  - intros (us & Hin & Hw). destruct (decide (f' = f)) as [->|Hne]; [|eauto].
    right. split; [done|]. by rewrite (fw_unique f ws us fw).
  - intros [(us & [_ Hin] & Hw)|[-> Hw]]; eauto.
Qed.

Lemma fw_pop_keys f fw g : g ∈ (fw_pop f fw).*1 ↔ g ≠ f ∧ g ∈ fw.*1.
Proof.
  unfold fw_pop. rewrite !list_elem_of_fmap. setoid_rewrite list_elem_of_filter. split.
  - intros ([h ws] & -> & [? ?]). cbn in *. split; [done|]. by exists (h, ws).
  - intros (Hne & [h ws] & -> & ?). by exists (h, ws).
Qed.

Lemma fw_pop_nodup f fw : NoDup fw.*1 → NoDup (fw_pop f fw).*1.
Proof.
  unfold fw_pop. induction fw as [|[g ws] fw IH]; [done|]. rewrite fmap_cons. intros [Hg Hnd]%NoDup_cons.
  rewrite filter_cons. case_decide; cbn; [|auto]. constructor; [|auto].
  intros Hin. apply Hg. by apply fw_pop_keys in Hin as [_ ?].
Qed.

Lemma fw_lookup_append_key f fw : fw_lookup f fw = None → is_Some (fw_lookup f (fw ++ [(f, [])])).
Proof.
  unfold fw_lookup. intros Hn. apply fmap_None, head_None in Hn.
  rewrite filter_app, Hn, filter_cons, decide_True by done. cbn. eauto.
Qed.

(** *** Starting, finishing and suspending fibers *)

Lemma flight_hand D B X S L r i :
  flight D B (i :: X) S L r →
  ∃ st, states r !! i = Some st ∧ fs_done st = false ∧ pending_future st = None ∧ i ∉ sleeper_fiber <$> S.
Proof.
  intros [(owner & Hc) _]. destruct (core_dom _ _ _ _ _ _ _ _ Hc i) as [st Hst]; [left|].
  exists st. destruct (proj1 (core_place _ _ _ _ _ _ _ _ Hc i st Hst)) as [? ?]; [left|].
  split_and!; try done. pose proof (core_nodup _ _ _ _ _ _ _ _ Hc) as [Hn _]%NoDup_cons.
  rewrite !elem_of_app in Hn. tauto.
Qed.

Lemma bookkeeping_live r i st st' :
  bookkeeping r → states r !! i = Some st → fs_done st = false → fs_done st' = false →
  bookkeeping (set_state i st' r).
Proof.
  intros [H1 H2] Hi Hd Hd'. split; cbn.
  - intros j Hj. destruct (H1 j Hj) as (sj & Hsj & Hdj).
    assert (j ≠ i) by congruence. exists sj. by rewrite lookup_insert_ne.
  - intros j sj. destruct (decide (j = i)) as [->|Hne].
    + rewrite lookup_insert_eq. intros [= <-]. congruence.
    + rewrite lookup_insert_ne by done. apply H2.
Qed.

Lemma dom_set_state i st (st' : fiber_state item) r :
  states r !! i = Some st → dom (<[i:=st']> (states r)) = dom (states r).
Proof. intros Hi. apply dom_insert_lookup_L. eauto. Qed.

(** The fiber in hand ends, with a result or with an error. *)
Lemma flight_finish D B X S L r i st st' :
  flight D B (i :: X) S L r → states r !! i = Some st →
  fs_done st' = true → pending_future st' = None →
  let r1 := set_active_count (active_count r - 1) (set_state i st' r) in
  (∀ v, flight D B X S L (set_results (<[i:=v]> (results r)) r1)) ∧
  ∀ e, flight D B X S L (or_error e r1).
Proof.
  intros Hf Hi Hd Hp. destruct (flight_hand _ _ _ _ _ _ _ Hf) as (st0 & Hi0 & Hd0 & _ & HiS).
  simplify_eq. destruct Hf as ((owner & Hc) & [Hb1 Hb2] & HD & HB). split.
  - intros v. split; [|split; [split; cbn|cbn; rewrite (dom_set_state i st) by done; split; [done|lia]]].
    + exists owner. cbn. eapply core_finish; eauto.
    + intros j. destruct (decide (j = i)) as [->|Hne].
      * intros _. exists st'. by rewrite lookup_insert_eq.
      * rewrite !lookup_insert_ne by done. auto.
    + intros j sj. destruct (decide (j = i)) as [->|Hne].
      * intros _ _. rewrite lookup_insert_eq. eauto.
      * rewrite !lookup_insert_ne by done. apply Hb2.
  - intros e. split; [|split; [split; cbn|cbn; rewrite (dom_set_state i st) by done; split; [done|lia]]].
    + exists owner. cbn. eapply core_finish; eauto.
    + intros j Hj. destruct (Hb1 j Hj) as (sj & Hsj & Hdj). assert (j ≠ i) by congruence.
      exists sj. by rewrite lookup_insert_ne.
    + intros j sj _ _. right. eauto.
Qed.

Lemma hand_to_sleepers (i : nat) X R S : (i :: X) ++ R ++ S ≡ₚ X ++ R ++ i :: S.
Proof. by rewrite (app_assoc X R (i :: S)), <- Permutation_middle, <- app_assoc. Qed.

Lemma wf_park_sleep D B X r i st st' deadline check :
  wf D B (i :: X) r → states r !! i = Some st → fs_done st' = false → pending_future st' = None →
  wf D B X (park_sleep i st' deadline check r).
Proof.
  intros [Hf Hs] Hi Hd Hp. split; [|done].
  destruct (flight_hand _ _ _ _ _ _ _ Hf) as (st0 & Hi0 & Hd0 & _ & HiS). simplify_eq.
  destruct Hf as ((owner & Hc) & Hb & HD & HB). unfold flight, park_sleep. cbn.
  split; [|split; [by eapply bookkeeping_live; eauto|rewrite (dom_set_state i st) by done; done]].
  exists owner. set (x := (deadline, Datatypes.S (serial r), i, wait_token st', check)).
  eapply core_perm; [|eapply core_weaken; [|done|]].
  3: { eapply (core_sleep _ _ _ _ _ _ _ _ i st st' x); eauto. }
  - rewrite push_sleeper_perm, fmap_cons. apply hand_to_sleepers.
  - intros y. by rewrite push_sleeper_perm.
Qed.

Lemma flight_relabel D B X S L L' r :
  (∀ f w, L f w ↔ L' f w) → flight D B X S L r → flight D B X S L' r.
Proof.
  intros HL ((owner & Hc) & H). split; [|done]. exists owner. eapply core_relist; [| |exact Hc].
  - intros f w Hw. eapply core_listed; [exact Hc|]. by apply HL.
  - intros i st f w _ _ Hw Hwk. exists w. split; [by apply HL|done].
Qed.

Lemma signals_same_keys Q r fw : fw.*1 = (future_waiters r).*1 → signals Q r → signals Q (set_future_waiters fw r).
Proof. unfold signals. cbn [future_waiters set_future_waiters]. by intros ->. Qed.

(** The rest of parking once the future has a waiter list. *)
Lemma wf_park_listed D B X r r0 i st st' f deadline check :
  wf D B (i :: X) r → states r !! i = Some st → fs_done st' = false →
  view r0 = view (set_state i (with_pending (Some f) st') (set_future_waiters (future_waiters r0) r)) →
  (∀ f w, listed (future_waiters r0) f w ↔ listed (future_waiters r) f w) →
  is_Some (fw_lookup f (future_waiters r0)) → signals (completed_futures r0) r0 →
  let w := fresh (dom (waiters r0)) in
  let r1 := set_waiters (<[w := Waiter i (wait_token st') deadline check true]> (waiters r0)) r0 in
  let r2 := set_future_waiters (fw_append f w (future_waiters r1)) r1 in
  wf D B X (match deadline with
            | Some d => let r := set_serial (Datatypes.S (serial r2)) r2 in
                        set_future_deadlines (push_deadline (d, serial r, f, w) (future_deadlines r)) r
            | None => r2
            end).
Proof.
  intros [Hf _] Hi Hd Hv HL Hkey Hsig. cbn zeta. unfold view in Hv.
  injection Hv as E1 E2 E4 E5 E6 E7 E8 E9 E10 E11. set (w := fresh _).
  destruct (flight_hand _ _ _ _ _ _ _ Hf) as (st0 & Hi0 & Hd0 & _ & HiS). simplify_eq.
  destruct Hf as ((owner & Hc) & Hb & HD & HB).
  assert (waiters r0 !! w = None) as Hw.
  { apply not_elem_of_dom. apply is_fresh. }
  split.
  2: { destruct deadline; exact (signals_same_keys _ _ _ (fw_append_keys f w _) Hsig). }
  pose proof (core_park _ _ _ _ _ _ _ _ i st (with_pending (Some f) st') f w
    (Waiter i (wait_token st') deadline check true)
    (match deadline with Some d => push_deadline (d, Datatypes.S (serial r0), f, w) (future_deadlines r) | None => future_deadlines r end)
    Hc Hi Hd eq_refl HiS ltac:(by rewrite <- E2) eq_refl eq_refl eq_refl) as Hpark.
  assert (bookkeeping (set_state i (with_pending (Some f) st') r)) as Hb'
    by (eapply bookkeeping_live; eauto).
  assert (flight D B X (sleepers r) (λ f' w', listed (future_waiters r) f' w' ∨ f' = f ∧ w' = w)
    (match deadline with
     | Some d => set_future_deadlines (push_deadline (d, Datatypes.S (serial r0), f, w) (future_deadlines r0))
     | None => id end
     (set_waiters (<[w:=Waiter i (wait_token st') deadline check true]> (waiters r0)) r0))) as Hfin.
  { unfold flight, bookkeeping in *. destruct deadline; cbn; rewrite E1, E2, ?E4, E7, E8, E9, ?E10; cbn;
      (split; [|rewrite (dom_set_state i st) by done; done]); eexists; apply Hpark.
    - intros d s f' w' Hin. rewrite push_deadline_perm in Hin. apply elem_of_cons in Hin as [Hin|?]; [|by left].
      injection Hin as -> -> -> ->. by right.
    - by left. }
  destruct deadline; cbn in *; rewrite E5; (eapply flight_relabel; [|exact Hfin]); intros f' w';
    change (listed (future_waiters r) f' w' ∨ f' = f ∧ w' = w
            ↔ listed (fw_append f w (future_waiters r0)) f' w'); by rewrite listed_append, HL.
Qed.

Lemma wf_park_future D B X r i st st' f deadline check :
  wf D B (i :: X) r → states r !! i = Some st → fs_done st' = false →
  wf D B X (park_future i st' f deadline check r).
Proof.
  intros Hwf Hi Hd. unfold park_future.
  destruct (fw_lookup f (future_waiters (set_state i (with_pending (Some f) st') r))) eqn:Hl.
  - eapply wf_park_listed; eauto; try done. by destruct Hwf as [_ ?].
  - cbn in Hl. set (r0 := add_done_callback f _).
    assert (view r0 = view (set_future_waiters (future_waiters r ++ [(f, [])])
      (set_state i (with_pending (Some f) st') r))) as Hv by apply add_done_callback_view.
    assert (future_waiters r0 = future_waiters r ++ [(f, [])]) as Hfw by (injection Hv; done).
    apply (wf_park_listed D B X r r0 i st); try done.
    + by rewrite Hfw.
    + intros f' w'. rewrite Hfw. apply listed_new_key.
    + rewrite Hfw. by apply fw_lookup_append_key.
    + apply (signals_new_key f (set_state i (with_pending (Some f) st') r)); [done|].
      by destruct Hwf as [_ ?].
Qed.

(** Resuming the fiber in hand puts it in its next place. *)
Lemma wf_resume_state D B X r i res : wf D B (i :: X) r → wf D B X (resume_state env i res r).
Proof.
  intros Hwf. pose proof Hwf as [Hf Hs].
  destruct (flight_hand _ _ _ _ _ _ _ Hf) as (st & Hi & Hd & Hp & HiS).
  unfold resume_state. rewrite Hi, Hd.
  destruct (switch env i (fs_item st) res (world r)) as [y w].
  assert (wf D B (i :: X) (set_world w r)) as Hwf' by exact Hwf.
  destruct Hwf' as [Hf' Hs'].
  destruct y as [e|v|f deadline check|deadline check|name].
  - split; [|exact Hs]. eapply (flight_finish D B X _ _ (set_world w r) i st (with_done true st)) in Hf';
      [|done..]. apply Hf'.
  - split; [|exact Hs]. eapply (flight_finish D B X _ _ (set_world w r) i st (with_done true st)) in Hf';
      [|done..]. apply Hf'.
  - eapply wf_park_future; [exact (conj Hf' Hs')|exact Hi|exact Hd].
  - eapply wf_park_sleep; [exact (conj Hf' Hs')|exact Hi|exact Hd|exact Hp].
  - split; [|exact Hs].
    eapply (flight_finish D B X _ _ (set_world w r) i st
      (with_done true (with_token (Datatypes.S (wait_token st)) st))) in Hf'; [|done..]. apply Hf'.
Qed.

Lemma wf_new_state D B X r i x :
  wf D B X r → i ∉ D → wf ({[i]} ∪ D) (B + 1) (i :: X) (new_state i x r).
Proof.
  intros [((owner & Hc) & [Hb1 Hb2] & HD & HB) Hs] Hi. split; [|done].
  assert (states r !! i = None) as Hnone by (apply not_elem_of_dom; by rewrite HD).
  unfold flight, new_state. cbn. split; [|split; [split; cbn|split]].
  - exists owner. eapply core_new; try done. intros y Hy.
    eapply core_dom; [exact Hc|]. rewrite !elem_of_app. right. right. apply list_elem_of_fmap. eauto.
  - intros j Hj. destruct (Hb1 j Hj) as (sj & Hsj & Hdj). assert (j ≠ i) by congruence.
    exists sj. by rewrite lookup_insert_ne.
  - intros j sj. destruct (decide (j = i)) as [->|Hne].
    + rewrite lookup_insert_eq. by intros [= <-].
    + rewrite lookup_insert_ne by done. apply Hb2.
  - rewrite dom_insert_L, HD. done.
  - lia.
Qed.

(** *** Waking fibers *)

(** The waiters of [L], and those of [ws] under [f]. *)
Definition plus (L : fut → nat → Prop) (f : fut) (ws : list nat) (f' : fut) (w' : nat) : Prop :=
  L f' w' ∨ (f' = f ∧ w' ∈ ws).

Definition inactive (ws : gmap nat waiter) (w : nat) : Prop := ∀ x, ws !! w = Some x → w_active x = false.

Lemma flight_unlist D B X S (L L' : fut → nat → Prop) r :
  (∀ f w, L' f w → L f w) → (∀ f w, L f w → L' f w ∨ inactive (waiters r) w) →
  flight D B X S L r → flight D B X S L' r.
Proof.
  intros Hsub Hoff ((owner & Hc) & H). split; [|done]. exists owner.
  eapply core_relist; [| |exact Hc]; [intros; eapply core_listed; eauto|].
  intros i st f w _ _ HL (x & Hx & Ha & Hrest). exists w. destruct (Hoff f w HL) as [?|Hi].
  - split; [done|]. by exists x.
  - rewrite (Hi x Hx) in Ha. done.
Qed.

Lemma hand_to_ready (i : nat) X R S : i :: X ++ R ++ S ≡ₚ X ++ (R ++ [i]) ++ S.
Proof. transitivity (X ++ R ++ i :: S); [apply hand_to_sleepers|by rewrite <- (app_assoc R)]. Qed.

Lemma flight_wake D B X S L r i st f res :
  flight D B X S L r → states r !! i = Some st → pending_future st = Some f →
  flight D B X S L (wake_fiber i st res r).
Proof.
  intros ((owner & Hc) & Hb & HD & HB) Hi Hf. unfold wake_fiber, append_ready.
  assert (fs_done st = false) as Hd.
  { destruct (fs_done st) eqn:E; [|done]. pose proof (core_done _ _ _ _ _ _ _ _ Hc i st Hi E). congruence. }
  split; [|split; [by eapply bookkeeping_live; eauto|cbn; rewrite (dom_set_state i st) by done; done]].
  exists owner. cbn. rewrite fmap_app. cbn. eapply core_perm; [apply hand_to_ready|].
  eapply core_wake; eauto.
Qed.

Lemma current_wait_Some r f x st :
  current_wait r f x = Some st ↔
  states r !! w_state x = Some st ∧ fs_done st = false ∧ wait_token st = w_token x ∧
  pending_future st = Some f.
Proof.
  unfold current_wait. destruct (states r !! w_state x) as [s|]; [|naive_solver].
  destruct (fs_done s) eqn:Hd, (Nat.eqb_spec (wait_token s) (w_token x)) as [Ht|Ht]; cbn;
    try case_bool_decide as Hp; cbn;
    (split; [intros; simplify_eq; auto|intros (? & ? & ? & ?); simplify_eq; congruence]).
Qed.

(** Whatever a waiter's fiber is doing, handling the waiter is safe. *)
Lemma flight_handle D B X S L r f w x res :
  flight D B X S L r → (L f w ∨ ∃ d s, (d, s, f, w) ∈ future_deadlines r) → waiters r !! w = Some x →
  let r' := match current_wait r f x with
            | None => deactivate w r
            | Some st => wake_fiber (w_state x) st res (deactivate w r)
            end in
  flight D B X S L r' ∧ inactive (waiters r') w.
Proof.
  intros Hfl Hown Hx. cbn zeta. split.
  2: { destruct (current_wait r f x); cbn; unfold inactive; rewrite lookup_alter_eq, Hx; cbn;
         by intros y [= <-]. }
  assert (∃ owner, core owner (X ++ (ready r).*1 ++ (sleeper_fiber <$> S)) S L (states r) (waiters r)
    (future_deadlines r) (active_count r) ∧ owner !! w = Some f) as (owner & Hc & How).
  { destruct Hfl as ((owner & Hc) & _). exists owner. split; [done|].
    destruct Hown as [HL|(d & s & Hin)]; [by eapply core_listed|by eapply core_heap]. }
  destruct (current_wait r f x) as [st|] eqn:Hcw.
  - apply current_wait_Some in Hcw as (Hi & Hd & Ht & Hp).
    change (flight D B X S L (deactivate w (wake_fiber (w_state x) st res r))).
    pose proof (flight_wake _ _ _ _ _ _ _ _ _ res Hfl Hi Hp) as ((owner' & Hc') & Hrest).
    split; [|exact Hrest]. exists owner'. apply core_switch_off; [exact Hc'|].
    intros j sj f' Hj Hpj _ (y & Hy & _ & Hyj & _). cbn in Hy, Hj. simplify_eq.
    rewrite lookup_insert_eq in Hj. injection Hj as <-. done.
  - destruct Hfl as (_ & Hrest). split; [|exact Hrest]. exists owner. apply core_switch_off; [exact Hc|].
    intros j sj f' Hj Hpj Hof (y & Hy & Ha & Hyj & Hyt). simplify_eq.
    enough (current_wait r f x = Some sj) by congruence. apply current_wait_Some. split_and!; try done.
    destruct (fs_done sj) eqn:E; [|done]. pose proof (core_done _ _ _ _ _ _ _ _ Hc _ _ Hj E). congruence.
Qed.

Lemma flight_deliver_one D B X S L r f w ws res :
  flight D B X S (plus L f (w :: ws)) r → flight D B X S (plus L f ws) (deliver_one f res r w).
Proof.
  intros Hfl. unfold deliver_one.
  assert (∀ r', flight D B X S (plus L f (w :: ws)) r' → inactive (waiters r') w →
    flight D B X S (plus L f ws) r') as Hdrop.
  { intros r' Hr' Hi. eapply flight_unlist; [| |exact Hr']; unfold plus.
    - intros f' w'. rewrite elem_of_cons. tauto.
    - intros f' w'. rewrite elem_of_cons. intros [?|[-> [->|?]]]; auto. }
  destruct (waiters r !! w) as [x|] eqn:Hx.
  - pose proof (flight_handle D B X S _ r f w x res Hfl) as [H1 H2]; [|done|].
    { left. right. rewrite elem_of_cons. auto. }
    by apply Hdrop.
  - apply Hdrop; [done|]. intros x. congruence.
Qed.

(** The parts of a runtime that only completions and waiter lists change. *)
Definition sig_view r := (future_waiters r, completed_futures r, callbacks r, outcomes r, wake_event r).

Lemma signals_view Q r r' : sig_view r' = sig_view r → signals Q r → signals Q r'.
Proof. unfold signals, sig_view. intros E. injection E as E1 E2 E3 E4 E5. by rewrite E1, E3, E4. Qed.

Lemma sig_fields r r' :
  sig_view r' = sig_view r →
  future_waiters r' = future_waiters r ∧ completed_futures r' = completed_futures r ∧ wake_event r' = wake_event r.
Proof. unfold sig_view. intros E. injection E. by intros. Qed.

Lemma deliver_one_sig f res r w : sig_view (deliver_one f res r w) = sig_view r.
Proof. unfold deliver_one. destruct (waiters r !! w); [|done]. by destruct (current_wait _ _ _). Qed.

Lemma foldl_deliver_one D B X S L f res ws r :
  flight D B X S (plus L f ws) r →
  flight D B X S L (foldl (deliver_one f res) r ws) ∧
  sig_view (foldl (deliver_one f res) r ws) = sig_view r.
Proof.
  revert r. induction ws as [|w ws IH]; intros r Hfl; cbn.
  - split; [|done]. eapply flight_relabel; [|exact Hfl]. intros f' w'. unfold plus. set_solver.
  - destruct (IH (deliver_one f res r w)) as [H1 H2]; [by apply flight_deliver_one|].
    split; [done|]. by rewrite H2, deliver_one_sig.
Qed.

(** One completed future leaves the queue and the waiter table. *)
Lemma deliver_ok D B X S Q f r :
  flight D B X S (listed (future_waiters r)) r → signals (f :: Q) r →
  let r' := deliver r f in
  flight D B X S (listed (future_waiters r')) r' ∧ signals Q r' ∧
  completed_futures r' = completed_futures r ∧ wake_event r' = wake_event r.
Proof.
  intros Hfl (Hnd & Hkey & Hq & Hcb). cbn zeta. unfold deliver.
  assert (∀ g, g ∈ Q → is_Some (outcomes r !! g)) as Hq' by (intros; apply Hq; by right).
  destruct (fw_lookup f (future_waiters r)) as [ws|] eqn:Hws.
  - set (r0 := set_future_waiters (fw_pop f (future_waiters r)) r).
    assert (flight D B X S (plus (listed (future_waiters r0)) f ws) r0) as Hfl0.
    { eapply flight_relabel; [|exact Hfl]. intros f' w'. by apply listed_split. }
    destruct (foldl_deliver_one _ _ _ _ _ _ (future_result_now f r0) _ _ Hfl0) as [H1 H2].
    destruct (sig_fields _ _ H2) as (Hfw & Hcf & Hwk). rewrite Hcf, Hfw, Hwk.
    split_and!; [done| |done|done]. eapply signals_view; [exact H2|].
    split_and!; [by apply fw_pop_nodup| |exact Hq'|exact Hcb].
    intros g [Hne Hg]%fw_pop_keys. destruct (Hkey g Hg) as [?|[?|?]%elem_of_cons]; [by left|done|by right].
  - split_and!; [done| |done|done]. split_and!; [done| |exact Hq'|exact Hcb].
    intros g Hg. destruct (Hkey g Hg) as [?|[->|?]%elem_of_cons]; [by left| |by right].
    apply list_elem_of_fmap in Hg as ([g' us] & Heq & Hin). cbn in Heq. subst g'.
    by apply (fw_lookup_None _ _ us) in Hws.
Qed.

Lemma foldl_deliver D B X S Q r :
  flight D B X S (listed (future_waiters r)) r → signals (Q ++ completed_futures r) r →
  let r' := foldl deliver r Q in
  flight D B X S (listed (future_waiters r')) r' ∧ signals (completed_futures r') r'.
Proof.
  revert r. induction Q as [|f Q IH]; intros r Hfl Hs; cbn; [done|].
  destruct (deliver_ok D B X S (Q ++ completed_futures r) f r) as (H1 & H2 & H3 & _); [done|done|].
  apply IH; [done|]. by rewrite H3.
Qed.

(** A queued completion keeps the wake event set. *)
Definition awake r : Prop := completed_futures r ≠ [] → wake_event r = true.

Lemma complete_awake c r : awake r → awake (complete c r).
Proof.
  unfold complete. destruct (outcomes r !! c.1); [done|]. cbv zeta.
  set (fired := filter _ (callbacks r)). set (r1 := set_callbacks _ _).
  pose proof (foldl_completed_fields fired r1) as (Hq & _ & _ & Hw & Hn). unfold awake.
  intros Ha. rewrite Hq. destruct (decide (fired = [])) as [->|Hne]; [|auto].
  rewrite app_nil_r. intros Hc. destruct Hw as [->| ->]; [|done]. by apply Ha.
Qed.

Lemma arrivals_awake r : awake r → awake (arrivals env r).
Proof.
  unfold arrivals. destruct (other_threads env (world r)) as [cs w]. intros Ha.
  assert (awake (set_world w r)) as H by exact Ha. revert H. generalize (set_world w r).
  induction cs as [|c cs IH]; intros r' H; cbn; [done|]. by apply IH, complete_awake.
Qed.

Lemma wf_arrivals D B X r : wf D B X r → wf D B X (arrivals env r).
Proof.
  intros [Hf Hs]. pose proof (view_fields _ _ (arrivals_view r)) as (Hsl & Hfw & _).
  split; [|by apply (signals_arrivals [])]. rewrite Hsl, Hfw.
  eapply flight_view; [apply arrivals_view|done].
Qed.

Lemma foldl_deliver_sleepers l r : sleepers (foldl deliver r l) = sleepers r.
Proof.
  revert r. induction l as [|f l IH]; intros r; cbn; [done|]. rewrite IH. unfold deliver.
  destruct (fw_lookup f (future_waiters r)) as [ws|]; [|done].
  generalize (future_result_now f (set_future_waiters (fw_pop f (future_waiters r)) r)). intros res.
  change (sleepers r) with (sleepers (set_future_waiters (fw_pop f (future_waiters r)) r)).
  generalize (set_future_waiters (fw_pop f (future_waiters r)) r). clear.
  induction ws as [|w ws IH]; intros r; cbn; [done|]. rewrite IH. unfold deliver_one.
  destruct (waiters r !! w); [|done]. by destruct (current_wait _ _ _).
Qed.

Lemma wf_process_futures D B X r : wf D B X r → wf D B X (process_futures env r) ∧ awake (process_futures env r).
Proof.
  intros Hwf. unfold process_futures. apply wf_arrivals in Hwf. revert Hwf.
  generalize (arrivals env r). clear r. intros r [Hf Hs].
  set (r1 := foldl deliver _ _).
  assert (wf D B X r1) as Hwf1.
  { destruct (foldl_deliver D B X (sleepers r) (completed_futures r) (set_completed [] r)) as [H1 H2].
    - exact Hf.
    - cbn. rewrite app_nil_r. exact Hs.
    - split; [|done]. unfold r1. rewrite foldl_deliver_sleepers. done. }
  set (r2 := arrivals env r1). assert (wf D B X (set_wake false r2)) as Hwf2
    by (by apply wf_arrivals).
  apply wf_arrivals in Hwf2. revert Hwf2. generalize (arrivals env (set_wake false r2)). intros r3 Hwf3.
  case_bool_decide as Hq; [|done]. split; [done|]. unfold awake. by rewrite Hq.
Qed.

(** *** Deadlines and cancellation *)

Lemma call_check_frame D B X S L c r e r' :
  call_check env c r = (e, r') →
  sig_view r' = sig_view r ∧ view r' = view r ∧ (flight D B X S L r → flight D B X S L r').
Proof.
  unfold call_check. destruct c as [c|]; [destruct (run_check env c (world r))|];
    intros [= <- <-]; split_and!; try done; intros H; exact H.
Qed.

Lemma flight_pop_sleeper D B X S L x r res :
  flight D B X (x :: S) L r → flight D B X S L (append_ready (sleeper_fiber x) res r).
Proof.
  intros ((owner & Hc) & H). split; [|exact H]. exists owner. cbn. rewrite fmap_app. cbn.
  eapply core_perm; [|eapply core_weaken; [| |exact Hc]; [|done]].
  - rewrite fmap_cons. etransitivity; [symmetry; apply hand_to_sleepers|apply hand_to_ready].
  - set_solver.
Qed.

Lemma sleeper_is_live D B X S L d s i token check r st :
  flight D B X ((d, s, i, token, check) :: S) L r → states r !! i = Some st →
  fs_done st || negb (wait_token st =? token)%nat = false.
Proof.
  intros ((owner & Hc) & _) Hi.
  rewrite (core_token _ _ _ _ _ _ _ _ Hc (d, s, i, token, check) st) by (try left; done).
  unfold sleeper_token. cbn. rewrite Nat.eqb_refl.
  destruct (core_place _ _ _ _ _ _ _ _ Hc i st Hi) as [H _]. destruct H as [-> _]; [|done].
  rewrite !elem_of_app. right. right. left.
Qed.

Lemma sleeper_exists D B X S L d s i token check r :
  flight D B X ((d, s, i, token, check) :: S) L r → is_Some (states r !! i).
Proof.
  intros ((owner & Hc) & _). apply (core_dom _ _ _ _ _ _ _ _ Hc i). rewrite !elem_of_app. right. right. left.
Qed.

Lemma flight_expire_sleepers D B X L now h r :
  flight D B X h L r →
  let r' := expire_sleepers env now h r in
  flight D B X (sleepers r') L r' ∧ sig_view r' = sig_view r ∧
  future_deadlines r' = future_deadlines r.
Proof.
  revert r. induction h as [|[[[[d s] i] token] check] h IH]; intros r Hf; cbn; [done|].
  destruct (d <=? now); [|done].
  destruct (sleeper_exists _ _ _ _ _ _ _ _ _ _ _ Hf) as [st Hst].
  rewrite Hst, (sleeper_is_live _ _ _ _ _ _ _ _ _ _ _ _ Hf Hst).
  destruct (call_check env check r) as [e r1] eqn:Hcall.
  destruct (call_check_frame D B X ((d, s, i, token, check) :: h) L _ _ _ _ Hcall) as (Hsv & Hv & Hfr).
  specialize (Hfr Hf). destruct (view_fields _ _ Hv) as (_ & _ & Hh & _).
  destruct e as [e|];
    [destruct (IH (append_ready i (Resume None (Some e)) r1)) as (H1 & H2 & H3)
    |destruct (IH (append_ready i no_resume r1)) as (H1 & H2 & H3)];
    try (by apply (flight_pop_sleeper _ _ _ _ _ (d, s, i, token, check))); cbn in H2, H3;
    (split_and!; [done|by rewrite H2|by rewrite H3]).
Qed.

Lemma flight_shrink_heap D B X S L h r :
  h ⊆ future_deadlines r → flight D B X S L r → flight D B X S L (set_future_deadlines h r).
Proof.
  intros Hh ((owner & Hc) & H). split; [|exact H]. exists owner. cbn.
  eapply core_weaken; [| |exact Hc]; done.
Qed.

Lemma flight_expire_futures D B X S L now h r :
  h ⊆ future_deadlines r → flight D B X S L r →
  let r' := expire_futures now h r in
  flight D B X S L r' ∧ sig_view r' = sig_view r ∧ sleepers r' = sleepers r.
Proof.
  revert r. induction h as [|[[[d s] f] w] h IH]; intros r Hh Hf; cbn.
  { split; [by apply flight_shrink_heap|done]. }
  destruct (d <=? now); [|split; [by apply flight_shrink_heap|done]].
  destruct (waiters r !! w) as [x|] eqn:Hx.
  2: { apply IH; [set_solver|done]. }
  destruct (w_active x); cbn; [|apply IH; [set_solver|done]].
  pose proof (flight_handle D B X S L r f w x (Resume None (Some (Exc TimeoutError ""))) Hf) as [H1 _];
    [|done|].
  { right. exists d, s. apply Hh. left. }
  destruct (current_wait r f x) as [st|]; (match goal with |- context [expire_futures _ _ ?r1] =>
    destruct (IH r1) as (H2 & H3 & H4); [cbn; set_solver|done|split_and!; [done|by rewrite H3|by rewrite H4]] end).
Qed.

Lemma wf_process_deadlines D B X now r : wf D B X r → wf D B X (process_deadlines env now r).
Proof.
  intros [Hf Hs]. unfold process_deadlines.
  destruct (flight_expire_sleepers D B X _ now _ _ Hf) as (H1 & H2 & _).
  destruct (flight_expire_futures D B X (sleepers (expire_sleepers env now (sleepers r) r))
    (listed (future_waiters r)) now _ _ ltac:(reflexivity) H1) as (H3 & H4 & H5).
  assert (sig_view (process_deadlines env now r) = sig_view r) as Hsv by (unfold process_deadlines; congruence).
  destruct (sig_fields _ _ Hsv) as (Hfw & Hcf & _). unfold process_deadlines in *. split.
  - by rewrite H5, Hfw.
  - rewrite Hcf. by eapply signals_view.
Qed.

Lemma process_deadlines_sig D B X now r :
  wf D B X r → sig_view (process_deadlines env now r) = sig_view r.
Proof.
  intros [Hf Hs]. unfold process_deadlines.
  destruct (flight_expire_sleepers D B X _ now _ _ Hf) as (H1 & H2 & _).
  destruct (flight_expire_futures D B X (sleepers (expire_sleepers env now (sleepers r) r))
    (listed (future_waiters r)) now _ _ ltac:(reflexivity) H1) as (_ & H4 & _).
  congruence.
Qed.

(** The poll: a waiter is dropped only when nobody relies on it. *)
Lemma flight_poll_waiter D B X S L f keep w rest r :
  flight D B X S (plus L f (keep ++ w :: rest)) r →
  let p := poll_waiter env f (keep, r) w in
  flight D B X S (plus L f (p.1 ++ rest)) p.2 ∧ sig_view p.2 = sig_view r ∧ sleepers p.2 = sleepers r.
Proof.
  intros Hf. cbn.
  assert (∀ r', flight D B X S (plus L f (keep ++ w :: rest)) r' → inactive (waiters r') w →
    flight D B X S (plus L f (keep ++ rest)) r') as Hdrop.
  { intros r' Hr' Hi. eapply flight_unlist; [| |exact Hr']; unfold plus; intros f' w';
      rewrite !elem_of_app, ?elem_of_cons; [tauto|]. intros [?|[-> [?|[->|?]]]]; auto. }
  destruct (waiters r !! w) as [x|] eqn:Hx.
  2: { split; [|done]. apply (Hdrop r); [done|]. intros x. congruence. }
  destruct (w_active x) eqn:Ha; cbn.
  2: { split; [|done]. apply (Hdrop r); [done|]. intros x'. congruence. }
  assert (plus L f (keep ++ w :: rest) f w) as HL by (right; split; [done|set_solver]).
  destruct (current_wait r f x) as [st|] eqn:Hcw.
  - destruct (call_check env (w_check x) r) as [e r1] eqn:Hcall.
    destruct (call_check_frame D B X S (plus L f (keep ++ w :: rest)) _ _ _ _ Hcall) as (Hsv & Hv & Hfr).
    specialize (Hfr Hf). destruct (view_fields _ _ Hv) as (Hsl & _ & _ & _ & _ & Hst & _ & Hwt).
    destruct e as [e|]; cbn.
    + assert (waiters r1 !! w = Some x) as Hx1 by (by rewrite Hwt).
      pose proof (flight_handle D B X S _ r1 f w x (Resume None (Some e)) Hfr (or_introl HL) Hx1) as [H1 H2].
      assert (current_wait r1 f x = Some st) as Hcw1 by (unfold current_wait in *; by rewrite Hst).
      rewrite Hcw1 in H1, H2. split_and!; [by apply Hdrop|done|done].
    + split_and!; [by rewrite <- app_assoc|done|done].
  - pose proof (flight_handle D B X S _ r f w x no_resume Hf (or_introl HL) Hx) as [H1 H2].
    rewrite Hcw in H1, H2. split; [by apply Hdrop|done].
Qed.

Lemma foldl_poll_waiter D B X S L f ws keep r :
  flight D B X S (plus L f (keep ++ ws)) r →
  let p := foldl (poll_waiter env f) (keep, r) ws in
  flight D B X S (plus L f p.1) p.2 ∧ sig_view p.2 = sig_view r ∧ sleepers p.2 = sleepers r.
Proof.
  revert keep r. induction ws as [|w ws IH]; intros keep r Hf.
  { cbn. rewrite app_nil_r in Hf. done. }
  destruct (flight_poll_waiter _ _ _ _ _ _ _ _ _ _ Hf) as (H1 & H2 & H3).
  cbn [foldl]. destruct (poll_waiter env f (keep, r) w) as [keep' r']. cbn in H1, H2, H3.
  destruct (IH keep' r' H1) as (H4 & H5 & H6). cbn zeta. split_and!; [done|congruence|congruence].
Qed.

Lemma fw_lookup_ext f fw ws : NoDup fw.*1 → fw_lookup f fw = Some ws ↔ (f, ws) ∈ fw.
Proof.
  intros Hnd. split; [apply fw_lookup_Some|]. intros Hin.
  destruct (fw_lookup f fw) as [us|] eqn:E; [|by apply (fw_lookup_None _ _ ws) in E].
  apply fw_lookup_Some in E. f_equal. by eapply fw_unique.
Qed.

Lemma listed_set f ws fw f' w' :
  NoDup fw.*1 → is_Some (fw_lookup f fw) →
  listed (fw_set f ws fw) f' w' ↔ plus (listed (fw_pop f fw)) f ws f' w'.
Proof.
  intros Hnd [us Hus%fw_lookup_Some]. unfold plus, listed, fw_set, fw_pop.
  setoid_rewrite list_elem_of_fmap. setoid_rewrite list_elem_of_filter. split.
  - intros (vs & ([g vs'] & Heq & Hin) & Hw). cbn in Heq. case_decide; simplify_eq; [by right|].
    left. exists vs'. done.
  - intros [(vs & [Hne Hin] & Hw)|[-> Hw]].
    + exists vs. split; [|done]. exists (f', vs). cbn in *. by rewrite decide_False.
    + exists ws. split; [|done]. exists (f, us). cbn. by rewrite decide_True.
Qed.

Lemma fw_lookup_other g fw fw' :
  NoDup fw.*1 → NoDup fw'.*1 → (∀ us, (g, us) ∈ fw' ↔ (g, us) ∈ fw) → fw_lookup g fw' = fw_lookup g fw.
Proof. intros H1 H2 Hin. apply option_eq. intros us. by rewrite !fw_lookup_ext. Qed.

Lemma elem_of_fw_pop f g us fw : g ≠ f → (g, us) ∈ fw_pop f fw ↔ (g, us) ∈ fw.
Proof. intros Hg. unfold fw_pop. rewrite list_elem_of_filter. cbn. tauto. Qed.

Lemma elem_of_fw_set f g ws us fw : g ≠ f → (g, us) ∈ fw_set f ws fw ↔ (g, us) ∈ fw.
Proof.
  intros Hg. unfold fw_set. rewrite list_elem_of_fmap. split.
  - intros ([h hs] & Heq & Hin). cbn in Heq. case_decide; simplify_eq; done.
  - intros Hin. exists (g, us). cbn. by rewrite decide_False.
Qed.

Lemma signals_pop Q f r : signals Q r → signals Q (set_future_waiters (fw_pop f (future_waiters r)) r).
Proof.
  intros (Hnd & Hkey & Hq & Hcb). split_and!; [by apply fw_pop_nodup| |done|done].
  intros g [_ Hg]%fw_pop_keys. auto.
Qed.

Lemma poll_future_ok D B X r f ws :
  wf D B X r → fw_lookup f (future_waiters r) = Some ws →
  let r' := poll_future env r (f, ws) in
  wf D B X r' ∧ wake_event r' = wake_event r ∧ completed_futures r' = completed_futures r ∧
  (∀ g, g ≠ f → fw_lookup g (future_waiters r') = fw_lookup g (future_waiters r)).
Proof.
  intros [Hf Hs] Hws. unfold poll_future. cbn [fst snd].
  pose proof Hs as (Hnd & _).
  assert (flight D B X (sleepers r) (plus (listed (fw_pop f (future_waiters r))) f ([] ++ ws)) r) as Hf0.
  { eapply flight_relabel; [|exact Hf]. intros f' w'. by apply listed_split. }
  destruct (foldl_poll_waiter _ _ _ _ _ _ _ _ _ Hf0) as (H1 & H2 & H3).
  destruct (foldl _ _ _) as [keep r1]. cbn [fst snd] in *.
  destruct (sig_fields _ _ H2) as (Hfw & Hcf & Hwk).
  assert (signals (completed_futures r1) r1) as Hs1 by (rewrite Hcf; by eapply signals_view).
  destruct keep as [|k keep].
  - split; [split|split; [done|split; [done|]]].
    + cbn. rewrite Hfw, H3. eapply flight_relabel; [|exact H1]. intros f' w'. unfold plus. set_solver.
    + exact (signals_pop _ f _ Hs1).
    + intros g Hg. cbn. rewrite Hfw. apply fw_lookup_other; [done|by apply fw_pop_nodup|].
      intros us. by apply elem_of_fw_pop.
  - split; [split|split; [done|split; [done|]]].
    + cbn [future_waiters set_future_waiters sleepers]. rewrite Hfw, H3.
      eapply flight_relabel; [|exact H1]. intros f' w'. symmetry. by apply listed_set.
    + exact (signals_same_keys _ _ _ (fw_set_keys f _ _) Hs1).
    + intros g Hg. cbn [future_waiters set_future_waiters]. rewrite Hfw.
      apply fw_lookup_other; [done|by rewrite fw_set_keys|]. intros us. by apply elem_of_fw_set.
Qed.

Lemma foldl_poll_future D B X l r :
  wf D B X r → NoDup l.*1 → (∀ p, p ∈ l → fw_lookup p.1 (future_waiters r) = Some p.2) →
  let r' := foldl (poll_future env) r l in
  wf D B X r' ∧ wake_event r' = wake_event r ∧ completed_futures r' = completed_futures r.
Proof.
  revert r. induction l as [|[f ws] l IH]; intros r Hwf Hnd Hl; [done|].
  rewrite fmap_cons in Hnd. apply NoDup_cons in Hnd as [Hf Hnd]. cbn [foldl].
  destruct (poll_future_ok D B X r f ws Hwf (Hl (f, ws) (list_elem_of_here _ _))) as (H1 & H2 & H3 & H4).
  destruct (IH (poll_future env r (f, ws)) H1 Hnd) as (H5 & H6 & H7).
  - intros p Hp. rewrite H4; [apply Hl; by right|]. intros <-. apply Hf, list_elem_of_fmap. by exists p.
  - cbn zeta. split_and!; [done|congruence|congruence].
Qed.

Lemma flight_poll_sleepers D B X L h rebuilt r :
  flight D B X (h ++ rebuilt) L r →
  let r' := poll_sleepers env h rebuilt r in
  flight D B X (sleepers r') L r' ∧ sig_view r' = sig_view r.
Proof.
  revert rebuilt r. induction h as [|[[[[d s] i] token] check] h IH]; intros rebuilt r Hf; cbn; [done|].
  destruct (sleeper_exists _ _ _ _ _ _ _ _ _ _ _ Hf) as [st Hst].
  rewrite Hst, (sleeper_is_live _ _ _ _ _ _ _ _ _ _ _ _ Hf Hst).
  destruct (call_check env check r) as [e r1] eqn:Hcall.
  destruct (call_check_frame D B X (((d, s, i, token, check) :: h) ++ rebuilt) L _ _ _ _ Hcall)
    as (Hsv & Hv & Hfr). specialize (Hfr Hf). destruct e as [e|].
  - destruct (IH rebuilt (append_ready i (Resume None (Some e)) r1)) as (H1 & H2).
    { by apply (flight_pop_sleeper _ _ _ _ _ (d, s, i, token, check)). }
    split; [done|]. by rewrite H2.
  - destruct (IH (rebuilt ++ [(d, s, i, token, check)]) r1) as (H1 & H2).
    { destruct Hfr as ((owner & Hc) & H). split; [|exact H]. exists owner.
      assert (((d, s, i, token, check) :: h) ++ rebuilt ≡ₚ h ++ rebuilt ++ [(d, s, i, token, check)]) as Hp.
      { cbn. rewrite (app_assoc h), (Permutation_app_comm (h ++ rebuilt)). done. }
      eapply core_perm; [|eapply core_weaken; [| |exact Hc]; [|done]].
      - by rewrite Hp.
      - intros y. by rewrite Hp. }
    split; [done|]. by rewrite H2.
Qed.

Lemma wf_poll_cancellation D B X r :
  wf D B X r → let r' := poll_cancellation env r in
  wf D B X r' ∧ wake_event r' = wake_event r ∧ completed_futures r' = completed_futures r.
Proof.
  intros Hwf. unfold poll_cancellation. pose proof Hwf as [_ (Hnd & _)].
  destruct (foldl_poll_future D B X (future_waiters r) r Hwf Hnd) as (H1 & H2 & H3).
  { intros [f ws] Hp. by apply fw_lookup_ext. }
  destruct H1 as [Hf Hs]. set (r1 := foldl _ _ _) in *.
  destruct (flight_poll_sleepers D B X (listed (future_waiters r1)) (sleepers r1) [] r1) as (H4 & H5).
  { by rewrite app_nil_r. }
  destruct (sig_fields _ _ H5) as (Hfw & Hcf & Hwk). split_and!; [|congruence|congruence].
  split; [by rewrite Hfw|]. rewrite Hcf. by eapply signals_view.
Qed.

(** *** The rest of the loop body *)

Lemma wf_world D B X r w : wf D B X (set_world w r) ↔ wf D B X r.
Proof. done. Qed.

Lemma wf_next_wait_timeout D B X r : wf D B X r → wf D B X (next_wait_timeout env r).2.
Proof.
  unfold next_wait_timeout, read_clock. destruct (monotonic env (world r)) as [now w].
  intros Hwf. assert (wf D B X (set_world w r)) as Hwf' by exact Hwf. revert Hwf'.
  generalize (set_world w r). clear Hwf. intros r1.
  generalize (match sleepers r1 with
    | [] => Z.max 0 (next_cancellation_poll r1 - now)
    | (d, _, _, _, _) :: _ => Z.min (Z.max 0 (next_cancellation_poll r1 - now)) (Z.max 0 (d - now)) end).
  intros timeout [Hf Hs].
  assert (∀ h t, h ⊆ future_deadlines r1 → wf D B X (prune_deadlines now t h r1).2) as H; [|by apply H].
  induction h as [|[[[d s] f] wt] h IH]; intros t Hh; cbn.
  - split; [|exact Hs]. by apply flight_shrink_heap.
  - destruct (match waiters r1 !! wt with Some _ => _ | None => _ end).
    + split; [|exact Hs]. by apply flight_shrink_heap.
    + apply IH. set_solver.
Qed.

Lemma wf_pop_ready D B X r i res q :
  ready r = (i, res) :: q → wf D B X r → wf D B (i :: X) (set_ready q r).
Proof.
  intros Hr [((owner & Hc) & H) Hs]. split; [|exact Hs]. split; [|exact H]. exists owner. cbn.
  rewrite Hr in Hc. eapply core_perm; [|exact Hc]. rewrite fmap_cons. cbn.
  symmetry. apply Permutation_middle.
Qed.

Lemma wf_resume_ready_from D B serviced n r :
  wf D B [] r → wf D B [] (resume_ready_from env cfg serviced n r).2.
Proof.
  revert serviced r. induction n as [|n IH]; intros serviced r Hwf; [done|]. cbn [resume_ready_from].
  destruct (ready r) as [|[i res] q] eqn:Hr; [done|]. apply IH.
  assert (wf D B [] (resume_state env i res (set_ready q r))) as Hwf'
    by by eapply wf_resume_state, wf_pop_ready.
  by destruct (_ =? 0)%nat.
Qed.

Lemma wf_resume_ready D B n r : wf D B [] r → wf D B [] (resume_ready env cfg n r).
Proof.
  intros Hwf. unfold resume_ready. apply (wf_resume_ready_from D B 0 n) in Hwf.
  destruct (resume_ready_from env cfg 0 n r) as [serviced r']. by destruct (_ =? 0)%nat.
Qed.

Lemma wf_service D B r : wf D B [] r → wf D B [] (service env cfg r).
Proof.
  intros Hwf. unfold service. apply wf_process_futures in Hwf as [Hwf _].
  revert Hwf. generalize (process_futures env r). clear r. intros r Hwf.
  unfold read_clock. destruct (monotonic env (world r)) as [now w].
  apply (wf_world _ _ _ _ w), (wf_process_deadlines _ _ _ now) in Hwf.
  apply wf_resume_ready. destruct (_ <=? now); [|done].
  apply wf_poll_cancellation in Hwf as (Hwf & _). exact Hwf.
Qed.

(** *** The loop *)

Lemma wf_bound D B B' X r : B ≤ B' → wf D B X r → wf D B' X r.
Proof. intros HB [(Hc & Hb & HD & HB') Hs]. split; [|done]. do 3 (split; [done|]). lia. Qed.

Lemma wf_active D B X r : wf D B X r → active_count r ≤ B ∧ wf D (active_count r) X r.
Proof. intros [(Hc & Hb & HD & HB') Hs]. split; [done|]. split; [|done]. do 3 (split; [done|]). lia. Qed.

Definition loop_wf (B : Z) (s : loop_state) : Prop := wf (set_seq 0 (next_index s)) B [] (rt s).

Lemma loop_wf_bound B B' s : B ≤ B' → loop_wf B s → loop_wf B' s.
Proof. apply wf_bound. Qed.

Lemma loop_wf_start B x s : loop_wf B s → loop_wf (B + 1) (start_fiber env x s).
Proof.
  unfold loop_wf, start_fiber. cbn [next_index rt]. intros Hwf.
  replace (set_seq 0 (Datatypes.S (next_index s)) : gset nat) with ({[next_index s]} ∪ set_seq 0 (next_index s) : gset nat).
  2: { apply set_eq. intros y. rewrite elem_of_union, elem_of_singleton, !elem_of_set_seq. lia. }
  apply wf_resume_state, wf_new_state; [done|]. rewrite elem_of_set_seq. lia.
Qed.

Lemma loop_wf_service B s : loop_wf B s → loop_wf B (with_rt (service env cfg (rt s)) s).
Proof. apply wf_service. Qed.

Lemma admit_ok position B xs s :
  loop_wf B s → loop_wf (B + Z.of_nat (length xs)) (admit_items env cfg position xs s).
Proof.
  revert position B s. induction xs as [|x xs IH]; intros position B s Hs.
  { cbn. eapply loop_wf_bound; [|done]. lia. }
  apply (loop_wf_start _ x) in Hs. cbn [admit_items length].
  replace (B + Z.of_nat (Datatypes.S (length xs))) with (B + 1 + Z.of_nat (length xs)) by lia.
  assert (∀ s', loop_wf (B + 1) s' → loop_wf (B + 1 + Z.of_nat (length xs)) (abandon_unstarted xs s')) as Hab.
  { intros s' Hs'. eapply loop_wf_bound; [|exact Hs']. lia. }
  destruct (failed _); [by apply Hab|]. destruct (_ =? 0)%nat; [|by apply IH].
  apply loop_wf_service in Hs. destruct (failed _); [by apply Hab|by apply IH].
Qed.

Lemma admit_refill_ok B xs s :
  loop_wf B s → loop_wf (B + Z.of_nat (length xs)) (admit_refill env xs s).
Proof.
  revert B s. induction xs as [|x xs IH]; intros B s Hs.
  { cbn. eapply loop_wf_bound; [|done]. lia. }
  apply (loop_wf_start _ x) in Hs. cbn [admit_refill length].
  replace (B + Z.of_nat (Datatypes.S (length xs))) with (B + 1 + Z.of_nat (length xs)) by lia.
  destruct (failed _); [|by apply IH]. eapply loop_wf_bound; [|exact Hs]. lia.
Qed.

(** The surroundings respect a concurrency limit: the provider never exceeds it and
    the source never returns more than it was asked for. *)
Definition limited (M : Z) : Prop :=
  (∀ w, (limit_provider env w).1 ≤ M) ∧ (∀ n w, (length (pull env n w).1 ≤ n)%nat).

Lemma pull_items_ok B n s xs s' :
  pull_items env n s = (xs, s') → loop_wf B s →
  loop_wf B s' ∧ active_count (rt s') = active_count (rt s) ∧ first_error (rt s') = first_error (rt s) ∧
  (∀ M, limited M → (length xs ≤ n)%nat).
Proof.
  unfold pull_items. destruct n as [|n]; [intros [= <- <-]; auto|].
  destruct (iterator s) as [l|].
  - destruct (source_exhausted s); intros [= <- <-] Hwf; (split; [exact Hwf|]); split_and!; try done; intros M _; cbn; [lia|].
    destruct l; cbn; [lia|]. rewrite length_take. lia.
  - destruct (pull env (Datatypes.S n) (world (rt s))) as [ys w] eqn:Hp. intros [= <- <-] Hwf.
    split; [exact Hwf|]. split_and!; try done. intros M [_ HM]. specialize (HM (Datatypes.S n) (world (rt s))).
    by rewrite Hp in HM.
Qed.

Lemma requested_items_le refreshable limit active burst :
  (requested_items refreshable limit active burst ≤ Z.to_nat (Z.max 0 (limit - active)))%nat.
Proof. unfold requested_items. destruct (_ && _); lia. Qed.

Lemma admission_ok B s limit added s' :
  loop_wf B s → admission env cfg s = Ok (limit, added, s') →
  (∃ B', loop_wf B' s' ∧ ∀ M, limited M → B ≤ M → B' ≤ M) ∧ (∀ M, limited M → limit ≤ M).
Proof.
  intros Hs. unfold admission, read_limit.
  set (s1 := with_rt (yield_writer env cfg (rt s)) s).
  destruct (limit_provider env (world (rt s1))) as [lim w] eqn:Hlim. intros H. inv_ok.
  cbv zeta in H. destruct (pull_items _ _ _) as [pulled s2] eqn:Hp.
  pose proof Hs as HB. apply wf_active in HB as [HB Hact].
  eapply (pull_items_ok (active_count (rt s))) in Hp as (Hs2 & Ha2 & _ & Hlen); [|exact Hact].
  injection H as -> <- <-. rename Hlim into Hlim'.
  assert (∀ M, limited M → limit ≤ M) as HM.
  { intros M [HM _]. specialize (HM (world (rt s1))). by rewrite Hlim' in HM. }
  split; [|exact HM]. eexists. split; [apply admit_ok; exact Hs2|].
  intros M HMl HBM. specialize (HM M HMl). specialize (Hlen M HMl).
  match type of Hlen with (_ ≤ requested_items ?a ?b ?c ?d)%nat => pose proof (requested_items_le a b c d) end.
  change (active_count (rt s1)) with (active_count (rt s)) in *. lia.
Qed.

Lemma prune_frame now t h r :
  let r' := (prune_deadlines now t h r).2 in
  active_count r' = active_count r ∧ first_error r' = first_error r ∧ results r' = results r.
Proof.
  revert t. induction h as [|[[[d s] f] wt] h IH]; intros t; cbn; [done|].
  destruct (match waiters r !! wt with Some _ => _ | None => _ end); [done|]. apply IH.
Qed.

Lemma next_wait_frame r :
  let r' := (next_wait_timeout env r).2 in
  active_count r' = active_count r ∧ first_error r' = first_error r ∧ results r' = results r.
Proof.
  unfold next_wait_timeout, read_clock. destruct (monotonic env (world r)) as [now w].
  apply (prune_frame now _ _ (set_world w r)).
Qed.

Lemma wait_event_ok B s :
  loop_wf B s → loop_wf B (wait_event env s).
Proof.
  unfold wait_event, loop_wf. intros Hs. apply wf_next_wait_timeout in Hs.
  by destruct (next_wait_timeout env (rt s)) as [t r].
Qed.

(** What leaving the loop guarantees. *)
Definition exit_ok (c : control) (s : loop_state) : Prop :=
  match c with
  | Continue => True
  | Break => first_error (rt s) = None ∧ active_count (rt s) = 0
  | RaiseFirst e => first_error (rt s) = Some e ∧ active_count (rt s) = 0
  end.

(** [B'] bounds the active fibers after a part that starts with at most [B]. *)
Definition stays (B : Z) (s : loop_state) : Prop :=
  ∃ B', loop_wf B' s ∧ ∀ M, limited M → B ≤ M → B' ≤ M.

Lemma stays_refl B s : loop_wf B s → stays B s.
Proof. intros H. exists B. auto. Qed.

Lemma refill_idle_ok B limit s c s' :
  loop_wf B s → active_count (rt s) = 0 → first_error (rt s) = None → 0 ≤ limit →
  refill_idle env cfg limit s = (c, s') → stays (Z.max B limit) s' ∧ exit_ok c s'.
Proof.
  intros Hs Ha He Hl. unfold refill_idle.
  destruct (pull_items env _ s) as [refill s1] eqn:Hp.
  pose proof Hs as Hs0. apply wf_active in Hs0 as [HB0 Hs0]. rewrite Ha in Hs0, HB0.
  eapply pull_items_ok in Hp as (Hs1 & Ha1 & He1 & Hlen); [|exact Hs0].
  destruct refill as [|x refill].
  - assert (loop_wf (Z.max B limit) s1) as Hw by (eapply loop_wf_bound; [|exact Hs1]; lia).
    destruct (wait_for_change env) as [waiter|].
    + pose proof (next_wait_frame (rt s1)) as (Hn1 & Hn2 & _).
      pose proof (wf_next_wait_timeout _ _ _ _ Hw) as Hw1.
      destruct (next_wait_timeout env (rt s1)) as [t r]. cbn in Hn1, Hn2, Hw1.
      destruct (waiter _ (world r)) as [changed w]. intros [= <- <-].
      split; [by apply stays_refl|]. destruct changed; cbn; [done|]. split; congruence.
    + intros [= <- <-]. split; [by apply stays_refl|]. cbn. split; congruence.
  - intros [= <- <-]. split; [|done]. exists (0 + Z.of_nat (length (x :: refill))).
    split; [exact (admit_refill_ok 0 (x :: refill) (with_burst (probe_burst cfg) s1) Hs1)|].
    intros M HM HBM. specialize (Hlen M HM). lia.
Qed.

Lemma settle_ok B limit added s c s' :
  loop_wf B s → 0 ≤ limit → settle env cfg limit added s = (c, s') → stays (Z.max B limit) s' ∧ exit_ok c s'.
Proof.
  intros Hs Hl. unfold settle.
  set (s1 := with_rt (resume_ready env cfg (service_interval cfg) (rt s)) s).
  assert (loop_wf B s1) as Hs1 by by apply wf_resume_ready.
  set (s2 := with_rt (service env cfg (rt s1)) s1). assert (loop_wf B s2) as Hs2 by by apply wf_service.
  clearbody s2. clear s1 Hs1 Hs s. rename s2 into s, Hs2 into Hs.
  assert (∀ s1, loop_wf B s1 → stays (Z.max B limit) s1) as Hstay.
  { intros s1 H1. apply stays_refl. eapply loop_wf_bound; [|done]. lia. }
  assert (∀ s1, loop_wf B s1 → exit_ok Continue s1) as Hcont by done.
  destruct (first_error (rt s)) as [e|] eqn:He.
  { destruct (Z.eqb_spec (active_count (rt s)) 0) as [Ha|Ha]; intros [= <- <-];
      (split; [|done]); apply Hstay; [done|by apply wait_event_ok]. }
  assert (∀ s1 c s', loop_wf B s1 →
    (if negb (bool_decide (ready (rt s1) = [])) then (Continue, s1)
     else if (0 <? added)%nat && (active_count (rt s) <? limit) then (Continue, s1)
     else (Continue, wait_event env s1)) = (c, s') → stays (Z.max B limit) s' ∧ exit_ok c s') as Hrest.
  { intros s1 c1 s1' H1. destruct (negb _); [|destruct (_ && _)]; intros [= <- <-];
      (split; [|done]); apply Hstay; try done. by apply wait_event_ok. }
  destruct (Z.eqb_spec (active_count (rt s)) 0) as [Ha|Ha]; [|by apply Hrest].
  destruct (Z.eqb_spec limit 0); [intros [= <- <-]; split; [by apply Hstay|done]|].
  destruct (iterator s) as [l|] eqn:Hit.
  - destruct (source_exhausted s); [intros [= <- <-]; split; [by apply Hstay|done]|]. by apply Hrest.
  - destruct (added =? 0)%nat; [by apply refill_idle_ok|]. by apply Hrest.
Qed.

Lemma admission_limit s limit added s' :
  admission env cfg s = Ok (limit, added, s') → 0 ≤ limit.
Proof.
  unfold admission. destruct (read_limit _ _) as [lim s1]. intros H. inv_ok. cbv zeta in H.
  destruct (pull_items _ _ _) as [pulled s2]. injection H as -> <- <-. lia.
Qed.

Lemma turn_ok B s c s' :
  loop_wf B s → turn env cfg s = Ok (c, s') → stays (Z.max B 0) s' ∧ exit_ok c s'.
Proof.
  intros Hs. unfold turn. set (s1 := with_rt (service env cfg (rt s)) s).
  assert (loop_wf B s1) as Hs1 by by apply wf_service. destruct (failed s1).
  { intros [= H]. eapply settle_ok in H; [|exact Hs1|lia]. done. }
  intros H. apply rbind_ok in H as ([[limit added] s2] & Ha & H). injection H as H. cbn [fst snd] in H.
  pose proof (admission_limit _ _ _ _ Ha) as Hl.
  apply (admission_ok B) in Ha as [(B' & Hs2 & HB') HM]; [|done].
  eapply settle_ok in H as [(B'' & Hs' & HB'') Hex]; [|exact Hs2|done].
  split; [|done]. exists B''. split; [done|]. intros M Hlim HBM. specialize (HM M Hlim).
  apply HB''; [done|]. specialize (HB' M Hlim). lia.
Qed.

(** *** Reachable loop heads *)

Inductive reachable (now : Z) (items : option (list item)) (w : W) : loop_state → Prop :=
  | reach_init : reachable now items w (loop_init cfg now items w)
  | reach_turn s s' :
      reachable now items w s → turn env cfg s = Ok (Continue, s') → reachable now items w s'.

Lemma loop_init_wf now items w : loop_wf 0 (loop_init cfg now items w).
Proof.
  split; [|split_and!; cbn; [constructor|set_solver..]].
  split; [|split; [split; cbn; [|done]|split; [done|cbn; lia]]].
  - exists ∅. split; cbn; try done; try set_solver.
    + constructor.
    + intros f wt (ws & Hin & _). set_solver.
    + intros wt [? Hx]. by rewrite lookup_empty in Hx.
  - intros i [v Hv]. by rewrite lookup_empty in Hv.
Qed.

Lemma reachable_stays now items w s : reachable now items w s → stays 0 s.
Proof.
  induction 1 as [|s s' _ (B & Hs & HB) Ht]; [apply stays_refl, loop_init_wf|].
  destruct (turn_ok _ _ _ _ Hs Ht) as [(B' & Hs' & HB') _]. exists B'. split; [done|].
  intros M HM H0. apply HB'; [done|]. specialize (HB M HM H0). lia.
Qed.

Lemma run_loop_reachable fuel now items w s res s' :
  reachable now items w s → run_loop env cfg fuel s = Some (res, s') →
  (∃ c s0, reachable now items w s0 ∧ turn env cfg s0 = Ok (c, s') ∧
     match c with Continue => False | Break => res = Ok (ordered_results (rt s'))
                | RaiseFirst e => res = Err e end) ∨
  (∃ e, reachable now items w s' ∧ turn env cfg s' = Err e ∧ res = Err e).
Proof.
  revert s. induction fuel as [|fuel IH]; intros s Hs; [done|]. cbn [run_loop].
  destruct (turn env cfg s) as [[c s1]|e] eqn:Ht.
  2: { intros [= <- <-]. right. eauto. }
  destruct c; [apply IH; by eapply reach_turn| |]; intros [= <- <-]; left;
    (eexists _, s; split; [done|split; [exact Ht|done]]).
Qed.

(** With no live fiber left and no error, every fiber has its result. *)
Lemma settled_results B s :
  loop_wf B s → active_count (rt s) = 0 → first_error (rt s) = None →
  dom (results (rt s)) = set_seq 0 (next_index s).
Proof.
  intros [((owner & Hc) & [Hb1 Hb2] & HD & _) _] Ha He. apply set_eq. intros i. rewrite <- HD.
  rewrite !elem_of_dom. split; [intros Hi; destruct (Hb1 i Hi) as (st & -> & _); eauto|].
  intros [st Hst]. destruct (fs_done st) eqn:Hd.
  - destruct (Hb2 i st Hst Hd) as [?|[e' He']]; [done|]. congruence.
  - exfalso. pose proof (core_count _ _ _ _ _ _ _ _ Hc) as Hn. rewrite Ha in Hn.
    assert (live_fibers (states (rt s)) = ∅) as Hl by (apply map_size_empty_iff; lia).
    assert (live_fibers (states (rt s)) !! i = Some st) as Hi by by apply map_lookup_filter_Some_2.
    by rewrite Hl, lookup_empty in Hi.
Qed.

Lemma sorted_seq k n : StronglySorted py_le (seq k n).
Proof.
  revert k. induction n as [|n IH]; intros k; cbn; constructor; [done|].
  apply Forall_forall. intros x Hx. apply elem_of_seq in Hx. unfold py_le, py_leb, py_ord_nat.
  apply Nat.leb_le. lia.
Qed.

Lemma sorted_set_seq n : py_sorted (elements (set_seq 0 n : gset nat)) = seq 0 n.
Proof.
  rewrite <- (py_sorted_id (seq 0 n)) by apply sorted_seq. apply py_sorted_proper, NoDup_Permutation.
  - apply NoDup_elements.
  - apply NoDup_seq.
  - intros x. rewrite elem_of_elements, elem_of_set_seq, elem_of_seq. lia.
Qed.

Lemma omap_total {A} (f : nat → option A) l :
  (∀ i, i ∈ l → is_Some (f i)) → length (omap f l) = length l ∧
  ∀ k i, l !! k = Some i → omap f l !! k = f i.
Proof.
  induction l as [|i l IH]; intros Hf; [done|]. cbn.
  destruct (Hf i) as [v Hv]; [left|]. rewrite Hv. cbn.
  destruct IH as [H1 H2]; [intros; apply Hf; by right|]. split; [by rewrite H1|].
  intros [|k] j; cbn; [|apply H2]. intros [= <-]. by rewrite Hv.
Qed.

Lemma ordered_results_spec r n :
  dom (results r) = set_seq 0 n →
  length (ordered_results r) = n ∧
  ∀ i, (i < n)%nat → ordered_results r !! i = results r !! i ∧ is_Some (results r !! i).
Proof.
  intros Hd. unfold ordered_results. rewrite Hd, sorted_set_seq.
  assert (∀ i, i ∈ seq 0 n → is_Some (results r !! i)) as Hs.
  { intros i Hi. apply elem_of_dom. rewrite Hd, elem_of_set_seq. apply elem_of_seq in Hi. lia. }
  destruct (omap_total (λ i, results r !! i) (seq 0 n) Hs) as [H1 H2].
  rewrite H1, length_seq. split; [done|]. intros i Hi.
  split; [|apply Hs, elem_of_seq; lia]. apply H2. rewrite lookup_seq. lia.
Qed.

(** *** Deliveries reach their fibers *)

(** Fiber [i] has left its future with resume value [res]. *)
Definition woken (i : nat) (st : fiber_state item) (res : resume val) r : Prop :=
  states r !! i = Some (with_pending None st) ∧ (i, res) ∈ ready r.

Lemma deliver_one_woken i st res g gres w r : woken i st res r → woken i st res (deliver_one g gres r w).
Proof.
  intros [Hst Hin]. unfold deliver_one. destruct (waiters r !! w) as [x|]; [|done].
  destruct (current_wait (deactivate w r) g x) as [sx|] eqn:Hcw; [|done].
  apply current_wait_Some in Hcw as (Hx & _ & _ & Hp). cbn in Hx.
  split; cbn; [|apply elem_of_app; by left].
  rewrite lookup_insert_ne; [done|]. intros Heq. rewrite Heq in Hx. by simplify_eq.
Qed.

Lemma deliver_one_pending i st g gres w r :
  states r !! i = Some st →
  states (deliver_one g gres r w) !! i = Some st ∨
  (pending_future st = Some g ∧ woken i st gres (deliver_one g gres r w)).
Proof.
  intros Hst. unfold deliver_one. destruct (waiters r !! w) as [x|]; [|by left].
  destruct (current_wait (deactivate w r) g x) as [sx|] eqn:Hcw; [|by left].
  apply current_wait_Some in Hcw as (Hx & _ & _ & Hp). cbn in Hx.
  destruct (decide (w_state x = i)) as [<-|Hne].
  - right. simplify_eq. split; [done|]. split; cbn; [apply lookup_insert_eq|].
    apply elem_of_app. right. by apply list_elem_of_singleton.
  - left. cbn. by rewrite lookup_insert_ne.
Qed.

Lemma foldl_deliver_one_stage i st g gres ws r :
  (states r !! i = Some st ∨ (pending_future st = Some g ∧ woken i st gres r)) →
  states (foldl (deliver_one g gres) r ws) !! i = Some st ∨
  (pending_future st = Some g ∧ woken i st gres (foldl (deliver_one g gres) r ws)).
Proof.
  revert r. induction ws as [|w ws IH]; intros r Hr; cbn; [done|]. apply IH.
  destruct Hr as [Hst|[Hp Hw]]; [by apply deliver_one_pending|]. right. split; [done|].
  by apply deliver_one_woken.
Qed.

Lemma deliver_woken i st res g r : woken i st res r → woken i st res (deliver r g).
Proof.
  intros Hw. unfold deliver. destruct (fw_lookup g (future_waiters r)) as [ws|]; [|done].
  assert (woken i st res (set_future_waiters (fw_pop g (future_waiters r)) r)) as H by exact Hw.
  revert H. generalize (set_future_waiters (fw_pop g (future_waiters r)) r). clear r Hw. intros r.
  generalize (future_result_now g r). intros gres. revert r.
  induction ws as [|w ws IH]; intros r Hw; cbn; [done|]. by apply IH, deliver_one_woken.
Qed.

Lemma deliver_other i st f g r :
  states r !! i = Some st → pending_future st = Some f → f ≠ g → states (deliver r g) !! i = Some st.
Proof.
  intros Hst Hp Hne. unfold deliver. destruct (fw_lookup g (future_waiters r)) as [ws|]; [|done].
  edestruct foldl_deliver_one_stage as [H|[H _]]; [|exact H|congruence]. by left.
Qed.

Lemma foldl_deliver_one_sig f res ws r : sig_view (foldl (deliver_one f res) r ws) = sig_view r.
Proof. revert r. induction ws as [|w ws IH]; intros r; cbn; [done|]. by rewrite IH, deliver_one_sig. Qed.

Lemma deliver_self D B X S i st f Q r :
  flight D B X S (listed (future_waiters r)) r → signals (f :: Q) r →
  states r !! i = Some st → pending_future st = Some f →
  woken i st (future_result_now f r) (deliver r f).
Proof.
  intros Hfl Hs Hst Hp. destruct (deliver_ok _ _ _ _ _ _ _ Hfl Hs) as (Hfl' & (_ & Hkey & _) & _).
  pose proof Hs as (Hnd & _). destruct Hfl' as ((owner & Hc) & _).
  assert (f ∉ (future_waiters (deliver r f)).*1) as Hgone.
  { unfold deliver. destruct (fw_lookup f (future_waiters r)) as [ws|] eqn:Hws.
    - rewrite (proj1 (sig_fields _ _ (foldl_deliver_one_sig f _ ws _))).
      intros [? _]%fw_pop_keys. done.
    - intros ([g us] & Heq & Hin)%list_elem_of_fmap. cbn in Heq. subst g.
      by apply (fw_lookup_None _ _ us) in Hws. }
  assert (states (deliver r f) !! i = Some st ∨
    pending_future st = Some f ∧ woken i st (future_result_now f r) (deliver r f)) as [Hst'|[_ ?]]; [| |done].
  { unfold deliver. destruct (fw_lookup f (future_waiters r)) as [ws|]; [|by left].
    apply (foldl_deliver_one_stage i st f (future_result_now f r)). by left. }
  destruct (core_parked _ _ _ _ _ _ _ _ Hc i st f Hst' Hp) as (w & (ws & Hin & _) & _).
  exfalso. apply Hgone. apply list_elem_of_fmap. by exists (f, ws).
Qed.

Lemma deliver_outcomes g r : outcomes (deliver r g) = outcomes r.
Proof.
  unfold deliver. destruct (fw_lookup g (future_waiters r)) as [ws|]; [|done].
  pose proof (foldl_deliver_one_sig g (future_result_now g (set_future_waiters (fw_pop g (future_waiters r)) r))
    ws (set_future_waiters (fw_pop g (future_waiters r)) r)) as Hv.
  unfold sig_view in Hv. injection Hv as _ _ _ Ho _. exact Ho.
Qed.

Lemma foldl_deliver_woken i st res l r : woken i st res r → woken i st res (foldl deliver r l).
Proof. revert r. induction l as [|g l IH]; intros r Hw; cbn; [done|]. by apply IH, deliver_woken. Qed.

Lemma foldl_deliver_wakes D B X S i st f l r :
  flight D B X S (listed (future_waiters r)) r → signals (l ++ completed_futures r) r →
  states r !! i = Some st → pending_future st = Some f → f ∈ l →
  woken i st (future_result_now f r) (foldl deliver r l).
Proof.
  revert r. induction l as [|g l IH]; intros r Hfl Hs Hst Hp Hin; [by apply elem_of_nil in Hin|].
  cbn [foldl]. destruct (decide (f = g)) as [<-|Hne].
  - by eapply foldl_deliver_woken, deliver_self.
  - apply elem_of_cons in Hin as [?|Hin]; [done|].
    destruct (deliver_ok D B X S (l ++ completed_futures r) g r Hfl Hs) as (H1 & H2 & H3 & _).
    assert (future_result_now f r = future_result_now f (deliver r g)) as ->
      by (unfold future_result_now; by rewrite deliver_outcomes).
    apply IH; try done; [by rewrite H3|by eapply deliver_other].
Qed.

(** Completions only add outcomes and queue entries. *)
Lemma complete_grows c r f o :
  (outcomes r !! f = Some o → outcomes (complete c r) !! f = Some o) ∧
  (f ∈ completed_futures r → f ∈ completed_futures (complete c r)).
Proof.
  unfold complete. destruct (outcomes r !! c.1) eqn:Ho; [done|]. cbv zeta.
  set (fired := filter _ (callbacks r)). set (r1 := set_callbacks _ _).
  destruct (foldl_completed_fields fired r1) as (-> & _ & -> & _). cbn. split.
  - intros Hf. rewrite lookup_insert_ne; congruence.
  - intros Hf. apply elem_of_app. by left.
Qed.

Lemma arrivals_grows r f o :
  (outcomes r !! f = Some o → outcomes (arrivals env r) !! f = Some o) ∧
  (f ∈ completed_futures r → f ∈ completed_futures (arrivals env r)).
Proof.
  unfold arrivals. destruct (other_threads env (world r)) as [cs w].
  change (outcomes r) with (outcomes (set_world w r)).
  change (completed_futures r) with (completed_futures (set_world w r)).
  generalize (set_world w r). induction cs as [|c cs IH]; intros r'; cbn; [done|].
  destruct (IH (complete c r')) as [IH1 IH2]. destruct (complete_grows c r' f o) as [H1 H2]. auto.
Qed.

Lemma process_futures_wakes D B X r i st f :
  wf D B X r → states r !! i = Some st → pending_future st = Some f → f ∈ completed_futures r →
  woken i st (future_result_now f r) (process_futures env r).
Proof.
  intros Hwf Hst Hp Hin. unfold process_futures.
  assert (∀ r1 r2, view r2 = view r1 → woken i st (future_result_now f r) r1 →
    woken i st (future_result_now f r) r2) as Hview.
  { intros r1 r2 Hv. destruct (view_fields _ _ Hv) as (_ & _ & _ & Hr & _ & Hs & _).
    unfold woken. by rewrite Hr, Hs. }
  set (r1 := arrivals env r). set (r2 := foldl deliver _ _). cbv zeta.
  assert (woken i st (future_result_now f r) r2) as Hw.
  { assert (wf D B X r1) as [Hf Hs] by by apply wf_arrivals.
    assert (future_result_now f r = future_result_now f (set_completed [] r1)) as ->.
    { pose proof Hwf as [_ (_ & _ & Hq & _)]. destruct (Hq f Hin) as [o Ho].
      unfold future_result_now. cbn. rewrite Ho.
      assert (outcomes r1 !! f = Some o) as -> by by apply (arrivals_grows r f o). done. }
    eapply (foldl_deliver_wakes D B X (sleepers r1)).
    - exact Hf.
    - cbn. rewrite app_nil_r. exact Hs.
    - cbn. destruct (view_fields _ _ (arrivals_view r)) as (_ & _ & _ & _ & _ & Hsts & _).
      unfold r1. by rewrite Hsts.
    - done.
    - by apply (arrivals_grows r f (Err (Exc ValueError ""))). }
  clearbody r2. clear Hwf.
  assert (woken i st (future_result_now f r) (arrivals env (set_wake false (arrivals env r2)))) as Hw'.
  { eapply Hview; [apply arrivals_view|]. change (woken i st (future_result_now f r) (arrivals env r2)).
    eapply Hview; [apply arrivals_view|done]. }
  case_bool_decide; exact Hw'.
Qed.

End preservation.

(** ** Bodies that never suspend *)

Section plain.
Context {val item W : Type} (env : surroundings val item W) (cfg : settings) (body : item → val).
Abbreviation runtime := (runtime val item W).
Abbreviation loop_state := (@loop_state val item W).

(** What the code relies on here: the bodies return at their first switch, and the
    limit provider and the configured bursts are positive. *)
Context (Hbody : ∀ i x res w, (switch env i x res w).1 = Returned (body x)).
Context (Hlimit : ∀ w, 1 ≤ (limit_provider env w).1).
Context (Hburst : (1 ≤ start_burst cfg)%nat) (Hmax : (1 ≤ max_admission_burst cfg)%nat).

(** Nothing is running, waiting or failed; the results so far are those of [xs]. *)
Record idle (xs : list item) (r : runtime) : Prop := {
  idle_ready : ready r = [];
  idle_sleepers : sleepers r = [];
  idle_waiters : future_waiters r = [];
  idle_heap : future_deadlines r = [];
  idle_queue : completed_futures r = [];
  idle_callbacks : callbacks r = [];
  idle_error : first_error r = None;
  idle_active : active_count r = 0;
  idle_results i : results r !! i = body <$> xs !! i
}.

Lemma idle_arrivals xs r : idle xs r → idle xs (arrivals env r).
Proof.
  unfold arrivals. destruct (other_threads env (world r)) as [cs w]. intros Hi.
  assert (idle xs (set_world w r)) as H by by destruct Hi. revert H. generalize (set_world w r).
  induction cs as [|c cs IH]; intros r' H; cbn; [done|]. apply IH. unfold complete.
  destruct (outcomes r' !! c.1); [done|]. destruct H. split; cbn; try done; by rewrite idle_callbacks0.
Qed.

Lemma idle_service xs r : idle xs r → idle xs (service env cfg r).
Proof.
  intros Hi. unfold service.
  assert (idle xs (process_futures env r)) as H1.
  { unfold process_futures. apply idle_arrivals in Hi. pose proof (idle_queue _ _ Hi) as Hq. rewrite Hq. cbn.
    assert (idle xs (set_completed [] (arrivals env r))) as H by by destruct Hi.
    apply idle_arrivals in H. assert (idle xs (set_wake false (arrivals env (set_completed [] (arrivals env r))))) as H'
      by by destruct H.
    apply idle_arrivals in H'. rewrite bool_decide_true by apply H'. done. }
  revert H1. generalize (process_futures env r). clear r Hi. intros r Hi.
  unfold read_clock. destruct (monotonic env (world r)) as [now w].
  assert (idle xs (process_deadlines env now (set_world w r))) as H2.
  { destruct Hi. unfold process_deadlines. cbn. rewrite idle_sleepers0. cbn. rewrite idle_heap0. by split. }
  revert H2. generalize (process_deadlines env now (set_world w r)). clear r Hi. intros r Hi.
  assert (idle xs (if next_cancellation_poll r <=? now
    then set_next_poll (now + poll_interval cfg) (poll_cancellation env r) else r)) as H3.
  { destruct (_ <=? now); [|done]. destruct Hi. unfold poll_cancellation. rewrite idle_waiters0. cbn.
    rewrite idle_sleepers0. by split. }
  revert H3. generalize (if next_cancellation_poll r <=? now
    then set_next_poll (now + poll_interval cfg) (poll_cancellation env r) else r).
  clear r Hi. intros r Hi. unfold resume_ready.
  destruct (service_interval cfg); cbn; [|rewrite (idle_ready _ _ Hi)]; cbn;
    destruct (state_writer_service_interval cfg); cbn; rewrite ?Nat.sub_diag; done.
Qed.

Lemma idle_resume_ready xs n r : idle xs r → idle xs (resume_ready env cfg n r).
Proof.
  intros Hi. unfold resume_ready.
  destruct n; cbn; [|rewrite (idle_ready _ _ Hi)]; cbn;
    destruct (state_writer_service_interval cfg); cbn; rewrite ?Nat.sub_diag; done.
Qed.

(** The loop between turns: [xs] are done, [l] is what the iterator still holds. *)
Record at_rest (xs l : list item) (s : loop_state) : Prop := {
  rest_idle : idle xs (rt s);
  rest_next : next_index s = length xs;
  rest_iterator : iterator s = Some l;
  rest_burst : (1 ≤ admission_burst s)%nat
}.

Lemma rest_with_rt xs l r s : at_rest xs l s → idle xs r → at_rest xs l (with_rt r s).
Proof. intros [] ?. by split. Qed.

Lemma start_rest xs l x s : at_rest xs l s → at_rest (xs ++ [x]) l (start_fiber env x s).
Proof.
  intros [[] Hn Hit Hb]. split; cbn; try done.
  2: { rewrite length_app, Hn. cbn. lia. }
  unfold resume_state, new_state. cbn. rewrite lookup_insert_eq. cbn.
  pose proof (Hbody (next_index s) x no_resume (world (rt s))) as Hsw.
  destruct (switch env (next_index s) x no_resume (world (rt s))) as [y w]. cbn in Hsw. subst y.
  split; cbn; try done; [lia|]. intros i. rewrite Hn. destruct (decide (i = length xs)) as [->|Hne].
  - rewrite lookup_insert_eq, list_lookup_middle by done. done.
  - rewrite lookup_insert_ne by done. rewrite idle_results0. f_equal.
    destruct (decide (i < length xs)%nat); [by rewrite lookup_app_l|].
    rewrite !lookup_ge_None_2; [done| |]; rewrite ?length_app; cbn; lia.
Qed.

Lemma rest_not_failed xs l s : at_rest xs l s → failed s = false.
Proof. intros [[] _ _ _]. unfold failed. rewrite idle_error0. by rewrite bool_decide_false by by intros [? ?]. Qed.

Lemma admit_rest position ys xs l s :
  at_rest xs l s →
  at_rest (xs ++ ys) l (admit_items env cfg position ys s) ∧
  source_exhausted (admit_items env cfg position ys s) = source_exhausted s.
Proof.
  revert position xs s. induction ys as [|y ys IH]; intros position xs s Hs; [by rewrite app_nil_r|].
  cbn [admit_items]. apply (start_rest _ _ y) in Hs as Hs1. rewrite (rest_not_failed _ _ _ Hs1).
  replace (xs ++ y :: ys) with ((xs ++ [y]) ++ ys) by by rewrite <- app_assoc.
  destruct (_ =? 0)%nat; [|by destruct (IH (Datatypes.S position) _ _ Hs1) as [? ->]].
  assert (at_rest (xs ++ [y]) l (with_rt (service env cfg (rt (start_fiber env y s))) (start_fiber env y s))) as Hs2
    by (apply rest_with_rt; [done|apply idle_service, Hs1]).
  rewrite (rest_not_failed _ _ _ Hs2). by destruct (IH (Datatypes.S position) _ _ Hs2) as [? ->].
Qed.

Lemma next_burst_pos requested added limit active burst :
  (1 ≤ burst)%nat → (1 ≤ next_burst cfg requested added limit active burst)%nat.
Proof using Hmax. clear Hburst. intros Hb. unfold next_burst, probe_burst, MIN_ADMISSION_BURST. repeat case_match; lia. Qed.

(** One turn starts and finishes the next slice of the items, or leaves the loop. *)
Lemma turn_rest xs l s :
  at_rest xs l s → source_exhausted s = false →
  ∃ c s' n, turn env cfg s = Ok (c, s') ∧ (1 ≤ n)%nat ∧ at_rest (xs ++ take n l) (drop n l) s' ∧
    match c with
    | Continue => source_exhausted s' = false ∧ l ≠ []
    | Break => drop n l = []
    | RaiseFirst _ => False
    end.
Proof.
  intros Hs Hex. unfold turn. set (s1 := with_rt (service env cfg (rt s)) s).
  assert (at_rest xs l s1) as Hs1 by (apply rest_with_rt; [done|apply idle_service, Hs]).
  rewrite (rest_not_failed _ _ _ Hs1). assert (source_exhausted s1 = false) as Hex1 by done.
  clearbody s1. clear s Hs Hex. unfold admission, read_limit.
  set (s2 := with_rt (yield_writer env cfg (rt s1)) s1).
  assert (at_rest xs l s2) as Hs2 by (apply rest_with_rt; [done|by destruct Hs1 as [[] _ _ _]]).
  pose proof (Hlimit (world (rt s2))) as Hl. destruct (limit_provider env (world (rt s2))) as [limit w].
  cbn [fst] in Hl. rewrite (proj2 (Z.ltb_ge limit 0)) by lia. cbn [negb require rbind].
  set (s3 := with_rt (set_world w (rt s2)) s2).
  assert (at_rest xs l s3) as Hs3 by (apply rest_with_rt; [done|by destruct Hs2 as [[] _ _ _]]).
  set (n := requested_items _ limit _ _).
  assert (1 ≤ n)%nat as Hn.
  { unfold n, requested_items. rewrite (idle_active _ _ (rest_idle _ _ _ Hs2)).
    pose proof (rest_burst _ _ _ Hs3). cbn [Z.ltb Z.compare andb]. lia. }
  unfold pull_items. destruct n as [|n']; [lia|]. rewrite (rest_iterator _ _ _ Hs3).
  change (source_exhausted s3) with (source_exhausted s1). rewrite Hex1.
  set (n := Datatypes.S n') in *. set (s4 := with_burst _ _).
  assert (at_rest xs (drop n l) s4) as Hs4.
  { destruct Hs3. split; cbn; try done. by apply next_burst_pos. }
  destruct (admit_rest 0 (take n l) _ _ _ Hs4) as [Hs5 Hex5].
  set (s5 := admit_items env cfg 0 (take n l) s4) in *. cbn [rbind fst snd].
  change (source_exhausted s4) with (bool_decide (length l < n)%nat) in Hex5.
  unfold settle. set (s6 := with_rt (resume_ready _ _ _ _) s5).
  assert (at_rest (xs ++ take n l) (drop n l) s6) as Hs6
    by (apply rest_with_rt; [done|apply idle_resume_ready, Hs5]).
  set (s7 := with_rt (service env cfg (rt s6)) s6).
  assert (at_rest (xs ++ take n l) (drop n l) s7) as Hs7
    by (apply rest_with_rt; [done|apply idle_service, Hs6]).
  change (source_exhausted s5) with (source_exhausted s7) in Hex5. clearbody s7.
  rewrite (idle_error _ _ (rest_idle _ _ _ Hs7)), (idle_active _ _ (rest_idle _ _ _ Hs7)),
    (idle_ready _ _ (rest_idle _ _ _ Hs7)), (rest_iterator _ _ _ Hs7). cbn [Z.eqb].
  rewrite (proj2 (Z.eqb_neq limit 0)) by lia. rewrite Hex5.
  case_bool_decide as Hlt.
  - exists Break, s7, n. split_and!; [done|done|done|]. by apply drop_ge; lia.
  - assert (l ≠ []) as Hne by (intros ->; cbn in Hlt; lia). cbn [negb bool_decide].
    rewrite bool_decide_true by done. cbn [negb].
    destruct (_ && _); [by exists Continue, s7, n|].
    exists Continue, (wait_event env s7), n. split_and!; try done.
    + destruct Hs7 as [[] ? ? ?]. unfold wait_event, next_wait_timeout, read_clock.
      destruct (monotonic env (world (rt s7))) as [now w']. cbn. rewrite idle_heap0. by split.
    + unfold wait_event. by destruct (next_wait_timeout env (rt s7)).
Qed.

Lemma run_loop_rest fuel xs l s :
  at_rest xs l s → source_exhausted s = false → (length l < fuel)%nat →
  ∃ s', run_loop env cfg fuel s = Some (Ok (body <$> xs ++ l), s').
Proof.
  revert xs l s. induction fuel as [|fuel IH]; intros xs l s Hs Hex Hf; [lia|]. cbn [run_loop].
  destruct (turn_rest _ _ _ Hs Hex) as (c & s' & n & -> & Hn & Hs' & Hc). destruct c as [| |e]; [| |done].
  - destruct Hc as [Hex' Hne]. destruct (IH _ _ _ Hs' Hex') as (s'' & Hr).
    { rewrite length_drop. destruct l; [done|]. cbn in *. lia. }
    exists s''. by rewrite <- app_assoc, take_drop in Hr.
  - exists s'. do 3 f_equal. rewrite <- (take_drop n l), Hc, app_nil_r.
    destruct Hs' as [Hi Hnext _ _]. set (ys := xs ++ take n l) in *.
    assert (dom (results (rt s')) = set_seq 0 (length ys)) as Hd.
    { apply set_eq. intros i. rewrite elem_of_dom, elem_of_set_seq, (idle_results _ _ Hi), fmap_is_Some,
        lookup_lt_is_Some. lia. }
    destruct (ordered_results_spec _ _ Hd) as [Hlen Hval]. apply list_eq_same_length with (length ys).
    + by rewrite length_fmap.
    + done.
    + intros i x y Hi' Hx Hy. destruct (Hval i Hi') as [He _]. rewrite He, (idle_results _ _ Hi) in Hx.
      rewrite list_lookup_fmap in Hy. congruence.
Qed.

Lemma run_source_plain now items w :
  ∃ s', run_source env cfg (Datatypes.S (length items)) now (Some items) w = Some (Ok (body <$> items), s').
Proof using All.
  apply (run_loop_rest _ [] items); [|done|lia].
  split; cbn; [|done|done|done]. by split.
Qed.

End plain.

(** ** Properties *)

(** A small surroundings for the concrete runs: every body waits for the future named
    by its item and returns its value plus one; the world is a tick counter, and each
    look at the other threads completes the future numbered by the current tick. *)
Definition demo_env : surroundings nat nat nat :=
  {| switch _ x res w := match res_value res with
                         | None => (FutureWait x None None, w)
                         | Some v => (Returned (v + 1)%nat, w)
                         end;
     run_check _ w := (None, w);
     monotonic w := (Z.of_nat w, S w);
     limit_provider w := (2, w);
     pull _ w := ([], w);
     wait_for_change := None;
     other_threads w := ([(w, Ok (10 * w)%nat)], S w);
     admission_pressure_provider := None;
     original_sleep w := S w;
     event_wait _ w := S w |}.

Definition demo_settings : settings := Settings 5 4 8 2 1 0.

(** At every head of the pump loop, the active count is the number of live
    fibers; no fiber is queued or asleep twice; and every live fiber is either queued
    or asleep (and not parked), or parked on one future that lists an active waiter for
    its current wait and that either still holds a registered callback or has already
    been queued as completed.  So no fiber is lost and no wake-up is missed. *)
Theorem every_fiber_accounted {val item W} (env : surroundings val item W) cfg now items w s
  (Hr : reachable env cfg now items w s) :
  let r := rt s in
  let free := (ready r).*1 ++ (sleeper_fiber <$> sleepers r) in
  active_count r = Z.of_nat (size (live_fibers (states r))) ∧
  dom (states r) = set_seq 0 (next_index s) ∧
  NoDup free ∧
  ∀ i st, states r !! i = Some st → fs_done st = false →
    match pending_future st with
    | None => i ∈ free
    | Some f =>
        (i ∉ free) ∧
        (∃ n, listed (future_waiters r) f n ∧ wakes (waiters r) n i st) ∧
        ((outcomes r !! f = None ∧ f ∈ callbacks r) ∨ f ∈ completed_futures r)
    end.
Proof.
  destruct (reachable_stays env cfg _ _ _ _ Hr) as (B & [((owner & Hc) & _ & HD & _) (_ & Hkey & _)] & _).
  cbn zeta. split_and!; [apply Hc|exact HD|apply Hc|]. intros i st Hst Hd.
  pose proof (core_place _ _ _ _ _ _ _ _ Hc i st Hst) as Hp.
  destruct (pending_future st) as [f|] eqn:Hf; [|by apply Hp].
  destruct (core_parked _ _ _ _ _ _ _ _ Hc i st f Hst Hf) as (n & Hn & Hw).
  split_and!; [intros Hin; apply Hp in Hin as [_ ?]; done|eauto|].
  apply Hkey. destruct Hn as (ws & Hin & _). apply list_elem_of_fmap. by exists (f, ws).
Qed.

Lemma every_fiber_accounted_witness :
  ∃ s, turn demo_env demo_settings (loop_init demo_settings 0 (Some [3; 40]%nat) 0%nat) = Ok (Continue, s) ∧
    active_count (rt s) = 2 ∧ active_count (rt s) = Z.of_nat (size (live_fibers (states (rt s)))).
Proof.
  destruct (turn demo_env demo_settings (loop_init demo_settings 0 (Some [3; 40]%nat) 0%nat)) as [[c s]|] eqn:Ht.
  2: { vm_compute in Ht. discriminate Ht. }
  pose proof Ht as Hv. vm_compute in Hv. injection Hv as <- Hs.
  exists s. split; [reflexivity|]. split; [rewrite <- Hs; reflexivity|].
  apply (every_fiber_accounted demo_env demo_settings 0 (Some [3; 40]%nat) 0%nat).
  eapply reach_turn; [apply reach_init|exact Ht].
Defined.

(** The pump never runs more jobs at once than the limit provider allows: if the
    provider stays at or below [M] and the source returns at most what it is asked
    for, the active fibers never exceed [M]. *)
Theorem concurrency_bounded {val item W} (env : surroundings val item W) cfg now items w s M
  (Hr : reachable env cfg now items w s) (HM : limited env M) (H0 : 0 ≤ M) :
  Z.of_nat (size (live_fibers (states (rt s)))) ≤ M.
Proof.
  destruct (reachable_stays env cfg _ _ _ _ Hr) as (B & [((owner & Hc) & _ & _ & HB) _] & Hbound).
  rewrite <- (core_count _ _ _ _ _ _ _ _ Hc). specialize (Hbound M HM H0). lia.
Qed.

Lemma concurrency_bounded_witness :
  ∃ s, turn demo_env demo_settings (loop_init demo_settings 0 (Some [30; 40; 50]%nat) 0%nat) = Ok (Continue, s) ∧
    Z.of_nat (size (live_fibers (states (rt s)))) ≤ 2.
Proof.
  destruct (turn demo_env demo_settings (loop_init demo_settings 0 (Some [30; 40; 50]%nat) 0%nat)) as [[c s]|] eqn:Ht.
  2: { vm_compute in Ht. discriminate Ht. }
  pose proof Ht as Hv. vm_compute in Hv. injection Hv as <- Hs.
  exists s. split; [reflexivity|].
  apply (concurrency_bounded demo_env demo_settings 0 (Some [30; 40; 50]%nat) 0%nat s 2); [|split|lia].
  - eapply reach_turn; [apply reach_init|exact Ht].
  - intros. cbn. lia.
  - intros. cbn. lia.
Defined.

(** How [run_source] ends.  A normal return means no fiber failed, none is left
    running, and the list holds the result of every started item, in start order.  A
    raise is either the first failure of a fiber, only after every started fiber has
    exited, or the rejection of a negative limit. *)
Theorem run_source_outcome {val item W} (env : surroundings val item W) cfg fuel now items w res s
  (Hrun : run_source env cfg fuel now items w = Some (res, s)) :
  match res with
  | Ok vs =>
      first_error (rt s) = None ∧ active_count (rt s) = 0 ∧ length vs = next_index s ∧
      ∀ i, (i < next_index s)%nat → vs !! i = results (rt s) !! i ∧ is_Some (vs !! i)
  | Err e =>
      (first_error (rt s) = Some e ∧ active_count (rt s) = 0) ∨ turn env cfg s = Err e
  end.
Proof.
  destruct (run_loop_reachable env cfg _ _ _ _ _ _ _ (reach_init env cfg now items w) Hrun)
    as [(c & s0 & Hs0 & Ht & Hc)|(e & Hs & Ht & ->)]; [|by right].
  destruct (reachable_stays env cfg _ _ _ _ Hs0) as (B & Hwf & _).
  destruct (turn_ok env cfg _ _ _ _ Hwf Ht) as [(B' & Hwf' & _) Hex].
  destruct c as [| |e]; [done| |]; subst res; [|by left]. destruct Hex as [He Ha].
  destruct (ordered_results_spec (rt s) (next_index s)) as [Hlen Hval].
  { by eapply settled_results. }
  split_and!; try done. intros i Hi. destruct (Hval i Hi) as [-> ?]. done.
Qed.

Lemma run_source_outcome_witness :
  ∃ s, run_source demo_env demo_settings 20 0 (Some [9; 5; 12]%nat) 0%nat = Some (Ok [91; 51; 121]%nat, s) ∧
    first_error (rt s) = None.
Proof.
  destruct (run_source demo_env demo_settings 20 0 (Some [9; 5; 12]%nat) 0%nat) as [[res s]|] eqn:Hr.
  2: { vm_compute in Hr. discriminate Hr. }
  pose proof Hr as Hv. vm_compute in Hv. injection Hv as <- Hs.
  exists s. split; [reflexivity|].
  apply (run_source_outcome demo_env demo_settings 20 0 (Some [9; 5; 12]%nat) 0%nat (Ok _) s Hr).
Defined.

(** A completed future resumes its fibers.  At any loop head, a fiber parked on a
    future whose completion is queued is, after [_process_futures], off the future and
    in the ready queue with exactly that future's value or exception. *)
Theorem completion_wakes_fiber {val item W} (env : surroundings val item W) cfg now items w s i st f
  (Hr : reachable env cfg now items w s) (Hst : states (rt s) !! i = Some st)
  (Hf : pending_future st = Some f) (Hq : f ∈ completed_futures (rt s)) :
  let r' := process_futures env (rt s) in
  states r' !! i = Some (with_pending None st) ∧
  (i, future_result_now f (rt s)) ∈ ready r' ∧ is_Some (outcomes (rt s) !! f) ∧
  (completed_futures r' ≠ [] → wake_event r' = true).
Proof.
  destruct (reachable_stays env cfg _ _ _ _ Hr) as (B & Hwf & _).
  destruct (process_futures_wakes env _ _ _ _ i st f Hwf Hst Hf Hq) as [H1 H2].
  destruct (wf_process_futures env _ _ _ _ Hwf) as [_ Haw].
  pose proof Hwf as [_ (_ & _ & Hout & _)]. cbn zeta. split_and!; [done|done|by apply Hout|done].
Qed.

Lemma completion_wakes_fiber_witness :
  ∃ s, turn demo_env demo_settings (loop_init demo_settings 0 (Some [5]%nat) 0%nat) = Ok (Continue, s) ∧
    (0%nat, Resume (Some 50%nat) None) ∈ ready (process_futures demo_env (rt s)).
Proof.
  destruct (turn demo_env demo_settings (loop_init demo_settings 0 (Some [5]%nat) 0%nat)) as [[c s]|] eqn:Ht.
  2: { vm_compute in Ht. discriminate Ht. }
  pose proof Ht as Hv. vm_compute in Hv. injection Hv as <- Hs.
  exists s. split; [reflexivity|].
  replace (Resume (Some 50%nat) None) with (future_result_now 5%nat (rt s)) by (rewrite <- Hs; reflexivity).
  eapply (completion_wakes_fiber demo_env demo_settings 0 (Some [5]%nat) 0%nat s 0%nat
    (FiberState 5%nat false 1 (Some 5%nat)) 5%nat).
  - eapply reach_turn; [apply reach_init|exact Ht].
  - rewrite <- Hs. reflexivity.
  - reflexivity.
  - rewrite <- Hs. left.
Defined.

(** For bodies that never suspend, the pump computes exactly what a sequential loop
    would: with positive limits and accepted settings, [run_source] over any list returns after at
    most one turn per item plus one, with the bodies' results in item order. *)
Theorem run_source_map {val item W} (env : surroundings val item W) cfg (body : item → val) now items w
  (Hbody : ∀ i x res w, (switch env i x res w).1 = Returned (body x))
  (Hlimit : ∀ w, 1 ≤ (limit_provider env w).1)
  (Hcfg : ∃ poll start mx interval writer wait, make_settings poll start mx interval writer wait = Ok cfg) :
  ∃ s, run_source env cfg (S (length items)) now (Some items) w = Some (Ok (body <$> items), s).
Proof.
  destruct Hcfg as (poll & start & mx & interval & writer & wait & Hcfg). unfold make_settings in Hcfg.
  inv_ok. by apply run_source_plain; try done; cbn; lia.
Qed.

Definition plain_env : surroundings nat nat nat :=
  {| switch _ x _ w := (Returned (x * x)%nat, w);
     run_check _ w := (None, w);
     monotonic w := (Z.of_nat w, S w);
     limit_provider w := (3, w);
     pull _ w := ([], w);
     wait_for_change := None;
     other_threads w := ([], w);
     admission_pressure_provider := None;
     original_sleep w := S w;
     event_wait _ w := S w |}.

Lemma run_source_map_witness :
  ∃ s, run_source plain_env demo_settings 6 0 (Some [1; 2; 3; 4; 5]%nat) 0%nat
    = Some (Ok [1; 4; 9; 16; 25]%nat, s).
Proof.
  apply (run_source_map plain_env demo_settings (λ x, x * x)%nat 0 [1; 2; 3; 4; 5]%nat 0%nat).
  - intros. reflexivity.
  - intros. cbn. lia.
  - exists 5, 4, 8, 2, 1, 0. reflexivity.
Defined.
