(* ===== verification/TaskExecution.v ===== *)
(** Task execution ([workflow/task_execution.py]): the call of a mounted handler, its
    supervision in the three runner modes, retries and repeats, and fallbacks.

    The code's effects are a log of the framework's own actions and an outside world.
    The handlers, the supervisor's verdicts and the storage faults are read from the
    world through [surroundings]; every framework action is logged first and may then
    fail, so an error can strike at any point. *)
From S2P Require Import Prelude.

(** The classes [except Exception] does not catch. *)
Definition is_exception (e : exc) : bool := negb (bool_decide (exc_cls e = KeyboardInterrupt)).

(** [ApiPermitStateError] and [JobRestartedError], which no retry or fallback absorbs. *)
Definition is_fatal (e : exc) : bool :=
  bool_decide (exc_cls e = ApiPermitStateError) || bool_decide (exc_cls e = JobRestartedError)
  || negb (is_exception e).

Inductive role := MainRole | FallbackRole.

#[export] Instance role_eq_dec : EqDecision role.
Proof. solve_decision. Defined.

Section execution.
Context {json V W : Type}.

(** A parameter value: a stored one, or the injected [error] and [errors]. *)
Inductive param :=
  | PJson (v : json)
  | PError (e : option exc)
  | PErrors (l : list exc).

(** A mounted task. *)
Record mounted := Mounted {
  m_name : string;
  m_retries : nat;
  m_repeats : nat;
  m_allowed : gset string;
  m_required : gset string
}.

(** [self._job_context]: node, job, generation and execution id of the running call. *)
Record job_context := JobContext {
  jc_node : option string;
  jc_job : option Z;
  jc_generation : option Z;
  jc_execution : option string
}.

Record job := Job { j_node : string; j_id : Z; j_params : gmap string json }.

(** One handler call: what identifies it and what it is given. *)
Record invocation := Invocation {
  i_task : string;
  i_role : role;
  i_attempt : nat;
  i_repeat : nat;
  i_params : gmap string param;
  i_error : option exc;
  i_errors : list exc
}.

Inductive attempt_state := Completed | Failed | Superseded | TimedOut.

(** The framework's actions, in the order the code performs them. *)
Inductive action :=
  | TaskStarted (task : string) (r : role) (attempt repeat : nat) (previous : option exc)
  | TaskFailed (task : string) (r : role) (attempt repeat : nat) (error : exc)
  | RetryStarted (task : string) (attempt attempts : nat) (previous : exc)
  | FallbackStarted (task : string) (previous : exc)
  | WriteDebug (text : string)
  | CreateAttempt (task : string) (attempt repeat : nat)
  | BeginHandler
  | HandlerExit
  | FlushEvents
  | SignalComplete
  | FinishAttempt (state : attempt_state) (error : option exc)
  | CheckExecution.

Record tstate := TState { context : job_context; log : list action; world : W }.

Definition with_context c s := TState c (log s) (world s).
Definition with_world w s := TState (context s) (log s) w.

Record surroundings := Surroundings {
  handler : invocation → W → result V * W;
  fault : action → W → option exc * W;
  execution_cancel_error : W → option exc * W;
  timeout_error : W → option exc * W;
  check_without_pause : W → option exc * W;
  cancelled : W → option exc * W;
  finished_before_wake : W → bool * W
}.

Context (env : surroundings).

(** A framework action: logged, then possibly failing. *)
Definition perform (a : action) : cmd tstate unit := λ s,
  let '(e, w) := fault env a (world s) in
  let s := TState (context s) (log s ++ [a]) w in
  match e with Some e => (Err e, s) | None => (Ok tt, s) end.

Definition ask {A} (f : W → A * W) : cmd tstate A := λ s,
  let '(a, w) := f (world s) in (Ok a, with_world w s).

(** A check that raises what the world answers. *)
Definition check_with (f : W → option exc * W) : cmd tstate unit :=
  do! e := ask f in match e with Some e => throw e | None => ret tt end.

(** Perform an action and drop its failure ([except BaseException: pass]). *)
Definition attempt_quietly (a : action) : cmd tstate unit := catch (perform a) (λ _, ret tt).

(** [_call_mounted_handler].  [c] is the context of this call. *)
Definition call_mounted_handler (i : invocation) (c : job_context) : cmd tstate V := λ s,
  let previous := context s in
  finally
    (do! result :=
       catch (λ s, let '(r, w) := handler env i (world s) in (r, with_world w s))
         (λ e, do! _ := perform HandlerExit in
               do! _ := attempt_quietly FlushEvents in
               throw e) in
     do! _ := perform HandlerExit in
     do! _ := perform FlushEvents in
     ret result)
    (with_context previous) (with_context c s).

Inductive mode := FiberMode | InlineMode | ThreadMode.

(** [finish_attempt] with an error, then [raise]. *)
Definition finish_raising (st : attempt_state) (e : exc) : cmd tstate V :=
  do! _ := perform (FinishAttempt st (Some e)) in throw e.

(** The fiber branch of [_invoke_handler_with_timeout]. *)
Definition invoke_fiber (i : invocation) (c : job_context) : cmd tstate V :=
  do! outcome :=
    catch
      (do! _ := perform BeginHandler in
       do! result := call_mounted_handler i c in
       do! _ := check_with (check_without_pause env) in
       ret (inl result : V + exc))
      (λ e, ret (inr e)) in
  match outcome with
  | inl result =>
      do! _ := perform SignalComplete in
      do! _ := perform (FinishAttempt Completed None) in
      ret result
  | inr error =>
      do! restart := ask (execution_cancel_error env) in
      do! timeout := ask (timeout_error env) in
      if bool_decide (exc_cls error = ApiPermitStateError) then finish_raising Failed error
      else match restart, timeout with
           | Some e, _ => finish_raising Superseded e
           | None, Some e => finish_raising TimedOut e
           | None, None => finish_raising Failed error
           end
  end.

(** The branch without a handler thread. *)
Definition invoke_inline (i : invocation) (c : job_context) : cmd tstate V :=
  do! outcome :=
    catch
      (do! _ := perform BeginHandler in
       do! result := call_mounted_handler i c in
       ret (inl result : V + exc))
      (λ e, ret (inr e)) in
  match outcome with
  | inl result => do! _ := perform (FinishAttempt Completed None) in ret result
  | inr error => finish_raising Failed error
  end.

(** What the handler thread puts in the queue, and its completion signal. *)
Definition thread_target (i : invocation) (c : job_context) : cmd tstate (V + exc) :=
  do! outcome :=
    catch
      (do! _ := perform BeginHandler in
       do! result := call_mounted_handler i c in
       ret (inl result : V + exc))
      (λ e, ret (inr e)) in
  do! _ := attempt_quietly SignalComplete in
  ret outcome.

(** The branch with a handler thread.  The controller wakes because the handler has
    finished, or earlier because of a deadline or a changed lease; in that case the
    handler is abandoned, and what it does later is not part of this execution. *)
Definition invoke_thread (i : invocation) (c : job_context) : cmd tstate V :=
  do! finished := ask (finished_before_wake env) in
  do! early := (if finished : bool then do! o := thread_target i c in ret (Some o) else ret None) in
  do! restart := ask (execution_cancel_error env) in
  match restart with
  | Some e => finish_raising Superseded e
  | None =>
      do! timeout := ask (timeout_error env) in
      match timeout with
      | Some e => finish_raising TimedOut e
      | None =>
          do! outcome := match early with Some o => ret o | None => thread_target i c end in
          match outcome with
          | inr error => finish_raising Failed error
          | inl result => do! _ := perform (FinishAttempt Completed None) in ret result
          end
      end
  end.

Definition invoke_handler_with_timeout (md : mode) (i : invocation) (c : job_context) : cmd tstate V :=
  match md with
  | FiberMode => invoke_fiber i c
  | InlineMode => invoke_inline i c
  | ThreadMode => invoke_thread i c
  end.

(** *** [execute_mounted_task] *)

(** The job, the runner mode and the execution lease of one pipeline run. *)
Context (jb : job) (md : mode) (generation : Z) (execution_id : option string).
Context (check_current : W → bool * W).

(** [check_job_execution]. *)
Definition check_job_execution : cmd tstate unit :=
  match execution_id with
  | None => ret tt
  | Some _ =>
      do! _ := perform CheckExecution in
      do! current := ask check_current in
      if current : bool then ret tt else throw (Exc JobRestartedError "restarted")
  end.

(** The parameters of one call: the job's allowed ones, and the injected errors. *)
Definition call_params (t : mounted) (previous_error : option exc) (failure_history : list exc)
  : gmap string param :=
  let params := PJson <$> filter (λ p, p.1 ∈ m_allowed t) (j_params jb) in
  let params := if bool_decide ("error" ∈ m_allowed t) then <["error" := PError previous_error]> params else params in
  if bool_decide ("errors" ∈ m_allowed t) then <["errors" := PErrors failure_history]> params else params.

Definition own_context : job_context :=
  JobContext (Some (j_node jb)) (Some (j_id jb)) (Some generation) execution_id.

(** One pass of the repeat loop's body. *)
Definition run_repeat (t : mounted) (r : role) (pre_recorded : bool) (attempt repeat : nat)
    (previous_error : option exc) (failure_history : list exc) : cmd tstate V :=
  let params := call_params t previous_error failure_history in
  do! _ := (if bool_decide (m_required t ⊆ dom params) then ret tt
            else throw (Exc InvalidJobError "Missing params")) in
  do! _ := (if pre_recorded && bool_decide (r = MainRole) && (attempt =? 1) && (repeat =? 1) then ret tt
            else perform (TaskStarted (m_name t) r attempt repeat previous_error)) in
  do! _ := perform (CreateAttempt (m_name t) attempt repeat) in
  do! result := invoke_handler_with_timeout md
    (Invocation (m_name t) r attempt repeat params previous_error failure_history) own_context in
  do! _ := check_with (cancelled env) in
  ret result.

(** [for repeat_index in range(...)]: the results, or the failing repeat and its error. *)
Fixpoint run_repeats (t : mounted) (r : role) (pre_recorded : bool) (attempt : nat)
    (previous_error : option exc) (failure_history : list exc) (count repeat : nat)
  : cmd tstate (list V + nat * exc) :=
  match count with
  | O => ret (inl [])
  | S count =>
      do! one := catch (do! v := run_repeat t r pre_recorded attempt repeat previous_error failure_history in
                        ret (inl v : V + exc)) (λ e, ret (inr e)) in
      match one with
      | inr e => ret (inr (repeat, e))
      | inl v =>
          do! rest := run_repeats t r pre_recorded attempt previous_error failure_history count (S repeat) in
          match rest with
          | inl vs => ret (inl (v :: vs))
          | inr p => ret (inr p)
          end
      end
  end.

(** [all_results[0] if len(all_results) == 1 else all_results]; [None] for a task
    whose attempt loop is empty cannot occur, as [retries + 1] is positive. *)
Inductive task_result := OneResult (v : V) | AllResults (vs : list V).

Definition collapse (vs : list V) : task_result :=
  match vs with [v] => OneResult v | _ => AllResults vs end.

(** The attempt loop.  [remaining] attempts are left, the current one is number [attempt];
    [failure_history] is the caller's list, mutated in place: it is threaded through
    and returned beside the outcome. *)
Fixpoint run_attempts (t : mounted) (r : role) (pre_recorded : bool) (remaining attempt : nat)
    (previous_error : option exc) (failure_history : list exc)
  : cmd tstate (result task_result * list exc) :=
  match remaining with
  | O => ret (Ok (AllResults []), failure_history)
  | S remaining =>
      do! outcome := run_repeats t r pre_recorded attempt previous_error failure_history (m_repeats t) 1 in
      match outcome with
      | inl vs => ret (Ok (collapse vs), failure_history)
      | inr (repeat, error) =>
          if is_fatal error then ret (Err error, failure_history)
          else
            do! logged := catch (do! _ := perform (TaskFailed (m_name t) r attempt repeat error) in ret None)
                                (λ e, ret (Some e)) in
            match logged with
            | Some e => ret (Err e, failure_history)
            | None =>
                let failure_history := failure_history ++ [error] in
                match remaining with
                | O => ret (Err error, failure_history)
                | S _ =>
                    do! raised :=
                      catch
                        (do! _ := check_job_execution in
                         do! _ := perform (WriteDebug "retrying") in
                         do! _ := perform (RetryStarted (m_name t) (S attempt) (S (m_retries t)) error) in
                         ret None)
                        (λ e, ret (Some e)) in
                    match raised with
                    | Some e => ret (Err e, failure_history)
                    | None => run_attempts t r pre_recorded remaining (S attempt) (Some error) failure_history
                    end
                end
            end
      end
  end.

Definition execute_mounted_task (t : mounted) (r : role) (pre_recorded : bool)
    (previous_error : option exc) (failure_history : list exc)
  : cmd tstate (result task_result * list exc) :=
  run_attempts t r pre_recorded (S (m_retries t)) 1 previous_error failure_history.

(** *** [execute_with_fallbacks] *)

(** What follows a failed task: the lease check and the debug line. *)
Definition after_failure (text : string) : cmd tstate unit :=
  do! _ := check_job_execution in perform (WriteDebug text).

(** The fallback loop.  [failure_history[-1]] raises on an empty list. *)
Fixpoint run_fallbacks (fallbacks : list mounted) (main_error terminal_error : exc)
    (failure_history : list exc) : cmd tstate task_result :=
  match fallbacks with
  | [] => throw terminal_error
  | f :: fallbacks =>
      match last failure_history with
      | None => throw (Exc UserError "IndexError: list index out of range")
      | Some previous_error =>
          do! _ := perform (WriteDebug "trying fallback") in
          do! _ := perform (FallbackStarted (m_name f) main_error) in
          do! p := execute_mounted_task f FallbackRole false (Some previous_error) failure_history in
          match p with
          | (Ok v, _) => ret v
          | (Err e, history) =>
              if is_fatal e then throw e
              else do! _ := after_failure "fallback failed" in
                   run_fallbacks fallbacks main_error e history
          end
      end
  end.

Definition execute_with_fallbacks (main : mounted) (fallbacks : list mounted) (pre_recorded : bool)
  : cmd tstate task_result :=
  do! p := execute_mounted_task main MainRole pre_recorded None [] in
  match p with
  | (Ok v, _) => ret v
  | (Err e, history) =>
      if is_fatal e then throw e
      else do! _ := after_failure "main task failed" in run_fallbacks fallbacks e e history
  end.

(** ** Specification: one flat chain of attempts *)

(** A task, the role it plays and the number of an attempt at it. *)
Definition candidate : Type := mounted * role * nat.

Definition candidates_of (t : mounted) (r : role) : list candidate :=
  (λ k, (t, r, k)) <$> seq 1 (S (m_retries t)).

(** Every attempt the pipeline may make: the main task's, then each fallback's. *)
Definition all_candidates (main : mounted) (fallbacks : list mounted) : list candidate :=
  candidates_of main MainRole ++ (f ← fallbacks; candidates_of f FallbackRole).

Definition failed_text (r : role) : string :=
  match r with MainRole => "main task failed" | FallbackRole => "fallback failed" end.

(** What is recorded between a failed attempt and the next one. *)
Definition announce (c : candidate) (error main_error : exc) (next : list candidate) : cmd tstate unit :=
  let '(t, r, k) := c in
  match next with
  | (_, _, S (S _)) :: _ =>
      do! _ := perform (WriteDebug "retrying") in
      perform (RetryStarted (m_name t) (S k) (S (m_retries t)) error)
  | (t', _, _) :: _ =>
      do! _ := perform (WriteDebug (failed_text r)) in
      do! _ := perform (WriteDebug "trying fallback") in
      perform (FallbackStarted (m_name t') main_error)
  | [] => perform (WriteDebug (failed_text r))
  end.

(** Make the attempts one after the other until one succeeds or fails fatally.  Every
    attempt is given all errors so far; after each failure the failure is recorded and
    the lease is checked once; when no attempt is left the last error is raised. *)
Fixpoint chain (pre_recorded : bool) (cs : list candidate) (errors : list exc) (main_error : exc)
  : cmd tstate task_result :=
  match cs with
  | [] => throw (default main_error (last errors))
  | (t, r, k) :: cs =>
      do! outcome := run_repeats t r pre_recorded k (last errors) errors (m_repeats t) 1 in
      match outcome with
      | inl vs => ret (collapse vs)
      | inr (repeat, e) =>
          if is_fatal e then throw e
          else
            let main_error := if bool_decide (r = MainRole) then e else main_error in
            do! _ := perform (TaskFailed (m_name t) r k repeat e) in
            do! _ := check_job_execution in
            do! _ := announce (t, r, k) e main_error cs in
            chain pre_recorded cs (errors ++ [e]) main_error
      end
  end.

End execution.

(** ** Proofs *)

Section facts.
Context {json V W : Type} (env : @surroundings json V W) (jb : @job json) (md : mode).
Context (generation : Z) (execution_id : option string) (check_current : W → bool * W).

Abbreviation repeats := (run_repeats env jb md generation execution_id).
Abbreviation attempts := (run_attempts env jb md generation execution_id check_current).
Abbreviation check := (check_job_execution env execution_id check_current).
Abbreviation the_chain := (chain env jb md generation execution_id check_current).
Abbreviation fallbacks_loop := (run_fallbacks env jb md generation execution_id check_current).
Abbreviation pipeline := (execute_with_fallbacks env jb md generation execution_id check_current).

Lemma cbind_run {St A B} (m : cmd St A) (k : A → cmd St B) s :
  cbind m k s = match m s with (Ok a, s) => k a s | (Err e, s) => (Err e, s) end.
Proof. done. Qed.

(** Evaluate the first step of a sequence. *)
Lemma cbind_step {St A B} (m : cmd St A) s r s1 (H : m s = (r, s1)) (k : A → cmd St B) :
  cbind m k s = match r with Ok a => k a s1 | Err e => (Err e, s1) end.
Proof. unfold cbind. rewrite H. by destruct r. Qed.

Lemma cbind_assoc {St A B C} (m : cmd St A) (k : A → cmd St B) (k' : B → cmd St C) s :
  cbind (cbind m k) k' s = cbind m (λ a, cbind (k a) k') s.
Proof. unfold cbind. by destruct (m s) as [[a|e] s1]. Qed.

Lemma catch_step {St A} (m : cmd St A) s r s1 (H : m s = (r, s1)) h :
  catch m h s = match r with Ok a => (Ok a, s1) | Err e => h e s1 end.
Proof. unfold catch. rewrite H. by destruct r. Qed.

Lemma run_repeats_total t r pre a pe hist n i s : ∃ o s', repeats t r pre a pe hist n i s = (Ok o, s').
Proof.
  revert i s. induction n as [|n IH]; intros i s; cbn; [by eexists _, _|].
  unfold cbind at 1. unfold catch.
  destruct (cbind (run_repeat env jb md generation execution_id t r pre a i pe hist) _ s) as [[o|e] s1]; cbn.
  - destruct o as [v|e]; [|by eexists _, _]. unfold cbind.
    destruct (IH (S i) s1) as ([vs|p] & s2 & ->); cbn; by eexists _, _.
  - by eexists _, _.
Qed.

Lemma run_repeats_fallback t pre pre' a pe hist n i s :
  repeats t FallbackRole pre a pe hist n i s = repeats t FallbackRole pre' a pe hist n i s.
Proof.
  revert i s. induction n as [|n IH]; intros i s; [done|]. cbn [run_repeats].
  assert (∀ s, run_repeat env jb md generation execution_id t FallbackRole pre a i pe hist s
    = run_repeat env jb md generation execution_id t FallbackRole pre' a i pe hist s) as Hone.
  { intros s1. unfold run_repeat. rewrite !(bool_decide_false (FallbackRole = MainRole)) by discriminate. by rewrite !andb_false_r. }
  unfold cbind, catch. rewrite Hone.
  destruct (run_repeat env jb md generation execution_id t FallbackRole pre' a i pe hist s) as [[v|e] s1];
    cbn; [|done]. by rewrite IH.
Qed.

Section quiet.
Context (Hquiet : ∀ a w, (fault env a w).1 = None).

Lemma perform_quiet a s : perform env a s = (Ok tt, (perform env a s).2).
Proof.
  unfold perform. pose proof (Hquiet a (world s)) as H. destruct (fault env a (world s)) as [e w].
  cbn in H. by subst e.
Qed.

Lemma perform_then {B} a (k : unit → cmd tstate B) s : cbind (perform env a) k s = k tt (perform env a s).2.
Proof. unfold cbind. by rewrite perform_quiet. Qed.

Lemma check_cases s :
  (∃ s', check s = (Ok tt, s')) ∨ (∃ e s', check s = (Err e, s') ∧ is_fatal e = true).
Proof.
  unfold check_job_execution. destruct execution_id; [|left; by eexists]. rewrite perform_then.
  unfold cbind, ask. destruct (check_current _) as [[] w]; [left; by eexists|].
  right. by eexists _, _.
Qed.

Lemma try_perform a s :
  catch (do! _ := perform env a in ret None) (λ e, ret (Some e)) s = (Ok None, (perform env a s).2).
Proof. unfold catch. by rewrite perform_then. Qed.

Lemma try_announce a b s :
  catch (do! _ := check in do! _ := perform env a in do! _ := perform env b in ret None)
    (λ e, ret (Some e)) s
  = match check s with
    | (Ok _, s) => (Ok None, (perform env b (perform env a s).2).2)
    | (Err e, s) => (Ok (Some e), s)
    end.
Proof.
  unfold catch. destruct (check s) as [rc s1] eqn:Hc. rewrite (cbind_step _ _ _ _ Hc).
  destruct rc; [|done]. by rewrite !perform_then.
Qed.

Lemma run_attempts_step t r pre n k pe hist :
  attempts t r pre (S (S n)) k pe hist =
  (do! outcome := repeats t r pre k pe hist (m_repeats t) 1 in
   match outcome with
   | inl vs => ret (Ok (collapse vs), hist)
   | inr (repeat, error) =>
      if is_fatal error then ret (Err error, hist)
      else
        do! logged := catch (do! _ := perform env (TaskFailed (m_name t) r k repeat error) in ret None)
                            (λ e, ret (Some e)) in
        match logged with
        | Some e => ret (Err e, hist)
        | None =>
            do! raised :=
              catch
                (do! _ := check in
                 do! _ := perform env (WriteDebug "retrying") in
                 do! _ := perform env (RetryStarted (m_name t) (S k) (S (m_retries t)) error) in
                 ret None)
                (λ e, ret (Some e)) in
            match raised with
            | Some e => ret (Err e, hist ++ [error])
            | None => attempts t r pre (S n) (S k) (Some error) (hist ++ [error])
            end
        end
   end).
Proof. done. Qed.

(** What the caller does with a task's outcome, before going on with [next]. *)
Definition on_outcome (r : role) (next : exc → list exc → cmd (@tstate W) (@task_result V))
    (p : result (@task_result V) * list exc) : cmd tstate task_result :=
  match p with
  | (Ok v, _) => ret v
  | (Err e, history) =>
      if is_fatal e then throw e
      else do! _ := check in do! _ := perform env (WriteDebug (failed_text r)) in next e history
  end.

(** The candidates after a task's last attempt start a new task. *)
Definition fresh_head (cs : list candidate) : Prop :=
  match cs with [] => True | (_, _, k) :: _ => k = 1%nat end.

Lemma attempts_chain t r pre n cs next k hist me s :
  (1 ≤ k)%nat → fresh_head cs → (S (m_retries t) = k + n)%nat →
  (∀ e h s, last h = Some e →
     cbind (perform env (WriteDebug (failed_text r))) (λ _, next e h) s
     = cbind (announce env (t, r, S (m_retries t)) e (if bool_decide (r = MainRole) then e else me) cs)
         (λ _, the_chain pre cs h (if bool_decide (r = MainRole) then e else me)) s) →
  cbind (attempts t r pre (S n) k (last hist) hist) (on_outcome r next) s
  = the_chain pre (((λ j, (t, r, j)) <$> seq k (S n)) ++ cs) hist me s.
Proof.
  intros Hk Hcs. revert k hist me s Hk. induction n as [|n IH]; intros k hist me s Hk Hn Hnext.
  - destruct (run_repeats_total t r pre k (last hist) hist (m_repeats t) 1 s) as (o & s1 & Hrep).
    cbn [run_attempts seq fmap list_fmap app chain]. rewrite (cbind_step _ _ _ _ Hrep).
    rewrite (cbind_step _ _ (Ok (match o with
      | inl vs => (Ok (collapse vs), hist)
      | inr (_, e) => (Err e, if is_fatal e then hist else hist ++ [e]) end))
      (match o with
       | inl _ => s1
       | inr (rep, e) => if is_fatal e then s1 else (perform env (TaskFailed (m_name t) r k rep e) s1).2
       end)).
    2: { rewrite (cbind_step _ _ _ _ Hrep). destruct o as [vs|[rep e]]. { done. }
         destruct (is_fatal e); [done|]. unfold cbind, catch. by rewrite perform_quiet. }
    destruct o as [vs|[rep e]]; [done|]. cbn [on_outcome]. destruct (is_fatal e); [done|].
    rewrite perform_then. set (s2 := (perform env _ s1).2).
    destruct (check s2) as [rc s3] eqn:Hc. rewrite !(cbind_step _ _ _ _ Hc).
    destruct rc as [[]|e']; [|done]. replace k with (S (m_retries t)) by lia. apply Hnext, last_snoc.
  - destruct (run_repeats_total t r pre k (last hist) hist (m_repeats t) 1 s) as (o & s1 & Hrep).
    cbn [seq fmap list_fmap app chain]. rewrite (cbind_step _ _ _ _ Hrep).
    rewrite cbind_run. rewrite run_attempts_step, (cbind_step _ _ _ _ Hrep).
    destruct o as [vs|[rep e]]; [done|]. destruct (is_fatal e) eqn:Hf; [cbn; by rewrite Hf|].
    rewrite perform_then.
    rewrite (cbind_step _ _ _ _ (try_perform _ s1)). set (s2 := (perform env _ s1).2).
    set (p1 := WriteDebug "retrying"). set (p2 := RetryStarted _ _ _ _).
    pose proof (try_announce p1 p2 s2) as Htry.
    destruct (check_cases s2) as [(s3 & Hc)|(e' & s3 & Hc & Hf')]; rewrite Hc in Htry;
      rewrite (cbind_step _ _ _ _ Htry), (cbind_step _ _ _ _ Hc); [|cbn; by rewrite Hf'].
    destruct k as [|k]; [lia|]. cbn [announce]. rewrite (cbind_step _ _ (Ok tt) (perform env p2 (perform env p1 s3).2).2).
    2: { by rewrite perform_then, perform_quiet. }
    replace (Some e) with (last (hist ++ [e])) by apply last_snoc.
    rewrite <- cbind_run.
    set (me' := if bool_decide (r = MainRole) then e else me).
    etransitivity; [apply (IH (S (S k)) (hist ++ [e]) me'); [lia|lia|]|reflexivity].
    intros e2 h2 s4 Hl. rewrite (Hnext e2 h2 s4 Hl). unfold me'. by destruct (bool_decide (r = MainRole)).
Qed.

Lemma attempts_fallback t pre pre' n k pe hist s :
  attempts t FallbackRole pre n k pe hist s = attempts t FallbackRole pre' n k pe hist s.
Proof.
  revert k pe hist s. induction n as [|n IH]; intros k pe hist s; [done|].
  destruct (repeats t FallbackRole pre k pe hist (m_repeats t) 1 s) as [o s1] eqn:Hrep.
  pose proof Hrep as Hrep'. rewrite (run_repeats_fallback t pre pre') in Hrep'.
  cbn [run_attempts]. rewrite (cbind_step _ _ _ _ Hrep), (cbind_step _ _ _ _ Hrep').
  destruct o as [[vs|[rep e]]|e]; [done| |done]. destruct (is_fatal e); [done|].
  rewrite !(cbind_step _ _ _ _ (try_perform _ s1)). destruct n as [|n]; [done|].
  set (m := catch _ _). set (s2 := (perform env (TaskFailed (m_name t) FallbackRole k rep e) s1).2).
  destruct (m s2) as [[[e2|]|e2] s3] eqn:Hm;
    rewrite !(cbind_step _ _ _ _ Hm); try done.
Qed.

(** The fallback loop is the chain of the fallbacks' candidates. *)
Lemma fallbacks_chain pre fs t r k me e h s :
  last h = Some e →
  cbind (perform env (WriteDebug (failed_text r))) (λ _, fallbacks_loop fs me e h) s
  = cbind (announce env (t, r, k) e me (f ← fs; candidates_of f FallbackRole))
      (λ _, the_chain pre (f ← fs; candidates_of f FallbackRole) h me) s.
Proof.
  revert t r k e h s. induction fs as [|f fs IH]; intros t r k e h s Hl.
  { cbn. rewrite !perform_then. by rewrite Hl. }
  rewrite bind_cons. set (cs := fs ≫= _) in *.
  cbn [run_fallbacks]. rewrite Hl, perform_then.
  set (s1 := (perform env (FallbackStarted (m_name f) me) (perform env (WriteDebug "trying fallback")
      (perform env (WriteDebug (failed_text r)) s).2).2).2).
  rewrite (cbind_step _ s (Ok tt) s1) by (cbn; by rewrite !perform_then, perform_quiet).
  rewrite !perform_then. fold s1. rewrite <- Hl. unfold execute_mounted_task.
  etransitivity; [|apply (attempts_chain f FallbackRole pre (m_retries f) cs
    (λ e' h', fallbacks_loop fs me e' h') 1 h me s1)]; [|lia| |lia|].
  - rewrite !cbind_run, (attempts_fallback f false pre).
    destruct (attempts _ _ _ _ _ _ _ _) as [[[[v|e'] h']|e'] s2]; try done. cbn [on_outcome].
    destruct (is_fatal e'); [done|]. apply cbind_assoc.
  - unfold cs. by destruct fs.
  - intros e' h' s2 Hl'. by apply IH.
Qed.

Lemma pipeline_chain main fs pre me s :
  pipeline main fs pre s = the_chain pre (all_candidates main fs) [] me s.
Proof.
  unfold all_candidates, candidates_of at 1.
  rewrite <- (attempts_chain main MainRole pre (m_retries main) _ (λ e h, fallbacks_loop fs e e h) 1 [] me s);
    [|lia|destruct fs; done|lia|].
  - unfold execute_with_fallbacks, execute_mounted_task. rewrite !cbind_run. cbn [last].
    destruct (attempts _ _ _ _ _ _ _ _) as [[[[v|e'] h']|e'] s2]; try done. cbn [on_outcome].
    destruct (is_fatal e'); [done|]. apply cbind_assoc.
  - intros e h s1 Hl. rewrite bool_decide_true by done. by apply (fallbacks_chain pre fs main MainRole).
Qed.
End quiet.

(** *** Brackets and counts *)

Definition weight (a : action) : Z :=
  match a with CreateAttempt _ _ _ => 1 | FinishAttempt _ _ => -1 | _ => 0 end.

(** Attempts created and not yet finished. *)
Definition open_attempts (l : list action) : Z := foldr (λ a n, weight a + n)%Z 0%Z l.

Definition created (l : list action) : nat :=
  sum_list_with (λ a, match a with CreateAttempt _ _ _ => 1 | _ => 0 end) l.

#[local] Arguments open_attempts : simpl never.
#[local] Arguments created : simpl never.

Lemma open_attempts_snoc l a : open_attempts (l ++ [a]) = (open_attempts l + weight a)%Z.
Proof. unfold open_attempts. induction l as [|b l IH]; cbn; [lia|]. rewrite IH. lia. Qed.

Lemma created_snoc l a :
  created (l ++ [a]) = (created l + match a with CreateAttempt _ _ _ => 1 | _ => 0 end)%nat.
Proof. unfold created. rewrite sum_list_with_app. cbn. lia. Qed.

(** [m] restores the job context, changes the open attempts by [d] and creates at most
    [n] attempts, however it ends. *)
Definition frame {A} (d : Z) (n : nat) (m : cmd (@tstate W) A) : Prop :=
  ∀ s, let s' := (m s).2 in
    context s' = context s ∧ open_attempts (log s') = (open_attempts (log s) + d)%Z ∧
    (created (log s') ≤ created (log s) + n)%nat.

Lemma frame_ret {A} (a : A) : frame 0 0 (ret a).
Proof. intros s. cbn. split_and!; [done|lia|lia]. Qed.

Lemma frame_throw {A} e : frame 0 0 (throw e : cmd _ A).
Proof. intros s. cbn. split_and!; [done|lia|lia]. Qed.

Lemma frame_ask {A} (f : W → A * W) : frame 0 0 (ask f).
Proof. intros s. unfold ask. destruct (f (world s)). cbn. split_and!; [done|lia|lia]. Qed.

Lemma frame_weaken {A} d n n' (m : cmd _ A) : (n ≤ n')%nat → frame d n m → frame d n' m.
Proof. intros Hn H s. destruct (H s) as (? & ? & ?). split_and!; [done|done|lia]. Qed.

Lemma frame_perform a :
  frame (weight a) (match a with CreateAttempt _ _ _ => 1 | _ => 0 end) (perform env a).
Proof.
  intros s. unfold perform. destruct (fault env a (world s)) as [[e|] w]; cbn;
    rewrite open_attempts_snoc, created_snoc; (split_and!; [done|done|apply Nat.le_refl]).
Qed.

(** The continuation leaves the open attempts alone ... *)
Lemma frame_bind {A B} d n n' (m : cmd _ A) (k : A → cmd _ B) :
  frame d n m → (∀ a, frame 0 n' (k a)) → frame d (n + n') (cbind m k).
Proof.
  intros Hm Hk s. unfold cbind. specialize (Hm s). destruct (m s) as [[a|e] s1]; cbn in *.
  - destruct Hm as (? & ? & ?), (Hk a s1) as (? & ? & ?). split_and!; [congruence|lia|lia].
  - destruct Hm as (? & ? & ?). split_and!; [done|lia|lia].
Qed.

(** ... or the first part cannot fail. *)
Lemma frame_bind_total {A B} d d' n n' (m : cmd _ A) (k : A → cmd _ B) :
  (∀ s, is_ok (m s).1 = true) → frame d n m → (∀ a, frame d' n' (k a)) → frame (d + d') (n + n') (cbind m k).
Proof.
  intros Ht Hm Hk s. unfold cbind. specialize (Hm s). specialize (Ht s).
  destruct (m s) as [[a|e] s1]; [|done]. cbn in *.
  destruct Hm as (? & ? & ?), (Hk a s1) as (? & ? & ?). split_and!; [congruence|lia|lia].
Qed.

Lemma frame_catch {A} d n n' (m : cmd _ A) h :
  frame d n m → (∀ e, frame 0 n' (h e)) → frame d (n + n') (catch m h).
Proof.
  intros Hm Hh s. unfold catch. specialize (Hm s). destruct (m s) as [[a|e] s1]; cbn in *.
  - destruct Hm as (? & ? & ?). split_and!; [done|lia|lia].
  - destruct Hm as (? & ? & ?), (Hh e s1) as (? & ? & ?). split_and!; [congruence|lia|lia].
Qed.

Lemma frame_silent {A} a (k : unit → cmd _ A) d n :
  weight a = 0%Z → (∀ s, is_ok (perform env a s).1 = true) → frame d n (k tt) → frame d n (cbind (perform env a) k).
Proof.
  intros Hw Ht Hk. replace d with (0 + d)%Z by lia. replace n with (0 + n)%nat by lia.
  apply frame_bind_total; [done| |by intros []]. rewrite <- Hw.
  eapply frame_weaken; [|apply frame_perform]. by destruct a.
Qed.

Ltac frame_zero :=
  lazymatch goal with
  | |- frame 0 0 (ret _) => apply frame_ret
  | |- frame 0 0 (throw _) => apply frame_throw
  | |- frame 0 0 (ask _) => apply frame_ask
  | |- frame 0 0 (perform _ _) => apply frame_perform
  | |- frame 0 0 (cbind _ _) => apply (frame_bind 0 0 0); [frame_zero|intros ?; frame_zero]
  | |- frame 0 0 (catch _ _) => apply (frame_catch 0 0 0); [frame_zero|intros ?; frame_zero]
  | |- frame 0 0 (match ?x with _ => _ end) => destruct x; frame_zero
  | |- frame 0 0 (let '(_, _) := ?x in _) => destruct x; frame_zero
  | _ => idtac
  end.

Lemma frame_check_with f : frame 0 0 (check_with f).
Proof. unfold check_with. frame_zero. Qed.

Lemma frame_check : frame 0 0 check.
Proof. unfold check_job_execution. frame_zero. Qed.

(** The handler call restores the context whatever the handler does. *)
Lemma frame_call i c : frame 0 0 (call_mounted_handler env i c).
Proof.
  intros s. unfold call_mounted_handler, finally. set (m := cbind _ _).
  assert (frame 0 0 m) as Hm.
  { unfold m, attempt_quietly. apply (frame_bind 0 0 0).
    - apply (frame_catch 0 0 0); [|intros e; frame_zero].
      intros s1. destruct (handler env i (world s1)) as [r w]. cbn. split_and!; [done|lia|lia].
    - intros v. frame_zero. }
  specialize (Hm (with_context c s)). destruct (m (with_context c s)) as [r s1]. cbn in *.
  split_and!; [done|apply Hm|apply Hm].
Qed.

Section in_memory.
(** Creating a watch and signalling its completion are operations on the supervisor's
    memory and do not fail; everything else may. *)
Context (Hmem : ∀ a w, match a with CreateAttempt _ _ _ | SignalComplete => True | _ => False end →
  (fault env a w).1 = None).

Lemma perform_memory a s :
  match a with CreateAttempt _ _ _ | SignalComplete => True | _ => False end → is_ok (perform env a s).1 = true.
Proof.
  intros Ha. unfold perform. pose proof (Hmem a (world s) Ha) as H.
  destruct (fault env a (world s)) as [e w]. cbn in H. by subst e.
Qed.

Lemma frame_finish st e : frame (-1) 0 (finish_raising env st e : cmd _ V).
Proof.
  unfold finish_raising. apply (frame_bind (-1) 0 0); [apply frame_perform|intros ?; apply frame_throw].
Qed.

Lemma frame_completed (v : V) :
  frame (-1) 0 (do! _ := perform env (FinishAttempt Completed None) in ret v).
Proof. apply (frame_bind (-1) 0 0); [apply frame_perform|intros ?; apply frame_ret]. Qed.

(** A caught computation cannot fail. *)
Lemma frame_outcome {A} (m : cmd _ (V + exc)) (k : V + exc → cmd _ A) :
  frame 0 0 m → (∀ o, frame (-1) 0 (k o)) → frame (-1) 0 (cbind (catch m (λ e, ret (inr e))) k).
Proof.
  intros Hm Hk. apply (frame_bind_total 0 (-1) 0 0); [|apply (frame_catch 0 0 0)|done].
  - intros s. unfold catch. by destruct (m s) as [[a|e] s1].
  - done.
  - intros e. apply frame_ret.
Qed.

Lemma frame_ask_then {A B} (f : W → A * W) (k : A → cmd _ B) d n :
  (∀ a, frame d n (k a)) → frame d n (cbind (ask f) k).
Proof.
  intros Hk. apply (frame_bind_total 0 d 0 n); [|apply frame_ask|done].
  intros s. unfold ask. by destruct (f (world s)).
Qed.

Lemma frame_body i c : frame 0 0 (do! _ := perform env BeginHandler in
  do! result := call_mounted_handler env i c in ret (inl result : V + exc)).
Proof.
  apply (frame_bind 0 0 0); [apply frame_perform|intros ?].
  apply (frame_bind 0 0 0); [apply frame_call|intros ?; apply frame_ret].
Qed.

Lemma frame_thread_target i c : frame 0 0 (thread_target env i c).
Proof.
  unfold thread_target. apply (frame_bind 0 0 0).
  - apply (frame_catch 0 0 0); [apply frame_body|intros ?; frame_zero].
  - intros o. unfold attempt_quietly. frame_zero.
Qed.

Lemma thread_target_total i c s : is_ok (thread_target env i c s).1 = true.
Proof.
  unfold thread_target. rewrite cbind_run. unfold catch at 1.
  destruct (cbind (perform env BeginHandler) _ s) as [[o|e] s1]; cbn; unfold cbind, attempt_quietly, catch;
    by destruct (perform env SignalComplete s1) as [[u|e'] s2].
Qed.

(** Every mode finishes its attempt exactly once. *)
Lemma frame_invoke i c : frame (-1) 0 (invoke_handler_with_timeout env md i c).
Proof.
  destruct md; cbn [invoke_handler_with_timeout].
  - unfold invoke_fiber. apply frame_outcome.
    + apply (frame_bind 0 0 0); [apply frame_perform|intros ?].
      apply (frame_bind 0 0 0); [apply frame_call|intros ?].
      apply (frame_bind 0 0 0); [apply frame_check_with|intros ?; apply frame_ret].
    + intros [v|e].
      * apply frame_silent; [done|intros; by apply perform_memory|]. apply frame_completed.
      * apply frame_ask_then. intros re. apply frame_ask_then. intros te.
        destruct (bool_decide _); [apply frame_finish|]. destruct re, te; apply frame_finish.
  - unfold invoke_inline. apply frame_outcome; [apply frame_body|]. intros [v|e]; [apply frame_completed|apply frame_finish].
  - unfold invoke_thread. apply frame_ask_then. intros finished.
    apply (frame_bind_total 0 (-1) 0 0).
    { destruct finished; [|done]. intros s. rewrite cbind_run. pose proof (thread_target_total i c s) as H.
      by destruct (thread_target env i c s) as [[o|e] s1]. }
    { destruct finished; [|apply frame_ret].
      apply (frame_bind 0 0 0); [apply frame_thread_target|intros ?; apply frame_ret]. }
    intros early. apply frame_ask_then. intros [e|]; [apply frame_finish|].
    apply frame_ask_then. intros [e|]; [apply frame_finish|].
    apply (frame_bind_total 0 (-1) 0 0).
    + destruct early; [done|apply thread_target_total].
    + destruct early; [apply frame_ret|apply frame_thread_target].
    + intros [v|e]; [apply frame_completed|apply frame_finish].
Qed.

Lemma frame_repeat t r pre a i pe hist :
  frame 0 1 (run_repeat env jb md generation execution_id t r pre a i pe hist).
Proof.
  unfold run_repeat. apply (frame_bind 0 0 1); [frame_zero|intros ?].
  apply (frame_bind 0 0 1); [frame_zero|intros ?].
  apply (frame_bind_total 1 (-1) 1 0); [intros; by apply perform_memory|apply frame_perform|intros ?].
  apply (frame_bind (-1) 0 0); [apply frame_invoke|intros ?].
  apply (frame_bind 0 0 0); [apply frame_check_with|intros ?; apply frame_ret].
Qed.

Lemma frame_repeats t r pre a pe hist n i : frame 0 n (repeats t r pre a pe hist n i).
Proof.
  revert i. induction n as [|n IH]; intros i; cbn [run_repeats]; [apply frame_ret|].
  apply (frame_bind 0 1 n).
  - apply (frame_catch 0 1 0); [|intros ?; apply frame_ret].
    apply (frame_bind 0 1 0); [apply frame_repeat|intros ?; apply frame_ret].
  - intros [v|e]; [|eapply frame_weaken; [|apply frame_ret]; lia].
    apply (frame_weaken 0 (n + 0)); [lia|]. apply frame_bind; [apply IH|]. intros [vs|p]; apply frame_ret.
Qed.

Lemma frame_attempts t r pre n k pe hist : frame 0 (n * m_repeats t) (attempts t r pre n k pe hist).
Proof.
  revert k pe hist. induction n as [|n IH]; intros k pe hist; cbn [run_attempts]; [apply frame_ret|].
  cbn [Nat.mul]. apply frame_bind; [apply frame_repeats|].
  intros [vs|[rep e]]; [eapply frame_weaken; [|apply frame_ret]; lia|].
  destruct (is_fatal e); [eapply frame_weaken; [|apply frame_ret]; lia|].
  apply (frame_bind 0 0); [frame_zero|]. intros [e'|]; [eapply frame_weaken; [|apply frame_ret]; lia|].
  destruct n as [|n]; [apply frame_ret|].
  apply (frame_bind 0 0); [apply (frame_catch 0 0 0); [|intros ?; frame_zero]|].
  { apply (frame_bind 0 0 0); [apply frame_check|intros ?; frame_zero]. }
  intros [e'|]; [eapply frame_weaken; [|apply frame_ret]; lia|apply IH].
Qed.

(** At most this many handler calls. *)
Definition call_budget (ts : list mounted) : nat :=
  sum_list_with (λ t, (m_retries t + 1) * m_repeats t)%nat ts.

Lemma frame_task t r pre pe hist :
  frame 0 ((m_retries t + 1) * m_repeats t)
    (execute_mounted_task env jb md generation execution_id check_current t r pre pe hist).
Proof. unfold execute_mounted_task. replace (m_retries t + 1)%nat with (S (m_retries t)) by lia. apply frame_attempts. Qed.

Lemma frame_after text : frame 0 0 (after_failure env execution_id check_current text).
Proof. unfold after_failure. apply (frame_bind 0 0 0); [apply frame_check|intros ?; frame_zero]. Qed.

Lemma frame_fallbacks fs me e h : frame 0 (call_budget fs) (fallbacks_loop fs me e h).
Proof.
  revert e h. induction fs as [|f fs IH]; intros e h; cbn [run_fallbacks]; [apply frame_throw|].
  assert (0 ≤ call_budget (f :: fs))%nat by lia.
  destruct (last h) as [pe|]; [|eapply frame_weaken; [|apply frame_throw]; lia].
  apply (frame_bind 0 0); [frame_zero|intros _]. apply (frame_bind 0 0); [frame_zero|intros _].
  change (call_budget (f :: fs)) with ((m_retries f + 1) * m_repeats f + call_budget fs)%nat.
  apply frame_bind; [apply frame_task|]. intros [[v|e'] h']; [eapply frame_weaken; [|apply frame_ret]; lia|].
  destruct (is_fatal e'); [eapply frame_weaken; [|apply frame_throw]; lia|].
  apply (frame_bind 0 0); [apply frame_after|intros _; apply IH].
Qed.

Lemma frame_pipeline main fs pre : frame 0 (call_budget (main :: fs)) (pipeline main fs pre).
Proof.
  unfold execute_with_fallbacks.
  change (call_budget (main :: fs)) with ((m_retries main + 1) * m_repeats main + call_budget fs)%nat.
  apply frame_bind; [apply frame_task|]. intros [[v|e'] h']; [eapply frame_weaken; [|apply frame_ret]; lia|].
  destruct (is_fatal e'); [eapply frame_weaken; [|apply frame_throw]; lia|].
  apply (frame_bind 0 0); [apply frame_after|intros _; apply frame_fallbacks].
Qed.
End in_memory.
End facts.

(** ** Properties *)

(** A surroundings that reads the handlers' outcomes from a list and never faults. *)
Definition scripted : @surroundings nat nat (list (result nat)) :=
  {| handler _ w := match w with r :: w => (r, w) | [] => (Ok 0, []) end;
     fault _ w := (None, w);
     execution_cancel_error w := (None, w);
     timeout_error w := (None, w);
     check_without_pause w := (None, w);
     cancelled w := (None, w);
     finished_before_wake w := (true, w) |}.

Definition demo_job : @job nat := Job "n" 7 {["x" := 1]}.
Definition demo_main : mounted := Mounted "main" 1 1 {["x"]} {["x"]}.
Definition demo_fallback : mounted := Mounted "backup" 0 2 {["error"; "errors"]} {["error"]}.
Definition demo_state (w : list (result nat)) : @tstate (list (result nat)) :=
  TState (JobContext None None None None) [] w.
Definition boom (s : string) : result nat := Err (Exc UserError s).

(** C37: retries and fallbacks are one chain.  When the framework's own writes do not
    fail, the nested attempt and fallback loops do, action for action, what a single
    pass over all attempts in order does: the main task's attempts, then each
    fallback's, each given every error so far; a failure is recorded once and the lease
    checked once before the next attempt; the first success is returned; a fatal error
    (permit, restart, or not an [Exception]) ends the chain at once; and when all
    attempts have failed the last error is raised. *)
Theorem retry_fallback_chain {json V W} (env : @surroundings json V W) jb md generation execution_id
  check_current main fallbacks pre_recorded main_error s
  (Hquiet : ∀ a w, (fault env a w).1 = None) :
  execute_with_fallbacks env jb md generation execution_id check_current main fallbacks pre_recorded s
  = chain env jb md generation execution_id check_current pre_recorded
      (all_candidates main fallbacks) [] main_error s.
Proof. by apply pipeline_chain. Qed.

Lemma retry_fallback_chain_witness :
  (execute_with_fallbacks scripted demo_job InlineMode 1 (Some "e") (λ w, (true, w)) demo_main
     [demo_fallback] false (demo_state [boom "a"; boom "b"; Ok 4; Ok 5])).1
  = Ok (AllResults [4; 5]).
Proof.
  rewrite (retry_fallback_chain scripted demo_job InlineMode 1 (Some "e") (λ w, (true, w)) demo_main
    [demo_fallback] false (Exc UserError "")).
  - vm_compute. reflexivity.
  - intros. reflexivity.
Defined.

(** Whatever fails and in whichever mode, running a job's tasks leaves the job
    context as it found it, finishes every attempt it created exactly once, and makes
    at most [(retries + 1) * repeats] handler calls per task. *)
Theorem attempts_bracketed {json V W} (env : @surroundings json V W) jb md generation execution_id
  check_current main fallbacks pre_recorded s
  (Hmem : ∀ a w, match a with CreateAttempt _ _ _ | SignalComplete => True | _ => False end →
     (fault env a w).1 = None) :
  let s' := (execute_with_fallbacks env jb md generation execution_id check_current main fallbacks
               pre_recorded s).2 in
  context s' = context s ∧
  open_attempts (log s') = open_attempts (log s) ∧
  (created (log s') ≤ created (log s)
     + sum_list_with (λ t, (m_retries t + 1) * m_repeats t) (main :: fallbacks))%nat.
Proof.
  cbn zeta. destruct (frame_pipeline env jb md generation execution_id check_current Hmem main fallbacks
    pre_recorded s) as (H1 & H2 & H3).
  split_and!; [exact H1|rewrite H2; lia|exact H3].
Qed.

Lemma attempts_bracketed_witness :
  let s' := (execute_with_fallbacks scripted demo_job ThreadMode 1 (Some "e") (λ w, (true, w)) demo_main
               [demo_fallback] false (demo_state [boom "a"; boom "b"; Ok 4; boom "c"])).2 in
  created (log s') = 4 ∧ open_attempts (log s') = 0%Z ∧ context s' = JobContext None None None None.
Proof.
  destruct (attempts_bracketed scripted demo_job ThreadMode 1 (Some "e") (λ w, (true, w)) demo_main
    [demo_fallback] false (demo_state [boom "a"; boom "b"; Ok 4; boom "c"])) as (H1 & H2 & _).
  - intros. reflexivity.
  - split; [vm_compute; reflexivity|]. split; [exact H2|exact H1].
Defined.
