(* ===== verification/Writer.v ===== *)
(** The single SQLite writer ([storage/sqlite/mutation_writer.py]): a priority queue of
    mutations, batches that share one transaction, savepoints around each unit of a
    batch, futures, and the durability watermark that barriers wait for.

    Clients and the writer thread interleave step by step; a transaction is one step,
    since no other connection writes.  Times are not modelled: whether the collection
    window has expired is an input of the step that asks. *)
From S2P Require Import Prelude.

#[local] Open Scope nat_scope.

Section writer.
(** The database, the value of a mutation, the items and the keys of grouped mutations. *)
Context {D V I K : Type} `{EqDecision K}.
(** Python's [str] of a value that a group operation reports as a failure. *)
Context (text : V → string).

(** One member's outcome, as a group operation reports it: [(True, v)], [(False, e)]
    with an exception, or [(False, v)] with any other value. *)
Inductive reported := Done (v : V) | Raised (e : exc) | Refused (v : V).

Inductive work :=
  | Single (operation : D → result (D * V))
  | Grouped (group_key : K) (item : I) (group_operation : D → list I → result (D * list reported)).

(** [_MutationRequest], without its future and its collection window. *)
Record request := Request {
  serial : nat;
  priority : Z;
  weight : nat;
  job : work
}.

(** ** The priority queue: entries ordered by [(priority, serial)] *)

Definition before (r r' : request) : bool :=
  (priority r <? priority r')%Z || ((priority r =? priority r')%Z && (serial r <=? serial r')).

Fixpoint queue_put (r : request) (q : list request) : list request :=
  match q with
  | [] => [r]
  | r' :: q' => if before r r' then r :: q else r' :: queue_put r q'
  end.

(** ** State *)

Inductive future := FPending | FCancelled | FResolved (r : result V).

(** Where the writer thread is: not running, waiting for a first request, collecting a
    batch, or holding the outcomes of a committed or failed transaction. *)
Inductive phase :=
  | Stopped
  | Waiting
  | Collecting (batch : list request)
  | Finishing (batch : list request) (outcomes : gmap nat (result V)).

Record settings := Settings { max_batch : nat; claim_transaction_rows : nat }.

(** [SQLiteMutationWriter.__init__]. *)
Definition make_settings (max_batch : Z) (collect_seconds_negative : bool) (configured_claim_rows : string)
  : result settings :=
  check! (1 <=? max_batch)%Z orelse ValueError saying "max_batch must be positive" in
  check! negb collect_seconds_negative orelse ValueError saying "collect_seconds must be non-negative" in
  match py_int configured_claim_rows with
  | Some rows =>
      check! (32 <=? rows)%Z && (rows <=? 1024)%Z orelse ValueError saying
        "MWF_SQLITE_CLAIM_TRANSACTION_ROWS must be an integer between 32 and 1024" in
      Ok (Settings (Z.to_nat max_batch) (Z.to_nat rows))
  | None => raise ValueError "MWF_SQLITE_CLAIM_TRANSACTION_ROWS must be an integer between 32 and 1024"
  end.

Record writer := Writer {
  w_serial : nat;
  (** Requests numbered but not yet in the queue. *)
  w_assigned : list request;
  w_queue : list request;
  w_phase : phase;
  w_pending : gset nat;
  (** The heap of pending serials, smallest first; entries may be stale. *)
  w_heap : list nat;
  w_completed_through : nat;
  w_urgent : bool;
  w_futures : gmap nat future;
  w_db : D;
  (** History: the outcome of every request decided so far. *)
  w_decided : gmap nat (result V)
}.

Definition writer_init (d : D) : writer := Writer 0 [] [] Stopped ∅ [] 0 false ∅ d ∅.

(** ** Clients *)

(** [_new_request]: the checks, then the next serial; [window_negative] tells whether
    the collection window is negative. *)
Definition new_request (w : writer) (p : Z) (weight_ : Z) (window_negative : bool) (j : work)
  : result (writer * request) :=
  check! (1 <=? weight_)%Z orelse ValueError saying "mutation weight must be an integer >= 1" in
  check! negb window_negative orelse ValueError saying "collect_seconds must be non-negative" in
  let n := S (w_serial w) in
  let r := Request n p (Z.to_nat weight_) j in
  Ok (Writer n (w_assigned w ++ [r]) (w_queue w) (w_phase w) ({[n]} ∪ w_pending w) (w_heap w ++ [n])
        (w_completed_through w) (w_urgent w) (<[n := FPending]> (w_futures w)) (w_db w) (w_decided w), r).

(** [_enqueue]: raise the urgent signal, put the request, start the thread if needed; one
    step here, although the signal is raised before the lock is taken. *)
Definition enqueue (w : writer) (r : request) : writer :=
  Writer (w_serial w) (filter (λ r', serial r' ≠ serial r) (w_assigned w)) (queue_put r (w_queue w))
    (match w_phase w with Stopped => Waiting | p => p end)
    (w_pending w) (w_heap w) (w_completed_through w) (w_urgent w || (priority r <=? 5)%Z)
    (w_futures w) (w_db w) (w_decided w).

(** A waiter cancels its future; only a pending one changes. *)
Definition cancel (w : writer) (n : nat) : writer :=
  Writer (w_serial w) (w_assigned w) (w_queue w) (w_phase w) (w_pending w) (w_heap w) (w_completed_through w)
    (w_urgent w)
    (match w_futures w !! n with Some FPending => <[n := FCancelled]> (w_futures w) | _ => w_futures w end)
    (w_db w) (w_decided w).

(** [barrier]: whether the wait for [target] is over. *)
Definition barrier_ready (w : writer) (target : nat) : bool := target <=? w_completed_through w.

(** What [diagnostics] reports of the queue and the watermark. *)
Record report := Report { d_queued : nat; d_urgent : nat; d_submitted : nat; d_completed : nat; d_backlog : nat }.

Definition diagnostics (w : writer) : report :=
  Report (length (w_queue w)) (length (filter (λ r, (priority r <= 5)%Z) (w_queue w)))
    (w_serial w) (w_completed_through w) (w_serial w - w_completed_through w).

(** ** Collecting a batch *)

Definition batch_limit (st : settings) (p : Z) : nat :=
  if (20 <=? p)%Z then max_batch st `min` 128
  else if (5 <? p)%Z then max_batch st `min` 256
  else max_batch st `min` 128.

Definition weight_limit (st : settings) (p : Z) : nat :=
  if (20 <=? p)%Z then 128 else if (5 <? p)%Z then claim_transaction_rows st else 128.

Definition batch_weight (b : list request) : nat := sum_list_with weight b.

Definition with_queue (q : list request) (p : phase) (w : writer) : writer :=
  Writer (w_serial w) (w_assigned w) q p (w_pending w) (w_heap w) (w_completed_through w) (w_urgent w)
    (w_futures w) (w_db w) (w_decided w).

(** [_run] takes a first request, or finds the queue empty and retires. *)
Definition take_first (w : writer) : writer :=
  match w_queue w with
  | [] => with_queue [] Stopped w
  | r :: q => with_queue q (Collecting [r]) w
  end.

(** One turn of [_collect_batch]'s loop: the next candidate, unless the batch is full,
    the window expired, the queue is empty, or the candidate is put back because it has
    another priority or would make the batch too heavy. *)
Definition collect_more (st : settings) (expired : bool) (batch : list request) (w : writer) : option writer :=
  match batch with
  | [] => None
  | first :: _ =>
      if (length batch <? batch_limit st (priority first)) && negb expired then
        match w_queue w with
        | [] => None
        | c :: q =>
            if (priority c =? priority first)%Z
               && (batch_weight batch + weight c <=? weight_limit st (priority first))
            then Some (with_queue q (Collecting (batch ++ [c])) w)
            else None
        end
      else None
  end.

(** ** Executing a batch *)

Inductive unit_of_work := USingle (r : request) | UGroup (k : K) (rs : list request).

Fixpoint add_to_group (k : K) (r : request) (us : list unit_of_work) : list unit_of_work :=
  match us with
  | [] => [UGroup k [r]]
  | UGroup k' rs :: us => if decide (k' = k) then UGroup k' (rs ++ [r]) :: us else UGroup k' rs :: add_to_group k r us
  | u :: us => u :: add_to_group k r us
  end.

(** The units of a batch: singles, and groups at the place of their first member. *)
Definition add_unit (us : list unit_of_work) (r : request) : list unit_of_work :=
  match job r with
  | Single _ => us ++ [USingle r]
  | Grouped k _ _ => add_to_group k r us
  end.

Definition units_of (rs : list request) : list unit_of_work := foldl add_unit [] rs.

Definition members (u : unit_of_work) : list request :=
  match u with USingle r => [r] | UGroup _ rs => rs end.

Definition items_of (rs : list request) : list I :=
  omap (λ r, match job r with Grouped _ i _ => Some i | Single _ => None end) rs.

Definition normalize (o : reported) : result V :=
  match o with Done v => Ok v | Raised e => Err e | Refused v => Err (Exc RuntimeError (text v)) end.

Definition all_fail (rs : list request) (e : exc) : list (nat * result V) := (λ r, (serial r, Err e)) <$> rs.

(** One unit under its savepoint: its effect, or none of it, and its members' outcomes. *)
Definition run_unit (d : D) (u : unit_of_work) : D * list (nat * result V) :=
  match u with
  | USingle r =>
      match job r with
      | Single f => match f d with Ok (d, v) => (d, [(serial r, Ok v)]) | Err e => (d, [(serial r, Err e)]) end
      | Grouped _ _ _ => (d, [])
      end
  | UGroup _ rs =>
      match rs with
      | [] => (d, [])
      | first :: _ =>
          match job first with
          | Grouped _ _ f =>
              match f d (items_of rs) with
              | Ok (d', os) =>
                  if length os =? length rs then (d', zip (serial <$> rs) (normalize <$> os))
                  else (d, all_fail rs (Exc RuntimeError "grouped SQLite mutation returned the wrong number of outcomes"))
              | Err e => (d, all_fail rs e)
              end
          | Single _ => (d, [])
          end
      end
  end.

Fixpoint run_units (d : D) (us : list unit_of_work) : D * list (nat * result V) :=
  match us with
  | [] => (d, [])
  | u :: us =>
      let '(d, os) := run_unit d u in
      let '(d, os') := run_units d us in (d, os ++ os')
  end.

(** [_execute_batch]. *)
Definition execute_batch (d : D) (rs : list request) : D * list (nat * result V) := run_units d (units_of rs).

(** The transaction of [_run]; [failed] is an error opening or committing it, which
    fails every request and changes nothing. *)
Definition transact (failed : option exc) (d : D) (batch : list request) : D * list (nat * result V) :=
  match failed with
  | Some e => (d, all_fail batch e)
  | None => execute_batch d batch
  end.

Definition execute (failed : option exc) (batch : list request) (w : writer) : writer :=
  let '(d, os) := transact failed (w_db w) batch in
  let outcomes : gmap nat (result V) := list_to_map os in
  Writer (w_serial w) (w_assigned w) (w_queue w) (Finishing batch outcomes) (w_pending w) (w_heap w)
    (w_completed_through w) (w_urgent w) (w_futures w) d (outcomes ∪ w_decided w).

(** ** Finishing a batch *)

(** [_resolve]: a cancelled future keeps its state. *)
Definition resolve_one (outcomes : gmap nat (result V)) (fs : gmap nat future) (r : request) : gmap nat future :=
  match fs !! serial r, outcomes !! serial r with
  | Some FPending, Some o => <[serial r := FResolved o]> fs
  | _, _ => fs
  end.

Fixpoint drop_stale (pending : gset nat) (heap : list nat) : list nat :=
  match heap with
  | n :: h => if decide (n ∈ pending) then heap else drop_stale pending h
  | [] => []
  end.

(** The heap once stale entries are dropped, rebuilt when too many remain. *)
Definition compact (pending : gset nat) (heap : list nat) : list nat :=
  let heap := drop_stale pending heap in
  if 2 * size pending + 1024 <? length heap then py_sorted (elements pending) else heap.

(** [_record_completed]. *)
Definition record_completed (rs : list request) (w : writer) : writer :=
  let pending := w_pending w ∖ list_to_set (serial <$> rs) in
  let heap := compact pending (w_heap w) in
  Writer (w_serial w) (w_assigned w) (w_queue w) (w_phase w) pending heap
    (match heap with n :: _ => n - 1 | [] => w_serial w end)
    (w_urgent w) (w_futures w) (w_db w) (w_decided w).

(** [_refresh_urgent_signal]. *)
Definition refresh_urgent (w : writer) : writer :=
  Writer (w_serial w) (w_assigned w) (w_queue w) (w_phase w) (w_pending w) (w_heap w) (w_completed_through w)
    (w_urgent w && existsb (λ r, (priority r <=? 5)%Z) (w_queue w)) (w_futures w) (w_db w) (w_decided w).

(** [_finish_batch], then the end of [_run]'s turn: urgent signal, retire when idle. *)
Definition finish (batch : list request) (outcomes : gmap nat (result V)) (w : writer) : writer :=
  let w := Writer (w_serial w) (w_assigned w) (w_queue w) (w_phase w) (w_pending w) (w_heap w)
             (w_completed_through w) (w_urgent w) (foldl (resolve_one outcomes) (w_futures w) batch)
             (w_db w) (w_decided w) in
  let w := record_completed batch w in
  let w := match batch with
           | first :: _ => if (priority first <=? 5)%Z then refresh_urgent w else w
           | [] => w
           end in
  with_queue (w_queue w) (match w_queue w with [] => Stopped | _ => Waiting end) w.

(** ** Steps of clients and writer, in any interleaving *)

Inductive client_step (w : writer) : writer → Prop :=
  | step_new p n neg j w' r : new_request w p n neg j = Ok (w', r) → client_step w w'
  | step_enqueue r : r ∈ w_assigned w → client_step w (enqueue w r)
  | step_cancel n : client_step w (cancel w n).

Inductive writer_step (st : settings) (w : writer) : writer → Prop :=
  | step_first : w_phase w = Waiting → writer_step st w (take_first w)
  | step_more expired b w' : w_phase w = Collecting b → collect_more st expired b w = Some w' → writer_step st w w'
  | step_execute failed b : w_phase w = Collecting b → writer_step st w (execute failed b w)
  | step_finish b os : w_phase w = Finishing b os → writer_step st w (finish b os w).

Definition step (st : settings) (w w' : writer) : Prop := client_step w w' ∨ writer_step st w w'.

(** ** The specification: an atomic store of mutations *)

(** What clients rely on: the database, the mutations submitted and not yet decided, and
    the outcome of each decided one. *)
Record sstate := SState { s_db : D; s_waiting : gmap nat request; s_decided : gmap nat (result V) }.

Definition without (ns : list nat) (m : gmap nat request) : gmap nat request := filter (λ p, p.1 ∉ ns) m.

Definition keyed (k : K) (r : request) : Prop := ∃ i f, job r = Grouped k i f.

(** The effect of a unit, one mutation or several of one group, as one atomic action on
    the database: what it becomes and what the members are answered. *)
Inductive unit_effect (d : D) : list request → D → list (nat * result V) → Prop :=
  | effect_single r f d' v : job r = Single f → f d = Ok (d', v) → unit_effect d [r] d' [(serial r, Ok v)]
  | effect_single_error r f e : job r = Single f → f d = Err e → unit_effect d [r] d [(serial r, Err e)]
  | effect_group k r rs i f d' os :
      job r = Grouped k i f → Forall (keyed k) rs → f d (items_of (r :: rs)) = Ok (d', os) →
      length os = S (length rs) →
      unit_effect d (r :: rs) d' (zip (serial <$> r :: rs) (normalize <$> os))
  | effect_group_error k r rs i f e :
      job r = Grouped k i f → Forall (keyed k) rs →
      (∀ d' os, f d (items_of (r :: rs)) = Ok (d', os) → length os ≠ S (length rs)) →
      unit_effect d (r :: rs) d (all_fail (r :: rs) e).

(** A submission; a unit taking effect as a whole, or not at all, and answering each of
    its members; or one mutation failing without effect. *)
Inductive spec_step (s : sstate) : sstate → Prop :=
  | spec_submit r : s_waiting s !! serial r = None → s_decided s !! serial r = None →
      spec_step s (SState (s_db s) (<[serial r := r]> (s_waiting s)) (s_decided s))
  | spec_unit rs d os : NoDup (serial <$> rs) → (∀ r, r ∈ rs → s_waiting s !! serial r = Some r) →
      unit_effect (s_db s) rs d os →
      spec_step s (SState d (without (serial <$> rs) (s_waiting s)) (list_to_map os ∪ s_decided s))
  | spec_fail r e : s_waiting s !! serial r = Some r →
      spec_step s (SState (s_db s) (without [serial r] (s_waiting s)) (<[serial r := Err e]> (s_decided s))).

(** ** Units and their outcomes *)

Lemma add_to_group_members k r us : (add_to_group k r us ≫= members) ≡ₚ (us ≫= members) ++ [r].
Proof.
  induction us as [|[r'|k' rs] us IH]; cbn [add_to_group]; [done| |].
  - rewrite !bind_cons. by rewrite IH, app_assoc.
  - destruct (decide (k' = k)); rewrite !bind_cons; cbn [members].
    + rewrite <- !app_assoc. apply Permutation_app_head, Permutation_app_comm.
    + by rewrite IH, app_assoc.
Qed.

Lemma units_of_members rs : (units_of rs ≫= members) ≡ₚ rs.
Proof.
  unfold units_of. assert (∀ us, (foldl add_unit us rs ≫= members) ≡ₚ (us ≫= members) ++ rs) as H.
  { induction rs as [|r rs IH]; intros us; cbn [foldl]; [by rewrite app_nil_r|].
    rewrite IH. replace (r :: rs) with ([r] ++ rs) by done. rewrite app_assoc. f_equiv.
    unfold add_unit. destruct (job r); [by rewrite bind_app|apply add_to_group_members]. }
  by rewrite H.
Qed.

(** A unit the batch can form: one single mutation, or some of one group. *)
Definition unit_ok (u : unit_of_work) : Prop :=
  match u with
  | USingle r => ∃ f, job r = Single f
  | UGroup k rs => rs ≠ [] ∧ Forall (keyed k) rs
  end.

Lemma add_to_group_ok k r us : keyed k r → Forall unit_ok us → Forall unit_ok (add_to_group k r us).
Proof.
  intros Hr. induction 1 as [|[r'|k' rs] us Hu Hus IH]; cbn [add_to_group].
  - constructor; [|done]. split; [done|]. by constructor.
  - by constructor.
  - destruct (decide (k' = k)) as [->|]; constructor; try done. destruct Hu as [_ Hall]. split; [by destruct rs|].
    apply Forall_app. split; [done|]. by constructor.
Qed.

Lemma units_of_ok rs : Forall unit_ok (units_of rs).
Proof.
  unfold units_of. assert (∀ us, Forall unit_ok us → Forall unit_ok (foldl add_unit us rs)) as H.
  { induction rs as [|r rs IH]; intros us Hus; cbn [foldl]; [done|]. apply IH. unfold add_unit.
    destruct (job r) eqn:Hj.
    - apply Forall_app. split; [done|]. constructor; [|done]. by exists operation.
    - apply add_to_group_ok; [|done]. by exists item, group_operation. }
  apply H. constructor.
Qed.

(** A savepoint makes a unit atomic. *)
Lemma run_unit_effect d u : unit_ok u → unit_effect d (members u) (run_unit d u).1 (run_unit d u).2.
Proof.
  destruct u as [r|k rs]; cbn [unit_ok run_unit members].
  - intros [f Hf]. rewrite Hf. destruct (f d) as [[d' v]|e] eqn:E; [by eapply effect_single|by eapply effect_single_error].
  - intros [Hne Hall]. destruct rs as [|r rs]; [done|]. apply Forall_cons in Hall as [(i & f & Hr) Hall]. rewrite Hr.
    destruct (f d (items_of (r :: rs))) as [[d' os]|e] eqn:E;
      [|apply (effect_group_error d k r rs i f e Hr Hall); intros ??; by rewrite E].
    destruct (length os =? length (r :: rs)) eqn:Hl; [apply Nat.eqb_eq in Hl|apply Nat.eqb_neq in Hl].
    + exact (effect_group d k r rs i f d' os Hr Hall E Hl).
    + apply (effect_group_error d k r rs i f _ Hr Hall). intros d'' os'. rewrite E. by intros [= <- <-].
Qed.

Lemma all_fail_keys rs e : (all_fail rs e).*1 = serial <$> rs.
Proof. unfold all_fail. rewrite <- list_fmap_compose. by apply list_fmap_ext. Qed.

(** Every member of a unit gets exactly one outcome, in member order. *)
Lemma unit_effect_keys d rs d' os : unit_effect d rs d' os → os.*1 = serial <$> rs.
Proof.
  destruct 1; try done; [|apply all_fail_keys]. rewrite fst_zip; [done|]. rewrite !length_fmap. cbn. lia.
Qed.

Lemma run_unit_keys d u : unit_ok u → (run_unit d u).2.*1 = serial <$> members u.
Proof. intros H. by eapply unit_effect_keys, run_unit_effect. Qed.

Lemma run_units_keys d us : Forall unit_ok us → (run_units d us).2.*1 = serial <$> (us ≫= members).
Proof.
  intros H. revert d. induction H as [|u us Hu _ IH]; intros d; [done|]. cbn [run_units].
  pose proof (run_unit_keys d u Hu) as Hk. destruct (run_unit d u) as [d1 os]. specialize (IH d1).
  destruct (run_units d1 us) as [d2 os']. cbn [snd] in *. rewrite bind_cons, !fmap_app. congruence.
Qed.

Lemma without_lookup ns m n : without ns m !! n = if decide (n ∈ ns) then None else m !! n.
Proof.
  unfold without. rewrite map_lookup_filter. destruct (m !! n) as [r|]; cbn; case_decide; try done;
    case_guard; done.
Qed.

Lemma without_app ns ns' m : without ns' (without ns m) = without (ns ++ ns') m.
Proof.
  apply map_eq. intros n. rewrite !without_lookup. repeat case_decide; set_solver.
Qed.

(** Outcomes of later units do not overwrite earlier ones. *)
Lemma decided_app (os os' : list (nat * result V)) (m : gmap nat (result V)) :
  NoDup (os ++ os').*1 →
  list_to_map os' ∪ (list_to_map os ∪ m) = (list_to_map (os ++ os') : gmap nat (result V)) ∪ m.
Proof.
  rewrite fmap_app. intros (_ & Hd & _)%NoDup_app.
  assert ((list_to_map os' : gmap nat (result V)) ##ₘ list_to_map os) as Hdisj.
  { apply map_disjoint_spec. intros n x y Hx Hy. apply elem_of_list_to_map_2 in Hx, Hy.
    apply (Hd n); apply list_elem_of_fmap; [by exists (n, y)|by exists (n, x)]. }
  rewrite list_to_map_app, (map_union_comm (list_to_map os) (list_to_map os')) by (by symmetry). by rewrite map_union_assoc.
Qed.

(** The units of a batch run one after the other, each once, all atomically. *)
Lemma units_refine us d W dec :
  Forall unit_ok us → NoDup (serial <$> (us ≫= members)) → (∀ r, r ∈ us ≫= members → W !! serial r = Some r) →
  rtc spec_step (SState d W dec)
    (SState (run_units d us).1 (without (serial <$> (us ≫= members)) W) (list_to_map (run_units d us).2 ∪ dec)).
Proof.
  intros H. revert d W dec. induction H as [|u us Hu Hus IH]; intros d W dec Hnd HW.
  { cbn. rewrite left_id_L by apply _. replace (without [] W) with W; [done|].
    apply map_eq. intros n. rewrite without_lookup. by case_decide; [set_solver|]. }
  rewrite bind_cons, fmap_app in *. apply NoDup_app in Hnd as (Hnd1 & Hd & Hnd2).
  pose proof (run_units_keys d (u :: us) ltac:(by constructor)) as Hk.
  cbn [run_units] in Hk |- *. pose proof (run_unit_effect d u Hu) as Heff.
  destruct (run_unit d u) as [d1 os] eqn:E1.
  specialize (IH d1 (without (serial <$> members u) W) (list_to_map os ∪ dec) Hnd2).
  destruct (run_units d1 us) as [d2 os'] eqn:E2. cbn [fst snd] in *.
  eapply rtc_l.
  { apply (spec_unit (SState d W dec) (members u) d1 os); [done| |done]. intros r Hr. apply HW, elem_of_app. by left. }
  cbn [s_waiting s_decided].
  rewrite <- without_app, <- decided_app.
  - apply IH. intros r Hr. rewrite without_lookup. case_decide as Hin; [|apply HW, elem_of_app; by right].
    exfalso. apply (Hd _ Hin), list_elem_of_fmap. eauto.
  - rewrite Hk, bind_cons, fmap_app. apply NoDup_app. done.
Qed.

(** A failed transaction fails every request of the batch. *)
Lemma fail_refine e b d W dec :
  NoDup (serial <$> b) → (∀ r, r ∈ b → W !! serial r = Some r) →
  rtc spec_step (SState d W dec) (SState d (without (serial <$> b) W) (list_to_map (all_fail b e) ∪ dec)).
Proof.
  revert W dec. induction b as [|r b IH]; intros W dec Hnd HW.
  { cbn. rewrite left_id_L by apply _. replace (without [] W) with W; [done|].
    apply map_eq. intros n. rewrite without_lookup. by case_decide; [set_solver|]. }
  cbn [fmap list_fmap] in Hnd. apply NoDup_cons in Hnd as [Hr Hnd].
  eapply rtc_l; [apply (spec_fail (SState d W dec) r e), HW; by left|]. cbn [s_db s_waiting s_decided].
  replace (serial <$> r :: b) with ([serial r] ++ (serial <$> b)) by done. rewrite <- without_app.
  assert (NoDup ([(serial r, Err e : result V)] ++ all_fail b e).*1) as Hnd'.
  { unfold all_fail. cbn. rewrite <- list_fmap_compose. by apply NoDup_cons. }
  pose proof (decided_app [(serial r, Err e)] (all_fail b e) dec Hnd') as Hdec.
  replace (list_to_map (all_fail (r :: b) e)) with
    (list_to_map ([(serial r, Err e)] ++ all_fail b e) : gmap nat (result V)) by done.
  rewrite <- Hdec.
  replace (list_to_map [(serial r, Err e)] ∪ dec) with (<[serial r := Err e : result V]> dec) by exact (insert_union_singleton_l dec (serial r) (Err e)).
  apply IH; [done|].
  intros r' Hr'. rewrite without_lookup. case_decide as Hin; [|apply HW; by right].
  apply list_elem_of_singleton in Hin. exfalso. apply Hr. rewrite <- Hin. apply list_elem_of_fmap. eauto.
Qed.

(** ** The abstraction *)

Definition collecting (w : writer) : list request := match w_phase w with Collecting b => b | _ => [] end.
Definition finishing (w : writer) : list request := match w_phase w with Finishing b _ => b | _ => [] end.

(** Requests submitted and not decided, and all requests whose serial is pending. *)
Definition waiting (w : writer) : list request := w_assigned w ++ w_queue w ++ collecting w.
Definition live (w : writer) : list request := waiting w ++ finishing w.

Definition by_serial (rs : list request) : gmap nat request := list_to_map ((λ r, (serial r, r)) <$> rs).

Definition abs (w : writer) : sstate := SState (w_db w) (by_serial (waiting w)) (w_decided w).

Lemma by_serial_lookup rs n r : NoDup (serial <$> rs) → by_serial rs !! n = Some r ↔ r ∈ rs ∧ serial r = n.
Proof.
  intros Hnd. unfold by_serial. rewrite <- elem_of_list_to_map.
  - rewrite list_elem_of_fmap. split; [intros (? & [= -> ->] & ?); done|intros [? <-]; eauto].
  - by rewrite <- list_fmap_compose.
Qed.

Lemma by_serial_None rs n : by_serial rs !! n = None ↔ n ∉ serial <$> rs.
Proof.
  unfold by_serial. rewrite <- not_elem_of_list_to_map, <- list_fmap_compose. done.
Qed.

Lemma by_serial_perm rs rs' : NoDup (serial <$> rs) → rs ≡ₚ rs' → by_serial rs = by_serial rs'.
Proof.
  intros Hnd Hp. unfold by_serial. apply list_to_map_proper; [by rewrite <- list_fmap_compose|by rewrite Hp].
Qed.

Lemma by_serial_without rs b : NoDup (serial <$> rs ++ b) → without (serial <$> b) (by_serial (rs ++ b)) = by_serial rs.
Proof.
  intros Hnd. apply map_eq. intros n. rewrite without_lookup. pose proof Hnd as Hnd'.
  rewrite fmap_app in Hnd'. apply NoDup_app in Hnd' as (Hnd1 & Hd & _).
  apply option_eq. intros r. rewrite (by_serial_lookup rs) by done. case_decide as Hin.
  - split; [done|]. intros [Hr <-]. exfalso. apply (Hd (serial r)); [|done]. apply list_elem_of_fmap. eauto.
  - rewrite by_serial_lookup by done. rewrite elem_of_app. split; [|naive_solver].
    intros [[|Hb] <-]; [done|]. exfalso. apply Hin, list_elem_of_fmap. eauto.
Qed.

Lemma queue_put_perm r q : queue_put r q ≡ₚ r :: q.
Proof.
  induction q as [|r' q IH]; cbn; [done|]. destruct (before r r'); [done|]. rewrite IH. apply perm_swap.
Qed.

(** ** The invariant *)

(** Every serial up to the last one is pending or decided; the pending ones are those of
    the live requests; the heap covers them; the watermark lies just below the first
    pending one; a resolved future holds the decided outcome. *)
Record wf (w : writer) : Prop := Wf {
  wf_nodup : NoDup (serial <$> live w);
  wf_pending n : n ∈ w_pending w ↔ n ∈ serial <$> live w;
  wf_known n : n ∈ w_pending w → 1 ≤ n ≤ w_serial w;
  wf_decided n : is_Some (w_decided w !! n) → 1 ≤ n ≤ w_serial w ∧ n ∉ serial <$> waiting w;
  wf_all n : 1 ≤ n ≤ w_serial w → n ∈ w_pending w ∨ is_Some (w_decided w !! n);
  wf_heap : StronglySorted lt (w_heap w);
  wf_heap_known n : n ∈ w_heap w → n ≤ w_serial w;
  wf_heap_covers n : n ∈ w_pending w → n ∈ w_heap w;
  wf_below n : n ∈ w_pending w → w_completed_through w < n;
  wf_exact : w_completed_through w = w_serial w ∨ S (w_completed_through w) ∈ w_pending w;
  wf_future n : 1 ≤ n ≤ w_serial w →
    match w_futures w !! n with
    | Some FPending => n ∈ w_pending w
    | Some FCancelled => True
    | Some (FResolved o) => w_decided w !! n = Some o
    | None => False
    end;
  wf_phase :
    match w_phase w with
    | Stopped => w_queue w = []
    | Waiting => True
    | Collecting b => b ≠ []
    | Finishing b os => b ≠ [] ∧ ∀ r, r ∈ b → ∃ o, os !! serial r = Some o ∧ w_decided w !! serial r = Some o
    end
}.

Lemma writer_init_wf d : wf (writer_init d).
Proof.
  split; cbn; try set_solver; try lia.
  - constructor.
  - intros n. rewrite lookup_empty. by intros [? ?].
  - constructor.
Qed.

(** Facts about the pending serials carry over when only the place of requests changes. *)
Lemma wf_move w w' :
  wf w → live w' ≡ₚ live w → waiting w' ≡ₚ waiting w →
  w_serial w' = w_serial w → w_pending w' = w_pending w → w_heap w' = w_heap w →
  w_completed_through w' = w_completed_through w → w_futures w' = w_futures w → w_decided w' = w_decided w →
  match w_phase w' with
  | Stopped => w_queue w' = []
  | Waiting => True
  | Collecting b => b ≠ []
  | Finishing b os => b ≠ [] ∧ ∀ r, r ∈ b → ∃ o, os !! serial r = Some o ∧ w_decided w' !! serial r = Some o
  end → wf w'.
Proof.
  intros [] Hl Hw Hs Hp Hh Hc Hf Hd Hph.
  split; rewrite ?Hl, ?Hs, ?Hp, ?Hh, ?Hc, ?Hf, ?Hd; auto.
  - intros n. rewrite Hl. auto.
  - intros n. rewrite Hw. auto.
  - by rewrite Hd in Hph.
Qed.

Lemma new_request_wf w p n neg j w' r : new_request w p n neg j = Ok (w', r) → wf w → wf w'.
Proof.
  unfold new_request. intros H [Hnd Hpe Hk Hde Hall Hh Hhk Hhc Hb He Hf Hph]. inv_ok.
  match goal with |- wf ?w0 => set (w' := w0) end. set (r' := Request (S (w_serial w)) p (Z.to_nat n) j) in w'.
  assert (S (w_serial w) ∉ w_pending w) as Hnew by (intros ?%Hk; lia).
  assert (waiting w' ≡ₚ r' :: waiting w) as Hw by (unfold waiting, collecting; cbn; solve_Permutation).
  assert (live w' ≡ₚ r' :: live w) as Hl by (unfold live; rewrite Hw; done).
  split; rewrite ?Hl; subst w'; cbn [w_serial w_pending w_heap w_completed_through w_futures w_decided w_phase w_queue].
  - cbn. apply NoDup_cons. split; [|done]. by rewrite <- Hpe.
  - intros m. rewrite Hl. cbn. rewrite elem_of_union, elem_of_singleton, elem_of_cons, Hpe. done.
  - intros m [->%elem_of_singleton|?%Hk]%elem_of_union; lia.
  - intros m Hm. destruct (Hde m Hm). rewrite Hw. split; [lia|]. cbn. rewrite not_elem_of_cons. split; [lia|done].
  - intros m Hm. rewrite elem_of_union, elem_of_singleton. destruct (decide (m = S (w_serial w))); [auto|].
    destruct (Hall m ltac:(lia)); auto.
  - apply StronglySorted_app. split; [|split; [done|by repeat constructor]].
    intros m m' Hm ->%list_elem_of_singleton. apply Hhk in Hm. lia.
  - intros m [Hm%Hhk| ->%list_elem_of_singleton]%elem_of_app; lia.
  - intros m. rewrite elem_of_union, elem_of_singleton, elem_of_app, list_elem_of_singleton. naive_solver.
  - intros m. rewrite elem_of_union, elem_of_singleton. intros [->|?%Hb]; [|done]. destruct He as [->|?%Hk]; lia.
  - destruct He as [->|He]; [right|right]; apply elem_of_union; [left; by apply elem_of_singleton|by right].
  - intros m Hm. destruct (decide (m = S (w_serial w))) as [->|Hne].
    + rewrite lookup_insert_eq. apply elem_of_union_l. by apply elem_of_singleton.
    + rewrite lookup_insert_ne by done. specialize (Hf m ltac:(lia)). destruct (w_futures w !! m) as [[| |]|]; set_solver.
  - done.
Qed.

Lemma filter_remove (rs : list request) r :
  NoDup (serial <$> rs) → r ∈ rs → rs ≡ₚ r :: filter (λ r', serial r' ≠ serial r) rs.
Proof.
  induction rs as [|r' rs IH]; cbn [fmap list_fmap]; [set_solver|]. intros [Hr' Hnd]%NoDup_cons Hr.
  assert (∀ l : list request, serial r ∉ serial <$> l → filter (λ r', serial r' ≠ serial r) l = l) as Hid.
  { intros l. induction l as [|x l IHl]; [done|]. cbn [fmap list_fmap]. intros [Hx Hl]%not_elem_of_cons.
    rewrite filter_cons_True by congruence. by rewrite IHl. }
  apply elem_of_cons in Hr as [->|Hr].
  - rewrite filter_cons_False by (intros []; done). by rewrite Hid.
  - rewrite filter_cons_True.
    + rewrite (IH Hnd Hr) at 1. apply perm_swap.
    + intros Heq. apply Hr'. rewrite Heq. apply list_elem_of_fmap. eauto.
Qed.

Lemma wf_waiting_nodup w : wf w → NoDup (serial <$> waiting w).
Proof. intros H. pose proof (wf_nodup w H) as Hnd. unfold live in Hnd. rewrite fmap_app in Hnd. apply NoDup_app in Hnd as [? _]. done. Qed.

Lemma enqueue_waiting w r : wf w → r ∈ w_assigned w → waiting (enqueue w r) ≡ₚ waiting w.
Proof.
  intros Hwf Hr. pose proof (wf_waiting_nodup w Hwf) as Hnd. unfold waiting in *. rewrite fmap_app in Hnd.
  apply NoDup_app in Hnd as (Hnd & _ & _).
  assert (collecting (enqueue w r) = collecting w) as ->.
  { unfold collecting, enqueue. cbn. by destruct (w_phase w). }
  cbn [enqueue w_assigned w_queue]. rewrite (filter_remove _ _ Hnd Hr) at 2. rewrite queue_put_perm. solve_Permutation.
Qed.

Lemma enqueue_wf w r : wf w → r ∈ w_assigned w → wf (enqueue w r).
Proof.
  intros Hwf Hr. pose proof (enqueue_waiting w r Hwf Hr) as Hw. apply (wf_move w); try done.
  - unfold live. rewrite Hw. f_equiv. unfold finishing, enqueue. cbn. by destruct (w_phase w).
  - pose proof (wf_phase w Hwf) as Hph. cbn. by destruct (w_phase w).
Qed.

Lemma cancel_wf w n : wf w → wf (cancel w n).
Proof.
  intros [Hnd Hpe Hk Hde Hall Hh Hhk Hhc Hb He Hf Hph]. split; try done.
  intros m Hm. specialize (Hf m Hm). cbn. destruct (w_futures w !! n) as [[| |]|] eqn:Hn; try done.
  destruct (decide (n = m)) as [->|Hne]; [by rewrite lookup_insert_eq|by rewrite lookup_insert_ne].
Qed.

Lemma take_first_waiting w : w_phase w = Waiting → waiting (take_first w) ≡ₚ waiting w ∧ live (take_first w) ≡ₚ live w.
Proof.
  intros Hp. unfold live, waiting, collecting, finishing, take_first. rewrite Hp.
  destruct (w_queue w) as [|r q] eqn:Hq; cbn; rewrite ?Hq; split; solve_Permutation.
Qed.

Lemma take_first_wf w : wf w → w_phase w = Waiting → wf (take_first w).
Proof.
  intros Hwf Hp. destruct (take_first_waiting w Hp). apply (wf_move w); try done;
    unfold take_first; by destruct (w_queue w).
Qed.

Lemma collect_more_queue st x b w w' :
  w_phase w = Collecting b → collect_more st x b w = Some w' →
  ∃ c q, w_queue w = c :: q ∧ w' = with_queue q (Collecting (b ++ [c])) w.
Proof.
  intros Hp. unfold collect_more. destruct b as [|r0 b]; [done|]. destruct (_ && _); [|done].
  destruct (w_queue w) as [|c q]; [done|]. destruct (_ && _); [|done]. intros [= <-]. eauto.
Qed.

Lemma collect_more_waiting st x b w w' :
  w_phase w = Collecting b → collect_more st x b w = Some w' → waiting w' ≡ₚ waiting w ∧ live w' ≡ₚ live w.
Proof.
  intros Hp (c & q & Hq & ->)%collect_more_queue; [|done].
  unfold live, waiting, collecting, finishing. rewrite Hp, Hq. cbn. split; solve_Permutation.
Qed.

Lemma collect_more_wf st x b w w' :
  wf w → w_phase w = Collecting b → collect_more st x b w = Some w' → wf w'.
Proof.
  intros Hwf Hp H. destruct (collect_more_waiting _ _ _ _ _ Hp H).
  apply (collect_more_queue _ _ _ _ _ Hp) in H as (c & q & Hq & ->). apply (wf_move w); try done. by destruct b.
Qed.

Lemma transact_keys failed d b : (transact failed d b).2.*1 ≡ₚ serial <$> b.
Proof.
  unfold transact, execute_batch. destruct failed as [e|].
  - unfold all_fail. cbn. by rewrite <- list_fmap_compose.
  - rewrite run_units_keys by apply units_of_ok. by rewrite units_of_members.
Qed.

Lemma outcome_lookup (os : list (nat * result V)) n : is_Some ((list_to_map os : gmap nat (result V)) !! n) ↔ n ∈ os.*1.
Proof.
  split.
  - intros [o Ho]. apply elem_of_list_to_map_2 in Ho. by exact (list_elem_of_fmap_2 fst os (n, o) Ho).
  - intros Hn. apply not_eq_None_Some. by rewrite <- not_elem_of_list_to_map; auto.
Qed.

Lemma execute_wf failed b w : wf w → w_phase w = Collecting b → wf (execute failed b w).
Proof.
  intros [Hnd Hpe Hk Hde Hall Hh Hhk Hhc Hb He Hf Hph] Hp. rewrite Hp in Hph.
  pose proof (transact_keys failed (w_db w) b) as Hkeys. unfold execute.
  destruct (transact failed (w_db w) b) as [d os]. cbn [snd] in Hkeys.
  match goal with |- wf ?w0 => set (w' := w0) end.
  assert (live w' ≡ₚ live w) as Hl.
  { unfold live, waiting, collecting, finishing. rewrite Hp. cbn. solve_Permutation. }
  assert (waiting w ≡ₚ waiting w' ++ b) as Hw.
  { unfold waiting, collecting. rewrite Hp. cbn. solve_Permutation. }
  assert (∀ n, is_Some ((list_to_map os : gmap nat (result V)) !! n) ↔ n ∈ serial <$> b) as Hos.
  { intros n. by rewrite outcome_lookup, Hkeys. }
  assert (∀ n, n ∈ serial <$> b → n ∈ w_pending w) as Hbp.
  { intros n Hn. apply Hpe. unfold live. rewrite Hw, !fmap_app, !elem_of_app. auto. }
  split; rewrite ?Hl; subst w'; cbn [w_serial w_pending w_heap w_completed_through w_futures w_decided w_phase w_queue];
    auto.
  - intros n. rewrite Hl. apply Hpe.
  - intros n [o [Ho|[Hn Ho]]%lookup_union_Some_raw].
    + assert (n ∈ serial <$> b) as Hn by (apply Hos; eauto). split; [by apply Hk, Hbp|].
      unfold live in Hnd. rewrite Hw, !fmap_app in Hnd. apply NoDup_app in Hnd as (Hnd & _ & _).
      apply NoDup_app in Hnd as (_ & Hd & _). intros Hn'. by apply (Hd n).
    + destruct (Hde n) as [? Hnw]; [eauto|]. split; [done|]. intros Hn'. apply Hnw. rewrite Hw, fmap_app. set_solver.
  - intros n Hn. destruct (Hall n Hn) as [|Ho]; [by left|right]. rewrite lookup_union. by apply union_is_Some; right.
  - intros n Hn. specialize (Hf n Hn). destruct (w_futures w !! n) as [[| |o]|]; try done.
    rewrite lookup_union_r; [done|]. apply eq_None_not_Some. rewrite Hos. intros Hin.
    destruct (Hde n ltac:(eauto)) as [_ Hnw]. apply Hnw. rewrite Hw, fmap_app. set_solver.
  - split; [done|]. intros r Hr. assert (serial r ∈ serial <$> b) as [o Ho]%Hos by (apply list_elem_of_fmap; eauto).
    exists o. split; [done|]. by apply lookup_union_Some_l.
Qed.

(** Executing a batch, seen from outside: its units take effect one after the other. *)
Lemma execute_refines failed b w :
  wf w → w_phase w = Collecting b → rtc spec_step (abs w) (abs (execute failed b w)).
Proof.
  intros Hwf Hp. pose proof (wf_waiting_nodup w Hwf) as Hnd.
  assert (waiting w = (w_assigned w ++ w_queue w) ++ b) as Hw.
  { unfold waiting, collecting. by rewrite Hp, app_assoc. }
  assert (by_serial (w_assigned w ++ w_queue w) = without (serial <$> b) (by_serial (waiting w))) as Hout.
  { rewrite Hw in *. by rewrite by_serial_without. }
  assert (∀ r, r ∈ b → by_serial (waiting w) !! serial r = Some r) as Hin.
  { intros r Hr. apply by_serial_lookup; [done|]. split; [|done]. rewrite Hw. apply elem_of_app. by right. }
  assert (NoDup (serial <$> b)) as Hndb.
  { rewrite Hw, fmap_app in Hnd. by apply NoDup_app in Hnd as (_ & _ & ?). }
  unfold execute, abs. destruct (transact failed (w_db w) b) as [d os] eqn:Ht.
  match goal with |- rtc _ _ (SState _ (by_serial (waiting ?w')) _) =>
    assert (waiting w' = w_assigned w ++ w_queue w) as -> by (unfold waiting, collecting; cbn; by rewrite app_nil_r)
  end.
  cbn [w_db w_decided]. rewrite Hout. unfold transact in Ht. destruct failed as [e|].
  - injection Ht as <- <-. by apply fail_refine.
  - unfold execute_batch in Ht. pose proof (units_of_members b) as Hm.
    assert (without (serial <$> b) (by_serial (waiting w)) =
      without (serial <$> (units_of b ≫= members)) (by_serial (waiting w))) as ->.
    { apply map_eq. intros n. rewrite !without_lookup. apply decide_ext. by rewrite Hm. }
    pose proof (units_refine (units_of b) (w_db w) (by_serial (waiting w)) (w_decided w) (units_of_ok b)) as H.
    rewrite Ht in H. apply H; [by rewrite Hm|]. intros r. rewrite Hm. apply Hin.
Qed.

Lemma resolve_lookup os b fs n :
  foldl (resolve_one os) fs b !! n =
  match fs !! n with
  | Some FPending => if decide (n ∈ serial <$> b) then Some (match os !! n with Some o => FResolved o | None => FPending end)
                     else Some FPending
  | x => x
  end.
Proof.
  revert fs. induction b as [|r b IH]; intros fs; cbn [foldl fmap list_fmap].
  { destruct (fs !! n) as [[| |]|]; done. }
  rewrite IH. unfold resolve_one. destruct (decide (serial r = n)) as [<-|Hne].
  - destruct (fs !! serial r) as [[| |]|] eqn:Hf; rewrite ?Hf; try done.
    rewrite (decide_True (P := serial r ∈ serial r :: _)) by set_solver.
    destruct (os !! serial r); rewrite ?lookup_insert_eq, ?Hf; [done|]. by case_decide.
  - replace (match fs !! serial r with Some FPending => _ | _ => _ end !! n) with (fs !! n).
    + destruct (fs !! n) as [[| |]|]; try done. repeat case_decide; set_solver.
    + destruct (fs !! serial r) as [[| |]|]; try done. destruct (os !! serial r); [|done]. by rewrite lookup_insert_ne.
Qed.

Lemma drop_stale_spec pending heap :
  StronglySorted lt heap → (∀ n, n ∈ pending → n ∈ heap) →
  let h := drop_stale pending heap in
  StronglySorted lt h ∧ (∀ n, n ∈ pending → n ∈ h) ∧ (∀ n, n ∈ h → n ∈ heap) ∧ ∀ n, head h = Some n → n ∈ pending.
Proof.
  induction 1 as [|n heap Hs IH Hn]; intros Hc; cbn.
  { repeat split; try done. constructor. }
  case_decide as Hp; cbn.
  - repeat split; try done; [by constructor|]. by intros ? [= <-].
  - destruct IH as (H1 & H2 & H3 & H4); [|repeat split; try done].
    + intros m Hm. specialize (Hc m Hm). apply elem_of_cons in Hc as [->|]; done.
    + intros m Hm. right. auto.
Qed.

Lemma compact_spec pending heap :
  StronglySorted lt heap → (∀ n, n ∈ pending → n ∈ heap) →
  let h := compact pending heap in
  StronglySorted lt h ∧ (∀ n, n ∈ pending → n ∈ h) ∧ (∀ n, n ∈ h → n ∈ heap) ∧ ∀ n, head h = Some n → n ∈ pending.
Proof.
  intros Hs Hc. unfold compact. cbn. case_match; [|by apply drop_stale_spec].
  assert (∀ n, n ∈ py_sorted (elements pending) ↔ n ∈ pending) as Hin.
  { intros n. by rewrite elem_of_py_sorted, elem_of_elements. }
  split; [|repeat split]; try (intros n; rewrite Hin; auto).
  - pose proof (py_sorted_sorted (elements pending)) as Hso.
    assert (NoDup (py_sorted (elements pending))) as Hnd by (rewrite py_sorted_perm; apply NoDup_elements).
    clear Hin. induction Hso as [|x l Hl IH Hx]; [constructor|]. apply NoDup_cons in Hnd as [Hxl Hnd].
    constructor; [by apply IH|]. apply Forall_forall. intros y Hy. rewrite Forall_forall in Hx.
    specialize (Hx y Hy). apply Nat.leb_le in Hx. assert (x ≠ y) by congruence. lia.
  - intros n Hn. apply Hin. destruct (py_sorted _); [done|]. injection Hn as ->. by left.
Qed.

(** The durability watermark after a completion. *)
Lemma watermark_spec (pending : gset nat) heap last :
  StronglySorted lt heap → (∀ n, n ∈ pending → n ∈ heap ∧ 1 ≤ n) → (∀ n, head heap = Some n → n ∈ pending) →
  let c := match heap with n :: _ => n - 1 | [] => last end in
  (∀ n, n ∈ pending → c < n) ∧ (c = last ∨ S c ∈ pending).
Proof.
  intros Hs Hp Hh. destruct heap as [|m heap]; cbn.
  - split; [|by left]. intros n Hn. apply Hp in Hn as [Hn _]. set_solver.
  - assert (m ∈ pending) as Hm by (by apply Hh). assert (1 ≤ m) by (by apply Hp).
    split; [|right; by replace (S (m - 1)) with m by lia].
    intros n Hn. apply Hp in Hn as [Hn Hn1]. inv Hs. apply elem_of_cons in Hn as [->|Hn]; [lia|].
    assert (m < n); [|lia]. match goal with H : Forall _ _ |- _ => rewrite Forall_forall in H; by apply H end.
Qed.

Lemma finish_fields b os w :
  let w' := finish b os w in
  waiting w' = w_assigned w ++ w_queue w ∧ live w' = w_assigned w ++ w_queue w ∧
  w_serial w' = w_serial w ∧ w_pending w' = w_pending w ∖ list_to_set (serial <$> b) ∧
  w_heap w' = compact (w_pending w') (w_heap w) ∧
  w_completed_through w' = match w_heap w' with n :: _ => n - 1 | [] => w_serial w end ∧
  w_futures w' = foldl (resolve_one os) (w_futures w) b ∧ w_decided w' = w_decided w ∧ w_db w' = w_db w ∧
  w_queue w' = w_queue w ∧ w_phase w' = match w_queue w with [] => Stopped | _ => Waiting end.
Proof.
  assert (∀ (q : list request), match (match q with [] => Stopped | _ => Waiting end) with Collecting b => b | _ => [] end = [] ∧
     match (match q with [] => Stopped | _ => Waiting end) with Finishing b _ => b | _ => [] end = []) as Hq by by intros [].
  destruct (Hq (w_queue w)) as [Hq1 Hq2]. unfold live, waiting, collecting, finishing, finish.
  destruct b as [|r b]; [|destruct (priority r <=? 5)%Z]; cbn; rewrite Hq1, Hq2, !app_nil_r; done.
Qed.

Lemma finish_wf b os w : wf w → w_phase w = Finishing b os → wf (finish b os w).
Proof.
  intros [Hnd Hpe Hk Hde Hall Hh Hhk Hhc Hb He Hf Hph] Hp. rewrite Hp in Hph.
  pose proof (finish_fields b os w) as H. destruct (finish b os w) eqn:Hw'. rewrite <- Hw' in *. cbn zeta in H.
  destruct H as (Ew & El & Es & Ep & Eh & Ec & Ef & Ed & _ & Eq & Eph).
  assert (live w = (w_assigned w ++ w_queue w) ++ b) as Hl.
  { unfold live, waiting, collecting, finishing. by rewrite Hp, app_nil_r. }
  assert (waiting w = w_assigned w ++ w_queue w) as Hw.
  { unfold waiting, collecting. by rewrite Hp, app_nil_r. }
  assert (∀ n, n ∈ w_pending (finish b os w) ↔ n ∈ w_pending w ∧ n ∉ serial <$> b) as Hpn.
  { intros n. rewrite Ep, elem_of_difference, elem_of_list_to_set. done. }
  destruct (compact_spec (w_pending (finish b os w)) (w_heap w)) as (C1 & C2 & C3 & C4).
  { done. } { intros n [Hn _]%Hpn. auto. }
  rewrite <- Eh in *.
  destruct (watermark_spec (w_pending (finish b os w)) (w_heap (finish b os w)) (w_serial w)) as [W1 W2]; [done| |done|].
  { intros n Hn. split; [auto|]. apply Hpn in Hn as [Hn%Hk _]. lia. }
  rewrite <- Ec in *. rewrite Hl in *. split; rewrite ?El, ?Ew, ?Es, ?Ef, ?Ed, ?Eph, ?Eq; auto.
  - rewrite fmap_app in Hnd. by apply NoDup_app in Hnd as (? & _ & _).
  - intros n. rewrite Hpn, Hpe, fmap_app, elem_of_app. rewrite fmap_app in Hnd.
    apply NoDup_app in Hnd as (_ & Hd & _). naive_solver.
  - intros n [Hn _]%Hpn. auto.
  - intros n Hn. rewrite <- Hw. auto.
  - intros n Hn. rewrite Hpn. destruct (Hall n Hn) as [Hn'|]; [|by right].
    destruct (decide (n ∈ serial <$> b)) as [Hin|]; [|by left]. right.
    apply list_elem_of_fmap in Hin as (r & -> & Hr). destruct Hph as [_ Hph]. destruct (Hph r Hr) as (o & _ & ->). eauto.
  - intros n Hn. specialize (Hf n Hn). rewrite resolve_lookup. destruct (w_futures w !! n) as [[| |o]|]; try done.
    case_decide as Hin; [|by apply Hpn]. apply list_elem_of_fmap in Hin as (r & -> & Hr).
    destruct Hph as [_ Hph]. by destruct (Hph r Hr) as (o & -> & ->).
  - by destruct (w_queue w).
Qed.

(** ** Executions *)

Lemma step_wf st w w' : wf w → step st w w' → wf w'.
Proof.
  intros Hwf [H|H]; destruct H.
  - by eapply new_request_wf.
  - by apply enqueue_wf.
  - by apply cancel_wf.
  - by apply take_first_wf.
  - by eapply collect_more_wf.
  - by apply execute_wf.
  - by eapply finish_wf.
Qed.

Lemma reachable_wf st d w : rtc (step st) (writer_init d) w → wf w.
Proof.
  intros H. remember (writer_init d) as w0 eqn:E. assert (wf w0) as Hwf by (rewrite E; apply writer_init_wf).
  clear E. induction H; eauto using step_wf.
Qed.

Lemma new_request_refines w p n neg j w' r :
  wf w → new_request w p n neg j = Ok (w', r) → spec_step (abs w) (abs w').
Proof.
  intros Hwf H. pose proof (new_request_wf _ _ _ _ _ _ _ H Hwf) as Hwf'. unfold new_request in H. inv_ok.
  match goal with |- spec_step _ (abs ?w0) => set (w' := w0) in * end.
  set (r := Request (S (w_serial w)) p (Z.to_nat n) j) in *.
  assert (abs w' = SState (w_db w) (<[serial r := r]> (by_serial (waiting w))) (w_decided w)) as ->.
  { unfold abs. f_equal. change (<[serial r := r]> (by_serial (waiting w))) with (by_serial (r :: waiting w)).
    apply by_serial_perm; [by apply wf_waiting_nodup|]. unfold waiting, collecting. cbn. solve_Permutation. }
  apply spec_submit; cbn.
  - apply by_serial_None. intros Hin. assert (S (w_serial w) ∈ w_pending w) as Hk%(wf_known w Hwf); [|lia].
    apply (wf_pending w Hwf). unfold live. rewrite fmap_app. apply elem_of_app. by left.
  - apply eq_None_not_Some. intros [[? ?] _]%(wf_decided w Hwf). lia.
Qed.

Lemma same_waiting_refines w w' :
  wf w → waiting w' ≡ₚ waiting w → w_db w' = w_db w → w_decided w' = w_decided w → abs w' = abs w.
Proof.
  intros Hwf Hw Hd He. unfold abs. rewrite Hd, He. f_equal. symmetry. apply by_serial_perm; [|done].
  by apply wf_waiting_nodup.
Qed.

Lemma step_refines st w w' : wf w → step st w w' → rtc spec_step (abs w) (abs w').
Proof.
  intros Hwf [[p n neg j w0 r H|r H|n]|[H|x b w0 Hp H|f b H|b os H]].
  - apply rtc_once. by eapply new_request_refines.
  - rewrite (same_waiting_refines w (enqueue w r)) by auto using enqueue_waiting. done.
  - by rewrite (same_waiting_refines w (cancel w n)).
  - destruct (take_first_waiting w H). rewrite (same_waiting_refines w (take_first w)); try done;
      unfold take_first; by destruct (w_queue w).
  - destruct (collect_more_waiting _ _ _ _ _ Hp H). apply (collect_more_queue _ _ _ _ _ Hp) in H as (c & q & _ & ->).
    by rewrite (same_waiting_refines w (with_queue q (Collecting (b ++ [c])) w)).
  - by apply execute_refines.
  - pose proof (finish_fields b os w) as (Ew & _ & _ & _ & _ & _ & _ & Ed & Edb & _).
    rewrite (same_waiting_refines w (finish b os w)); try done. rewrite Ew. unfold waiting, collecting.
    by rewrite H, app_nil_r.
Qed.

(** C3: the writer implements an atomic store.  In every interleaving of submissions,
    enqueueing, cancellations, batch collection, transactions (failed ones included) and
    completions, the database evolves by a sequence of specification steps: a mutation is
    submitted under a fresh serial; then, exactly once, its unit runs on the database of
    that moment and answers every member, or it fails without effect.  A future that
    resolved holds the outcome its mutation was decided with. *)
Theorem writer_refines st d w : rtc (step st) (writer_init d) w →
  rtc spec_step (SState d ∅ ∅) (abs w) ∧
  ∀ n o, 1 ≤ n ≤ w_serial w → w_futures w !! n = Some (FResolved o) → s_decided (abs w) !! n = Some o.
Proof.
  intros H. split.
  - change (SState d ∅ ∅) with (abs (writer_init d)). pose proof (writer_init_wf d) as Hwf.
    induction H as [w|w1 w2 w3 H12 H23 IH]; [done|].
    transitivity (abs w2); [by apply (step_refines st)|]. apply IH. by apply (step_wf st w1).
  - intros n o Hn Ho. pose proof (wf_future w (reachable_wf _ _ _ H) n Hn) as Hf. by rewrite Ho in Hf.
Qed.

(** C34: durability barriers.  In every reachable state, when a barrier on a submitted
    serial is over, every mutation up to that serial has been decided and its future has
    resolved with that outcome or was cancelled; while it is not over, some mutation up
    to the serial is still to be completed. *)
Theorem barrier_durable st d w target : rtc (step st) (writer_init d) w → target ≤ w_serial w →
  if barrier_ready w target then
    ∀ n, 1 ≤ n ≤ target → ∃ o, w_decided w !! n = Some o ∧
      (w_futures w !! n = Some (FResolved o) ∨ w_futures w !! n = Some FCancelled)
  else ∃ n, 1 ≤ n ≤ target ∧ n ∈ serial <$> live w.
Proof.
  intros [Hnd Hpe Hk Hde Hall Hh Hhk Hhc Hb He Hf Hph]%reachable_wf Ht. unfold barrier_ready.
  destruct (target <=? w_completed_through w) eqn:Hc; [apply Nat.leb_le in Hc|apply Nat.leb_gt in Hc].
  - intros n Hn. assert (n ∉ w_pending w) as Hp by (intros ?%Hb; lia).
    destruct (Hall n ltac:(lia)) as [|[o Ho]]; [done|]. exists o. split; [done|].
    specialize (Hf n ltac:(lia)). destruct (w_futures w !! n) as [[| |o']|]; try done; [by right|].
    left. congruence.
  - destruct He as [He|He]; [lia|]. exists (S (w_completed_through w)). split; [lia|]. by apply Hpe.
Qed.

(** The steps the writer thread can still take before it retires. *)
Definition remaining (w : writer) : nat :=
  match w_phase w with
  | Stopped => 0
  | Waiting => 3 * length (w_queue w) + 1
  | Collecting _ => 3 * length (w_queue w) + 3
  | Finishing _ _ => 3 * length (w_queue w) + 2
  end.

Lemma writer_step_remaining st w w' : writer_step st w w' → remaining w' < remaining w.
Proof.
  intros [H|x b w0 Hp H|f b H|b os H]; unfold remaining.
  - unfold take_first. rewrite H. destruct (w_queue w); cbn; lia.
  - apply (collect_more_queue _ _ _ _ _ Hp) in H as (c & q & Hq & ->). rewrite Hp, Hq. cbn. lia.
  - unfold execute. destruct (transact _ _ _). rewrite H. cbn. lia.
  - pose proof (finish_fields b os w) as (_ & _ & _ & _ & _ & _ & _ & _ & _ & Eq & Eph). rewrite Eph, Eq, H.
    destruct (w_queue w); cbn; lia.
Qed.

(** C39: termination of the writer thread.  Without new submissions it takes a bounded
    number of steps, whatever batches form and transactions fail; where it can take no
    step it has retired with an empty queue, and if every submitted request had been
    enqueued, every barrier is over. *)
Theorem writer_drains st d w n w' : rtc (step st) (writer_init d) w → nsteps (writer_step st) n w w' →
  n ≤ remaining w ∧
  ((∀ w2, ¬ writer_step st w' w2) →
    w_phase w' = Stopped ∧ w_queue w' = [] ∧
    (w_assigned w' = [] → ∀ target, target ≤ w_serial w' → barrier_ready w' target = true)).
Proof.
  intros Hwf%reachable_wf Hs. split.
  - induction Hs as [|n w1 w2 w3 H12 _ IH]; [lia|]. pose proof (writer_step_remaining _ _ _ H12).
    assert (wf w2) as ?%IH; [|lia]. apply (step_wf st w1); [done|by right].
  - intros Hstuck. assert (wf w') as Hwf'.
    { induction Hs as [|n w1 w2 w3 H12 _ IH]; [done|]. apply IH; [|done]. apply (step_wf st w1); [done|by right]. }
    pose proof (wf_phase w' Hwf') as Hph. destruct (w_phase w') eqn:Hp.
    + repeat split; [done|]. intros Ha target Ht. unfold barrier_ready. apply Nat.leb_le.
      destruct (wf_exact w' Hwf') as [|Hin]; [lia|]. apply (wf_pending w' Hwf') in Hin.
      unfold live, waiting, collecting, finishing in Hin. rewrite Hp, Ha, Hph in Hin. by apply not_elem_of_nil in Hin.
    + destruct (Hstuck (take_first w')). by constructor.
    + destruct (Hstuck (execute None batch w')). by constructor.
    + destruct (Hstuck (finish batch outcomes w')). by constructor.
Qed.
End writer.

(** ** A concrete run: two requests, the second of which raises, in one batch *)

Module sample.
Definition st : settings := Settings 1024 192.
Definition wr := @writer (list string) string string string.

Definition submit (p : Z) (j : work) (w : wr) : wr :=
  match new_request w p 1 false j with Ok (w', _) => w' | Err _ => w end.
Definition put (w : wr) : wr := match w_assigned w with r :: _ => enqueue w r | [] => w end.
Definition collect (w : wr) : wr :=
  match w_phase w with Collecting b => match collect_more st false b w with Some w' => w' | None => w end | _ => w end.
Definition commit (w : wr) : wr :=
  match w_phase w with Collecting b => execute id None b w | _ => w end.
Definition complete (w : wr) : wr :=
  match w_phase w with Finishing b os => finish b os w | _ => w end.

Definition append (s : string) : @work (list string) string string string := Single (λ d, Ok (d ++ [s], s)).
Definition refuse : @work (list string) string string string := Single (λ _, raise ValueError "refused").

Definition w0 : wr := writer_init [].
Definition w1 := submit 10 (append "a") w0.
Definition w2 := submit 10 refuse w1.
Definition w3 := put w2.
Definition w4 := put w3.
Definition w5 := take_first w4.
Definition w6 := collect w5.
Definition w7 := commit w6.
Definition w8 := complete w7.

Lemma w4_reachable : rtc (step id st) w0 w4.
Proof.
  eapply rtc_l with w1; [left; apply (step_new w0 10 1 false (append "a") w1 (Request 1 10 1 (append "a"))); reflexivity|].
  eapply rtc_l with w2; [left; apply (step_new w1 10 1 false refuse w2 (Request 2 10 1 refuse)); reflexivity|].
  eapply rtc_l with w3; [left; apply (step_enqueue w2 (Request 1 10 1 (append "a"))); left|].
  apply rtc_once; left. apply (step_enqueue w3 (Request 2 10 1 refuse)). left.
Qed.

Lemma w4_drains : nsteps (writer_step id st) 4 w4 w8.
Proof.
  eapply nsteps_l with w5; [by constructor|].
  eapply nsteps_l with w6; [apply (step_more _ _ _ false [Request 1 10 1 (append "a")]); reflexivity|].
  eapply nsteps_l with w7; [apply (step_execute _ _ _ None); reflexivity|].
  eapply nsteps_l with w8; [by apply step_finish|constructor].
Qed.

Lemma w8_reachable : rtc (step id st) w0 w8.
Proof.
  transitivity w4; [apply w4_reachable|]. apply (rtc_subrel (writer_step id st)); [by right|].
  apply rtc_nsteps_2 with 4, w4_drains.
Qed.

Example w8_outcome : w_db w8 = ["a"] ∧ w_completed_through w8 = 2 ∧
  w_futures w8 !! 2 = Some (FResolved (raise ValueError "refused")).
Proof. vm_compute. done. Qed.
End sample.

Lemma writer_refines_witness :
  rtc (@spec_step (list string) string string string id) (SState [] ∅ ∅) (abs sample.w8) ∧
  s_decided (abs sample.w8) !! 1 = Some (Ok "a").
Proof.
  destruct (Writer.writer_refines id sample.st [] sample.w8 sample.w8_reachable) as [H1 H2].
  split; [exact H1|]. apply H2; [vm_compute; lia|]. vm_compute. reflexivity.
Defined.

Lemma barrier_durable_witness :
  ∃ o, w_decided sample.w8 !! 2 = Some o ∧
    (w_futures sample.w8 !! 2 = Some (FResolved o) ∨ w_futures sample.w8 !! 2 = Some FCancelled).
Proof.
  assert (Ht : 2 ≤ w_serial sample.w8) by (vm_compute; lia).
  pose proof (Writer.barrier_durable id sample.st [] sample.w8 2 sample.w8_reachable Ht) as H.
  assert (barrier_ready sample.w8 2 = true) as Hb by reflexivity. rewrite Hb in H. apply H. lia.
Defined.

Lemma writer_drains_witness : 4 ≤ remaining sample.w4.
Proof. exact (proj1 (Writer.writer_drains id sample.st [] sample.w4 4 sample.w8 sample.w4_reachable sample.w4_drains)). Defined.
