(* ===== verification/JobStore.v ===== *)
(** The job tables and their execution leases ([storage/execution_claims.py],
    [storage/execution_terminal.py], [storage/execution_restart.py],
    [storage/restart_application.py], [storage/execution_ownership.py],
    [session_liveness.py]).

    A table is a finite map from its primary key; a row keeps the columns these
    operations read or write, JSON columns decoded.  Every operation runs inside one
    transaction of the single SQLite writer, so it is a function from the database to
    a new database and its outcome; raising rolls back, so an [Err] carries no new
    database. *)
From S2P Require Import Prelude Topology.

#[local] Open Scope Z_scope.

(** ** The database *)

Definition addr : Type := string * Z.

(** A row of [jobs]. *)
Record job_row := JobRow {
  generation : Z;
  status : string;
  active_execution_id : option string;
  active_pid : option Z;
  active_thread_id : option Z;
  active_started_at : option string;
  restart_requested_at : option string;
  restart_requested_by_pid : option Z;
  restart_reason : option string;
  runtime : option (list (string * string))
}.

(** A row of [job_instances]. *)
Record instance_row := InstanceRow {
  instance_id : string;
  last_execution_id : option string;
  created_by_execution_id : option string
}.

(** A row of [job_execution_owners]. *)
Record owner_row := OwnerRow {
  o_addr : addr;
  o_generation : Z;
  o_session : string;
  o_component_key : string;
  o_instance : string;
  o_shape : Z;
  o_alignment : Z;
  o_creator : option string
}.

(** A row of [execution_sessions]. *)
Record session_row := SessionRow {
  s_kind : string;
  s_status : string;
  s_shape : Z;
  s_hostname : option string;
  s_pid : option Z;
  s_identity : option string;
  s_heartbeat : option string;
  s_started : string
}.

(** A row of [job_events]. *)
Record event := Event {
  e_addr : addr;
  e_time : string;
  e_name : string;
  e_generation : option Z;
  e_execution : option string;
  e_previous_status : option string;
  e_status : option string;
  (** Session, job instance and component of an accepted owned restart. *)
  e_origin : option (string * string * list string)
}.

Record db := Db {
  jobs : gmap addr job_row;
  instances : gmap addr instance_row;
  owners : gmap string owner_row;
  sessions : gmap string session_row;
  session_components : gset (string * string);
  reservations : gmap string string;
  shapes : gmap Z string;
  definitions : gset (string * Z);
  nodes : gmap string string;
  events : list event;
  restart_revision : Z
}.

Definition set_jobs x d := Db x (instances d) (owners d) (sessions d) (session_components d) (reservations d) (shapes d) (definitions d) (nodes d) (events d) (restart_revision d).
Definition set_instances x d := Db (jobs d) x (owners d) (sessions d) (session_components d) (reservations d) (shapes d) (definitions d) (nodes d) (events d) (restart_revision d).
Definition set_owners x d := Db (jobs d) (instances d) x (sessions d) (session_components d) (reservations d) (shapes d) (definitions d) (nodes d) (events d) (restart_revision d).
Definition set_sessions x d := Db (jobs d) (instances d) (owners d) x (session_components d) (reservations d) (shapes d) (definitions d) (nodes d) (events d) (restart_revision d).
Definition set_session_components x d := Db (jobs d) (instances d) (owners d) (sessions d) x (reservations d) (shapes d) (definitions d) (nodes d) (events d) (restart_revision d).
Definition set_reservations x d := Db (jobs d) (instances d) (owners d) (sessions d) (session_components d) x (shapes d) (definitions d) (nodes d) (events d) (restart_revision d).
Definition set_nodes x d := Db (jobs d) (instances d) (owners d) (sessions d) (session_components d) (reservations d) (shapes d) (definitions d) x (events d) (restart_revision d).
Definition set_events x d := Db (jobs d) (instances d) (owners d) (sessions d) (session_components d) (reservations d) (shapes d) (definitions d) (nodes d) x (restart_revision d).
Definition set_revision x d := Db (jobs d) (instances d) (owners d) (sessions d) (session_components d) (reservations d) (shapes d) (definitions d) (nodes d) (events d) x.

Definition QUEUED := "queued".
Definition RUNNING := "running".
Definition DONE := "done".
Definition FAILED := "failed".
Definition CANCELLED := "cancelled".
Definition SKIPPED := "skipped".

(** ** Ownership observations ([execution_ownership.py]) *)

Definition is_hex (c : ascii) : bool :=
  let n := nat_of_ascii c in ((48 <=? n) && (n <=? 57))%nat || ((97 <=? n) && (n <=? 102))%nat.

(** A 32-character lower-case hexadecimal identity. *)
Definition valid_instance (s : string) : bool :=
  (String.length s =? 32)%nat && forallb is_hex (list_ascii_of_string s).

(** The dictionary [_execution_owner_from_row] returns. *)
Record owner := Owner {
  ow_execution : string;
  ow_addr : addr;
  ow_generation : Z;
  ow_session : string;
  ow_component : key;
  ow_instance : string;
  ow_shape : Z;
  ow_alignment : Z;
  ow_creator : option string
}.

#[export] Instance owner_eq_dec : EqDecision owner.
Proof. solve_decision. Defined.

Record observation := Observation {
  ob_instance : string;
  ob_generation : Z;
  ob_status : string;
  ob_active : option string;
  ob_pid : option Z;
  ob_started_at : option string;
  ob_owner : option owner;
  ob_session : option (string * session_row)
}.

Section ownership.
(** [component_snapshot_from_shape]: the components of a stored shape. *)
Context (snapshot_components : string → result (list key)).

Definition creator_valid (d : db) (c : option string) : bool :=
  match c with
  | None => true
  | Some c => negb (bool_decide (strip c = "")) && bool_decide (is_Some (owners d !! c))
  end.

(** [_execution_owner_from_row]: the owner row [o] of execution [x], joined with its
    session, shape and definition. *)
Definition execution_owner_from_row (d : db) (x : string) (o : owner_row) : result owner :=
  let session := sessions d !! o_session o in
  check! bool_decide (is_Some session) && bool_decide ((o_session o, o_component_key o) ∈ session_components d)
         && bool_decide (s_shape <$> session = Some (o_shape o))
         && bool_decide ((o_component_key o, o_shape o) ∈ definitions d)
    orelse RuntimeError saying "Execution producing component is outside its recorded session" in
  let! component :=
    match decode_component_key (o_component_key o) with
    | Ok c => if bool_decide (encode_component_key c = o_component_key o) then Ok c
              else raise RuntimeError "Damaged execution producing component"
    | Err _ => raise RuntimeError "Damaged execution producing component"
    end in
  check! valid_instance (o_instance o) && (0 <=? o_generation o) && (1 <=? (o_addr o).2)
    orelse RuntimeError saying "Damaged execution job identity" in
  let! shape :=
    match shapes d !! o_shape o with
    | Some s => if 0 <=? o_alignment o then Ok s else raise RuntimeError "Damaged execution producing identity"
    | None => raise RuntimeError "Damaged execution producing identity"
    end in
  let! snapshot :=
    match snapshot_components shape with
    | Ok cs => Ok cs
    | Err _ => raise RuntimeError "Damaged execution producing shape"
    end in
  check! bool_decide (component ∈ snapshot) && bool_decide ((o_addr o).1 ∈ component)
    orelse RuntimeError saying "Execution component does not belong to its producing shape" in
  check! creator_valid d (o_creator o) orelse RuntimeError saying "Damaged execution job creator" in
  Ok (Owner x (o_addr o) (o_generation o) (o_session o) component (o_instance o) (o_shape o)
        (o_alignment o) (o_creator o)).

(** [_read_execution_owner]. *)
Definition read_execution_owner (d : db) (x : string) : result (option owner) :=
  match owners d !! x with
  | None => Ok None
  | Some o => let! ow := execution_owner_from_row d x o in Ok (Some ow)
  end.

(** [_read_job_owner_observation]; [None] when there is no such job. *)
Definition read_job_owner_observation (d : db) (a : addr) : result (option observation) :=
  match jobs d !! a with
  | None => Ok None
  | Some j =>
      let! i := match instances d !! a with
                | Some i => if valid_instance (instance_id i) then Ok i
                            else raise RuntimeError "Missing or damaged current job instance"
                | None => raise RuntimeError "Missing or damaged current job instance"
                end in
      check! creator_valid d (created_by_execution_id i)
        orelse RuntimeError saying "Damaged current job creator" in
      let active := active_execution_id j in
      let last := last_execution_id i in
      check! bool_decide (active = None) || bool_decide (active = last)
        orelse RuntimeError saying "Ambiguous current execution ownership" in
      let unclaimed := Observation (instance_id i) (generation j) (status j) active (active_pid j)
                         (active_started_at j) None None in
      match (match active with Some x => Some x | None => last end) with
      | None => Ok (Some unclaimed)
      | Some x =>
          let! o := match owners d !! x with
                    | Some o => Ok o
                    | None => raise RuntimeError "Damaged current execution ownership"
                    end in
          let! s := match sessions d !! o_session o with
                    | Some s => Ok s
                    | None => raise RuntimeError "Damaged current execution ownership"
                    end in
          check! bool_decide ((o_session o, o_component_key o) ∈ session_components d)
                 && bool_decide (o_addr o = a) && bool_decide (o_instance o = instance_id i)
                 && bool_decide (o_creator o = created_by_execution_id i)
                 && (0 <=? o_generation o) && (o_generation o <=? generation j)
                 && (bool_decide (active = None) || (o_generation o =? generation j))
            orelse RuntimeError saying "Damaged current execution ownership" in
          let! component := decode_component_key (o_component_key o) in
          check! bool_decide (a.1 ∈ component)
            orelse RuntimeError saying "Damaged current execution component" in
          let! ow := execution_owner_from_row d x o in
          Ok (Some (Observation (instance_id i) (generation j) (status j) active (active_pid j)
                      (active_started_at j) (Some ow) (Some (o_session o, s))))
      end
  end.

(** ** Claims ([execution_claims.py]) *)

(** What a restart captured about the job it replaces. *)
Record expected_restart := ExpectedRestart {
  x_instance : string;
  x_generation : Z;
  x_owner : owner;
  x_requested_at : option string
}.

(** [ExecutionClaimBatch]. *)
Record claim_batch := ClaimBatch {
  b_node : string;
  b_jobs : list Z;
  b_executions : list string;
  b_started_at : string;
  b_pid : Z;
  b_thread : Z;
  b_time : string;
  b_task_started : bool;
  b_mask : option (list bool);
  b_session : option string;
  b_component : option key;
  b_restarts : option (list (option expected_restart))
}.

(** Read-only decisions of other components, which a claim asks in the same
    transaction: interrupt pauses and fences, thread overrides, the component's
    producing identity, the session's job selection and the component's own state. *)
Record claim_readers := ClaimReaders {
  interrupt_blocked : db → string → key → bool;
  interrupt_fenced : db → string → string → result bool;
  thread_override_error : db → string → key → option exc;
  producing_identity : db → key → result (Z * Z);
  selected_job_error : db → claim_batch → Z * Z → option exc;
  component_claim_error : db → claim_batch → option exc
}.

Context (readers : claim_readers).

Definition raise_if (e : option exc) : result unit := match e with Some e => Err e | None => Ok tt end.

(** [_execution_claim_owner_error]: the claiming session and component. *)
Definition execution_claim_owner (d : db) (b : claim_batch) : result (string * key) :=
  match b_session b, b_component b with
  | Some s, Some c =>
      check! bool_decide (b_node b ∈ c)
        orelse RuntimeError saying "Claimed node is not a member of component" in
      check! negb (interrupt_blocked readers d s c)
        orelse InterruptAdmissionPaused saying "interrupt admission paused" in
      let k := encode_component_key c in
      let! fenced := interrupt_fenced readers d s k in
      check! negb fenced
        orelse RuntimeError saying "Post-interrupt fence refuses component claim" in
      check! bool_decide (s_status <$> sessions d !! s = Some RUNNING)
        orelse RuntimeError saying "Job claims require an existing running session" in
      check! bool_decide (reservations d !! k = Some s)
        orelse RuntimeError saying "Component reservation belongs to another session" in
      check! bool_decide ((s, k) ∈ session_components d)
        orelse RuntimeError saying "Component is outside session selected scope" in
      let! _ := raise_if (thread_override_error readers d s c) in
      Ok (s, c)
  | _, _ => raise RuntimeError "Job claims require explicit session_id and component"
  end.

(** What of that is not a refusal of the batch but fails the whole mutation: fences that
    cannot be read. *)
Definition claim_raises (d : db) (b : claim_batch) : result () :=
  match b_session b, b_component b with
  | Some s, Some c =>
      if bool_decide (b_node b ∈ c) && negb (interrupt_blocked readers d s c)
      then let! _ := interrupt_fenced readers d s (encode_component_key c) in Ok () else Ok ()
  | _, _ => Ok ()
  end.

(** One captured restart against the job's current row. *)
Definition restart_matches (d : db) (b : claim_batch) (s : string) (c : key) (j : Z)
    (e : expected_restart) : result bool :=
  let a := (b_node b, j) in
  let! observed := read_job_owner_observation d a in
  Ok match observed with
     | None => false
     | Some ob =>
         match ob_owner ob with
         | None => false
         | Some ow =>
             bool_decide (ob_instance ob = x_instance e) && (ob_generation ob =? x_generation e)
             && bool_decide (ob_status ob = QUEUED) && bool_decide (ob_active ob = None)
             && bool_decide (ow = x_owner e) && bool_decide (ow_session ow = s)
             && bool_decide (ow_component ow = c)
             && match jobs d !! a with
                | Some row => match restart_requested_at row with
                              | None => false
                              | Some t => bool_decide (Some t = x_requested_at e)
                              end
                | None => false
                end
         end
     end.

Fixpoint check_restarts (d : db) (b : claim_batch) (s : string) (c : key)
    (l : list (Z * option expected_restart)) : result unit :=
  match l with
  | [] => Ok tt
  | (_, None) :: l => check_restarts d b s c l
  | (j, Some e) :: l =>
      let! same := restart_matches d b s c j e in
      check! same orelse RestartClaimChanged saying "Restart target changed before claim" in
      check_restarts d b s c l
  end.

(** The validity checks of one batch, in the code's order; [accepted] are the
    addresses earlier batches of the same mutation have taken. *)
Definition check_batch (d : db) (accepted : gset addr) (b : claim_batch) : result (string * key * (Z * Z)) :=
  let! p := execution_claim_owner d b in
  let '(s, c) := p in
  let at_ j := (b_node b, j) in
  check! forallb (λ j, bool_decide (is_Some (jobs d !! at_ j))) (b_jobs b)
    orelse FileNotFoundError saying "Job does not exist" in
  check! forallb (λ j, match instances d !! at_ j with
                       | Some i => valid_instance (instance_id i) | None => false end) (b_jobs b)
    orelse RuntimeError saying "Job claims require valid current job instances" in
  check! forallb (λ j, bool_decide ((jobs d !! at_ j) ≫= active_execution_id = None)
                       && negb (bool_decide (at_ j ∈ accepted))) (b_jobs b)
    orelse RuntimeError saying "Jobs already claimed cannot receive another active execution" in
  let! _ := rmap (λ j,
    match instances d !! at_ j with
    | Some i =>
        if bool_decide (last_execution_id i = None) && bool_decide (created_by_execution_id i = None)
        then Ok tt else let! _ := read_job_owner_observation d (at_ j) in Ok tt
    | None => Ok tt
    end) (b_jobs b) in
  let! _ := check_restarts d b s c (zip (b_jobs b) (default [] (b_restarts b))) in
  let! identity := producing_identity readers d c in
  let! _ := raise_if (selected_job_error readers d b identity) in
  check! forallb (λ e, match e with
                       | None => true
                       | Some e => bool_decide ((ow_shape (x_owner e), ow_alignment (x_owner e)) = identity)
                       end) (default [] (b_restarts b))
    orelse RestartClaimChanged saying "Restart producing component changed before claim" in
  let! _ := raise_if (component_claim_error readers d b) in
  check! match b_mask b with None => true | Some m => (length m =? length (b_jobs b))%nat end
    orelse ValueError saying "task_started_mask length mismatch" in
  Ok (s, c, identity).

(** One accepted lease: the row update, the owner row and the events. *)
Record lease := Lease {
  l_addr : addr;
  l_execution : string;
  l_generation : Z;
  l_batch : claim_batch;
  l_owner : owner_row;
  l_events : list event
}.

Definition make_lease (d : db) (b : claim_batch) (s : string) (c : key) (identity : Z * Z)
    (p : nat * (Z * string)) : option lease :=
  let '(index, (j, x)) := p in
  let a := (b_node b, j) in
  match jobs d !! a, instances d !! a with
  | Some row, Some i =>
      let started := Event a (b_time b) "started" (Some (generation row)) (Some x)
                       (Some (status row)) (Some RUNNING) None in
      let record_task := b_task_started b
                         && match b_mask b with None => true | Some m => default false (m !! index) end in
      Some (Lease a x (generation row) b
        (OwnerRow a (generation row) s (encode_component_key c) (instance_id i) identity.1 identity.2
           (created_by_execution_id i))
        (started :: if record_task then [Event a (b_time b) "task_started" None None None None None] else []))
  | _, _ => None
  end.

(** What the batches of one mutation have produced so far. *)
Record claim_acc := ClaimAcc {
  c_leases : list lease;
  c_outcomes : list (result (list (Z * string)));
  c_accepted : gset addr
}.

Definition process_batch (d : db) (acc : claim_acc) (b : claim_batch) : claim_acc :=
  match check_batch d (c_accepted acc) b with
  | Err e => ClaimAcc (c_leases acc) (c_outcomes acc ++ [Err e]) (c_accepted acc)
  | Ok (s, c, identity) =>
      let leases := omap (make_lease d b s c identity)
                      (imap pair (zip (b_jobs b) (b_executions b))) in
      ClaimAcc (c_leases acc ++ leases)
        (c_outcomes acc ++ [Ok ((λ l, (l_generation l, l_execution l)) <$> leases)])
        (c_accepted acc ∪ list_to_set ((λ j, (b_node b, j)) <$> b_jobs b))
  end.

(** The lease update of [jobs]; it changes the row only while it is unclaimed and of
    the observed generation. *)
Definition claim_row (l : lease) (row : job_row) : job_row :=
  JobRow (generation row) RUNNING (Some (l_execution l)) (Some (b_pid (l_batch l)))
    (Some (b_thread (l_batch l))) (Some (b_started_at (l_batch l))) None None None None.

Fixpoint update_jobs (js : gmap addr job_row) (ls : list lease) : gmap addr job_row * nat :=
  match ls with
  | [] => (js, 0%nat)
  | l :: ls =>
      match js !! l_addr l with
      | Some row =>
          if (generation row =? l_generation l) && bool_decide (active_execution_id row = None)
          then let '(js, n) := update_jobs (<[l_addr l := claim_row l row]> js) ls in (js, S n)
          else update_jobs js ls
      | None => update_jobs js ls
      end
  end.

(** Inserting owner rows; the primary key refuses a repeated execution id. *)
Fixpoint insert_owners (os : gmap string owner_row) (ls : list lease) : result (gmap string owner_row) :=
  match ls with
  | [] => Ok os
  | l :: ls =>
      match os !! l_execution l with
      | Some _ => raise UserError "UNIQUE constraint failed: job_execution_owners.execution_id"
      | None => insert_owners (<[l_execution l := l_owner l]> os) ls
      end
  end.

Definition set_last (l : lease) (is_ : gmap addr instance_row) : gmap addr instance_row :=
  alter (λ i, InstanceRow (instance_id i) (Some (l_execution l)) (created_by_execution_id i)) (l_addr l) is_.

(** [_apply_execution_claim_batches]. *)
Definition apply_execution_claim_batches (d : db) (batches : list claim_batch)
  : result (db * list (result (list (Z * string)))) :=
  let! _ := rmap (claim_raises d) batches in
  let acc := foldl (process_batch d) (ClaimAcc [] [] ∅) batches in
  let ls := c_leases acc in
  let '(js, changed) := update_jobs (jobs d) ls in
  check! (changed =? length ls)%nat
    orelse RuntimeError saying "Job claim could not acquire every requested active execution" in
  let! os := insert_owners (owners d) ls in
  check! forallb (λ l, bool_decide (is_Some (instances d !! l_addr l))) ls
    orelse RuntimeError saying "Job claims require a current job instance for every owner" in
  let d := set_jobs js d in
  let d := set_owners os d in
  let d := set_instances (foldl (λ is_ l, set_last l is_) (instances d) ls) d in
  let d := set_events (events d ++ (ls ≫= l_events)) d in
  Ok (d, c_outcomes acc).

(** [claim_job_executions_batch]: the request checks, then the batch in the writer's
    mutation.  The execution ids are fresh [uuid4]s; [Err] inside is the batch's own
    refusal. *)
Definition claim_job_executions_batch (d : db) (b : claim_batch) : result (db * result (list (Z * string))) :=
  check! match b_session b, b_component b with Some _, Some _ => true | _, _ => false end
    orelse RuntimeError saying "Job claims require explicit session_id and component in native storage" in
  if bool_decide (b_jobs b = []) then Ok (d, Ok [])
  else
    check! bool_decide (NoDup (b_jobs b)) orelse ValueError saying "job_ids contains duplicates" in
    check! match b_restarts b with None => true | Some l => (length l =? length (b_jobs b))%nat end
      orelse ValueError saying "expected_restarts must match the claimed job list" in
    let! p := apply_execution_claim_batches d [b] in
    match p with
    | (d, [o]) => Ok (d, o)
    | (d, _) => Ok (d, Ok [])
    end.

(** [release_unstarted_job_execution]. *)
Definition release_unstarted_job_execution (d : db) (a : addr) (g : Z) (x time : string) : db * bool :=
  match jobs d !! a with
  | Some row =>
      if (generation row =? g) && bool_decide (active_execution_id row = Some x) then
        let row := JobRow (generation row) QUEUED None None None None (restart_requested_at row)
                     (restart_requested_by_pid row) (restart_reason row) (runtime row) in
        (set_events (events d ++ [Event a time "queued" None None (Some RUNNING) (Some QUEUED) None])
           (set_jobs (<[a := row]> (jobs d)) d), true)
      else (d, false)
  | None => (d, false)
  end.

(** ** Terminal publication ([execution_terminal.py]) *)

Record owner_expectation := OwnerExpectation {
  t_session : string;
  t_component : key;
  t_instance : string
}.

(** [TerminalUpdate]. *)
Record terminal_update := TerminalUpdate {
  u_addr : addr;
  u_generation : Z;
  u_execution : string;
  u_status : string;
  u_expected : option owner_expectation
}.

Definition terminal_restart_error : exc := Exc JobRestartedError "generation was restarted".

(** The rows as the grouped update sees them: status, generation and active lease. *)
Definition visible (d : db) : gmap addr (string * Z * option string) :=
  (λ r, (status r, generation r, active_execution_id r)) <$> jobs d.

(** The ownership recheck of a cleanup's update. *)
Definition check_expected_owner (d : db) (u : terminal_update) (t : owner_expectation) : result unit :=
  let! observed := read_job_owner_observation d (u_addr u) in
  let reservation := reservations d !! encode_component_key (t_component t) in
  check! match observed with
         | Some ob =>
             match ob_owner ob, ob_session ob with
             | Some ow, Some (_, s) =>
                 bool_decide (ow_execution ow = u_execution u) && (ow_generation ow =? u_generation u)
                 && bool_decide (ow_instance ow = t_instance t) && bool_decide (ow_session ow = t_session t)
                 && bool_decide (ow_component ow = t_component t) && bool_decide (s_status s = RUNNING)
                 && bool_decide (reservation = Some (t_session t))
             | _, _ => false
             end
         | None => false
         end
    orelse RuntimeError saying "Execution ownership changed during terminal cleanup" in
  Ok tt.

(** One update of the group: refused, already published, or accepted. *)
Definition decide_terminal (d : db) (rows : gmap addr (string * Z * option string)) (u : terminal_update)
  : result (option string) :=
  match rows !! u_addr u with
  | None => Err terminal_restart_error
  | Some (st, g, active) =>
      if negb (g =? u_generation u) then Err terminal_restart_error
      else
        let already := bool_decide (active = None) && bool_decide (st = u_status u) in
        if negb (bool_decide (active = Some (u_execution u))) && negb already then Err terminal_restart_error
        else
          let! _ := match u_expected u with
                    | Some t => check_expected_owner d u t
                    | None => Ok tt
                    end in
          Ok (if already then None else Some st)
  end.

Definition terminal_row (u : terminal_update) (row : job_row) : job_row :=
  JobRow (generation row) (u_status u) None None None None (restart_requested_at row)
    (restart_requested_by_pid row) (restart_reason row) (runtime row).

(** [UPDATE jobs SET ... WHERE ... generation=? AND active_execution_id=?]. *)
Definition write_terminal (js : gmap addr job_row) (u : terminal_update) : gmap addr job_row :=
  match js !! u_addr u with
  | Some row =>
      if (generation row =? u_generation u) && bool_decide (active_execution_id row = Some (u_execution u))
      then <[u_addr u := terminal_row u row]> js else js
  | None => js
  end.

Record terminal_acc := TerminalAcc {
  t_rows : gmap addr (string * Z * option string);
  t_outcomes : list (result unit);
  t_updates : list terminal_update;
  t_events : list event
}.

Definition process_terminal (d : db) (time : string) (acc : terminal_acc) (u : terminal_update) : terminal_acc :=
  match decide_terminal d (t_rows acc) u with
  | Err e => TerminalAcc (t_rows acc) (t_outcomes acc ++ [Err e]) (t_updates acc) (t_events acc)
  | Ok None => TerminalAcc (t_rows acc) (t_outcomes acc ++ [Ok tt]) (t_updates acc) (t_events acc)
  | Ok (Some previous) =>
      TerminalAcc (<[u_addr u := (u_status u, u_generation u, None)]> (t_rows acc))
        (t_outcomes acc ++ [Ok tt]) (t_updates acc ++ [u])
        (t_events acc ++ [Event (u_addr u) time (u_status u) (Some (u_generation u)) (Some (u_execution u))
                            (Some previous) (Some (u_status u)) None])
  end.

(** [_apply_terminal_updates]; the terminal statuses are their own event names. *)
Definition apply_terminal_updates (d : db) (time : string) (us : list terminal_update)
  : db * list (result unit) :=
  let acc := foldl (process_terminal d time) (TerminalAcc (visible d) [] [] []) us in
  (set_events (events d ++ t_events acc) (set_jobs (foldl write_terminal (jobs d) (t_updates acc)) d),
   t_outcomes acc).

(** [finalize_job_execution], as far as its own checks go. *)
Definition terminal_statuses : list string := [DONE; FAILED; CANCELLED; SKIPPED].

Definition finalize_job_execution (d : db) (time : string) (u : terminal_update) : result db :=
  check! bool_decide (u_status u ∈ terminal_statuses)
    orelse ValueError saying "finalize_job_execution requires a terminal status" in
  match apply_terminal_updates d time [u] with
  | (d, [Ok _]) => Ok d
  | (_, [Err e]) => Err e
  | (d, _) => Ok d
  end.

(** ** Lease checks ([execution_restart.py]) *)

Definition job_execution_is_current (d : db) (a : addr) (g : Z) (x : option string) : bool :=
  match jobs d !! a with
  | None => false
  | Some row =>
      (generation row =? g)
      && match x with None => true | Some _ => bool_decide (active_execution_id row = x) end
  end.

Definition active_job_executions (d : db) : gmap addr (Z * string) :=
  omap (λ row, x ← active_execution_id row; Some (generation row, x)) (jobs d).

(** [guard_job_execution]: the action runs under the job's interprocess lock, after the
    lease has been checked under the same lock. *)
Definition guard_job_execution {A} (a : addr) (g : Z) (x : option string) (action : cmd db A) : cmd db A :=
  λ d, if job_execution_is_current d a g x then action d
       else (Err (Exc JobRestartedError "generation was restarted"), d).

(** ** Restarts ([restart_application.py]) *)

(** A captured restart target. *)
Record restart_target := RestartTarget {
  r_addr : addr;
  r_owner : option owner;
  r_instance : string;
  r_generation : Z;
  r_status : string;
  r_active : option string
}.

#[export] Instance restart_target_eq_dec : EqDecision restart_target.
Proof. solve_decision. Defined.

(** [_independent_target]; [live] is the liveness of a recorded session. *)
Definition independent_target (live : session_row → bool) (d : db) (a : addr) : result restart_target :=
  let! observed := read_job_owner_observation d a in
  match observed with
  | None => raise FileNotFoundError "Job does not exist"
  | Some ob =>
      let owner_live := match ob_session ob with Some (_, s) => live s | None => false end in
      check! negb (owner_live && bool_decide (ob_status ob ∈ [RUNNING; FAILED; CANCELLED]))
        orelse RuntimeError saying "owning-session restart state changed" in
      check! (if bool_decide (ob_status ob = RUNNING)
              then match ob_owner ob with
                   | Some ow => bool_decide (ob_active ob = Some (ow_execution ow))
                   | None => false
                   end
              else bool_decide (ob_active ob = None))
        orelse RuntimeError saying "damaged or inconsistent execution ownership" in
      Ok (RestartTarget a (ob_owner ob) (ob_instance ob) (ob_generation ob) (ob_status ob) (ob_active ob))
  end.

(** [_read_owned_restart_target]. *)
Definition owned_restart_target (live : session_row → bool) (d : db) (a : addr) : result restart_target :=
  let! observed := read_job_owner_observation d a in
  match observed with
  | None => raise RuntimeError "Job does not exist"
  | Some ob =>
      match ob_owner ob, ob_session ob with
      | Some ow, Some (_, s) =>
          check! live s orelse RuntimeError saying "session cannot accept restart" in
          let! decoded := rmap (λ p, let! c := decode_component_key p.1 in Ok (p.1, c, p.2))
                            (map_to_list (reservations d)) in
          let overlapping := filter (λ p : string * key * string,
            existsb (λ n, bool_decide (n ∈ p.1.2)) (ow_component ow) = true) decoded in
          check! match overlapping with
                 | [p] => bool_decide (p.1.1 = encode_component_key (ow_component ow))
                          && bool_decide (p.2 = ow_session ow)
                 | _ => false
                 end
            orelse RuntimeError saying "no unambiguous reservation for its owning session" in
          check! (bool_decide (ob_status ob = RUNNING)
                  && match ob_active ob with Some x => negb (bool_decide (x = "")) | None => false end)
                 || (bool_decide (ob_status ob ∈ [FAILED; CANCELLED]) && bool_decide (ob_active ob = None))
            orelse RuntimeError saying "Restart requires an active running execution or failed/cancelled work" in
          Ok (RestartTarget a (Some ow) (ob_instance ob) (ob_generation ob) (ob_status ob) (ob_active ob))
      | _, _ => raise RuntimeError "Job has no recorded execution owner"
      end
  end.

(** Who asks for a restart, when and why. *)
Record request := Request { q_time : string; q_pid : Z; q_reason : string }.

(** [_runtime_after_restart]: the decoded runtime object, entries overridden; an empty object
    stays as it is. *)
Definition runtime_after_restart (raw : option (list (string * string))) (q : request)
    (previous_generation new_generation : string) : option (list (string * string)) :=
  match raw with
  | None => None
  | Some [] => Some []
  | Some l =>
      let fresh := [("state", "restarted"); ("updated_at", q_time q); ("restart_reason", q_reason q);
                    ("previous_generation", previous_generation); ("generation", new_generation)] in
      Some (filter (λ p, p.1 ∉ fresh.*1) l ++ fresh)
  end.

Section restart.
(** Rendering of an integer, for the runtime object only. *)
Context (show : Z → string).

(** The row update of one target; [None] when its [WHERE] clause matches no row. *)
Definition restart_row (d : db) (q : request) (t : restart_target) : option job_row :=
  match jobs d !! r_addr t, instances d !! r_addr t with
  | Some row, Some i =>
      if (generation row =? r_generation t) && bool_decide (status row = r_status t)
         && bool_decide (active_execution_id row = r_active t) && bool_decide (instance_id i = r_instance t)
         && bool_decide (last_execution_id i = ow_execution <$> r_owner t)
      then Some (JobRow (r_generation t + 1) QUEUED None None None None (Some (q_time q)) (Some (q_pid q))
                   (Some (q_reason q))
                   (runtime_after_restart (runtime row) q (show (r_generation t)) (show (r_generation t + 1))))
      else None
  | _, _ => None
  end.

Fixpoint apply_targets_rows (d : db) (q : request) (owned : bool) (ts : list restart_target) : result db :=
  match ts with
  | [] => Ok d
  | t :: ts =>
      match restart_row d q t with
      | None => raise RuntimeError "Restart state changed"
      | Some row =>
          let ow := if owned then r_owner t else None in
          let x := ow_execution <$> ow in
          let origin := (λ w, (ow_session w, r_instance t, ow_component w)) <$> ow in
          let evs := [Event (r_addr t) (q_time q) "queued" None x (Some (r_status t)) (Some QUEUED) origin;
                      Event (r_addr t) (q_time q) "restart_requested" (Some (r_generation t + 1)) x None None origin] in
          apply_targets_rows (set_events (events d ++ evs) (set_jobs (<[r_addr t := row]> (jobs d)) d)) q owned ts
      end
  end.

(** [_apply_targets]: the rows, the nodes set running for an owned restart, and the
    project-wide revision. *)
Definition apply_targets (d : db) (q : request) (owned : bool) (ts : list restart_target) : result db :=
  let! d := apply_targets_rows d q owned ts in
  let d := if owned then set_nodes (foldl (λ m t, <[(r_addr t).1 := RUNNING]> m) (nodes d) ts) d else d in
  Ok (set_revision (restart_revision d + 1) d).

(** The commit of [_apply_operation]: revalidate every target, then apply them. *)
Definition commit_restart (validate : db → result (list restart_target)) (d : db) (q : request)
    (owned : bool) (ts : list restart_target) : result db :=
  let! current := validate d in
  check! bool_decide (current = ts) orelse RuntimeError saying
    "Restart ownership or state changed before commit" in
  apply_targets d q owned ts.

End restart.

(** ** One claim mutation *)

(** What a lease of a mutation over [d] records of the job it was made for. *)
Definition lease_ok (d : db) (l : lease) : Prop :=
  ∃ row i, jobs d !! l_addr l = Some row ∧ instances d !! l_addr l = Some i
    ∧ l_generation l = generation row
    ∧ o_addr (l_owner l) = l_addr l ∧ o_generation (l_owner l) = generation row
    ∧ o_instance (l_owner l) = instance_id i
    ∧ reservations d !! o_component_key (l_owner l) = Some (o_session (l_owner l))
    ∧ s_status <$> sessions d !! o_session (l_owner l) = Some RUNNING.

Lemma execution_claim_owner_ok d b s c :
  execution_claim_owner d b = Ok (s, c) →
  reservations d !! encode_component_key c = Some s ∧ s_status <$> sessions d !! s = Some RUNNING.
Proof.
  unfold execution_claim_owner. destruct (b_session b) as [s'|], (b_component b) as [c'|]; try done.
  intros H. inv_ok. repeat match goal with E : bool_decide _ = true |- _ => apply bool_decide_eq_true_1 in E end.
  match goal with E : (_, _) = (_, _) |- _ => injection E as E; subst | _ => idtac end. done.
Qed.

Lemma check_batch_ok d accepted b s c identity :
  check_batch d accepted b = Ok (s, c, identity) →
  execution_claim_owner d b = Ok (s, c)
  ∧ (∀ j, j ∈ b_jobs b → is_Some (jobs d !! (b_node b, j)) ∧ is_Some (instances d !! (b_node b, j))).
Proof.
  unfold check_batch. intros H. apply rbind_ok in H as ([s' c'] & Ho & H).
  inv_ok. match goal with E : (_, _) = (_, _) |- _ => injection E as E; subst | _ => idtac end.
  split; [done|]. intros j Hj. rewrite forallb_forall in Hg, Hg0.
  apply list_elem_of_In in Hj. specialize (Hg j Hj). specialize (Hg0 j Hj). cbn in Hg, Hg0.
  apply bool_decide_eq_true_1 in Hg. split; [done|]. by destruct (instances d !! _).
Qed.

Lemma make_lease_ok d b s c identity k j x l :
  execution_claim_owner d b = Ok (s, c) → make_lease d b s c identity (k, (j, x)) = Some l →
  lease_ok d l ∧ l_addr l = (b_node b, j) ∧ l_execution l = x ∧ l_batch l = b.
Proof.
  intros Ho. apply execution_claim_owner_ok in Ho as [Hr Hs]. unfold make_lease.
  destruct (jobs d !! (b_node b, j)) as [row|] eqn:Hj, (instances d !! (b_node b, j)) as [i|] eqn:Hi; try done.
  intros [= <-]. split; [|done]. exists row, i. by cbn.
Qed.

Lemma make_leases_length d b s c identity (l : list (nat * (Z * string))) :
  (∀ p, p ∈ l → is_Some (jobs d !! (b_node b, p.2.1)) ∧ is_Some (instances d !! (b_node b, p.2.1))) →
  Forall2 (λ p ls, make_lease d b s c identity p = Some ls) l (omap (make_lease d b s c identity) l).
Proof.
  induction l as [|[k [j x]] l IH]; intros Hl; [constructor|].
  assert (is_Some (make_lease d b s c identity (k, (j, x)))) as [y Hy].
  { destruct (Hl (k, (j, x))) as [[row Hr] [i Hi]]; [constructor|]. unfold make_lease. cbn in Hr, Hi.
    rewrite Hr, Hi. eauto. }
  cbn [omap list_omap]. rewrite Hy. constructor; [done|]. apply IH. intros p Hp. apply Hl. by constructor.
Qed.

(** The leases an accepted batch contributes, by position. *)
Definition batch_leases (d : db) (b : claim_batch) (ls : list lease) : Prop :=
  length ls = (length (b_jobs b) `min` length (b_executions b))%nat
  ∧ ∀ k j x, b_jobs b !! k = Some j → b_executions b !! k = Some x →
    ∃ l, ls !! k = Some l ∧ lease_ok d l ∧ l_addr l = (b_node b, j) ∧ l_execution l = x ∧ l_batch l = b.

Lemma process_batch_cases d acc b :
  (∃ e, process_batch d acc b = ClaimAcc (c_leases acc) (c_outcomes acc ++ [Err e]) (c_accepted acc))
  ∨ ∃ ls, c_leases (process_batch d acc b) = c_leases acc ++ ls
      ∧ c_outcomes (process_batch d acc b)
        = c_outcomes acc ++ [Ok ((λ l, (l_generation l, l_execution l)) <$> ls)]
      ∧ batch_leases d b ls ∧ Forall (λ l, lease_ok d l ∧ (l_addr l).1 = b_node b ∧ (l_addr l).2 ∈ b_jobs b) ls.
Proof.
  unfold process_batch. destruct (check_batch d (c_accepted acc) b) as [[[s c] identity]|e] eqn:Hc.
  2:{ left. by exists e. }
  right. apply check_batch_ok in Hc as [Ho Hj].
  set (ps := imap pair (zip (b_jobs b) (b_executions b))).
  assert (Hps : ∀ k p, ps !! k = Some p → p.1 = k ∧ b_jobs b !! k = Some p.2.1 ∧ b_executions b !! k = Some p.2.2).
  { intros k [k' [j x]] Hk. unfold ps in Hk. rewrite list_lookup_imap in Hk.
    apply fmap_Some in Hk as ([j' x'] & Hk & [= -> -> ->]).
    apply lookup_zip_with_Some in Hk as (? & ? & [= -> ->] & ? & ?). done. }
  assert (Forall2 (λ p l, make_lease d b s c identity p = Some l) ps (omap (make_lease d b s c identity) ps)) as HF.
  { apply make_leases_length. intros p [k Hk]%list_elem_of_lookup. apply Hps in Hk as (_ & Hk & _).
    apply Hj. by apply list_elem_of_lookup_2 in Hk. }
  exists (omap (make_lease d b s c identity) ps). split; [done|]. split; [done|]. split.
  - split.
    + rewrite <- (Forall2_length _ _ _ HF). unfold ps. by rewrite length_imap, length_zip_with.
    + intros k j x Hkj Hkx.
      destruct (Forall2_lookup_l _ _ _ k (k, (j, x)) HF) as (l & Hl & Hm).
      { unfold ps. rewrite list_lookup_imap. apply fmap_Some. exists (j, x). split; [|done].
        apply lookup_zip_with_Some. by exists j, x. }
      exists l. split; [done|]. eapply make_lease_ok; eauto.
  - apply Forall_forall. intros l Hl. apply list_elem_of_omap in Hl as ([k [j x]] & Hp & Hm).
    pose proof (make_lease_ok _ _ _ _ _ _ _ _ _ Ho Hm) as (Hlo & -> & _). split; [done|]. split; [done|].
    apply list_elem_of_lookup in Hp as [k' Hk]. apply Hps in Hk as (_ & Hk & _).
    by apply list_elem_of_lookup_2 in Hk.
Qed.

(** What one batch adds to the mutation. *)
Definition batch_result (d : db) (b : claim_batch) (p : result (list (Z * string)) * list lease) : Prop :=
  (∃ e, p = (Err e, []))
  ∨ (p.1 = Ok ((λ l, (l_generation l, l_execution l)) <$> p.2) ∧ batch_leases d b p.2
     ∧ Forall (λ l, lease_ok d l ∧ (l_addr l).1 = b_node b ∧ (l_addr l).2 ∈ b_jobs b) p.2).

Lemma process_batches_groups d bs acc :
  ∃ gs, Forall2 (batch_result d) bs gs
    ∧ c_outcomes (foldl (process_batch d) acc bs) = c_outcomes acc ++ gs.*1
    ∧ c_leases (foldl (process_batch d) acc bs) = c_leases acc ++ (gs ≫= snd).
Proof.
  revert acc. induction bs as [|b bs IH]; intros acc; cbn [foldl].
  { exists []. cbn. rewrite !app_nil_r. split; [constructor|done]. }
  destruct (IH (process_batch d acc b)) as (gs & HF & Ho & Hl).
  destruct (process_batch_cases d acc b) as [[e He]|(ls & Hls & Hos & Hb & Ha)].
  - exists ((Err e, []) :: gs). split; [constructor; [left; by exists e|done]|].
    rewrite Ho, Hl, He. cbn. by rewrite <- !app_assoc.
  - exists ((Ok ((λ l, (l_generation l, l_execution l)) <$> ls), ls) :: gs).
    split; [constructor; [right; done|done]|].
    rewrite Ho, Hl, Hls, Hos. cbn. by rewrite <- !app_assoc.
Qed.

Lemma groups_leases_ok d bs gs :
  Forall2 (batch_result d) bs gs → Forall (lease_ok d) (gs ≫= snd).
Proof.
  induction 1 as [|b p bs gs Hb _ IH]; [constructor|]. rewrite bind_cons. apply Forall_app. split; [|done].
  destruct Hb as [[e ->]|(_ & _ & Ha)]; [constructor|]. eapply Forall_impl; [exact Ha|]. by intros l [? _].
Qed.

Lemma update_jobs_bound ls js : ((update_jobs js ls).2 <= length ls)%nat.
Proof.
  revert js. induction ls as [|l ls IH]; intros js; cbn; [lia|].
  destruct (js !! l_addr l) as [row|]; [|specialize (IH js); lia].
  destruct (_ && _); [|specialize (IH js); lia].
  specialize (IH (<[l_addr l:=claim_row l row]> js)).
  destruct (update_jobs _ _). cbn in *. lia.
Qed.

(** When the update changed one row per lease, every lease took its own unclaimed row
    and no other row changed. *)
Lemma update_jobs_all ls js js' :
  update_jobs js ls = (js', length ls) →
  NoDup (l_addr <$> ls)
  ∧ Forall (λ l, ∃ row, js !! l_addr l = Some row ∧ active_execution_id row = None
                 ∧ generation row = l_generation l ∧ js' !! l_addr l = Some (claim_row l row)) ls
  ∧ (∀ a, (a ∉ l_addr <$> ls) → js' !! a = js !! a).
Proof.
  revert js. induction ls as [|l ls IH]; intros js; cbn.
  { intros [= ->]. split; [constructor|]. split; [constructor|done]. }
  destruct (js !! l_addr l) as [row|] eqn:Hrow; intros H.
  2:{ pose proof (update_jobs_bound ls js). rewrite H in *. cbn in *. lia. }
  destruct (_ && _) eqn:Hg.
  2:{ pose proof (update_jobs_bound ls js). rewrite H in *. cbn in *. lia. }
  apply andb_prop in Hg as [Hg Ha%bool_decide_eq_true_1].
  destruct (update_jobs _ ls) as [js2 n] eqn:Hu. injection H as -> ->.
  apply IH in Hu as (Hnd & HF & Hother).
  assert (l_addr l ∉ l_addr <$> ls) as Hl.
  { intros (l' & Heq & Hl')%list_elem_of_fmap. rewrite Forall_forall in HF.
    destruct (HF l' Hl') as (row' & Hr & Hn & _). rewrite <- Heq, lookup_insert_eq in Hr.
    injection Hr as <-. discriminate Hn. }
  split; [by constructor|]. split.
  - constructor.
    + exists row. split; [done|]. split; [done|]. split; [lia|]. by rewrite (Hother _ Hl), lookup_insert_eq.
    + apply Forall_forall. intros l' Hl'. rewrite Forall_forall in HF.
      destruct (HF l' Hl') as (row' & Hr & Hrest). exists row'.
      rewrite lookup_insert_ne in Hr by (intros Heq; apply Hl; rewrite Heq; by apply list_elem_of_fmap_2).
      by split.
  - intros a [Hne Ha']%not_elem_of_cons. rewrite (Hother a Ha'). by rewrite lookup_insert_ne.
Qed.

Lemma insert_owners_all ls os os' :
  insert_owners os ls = Ok os' →
  NoDup (l_execution <$> ls)
  ∧ Forall (λ l, os !! l_execution l = None ∧ os' !! l_execution l = Some (l_owner l)) ls
  ∧ (∀ x, (x ∉ l_execution <$> ls) → os' !! x = os !! x).
Proof.
  revert os. induction ls as [|l ls IH]; intros os; cbn.
  { intros [= ->]. split; [constructor|]. split; [constructor|done]. }
  destruct (os !! l_execution l) eqn:Hx; [done|]. intros (Hnd & HF & Hother)%IH.
  assert (l_execution l ∉ l_execution <$> ls) as Hl.
  { intros (l' & Heq & Hl')%list_elem_of_fmap. rewrite Forall_forall in HF.
    destruct (HF l' Hl') as [Hn _]. by rewrite <- Heq, lookup_insert_eq in Hn. }
  split; [by constructor|]. split.
  - constructor; [split; [done|]; by rewrite (Hother _ Hl), lookup_insert_eq|].
    apply Forall_forall. intros l' Hl'. rewrite Forall_forall in HF. destruct (HF l' Hl') as [Hn Hs].
    split; [|done]. destruct (decide (l_execution l = l_execution l')) as [Heq|Hne].
    + by rewrite Heq, lookup_insert_eq in Hn.
    + by rewrite lookup_insert_ne in Hn.
  - intros x [Hne Hx']%not_elem_of_cons. rewrite (Hother x Hx'). by rewrite lookup_insert_ne.
Qed.

Lemma set_last_all ls is_ :
  NoDup (l_addr <$> ls) →
  (∀ a, (a ∉ l_addr <$> ls) → foldl (λ is_ l, set_last l is_) is_ ls !! a = is_ !! a)
  ∧ Forall (λ l, ∀ i, is_ !! l_addr l = Some i →
      foldl (λ is_ l, set_last l is_) is_ ls !! l_addr l
      = Some (InstanceRow (instance_id i) (Some (l_execution l)) (created_by_execution_id i))) ls.
Proof.
  revert is_. induction ls as [|l ls IH]; intros is_; cbn [fmap list_fmap foldl]; intros Hnd.
  { split; [done|constructor]. }
  apply NoDup_cons in Hnd as [Hl Hnd]. destruct (IH (set_last l is_) Hnd) as [Hother HF].
  split.
  - intros a [Hne Ha]%not_elem_of_cons. rewrite (Hother a Ha). unfold set_last. by rewrite lookup_alter_ne.
  - constructor.
    + intros i Hi. rewrite (Hother _ Hl). unfold set_last. rewrite lookup_alter_eq, Hi. done.
    + apply Forall_forall. intros l' Hl' i Hi. rewrite Forall_forall in HF. apply (HF l' Hl').
      unfold set_last. rewrite lookup_alter_ne; [done|]. intros Heq. apply Hl. rewrite Heq.
      by apply list_elem_of_fmap_2.
Qed.

(** Everything an accepted claim mutation does to the job tables. *)
Record claimed (d d' : db) (ls : list lease) : Prop := Claimed {
  cl_ok : Forall (lease_ok d) ls;
  cl_jobs : Forall (λ l, ∃ row, jobs d !! l_addr l = Some row ∧ active_execution_id row = None
              ∧ jobs d' !! l_addr l = Some (claim_row l row)) ls;
  cl_jobs_other a : (a ∉ l_addr <$> ls) → jobs d' !! a = jobs d !! a;
  cl_distinct : NoDup (l_addr <$> ls) ∧ NoDup (l_execution <$> ls);
  cl_owners : Forall (λ l, owners d !! l_execution l = None ∧ owners d' !! l_execution l = Some (l_owner l)) ls;
  cl_owners_other x : (x ∉ l_execution <$> ls) → owners d' !! x = owners d !! x;
  cl_last : Forall (λ l, ∀ i, instances d !! l_addr l = Some i → instances d' !! l_addr l
              = Some (InstanceRow (instance_id i) (Some (l_execution l)) (created_by_execution_id i))) ls;
  cl_last_other a : (a ∉ l_addr <$> ls) → instances d' !! a = instances d !! a
}.

(** The checks a lease went through: those of its batch. *)
Definition checked_lease (d : db) (l : lease) : Prop :=
  ∃ accepted b c j i, check_batch d accepted b = Ok (o_session (l_owner l), c, (o_shape (l_owner l), o_alignment (l_owner l))) ∧
    j ∈ b_jobs b ∧ l_addr l = (b_node b, j) ∧ o_component_key (l_owner l) = encode_component_key c ∧
    instances d !! l_addr l = Some i ∧ o_creator (l_owner l) = created_by_execution_id i ∧ o_instance (l_owner l) = instance_id i.

Lemma leases_checked d bs acc : Forall (checked_lease d) (c_leases acc) → Forall (checked_lease d) (c_leases (foldl (process_batch d) acc bs)).
Proof.
  revert acc. induction bs as [|b bs IH]; intros acc Hacc; [done|]. cbn [foldl]. apply IH.
  unfold process_batch. destruct (check_batch d (c_accepted acc) b) as [[[s c] identity]|e] eqn:Hc; [|done].
  cbn [c_leases]. apply Forall_app. split; [done|]. apply Forall_forall.
  intros l ([k [j x]] & Hp & Hm)%list_elem_of_omap. unfold make_lease in Hm.
  destruct (jobs d !! (b_node b, j)) as [row|], (instances d !! (b_node b, j)) as [i|] eqn:Hi; try done. injection Hm as <-.
  exists (c_accepted acc), b, c, j, i. cbn. rewrite Hc. destruct identity. split_and!; try done.
  apply list_elem_of_lookup in Hp as [m Hm]. rewrite list_lookup_imap in Hm. apply fmap_Some in Hm as ([j' x'] & Hm & [= _ -> _]).
  apply lookup_zip_with_Some in Hm as (? & ? & [= -> ->] & Hm & _). by eapply list_elem_of_lookup_2.
Qed.

Lemma apply_claims_checked d bs d' outs : apply_execution_claim_batches d bs = Ok (d', outs) →
  Forall (checked_lease d) (c_leases (foldl (process_batch d) (ClaimAcc [] [] ∅) bs)) ∧
  claimed d d' (c_leases (foldl (process_batch d) (ClaimAcc [] [] ∅) bs)).
Proof.
  intros Happly. split; [by apply leases_checked|]. unfold apply_execution_claim_batches in Happly.
  destruct (process_batches_groups d bs (ClaimAcc [] [] ∅)) as (gs & HF & _ & Hl). cbn in Hl.
  set (ls := c_leases _) in *. destruct (update_jobs _ _) as [js changed] eqn:Hu. inv_ok.
  apply Nat.eqb_eq in Hg; subst changed. apply update_jobs_all in Hu as (Hnd & HJ & HJo).
  match goal with H : insert_owners _ _ = Ok _ |- _ => apply insert_owners_all in H as (Hndx & HO & HOo) end.
  destruct (set_last_all ls (instances d) Hnd) as [HLo HL].
  split; cbn; try done.
  - rewrite Hl. eauto using groups_leases_ok.
  - eapply Forall_impl; [exact HJ|]. intros l (row & ? & ? & _ & ?). by exists row.
Qed.

Lemma apply_claims_claimed d bs d' outs :
  apply_execution_claim_batches d bs = Ok (d', outs) →
  ∃ gs, Forall2 (batch_result d) bs gs ∧ outs = gs.*1 ∧ claimed d d' (gs ≫= snd).
Proof.
  intros Happly. destruct (apply_claims_checked _ _ _ _ Happly) as [_ Hc]. unfold apply_execution_claim_batches in Happly.
  destruct (process_batches_groups d bs (ClaimAcc [] [] ∅)) as (gs & HF & Ho & Hl). cbn in Ho, Hl.
  destruct (update_jobs _ _) as [js changed]. inv_ok. exists gs. rewrite Hl in Hc |- *. done.
Qed.

(** ** The lease invariant *)

Record db_ok (d : db) : Prop := DbOk {
  ok_active a row x : jobs d !! a = Some row → active_execution_id row = Some x →
    status row = RUNNING ∧ ∃ o i, owners d !! x = Some o ∧ o_addr o = a
      ∧ o_generation o = generation row ∧ instances d !! a = Some i
      ∧ last_execution_id i = Some x ∧ o_instance o = instance_id i;
  ok_last a i x : instances d !! a = Some i → last_execution_id i = Some x →
    ∃ o, owners d !! x = Some o ∧ o_addr o = a ∧ o_instance o = instance_id i;
  ok_owner x o : owners d !! x = Some o →
    ∃ row, jobs d !! o_addr o = Some row ∧ o_generation o <= generation row
}.

(** A change that ends leases and starts none. *)
Record quiet (d d' : db) : Prop := Quiet {
  qu_owners : owners d' = owners d;
  qu_instances : instances d' = instances d;
  qu_jobs a : jobs d' !! a = jobs d !! a
    ∨ ∃ row row', jobs d !! a = Some row ∧ jobs d' !! a = Some row'
        ∧ active_execution_id row' = None ∧ generation row <= generation row'
}.

Lemma quiet_refl d : quiet d d.
Proof. split; auto. Qed.

Lemma quiet_trans d1 d2 d3 : quiet d1 d2 → quiet d2 d3 → quiet d1 d3.
Proof.
  intros [Ho Hi Hj] [Ho' Hi' Hj']. split; [congruence|congruence|]. intros a.
  destruct (Hj' a) as [H|(r2 & r3 & H2 & H3 & Hn & Hg)].
  - rewrite H. apply Hj.
  - right. destruct (Hj a) as [H|(r1 & r2' & H1 & H2' & _ & Hg')].
    + exists r2, r3. by rewrite <- H.
    + exists r1, r3. rewrite H2 in H2'. injection H2' as <-. split; [done|]. split; [done|]. split; [done|lia].
Qed.

Lemma quiet_insert d d' a row row' :
  jobs d !! a = Some row → jobs d' = <[a := row']> (jobs d) → owners d' = owners d →
  instances d' = instances d → active_execution_id row' = None → generation row <= generation row' →
  quiet d d'.
Proof.
  intros Hr Hj Ho Hi Hn Hg. split; [done|done|]. intros b. rewrite Hj. destruct (decide (a = b)) as [<-|Hne].
  - right. exists row, row'. by rewrite lookup_insert_eq.
  - left. by rewrite lookup_insert_ne.
Qed.

(** Columns the leases do not depend on. *)
Lemma quiet_of_tables d d' :
  jobs d' = jobs d → owners d' = owners d → instances d' = instances d → quiet d d'.
Proof. intros Hj Ho Hi. split; [done|done|]. intros a. rewrite Hj. by left. Qed.

Lemma quiet_ok d d' : quiet d d' → db_ok d → db_ok d'.
Proof.
  intros [Ho Hi Hj] [Ha Hl Hw]. split; rewrite ?Ho, ?Hi; [|done|].
  - intros a row x Hr Hx. destruct (Hj a) as [H|(r1 & r2 & H1 & H2 & Hn & _)].
    + rewrite H in Hr. by apply Ha.
    + rewrite H2 in Hr. injection Hr as ->. by rewrite Hn in Hx.
  - intros x o Hx. destruct (Hw x o Hx) as (row & Hr & Hg).
    destruct (Hj (o_addr o)) as [H|(r1 & r2 & H1 & H2 & Hn & Hg')].
    + exists row. by rewrite H.
    + exists r2. rewrite H1 in Hr. injection Hr as ->. split; [done|lia].
Qed.

Lemma claimed_fresh_addr d d' ls l a :
  claimed d d' ls → l ∈ ls → l_addr l = a →
  ∃ row i, jobs d !! a = Some row ∧ active_execution_id row = None ∧ jobs d' !! a = Some (claim_row l row)
    ∧ instances d !! a = Some i
    ∧ instances d' !! a = Some (InstanceRow (instance_id i) (Some (l_execution l)) (created_by_execution_id i))
    ∧ owners d !! l_execution l = None ∧ owners d' !! l_execution l = Some (l_owner l)
    ∧ o_addr (l_owner l) = a ∧ o_generation (l_owner l) = generation row ∧ o_instance (l_owner l) = instance_id i.
Proof.
  intros [Hok Hj _ _ Ho _ Hl _] Hin <-. rewrite Forall_forall in Hok, Hj, Ho, Hl.
  destruct (Hok l Hin) as (row & i & Hr & Hi & _ & ? & ? & ? & _).
  destruct (Hj l Hin) as (row' & Hr' & Hn & Hc). rewrite Hr in Hr'. injection Hr' as <-.
  destruct (Ho l Hin) as [Hon Hos]. exists row, i. repeat (split; [done|]). split; [by apply Hl|]. done.
Qed.

Lemma claimed_ok d d' ls : claimed d d' ls → db_ok d → db_ok d'.
Proof.
  intros Hc [Ha Hl Hw].
  assert (∀ x o, owners d !! x = Some o → owners d' !! x = Some o) as Hkeep.
  { intros x o Hx. rewrite (cl_owners_other _ _ _ Hc); [done|].
    intros (l & -> & Hin)%list_elem_of_fmap. destruct (claimed_fresh_addr _ _ _ l _ Hc Hin eq_refl)
      as (? & ? & _ & _ & _ & _ & _ & Hn & _). congruence. }
  split.
  - intros a row x Hr Hx. destruct (decide (a ∈ l_addr <$> ls)) as [Hin|Hout].
    + apply list_elem_of_fmap in Hin as (l & -> & Hin).
      destruct (claimed_fresh_addr _ _ _ l _ Hc Hin eq_refl)
        as (row0 & i & H1 & H2 & H3 & H4 & H5 & H6 & H7 & H8 & H9 & H10).
      rewrite H3 in Hr. injection Hr as <-. cbn in Hx. injection Hx as <-. split; [done|].
      exists (l_owner l), (InstanceRow (instance_id i) (Some (l_execution l)) (created_by_execution_id i)). done.
    + rewrite (cl_jobs_other _ _ _ Hc a Hout) in Hr.
      destruct (Ha a row x Hr Hx) as (Hs & o & i & Ho & ? & ? & Hi & ? & ?). split; [done|].
      exists o, i. rewrite (cl_last_other _ _ _ Hc a Hout). split; [by apply Hkeep|done].
  - intros a i x Hi Hx. destruct (decide (a ∈ l_addr <$> ls)) as [Hin|Hout].
    + apply list_elem_of_fmap in Hin as (l & -> & Hin).
      destruct (claimed_fresh_addr _ _ _ l _ Hc Hin eq_refl)
        as (row0 & i0 & H1 & H2 & H3 & H4 & H5 & H6 & H7 & H8 & H9 & H10).
      rewrite H5 in Hi. injection Hi as <-. injection Hx as <-. by exists (l_owner l).
    + rewrite (cl_last_other _ _ _ Hc a Hout) in Hi. destruct (Hl a i x Hi Hx) as (o & Ho & ?).
      exists o. split; [by apply Hkeep|done].
  - intros x o Hx. destruct (decide (x ∈ l_execution <$> ls)) as [Hin|Hout].
    + apply list_elem_of_fmap in Hin as (l & -> & Hin).
      destruct (claimed_fresh_addr _ _ _ l _ Hc Hin eq_refl)
        as (row0 & i0 & H1 & H2 & H3 & H4 & H5 & H6 & H7 & H8 & H9 & H10).
      rewrite H7 in Hx. injection Hx as <-. exists (claim_row l row0). rewrite H8. split; [done|]. cbn. lia.
    + rewrite (cl_owners_other _ _ _ Hc x Hout) in Hx. destruct (Hw x o Hx) as (row & Hr & Hg).
      destruct (decide (o_addr o ∈ l_addr <$> ls)) as [Hin|Hout'].
      * apply list_elem_of_fmap in Hin as (l & Heq & Hin).
        destruct (claimed_fresh_addr _ _ _ l _ Hc Hin eq_refl) as (row0 & i0 & H1 & _ & H3 & _).
        rewrite Heq in *. exists (claim_row l row0). rewrite H1 in Hr. by injection Hr as <-.
      * exists row. by rewrite (cl_jobs_other _ _ _ Hc _ Hout').
Qed.

(** Releasing, publishing and restarting only end leases. *)
Lemma release_quiet d a g x time : quiet d (release_unstarted_job_execution d a g x time).1.
Proof.
  unfold release_unstarted_job_execution. destruct (jobs d !! a) as [row|] eqn:Hr; [|apply quiet_refl].
  destruct (_ && _); [|apply quiet_refl]. cbn [fst].
  by eapply quiet_insert.
Qed.

Lemma write_terminal_quiet us d : quiet d (set_jobs (foldl write_terminal (jobs d) us) d).
Proof.
  revert d. induction us as [|u us IH]; intros d; cbn [foldl]; [by apply quiet_of_tables|].
  set (d1 := set_jobs (write_terminal (jobs d) u) d).
  eapply (quiet_trans d d1); [|exact (IH d1)]. unfold d1, write_terminal.
  destruct (jobs d !! u_addr u) as [row|] eqn:Hr; [|by apply quiet_of_tables].
  destruct (_ && _); [|by apply quiet_of_tables]. by eapply quiet_insert.
Qed.

Lemma apply_terminal_quiet d time us : quiet d (apply_terminal_updates d time us).1.
Proof.
  unfold apply_terminal_updates. cbn [fst]. eapply quiet_trans; [apply write_terminal_quiet|].
  by apply quiet_of_tables.
Qed.

Lemma restart_row_spec show d q t row :
  restart_row show d q t = Some row →
  ∃ old, jobs d !! r_addr t = Some old ∧ generation old = r_generation t ∧ status old = r_status t
    ∧ active_execution_id old = r_active t ∧ generation row = r_generation t + 1
    ∧ status row = QUEUED ∧ active_execution_id row = None ∧ restart_requested_at row = Some (q_time q).
Proof.
  unfold restart_row. destruct (jobs d !! r_addr t) as [old|], (instances d !! r_addr t) as [i|]; try done.
  destruct (_ && _) eqn:Hg; [|done]. intros [= <-]. exists old.
  repeat (apply andb_prop in Hg as [Hg ?]).
  repeat match goal with E : bool_decide _ = true |- _ => apply bool_decide_eq_true_1 in E end.
  cbn. split; [done|]. split; [lia|]. done.
Qed.

Lemma apply_targets_rows_quiet show d q owned ts d' :
  apply_targets_rows show d q owned ts = Ok d' → quiet d d'.
Proof.
  revert d. induction ts as [|t ts IH]; intros d; cbn; [intros [= <-]; apply quiet_refl|].
  destruct (restart_row show d q t) as [row|] eqn:Hr; [|done]. intros H%IH.
  apply restart_row_spec in Hr as (old & Ho & Hg & _ & _ & Hg' & _ & Hn & _).
  eapply quiet_trans; [|exact H]. eapply (quiet_insert _ _ (r_addr t) old row); try done. lia.
Qed.

Lemma commit_restart_quiet show validate d q owned ts d' :
  commit_restart show validate d q owned ts = Ok d' → quiet d d'.
Proof.
  unfold commit_restart, apply_targets. intros H. inv_ok.
  eapply quiet_trans; [by eapply apply_targets_rows_quiet|]. destruct owned; by apply quiet_of_tables.
Qed.

(** ** Runs of the store *)

Inductive store_step (d d' : db) : Prop :=
  | step_claim bs outs : apply_execution_claim_batches d bs = Ok (d', outs) → store_step d d'
  | step_release a g x time b : release_unstarted_job_execution d a g x time = (d', b) → store_step d d'
  | step_terminal time us outs : apply_terminal_updates d time us = (d', outs) → store_step d d'
  | step_restart show validate q owned ts : commit_restart show validate d q owned ts = Ok d' → store_step d d'.

Lemma store_step_cases d d' : store_step d d' → quiet d d' ∨ ∃ ls, claimed d d' ls.
Proof.
  intros [bs outs H|a g x time b H|time us outs H|show validate q owned ts H].
  - right. apply apply_claims_claimed in H as (gs & _ & _ & H). by exists (gs ≫= snd).
  - left. pose proof (release_quiet d a g x time) as Hq. by rewrite H in Hq.
  - left. pose proof (apply_terminal_quiet d time us) as Hq. by rewrite H in Hq.
  - left. by eapply commit_restart_quiet.
Qed.

Lemma store_step_ok d d' : store_step d d' → db_ok d → db_ok d'.
Proof. intros [H|[ls H]]%store_step_cases; [by apply quiet_ok|by eapply claimed_ok]. Qed.

Lemma store_run_ok d d' : rtc store_step d d' → db_ok d → db_ok d'.
Proof. induction 1; eauto using store_step_ok. Qed.

Lemma active_unique d a b ra rb x :
  db_ok d → jobs d !! a = Some ra → jobs d !! b = Some rb →
  active_execution_id ra = Some x → active_execution_id rb = Some x → a = b.
Proof.
  intros Hok Ha Hb Hxa Hxb.
  destruct (ok_active _ Hok a ra x Ha Hxa) as (_ & o & _ & Ho & Hoa & _).
  destruct (ok_active _ Hok b rb x Hb Hxb) as (_ & o' & _ & Ho' & Hob & _). congruence.
Qed.

(** Whether some job holds execution [x] as its lease. *)
Definition leased (d : db) (x : string) : Prop :=
  ∃ a row, jobs d !! a = Some row ∧ active_execution_id row = Some x.

Lemma ended_step d d' x :
  store_step d d' → is_Some (owners d !! x) → ¬ leased d x →
  is_Some (owners d' !! x) ∧ ¬ leased d' x.
Proof.
  intros [[Ho _ Hj]|[ls Hc]]%store_step_cases [o Hx] Hn.
  - rewrite Ho. split; [by exists o|]. intros (a & row & Hr & Ha). apply Hn.
    destruct (Hj a) as [H|(r1 & r2 & _ & H2 & Hn' & _)]; [exists a, row; by rewrite <- H|congruence].
  - assert (x ∉ l_execution <$> ls) as Hout.
    { intros (l & -> & Hin)%list_elem_of_fmap.
      destruct (claimed_fresh_addr _ _ _ l _ Hc Hin eq_refl) as (? & ? & _ & _ & _ & _ & _ & ? & _). congruence. }
    rewrite (cl_owners_other _ _ _ Hc x Hout). split; [by exists o|]. intros (a & row & Hr & Ha).
    destruct (decide (a ∈ l_addr <$> ls)) as [Hin|Hout'].
    + apply list_elem_of_fmap in Hin as (l & -> & Hin).
      destruct (claimed_fresh_addr _ _ _ l _ Hc Hin eq_refl) as (r0 & ? & _ & _ & H3 & _).
      rewrite H3 in Hr. injection Hr as <-. injection Ha as <-. apply Hout. by apply list_elem_of_fmap_2.
    + apply Hn. exists a, row. by rewrite <- (cl_jobs_other _ _ _ Hc a Hout').
Qed.

Lemma ended_run d d' x :
  rtc store_step d d' → is_Some (owners d !! x) → ¬ leased d x → ¬ leased d' x.
Proof.
  induction 1 as [|d1 d2 d3 Hs _ IH]; intros Hx Hn; [done|].
  destruct (ended_step _ _ _ Hs Hx Hn) as [Hx' Hn']. by apply IH.
Qed.

(** ** Grouped publication against one publication per transaction *)

(** A row whose lease may have ended since. *)
Definition released_row (r r' : option job_row) : Prop :=
  r' = r ∨ ∃ row row', r = Some row ∧ r' = Some row' ∧ is_Some (active_execution_id row)
             ∧ active_execution_id row' = None ∧ generation row' = generation row.

(** The database in the middle of a group: some publications already written. *)
Definition midway (d : db) (js : gmap addr job_row) (evs : list event) : db :=
  set_events evs (set_jobs js d).

Lemma observation_midway d js evs a :
  db_ok d → released_row (jobs d !! a) (js !! a) →
  read_job_owner_observation (midway d js evs) a = read_job_owner_observation d a
  ∨ ∃ o o', read_job_owner_observation (midway d js evs) a = Ok (Some o)
      ∧ read_job_owner_observation d a = Ok (Some o')
      ∧ ob_owner o = ob_owner o' ∧ ob_session o = ob_session o'.
Proof.
  intros Hok Hr. unfold read_job_owner_observation. cbn [midway set_events set_jobs jobs instances].
  destruct Hr as [->|(row & row' & Hrow & -> & [x Hx] & Hn & Hg)]; [left; reflexivity|].
  rewrite Hrow. 
  destruct (ok_active _ Hok _ _ _ Hrow Hx) as (Hs & o & i & Ho & Ha & Hgen & Hi & Hlast & Hinst).
  rewrite Hi. destruct (valid_instance (instance_id i)); [|by left]. cbn [rbind].
  change (creator_valid (midway d js evs)) with (creator_valid d).
  destruct (creator_valid d _) eqn:Hc; [|by left]. cbn [rbind require].
  rewrite Hn, Hx, Hlast. rewrite (bool_decide_true (Some x = Some x)) by done.
  rewrite (bool_decide_true ((None : option string) = None)) by done. rewrite orb_true_r. cbn [orb rbind require].
  change (owners (midway d js evs)) with (owners d).
  change (sessions (midway d js evs)) with (sessions d).
  change (session_components (midway d js evs)) with (session_components d).
  change (execution_owner_from_row (midway d js evs)) with (execution_owner_from_row d).
  rewrite Ho. cbn [rbind]. destruct (sessions d !! o_session o) as [sr|]; [|by left]. cbn [rbind].
  rewrite Hg, Hgen, Z.eqb_refl, orb_true_r.
  destruct (require _ _ _) as [[]|e]; [|by left]. cbn [rbind].
  destruct (decode_component_key _) as [comp|e]; [|by left]. cbn [rbind].
  destruct (require _ _ _) as [[]|e]; [|by left]. cbn [rbind].
  destruct (execution_owner_from_row d x o) as [ow|e]; [|by left]. cbn [rbind]. right. eauto 10.
Qed.

Lemma check_expected_midway d js evs u t :
  db_ok d → released_row (jobs d !! u_addr u) (js !! u_addr u) →
  check_expected_owner (midway d js evs) u t = check_expected_owner d u t.
Proof.
  intros Hok Hr. unfold check_expected_owner. change (reservations (midway d js evs)) with (reservations d).
  destruct (observation_midway d js evs _ Hok Hr) as [->|(o & o' & -> & -> & Ho & Hs)]; [done|].
  cbn [rbind]. by rewrite Ho, Hs.
Qed.

(** One publication after another, each in its own transaction. *)
Fixpoint publish_each (d : db) (time : string) (us : list terminal_update) : db * list (result unit) :=
  match us with
  | [] => (d, [])
  | u :: us =>
      let '(d, o) := apply_terminal_updates d time [u] in
      let '(d, os) := publish_each d time us in (d, o ++ os)
  end.

Lemma decide_terminal_midway d js evs rows u :
  db_ok d → released_row (jobs d !! u_addr u) (js !! u_addr u) →
  decide_terminal (midway d js evs) rows u = decide_terminal d rows u.
Proof.
  intros Hok Hr. unfold decide_terminal. destruct (rows !! u_addr u) as [[[st g] active]|]; [|done].
  destruct (u_expected u) as [t|]; [|done]. by rewrite check_expected_midway.
Qed.

(** An accepted update is of a row the grouped [UPDATE] matches. *)
Lemma decide_accepts d rows js u st :
  rows = (λ r, (status r, generation r, active_execution_id r)) <$> js →
  decide_terminal d rows u = Ok (Some st) →
  ∃ row, js !! u_addr u = Some row ∧ generation row = u_generation u
    ∧ active_execution_id row = Some (u_execution u) ∧ status row = st
    ∧ write_terminal js u = <[u_addr u := terminal_row u row]> js.
Proof.
  intros -> . unfold decide_terminal. rewrite lookup_fmap. unfold write_terminal.
  destruct (js !! u_addr u) as [row|]; cbn [fmap option_fmap option_map]; [|done].
  destruct (generation row =? u_generation u) eqn:Hg; cbn [negb]; [|done].
  destruct (bool_decide (active_execution_id row = Some (u_execution u))) eqn:Ha; cbn [negb andb orb].
  2:{ destruct (_ && _); cbn; [|done]. destruct (match u_expected u with Some t => _ | None => _ end); done. }
  apply bool_decide_eq_true_1 in Ha. rewrite Ha, (bool_decide_false (Some _ = None)) by done. cbn [andb].
  destruct (match u_expected u with Some t => _ | None => _ end); cbn; [|done]. intros [= <-].
  exists row. split; [done|]. split; [lia|]. done.
Qed.

Definition terminal_event (time : string) (u : terminal_update) (previous : string) : event :=
  Event (u_addr u) time (u_status u) (Some (u_generation u)) (Some (u_execution u))
    (Some previous) (Some (u_status u)) None.

Lemma apply_single d time u :
  apply_terminal_updates d time [u]
  = match decide_terminal d (visible d) u with
    | Err e => (d, [Err e])
    | Ok None => (d, [Ok tt])
    | Ok (Some st) =>
        (midway d (write_terminal (jobs d) u) (events d ++ [terminal_event time u st]), [Ok tt])
    end.
Proof.
  unfold apply_terminal_updates. cbn [foldl]. unfold process_terminal. cbn [t_rows t_updates t_events t_outcomes].
  destruct (decide_terminal d (visible d) u) as [[st|]|e]; cbn; [done| |]; destruct d; cbn; by rewrite app_nil_r.
Qed.

Lemma group_step d time us acc :
  db_ok d →
  let js := foldl write_terminal (jobs d) (t_updates acc) in
  t_rows acc = visible (set_jobs js d) →
  (∀ a, released_row (jobs d !! a) (js !! a)) →
  let acc' := foldl (process_terminal d time) acc us in
  let p := publish_each (midway d js (events d ++ t_events acc)) time us in
  t_outcomes acc' = t_outcomes acc ++ p.2
  ∧ midway d (foldl write_terminal (jobs d) (t_updates acc')) (events d ++ t_events acc') = p.1.
Proof.
  intros Hok. revert acc. induction us as [|u us IH]; intros acc js Hrows Hrel; cbn [foldl publish_each].
  { by rewrite app_nil_r. }
  set (dm := midway d js (events d ++ t_events acc)). rewrite apply_single.
  assert (decide_terminal dm (visible dm) u = decide_terminal d (t_rows acc) u) as ->.
  { rewrite Hrows. unfold dm. by rewrite decide_terminal_midway. }
  set (one := process_terminal d time acc u).
  assert (∀ dn o, t_outcomes one = t_outcomes acc ++ o →
    dn = midway d (foldl write_terminal (jobs d) (t_updates one)) (events d ++ t_events one) →
    t_rows one = visible (set_jobs (foldl write_terminal (jobs d) (t_updates one)) d) →
    (∀ a, released_row (jobs d !! a) (foldl write_terminal (jobs d) (t_updates one) !! a)) →
    let acc' := foldl (process_terminal d time) one us in
    let p := let '(d, os) := publish_each dn time us in (d, o ++ os) in
    t_outcomes acc' = t_outcomes acc ++ p.2
    ∧ midway d (foldl write_terminal (jobs d) (t_updates acc')) (events d ++ t_events acc') = p.1) as Hnext.
  { intros dn o Ho -> Hv Hr. destruct (IH one Hv Hr) as [IH1 IH2]. cbn zeta in *. rewrite IH1, IH2, Ho.
    destruct (publish_each _ time us). cbn. by rewrite app_assoc. }
  destruct (decide_terminal d (t_rows acc) u) as [[st|]|e] eqn:Hdec; unfold one, process_terminal in Hnext;
    rewrite Hdec in Hnext; unfold one, process_terminal; rewrite Hdec; cbn [t_rows t_updates t_events t_outcomes] in *;
    apply Hnext; try done.
  - unfold dm, midway. cbn. rewrite foldl_app, app_assoc. done.
  - destruct (decide_accepts d (t_rows acc) js u st Hrows Hdec) as (row & Hrow & Hg & Ha & Hs & Hw).
    rewrite foldl_app. cbn [foldl]. fold js. rewrite Hw, Hrows. unfold visible. cbn [jobs set_jobs].
    rewrite fmap_insert. f_equal. cbn. by rewrite Hg.
  - destruct (decide_accepts d (t_rows acc) js u st Hrows Hdec) as (row & Hrow & Hg & Ha & Hs & Hw).
    intros a. rewrite foldl_app. cbn [foldl]. fold js. rewrite Hw.
    destruct (decide (u_addr u = a)) as [<-|Hne]; [|rewrite lookup_insert_ne by done; apply Hrel].
    rewrite lookup_insert_eq. right. destruct (Hrel (u_addr u)) as [Heq|(r & r' & Hr & Hr' & _ & Hn & _)]; [|congruence].
    exists row, (terminal_row u row). rewrite <- Heq. by rewrite Ha.
Qed.

Lemma apply_targets_rows_spec show d q owned ts d' :
  NoDup (r_addr <$> ts) → apply_targets_rows show d q owned ts = Ok d' →
  (∀ t, t ∈ ts → ∃ row row', jobs d !! r_addr t = Some row ∧ generation row = r_generation t
     ∧ active_execution_id row = r_active t ∧ jobs d' !! r_addr t = Some row'
     ∧ generation row' = r_generation t + 1 ∧ status row' = QUEUED ∧ active_execution_id row' = None
     ∧ restart_requested_at row' = Some (q_time q))
  ∧ (∀ a, (a ∉ r_addr <$> ts) → jobs d' !! a = jobs d !! a)
  ∧ nodes d' = nodes d ∧ restart_revision d' = restart_revision d.
Proof.
  revert d. induction ts as [|t ts IH]; intros d; cbn [fmap list_fmap apply_targets_rows]; intros Hnd.
  { intros [= <-]. split; [by intros t ?%not_elem_of_nil|done]. }
  apply NoDup_cons in Hnd as [Ht Hnd]. destruct (restart_row show d q t) as [row|] eqn:Hr; [|done].
  intros (HF & Hother & Hn & Hrev)%IH; [|done]. cbn in HF, Hother, Hn, Hrev.
  apply restart_row_spec in Hr as (old & Ho & Hg & Hs & Ha & Hr).
  split; [|split; [|done]].
  - intros t' [->|Hin]%elem_of_cons.
    + exists old, row. rewrite (Hother _ Ht), lookup_insert_eq. done.
    + destruct (HF t' Hin) as (r & r' & Hr1 & Hr2). exists r, r'.
      rewrite lookup_insert_ne in Hr1; [done|]. intros Heq. apply Ht. rewrite Heq. by apply list_elem_of_fmap_2.
  - intros a [Hne Hin]%not_elem_of_cons. rewrite (Hother a Hin). by rewrite lookup_insert_ne.
Qed.

Lemma finalize_stale d time u row :
  u_status u ∈ terminal_statuses → jobs d !! u_addr u = Some row →
  generation row ≠ u_generation u ∨ (active_execution_id row ≠ Some (u_execution u)
    ∧ (active_execution_id row = None → status row ≠ u_status u)) →
  finalize_job_execution d time u = Err terminal_restart_error.
Proof.
  intros Hs Hr Hst. unfold finalize_job_execution. rewrite bool_decide_true by done. cbn [require rbind].
  rewrite apply_single. unfold decide_terminal, visible. rewrite lookup_fmap, Hr. cbn [fmap option_fmap option_map].
  destruct (generation row =? u_generation u) eqn:Hg; cbn [negb]; [|done].
  destruct Hst as [?|[Ha Hna]]; [lia|]. rewrite (bool_decide_false (_ = Some (u_execution u))) by done.
  cbn [negb andb]. destruct (bool_decide (active_execution_id row = None)) eqn:Hn; [|done].
  apply bool_decide_eq_true_1 in Hn. rewrite bool_decide_false by auto. done.
Qed.

Lemma claimed_lease d d' ls l :
  claimed d d' ls → l ∈ ls →
  ∃ row row' o, jobs d !! l_addr l = Some row ∧ active_execution_id row = None
    ∧ l_generation l = generation row
    ∧ jobs d' !! l_addr l = Some row' ∧ active_execution_id row' = Some (l_execution l)
    ∧ status row' = RUNNING ∧ generation row' = generation row
    ∧ owners d !! l_execution l = None ∧ owners d' !! l_execution l = Some o
    ∧ o_addr o = l_addr l ∧ o_generation o = generation row
    ∧ reservations d !! o_component_key o = Some (o_session o)
    ∧ s_status <$> sessions d !! o_session o = Some RUNNING.
Proof.
  intros Hc Hin. destruct (claimed_fresh_addr _ _ _ l _ Hc Hin eq_refl)
    as (row & i & H1 & H2 & H3 & _ & _ & H6 & H7 & H8 & H9 & _).
  destruct Hc as [Hok _ _ _ _ _ _ _]. rewrite Forall_forall in Hok.
  destruct (Hok l Hin) as (row0 & i0 & Hr & _ & Hg & _ & _ & _ & Hres & Hses).
  rewrite H1 in Hr. injection Hr as <-. exists row, (claim_row l row), (l_owner l). done.
Qed.

Lemma group_lease d bs gs k b leases :
  Forall2 (batch_result d) bs gs → bs !! k = Some b → gs.*1 !! k = Some (Ok leases) →
  ∃ ls, batch_leases d b ls ∧ leases = (λ l, (l_generation l, l_execution l)) <$> ls
    ∧ (∀ l, l ∈ ls → l ∈ gs ≫= snd).
Proof.
  intros HF Hb Hk. rewrite list_lookup_fmap in Hk. apply fmap_Some in Hk as (p & Hp & Heq).
  destruct (Forall2_lookup_lr _ _ _ _ _ _ HF Hb Hp) as [[e ->]|(H1 & H2 & _)]; [done|].
  exists p.2. split; [done|]. split; [congruence|]. intros l Hl. apply list_elem_of_bind.
  exists p. split; [done|]. by apply list_elem_of_lookup_2 in Hp.
Qed.

Lemma group_source d bs gs l :
  Forall2 (batch_result d) bs gs → l ∈ gs ≫= snd →
  ∃ k b leases, bs !! k = Some b ∧ gs.*1 !! k = Some (Ok leases)
    ∧ (l_addr l).1 = b_node b ∧ (l_addr l).2 ∈ b_jobs b.
Proof.
  intros HF (p & Hl & [k Hk]%list_elem_of_lookup)%list_elem_of_bind.
  destruct (Forall2_lookup_r _ _ _ _ _ HF Hk) as (b & Hb & [[e ->]|(H1 & _ & Ha)]).
  { by apply not_elem_of_nil in Hl. }
  rewrite Forall_forall in Ha. destruct (Ha l Hl) as (_ & Hn & Hj).
  exists k, b. eexists. split; [done|]. split; [|done]. rewrite list_lookup_fmap, Hk. cbn. by rewrite H1.
Qed.

(** When a claim mutation commits, every batch has an outcome, every job of an
    accepted batch was unclaimed before and now runs under the execution asked for at
    its old generation, that execution id was unused and is owned by the job, under a
    component reserved by a running session, and every other job is untouched. *)
Theorem claims_take_leases d bs d' outs :
  apply_execution_claim_batches d bs = Ok (d', outs) →
  length outs = length bs
  ∧ (∀ k b leases, bs !! k = Some b → outs !! k = Some (Ok leases) →
       length leases = (length (b_jobs b) `min` length (b_executions b))%nat
       ∧ ∀ i j x, b_jobs b !! i = Some j → b_executions b !! i = Some x →
         ∃ row row' o, jobs d !! (b_node b, j) = Some row ∧ active_execution_id row = None
           ∧ leases !! i = Some (generation row, x)
           ∧ jobs d' !! (b_node b, j) = Some row' ∧ active_execution_id row' = Some x
           ∧ status row' = RUNNING ∧ generation row' = generation row
           ∧ owners d !! x = None ∧ owners d' !! x = Some o
           ∧ o_addr o = (b_node b, j) ∧ o_generation o = generation row
           ∧ reservations d !! o_component_key o = Some (o_session o)
           ∧ s_status <$> sessions d !! o_session o = Some RUNNING)
  ∧ (∀ a, (∀ k b leases, bs !! k = Some b → outs !! k = Some (Ok leases) → a.1 = b_node b → a.2 ∈ b_jobs b → False) →
       jobs d' !! a = jobs d !! a).
Proof.
  intros (gs & HF & -> & Hc)%apply_claims_claimed. split; [by rewrite length_fmap, (Forall2_length _ _ _ HF)|].
  split.
  - intros k b leases Hb Hk. destruct (group_lease _ _ _ _ _ _ HF Hb Hk) as (ls & [Hlen Hls] & -> & Hin).
    split; [by rewrite length_fmap|]. intros i j x Hj Hx.
    destruct (Hls i j x Hj Hx) as (l & Hl & _ & Ha & <- & _). rewrite <- Ha.
    destruct (claimed_lease _ _ _ l Hc) as (row & row' & o & H1 & H2 & H3 & H4).
    { apply Hin. by apply list_elem_of_lookup_2 in Hl. }
    exists row, row', o. rewrite list_lookup_fmap, Hl. cbn. by rewrite H3.
  - intros a Ha. apply (cl_jobs_other _ _ _ Hc). intros (l & -> & Hl)%list_elem_of_fmap.
    destruct (group_source _ _ _ _ HF Hl) as (k & b & leases & ? & ? & ? & ?). by eapply Ha.
Qed.

(** C2: along any sequence of claims, releases, publications and restarts an execution id
    is the lease of at most one job, that job is running, and the ownership row recorded
    under the id names the job, its instance and its current generation. *)
Theorem lease_exclusive d d' a row x :
  db_ok d → rtc store_step d d' →
  jobs d' !! a = Some row → active_execution_id row = Some x →
  status row = RUNNING
  ∧ (∃ o i, owners d' !! x = Some o ∧ o_addr o = a ∧ o_generation o = generation row
       ∧ instances d' !! a = Some i ∧ last_execution_id i = Some x ∧ o_instance o = instance_id i)
  ∧ ∀ b row', jobs d' !! b = Some row' → active_execution_id row' = Some x → b = a.
Proof.
  intros Hok Hrun Hr Hx. pose proof (store_run_ok _ _ Hrun Hok) as Hok'.
  destruct (ok_active _ Hok' a row x Hr Hx) as [Hs Ho]. split; [done|]. split; [done|].
  intros b row' Hb Hxb. by eapply active_unique.
Qed.

(** C5: once an execution was recorded and no longer is the lease of any job, it is never
    current again, whatever claims, releases, publications and restarts follow. *)
Theorem ended_lease_stays_ended d d' x a g :
  rtc store_step d d' → is_Some (owners d !! x) →
  (∀ b row, jobs d !! b = Some row → active_execution_id row ≠ Some x) →
  job_execution_is_current d' a g (Some x) = false.
Proof.
  intros Hrun Hx Hn. assert (¬ leased d' x) as Hn'.
  { eapply ended_run; [done|done|]. intros (b & row & Hb & Ha). by eapply Hn. }
  unfold job_execution_is_current. destruct (jobs d' !! a) as [row|] eqn:Hr; [|done].
  apply andb_false_iff. right. apply bool_decide_eq_false_2. intros Ha. apply Hn'. by exists a, row.
Qed.

(** A group of terminal updates published in one transaction has the effect and the
    outcomes of publishing them one after another, a transaction each. *)
Theorem grouped_publication_sequential d time us :
  db_ok d → apply_terminal_updates d time us = publish_each d time us.
Proof.
  intros Hok. destruct (group_step d time us (TerminalAcc (visible d) [] [] []) Hok) as [H1 H2]; cbn.
  - by destruct d.
  - intros a. by left.
  - cbn in H1, H2. rewrite app_nil_r in H1, H2.
    replace (midway d (jobs d) (events d)) with d in H1, H2 by (by destruct d).
    unfold apply_terminal_updates. destruct (publish_each d time us) as [d' os]. cbn in H1, H2. by rewrite H1, <- H2.
Qed.

Lemma decide_current d u row :
  u_expected u = None → jobs d !! u_addr u = Some row → generation row = u_generation u →
  active_execution_id row = Some (u_execution u) → decide_terminal d (visible d) u = Ok (Some (status row)).
Proof.
  intros He Hr Hg Ha. unfold decide_terminal, visible. rewrite lookup_fmap, Hr. cbn. rewrite Hg, Z.eqb_refl, Ha.
  cbn. rewrite (bool_decide_true (_ = _)) by done. cbn. by rewrite He.
Qed.

(** The lease holder's publication. *)
Lemma finalize_current d time u row :
  u_status u ∈ terminal_statuses → u_expected u = None →
  jobs d !! u_addr u = Some row → generation row = u_generation u →
  active_execution_id row = Some (u_execution u) →
  finalize_job_execution d time u
  = Ok (midway d (<[u_addr u := terminal_row u row]> (jobs d)) (events d ++ [terminal_event time u (status row)])).
Proof.
  intros Hs He Hr Hg Ha. pose proof (decide_current _ _ _ He Hr Hg Ha) as Hd.
  destruct (decide_accepts d (visible d) (jobs d) u _ eq_refl Hd) as (row0 & Hr0 & _ & _ & _ & Hw).
  rewrite Hr in Hr0. injection Hr0 as <-.
  unfold finalize_job_execution. rewrite bool_decide_true by done. cbn [require rbind].
  by rewrite apply_single, Hd, Hw.
Qed.

(** C4: the holder of a job's lease publishes its terminal status exactly once: the row
    takes the status and loses the lease, one event is appended, repeating the call
    changes nothing, and any other outcome for the job is then refused. *)
Theorem terminal_published_once d time u row :
  u_status u ∈ terminal_statuses → u_expected u = None →
  jobs d !! u_addr u = Some row → generation row = u_generation u →
  active_execution_id row = Some (u_execution u) →
  ∃ d1, finalize_job_execution d time u = Ok d1
    ∧ jobs d1 = <[u_addr u := terminal_row u row]> (jobs d)
    ∧ events d1 = events d ++ [terminal_event time u (status row)]
    ∧ owners d1 = owners d ∧ instances d1 = instances d
    ∧ (∀ later, finalize_job_execution d1 later u = Ok d1)
    ∧ ∀ later v, u_addr v = u_addr u → u_status v ∈ terminal_statuses →
        u_status v ≠ u_status u ∨ u_generation v ≠ u_generation u →
        finalize_job_execution d1 later v = Err terminal_restart_error.
Proof.
  intros Hs He Hr Hg Ha. eexists. split; [by apply finalize_current|].
  set (d1 := midway d _ _).
  assert (jobs d1 !! u_addr u = Some (terminal_row u row)) as Hj1 by (cbn; by rewrite lookup_insert_eq).
  split; [done|split; [done|split; [done|split; [done|split]]]].
  - intros later. unfold finalize_job_execution. rewrite bool_decide_true by done. cbn [require rbind].
    rewrite apply_single. unfold decide_terminal, visible. rewrite lookup_fmap, Hj1. cbn.
    rewrite Hg, Z.eqb_refl, He. cbn. rewrite (bool_decide_true (u_status u = _)) by done. done.
  - intros later v Hv Hsv Hdiff. apply (finalize_stale _ _ _ (terminal_row u row)); [done|by rewrite Hv|].
    cbn. destruct Hdiff as [Hne|Hne]; [right; split; [done|congruence]|left; congruence].
Qed.

Lemma commit_restart_ok show validate d q owned ts d' :
  commit_restart show validate d q owned ts = Ok d' →
  validate d = Ok ts ∧ ∃ d1, apply_targets_rows show d q owned ts = Ok d1 ∧ jobs d' = jobs d1
    ∧ restart_revision d' = restart_revision d1 + 1.
Proof.
  unfold commit_restart, apply_targets. intros H. inv_ok. apply bool_decide_eq_true_1 in Hg. subst x.
  split; [done|]. exists x0. by destruct owned.
Qed.

(** A committed restart gives every captured job the next generation, queued and
    unclaimed, leaves other jobs alone and counts one revision, and from then on the
    captured lease is not current and cannot publish an outcome. *)
Theorem restart_revokes_leases show validate d q owned ts d' :
  NoDup (r_addr <$> ts) → commit_restart show validate d q owned ts = Ok d' →
  validate d = Ok ts ∧ restart_revision d' = restart_revision d + 1
  ∧ (∀ a, (a ∉ r_addr <$> ts) → jobs d' !! a = jobs d !! a)
  ∧ ∀ t, t ∈ ts → ∃ row', jobs d' !! r_addr t = Some row' ∧ generation row' = r_generation t + 1
      ∧ status row' = QUEUED ∧ active_execution_id row' = None
      ∧ restart_requested_at row' = Some (q_time q)
      ∧ (∀ x, job_execution_is_current d' (r_addr t) (r_generation t) x = false)
      ∧ ∀ time x s e, s ∈ terminal_statuses →
          finalize_job_execution d' time (TerminalUpdate (r_addr t) (r_generation t) x s e)
          = Err terminal_restart_error.
Proof.
  intros Hnd (Hv & d1 & Hx & Hj & Hr)%commit_restart_ok.
  destruct (apply_targets_rows_spec _ _ _ _ _ _ Hnd Hx) as (HF & Hother & _ & Hrev).
  split; [done|]. split; [by rewrite Hr, Hrev|]. split; [by rewrite Hj|].
  intros t Ht. destruct (HF t Ht) as (row & row' & H1 & H2 & H3 & H4 & H5 & H6 & H7 & H8).
  exists row'. rewrite Hj. repeat (split; [done|]). split.
  - intros y. unfold job_execution_is_current. rewrite Hj, H4, H5.
    destruct (_ =? _) eqn:Hb; [lia|done].
  - intros time y s e Hs. apply (finalize_stale _ _ _ row'); [done|cbn; by rewrite Hj|]. left. cbn. lia.
Qed.
End ownership.

(** ** A project with two jobs, claimed, published and restarted *)

Module Sample.

Definition snap (_ : string) : result (list key) := Ok [["a"]].

Definition readers : claim_readers := ClaimReaders (λ _ _ _, false) (λ _ _ _, Ok false) (λ _ _ _, None)
  (λ _ _, Ok (1, 0)) (λ _ _ _, None) (λ _ _, None).

Definition K : string := encode_component_key ["a"].

Definition hex1 : string := "0123456789abcdef0123456789abcdef".

Definition fresh_job : job_row := JobRow 0 QUEUED None None None None None None None None.

Definition db0 : db := Db
  {[("a", 1) := fresh_job; ("a", 2) := fresh_job]}
  {[("a", 1) := InstanceRow hex1 None None; ("a", 2) := InstanceRow hex1 None None]}
  ∅ {["s" := SessionRow "run" RUNNING 1 None None None None "t0"]} {[("s", K)]} {[K := "s"]}
  {[1 := "shape"]} {[(K, 1)]} ∅ [] 0.

Definition batch (j : Z) (x : string) : claim_batch :=
  ClaimBatch "a" [j] [x] "t1" 7 7 "t1" true None (Some "s") (Some ["a"]) None.

Definition claim (d : db) (bs : list claim_batch) : result (db * list (result (list (Z * string)))) :=
  apply_execution_claim_batches snap readers d bs.

(** The project after job 1 was claimed. *)
Definition db1 : db := match claim db0 [batch 1 "e1"; batch 1 "e2"] with Ok (d, _) => d | Err _ => db0 end.

Definition outs1 : list (result (list (Z * string))) :=
  match claim db0 [batch 1 "e1"; batch 1 "e2"] with Ok (_, o) => o | Err _ => [] end.

Definition done1 : terminal_update := TerminalUpdate ("a", 1) 0 "e1" DONE None.

Definition target1 : restart_target :=
  RestartTarget ("a", 1) (Some (Owner "e1" ("a", 1) 0 "s" ["a"] hex1 1 0 None)) hex1 0 RUNNING (Some "e1").

Definition owned_targets (d : db) : result (list restart_target) :=
  let! t := owned_restart_target snap (λ _, true) d ("a", 1) in Ok [t].

Definition request1 : request := Request "t2" 9 "again".

Definition restarted : result db := commit_restart (λ _, "") owned_targets db1 request1 true [target1].

Lemma claim1 : claim db0 [batch 1 "e1"; batch 1 "e2"] = Ok (db1, outs1).
Proof. unfold db1, outs1. destruct (claim _ _) as [[d o]|e] eqn:H; [done|vm_compute in H; discriminate]. Qed.

Lemma db0_ok : db_ok db0.
Proof.
  split.
  - intros a row x Hr Hx. cbn in Hr.
    apply lookup_insert_Some in Hr as [[_ <-]|[_ Hr]]; [discriminate Hx|].
    apply lookup_singleton_Some in Hr as [_ <-]. discriminate Hx.
  - intros a i x Hi Hx. cbn in Hi.
    apply lookup_insert_Some in Hi as [[_ <-]|[_ Hi]]; [discriminate Hx|].
    apply lookup_singleton_Some in Hi as [_ <-]. discriminate Hx.
  - intros x o Ho. change (owners db0) with (∅ : gmap string owner_row) in Ho. by rewrite lookup_empty in Ho.
Qed.

Lemma run1 : rtc (store_step snap readers) db0 db1.
Proof. eapply rtc_once, step_claim. exact claim1. Qed.

Lemma db1_ok : db_ok db1.
Proof. eapply store_run_ok; [exact run1|exact db0_ok]. Qed.

End Sample.

Lemma claims_take_leases_witness :
  Sample.outs1 = [Ok [(0, "e1")]; Err (Exc RuntimeError "Jobs already claimed cannot receive another active execution")]
  ∧ length Sample.outs1 = 2%nat.
Proof. split; [vm_compute; reflexivity|]. exact (proj1 (claims_take_leases _ _ _ _ _ _ Sample.claim1)). Defined.

Lemma lease_exclusive_witness :
  ∃ row, jobs Sample.db1 !! ("a", 1) = Some row ∧ active_execution_id row = Some "e1" ∧ status row = RUNNING.
Proof.
  destruct (jobs Sample.db1 !! ("a", 1)) as [row|] eqn:Hr; [|vm_compute in Hr; discriminate].
  assert (active_execution_id row = Some "e1") as Hx by (vm_compute in Hr; injection Hr as <-; reflexivity).
  exists row. split; [reflexivity|]. split; [exact Hx|].
  exact (proj1 (lease_exclusive _ _ _ _ _ _ _ Sample.db0_ok Sample.run1 Hr Hx)).
Defined.

Lemma ended_lease_stays_ended_witness :
  let d1 := (finalize_job_execution Sample.snap Sample.db1 "t2" Sample.done1) in
  match d1 with
  | Ok d1 => match Sample.claim d1 [Sample.batch 2 "e2"] with
             | Ok (d2, _) => job_execution_is_current d2 ("a", 1) 0 (Some "e1") = false
             | Err _ => False
             end
  | Err _ => False
  end.
Proof.
  cbn zeta. destruct (finalize_job_execution _ _ _ _) as [d1|e] eqn:H1; [|vm_compute in H1; discriminate].
  destruct (Sample.claim d1 _) as [[d2 o]|e] eqn:H2.
  - apply (ended_lease_stays_ended Sample.snap Sample.readers d1 d2).
    + eapply rtc_once, step_claim. exact H2.
    + vm_compute in H1. injection H1 as <-. vm_compute. eexists. reflexivity.
    + intros b row Hb Ha. vm_compute in H1. injection H1 as <-. cbn [jobs] in Hb.
      apply (elem_of_map_to_list (M:=gmap addr)) in Hb. vm_compute in Hb.
      repeat (apply elem_of_cons in Hb as [[= _ ->]|Hb]; [discriminate Ha|]). by apply not_elem_of_nil in Hb.
  - vm_compute in H1. injection H1 as <-. vm_compute in H2. discriminate.
Defined.

Lemma grouped_publication_sequential_witness :
  apply_terminal_updates Sample.snap Sample.db1 "t2" [Sample.done1; Sample.done1]
  = publish_each Sample.snap Sample.db1 "t2" [Sample.done1; Sample.done1].
Proof. apply (grouped_publication_sequential Sample.snap). exact Sample.db1_ok. Defined.

Lemma terminal_published_once_witness :
  ∃ d1, finalize_job_execution Sample.snap Sample.db1 "t2" Sample.done1 = Ok d1.
Proof.
  destruct (jobs Sample.db1 !! ("a", 1)) as [row|] eqn:Hr; [|vm_compute in Hr; discriminate].
  destruct (terminal_published_once Sample.snap Sample.db1 "t2" Sample.done1 row) as (d1 & H & _).
  - vm_compute. constructor.
  - reflexivity.
  - exact Hr.
  - vm_compute in Hr. by injection Hr as <-.
  - vm_compute in Hr. by injection Hr as <-.
  - exists d1. exact H.
Defined.

Lemma restart_revokes_leases_witness :
  match Sample.restarted with
  | Ok d' => job_execution_is_current Sample.db1 ("a", 1) 0 (Some "e1") = true
             ∧ job_execution_is_current d' ("a", 1) 0 (Some "e1") = false
  | Err _ => False
  end.
Proof.
  destruct Sample.restarted as [d'|e] eqn:H; [|vm_compute in H; discriminate].
  split; [vm_compute; reflexivity|].
  destruct (restart_revokes_leases Sample.snap (λ _, "") Sample.owned_targets Sample.db1 Sample.request1 true
    [Sample.target1] d') as (_ & _ & _ & HF).
  - apply NoDup_singleton.
  - exact H.
  - destruct (HF Sample.target1) as (row' & _ & _ & _ & _ & _ & Hcur & _); [constructor|].
    exact (Hcur (Some "e1")).
Defined.
