(* ===== verification/ComponentRows.v ===== *)
(** Stored component state and its readers ([storage/component_result_identity.py],
    [storage/session_shapes.py], [validate_component_state_snapshot] of
    [storage/component_states.py]): the rows of component states, pending executions and
    successful results, and the checks every reader makes before it trusts them.

    The tables extend those of [JobStore].  Decoding a stored graph shape is an argument. *)
From S2P Require Import Prelude Topology Membership JobStore.

#[local] Open Scope Z_scope.

(** ** Rows *)

(** A row of [component_states]. *)
Record state_row := StateRow {
  st_shape : Z;
  st_retained_shape : option Z;
  st_retained_alignment : option Z;
  st_lifecycle : string;
  st_stability : option string;
  st_origin : option string;
  st_misaligned : Z;
  st_alignment : Z
}.

(** A row of [pending_component_executions]. *)
Record pending_row := PendingRow {
  pe_shape : Z;
  pe_starting_shape : Z;
  pe_alignment : Z;
  pe_ready : Z;
  pe_kind : string;
  pe_starting_lifecycle : string;
  pe_starting_misaligned : Z;
  pe_stability : option string;
  pe_origin : option string
}.

(** A row of [component_successful_results]. *)
Record result_row := ResultRow { re_lifecycle : string; re_stability : option string; re_origin : option string }.

(** A row of [component_misalignment_causes] past its key columns; the last field holds
    [preparation_kind], [operation], [action], [affected_kind] and [preparation_id]. *)
Record cause_row := CauseRow {
  ca_component_key : string;
  ca_shape : Z;
  ca_producer : option string;
  ca_arrival_kind : option string;
  ca_path : option string;
  ca_job : option Z;
  ca_instance : option string;
  ca_preparation : option (list string)
}.

(** The columns of [execution_sessions] the job tables do not use. *)
Record session_columns := SessionColumns {
  sc_command : string;
  sc_revision : option Z;
  sc_scope_admitted : Z
}.

Record cdb := Cdb {
  base : JobStore.db;
  columns : gmap string session_columns;
  memberships : Membership.tables;
  states : gmap string state_row;
  pending : gmap (string * string) pending_row;
  results : gmap (string * (Z * Z)) result_row;
  holds : gmap (string * string) Z;
  (** By receiver node and alignment generation. *)
  causes : gmap (string * Z) cause_row
}.

#[export] Instance state_row_eq_dec : EqDecision state_row.
Proof. solve_decision. Defined.
#[export] Instance pending_row_eq_dec : EqDecision pending_row.
Proof. solve_decision. Defined.

Definition set_base x d := Cdb x (columns d) (memberships d) (states d) (pending d) (results d) (holds d) (causes d).
Definition set_columns x d := Cdb (base d) x (memberships d) (states d) (pending d) (results d) (holds d) (causes d).
Definition set_component_states x d := Cdb (base d) (columns d) (memberships d) x (pending d) (results d) (holds d) (causes d).
Definition set_pending x d := Cdb (base d) (columns d) (memberships d) (states d) x (results d) (holds d) (causes d).
Definition set_component_results x d := Cdb (base d) (columns d) (memberships d) (states d) (pending d) x (holds d) (causes d).
Definition set_holds x d := Cdb (base d) (columns d) (memberships d) (states d) (pending d) (results d) x (causes d).
Definition set_causes x d := Cdb (base d) (columns d) (memberships d) (states d) (pending d) (results d) (holds d) x.

(** ** Observations *)

Record ComponentGenerationIdentity := Identity { shape_id : Z; alignment_generation : Z }.

Definition lineage : Type := option string * option string.

Record SuccessfulResultObservation := SuccessfulResult {
  sr_identity : ComponentGenerationIdentity;
  sr_lifecycle : string;
  sr_lineage : lineage
}.

Record ComponentStateRecord := StateRecord {
  cs_members : key;
  cs_identity : ComponentGenerationIdentity;
  cs_shape_json : string;
  cs_lifecycle : string;
  cs_lineage : lineage;
  cs_misaligned : bool;
  cs_retained : option ComponentGenerationIdentity
}.

Record AdmittedComponentShape := AdmittedShape { ad_shape_id : Z; ad_shape_json : string; ad_revision : Z }.

#[export] Instance identity_eq_dec : EqDecision ComponentGenerationIdentity.
Proof. solve_decision. Defined.
#[export] Instance successful_result_eq_dec : EqDecision SuccessfulResultObservation.
Proof. solve_decision. Defined.
#[export] Instance state_record_eq_dec : EqDecision ComponentStateRecord.
Proof. solve_decision. Defined.

(** [ComponentGenerationIdentity.__post_init__]. *)
Definition make_identity (shape alignment : Z) : result ComponentGenerationIdentity :=
  check! (1 <=? shape) orelse ValueError saying "Component shape ID must be a positive integer" in
  check! (0 <=? alignment) orelse ValueError saying "Component alignment generation must be a nonnegative integer" in
  Ok (Identity shape alignment).

Definition nonblank (s : option string) : bool :=
  match s with Some s => negb (bool_decide (strip s = "")) | None => false end.

(** [SuccessfulResultObservation.__post_init__]. *)
Definition make_successful_result (i : ComponentGenerationIdentity) (lifecycle : string) (l : lineage)
  : result SuccessfulResultObservation :=
  check! bool_decide (lifecycle ∈ ["sampled"; "done"])
         && (bool_decide (l = (Some "stable", None)) || (bool_decide (l.1 = Some "unstable") && nonblank l.2))
    orelse ValueError saying "Invalid successful component result observation" in
  Ok (SuccessfulResult i lifecycle l).

(** [SuccessfulResultObservation.result]. *)
Definition result_of (r : SuccessfulResultObservation) : string * lineage := (sr_lifecycle r, sr_lineage r).

(** [_component] and [_session_component]. *)
Definition _component (supplied : list string) : result key :=
  check! negb (bool_decide (supplied = [])) orelse ValueError saying "A component requires raw-node names" in
  let! _ := rmap validate_node_name supplied in
  let normalized := component_key supplied in
  check! (length normalized =? length supplied)%nat
    orelse ValueError saying "A component cannot contain duplicate raw-node names" in
  Ok normalized.

Definition _session_component (supplied : list string) : result key :=
  check! negb (bool_decide (supplied = [])) orelse ValueError saying "A selected component needs member node names" in
  let! names := rmap validate_node_name supplied in
  Ok (component_key names).

Definition _session_text (value : string) : result () :=
  check! negb (bool_decide (strip value = "")) orelse ValueError saying "must be nonempty text" in Ok ().

(** The session an instability origin names: its kind and admission marker, joined. *)
Definition origin_session (d : cdb) (origin : option string) : option (string * Z) :=
  o ← origin; s ← sessions (base d) !! o; c ← columns d !! o; Some (s_kind s, sc_scope_admitted c).

(** [_lineage_is_valid]. *)
Definition _lineage_is_valid (d : cdb) (l : lineage) : bool :=
  let joined := origin_session d l.2 in
  bool_decide (l = (Some "stable", None)) && bool_decide (joined = None)
  || bool_decide (l.1 = Some "unstable") && nonblank l.2 && bool_decide (joined = Some ("interrupt", 1)).

(** [validate_component_state_snapshot]. *)
Definition validate_component_state_snapshot (d : cdb) (r : state_row) : result () :=
  let l := (st_stability r, st_origin r) in
  let no_lineage := bool_decide (l = (None, None)) in
  let result_lineage := bool_decide (l = (Some "stable", None))
    || (bool_decide (st_stability r = Some "unstable") && nonblank (st_origin r)
        && bool_decide (origin_session d (st_origin r) = Some ("interrupt", 1))) in
  let valid_lifecycle :=
    (bool_decide (st_lifecycle r = "queued") && no_lineage && (st_misaligned r =? 0))
    || (bool_decide (st_lifecycle r = "running") && (no_lineage || result_lineage))
    || (bool_decide (st_lifecycle r ∈ ["sampled"; "done"]) && result_lineage)
    || (bool_decide (st_lifecycle r = "failed") && no_lineage) in
  check! valid_lifecycle && bool_decide (st_misaligned r ∈ [0; 1]) && (0 <=? st_alignment r)
    orelse RuntimeError saying "Invalid component state" in
  Ok ().

Section readers.
(** [component_snapshot_from_shape]. *)
Context (component_snapshot_from_shape : string → result ComponentTopologySnapshot).

Definition defined (d : cdb) (k : string) (shape : Z) : bool := bool_decide ((k, shape) ∈ definitions (base d)).

Definition read_successful_result (d : cdb) (component : list string) (i : ComponentGenerationIdentity)
  : result (option SuccessfulResultObservation) :=
  let! members := _component component in
  let k := encode_component_key members in
  match results d !! (k, (shape_id i, alignment_generation i)) with
  | None => Ok None
  | Some row =>
      match (if defined d k (shape_id i) then shapes (base d) !! shape_id i else None) with
      | None => raise RuntimeError "Retained successful result lost its historical component definition"
      | Some shape =>
          let! producing := on_value_error (component_snapshot_from_shape shape) "Invalid retained successful result graph shape" in
          check! bool_decide (members ∈ components producing)
            orelse RuntimeError saying "Retained successful result differs from its historical component" in
          check! bool_decide (re_lifecycle row ∈ ["sampled"; "done"]) && _lineage_is_valid d (re_stability row, re_origin row)
            orelse RuntimeError saying "Invalid retained successful component result" in
          let! r := make_successful_result i (re_lifecycle row) (re_stability row, re_origin row) in
          Ok (Some r)
      end
  end.

Definition _validate_active_membership (d : cdb) (members : key) : result () :=
  let! _ := rmap (λ node,
    let! c := read_active_component_for_node (memberships d) node in
    check! bool_decide (c = Some members) orelse RuntimeError saying "Component differs from the active membership" in
    Ok ()) members in
  Ok ().

(** The retained pointer of a state row. *)
Definition retained_identity (r : state_row) : result (option ComponentGenerationIdentity) :=
  match st_retained_shape r, st_retained_alignment r with
  | None, None => Ok None
  | Some s, Some a => let! i := make_identity s a in Ok (Some i)
  | _, _ => raise RuntimeError "Incomplete retained component result identity"
  end.

(** The last checks of the reader: lifecycle against lineage and retained success. *)
Definition consistent_state (d : cdb) (r : state_row) (retained : option SuccessfulResultObservation) : result () :=
  let l := (st_stability r, st_origin r) in
  let no_lineage := bool_decide (l = (None, None)) in
  let result_lineage := _lineage_is_valid d l in
  let lifecycle := st_lifecycle r in
  let valid_lifecycle :=
    (bool_decide (lifecycle = "queued") && no_lineage && (st_misaligned r =? 0))
    || (bool_decide (lifecycle = "running") && (no_lineage || result_lineage))
    || (bool_decide (lifecycle ∈ ["sampled"; "done"]) && result_lineage)
    || (bool_decide (lifecycle = "failed") && no_lineage) in
  check! valid_lifecycle && bool_decide (st_misaligned r ∈ [0; 1])
    orelse RuntimeError saying "Invalid component state" in
  check! negb (bool_decide (lifecycle = "queued") && bool_decide (is_Some retained))
    orelse RuntimeError saying "Queued component unexpectedly retains successful history" in
  check! negb (bool_decide (lifecycle ∈ ["sampled"; "done"])) || bool_decide (result_of <$> retained = Some (lifecycle, l))
    orelse RuntimeError saying "Component state differs from its retained successful result" in
  check! negb (bool_decide (lifecycle = "running"))
         || (if no_lineage then bool_decide (retained = None) else bool_decide (sr_lineage <$> retained = Some l))
    orelse RuntimeError saying "Running component differs from its retained successful result" in
  Ok ().

Definition read_component_state_record (d : cdb) (component : list string) (require_active : bool)
  : result (option ComponentStateRecord) :=
  let! members := _component component in
  let k := encode_component_key members in
  match states d !! k with
  | None =>
      check! negb (existsb (λ q, bool_decide (q.1 = k)) (elements (definitions (base d))))
        orelse RuntimeError saying "Component definition has no current state" in
      Ok None
  | Some r =>
      match (if defined d k (st_shape r) then shapes (base d) !! st_shape r else None) with
      | None => raise RuntimeError "Component state has no historical definition"
      | Some shape =>
          let! producing := on_value_error (component_snapshot_from_shape shape) "Invalid component state producing shape" in
          check! bool_decide (members ∈ components producing)
            orelse RuntimeError saying "Component state differs from its historical definition" in
          let! _ := if require_active then _validate_active_membership d members else Ok () in
          check! (0 <=? st_alignment r) orelse RuntimeError saying "Invalid component alignment generation" in
          let! identity := make_identity (st_shape r) (st_alignment r) in
          let! pointer := retained_identity r in
          check! (match pointer with Some i => alignment_generation i =? alignment_generation identity | None => true end)
            orelse RuntimeError saying "Retained component result has a different alignment generation" in
          let! retained := match pointer with
                           | None => Ok None
                           | Some i =>
                               let! found := read_successful_result d members i in
                               match found with
                               | None => raise RuntimeError "Component lost its retained successful result"
                               | Some x => Ok (Some x)
                               end
                           end in
          let! _ := consistent_state d r retained in
          Ok (Some (StateRecord members identity shape (st_lifecycle r) (st_stability r, st_origin r)
                      (negb (st_misaligned r =? 0)) pointer))
      end
  end.

Definition read_retained_successful_result (d : cdb) (s : ComponentStateRecord)
  : result (option SuccessfulResultObservation) :=
  match cs_retained s with
  | None => Ok None
  | Some i =>
      let! r := read_successful_result d (cs_members s) i in
      match r with
      | None => raise RuntimeError "Component lost its retained successful result"
      | Some r => Ok (Some r)
      end
  end.

Definition observe_current_success (d : cdb) (s : ComponentStateRecord) : result (option SuccessfulResultObservation) :=
  let! retained := read_retained_successful_result d s in
  match retained with
  | Some r => Ok (Some r)
  | None =>
      check! negb (bool_decide (cs_lifecycle s ∈ ["sampled"; "done"]))
        orelse RuntimeError saying "Component lost its retained successful result" in
      Ok None
  end.

(** ** The shape a session was admitted with *)

(** [SELECT shape_id FROM graph_shapes WHERE shape_json=?]; the text is unique. *)
Definition shape_id_of (d : cdb) (shape : string) : option Z :=
  fst <$> head (map_to_list (filter (λ q, q.2 = shape) (shapes (base d)))).

Definition definitions_of (d : cdb) (shape : Z) : gset string :=
  set_map fst (filter (λ q, q.2 = shape) (definitions (base d))).

(** The component keys a session selected; their order only decides which of several
    damaged rows is reported. *)
Definition selected_keys (d : cdb) (session : string) : list string :=
  (snd : string * string → string) <$> py_sorted (elements (filter (λ q, q.1 = session) (session_components (base d)))).

Definition read_admission_shape (d : cdb) (expected_shape : string) (cs : list key) : result (Z * Z) :=
  let! snapshot := on_value_error (component_snapshot_from_shape expected_shape) "Admission requires a valid registered graph shape" in
  check! negb (bool_decide (cs = [])) && forallb (λ c, bool_decide (c ∈ components snapshot)) cs
    orelse RuntimeError saying "Session selection is outside its admitted graph shape" in
  match shape_id_of d expected_shape with
  | None => raise RuntimeError "Session admission requires its registered graph shape"
  | Some shape =>
      check! bool_decide (definitions_of d shape = list_to_set (encode_component_key <$> components snapshot))
        orelse RuntimeError saying "Session admitted shape has incomplete component definitions" in
      let! active := read_active_component_partition (memberships d) in
      match active with
      | None => raise RuntimeError "Session admission requires initialized active membership"
      | Some p => Ok (shape, revision p)
      end
  end.

Definition validate_session_shape_snapshot (d : cdb) (shape revision : Z) (cs : list key) : result string :=
  check! (1 <=? shape) && (0 <=? revision) orelse RuntimeError saying "Session has an invalid admitted membership identity" in
  match shapes (base d) !! shape with
  | None => raise RuntimeError "Session admitted graph shape is missing"
  | Some json =>
      let! observed := read_admission_shape d json cs in
      check! (observed.1 =? shape) && (revision <=? observed.2)
        orelse RuntimeError saying "Session admitted membership identity is inconsistent" in
      Ok json
  end.

Definition read_admitted_component_shape (d : cdb) (session : string) (component : list string)
    (expected_shape : string) : result AdmittedComponentShape :=
  let! members := _component component in
  let k := encode_component_key members in
  match sessions (base d) !! session with
  | None => raise RuntimeError "Component start requires its selected running session"
  | Some s =>
      check! bool_decide (s_status s = "running") && bool_decide ((session, k) ∈ session_components (base d))
        orelse RuntimeError saying "Component start requires its selected running session" in
      check! bool_decide (reservations (base d) !! k = Some session)
        orelse RuntimeError saying "Component start requires its exact reservation" in
      check! (1 <=? s_shape s) orelse RuntimeError saying "Component session has no admitted graph shape" in
      match columns d !! session ≫= sc_revision with
      | None => raise RuntimeError "Component session has no admitted membership revision"
      | Some rev =>
          check! (0 <=? rev) orelse RuntimeError saying "Component session has no admitted membership revision" in
          let! selected := rmap (λ item,
            let! decoded := on_value_error (decode_component_key item) "Session has an invalid selected component" in
            check! bool_decide (encode_component_key decoded = item)
              orelse RuntimeError saying "Session has a noncanonical selected component" in
            Ok decoded) (selected_keys d session) in
          let! shape_json := validate_session_shape_snapshot d (s_shape s) rev selected in
          check! bool_decide (shape_json = expected_shape)
            orelse RuntimeError saying "Component start differs from its admitted graph shape" in
          let! active := read_active_component_partition (memberships d) in
          match active with
          | None => raise RuntimeError "Active component membership predates session admission"
          | Some p =>
              check! (rev <=? revision p) orelse RuntimeError saying "Active component membership predates session admission" in
              let established := head (filter (λ c, ac_members c = members) (Membership.active p)) in
              check! (match established with Some c => established_revision c <=? rev | None => false end)
                orelse RuntimeError saying "Selected component membership changed after session admission" in
              let! _ := _validate_active_membership d members in
              check! bool_decide (members ∈ selected)
                orelse RuntimeError saying "Component is outside its admitted session selection" in
              Ok (AdmittedShape (s_shape s) expected_shape rev)
          end
      end
  end.
End readers.

(** ** What the reader accepts *)

(** Every definition names a component of its registered shape. *)
Definition definitions_sound (snapshot : string → result ComponentTopologySnapshot) (d : cdb) : Prop :=
  ∀ k s, (k, s) ∈ definitions (base d) → 1 ≤ s ∧ ∃ json sn m,
    shapes (base d) !! s = Some json ∧ snapshot json = Ok sn ∧ m ∈ components sn ∧ valid_members m ∧ k = encode_component_key m.

(** A retained success fits its identity. *)
Definition result_fits (d : cdb) (k : string) (shape : Z) (r : result_row) : Prop :=
  defined d k shape = true ∧ re_lifecycle r ∈ ["sampled"; "done"] ∧ _lineage_is_valid d (re_stability r, re_origin r) = true.

Definition row_lineage (r : state_row) : lineage := (st_stability r, st_origin r).
Definition result_lineage (r : result_row) : lineage := (re_stability r, re_origin r).

(** The well-typed state rows: a component without a retained success is queued, running
    or failed without lineage; one with a retained success of its own generation carries
    that success's lineage while it runs, equals it when sampled or done, and shows none
    when failed. *)
Definition row_ok (d : cdb) (k : string) (r : state_row) : Prop :=
  defined d k (st_shape r) = true ∧ 0 ≤ st_alignment r ∧ st_misaligned r ∈ [0; 1] ∧
  match st_retained_shape r, st_retained_alignment r with
  | None, None => row_lineage r = (None, None) ∧
      ((st_lifecycle r = "queued" ∧ st_misaligned r = 0) ∨ st_lifecycle r = "running" ∨ st_lifecycle r = "failed")
  | Some s, Some a => a = st_alignment r ∧ ∃ re, results d !! (k, (s, a)) = Some re ∧ result_fits d k s re ∧
      ((st_lifecycle r = "running" ∧ row_lineage r = result_lineage re) ∨
       (st_lifecycle r ∈ ["sampled"; "done"] ∧ st_lifecycle r = re_lifecycle re ∧ row_lineage r = result_lineage re) ∨
       (st_lifecycle r = "failed" ∧ row_lineage r = (None, None)))
  | _, _ => False
  end.

#[local] Arguments encode_component_key : simpl never.
#[local] Arguments _component : simpl never.

Lemma component_valid m : valid_members m → _component m = Ok m.
Proof.
  intros (Hne & Hk & Hv). unfold _component. rewrite bool_decide_eq_false_2 by done. cbn.
  apply rmap_validate in Hv. destruct (rmap validate_node_name m); [|discriminate]. cbn.
  by rewrite Hk, Nat.eqb_refl.
Qed.

Lemma component_ok l m : _component l = Ok m → valid_members m ∧ m = component_key l.
Proof.
  intros H. apply (members_ok l m). unfold _component in H. unfold _members. inv_ok.
  rewrite bool_decide_eq_false_2 by by apply negb_true_iff, bool_decide_eq_false in Hg.
  cbn. rewrite Hx. cbn. by rewrite Hg0.
Qed.

Lemma valid_lineage_nonblank d l : _lineage_is_valid d l = true →
  l = (Some "stable", None) ∨ (l.1 = Some "unstable" ∧ nonblank l.2 = true).
Proof.
  unfold _lineage_is_valid. intros [[H _]%andb_true_iff|[[H1 H2]%andb_true_iff _]%andb_true_iff]%orb_true_iff.
  - left. by apply bool_decide_eq_true in H.
  - right. apply bool_decide_eq_true in H1. done.
Qed.

Lemma make_successful_result_ok i lifecycle l d : lifecycle ∈ ["sampled"; "done"] → _lineage_is_valid d l = true →
  make_successful_result i lifecycle l = Ok (SuccessfulResult i lifecycle l).
Proof.
  intros Hl Hv. unfold make_successful_result. rewrite bool_decide_eq_true_2 by done.
  destruct (valid_lineage_nonblank d l Hv) as [->|[H1 H2]]; [done|].
  rewrite H2, (bool_decide_eq_true_2 (l.1 = _)) by done. by rewrite orb_true_r.
Qed.

Section reading.
Context (snapshot : string → result ComponentTopologySnapshot) (d : cdb) (Hdefs : definitions_sound snapshot d).

Lemma defined_shape k s : defined d k s = true → 1 ≤ s ∧ ∃ json sn m,
  shapes (base d) !! s = Some json ∧ snapshot json = Ok sn ∧ m ∈ components sn ∧ valid_members m ∧ k = encode_component_key m.
Proof. intros H%bool_decide_eq_true. by apply Hdefs. Qed.

Lemma read_result_fits m i re : valid_members m → 
  results d !! (encode_component_key m, (shape_id i, alignment_generation i)) = Some re →
  result_fits d (encode_component_key m) (shape_id i) re →
  read_successful_result snapshot d m i = Ok (Some (SuccessfulResult i (re_lifecycle re) (result_lineage re))).
Proof.
  intros Hm Hre (Hd & Hl & Hv). unfold read_successful_result. rewrite component_valid by done. cbn.
  rewrite Hre, Hd. destruct (defined_shape _ _ Hd) as (_ & json & sn & m' & -> & Hsn & Hm' & Hv' & He).
  apply encode_key_inj in He as <-; [|done|done]. rewrite Hsn. cbn. rewrite bool_decide_eq_true_2 by done. cbn.
  rewrite bool_decide_eq_true_2, Hv by done. cbn. by rewrite (make_successful_result_ok i _ _ d).
Qed.

Lemma read_result_ok m i x : read_successful_result snapshot d m i = Ok (Some x) → valid_members m →
  ∃ re, results d !! (encode_component_key m, (shape_id i, alignment_generation i)) = Some re ∧
    result_fits d (encode_component_key m) (shape_id i) re ∧
    x = SuccessfulResult i (re_lifecycle re) (result_lineage re).
Proof.
  intros H Hm. unfold read_successful_result in H. rewrite component_valid in H by done. cbn in H.
  destruct (results d !! _) as [re|]; [|discriminate]. destruct (defined d _ _) eqn:Hd; [|discriminate].
  destruct (shapes (base d) !! _); [|discriminate]. inv_ok. apply andb_true_iff in Hg0 as [Hl Hv].
  apply bool_decide_eq_true in Hl. rewrite (make_successful_result_ok _ _ _ d) in Hx0 by done. injection Hx0 as <-. exists re. done.
Qed.

Lemma consistent_without r : consistent_state d r None = Ok () ↔
  st_misaligned r ∈ [0; 1] ∧ row_lineage r = (None, None) ∧
  ((st_lifecycle r = "queued" ∧ st_misaligned r = 0) ∨ st_lifecycle r = "running" ∨ st_lifecycle r = "failed").
Proof.
  unfold consistent_state, row_lineage. destruct (decide (st_lifecycle r ∈ ["sampled"; "done"])) as [Hsd|Hsd].
  { rewrite (bool_decide_eq_true_2 (st_lifecycle r ∈ _)) by done. cbn. split.
    - intros H. inv_ok. by apply bool_decide_eq_true in Hg1.
    - intros (_ & _ & H). apply list_elem_of_In in Hsd. cbn in Hsd. exfalso.
      destruct H as [[H _]|[H|H]]; rewrite H in Hsd; naive_solver. }
  rewrite (bool_decide_eq_false_2 (st_lifecycle r ∈ _)) by done. cbn. rewrite andb_false_r, !orb_false_r. cbn.
  split.
  - intros H. inv_ok. apply andb_true_iff in Hg as [Hg Hm]. apply bool_decide_eq_true in Hm. split; [done|].
    destruct (bool_decide ((st_stability r, st_origin r) = (None, None))) eqn:Hn; cbn in *.
    + apply bool_decide_eq_true in Hn. split; [done|].
      destruct (bool_decide_reflect (st_lifecycle r = "queued")) as [Hq|Hq]; cbn in *.
      { left. split; [done|]. rewrite Hq in Hg. cbn in Hg. rewrite !orb_false_r in Hg. lia. }
      right.
      destruct (bool_decide_reflect (st_lifecycle r = "running")); cbn in *; [by left|right].
      by destruct (bool_decide_reflect (st_lifecycle r = "failed")).
    + rewrite !andb_false_r in Hg. cbn in Hg. rewrite orb_false_r in Hg. apply andb_true_iff in Hg as [Hr _].
      rewrite Hr in *. discriminate.
  - intros (Hm & Hl & H). rewrite (bool_decide_eq_true_2 (_ = (None, None))) by done.
    rewrite (bool_decide_eq_true_2 (st_misaligned r ∈ _)) by done.
    destruct H as [[-> ->]|[-> | ->]]; done.
Qed.

Lemma consistent_with r x : _lineage_is_valid d (sr_lineage x) = true → sr_lifecycle x ∈ ["sampled"; "done"] →
  consistent_state d r (Some x) = Ok () ↔
  st_misaligned r ∈ [0; 1] ∧
  ((st_lifecycle r = "running" ∧ row_lineage r = sr_lineage x) ∨
   (st_lifecycle r ∈ ["sampled"; "done"] ∧ st_lifecycle r = sr_lifecycle x ∧ row_lineage r = sr_lineage x) ∨
   (st_lifecycle r = "failed" ∧ row_lineage r = (None, None))).
Proof.
  intros Hv Hsl. assert (sr_lineage x ≠ (None, None)) as Hne.
  { destruct (valid_lineage_nonblank _ _ Hv) as [->|[H _]]; [done|]. intros Hn. by rewrite Hn in H. }
  unfold consistent_state. fold (row_lineage r). destruct (bool_decide_reflect (st_lifecycle r ∈ ["sampled"; "done"])) as [Hsd|Hsd].
  - assert (st_lifecycle r ≠ "queued" ∧ st_lifecycle r ≠ "running" ∧ st_lifecycle r ≠ "failed") as (N1 & N2 & N3).
    { apply list_elem_of_In in Hsd. cbn in Hsd. split; [|split]; intros E; rewrite E in Hsd; naive_solver. }
    rewrite (bool_decide_eq_false_2 (st_lifecycle r = "queued")), (bool_decide_eq_false_2 (st_lifecycle r = "running")),
      (bool_decide_eq_false_2 (st_lifecycle r = "failed")) by done. cbn. rewrite orb_false_r. split.
    + intros H. inv_ok. apply andb_true_iff in Hg as [Hg Hm]. apply bool_decide_eq_true in Hm. split; [done|].
      right; left. apply bool_decide_eq_true in Hg0. unfold result_of in Hg0. injection Hg0 as -> ->. done.
    + intros (Hm & [[H _]|[(_ & Hl & Hr)|[H _]]]); [done| |done]. rewrite Hr, Hv. cbn.
      rewrite (bool_decide_eq_true_2 (st_misaligned r ∈ _)) by done. cbn. unfold result_of. rewrite Hl.
      by rewrite (bool_decide_eq_true_2 (Some _ = Some _)).
  - cbn. rewrite orb_false_r. split.
    + intros H. inv_ok. apply andb_true_iff in Hg as [Hg Hm]. apply bool_decide_eq_true in Hm. split; [done|].
      destruct (bool_decide_reflect (st_lifecycle r = "queued")); cbn in *; [discriminate|].
      destruct (bool_decide_reflect (st_lifecycle r = "running")); cbn in *.
      * left. split; [done|]. case_bool_decide; cbn in *; [discriminate|]. apply bool_decide_eq_true in Hg1. congruence.
      * right; right. destruct (bool_decide_reflect (st_lifecycle r = "failed")); cbn in *; [|discriminate].
        by apply bool_decide_eq_true in Hg.
    + intros (Hm & [[H Hr]|[(H & _)|[H Hr]]]); [|done|].
      * rewrite Hr, H, Hv, (bool_decide_eq_false_2 (sr_lineage x = _)) by done.
        rewrite (bool_decide_eq_true_2 (st_misaligned r ∈ _)) by done. cbn.
        by rewrite (bool_decide_eq_true_2 (Some _ = Some _)).
      * rewrite H, Hr. rewrite (bool_decide_eq_true_2 (st_misaligned r ∈ _)) by done. done.
Qed.

(** The pointer and its result, as [row_ok] wants them. *)
Definition retained_ok (k : string) (r : state_row) (retained : option SuccessfulResultObservation) : Prop :=
  match st_retained_shape r, st_retained_alignment r with
  | None, None => retained = None
  | Some s, Some a => a = st_alignment r ∧ ∃ re, results d !! (k, (s, a)) = Some re ∧ result_fits d k s re ∧
      retained = Some (SuccessfulResult (Identity s a) (re_lifecycle re) (result_lineage re))
  | _, _ => False
  end.

Lemma row_ok_retained k r : row_ok d k r ↔
  defined d k (st_shape r) = true ∧ 0 ≤ st_alignment r ∧
  ∃ retained, retained_ok k r retained ∧ consistent_state d r retained = Ok ().
Proof.
  unfold row_ok, retained_ok. destruct (st_retained_shape r) as [s|], (st_retained_alignment r) as [a|].
  - split.
    + intros (H1 & H2 & H3 & H4 & re & H5 & H6 & H7). split; [done|]. split; [done|]. eexists. split; [eauto|].
      destruct H6 as (_ & Hl & Hv). by apply consistent_with.
    + intros (H1 & H2 & x & (H3 & re & H5 & H6 & ->) & H7). pose proof H6 as (_ & Hl & Hv).
      apply consistent_with in H7 as [Hm H7]; [|done|done]. split; [done|]. split; [done|]. split; [done|]. eauto.
  - naive_solver.
  - naive_solver.
  - split.
    + intros (H1 & H2 & H3 & H4). split; [done|]. split; [done|]. exists None. split; [done|]. by apply consistent_without.
    + intros (H1 & H2 & x & -> & H7). apply consistent_without in H7. naive_solver.
Qed.

(** The record the reader returns for a row. *)
Definition record_of (m : key) (r : state_row) (shape : string) : ComponentStateRecord :=
  StateRecord m (Identity (st_shape r) (st_alignment r)) shape (st_lifecycle r) (row_lineage r)
    (negb (st_misaligned r =? 0))
    (match st_retained_shape r, st_retained_alignment r with Some s, Some a => Some (Identity s a) | _, _ => None end).

Lemma read_record_inv c act s : read_component_state_record snapshot d c act = Ok (Some s) →
  ∃ m r shape, _component c = Ok m ∧ states d !! encode_component_key m = Some r ∧ shapes (base d) !! st_shape r = Some shape ∧
    row_ok d (encode_component_key m) r ∧ s = record_of m r shape ∧
    (act = true → _validate_active_membership d m = Ok ()).
Proof.
  unfold read_component_state_record. intros H. apply rbind_ok in H as (m & Hc & H).
  pose proof (component_ok _ _ Hc) as [Hm _].
  destruct (states d !! encode_component_key m) as [r|] eqn:Hr; [|inv_ok; discriminate].
  destruct (defined d (encode_component_key m) (st_shape r)) eqn:Hd; [|discriminate].
  destruct (shapes (base d) !! st_shape r) as [shape|] eqn:Hs; [|discriminate]. inv_ok.
  exists m, r, shape. split; [done|]. split; [done|]. split; [done|].
  apply Z.leb_le in Hg0. unfold make_identity in Hx1. inv_ok.
  assert (x2 = (match st_retained_shape r, st_retained_alignment r with Some s, Some a => Some (Identity s a) | _, _ => None end)
    ∧ retained_ok (encode_component_key m) r x3) as [-> Hret].
  { unfold retained_identity in Hx2. unfold retained_ok. destruct (st_retained_shape r) as [s|], (st_retained_alignment r) as [a|];
      try discriminate.
    - unfold make_identity in Hx2. inv_ok. apply Z.eqb_eq in Hg1. cbn in Hg1. split; [done|]. split; [done|].
      destruct x2 as [y|]; [|discriminate]. inv_ok.
      match goal with H : read_successful_result _ _ _ _ = _ |- _ => apply read_result_ok in H as (re & H1 & H2 & ->); [|done] end.
      eauto.
    - inv_ok. done. }
  split; [apply row_ok_retained; destruct x4; eauto|]. split; [done|]. intros ->. by destruct x0.
Qed.

Lemma read_record_row m r : valid_members m → states d !! encode_component_key m = Some r → row_ok d (encode_component_key m) r →
  ∃ shape, read_component_state_record snapshot d m false = Ok (Some (record_of m r shape)).
Proof.
  intros Hm Hr (Hd & Ha & x & Hret & Hcons)%row_ok_retained. unfold read_component_state_record.
  rewrite component_valid by done. cbn [rbind]. rewrite Hr, Hd.
  destruct (defined_shape _ _ Hd) as (Hs & json & sn & m' & Hjson & Hsn & Hm' & Hv' & He).
  apply encode_key_inj in He as <-; [|done|done]. rewrite Hjson, Hsn. cbn [rbind on_value_error].
  rewrite bool_decide_eq_true_2 by done. cbn [rbind require].
  rewrite (proj2 (Z.leb_le 0 _) Ha). cbn [rbind require]. unfold make_identity at 1.
  rewrite (proj2 (Z.leb_le 1 _) Hs), (proj2 (Z.leb_le 0 _) Ha). cbn [rbind require].
  exists json. unfold record_of, retained_identity, retained_ok in *.
  destruct (st_retained_shape r) as [s|], (st_retained_alignment r) as [a|]; try done.
  - destruct Hret as (-> & re & Hre & Hfit & ->). pose proof Hfit as (Hdef & _).
    destruct (defined_shape _ _ Hdef) as [Hs' _]. unfold make_identity.
    rewrite (proj2 (Z.leb_le 1 _) Hs'), (proj2 (Z.leb_le 0 _) Ha). cbn [rbind require alignment_generation].
    rewrite Z.eqb_refl. cbn [rbind require].
    rewrite (read_result_fits m (Identity s (st_alignment r)) re) by done. cbn [rbind]. by rewrite Hcons.
  - cbn [rbind require]. subst x. by rewrite Hcons.
Qed.

(** Every valid component reads without error, or has neither row nor definition. *)
Definition rows_typed : Prop := ∀ m, valid_members m →
  match states d !! encode_component_key m with
  | Some r => row_ok d (encode_component_key m) r
  | None => ∀ s, (encode_component_key m, s) ∉ definitions (base d)
  end.

Lemma readable_iff : (∀ m, valid_members m → is_ok (read_component_state_record snapshot d m false) = true) ↔ rows_typed.
Proof.
  split; intros H m Hm; specialize (H m Hm).
  - destruct (read_component_state_record snapshot d m false) as [[s|]|e] eqn:Hread; [| |discriminate].
    + apply read_record_inv in Hread as (m' & r & shape & Hc & Hr & _ & Hok & _). rewrite component_valid in Hc by done.
      injection Hc as <-. by rewrite Hr.
    + unfold read_component_state_record in Hread. rewrite component_valid in Hread by done. cbn [rbind] in Hread.
      destruct (states d !! _); [destruct (if defined _ _ _ then _ else _); [|discriminate]; inv_ok; discriminate|].
      inv_ok. intros s Hs. apply negb_true_iff in Hg. apply not_true_iff_false in Hg. apply Hg, existsb_exists.
      exists (encode_component_key m, s). split; [by apply list_elem_of_In, elem_of_elements|by apply bool_decide_eq_true].
  - destruct (states d !! encode_component_key m) as [r|] eqn:Hr.
    + by destruct (read_record_row m r Hm Hr H) as [shape ->].
    + unfold read_component_state_record. rewrite component_valid by done. cbn [rbind]. rewrite Hr.
      destruct (existsb _ _) eqn:He; [|done]. apply existsb_exists in He as ([k s] & Hin & Hk%bool_decide_eq_true).
      cbn in Hk. subst k. exfalso. apply (H s). by apply elem_of_elements, list_elem_of_In.
Qed.
End reading.

(** The reader sees a component's own rows, the definitions, and the admitted interrupt
    sessions; a change that keeps them keeps the component readable. *)
Record keeps (d d' : cdb) (k : string) : Prop := {
  keeps_definitions : definitions (base d') = definitions (base d);
  keeps_origin o : origin_session d o = Some ("interrupt", 1) → origin_session d' o = Some ("interrupt", 1);
  keeps_state : states d' !! k = states d !! k;
  keeps_results i : results d' !! (k, i) = results d !! (k, i)
}.

Lemma lineage_valid_keeps d d' l :
  (∀ o, origin_session d o = Some ("interrupt", 1) → origin_session d' o = Some ("interrupt", 1)) →
  _lineage_is_valid d l = true → _lineage_is_valid d' l = true.
Proof.
  intros Ho. unfold _lineage_is_valid. intros [[Hl _]%andb_true_iff|[Hl Hj]%andb_true_iff]%orb_true_iff; apply orb_true_iff.
  - left. apply bool_decide_eq_true in Hl as ->. done.
  - right. apply bool_decide_eq_true, Ho in Hj. by rewrite Hl, bool_decide_eq_true_2.
Qed.

Lemma result_fits_keeps d d' k s re :
  definitions (base d') = definitions (base d) →
  (∀ o, origin_session d o = Some ("interrupt", 1) → origin_session d' o = Some ("interrupt", 1)) →
  result_fits d k s re → result_fits d' k s re.
Proof.
  intros Hdef Ho (H1 & H2 & H3). split; [unfold defined in *; by rewrite Hdef|]. split; [done|].
  by apply (lineage_valid_keeps d).
Qed.

Lemma row_ok_keeps d d' k r : keeps d d' k → row_ok d k r → row_ok d' k r.
Proof.
  intros [Hdef Ho _ Hres] (H1 & H2 & H3 & H4). split; [unfold defined in *; by rewrite Hdef|]. split; [done|].
  split; [done|]. destruct (st_retained_shape r) as [s|], (st_retained_alignment r) as [a|]; try done.
  destruct H4 as (-> & re & Hre & Hf & Hl). split; [done|]. exists re. rewrite Hres. split; [done|].
  split; [by apply (result_fits_keeps d)|done].
Qed.
