(* ===== verification/ComponentLife.v ===== *)
(** The lifecycle of component states ([storage/component_states.py],
    [component_transitions.py], [component_settlement.py],
    [selected_component_lifecycle.py], [component_misalignment.py], [component_holds.py],
    [component_reservations.py]): starting, settling, failing, preparing and misaligning a
    component, with the reservations and holds that guard it.

    Each operation runs in one writer transaction: it gives the new tables or raises and
    leaves them as they were.  What interrupts, receiver guards, thread overrides and
    causal job selections decide or write beside these tables is an argument. *)
From S2P Require Import Prelude Topology Membership JobStore ComponentRows.

#[local] Open Scope Z_scope.

(** ** Values *)

(** The dictionary [ComponentStateRecord.snapshot]. *)
Record state_snapshot := StateSnapshot {
  ss_members : key;
  ss_shape_json : string;
  ss_lifecycle : string;
  ss_lineage : lineage;
  ss_misaligned : bool;
  ss_alignment : Z
}.

#[export] Instance state_snapshot_eq_dec : EqDecision state_snapshot.
Proof. solve_decision. Defined.

Definition snapshot_of (s : ComponentStateRecord) : state_snapshot :=
  StateSnapshot (cs_members s) (cs_shape_json s) (cs_lifecycle s) (cs_lineage s) (cs_misaligned s)
    (alignment_generation (cs_identity s)).

Record ComponentTerminalOutcome := TerminalOutcome {
  oc_component : list string;
  oc_shape : string;
  oc_alignment : Z;
  oc_lifecycle : string;
  oc_lineage : lineage
}.

#[export] Instance outcome_eq_dec : EqDecision ComponentTerminalOutcome.
Proof. solve_decision. Defined.

Record ComponentTaskParent := TaskParent {
  tp_addr : addr;
  tp_generation : Z;
  tp_execution : string;
  tp_session : string;
  tp_component : key
}.

(** What other components decide inside the transaction. *)
Record authority := Authority {
  (** [_require_interrupt_component_admission]. *)
  interrupt_admission : cdb → string → list string → result ();
  (** [_validate_interrupt_component_start]. *)
  interrupt_start : cdb → string → key → lineage → result ();
  (** [_require_interrupt_fence_authority]. *)
  interrupt_fence : cdb → string → string → result ();
  (** [_settle_interrupt_component]: the remaining holds. *)
  interrupt_settle : cdb → string → ComponentTerminalOutcome → result (gmap (string * string) Z);
  (** Whether the session's only hold is the frozen interrupt admission of the component. *)
  interrupt_hold : cdb → string → string → bool;
  (** [_read_session_job_roots]: whether the session selected jobs. *)
  selected_roots : cdb → string → result bool;
  (** [read_selected_execution_jobs], for its errors. *)
  selected_jobs : cdb → string → key → string → list (addr * string) → Z * Z → result ();
  (** [_selected_component_result]. *)
  selected_result : cdb → string → string → pending_row → bool → result ComponentTerminalOutcome;
  (** [refuse_receiver_mutation] and [_bind_pending_thread_overrides]. *)
  receiver_guard : cdb → string → result ();
  bind_overrides : cdb → string → result ();
  (** [require_admitted_reservation_scope]. *)
  admitted_scope : cdb → string → result bool;
  (** [_decode_component_arrival_cause], for its errors. *)
  decode_cause : cdb → string → Z → cause_row → state_snapshot → result ()
}.

(** ** Outcomes *)

Definition valid_outcome_lineage (lifecycle : string) (l : lineage) : bool :=
  if bool_decide (lifecycle = "failed") then bool_decide (l = (None, None))
  else bool_decide (l = (Some "stable", None)) || (bool_decide (l.1 = Some "unstable") && nonblank l.2).

(** [_normalize_component_terminal_outcomes]. *)
Fixpoint normalize_outcomes (seen : list key) (os : list ComponentTerminalOutcome)
  : result (list ComponentTerminalOutcome) :=
  match os with
  | [] => Ok []
  | o :: os =>
      let! members := _session_component (oc_component o) in
      check! negb (bool_decide (members ∈ seen)) orelse ValueError saying "A component may have only one terminal outcome" in
      let! _ := _session_text (oc_shape o) in
      check! (0 <=? oc_alignment o) orelse ValueError saying "Expected alignment generation must be a nonnegative integer" in
      check! bool_decide (oc_lifecycle o ∈ ["sampled"; "done"; "failed"])
        orelse ValueError saying "A terminal component outcome must be sampled, done, or failed" in
      check! valid_outcome_lineage (oc_lifecycle o) (oc_lineage o)
        orelse ValueError saying "Invalid terminal component lineage" in
      let! rest := normalize_outcomes (members :: seen) os in
      Ok (TerminalOutcome members (oc_shape o) (oc_alignment o) (oc_lifecycle o) (oc_lineage o) :: rest)
  end.

Definition _normalize_component_terminal_outcomes := normalize_outcomes [].

(** [_validate_pending_component_row]. *)
Definition _validate_pending_component_row (d : cdb) (k : string) (r : pending_row) : result () :=
  check! bool_decide (pe_ready r ∈ [0; 1]) orelse RuntimeError saying "Invalid pending component completion metadata" in
  check! (1 <=? pe_shape r) && (1 <=? pe_starting_shape r) && bool_decide (pe_kind r ∈ ["full"; "jobs"; "resume"])
         && bool_decide (pe_starting_lifecycle r ∈ ["queued"; "sampled"; "done"; "failed"])
         && bool_decide (pe_starting_misaligned r ∈ [0; 1])
         && negb (bool_decide (pe_kind r = "full")
                  && (negb (bool_decide (pe_starting_lifecycle r = "queued")) || negb (pe_starting_misaligned r =? 0)))
         && negb (bool_decide (pe_kind r = "resume")
                  && (negb (bool_decide (pe_starting_lifecycle r = "sampled")) || negb (pe_starting_misaligned r =? 0)))
         && negb (bool_decide (pe_starting_lifecycle r = "queued") && negb (pe_starting_misaligned r =? 0))
    orelse RuntimeError saying "Invalid pending component execution kind or starting state" in
  check! bool_decide ((pe_stability r, pe_origin r) = (Some "stable", None))
         || (bool_decide (pe_stability r = Some "unstable") && nonblank (pe_origin r))
    orelse RuntimeError saying "Invalid pending component completion lineage" in
  check! bool_decide (pe_origin r = None) || bool_decide (origin_session d (pe_origin r) = Some ("interrupt", 1))
    orelse RuntimeError saying "A pending component requires an admitted interrupt origin" in
  check! defined d k (pe_shape r) && defined d k (pe_starting_shape r)
    orelse RuntimeError saying "Pending component execution has an invalid historical shape" in
  Ok ().

(** A pending row joined with the text of its shape. *)
Definition read_pending (d : cdb) (session k : string) : option (pending_row * string) :=
  r ← pending d !! (session, k); s ← shapes (base d) !! pe_shape r; Some (r, s).

(** The running session that selected and reserved a component. *)
Definition owns (d : cdb) (session k : string) : bool :=
  bool_decide (s_status <$> sessions (base d) !! session = Some "running")
  && bool_decide (reservations (base d) !! k = Some session)
  && bool_decide ((session, k) ∈ session_components (base d)).

Section life.
Context (component_snapshot_from_shape : string → result ComponentTopologySnapshot).
Context (au : authority).

Abbreviation read_record := (read_component_state_record component_snapshot_from_shape).

(** [read_component_state_snapshot]. *)
Definition read_component_state_snapshot (d : cdb) (component : list string) : result (option state_snapshot) :=
  let! members := _session_component component in
  let! state := read_record d members false in
  Ok (snapshot_of <$> state).

(** [read_component_states_snapshot] of one component. *)
Definition read_component_states_snapshot (d : cdb) (members : key) (expected_shape : string) : result state_snapshot :=
  check! negb (bool_decide (strip expected_shape = "")) orelse ValueError saying "expected_shape must be nonempty text" in
  let! snapshot := on_value_error (component_snapshot_from_shape expected_shape)
    "Component observations require a valid current graph shape" in
  check! bool_decide (members ∈ components snapshot)
    orelse RuntimeError saying "Component observations require current graph membership" in
  let! state := read_record d members true in
  match state with
  | Some s => Ok (snapshot_of s)
  | None => raise RuntimeError "Component observations require initialized current state"
  end.

(** One outcome of [_validate_component_terminal_outcomes]. *)
Definition validate_outcome (d : cdb) (session : string) (o : ComponentTerminalOutcome) : result () :=
  let k := encode_component_key (oc_component o) in
  check! owns d session k orelse RuntimeError saying "Component settlement requires its selected running owner and reservation" in
  let! admitted := read_admitted_component_shape component_snapshot_from_shape d session (oc_component o) (oc_shape o) in
  match read_pending d session k with
  | None => raise RuntimeError "Component settlement requires its matching pending execution"
  | Some (pe, shape) =>
      check! bool_decide (shape = oc_shape o) && (pe_shape pe =? ad_shape_id admitted)
             && (pe_alignment pe =? oc_alignment o)
        orelse RuntimeError saying "Component settlement requires its matching pending execution" in
      let! _ := _validate_pending_component_row d k pe in
      check! negb (bool_decide (oc_lifecycle o = "sampled") && negb (bool_decide (pe_kind pe = "jobs")))
        orelse RuntimeError saying "Only selected execution may settle as sampled" in
      check! bool_decide (oc_lifecycle o = "failed") || bool_decide ((pe_stability pe, pe_origin pe) = oc_lineage o)
        orelse RuntimeError saying "Component completion cannot replace recorded successful lineage" in
      let! state := read_record d (oc_component o) true in
      match state with
      | None => raise RuntimeError "Incomplete component state or producing graph shape"
      | Some s =>
          let! expected := make_identity (pe_shape pe) (oc_alignment o) in
          check! bool_decide (cs_identity s = expected) && bool_decide (cs_lifecycle s = "running")
                 && bool_decide (cs_misaligned s = negb (pe_starting_misaligned pe =? 0))
            orelse RuntimeError saying "Component settlement requires the expected aligned running state" in
          check! negb (bool_decide (pe_kind pe = "resume")) || bool_decide (cs_lineage s = (pe_stability pe, pe_origin pe))
            orelse RuntimeError saying "Sampled resume lost its retained successful lineage" in
          let! _ := if decide (pe_kind pe = "resume") then
              let! retained := read_retained_successful_result component_snapshot_from_shape d s in
              check! bool_decide (result_of <$> retained = Some ("sampled", (pe_stability pe, pe_origin pe)))
                orelse RuntimeError saying "Sampled resume lost its retained successful result" in
              Ok ()
            else Ok () in
          if decide (oc_lifecycle o = "failed") then Ok () else
          check! bool_decide ((cs_lineage s).1 = None) || bool_decide (cs_lineage s = oc_lineage o)
            orelse RuntimeError saying "Component settlement cannot replace retained successful lineage" in
          check! bool_decide ((oc_lineage o).2 = None)
                 || bool_decide (origin_session d (oc_lineage o).2 = Some ("interrupt", 1))
            orelse RuntimeError saying "An unstable component requires an admitted interrupt origin" in
          Ok ()
      end
  end.

Definition _validate_component_terminal_outcomes (d : cdb) (session : string) (os : list ComponentTerminalOutcome)
  : result () :=
  let! _ := rmap (validate_outcome d session) os in Ok ().

(** The jobs of a node, by id. *)
Definition jobs_of (d : cdb) (node : string) : list job_row :=
  snd <$> sort_by (λ q : addr * job_row, q.1.2) (map_to_list (filter (λ q, q.1.1 = node) (jobs (base d)))).

(** What a job says about settling its component. *)
Definition settles (selected : bool) (lifecycle : string) (j : job_row) : result () :=
  check! negb (bool_decide (status j = RUNNING)) && bool_decide (active_execution_id j = None)
    orelse ExecutionSessionHasActiveJobs saying "Component settlement still has active job" in
  check! selected || negb (bool_decide (lifecycle = "done")) || bool_decide (status j ∈ [DONE; SKIPPED])
    orelse ComponentExecutionIncomplete saying "Component completion has unfinished job" in
  Ok ().

(** [_record_component_successful_result]: insert or overwrite. *)
Definition _record_component_successful_result (d : cdb) (k : string) (shape alignment : Z) (lifecycle : string)
    (l : lineage) : cdb :=
  set_component_results (<[(k, (shape, alignment)) := ResultRow lifecycle l.1 l.2]> (results d)) d.

(** One outcome of [_publish_component_terminal_outcomes]. *)
Definition publish_component (d : cdb) (session : string) (o : ComponentTerminalOutcome) : result cdb :=
  let k := encode_component_key (oc_component o) in
  match read_pending d session k with
  | None => raise TypeError "no pending row"
  | Some (pe, _) =>
      let selected := bool_decide (pe_kind pe = "jobs") in
      let successful := negb (bool_decide (oc_lifecycle o = "failed")) in
      let! _ := if selected then
          let! calculated := selected_result au d session k pe successful in
          check! bool_decide (calculated = o) && negb (successful && (pe_ready pe =? 0))
            orelse RuntimeError saying "Selected outcome does not match its joined causal coverage" in
          Ok ()
        else Ok () in
      let! _ := rmap (settles selected (oc_lifecycle o)) (node ← oc_component o; jobs_of d node) in
      let d := if successful
               then _record_component_successful_result d k (pe_shape pe) (oc_alignment o) (oc_lifecycle o) (oc_lineage o)
               else d in
      match states d !! k with
      | Some r =>
          check! (st_shape r =? pe_shape pe) && bool_decide (st_lifecycle r = "running")
                 && (st_misaligned r =? pe_starting_misaligned pe) && (st_alignment r =? oc_alignment o)
            orelse RuntimeError saying "Component changed before settlement" in
          let r := StateRow (st_shape r)
                     (if successful then Some (pe_shape pe) else st_retained_shape r)
                     (if successful then Some (oc_alignment o) else st_retained_alignment r)
                     (oc_lifecycle o) (oc_lineage o).1 (oc_lineage o).2 (st_misaligned r) (st_alignment r) in
          let d := set_pending (delete (session, k) (pending d)) (set_component_states (<[k := r]> (states d)) d) in
          let! remaining := interrupt_settle au d session o in
          Ok (set_holds remaining d)
      | None => raise RuntimeError "Component changed before settlement"
      end
  end.

Fixpoint _publish_component_terminal_outcomes (d : cdb) (session : string) (os : list ComponentTerminalOutcome)
  : result cdb :=
  match os with
  | [] => Ok d
  | o :: os => let! d := publish_component d session o in _publish_component_terminal_outcomes d session os
  end.

(** [_validate_component_task_parent]. *)
Definition _validate_component_task_parent (d : cdb) (session : string) (parent : option ComponentTaskParent) : result () :=
  match parent with
  | None => Ok ()
  | Some tp =>
      let! observed := read_job_owner_observation
        (λ s, let! sn := component_snapshot_from_shape s in Ok (components sn)) (base d) (tp_addr tp) in
      match observed ≫= λ ob, ow ← ob_owner ob; Some (ob, ow) with
      | None => raise RuntimeError "Component task parent is no longer the active owner"
      | Some (ob, ow) =>
          check! bool_decide (tp_session tp = session) && bool_decide (ow_session ow = session)
                 && bool_decide (ow_component ow = tp_component tp) && (ob_generation ob =? tp_generation tp)
                 && bool_decide (ob_active ob = Some (tp_execution tp)) && bool_decide (ow_execution ow = tp_execution tp)
                 && bool_decide (ob_status ob = RUNNING)
                 && bool_decide (reservations (base d) !! encode_component_key (tp_component tp) = Some session)
            orelse RuntimeError saying "Component task parent is no longer the active owner" in
          Ok ()
      end
  end.

(** [finish_successful_component_execution]: [true] when the component was published,
    [false] when its own running task only marked it ready. *)
Definition finish_successful_component_execution (d : cdb) (session : string) (o : ComponentTerminalOutcome)
    (parent : option ComponentTaskParent) : result (cdb * bool) :=
  let! _ := _session_text session in
  let! os := _normalize_component_terminal_outcomes [o] in
  check! forallb (λ o, bool_decide (oc_lifecycle o = "done")) os
    orelse ValueError saying "Intermediate component completion requires a successful result" in
  let! _ := _validate_component_task_parent d session parent in
  let! _ := _validate_component_terminal_outcomes d session os in
  if bool_decide (Some (oc_component <$> os) = (λ tp, [tp_component tp]) <$> parent) then
    let k := encode_component_key (oc_component o) in
    match pending d !! (session, k) with
    | None => raise RuntimeError "Deferred component completion was not recorded"
    | Some pe =>
        let pe := PendingRow (pe_shape pe) (pe_starting_shape pe) (pe_alignment pe) 1 (pe_kind pe)
                    (pe_starting_lifecycle pe) (pe_starting_misaligned pe) (pe_stability pe) (pe_origin pe) in
        Ok (set_pending (<[(session, k) := pe]> (pending d)) d, false)
    end
  else let! d := _publish_component_terminal_outcomes d session os in Ok (d, true).

(** ** Starting a component *)

(** The expected snapshots of the parents, read again. *)
Definition check_parents (d : cdb) (parents : list (key * state_snapshot)) : result () :=
  let! _ := rmap (λ q : key * state_snapshot,
    let! s := read_component_state_snapshot d q.1 in
    check! bool_decide (s = Some q.2) orelse RuntimeError saying "Component parent changed before start" in
    Ok ()) parents in
  Ok ().

(** A new row of [pending_component_executions]; its key must be free. *)
Definition insert_pending (d : cdb) (session k : string) (pe : pending_row) : result cdb :=
  match pending d !! (session, k) with
  | Some _ => raise UserError "UNIQUE constraint failed: pending_component_executions"
  | None => Ok (set_pending (<[(session, k) := pe]> (pending d)) d)
  end.

(** The [WHERE] of the starting updates. *)
Definition starts_from (r : state_row) (identity : ComponentGenerationIdentity) (lifecycle : string) (misaligned : bool)
    (pointer : option ComponentGenerationIdentity) : bool :=
  (st_shape r =? shape_id identity) && bool_decide (st_lifecycle r = lifecycle)
  && (st_misaligned r =? (if misaligned then 1 else 0)) && (st_alignment r =? alignment_generation identity)
  && bool_decide (st_retained_shape r = shape_id <$> pointer)
  && bool_decide (st_retained_alignment r = alignment_generation <$> pointer).

(** The row of a started component. *)
Definition started (r : state_row) (shape : Z) (l : lineage) (pointer : option ComponentGenerationIdentity) : state_row :=
  StateRow shape (shape_id <$> pointer) (alignment_generation <$> pointer) "running" l.1 l.2 (st_misaligned r) (st_alignment r).

(** [_begin_component_execution], after its argument checks; [proposal] is the
    normalised proposal of the calculated lineage. *)
Definition begin (d : cdb) (session : string) (component : list string) (expected_shape : string) (expected_alignment : Z)
    (proposal : option ComponentTerminalOutcome) (parents : list (key * state_snapshot))
    (parent : option ComponentTaskParent) (starting : string) : result (cdb * bool) :=
  let k := encode_component_key component in
  let! _ := interrupt_admission au d session component in
  let! _ := _validate_component_task_parent d session parent in
  let! admitted := read_admitted_component_shape component_snapshot_from_shape d session
    (match proposal with Some p => oc_component p | None => component end) expected_shape in
  check! negb (bool_decide (starting = "sampled"))
         || bool_decide ((sc_command <$> columns d !! session) ∈ [Some "resume"; Some "resumefrom"; Some "resumebetween"])
    orelse RuntimeError saying "Sampled component execution requires a resume session" in
  let! state := read_record d component true in
  match state with
  | None => raise RuntimeError "Unknown component"
  | Some s =>
      let alignment := alignment_generation (cs_identity s) in
      if bool_decide (cs_lifecycle s = "running") && bool_decide (encode_component_key <$> (tp_component <$> parent) = Some k)
      then
        match read_pending d session k with
        | None => raise RuntimeError "Nested component execution has no matching recorded start"
        | Some (pe, shape) =>
            let! expected := make_identity (ad_shape_id admitted) expected_alignment in
            check! bool_decide (shape = expected_shape) && (pe_shape pe =? ad_shape_id admitted)
                   && (pe_alignment pe =? alignment) && bool_decide (cs_identity s = expected)
              orelse RuntimeError saying "Nested component execution has no matching recorded start" in
            let! _ := _validate_pending_component_row d k pe in
            Ok (d, false)
        end
      else
        check! bool_decide (cs_lifecycle s = starting) && negb (cs_misaligned s) && (alignment =? expected_alignment)
          orelse RuntimeError saying "Start requires an aligned component at the expected generation" in
        match proposal with
        | None => raise ValueError "Component start requires its calculated successful lineage"
        | Some p =>
            let! _ := interrupt_start au d session (oc_component p) (oc_lineage p) in
            let retained_lineage := cs_lineage s in
            check! negb (bool_decide (starting = "queued")) || bool_decide (retained_lineage = (None, None))
              orelse RuntimeError saying "Queued component start cannot retain successful lineage" in
            let! retained := observe_current_success component_snapshot_from_shape d s in
            check! negb (bool_decide (starting = "sampled"))
                   || (bool_decide (result_of <$> retained = Some ("sampled", retained_lineage))
                       && bool_decide (retained_lineage = oc_lineage p))
              orelse RuntimeError saying "Sampled resume cannot replace retained successful result" in
            let pointer := cs_retained s in
            let kind := if bool_decide (starting = "sampled") then "resume" else "full" in
            let pe := PendingRow (ad_shape_id admitted) (shape_id (cs_identity s)) expected_alignment 0 kind starting 0
                        (oc_lineage p).1 (oc_lineage p).2 in
            let! _ := _validate_pending_component_row d k pe in
            let! _ := check_parents d parents in
            match states d !! k with
            | Some r =>
                check! starts_from r (cs_identity s) starting false pointer
                       && bool_decide ((st_stability r, st_origin r) = retained_lineage)
                  orelse RuntimeError saying "Component changed before start" in
                let d := set_component_states (<[k := started r (ad_shape_id admitted) retained_lineage pointer]> (states d)) d in
                let! d := insert_pending d session k pe in
                Ok (d, true)
            | None => raise RuntimeError "Component changed before start"
            end
        end
  end.

Definition _begin_component_execution (d : cdb) (session : string) (component : list string) (expected_shape : string)
    (expected_alignment : Z) (successful_lineage : option lineage) (parents : list (list string * state_snapshot))
    (parent : option ComponentTaskParent) (starting : string) : result (cdb * bool) :=
  let! _ := _session_text session in
  let! _ := _session_text expected_shape in
  let! members := _session_component component in
  check! (0 <=? expected_alignment) orelse ValueError saying "Expected alignment generation must be a nonnegative integer" in
  let! proposals := match successful_lineage with
                    | None => Ok []
                    | Some l => _normalize_component_terminal_outcomes
                                  [TerminalOutcome members expected_shape expected_alignment "done" l]
                    end in
  let! parents := rmap (λ q : list string * state_snapshot, let! m := _session_component q.1 in Ok (m, q.2)) parents in
  begin d session component expected_shape expected_alignment (head proposals) parents parent starting.

Definition begin_queued_component_execution d session component shape alignment l parents parent :=
  _begin_component_execution d session component shape alignment l parents parent "queued".

Definition begin_sampled_component_execution d session component shape alignment l parents parent :=
  _begin_component_execution d session component shape alignment l parents parent "sampled".

(** [begin_selected_component_execution] of the component holding the first root. *)
Definition begin_selected_component_execution (d : cdb) (session : string) (component : key) (shape : string)
    (roots : list (addr * string)) (expected_identity : Z * Z) (expected_state : state_snapshot) (parents : list (key * state_snapshot)) (l : lineage)
  : result (cdb * (Z * Z)) :=
  let k := encode_component_key component in
  let! _ := _normalize_component_terminal_outcomes
    [TerminalOutcome component shape (ss_alignment expected_state) "done" l] in
  let! _ := interrupt_admission au d session component in
  let! observed := make_identity expected_identity.1 expected_identity.2 in
  let! admitted := read_admitted_component_shape component_snapshot_from_shape d session component shape in
  let! _ := selected_jobs au d session component shape roots expected_identity in
  let! state := read_record d component true in
  match state with
  | None => raise RuntimeError "Selected component changed before its captured start"
  | Some s =>
      check! bool_decide (snapshot_of s = expected_state) && bool_decide (cs_identity s = observed)
             && negb (bool_decide (cs_lifecycle s = "running"))
        orelse RuntimeError saying "Selected component changed before its captured start" in
      check! negb (existsb (λ q : (string * string) * pending_row, bool_decide (q.1.2 = k)) (map_to_list (pending d)))
        orelse RuntimeError saying "Selected component already has a pending execution" in
      let! _ := interrupt_start au d session component l in
      let! _ := check_parents d parents in
      let! prior := observe_current_success component_snapshot_from_shape d s in
      check! negb (bool_decide (cs_lifecycle s = "queued") && bool_decide (is_Some prior))
        orelse RuntimeError saying "Queued component unexpectedly retains successful history" in
      check! (match prior with Some p => bool_decide (sr_lineage p = l) | None => true end)
        orelse RuntimeError saying "Selected execution cannot combine incompatible successful lineage" in
      let pe := PendingRow (ad_shape_id admitted) (shape_id (cs_identity s)) (alignment_generation (cs_identity s)) 0
                  "jobs" (cs_lifecycle s) (if cs_misaligned s then 1 else 0) l.1 l.2 in
      let! _ := _validate_pending_component_row d k pe in
      let retained_lineage := match prior with None => (None, None) | Some p => sr_lineage p end in
      let pointer := cs_retained s in
      match states d !! k with
      | Some r =>
          check! starts_from r (cs_identity s) (cs_lifecycle s) (cs_misaligned s) pointer
            orelse RuntimeError saying "Selected component changed before start" in
          let d := set_component_states (<[k := started r (ad_shape_id admitted) retained_lineage pointer]> (states d)) d in
          let! d := insert_pending d session k pe in
          Ok (d, (ad_shape_id admitted, alignment_generation (cs_identity s)))
      | None => raise RuntimeError "Selected component changed before start"
      end
  end.

(** [mark_selected_component_execution_ready]. *)
Definition mark_selected_component_execution_ready (d : cdb) (session : string) (o : ComponentTerminalOutcome) : result cdb :=
  let k := encode_component_key (oc_component o) in
  let! _ := _validate_component_terminal_outcomes d session [o] in
  match read_pending d session k with
  | None => raise TypeError "no pending row"
  | Some (pe, _) =>
      check! bool_decide (pe_kind pe = "jobs") orelse RuntimeError saying "Selected completion requires its selected pending attempt" in
      let! _ := selected_result au d session k pe true in
      let pe := PendingRow (pe_shape pe) (pe_starting_shape pe) (pe_alignment pe) 1 (pe_kind pe)
                  (pe_starting_lifecycle pe) (pe_starting_misaligned pe) (pe_stability pe) (pe_origin pe) in
      Ok (set_pending (<[(session, k) := pe]> (pending d)) d)
  end.

(** ** Failing, preparing and misaligning *)

(** [fail_running_component]. *)
Definition fail_running_component (d : cdb) (session : string) (component : list string) (expected_shape : string)
    (expected_alignment : Z) : result cdb :=
  let! _ := _session_text session in
  let! members := _session_component component in
  let k := encode_component_key members in
  check! (0 <=? expected_alignment) orelse ValueError saying "Expected alignment generation must be a nonnegative integer" in
  check! bool_decide (s_status <$> sessions (base d) !! session = Some "running")
    orelse RuntimeError saying "Component failure requires an existing running session" in
  check! bool_decide (reservations (base d) !! k = Some session)
    orelse RuntimeError saying "Component failure requires the exact component reservation" in
  check! bool_decide ((session, k) ∈ session_components (base d))
    orelse RuntimeError saying "Component is outside the session selected scope" in
  match states d !! k with
  | None => raise RuntimeError "Unknown component"
  | Some r =>
      check! defined d k (st_shape r) orelse RuntimeError saying "Unknown component" in
      match shapes (base d) !! st_shape r with
      | None => raise RuntimeError "Incomplete component state or producing graph shape"
      | Some shape =>
          check! bool_decide (shape = expected_shape) orelse RuntimeError saying "Component failure requires the expected producing graph shape" in
          let! _ := validate_component_state_snapshot d r in
          check! bool_decide (st_lifecycle r = "running") && (st_misaligned r =? 0) && (st_alignment r =? expected_alignment)
            orelse RuntimeError saying "Failure requires an aligned running component at the expected generation" in
          let r := StateRow (st_shape r) (st_retained_shape r) (st_retained_alignment r) "failed" None None
                     (st_misaligned r) (st_alignment r) in
          Ok (set_component_states (<[k := r]> (states d)) d)
      end
  end.

(** [_refuse_live_sessions_for_reset]. *)
Definition _refuse_live_sessions_for_reset (d : cdb) : result () :=
  check! negb (existsb (λ q : string * session_row, bool_decide (s_status q.2 = "running")) (map_to_list (sessions (base d))))
    orelse RuntimeError saying "Reset requires no live execution sessions" in
  Ok ().

(** [_read_component_preparation], without captured roots; no session means a reset. *)
Definition _read_component_preparation (d : cdb) (session : option string) (members : key) (expected_shape : string)
  : result state_snapshot :=
  let k := encode_component_key members in
  let! _ := match session with Some s => interrupt_admission au d s members | None => Ok () end in
  let! _ := match session with
    | None =>
        let! _ := _refuse_live_sessions_for_reset d in
        check! bool_decide (reservations (base d) !! k = None) orelse RuntimeError saying "Reset component retains a reservation" in
        Ok ()
    | Some s =>
        check! bool_decide (s_status <$> sessions (base d) !! s = Some "running")
               && bool_decide ((s, k) ∈ session_components (base d))
          orelse RuntimeError saying "Full preparation requires a running selected component owner" in
        check! bool_decide (reservations (base d) !! k = Some s)
          orelse RuntimeError saying "Full preparation requires the exact component reservation" in
        let! roots := selected_roots au d s in
        check! negb roots orelse RuntimeError saying "Selected-job preparation cannot realign a full component" in
        interrupt_fence au d s k
    end in
  let held := filter (λ q : (string * string) * Z, q.1.2 = k) (map_to_list (holds d)) in
  let authorized := match session with Some s => interrupt_hold au d s k | None => false end in
  check! (bool_decide (held = []) || authorized)
         && negb (existsb (λ q : (string * string) * pending_row, bool_decide (q.1.2 = k)) (map_to_list (pending d)))
    orelse RuntimeError saying "Full preparation cannot change a held or pending component" in
  check! forallb (λ j, bool_decide (active_execution_id j = None) && negb (bool_decide (status j = RUNNING))
                       && bool_decide (active_pid j = None) && bool_decide (active_thread_id j = None)
                       && bool_decide (active_started_at j = None)) (node ← members; jobs_of d node)
    orelse RuntimeError saying "Full preparation cannot change active component jobs" in
  let! state := read_component_states_snapshot d members expected_shape in
  check! negb (bool_decide (ss_lifecycle state = "running")) orelse RuntimeError saying "Full preparation cannot change a running component" in
  Ok state.

(** [_complete_component_preparation]; [prepare] is [apply_job_preparation] of the planned
    job changes, which cover the component's nodes: the jobs and instances it leaves. *)
Definition _complete_component_preparation (d : cdb) (session : option string) (component : list string)
    (expected : state_snapshot) (target_shape : option string)
    (prepare : JobStore.db → result (gmap addr job_row * gmap addr instance_row)) : result (cdb * Z) :=
  let! members := _session_component component in
  check! (0 <=? ss_alignment expected) && bool_decide (ss_members expected = members)
    orelse ValueError saying "Full preparation requires an exact captured component observation" in
  let! _ := _session_text (ss_shape_json expected) in
  let! _ := match target_shape with Some s => _session_text s | None => Ok () end in
  let target_shape := default (ss_shape_json expected) target_shape in
  let k := encode_component_key members in
  let! state := _read_component_preparation d session members (ss_shape_json expected) in
  check! bool_decide (state = expected) orelse RuntimeError saying "Component changed during full preparation" in
  match (s ← shape_id_of d target_shape; if defined d k s then Some s else None) with
  | None => raise RuntimeError "Full preparation target shape is not registered"
  | Some target =>
      check! (match session with
              | Some s => bool_decide (s_shape <$> sessions (base d) !! s = Some target)
              | None => true
              end)
        orelse RuntimeError saying "Full preparation differs from its admitted graph shape" in
      let! prepared := prepare (base d) in
      let d := set_base (set_instances prepared.2 (set_jobs prepared.1 (base d))) d in
      match states d !! k with
      | Some r =>
          check! bool_decide (st_lifecycle r = ss_lifecycle expected)
                 && bool_decide ((st_stability r, st_origin r) = ss_lineage expected)
                 && (st_misaligned r =? (if ss_misaligned expected then 1 else 0)) && (st_alignment r =? ss_alignment expected)
            orelse RuntimeError saying "Component changed during full preparation" in
          let r := StateRow target None None "queued" None None 0 (st_alignment r + 1) in
          Ok (set_component_states (<[k := r]> (states d)) d, ss_alignment expected + 1)
      | None => raise RuntimeError "Component changed during full preparation"
      end
  end.

(** The first causes recorded for a component at its current generation. *)
Definition arrival_causes (d : cdb) (k : string) (alignment : Z) : list (string * cause_row) :=
  omap (λ q : (string * Z) * cause_row,
    if bool_decide (ca_component_key q.2 = k) && (q.1.2 =? alignment) then Some (q.1.1, q.2) else None)
  (map_to_list (causes d)).

(** [_read_component_arrival_causes]. *)
Definition _read_component_arrival_causes (d : cdb) (s : state_snapshot) : result (list (string * cause_row)) :=
  let found := arrival_causes d (encode_component_key (ss_members s)) (ss_alignment s) in
  let! _ := rmap (λ q : string * cause_row, decode_cause au d q.1 (ss_alignment s) q.2 s) found in
  check! bool_decide (negb (bool_decide (found = [])) = ss_misaligned s)
    orelse RuntimeError saying "Component misalignment and current first causes disagree" in
  Ok found.

(** [_mark_component_arrival]; [latched] tells whether this process recorded the same
    arrival before.  [true] when the receiver is misaligned by a recorded cause. *)
Definition _mark_component_arrival (d : cdb) (receiver : string) (s : state_snapshot) (latched : bool) (cause : cause_row)
  : result (cdb * bool) :=
  let k := encode_component_key (ss_members s) in
  if ss_misaligned s && latched then Ok (d, true) else
  let! found := _read_component_arrival_causes d s in
  if bool_decide (ss_lifecycle s ∈ ["queued"; "running"]) then Ok (d, false) else
  if existsb (λ q : string * cause_row, bool_decide (q.1 = receiver)) found then Ok (d, true) else
  let! d := if ss_misaligned s then Ok d else
    match states d !! k with
    | Some r =>
        check! (st_misaligned r =? 0) && (st_alignment r =? ss_alignment s)
               && bool_decide (st_lifecycle r ∈ ["done"; "sampled"; "failed"])
          orelse RuntimeError saying "Managed arrival receiver changed before publication" in
        let r := StateRow (st_shape r) (st_retained_shape r) (st_retained_alignment r) (st_lifecycle r) (st_stability r)
                   (st_origin r) 1 (st_alignment r) in
        Ok (set_component_states (<[k := r]> (states d)) d)
    | None => raise RuntimeError "Managed arrival receiver changed before publication"
    end in
  let recorded := default cause (causes d !! (receiver, ss_alignment s)) in
  let d := set_causes (<[(receiver, ss_alignment s) := recorded]> (causes d)) d in
  let! _ := decode_cause au d receiver (ss_alignment s) recorded s in
  Ok (d, true).

(** ** Reservations and holds *)

(** The foreign key of reservations and holds. *)
Definition require_states (d : cdb) (ks : list string) : result () :=
  check! forallb (λ k, bool_decide (is_Some (states d !! k))) ks orelse UserError saying "FOREIGN KEY constraint failed" in
  Ok ().

(** [_reserve_execution_components]: [true] for a new reservation of the whole scope. *)
Definition _reserve_execution_components (d : cdb) (session expected_shape : string) : result (cdb * bool) :=
  match sessions (base d) !! session with
  | None => raise RuntimeError "Component reservations require an existing running session"
  | Some s =>
      check! bool_decide (s_status s = "running") orelse RuntimeError saying "Component reservations require an existing running session" in
      let rows := selected_keys d session in
      check! negb (bool_decide (rows = []))
             && forallb (λ k, bool_decide ((if defined d k (s_shape s) then shapes (base d) !! s_shape s else None) = Some expected_shape)) rows
        orelse RuntimeError saying "Session scope does not match registered components in the expected graph shape" in
      let! active := read_active_component_partition (memberships d) in
      check! bool_decide (is_Some active) && bool_decide (Membership.revision <$> active = (columns d !! session ≫= sc_revision))
        orelse RuntimeError saying "Active component membership changed during admission" in
      let! selected := rmap decode_component_key rows in
      let selected_nodes := nodes_of selected in
      let! _ := rmap (receiver_guard au d) (py_sorted (elements selected_nodes)) in
      let! conflicts := rmap (λ q : string * string, decode_component_key q.1)
        (filter (λ q : string * string, q.2 ≠ session) (map_to_list (reservations (base d)))) in
      check! negb (existsb (meets selected_nodes) conflicts)
        orelse ComponentReservationConflict saying "Component reservations conflict" in
      let owned : gset string := dom (filter (λ q : string * string, q.2 = session) (reservations (base d))) in
      let marker := sc_scope_admitted <$> columns d !! session in
      if decide (owned = list_to_set rows) then
        check! bool_decide (marker = Some 1) orelse RuntimeError saying "Session reservation admission marker is missing" in
        let! _ := bind_overrides au d session in
        let! _ := admitted_scope au d session in
        Ok (d, false)
      else
        check! bool_decide (owned = ∅) orelse RuntimeError saying "Session has a damaged partial reservation" in
        check! bool_decide (marker = Some 0) orelse RuntimeError saying "Admitted session lost its component reservations" in
        let! reserved := insert_rows ((λ k, (k, session)) <$> rows) (reservations (base d)) in
        let! _ := require_states d rows in
        let d := set_base (set_reservations reserved (base d)) d in
        let! _ := bind_overrides au d session in
        let d := set_columns (alter (λ c, SessionColumns (sc_command c) (sc_revision c) 1) session (columns d)) d in
        let! admitted := admitted_scope au d session in
        check! admitted orelse RuntimeError saying "Session reservation admission marker changed" in
        Ok (d, true)
  end.

(** [release_execution_components]: how many reservations went. *)
Definition release_execution_components (d : cdb) (session : string) : result (cdb * Z) :=
  let! _ := _session_text session in
  let gone := filter (λ q : string * string, q.2 = session) (reservations (base d)) in
  Ok (set_base (set_reservations (filter (λ q : string * string, q.2 ≠ session) (reservations (base d))) (base d)) d,
      Z.of_nat (size gone)).

(** [acquire_component_holds]: the new counts. *)
Definition acquire_component_holds (d : cdb) (session : string) (cs : list (list string)) : result (cdb * list Z) :=
  let! _ := _session_text session in
  let! members := rmap _session_component cs in
  let keys := encode_component_key <$> members in
  check! bool_decide (NoDup keys) orelse ValueError saying "A hold batch cannot contain duplicate components" in
  check! bool_decide (s_status <$> sessions (base d) !! session = Some "running")
    orelse RuntimeError saying "Component holds require an existing running session" in
  let! _ := require_states d keys in
  let held := foldl (λ m k, <[(session, k) := default 0 (m !! (session, k)) + 1]> m) (holds d) keys in
  Ok (set_holds held d, (λ k, default 0 (held !! (session, k))) <$> keys).

(** One hold less; the last one removes the row. *)
Definition release_hold (session : string) (m : gmap (string * string) Z) (k : string) : gmap (string * string) Z :=
  match m !! (session, k) with
  | Some n => if n =? 1 then delete (session, k) m else if 1 <? n then <[(session, k) := n - 1]> m else m
  | None => m
  end.

(** [release_component_holds]: the counts that remain. *)
Definition release_component_holds (d : cdb) (session : string) (cs : list (list string)) : result (cdb * list Z) :=
  let! _ := _session_text session in
  let! members := rmap _session_component cs in
  let keys := encode_component_key <$> members in
  check! bool_decide (NoDup keys) orelse ValueError saying "A hold batch cannot contain duplicate components" in
  let held := foldl (release_hold session) (holds d) keys in
  Ok (set_holds held d, (λ k, default 0 (held !! (session, k))) <$> keys).

(** ** Steps *)

(** One committed transaction, with any arguments. *)
Inductive life_step (d : cdb) : cdb → Prop :=
  | step_begin session c shape al l ps p starting d' b : starting ∈ ["queued"; "sampled"] →
      _begin_component_execution d session c shape al l ps p starting = Ok (d', b) → life_step d d'
  | step_begin_selected session c shape roots i s ps l d' r :
      begin_selected_component_execution d session c shape roots i s ps l = Ok (d', r) → life_step d d'
  | step_ready session o d' : mark_selected_component_execution_ready d session o = Ok d' → life_step d d'
  | step_finish session o p d' b : finish_successful_component_execution d session o p = Ok (d', b) → life_step d d'
  | step_settle session os os' d' : _normalize_component_terminal_outcomes os = Ok os' →
      _validate_component_terminal_outcomes d session os' = Ok () →
      _publish_component_terminal_outcomes d session os' = Ok d' → life_step d d'
  | step_fail session c shape al d' : fail_running_component d session c shape al = Ok d' → life_step d d'
  | step_prepare session c s target prepare d' g :
      _complete_component_preparation d session c s target prepare = Ok (d', g) → life_step d d'
  | step_misalign receiver c s latched cause d' b : read_component_state_snapshot d c = Ok (Some s) →
      _mark_component_arrival d receiver s latched cause = Ok (d', b) → life_step d d'
  | step_reserve session shape d' b : _reserve_execution_components d session shape = Ok (d', b) → life_step d d'
  | step_release session d' n : release_execution_components d session = Ok (d', n) → life_step d d'
  | step_hold session cs d' ns : acquire_component_holds d session cs = Ok (d', ns) → life_step d d'
  | step_unhold session cs d' ns : release_component_holds d session cs = Ok (d', ns) → life_step d d'.
End life.
