(* ===== verification/ComponentSafety.v ===== *)
(** What the operations of [ComponentLife] guarantee: each acts as legal transitions of a
    small automaton, so stored component state stays readable and a component never has
    two executions at once. *)
From S2P Require Import Prelude Topology Membership JobStore ComponentRows ComponentLife.

#[local] Open Scope Z_scope.
#[local] Arguments encode_component_key : simpl never.
#[local] Arguments _component : simpl never.
#[local] Arguments _session_component : simpl never.
#[local] Arguments _validate_pending_component_row : simpl never.
#[local] Arguments read_component_state_record : simpl never.
#[local] Arguments read_admitted_component_shape : simpl never.
#[local] Arguments _validate_component_task_parent : simpl never.
#[local] Arguments check_parents : simpl never.
#[local] Arguments make_identity : simpl never.

(** ** The automaton of component rows *)

(** Nothing a row's validity depends on outside the component tables is lost. *)
Definition frame (d d' : cdb) : Prop :=
  definitions (base d') = definitions (base d) ∧ shapes (base d') = shapes (base d) ∧
  ∀ o, origin_session d o = Some ("interrupt", 1) → origin_session d' o = Some ("interrupt", 1).

Definition no_pending (d : cdb) (k : string) : Prop := ∀ session, pending d !! (session, k) = None.

(** The row a component runs with: the lineage of its retained success, if any. *)
Definition running_row (r : state_row) (shape : Z) (retained : option SuccessfulResultObservation) : state_row :=
  let l := from_option sr_lineage (None, None) retained in
  StateRow shape (st_retained_shape r) (st_retained_alignment r) "running" l.1 l.2 (st_misaligned r) (st_alignment r).

Inductive transition (d : cdb) : cdb → Prop :=
  (** Reservations, holds, jobs and causes change. *)
  | t_other d' : frame d d' → states d' = states d → pending d' = pending d → results d' = results d → transition d d'
  | t_start d' session k r pe retained :
      frame d d' → results d' = results d → states d !! k = Some r → row_ok d k r → retained_ok d k r retained →
      st_lifecycle r ≠ "running" → defined d k (pe_shape pe) = true →
      (no_pending d k ∨ st_lifecycle r ∈ ["queued"; "sampled"]) → pending d !! (session, k) = None →
      pe_alignment pe = st_alignment r → pe_starting_misaligned pe = st_misaligned r →
      states d' = <[k := running_row r (pe_shape pe) retained]> (states d) →
      pending d' = <[(session, k) := pe]> (pending d) → transition d d'
  | t_ready d' session k pe :
      frame d d' → results d' = results d → states d' = states d → pending d !! (session, k) = Some pe →
      pending d' = <[(session, k) := PendingRow (pe_shape pe) (pe_starting_shape pe) (pe_alignment pe) 1 (pe_kind pe)
        (pe_starting_lifecycle pe) (pe_starting_misaligned pe) (pe_stability pe) (pe_origin pe)]> (pending d) →
      transition d d'
  | t_succeed d' session k r pe lifecycle l :
      frame d d' → states d !! k = Some r → st_lifecycle r = "running" → pending d !! (session, k) = Some pe →
      st_shape r = pe_shape pe → st_alignment r = pe_alignment pe → defined d k (pe_shape pe) = true →
      0 ≤ st_alignment r → st_misaligned r ∈ [0; 1] →
      lifecycle ∈ ["sampled"; "done"] → _lineage_is_valid d l = true →
      states d' = <[k := StateRow (st_shape r) (Some (pe_shape pe)) (Some (st_alignment r)) lifecycle l.1 l.2
        (st_misaligned r) (st_alignment r)]> (states d) →
      results d' = <[(k, (pe_shape pe, st_alignment r)) := ResultRow lifecycle l.1 l.2]> (results d) →
      pending d' = delete (session, k) (pending d) → transition d d'
  | t_fail d' session k r :
      frame d d' → states d !! k = Some r → st_lifecycle r = "running" → results d' = results d →
      states d' = <[k := StateRow (st_shape r) (st_retained_shape r) (st_retained_alignment r) "failed" None None
        (st_misaligned r) (st_alignment r)]> (states d) →
      (pending d' = pending d ∨ is_Some (pending d !! (session, k)) ∧ pending d' = delete (session, k) (pending d)) →
      transition d d'
  | t_prepare d' k r shape :
      frame d d' → states d !! k = Some r → st_lifecycle r ≠ "running" → no_pending d k → 0 ≤ st_alignment r →
      defined d k shape = true → results d' = results d → pending d' = pending d →
      states d' = <[k := StateRow shape None None "queued" None None 0 (st_alignment r + 1)]> (states d) → transition d d'
  | t_misalign d' k r :
      frame d d' → states d !! k = Some r → st_lifecycle r ∈ ["done"; "sampled"; "failed"] → results d' = results d →
      pending d' = pending d →
      states d' = <[k := StateRow (st_shape r) (st_retained_shape r) (st_retained_alignment r) (st_lifecycle r)
        (st_stability r) (st_origin r) 1 (st_alignment r)]> (states d) → transition d d'.

(** ** Operations as transitions *)

Lemma encode_component l : encode_component_key (component_key l) = encode_component_key l.
Proof. unfold encode_component_key. by rewrite component_key_set. Qed.

Lemma frame_refl d d' : base d' = base d → columns d' = columns d → frame d d'.
Proof. intros Hb Hc. unfold frame, origin_session. rewrite Hb, Hc. done. Qed.

Lemma pending_row_defined d k r : _validate_pending_component_row d k r = Ok () →
  defined d k (pe_shape r) = true ∧
  ((pe_stability r, pe_origin r) = (Some "stable", None) ∨
   (pe_stability r = Some "unstable" ∧ nonblank (pe_origin r) = true ∧
    origin_session d (pe_origin r) = Some ("interrupt", 1))).
Proof.
  unfold _validate_pending_component_row. intros H. inv_ok. apply andb_true_iff in Hg3 as [Hd _]. split; [done|].
  apply orb_true_iff in Hg1 as [Hg1|[Hs Ho]%andb_true_iff]; [left; by apply bool_decide_eq_true in Hg1|right].
  apply bool_decide_eq_true in Hs. split; [done|]. split; [done|].
  apply orb_true_iff in Hg2 as [Hn|Hj]; [|by apply bool_decide_eq_true in Hj].
  apply bool_decide_eq_true in Hn. by rewrite Hn in Ho.
Qed.

Lemma insert_pending_ok d session k pe d' : insert_pending d session k pe = Ok d' →
  pending d !! (session, k) = None ∧ d' = set_pending (<[(session, k) := pe]> (pending d)) d.
Proof. unfold insert_pending. destruct (pending d !! _); [discriminate|]. by intros [= <-]. Qed.

Section operations.
Context (snapshot : string → result ComponentTopologySnapshot) (au : authority).

(** Reading a row that does not run, with its retained success. *)
Lemma row_retained d k r : row_ok d k r → ∃ retained, retained_ok d k r retained.
Proof. intros (_ & _ & x & Hx & _)%row_ok_retained. eauto. Qed.

Lemma queued_retained d k r retained : row_ok d k r → retained_ok d k r retained → st_lifecycle r = "queued" → retained = None.
Proof.
  unfold row_ok, retained_ok. intros (_ & _ & _ & H) Hret Hq. destruct (st_retained_shape r), (st_retained_alignment r); try done.
  destruct H as (_ & re & _ & _ & H). rewrite Hq in H. exfalso.
  destruct H as [[? _]|[[Hin _]|[? _]]]; [done| |done]. apply list_elem_of_In in Hin. cbn in Hin. naive_solver.
Qed.

(** The record's retained pointer, read again. *)
Lemma record_retained d m r shape retained :
  definitions_sound snapshot d → valid_members m → states d !! encode_component_key m = Some r →
  retained_ok d (encode_component_key m) r retained →
  read_retained_successful_result snapshot d (record_of m r shape) = Ok retained.
Proof.
  intros Hdefs Hm Hr. unfold retained_ok, read_retained_successful_result, record_of. cbn [cs_retained cs_members].
  destruct (st_retained_shape r) as [s|], (st_retained_alignment r) as [a|]; try done; [|by intros ->].
  intros (-> & re & Hre & Hfit & ->). by rewrite (read_result_fits snapshot d Hdefs m (Identity s (st_alignment r)) re).
Qed.

Lemma observe_retained d m r shape retained x :
  definitions_sound snapshot d → valid_members m → states d !! encode_component_key m = Some r →
  retained_ok d (encode_component_key m) r retained →
  observe_current_success snapshot d (record_of m r shape) = Ok x → x = retained.
Proof.
  intros Hdefs Hm Hr Hret. unfold observe_current_success. rewrite (record_retained d m r shape retained) by done. cbn.
  destruct retained; intros H; inv_ok; done.
Qed.

Lemma starts_from_pointer r i lifecycle mis pointer : starts_from r i lifecycle mis pointer = true →
  st_lifecycle r = lifecycle ∧ st_misaligned r = (if mis then 1 else 0) ∧ st_alignment r = alignment_generation i ∧
  st_retained_shape r = shape_id <$> pointer ∧ st_retained_alignment r = alignment_generation <$> pointer.
Proof.
  unfold starts_from. intros H. repeat apply andb_true_iff in H as [H ?]. repeat case_bool_decide; try discriminate.
  repeat split; try done; lia.
Qed.

Lemma begin_transition d session component shape al proposal parents parent starting d' b :
  definitions_sound snapshot d → starting ∈ ["queued"; "sampled"] →
  begin snapshot au d session component shape al proposal parents parent starting = Ok (d', b) →
  d' = d ∨ transition d d'.
Proof.
  intros Hdefs Hst. unfold begin. intros H. inv_ok. destruct x2 as [s|]; [|discriminate].
  apply (read_record_inv snapshot d) in Hx2 as (m & r & json & Hc & Hr & _ & Hok & -> & _).
  pose proof (component_ok _ _ Hc) as [Hm Heq].
  assert (encode_component_key component = encode_component_key m) as Hk by by rewrite Heq, encode_component.
  rewrite Hk in H. clear Hk Heq. destruct (_ && _).
  { left. destruct (read_pending d session _) as [[pe sh]|]; [|discriminate]. by inv_ok. }
  right. inv_ok. destruct proposal as [p|]; [|discriminate]. inv_ok. rewrite Hr in H. inv_ok.
  match goal with H : _validate_pending_component_row _ _ _ = Ok ?u |- _ => destruct u; apply pending_row_defined in H as [Hdef _] end.
  match goal with H : insert_pending _ _ _ _ = _ |- _ => apply insert_pending_ok in H as [Hnone ->] end.
  match goal with H : starts_from _ _ _ _ _ && _ = true |- _ => apply andb_true_iff in H as [Hfrom _] end.
  apply starts_from_pointer in Hfrom as (Hlife & Hmis & _ & Hp1 & Hp2).
  destruct (row_retained d _ r Hok) as [retained Hret].
  match goal with H : observe_current_success _ _ _ = Ok _ |- _ =>
    apply (observe_retained d m r json retained) in H as ->; [|done..] end.
  cbn [record_of cs_lineage cs_identity alignment_generation] in *.
  apply (t_start d _ session (encode_component_key m) r
    (PendingRow (ad_shape_id x1) (st_shape r) al 0 (if bool_decide (starting = "sampled") then "resume" else "full")
       starting 0 (oc_lineage p).1 (oc_lineage p).2) retained); try done.
  - rewrite Hlife. intros ->. apply list_elem_of_In in Hst. cbn in Hst. naive_solver.
  - right. by rewrite Hlife.
  - cbn. apply andb_true_iff in Hg0 as [_ Hal]. lia.
  - cbn [states set_pending set_component_states pe_shape]. unfold started, running_row. rewrite <- Hp1, <- Hp2.
    enough (from_option sr_lineage (None, None) retained = row_lineage r) as -> by done.
    apply list_elem_of_In in Hst. cbn in Hst. destruct Hst as [<-|[<-|[]]].
    + rewrite (queued_retained d _ r retained Hok Hret Hlife). cbn in Hg1. apply bool_decide_eq_true in Hg1.
      cbn. by rewrite <- Hg1.
    + cbn in Hg2. apply andb_true_iff in Hg2 as [Hres _]. apply bool_decide_eq_true in Hres.
      destruct retained as [y|]; [|discriminate]. unfold result_of in Hres. cbn in Hres. injection Hres as _ Hl.
      cbn. by rewrite <- Hl.
Qed.

Lemma begin_component_transition d session c shape al l parents parent starting d' b :
  definitions_sound snapshot d → starting ∈ ["queued"; "sampled"] →
  _begin_component_execution snapshot au d session c shape al l parents parent starting = Ok (d', b) →
  rtc transition d d'.
Proof.
  intros Hdefs Hst H. unfold _begin_component_execution in H. inv_ok.
  apply begin_transition in H as [->|H]; [done|by apply rtc_once|done|done].
Qed.

Lemma no_pending_existsb d k :
  negb (existsb (λ q : (string * string) * pending_row, bool_decide (q.1.2 = k)) (map_to_list (pending d))) = true →
  no_pending d k.
Proof.
  intros Hn%negb_true_iff session. apply eq_None_not_Some. intros [pe Hpe]. apply not_true_iff_false in Hn. apply Hn.
  apply existsb_exists. exists ((session, k), pe). split; [|by apply bool_decide_eq_true].
  by apply list_elem_of_In, elem_of_map_to_list.
Qed.

Lemma begin_selected_transition d session component shape roots i s parents l d' x :
  definitions_sound snapshot d →
  begin_selected_component_execution snapshot au d session component shape roots i s parents l = Ok (d', x) →
  rtc transition d d'.
Proof.
  intros Hdefs H. unfold begin_selected_component_execution in H. inv_ok.
  match goal with H : read_component_state_record _ _ _ _ = Ok ?o |- _ => destruct o as [rec|]; [|discriminate];
    apply (read_record_inv snapshot d) in H as (m & r & json & Hc & Hr & _ & Hok & -> & _) end.
  pose proof (component_ok _ _ Hc) as [Hm Heq].
  assert (encode_component_key component = encode_component_key m) as Hk by by rewrite Heq, encode_component.
  rewrite Hk in H. clear Hk Heq. inv_ok. rewrite Hr in H. inv_ok.
  match goal with H : _validate_pending_component_row _ _ _ = Ok ?u |- _ => destruct u; apply pending_row_defined in H as [Hdef _] end.
  match goal with H : insert_pending _ _ _ _ = _ |- _ => apply insert_pending_ok in H as [Hnone ->] end.
  match goal with H : starts_from _ _ _ _ _ = true |- _ => apply starts_from_pointer in H as (Hlife & Hmis & Hal & Hp1 & Hp2) end.
  destruct (row_retained d _ r Hok) as [retained Hret].
  match goal with H : observe_current_success _ _ _ = Ok _ |- _ =>
    apply (observe_retained d m r json retained) in H as ->; [|done..] end.
  match goal with H : negb (existsb _ _) = true |- _ => apply no_pending_existsb in H as Hnp end.
  apply rtc_once. eapply (t_start d _ session (encode_component_key m) r _ retained); try done.
  all: cbn [states set_pending set_component_states pending results pe_shape pe_alignment pe_starting_misaligned] in *.
  all: try done.
  - repeat match goal with H : _ && _ = true |- _ => apply andb_true_iff in H as [? ?] end.
    cbn [record_of cs_lifecycle] in *.
    match goal with H : negb (bool_decide (_ = "running")) = true |- _ => by apply negb_true_iff, bool_decide_eq_false in H end.
  - by left.
  - unfold started, running_row. rewrite <- Hp1, <- Hp2. by destruct retained.
Qed.

(** What validating an outcome establishes, and other components' settlement keeps. *)
Definition validated (d : cdb) (session : string) (o : ComponentTerminalOutcome) : Prop :=
  let k := encode_component_key (oc_component o) in
  ∃ pe, pending d !! (session, k) = Some pe ∧ pe_alignment pe = oc_alignment o ∧ 0 ≤ oc_alignment o ∧
    pe_starting_misaligned pe ∈ [0; 1] ∧ defined d k (pe_shape pe) = true ∧
    (oc_lifecycle o ≠ "failed" → _lineage_is_valid d (oc_lineage o) = true).

Lemma pending_misaligned d k r : _validate_pending_component_row d k r = Ok () → pe_starting_misaligned r ∈ [0; 1].
Proof.
  unfold _validate_pending_component_row. intros H. inv_ok.
  repeat match goal with H : _ && _ = true |- _ => apply andb_true_iff in H as [? ?] end.
  by match goal with H : bool_decide (pe_starting_misaligned r ∈ _) = true |- _ => apply bool_decide_eq_true in H end.
Qed.

Lemma read_pending_ok d session k pe shape : read_pending d session k = Some (pe, shape) → pending d !! (session, k) = Some pe.
Proof.
  unfold read_pending. destruct (pending d !! _) as [pe'|]; [|discriminate]. cbn. destruct (shapes _ !! _); [|discriminate].
  by intros [= -> _].
Qed.

Lemma validate_outcome_ok d session o : validate_outcome snapshot d session o = Ok () → validated d session o.
Proof.
  unfold validate_outcome. intros H. inv_ok. destruct (read_pending d session _) as [[pe shape]|] eqn:Hpe; [|discriminate].
  apply read_pending_ok in Hpe. inv_ok.
  match goal with H : _validate_pending_component_row _ _ _ = Ok ?u |- _ => destruct u;
    pose proof (pending_misaligned _ _ _ H); apply pending_row_defined in H as [Hdef Hlin] end.
  match goal with H : match ?x with Some _ => _ | None => _ end = _ |- _ => destruct x; [|discriminate] end. inv_ok.
  match goal with H : make_identity _ _ = _ |- _ => unfold make_identity in H end. inv_ok.
  exists pe. split; [done|]. apply andb_true_iff in Hg0 as [_ Hal%Z.eqb_eq]. split; [done|].
  split; [by apply Z.leb_le|]. split; [done|]. split; [done|]. intros Hnf.
  match goal with H : bool_decide (oc_lifecycle o = "failed") || _ = true |- _ => rename H into Hfl end.
  rewrite bool_decide_eq_false_2 in Hfl by done. apply bool_decide_eq_true in Hfl. rewrite <- Hfl. unfold _lineage_is_valid.
  destruct Hlin as [->|(Hs & Ho & Hj)]; [done|]. cbn [fst snd]. rewrite Hs, Ho, Hj. by rewrite orb_true_r.
Qed.

Lemma validate_outcomes_ok d session os : _validate_component_terminal_outcomes snapshot d session os = Ok () →
  Forall (validated d session) os.
Proof.
  unfold _validate_component_terminal_outcomes. intros H. inv_ok. apply rmap_ok in Hx.
  induction Hx as [|o u os us Ho _ IH]; constructor; [|done]. destruct u. by apply validate_outcome_ok.
Qed.

(** The outcomes a normalised list holds: distinct canonical components, a terminal
    lifecycle, no lineage when failed. *)
Definition normal (o : ComponentTerminalOutcome) : Prop :=
  component_key (oc_component o) = oc_component o ∧ oc_lifecycle o ∈ ["sampled"; "done"; "failed"] ∧
  (oc_lifecycle o = "failed" → oc_lineage o = (None, None)).

Lemma session_component_ok l m : _session_component l = Ok m → component_key m = m.
Proof.
  unfold _session_component. intros H. inv_ok. apply component_key_set.
Qed.

Lemma normalize_ok seen os os' : normalize_outcomes seen os = Ok os' →
  Forall normal os' ∧ NoDup (oc_component <$> os') ∧ ∀ o, o ∈ os' → oc_component o ∉ seen.
Proof.
  revert seen os'. induction os as [|o os IH]; intros seen os' H; cbn in H; inv_ok.
  { split; [constructor|]. split; [constructor|]. by intros o ?%not_elem_of_nil. }
  match goal with H : normalize_outcomes _ _ = _ |- _ => apply IH in H as (H1 & H2 & H3) end.
  apply negb_true_iff, bool_decide_eq_false in Hg. apply bool_decide_eq_true in Hg1.
  split; [constructor; [|done]|split].
  - split; cbn; [by eapply session_component_ok|]. split; [done|]. intros Hf. unfold valid_outcome_lineage in Hg2.
    rewrite Hf in Hg2. by apply bool_decide_eq_true in Hg2.
  - cbn. apply NoDup_cons. split; [|done]. intros (o' & Ho' & Hin)%list_elem_of_fmap. apply (H3 o' Hin). rewrite <- Ho'. left.
  - intros o' [->|Hin]%elem_of_cons; [done|]. intros Hs. apply (H3 o' Hin). by right.
Qed.

Lemma publish_transition d session o d' : normal o → validated d session o → publish_component au d session o = Ok d' →
  transition d d' ∧
  ∀ o', encode_component_key (oc_component o') ≠ encode_component_key (oc_component o) →
    validated d session o' → validated d' session o'.
Proof.
  intros (_ & Hlife & Hnone) (pe & Hpe & Hal & Hal0 & Hmis & Hdef & Hlin) H. unfold publish_component in H.
  set (k := encode_component_key (oc_component o)) in *. unfold read_pending in H. rewrite Hpe in H. cbn [mbind option_bind] in H.
  destruct (shapes (base d) !! pe_shape pe); [|discriminate]. cbn [mbind option_bind] in H. inv_ok.
  set (successful := negb (bool_decide (oc_lifecycle o = "failed"))) in *.
  set (d1 := if successful then _ else d) in *.
  assert (states d1 = states d ∧ pending d1 = pending d ∧ base d1 = base d ∧ columns d1 = columns d) as (E1 & E2 & E3 & E4).
  { subst d1. by destruct successful. }
  rewrite E1 in H. destruct (states d !! k) as [r|] eqn:Hr; [|discriminate]. inv_ok.
  repeat match goal with H : _ && _ = true |- _ => apply andb_true_iff in H as [? ?] end.
  match goal with H : bool_decide (st_lifecycle r = "running") = true |- _ => apply bool_decide_eq_true in H as Hrun end.
  repeat match goal with H : (_ =? _) = true |- _ => apply Z.eqb_eq in H end.
  match goal with |- transition d ?x ∧ _ => set (d' := x) end.
  assert (frame d d') as Hframe by (by apply frame_refl).
  split.
  - destruct successful eqn:Hsucc; subst successful.
    + apply negb_true_iff, bool_decide_eq_false in Hsucc.
      apply (t_succeed d d' session k r pe (oc_lifecycle o) (oc_lineage o)); try done; try congruence.
      * apply list_elem_of_In in Hlife. cbn in Hlife. apply list_elem_of_In. cbn. naive_solver.
      * by apply Hlin.
      * subst d'. cbn. f_equal. congruence.
      * subst d' d1. cbn. do 3 f_equal. congruence.
    + apply negb_false_iff, bool_decide_eq_true in Hsucc.
      apply (t_fail d d' session k r); try done.
      * subst d'. cbn. by rewrite (Hnone Hsucc), Hsucc.
      * right. subst d'. cbn. eauto.
  - intros o' Hne (pe' & Hpe' & Ha & Ha0 & Hm & Hd & Hl). exists pe'.
    assert (pending d' = delete (session, k) (pending d)) as -> by (subst d'; cbn; by rewrite E2).
    rewrite lookup_delete_ne by congruence. destruct Hframe as (Hfd & _ & Hfo).
    split; [done|]. split; [done|]. split; [done|]. split; [done|]. split; [unfold defined in *; by rewrite Hfd|].
    intros Hnf. apply (lineage_valid_keeps d); auto.
Qed.

Lemma publish_transitions d session os d' : Forall normal os → NoDup (oc_component <$> os) → Forall (validated d session) os →
  _publish_component_terminal_outcomes au d session os = Ok d' → rtc transition d d'.
Proof.
  intros Hn. revert d. induction Hn as [|o os Ho Hos IH]; intros d Hnd Hv H; cbn in H; inv_ok; [done|].
  apply NoDup_cons in Hnd as [Hnot Hnd]. apply Forall_cons in Hv as [Hvo Hv].
  destruct (publish_transition d session o x Ho Hvo Hx) as [Ht Hkeep]. eapply rtc_l; [exact Ht|]. apply IH; [done| |done].
  apply Forall_forall. intros o' Hin. rewrite Forall_forall in Hv, Hos. apply Hkeep; [|auto].
  intros He. apply Hnot. destruct Ho as [Hc _], (Hos o' Hin) as [Hc' _].
  assert (oc_component o = oc_component o') as ->; [|apply list_elem_of_fmap; eauto].
  rewrite <- Hc, <- Hc'. pose proof (decode_encode_component_key (oc_component o)) as D.
  rewrite <- He, decode_encode_component_key in D. congruence.
Qed.

Lemma finish_transition d session o parent d' b :
  finish_successful_component_execution snapshot au d session o parent = Ok (d', b) → rtc transition d d'.
Proof.
  unfold finish_successful_component_execution. intros H. inv_ok.
  match goal with H : _normalize_component_terminal_outcomes _ = _ |- _ => apply normalize_ok in H as (Hn & Hnd & _) end.
  match goal with H : _validate_component_terminal_outcomes _ _ _ _ = Ok ?u |- _ => destruct u; apply validate_outcomes_ok in H as Hv end.
  destruct (bool_decide _).
  - destruct (pending d !! _) as [pe|] eqn:Hpe; [|discriminate]. inv_ok. apply rtc_once.
    by apply (t_ready d _ session (encode_component_key (oc_component o)) pe).
  - inv_ok. by eapply publish_transitions.
Qed.

Lemma ready_transition d session o d' :
  mark_selected_component_execution_ready snapshot au d session o = Ok d' → rtc transition d d'.
Proof.
  unfold mark_selected_component_execution_ready. intros H. inv_ok.
  destruct (read_pending d session _) as [[pe shape]|] eqn:Hpe; [|discriminate]. apply read_pending_ok in Hpe. inv_ok.
  apply rtc_once. by apply (t_ready d _ session (encode_component_key (oc_component o)) pe).
Qed.

Lemma settle_transition d session os os' d' : _normalize_component_terminal_outcomes os = Ok os' →
  _validate_component_terminal_outcomes snapshot d session os' = Ok () →
  _publish_component_terminal_outcomes au d session os' = Ok d' → rtc transition d d'.
Proof.
  intros (Hn & Hnd & _)%normalize_ok Hv%validate_outcomes_ok H. by eapply publish_transitions.
Qed.

Lemma fail_transition d session c shape al d' : fail_running_component d session c shape al = Ok d' → rtc transition d d'.
Proof.
  unfold fail_running_component. intros H. inv_ok. destruct (states d !! _) as [r|] eqn:Hr; [|discriminate]. inv_ok.
  destruct (shapes (base d) !! _); [|discriminate]. inv_ok.
  repeat match goal with H : _ && _ = true |- _ => apply andb_true_iff in H as [? ?] end.
  match goal with H : bool_decide (st_lifecycle r = "running") = true |- _ => apply bool_decide_eq_true in H end.
  apply rtc_once. apply (t_fail d _ session (encode_component_key x0) r); try done. by left.
Qed.

Lemma prepare_transition d session c s target prepare d' g : definitions_sound snapshot d →
  _complete_component_preparation snapshot au d session c s target prepare = Ok (d', g) → rtc transition d d'.
Proof.
  intros Hdefs. unfold _complete_component_preparation, _read_component_preparation. intros H. inv_ok.
  match goal with H : match (_ ≫= _) with Some _ => _ | None => _ end = Ok _ |- _ => rename H into Hrun end.
  destruct (shape_id_of d _) as [sid|] eqn:Hsid; [|discriminate]. cbn [mbind option_bind] in Hrun.
  destruct (defined d _ sid) eqn:Hdef; [|discriminate]. inv_ok. cbn [states set_base] in Hrun.
  destruct (states d !! _) as [r|] eqn:Hr; [|discriminate]. inv_ok.
  repeat match goal with H : _ && _ = true |- _ => apply andb_true_iff in H as [? ?] end.
  repeat match goal with H : bool_decide _ = true |- _ => apply bool_decide_eq_true in H end.
  match goal with H : negb (existsb _ _) = true |- _ => apply no_pending_existsb in H as Hnp end.
  match goal with H : negb (bool_decide (ss_lifecycle _ = _)) = true |- _ => apply negb_true_iff, bool_decide_eq_false in H end.
  apply rtc_once. apply (t_prepare d _ (encode_component_key x) r sid); try done; [congruence|lia].
Qed.

Lemma snapshot_record d c s : read_component_state_snapshot snapshot d c = Ok (Some s) →
  ∃ m r shape, component_key m = m ∧ states d !! encode_component_key m = Some r ∧ s = snapshot_of (record_of m r shape).
Proof.
  unfold read_component_state_snapshot. intros H. inv_ok. destruct x0 as [rec|]; [|discriminate].
  match goal with H : read_component_state_record _ _ _ _ = _ |- _ =>
    apply (read_record_inv snapshot d) in H as (m & r & shape & Hc & Hr & _ & _ & -> & _) end.
  apply component_ok in Hc as [(_ & Hm & _) _]. exists m, r, shape. split; [done|]. split; [done|]. cbn in *. congruence.
Qed.

Lemma misalign_transition d c receiver s latched cause d' b : read_component_state_snapshot snapshot d c = Ok (Some s) →
  _mark_component_arrival au d receiver s latched cause = Ok (d', b) → rtc transition d d'.
Proof.
  intros (m & r & shape & Hm & Hr & ->)%snapshot_record. unfold _mark_component_arrival. cbn [ss_members snapshot_of record_of cs_members].
  rewrite Hr. destruct (_ && _); [by intros [= <- _]|]. intros H. inv_ok.
  destruct (bool_decide _); [by inv_ok|]. destruct (existsb _ _); [by inv_ok|]. inv_ok.
  assert (transition x0 (set_causes (<[(receiver, alignment_generation (cs_identity (record_of m r shape))) :=
    default cause (causes x0 !! (receiver, alignment_generation (cs_identity (record_of m r shape))))]> (causes x0)) x0)) as Hc.
  { by apply t_other. }
  destruct (ss_misaligned _); inv_ok; [by apply rtc_once|].
  repeat match goal with H : _ && _ = true |- _ => apply andb_true_iff in H as [? ?] end.
  match goal with H : bool_decide _ = true |- _ => apply bool_decide_eq_true in H end.
  eapply rtc_l; [|apply rtc_once, Hc]. by apply (t_misalign d _ (encode_component_key m) r).
Qed.

Lemma reserve_transition d session shape d' b :
  _reserve_execution_components au d session shape = Ok (d', b) → rtc transition d d'.
Proof.
  unfold _reserve_execution_components. intros H. destruct (sessions (base d) !! session) as [s|]; [|discriminate].
  inv_ok. destruct (decide _); inv_ok; [done|]. apply rtc_once, t_other; try done. split; [done|]. split; [done|].
  intros o. unfold origin_session. cbn [columns set_columns set_base base sessions set_reservations].
  destruct o as [o|]; [|done]. cbn. destruct (sessions (base d) !! o); [|done]. cbn.
  destruct (decide (o = session)) as [->|Hne].
  - rewrite lookup_alter_eq. destruct (columns d !! session) as [c|]; [|done]. cbn. by intros [= -> _].
  - by rewrite lookup_alter_ne.
Qed.

Lemma life_transitions d d' : definitions_sound snapshot d → life_step snapshot au d d' → rtc transition d d'.
Proof.
  intros Hdefs [session c shape al l ps p starting d1 b Hst H|session c shape i s ps l d1 r H|session o d1 H|session o p d1 b H
    |session os os' d1 Hn Hv H|session c shape al d1 H|session c s target prepare d1 g H|receiver c s latched cause d1 b Hs H
    |session shape d1 b H|session d1 n H|session cs d1 ns H|session cs d1 ns H].
  - by eapply begin_component_transition.
  - by eapply begin_selected_transition.
  - by eapply ready_transition.
  - by eapply finish_transition.
  - by eapply settle_transition.
  - by eapply fail_transition.
  - by eapply prepare_transition.
  - by eapply misalign_transition.
  - by eapply reserve_transition.
  - unfold release_execution_components in H. inv_ok. by apply rtc_once, t_other.
  - unfold acquire_component_holds in H. inv_ok. by apply rtc_once, t_other.
  - unfold release_component_holds in H. inv_ok. by apply rtc_once, t_other.
Qed.
End operations.

(** ** Typed rows *)

(** Some retained success, and what the lifecycle and lineage must be beside it. *)
Lemma row_ok_running d k r shape retained : defined d k shape = true → row_ok d k r → retained_ok d k r retained →
  row_ok d k (running_row r shape retained).
Proof.
  intros Hd (_ & Ha & Hm & _) Hret. unfold row_ok, retained_ok, running_row, row_lineage in *. cbn.
  split; [done|]. split; [done|]. split; [done|].
  destruct (st_retained_shape r), (st_retained_alignment r); try done.
  - destruct Hret as (-> & re & Hre & Hf & ->). split; [done|]. exists re. split; [done|]. split; [done|]. by left.
  - subst retained. cbn. split; [done|]. by right; left.
Qed.

Lemma row_ok_failed d k r : row_ok d k r →
  row_ok d k (StateRow (st_shape r) (st_retained_shape r) (st_retained_alignment r) "failed" None None
    (st_misaligned r) (st_alignment r)).
Proof.
  intros (Hd & Ha & Hm & H). unfold row_ok, row_lineage in *. cbn. split; [done|]. split; [done|]. split; [done|].
  destruct (st_retained_shape r), (st_retained_alignment r); try done.
  - destruct H as (-> & re & Hre & Hf & _). split; [done|]. exists re. split; [done|]. split; [done|]. by right; right.
  - split; [done|]. by right; right.
Qed.

Lemma row_ok_misaligned d k r : row_ok d k r → st_lifecycle r ∈ ["done"; "sampled"; "failed"] →
  row_ok d k (StateRow (st_shape r) (st_retained_shape r) (st_retained_alignment r) (st_lifecycle r)
    (st_stability r) (st_origin r) 1 (st_alignment r)).
Proof.
  intros (Hd & Ha & Hm & H) Hin. unfold row_ok, row_lineage in *. cbn. split; [done|]. split; [done|].
  split; [by right; left|]. destruct (st_retained_shape r), (st_retained_alignment r); try done.
  destruct H as [Hl H]. split; [done|]. destruct H as [[Hq _]|H]; [|by right].
  rewrite Hq in Hin. by apply list_elem_of_In in Hin; cbn in Hin; naive_solver.
Qed.

Lemma row_ok_succeeded d k shape alignment mis lifecycle (l : lineage) :
  defined d k shape = true → 0 ≤ alignment → mis ∈ [0; 1] → lifecycle ∈ ["sampled"; "done"] → _lineage_is_valid d l = true →
  results d !! (k, (shape, alignment)) = Some (ResultRow lifecycle l.1 l.2) →
  row_ok d k (StateRow shape (Some shape) (Some alignment) lifecycle l.1 l.2 mis alignment).
Proof.
  intros Hd Ha Hm Hl Hv Hre. unfold row_ok, row_lineage. cbn. split; [done|]. split; [done|]. split; [done|]. split; [done|].
  eexists. split; [exact Hre|]. unfold result_fits, result_lineage. cbn. destruct l as [l1 l2].
  split; [done|]. by right; left.
Qed.

(** A change confined to one component's row and results. *)
Lemma rows_typed_insert d d' k r0 r : frame d d' → rows_typed d → states d !! k = Some r0 →
  states d' = <[k := r]> (states d) → (∀ k' i, k' ≠ k → results d' !! (k', i) = results d !! (k', i)) →
  (row_ok d k r0 → row_ok d' k r) → rows_typed d'.
Proof.
  intros (Hd & _ & Ho) Hall Hr0 Hs Hres Hr m Hm. rewrite Hs. pose proof (Hall m Hm) as Hk.
  destruct (decide (k = encode_component_key m)) as [->|Hne].
  { rewrite lookup_insert_eq. rewrite Hr0 in Hk. auto. }
  rewrite lookup_insert_ne by done. destruct (states d !! encode_component_key m) as [r'|] eqn:Hr'.
  - apply (row_ok_keeps d); [|done]. split; auto. by rewrite Hs, lookup_insert_ne.
  - by rewrite Hd.
Qed.

(** Validity of a row survives a framed change of other tables. *)
Lemma row_ok_frame d d' k r : frame d d' → results d' = results d → row_ok d k r → row_ok d' k r.
Proof.
  intros (Hd & _ & Ho) Hr (H1 & H2 & H3 & H4). unfold row_ok, defined in *. rewrite Hd, Hr.
  split; [done|]. split; [done|]. split; [done|].
  destruct (st_retained_shape r), (st_retained_alignment r); try done.
  destruct H4 as (-> & re & Hre & Hf & H4). split; [done|]. exists re. split; [done|]. split; [|done].
  by apply (result_fits_keeps d).
Qed.

Lemma transition_frame d d' : transition d d' → frame d d'.
Proof. by destruct 1. Qed.

Lemma frame_sound snapshot d d' : frame d d' → definitions_sound snapshot d → definitions_sound snapshot d'.
Proof. intros (Hd & Hs & _) H k s. rewrite Hd, Hs. apply H. Qed.


Lemma transition_typed d d' : transition d d' → rows_typed d → rows_typed d'.
Proof.
  intros [d1 Hf Hs _ Hr|d1 session k r pe retained Hf Hr Hrow Hok Hret _ Hd _ _ _ _ Hs _|d1 session k pe Hf Hr Hs _ _
    |d1 session k r pe lifecycle l Hf Hrow Hrun _ Hsh _ Hd Ha Hm Hl Hv Hs Hr _|d1 session k r Hf Hrow Hrun Hr Hs _
    |d1 k r shape Hf Hrow _ _ Ha Hd Hr _ Hs|d1 k r Hf Hrow Hl Hr _ Hs] Hall.
  - intros m Hm. rewrite Hs. specialize (Hall m Hm). destruct (states d !! _); [by apply (row_ok_frame d)|].
    destruct Hf as (-> & _). done.
  - eapply rows_typed_insert; [done|done|done|exact Hs|by intros; rewrite Hr|]. intros _.
    apply (row_ok_frame d); [done|done|]. by apply row_ok_running.
  - intros m Hm. rewrite Hs. specialize (Hall m Hm). destruct (states d !! _); [by apply (row_ok_frame d)|].
    destruct Hf as (-> & _). done.
  - eapply rows_typed_insert; [done|done|done|exact Hs| |].
    { intros k' i Hne. rewrite Hr, lookup_insert_ne; [done|]. congruence. }
    intros _. rewrite Hsh. destruct Hf as (Hdef & _ & Ho). apply row_ok_succeeded; [|done|done|done| |].
    + unfold defined in *. by rewrite Hdef.
    + by apply (lineage_valid_keeps d).
    + by rewrite Hr, lookup_insert_eq.
  - eapply rows_typed_insert; [done|done|done|exact Hs|by intros; rewrite Hr|]. intros Hok.
    apply (row_ok_frame d); [done|done|]. by apply row_ok_failed.
  - eapply rows_typed_insert; [done|done|done|exact Hs|by intros; rewrite Hr|]. intros _.
    apply (row_ok_frame d); [done|done|]. unfold row_ok, row_lineage. cbn.
    split; [done|]. split; [lia|]. split; [by left|]. split; [done|]. by left.
  - eapply rows_typed_insert; [done|done|done|exact Hs|by intros; rewrite Hr|]. intros Hok.
    apply (row_ok_frame d); [done|done|]. by apply row_ok_misaligned.
Qed.

(** ** One execution at a time *)

(** Pending executions against the rows of their components. *)
Record executing (d : cdb) : Prop := {
  (** A pending execution runs, or failed before it was settled, at its component's shape and generation. *)
  pending_runs session k pe : pending d !! (session, k) = Some pe → ∃ r, states d !! k = Some r ∧
    st_lifecycle r ∈ ["running"; "failed"] ∧ st_shape r = pe_shape pe ∧ st_alignment r = pe_alignment pe;
  pending_unique s1 s2 k pe1 pe2 : pending d !! (s1, k) = Some pe1 → pending d !! (s2, k) = Some pe2 → s1 = s2;
  running_pending k r : states d !! k = Some r → st_lifecycle r = "running" →
    ∃ session pe, pending d !! (session, k) = Some pe
}.

Lemma executing_same d d' : states d' = states d → pending d' = pending d → executing d → executing d'.
Proof. intros Hs Hp [H1 H2 H3]. split; rewrite ?Hs, ?Hp; done. Qed.

(** A step of one component [k] is checked at [k] alone. *)
Lemma executing_at d d' k : executing d →
  (∀ k', k' ≠ k → states d' !! k' = states d !! k') →
  (∀ s k', k' ≠ k → pending d' !! (s, k') = pending d !! (s, k')) →
  (∀ s pe, pending d' !! (s, k) = Some pe → ∃ r, states d' !! k = Some r ∧
    st_lifecycle r ∈ ["running"; "failed"] ∧ st_shape r = pe_shape pe ∧ st_alignment r = pe_alignment pe) →
  (∀ s1 s2 pe1 pe2, pending d' !! (s1, k) = Some pe1 → pending d' !! (s2, k) = Some pe2 → s1 = s2) →
  (∀ r, states d' !! k = Some r → st_lifecycle r = "running" → ∃ s pe, pending d' !! (s, k) = Some pe) →
  executing d'.
Proof.
  intros [H1 H2 H3] Hs Hp K1 K2 K3. split.
  - intros s k' pe Hpe. destruct (decide (k' = k)) as [->|Hne]; [by eapply K1|].
    rewrite Hp in Hpe by done. rewrite Hs by done. by eapply H1.
  - intros s1 s2 k' pe1 pe2 Hp1 Hp2. destruct (decide (k' = k)) as [->|Hne]; [by eapply K2|].
    rewrite Hp in Hp1, Hp2 by done. by eapply H2.
  - intros k' r Hr Hl. destruct (decide (k' = k)) as [->|Hne]; [by eapply K3|]. rewrite Hs in Hr by done.
    destruct (H3 _ _ Hr Hl) as (s & pe & Hpe). exists s, pe. by rewrite Hp.
Qed.

Lemma executing_idle d k r : executing d → states d !! k = Some r → st_lifecycle r ∉ ["running"; "failed"] → no_pending d k.
Proof.
  intros He Hr Hl session. apply eq_None_not_Some. intros [pe Hpe].
  destruct (pending_runs d He _ _ _ Hpe) as (r' & Hr' & Hin & _). rewrite Hr in Hr'. by injection Hr' as <-.
Qed.

Lemma idle_not_started r : st_lifecycle r ∈ ["queued"; "sampled"] → st_lifecycle r ∉ ["running"; "failed"].
Proof.
  intros H Hin. apply list_elem_of_In in H, Hin. cbn in H, Hin.
  destruct H as [E|[E|[]]]; rewrite <- E in Hin; naive_solver.
Qed.

Lemma start_executing d d' session k r pe retained : executing d → states d !! k = Some r →
  (no_pending d k ∨ st_lifecycle r ∈ ["queued"; "sampled"]) → pe_alignment pe = st_alignment r →
  states d' = <[k := running_row r (pe_shape pe) retained]> (states d) →
  pending d' = <[(session, k) := pe]> (pending d) → executing d'.
Proof.
  intros He Hr Hno Ha Hs Hp. assert (no_pending d k) as Hn.
  { destruct Hno as [Hn|Hl]; [done|]. eapply executing_idle; [done|exact Hr|by apply idle_not_started]. }
  assert (∀ s pe', pending d' !! (s, k) = Some pe' → s = session ∧ pe' = pe) as Hone.
  { intros s pe'. rewrite Hp. destruct (decide (s = session)) as [->|Hne].
    - rewrite lookup_insert_eq. by intros [= <-].
    - rewrite lookup_insert_ne by congruence. by rewrite Hn. }
  apply (executing_at d d' k); [done|..].
  - intros k' Hne. by rewrite Hs, lookup_insert_ne.
  - intros s k' Hne. rewrite Hp, lookup_insert_ne; [done|congruence].
  - intros s pe' [-> ->]%Hone. rewrite Hs, lookup_insert_eq. eexists. split; [done|]. cbn. split; [by left|]. done.
  - intros s1 s2 pe1 pe2 [-> _]%Hone [-> _]%Hone. done.
  - intros _ _ _. exists session, pe. by rewrite Hp, lookup_insert_eq.
Qed.

(** The running execution leaves: nothing of it stays pending. *)
Lemma settle_executing d d' session k r r' pe : executing d → states d !! k = Some r →
  pending d !! (session, k) = Some pe → st_lifecycle r' ≠ "running" →
  states d' = <[k := r']> (states d) → pending d' = delete (session, k) (pending d) → executing d'.
Proof.
  intros He Hr Hpe Hl Hs Hp.
  assert (∀ s, pending d' !! (s, k) = None) as Hone.
  { intros s. apply eq_None_not_Some. intros [pe' Hpe']. rewrite Hp in Hpe'. apply lookup_delete_Some in Hpe' as [Hne Hpe'].
    apply Hne. by rewrite (pending_unique d He _ _ _ _ _ Hpe Hpe'). }
  apply (executing_at d d' k); [done|..].
  - intros k' Hne. by rewrite Hs, lookup_insert_ne.
  - intros s k' Hne. rewrite Hp, lookup_delete_ne; [done|congruence].
  - intros s pe'. by rewrite Hone.
  - intros s1 s2 pe1 pe2. by rewrite Hone.
  - intros r0. rewrite Hs, lookup_insert_eq. by intros [= <-].
Qed.

(** A row that does not run changes, keeping shape, generation and a failure. *)
Lemma row_executing d d' k r r' : executing d → states d !! k = Some r → st_lifecycle r' ≠ "running" →
  (no_pending d k ∨ st_lifecycle r' ∈ ["running"; "failed"] ∧ st_shape r' = st_shape r ∧ st_alignment r' = st_alignment r) →
  states d' = <[k := r']> (states d) → pending d' = pending d → executing d'.
Proof.
  intros He Hr Hl Hk Hs Hp. apply (executing_at d d' k); [done|..].
  - intros k' Hne. by rewrite Hs, lookup_insert_ne.
  - intros s k' _. by rewrite Hp.
  - intros s pe Hpe. rewrite Hp in Hpe. destruct Hk as [Hn|(Hin & Hsh & Ha)]; [by rewrite Hn in Hpe|].
    destruct (pending_runs d He _ _ _ Hpe) as (r0 & Hr0 & _ & E1 & E2). rewrite Hr in Hr0. injection Hr0 as <-.
    exists r'. rewrite Hs, lookup_insert_eq. split; [done|]. split; [done|]. by rewrite Hsh, Ha.
  - intros s1 s2 pe1 pe2 H1 H2. rewrite Hp in H1, H2. by eapply pending_unique.
  - intros r0. rewrite Hs, lookup_insert_eq. by intros [= <-].
Qed.

(** Recording readiness rewrites a pending row in place. *)
Lemma ready_executing d d' session k pe pe' : executing d → pending d !! (session, k) = Some pe →
  pe_shape pe' = pe_shape pe → pe_alignment pe' = pe_alignment pe →
  states d' = states d → pending d' = <[(session, k) := pe']> (pending d) → executing d'.
Proof.
  intros He Hpe E1 E2 Hs Hp.
  assert (∀ s k' x, pending d' !! (s, k') = Some x →
    ∃ y, pending d !! (s, k') = Some y ∧ pe_shape x = pe_shape y ∧ pe_alignment x = pe_alignment y) as Hback.
  { intros s k' x. rewrite Hp, lookup_insert_Some. intros [[[= <- <-] <-]|[_ H]]; eauto. }
  split.
  - intros s k' x (y & Hy & -> & ->)%Hback. rewrite Hs. by eapply pending_runs.
  - intros s1 s2 k' x1 x2 (y1 & H1 & _)%Hback (y2 & H2 & _)%Hback. by eapply pending_unique.
  - intros k' r Hr Hl. rewrite Hs in Hr. destruct (running_pending d He _ _ Hr Hl) as (s & y & Hy). rewrite Hp.
    exists s. destruct (decide ((s, k') = (session, k))) as [->|Hne]; [exists pe'; by rewrite lookup_insert_eq|].
    exists y. by rewrite lookup_insert_ne.
Qed.

Lemma transition_executing d d' : transition d d' → executing d → executing d'.
Proof.
  intros [d1 _ Hs Hp _|d1 session k r pe retained _ _ Hrow _ _ _ _ Hno _ Ha _ Hs Hp|d1 session k pe _ _ Hs Hpe Hp
    |d1 session k r pe lifecycle l _ Hrow _ Hpe _ _ _ _ _ Hl _ Hs _ Hp|d1 session k r _ Hrow _ _ Hs Hp
    |d1 k r shape _ Hrow _ Hn _ _ _ Hp Hs|d1 k r _ Hrow Hl _ Hp Hs] He.
  - by apply (executing_same d).
  - by eapply start_executing.
  - eapply ready_executing; [done|exact Hpe|..|exact Hs|exact Hp]; done.
  - eapply (settle_executing d _ _ _ _ _ _ He Hrow Hpe); [..|exact Hs|exact Hp]. cbn. intros ->.
    apply list_elem_of_In in Hl. cbn in Hl. naive_solver.
  - destruct Hp as [Hp|[[pe Hpe] Hp]].
    + eapply (row_executing d _ k r _ He Hrow); [..|exact Hs|exact Hp]; [done|]. right. cbn. split; [by right; left|]. done.
    + eapply settle_executing; [done|exact Hrow|exact Hpe| |exact Hs|exact Hp]. done.
  - eapply (row_executing d _ k r _ He Hrow); [..|exact Hs|exact Hp]; [done|by left].
  - eapply (row_executing d _ k r _ He Hrow); [..|exact Hs|exact Hp]; cbn.
    + intros E. rewrite E in Hl. apply list_elem_of_In in Hl. cbn in Hl. naive_solver.
    + destruct (decide (st_lifecycle r = "failed")) as [->|Hnf]; [right; split; [by right; left|done]|left].
      eapply executing_idle; [done|exact Hrow|]. intros Hin. apply list_elem_of_In in Hl, Hin. cbn in Hl, Hin.
      destruct Hl as [E|[E|[E|[]]]]; rewrite <- E in *; naive_solver.
Qed.

(** ** Along a run *)

Lemma run_transitions snapshot au d d' : definitions_sound snapshot d → rtc (life_step snapshot au) d d' → rtc transition d d'.
Proof.
  intros Hs H. revert Hs. induction H as [|d d1 d' Hstep _ IH]; intros Hs; [done|].
  pose proof (life_transitions snapshot au d d1 Hs Hstep) as Ht. etrans; [exact Ht|]. apply IH.
  clear -Ht Hs. induction Ht as [|a b c Hab _ IH]; [done|]. apply IH. eapply frame_sound; [by apply transition_frame|done].
Qed.

Lemma transitions_keep (P : cdb → Prop) d d' : (∀ a b, transition a b → P a → P b) → rtc transition d d' → P d → P d'.
Proof. intros Hp H. induction H; eauto. Qed.

Definition readable (snapshot : string → result ComponentTopologySnapshot) (d : cdb) : Prop :=
  ∀ m, valid_members m → is_ok (read_component_state_record snapshot d m false) = true.

(** C7: No transaction of the component lifecycle makes stored state unreadable.  Start
    from tables whose component definitions name components of their registered shapes and
    from which the state of every component can be read.  After any sequence of starts,
    selected starts, readiness records, settlements, failures, full preparations, managed
    arrivals, reservations, releases and holds, by any sessions and with any arguments,
    the definitions still do, and reading any component passes every check of the reader:
    the row's historical definition, its lifecycle against its lineage, and its retained
    success against the stored result of the same generation. *)
Theorem component_rows_typed snapshot au d d' :
  definitions_sound snapshot d → readable snapshot d → rtc (life_step snapshot au) d d' →
  definitions_sound snapshot d' ∧ readable snapshot d'.
Proof.
  intros Hs Hread Hrun%run_transitions; [|done].
  assert (definitions_sound snapshot d') as Hs'.
  { revert Hs. apply transitions_keep, Hrun. intros a b H%transition_frame. by apply frame_sound. }
  split; [done|]. unfold readable in *. apply (readable_iff snapshot d' Hs'). apply (readable_iff snapshot d Hs) in Hread.
  revert Hread. apply transitions_keep, Hrun. apply transition_typed.
Qed.

(** C8: A component never has two executions at once.  From tables where pending
    executions agree with their components' rows, after any sequence of lifecycle
    transactions a running component has exactly one pending execution, over all sessions,
    and that execution was started at the shape and alignment generation the component's
    row shows; a component that is queued, sampled or done has none. *)
Theorem execution_exclusive snapshot au d d' :
  definitions_sound snapshot d → executing d → rtc (life_step snapshot au) d d' →
  executing d' ∧
  ∀ k r, states d' !! k = Some r →
    (st_lifecycle r = "running" → ∃ session pe, pending d' !! (session, k) = Some pe ∧
       pe_shape pe = st_shape r ∧ pe_alignment pe = st_alignment r ∧
       ∀ other pe', pending d' !! (other, k) = Some pe' → other = session) ∧
    (st_lifecycle r ∈ ["queued"; "sampled"; "done"] → no_pending d' k).
Proof.
  intros Hs He Hrun%run_transitions; [|done].
  assert (executing d') as He'.
  { revert He. apply transitions_keep, Hrun. apply transition_executing. }
  split; [done|]. intros k r Hr. split.
  - intros Hl. destruct (running_pending d' He' _ _ Hr Hl) as (session & pe & Hpe). exists session, pe. split; [done|].
    destruct (pending_runs d' He' _ _ _ Hpe) as (r' & Hr' & _ & E1 & E2). rewrite Hr in Hr'. injection Hr' as <-.
    split; [done|]. split; [done|]. intros other pe' Hpe'. by eapply pending_unique.
  - intros Hl. eapply executing_idle; [done|exact Hr|]. intros Hin. apply list_elem_of_In in Hl, Hin. cbn in Hl, Hin.
    destruct Hl as [E|[E|[E|[]]]]; rewrite <- E in Hin; naive_solver.
Qed.

Module sample.
Definition k := encode_component_key ["a"].
Definition snap : ComponentTopologySnapshot := MkSnapshot "shape" [["a"]].
Definition decode (shape : string) : result ComponentTopologySnapshot :=
  if bool_decide (shape = "shape") then Ok snap else raise ValueError "not a shape".

(** No interrupts, thread overrides or selected jobs. *)
Definition au : authority := Authority (λ _ _ _, Ok ()) (λ _ _ _ _, Ok ()) (λ _ _ _, Ok ()) (λ d _ _, Ok (holds d))
  (λ _ _ _, false) (λ _ _, Ok false) (λ _ _ _ _ _ _, Ok ()) (λ _ _ _ _ _, raise RuntimeError "no selected jobs")
  (λ _ _, Ok ()) (λ _ _, Ok ()) (λ _ _, Ok true) (λ _ _ _ _ _, Ok ()).

Definition db0 : JobStore.db :=
  Db ∅ ∅ ∅ {["s" := SessionRow "run" "running" 1 None None None None "t0"]} {[("s", k)]} {[k := "s"]}
    {[1 := "shape"]} {[(k, 1)]} ∅ [] 0.

Definition d0 : cdb := Cdb db0 {["s" := SessionColumns "run" (Some 0) 1]}
  (Tables (Some 0) {[k := 0]} {["a" := k]})
  {[k := StateRow 1 None None "queued" None None 0 0]} ∅ ∅ ∅ ∅.

Definition d1 : cdb := set_pending {[("s", k) := PendingRow 1 1 0 0 "full" "queued" 0 (Some "stable") None]}
  (set_component_states {[k := StateRow 1 None None "running" None None 0 0]} d0).
Definition d2 : cdb := set_pending ∅ (set_component_results {[(k, (1, 0)) := ResultRow "done" (Some "stable") None]}
  (set_component_states {[k := StateRow 1 (Some 1) (Some 0) "done" (Some "stable") None 0 0]} d1)).

Lemma starts : _begin_component_execution decode au d0 "s" ["a"] "shape" 0 (Some (Some "stable", None)) [] None "queued"
  = Ok (d1, true).
Proof. vm_compute. reflexivity. Qed.

Lemma finishes : finish_successful_component_execution decode au d1 "s"
  (TerminalOutcome ["a"] "shape" 0 "done" (Some "stable", None)) None = Ok (d2, true).
Proof. vm_compute. reflexivity. Qed.

Lemma run : rtc (life_step decode au) d0 d2.
Proof.
  eapply rtc_l; [eapply (step_begin _ _ _ "s"); [|apply starts]; by left|].
  apply rtc_once. eapply step_finish, finishes.
Qed.

Lemma sound : definitions_sound decode d0.
Proof.
  intros k' s H. cbn [definitions base d0 db0] in H. apply elem_of_singleton in H as [= -> ->]. split; [done|]. exists "shape", snap, ["a"].
  split; [done|]. split; [done|]. split; [by left|]. split; [|done]. split; [done|]. split; [done|].
  by repeat constructor.
Qed.

Lemma typed : readable decode d0.
Proof.
  unfold readable. apply (readable_iff decode d0 sound). intros m Hm. cbn [states d0].
  destruct (decide (k = encode_component_key m)) as [<-|Hne].
  - rewrite lookup_singleton_eq. split; [by vm_compute|]. split; [done|].
    split; [by left|]. split; [done|]. by left.
  - rewrite lookup_singleton_ne by done. intros s H. cbn [definitions base d0 db0] in H. apply elem_of_singleton, (f_equal fst) in H. cbn in H. congruence.
Qed.

Lemma idle : executing d0.
Proof.
  split.
  - intros session k' pe H. cbn in H. by rewrite lookup_empty in H.
  - intros s1 s2 k' pe1 pe2 H. cbn in H. by rewrite lookup_empty in H.
  - intros k' r H Hl. cbn in H. apply lookup_singleton_Some in H as [_ <-]. done.
Qed.
End sample.

Lemma component_rows_typed_witness : readable sample.decode sample.d2.
Proof. exact (proj2 (component_rows_typed _ _ _ _ sample.sound sample.typed sample.run)). Defined.

Lemma execution_exclusive_witness : executing sample.d2.
Proof. exact (proj1 (execution_exclusive _ _ _ _ sample.sound sample.idle sample.run)). Defined.
