(* ===== verification/Sessions.v ===== *)
(** Execution sessions and their reserved scope ([storage/session_selection.py],
    [storage/session_scope.py], [session_liveness.py], parts of
    [storage/execution_sessions.py], [storage/sqlite/interrupt_schema.py]): the rows of
    sessions and of explicit interrupts, their readers, liveness, and the check that a
    session still owns, or lent, exactly the components it was admitted with.

    The tables extend those of [ComponentRows].  A row of [execution_sessions] is spread
    over three maps with the same keys: [sessions] of [JobStore], [columns] of
    [ComponentRows] and [details] here.  JSON texts are kept as texts. *)
From S2P Require Import Prelude Topology Membership JobStore ComponentRows ComponentLife.

#[local] Open Scope Z_scope.

(** ** Rows *)

(** The columns of [execution_sessions] other components do not read. *)
Record session_details := SessionDetails {
  sd_selection : string;
  sd_start : string;
  sd_finished : option string;
  sd_outcome : option string;
  sd_failures : string;
  sd_details : string
}.

(** A row of [interrupt_admissions]. *)
Record admission_row := AdmissionRow {
  ia_target : string;
  ia_requested : Z;
  ia_overridden : option Z;
  ia_state : string;
  ia_created : string;
  ia_shape : option Z;
  ia_alignment : option Z;
  ia_lineage : lineage;
  ia_frozen_at : option string;
  ia_settled_at : option string
}.

(** A row of [interrupt_scope_transfers], by child session and component key. *)
Record transfer_row := TransferRow {
  tr_source : string;
  tr_kind : string;
  tr_state : string;
  tr_created : string;
  tr_finished : option string
}.

(** A row of [interrupt_pause_requests], by child, owner and component key. *)
Record pause_row := PauseRow { pr_state : string; pr_created : string; pr_released : option string }.

(** A row of [interrupt_paused_executions], by child and execution. *)
Record paused_row := PausedRow {
  px_owner : string;
  px_component : string;
  px_addr : addr;
  px_generation : Z;
  px_acknowledged : option string
}.

(** A row of [interrupt_frozen_parent_states], by child and component key. *)
Record frozen_row := FrozenRow {
  fz_shape : Z;
  fz_lifecycle : string;
  fz_lineage : lineage;
  fz_misaligned : Z;
  fz_alignment : Z
}.

(** Component key, shape, generation and source session of a post-interrupt fence. *)
Definition fence : Type := string * (Z * Z) * string.

Record sdb := Sdb {
  core : cdb;
  details : gmap string session_details;
  (** [session_components.position], by session and component key. *)
  positions : gmap (string * string) Z;
  (** [session_jobs]: position and instance, by session and job. *)
  session_jobs : gmap (string * addr) (Z * string);
  (** [execution_session_parents]: creation time, by child and parent. *)
  parents : gmap (string * string) string;
  admissions : gmap string admission_row;
  transfers : gmap (string * string) transfer_row;
  pauses : gmap (string * string * string) pause_row;
  paused : gmap (string * string) paused_row;
  frozen : gmap (string * string) frozen_row;
  fences : gmap fence string;
  authorizations : gmap (string * fence) string;
  (** [pending_node_thread_overrides], by node. *)
  pending_overrides : gmap string Z;
  (** [node_thread_overrides], by node and session. *)
  node_overrides : gmap (string * string) Z;
  (** The singleton row of [api_thread_limit]. *)
  api_limit : option Z
}.

Definition set_core x s := Sdb x (details s) (positions s) (session_jobs s) (parents s) (admissions s) (transfers s) (pauses s) (paused s) (frozen s) (fences s) (authorizations s) (pending_overrides s) (node_overrides s) (api_limit s).
Definition set_details x s := Sdb (core s) x (positions s) (session_jobs s) (parents s) (admissions s) (transfers s) (pauses s) (paused s) (frozen s) (fences s) (authorizations s) (pending_overrides s) (node_overrides s) (api_limit s).
Definition set_positions x s := Sdb (core s) (details s) x (session_jobs s) (parents s) (admissions s) (transfers s) (pauses s) (paused s) (frozen s) (fences s) (authorizations s) (pending_overrides s) (node_overrides s) (api_limit s).
Definition set_session_jobs x s := Sdb (core s) (details s) (positions s) x (parents s) (admissions s) (transfers s) (pauses s) (paused s) (frozen s) (fences s) (authorizations s) (pending_overrides s) (node_overrides s) (api_limit s).
Definition set_parents x s := Sdb (core s) (details s) (positions s) (session_jobs s) x (admissions s) (transfers s) (pauses s) (paused s) (frozen s) (fences s) (authorizations s) (pending_overrides s) (node_overrides s) (api_limit s).
Definition set_admissions x s := Sdb (core s) (details s) (positions s) (session_jobs s) (parents s) x (transfers s) (pauses s) (paused s) (frozen s) (fences s) (authorizations s) (pending_overrides s) (node_overrides s) (api_limit s).
Definition set_transfers x s := Sdb (core s) (details s) (positions s) (session_jobs s) (parents s) (admissions s) x (pauses s) (paused s) (frozen s) (fences s) (authorizations s) (pending_overrides s) (node_overrides s) (api_limit s).
Definition set_pauses x s := Sdb (core s) (details s) (positions s) (session_jobs s) (parents s) (admissions s) (transfers s) x (paused s) (frozen s) (fences s) (authorizations s) (pending_overrides s) (node_overrides s) (api_limit s).
Definition set_paused x s := Sdb (core s) (details s) (positions s) (session_jobs s) (parents s) (admissions s) (transfers s) (pauses s) x (frozen s) (fences s) (authorizations s) (pending_overrides s) (node_overrides s) (api_limit s).
Definition set_frozen x s := Sdb (core s) (details s) (positions s) (session_jobs s) (parents s) (admissions s) (transfers s) (pauses s) (paused s) x (fences s) (authorizations s) (pending_overrides s) (node_overrides s) (api_limit s).
Definition set_fences x s := Sdb (core s) (details s) (positions s) (session_jobs s) (parents s) (admissions s) (transfers s) (pauses s) (paused s) (frozen s) x (authorizations s) (pending_overrides s) (node_overrides s) (api_limit s).
Definition set_authorizations x s := Sdb (core s) (details s) (positions s) (session_jobs s) (parents s) (admissions s) (transfers s) (pauses s) (paused s) (frozen s) (fences s) x (pending_overrides s) (node_overrides s) (api_limit s).

Definition set_overrides (ps : gmap string Z) (ns : gmap (string * string) Z) (l : option Z) s := Sdb (core s) (details s) (positions s) (session_jobs s) (parents s) (admissions s) (transfers s) (pauses s) (paused s) (frozen s) (fences s) (authorizations s) ps ns l.

(** The job tables below. *)
Definition jobs_db (s : sdb) : JobStore.db := base (core s).
Definition set_jobs_db x s := set_core (set_base x (core s)) s.

Definition session_status (s : sdb) (x : string) : option string := s_status <$> sessions (jobs_db s) !! x.
Definition running (s : sdb) (x : string) : bool := bool_decide (session_status s x = Some "running").
Definition selects (s : sdb) (x k : string) : bool := bool_decide ((x, k) ∈ session_components (jobs_db s)).
Definition scope_admitted (s : sdb) (x : string) : option Z := sc_scope_admitted <$> columns (core s) !! x.

(** ** Liveness ([session_liveness.py]) *)

(** What a process can observe of its host; [elapsed] gives the microseconds since an ISO
    time and nothing for a text that is not one. *)
Record host := Host {
  hostname : string;
  pid_alive : option Z → bool;
  identity_of : option Z → option string;
  elapsed : string → option Z
}.

Record liveness := Liveness {
  lv_live : bool;
  lv_reason : string;
  lv_same_host : option bool;
  lv_pid_live : option bool;
  lv_identity : option bool;
  lv_age : option Z
}.

Definition DEFAULT_HEARTBEAT_STALE_MICROSECONDS := 15000000.

Definition execution_session_liveness (h : host) (stale_after : Z) (state : session_row) : liveness :=
  if negb (bool_decide (s_status state = "running"))
  then Liveness false "no running sequence is recorded" None None None None else
  let same_host := bool_decide (s_hostname state ∈ [None; Some ""; Some (hostname h)]) in
  let pid_live := if same_host then Some (pid_alive h (s_pid state)) else None in
  let alive := bool_decide (pid_live = Some true) in
  let current := if same_host && alive && bool_decide (is_Some (s_identity state))
                 then identity_of h (s_pid state) else None in
  let identity_matches := (λ i, bool_decide (current = Some i)) <$> s_identity state in
  let beat := match s_heartbeat state with Some t => if bool_decide (t = "") then s_started state else t
              | None => s_started state end in
  let age := Z.max 0 <$> elapsed h beat in
  let fresh := match age with Some a => a <=? stale_after | None => false end in
  if same_host && alive && bool_decide (identity_matches = Some true)
  then Liveness true "the recorded process instance is alive" (Some true) (Some true) (Some true) age
  else if same_host && alive && bool_decide (s_identity state = None) && (bool_decide (age = None) || fresh)
  then Liveness true "the recorded PID is alive and its heartbeat is not stale" (Some true) (Some true) None age
  else if negb same_host && fresh
  then Liveness true "the run belongs to another host and its heartbeat is fresh" (Some false) None None age
  else
    let reason :=
      if same_host && alive && bool_decide (identity_matches = Some false)
      then "the recorded PID belongs to a different process instance"
      else if same_host && alive && bool_decide (s_identity state = None) && negb fresh
      then "the session heartbeat is stale; PID existence alone is ambiguous"
      else if same_host && bool_decide (pid_live = Some false) then "the recorded process is no longer alive"
      else if negb same_host then "the other host heartbeat is stale"
      else "the run heartbeat is stale or missing" in
    Liveness false reason (Some same_host) pid_live identity_matches age.

Definition live (h : host) (row : session_row) : bool :=
  lv_live (execution_session_liveness h DEFAULT_HEARTBEAT_STALE_MICROSECONDS row).

(** ** Selection ([session_selection.py]) *)

Definition _stored_session_component (k : string) : result key :=
  on_value_error
    (let! component := decode_component_key k in
     check! negb (bool_decide (component = [])) && bool_decide (encode_component_key component = k)
       orelse ValueError saying "Noncanonical component key" in
     let! _ := rmap validate_node_name component in
     Ok component)
    "Damaged selected component declaration".

(** [SELECT position, component_key ... ORDER BY position]. *)
Definition component_rows_of (s : sdb) (x : string) : list (Z * string) :=
  sort_by fst ((λ q : string * string, (default 0 (positions s !! q), q.2)) <$>
    elements (filter (λ q : string * string, q.1 = x) (session_components (jobs_db s)))).

Fixpoint read_components (position : Z) (nodes : gset string) (rows : list (Z * string)) : result (list key) :=
  match rows with
  | [] => Ok []
  | (p, k) :: rows =>
      let! component := _stored_session_component k in
      check! (p =? position) && negb (existsb (λ n, bool_decide (n ∈ nodes)) component)
        orelse RuntimeError saying "Damaged selected component scope" in
      let! rest := read_components (position + 1) (list_to_set component ∪ nodes) rows in
      Ok (component :: rest)
  end.

Definition _read_session_components (s : sdb) (x : string) : result (list key) :=
  read_components 0 ∅ (component_rows_of s x).

(** [SELECT ... FROM session_jobs ... ORDER BY position]. *)
Definition job_rows_of (s : sdb) (x : string) : list (Z * (addr * string)) :=
  sort_by fst ((λ q : (string * addr) * (Z * string), (q.2.1, (q.1.2, q.2.2))) <$>
    map_to_list (filter (λ q : (string * addr) * (Z * string), q.1.1 = x) (session_jobs s))).

Fixpoint read_roots (position : Z) (nodes : gset string) (rows : list (Z * (addr * string)))
  : result (list (addr * string)) :=
  match rows with
  | [] => Ok []
  | (p, (a, instance)) :: rows =>
      let! _ := on_value_error (validate_node_name a.1) "Damaged selected job node" in
      check! bool_decide (a.1 ∈ nodes) && (p =? position) && (1 <=? a.2) && valid_instance instance
        orelse RuntimeError saying "Damaged selected job identity" in
      let! rest := read_roots (position + 1) nodes rows in
      Ok ((a, instance) :: rest)
  end.

Definition _read_session_job_roots (s : sdb) (x : string) (components : option (list key)) : result (list (addr * string)) :=
  let rows := job_rows_of s x in
  let selection := sd_selection <$> details s !! x in
  check! bool_decide (selection ∈ [Some "components"; Some "jobs"])
         && bool_decide (bool_decide (selection = Some "jobs") = negb (bool_decide (rows = [])))
    orelse RuntimeError saying "Damaged selected job scope" in
  let! components := match components with Some cs => Ok cs | None => _read_session_components s x end in
  let! start := _stored_session_component (default "" (sd_start <$> details s !! x)) in
  check! bool_decide (start ∈ components) orelse RuntimeError saying "Session start is outside selected components" in
  read_roots 0 (nodes_of components) rows.

(** [read_session_parent_ids]. *)
Definition read_session_parent_ids (s : sdb) (x : string) : list string :=
  py_sorted ((λ q : (string * string) * string, q.1.2) <$>
    map_to_list (filter (λ q : (string * string) * string, q.1.1 = x) (parents s))).

(** ** Reserved scope ([session_scope.py]) *)

(** The running interrupts a component was lent to by a session. *)
Definition active_children (s : sdb) (source k : string) : list string :=
  omap (λ q : (string * string) * transfer_row,
    if bool_decide (q.1.2 = k) && bool_decide (tr_source q.2 = source) && bool_decide (tr_state q.2 = "active")
       && running s q.1.1 && bool_decide (scope_admitted s q.1.1 = Some 1) && selects s q.1.1 k
       && bool_decide (is_Some (admissions s !! q.1.1))
    then Some q.1.1 else None)
  (map_to_list (transfers s)).

(** The walk along transfers; [fuel] bounds the sessions it can visit. *)
Fixpoint descends (fuel : nat) (s : sdb) (k owner : string) (seen : gset string) (current : string) : result bool :=
  if bool_decide (current = owner) then Ok true else
  check! negb (bool_decide (current ∈ seen)) orelse RuntimeError saying "Interrupt reservation transfer chain contains a cycle" in
  match fuel with
  | O => raise UserError "out of fuel"
  | S fuel =>
      match active_children s current k with
      | [child] => descends fuel s k owner ({[current]} ∪ seen) child
      | _ => Ok false
      end
  end.

Definition _reservation_descends_from (s : sdb) (source k owner : string) : result bool :=
  descends (S (size (sessions (jobs_db s)))) s k owner ∅ source.

(** The component keys a session selected, in order. *)
Definition selected_keys_of (s : sdb) (x : string) : list string := (component_rows_of s x).*2.

Definition owned_keys (s : sdb) (x : string) : list string :=
  py_sorted ((λ q : string * string, q.1) <$>
    map_to_list (filter (λ q : string * string, q.2 = x) (reservations (jobs_db s)))).

Definition transferred_keys (s : sdb) (x : string) : list string :=
  (λ q : string * string, q.1) <$> py_sorted (omap (λ q : (string * string) * transfer_row,
    if bool_decide (tr_source q.2 = x) && bool_decide (tr_state q.2 = "active") then Some (q.1.2, q.1.1) else None)
  (map_to_list (transfers s))).

Definition require_admitted_reservation_scope (s : sdb) (x : string) : result bool :=
  let marker := scope_admitted s x in
  check! running s x && bool_decide (marker ∈ [Some 0; Some 1])
    orelse RuntimeError saying "Execution session has invalid reservation admission state" in
  let selected := selected_keys_of s x in
  check! negb (bool_decide (selected = [])) orelse RuntimeError saying "Execution session has no selected reservation scope" in
  let owned := owned_keys s x in
  let transferred := transferred_keys s x in
  if decide (marker = Some 0) then
    check! bool_decide (owned = []) && bool_decide (transferred = [])
      orelse RuntimeError saying "Unadmitted execution session unexpectedly owns component scope" in
    Ok false
  else
    check! bool_decide (NoDup (owned ++ transferred))
           && bool_decide (list_to_set (owned ++ transferred) =@{gset string} list_to_set selected)
      orelse RuntimeError saying "Execution session reservation cleanup differs from its admitted scope" in
    let! _ := rmap (λ k,
      let! descends := match reservations (jobs_db s) !! k with
                       | None => Ok false
                       | Some owner => _reservation_descends_from s x k owner
                       end in
      check! descends orelse RuntimeError saying "Execution session reservation cleanup lost its admitted transfer chain" in
      Ok ()) selected in
    Ok true.

(** ** Reading and ending sessions ([execution_sessions.py]) *)

Record session_view := SessionView {
  sv_row : session_row;
  sv_columns : session_columns;
  sv_details : session_details;
  sv_start : key;
  sv_components : list key;
  sv_roots : list (addr * string);
  sv_parents : list string
}.

Section sessions.
Context (component_snapshot_from_shape : string → result ComponentTopologySnapshot).
(** [datetime.fromisoformat] accepts the text; the text is JSON. *)
Context (is_isoformat is_json : string → bool).

(** [execution_session_from_row_snapshot]. *)
Definition execution_session_from_row_snapshot (s : sdb) (x : string) : result session_view :=
  match sessions (jobs_db s) !! x, columns (core s) !! x, details s !! x with
  | Some row, Some c, Some dt =>
      let! view := on_value_error
        (check! bool_decide (sc_scope_admitted c ∈ [0; 1]) orelse ValueError saying "Invalid reservation admission state" in
         let! start := _stored_session_component (sd_start dt) in
         check! is_json (sd_failures dt) && is_json (sd_details dt) orelse ValueError saying "invalid JSON" in
         let! cs := _read_session_components s x in
         let! roots := _read_session_job_roots s x (Some cs) in
         Ok (SessionView row c dt start cs roots (read_session_parent_ids s x)))
        "Damaged execution session" in
      match sc_revision c with
      | None => raise RuntimeError "Session has an invalid admitted membership identity"
      | Some rev =>
          let! _ := validate_session_shape_snapshot component_snapshot_from_shape (core s) (s_shape row) rev (sv_components view) in
          Ok view
      end
  | _, _, _ => raise TypeError "no session row"
  end.

Definition _session_time (value : string) : result () :=
  let! _ := _session_text value in
  check! is_isoformat value orelse ValueError saying "must be an ISO timestamp" in
  Ok ().

(** [validate_execution_session_snapshot]; [failures_empty] and the like of the decoded
    JSON columns are columns themselves here. *)
Definition validate_execution_session_snapshot (is_list is_object is_empty_list : string → bool) (x : string) (v : session_view) : result () :=
  on_value_error
    (let! _ := _session_text x in
     let! _ := _session_text (sc_command (sv_columns v)) in
     let! _ := _session_text (default "" (s_hostname (sv_row v))) in
     let! _ := _session_time (s_started (sv_row v)) in
     let! _ := _session_time (default "" (s_heartbeat (sv_row v))) in
     check! bool_decide (s_kind (sv_row v) ∈ ["main"; "interrupt"]) orelse ValueError saying "Invalid session kind" in
     check! bool_decide (sv_parents v = py_sorted_set (sv_parents v)) orelse ValueError saying "Invalid parent sessions" in
     let! _ := rmap _session_text (sv_parents v) in
     check! negb (bool_decide (x ∈ sv_parents v))
            && (bool_decide (sv_parents v = []) || bool_decide (s_kind (sv_row v) = "interrupt"))
       orelse ValueError saying "Invalid parent sessions" in
     check! bool_decide (sd_selection (sv_details v) ∈ ["components"; "jobs"])
       orelse ValueError saying "Invalid session selection kind" in
     check! bool_decide (s_status (sv_row v) ∈ ["running"; "terminal"]) orelse ValueError saying "Invalid session status" in
     check! 1 <=? default 0 (s_pid (sv_row v)) orelse ValueError saying "Session PID must be a positive integer" in
     let! _ := match s_identity (sv_row v) with Some i => _session_text i | None => Ok () end in
     check! is_list (sd_failures (sv_details v)) orelse ValueError saying "Session failures must be an ordered list" in
     check! is_object (sd_details (sv_details v)) orelse ValueError saying "Session details must be an object" in
     if decide (s_status (sv_row v) = "running") then
       check! bool_decide (sd_finished (sv_details v) = None) && bool_decide (sd_outcome (sv_details v) = None)
              && is_empty_list (sd_failures (sv_details v))
         orelse ValueError saying "Running session has terminal fields" in
       Ok ()
     else
       let! _ := _session_time (default "" (sd_finished (sv_details v))) in
       _session_text (default "" (sd_outcome (sv_details v))))
    "Damaged execution session".

(** [heartbeat_execution_session]: whether a running session took it. *)
Definition heartbeat_execution_session (s : sdb) (x at_ : string) : result (sdb * bool) :=
  let! _ := _session_text x in
  let! _ := _session_time at_ in
  if running s x then
    let d := jobs_db s in
    Ok (set_jobs_db (set_sessions (alter (λ r, SessionRow (s_kind r) (s_status r) (s_shape r) (s_hostname r) (s_pid r)
          (s_identity r) (Some at_) (s_started r)) x (sessions d)) d) s, true)
  else Ok (s, false).

(** The terminal columns of a session that ends. *)
Definition end_session (x outcome finished_at failures : string) (new_details : option string) (s : sdb) : sdb :=
  let d := jobs_db s in
  set_details (alter (λ dt, SessionDetails (sd_selection dt) (sd_start dt) (Some finished_at) (Some outcome) failures
      (default (sd_details dt) new_details)) x (details s))
    (set_jobs_db (set_sessions (alter (λ r, SessionRow (s_kind r) "terminal" (s_shape r) (s_hostname r) (s_pid r)
      (s_identity r) (s_heartbeat r) (s_started r)) x (sessions d)) d) s).

(** [finish_execution_session]. *)
Definition finish_execution_session (s : sdb) (x outcome finished_at failures : string) : result (sdb * bool) :=
  let! _ := _session_text x in
  let! _ := _session_time finished_at in
  check! negb (bool_decide (strip outcome = "")) orelse ValueError saying "A terminal session needs a nonempty outcome" in
  if negb (running s x) then Ok (s, false) else
  check! bool_decide (admissions s !! x = None)
    orelse RuntimeError saying "Explicit interrupt sessions require atomic component and scope settlement" in
  let! _ := require_admitted_reservation_scope s x in
  Ok (end_session x outcome finished_at failures None s, true).
End sessions.
