(* ===== verification/Sampling.v ===== *)
(** Sample selection ([sample_selection.py], [storage/sample_planning.py],
    [storage/sample_history.py]): which jobs of a starting component a sampled run takes,
    the plan recorded with its digests, its validation when a session is admitted, and its
    reading back from the details of the session.

    A plan read back from JSON holds what the text held, so its fields are JSON values, and
    the validation checks their types as the code does.  Files under a node are read by
    arguments: the digest of a job's input and the files a node receives. *)
From S2P Require Import Prelude Json JsonText Sha256 Topology Membership JobStore ComponentRows ComponentLife Sessions.

#[local] Open Scope Z_scope.

(** ** Selectors ([sample_selection.py]) *)

Definition SAMPLE_ALGORITHM : string := "mwf.sample.v1".

(** Kind ([count] or [percentage]) and value. *)
Definition selector : Type := string * Z.

(** [token.rsplit('=', 1)], when there is an equals sign. *)
Fixpoint rsplit_equals (s : string) : option (string * string) :=
  match s with
  | EmptyString => None
  | String c s =>
      match rsplit_equals s with
      | Some (a, b) => Some (String c a, b)
      | None => if bool_decide (c = "="%char) then Some ("", s) else None
      end
  end.

(** A text with a last character, split before it. *)
Fixpoint split_last (s : string) : option (string * ascii) :=
  match s with
  | EmptyString => None
  | String c EmptyString => Some ("", c)
  | String c s => match split_last s with Some (t, d) => Some (String c t, d) | None => None end
  end.

Definition is_percentage (token : string) : bool := bool_decide (snd <$> split_last token = Some "%"%char).

Definition selector_value (kind token : string) : option Z :=
  py_int (if bool_decide (kind = "percentage") then match split_last token with Some (t, _) => t | None => "" end else token).

(** One assignment to a member. *)
Definition assign (kind : string) (acc : gmap string selector * gset string) (a : string * string)
  : result (gmap string selector * gset string) :=
  let '(member, token) := a in
  check! bool_decide (is_Some (acc.1 !! member)) orelse ValueError saying "Sample assignment is outside the starting component" in
  check! negb (bool_decide (member ∈ acc.2)) orelse ValueError saying "Duplicate sample assignment" in
  check! bool_decide (is_percentage token = bool_decide (kind = "percentage"))
    orelse ValueError saying "Use one selector kind throughout a sample request" in
  match selector_value kind token with
  | None => raise ValueError "invalid literal for int() with base 10"
  | Some v =>
      check! negb ((v <? 0) || (bool_decide (kind = "percentage") && (100 <? v)))
        orelse ValueError saying "Sample counts must be nonnegative and percentages must be between 0 and 100" in
      Ok (<[member := (kind, v)]> acc.1, {[member]} ∪ acc.2)
  end.

Definition assignments (start : string) (tokens : list string) : list (string * string) :=
  match tokens with
  | token :: _ => match rsplit_equals token with None => [(start, token)] | Some _ => omap rsplit_equals tokens end
  | [] => []
  end.

Definition parse_sample_selectors (start : string) (members tokens : list string) : result (gmap string selector) :=
  check! bool_decide (start ∈ members) orelse ValueError saying "Sample start node is outside the starting component" in
  match tokens with
  | [] => raise ValueError "Use one shorthand selector or named component-member assignments"
  | token :: rest =>
      let named := bool_decide (is_Some (rsplit_equals token)) in
      check! named || bool_decide (rest = [])
        orelse ValueError saying "Use one shorthand selector or named component-member assignments" in
      check! negb named || forallb (λ t, bool_decide (is_Some (rsplit_equals t))) tokens
        orelse ValueError saying "Use a named assignment for every requested member" in
      let kind := match assignments start tokens with
                  | (_, token) :: _ => if is_percentage token then "percentage" else "count"
                  | [] => "count"
                  end in
      let! r := rfold (assign kind) (list_to_map ((λ m, (m, (kind, 0))) <$> members), ∅) (assignments start tokens) in
      Ok r.1
  end.

Definition sample_count (sel : selector) (population : Z) : result Z :=
  let '(kind, value) := sel in
  check! 0 <=? population orelse ValueError saying "Sample population must be a nonnegative integer" in
  check! negb ((value <? 0) || (bool_decide (kind = "percentage") && (100 <? value)))
    orelse ValueError saying "Sample counts must be nonnegative integers and percentages must be between 0 and 100" in
  if decide (kind = "count") then
    check! value <=? population orelse ValueError saying "Sample count exceeds filtered population" in
    Ok value
  else if decide (kind = "percentage") then Ok ((value * population + 99) / 100)
  else raise ValueError "Unsupported sample selector kind".

Definition filter_sample_population {A} (status : A → string) (candidates : list A) (statuses : list string) : list A :=
  filter (λ c, statuses = [] ∨ status c ∈ statuses) candidates.

(** ** Ranking *)

Definition nul : string := String "000" "".

Fixpoint has_nul (s : string) : bool :=
  match s with EmptyString => false | String c s => bool_decide (c = "000"%char) || has_nul s end.

Definition nonempty_text (s : string) : bool := negb (bool_decide (s = "")) && negb (has_nul s).

(** What the candidates of a node are ranked by; [identity] are the bytes of the candidate. *)
Definition rank (node seed : string) (c : Z * string) : string * Z :=
  (digest (SAMPLE_ALGORITHM ++ nul ++ utf8 seed ++ nul ++ utf8 node ++ nul ++ c.2)%string, c.1).

(** [select_sample_ids]; [heapq.nsmallest] is a sort cut off. *)
Definition select_sample_ids (node : string) (candidates : list (Z * string)) (count : Z) (seed : string) : result (list Z) :=
  let! _ := sample_count ("count", count) (Z.of_nat (length candidates)) in
  check! nonempty_text seed orelse ValueError saying "Sample seed must be nonempty and contain no NUL characters" in
  check! nonempty_text node orelse ValueError saying "Sample node must be nonempty and contain no NUL characters" in
  check! bool_decide (NoDup candidates.*2) orelse ValueError saying "Each sample candidate must have distinct identity bytes" in
  Ok (py_sorted (fst <$> take (Z.to_nat count) (sort_by (rank node seed) candidates))).

(** The fixed selections of the test suite, computed there by another SHA-256. *)
Definition twelve (offset : Z) : list (Z * string) := (λ i, (i + offset, dump_int i)) <$> [12; 11; 10; 9; 8; 7; 6; 5; 4; 3; 2; 1].

Example select_acceptance : select_sample_ids "X" (twelve 0) 3 "acceptance" = Ok [3; 4; 5].
Proof. vm_compute. reflexivity. Qed.

Example select_other_node : select_sample_ids "Y" (twelve 0) 3 "acceptance" = Ok [1; 4; 10].
Proof. vm_compute. reflexivity. Qed.

Example select_other_seed : select_sample_ids "Y" (twelve 0) 3 "other" = Ok [8; 11; 12].
Proof. vm_compute. reflexivity. Qed.

Example select_by_identity : select_sample_ids "X" (twelve 100) 3 "acceptance" = Ok [103; 104; 105].
Proof. vm_compute. reflexivity. Qed.

Definition starting_population_is_fully_selected (population selected : gmap string Z) : result bool :=
  check! bool_decide (dom population = dom selected)
    orelse ValueError saying "Starting population and selection must name the same members" in
  let! _ := rmap (λ q : string * Z, sample_count ("count", selected !!! q.1) q.2) (map_to_list population) in
  Ok (existsb (λ q : string * Z, negb (q.2 =? 0)) (map_to_list selected)
      && forallb (λ q : string * Z, selected !!! q.1 =? q.2) (map_to_list population)).

(** ** Plans ([sample_planning.py]) *)

(** [_digest]. *)
Definition _digest (kind : string) (value : json) : string :=
  ("sha256:" ++ hexdigest (kind ++ nul ++ utf8 (dumps false "," ":" (sort_keys value))))%string.

(** [value.split(',')]. *)
Fixpoint split_comma (s : string) : list string :=
  match s with
  | EmptyString => [""]
  | String c s =>
      if bool_decide (c = ","%char) then "" :: split_comma s
      else match split_comma s with [] => [] | t :: ts => String c t :: ts end
  end.

Definition JOB_VALID_STATUSES : list string := [QUEUED; RUNNING; DONE; FAILED; CANCELLED; SKIPPED].

Definition parse_sample_statuses (value : option string) : result (list string) :=
  match value with
  | None => Ok []
  | Some v =>
      let statuses := py_sorted_set ((λ p, lower (strip p)) <$> filter (λ p, strip p ≠ "") (split_comma v)) in
      check! negb (bool_decide (statuses = [])) orelse ValueError saying "--status requires one or more comma-separated job statuses" in
      check! forallb (λ t, bool_decide (t ∈ JOB_VALID_STATUSES)) statuses orelse ValueError saying "Unknown sample status" in
      Ok statuses
  end.

Record SampleMember := MkSampleMember {
  m_node : string;
  m_selector : json * json;
  m_starting_jobs : list dict;
  m_population : list dict;
  m_selected_job_ids : list json;
  m_starting_jobs_digest : json;
  m_population_digest : json;
  m_input_digest : json
}.

Record SamplePlan := MkSamplePlan {
  p_node : json;
  p_selectors : list json;
  p_seed : json;
  p_statuses : list json;
  p_members : list SampleMember;
  p_shape : json;
  p_combined_digest : json
}.

(** [SampleMember.manifest]. *)
Definition member_manifest (m : SampleMember) : json := JObj [
  ("selector", JObj [("kind", (m_selector m).1); ("value", (m_selector m).2)]);
  ("starting_jobs", JArr (JObj <$> m_starting_jobs m));
  ("starting_jobs_digest", m_starting_jobs_digest m);
  ("population_count", JInt (Z.of_nat (length (m_population m))));
  ("population", JArr (JObj <$> m_population m));
  ("selected_job_ids", JArr (m_selected_job_ids m));
  ("population_digest", m_population_digest m);
  ("input_digest", m_input_digest m)].

(** A dictionary comprehension over the members: a later entry replaces an earlier one. *)
Definition per_member (f : SampleMember → Z) (ms : list SampleMember) : gmap string Z :=
  foldl (λ acc m, <[m_node m := f m]> acc) ∅ ms.

Definition full_starting_coverage (p : SamplePlan) : result bool :=
  starting_population_is_fully_selected (per_member (λ m, Z.of_nat (length (m_population m))) (p_members p))
    (per_member (λ m, Z.of_nat (length (m_selected_job_ids m))) (p_members p)).

(** [SamplePlan.manifest]. *)
Definition manifest (p : SamplePlan) (sample_id : json) : result json :=
  let! full := full_starting_coverage p in
  Ok (JObj [("kind", JStr "sample"); ("algorithm", JStr SAMPLE_ALGORITHM); ("sample_id", sample_id);
    ("seed", p_seed p); ("node", p_node p); ("selectors", JArr (p_selectors p)); ("status_filter", JArr (p_statuses p));
    ("shape", p_shape p); ("members", JObj (dict_of ((λ m, (m_node m, member_manifest m)) <$> p_members p)));
    ("combined_digest", p_combined_digest p); ("full_starting_coverage", JBool full)]).

(** ** Validation at admission *)

(** A job observation after [_validate_candidate_identity]. *)
Record candidate := Candidate { c_id : Z; c_instance : string; c_status : string; c_generation : Z }.

#[export] Instance candidate_eq_dec : EqDecision candidate.
Proof. solve_decision. Defined.

Definition _validate_candidate_identity (d : dict) : result candidate :=
  match dict_get "job_id" d, dict_get "job_instance_id" d, dict_get "status" d, dict_get "generation" d with
  | Some i, Some u, Some t, Some g =>
      match i, u, t, g with
      | JInt i, JStr u, JStr t, JInt g =>
          check! (1 <=? i) && valid_instance u && bool_decide (t ∈ JOB_VALID_STATUSES) && (0 <=? g)
            orelse ValueError saying "Sample job observation identity is invalid" in
          Ok (Candidate i u t g)
      | _, _, _, _ => raise ValueError "Sample job observation identity is invalid"
      end
  | _, _, _, _ => raise KeyError "job_id"
  end.

Definition has_fields (fields : list string) (d : dict) : bool := bool_decide (list_to_set d.*1 =@{gset string} list_to_set fields).

Definition starting_fields : list string := ["job_id"; "job_instance_id"; "status"; "generation"].

Definition _require_digest (value : option json) : result () :=
  match value with
  | Some (JStr t) =>
      match strip_prefix "sha256:" t with
      | Some hex =>
          check! (String.length hex =? 64)%nat && forallb is_hex (list_ascii_of_string hex)
            orelse ValueError saying "Sample digest is invalid" in
          Ok ()
      | None => raise ValueError "Sample digest is invalid"
      end
  | _ => raise ValueError "Sample digest is invalid"
  end.

Definition starting_job (d : dict) : result candidate :=
  check! has_fields starting_fields d orelse ValueError saying "Sample starting job observation is invalid" in
  _validate_candidate_identity d.

(** [starting_by_id.get(job_id)]: the last observation of the job. *)
Definition starting_by_id (cs : list candidate) (i : Z) : option candidate := last (filter (λ c, c_id c = i) cs).

Definition population_job (starting : list candidate) (d : dict) : result candidate :=
  check! has_fields ("input_digest" :: starting_fields) d orelse ValueError saying "Sample population candidate is invalid" in
  let! c := _validate_candidate_identity d in
  let! _ := _require_digest (dict_get "input_digest" d) in
  check! bool_decide (starting_by_id starting (c_id c) = Some c)
    orelse ValueError saying "Sample population differs from its starting job observation" in
  Ok c.

Definition ordered_ids (ids : list Z) : bool := bool_decide (ids = py_sorted ids) && bool_decide (NoDup ids).

(** The validation of one member; [parsed] are the selectors of the request. *)
Definition check_member (parsed : gmap string selector) (statuses : list string) (seed : string) (m : SampleMember) : result () :=
  check! match m_selector m, parsed !! m_node m with
         | (JStr kind, JInt value), Some sel => bool_decide (sel = (kind, value))
         | _, _ => false
         end
    orelse ValueError saying "Sample member selector differs from the request" in
  let! starting := rmap starting_job (m_starting_jobs m) in
  check! ordered_ids (c_id <$> starting) orelse ValueError saying "Sample starting jobs must be distinct and ordered" in
  check! bool_decide (m_starting_jobs_digest m = JStr (_digest "mwf.sample.starting-jobs.v1" (JArr (JObj <$> m_starting_jobs m))))
    orelse ValueError saying "Sample starting job digest is invalid" in
  let! population := rmap (population_job starting) (m_population m) in
  check! ordered_ids (c_id <$> population) orelse ValueError saying "Sample population jobs must be distinct and ordered" in
  check! bool_decide (c_id <$> population = c_id <$> filter_sample_population c_status starting statuses)
    orelse ValueError saying "Sample population does not match its status-filtered starting jobs" in
  check! forallb (λ i, match i with JInt _ => true | _ => false end) (m_selected_job_ids m)
    orelse ValueError saying "Selected sample jobs must be immutable exact integers" in
  let! count := match parsed !! m_node m with
                | Some sel => sample_count sel (Z.of_nat (length population))
                | None => raise KeyError "member"
                end in
  let! expected := select_sample_ids (m_node m) ((λ c, (c_id c, c_instance c)) <$> population) count seed in
  check! bool_decide (m_selected_job_ids m = JInt <$> expected)
    orelse ValueError saying "Selected sample jobs differ from the recorded population" in
  check! bool_decide (m_population_digest m = JStr (_digest "mwf.sample.population.v1" (JArr (JObj <$> m_population m))))
    orelse ValueError saying "Sample population digest is invalid" in
  _require_digest (Some (m_input_digest m)).

Definition combined_digest (shape : json) (statuses : list json) (ms : list SampleMember) : string :=
  _digest "mwf.sample.drift.v1" (JObj [("shape", shape); ("status_filter", JArr statuses);
    ("members", JObj (dict_of ((λ m, (m_node m, JObj [("population", m_population_digest m); ("input", m_input_digest m)])) <$> ms)))]).

Definition text_of_json (e : exc) (v : json) : result string := match v with JStr t => Ok t | _ => Err e end.

(** [SamplePlan.selected_job_instances]. *)
Definition instance_of (population : list dict) (i : json) : result (Z * string) :=
  match last (filter (λ d, dict_get "job_id" d = Some i) population), i with
  | Some d, JInt i => match dict_get "job_instance_id" d with
                      | Some (JStr u) => Ok (i, u)
                      | Some _ => raise TypeError "job instance"
                      | None => raise KeyError "job_instance_id"
                      end
  | Some _, _ => raise TypeError "job id"
  | None, _ => raise KeyError "job_id"
  end.

Definition selected_job_instances (p : SamplePlan) : result (list (addr * string)) :=
  let! rows := rmap (λ m, rmap (λ i, let! q := instance_of (m_population m) i in Ok ((m_node m, q.1), q.2)) (m_selected_job_ids m)) (p_members p) in
  Ok (mjoin rows).

(** [SamplePlan.admission_record]. *)
Definition admission_record (p : SamplePlan) (sample_id : json) (component : key) (expected_shape : string)
  : result (list (addr * string) * json) :=
  check! match sample_id with JStr t => negb (bool_decide (strip t = "")) | _ => false end
    orelse ValueError saying "Sample admission needs a nonempty sample ID" in
  check! negb (bool_decide (component = [])) && bool_decide (m_node <$> p_members p = component)
    orelse ValueError saying "Sample plan members differ from the reserved component" in
  check! bool_decide (p_node p ∈ JStr <$> component) && bool_decide (p_shape p = JStr expected_shape)
    orelse ValueError saying "Sample plan differs from its reserved component or graph shape" in
  let! tokens := rmap (text_of_json (Exc ValueError "Sample plan selectors are invalid")) (p_selectors p) in
  let! start := text_of_json (Exc ValueError "Sample plan differs from its reserved component or graph shape") (p_node p) in
  let! parsed := parse_sample_selectors start component tokens in
  let! statuses := rmap (text_of_json (Exc ValueError "Sample plan status filter is invalid")) (p_statuses p) in
  check! bool_decide (statuses = py_sorted_set statuses) && forallb (λ t, bool_decide (t ∈ JOB_VALID_STATUSES)) statuses
    orelse ValueError saying "Sample plan status filter is invalid" in
  let! seed := text_of_json (Exc ValueError "Sample plan seed is invalid") (p_seed p) in
  check! nonempty_text seed orelse ValueError saying "Sample plan seed is invalid" in
  let! _ := rmap (check_member parsed statuses seed) (p_members p) in
  check! bool_decide (p_combined_digest p = JStr (combined_digest (p_shape p) (p_statuses p) (p_members p)))
    orelse ValueError saying "Combined sample drift digest is invalid" in
  let! roots := selected_job_instances p in
  let! record := manifest p sample_id in
  Ok (roots, record).

(** ** Planning *)

(** What planning reads of the project's files: the digest of a job's input, and the files
    a node receives with their digests, before and after its jobs are read. *)
Record sample_files := SampleFiles {
  job_input : string → Z → result string;
  received_before : string → result (gmap string string);
  received_after : string → result (gmap string string)
}.

Definition starting_dict (i : Z) (ob : observation) : dict :=
  [("job_id", JInt i); ("job_instance_id", JStr (ob_instance ob)); ("status", JStr (ob_status ob)); ("generation", JInt (ob_generation ob))].

(** The jobs of a node by number. *)
Definition job_rows (d : db) (node : string) : list (Z * job_row) :=
  sort_by fst (omap (λ q : addr * job_row, if bool_decide (q.1.1 = node) then Some (q.1.2, q.2) else None) (map_to_list (jobs d))).

Section planning.
Context (component_snapshot_from_shape : string → result ComponentTopologySnapshot).
Context (files : sample_files).

Abbreviation observe := (read_job_owner_observation (λ s, let! sn := component_snapshot_from_shape s in Ok (components sn))).

(** One job: its observation, and its entry in the population when its status is eligible. *)
Definition plan_job (d : db) (node : string) (statuses : list string) (row : Z * job_row) : result (dict * option (dict * (Z * string) * string)) :=
  let! observed := observe d (node, row.1) in
  match observed with
  | None => raise RuntimeError "Sample population changed while it was read"
  | Some ob =>
      let starting := starting_dict row.1 ob in
      if negb (bool_decide (statuses = [])) && negb (bool_decide (status row.2 ∈ statuses)) then Ok (starting, None) else
      let! input := job_input files node row.1 in
      Ok (starting, Some (starting ++ [("input_digest", JStr input)], (row.1, ob_instance ob), input))
  end.

Definition plan_member (d : db) (selectors : gmap string selector) (statuses : list string) (seed node : string) : result SampleMember :=
  let! before := received_before files node in
  let! rows := rmap (plan_job d node statuses) (job_rows d node) in
  let starting := fst <$> rows in
  let population := omap snd rows in
  match selectors !! node with
  | None => raise KeyError "member"
  | Some sel =>
      let! count := sample_count sel (Z.of_nat (length population)) in
      let! selected := select_sample_ids node ((λ q, q.1.2) <$> population) count seed in
      let! after := received_after files node in
      check! bool_decide (after = before) orelse RuntimeError saying "Sample receiving input changed while it was read" in
      let population_dicts := (λ q, q.1.1) <$> population in
      Ok (MkSampleMember node (JStr sel.1, JInt sel.2) starting population_dicts (JInt <$> selected)
            (JStr (_digest "mwf.sample.starting-jobs.v1" (JArr (JObj <$> starting))))
            (JStr (_digest "mwf.sample.population.v1" (JArr (JObj <$> population_dicts))))
            (JStr (_digest "mwf.sample.inputs.v1" (JObj [
               ("receiving_files", JObj ((λ q, (q.1, JStr q.2)) <$> map_to_list before));
               ("jobs", JObj ((λ q : dict * (Z * string) * string, (dump_int q.1.2.1, JStr q.2)) <$> population))]))))
  end.

(** [plan_sample]: the enclosing savepoint only reads. *)
Definition plan_sample (d : db) (snapshot : ComponentTopologySnapshot) (node : string) (tokens : list string) (seed : string)
    (statuses : list string) (expected_population : option string) : result SamplePlan :=
  match find (λ c, bool_decide (node ∈ c)) (components snapshot) with
  | None => raise ValueError "Sample start node is outside the graph"
  | Some component =>
      let! selectors := parse_sample_selectors node component tokens in
      check! nonempty_text seed orelse ValueError saying "Sample seed must be nonempty and contain no NUL characters" in
      check! forallb (λ t, bool_decide (t ∈ JOB_VALID_STATUSES)) statuses
        orelse ValueError saying "Sample status filter contains an invalid job status" in
      let! members := rmap (plan_member d selectors statuses seed) component in
      let combined := combined_digest (JStr (shape_json snapshot)) (JStr <$> statuses) members in
      let! _ := match expected_population with
        | None => Ok ()
        | Some e =>
            let e := lower (strip e) in
            let expected := match strip_prefix "sha256:" e with Some _ => e | None => ("sha256:" ++ e)%string end in
            check! bool_decide (combined = expected) orelse RuntimeError saying "Sample population or input changed" in Ok ()
        end in
      Ok (MkSamplePlan (JStr node) (JStr <$> tokens) (JStr seed) (JStr <$> statuses) members (JStr (shape_json snapshot)) (JStr combined))
  end.
End planning.

(** ** Histories ([sample_history.py]) *)

Definition damaged {A} (label : string) : result A := raise RuntimeError "Damaged persisted sample".

(** [_object], [_list]. *)
Definition object_of (v : json) (fields : list string) (label : string) : result dict :=
  match v with
  | JObj d => if has_fields fields d then Ok d else damaged label
  | _ => damaged label
  end.

Definition list_of (v : json) (label : string) : result (list json) := match v with JArr l => Ok l | _ => damaged label end.

(** A field [object_of] has checked to be there. *)
Definition field (d : dict) (k : string) : json := default JNull (dict_get k d).

Definition _candidate (with_input : bool) (v : json) : result dict :=
  object_of v (if with_input then "input_digest" :: starting_fields else starting_fields) "job observation".

Definition plan_fields : list string :=
  ["kind"; "algorithm"; "sample_id"; "seed"; "node"; "selectors"; "status_filter"; "shape"; "members"; "combined_digest"; "full_starting_coverage"].
Definition member_fields : list string :=
  ["selector"; "starting_jobs"; "starting_jobs_digest"; "population_count"; "population"; "selected_job_ids"; "population_digest"; "input_digest"].

Definition decode_member (q : string * json) : result SampleMember :=
  let! raw := object_of q.2 member_fields "member" in
  let! sel := object_of (field raw "selector") ["kind"; "value"] "selector" in
  let! starting := list_of (field raw "starting_jobs") "starting jobs" in
  let! starting := rmap (_candidate false) starting in
  let! population := list_of (field raw "population") "population" in
  let! population := rmap (_candidate true) population in
  check! bool_decide (field raw "population_count" = JInt (Z.of_nat (length population)))
    orelse RuntimeError saying "Damaged persisted sample population count" in
  let! selected := list_of (field raw "selected_job_ids") "selected jobs" in
  Ok (MkSampleMember q.1 (field sel "kind", field sel "value") starting population selected
        (field raw "starting_jobs_digest") (field raw "population_digest") (field raw "input_digest")).

(** [_decode_plan]: the plan, the sample id and the recorded coverage. *)
Definition _decode_plan (selection : json) : result (SamplePlan * json * bool) :=
  let! d := object_of selection plan_fields "record" in
  check! bool_decide (field d "kind" = JStr "sample") && bool_decide (field d "algorithm" = JStr SAMPLE_ALGORITHM)
    orelse RuntimeError saying "Damaged persisted sample algorithm" in
  match field d "full_starting_coverage" with
  | JBool full =>
      match field d "members" with
      | JObj raw =>
          let! members := rmap decode_member raw in
          let! selectors := list_of (field d "selectors") "selectors" in
          let! statuses := list_of (field d "status_filter") "status filter" in
          Ok (MkSamplePlan (field d "node") selectors (field d "seed") statuses members (field d "shape") (field d "combined_digest"),
              field d "sample_id", full)
      | _ => damaged "members"
      end
  | _ => damaged "coverage flag"
  end.

Record SampleAdmissionHistory := MkSampleAdmissionHistory {
  sh_sample_id : json;
  sh_plan : SamplePlan;
  sh_roots : list (addr * string)
}.

#[export] Instance sample_member_eq_dec : EqDecision SampleMember.
Proof. solve_decision. Defined.

#[export] Instance sample_plan_eq_dec : EqDecision SamplePlan.
Proof. solve_decision. Defined.

Section history.
Context (component_snapshot_from_shape : string → result ComponentTopologySnapshot).
Context (is_json : string → bool).

Abbreviation observe := (read_job_owner_observation (λ s, let! sn := component_snapshot_from_shape s in Ok (components sn))).

(** What the text of the details of a session says it selected. *)
Definition stored_selection (text : string) : result json :=
  match loads text with
  | None => raise RuntimeError "Damaged persisted sample session details"
  | Some (JObj d) => match dict_get "selection" d with Some v => Ok v | None => raise RuntimeError "Sample session lost its persisted selection" end
  | Some _ => raise RuntimeError "Sample session lost its persisted selection"
  end.

(** The checks of a decoded plan against its session, and the roots it gives. *)
Definition checked_selection (selection : json) (component : key) (expected_shape : string) : result SampleAdmissionHistory :=
  let! decoded := _decode_plan selection in
  let '(plan, sample_id, coverage) := decoded in
  let! snapshot := on_value_error (component_snapshot_from_shape expected_shape) "Sample lifecycle has an invalid graph shape" in
  check! bool_decide (p_shape plan = JStr expected_shape) && bool_decide (component ∈ components snapshot)
    orelse RuntimeError saying "Persisted sample graph shape differs from its lifecycle attempt" in
  let! r := match admission_record plan sample_id component expected_shape with
            | Ok r => Ok r
            | Err e => if bool_decide (exc_cls e ∈ [TypeError; ValueError]) then raise RuntimeError "Damaged persisted sample admission" else Err e
            end in
  check! bool_decide (sort_keys r.2 = sort_keys selection) orelse RuntimeError saying "Persisted sample admission is not canonical" in
  let! full := full_starting_coverage plan in
  check! bool_decide (coverage = full) orelse RuntimeError saying "Persisted sample coverage disagrees with its population" in
  Ok (MkSampleAdmissionHistory sample_id plan r.1).

(** [read_sample_admission_history]. *)
Definition read_sample_admission_history (s : sdb) (x : string) (component : key) (expected_shape : string) (require_active : bool)
  : result SampleAdmissionHistory :=
  match columns (core s) !! x, details s !! x with
  | Some c, Some dt =>
      check! bool_decide (sc_command c = "run sample") && bool_decide (sd_selection dt = "jobs")
        orelse RuntimeError saying "Sample lifecycle requires an exact sampled selected session" in
      let! cs := _read_session_components s x in
      let! start := if bool_decide (cs = [component]) then _stored_session_component (sd_start dt)
                    else raise RuntimeError "Persisted sample scope differs from its lifecycle component" in
      check! bool_decide (start = component) orelse RuntimeError saying "Persisted sample scope differs from its lifecycle component" in
      let! _ := if require_active then
          let! _ := read_admitted_component_shape component_snapshot_from_shape (core s) x component expected_shape in Ok ()
        else
          let! view := execution_session_from_row_snapshot component_snapshot_from_shape is_json s x in
          check! bool_decide (shapes (jobs_db s) !! s_shape (sv_row view) = Some expected_shape)
            orelse RuntimeError saying "Sample history differs from its admitted graph shape" in Ok () in
      let! selection := stored_selection (sd_details dt) in
      let! h := checked_selection selection component expected_shape in
      let! recorded := _read_session_job_roots s x (Some cs) in
      check! bool_decide (recorded = sh_roots h) orelse RuntimeError saying "Persisted sample roots differ from the selected session" in
      Ok h
  | _, _ => raise RuntimeError "Sample lifecycle requires an exact sampled selected session"
  end.

(** An excluded starting job nothing has happened to. *)
Definition unchanged_excluded (m : SampleMember) (i : Z) (ob : observation) : bool :=
  match last (filter (λ d, dict_get "job_id" d = Some (JInt i)) (m_starting_jobs m)) with
  | Some old =>
      negb (existsb (λ d, bool_decide (dict_get "job_id" d = Some (JInt i))) (m_population m))
      && bool_decide (dict_get "job_instance_id" old = Some (JStr (ob_instance ob)))
      && bool_decide (dict_get "status" old = Some (JStr (ob_status ob)))
      && bool_decide (dict_get "generation" old = Some (JInt (ob_generation ob)))
  | None => false
  end.

(** Nothing is left to do for one job. *)
Definition job_settled (d : db) (m : SampleMember) (row : Z * job_row) : result bool :=
  let! observed := observe d (m_node m, row.1) in
  match observed with
  | None => raise RuntimeError "Sample completion lost a current job observation"
  | Some ob =>
      Ok (bool_decide (ob_active ob = None)
          && (bool_decide (ob_status ob ∈ [DONE; SKIPPED]) || unchanged_excluded m row.1 ob))
  end.

(** [sample_has_no_unprocessed_work]. *)
Definition sample_has_no_unprocessed_work (d : db) (h : SampleAdmissionHistory) : result bool :=
  let! full := full_starting_coverage (sh_plan h) in
  if negb full then Ok false else
  let! open := rexists (λ m, rexists (λ row, let! b := job_settled d m row in Ok (negb b)) (job_rows d (m_node m))) (p_members (sh_plan h)) in
  Ok (negb open).

(** The decisions [_selected_component_result] takes on a session that sampled, or not. *)
Definition details_object (text : string) : bool := match loads text with Some (JObj _) => true | _ => false end.
Definition details_select (text : string) : bool :=
  match loads text with Some (JObj d) => bool_decide (is_Some (dict_get "selection" d)) | _ => false end.
Definition sample_settled (s : sdb) (x : string) (component : key) (shape : string) : result bool :=
  let! h := read_sample_admission_history s x component shape true in
  sample_has_no_unprocessed_work (jobs_db s) h.
End history.

(** [json.dumps({**details, 'selection': selection})]. *)
Definition details_text (details : dict) (selection : json) : string :=
  dumps true ", " ": " (JObj (dict_set "selection" selection details)).

(** ** Counts *)

Section counts.
Implicit Types (kind : string) (v n c : Z).

(** A count selector takes exactly its value when the population allows it; a percentage takes the least number of
    jobs that is at least that share of the population, so 0 takes none and 100 takes all; every other request is refused,
    and no accepted request ever exceeds the population. *)
Theorem sample_count_exact kind v n :
  match sample_count (kind, v) n with
  | Ok c =>
      0 <= c <= n ∧
      ((kind = "count" ∧ c = v) ∨
       (kind = "percentage" ∧ 0 <= v <= 100 ∧ v * n <= 100 * c ∧ (∀ c', v * n <= 100 * c' → c <= c')))
  | Err e =>
      exc_cls e = ValueError ∧
      (n < 0 ∨ v < 0 ∨ (kind = "count" ∧ n < v) ∨ (kind = "percentage" ∧ 100 < v) ∨ (kind ≠ "count" ∧ kind ≠ "percentage"))
  end.
Proof.
  unfold sample_count. destruct (0 <=? n) eqn:Hn; cbn [require rbind]; [|split; [done|lia]].
  destruct (v <? 0) eqn:Hv; cbn [orb negb require rbind]; [split; [done|lia]|].
  destruct (bool_decide_reflect (kind = "percentage")) as [->|Hk]; cbn [andb].
  - destruct (100 <? v) eqn:Hp; cbn [negb require rbind]; [split; [done|right; right; right; left; split; [done|lia]]|].
    destruct (decide ("percentage" = "count")) as [|_]; [done|]. destruct (decide _) as [_|]; [|done].
    pose proof (Z.div_mod (v * n + 99) 100 ltac:(lia)). pose proof (Z.mod_pos_bound (v * n + 99) 100 ltac:(lia)).
    split; [nia|]. right. split_and!; [done|lia|lia|lia|intros; lia].
  - cbn [negb require rbind]. destruct (decide (kind = "count")) as [->|Hc].
    + destruct (v <=? n) eqn:Hle; cbn [require rbind]; [split; [lia|by left]|split; [done|]]. right; right; left. split; [done|lia].
    + destruct (decide (kind = "percentage")) as [|_]; [done|]. split; [done|]. by do 4 right.
Qed.
End counts.

(** ** The selection *)

Section selection.
Implicit Types (cs : list (Z * string)) (ids : list Z).

Lemma count_ok v n c : sample_count ("count", v) n = Ok c → c = v ∧ 0 <= v <= n.
Proof.
  unfold sample_count. intros H. apply rbind_ok in H as (? & H1%require_ok & H). apply rbind_ok in H as (? & H2%require_ok & H).
  rewrite decide_True in H by done. apply rbind_ok in H as (? & H3%require_ok & H). injection H as ->. lia.
Qed.

Lemma selected_inv node cs count seed ids : select_sample_ids node cs count seed = Ok ids →
  0 <= count <= Z.of_nat (length cs) ∧ NoDup cs.*2 ∧ nonempty_text seed = true ∧ nonempty_text node = true ∧
  ids = py_sorted (take (Z.to_nat count) (sort_by (rank node seed) cs)).*1.
Proof.
  unfold select_sample_ids. intros H. apply rbind_ok in H as (c & Hc & H). apply rbind_ok in H as (? & Hs%require_ok & H).
  apply rbind_ok in H as (? & Hn%require_ok & H). apply rbind_ok in H as (? & Hd%require_ok & H). injection H as <-.
  apply bool_decide_eq_true in Hd. apply count_ok in Hc as [_ Hc]. done.
Qed.

Lemma select_runs node cs count seed : 0 <= count <= Z.of_nat (length cs) → NoDup cs.*2 → nonempty_text seed = true → nonempty_text node = true →
  select_sample_ids node cs count seed = Ok (py_sorted (take (Z.to_nat count) (sort_by (rank node seed) cs)).*1).
Proof.
  intros Hc Hd Hs Hn. unfold select_sample_ids. rewrite Hs, Hn, bool_decide_eq_true_2 by done. unfold sample_count.
  destruct (0 <=? Z.of_nat (length cs)) eqn:E1; [|lia]. destruct (count <? 0) eqn:E2; [lia|]. cbn [require rbind orb negb andb].
  rewrite (bool_decide_eq_false_2 ("count" = "percentage")) by done. cbn [require rbind orb negb andb]. rewrite decide_True by done.
  destruct (count <=? Z.of_nat (length cs)) eqn:E3; [|lia]. done.
Qed.

Lemma rank_keys node seed cs : (rank node seed <$> cs).*2 = cs.*1.
Proof. rewrite <- list_fmap_compose. by apply list_fmap_ext. Qed.

Lemma rank_NoDup node seed cs : NoDup cs.*1 → NoDup (rank node seed <$> cs).
Proof. intros H. apply (NoDup_fmap_1 snd). by rewrite rank_keys. Qed.

Lemma ranked_perm node seed cs cs' : NoDup cs.*1 → cs' ≡ₚ cs → sort_by (rank node seed) cs' = sort_by (rank node seed) cs.
Proof.
  intros Hn Hp. apply sort_by_unique.
  - by rewrite Hp, sort_by_perm.
  - rewrite sort_by_perm. by apply rank_NoDup.
  - apply sort_by_sorted.
Qed.

Lemma NoDup_cut node seed cs n : NoDup cs.*1 → NoDup (take n (sort_by (rank node seed) cs)).*1.
Proof.
  intros H. assert (NoDup (sort_by (rank node seed) cs).*1) as Hs by (by rewrite sort_by_perm).
  rewrite <- (take_drop n (sort_by (rank node seed) cs)), fmap_app in Hs. by apply NoDup_app in Hs as [? _].
Qed.

Lemma key_inj cs c c' : NoDup cs.*1 → c ∈ cs → c' ∈ cs → c.1 = c'.1 → c = c'.
Proof.
  intros Hn Hc Hc' E. apply list_elem_of_lookup in Hc as (i & Hi), Hc' as (j & Hj).
  assert (i = j) as ->; [|congruence]. apply (NoDup_lookup cs.*1 i j c.1); [done|rewrite list_lookup_fmap, Hi; done|rewrite list_lookup_fmap, Hj; cbn; congruence].
Qed.

(** A selection consists of exactly as many candidates as asked for, in increasing order of their numbers; every
    candidate chosen ranks before every candidate left out; the choice depends neither on the order of the candidates nor on
    anything but seed, node, numbers and identities, and a larger sample of the same candidates contains it. *)
Theorem selection_lowest_ranked node cs count seed ids : NoDup cs.*1 → select_sample_ids node cs count seed = Ok ids →
  StronglySorted py_le ids ∧ NoDup ids ∧ Z.of_nat (length ids) = count ∧ ids ⊆ cs.*1 ∧
  (∀ c c', c ∈ cs → c' ∈ cs → c.1 ∈ ids → c'.1 ∉ ids → py_le (rank node seed c) (rank node seed c')) ∧
  (∀ cs', cs' ≡ₚ cs → select_sample_ids node cs' count seed = Ok ids) ∧
  (∀ count' ids', count <= count' → select_sample_ids node cs count' seed = Ok ids' → ids ⊆ ids').
Proof.
  intros Hk Hsel. apply selected_inv in Hsel as (Hc & Hd & Hs & Hn & ->). set (l := sort_by (rank node seed) cs).
  assert (∀ i n, i ∈ py_sorted (take n l).*1 ↔ ∃ c, i = c.1 ∧ c ∈ take n l) as Hin.
  { intros i n. by rewrite elem_of_py_sorted, list_elem_of_fmap. }
  split_and!.
  - apply py_sorted_sorted.
  - rewrite py_sorted_perm. by apply NoDup_cut.
  - rewrite (Permutation_length (py_sorted_perm _)), length_fmap, length_take. unfold l. rewrite (Permutation_length (sort_by_perm _ _)). lia.
  - intros i (c & -> & Hi)%Hin. apply list_elem_of_fmap. exists c. split; [done|]. by apply subseteq_take, elem_of_sort_by in Hi.
  - intros c c' Hcs Hcs' (d & Ed & Hd1)%Hin Hout. assert (c ∈ take (Z.to_nat count) l) as Hc1.
    { assert (d ∈ cs) by (by apply subseteq_take, elem_of_sort_by in Hd1). by rewrite (key_inj cs c d). }
    assert (c' ∈ drop (Z.to_nat count) l) as Hc2.
    { assert (c' ∈ l) as Hl by (by apply elem_of_sort_by). rewrite <- (take_drop (Z.to_nat count) l) in Hl.
      apply elem_of_app in Hl as [Hl|Hl]; [|done]. destruct Hout. apply Hin. eauto. }
    pose proof (sort_by_sorted (rank node seed) cs) as Hsort. fold l in Hsort. rewrite <- (take_drop (Z.to_nat count) l) in Hsort.
    by apply (StronglySorted_app_1_elem_of _ _ _ _ _ Hsort Hc1 Hc2).
  - intros cs' Hp. rewrite select_runs; [|by rewrite (Permutation_length Hp)|by rewrite Hp|done|done]. by rewrite (ranked_perm node seed cs cs').
  - intros count' ids' Hle (_ & _ & _ & _ & ->)%selected_inv i (c & -> & Hi)%Hin. apply Hin. exists c. split; [done|].
    rewrite <- (Nat.min_l (Z.to_nat count) (Z.to_nat count')) in Hi by lia. rewrite <- take_take in Hi. by apply subseteq_take in Hi.
Qed.
End selection.

Lemma selection_lowest_ranked_witness : [3; 4; 5] ⊆ (twelve 0).*1 ∧ ∀ ids', select_sample_ids "X" (twelve 0) 5 "acceptance" = Ok ids' → [3; 4; 5] ⊆ ids'.
Proof.
  destruct (selection_lowest_ranked "X" (twelve 0) 3 "acceptance" [3; 4; 5]) as (_ & _ & _ & H1 & _ & _ & H2); [by apply (bool_decide_unpack _)|exact select_acceptance|].
  split; [exact H1|]. intros ids'. apply H2. lia.
Defined.

(** ** What planning records, admission accepts *)

Lemma digest_required kind value : _require_digest (Some (JStr (_digest kind value))) = Ok ().
Proof.
  unfold _require_digest, _digest. destruct (hexdigest_digits (kind ++ nul ++ utf8 (dumps false "," ":" (sort_keys value)))) as [Hl Hh].
  revert Hl Hh. generalize (hexdigest (kind ++ nul ++ utf8 (dumps false "," ":" (sort_keys value)))). intros h Hl Hh.
  change (strip_prefix "sha256:" ("sha256:" ++ h)) with (Some h). change is_lower_hex with is_hex in Hh. cbv beta iota. by rewrite Hl, Hh.
Qed.

(** What SQLite keeps of every job: numbers from 1, known statuses, generations from 0. *)
Definition jobs_typed (d : db) : Prop :=
  ∀ a row, jobs d !! a = Some row → 1 <= a.2 ∧ status row ∈ JOB_VALID_STATUSES ∧ 0 <= generation row.

Lemma elem_of_job_rows d node i row : (i, row) ∈ job_rows d node ↔ jobs d !! (node, i) = Some row.
Proof.
  unfold job_rows. rewrite elem_of_sort_by, list_elem_of_omap. split.
  - intros ([[n j] r] & Hin & H). cbn in H. destruct (bool_decide_reflect (n = node)) as [->|]; [|done]. injection H as <- <-. by apply elem_of_map_to_list.
  - intros H. exists ((node, i), row). split; [by apply elem_of_map_to_list|]. cbn. by rewrite bool_decide_eq_true_2.
Qed.

Lemma job_rows_keys d node : StronglySorted py_le (job_rows d node).*1 ∧ NoDup (job_rows d node).*1.
Proof.
  split.
  - assert (∀ l : list (Z * job_row), StronglySorted (le_by fst) l → StronglySorted py_le l.*1) as H.
    { induction 1 as [|x l _ IH Hx]; cbn; [constructor|]. constructor; [done|]. by apply Forall_fmap. }
    apply H, sort_by_sorted.
  - unfold job_rows. rewrite sort_by_perm. generalize (NoDup_fst_map_to_list (jobs d)). induction (map_to_list (jobs d)) as [|[[n i] r] l IH]; cbn; [constructor|].
    intros [Hn Hl]%NoDup_cons. destruct (bool_decide_reflect (n = node)) as [->|]; cbn; [|by apply IH]. constructor; [|by apply IH].
    intros ([j r'] & -> & Hin)%list_elem_of_fmap. apply list_elem_of_omap in Hin as ([[n' i'] r''] & Hin & H). cbn in H.
    destruct (bool_decide_reflect (n' = node)) as [->|]; [|done]. injection H as <- <-. apply Hn. apply list_elem_of_fmap. by exists ((node, i'), r'').
Qed.

Section admission.
Context (snapshot : string → result ComponentTopologySnapshot).
Context (files : sample_files).

Abbreviation observe := (read_job_owner_observation (λ s, let! sn := snapshot s in Ok (components sn))).

(** The observation a starting entry states. *)
Definition stated (d : dict) : candidate :=
  match dict_get "job_id" d, dict_get "job_instance_id" d, dict_get "status" d, dict_get "generation" d with
  | Some (JInt i), Some (JStr u), Some (JStr t), Some (JInt g) => Candidate i u t g
  | _, _, _, _ => Candidate 0 "" "" 0
  end.

Definition eligible (statuses : list string) (c : candidate) : bool := bool_decide (statuses = []) || bool_decide (c_status c ∈ statuses).

(** What planning keeps of one row. *)
Record planned (d : db) (node : string) (statuses : list string) (row : Z * job_row) (q : dict * option (dict * (Z * string) * string)) : Prop := {
  pl_starting : starting_job q.1 = Ok (stated q.1);
  pl_id : c_id (stated q.1) = row.1;
  pl_row : c_status (stated q.1) = status row.2 ∧ (instance_id <$> instances d !! (node, row.1)) = Some (c_instance (stated q.1));
  pl_shape : ∃ i u t g, q.1 = [("job_id", JInt i); ("job_instance_id", JStr u); ("status", JStr t); ("generation", JInt g)];
  pl_population : if eligible statuses (stated q.1)
    then ∃ t, q.2 = Some (q.1 ++ [("input_digest", JStr t)], (c_id (stated q.1), c_instance (stated q.1)), t) ∧ _require_digest (Some (JStr t)) = Ok ()
    else q.2 = None
}.

Lemma observed_row d a ob : observe d a = Ok (Some ob) → ∃ row, jobs d !! a = Some row ∧ ob_status ob = status row ∧ ob_generation ob = generation row ∧
  ob_active ob = active_execution_id row ∧ valid_instance (ob_instance ob) = true ∧ (instance_id <$> instances d !! a) = Some (ob_instance ob).
Proof.
  unfold read_job_owner_observation. destruct (jobs d !! a) as [row|]; [|discriminate]. intros H. exists row.
  apply rbind_ok in H as (i & Hi & H). destruct (instances d !! a) as [i'|]; [|discriminate Hi].
  destruct (valid_instance (instance_id i')) eqn:Hv; [injection Hi as ->|discriminate Hi].
  apply rbind_ok in H as (? & _ & H). apply rbind_ok in H as (? & _ & H).
  destruct (match active_execution_id row with Some _ => _ | None => _ end); [|injection H as <-; by cbn].
  do 6 (apply rbind_ok in H as (? & _ & H)). injection H as <-. by cbn.
Qed.

Lemma starting_validates i ob : _validate_candidate_identity (starting_dict i ob) =
  (check! (1 <=? i) && valid_instance (ob_instance ob) && bool_decide (ob_status ob ∈ JOB_VALID_STATUSES) && (0 <=? ob_generation ob)
     orelse ValueError saying "Sample job observation identity is invalid" in
   Ok (Candidate i (ob_instance ob) (ob_status ob) (ob_generation ob))).
Proof. reflexivity. Qed.

Lemma starting_stated i ob : stated (starting_dict i ob) = Candidate i (ob_instance ob) (ob_status ob) (ob_generation ob).
Proof. reflexivity. Qed.

Lemma plan_job_planned d node statuses row q : jobs_typed d → (∀ i t, job_input files node i = Ok t → _require_digest (Some (JStr t)) = Ok ()) →
  jobs d !! (node, row.1) = Some row.2 → plan_job snapshot files d node statuses row = Ok q → planned d node statuses row q.
Proof.
  intros Ht Hf Hrow H. unfold plan_job in H. apply rbind_ok in H as (o & Ho & H). destruct o as [ob|]; [|discriminate H].
  destruct (observed_row _ _ _ Ho) as (row' & Hr & Hst & Hg & _ & Hv & Hinst). pose proof (eq_trans (eq_sym Hr) Hrow) as E. injection E as ->.
  destruct (Ht _ _ Hrow) as (H1 & H2 & H3). cbn [snd] in H1.
  assert (starting_job (starting_dict row.1 ob) = Ok (Candidate row.1 (ob_instance ob) (ob_status ob) (ob_generation ob))) as Hs.
  { unfold starting_job. replace (has_fields starting_fields (starting_dict row.1 ob)) with true by (symmetry; by vm_compute). cbn [require rbind].
    rewrite starting_validates. rewrite Hv, Hst, Hg, (bool_decide_eq_true_2 _ H2).
    destruct (1 <=? row.1) eqn:E1; [|lia]. destruct (0 <=? generation row.2) eqn:E2; [|lia]. done. }
  assert (q.1 = starting_dict row.1 ob ∧ (if bool_decide (statuses = []) || bool_decide (status row.2 ∈ statuses)
    then ∃ t, job_input files node row.1 = Ok t ∧ q.2 = Some (starting_dict row.1 ob ++ [("input_digest", JStr t)], (row.1, ob_instance ob), t)
    else q.2 = None)) as [Hq1 Hq2].
  { rewrite <- negb_orb in H. destruct (bool_decide (statuses = []) || bool_decide (status row.2 ∈ statuses)); cbn [negb] in H.
    - apply rbind_ok in H as (t & Hin & H). injection H as <-. split; [done|]. eauto.
    - by injection H as <-. }
  split; rewrite ?Hq1, ?starting_stated; cbn [c_id c_status c_instance]; try done.
  - by repeat eexists.
  - unfold eligible. cbn [c_status]. rewrite Hst. destruct (_ || _); [|done]. destruct Hq2 as (t & Hin & ->). exists t. split; [done|]. by eapply Hf.
Qed.

(** *** One member *)

Lemma starting_by_id_unique cs c : NoDup (c_id <$> cs) → c ∈ cs → starting_by_id cs (c_id c) = Some c.
Proof.
  unfold starting_by_id. intros Hn Hc. apply list_elem_of_split in Hc as (l1 & l2 & ->). rewrite fmap_app in Hn. cbn in Hn.
  apply NoDup_app in Hn as (_ & Hn1 & Hn2). apply NoDup_cons in Hn2 as [Hn2 _].
  assert (∀ l, c_id c ∉ c_id <$> l → filter (λ x, c_id x = c_id c) l = []) as Hnone.
  { induction l as [|x l IH]; intros Hx; [done|]. rewrite fmap_cons in Hx. rewrite filter_cons_False by set_solver. apply IH. set_solver. }
  rewrite filter_app, filter_cons_True by done. rewrite (Hnone l1), (Hnone l2); [done|done|].
  intros Hin. apply (Hn1 _ Hin). constructor.
Qed.

Section member.
Context (d : db) (node seed : string) (statuses : list string).

Lemma planned_starting L rows : Forall2 (planned d node statuses) L rows →
  rmap starting_job rows.*1 = Ok (stated <$> rows.*1) ∧ c_id <$> (stated <$> rows.*1) = L.*1.
Proof.
  intros H. split.
  - induction H as [|x q L rows Hq _ IH]; cbn; [done|]. destruct Hq as [-> _ _ _ _]. cbn [rbind]. by rewrite IH.
  - induction H as [|x q L rows Hq _ IH]; cbn; [done|]. f_equal; [by destruct Hq|done].
Qed.

Lemma planned_population L rows : Forall2 (planned d node statuses) L rows →
  let dicts := (λ q : dict * (Z * string) * string, q.1.1) <$> omap snd rows in
  let chosen := filter_sample_population c_status (stated <$> rows.*1) statuses in
  stated <$> dicts = chosen ∧
  (λ q : dict * (Z * string) * string, q.1.2) <$> omap snd rows = (λ c, (c_id c, c_instance c)) <$> chosen ∧
  Forall (λ p, ∃ sd t, stated sd ∈ stated <$> rows.*1 ∧ starting_job sd = Ok (stated sd) ∧ p = sd ++ [("input_digest", JStr t)] ∧
    (∃ i u t g, sd = [("job_id", JInt i); ("job_instance_id", JStr u); ("status", JStr t); ("generation", JInt g)]) ∧
    _require_digest (Some (JStr t)) = Ok ()) dicts.
Proof.
  intros H. cbv zeta. induction H as [|x q L rows Hq _ (IH1 & IH2 & IH3)]; [by split_and!|].
  assert (∀ p, stated p ∈ stated <$> rows.*1 → stated p ∈ stated <$> (q :: rows).*1) as Hmore by (intros p Hp; cbn; by apply list_elem_of_further).
  assert (Forall (λ p, ∃ sd t, stated sd ∈ stated <$> (q :: rows).*1 ∧ starting_job sd = Ok (stated sd) ∧ p = sd ++ [("input_digest", JStr t)] ∧
    (∃ i u t g, sd = [("job_id", JInt i); ("job_instance_id", JStr u); ("status", JStr t); ("generation", JInt g)]) ∧
    _require_digest (Some (JStr t)) = Ok ()) ((λ q : dict * (Z * string) * string, q.1.1) <$> omap snd rows)) as IH3'.
  { eapply Forall_impl; [exact IH3|]. intros p (sd & t & Hin & Hrest). exists sd, t. split; [by apply Hmore|done]. }
  destruct Hq as [Hs _ _ Hshape Hpop]. unfold filter_sample_population in *. rewrite !fmap_cons. cbn [omap list_omap].
  unfold eligible in Hpop. destruct (bool_decide_reflect (statuses = [])) as [He|He].
  - rewrite filter_cons_True by (by left). cbn [orb] in Hpop. destruct Hpop as (t & -> & Ht). rewrite !fmap_cons. cbn [fst snd]. rewrite IH1, IH2.
    destruct Hshape as (i & u & st & g & Hsd). rewrite !Hsd. split_and!; [done|done|]. constructor; [|by rewrite <- Hsd]. rewrite <- Hsd.
    exists q.1, t. split_and!; [apply list_elem_of_here|done|done|by rewrite Hsd; repeat eexists|done].
  - destruct (bool_decide_reflect (c_status (stated q.1) ∈ statuses)) as [Hin|Hin]; cbn [orb] in Hpop.
    + rewrite filter_cons_True by (by right). destruct Hpop as (t & -> & Ht). rewrite !fmap_cons. cbn [fst snd]. rewrite IH1, IH2.
      destruct Hshape as (i & u & st & g & Hsd). rewrite !Hsd. split_and!; [done|done|]. constructor; [|by rewrite <- Hsd]. rewrite <- Hsd.
      exists q.1, t. split_and!; [apply list_elem_of_here|done|done|by rewrite Hsd; repeat eexists|done].
    + rewrite filter_cons_False by (by intros [?|?]). by rewrite Hpop.
Qed.

Lemma population_accepted cs sd t : starting_job sd = Ok (stated sd) → NoDup (c_id <$> cs) → stated sd ∈ cs →
  (∃ i u t g, sd = [("job_id", JInt i); ("job_instance_id", JStr u); ("status", JStr t); ("generation", JInt g)]) →
  _require_digest (Some (JStr t)) = Ok () →
  population_job cs (sd ++ [("input_digest", JStr t)]) = Ok (stated (sd ++ [("input_digest", JStr t)])).
Proof.
  intros Hs Hn Hin (i & u & st & g & ->) Ht. unfold starting_job in Hs. apply rbind_ok in Hs as (? & _ & Hs).
  unfold population_job. match goal with |- (check! ?b orelse _ saying _ in _) = _ => replace b with true by (symmetry; by vm_compute) end. cbn [require rbind].
  change (_validate_candidate_identity (_ ++ _)) with (_validate_candidate_identity [("job_id", JInt i); ("job_instance_id", JStr u); ("status", JStr st); ("generation", JInt g)]).
  rewrite Hs. cbn [rbind]. change (dict_get "input_digest" (_ ++ _)) with (Some (JStr t)). rewrite Ht. cbn [rbind].
  rewrite starting_by_id_unique by done. by rewrite bool_decide_eq_true_2 by done.
Qed.
End member.

Lemma sorted_filter {A} (f : A → Z) (P : A → Prop) `{∀ x, Decision (P x)} l : StronglySorted py_le (f <$> l) → StronglySorted py_le (f <$> filter P l).
Proof.
  induction l as [|x l IH]; intros Hs; [constructor|]. rewrite fmap_cons in Hs. apply StronglySorted_inv in Hs as [Hs Hx].
  destruct (decide (P x)); [rewrite filter_cons_True by done|rewrite filter_cons_False by done; by apply IH].
  rewrite fmap_cons. constructor; [by apply IH|]. apply Forall_forall. intros y (z & -> & Hz)%list_elem_of_fmap.
  apply list_elem_of_filter in Hz as [_ Hz]. rewrite Forall_forall in Hx. apply Hx, list_elem_of_fmap. eauto.
Qed.

Lemma NoDup_filtered {A} (f : A → Z) (P : A → Prop) `{∀ x, Decision (P x)} l : NoDup (f <$> l) → NoDup (f <$> filter P l).
Proof.
  induction l as [|x l IH]; intros Hs; [constructor|]. rewrite fmap_cons in Hs. apply NoDup_cons in Hs as [Hx Hs].
  destruct (decide (P x)); [rewrite filter_cons_True by done|rewrite filter_cons_False by done; by apply IH].
  rewrite fmap_cons. apply NoDup_cons. split; [|by apply IH]. intros (z & E & Hz)%list_elem_of_fmap.
  apply list_elem_of_filter in Hz as [_ Hz]. apply Hx. rewrite E. apply list_elem_of_fmap. eauto.
Qed.

Lemma ordered_ids_ok l : StronglySorted py_le l → NoDup l → ordered_ids l = true.
Proof. intros Hs Hn. unfold ordered_ids. rewrite py_sorted_id by done. by rewrite !bool_decide_eq_true_2. Qed.

Lemma instance_of_ok population i : Forall (λ p, dict_get "job_id" p = Some (JInt (c_id (stated p))) ∧ dict_get "job_instance_id" p = Some (JStr (c_instance (stated p)))) population →
  i ∈ c_id <$> (stated <$> population) → ∃ p, p ∈ population ∧ c_id (stated p) = i ∧ instance_of population (JInt i) = Ok (i, c_instance (stated p)).
Proof.
  intros Hall Hi. rewrite Forall_forall in Hall. unfold instance_of. set (found := filter _ population).
  assert (found ≠ []) as Hne.
  { rewrite <- list_fmap_compose in Hi. apply list_elem_of_fmap in Hi as (p & -> & Hp). intros E.
    assert (p ∈ found) as Hin by (apply list_elem_of_filter; split; [by apply Hall|done]). rewrite E in Hin. by apply not_elem_of_nil in Hin. }
  destruct (last found) as [p|] eqn:Hl; [|by apply last_None in Hl]. apply last_Some_elem_of in Hl. apply list_elem_of_filter in Hl as [Hp Hin].
  exists p. destruct (Hall p Hin) as [H1 H2]. rewrite H1 in Hp. injection Hp as Hp. rewrite H2. done.
Qed.

(** What a planned member gives. *)
Record planned_member (d : db) (sels : gmap string selector) (statuses : list string) (seed node : string) (m : SampleMember) : Prop := {
  pm_node : m_node m = node;
  pm_checked : check_member sels statuses seed m = Ok ();
  pm_size : (length (m_selected_job_ids m) ≤ length (m_population m))%nat;
  pm_roots : ∃ ids, m_selected_job_ids m = JInt <$> ids ∧ NoDup ids ∧ ∀ i, i ∈ ids → ∃ u row, instance_of (m_population m) (JInt i) = Ok (i, u) ∧
    jobs d !! (node, i) = Some row ∧ (instance_id <$> instances d !! (node, i)) = Some u ∧ (statuses = [] ∨ status row ∈ statuses)
}.

Lemma plan_member_planned d sels statuses seed node m : jobs_typed d →
  (∀ i t, job_input files node i = Ok t → _require_digest (Some (JStr t)) = Ok ()) →
  plan_member snapshot files d sels statuses seed node = Ok m → planned_member d sels statuses seed node m.
Proof.
  intros Ht Hf H. unfold plan_member in H. apply rbind_ok in H as (before & _ & H). apply rbind_ok in H as (rows & Hrows & H).
  destruct (sels !! node) as [sel|] eqn:Hsel; [|discriminate H]. apply rbind_ok in H as (count & Hcount & H).
  apply rbind_ok in H as (ids & Hids & H). apply rbind_ok in H as (after & _ & H). apply rbind_ok in H as (? & _ & H). injection H as <-.
  assert (Forall2 (planned d node statuses) (job_rows d node) rows) as Hplanned.
  { apply rmap_ok in Hrows. apply Forall2_same_length_lookup_2; [by eapply Forall2_length|].
    intros i row q Hrow Hq. destruct (Forall2_lookup_l _ _ _ _ _ Hrows Hrow) as (q' & Hq' & H). assert (q' = q) as -> by congruence.
    eapply plan_job_planned; [done|done| |exact H]. destruct row as [j row]. apply elem_of_job_rows. by eapply list_elem_of_lookup_2. }
  destruct (job_rows_keys d node) as [Hsorted Hnodup].
  destruct (planned_starting _ _ _ _ _ Hplanned) as [Hstart Hkeys]. destruct (planned_population _ _ _ _ _ Hplanned) as (Hpop & Hcands & Hall). cbv zeta in *.
  set (starting := stated <$> rows.*1) in *. set (pop := (λ q : dict * (Z * string) * string, q.1.1) <$> omap snd rows) in *.
  rewrite <- Hkeys in Hsorted, Hnodup.
  assert (rmap (population_job starting) pop = Ok (stated <$> pop)) as Hpj.
  { apply rmap_all. clear Hpop. induction Hall as [|p l (sd & t & Hin & Hs & -> & Hsh & Hd) _ IH]; [constructor|].
    rewrite fmap_cons. constructor; [by apply population_accepted|done]. }
  assert (length (omap snd rows) = length pop) as Hlen by (unfold pop; by rewrite length_fmap).
  match type of Hids with select_sample_ids _ ?l _ _ = _ => replace l with ((λ c, (c_id c, c_instance c)) <$> (stated <$> pop)) in Hids by (rewrite Hpop; symmetry; exact Hcands) end.
  match type of Hcount with sample_count _ (Z.of_nat ?n) = _ => replace n with (length pop) in Hcount by (symmetry; exact Hlen) end.
  pose proof Hids as Hids'. apply selected_inv in Hids' as (Hc & _ & _ & _ & Hidseq).
  assert (NoDup (c_id <$> (stated <$> pop))) as Hnp by (rewrite Hpop; by apply NoDup_filtered).
  assert (((λ c, (c_id c, c_instance c)) <$> (stated <$> pop)).*1 = c_id <$> (stated <$> pop)) as Hfst by (by rewrite <- list_fmap_compose).
  assert (∀ i, i ∈ ids → i ∈ c_id <$> (stated <$> pop)) as Hsub.
  { intros i. rewrite Hidseq, elem_of_py_sorted, list_elem_of_fmap. intros (c & -> & Hin). rewrite <- Hfst. apply list_elem_of_fmap. exists c. split; [done|].
    by apply subseteq_take, elem_of_sort_by in Hin. }
  split; cbn [m_node m_selected_job_ids m_population]; [done| | |].
  - unfold check_member. cbn [m_node m_selector m_starting_jobs m_population m_selected_job_ids m_starting_jobs_digest m_population_digest m_input_digest].
    destruct sel as [kind value]. cbn [fst snd].
    match goal with |- context [match ?o with Some sel => bool_decide (sel = _) | None => false end] => replace o with (Some (kind, value)) by (symmetry; exact Hsel) end.
    rewrite bool_decide_eq_true_2 by done. cbn [require rbind].
    match goal with |- context [rmap starting_job ?l] => replace (rmap starting_job l) with (Ok starting) by (symmetry; exact Hstart) end.
    cbn [rbind]. rewrite ordered_ids_ok by done. cbn [require rbind]. rewrite bool_decide_eq_true_2 by done. cbn [require rbind].
    match goal with |- context [rmap (population_job starting) ?l] => replace (rmap (population_job starting) l) with (Ok (stated <$> pop)) by (symmetry; exact Hpj) end.
    cbn [rbind]. rewrite ordered_ids_ok; [|rewrite Hpop; by apply sorted_filter|done]. cbn [require rbind].
    rewrite Hpop. rewrite bool_decide_eq_true_2 by done. cbn [require rbind]. rewrite <- Hpop.
    replace (forallb _ (JInt <$> ids)) with true by (symmetry; apply forallb_forall; intros v Hv; apply list_elem_of_In, list_elem_of_fmap in Hv as (i & -> & _); done).
    cbn [require rbind].
    match goal with |- context [match ?o with Some sel => sample_count sel _ | None => _ end] => replace o with (Some (kind, value)) by (symmetry; exact Hsel) end.
    match goal with |- context [sample_count ?x ?n] => replace (sample_count x n) with (Ok count) by (symmetry; rewrite length_fmap; exact Hcount) end.
    cbn [rbind].
    match goal with |- context [select_sample_ids ?a ?b ?c ?e] => replace (select_sample_ids a b c e) with (Ok ids) by (symmetry; exact Hids) end.
    cbn [rbind]. rewrite bool_decide_eq_true_2 by done. cbn [require rbind].
    rewrite bool_decide_eq_true_2 by done. cbn [require rbind]. apply digest_required.
  - rewrite length_fmap. assert (length ids ≤ length pop)%nat as Hle; [|exact Hle].
    rewrite Hidseq, (Permutation_length (py_sorted_perm _)), length_fmap, length_take, (Permutation_length (sort_by_perm _ _)).
    rewrite (length_fmap _ (stated <$> pop)), (length_fmap stated pop). lia.
  - exists ids. split; [done|]. split.
    { rewrite Hidseq, py_sorted_perm. apply NoDup_cut. by rewrite Hfst. }
    intros i Hi. destruct (instance_of_ok pop i) as (p & Hp & Hid & Hio); [|by apply Hsub|].
    { apply Forall_forall. intros p Hp. rewrite Forall_forall in Hall. destruct (Hall p Hp) as (sd & t & _ & _ & -> & (i' & u & st & g & ->) & _). done. }
    assert (stated p ∈ filter_sample_population c_status starting statuses) as Hin by (rewrite <- Hpop; apply list_elem_of_fmap; eauto).
    apply list_elem_of_filter in Hin as [Hel Hin]. unfold starting in Hin. rewrite <- list_fmap_compose in Hin. apply list_elem_of_fmap in Hin as (q & Hpq & Hq).
    apply list_elem_of_lookup in Hq as (n & Hn). destruct (Forall2_lookup_r _ _ _ _ _ Hplanned Hn) as (row & Hrow & [_ H1 [H2 H3] _ _]). cbn [compose] in Hpq.
    unfold compose in Hpq. rewrite Hpq in *. rewrite Hid in H1. exists (c_instance (stated q.1)), row.2. rewrite H1. split_and!; [by rewrite <- H1| |done|by rewrite <- H2].
    apply elem_of_job_rows. apply list_elem_of_lookup_2 in Hrow. by destruct row.
Qed.
End admission.

(** *** The whole plan *)

Section plan.
Context (snapshot : string → result ComponentTopologySnapshot).
Context (files : sample_files).

Definition last_member (ms : list SampleMember) : gmap string SampleMember := foldl (λ acc m, <[m_node m := m]> acc) ∅ ms.

Lemma per_member_last f ms : per_member f ms = f <$> last_member ms.
Proof.
  unfold per_member, last_member. assert (∀ (acc : gmap string Z) (acc' : gmap string SampleMember), acc = f <$> acc' →
    foldl (λ acc m, <[m_node m := f m]> acc) acc ms = f <$> foldl (λ acc m, <[m_node m := m]> acc) acc' ms) as H.
  { induction ms as [|m ms IH]; intros acc acc' E; cbn [foldl]; [done|]. apply IH. by rewrite E, fmap_insert. }
  apply H. by rewrite fmap_empty.
Qed.

Lemma last_member_elem ms n m : last_member ms !! n = Some m → m ∈ ms.
Proof.
  unfold last_member. assert (∀ acc : gmap string SampleMember, foldl (λ acc m, <[m_node m := m]> acc) acc ms !! n = Some m → m ∈ ms ∨ acc !! n = Some m) as H.
  { induction ms as [|x ms IH]; intros acc Hx; cbn [foldl] in Hx; [by right|]. destruct (IH _ Hx) as [?|Hn]; [left; by apply list_elem_of_further|].
    destruct (decide (m_node x = n)) as [<-|Hne]; [rewrite lookup_insert_eq in Hn; injection Hn as ->; left; apply list_elem_of_here|].
    rewrite lookup_insert_ne in Hn by done. by right. }
  intros Hx. destruct (H _ Hx) as [?|Hn]; [done|]. by rewrite lookup_empty in Hn.
Qed.

Lemma coverage_total p : (∀ m, m ∈ p_members p → (length (m_selected_job_ids m) ≤ length (m_population m))%nat) →
  ∃ full, full_starting_coverage p = Ok full.
Proof.
  intros H. unfold full_starting_coverage, starting_population_is_fully_selected. rewrite !per_member_last, !dom_fmap_L, bool_decide_eq_true_2 by done.
  cbn [require rbind]. match goal with |- context [rmap ?f ?l] => destruct (rmap_exists f (λ _ _, True) l) as (ys & -> & _) end; [|cbn [rbind]; eauto].
  intros [n c] Hin. apply elem_of_map_to_list in Hin. rewrite lookup_fmap in Hin. apply fmap_Some in Hin as (m & Hm & ->). cbn [fst snd].
  rewrite lookup_total_alt, lookup_fmap, Hm. cbn [fmap option_fmap option_map from_option default id].
  specialize (H m (last_member_elem _ _ _ Hm)). unfold sample_count.
  assert ((0 <=? Z.of_nat (length (m_population m))) = true) as -> by lia.
  assert ((Z.of_nat (length (m_selected_job_ids m)) <? 0) = false) as -> by lia.
  assert ((Z.of_nat (length (m_selected_job_ids m)) <=? Z.of_nat (length (m_population m))) = true) as -> by lia.
  rewrite (bool_decide_eq_false_2 ("count" = "percentage")) by done. cbn [orb andb negb require rbind]. rewrite decide_True by done. by eexists.
Qed.

Lemma texts_of e l : rmap (text_of_json e) (JStr <$> l) = Ok l.
Proof. induction l as [|t l IH]; cbn; [done|]. by rewrite IH. Qed.

Lemma joined_roots_NoDup (ns : list string) (rows : list (list (addr * string))) : NoDup ns →
  Forall2 (λ n row, (∀ q, q ∈ row → q.1.1 = n) ∧ NoDup row.*1) ns rows → NoDup (mjoin rows).*1.
Proof.
  intros Hn H. induction H as [|n row ns rows [Hr Hrow] Hrest IH]; [constructor|]. apply NoDup_cons in Hn as [Hn Hns]. cbn [mjoin list_join].
  rewrite fmap_app. apply NoDup_app. split_and!; [done| |by apply IH]. intros a (q & -> & Hq)%list_elem_of_fmap (q' & E & Hq')%list_elem_of_fmap.
  apply Hn. apply list_elem_of_join in Hq' as (row' & Hq' & Hin). apply list_elem_of_lookup in Hin as (i & Hi).
  destruct (Forall2_lookup_r _ _ _ _ _ Hrest Hi) as (n' & Hn' & Hr' & _). assert (n = n') as ->; [|by apply list_elem_of_lookup_2 in Hn'].
  pose proof (Hr q Hq) as E1. pose proof (Hr' q' Hq') as E2. rewrite <- E1, <- E2. exact (f_equal fst E).
Qed.

Lemma member_roots d sels statuses seed node m : planned_member d sels statuses seed node m →
  ∃ row, rmap (λ i, let! q := instance_of (m_population m) i in Ok ((m_node m, q.1), q.2)) (m_selected_job_ids m) = Ok row ∧
    NoDup row.*1 ∧ ∀ q : addr * string, q ∈ row → q.1.1 = node ∧ ∃ r, jobs d !! q.1 = Some r ∧ (instance_id <$> instances d !! q.1) = Some q.2 ∧ (statuses = [] ∨ status r ∈ statuses).
Proof.
  intros [Hnode _ _ (ids & Hids & Hnd & Hall)]. rewrite Hids, Hnode.
  set (P := λ (i : json) (q : addr * string), i = JInt q.1.2 ∧ q.1.1 = node ∧ ∃ r, jobs d !! q.1 = Some r ∧ (instance_id <$> instances d !! q.1) = Some q.2 ∧ (statuses = [] ∨ status r ∈ statuses)).
  match goal with |- ∃ row, rmap ?f ?l = _ ∧ _ => destruct (rmap_exists f P l) as (row & Hrow & HP) end.
  { intros x (i & -> & Hi)%list_elem_of_fmap. destruct (Hall i Hi) as (u & r & Hio & Hr). rewrite Hio. cbn [rbind fst snd]. eexists. split; [done|].
    split; [done|]. split; [done|]. exists r. exact Hr. }
  exists row. split; [exact Hrow|]. split.
  - assert ((λ q : addr * string, JInt q.1.2) <$> row = JInt <$> ids) as E.
    { clear Hrow. revert HP. generalize (JInt <$> ids). intros l HP. induction HP as [|x q l row [-> _] _ IH]; [done|]. rewrite fmap_cons. by f_equal. }
    apply (NoDup_fmap_1 (λ a : addr, JInt a.2)). rewrite <- list_fmap_compose.
    assert (NoDup (JInt <$> ids)) as Hj by (apply NoDup_fmap_2; [by intros ?? [= ->]|done]). rewrite <- E in Hj. exact Hj.
  - intros q Hq. apply list_elem_of_lookup in Hq as (i & Hi). destruct (Forall2_lookup_r _ _ _ _ _ HP Hi) as (x & _ & _ & H). exact H.
Qed.

(** C27: every plan the planner makes is accepted when its session is admitted: over tables as SQLite keeps them, with
    well-formed input digests and a sorted status filter, the recorded plan passes every check of the admission record -
    types, order, digests, filters and the recomputed selection - and the roots it names are distinct existing jobs of the
    starting component, of an eligible status, at their current instances. *)
Theorem planned_sample_admitted d sn node tokens seed statuses expected sid p :
  jobs_typed d → (∀ n i t, job_input files n i = Ok t → _require_digest (Some (JStr t)) = Ok ()) →
  (∀ c, c ∈ components sn → NoDup c) → py_sorted_set statuses = statuses → strip sid ≠ "" →
  plan_sample snapshot files d sn node tokens seed statuses expected = Ok p →
  ∃ component roots record, component ∈ components sn ∧ node ∈ component ∧
    admission_record p (JStr sid) component (shape_json sn) = Ok (roots, record) ∧ NoDup roots.*1 ∧
    ∀ a u, (a, u) ∈ roots → a.1 ∈ component ∧
      ∃ row, jobs d !! a = Some row ∧ (instance_id <$> instances d !! a) = Some u ∧ (statuses = [] ∨ status row ∈ statuses).
Proof.
  intros Ht Hf Hc Hst Hsid H. unfold plan_sample in H. destruct (find _ (components sn)) as [component|] eqn:Hfind; [|discriminate H].
  apply find_some in Hfind as [Hcin Hnode%bool_decide_eq_true]. apply list_elem_of_In in Hcin.
  apply rbind_ok in H as (sels & Hsels & H). apply rbind_ok in H as (? & Hseed%require_ok & H). apply rbind_ok in H as (? & Hvalid%require_ok & H).
  apply rbind_ok in H as (ms & Hms & H). apply rbind_ok in H as (? & _ & H). injection H as <-.
  assert (Forall2 (planned_member d sels statuses seed) component ms) as Hpm.
  { apply rmap_ok in Hms. apply Forall2_same_length_lookup_2; [by eapply Forall2_length|]. intros i n m Hn Hm.
    destruct (Forall2_lookup_l _ _ _ _ _ Hms Hn) as (m' & Hm' & H). assert (m' = m) as -> by congruence. eapply plan_member_planned; [done|apply Hf|exact H]. }
  assert (m_node <$> ms = component) as Hnodes.
  { clear -Hpm. induction Hpm as [|n m ns ms [Hn _ _ _] _ IH]; [done|]. rewrite fmap_cons. by f_equal. }
  assert (∀ m, m ∈ ms → ∃ n, planned_member d sels statuses seed n m) as Hm.
  { intros m (i & Hi)%list_elem_of_lookup. destruct (Forall2_lookup_r _ _ _ _ _ Hpm Hi) as (n & _ & ?). eauto. }
  set (p := MkSamplePlan _ _ _ _ _ _ _).
  destruct (coverage_total p) as [full Hfull]. { intros m Hin. destruct (Hm m Hin) as (n & [_ _ ? _]). done. }
  assert (∃ rows, rmap (λ m, rmap (λ i, let! q := instance_of (m_population m) i in Ok ((m_node m, q.1), q.2)) (m_selected_job_ids m)) ms = Ok rows ∧
    Forall2 (λ n (row : list (addr * string)), (∀ q, q ∈ row → q.1.1 = n) ∧ NoDup row.*1) component rows ∧
    ∀ q : addr * string, q ∈ mjoin rows → q.1.1 ∈ component ∧ ∃ r, jobs d !! q.1 = Some r ∧ (instance_id <$> instances d !! q.1) = Some q.2 ∧ (statuses = [] ∨ status r ∈ statuses)) as (rows & Hrows & Hdist & Hspec).
  { clear -Hpm. induction Hpm as [|n m ns ms Hx _ (rows & Hr & Hd & Hs)].
    - exists []. split_and!; [done|constructor|]. intros q Hq. by apply not_elem_of_nil in Hq.
    - destruct (member_roots _ _ _ _ _ _ Hx) as (row & Hrow & Hnd & Hall). exists (row :: rows). split_and!.
      + cbn [rmap]. rewrite Hrow. cbn [rbind]. rewrite Hr. done.
      + constructor; [|done]. split; [|done]. intros q Hq. by apply Hall.
      + intros q [Hq|Hq]%elem_of_app.
        * destruct (Hall q Hq) as [-> Hrest]. split; [apply list_elem_of_here|done].
        * destruct (Hs q Hq) as [Hin Hrest]. split; [by apply list_elem_of_further|done]. }
  eexists component, (mjoin rows), _. split_and!; [done|done| |by eapply joined_roots_NoDup; [apply Hc|]|].
  2:{ intros a u Hin. apply (Hspec (a, u) Hin). }
  unfold admission_record. rewrite (bool_decide_eq_false_2 (strip sid = "")) by done. cbn [negb require rbind p_members p].
  rewrite (bool_decide_eq_false_2 (component = [])) by (intros ->; by apply not_elem_of_nil in Hnode). rewrite (bool_decide_eq_true_2 _ Hnodes).
  cbn [negb andb require rbind p_node p_shape p]. rewrite bool_decide_eq_true_2 by (apply list_elem_of_fmap; eauto). rewrite bool_decide_eq_true_2 by done.
  cbn [andb require rbind p_selectors p_statuses p_seed p]. rewrite texts_of. cbn [rbind text_of_json]. rewrite Hsels. cbn [rbind]. rewrite texts_of. cbn [rbind].
  rewrite bool_decide_eq_true_2 by done. rewrite Hvalid, Hseed. cbn [andb require rbind].
  destruct (rmap_exists (check_member sels statuses seed) (λ _ _, True) ms) as (us & -> & _).
  { intros m Hin. destruct (Hm m Hin) as (n & [_ Hck _ _]). eauto. }
  cbn [rbind p_combined_digest p_shape p]. rewrite bool_decide_eq_true_2 by done. cbn [require rbind].
  unfold selected_job_instances. cbn [p_members p]. rewrite Hrows. cbn [rbind]. unfold manifest. rewrite Hfull. reflexivity.
Qed.
End plan.

(** ** The record reads back *)

Section roundtrip.
Context (snapshot : string → result ComponentTopologySnapshot).

Lemma decode_member_eq m : decode_member (m_node m, member_manifest m) =
  (let! starting := rmap (_candidate false) (JObj <$> m_starting_jobs m) in
   let! population := rmap (_candidate true) (JObj <$> m_population m) in
   check! bool_decide (JInt (Z.of_nat (length (m_population m))) = JInt (Z.of_nat (length population)))
     orelse RuntimeError saying "Damaged persisted sample population count" in
   Ok (MkSampleMember (m_node m) ((m_selector m).1, (m_selector m).2) starting population (m_selected_job_ids m)
         (m_starting_jobs_digest m) (m_population_digest m) (m_input_digest m))).
Proof.
  unfold decode_member, member_manifest. cbn [snd fst]. unfold object_of at 1.
  match goal with |- context [has_fields member_fields ?d] => replace (has_fields member_fields d) with true by (symmetry; by vm_compute) end. cbn [rbind].
  match goal with |- context [field ?d "selector"] => change (field d "selector") with (JObj [("kind", (m_selector m).1); ("value", (m_selector m).2)]) end.
  unfold object_of at 1.
  match goal with |- context [has_fields ["kind"; "value"] ?d] => replace (has_fields ["kind"; "value"] d) with true by (symmetry; by vm_compute) end.
  reflexivity.
Qed.

Lemma candidates_decode (with_input : bool) (f : dict → result candidate) (ds : list dict) cs :
  (∀ d c, f d = Ok c → has_fields (if with_input then "input_digest" :: starting_fields else starting_fields) d = true) →
  rmap f ds = Ok cs → rmap (_candidate with_input) (JObj <$> ds) = Ok ds.
Proof.
  intros Hf H. apply rmap_all. apply rmap_ok in H. induction H as [|d c ds cs Hd _ IH]; [constructor|]. rewrite fmap_cons. constructor; [|done].
  unfold _candidate, object_of. by rewrite (Hf _ _ Hd).
Qed.

Lemma decode_member_manifest sels statuses seed m : check_member sels statuses seed m = Ok () → decode_member (m_node m, member_manifest m) = Ok m.
Proof.
  intros H. unfold check_member in H. apply rbind_ok in H as (? & _ & H). apply rbind_ok in H as (starting & Hs & H). apply rbind_ok in H as (? & _ & H).
  apply rbind_ok in H as (? & _ & H). apply rbind_ok in H as (population & Hp & _). rewrite decode_member_eq.
  rewrite (candidates_decode false starting_job _ starting); [|by intros d c (? & ?%require_ok & _)%rbind_ok|done]. cbn [rbind].
  rewrite (candidates_decode true (population_job starting) _ population); [|by intros d c (? & ?%require_ok & _)%rbind_ok|done]. cbn [rbind].
  rewrite bool_decide_eq_true_2 by done. by destruct m as [? [? ?] ? ? ? ? ? ?].
Qed.

Lemma decode_plan_eq p sid record : manifest p sid = Ok record →
  ∃ full, full_starting_coverage p = Ok full ∧ _decode_plan record =
    (let! members := rmap decode_member (dict_of ((λ m, (m_node m, member_manifest m)) <$> p_members p)) in
     Ok (MkSamplePlan (p_node p) (p_selectors p) (p_seed p) (p_statuses p) members (p_shape p) (p_combined_digest p), sid, full)).
Proof.
  unfold manifest. intros H. apply rbind_ok in H as (full & Hfull & H). injection H as <-. exists full. split; [done|].
  unfold _decode_plan, object_of at 1.
  match goal with |- context [has_fields plan_fields ?d] => replace (has_fields plan_fields d) with true by (symmetry; by vm_compute) end. cbn [rbind].
  reflexivity.
Qed.

Lemma decode_manifest p sid component shape roots record : NoDup component → admission_record p sid component shape = Ok (roots, record) →
  ∃ full, full_starting_coverage p = Ok full ∧ _decode_plan record = Ok (p, sid, full).
Proof.
  intros Hn H. unfold admission_record in H. apply rbind_ok in H as (? & _ & H). apply rbind_ok in H as (? & Hc%require_ok & H).
  apply andb_prop in Hc as [_ Hc%bool_decide_eq_true]. do 8 (apply rbind_ok in H as (? & ? & H)). apply rbind_ok in H as (? & Hms & H).
  apply rbind_ok in H as (? & _ & H). apply rbind_ok in H as (? & _ & H). apply rbind_ok in H as (record' & Hrec & H). injection H as <- <-.
  destruct (decode_plan_eq _ _ _ Hrec) as (full & Hfull & ->). exists full. split; [done|].
  assert (((λ m, (m_node m, member_manifest m)) <$> p_members p).*1 = component) as Hk by (rewrite <- list_fmap_compose; exact Hc).
  rewrite dict_of_distinct by (by rewrite Hk).
  rewrite (rmap_all decode_member _ (p_members p)); [by destruct p|]. apply rmap_ok in Hms. clear -Hms. revert Hms. generalize (p_members p). intros ms Hms.
  induction Hms as [|m u ms us Hm _ IH]; [constructor|]. rewrite fmap_cons. constructor; [|done]. destruct u. by eapply decode_member_manifest.
Qed.

Lemma dict_get_set k v d : dict_get k (dict_set k v d) = Some v.
Proof.
  induction d as [|[k' v'] d IH]; cbn; [by rewrite bool_decide_eq_true_2|]. destruct (bool_decide_reflect (k' = k)); cbn; [by rewrite bool_decide_eq_true_2|].
  by rewrite bool_decide_eq_false_2.
Qed.

(** C28: what an admission records of a sample reads back: from the text of the session's details the reader recovers the
    very plan that was admitted, its sample id and its roots, and neither the recomputed digests and selection nor the
    canonical form nor the coverage flag ever refuses it. *)
Theorem sample_record_roundtrip p sid component shape roots record details sn :
  admission_record p sid component shape = Ok (roots, record) → NoDup component →
  snapshot shape = Ok sn → component ∈ components sn → writable (JObj (dict_set "selection" record details)) = true →
  (let! selection := stored_selection (details_text details record) in checked_selection snapshot selection component shape)
    = Ok (MkSampleAdmissionHistory sid p roots).
Proof.
  intros H Hn Hsn Hin Hw. destruct (decode_manifest _ _ _ _ _ _ Hn H) as (full & Hfull & Hdec).
  unfold stored_selection, details_text. rewrite (loads_dumps true " " " " eq_refl eq_refl _ Hw), dict_get_set. cbn [rbind].
  unfold checked_selection. rewrite Hdec. cbn [rbind]. rewrite Hsn. cbn [on_value_error rbind].
  assert (p_shape p = JStr shape) as Hshape.
  { unfold admission_record in H. apply rbind_ok in H as (? & _ & H). apply rbind_ok in H as (? & _ & H). apply rbind_ok in H as (? & Hs%require_ok & _).
    by apply andb_prop in Hs as [_ Hs%bool_decide_eq_true]. }
  rewrite !bool_decide_eq_true_2 by done. cbn [andb require rbind]. rewrite H. cbn [rbind snd]. rewrite bool_decide_eq_true_2 by done. cbn [require rbind].
  rewrite Hfull. cbn [rbind]. by rewrite bool_decide_eq_true_2.
Qed.

(** ** Completion *)

Abbreviation observe := (read_job_owner_observation (λ s, let! sn := snapshot s in Ok (components sn))).

(** A sampled component is complete exactly when its whole starting population was selected and every job its members
    now have is unclaimed and either done or skipped, or an excluded starting job at the instance, status and generation it
    had; while anything else is left the answer is no. *)
Theorem sample_completion_exact d h :
  sample_has_no_unprocessed_work snapshot d h = Ok true ↔
  full_starting_coverage (sh_plan h) = Ok true ∧
  ∀ m i row, m ∈ p_members (sh_plan h) → jobs d !! (m_node m, i) = Some row →
    ∃ ob, observe d (m_node m, i) = Ok (Some ob) ∧ ob_active ob = None ∧
      (ob_status ob ∈ [DONE; SKIPPED] ∨ unchanged_excluded m i ob = true).
Proof.
  unfold sample_has_no_unprocessed_work. split.
  - intros H. apply rbind_ok in H as (full & Hfull & H). destruct full; cbn [negb] in H; [|discriminate H]. split; [done|].
    apply rbind_ok in H as (open & Ho & H). destruct open; [discriminate H|]. intros m i row Hm Hrow.
    apply elem_of_job_rows in Hrow. assert (rexists (λ row, let! b := job_settled snapshot d m row in Ok (negb b)) (job_rows d (m_node m)) = Ok false) as Hr
      by (by apply (proj1 (rexists_false _ _) Ho m)).
    pose proof (proj1 (rexists_false _ _) Hr (i, row) Hrow) as Hj. cbn beta in Hj. apply rbind_ok in Hj as (b & Hj & Hb). destruct b; [|discriminate Hb].
    unfold job_settled in Hj. cbn [fst] in Hj. apply rbind_ok in Hj as (o & Hob & Hj). destruct o as [ob|]; [|discriminate Hj]. injection Hj as Hj.
    apply andb_prop in Hj as [Ha%bool_decide_eq_true Hj]. exists ob. split_and!; [done|done|]. apply orb_prop in Hj as [Hj%bool_decide_eq_true|Hj]; auto.
  - intros [-> Hall]. cbn [rbind negb].
    replace (rexists _ (p_members (sh_plan h))) with (@Ok bool false); [done|]. symmetry. apply rexists_false. intros m Hm. apply rexists_false. intros [i row] Hrow.
    apply elem_of_job_rows in Hrow. destruct (Hall m i row Hm Hrow) as (ob & Ho & Ha & Hst). unfold job_settled. cbn [fst]. rewrite Ho. cbn [rbind].
    rewrite (bool_decide_eq_true_2 _ Ha). destruct Hst as [Hst|Hst]; [by rewrite bool_decide_eq_true_2|]. by rewrite Hst, orb_true_r.
Qed.
End roundtrip.

(** ** A component of two jobs *)

Module plan_sample_run.
Definition decode (shape : string) : result ComponentTopologySnapshot :=
  if bool_decide (shape = "shape") then Ok (MkSnapshot "shape" [["a"]]) else raise ValueError "not a shape".
Definition i1 := "00000000000000000000000000000001".
Definition i2 := "00000000000000000000000000000002".
Definition d0 : db := Db {[("a", 1) := JobRow 0 QUEUED None None None None None None None None; ("a", 2) := JobRow 3 DONE None None None None None None None None]}
  {[("a", 1) := InstanceRow i1 None None; ("a", 2) := InstanceRow i2 None None]} ∅ ∅ ∅ ∅ ∅ ∅ ∅ [] 0.
Definition input_digest := _digest "mwf.sample.test" JNull.
Definition files : sample_files := SampleFiles (λ _ _, Ok input_digest) (λ _, Ok ∅) (λ _, Ok ∅).
Definition planned_run := plan_sample decode files d0 (MkSnapshot "shape" [["a"]]) "a" ["100%"] "seed" [QUEUED] None.
Definition p : SamplePlan := match planned_run with Ok p => p | Err _ => MkSamplePlan JNull [] JNull [] [] JNull JNull end.
Definition admitted_run := admission_record p (JStr "s1") ["a"] "shape".
Definition record : json := match admitted_run with Ok (_, r) => r | Err _ => JNull end.

Lemma plans : planned_run = Ok p.
Proof. vm_compute. reflexivity. Qed.

Lemma admits : admitted_run = Ok ([(("a", 1), i1)], record).
Proof. vm_compute. reflexivity. Qed.

Lemma rows_typed : jobs_typed d0.
Proof.
  unfold jobs_typed. change (map_Forall (λ (a : addr) row, 1 <= a.2 ∧ status row ∈ JOB_VALID_STATUSES ∧ 0 <= generation row) (jobs d0)).
  apply (bool_decide_unpack _). by vm_compute.
Qed.
End plan_sample_run.

Lemma planned_sample_admitted_witness :
  ∃ component roots record, admission_record plan_sample_run.p (JStr "s1") component "shape" = Ok (roots, record) ∧ NoDup roots.*1.
Proof.
  destruct (planned_sample_admitted plan_sample_run.decode plan_sample_run.files plan_sample_run.d0 (MkSnapshot "shape" [["a"]]) "a" ["100%"] "seed" [QUEUED] None
    "s1" plan_sample_run.p plan_sample_run.rows_typed) as (component & roots & record & _ & _ & Hr & Hn & _).
  - intros n i t [= <-]. apply digest_required.
  - intros c ->%list_elem_of_singleton. apply (bool_decide_unpack _). by vm_compute.
  - by vm_compute.
  - by vm_compute.
  - exact plan_sample_run.plans.
  - exists component, roots, record. split; [exact Hr|exact Hn].
Defined.

Lemma sample_record_roundtrip_witness :
  (let! selection := stored_selection (details_text [("reason", JStr "nightly")] plan_sample_run.record) in
   checked_selection plan_sample_run.decode selection ["a"] "shape")
    = Ok (MkSampleAdmissionHistory (JStr "s1") plan_sample_run.p [(("a", 1), plan_sample_run.i1)]).
Proof.
  apply (sample_record_roundtrip plan_sample_run.decode plan_sample_run.p (JStr "s1") ["a"] "shape" [(("a", 1), plan_sample_run.i1)] plan_sample_run.record
    [("reason", JStr "nightly")] (MkSnapshot "shape" [["a"]]) plan_sample_run.admits).
  - apply (bool_decide_unpack _). by vm_compute.
  - reflexivity.
  - apply list_elem_of_here.
  - by vm_compute.
Defined.
