(* ===== verification/ThreadOverrides.v ===== *)
(** Thread limits of nodes ([storage/thread_overrides.py]): a limit set while nobody runs a
    node waits as a pending row and is bound to the session that reserves the node; an
    interrupt copies the limits of what it borrows; settlement clears them.

    [thread_overrides] is what reservations, interrupts, claims and settlements use of
    this component, [OverrideLaws] what they may rely on; [stored_overrides] is the
    implementation. *)
From S2P Require Import Prelude Topology Membership JobStore ComponentRows ComponentLife Sessions.

#[local] Open Scope Z_scope.

(** ** The interface *)

Record thread_overrides := ThreadOverrides {
  bind_pending : sdb → string → list string → result sdb;
  transfer_overrides : sdb → string → string → key → result sdb;
  clear_overrides : sdb → string → result sdb;
  (** [validate_thread_override_claim]. *)
  claim_error : sdb → string → key → option exc
}.

(** Only the tables of overrides differ. *)
Definition overrides_only (s s' : sdb) : Prop := ∃ ps ns l, s' = set_overrides ps ns l s.

Class OverrideLaws (o : thread_overrides) : Prop := {
  bind_frame s x ns s' : bind_pending o s x ns = Ok s' → overrides_only s s';
  transfer_frame s y x c s' : transfer_overrides o s y x c = Ok s' → overrides_only s s';
  clear_frame s x s' : clear_overrides o s x = Ok s' → overrides_only s s'
}.

Definition error_of {A} (r : result A) : option exc := match r with Ok _ => None | Err e => Some e end.

(** ** Jobs that may still run ([execution_ownership.py]) *)

(** The [WHERE] of [_read_active_job_owner_rows]. *)
Definition maybe_active (j : job_row) : bool :=
  bool_decide (status j = RUNNING) || bool_decide (is_Some (active_execution_id j)) || bool_decide (is_Some (active_pid j))
  || bool_decide (is_Some (active_thread_id j)) || bool_decide (is_Some (active_started_at j)).

(** The jobs of a node that may still run, by id. *)
Definition active_jobs_of (s : sdb) (node : string) : list addr :=
  (fst : addr * job_row → addr) <$> sort_by (λ q : addr * job_row, q.1.2)
    (map_to_list (filter (λ q : addr * job_row, q.1.1 = node ∧ maybe_active q.2 = true) (jobs (jobs_db s)))).

(** ** Observations *)

Record override_observation := OverrideObservation {
  ov_node : string;
  ov_value : option Z;
  ov_session : option string
}.

#[export] Instance override_observation_eq_dec : EqDecision override_observation.
Proof. solve_decision. Defined.

Definition validate_positive_int (value : Z) : result Z :=
  check! 1 <=? value orelse ValueError saying "must be an integer >= 1" in Ok value.

Section overrides.
Context (component_snapshot_from_shape : string → result ComponentTopologySnapshot).
(** [datetime.fromisoformat] accepts the text; the text is JSON, a list, an object, []. *)
Context (is_isoformat is_json is_list is_object is_empty_list : string → bool).
Context (h : host).

(** [_session]: a session with whether it is live. *)
Definition _session (s : sdb) (x : string) (allow_terminal : bool) : result (session_view * bool) :=
  check! bool_decide (is_Some (sessions (jobs_db s) !! x)) orelse RuntimeError saying "Thread ownership names a missing session" in
  let! v := execution_session_from_row_snapshot component_snapshot_from_shape is_json s x in
  let! _ := validate_execution_session_snapshot is_isoformat is_list is_object is_empty_list x v in
  check! allow_terminal || bool_decide (s_status (sv_row v) = "running")
    orelse RuntimeError saying "Thread ownership names a terminal session" in
  Ok (v, live h (sv_row v)).

(** One job of [_active_job_sessions]: its session when that runs. *)
Definition active_job_session (s : sdb) (component : key) (allow_terminal : bool) (a : addr) : result (option string) :=
  match jobs (jobs_db s) !! a with
  | None => Ok None
  | Some row =>
      check! bool_decide (status row = RUNNING) && bool_decide (is_Some (active_execution_id row))
             && bool_decide (is_Some (active_started_at row))
             && (1 <=? default 0 (active_pid row)) && (1 <=? default 0 (active_thread_id row))
             && is_isoformat (default "" (active_started_at row))
        orelse RuntimeError saying "Damaged active thread ownership" in
      let! observed := read_job_owner_observation (λ s, let! sn := component_snapshot_from_shape s in Ok (components sn)) (jobs_db s) a in
      match observed ≫= ob_owner with
      | None => raise RuntimeError "Damaged active thread ownership"
      | Some ow =>
          check! bool_decide (ow_component ow = component) orelse RuntimeError saying "Damaged active thread ownership" in
          let! v := _session s (ow_session ow) allow_terminal in
          Ok (if bool_decide (s_status (sv_row v.1) = "running") then Some (ow_session ow) else None)
      end
  end.

(** [_active_job_sessions]. *)
Definition _active_job_sessions (s : sdb) (component : key) (allow_terminal : bool) : result (gset string) :=
  let! found := rmap (active_job_session s component allow_terminal) (node ← component; active_jobs_of s node) in
  Ok (list_to_set (omap id found)).

(** [_reservation_for_node]: component, session and whether that is live. *)
Definition _reservation_for_node (s : sdb) (node : string) : result (option (key * string * bool)) :=
  let! found := rmap (λ q : string * string,
    let! component := on_value_error (decode_component_key q.1) "Damaged component reservation identity" in
    if negb (bool_decide (node ∈ component)) then Ok None else
    let! v := _session s q.2 false in
    check! bool_decide (component ∈ sv_components v.1) orelse RuntimeError saying "Thread reservation is outside session selection" in
    Ok (Some (component, q.2, v.2))) (py_sorted (map_to_list (reservations (jobs_db s)))) in
  match omap id found with
  | [] => Ok None
  | [q] => Ok (Some q)
  | _ => raise RuntimeError "Ambiguous thread reservations"
  end.

Definition sessions_of_node (s : sdb) (node : string) : gset string :=
  list_to_set (omap (λ q : (string * string) * Z, if bool_decide (q.1.1 = node) then Some q.1.2 else None) (map_to_list (node_overrides s))).

(** [SELECT value, session_id ... ORDER BY session_id]. *)
Definition overrides_of_node (s : sdb) (node : string) : list (string * Z) :=
  omap (λ x, v ← node_overrides s !! (node, x); Some (x, v))
    (py_sorted (elements (sessions_of_node s node))).

(** [_stored_node_overrides]: the pending value and the value of each session. *)
Definition _stored_node_overrides (s : sdb) (node : string) : result (option Z * list (string * Z)) :=
  let pending := pending_overrides s !! node in
  let! _ := match pending with Some v => validate_positive_int v | None => Ok 1 end in
  let! owned := rmap (λ q : string * Z,
    let! _ := validate_positive_int q.2 in
    let! _ := _session s q.1 false in
    Ok q) (overrides_of_node s node) in
  Ok (pending, owned).

(** [read_thread_override_observation]. *)
Definition read_thread_override_observation (s : sdb) (node : string) (allow_terminal_jobs : bool)
  : result override_observation :=
  let! _ := validate_node_name node in
  let! component := read_active_component_for_node (memberships (core s)) node in
  let! reservation := _reservation_for_node s node in
  let! active := match component with
    | None =>
        check! bool_decide (active_jobs_of s node = []) orelse RuntimeError saying "Active job has no current component ownership" in
        Ok ∅
    | Some c => _active_job_sessions s c allow_terminal_jobs
    end in
  check! bool_decide (active = ∅)
         || match reservation with
            | Some (c, x, _) => bool_decide (active = {[x]}) && bool_decide (component = Some c)
            | None => false
            end
    orelse RuntimeError saying "Ambiguous thread owner" in
  let! stored := _stored_node_overrides s node in
  match reservation with
  | Some (_, x, true) =>
      check! bool_decide (stored.1 = None) orelse RuntimeError saying "Pending thread override was not bound to owner" in
      Ok (OverrideObservation node ((list_to_map stored.2 : gmap string Z) !! x) (Some x))
  | _ => Ok (OverrideObservation node stored.1 None)
  end.

(** [read_thread_override_for_session]. *)
Definition read_thread_override_for_session (s : sdb) (node : string) (session : option string) : result (option Z) :=
  let! _ := validate_node_name node in
  match session with
  | None => Ok None
  | Some x =>
      let! observed := read_thread_override_observation s node false in
      Ok (if bool_decide (ov_session observed = Some x) then ov_value observed else None)
  end.

(** [validate_thread_override_claim]. *)
Definition validate_thread_override_claim (s : sdb) (x : string) (component : key) : result () :=
  let! _ := rmap (λ node,
    let! observed := read_thread_override_observation s node false in
    check! bool_decide (ov_session observed = Some x) orelse RuntimeError saying "Thread ownership is not bound to claiming session" in
    Ok ()) component in
  Ok ().

(** ** Operations *)

(** The value of a node: pending, or of its owner. *)
Definition write_override (node : string) (owner : option string) (v : option Z) (s : sdb) : sdb :=
  match owner with
  | None => set_overrides (partial_alter (λ _, v) node (pending_overrides s)) (node_overrides s) (api_limit s) s
  | Some x => set_overrides (pending_overrides s) (partial_alter (λ _, v) (node, x) (node_overrides s)) (api_limit s) s
  end.

(** [set_thread_override]. *)
Definition set_thread_override (s : sdb) (node : string) (value : Z) (expected : override_observation) : result (sdb * Z) :=
  let! _ := validate_node_name node in
  let! value := validate_positive_int value in
  let! current := read_thread_override_observation s node false in
  check! bool_decide (current = expected) orelse RuntimeError saying "Thread ownership changed before the update" in
  check! bool_decide (is_Some (nodes (jobs_db s) !! node)) orelse UserError saying "FOREIGN KEY constraint failed" in
  let s := write_override node (ov_session current) (Some value) s in
  let! recorded := read_thread_override_observation s node false in
  check! bool_decide (recorded = OverrideObservation node (Some value) (ov_session current))
    orelse RuntimeError saying "Native thread override readback failed" in
  Ok (s, value).

(** [clear_thread_override]: whether there was a value. *)
Definition clear_thread_override (s : sdb) (node : string) (expected : override_observation) : result (sdb * bool) :=
  let! _ := validate_node_name node in
  let! current := read_thread_override_observation s node false in
  check! bool_decide (current = expected) orelse RuntimeError saying "Thread ownership changed before reset" in
  match ov_value current with
  | None => Ok (s, false)
  | Some _ =>
      let s := write_override node (ov_session current) None s in
      let! recorded := read_thread_override_observation s node false in
      check! bool_decide (recorded = OverrideObservation node None (ov_session current))
        orelse RuntimeError saying "Native thread override reset readback failed" in
      Ok (s, true)
  end.

(** One node of [_bind_pending_thread_overrides]. *)
Definition bind_node (x : string) (s : sdb) (node : string) : result sdb :=
  let pending := pending_overrides s !! node in
  check! negb (bool_decide (is_Some (node_overrides s !! (node, x)))) || bool_decide (pending = None)
    orelse RuntimeError saying "Session has both pending and owned thread overrides" in
  let! s := match pending with
            | None => Ok s
            | Some v =>
                let! v := validate_positive_int v in
                Ok (set_overrides (delete node (pending_overrides s)) (<[(node, x) := v]> (node_overrides s)) (api_limit s) s)
            end in
  let! observed := read_thread_override_observation s node true in
  check! bool_decide (ov_session observed = Some x) orelse RuntimeError saying "Thread ownership did not bind during admission" in
  check! bool_decide (pending = None) || bool_decide (ov_value observed = pending)
    orelse RuntimeError saying "Thread override value changed during admission" in
  Ok s.

(** [_bind_pending_thread_overrides]; nobody uses the number of moved values. *)
Definition _bind_pending_thread_overrides (s : sdb) (x : string) (nodes : list string) : result sdb :=
  rfold (bind_node x) s (py_sorted_set nodes).

(** The values of a session for the members of a component, by name. *)
Definition member_rows (s : sdb) (x : string) (members : key) : list (string * Z) :=
  omap (λ node, v ← node_overrides s !! (node, x); Some (node, v)) members.

(** [_transfer_thread_overrides]. *)
Definition _transfer_thread_overrides (s : sdb) (source child : string) (members : key) : result sdb :=
  check! negb (bool_decide (members = [])) && bool_decide (members = py_sorted_set members)
    orelse ValueError saying "Thread override transfer requires one canonical component" in
  let! v := _session s source false in
  let! w := _session s child false in
  check! v.2 && w.2 orelse RuntimeError saying "Thread override transfer requires two live sessions" in
  check! bool_decide (members ∈ sv_components v.1) && bool_decide (members ∈ sv_components w.1)
    orelse RuntimeError saying "Thread override transfer is outside session selection" in
  check! forallb (λ n, bool_decide (pending_overrides s !! n = None)) members
    orelse RuntimeError saying "Owned component has an unbound pending thread override" in
  let source_rows := member_rows s source members in
  let child_rows := member_rows s child members in
  let! _ := rmap (λ q : string * Z, validate_positive_int q.2) source_rows in
  let! _ := rmap (λ q : string * Z, validate_positive_int q.2) child_rows in
  check! bool_decide (child_rows = []) || bool_decide (child_rows = source_rows)
    orelse RuntimeError saying "Interrupt child has conflicting thread override rows" in
  let s := if bool_decide (child_rows = [])
           then set_overrides (pending_overrides s)
                  (foldl (λ m (q : string * Z), <[(q.1, child) := q.2]> m) (node_overrides s) source_rows) (api_limit s) s
           else s in
  check! bool_decide (member_rows s child members = source_rows)
    orelse RuntimeError saying "Transferred thread override readback failed" in
  Ok s.

(** [_clear_thread_overrides_for_session]. *)
Definition _clear_thread_overrides_for_session (s : sdb) (x : string) : result sdb :=
  Ok (set_overrides (pending_overrides s) (filter (λ q : (string * string) * Z, q.1.2 ≠ x) (node_overrides s))
        (if existsb (λ q : string * session_row, bool_decide (s_status q.2 = "running")) (map_to_list (sessions (jobs_db s)))
         then api_limit s else None) s).

(** What the rest of the program uses. *)
Definition stored_overrides : thread_overrides := ThreadOverrides
  _bind_pending_thread_overrides _transfer_thread_overrides _clear_thread_overrides_for_session
  (λ s x c, error_of (validate_thread_override_claim s x c)).
End overrides.

(** ** The aggregate API limit *)

(** [read_api_total_limit]. *)
Definition read_api_total_limit (s : sdb) : result (option Z) :=
  match api_limit s with None => Ok None | Some v => let! v := validate_positive_int v in Ok (Some v) end.

(** [update_api_total_limit]. *)
Definition update_api_total_limit (s : sdb) (value : Z) (relative : bool) : result (sdb * Z) :=
  let! value := if relative then Ok value else validate_positive_int value in
  let! current := match api_limit s with None => Ok 1 | Some v => validate_positive_int v end in
  let requested := if relative then current + value else value in
  check! 1 <=? requested orelse ValueError saying "effective max_threads must remain at least 1" in
  Ok (set_overrides (pending_overrides s) (node_overrides s) (Some requested) s, requested).

(** [clear_api_total_limit]. *)
Definition clear_api_total_limit (s : sdb) : sdb * bool :=
  match api_limit s with
  | None => (s, false)
  | Some _ => (set_overrides (pending_overrides s) (node_overrides s) None s, true)
  end.

(** ** What the observation depends on *)

Section facts.
Context (snapshot : string → result ComponentTopologySnapshot) (iso json list_ object_ empty : string → bool) (h : host).

Abbreviation session_of := (_session snapshot iso json list_ object_ empty h).
Abbreviation reservation_of := (_reservation_for_node snapshot iso json list_ object_ empty h).
Abbreviation stored_of := (_stored_node_overrides snapshot iso json list_ object_ empty h).
Abbreviation observe := (read_thread_override_observation snapshot iso json list_ object_ empty h).
Abbreviation bind_one := (bind_node snapshot iso json list_ object_ empty h).

#[export] Instance stored_overrides_laws : OverrideLaws (stored_overrides snapshot iso json list_ object_ empty h).
Proof.
  assert (∀ s, overrides_only s s) as Hrefl by (intros []; by eexists _, _, _).
  assert (∀ s a b c s', overrides_only (set_overrides a b c s) s' → overrides_only s s') as Htrans.
  { intros s a b c s' (p & n & l & ->). by exists p, n, l. }
  split; cbn.
  - intros s x ns s'. unfold _bind_pending_thread_overrides. generalize (py_sorted_set ns). clear ns.
    intros l. revert s. induction l as [|n l IH]; cbn; intros s H; inv_ok; [done|].
    match goal with H : bind_node _ _ _ _ _ _ _ _ _ _ = Ok _ |- _ => unfold bind_node in H; inv_ok end.
    destruct (pending_overrides s !! n); inv_ok; eauto.
  - intros s y x c s' H. unfold _transfer_thread_overrides in H. inv_ok. match goal with |- overrides_only _ (if ?b then _ else _) => destruct b end; [by eexists _, _, _|apply Hrefl].
  - intros s x s' H. unfold _clear_thread_overrides_for_session in H. inv_ok. by eexists _, _, _.
Qed.

(** What the observation says once the stored values are read. *)
Definition resolve (node : string) (r : option (key * string * bool)) (stored : option Z * list (string * Z))
  : result override_observation :=
  match r with
  | Some (_, x, true) =>
      check! bool_decide (stored.1 = None) orelse RuntimeError saying "Pending thread override was not bound to owner" in
      Ok (OverrideObservation node ((list_to_map stored.2 : gmap string Z) !! x) (Some x))
  | _ => Ok (OverrideObservation node stored.1 None)
  end.

(** The part of the observation that does not read the values. *)
Definition owner_checks (s : sdb) (node : string) (terminal : bool) : result (option (key * string * bool)) :=
  let! _ := validate_node_name node in
  let! component := read_active_component_for_node (memberships (core s)) node in
  let! reservation := reservation_of s node in
  let! active := match component with
    | None =>
        check! bool_decide (active_jobs_of s node = []) orelse RuntimeError saying "Active job has no current component ownership" in
        Ok ∅
    | Some c => _active_job_sessions snapshot iso json list_ object_ empty h s c terminal
    end in
  check! bool_decide (active = ∅)
         || match reservation with
            | Some (c, x, _) => bool_decide (active = {[x]}) && bool_decide (component = Some c)
            | None => false
            end
    orelse RuntimeError saying "Ambiguous thread owner" in
  Ok reservation.

Lemma observe_split s node terminal :
  observe s node terminal = let! r := owner_checks s node terminal in let! st := stored_of s node in resolve node r st.
Proof.
  unfold read_thread_override_observation, owner_checks.
  repeat (match goal with |- rbind ?m _ = rbind (rbind ?m _) _ => destruct m; cbn [rbind]; [|done] end).
  done.
Qed.

Lemma owner_checks_overrides ps ns l s node terminal : owner_checks (set_overrides ps ns l s) node terminal = owner_checks s node terminal.
Proof. reflexivity. Qed.

Lemma session_overrides ps ns l s x t : session_of (set_overrides ps ns l s) x t = session_of s x t.
Proof. reflexivity. Qed.

(** A node's stored values are positive and belong to running sessions that can be read. *)
Definition readable_values (s : sdb) (node : string) : Prop :=
  (∀ v, pending_overrides s !! node = Some v → 1 ≤ v) ∧
  (∀ x v, node_overrides s !! (node, x) = Some v → 1 ≤ v ∧ is_ok (session_of s x false) = true).

Lemma elem_sessions_of_node s node x : x ∈ sessions_of_node s node ↔ is_Some (node_overrides s !! (node, x)).
Proof.
  unfold sessions_of_node. rewrite elem_of_list_to_set, list_elem_of_omap. split.
  - intros ([[n y] v] & Hin%elem_of_map_to_list & Hq). cbn in Hq. case_bool_decide; [|done]. exists v. congruence.
  - intros [v Hv]. exists ((node, x), v). split; [by apply elem_of_map_to_list|]. cbn. by rewrite bool_decide_eq_true_2.
Qed.

Lemma elem_overrides_of_node s node x v : (x, v) ∈ overrides_of_node s node ↔ node_overrides s !! (node, x) = Some v.
Proof.
  unfold overrides_of_node. rewrite list_elem_of_omap. split.
  - intros (y & _ & Hy). destruct (node_overrides s !! (node, y)) eqn:E; [|done]. cbn in Hy. congruence.
  - intros Hv. exists x. rewrite elem_of_py_sorted, elem_of_elements, elem_sessions_of_node, Hv. by split; [eexists|].
Qed.

Lemma overrides_of_node_lookup s node x : (list_to_map (overrides_of_node s node) : gmap string Z) !! x = node_overrides s !! (node, x).
Proof.
  destruct (node_overrides s !! (node, x)) as [v|] eqn:E.
  - apply elem_of_list_to_map_1'; [|by apply elem_overrides_of_node]. intros w Hw%elem_overrides_of_node. congruence.
  - apply not_elem_of_list_to_map_1. intros ((y & w) & -> & Hw%elem_overrides_of_node)%list_elem_of_fmap. cbn in E. congruence.
Qed.

Lemma stored_ok s node st : stored_of s node = Ok st ↔ st = (pending_overrides s !! node, overrides_of_node s node) ∧ readable_values s node.
Proof.
  unfold _stored_node_overrides, readable_values. split.
  - intros H. inv_ok. match goal with H : rmap _ _ = Ok ?l |- _ => rename l into rows; apply rmap_ok in H; rename H into HF end.
    assert (rows = overrides_of_node s node) as ->.
    { symmetry. clear -HF. induction HF as [|q r l l' Hq _ IH]; [done|]. inv_ok. by f_equal. }
    split; [done|]. split.
    + intros v Hv. rewrite Hv in Hx. unfold validate_positive_int in Hx. inv_ok. lia.
    + intros y v Hv%elem_overrides_of_node. apply list_elem_of_lookup in Hv as [i Hi].
      destruct (Forall2_lookup_l _ _ _ _ _ HF Hi) as (q & _ & Hq). cbn in Hq. unfold validate_positive_int in Hq. inv_ok.
      split; [lia|]. match goal with H : _session _ _ _ _ _ _ _ _ _ _ = Ok _ |- _ => by rewrite H end.
  - intros (-> & Hp & Ho).
    assert (∀ v, 1 ≤ v → validate_positive_int v = Ok v) as Hpos.
    { intros v Hv. unfold validate_positive_int, require. by rewrite (proj2 (Z.leb_le 1 v) Hv). }
    assert (match pending_overrides s !! node with Some v => validate_positive_int v | None => Ok 1 end =
      Ok (default 1 (pending_overrides s !! node))) as ->.
    { destruct (pending_overrides s !! node) as [v|]; [|done]. by apply Hpos, Hp. }
    cbn. match goal with |- rbind (rmap ?f ?l) _ = _ => assert (rmap f l = Ok l) as -> end; [|done].
    assert (∀ q, q ∈ overrides_of_node s node → 1 ≤ q.2 ∧ is_ok (session_of s q.1 false) = true) as Hall.
    { intros [y v] Hq%elem_overrides_of_node. by apply Ho. }
    revert Hall. generalize (overrides_of_node s node). intros l Hall. induction l as [|[y v] l IH]; [done|].
    cbn [rmap fst snd]. destruct (Hall (y, v)) as [Hv Hy]; [by left|]. cbn in Hv, Hy. rewrite (Hpos _ Hv). cbn [rbind].
    destruct (session_of s y false); [|done]. cbn [rbind]. rewrite IH; [done|]. intros q Hq. apply Hall. by right.
Qed.

Definition owner_of (r : option (key * string * bool)) : option string :=
  match r with Some (_, x, true) => Some x | _ => None end.

Definition value_of (s : sdb) (node : string) (owner : option string) : option Z :=
  match owner with None => pending_overrides s !! node | Some x => node_overrides s !! (node, x) end.

Lemma resolve_eq s node r :
  (is_Some (owner_of r) → pending_overrides s !! node = None) →
  resolve node r (pending_overrides s !! node, overrides_of_node s node) =
    Ok (OverrideObservation node (value_of s node (owner_of r)) (owner_of r)).
Proof.
  intros Hp. destruct r as [[[c x] []]|]; cbn; [|done|done]. rewrite overrides_of_node_lookup.
  by rewrite bool_decide_eq_true_2 by (by apply Hp).
Qed.

Lemma observe_intro s node t r : owner_checks s node t = Ok r → readable_values s node →
  (is_Some (owner_of r) → pending_overrides s !! node = None) →
  observe s node t = Ok (OverrideObservation node (value_of s node (owner_of r)) (owner_of r)).
Proof.
  intros Hr Hread Hp. rewrite observe_split, Hr. cbn [rbind].
  rewrite (proj2 (stored_ok s node _) (conj eq_refl Hread)). cbn [rbind]. by apply resolve_eq.
Qed.

Lemma observe_inv s node t cur : observe s node t = Ok cur → ∃ r, owner_checks s node t = Ok r ∧ readable_values s node ∧
  (is_Some (owner_of r) → pending_overrides s !! node = None) ∧
  cur = OverrideObservation node (value_of s node (owner_of r)) (owner_of r).
Proof.
  rewrite observe_split. intros H. inv_ok. match goal with H : _stored_node_overrides _ _ _ _ _ _ _ _ _ = Ok _ |- _ => apply stored_ok in H as [-> Hread] end.
  exists x. assert (is_Some (owner_of x) → pending_overrides s !! node = None) as Hp.
  { intros [y Hy]. destruct x as [[[c z] []]|]; try discriminate. cbn in H. inv_ok. by apply bool_decide_eq_true in Hg. }
  rewrite (resolve_eq s node x Hp) in H. injection H as <-. done.
Qed.

(** A live reservation belongs to a session that can be read. *)
Lemma owner_readable s node t r x : owner_checks s node t = Ok r → owner_of r = Some x → is_ok (session_of s x false) = true.
Proof.
  unfold owner_checks. intros H Ho. inv_ok. unfold _reservation_for_node in *. inv_ok.
  match goal with H : rmap _ _ = Ok ?l |- _ => apply rmap_ok in H; rename H into HF; rename l into found end.
  destruct r as [[[c y] []]|]; try discriminate. injection Ho as ->.
  assert (Some (c, x, true) ∈ found) as Hin.
  { destruct (omap id found) as [|q [|]] eqn:E; inv_ok; simplify_eq. assert ((c, x, true) ∈ omap id found) as Hq by (rewrite E; by left).
    apply list_elem_of_omap in Hq as (o & Ho & Hq). cbn in Hq. by subst. }
  apply list_elem_of_lookup in Hin as [i Hi]. destruct (Forall2_lookup_r _ _ _ _ _ HF Hi) as (q & _ & Hq).
  inv_ok. destruct (negb _); inv_ok; simplify_eq.
  match goal with H : _session _ _ _ _ _ _ _ _ _ _ = Ok _ |- _ => by rewrite H end.
Qed.

(** *** Writing *)

Lemma write_owner_checks node o v s n t : owner_checks (write_override node o v s) n t = owner_checks s n t.
Proof. by destruct o. Qed.

Lemma write_only node o v s : overrides_only s (write_override node o v s).
Proof. destruct o; by eexists _, _, _. Qed.

Lemma write_value node o v s : value_of (write_override node o v s) node o = v.
Proof. destruct o; cbn; by rewrite lookup_partial_alter_eq. Qed.

Lemma write_readable node o v s : readable_values s node →
  (∀ w, v = Some w → 1 ≤ w ∧ ∀ x, o = Some x → is_ok (session_of s x false) = true) → readable_values (write_override node o v s) node.
Proof.
  intros [Hp Ho] Hv. split.
  - intros w. destruct o as [x|]; cbn; [apply Hp|]. rewrite lookup_partial_alter_eq. intros Hw. by apply Hv in Hw as [??].
  - intros y w. destruct o as [x|]; cbn; [|apply Ho]. destruct (decide (y = x)) as [->|Hne].
    + rewrite lookup_partial_alter_eq. intros Hw. destruct (Hv _ Hw) as [? Hs]. split; [done|]. rewrite session_overrides. by apply Hs.
    + rewrite lookup_partial_alter_ne by congruence. apply Ho.
Qed.

Lemma write_pending node o v s : is_Some o → pending_overrides (write_override node o v s) = pending_overrides s.
Proof. intros [x ->]. done. Qed.

Lemma write_other node o v s n t : n ≠ node → observe (write_override node o v s) n t = observe s n t.
Proof.
  intros Hn. rewrite !observe_split, write_owner_checks. destruct (owner_checks s n t) as [r|]; [|done]. cbn [rbind].
  assert (pending_overrides (write_override node o v s) !! n = pending_overrides s !! n) as Hp.
  { destruct o; cbn; [done|]. by rewrite lookup_partial_alter_ne. }
  assert (∀ x, node_overrides (write_override node o v s) !! (n, x) = node_overrides s !! (n, x)) as Hx.
  { intros x. destruct o; cbn; [|done]. rewrite lookup_partial_alter_ne; [done|congruence]. }
  assert (overrides_of_node (write_override node o v s) n = overrides_of_node s n) as Hl.
  { assert (∀ l : list string, omap (λ x, w ← node_overrides (write_override node o v s) !! (n, x); Some (x, w)) l =
                 omap (λ x, w ← node_overrides s !! (n, x); Some (x, w)) l) as E.
    { induction l as [|x l IH]; [done|]. cbn. by rewrite Hx, IH. }
    unfold overrides_of_node. rewrite E.
    assert (sessions_of_node (write_override node o v s) n = sessions_of_node s n) as ->; [|done].
    apply set_eq. intros x. by rewrite !elem_sessions_of_node, Hx. }
  unfold _stored_node_overrides. rewrite Hp, Hl. destruct o; reflexivity.
Qed.
Lemma node_name_checked s node t r : owner_checks s node t = Ok r → is_ok (validate_node_name node) = true.
Proof. unfold owner_checks. by destruct (validate_node_name node). Qed.

(** The readback of a write that leaves the owner readable succeeds. *)
Lemma write_observe s node t cur v : observe s node t = Ok cur → (∀ w, v = Some w → 1 ≤ w) →
  observe (write_override node (ov_session cur) v s) node t = Ok (OverrideObservation node v (ov_session cur)).
Proof.
  intros (r & Hr & Hread & Hp & ->)%observe_inv Hv. cbn [ov_session].
  rewrite (observe_intro _ node t r); [by rewrite write_value|by rewrite write_owner_checks| |].
  - apply write_readable; [done|]. intros w ->. split; [by apply Hv|]. intros x Hx. by eapply owner_readable.
  - intros Ho. rewrite write_pending by done. by apply Hp.
Qed.

Lemma set_override_ok s node v cur : observe s node false = Ok cur → 1 ≤ v → is_Some (nodes (jobs_db s) !! node) →
  set_thread_override snapshot iso json list_ object_ empty h s node v cur = Ok (write_override node (ov_session cur) (Some v) s, v).
Proof.
  intros Hcur Hv Hn. pose proof (observe_inv _ _ _ _ Hcur) as (r & Hr & _). apply node_name_checked in Hr as Hname.
  unfold set_thread_override. destruct (validate_node_name node); [|done]. cbn [rbind].
  unfold validate_positive_int. rewrite (proj2 (Z.leb_le 1 v) Hv). cbn [require rbind]. rewrite Hcur. cbn [rbind].
  rewrite !bool_decide_eq_true_2 by done. cbn [require rbind].
  rewrite (write_observe _ _ _ _ _ Hcur) by (by intros w [= <-]). cbn [rbind]. by rewrite bool_decide_eq_true_2.
Qed.

Lemma clear_override_ok s node cur : observe s node false = Ok cur → is_Some (ov_value cur) →
  clear_thread_override snapshot iso json list_ object_ empty h s node cur = Ok (write_override node (ov_session cur) None s, true).
Proof.
  intros Hcur [v Hv]. pose proof (observe_inv _ _ _ _ Hcur) as (r & Hr & _). apply node_name_checked in Hr as Hname.
  unfold clear_thread_override. destruct (validate_node_name node); [|done]. cbn [rbind]. rewrite Hcur. cbn [rbind].
  rewrite bool_decide_eq_true_2 by done. cbn [require rbind]. rewrite Hv.
  rewrite (write_observe _ _ _ _ _ Hcur) by done. cbn [rbind]. by rewrite bool_decide_eq_true_2.
Qed.

Lemma write_twice node o v w s : write_override node o w (write_override node o v s) = write_override node o w s.
Proof.
  destruct o; unfold write_override, set_overrides; cbn; f_equal; apply partial_alter_partial_alter_eq.
Qed.

Lemma write_same node o s : write_override node o (value_of s node o) s = s.
Proof.
  destruct s, o; unfold write_override, set_overrides; cbn; f_equal; apply partial_alter_self.
Qed.

(** *** Binding *)

Lemma bind_node_ok x s node s' : bind_one x s node = Ok s' →
  pending_overrides s' = delete node (pending_overrides s) ∧
  node_overrides s' = match pending_overrides s !! node with
                      | Some v => <[(node, x) := v]> (node_overrides s) | None => node_overrides s end ∧
  (is_Some (pending_overrides s !! node) → node_overrides s !! (node, x) = None) ∧
  observe s' node true = Ok (OverrideObservation node (node_overrides s' !! (node, x)) (Some x)).
Proof.
  intros H. unfold bind_node in H. inv_ok.
  match goal with H : read_thread_override_observation _ _ _ _ _ _ _ ?s1 _ _ = Ok ?o |- _ =>
    pose proof (observe_inv _ _ _ _ H) as (r & Hr & Hread & Hp & ->); rename H into Hobs; rename s1 into s' end.
  repeat match goal with H : _ || _ = true |- _ => apply orb_true_iff in H | H : bool_decide _ = true |- _ => apply bool_decide_eq_true in H end.
  cbn [ov_session ov_value] in *. rewrite Hg0 in *. cbn [value_of] in *.
  destruct (pending_overrides s !! node) as [v|] eqn:E; inv_ok.
  - unfold validate_positive_int in *. inv_ok. cbn [pending_overrides node_overrides set_overrides]. split_and!; try done.
    intros _. destruct Hg as [Hg|Hg]; [|by apply bool_decide_eq_true in Hg]. apply negb_true_iff, bool_decide_eq_false in Hg. by apply eq_None_not_Some.
  - split_and!; [by rewrite delete_id|done| |done]. intros [? ?]; congruence.
Qed.
Lemma bind_node_observe x s node s' n t : bind_one x s node = Ok s' → n ≠ node → observe s' n t = observe s n t.
Proof.
  intros H Hn. unfold bind_node in H. inv_ok. destruct (pending_overrides s !! node) as [v|]; inv_ok; [|done].
  rewrite <- (write_other node (Some x) (Some v) s n t Hn).
  rewrite <- (write_other node None None (write_override node (Some x) (Some v) s) n t Hn).
  unfold validate_positive_int in *. inv_ok. reflexivity.
Qed.

Lemma bind_all_ok x l : NoDup l → ∀ s s', rfold (bind_one x) s l = Ok s' →
  (∀ n, pending_overrides s' !! n = if decide (n ∈ l) then None else pending_overrides s !! n) ∧
  (∀ n y, node_overrides s' !! (n, y) =
     if decide (n ∈ l ∧ y = x) then match pending_overrides s !! n with Some v => Some v | None => node_overrides s !! (n, y) end
     else node_overrides s !! (n, y)) ∧
  (∀ n, n ∈ l → observe s' n true = Ok (OverrideObservation n (node_overrides s' !! (n, x)) (Some x))) ∧
  (∀ n t, n ∉ l → observe s' n t = observe s n t).
Proof.
  induction 1 as [|m l Hm _ IH]; cbn [rfold]; intros s s' H; inv_ok.
  { split_and!; intros; try done; repeat case_decide; set_solver. }
  match goal with H : bind_node _ _ _ _ _ _ _ _ _ _ = Ok ?s1 |- _ => rename H into Hm1; rename s1 into s1' end.
  destruct (bind_node_ok _ _ _ _ Hm1) as (P1 & N1 & _ & O1). apply IH in H as (P2 & N2 & O2 & F2).
  assert (∀ n y, node_overrides s1' !! (n, y) = if decide (n = m ∧ y = x)
    then match pending_overrides s !! n with Some v => Some v | None => node_overrides s !! (n, y) end else node_overrides s !! (n, y)) as N1'.
  { intros n y. rewrite N1. case_decide as Hd.
    - destruct Hd as [-> ->]. destruct (pending_overrides s !! m); [by rewrite lookup_insert_eq|done].
    - destruct (pending_overrides s !! m); [|done]. rewrite lookup_insert_ne; [done|]. naive_solver. }
  split_and!.
  - intros n. rewrite P2, P1. destruct (decide (n = m)) as [->|Hn].
    + rewrite lookup_delete_eq. repeat case_decide; set_solver.
    + rewrite lookup_delete_ne by done. repeat case_decide; set_solver.
  - intros n y. rewrite N2, N1', P1. destruct (decide (n = m)) as [->|Hn].
    + rewrite decide_False by naive_solver. repeat case_decide; set_solver.
    + rewrite lookup_delete_ne by done. repeat case_decide; set_solver.
  - intros n [->|Hn]%elem_of_cons; [|by apply O2]. rewrite F2 by done. rewrite O1. do 2 f_equal.
    rewrite N2. by rewrite decide_False by naive_solver.
  - intros n t [Hne Hn]%not_elem_of_cons. rewrite F2 by done. by eapply bind_node_observe.
Qed.

(** Binding the pending limits of reserved nodes to their session moves every one of
    them and nothing else: afterwards no reserved node has a pending limit, each reads back
    as owned by the session with the pending limit it had, or else with the one the session
    already owned, and all other nodes and sessions keep theirs. *)
Theorem pending_limits_bound s x ns s' :
  bind_pending (stored_overrides snapshot iso json list_ object_ empty h) s x ns = Ok s' →
  (∀ n, n ∈ ns → pending_overrides s' !! n = None ∧
     observe s' n true = Ok (OverrideObservation n
       (match pending_overrides s !! n with Some v => Some v | None => node_overrides s !! (n, x) end) (Some x))) ∧
  (∀ n, n ∉ ns → pending_overrides s' !! n = pending_overrides s !! n ∧ ∀ t, observe s' n t = observe s n t) ∧
  (∀ n y, n ∉ ns ∨ y ≠ x → node_overrides s' !! (n, y) = node_overrides s !! (n, y)) ∧
  overrides_only s s'.
Proof.
  intros H. split_and!.
  4:{ exact (bind_frame _ _ _ _ H). }
  all: cbn in H; unfold _bind_pending_thread_overrides in H;
    destruct (bind_all_ok _ _ (NoDup_py_sorted_set ns) _ _ H) as (P & N & O & F).
  - intros n Hn. assert (n ∈ py_sorted_set ns) as Hn' by by apply elem_of_py_sorted_set.
    rewrite P, O, N by done. by rewrite !decide_True by done.
  - intros n Hn. assert (n ∉ py_sorted_set ns) as Hn' by by rewrite elem_of_py_sorted_set.
    rewrite P, decide_False by done. split; [done|]. intros t. by apply F.
  - intros n y Hny. rewrite N, decide_False; [done|]. rewrite elem_of_py_sorted_set. naive_solver.
Qed.

(** Setting the limit of a node on an exact observation never fails its readback and
    changes nothing any other node reads; the node then reads as the new limit under the
    owner it had, and resetting it gives back a node without limit, in the very same
    tables when it had none before. *)
Theorem thread_limit_roundtrip s node v cur :
  observe s node false = Ok cur → 1 ≤ v → is_Some (nodes (jobs_db s) !! node) →
  ∃ s1 s2, set_thread_override snapshot iso json list_ object_ empty h s node v cur = Ok (s1, v) ∧
    observe s1 node false = Ok (OverrideObservation node (Some v) (ov_session cur)) ∧
    (∀ n t, n ≠ node → observe s1 n t = observe s n t) ∧
    clear_thread_override snapshot iso json list_ object_ empty h s1 node (OverrideObservation node (Some v) (ov_session cur)) = Ok (s2, true) ∧
    observe s2 node false = Ok (OverrideObservation node None (ov_session cur)) ∧
    (ov_value cur = None → s2 = s).
Proof.
  intros Hcur Hv Hn. set (o := ov_session cur).
  assert (observe (write_override node o (Some v) s) node false = Ok (OverrideObservation node (Some v) o)) as H1
    by (by apply write_observe; [|intros w [= <-]]).
  exists (write_override node o (Some v) s), (write_override node o None (write_override node o (Some v) s)). split_and!.
  - by apply set_override_ok.
  - done.
  - intros. by apply write_other.
  - by rewrite (clear_override_ok _ _ _ H1 ltac:(by eexists)).
  - exact (write_observe _ _ _ _ None H1 ltac:(done)).
  - intros Hnone. rewrite write_twice. apply observe_inv in Hcur as (r & _ & _ & _ & ->). subst o. cbn in *.
    rewrite <- Hnone. apply write_same.
Qed.
End facts.

(** ** A session over one node with a pending limit *)

Module limits_sample.
Definition ka := encode_component_key ["a"].
Definition decode (shape : string) : result ComponentTopologySnapshot :=
  if bool_decide (shape = "shape") then Ok (MkSnapshot "shape" [["a"]]) else raise ValueError "not a shape".
Definition yes (text : string) : bool := true.
Definition here : host := Host "here" (λ _, true) (λ _, None) (λ _, Some 0).
Definition core0 : cdb := Cdb
  (Db ∅ ∅ ∅ {["m" := SessionRow "main" "running" 1 (Some "here") (Some 7) None (Some "t0") "t0"]} {[("m", ka)]} {[ka := "m"]}
    {[1 := "shape"]} {[(ka, 1)]} {["a" := "queued"]} [] 0)
  {["m" := SessionColumns "run" (Some 0) 1]} (Tables (Some 0) {[ka := 0]} {["a" := ka]})
  {[ka := StateRow 1 None None "queued" None None 0 0]} ∅ ∅ ∅ ∅.
(** A limit of 3 waits on node [a]. *)
Definition s0 : sdb := Sdb core0 {["m" := SessionDetails "components" ka None None "[]" "{}"]} {[("m", ka) := 0]}
  ∅ ∅ ∅ ∅ ∅ ∅ ∅ ∅ ∅ {["a" := 3]} ∅ None.
Definition overrides : thread_overrides := stored_overrides decode yes yes yes yes yes here.
Definition s1 : sdb := match bind_pending overrides s0 "m" ["a"] with Ok s => s | Err _ => s0 end.

Lemma binds : bind_pending (stored_overrides decode yes yes yes yes yes here) s0 "m" ["a"] = Ok s1.
Proof. vm_compute. reflexivity. Qed.

Lemma bound : read_thread_override_observation decode yes yes yes yes yes here s1 "a" false = Ok (OverrideObservation "a" (Some 3) (Some "m")).
Proof. vm_compute. reflexivity. Qed.
End limits_sample.

Lemma pending_limits_bound_witness : pending_overrides limits_sample.s1 !! "a" = None.
Proof.
  destruct (pending_limits_bound _ _ _ _ _ _ _ _ _ _ _ limits_sample.binds) as (Hb & _). apply (Hb "a"). left.
Defined.

Lemma thread_limit_roundtrip_witness : ∃ s1,
  set_thread_override limits_sample.decode limits_sample.yes limits_sample.yes limits_sample.yes limits_sample.yes limits_sample.yes
    limits_sample.here limits_sample.s1 "a" 5 (OverrideObservation "a" (Some 3) (Some "m")) = Ok (s1, 5).
Proof.
  destruct (thread_limit_roundtrip _ _ _ _ _ _ _ _ _ 5 _ limits_sample.bound) as (s1 & s2 & H & _); [lia|by eexists|].
  exists s1. exact H.
Defined.
