(* ===== verification/Interrupts.v ===== *)
(** Explicit interrupts ([storage/interrupt_common.py], [interrupt_admission.py],
    [interrupt_coordination.py], [interrupt_observation.py], [interrupt_settlement.py]):
    admitting an interrupt session over running work, pausing its predecessors, freezing
    and holding its target, the fences it leaves, and giving its scope back.

    Decoding a stored graph shape and thread overrides are arguments. *)
From S2P Require Import Prelude Json JsonText Topology Membership Readiness JobStore ComponentRows ComponentLife Sessions Sampling ThreadOverrides.

#[local] Open Scope Z_scope.

(** ** Shapes *)

Section shapes.
(** [component_snapshot_from_shape], and the decoded edges of a shape. *)
Context (component_snapshot_from_shape : string → result ComponentTopologySnapshot).
Context (shape_edges : string → result (list (string * string))).

(** [by_node]; a later component wins. *)
Definition by_node (cs : list key) : gmap string key :=
  foldl (λ m c, foldl (λ m n, <[n := c]> m) m c) ∅ cs.

Definition component_at (m : gmap string key) (n : string) : result key :=
  match m !! n with Some c => Ok c | None => raise KeyError "unknown node" end.

(** [_component_predecessors]. *)
Definition _component_predecessors (shape : string) (target : key) : result (list key) :=
  let! sn := component_snapshot_from_shape shape in
  let! edges := shape_edges shape in
  let! sources := rmap (λ e : string * string, component_at (by_node (components sn)) e.1)
    (filter (λ e : string * string, e.2 ∈ target ∧ e.1 ∉ target) edges) in
  Ok (py_sorted_set sources).

(** The direct predecessors of each component, over the decoded edges. *)
Definition direct_edges (m : gmap string key) (edges : list (string * string)) : result (list (key * key)) :=
  let! pairs := rmap (λ e : string * string,
    let! s := component_at m e.1 in let! r := component_at m e.2 in Ok (s, r)) edges in
  Ok (filter (λ q : key * key, q.1 ≠ q.2) pairs).

Definition direct_of (pairs : list (key * key)) (c : key) : list key :=
  remove_dups (fst <$> filter (λ q : key * key, q.2 = c) pairs).

(** The worklist of [_component_ancestors]; each component is pushed at most once. *)
Fixpoint ancestors_loop (fuel : nat) (pairs : list (key * key)) (result_ pending : list key) : option (list key) :=
  match pending, fuel with
  | [], _ => Some result_
  | _, O => None
  | current :: pending, S fuel =>
      let new := filter (λ c, c ∉ result_) (direct_of pairs current) in
      ancestors_loop fuel pairs (new ++ result_) (new ++ pending)
  end.

Definition _component_ancestors (shape : string) (target : key) : result (list key) :=
  let! sn := component_snapshot_from_shape shape in
  let! edges := shape_edges shape in
  let! pairs := direct_edges (by_node (components sn)) edges in
  check! bool_decide (target ∈ components sn) orelse KeyError saying "unknown component" in
  match ancestors_loop (S (length pairs)) pairs [target] [target] with
  | Some found => Ok (filter (λ c, c ∈ found) (components sn))
  | None => raise UserError "out of fuel"
  end.
End shapes.

(** ** Claim blockers and fences *)

(** [read_interrupt_claim_blockers]. *)
Definition read_interrupt_claim_blockers (s : sdb) (x : string) (component : key) : list string :=
  let k := encode_component_key component in
  let requests := omap (λ q : (string * string * string) * pause_row,
    let '(child, owner, ck) := q.1 in
    if bool_decide (owner = x) && bool_decide (ck = k) && bool_decide (pr_state q.2 ∈ ["requested"; "acknowledged"])
       && bool_decide ((ia_state <$> admissions s !! child) ∈ [Some "admitted"; Some "frozen"])
    then Some child else None) (map_to_list (pauses s)) in
  let lent := omap (λ q : (string * string) * transfer_row,
    if bool_decide (tr_source q.2 = x) && bool_decide (q.1.2 = k) && bool_decide (tr_state q.2 = "active") && running s q.1.1
    then Some q.1.1 else None) (map_to_list (transfers s)) in
  py_sorted_set (requests ++ lent).

(** [_require_interrupt_component_admission]. *)
Definition _require_interrupt_component_admission (s : sdb) (x : string) (component : key) : result () :=
  check! bool_decide (read_interrupt_claim_blockers s x component = [])
    orelse InterruptAdmissionPaused saying "Component admission is paused for interrupt session(s)" in
  Ok ().

(** The retained success a state row points to. *)
Definition retained_pointer (s : sdb) (k : string) : option (Z * Z) :=
  r ← states (core s) !! k; sh ← st_retained_shape r; al ← st_retained_alignment r; Some (sh, al).

(** Active pause requests of a child. *)
Definition open_pause (x : string) (q : (string * string * string) * pause_row) : bool :=
  bool_decide (q.1.1.1 = x) && bool_decide (pr_state q.2 ∈ ["requested"; "acknowledged"]).

(** [UPDATE interrupt_pause_requests SET state='released' ...]. *)
Definition release_pauses (x at_ : string) (s : sdb) : sdb :=
  set_pauses (map_imap (λ k r, Some (if open_pause x (k, r) then PauseRow "released" (pr_created r) (Some at_) else r)) (pauses s)) s.

Section interrupts.
Context (component_snapshot_from_shape : string → result ComponentTopologySnapshot).
Context (shape_edges : string → result (list (string * string))).
Context (is_isoformat is_json : string → bool).

Abbreviation predecessors_of := (_component_predecessors component_snapshot_from_shape shape_edges).
Abbreviation ancestors_of := (_component_ancestors component_snapshot_from_shape shape_edges).
Abbreviation observe := (read_job_owner_observation (λ s, let! sn := component_snapshot_from_shape s in Ok (components sn))).

(** [_read_interrupt_execution_fences]. *)
Definition _read_interrupt_execution_fences (s : sdb) (x k : string) : result (list fence) :=
  match (r ← sessions (jobs_db s) !! x; shapes (jobs_db s) !! s_shape r) with
  | None => raise RuntimeError "Interrupt fence check requires its execution session"
  | Some shape =>
      let! component := decode_component_key k in
      let! ancestors := ancestors_of shape component in
      Ok (ancestor ← ancestors;
          let key := encode_component_key ancestor in
          match retained_pointer s key with
          | None => []
          | Some p =>
              (λ source, (key, p, source)) <$>
                py_sorted (omap (λ q : fence * string,
                  let '(fk, fp, source) := q.1 in
                  if bool_decide (fk = key) && bool_decide (fp = p) && negb (bool_decide (source = x))
                     && negb (bool_decide (is_Some (authorizations s !! (x, q.1))))
                  then Some source else None) (map_to_list (fences s)))
          end)
  end.

(** [_require_interrupt_fence_authority]. *)
Definition _require_interrupt_fence_authority (s : sdb) (x k : string) : result () :=
  let! found := _read_interrupt_execution_fences s x k in
  check! bool_decide (found = []) orelse RuntimeError saying "Post-interrupt fence refuses component admission" in
  Ok ().

(** [_authorize_interrupt_fences]. *)
Definition _authorize_interrupt_fences (s : sdb) (x : string) (cs : list key) (at_ : string) : result sdb :=
  let! found := rmap (λ c, _read_interrupt_execution_fences s x (encode_component_key c)) cs in
  let! rows := insert_unique "session_fence_authorizations" (authorizations s)
    ((λ f, ((x, f), at_)) <$> remove_dups (mjoin found)) in
  Ok (set_authorizations rows s).

(** [_read_interrupt_session_boundaries]. *)
Definition _read_interrupt_session_boundaries (s : sdb) (x : string) : result (list fence) :=
  let! found := rmap (_read_interrupt_execution_fences s x) (selected_keys_of s x) in
  Ok (reverse (remove_dups (reverse (mjoin found)))).

(** [_validate_interrupt_component_start]. *)
Definition _validate_interrupt_component_start (s : sdb) (x : string) (component : key) (l : lineage) : result () :=
  let k := encode_component_key component in
  let! _ := _require_interrupt_fence_authority s x k in
  match admissions s !! x with
  | None => Ok ()
  | Some a =>
      if negb (bool_decide (ia_target a = k)) then Ok () else
      check! bool_decide (ia_state a = "frozen") && bool_decide (holds (core s) !! (x, k) = Some 1)
        orelse RuntimeError saying "Interrupt target must be frozen before component start" in
      check! bool_decide (l = ia_lineage a)
        orelse RuntimeError saying "Interrupt target start differs from its frozen successful lineage" in
      Ok ()
  end.

(** [_refuse_interrupt_held_publication]. *)
Definition _refuse_interrupt_held_publication (s : sdb) (receiver : string) (producer : option string) : result () :=
  let! component := read_active_component_for_node (memberships (core s)) receiver in
  match component with
  | None => Ok ()
  | Some c =>
      let k := encode_component_key c in
      let rows := filter (λ q : (string * string) * Z, q.1.2 = k ∧ 0 < q.2 ∧
        (ia_target <$> admissions s !! q.1.1) = Some k ∧ (ia_state <$> admissions s !! q.1.1) = Some "frozen")
        (map_to_list (holds (core s))) in
      match rows with
      | [] => Ok ()
      | [q] =>
          let! owner := match producer with
                        | None => Ok None
                        | Some x => read_execution_owner (λ s, let! sn := component_snapshot_from_shape s in Ok (components sn)) (jobs_db s) x
                        end in
          check! bool_decide (ow_session <$> owner = Some q.1.1)
            orelse RuntimeError saying "Interrupt target hold refuses publication" in
          Ok ()
      | _ => raise RuntimeError "Interrupt target has ambiguous component holds"
      end
  end.

(** ** Admission ([interrupt_admission.py]) *)

(** [observed["state"] == "active"]. *)
Definition is_active (ob : JobStore.observation) : bool :=
  bool_decide (is_Some (ob_active ob)) && bool_decide (is_Some (ob_owner ob)).

(** [_active_predecessor_executions]. *)
Definition _active_predecessor_executions (s : sdb) (predecessors : list key) : result (list (key * JobStore.observation)) :=
  let! found := rmap (λ component : key,
    rmap (λ a,
      let! observed := observe (jobs_db s) a in
      match observed with
      | Some ob =>
          check! is_active ob
                 && bool_decide (ow_component <$> ob_owner ob = Some component)
                 && bool_decide ((s_status ∘ snd <$> ob_session ob) = Some "running")
                 && bool_decide (is_Some (reservations (jobs_db s) !! encode_component_key component))
                 && bool_decide (reservations (jobs_db s) !! encode_component_key component = ow_session <$> ob_owner ob)
            orelse RuntimeError saying "Interrupt predecessor has damaged active ownership" in
          Ok (component, ob)
      | None => raise TypeError "no job row"
      end) (node ← component; active_jobs_of s node)) predecessors in
  Ok (mjoin found).

(** [_require_active_component]. *)
Definition _require_active_component (s : sdb) (component : key) : result () :=
  let! _ := rmap (λ node,
    let! c := read_active_component_for_node (memberships (core s)) node in
    check! bool_decide (c = Some component) orelse RuntimeError saying "Interrupt selection requires exact active component membership" in
    Ok ()) component in
  Ok ().

Record conflicts := Conflicts {
  cf_shape : option Z;
  cf_revision : option Z;
  cf_parents : list string;
  cf_executions : list (key * JobStore.observation);
  cf_reservations : list (string * option string);
  (** Source session, component key and kind. *)
  cf_transfers : list (string * string * string)
}.

(** The owner each selected component would be taken from. *)
Definition overlap (s : sdb) (parents : list string) (component : key) : result (string * option string) :=
  let k := encode_component_key component in
  match reservations (jobs_db s) !! k with
  | None => Ok (k, None)
  | Some source =>
      check! running s source && selects s source k
        orelse RuntimeError saying "Interrupt overlap has no exact running reservation owner" in
      check! negb (bool_decide (s_kind <$> sessions (jobs_db s) !! source = Some "interrupt") && negb (bool_decide (source ∈ parents)))
        orelse RuntimeError saying "Interrupt scope overlaps an independent interrupt reservation" in
      Ok (k, Some source)
  end.

Definition transfer_kind (parents : list string) (source : string) : string :=
  if bool_decide (source ∈ parents) then "direct-parent" else "future-admission".

(** [_read_interrupt_admission_conflicts]. *)
Definition _read_interrupt_admission_conflicts (s : sdb) (start : key) (selected predecessors : list key) (shape : string)
    (require_registered_shape : bool) : result conflicts :=
  let! sn := component_snapshot_from_shape shape in
  let registered := require_registered_shape || bool_decide (is_Some (shape_id_of (core s) shape)) in
  let! identity :=
    if registered then let! q := read_admission_shape component_snapshot_from_shape (core s) shape selected in Ok (Some q.1, Some q.2)
    else let! active := read_active_component_partition (memberships (core s)) in Ok (None, revision <$> active) in
  let! direct := predecessors_of shape start in
  check! bool_decide (predecessors = direct) orelse RuntimeError saying "Interrupt direct predecessors changed before admission" in
  let! _ := rmap (λ component,
    check! bool_decide (component ∈ components sn) orelse RuntimeError saying "Interrupt scope is outside its admitted graph shape" in
    if registered || bool_decide (is_Some identity.2) then _require_active_component s component else Ok ())
    (selected ++ predecessors) in
  let! _ := rmap (λ node,
    match active_jobs_of s node with
    | [] => Ok ()
    | a :: _ =>
        let! observed := observe (jobs_db s) a in
        check! match observed with Some ob => is_active ob | None => false end
          orelse RuntimeError saying "Interrupt target scope has damaged active job" in
        raise RuntimeError "Interrupt target scope has active job"
    end) (py_sorted (elements (nodes_of selected))) in
  check! forallb (λ q : (string * string) * pending_row, negb (bool_decide (q.1.2 ∈ encode_component_key <$> selected)))
      (map_to_list (pending (core s)))
    orelse RuntimeError saying "Interrupt target scope has a begun component execution" in
  let! executions := _active_predecessor_executions s predecessors in
  let ps := py_sorted_set (omap (λ q : key * JobStore.observation, ow_session <$> ob_owner q.2) executions) in
  let! rs := rmap (overlap s ps) selected in
  Ok (Conflicts identity.1 identity.2 ps executions rs
        (omap (λ q : string * option string, (λ source, (source, q.1, transfer_kind ps source)) <$> q.2) rs)).

(** A new row of [execution_sessions]; one main session runs at a time. *)
Definition insert_session (s : sdb) (x : string) (row : session_row) (c : session_columns) (dt : session_details) : result sdb :=
  check! bool_decide (sessions (jobs_db s) !! x = None) orelse UserError saying "UNIQUE constraint failed: execution_sessions.session_id" in
  check! negb (bool_decide (s_kind row = "main")
               && existsb (λ q : string * session_row, bool_decide (s_kind q.2 = "main") && bool_decide (s_status q.2 = "running"))
                    (map_to_list (sessions (jobs_db s))))
    orelse UserError saying "UNIQUE constraint failed: one_running_main_session" in
  let d := jobs_db s in
  let s := set_jobs_db (set_sessions (<[x := row]> (sessions d)) d) s in
  Ok (set_details (<[x := dt]> (details s)) (set_core (set_columns (<[x := c]> (columns (core s))) (core s)) s)).

(** The rows of [session_components], in order. *)
Definition insert_components (s : sdb) (x : string) (keys : list string) : result sdb :=
  check! bool_decide (NoDup keys) && forallb (λ k, negb (selects s x k)) keys
    orelse UserError saying "UNIQUE constraint failed: session_components" in
  let d := jobs_db s in
  Ok (set_positions (list_to_map (imap (λ i k, ((x, k), Z.of_nat i)) keys) ∪ positions s)
       (set_jobs_db (set_session_components (list_to_set (pair x <$> keys) ∪ session_components d) d) s)).

(** The rows of [session_jobs]. *)
Definition insert_jobs (s : sdb) (x : string) (roots : list (addr * string)) : result sdb :=
  let! rows := insert_unique "session_jobs" (session_jobs s) (imap (λ i q, ((x, q.1), (Z.of_nat i, q.2))) roots) in
  Ok (set_session_jobs rows s).

(** The current instance of each selected job. *)
Definition observe_roots (s : sdb) (selected : list addr) : result (list (addr * string)) :=
  rmap (λ a,
    let! observed := observe (jobs_db s) a in
    match observed with
    | Some ob => Ok (a, ob_instance ob)
    | None => raise RuntimeError "Selected job does not exist at session admission"
    end) selected.

(** Thread limits follow the reservations. *)
Context (overrides : thread_overrides).

(** The reader of a sample: it plans on the reserved tables. *)
Definition sample_reader : Type := sdb → result SamplePlan.

(** The recorded details of a session, a dictionary in the code, with a selection. *)
Definition with_selection (text : string) (selection : json) : result string :=
  match loads text with
  | Some (JObj d) => Ok (details_text d selection)
  | _ => raise TypeError "details is not a mapping"
  end.

(** The roots a reserved sample selects, checked against the current jobs, and its record. *)
Definition sampled_roots (s : sdb) (start : key) (shape sample_id : string) (reader : sample_reader)
  : result (list (addr * string) * json) :=
  let! plan := reader s in
  let! chosen := admission_record plan (JStr sample_id) start shape in
  check! negb (bool_decide (chosen.1 = [])) orelse NoSelectedJobs saying "Sample selected no jobs; no work was started" in
  check! bool_decide (NoDup chosen.1.*1) orelse ValueError saying "Reserved sample selection contains duplicate jobs" in
  let! _ := rmap (λ q : addr * string,
    let! observed := observe (jobs_db s) q.1 in
    check! bool_decide (q.1.1 ∈ start) && bool_decide (ob_instance <$> observed = Some q.2)
      orelse RuntimeError saying "Sampled job changed after interrupt reservation" in
    Ok ()) chosen.1 in
  Ok chosen.

(** [UPDATE execution_sessions SET selection_kind='jobs', details_json=?]. *)
Definition select_jobs (s : sdb) (x new_details : string) : result sdb :=
  match details s !! x with
  | Some dt =>
      check! running s x && bool_decide (sd_selection dt = "components")
        orelse RuntimeError saying "Interrupt sample selection was not retained" in
      Ok (set_details (<[x := SessionDetails "jobs" (sd_start dt) (sd_finished dt) (sd_outcome dt) (sd_failures dt) new_details]> (details s)) s)
  | None => raise RuntimeError "Interrupt sample selection was not retained"
  end.

(** One selected component goes to the child. *)
Definition take_component (x : string) (s : sdb) (q : string * option string) : result sdb :=
  let d := jobs_db s in
  let! component := decode_component_key q.1 in
  match q.2 with
  | None =>
      let! rs := insert_unique "component_reservations" (reservations d) [(q.1, x)] in
      let! _ := require_states (core s) [q.1] in
      let s := set_jobs_db (set_reservations rs d) s in
      bind_pending overrides s x component
  | Some source =>
      check! bool_decide (reservations d !! q.1 = Some source) orelse RuntimeError saying "Interrupt reservation changed during admission" in
      let s := set_jobs_db (set_reservations (<[q.1 := x]> (reservations d)) d) s in
      transfer_overrides overrides s source x component
  end.

(** The pause requests and captured executions of an admission. *)
Definition pause_rows (x at_ : string) (executions : list (key * JobStore.observation)) : list ((string * string * string) * pause_row) :=
  (λ q : string * string, ((x, q.1, q.2), PauseRow "requested" at_ None)) <$>
    remove_dups (omap (λ q : key * JobStore.observation,
      (λ ow, (ow_session ow, encode_component_key q.1)) <$> ob_owner q.2) executions).

Definition paused_rows (x : string) (executions : list (key * JobStore.observation)) : list ((string * string) * paused_row) :=
  omap (λ q : key * JobStore.observation,
    (λ ow, ((x, ow_execution ow), PausedRow (ow_session ow) (encode_component_key q.1) (ow_addr ow) (ow_generation ow) None))
      <$> ob_owner q.2) executions.

Record admission_request := AdmissionRequest {
  aq_session : string;
  aq_command : string;
  aq_start : key;
  aq_components : list key;
  aq_jobs : list addr;
  aq_predecessors : list key;
  aq_overridden : bool;
  aq_started : string;
  aq_hostname : string;
  aq_pid : Z;
  aq_identity : option string;
  aq_details : string;
  aq_shape : string;
  aq_sample : option sample_reader;
  aq_sample_id : option string
}.

(** [_admit_interrupt_execution]. *)
Definition _admit_interrupt_execution (s : sdb) (q : admission_request) : result (sdb * session_view) :=
  let x := aq_session q in
  let! cf := _read_interrupt_admission_conflicts s (aq_start q) (aq_components q) (aq_predecessors q) (aq_shape q) true in
  let! roots := observe_roots s (aq_jobs q) in
  let! s := insert_session s x
    (SessionRow "interrupt" "running" (default 0 (cf_shape cf)) (Some (aq_hostname q)) (Some (aq_pid q)) (aq_identity q)
       (Some (aq_started q)) (aq_started q))
    (SessionColumns (aq_command q) (cf_revision cf) 1)
    (SessionDetails (if bool_decide (roots = []) then "components" else "jobs") (encode_component_key (aq_start q)) None None "[]" (aq_details q)) in
  let! s := insert_components s x (encode_component_key <$> aq_components q) in
  let! rows := insert_unique "interrupt_admissions" (admissions s)
    [(x, AdmissionRow (encode_component_key (aq_start q)) (if aq_overridden q then 1 else 0) None "admitted" (aq_started q)
       None None (None, None) None None)] in
  let s := set_admissions rows s in
  let! s := rfold (take_component x) s (cf_reservations cf) in
  let! rows := insert_unique "interrupt_scope_transfers" (transfers s)
    ((λ t : string * string * string, ((x, t.1.2), TransferRow t.1.1 t.2 "active" (aq_started q) None)) <$> cf_transfers cf) in
  let s := set_transfers rows s in
  let! rows := insert_unique "execution_session_parents" (parents s) ((λ p, ((x, p), aq_started q)) <$> cf_parents cf) in
  let s := set_parents rows s in
  let! rows := insert_unique "interrupt_pause_requests" (pauses s) (pause_rows x (aq_started q) (cf_executions cf)) in
  let s := set_pauses rows s in
  let! rows := insert_unique "interrupt_paused_executions" (paused s) (paused_rows x (cf_executions cf)) in
  let s := set_paused rows s in
  let! chosen := match aq_sample q with
                 | None => Ok (s, roots)
                 | Some reader =>
                     let! c := sampled_roots s (aq_start q) (aq_shape q) (default "" (aq_sample_id q)) reader in
                     let! text := with_selection (aq_details q) c.2 in
                     let! s := select_jobs s x text in
                     Ok (s, c.1)
                 end in
  let! s := insert_jobs chosen.1 x chosen.2 in
  let! s := _authorize_interrupt_fences s x (aq_components q) (aq_started q) in
  let! _ := rmap (λ source,
    let! ok := require_admitted_reservation_scope s source in
    check! ok orelse RuntimeError saying "Interrupt source reservation admission marker changed" in
    Ok ()) (py_sorted_set ((λ t : string * string * string, t.1.1) <$> cf_transfers cf)) in
  let! ok := require_admitted_reservation_scope s x in
  check! ok orelse RuntimeError saying "Interrupt reservation admission marker changed" in
  let! view := execution_session_from_row_snapshot component_snapshot_from_shape is_json s x in
  Ok (s, view).

(** [admit_interrupt_execution]; [jobs] and [predecessors] as supplied. *)
Definition admit_interrupt_execution (s : sdb) (q : admission_request) : result (sdb * session_view) :=
  let! _ := _session_text (aq_session q) in
  let! _ := _session_text (aq_command q) in
  let! _ := _session_text (aq_shape q) in
  let! _ := _session_text (aq_hostname q) in
  let! _ := _session_time is_isoformat (aq_started q) in
  check! 1 <=? aq_pid q orelse ValueError saying "pid must be a positive integer" in
  let! _ := match aq_identity q with Some i => _session_text i | None => Ok () end in
  let! start := _session_component (aq_start q) in
  let! cs := rmap _session_component (aq_components q) in
  check! negb (bool_decide (cs = [])) && bool_decide (start ∈ cs) && bool_decide (NoDup cs)
    orelse ValueError saying "Interrupt start must belong to distinct selected components" in
  check! bool_decide (NoDup (mjoin cs)) orelse ValueError saying "Selected components must not overlap" in
  let! ps := rmap _session_component (aq_predecessors q) in
  let ps := py_sorted ps in
  check! bool_decide (NoDup ps) orelse ValueError saying "Interrupt predecessors must be distinct" in
  let! _ := rmap (λ a : addr, let! _ := validate_node_name a.1 in
    check! 1 <=? a.2 orelse ValueError saying "job_id must be an integer >= 1" in Ok ()) (aq_jobs q) in
  check! forallb (λ a : addr, bool_decide (a.1 ∈ mjoin cs)) (aq_jobs q) && bool_decide (NoDup (aq_jobs q))
    orelse ValueError saying "Selected interrupt jobs must be distinct members of its scope" in
  let! _ := match aq_sample q, aq_sample_id q with
            | Some _, Some i =>
                check! bool_decide (aq_jobs q = []) && bool_decide (cs = [start])
                  orelse ValueError saying "Reserved interrupt sampling requires one component and no selected jobs" in
                _session_text i
            | Some _, None => raise ValueError "sample_id must be nonempty text"
            | None, Some _ => raise ValueError "Sample identity requires a reserved sample reader"
            | None, None => Ok ()
            end in
  _admit_interrupt_execution s (AdmissionRequest (aq_session q) (aq_command q) start cs (aq_jobs q) ps (aq_overridden q)
    (aq_started q) (aq_hostname q) (aq_pid q) (aq_identity q) (aq_details q) (aq_shape q) (aq_sample q) (aq_sample_id q)).

(** ** Observing an admission ([interrupt_observation.py]) *)

(** [_component]. *)
Definition _interrupt_component (k : string) : result key :=
  on_value_error
    (let! members := decode_component_key k in
     check! negb (bool_decide (members = [])) && bool_decide (encode_component_key members = k) orelse ValueError saying "" in
     Ok members)
    "Damaged interrupt component".

Record admission_view := AdmissionView {
  av_session : session_view;
  av_target : key;
  av_requested : bool;
  av_overridden : option bool;
  av_state : string;
  av_frozen : option (ComponentGenerationIdentity * lineage * string);
  av_parents : list string;
  av_transfers : list (key * transfer_row);
  av_pauses : list (string * key * pause_row * list (string * paused_row));
  av_frozen_parents : list (key * frozen_row);
  av_hold : Z
}.

(** The frozen identity an admission row records. *)
Definition frozen_identity (a : admission_row) : result (option (ComponentGenerationIdentity * lineage * string)) :=
  match ia_shape a with
  | Some sh =>
      match ia_alignment a, ia_frozen_at a with
      | Some al, Some at_ =>
          check! (0 <=? al) && negb (bool_decide (at_ = ""))
                 && (bool_decide (ia_lineage a = (Some "stable", None))
                     || bool_decide ((ia_lineage a).1 = Some "unstable") && nonblank (ia_lineage a).2)
            orelse RuntimeError saying "Interrupt admission has invalid frozen identity" in
          Ok (Some (Identity sh al, ia_lineage a, at_))
      | _, _ => raise RuntimeError "Interrupt admission has invalid frozen identity"
      end
  | None =>
      check! negb (bool_decide (ia_state a = "frozen")) orelse RuntimeError saying "Frozen interrupt admission has no target identity" in
      Ok None
  end.

(** The transfers of a child, in order. *)
Definition transfers_of (s : sdb) (x : string) : list (string * transfer_row) :=
  sort_by fst ((λ q : (string * string) * transfer_row, (q.1.2, q.2)) <$>
    map_to_list (filter (λ q : (string * string) * transfer_row, q.1.1 = x) (transfers s))).

Definition observe_transfer (v : session_view) (ps : list string) (q : string * transfer_row) : result (key * transfer_row) :=
  let! component := _interrupt_component q.1 in
  check! bool_decide (component ∈ sv_components v) orelse RuntimeError saying "Interrupt transfer is outside selected scope" in
  check! negb (bool_decide (tr_kind q.2 = "direct-parent") && negb (bool_decide (tr_source q.2 ∈ ps)))
    orelse RuntimeError saying "Direct-parent transfer has no parent relationship" in
  Ok (component, q.2).

(** The pause requests of a child with their captured executions, in order. *)
Definition pauses_of (s : sdb) (x : string) : list ((string * string) * pause_row) :=
  sort_by fst ((λ q : (string * string * string) * pause_row, ((q.1.1.2, q.1.2), q.2)) <$>
    map_to_list (filter (λ q : (string * string * string) * pause_row, q.1.1.1 = x) (pauses s))).

Definition paused_of (s : sdb) (x owner k : string) : list (string * paused_row) :=
  sort_by fst ((λ q : (string * string) * paused_row, (q.1.2, q.2)) <$>
    map_to_list (filter (λ q : (string * string) * paused_row,
      q.1.1 = x ∧ px_owner q.2 = owner ∧ px_component q.2 = k) (paused s))).

Definition observe_pause (s : sdb) (x : string) (q : (string * string) * pause_row)
  : result (string * key * pause_row * list (string * paused_row)) :=
  let '(owner, k) := q.1 in
  let! component := _interrupt_component k in
  let found := paused_of s x owner k in
  let! _ := rmap (λ e : string * paused_row,
    let! ow := read_execution_owner (λ s, let! sn := component_snapshot_from_shape s in Ok (components sn)) (jobs_db s) e.1 in
    check! bool_decide (ow_session <$> ow = Some (px_owner e.2)) && bool_decide (ow_component <$> ow = Some component)
           && bool_decide (ow_addr <$> ow = Some (px_addr e.2)) && bool_decide (ow_generation <$> ow = Some (px_generation e.2))
      orelse RuntimeError saying "Interrupt pause lost its exact execution owner" in
    Ok ()) found in
  check! negb (bool_decide (found = [])) orelse RuntimeError saying "Interrupt pause request has no captured execution" in
  let all_acknowledged := forallb (λ e : string * paused_row, bool_decide (is_Some (px_acknowledged e.2))) found in
  check! negb (bool_decide (pr_state q.2 = "requested") && all_acknowledged
               || bool_decide (pr_state q.2 = "acknowledged") && negb all_acknowledged)
    orelse RuntimeError saying "Interrupt pause request disagrees with its acknowledgements" in
  Ok (owner, component, q.2, found).

Definition frozen_of (s : sdb) (x : string) : list (string * frozen_row) :=
  sort_by fst ((λ q : (string * string) * frozen_row, (q.1.2, q.2)) <$>
    map_to_list (filter (λ q : (string * string) * frozen_row, q.1.1 = x ∧ is_Some (shapes (jobs_db s) !! fz_shape q.2)) (frozen s))).

Definition observe_frozen (s : sdb) (q : string * frozen_row) : result (key * frozen_row) :=
  let! component := _interrupt_component q.1 in
  let f := q.2 in
  let! _ := validate_component_state_snapshot (core s)
    (StateRow (fz_shape f) None None (fz_lifecycle f) (fz_lineage f).1 (fz_lineage f).2 (fz_misaligned f) (fz_alignment f)) in
  let! shape := match shapes (jobs_db s) !! fz_shape f with Some sh => Ok sh | None => raise KeyError "no graph shape" end in
  let! producing := on_value_error (component_snapshot_from_shape shape) "Interrupt frozen parent has a damaged shape" in
  check! bool_decide (component ∈ components producing)
    orelse RuntimeError saying "Interrupt frozen parent differs from its historical shape" in
  Ok (component, f).

(** A selected component the child does not own is owned by a session it was lent to. *)
Definition lent_on (s : sdb) (x k : string) : result bool :=
  match reservations (jobs_db s) !! k with
  | None => Ok false
  | Some owner => _reservation_descends_from s x k owner
  end.

(** The reservations of the scope against the transfers. *)
Definition observe_scope (s : sdb) (x : string) (v : session_view) (ts : list (key * transfer_row)) : result () :=
  let selected := encode_component_key <$> sv_components v in
  let owned := owned_keys s x in
  check! forallb (λ k, bool_decide (k ∈ selected)) owned
    orelse RuntimeError saying "Interrupt owns a reservation outside its selected scope" in
  let! _ := if decide (s_status (sv_row v) = "running") then
      rmap (λ k, let! ok := lent_on s x k in
        check! ok orelse RuntimeError saying "Running interrupt session lost part of its selected reservation" in Ok ())
        (filter (λ k, k ∉ owned) selected)
    else Ok [] in
  check! negb (bool_decide (s_status (sv_row v) = "terminal") && negb (bool_decide (owned = [])))
    orelse RuntimeError saying "Terminal interrupt session retains selected reservations" in
  let! _ := rmap (λ t : key * transfer_row,
    let k := encode_component_key t.1 in
    let! _ := if bool_decide (tr_state t.2 = "active") && negb (bool_decide (k ∈ owned)) then
        let! ok := lent_on s x k in
        check! ok orelse RuntimeError saying "Active interrupt transfer lost its child reservation" in Ok ()
      else Ok () in
    check! negb (negb (bool_decide (tr_state t.2 = "active")) && bool_decide (k ∈ owned))
      orelse RuntimeError saying "Finished interrupt transfer still owns its reservation" in
    Ok ()) ts in
  Ok ().

(** [_read_interrupt_admission]. *)
Definition _read_interrupt_admission (s : sdb) (x : string) : result (option admission_view) :=
  match admissions s !! x with
  | None => Ok None
  | Some a =>
      check! bool_decide (is_Some (sessions (jobs_db s) !! x)) orelse RuntimeError saying "Interrupt admission has no execution session" in
      check! bool_decide (scope_admitted s x = Some 1)
        orelse RuntimeError saying "Interrupt admission lost its reservation admission marker" in
      let! v := execution_session_from_row_snapshot component_snapshot_from_shape is_json s x in
      check! bool_decide (s_kind (sv_row v) = "interrupt") && bool_decide (s_status (sv_row v) ∈ ["running"; "terminal"])
        orelse RuntimeError saying "Interrupt admission has an invalid owning session" in
      let! target := _interrupt_component (ia_target a) in
      check! bool_decide (target ∈ sv_components v) orelse RuntimeError saying "Interrupt target is outside its session scope" in
      check! bool_decide (ia_requested a ∈ [0; 1]) && bool_decide (ia_overridden a ∈ [None; Some 0; Some 1])
             && negb (bool_decide (ia_overridden a = Some 1) && negb (ia_requested a =? 1))
        orelse RuntimeError saying "Interrupt admission has invalid readiness metadata" in
      let state := ia_state a in
      check! bool_decide (state ∈ ["admitted"; "frozen"; "settled"]) orelse RuntimeError saying "Interrupt admission has invalid state" in
      let! fi := frozen_identity a in
      let ps := read_session_parent_ids s x in
      let! ts := rmap (observe_transfer v ps) (transfers_of s x) in
      let! prs := rmap (observe_pause s x) (pauses_of s x) in
      check! bool_decide (list_to_set ps =@{gset string} list_to_set ((λ q : (string * string) * pause_row, q.1.1) <$> pauses_of s x))
        orelse RuntimeError saying "Interrupt parents disagree with pause ownership" in
      check! negb (bool_decide (state ∈ ["admitted"; "frozen"])
                   && existsb (λ q : (string * string) * pause_row, bool_decide (pr_state q.2 = "released")) (pauses_of s x))
        orelse RuntimeError saying "Active interrupt admission has a released predecessor pause" in
      check! negb (bool_decide (state = "settled")
                   && existsb (λ q : (string * string) * pause_row, negb (bool_decide (pr_state q.2 = "released"))) (pauses_of s x))
        orelse RuntimeError saying "Settled interrupt admission retains a predecessor pause" in
      let! fs := rmap (observe_frozen s) (frozen_of s x) in
      let! shape := match sc_revision (sv_columns v) with
                    | Some rev => validate_session_shape_snapshot component_snapshot_from_shape (core s) (s_shape (sv_row v)) rev (sv_components v)
                    | None => raise RuntimeError "Session has an invalid admitted membership identity"
                    end in
      let! direct := predecessors_of shape target in
      check! negb (bool_decide (state = "admitted") && negb (bool_decide (fs = [])))
        orelse RuntimeError saying "Unfrozen interrupt admission retains parent observations" in
      check! negb (bool_decide (is_Some (ia_shape a)))
             || bool_decide (list_to_set fs.*1 =@{gset key} list_to_set direct)
        orelse RuntimeError saying "Interrupt admission lost its exact frozen parent observations" in
      let hold := default 0 (holds (core s) !! (x, ia_target a)) in
      check! (0 <=? hold) orelse RuntimeError saying "Interrupt target has invalid hold count" in
      check! bool_decide (bool_decide (state = "frozen") = (hold =? 1)) && bool_decide (hold ∈ [0; 1])
        orelse RuntimeError saying "Interrupt hold disagrees with admission state" in
      let! _ := observe_scope s x v ts in
      Ok (Some (AdmissionView v target (negb (ia_requested a =? 0)) ((λ o, negb (o =? 0)) <$> ia_overridden a) state fi ps ts prs fs hold))
  end.

(** ** Pausing and freezing ([interrupt_coordination.py]) *)

(** Whether an admission still pauses or holds. *)
Definition pausing (s : sdb) (x : string) : bool :=
  bool_decide ((ia_state <$> admissions s !! x) ∈ [Some "admitted"; Some "frozen"]).

(** The job still runs the execution the caller names. *)
Definition current_execution (s : sdb) (x : string) (a : addr) (g : Z) (e : string) : result bool :=
  let! observed := observe (jobs_db s) a in
  Ok match observed with
     | Some ob => is_active ob && (ob_generation ob =? g) && bool_decide (ow_execution <$> ob_owner ob = Some e)
                  && bool_decide (ow_session <$> ob_owner ob = Some x)
     | None => false
     end.

(** [read_active_interrupt_pauses]. *)
Definition read_active_interrupt_pauses (s : sdb) (x : string) (a : addr) (g : Z) (e : string) : result (list string) :=
  let! _ := _session_text x in
  let! _ := validate_node_name a.1 in
  check! 1 <=? a.2 orelse ValueError saying "job_id must be an integer >= 1" in
  let! ok := current_execution s x a g e in
  check! ok orelse JobRestartedError saying "Job changed while checking interrupt pause" in
  Ok (py_sorted (omap (λ q : (string * string) * paused_row,
    if bool_decide (q.1.2 = e) && pausing s q.1.1
       && bool_decide ((pr_state <$> pauses s !! (q.1.1, px_owner q.2, px_component q.2)) ∈ [Some "requested"; Some "acknowledged"])
    then Some q.1.1 else None) (map_to_list (paused s)))).

(** No captured execution of the request is unacknowledged. *)
Definition all_acknowledged (s : sdb) (child owner k : string) : bool :=
  forallb (λ q : (string * string) * paused_row,
    negb (bool_decide (q.1.1 = child) && bool_decide (px_owner q.2 = owner) && bool_decide (px_component q.2 = k)
          && bool_decide (px_acknowledged q.2 = None))) (map_to_list (paused s)).

(** [UPDATE interrupt_pause_requests SET state='acknowledged' ... AND state='requested']. *)
Definition acknowledge_request (child owner k : string) (s : sdb) : sdb :=
  set_pauses (alter (λ r, if bool_decide (pr_state r = "requested") then PauseRow "acknowledged" (pr_created r) (pr_released r) else r)
    (child, owner, k) (pauses s)) s.

(** Stamp the unacknowledged captures of an execution. *)
Definition stamp (at_ : string) (r : paused_row) : paused_row :=
  PausedRow (px_owner r) (px_component r) (px_addr r) (px_generation r)
    (match px_acknowledged r with Some t => Some t | None => Some at_ end).

(** [acknowledge_interrupt_pauses]; [now] is the database's clock. *)
Definition acknowledge_interrupt_pauses (s : sdb) (x : string) (a : addr) (g : Z) (e now : string) : result (sdb * list string) :=
  let! active := read_active_interrupt_pauses s x a g e in
  if decide (active = []) then Ok (s, []) else
  let! ok := current_execution s x a g e in
  check! ok orelse JobRestartedError saying "Job changed while acknowledging interrupt pause" in
  let s := set_paused (map_imap (λ k r, Some (if bool_decide (k.2 = e) && pausing s k.1 then stamp now r else r)) (paused s)) s in
  let mine := filter (λ q : (string * string) * paused_row, q.1.2 = e ∧ pausing s q.1.1 = true) (map_to_list (paused s)) in
  let requests := py_sorted_set ((λ q : (string * string) * paused_row, (q.1.1, (px_owner q.2, px_component q.2))) <$> mine) in
  let! s := rfold (λ s (r : string * (string * string)),
    if negb (all_acknowledged s r.1 r.2.1 r.2.2) then Ok s else
    let s := acknowledge_request r.1 r.2.1 r.2.2 s in
    check! bool_decide ((pr_state <$> pauses s !! (r.1, r.2.1, r.2.2)) = Some "acknowledged")
      orelse RuntimeError saying "Interrupt pause request was not acknowledged" in
    Ok s) s requests in
  Ok (s, py_sorted_set ((λ q : (string * string) * paused_row, q.1.1) <$> mine)).

(** One captured execution before the freeze: still running unacknowledged, or settled. *)
Inductive capture := StillRunning | Settled.

Definition capture_of (s : sdb) (e : string) (r : paused_row) : result capture :=
  let! observed := observe (jobs_db s) (px_addr r) in
  match observed ≫= λ ob, ow ← ob_owner ob; Some (ob, ow) with
  | Some (ob, ow) =>
      let same := bool_decide (ow_execution ow = e) && bool_decide (ow_session ow = px_owner r) && bool_decide (ow_addr ow = px_addr r)
                  && (ob_generation ob =? px_generation r) in
      if same && is_active ob && bool_decide (px_acknowledged r = None) then Ok StillRunning else
      check! same orelse RuntimeError saying "Interrupt predecessor changed to an unrecorded active execution" in
      Ok Settled
  | None => raise RuntimeError "Interrupt predecessor changed to an unrecorded active execution"
  end.

(** The captured executions of a child, in insertion order or any other: [true] when one still runs. *)
Fixpoint settle_captures (at_ : string) (s : sdb) (rows : list ((string * string) * paused_row)) : result (sdb * bool) :=
  match rows with
  | [] => Ok (s, false)
  | (k, r) :: rows =>
      let! c := capture_of s k.2 r in
      match c with
      | StillRunning => Ok (s, true)
      | Settled => settle_captures at_ (set_paused (<[k := stamp at_ r]> (paused s)) s) rows
      end
  end.

(** The readiness of the target from its parents, and from its own sampled success when it resumes. *)
Definition py_lineage (l : lineage) : pyval * pyval :=
  (match l.1 with Some v => PStr v | None => PNone end, match l.2 with Some v => PStr v | None => PNone end).

Definition freeze_readiness (s : sdb) (x command : string) (component : key) (inputs : list (pyval * pyval * pyval))
  : result (option (pyval * pyval * bool)) :=
  let! expected := calculate_component_readiness inputs (PStr x) in
  if negb (bool_decide (command ∈ ["resume"; "resumefrom"; "resumebetween"])) then Ok expected else
  let! retained_state := read_component_state_record component_snapshot_from_shape (core s) component true in
  match retained_state with
  | None => raise RuntimeError "Interrupt resume target is missing or misaligned"
  | Some st =>
      let! retained := observe_current_success component_snapshot_from_shape (core s) st in
      check! negb (cs_misaligned st) orelse RuntimeError saying "Interrupt resume target is missing or misaligned" in
      match retained with
      | Some r =>
          if bool_decide (cs_lifecycle st ∈ ["sampled"; "failed"]) && bool_decide (sr_lifecycle r = "sampled")
          then calculate_interrupt_sampled_resume_readiness (py_lineage (sr_lineage r)) inputs (PStr x)
          else Ok expected
      | None => Ok expected
      end
  end.

(** The observed parents, read again up to the first that changed. *)
Fixpoint parents_unchanged (s : sdb) (ps : list (key * state_snapshot)) : result bool :=
  match ps with
  | [] => Ok true
  | p :: ps =>
      let! st := read_component_state_snapshot component_snapshot_from_shape (core s) p.1 in
      if bool_decide (st = Some p.2) then parents_unchanged s ps else Ok false
  end.

(** The parents' rows as the freeze records them. *)
Definition frozen_row_of (s : sdb) (x : string) (q : key * state_snapshot) : result ((string * string) * frozen_row) :=
  let k := encode_component_key q.1 in
  match states (core s) !! k with
  | Some r =>
      check! bool_decide (shapes (jobs_db s) !! st_shape r = Some (ss_shape_json q.2))
        orelse RuntimeError saying "Interrupt parent lost its producing shape before freeze" in
      Ok ((x, k), FrozenRow (st_shape r) (ss_lifecycle q.2) (ss_lineage q.2) (if ss_misaligned q.2 then 1 else 0) (ss_alignment q.2))
  | None => raise RuntimeError "Interrupt parent lost its producing shape before freeze"
  end.

(** [_finalize_interrupt_sample]. *)
Definition finalize_sample (s : sdb) (x : string) (component : key) (shape : string) (sample_id : string) (reader : sample_reader)
  : result sdb :=
  let! _ := _session_text sample_id in
  let! plan := reader s in
  let! chosen := admission_record plan (JStr sample_id) component shape in
  let '(roots, selection) := chosen in
  check! negb (bool_decide (roots = [])) orelse NoSelectedJobs saying "Frozen interrupt sample selected no jobs; no work was prepared" in
  check! bool_decide (NoDup roots.*1) orelse ValueError saying "Frozen interrupt sample contains duplicate jobs" in
  let! _ := rmap (λ q : addr * string,
    let! observed := observe (jobs_db s) q.1 in
    check! bool_decide (q.1.1 ∈ component) && bool_decide (ob_instance <$> observed = Some q.2)
      orelse RuntimeError saying "Sampled job changed during interrupt freeze" in
    Ok ()) roots in
  let! _ := read_sample_admission_history component_snapshot_from_shape is_json s x component shape true in
  match details s !! x with
  | None => raise RuntimeError "Interrupt sample lost its running session"
  | Some dt =>
      check! running s x && bool_decide (sd_selection dt = "jobs") orelse RuntimeError saying "Interrupt sample lost its running session" in
      let! new_details := match loads (sd_details dt) with
        | None => raise RuntimeError "Interrupt sample has damaged session details"
        | Some (JObj d) => if bool_decide (is_Some (dict_get "selection" d)) then Ok (details_text d selection)
                           else raise RuntimeError "Interrupt sample lost its provisional selection"
        | Some _ => raise RuntimeError "Interrupt sample lost its provisional selection"
        end in
      let s := set_session_jobs (filter (λ q : (string * addr) * (Z * string), q.1.1 ≠ x) (session_jobs s)) s in
      let! s := insert_jobs s x roots in
      let s := set_details (<[x := SessionDetails (sd_selection dt) (sd_start dt) (sd_finished dt) (sd_outcome dt)
                                     (sd_failures dt) new_details]> (details s)) s in
      let! retained := read_sample_admission_history component_snapshot_from_shape is_json s x component shape true in
      check! bool_decide (sh_plan retained = plan) && bool_decide (sh_roots retained = roots)
        orelse RuntimeError saying "Frozen interrupt sample readback differs from its observation" in
      Ok s
  end.

(** [fq_parents] is [expected_parent_states] in order: a dictionary, so its components are distinct. *)
Record freeze_request := FreezeRequest {
  fq_session : string;
  fq_shape : string;
  fq_parents : list (key * state_snapshot);
  fq_lineage : lineage;
  fq_overridden : bool;
  fq_at : string;
  fq_sample : option sample_reader;
  fq_sample_id : option string
}.

(** The writer's decision of [freeze_interrupt_target]; [None] while a predecessor runs or a parent changed. *)
Definition freeze (s : sdb) (q : freeze_request)
  : result (sdb * option admission_view) :=
  let x := fq_session q in
  match admissions s !! x with
  | None => raise RuntimeError "Interrupt target is not awaiting freeze"
  | Some a =>
      check! bool_decide (ia_state a = "admitted") orelse RuntimeError saying "Interrupt target is not awaiting freeze" in
      check! negb (fq_overridden q && (ia_requested a =? 0))
        orelse RuntimeError saying "Interrupt freeze cannot add an unrequested readiness override" in
      check! running s x && bool_decide ((r ← sessions (jobs_db s) !! x; shapes (jobs_db s) !! s_shape r) = Some (fq_shape q))
        orelse RuntimeError saying "Interrupt target freeze requires its running session" in
      let! captured := settle_captures (fq_at q) s
        (map_to_list (filter (λ p : (string * string) * paused_row, p.1.1 = x) (paused s))) in
      if captured.2 then Ok (captured.1, None) else
      let s := captured.1 in
      let s := foldr (λ p : (string * string * string) * pause_row, λ s,
        let '(child, owner, k) := p.1 in
        if all_acknowledged s child owner k then acknowledge_request child owner k s else s) s
        (filter (λ p : (string * string * string) * pause_row, p.1.1.1 = x ∧ pr_state p.2 = "requested") (map_to_list (pauses s))) in
      let! component := decode_component_key (ia_target a) in
      let! direct := predecessors_of (fq_shape q) component in
      check! bool_decide (list_to_set (fq_parents q).*1 =@{gset key} list_to_set direct)
        orelse RuntimeError saying "Interrupt freeze requires every direct predecessor observation" in
      let! current := parents_unchanged s (fq_parents q) in
      if negb current then Ok (s, None) else
      match states (core s) !! ia_target a with
      | None => raise RuntimeError "Interrupt target state disappeared before freeze"
      | Some st =>
          let inputs := (λ p : key * state_snapshot,
            (PStr (ss_lifecycle p.2), (py_lineage (ss_lineage p.2)).1, (py_lineage (ss_lineage p.2)).2)) <$> fq_parents q in
          let! expected := freeze_readiness s x (default "" (sc_command <$> columns (core s) !! x)) component inputs in
          check! bool_decide (expected = Some (py_lineage (fq_lineage q), fq_overridden q))
            orelse RuntimeError saying "Interrupt freeze has incompatible parent lineage or readiness" in
          check! forallb (λ p : (string * string) * Z, negb (bool_decide (p.1.2 = ia_target a))) (map_to_list (holds (core s)))
            orelse RuntimeError saying "Interrupt target already has a component hold" in
          let s := set_core (set_holds (<[(x, ia_target a) := 1]> (holds (core s))) (core s)) s in
          let! rows := rmap (frozen_row_of s x) (fq_parents q) in
          let! fs := insert_unique "interrupt_frozen_parent_states" (frozen s) rows in
          let s := set_frozen fs s in
          let s := set_admissions (<[x := AdmissionRow (ia_target a) (ia_requested a) (Some (if fq_overridden q then 1 else 0)) "frozen"
                     (ia_created a) (Some (st_shape st)) (Some (st_alignment st)) (fq_lineage q) (Some (fq_at q)) (ia_settled_at a)]>
                     (admissions s)) s in
          let! s := match fq_sample q with
                    | Some reader => finalize_sample s x component (fq_shape q) (default "" (fq_sample_id q)) reader
                    | None => Ok s
                    end in
          let! view := _read_interrupt_admission s x in
          Ok (s, view)
      end
  end.

(** [freeze_interrupt_target]. *)
Definition freeze_interrupt_target (s : sdb) (q : freeze_request)
  : result (sdb * option admission_view) :=
  let! _ := _session_text (fq_session q) in
  let! _ := _session_text (fq_shape q) in
  let! _ := _session_time is_isoformat (fq_at q) in
  check! bool_decide (fq_lineage q = (Some "stable", None))
         || (bool_decide ((fq_lineage q).1 = Some "unstable") && nonblank (fq_lineage q).2)
    orelse ValueError saying "Interrupt target freeze received invalid lineage" in
  check! bool_decide (bool_decide (is_Some (fq_sample q)) = bool_decide (is_Some (fq_sample_id q)))
    orelse ValueError saying "Frozen interrupt sampling requires its reader and sample identity" in
  let! ps := rmap (λ p : key * state_snapshot, let! m := _session_component p.1 in Ok (m, p.2)) (fq_parents q) in
  freeze s (FreezeRequest (fq_session q) (fq_shape q) ps (fq_lineage q) (fq_overridden q) (fq_at q) (fq_sample q) (fq_sample_id q)).

(** ** Settling ([interrupt_settlement.py]) *)

(** [_settle_interrupt_component]: [true] when the component was the target of the session's interrupt. *)
Definition _settle_interrupt_component (s : sdb) (x : string) (o : ComponentTerminalOutcome) (at_ : string) : result (sdb * bool) :=
  let k := encode_component_key (oc_component o) in
  match admissions s !! x with
  | None => Ok (s, false)
  | Some a =>
      if negb (bool_decide (ia_target a = k)) then Ok (s, false) else
      check! bool_decide (ia_state a = "frozen") orelse RuntimeError saying "Interrupt target settlement requires its frozen admission" in
      check! bool_decide (holds (core s) !! (x, k) = Some 1)
        orelse RuntimeError saying "Interrupt target lost its exact hold before settlement" in
      let s := set_core (set_holds (delete (x, k) (holds (core s))) (core s)) s in
      let s := release_pauses x at_ s in
      let! s := if negb (bool_decide (oc_lifecycle o = "failed"))
                   && (bool_decide (ia_overridden a = Some 1) || bool_decide (oc_lifecycle o = "sampled"))
        then match retained_pointer s k with
             | None => raise RuntimeError "Interrupt target has no exact successful result for its fence"
             | Some p =>
                 let! fs := insert_unique "post_interrupt_fences" (fences s) [((k, p, x), at_)] in
                 Ok (set_fences fs s)
             end
        else Ok s in
      let s := set_admissions (<[x := AdmissionRow (ia_target a) (ia_requested a) (ia_overridden a) "settled" (ia_created a)
                 (ia_shape a) (ia_alignment a) (ia_lineage a) (ia_frozen_at a) (Some at_)]> (admissions s)) s in
      let! _ := _read_interrupt_admission s x in
      Ok (s, true)
  end.

(** One lent component at the exit of the session that borrowed it. *)
Definition give_back (h : host) (x at_ : string) (acc : sdb * (Z * Z)) (q : string * transfer_row) : result (sdb * (Z * Z)) :=
  let '(s, (returned, released)) := acc in
  let '(k, t) := q in
  let d := jobs_db s in
  check! bool_decide (reservations d !! k = Some x) orelse RuntimeError saying "Interrupt scope transfer changed before session exit" in
  let can_return := running s (tr_source t) && selects s (tr_source t) k
                    && match sessions d !! tr_source t with Some row => live h row | None => false end in
  let finish state := set_transfers (<[(x, k) := TransferRow (tr_source t) (tr_kind t) state (tr_created t) (Some at_)]> (transfers s)) in
  if can_return
  then Ok (finish "returned" (set_jobs_db (set_reservations (<[k := tr_source t]> (reservations d)) d) s), (returned + 1, released))
  else Ok (finish "released" (set_jobs_db (set_reservations (delete k (reservations d)) d) s), (returned, released + 1)).

(** The active transfers of a child. *)
Definition active_transfers (s : sdb) (x : string) : list (string * transfer_row) :=
  filter (λ q : string * transfer_row, tr_state q.2 = "active") (transfers_of s x).

(** [_finish_interrupt_session_scope]: how many components went back and how many were released. *)
Definition _finish_interrupt_session_scope (h : host) (s : sdb) (x at_ : string) : result (sdb * (Z * option Z)) :=
  match admissions s !! x with
  | None => Ok (s, (0, None))
  | Some a =>
      let! s := if decide (ia_state a = "frozen") then
          check! bool_decide (holds (core s) !! (x, ia_target a) = Some 1) orelse RuntimeError saying "Interrupt exit lost its exact target hold" in
          Ok (set_core (set_holds (delete (x, ia_target a) (holds (core s))) (core s)) s)
        else Ok s in
      let s := if decide (ia_state a ∈ ["admitted"; "frozen"]) then
          let s := release_pauses x at_ s in
          set_admissions (<[x := AdmissionRow (ia_target a) (ia_requested a) (ia_overridden a) "settled" (ia_created a)
            (ia_shape a) (ia_alignment a) (ia_lineage a) (ia_frozen_at a) (Some at_)]> (admissions s)) s
        else s in
      let! acc := rfold (give_back h x at_) (s, (0, 0)) (active_transfers s x) in
      Ok (acc.1, (acc.2.1, Some acc.2.2))
  end.

(** [require_terminal_interrupt_scope]. *)
Definition require_terminal_interrupt_scope (s : sdb) (x : string) : result () :=
  match admissions s !! x with
  | None => Ok ()
  | Some a =>
      check! bool_decide (ia_state a = "settled") orelse RuntimeError saying "Terminal interrupt session retains an active admission" in
      check! bool_decide (active_transfers s x = [])
             && forallb (λ q : (string * string * string) * pause_row, negb (open_pause x q)) (map_to_list (pauses s))
        orelse RuntimeError saying "Terminal interrupt session retains active scope" in
      Ok ()
  end.
End interrupts.
