(* ===== verification/SelectedWork.v ===== *)
(** Causal work of selected jobs and the readers a claim asks ([storage/job_producers.py],
    [storage/selected_execution.py], [storage/session_selection.py], parts of
    [storage/execution_ownership.py], [component_states.py], [component_definitions.py] and
    [selected_component_lifecycle.py]).

    A job remembers the execution that created it, an execution its job, so creation is a
    chain through [job_execution_owners].  A session that selected jobs may run exactly the
    selected roots and the jobs whose chain of creators stays in the component at its
    producing identity and meets a root. *)
From S2P Require Import Prelude Topology Membership JobStore ComponentRows ComponentLife Sessions Sampling ThreadOverrides Interrupts.

#[local] Open Scope Z_scope.

(** ** Accepted restarts ([execution_ownership.py]) *)

(** The latest [restart_requested] event of a job. *)
Definition latest_restart (d : db) (a : addr) : option event :=
  last (filter (λ e, e_addr e = a ∧ e_name e = "restart_requested") (events d)).

(** The last checks of [_read_owned_restart]: marker and event tell of this very request. *)
Definition restart_recorded (d : db) (a : addr) (ob : observation) (ow : owner) : option string :=
  match (row ← jobs d !! a; restart_requested_at row), latest_restart d a with
  | Some marker, Some ev =>
      if bool_decide (e_time ev = marker) && bool_decide (e_generation ev = Some (ob_generation ob))
         && bool_decide (e_execution ev = Some (ow_execution ow))
         && bool_decide (e_origin ev = Some (ow_session ow, ob_instance ob, ow_component ow))
      then Some marker else None
  | _, _ => None
  end.

Section selected.
Context (component_snapshot_from_shape : string → result ComponentTopologySnapshot).
Context (shape_edges : string → result (list (string * string))).
Context (is_json : string → bool).
Context (overrides : thread_overrides).

Abbreviation cut := (λ s, let! sn := component_snapshot_from_shape s in Ok (components sn)).
Abbreviation observe := (read_job_owner_observation cut).

(** [_read_owned_restart]. *)
Definition _read_owned_restart (d : db) (a : addr) (x : string) (component : key) : result (option expected_restart) :=
  let! observed := observe d a in
  match observed with
  | None => Ok None
  | Some ob =>
      match ob_owner ob with
      | None => Ok None
      | Some ow =>
          if negb (bool_decide (ow_session ow = x)) || negb (bool_decide (ow_component ow = component))
             || negb (bool_decide (ob_status ob = QUEUED)) || negb (bool_decide (ob_active ob = None))
             || (ob_generation ob <=? ow_generation ow)
          then Ok None
          else
            match restart_recorded d a ob ow with
            | None => raise RuntimeError "Nested component restart has inconsistent accepted-request metadata"
            | Some marker => Ok (Some (ExpectedRestart (ob_instance ob) (ob_generation ob) ow (Some marker)))
            end
      end
  end.

(** [_is_claimed_component_restart] of a job with owner [ow]. *)
Definition _is_claimed_component_restart (d : db) (ob : observation) (ow : owner) : result bool :=
  if negb (ow_generation ow =? ob_generation ob) || (ob_generation ob =? 0) then Ok false else
  match latest_restart d (ow_addr ow) with
  | None => Ok false
  | Some ev =>
      let origin := e_origin ev in
      if negb (bool_decide (e_generation ev = Some (ob_generation ob)))
         || negb (bool_decide (((λ o, o.1.2) <$> origin) = Some (ob_instance ob)))
      then Ok false
      else
        let! previous := match e_execution ev with None => Ok None | Some x => read_execution_owner cut d x end in
        check! bool_decide (((λ o, (o.1.1, o.2)) <$> origin) = Some (ow_session ow, ow_component ow))
               && match previous with
                  | None => false
                  | Some p => bool_decide (ow_addr p = ow_addr ow) && bool_decide (ow_session p = ow_session ow)
                      && bool_decide (ow_component p = ow_component ow) && (ow_shape p =? ow_shape ow)
                      && (ow_alignment p =? ow_alignment ow) && bool_decide (ow_creator p = ow_creator ow)
                      && bool_decide (ow_instance p = ob_instance ob) && (ow_generation p <? ow_generation ow)
                  end
          orelse RuntimeError saying "Claimed component restart has inconsistent accepted-request metadata" in
        Ok true
  end.

(** ** Creation ancestry ([job_producers.py]) *)

(** [_read_component_producing_identity]. *)
Definition _read_component_producing_identity (s : sdb) (component : key) : result (Z * Z) :=
  let! state := read_component_state_snapshot component_snapshot_from_shape (core s) component in
  match state with
  | None => raise RuntimeError "Missing producing component state"
  | Some st =>
      let! snapshot := on_value_error (component_snapshot_from_shape (ss_shape_json st)) "Invalid producing component shape" in
      check! bool_decide (component ∈ components snapshot)
        orelse RuntimeError saying "Producing component does not belong to its recorded shape" in
      match states (core s) !! encode_component_key component with
      | Some row => Ok (st_shape row, ss_alignment st)
      | None => raise TypeError "no state row"
      end
  end.

(** An execution stays inside the selection. *)
Definition in_scope (x : string) (component : key) (identity : Z * Z) (ow : owner) : bool :=
  bool_decide (ow_session ow = x) && bool_decide (ow_component ow = component)
  && bool_decide ((ow_shape ow, ow_alignment ow) = identity).

Section walk.
Context (d : db) (roots : list (addr * string)) (x : string) (component : key) (identity : Z * Z).

Fixpoint descends_loop (fuel : nat) (visited : gset string) (creator : option string) : result bool :=
  match creator with
  | None => Ok false
  | Some e =>
      check! negb (bool_decide (e ∈ visited)) orelse RuntimeError saying "Cyclic selected job creation ancestry" in
      match fuel with
      | O => raise UserError "out of fuel"
      | S fuel =>
          let! found := read_execution_owner cut d e in
          match found with
          | None => raise RuntimeError "Missing selected job creation ancestry"
          | Some ow =>
              if negb (in_scope x component identity ow) then Ok false
              else if bool_decide ((ow_addr ow, ow_instance ow) ∈ roots) then Ok true
              else descends_loop fuel ({[e]} ∪ visited) (ow_creator ow)
          end
      end
  end.

(** [_job_descends_from_selected_root]; an execution is visited at most once. *)
Definition _job_descends_from_selected_root (creator : option string) : result bool :=
  descends_loop (S (size (owners d))) ∅ creator.
End walk.

(** The executions of the roots and, forward, of the jobs they created in the component. *)
Definition executions_where (d : db) (P : string * owner_row → bool) : list string :=
  py_sorted (fst <$> filter (λ q, P q = true) (map_to_list (owners d))).

Fixpoint forward_loop (fuel : nat) (d : db) (k : string) (found : gmap string owner) (todo : list string)
  : result (gmap string owner) :=
  match todo with
  | [] => Ok found
  | _ =>
      match fuel with
      | O => raise UserError "out of fuel"
      | S fuel =>
          let producer := default "" (last todo) in
          let children := executions_where d (λ q, bool_decide (o_creator q.2 = Some producer) && bool_decide (o_component_key q.2 = k)) in
          let! r := rfold (λ acc e,
            if bool_decide (is_Some (acc.1 !! e)) then Ok acc else
            let! ow := read_execution_owner cut d e in
            match ow with
            | None => raise TypeError "no owner row"
            | Some ow => Ok (<[e := ow]> acc.1, acc.2 ++ [e])
            end) (found, removelast todo) children in
          forward_loop fuel d k r.1 r.2
      end
  end.

(** [_read_selected_preparation_owners]; every execution enters the worklist once. *)
Definition _read_selected_preparation_owners (d : db) (component : key) (roots : list (addr * string))
  : result (list owner) :=
  let! r := rfold (λ acc (q : addr * string),
    rfold (λ acc e,
      let! ow := read_execution_owner cut d e in
      match ow with
      | None => raise TypeError "no owner row"
      | Some ow =>
          if bool_decide (ow_component ow = component)
          then Ok (<[e := ow]> acc.1, if bool_decide (e ∈ acc.2) then acc.2 else acc.2 ++ [e]) else Ok acc
      end) acc (executions_where d (λ p, bool_decide (o_addr p.2 = q.1) && bool_decide (o_instance p.2 = q.2))))
    (∅, []) roots in
  let! found := forward_loop (S (size (owners d))) d (encode_component_key component) r.1 r.2 in
  Ok (omap (λ e, found !! e) (py_sorted (fst <$> map_to_list found))).

(** ** Selected roots and their jobs ([session_selection.py], [selected_execution.py]) *)

(** [_require_selected_preparation_roots]. *)
Definition _require_selected_preparation_roots (s : sdb) (x : option string) (component : key) (roots : list (addr * string))
  : result () :=
  check! negb (bool_decide (roots = [])) && bool_decide (NoDup roots)
    orelse ValueError saying "Selected preparation requires distinct exact job roots" in
  let! _ := match x with
    | None => Ok ()
    | Some x =>
        let! cs := _read_session_components s x in
        check! bool_decide (cs = [component]) orelse RuntimeError saying "Selected preparation requires one exact component" in
        let! recorded := _read_session_job_roots s x None in
        check! bool_decide (recorded = roots) orelse RuntimeError saying "Selected preparation roots changed after admission" in
        Ok ()
    end in
  let! _ := rmap (λ q : addr * string,
    let! _ := validate_node_name q.1.1 in
    check! 1 <=? q.1.2 orelse ValueError saying "job_id must be an integer >= 1" in
    let row := _ ← jobs (jobs_db s) !! q.1; instances (jobs_db s) !! q.1 in
    check! bool_decide (q.1.1 ∈ component) && bool_decide (instance_id <$> row = Some q.2) && valid_instance q.2
      orelse RuntimeError saying "Selected preparation job instance changed" in
    Ok ()) roots in
  Ok ().

(** The jobs of a node with their instances, by id. *)
Definition instances_of (d : db) (node : string) : list (addr * (job_row * instance_row)) :=
  sort_by (λ q : addr * (job_row * instance_row), q.1.2)
    (omap (λ q : addr * job_row, i ← instances d !! q.1; if bool_decide (q.1.1 = node) then Some (q.1, (q.2, i)) else None)
      (map_to_list (jobs d))).

(** [read_selected_execution_jobs] of the component that owns the first root: the roots and
    their causal jobs with their statuses. *)
Definition read_selected_execution_jobs (s : sdb) (x : string) (component : key) (shape : string)
    (roots : list (addr * string)) (expected : Z * Z) : result (list (addr * string)) :=
  let! _ := _require_selected_preparation_roots s (Some x) component roots in
  let! _ := read_component_states_snapshot component_snapshot_from_shape (core s) component shape in
  check! running s x && bool_decide (reservations (jobs_db s) !! encode_component_key component = Some x)
    orelse RuntimeError saying "Selected execution no longer owns its captured component" in
  let! identity := _read_component_producing_identity s component in
  check! bool_decide (identity = expected)
    orelse RuntimeError saying "Selected execution lost its captured component alignment" in
  let! found := rmap (λ q : addr * (job_row * instance_row),
    let! included :=
      if bool_decide ((q.1, instance_id q.2.2) ∈ roots) then Ok true
      else _job_descends_from_selected_root (jobs_db s) roots x component identity (created_by_execution_id q.2.2) in
    Ok (if included then [(q.1, status q.2.1)] else []))
    (node ← component; instances_of (jobs_db s) node) in
  Ok (mjoin found).

(** [_selected_component_result]: the outcome of a selected attempt. *)
Definition _selected_component_result (s : sdb) (x k : string) (pe : pending_row) (successful : bool)
  : result ComponentTerminalOutcome :=
  let! component := _stored_session_component k in
  let identity := (pe_shape pe, pe_alignment pe) in
  let! roots := _read_session_job_roots s x None in
  let! shape := match shapes (jobs_db s) !! pe_shape pe with Some t => Ok t | None => raise TypeError "no pending row" end in
  let! _ := match roots with
            | [] => raise UserError "IndexError: tuple index out of range"
            | (a, _) :: _ => check! bool_decide (a.1 ∈ component) orelse KeyError saying "node" in Ok ()
            end in
  let! frontier := read_selected_execution_jobs s x component shape roots identity in
  check! negb (successful && existsb (λ q : addr * string, negb (bool_decide (q.2 ∈ [DONE; SKIPPED]))) frontier)
    orelse ComponentExecutionIncomplete saying "Selected completion has unfinished causal work" in
  let! state := read_component_state_record component_snapshot_from_shape (core s) component true in
  match state with
  | None => raise RuntimeError "Selected execution lost its admitted component identity"
  | Some st =>
      let! expected := make_identity (pe_shape pe) (pe_alignment pe) in
      check! bool_decide (cs_identity st = expected) orelse RuntimeError saying "Selected execution lost its admitted component identity" in
      let! prior := read_retained_successful_result component_snapshot_from_shape (core s) st in
      check! negb (bool_decide (pe_starting_lifecycle pe = "queued") && bool_decide (is_Some prior))
        orelse RuntimeError saying "Queued selected execution cannot have a retained successful result" in
      check! negb (bool_decide (pe_starting_lifecycle pe ∈ ["sampled"; "done"]))
             || bool_decide (sr_lifecycle <$> prior = Some (pe_starting_lifecycle pe))
        orelse RuntimeError saying "Selected execution lost its retained successful result" in
      check! match prior with Some p => bool_decide (sr_lineage p = (pe_stability pe, pe_origin pe)) | None => true end
        orelse RuntimeError saying "Selected pending lineage differs from its retained success" in
      let! details := match columns (core s) !! x, details s !! x with
                      | Some c, Some dt => Ok (sc_command c, sd_details dt)
                      | _, _ => raise RuntimeError "Selected execution lost its session"
                      end in
      check! details_object details.2 orelse RuntimeError saying "Selected execution has damaged session details" in
      let! lifecycle :=
        if bool_decide (details.1 = "run sample") || details_select details.2 then
          let! full := sample_settled component_snapshot_from_shape is_json s x component shape in Ok (if full then "done" else "sampled")
        else
          let full := forallb (λ j, bool_decide (status j ∈ [DONE; SKIPPED]) && bool_decide (active_execution_id j = None))
                        (node ← component; jobs_of (core s) node) in
          Ok (if full || bool_decide (sr_lifecycle <$> prior = Some "done") then "done" else "sampled") in
      Ok (TerminalOutcome component shape (pe_alignment pe) (if successful then lifecycle else "failed")
            (if successful then (pe_stability pe, pe_origin pe) else (None, None)))
  end.

(** ** Creating jobs from a running execution ([job_producers.py]) *)

(** The fields of a job the producer checks read; [component] is [producer_component]. *)
Record created_job := CreatedJob { cj_node : string; cj_component : option key; cj_kind : string }.

(** [_validate_job_producer]. *)
Definition _validate_job_producer (s : sdb) (job : created_job) (execution : option string) : result () :=
  match execution with
  | None => Ok ()
  | Some e =>
      let! _ := _session_text e in
      match owners (jobs_db s) !! e with
      | None => raise RuntimeError "Job creation has no recorded producer execution"
      | Some o =>
          let! observed := observe (jobs_db s) (o_addr o) in
          match observed ≫= λ ob, ow ← ob_owner ob; se ← ob_session ob; Some (ob, ow, se.2) with
          | None => raise RuntimeError "Job creation requires its exact active producer execution"
          | Some (ob, ow, session) =>
              check! bool_decide (ob_active ob = Some e) && bool_decide (ob_status ob = RUNNING)
                     && bool_decide (ow_execution ow = e) && bool_decide (Some (ow_component ow) = cj_component job)
                orelse RuntimeError saying "Job creation requires its exact active producer execution" in
              check! bool_decide (s_status session = "running")
                     && bool_decide (reservations (jobs_db s) !! encode_component_key (ow_component ow) = Some (ow_session ow))
                orelse RuntimeError saying "Job producer no longer owns its execution component" in
              let! identity := _read_component_producing_identity s (ow_component ow) in
              check! bool_decide (identity = (ow_shape ow, ow_alignment ow))
                orelse RuntimeError saying "Job producing component changed before creation" in
              check! bool_decide (cj_kind job = if bool_decide (cj_node job ∈ ow_component ow) then "component" else "dag")
                orelse RuntimeError saying "Created job kind does not match its producing component" in
              Ok ()
          end
      end
  end.

(** [_record_job_producer]. *)
Definition _record_job_producer (d : db) (a : addr) (execution : option string) : result db :=
  match execution with
  | None => Ok d
  | Some e =>
      match instances d !! a with
      | Some i =>
          check! bool_decide (created_by_execution_id i = None)
            orelse RuntimeError saying "Job creation did not record its exact producer" in
          Ok (set_instances (<[a := InstanceRow (instance_id i) (last_execution_id i) (Some e)]> (instances d)) d)
      | None => raise RuntimeError "Job creation did not record its exact producer"
      end
  end.

(** ** What a claim asks ([job_producers.py], [component_states.py], [execution_ownership.py]) *)

(** [_selected_job_claim_error]. *)
Definition _selected_job_claim_error (s : sdb) (b : claim_batch) (identity : Z * Z) : option exc :=
  error_of (
    let x := default "" (b_session b) in
    let component := default [] (b_component b) in
    let! roots := _read_session_job_roots s x None in
    if decide (roots = []) then Ok () else
    let! _ := rmap (λ j,
      match instances (jobs_db s) !! (b_node b, j) with
      | None => raise KeyError "job"
      | Some i =>
          if bool_decide (((b_node b, j), instance_id i) ∈ roots) then Ok () else
          let! descends := _job_descends_from_selected_root (jobs_db s) roots x component identity (created_by_execution_id i) in
          check! descends orelse RuntimeError saying "Job is outside selected job causal scope" in
          Ok ()
      end) (b_jobs b) in
    Ok ()).

(** The jobs [_read_pending_component_work] looks at: failed, cancelled, restarted or
    claimed before. *)
Definition unsettled (j : job_row) : bool :=
  bool_decide (status j ∈ [FAILED; CANCELLED]) || bool_decide (is_Some (restart_requested_at j))
  || ((0 <? generation j) && (bool_decide (is_Some (active_execution_id j)) || bool_decide (status j = QUEUED))).

(** Whether one such job of the session's component keeps it unfinished. *)
Definition unfinished (s : sdb) (x : string) (component : key) (a : addr) (j : job_row) : result (option (option expected_restart)) :=
  let d := jobs_db s in
  let! observed := observe d a in
  match observed with
  | None => raise TypeError "no job"
  | Some ob =>
      match ob_owner ob with
      | None => Ok None
      | Some ow =>
          if negb (bool_decide (ow_session ow = x)) || negb (bool_decide (ow_component ow = component)) then Ok None else
          let! claimed := if bool_decide (status j ∈ [QUEUED; RUNNING]) then _is_claimed_component_restart d ob ow else Ok false in
          if claimed then Ok (Some None)
          else if bool_decide (status j = RUNNING) then Ok None
          else
            check! bool_decide (ob_active ob = None) orelse RuntimeError saying "Unfinished component work still has an active execution" in
            if bool_decide (status j = QUEUED)
            then let! e := _read_owned_restart d a x component in Ok (Some <$> e)
            else Ok (Some None)
      end
  end.

(** The jobs of a component with their rows. *)
Definition component_jobs (d : db) (component : key) : list (addr * job_row) :=
  node ← component; sort_by (λ q : addr * job_row, q.1.2) (filter (λ q, q.1.1 = node) (map_to_list (jobs d))).

(** The result a pending execution would publish. *)
Definition pending_proposal (component : key) (shape : string) (pe : pending_row) : ComponentTerminalOutcome :=
  TerminalOutcome component shape (pe_alignment pe) "done" (pe_stability pe, pe_origin pe).

(** [_read_pending_component_work]. *)
Definition _read_pending_component_work (s : sdb) (x : string) (component : key)
  : result (list (addr * option expected_restart)) :=
  match pending (core s) !! (x, encode_component_key component) with
  | None => Ok []
  | Some pe =>
      let shape := default "" (shapes (jobs_db s) !! pe_shape pe) in
      let! _ := _validate_component_terminal_outcomes component_snapshot_from_shape (core s) x
                  [pending_proposal component shape pe] in
      let! found := rmap (λ q : addr * job_row,
        let! u := unfinished s x component q.1 q.2 in Ok ((λ e, (q.1, e)) <$> u))
        (filter (λ q, unsettled q.2 = true) (component_jobs (jobs_db s) component)) in
      Ok (omap id found)
  end.

(** [_component_claim_error]. *)
Definition _component_claim_error (s : sdb) (b : claim_batch) : option exc :=
  match b_session b with
  | None => None
  | Some x =>
      error_of (
        let component := default [] (b_component b) in
        let k := encode_component_key component in
        let! _ := _require_interrupt_fence_authority component_snapshot_from_shape shape_edges s x k in
        if decide (pending (core s) !! (x, k) = None) then Ok () else
        let! restarts := rmap (λ j, _read_owned_restart (jobs_db s) (b_node b, j) x component) (b_jobs b) in
        if decide (Forall is_Some restarts) then
          let! identity := _read_component_producing_identity s component in
          check! forallb (λ e, bool_decide ((ow_shape (x_owner e), ow_alignment (x_owner e)) = identity)) (omap id restarts)
            orelse RuntimeError saying "Restart producing component changed before claim" in
          Ok ()
        else
          let! work := _read_pending_component_work s x component in
          check! bool_decide (work = []) orelse ComponentExecutionIncomplete saying
            "Ordinary admission waits for unfinished component job" in
          Ok ())
  end.

(** The readers of a claim, over these tables. *)
Definition readers_of (s : sdb) : claim_readers := {|
  interrupt_blocked d x c := negb (bool_decide (read_interrupt_claim_blockers (set_jobs_db d s) x c = []));
  interrupt_fenced d x k :=
    let! fs := _read_interrupt_execution_fences component_snapshot_from_shape shape_edges (set_jobs_db d s) x k in
    Ok (negb (bool_decide (fs = [])));
  thread_override_error d := claim_error overrides (set_jobs_db d s);
  producing_identity d := _read_component_producing_identity (set_jobs_db d s);
  selected_job_error d := _selected_job_claim_error (set_jobs_db d s);
  component_claim_error d := _component_claim_error (set_jobs_db d s)
|}.

(** [_apply_execution_claim_batches] over these tables. *)
Definition claim_executions (s : sdb) (batches : list claim_batch) : result (sdb * list (result (list (Z * string)))) :=
  let! r := apply_execution_claim_batches cut (readers_of s) (jobs_db s) batches in
  Ok (set_jobs_db r.1 s, r.2).
End selected.

(** ** Refused claims *)

Lemma claim_outcomes snapshot readers d bs acc :
  ∃ os, c_outcomes (foldl (process_batch snapshot readers d) acc bs) = c_outcomes acc ++ os ∧
    Forall2 (λ b o, ∀ e, execution_claim_owner readers d b = Err e → o = Err e) bs os.
Proof.
  revert acc. induction bs as [|b bs IH]; intros acc; [exists []; split; [by rewrite app_nil_r|constructor]|].
  cbn [foldl]. destruct (IH (process_batch snapshot readers d acc b)) as (os & E & HF).
  assert (∃ o, c_outcomes (process_batch snapshot readers d acc b) = c_outcomes acc ++ [o] ∧
    ∀ e, execution_claim_owner readers d b = Err e → o = Err e) as (o & Eo & Ho).
  { unfold process_batch. destruct (check_batch _ _ _ _ _) as [[[s c] i]|e] eqn:Hc.
    - eexists. split; [done|]. intros e He. unfold check_batch in Hc. by rewrite He in Hc.
    - eexists. split; [done|]. intros e' He. unfold check_batch in Hc. rewrite He in Hc. by injection Hc as <-. }
  exists (o :: os). split; [by rewrite E, Eo, <- app_assoc|by constructor].
Qed.

(** A paused session's claims of a component are refused. *)
Lemma paused_claim_refused snapshot edges over s bs s' outs i b x c :
  claim_executions snapshot edges over s bs = Ok (s', outs) → bs !! i = Some b →
  b_session b = Some x → b_component b = Some c → b_node b ∈ c → read_interrupt_claim_blockers s x c ≠ [] →
  outs !! i = Some (Err (Exc InterruptAdmissionPaused "interrupt admission paused")).
Proof.
  intros H Hb Hx Hc Hn Hp. unfold claim_executions in H. inv_ok. destruct x0 as [d os]. cbn [fst snd].
  unfold apply_execution_claim_batches in *.
  destruct (claim_outcomes (λ s, let! sn := snapshot s in Ok (components sn)) (readers_of snapshot edges over s) (jobs_db s) bs (ClaimAcc [] [] ∅)) as (os' & E & HF).
  assert (os = os') as ->.
  { inv_ok. destruct (update_jobs _ _) as [js n]. inv_ok. by rewrite E. }
  destruct (Forall2_lookup_l _ _ _ _ _ HF Hb) as (o & -> & Ho). f_equal. apply Ho.
  unfold execution_claim_owner. rewrite Hx, Hc. rewrite bool_decide_eq_true_2 by done. cbn [require rbind interrupt_blocked readers_of].
  replace (set_jobs_db (jobs_db s) s) with s by by destruct s as [[]].
  by rewrite bool_decide_eq_false_2.
Qed.

(** ** Ancestry *)

Section ancestry.
Context (snapshot : string → result ComponentTopologySnapshot).
Context (d : db) (roots : list (addr * string)) (x : string) (component : key) (identity : Z * Z).

Abbreviation cut := (λ s, let! sn := snapshot s in Ok (components sn)).
Abbreviation owner_is e ow := (read_execution_owner cut d e = Ok (Some ow) ∧ in_scope x component identity ow = true).

(** A creator whose chain of creators stays in scope until a selected root. *)
Inductive causal : option string → Prop :=
  | causal_root e ow : owner_is e ow → (ow_addr ow, ow_instance ow) ∈ roots → causal (Some e)
  | causal_created e ow : owner_is e ow → causal (ow_creator ow) → causal (Some e).

(** The same, counting the executions before the first root. *)
Inductive causal_after : nat → option string → Prop :=
  | after_root e ow : owner_is e ow → (ow_addr ow, ow_instance ow) ∈ roots → causal_after 0 (Some e)
  | after_created n e ow : owner_is e ow → (ow_addr ow, ow_instance ow) ∉ roots →
      causal_after n (ow_creator ow) → causal_after (S n) (Some e).

Lemma causal_counted c : causal c → ∃ n, causal_after n c.
Proof.
  induction 1 as [e ow Ho Hr|e ow Ho _ [n IH]]; [exists 0%nat; by eapply after_root|].
  destruct (decide ((ow_addr ow, ow_instance ow) ∈ roots)); [exists 0%nat; by eapply after_root|exists (S n); by eapply after_created].
Qed.

Lemma causal_after_unique n m c : causal_after n c → causal_after m c → n = m.
Proof.
  intros H. revert m. induction H as [e ow [Ho _] Hr|n e ow [Ho _] Hr _ IH]; intros m Hm; inversion Hm as [e' ow' [Ho' _] Hr'|m' e' ow' [Ho' _] Hr' Hm']; subst;
    (assert (ow' = ow) as -> by congruence); [done|done|done|]. f_equal. by apply IH.
Qed.

Lemma owner_recorded e ow : read_execution_owner cut d e = Ok (Some ow) → e ∈ dom (owners d).
Proof. unfold read_execution_owner. intros H. apply elem_of_dom. destruct (owners d !! e); [by eexists|by inv_ok]. Qed.

Abbreviation loop := (descends_loop snapshot d roots x component identity).

Lemma visited_bound (visited : gset string) e : visited ⊆ dom (owners d) → e ∈ dom (owners d) → e ∉ visited →
  (size visited < size (owners d))%nat ∧ {[e]} ∪ visited ⊆ dom (owners d) ∧ size ({[e]} ∪ visited) = S (size visited).
Proof.
  intros Hv He Hn. assert ({[e]} ∪ visited ⊆ dom (owners d)) as Hsub by set_solver.
  assert (size ({[e]} ∪ visited) = S (size visited)) as Hs by (rewrite size_union by set_solver; by rewrite size_singleton).
  pose proof (subseteq_size _ _ Hsub) as Hle. rewrite size_dom in Hle. rewrite Hs in Hle. split_and!; [lia|done|done].
Qed.

Lemma loop_finds n c : causal_after n c → ∀ fuel (visited : gset string), visited ⊆ dom (owners d) →
  (size (owners d) < fuel + size visited)%nat → (∀ v, v ∈ visited → ∃ m, causal_after m (Some v) ∧ (n < m)%nat) →
  loop fuel visited c = Ok true.
Proof.
  assert (∀ n e (visited : gset string), causal_after n (Some e) →
    (∀ v, v ∈ visited → ∃ m, causal_after m (Some v) ∧ (n < m)%nat) → e ∉ visited) as Hfresh.
  { intros k e visited Hk Hall Hin. destruct (Hall e Hin) as (m & Hm & ?). pose proof (causal_after_unique _ _ _ Hk Hm). lia. }
  induction 1 as [e ow [Ho Hs] Hr|n e ow [Ho Hs] Hr Hc IH]; intros fuel visited Hv Hfuel Hall.
  - assert (e ∉ visited) as Hn by (eapply Hfresh; [by eapply after_root|done]).
    destruct (visited_bound visited e Hv (owner_recorded _ _ Ho) Hn) as (Hlt & _). destruct fuel as [|fuel]; [lia|].
    cbn [descends_loop]. rewrite bool_decide_eq_false_2 by done. cbn [negb require rbind]. rewrite Ho. cbn [rbind].
    rewrite Hs. cbn [negb]. by rewrite bool_decide_eq_true_2.
  - assert (causal_after (S n) (Some e)) as He by by eapply after_created.
    assert (e ∉ visited) as Hn by by eapply Hfresh.
    destruct (visited_bound visited e Hv (owner_recorded _ _ Ho) Hn) as (Hlt & Hsub & Hsize). destruct fuel as [|fuel]; [lia|].
    cbn [descends_loop]. rewrite bool_decide_eq_false_2 by done. cbn [negb require rbind]. rewrite Ho. cbn [rbind].
    rewrite Hs. cbn [negb]. rewrite bool_decide_eq_false_2 by done. apply IH; [done|lia|].
    intros v [->%elem_of_singleton|Hv']%elem_of_union; [exists (S n); split; [done|lia]|].
    destruct (Hall v Hv') as (m & Hm & ?). exists m. split; [done|lia].
Qed.

Lemma loop_sound fuel : ∀ (visited : gset string) c, loop fuel visited c = Ok true → causal c.
Proof.
  induction fuel as [|fuel IH]; intros visited [e|] H; cbn in H; inv_ok; try discriminate.
  match goal with H : read_execution_owner _ _ _ = Ok ?o |- _ => destruct o as [ow|]; [|discriminate]; rename H into Ho end.
  destruct (in_scope x component identity ow) eqn:Hs; cbn [negb] in H; [|by inv_ok].
  case_bool_decide; [by eapply causal_root|]. apply IH in H. by eapply causal_created.
Qed.

Lemma read_owner_error e err : read_execution_owner cut d e = Err err → exc_cls err = RuntimeError.
Proof.
  unfold read_execution_owner. destruct (owners d !! e) as [o|]; [|done]. unfold execution_owner_from_row, require, raise.
  intros H. repeat (match type of H with context [match ?m with _ => _ end] => destruct m; cbn in H; try (by injection H as <-) end); try done.
Qed.

(** The walk always ends before its fuel. *)
Lemma loop_ends fuel : ∀ (visited : gset string) c, visited ⊆ dom (owners d) → (size (owners d) < fuel + size visited)%nat →
  ∀ err, loop fuel visited c = Err err → exc_cls err = RuntimeError.
Proof.
  induction fuel as [|fuel IH]; intros visited [e|] Hv Hf err H; cbn in H; try discriminate.
  - apply subseteq_size in Hv. rewrite size_dom in Hv. lia.
  - case_bool_decide as Hin; cbn in H; [by injection H as <-|].
    destruct (read_execution_owner cut d e) as [[ow|]|e'] eqn:Ho; cbn in H; [|by injection H as <-|injection H as <-; by eapply read_owner_error].
    destruct (in_scope x component identity ow); cbn [negb] in H; [|discriminate]. case_bool_decide; [discriminate|].
    destruct (visited_bound visited e Hv (owner_recorded _ _ Ho) Hin) as (? & ? & ?). eapply IH; [| |exact H]; [done|lia].
Qed.
End ancestry.

Lemma selected_ancestry snapshot d roots x component identity creator :
  _job_descends_from_selected_root snapshot d roots x component identity creator = Ok true ↔
    causal snapshot d roots x component identity creator.
Proof.
  unfold _job_descends_from_selected_root. split; [apply loop_sound|].
  intros [n Hn]%causal_counted. eapply loop_finds; [exact Hn|set_solver|lia|set_solver].
Qed.

(** The walk along creators decides exactly whether a chain of executions of the same
    session, component and producing identity leads from the creating execution to a
    selected root, in any tables, cyclic ones included; it ends before its fuel, and what
    it raises is an error about damaged or circular ancestry. *)
Theorem selected_ancestry_exact snapshot d roots x component identity creator :
  (_job_descends_from_selected_root snapshot d roots x component identity creator = Ok true ↔
     causal snapshot d roots x component identity creator) ∧
  ∀ err, _job_descends_from_selected_root snapshot d roots x component identity creator = Err err → exc_cls err = RuntimeError.
Proof.
  split; [apply selected_ancestry|]. apply loop_ends; [set_solver|lia].
Qed.

(** The checks of an accepted batch over these tables. *)
Lemma check_batch_selected snapshot edges over s accepted b x c identity :
  check_batch (λ s, let! sn := snapshot s in Ok (components sn)) (readers_of snapshot edges over s) (jobs_db s) accepted b = Ok (x, c, identity) →
  b_session b = Some x ∧ b_component b = Some c ∧ _read_component_producing_identity snapshot s c = Ok identity ∧
  _selected_job_claim_error snapshot s b identity = None.
Proof.
  unfold check_batch. intros H. apply rbind_ok in H as ([x' c'] & Ho & H). inv_ok.
  match goal with H : (_, _) = (_, _) |- _ => injection H as -> -> -> | _ => idtac end.
  cbn [producing_identity selected_job_error readers_of] in *. replace (set_jobs_db (jobs_db s) s) with s in * by by destruct s as [[]].
  unfold execution_claim_owner in Ho. destruct (b_session b), (b_component b); try discriminate. inv_ok.
  repeat match goal with H : (_, _) = (_, _) |- _ => injection H as -> -> end.
  split_and!; try done. match goal with H : raise_if (_selected_job_claim_error _ _ _ _) = Ok _ |- _ =>
    unfold raise_if in H; by destruct (_selected_job_claim_error _ _ _ _) end.
Qed.

Lemma selected_claim_ok snapshot s b identity x c j i : b_session b = Some x → b_component b = Some c →
  _selected_job_claim_error snapshot s b identity = None → j ∈ b_jobs b → instances (jobs_db s) !! (b_node b, j) = Some i →
  ∃ roots, _read_session_job_roots s x None = Ok roots ∧
    (roots = [] ∨ ((b_node b, j), instance_id i) ∈ roots ∨
     causal snapshot (jobs_db s) roots x c identity (created_by_execution_id i)).
Proof.
  intros Hx Hc He Hj Hi. unfold _selected_job_claim_error in He. rewrite Hx, Hc in He. cbn [from_option id] in He. cbv zeta in He.
  destruct (_read_session_job_roots s x None) as [roots|] eqn:Hr; [|discriminate He]. exists roots. split; [done|]. cbn [rbind] in He.
  destruct (decide (roots = [])); [by left|right]. match type of He with error_of (rbind ?m _) = None => destruct m as [us|] eqn:Hm; [|discriminate He] end.
  apply rmap_ok in Hm. apply list_elem_of_lookup in Hj as [m Hn]. destruct (Forall2_lookup_l _ _ _ _ _ Hm Hn) as ([] & _ & Hok).
  cbn beta in Hok. rewrite Hi in Hok. case_bool_decide as Hin; [by left|right]. inv_ok. subst.
  by apply (selected_ancestry snapshot).
Qed.

(** C23: A committed claim mutation in a session that selected jobs takes nothing but the
    selected roots and the jobs that a chain of executions of the same session, component
    and producing identity created from a root; the lease is recorded at exactly the
    identity the component has. *)
Theorem selected_claims_causal snapshot edges over s bs s' outs a row x :
  claim_executions snapshot edges over s bs = Ok (s', outs) →
  jobs (jobs_db s') !! a = Some row → active_execution_id row = Some x → (jobs (jobs_db s) !! a ≫= active_execution_id) ≠ Some x →
  ∃ o c i roots, owners (jobs_db s') !! x = Some o ∧ o_addr o = a ∧ o_component_key o = encode_component_key c ∧
    instances (jobs_db s) !! a = Some i ∧ _read_component_producing_identity snapshot s c = Ok (o_shape o, o_alignment o) ∧
    _read_session_job_roots s (o_session o) None = Ok roots ∧
    (roots = [] ∨ (a, instance_id i) ∈ roots ∨
     causal snapshot (jobs_db s) roots (o_session o) c (o_shape o, o_alignment o) (created_by_execution_id i)).
Proof.
  intros H Hrow Hx Hold. unfold claim_executions in H. inv_ok. destruct x0 as [d os]. cbn [fst] in *.
  match goal with H : apply_execution_claim_batches _ _ _ _ = Ok _ |- _ => apply apply_claims_checked in H as [Hch Hcl] end.
  set (ls := c_leases _) in *. change (jobs d !! a = Some row) in Hrow. change (owners (jobs_db (set_jobs_db d s))) with (owners d).
  destruct (decide (a ∈ l_addr <$> ls)) as [(l & -> & Hl)%list_elem_of_fmap|Hn].
  2:{ rewrite (cl_jobs_other _ _ _ Hcl) in Hrow by done. rewrite Hrow in Hold. cbn in Hold. congruence. }
  pose proof (proj1 (Forall_forall _ _) Hch l Hl) as (acc & b & c & j & i & Hb & Hj & Ha & Hk & Hi & _ & _).
  pose proof (proj1 (Forall_forall _ _) (cl_jobs _ _ _ Hcl) l Hl) as (row0 & _ & _ & Hrow'). rewrite Hrow' in Hrow. injection Hrow as <-.
  cbn in Hx. injection Hx as <-.
  pose proof (proj1 (Forall_forall _ _) (cl_owners _ _ _ Hcl) l Hl) as [_ Ho].
  pose proof (proj1 (Forall_forall _ _) (cl_ok _ _ _ Hcl) l Hl) as (_ & _ & _ & _ & _ & Hoa & _).
  apply check_batch_selected in Hb as (Hs & Hc & Hid & He). rewrite Ha in Hi |- *.
  destruct (selected_claim_ok _ _ _ _ _ _ _ _ Hs Hc He Hj Hi) as (roots & Hr & Hcase).
  exists (l_owner l), c, i, roots. rewrite Ha in Hoa. split_and!; done.
Qed.

(** ** A session that selected one job, which created another *)

Module causal_sample.
Definition ka := encode_component_key ["a"].
Definition decode (shape : string) : result ComponentTopologySnapshot :=
  if bool_decide (shape = "shape") then Ok (MkSnapshot "shape" [["a"]]) else raise ValueError "not a shape".
Definition edges (shape : string) : result (list (string * string)) := Ok [].
Definition yes (text : string) : bool := true.
Definition here : host := Host "here" (λ _, true) (λ _, None) (λ _, Some 0).
Definition over : thread_overrides := stored_overrides decode yes yes yes yes yes here.
Definition i1 := "00000000000000000000000000000001".
Definition i2 := "00000000000000000000000000000002".
Definition core0 : cdb := Cdb
  (Db {[("a", 1) := JobRow 0 RUNNING (Some "e1") (Some 7) (Some 8) (Some "t1") None None None None;
        ("a", 2) := JobRow 0 QUEUED None None None None None None None None]}
    {[("a", 1) := InstanceRow i1 (Some "e1") None; ("a", 2) := InstanceRow i2 None (Some "e1")]}
    {["e1" := OwnerRow ("a", 1) 0 "m" ka i1 1 0 None]}
    {["m" := SessionRow "main" "running" 1 (Some "here") (Some 7) None (Some "t0") "t0"]} {[("m", ka)]} {[ka := "m"]}
    {[1 := "shape"]} {[(ka, 1)]} {["a" := "running"]} [] 0)
  {["m" := SessionColumns "run" (Some 0) 1]} (Tables (Some 0) {[ka := 0]} {["a" := ka]})
  {[ka := StateRow 1 None None "queued" None None 0 0]} ∅ ∅ ∅ ∅.
Definition s0 : sdb := Sdb core0 {["m" := SessionDetails "jobs" ka None None "[]" "{}"]} {[("m", ka) := 0]}
  {[("m", ("a", 1)) := (0, i1)]} ∅ ∅ ∅ ∅ ∅ ∅ ∅ ∅ ∅ ∅ None.

(** A claim of the created job. *)
Definition batch : claim_batch := ClaimBatch "a" [2] ["e2"] "t2" 7 8 "t2" true None (Some "m") (Some ["a"]) None.
Definition claim := claim_executions decode edges over s0 [batch].
Definition s1 : sdb := match claim with Ok (s, _) => s | Err _ => s0 end.
Definition outs := match claim with Ok (_, o) => o | Err _ => [] end.

Lemma claims : claim_executions decode edges over s0 [batch] = Ok (s1, outs).
Proof. vm_compute. reflexivity. Qed.
End causal_sample.

Lemma selected_claims_causal_witness : ∃ o, owners (jobs_db causal_sample.s1) !! "e2" = Some o ∧ o_addr o = ("a", 2).
Proof.
  destruct (selected_claims_causal _ _ _ _ _ _ _ ("a", 2)
    (JobRow 0 RUNNING (Some "e2") (Some 7) (Some 8) (Some "t2") None None None None) "e2" causal_sample.claims)
    as (o & c & i & roots & Ho & Ha & _); [by vm_compute|done|by vm_compute|].
  exists o. split; [exact Ho|exact Ha].
Defined.
