(* ===== verification/SessionLife.v ===== *)
(** The transactions of execution sessions ([storage/session_admission.py],
    [storage/session_settlement.py], with [storage/component_reservations.py] and
    [storage/component_settlement.py] over the interrupt tables): creating a session,
    publishing components inside it, and ending it. *)
From S2P Require Import Prelude Json JsonText Topology Membership JobStore ComponentRows ComponentLife Sessions Sampling ThreadOverrides Interrupts SelectedWork.

#[local] Open Scope Z_scope.

(** Decisions over tables that are not modelled here: receiver guards, API permits and
    arrival causes. *)
Record surroundings := Surroundings {
  overrides : thread_overrides;
  clear_permits : sdb → string → result ();
  receiver : cdb → string → result ();
  cause_decoded : cdb → string → Z → cause_row → state_snapshot → result ()
}.

(** The details of a stopped session with its post-interrupt boundaries. *)
Definition boundary_item (f : fence) : json := JObj [
  ("component", JArr (JStr <$> match decode_component_key f.1.1 with Ok c => c | Err _ => [] end)); ("shape_id", JInt f.1.2.1);
  ("alignment_generation", JInt f.1.2.2); ("source_session_id", JStr f.2)].

Definition with_boundaries (text : string) (found : list fence) : result string :=
  match loads text with
  | Some (JObj d) => Ok (dumps true ", " ": " (JObj (dict_set "post_interrupt_boundaries" (JArr (boundary_item <$> found)) d)))
  | _ => raise RuntimeError "Stopped session has damaged details"
  end.

Section sessions.
Context (component_snapshot_from_shape : string → result ComponentTopologySnapshot).
Context (shape_edges : string → result (list (string * string))).
Context (is_isoformat is_json : string → bool).
Context (env : surroundings).

(** What the interrupt tables of [s] decide for the component transactions; [at_] is the
    time of settlement. *)
Definition authority_of (s : sdb) (at_ : string) : authority := {|
  interrupt_admission d x c := _require_interrupt_component_admission (set_core d s) x c;
  interrupt_start d x c l := _validate_interrupt_component_start component_snapshot_from_shape shape_edges (set_core d s) x c l;
  interrupt_fence d x k := _require_interrupt_fence_authority component_snapshot_from_shape shape_edges (set_core d s) x k;
  interrupt_settle d x o :=
    let! r := _settle_interrupt_component component_snapshot_from_shape shape_edges is_json (set_core d s) x o at_ in
    Ok (holds (core r.1));
  interrupt_hold d x k :=
    bool_decide (filter (λ q : (string * string) * Z, q.1.2 = k) (map_to_list (holds d)) = [((x, k), 1)])
    && bool_decide ((ia_state <$> admissions s !! x) = Some "frozen") && bool_decide ((ia_target <$> admissions s !! x) = Some k);
  selected_roots d x := let! roots := _read_session_job_roots (set_core d s) x None in Ok (negb (bool_decide (roots = [])));
  selected_jobs d x c shape roots identity :=
    let! _ := read_selected_execution_jobs component_snapshot_from_shape (set_core d s) x c shape roots identity in Ok ();
  selected_result d := _selected_component_result component_snapshot_from_shape is_json (set_core d s);
  receiver_guard := receiver env;
  bind_overrides d x :=
    let! cs := rmap decode_component_key (selected_keys d x) in
    let! _ := bind_pending (overrides env) (set_core d s) x (elements (nodes_of cs)) in Ok ();
  admitted_scope d x := require_admitted_reservation_scope (set_core d s) x;
  decode_cause := cause_decoded env
|}.

(** ** Creation ([session_admission.py]) *)

Record session_request := SessionRequest {
  rq_session : string;
  rq_kind : string;
  rq_command : string;
  rq_start : list string;
  rq_components : list (list string);
  rq_jobs : list addr;
  rq_parents : list string;
  rq_started : string;
  rq_hostname : string;
  rq_pid : Z;
  rq_identity : option string;
  rq_details : string;
  rq_shape : string;
  rq_sample : option sample_reader;
  rq_sample_id : option string
}.

(** The checked arguments: the starting component, the selected components and the parents. *)
Definition check_request (q : session_request) : result (key * list key * list string) :=
  let! _ := _session_text (rq_session q) in
  let! _ := _session_text (rq_command q) in
  let! _ := _session_text (rq_shape q) in
  let! _ := _session_text (rq_hostname q) in
  let! _ := _session_time is_isoformat (rq_started q) in
  check! bool_decide (rq_kind q ∈ ["main"; "interrupt"]) orelse ValueError saying "session_kind must be main or interrupt" in
  check! 1 <=? rq_pid q orelse ValueError saying "pid must be a positive integer" in
  let! _ := match rq_identity q with Some i => _session_text i | None => Ok () end in
  let! _ := rmap _session_text (rq_parents q) in
  let ps := py_sorted (rq_parents q) in
  check! bool_decide (NoDup ps) orelse ValueError saying "Session parents must be distinct" in
  check! bool_decide (ps = []) || (bool_decide (rq_kind q = "interrupt") && negb (bool_decide (rq_session q ∈ ps)))
    orelse ValueError saying "Only an interrupt session may have distinct parent sessions" in
  let! start := _session_component (rq_start q) in
  let! cs := rmap _session_component (rq_components q) in
  check! bool_decide (start ∈ cs) orelse ValueError saying "The starting component must be selected" in
  check! bool_decide (NoDup (mjoin cs)) orelse ValueError saying "Selected components must not overlap" in
  let! _ := rmap (λ a : addr, let! _ := validate_node_name a.1 in
    check! 1 <=? a.2 orelse ValueError saying "job_id must be an integer >= 1" in
    check! bool_decide (a.1 ∈ mjoin cs) orelse ValueError saying "Selected jobs must belong to selected components" in Ok ()) (rq_jobs q) in
  let! _ := match rq_sample q, rq_sample_id q with
            | Some _, Some i =>
                check! bool_decide (rq_jobs q = []) && bool_decide (cs = [start])
                  orelse ValueError saying "Reserved sample admission requires exactly its starting component and no chosen jobs" in
                _session_text i
            | Some _, None => raise ValueError "sample_id must be nonempty text"
            | None, Some _ => raise ValueError "Sample admission metadata requires its internal reserved plan reader"
            | None, None => Ok ()
            end in
  Ok (start, cs, ps).

(** The roots a reserved sample selects at creation. *)
Definition reserved_roots (s : sdb) (start : key) (shape sample_id : string) (reader : sample_reader)
  : result (list (addr * string) * json) :=
  let! plan := reader s in
  let! chosen := admission_record plan (JStr sample_id) start shape in
  check! negb (bool_decide (chosen.1 = [])) orelse NoSelectedJobs saying "Sample selected no jobs; no work was started" in
  check! bool_decide (NoDup chosen.1.*1) orelse ValueError saying "Reserved selection contains duplicate jobs" in
  let! _ := rmap (λ q : addr * string,
    let! _ := validate_node_name q.1.1 in
    check! 1 <=? q.1.2 orelse ValueError saying "job_id must be an integer >= 1" in
    check! bool_decide (q.1.1 ∈ start) orelse ValueError saying "Reserved selection must stay within its starting component" in
    let! observed := read_job_owner_observation (λ s, let! sn := component_snapshot_from_shape s in Ok (components sn)) (jobs_db s) q.1 in
    match observed with
    | None => raise RuntimeError "Selected job is missing after reservation"
    | Some ob => check! bool_decide (ob_instance ob = q.2) orelse RuntimeError saying "Selected job instance changed after observation" in Ok ()
    end) chosen.1 in
  Ok chosen.

(** [_reserve_execution_components] over these tables, with what binding the thread limits
    writes; binding reads the admission marker only as 0 or 1. *)
Definition reserve (s : sdb) (x shape : string) : result (sdb * bool) :=
  let! r := _reserve_execution_components (authority_of s "") (core s) x shape in
  let s := set_core r.1 s in
  let! cs := rmap decode_component_key (selected_keys (core s) x) in
  let! s := bind_pending (overrides env) s x (elements (nodes_of cs)) in
  Ok (s, r.2).

(** [create_execution_session]. *)
Definition create_execution_session (s : sdb) (q : session_request) : result (sdb * session_view) :=
  let x := rq_session q in
  let! checked := check_request q in
  let '(start, cs, ps) := checked in
  let! identity := read_admission_shape component_snapshot_from_shape (core s) (rq_shape q) cs in
  check! forallb (running s) ps orelse RuntimeError saying "Session parent must be an existing running session" in
  let! roots := observe_roots component_snapshot_from_shape s (rq_jobs q) in
  let! s := insert_session s x
    (SessionRow (rq_kind q) "running" identity.1 (Some (rq_hostname q)) (Some (rq_pid q)) (rq_identity q) (Some (rq_started q)) (rq_started q))
    (SessionColumns (rq_command q) (Some identity.2) 0)
    (SessionDetails (if bool_decide (roots = []) then "components" else "jobs") (encode_component_key start) None None "[]" (rq_details q)) in
  let! s := insert_components s x (encode_component_key <$> cs) in
  let! rows := insert_unique "execution_session_parents" (parents s) ((λ p, ((x, p), rq_started q)) <$> ps) in
  let s := set_parents rows s in
  let! chosen := match rq_sample q with
                 | None => Ok (s, roots)
                 | Some reader =>
                     let! r := reserve s x (rq_shape q) in
                     let! c := reserved_roots r.1 start (rq_shape q) (default "" (rq_sample_id q)) reader in
                     let! text := with_selection (rq_details q) c.2 in
                     let! s := select_jobs r.1 x text in
                     Ok (s, c.1)
                 end in
  let! s := insert_jobs chosen.1 x chosen.2 in
  let! s := _authorize_interrupt_fences component_snapshot_from_shape shape_edges s x cs (rq_started q) in
  let! view := execution_session_from_row_snapshot component_snapshot_from_shape is_json s x in
  Ok (s, view).

(** ** Publication inside a session *)

(** One outcome, with its effect on the interrupt tables: [publish_component] leaves them
    alone, and the settlement of the interrupt runs on the rows it leaves. *)
Definition publish_in_session (s : sdb) (x : string) (o : ComponentTerminalOutcome) (at_ : string) : result sdb :=
  let! d := publish_component (authority_of s at_) (core s) x o in
  let! r := _settle_interrupt_component component_snapshot_from_shape shape_edges is_json
              (set_core (set_holds (holds (core s)) d) s) x o at_ in
  Ok r.1.

Definition publish_all_in_session (s : sdb) (x : string) (os : list ComponentTerminalOutcome) (at_ : string) : result sdb :=
  rfold (λ s o, publish_in_session s x o at_) s os.

(** [finish_successful_component_execution] over these tables. *)
Definition finish_component (s : sdb) (x : string) (o : ComponentTerminalOutcome) (parent : option ComponentTaskParent) (at_ : string)
  : result (sdb * bool) :=
  let! r := finish_successful_component_execution component_snapshot_from_shape (authority_of s at_) (core s) x o parent in
  if r.2 then
    let! t := _settle_interrupt_component component_snapshot_from_shape shape_edges is_json
                (set_core (set_holds (holds (core s)) r.1) s) x o at_ in
    Ok (t.1, true)
  else Ok (set_core r.1 s, false).

(** ** The end of a session ([session_settlement.py]) *)

Record settlement := Settlement { se_released : Z; se_returned : option Z }.

(** The jobs of a node that are running or leased. *)
Definition leased (s : sdb) (node : string) : bool :=
  existsb (λ q : addr * job_row, bool_decide (q.1.1 = node)
    && (bool_decide (status q.2 = RUNNING) || bool_decide (is_Some (active_execution_id q.2)))) (map_to_list (jobs (jobs_db s))).

(** The reserved components of a session that run. *)
Definition running_keys (s : sdb) (x : string) : list string :=
  filter (λ k, (st_lifecycle <$> states (core s) !! k) = Some "running") (owned_keys s x).

Definition delete_reservations (x : string) (s : sdb) : sdb :=
  let d := jobs_db s in
  set_jobs_db (set_reservations (filter (λ q : string * string, q.2 ≠ x) (reservations d)) d) s.

(** [settle_execution_session]; [h] observes the sessions that lent components, [now] is the time of component settlement. *)
Definition settle_execution_session (h : host) (s : sdb) (x outcome finished_at failures now : string)
    (outcomes : list ComponentTerminalOutcome) (failed_nodes : list string) : result (sdb * settlement) :=
  let! _ := require_admitted_reservation_scope s x in
  let! os := _normalize_component_terminal_outcomes outcomes in
  let! new_details := if decide (outcome = "stopped") then
      let! found := _read_interrupt_session_boundaries component_snapshot_from_shape shape_edges s x in
      if decide (found = []) then Ok None else
      match details s !! x with
      | Some dt => let! text := with_boundaries (sd_details dt) found in Ok (Some text)
      | None => raise RuntimeError "Stopped session lost its running details"
      end
    else Ok None in
  let! _ := _validate_component_terminal_outcomes component_snapshot_from_shape (core s) x os in
  check! forallb (λ k, bool_decide (k ∈ (encode_component_key ∘ oc_component <$> os))) (running_keys s x)
    orelse RuntimeError saying "Terminal settlement omitted an owned running component" in
  let reserved := owned_keys s x in
  let! cs := rmap decode_component_key reserved in
  check! negb (existsb (leased s) (elements (nodes_of cs)))
    orelse ExecutionSessionHasActiveJobs saying "Session settlement still has active job" in
  let! _ := clear_permits env s x in
  let! s := publish_all_in_session s x os now in
  let sources := py_sorted_set (tr_source ∘ snd <$> active_transfers s x) in
  let! scope := _finish_interrupt_session_scope h s x finished_at in
  let s := scope.1 in
  let! _ := rmap (λ source, if running s source then require_admitted_reservation_scope s source else Ok true) sources in
  check! forallb (λ n, bool_decide (n ∈ nodes_of cs)) failed_nodes
    orelse RuntimeError saying "Failed nodes are outside the session reserved scope" in
  let d := jobs_db s in
  let s := set_jobs_db (set_nodes (map_imap (λ n st, Some (if bool_decide (n ∈ failed_nodes) then "failed" else st)) (nodes d)) d) s in
  check! running s x orelse RuntimeError saying "Execution session changed before terminal settlement" in
  let s := end_session x outcome finished_at failures new_details s in
  let released := Z.of_nat (length (owned_keys s x)) in
  let s := delete_reservations x s in
  check! released + match scope.2.2 with Some n => scope.2.1 + n | None => 0 end =? Z.of_nat (length reserved)
    orelse RuntimeError saying "Execution session reservations changed before terminal settlement" in
  let! s := clear_overrides (overrides env) s x in
  match scope.2.2 with
  | None => Ok (s, Settlement released None)
  | Some n =>
      let! _ := _read_interrupt_admission component_snapshot_from_shape shape_edges is_json s x in
      let! _ := require_terminal_interrupt_scope s x in
      Ok (s, Settlement (released + n) (Some scope.2.1))
  end.
End sessions.
