(* ===== verification/SessionExit.v ===== *)
(** The exit of an execution session ([decide_execution_session_exit] of
    [storage/execution_sessions.py]): in one transaction the session either hands its
    driver the restarts it has accepted and not yet run, or settles every component it
    still executes and ends. *)
From S2P Require Import Prelude Topology Membership JobStore ComponentRows ComponentLife Sessions ThreadOverrides Interrupts SelectedWork SessionLife.

#[local] Open Scope Z_scope.

Record exit_request := ExitRequest {
  er_session : string;
  er_outcome : string;
  er_finished_at : string;
  er_failures : string;
  (** Job, generation and execution of each restart that ended an attempt. *)
  er_attempts : list (addr * Z * string);
  er_rejected : gmap addr expected_restart;
  er_exhausted : gmap addr expected_restart;
  er_failed_nodes : list string;
  er_outcomes : list ComponentTerminalOutcome
}.

Inductive exit_decision :=
  | Restarts (restarts : gmap addr expected_restart) (component_restarts : gmap addr ComponentTerminalOutcome)
  | Ended (settled : settlement).

(** [except RuntimeError]: the class with its subclasses. *)
Definition is_runtime_error (e : exc) : bool :=
  bool_decide (exc_cls e ∈ [RuntimeError; ComponentExecutionIncomplete; ExecutionSessionHasActiveJobs;
    ComponentReservationConflict; RestartClaimChanged; InterruptAdmissionPaused; NoSelectedJobs; ApiPermitStateError]).

Section exit.
Context (component_snapshot_from_shape : string → result ComponentTopologySnapshot).
Context (shape_edges : string → result (list (string * string))).
Context (is_isoformat is_json : string → bool).
Context (env : surroundings).

Abbreviation cut := (λ s, let! sn := component_snapshot_from_shape s in Ok (components sn)).
Abbreviation observe := (read_job_owner_observation cut).
Abbreviation owned_restart := (_read_owned_restart component_snapshot_from_shape).

(** ** Work that is still active *)

(** A claimed job that keeps the session from ending. *)
Definition unsettled_claim (s : sdb) (x : string) (owned selected : gset string) (a : addr) (j : job_row) : result bool :=
  let d := jobs_db s in
  let owner := active_execution_id j ≫= λ e, o_session <$> owners d !! e in
  if bool_decide (owner = Some x) || bool_decide (a.1 ∈ owned) then Ok true
  else if negb (bool_decide (a.1 ∈ selected)) then Ok false
  else match observe d a with
       | Ok ob =>
           match ob ≫= λ ob, ow ← ob_owner ob; se ← ob_session ob; Some (ow, se.2) with
           | Some (ow, session) =>
               Ok (negb (bool_decide (reservations d !! encode_component_key (ow_component ow) = Some (ow_session ow)))
                   || negb (bool_decide (s_status session = "running")))
           | None => raise TypeError "no owner"
           end
       | Err e => if is_runtime_error e || bool_decide (exc_cls e = ValueError) then Ok true else Err e
       end.

Definition claimed_jobs (d : db) : list (addr * job_row) :=
  filter (λ q, is_Some (active_execution_id q.2)) (map_to_list (jobs d)).

(** ** Accepted restarts *)

(** Queued again by a request nobody has claimed. *)
Definition requested (j : job_row) : bool :=
  bool_decide (status j = QUEUED) && bool_decide (active_execution_id j = None) && bool_decide (is_Some (restart_requested_at j)).

(** The requested jobs whose last execution belongs to the session. *)
Definition requested_rows (d : db) (x : string) : list (addr * Z * string) :=
  omap (λ q : addr * job_row,
    i ← instances d !! q.1; e ← last_execution_id i; o ← owners d !! e;
    if requested q.2 && bool_decide (o_session o = x) then Some (q.1, o_generation o, e) else None)
  (sort_by (λ q, q.1) (map_to_list (jobs d))).

(** Not a later request than the one the driver gave up. *)
Definition given_up (q : exit_request) (a : addr) : option expected_restart :=
  match er_rejected q !! a with Some p => Some p | None => er_exhausted q !! a end.

Definition stale (p : expected_restart) (instance : string) (ow : owner) (g : Z) : bool :=
  negb (bool_decide (instance = x_instance p)) || negb (bool_decide (ow = x_owner p)) || (g <=? x_generation p).
(** One candidate: the restarts to hand out and the attempts recognised so far. *)
Definition offer (s : sdb) (q : exit_request) (roots : list (addr * string)) (acc : gmap addr expected_restart * gset addr)
    (c : addr * Z * string) : result (gmap addr expected_restart * gset addr) :=
  let '(a, g, e) := c in
  let d := jobs_db s in
  let x := er_session q in
  let! observed := observe d a in
  match observed ≫= λ ob, ow ← ob_owner ob; Some (ob, ow) with
  | None => Ok acc
  | Some (ob, ow) =>
      if negb (bool_decide (ow_session ow = x)) || negb (bool_decide (ow_execution ow = e)) || negb (ow_generation ow =? g)
         || (ob_generation ob <=? g) || negb (bool_decide (ob_status ob = QUEUED)) || negb (bool_decide (ob_active ob = None))
      then Ok acc else
      let! _ := if decide (roots = []) then Ok () else
          let! identity := _read_component_producing_identity component_snapshot_from_shape s (ow_component ow) in
          let! descends := _job_descends_from_selected_root component_snapshot_from_shape d roots x (ow_component ow) identity (Some e) in
          check! descends orelse RuntimeError saying "Owned restart is outside selected job causal scope" in
          let! r := owned_restart d a x (ow_component ow) in
          check! bool_decide (is_Some r) orelse RuntimeError saying "Selected job restart lost its accepted owner" in
          Ok () in
      check! bool_decide (reservations d !! encode_component_key (ow_component ow) = Some x)
        orelse RuntimeError saying "Restart owner no longer holds its component reservation" in
      let fresh := match given_up q a with
                   | None => true
                   | Some p => negb (stale p (ob_instance ob) ow (ob_generation ob)) && bool_decide (is_Some (restart_recorded d a ob ow))
                   end in
      Ok (match (row ← jobs d !! a; restart_requested_at row) with
          | Some marker => if fresh then <[a := ExpectedRestart (ob_instance ob) (ob_generation ob) ow (Some marker)]> acc.1 else acc.1
          | None => acc.1
          end, {[a]} ∪ acc.2)
  end.

(** [dict.fromkeys]: the first occurrence of each. *)
Definition distinct {A} `{EqDecision A} (l : list A) : list A := reverse (remove_dups (reverse l)).

Definition candidates (s : sdb) (q : exit_request) (roots : list (addr * string)) : list (addr * Z * string) :=
  distinct (er_attempts q ++ if bool_decide (roots = []) then [] else requested_rows (jobs_db s) (er_session q)).

(** The pending executions of the session in components it reserved, with their shapes. *)
Definition pending_of (s : sdb) (x : string) : list (string * (pending_row * string)) :=
  omap (λ q : (string * string) * pending_row,
    if bool_decide (q.1.1 = x) && bool_decide (reservations (jobs_db s) !! q.1.2 = Some x)
    then p ← read_pending (core s) x q.1.2; Some (q.1.2, p) else None) (sort_by (λ q, q.1) (map_to_list (pending (core s)))).

(** A requested job inside a component the session still executes. *)
Definition nested_offer (s : sdb) (q : exit_request) (roots : list (addr * string)) (known : gset addr) (k : string)
    (component : key) (proposal : ComponentTerminalOutcome) (acc : gmap addr expected_restart * gmap addr ComponentTerminalOutcome)
    (p : addr * job_row) : result (gmap addr expected_restart * gmap addr ComponentTerminalOutcome) :=
  let a := p.1 in
  if negb (requested p.2) then Ok acc else
  let accepted := negb (bool_decide (roots = [])) && bool_decide (is_Some (acc.1 !! a)) in
  if bool_decide (a ∈ known) && negb accepted then Ok acc else
  let! expected := if accepted then Ok (acc.1 !! a) else owned_restart (jobs_db s) a (er_session q) component in
  match expected with
  | None => Ok acc
  | Some ex =>
      if negb (bool_decide (encode_component_key (ow_component (x_owner ex)) = k)) then Ok acc
      else if match given_up q a with Some p => stale p (x_instance ex) (x_owner ex) (x_generation ex) | None => false end then Ok acc
      else match _validate_component_terminal_outcomes component_snapshot_from_shape (core s) (er_session q) [proposal] with
           | Ok _ => Ok (<[a := ex]> acc.1, <[a := proposal]> acc.2)
           | Err e => if is_runtime_error e && accepted then Ok acc else Err e
           end
  end.

Definition nested_offers (s : sdb) (q : exit_request) (roots : list (addr * string)) (known : gset addr)
    (acc : gmap addr expected_restart * gmap addr ComponentTerminalOutcome) (p : string * (pending_row * string))
  : result (gmap addr expected_restart * gmap addr ComponentTerminalOutcome) :=
  let! component := decode_component_key p.1 in
  rfold (nested_offer s q roots known p.1 component (pending_proposal component p.2.2 p.2.1)) acc (component_jobs (jobs_db s) component).

(** ** Settling what is still pending *)

Definition outcome_of (component : key) (os : list ComponentTerminalOutcome) : option ComponentTerminalOutcome :=
  head (filter (λ o, oc_component o = component) os).

(** A Python dictionary assignment: in place, or at the end. *)
Definition set_outcome (o : ComponentTerminalOutcome) (os : list ComponentTerminalOutcome) : list ComponentTerminalOutcome :=
  if bool_decide (outcome_of (oc_component o) os = None) then os ++ [o]
  else (λ o', if bool_decide (oc_component o' = oc_component o) then o else o') <$> os.

Definition agrees (recorded : ComponentTerminalOutcome) (supplied : option ComponentTerminalOutcome) : bool :=
  match supplied with
  | None => true
  | Some o => bool_decide (oc_shape o = oc_shape recorded) && (oc_alignment o =? oc_alignment recorded)
  end.

Definition settle_pending (s : sdb) (q : exit_request) (settled : list ComponentTerminalOutcome)
    (p : string * (pending_row * string)) : result (list ComponentTerminalOutcome) :=
  let '(k, (pe, shape)) := p in
  let! _ := _validate_pending_component_row (core s) k pe in
  let! component := decode_component_key k in
  let ready := pe_ready pe =? 1 in
  let failed := bool_decide (er_outcome q = "failed") in
  let supplied := outcome_of component settled in
  check! bool_decide (is_Some supplied) || failed || ready orelse RuntimeError saying "Session completion omitted a running component" in
  if decide (pe_kind pe = "jobs") then
    let! recorded := _selected_component_result component_snapshot_from_shape is_json s (er_session q) k pe ready in
    check! agrees recorded supplied orelse RuntimeError saying "Selected outcome differs from its recorded start" in
    Ok (set_outcome recorded settled)
  else
    let successful := ready && forallb (λ j, bool_decide (status j ∈ [DONE; SKIPPED]) && bool_decide (active_execution_id j = None))
                                 (node ← component; jobs_of (core s) node) in
    check! negb ready || failed || successful orelse RuntimeError saying "Deferred component completion has unfinished jobs" in
    let recorded := TerminalOutcome component shape (pe_alignment pe) (if successful then "done" else "failed")
                      (if successful then (pe_stability pe, pe_origin pe) else (None, None)) in
    check! agrees recorded supplied orelse RuntimeError saying "Component outcome differs from its recorded start" in
    Ok (match supplied with Some _ => settled | None => settled ++ [recorded] end).

(** ** The decision *)

(** The checked outcomes of the driver. *)
Definition check_exit (q : exit_request) : result (list ComponentTerminalOutcome) :=
  let! _ := _session_text (er_session q) in
  let! _ := _session_text (er_outcome q) in
  let! _ := _session_time is_isoformat (er_finished_at q) in
  let! _ := rmap validate_node_name (er_failed_nodes q) in
  check! bool_decide (er_failed_nodes q = []) || bool_decide (er_outcome q = "failed")
    orelse ValueError saying "Failed node publication requires a failed session outcome" in
  let! os := _normalize_component_terminal_outcomes (er_outcomes q) in
  check! negb (existsb (λ o, bool_decide (oc_lifecycle o = "failed")) os) || bool_decide (er_outcome q = "failed")
    orelse ValueError saying "Failed component publication requires a failed session outcome" in
  Ok os.

(** The nodes of the components [x] reserved, among those it selected. *)
Definition owned_nodes (s : sdb) (x : string) (cs : list key) : gset string :=
  nodes_of (filter (λ c, reservations (jobs_db s) !! encode_component_key c = Some x) cs).

(** [decide_execution_session_exit]. *)
Definition decide_execution_session_exit (h : host) (now : string) (s : sdb) (q : exit_request) : result (sdb * exit_decision) :=
  let x := er_session q in
  let! supplied := check_exit q in
  check! running s x orelse RuntimeError saying "Execution session is missing or already terminal" in
  let! cs := _read_session_components s x in
  let! roots := _read_session_job_roots s x (Some cs) in
  let! active := rexists (λ p, unsettled_claim s x (owned_nodes s x cs) (nodes_of cs) p.1 p.2) (claimed_jobs (jobs_db s)) in
  check! negb active orelse ExecutionSessionHasActiveJobs saying "Execution session still owns active job; recovery is required" in
  let! offers := rfold (offer s q roots) (∅, ∅) (candidates s q roots) in
  let! nested := rfold (nested_offers s q roots offers.2) (offers.1, ∅) (pending_of s x) in
  if decide (nested.1 ≠ ∅) then Ok (s, Restarts nested.1 nested.2) else
  let! settled := rfold (settle_pending s q) supplied (pending_of s x) in
  let! r := settle_execution_session component_snapshot_from_shape shape_edges is_json env h s x (er_outcome q) (er_finished_at q)
              (er_failures q) now settled (er_failed_nodes q) in
  Ok (r.1, Ended r.2).
End exit.

(** ** What is handed out can be claimed *)

Section facts.
Context (snapshot : string → result ComponentTopologySnapshot).

Abbreviation cut := (λ s, let! sn := snapshot s in Ok (components sn)).
Abbreviation owned_restart := (_read_owned_restart snapshot).

(** The record [ex] is exactly what the job's rows say, of a request of the session
    nobody has claimed. *)
Record claimable (s : sdb) (x : string) (a : addr) (ex : expected_restart) : Prop := {
  claimable_observed : ∃ ob, read_job_owner_observation cut (jobs_db s) a = Ok (Some ob) ∧
    ob_owner ob = Some (x_owner ex) ∧ ob_instance ob = x_instance ex ∧ ob_generation ob = x_generation ex ∧
    ob_status ob = QUEUED ∧ ob_active ob = None;
  claimable_session : ow_session (x_owner ex) = x;
  claimable_later : ow_generation (x_owner ex) < x_generation ex;
  claimable_marker : is_Some (x_requested_at ex) ∧ (row ← jobs (jobs_db s) !! a; restart_requested_at row) = x_requested_at ex;
  claimable_reserved : reservations (jobs_db s) !! encode_component_key (ow_component (x_owner ex)) = Some x
}.

Lemma claimable_matches s x a ex b : claimable s x a ex → b_node b = a.1 →
  restart_matches cut (jobs_db s) b x (ow_component (x_owner ex)) a.2 ex = Ok true.
Proof.
  intros [(ob & Ho & Hw & Hi & Hg & Hs & Ha) Hx _ [[m Hm] Hr] _] Hb. unfold restart_matches. rewrite Hb. destruct a as [n j]. cbn [fst snd] in *.
  rewrite Ho. cbn [rbind]. rewrite Hw, Hi, Hg, Hs, Ha, Hx, Z.eqb_refl, !bool_decide_eq_true_2 by done. cbn [andb].
  rewrite Hm in Hr |- *. apply bind_Some in Hr as (row & Hj & Hrow).
  match goal with |- Ok (match ?l with _ => _ end) = _ => replace l with (Some row) by (symmetry; exact Hj) end.
  rewrite Hrow. by rewrite bool_decide_eq_true_2.
Qed.

(** What [_read_owned_restart] returns. *)
Lemma owned_restart_inv d a x c ex : owned_restart d a x c = Ok (Some ex) →
  ∃ ob, read_job_owner_observation cut d a = Ok (Some ob) ∧ ob_owner ob = Some (x_owner ex) ∧ ob_instance ob = x_instance ex ∧
    ob_generation ob = x_generation ex ∧ ob_status ob = QUEUED ∧ ob_active ob = None ∧ ow_session (x_owner ex) = x ∧
    ow_component (x_owner ex) = c ∧ ow_generation (x_owner ex) < x_generation ex ∧
    restart_recorded d a ob (x_owner ex) = x_requested_at ex ∧ is_Some (x_requested_at ex).
Proof.
  unfold _read_owned_restart. intros H. apply rbind_ok in H as (o & Hob & H). destruct o as [ob|]; [|by inv_ok]. destruct (ob_owner ob) as [ow|] eqn:How; [|by inv_ok].
  match type of H with (if ?b then _ else _) = _ => destruct b eqn:Hb; [by inv_ok|] end.
  repeat (apply orb_false_iff in Hb as [Hb ?]). destruct (restart_recorded d a ob ow) as [m|] eqn:Hm; [|by inv_ok]. injection H as <-.
  repeat match goal with H : negb _ = false |- _ => apply negb_false_iff, bool_decide_eq_true in H end.
  exists ob. cbn. split_and!; try done; lia.
Qed.

Lemma recorded_marker d a ob ow m : restart_recorded d a ob ow = Some m → (row ← jobs d !! a; restart_requested_at row) = Some m.
Proof.
  unfold restart_recorded. destruct (row ← jobs d !! a; restart_requested_at row) as [m'|]; [|done].
  destruct (latest_restart d a); [|done]. destruct (_ && _); [|done]. by intros [= ->].
Qed.

Lemma owned_restart_claimable s a x c ex : owned_restart (jobs_db s) a x c = Ok (Some ex) →
  reservations (jobs_db s) !! encode_component_key c = Some x → claimable s x a ex.
Proof.
  intros (ob & Ho & Hw & Hi & Hg & Hs & Ha & Hx & <- & Hl & Hm & Hsome)%owned_restart_inv Hr. split; try done.
  - by exists ob.
  - split; [done|]. destruct Hsome as [m Hsome]. rewrite Hsome in Hm |- *. by eapply recorded_marker.
Qed.

Lemma offer_claimable s q roots acc c acc' : offer snapshot s q roots acc c = Ok acc' →
  (∀ a ex, acc.1 !! a = Some ex → claimable s (er_session q) a ex) → ∀ a ex, acc'.1 !! a = Some ex → claimable s (er_session q) a ex.
Proof.
  destruct c as [[a g] e]. unfold offer. intros H Hacc. apply rbind_ok in H as (o & Ho & H).
  destruct o as [ob|]; cbn [mbind option_bind] in H; [|by injection H as <-].
  destruct (ob_owner ob) as [ow|] eqn:How; cbn [mbind option_bind] in H; [|by injection H as <-].
  match type of H with (if ?b then _ else _) = _ => destruct b eqn:Hb; [by injection H as <-|] end.
  repeat (apply orb_false_iff in Hb as [Hb ?]).
  repeat match goal with H : negb (bool_decide _) = false |- _ => apply negb_false_iff, bool_decide_eq_true in H end.
  inv_ok. match goal with H : bool_decide (_ = Some _) = true |- _ => apply bool_decide_eq_true in H; rename H into Hr end.
  cbn [fst snd]. destruct (row ← _; restart_requested_at row) as [m|] eqn:Hm; [|done].
  intros a' ex. destruct (match given_up q a with None => true | Some _ => _ end); [|by apply Hacc].
  destruct (decide (a' = a)) as [->|Hne]; [|rewrite lookup_insert_ne by done; by apply Hacc].
  rewrite lookup_insert_eq. intros [= <-]. split; cbn [x_owner x_instance x_generation x_requested_at]; try done.
  - by exists ob.
  - match goal with H : negb (_ =? _) = false |- _ => apply negb_false_iff, Z.eqb_eq in H end. lia.
Qed.

Lemma nested_offer_claimable s q roots known k c pr acc p acc' : nested_offer snapshot s q roots known k c pr acc p = Ok acc' →
  reservations (jobs_db s) !! k = Some (er_session q) →
  (∀ a ex, acc.1 !! a = Some ex → claimable s (er_session q) a ex) → ∀ a ex, acc'.1 !! a = Some ex → claimable s (er_session q) a ex.
Proof.
  unfold nested_offer. intros H Hk Hacc. destruct (negb (requested p.2)); [by injection H as <-|].
  destruct (bool_decide (p.1 ∈ known) && _); [by injection H as <-|]. apply rbind_ok in H as (o & Ho & H).
  destruct o as [ex|]; [|by injection H as <-]. destruct (bool_decide (encode_component_key _ = k)) eqn:Hkey; cbn [negb] in H; [|by injection H as <-].
  apply bool_decide_eq_true in Hkey. destruct (match given_up q p.1 with Some _ => _ | None => false end); [by injection H as <-|].
  assert (claimable s (er_session q) p.1 ex) as Hex.
  { destruct (negb (bool_decide (roots = [])) && _); [injection Ho as Ho; by apply Hacc|].
    eapply owned_restart_claimable; [exact Ho|]. apply owned_restart_inv in Ho as (_ & _ & _ & _ & _ & _ & _ & _ & <- & _). by rewrite Hkey. }
  assert (∀ a ex0, <[p.1 := ex]> acc.1 !! a = Some ex0 → claimable s (er_session q) a ex0) as Hins.
  { intros a ex0. destruct (decide (a = p.1)) as [->|]; [rewrite lookup_insert_eq; by intros [= <-]|rewrite lookup_insert_ne by done; apply Hacc]. }
  destruct (_validate_component_terminal_outcomes _ _ _ _); [by injection H as <-|].
  match type of H with (if ?b then _ else _) = _ => destruct b; [by injection H as <-|discriminate H] end.
Qed.

Lemma pending_reserved s x k pe : (k, pe) ∈ pending_of s x → reservations (jobs_db s) !! k = Some x.
Proof.
  unfold pending_of. intros ([[y k'] r] & _ & H)%list_elem_of_omap. cbn [fst snd] in H.
  destruct (bool_decide (y = x)), (bool_decide (reservations _ !! k' = Some x)) eqn:E; cbn in H; try done.
  destruct (read_pending _ _ _); cbn in H; [|done]. injection H as <- <-. by apply bool_decide_eq_true in E.
Qed.

Lemma offers_claimable s q roots cs known os acc : rfold (offer snapshot s q roots) (∅, ∅) cs = Ok os →
  rfold (nested_offers snapshot s q roots known) (os.1, ∅) (pending_of s (er_session q)) = Ok acc →
  ∀ a ex, acc.1 !! a = Some ex → claimable s (er_session q) a ex.
Proof.
  intros H1 H2.
  assert (∀ a ex, os.1 !! a = Some ex → claimable s (er_session q) a ex) as Hos.
  { revert H1. apply (rfold_keeps (λ acc, ∀ a ex, acc.1 !! a = Some ex → claimable s (er_session q) a ex)); [|by intros a ex Hx; cbn in Hx; rewrite lookup_empty in Hx].
    intros acc0 c acc1 _ Hacc H. by eapply offer_claimable. }
  revert H2. apply (rfold_keeps (λ acc, ∀ a ex, acc.1 !! a = Some ex → claimable s (er_session q) a ex)); [|done].
  intros acc0 [k pe] acc1 Hin%pending_reserved Hacc H. unfold nested_offers in H. apply rbind_ok in H as (c & _ & H).
  revert H. apply (rfold_keeps (λ acc, ∀ a ex, acc.1 !! a = Some ex → claimable s (er_session q) a ex)); [|done].
  intros acc2 p acc3 _ Hacc2 H. by eapply nested_offer_claimable.
Qed.

(** *** What is not handed out was given up *)

(** The driver gave up a request of this job, and this is no later one of the same instance and owner. *)
Definition spent (q : exit_request) (a : addr) (ex : expected_restart) : Prop :=
  ∃ p, given_up q a = Some p ∧ stale p (x_instance ex) (x_owner ex) (x_generation ex) = true.

(** A recognised attempt is handed out unless its request was given up. *)
Definition accounted (s : sdb) (q : exit_request) (acc : gmap addr expected_restart * gset addr) : Prop :=
  ∀ a, a ∈ acc.2 → is_Some (acc.1 !! a) ∨ ∀ c ex, owned_restart (jobs_db s) a (er_session q) c = Ok (Some ex) → spent q a ex.

Lemma offer_step s q roots acc c acc' : offer snapshot s q roots acc c = Ok acc' →
  acc.2 ⊆ acc'.2 ∧ (∀ a, is_Some (acc.1 !! a) → is_Some (acc'.1 !! a)) ∧ (accounted s q acc → accounted s q acc') ∧
  (∀ k ex, owned_restart (jobs_db s) c.1.1 (er_session q) k = Ok (Some ex) → c.1.2 = ow_generation (x_owner ex) →
     c.2 = ow_execution (x_owner ex) → c.1.1 ∈ acc'.2).
Proof.
  destruct c as [[a g] e]. cbn [fst snd]. unfold offer. intros H. apply rbind_ok in H as (o & Ho & H).
  assert (acc = acc' → (∀ k ex, owned_restart (jobs_db s) a (er_session q) k = Ok (Some ex) → g = ow_generation (x_owner ex) →
     e = ow_execution (x_owner ex) → False) → acc.2 ⊆ acc'.2 ∧ (∀ a, is_Some (acc.1 !! a) → is_Some (acc'.1 !! a)) ∧
     (accounted s q acc → accounted s q acc') ∧ (∀ k ex, owned_restart (jobs_db s) a (er_session q) k = Ok (Some ex) →
     g = ow_generation (x_owner ex) → e = ow_execution (x_owner ex) → a ∈ acc'.2)) as Hskip.
  { intros <- Hno. split_and!; try done. intros k ex H1 H2 H3. by destruct (Hno k ex). }
  destruct o as [ob|]; cbn [mbind option_bind] in H.
  2:{ apply Hskip; [by injection H|]. intros k ex (ob & Hob & _)%owned_restart_inv. congruence. }
  destruct (ob_owner ob) as [ow|] eqn:How; cbn [mbind option_bind] in H.
  2:{ apply Hskip; [by injection H|]. intros k ex (ob' & Hob & Hw & _)%owned_restart_inv. congruence. }
  match type of H with (if ?b then _ else _) = _ => destruct b eqn:Hb end.
  { apply Hskip; [by injection H|]. intros k ex (ob' & Hob & Hw & _ & Hg & Hs & Ha & Hx & _ & Hl & _)%owned_restart_inv Hgen Hexe.
    assert (ob' = ob) as -> by congruence. assert (ow = x_owner ex) as -> by congruence.
    rewrite !bool_decide_eq_true_2 in Hb by congruence. rewrite Hgen, Z.eqb_refl in Hb. cbn in Hb. rewrite orb_false_r in Hb. lia. }
  inv_ok. cbn [fst snd].
  split_and!; [set_solver| | |set_solver].
  - intros a' Ha'. destruct (row ← _; restart_requested_at row); [|done]. destruct (match given_up q a with None => true | Some _ => _ end); [|done].
    destruct (decide (a' = a)) as [->|]; [rewrite lookup_insert_eq; by eexists|by rewrite lookup_insert_ne].
  - intros Hacc a'. cbn [fst snd].
    assert (is_Some (acc.1 !! a') ∨ (∀ c ex, owned_restart (jobs_db s) a' (er_session q) c = Ok (Some ex) → spent q a' ex) →
      is_Some ((match (row ← jobs (jobs_db s) !! a; restart_requested_at row) with
        | Some marker => if match given_up q a with None => true | Some p => negb (stale p (ob_instance ob) ow (ob_generation ob)) && bool_decide (is_Some (restart_recorded (jobs_db s) a ob ow)) end
                         then <[a := ExpectedRestart (ob_instance ob) (ob_generation ob) ow (Some marker)]> acc.1 else acc.1
        | None => acc.1 end) !! a') ∨ (∀ c ex, owned_restart (jobs_db s) a' (er_session q) c = Ok (Some ex) → spent q a' ex)) as Hgrow.
    { intros [Ha'|?]; [left|by right]. destruct (row ← _; restart_requested_at row); [|done]. destruct (match given_up q a with None => true | Some _ => _ end); [|done].
      destruct (decide (a' = a)) as [->|]; [rewrite lookup_insert_eq; by eexists|by rewrite lookup_insert_ne]. }
    intros [->%elem_of_singleton|Hin]%elem_of_union; [|by apply Hgrow, Hacc].
    clear Hgrow. destruct (row ← jobs (jobs_db s) !! a; restart_requested_at row) as [m|] eqn:Hm.
    + destruct (given_up q a) as [p|] eqn:Hp; [|left; rewrite lookup_insert_eq; by eexists].
      destruct (negb (stale p (ob_instance ob) ow (ob_generation ob)) && bool_decide (is_Some (restart_recorded (jobs_db s) a ob ow))) eqn:Hf;
        [left; rewrite lookup_insert_eq; by eexists|right].
      intros c ex (ob' & Hob & Hw & Hi & Hg' & _ & _ & _ & _ & _ & Hrec & Hsome)%owned_restart_inv.
      assert (ob' = ob) as -> by congruence. assert (ow = x_owner ex) as -> by congruence. exists p. split; [done|].
      rewrite Hrec, (bool_decide_eq_true_2 _ Hsome), andb_true_r in Hf. apply negb_false_iff in Hf. by rewrite <- Hi, <- Hg'.
    + right. intros c ex (ob' & _ & _ & _ & _ & _ & _ & _ & _ & _ & Hrec & [m Hsome])%owned_restart_inv.
      rewrite Hsome in Hrec. apply recorded_marker in Hrec. congruence.
Qed.

Lemma offers_account s q roots cs acc acc' : rfold (offer snapshot s q roots) acc cs = Ok acc' →
  (∀ a, is_Some (acc.1 !! a) → is_Some (acc'.1 !! a)) ∧ acc.2 ⊆ acc'.2 ∧ (accounted s q acc → accounted s q acc') ∧
  ∀ c k ex, c ∈ cs → owned_restart (jobs_db s) c.1.1 (er_session q) k = Ok (Some ex) → c.1.2 = ow_generation (x_owner ex) →
    c.2 = ow_execution (x_owner ex) → c.1.1 ∈ acc'.2.
Proof.
  revert acc. induction cs as [|c cs IH]; intros acc; cbn [rfold]; intros H.
  { injection H as <-. split_and!; try done. intros c k ex Hc. by apply not_elem_of_nil in Hc. }
  apply rbind_ok in H as (acc1 & H1 & H). apply offer_step in H1 as (M1 & M2 & M3 & M4). destruct (IH _ H) as (N1 & N2 & N3 & N4).
  split_and!; [by auto|set_solver|by auto|]. intros c' k ex [->|Hc]%elem_of_cons; [|by apply N4].
  intros. apply N2. by eapply M4.
Qed.

(** A job the accepted request of which is still open is queued, unclaimed and marked. *)
Lemma owned_restart_requested d a x c ex : owned_restart d a x c = Ok (Some ex) →
  ∃ j, jobs d !! a = Some j ∧ requested j = true.
Proof.
  intros (ob & Ho & _ & _ & _ & Hs & Ha & _ & _ & _ & Hrec & [m Hm])%owned_restart_inv. rewrite Hm in Hrec.
  apply recorded_marker, bind_Some in Hrec as (j & Hj & Hr). exists j. split; [done|]. revert Ho. unfold read_job_owner_observation.
  rewrite Hj. intros H. apply rbind_ok in H as (i & _ & H). apply rbind_ok in H as (? & _ & H). apply rbind_ok in H as (? & _ & H).
  assert (status j = ob_status ob ∧ active_execution_id j = ob_active ob) as [E1 E2].
  { destruct (match active_execution_id j with Some x => _ | None => _ end); [|injection H as <-; done].
    do 6 (apply rbind_ok in H as (? & _ & H)). by injection H as <-. }
  unfold requested. rewrite E1, E2, Hs, Ha, Hr. by rewrite !bool_decide_eq_true_2 by done.
Qed.

Lemma elem_of_component_jobs d c a j : a.1 ∈ c → jobs d !! a = Some j → (a, j) ∈ component_jobs d c.
Proof.
  intros Hc Hj. unfold component_jobs. apply list_elem_of_bind. exists a.1. split; [|done].
  apply elem_of_sort_by, list_elem_of_filter. split; [done|by apply elem_of_map_to_list].
Qed.

Lemma nested_offer_cases s q roots known k c pr acc p acc' : nested_offer snapshot s q roots known k c pr acc p = Ok acc' →
  acc' = acc ∨ ∃ ex, acc'.1 = <[p.1 := ex]> acc.1.
Proof.
  unfold nested_offer. intros H. destruct (negb (requested p.2)); [injection H; auto|].
  destruct (bool_decide (p.1 ∈ known) && _); [injection H; auto|]. apply rbind_ok in H as (o & _ & H).
  destruct o as [ex|]; [|injection H; auto]. destruct (negb (bool_decide (encode_component_key _ = k))); [injection H; auto|].
  destruct (match given_up q p.1 with Some _ => _ | None => false end); [injection H; auto|].
  destruct (_validate_component_terminal_outcomes _ _ _ _); [injection H as <-; right; by exists ex|].
  match type of H with (if ?b then _ else _) = _ => destruct b; [injection H; auto|discriminate H] end.
Qed.

Lemma nested_offer_grows s q roots known k c pr acc p acc' : nested_offer snapshot s q roots known k c pr acc p = Ok acc' →
  ∀ a, is_Some (acc.1 !! a) → is_Some (acc'.1 !! a).
Proof.
  intros [->|[ex Hex]]%nested_offer_cases a Ha; [done|]. rewrite Hex.
  destruct (decide (a = p.1)) as [->|]; [rewrite lookup_insert_eq; by eexists|by rewrite lookup_insert_ne].
Qed.

Lemma nested_offer_accounts s q roots known k c pr acc p acc' ex : nested_offer snapshot s q roots known k c pr acc p = Ok acc' →
  p.1 ∉ known → requested p.2 = true → encode_component_key c = k → owned_restart (jobs_db s) p.1 (er_session q) c = Ok (Some ex) →
  is_Some (acc'.1 !! p.1) ∨ spent q p.1 ex.
Proof.
  intros H Hk Hr Hc Hex. destruct (decide (is_Some (acc.1 !! p.1))) as [Hs|Hs]; [left; by eapply nested_offer_grows|].
  unfold nested_offer in H. rewrite Hr, (bool_decide_eq_false_2 _ Hk) in H. cbn [negb andb] in H.
  rewrite (bool_decide_eq_false_2 _ Hs), andb_false_r, Hex in H. cbn [rbind] in H.
  assert (ow_component (x_owner ex) = c) as Hoc by (by apply owned_restart_inv in Hex as (_ & _ & _ & _ & _ & _ & _ & _ & Hoc & _)).
  rewrite Hoc, bool_decide_eq_true_2 in H by done. cbn [negb] in H.
  assert (spent q p.1 ex ∨ match given_up q p.1 with Some p => stale p (x_instance ex) (x_owner ex) (x_generation ex) | None => false end = false) as [?|E].
  { destruct (given_up q p.1) as [p0|] eqn:Hp; [|by right]. destruct (stale p0 _ _ _) eqn:Hst; [left; by exists p0|by right]. }
  { by right. }
  rewrite E in H. left.
  destruct (_validate_component_terminal_outcomes _ _ _ _); [injection H as <-; cbn [fst]; rewrite lookup_insert_eq; by eexists|].
  by rewrite andb_false_r in H.
Qed.

Lemma nested_component_accounts s q roots known k c pr ps acc acc' : rfold (nested_offer snapshot s q roots known k c pr) acc ps = Ok acc' →
  (∀ a, is_Some (acc.1 !! a) → is_Some (acc'.1 !! a)) ∧
  (∀ p ex, p ∈ ps → p.1 ∉ known → requested p.2 = true → encode_component_key c = k →
     owned_restart (jobs_db s) p.1 (er_session q) c = Ok (Some ex) → is_Some (acc'.1 !! p.1) ∨ spent q p.1 ex).
Proof.
  revert acc. induction ps as [|p ps IH]; intros acc; cbn [rfold]; intros H.
  { injection H as <-. split; [done|]. intros p ex Hp. by apply not_elem_of_nil in Hp. }
  apply rbind_ok in H as (acc1 & H1 & H). destruct (IH _ H) as [G A]. split; [intros a Ha; by apply G; eapply nested_offer_grows|].
  intros p' ex [->|Hp]%elem_of_cons Hk Hr Hc Hex; [|by apply A]. eapply nested_offer_accounts in H1 as [?|?]; eauto.
Qed.

Lemma nested_account s q roots known ps acc acc' : rfold (nested_offers snapshot s q roots known) acc ps = Ok acc' →
  (∀ a, is_Some (acc.1 !! a) → is_Some (acc'.1 !! a)) ∧
  (∀ a c ex, encode_component_key c ∈ ps.*1 → decode_component_key (encode_component_key c) = Ok c → a.1 ∈ c → a ∉ known →
     owned_restart (jobs_db s) a (er_session q) c = Ok (Some ex) → is_Some (acc'.1 !! a) ∨ spent q a ex).
Proof.
  revert acc. induction ps as [|p ps IH]; intros acc; cbn [rfold]; intros H.
  { injection H as <-. split; [done|]. intros a c ex Hp. by apply not_elem_of_nil in Hp. }
  apply rbind_ok in H as (acc1 & H1 & H). destruct (IH _ H) as [G A]. unfold nested_offers in H1. apply rbind_ok in H1 as (c1 & Hc1 & H1).
  apply nested_component_accounts in H1 as [G1 A1]. split; [intros a Ha; by apply G, G1|].
  intros a c ex Hin Hdec Hac Hk Hex. cbn [fmap list_fmap] in Hin. apply elem_of_cons in Hin as [Hp|Hin]; [|by eapply A].
  rewrite <- Hp, Hdec in Hc1. injection Hc1 as <-. destruct (owned_restart_requested _ _ _ _ _ Hex) as (j & Hj & Hr).
  destruct (A1 (a, j) ex) as [?|?]; auto. by apply elem_of_component_jobs.
Qed.

(** Where an accepted request is found: among the session's requested rows. *)
Lemma owned_restart_row d a x c ex : owned_restart d a x c = Ok (Some ex) →
  decode_component_key (encode_component_key c) = Ok c ∧ a.1 ∈ c ∧
  ((a, ow_generation (x_owner ex), ow_execution (x_owner ex)) ∈ requested_rows d x).
Proof.
  intros Hex. destruct (owned_restart_requested _ _ _ _ _ Hex) as (j & Hj & Hr). apply owned_restart_inv in Hex as (ob & Ho & Hw & _ & _ & Hs & Ha & Hx & <- & _).
  revert Ho. unfold read_job_owner_observation. rewrite Hj. intros H.
  apply rbind_ok in H as (i & Hi & H). destruct (instances d !! a) as [i'|] eqn:Hinst; [|discriminate Hi].
  destruct (valid_instance (instance_id i')); [injection Hi as ->|discriminate Hi].
  apply rbind_ok in H as (? & _ & H). apply rbind_ok in H as (? & _ & H).
  assert (active_execution_id j = None) as Hact.
  { unfold requested in Hr. apply andb_prop in Hr as [[_ Hr]%andb_prop _]. by apply bool_decide_eq_true in Hr. }
  rewrite Hact in H. destruct (last_execution_id i) as [e|] eqn:He; [|injection H as <-; discriminate Hw].
  apply rbind_ok in H as (o & Hown & H). destruct (owners d !! e) as [o'|] eqn:Ho; [injection Hown as ->|discriminate Hown].
  apply rbind_ok in H as (? & _ & H). apply rbind_ok in H as (? & Hreq & H). apply rbind_ok in H as (cc & Hdec & H).
  apply rbind_ok in H as (? & Hin & H). apply require_ok, bool_decide_eq_true in Hin.
  apply rbind_ok in H as (ow & Hrow & H). injection H as <-. injection Hw as Hw.
  unfold execution_owner_from_row in Hrow. apply rbind_ok in Hrow as (? & _ & Hrow). rewrite Hdec in Hrow.
  destruct (bool_decide (encode_component_key cc = o_component_key o)) eqn:Hk; [|apply rbind_ok in Hrow as (? & E & _); discriminate E].
  apply bool_decide_eq_true in Hk. cbn [rbind] in Hrow. do 5 (apply rbind_ok in Hrow as (? & _ & Hrow)). injection Hrow as <-.
  rewrite <- Hw in *. cbn [ow_component ow_session ow_generation ow_execution] in *. rewrite Hk. split_and!; [done|done|].
  unfold requested_rows. apply list_elem_of_omap. exists (a, j). split; [by apply elem_of_sort_by, elem_of_map_to_list|].
  cbn [fst snd]. rewrite Hinst. cbn [mbind option_bind]. rewrite He. cbn [mbind option_bind]. rewrite Ho. cbn [mbind option_bind].
  by rewrite Hr, bool_decide_eq_true_2 by done.
Qed.

Lemma elem_of_distinct {A} `{EqDecision A} (x : A) l : x ∈ distinct l ↔ x ∈ l.
Proof. unfold distinct. by rewrite elem_of_reverse, elem_of_remove_dups, elem_of_reverse. Qed.

Lemma no_offers s q roots os acc : rfold (offer snapshot s q roots) (∅, ∅) (candidates s q roots) = Ok os →
  rfold (nested_offers snapshot s q roots os.2) (os.1, ∅) (pending_of s (er_session q)) = Ok acc → acc.1 = ∅ →
  ∀ a c ex, owned_restart (jobs_db s) a (er_session q) c = Ok (Some ex) →
    (a, ow_generation (x_owner ex), ow_execution (x_owner ex)) ∈ er_attempts q ∨ roots ≠ []
      ∨ encode_component_key c ∈ (pending_of s (er_session q)).*1 → spent q a ex.
Proof.
  intros H1 H2 Hno a c ex Hex Hwhere. destruct (owned_restart_row _ _ _ _ _ Hex) as (Hdec & Hac & Hrow).
  apply offers_account in H1 as (_ & _ & Hacc & Hknown). apply nested_account in H2 as [Hgrow Hnested]. cbn [fst] in *. rewrite Hno in *.
  assert (∀ a, is_Some ((∅ : gmap addr expected_restart) !! a) → False) as Hnone by (intros b [? Hb]; by rewrite lookup_empty in Hb).
  destruct (decide (a ∈ os.2)) as [Hin|Hout].
  { destruct (Hacc) with (a := a) as [Ho|Ho]; [by intros b Hb%not_elem_of_empty|done| |by eapply Ho]. exfalso. by eapply Hnone, Hgrow. }
  destruct Hwhere as [Hat|[Hroots|Hp]].
  - destruct Hout. eapply (Hknown (a, _, _)); [|exact Hex|done|done]. unfold candidates. apply elem_of_distinct, elem_of_app. by left.
  - destruct Hout. eapply (Hknown (a, _, _)); [|exact Hex|done|done]. unfold candidates. apply elem_of_distinct, elem_of_app. right.
    by rewrite bool_decide_eq_false_2.
  - destruct (Hnested a c ex) as [?|?]; try done. exfalso. by eapply Hnone.
Qed.
End facts.

Section decision.
Context (snapshot : string → result ComponentTopologySnapshot).
Context (edges : string → result (list (string * string))).
Context (isoformat json : string → bool).
Context (env : surroundings).

Abbreviation cut := (λ s, let! sn := snapshot s in Ok (components sn)).
Abbreviation decide_exit := (decide_execution_session_exit snapshot edges isoformat json env).

(** What the exit of a session hands its driver to run again can be run: the decision changes nothing, hands out at
    least one job, and every job is queued, unclaimed and was executed last by this still running session in a component it
    still reserves; a claim batch of its node that carries the record as its expectation finds the job unchanged in this
    state. *)
Theorem exit_restarts_claimable h now s q s' restarts nested :
  decide_exit h now s q = Ok (s', Restarts restarts nested) →
  s' = s ∧ restarts ≠ ∅ ∧ running s (er_session q) = true ∧
  ∀ a ex, restarts !! a = Some ex → claimable snapshot s (er_session q) a ex ∧
    ∀ b, b_node b = a.1 →
      restart_matches cut (jobs_db s) b (er_session q) (ow_component (x_owner ex)) a.2 ex = Ok true.
Proof.
  unfold decide_execution_session_exit. intros H. apply rbind_ok in H as (os & _ & H). apply rbind_ok in H as (? & Hrun & H).
  apply require_ok in Hrun. apply rbind_ok in H as (cs & _ & H). apply rbind_ok in H as (roots & _ & H).
  apply rbind_ok in H as (active & _ & H). apply rbind_ok in H as (? & _ & H). apply rbind_ok in H as (offers & H1 & H).
  apply rbind_ok in H as (acc & H2 & H). destruct (decide (acc.1 ≠ ∅)) as [Hne|_].
  2:{ apply rbind_ok in H as (? & _ & H). apply rbind_ok in H as (? & _ & H). discriminate H. }
  injection H as <- <- _. split_and!; [done|done|done|]. intros a ex Hex.
  assert (claimable snapshot s (er_session q) a ex) as Hc by (by eapply offers_claimable; [exact H1|exact H2|]).
  split; [done|]. intros b. by apply claimable_matches.
Qed.

(** C11: a session that ends abandons no work: no claimed job belongs to it or lies in a component it still reserves, and an
    accepted restart it owns - one whose attempt its driver saw end, any at all when the session was started for selected
    jobs, or one in a component it still executes - is left behind only if the driver gave up a request of this job after which
    no later one of the same instance and owner was accepted; the state is that of the settlement of the session. *)
Theorem exit_abandons_nothing h now s q s' st : decide_exit h now s q = Ok (s', Ended st) →
  ∃ cs roots settled,
    _read_session_components s (er_session q) = Ok cs ∧ _read_session_job_roots s (er_session q) (Some cs) = Ok roots ∧
    (∀ a j e, jobs (jobs_db s) !! a = Some j → active_execution_id j = Some e →
       (a.1 ∉ owned_nodes s (er_session q) cs) ∧ ¬ (o_session <$> owners (jobs_db s) !! e) = Some (er_session q)) ∧
    (∀ a c ex, _read_owned_restart snapshot (jobs_db s) a (er_session q) c = Ok (Some ex) →
       (a, ow_generation (x_owner ex), ow_execution (x_owner ex)) ∈ er_attempts q ∨ roots ≠ []
         ∨ encode_component_key c ∈ (pending_of s (er_session q)).*1 → spent q a ex) ∧
    settle_execution_session snapshot edges json env h s (er_session q) (er_outcome q) (er_finished_at q) (er_failures q) now
      settled (er_failed_nodes q) = Ok (s', st).
Proof.
  unfold decide_execution_session_exit. intros H. apply rbind_ok in H as (os & _ & H). apply rbind_ok in H as (? & _ & H).
  apply rbind_ok in H as (cs & Hcs & H). apply rbind_ok in H as (roots & Hroots & H).
  apply rbind_ok in H as (active & Hact & H). apply rbind_ok in H as (? & Hidle & H). apply require_ok, negb_true_iff in Hidle as ->.
  apply rbind_ok in H as (offers & H1 & H). apply rbind_ok in H as (acc & H2 & H).
  destruct (decide (acc.1 ≠ ∅)) as [_|Hno%dec_stable]; [discriminate H|].
  apply rbind_ok in H as (settled & _ & H). apply rbind_ok in H as ([s1 st1] & Hset & H). injection H as <- <-.
  exists cs, roots, settled. split_and!; [done|done| |by eapply no_offers; [exact H1|exact H2|]|done].
  intros a j e Hj He. pose proof (proj1 (rexists_false _ _) Hact (a, j)) as Hf. cbn [fst snd] in Hf.
  assert (unsettled_claim snapshot s (er_session q) (owned_nodes s (er_session q) cs) (nodes_of cs) a j = Ok false) as Hu.
  { apply Hf. unfold claimed_jobs. apply list_elem_of_filter. split; [cbn; rewrite He; by eexists|by apply elem_of_map_to_list]. }
  unfold unsettled_claim in Hu. rewrite He in Hu. cbn [mbind option_bind] in Hu.
  destruct (_ || _) eqn:E in Hu; [discriminate Hu|]. apply orb_false_iff in E as [E1 E2].
  apply bool_decide_eq_false in E1, E2. done.
Qed.
End decision.

(** ** A session of one accepted restart *)

Module exit_sample.
Definition ka := encode_component_key ["a"].
Definition decode (shape : string) : result ComponentTopologySnapshot :=
  if bool_decide (shape = "shape") then Ok (MkSnapshot "shape" [["a"]]) else raise ValueError "not a shape".
Definition edges (shape : string) : result (list (string * string)) := Ok [].
Definition yes (text : string) : bool := true.
Definition here : host := Host "here" (λ _, true) (λ _, None) (λ _, Some 0).
Definition env : surroundings := Surroundings (stored_overrides decode yes yes yes yes yes here) (λ _ _, Ok tt) (λ _ _, Ok tt)
  (λ _ _ _ _ _, Ok tt).
Definition i1 := "00000000000000000000000000000001".
Definition core0 : cdb := Cdb
  (Db {[("a", 1) := JobRow 1 QUEUED None None None None (Some "t2") None None None]}
    {[("a", 1) := InstanceRow i1 (Some "e1") None]}
    {["e1" := OwnerRow ("a", 1) 0 "m" ka i1 1 0 None]}
    {["m" := SessionRow "main" "running" 1 (Some "here") (Some 7) None (Some "t0") "t0"]} {[("m", ka)]} {[ka := "m"]}
    {[1 := "shape"]} {[(ka, 1)]} {["a" := "running"]}
    [Event ("a", 1) "t2" "restart_requested" (Some 1) (Some "e1") None None (Some ("m", i1, ["a"]))] 0)
  {["m" := SessionColumns "run" (Some 0) 1]} (Tables (Some 0) {[ka := 0]} {["a" := ka]})
  {[ka := StateRow 1 None None "queued" None None 0 0]} ∅ ∅ ∅ ∅.
Definition s0 : sdb := Sdb core0 {["m" := SessionDetails "components" ka None None "[]" "{}"]} {[("m", ka) := 0]}
  ∅ ∅ ∅ ∅ ∅ ∅ ∅ ∅ ∅ ∅ ∅ None.
Definition request : expected_restart := ExpectedRestart i1 1 (Owner "e1" ("a", 1) 0 "m" ["a"] i1 1 0 None) (Some "t2").

(** The driver saw the attempt end; [spent] are the restarts it gave up. *)
Definition q (spent : gmap addr expected_restart) : exit_request :=
  ExitRequest "m" "failed" "t3" "[]" [("a", 1, 0, "e1")] ∅ spent [] [].
Definition leave (spent : gmap addr expected_restart) := decide_execution_session_exit decode edges yes yes env here "t3" s0 (q spent).
Definition s1 : sdb := match leave {[("a", 1) := request]} with Ok (s, _) => s | Err _ => s0 end.

Lemma offered : leave ∅ = Ok (s0, Restarts {[("a", 1) := request]} ∅).
Proof. vm_compute. reflexivity. Qed.

Lemma ended : leave {[("a", 1) := request]} = Ok (s1, Ended (Settlement 1 None)).
Proof. vm_compute. reflexivity. Qed.
End exit_sample.

Lemma exit_restarts_claimable_witness :
  restart_matches (λ s, let! sn := exit_sample.decode s in Ok (components sn)) (jobs_db exit_sample.s0)
    (ClaimBatch "a" [1] ["e2"] "t3" 7 8 "t3" true None (Some "m") (Some ["a"]) None) "m" ["a"] 1 exit_sample.request = Ok true.
Proof.
  destruct (exit_restarts_claimable _ _ _ _ _ _ _ _ _ _ _ _ exit_sample.offered) as (_ & _ & _ & H).
  destruct (H ("a", 1) exit_sample.request) as [_ Hm]; [by vm_compute|]. by apply Hm.
Defined.

Lemma exit_abandons_nothing_witness :
  spent (exit_sample.q {[("a", 1) := exit_sample.request]}) ("a", 1) exit_sample.request.
Proof.
  destruct (exit_abandons_nothing _ _ _ _ _ _ _ _ _ _ _ exit_sample.ended) as (cs & roots & settled & _ & _ & _ & H & _).
  apply (H ("a", 1) ["a"]); [by vm_compute|]. left. apply list_elem_of_here.
Defined.
