(* ===== verification/SessionSafety.v ===== *)
(** The reserved scope of execution sessions: whatever sessions, interrupts and exits do,
    every running session still owns, or has lent along a chain of running interrupts,
    exactly the components it was admitted with. *)
From S2P Require Import Prelude Topology Membership JobStore ComponentRows ComponentLife Sessions ThreadOverrides Interrupts SelectedWork SessionLife.

#[local] Open Scope Z_scope.
#[local] Arguments encode_component_key : simpl never.
#[local] Arguments _reservation_descends_from : simpl never.
#[local] Arguments require_admitted_reservation_scope : simpl never.

(** ** Scope *)

(** A component is lent by a session to an interrupt that still borrows it. *)
Definition lends (s : sdb) (x k c : string) : Prop :=
  ∃ t, transfers s !! (c, k) = Some t ∧ tr_source t = x ∧ tr_state t = "active".

(** The chain of loans of a component, up to its owner. *)
Inductive reaches (s : sdb) (k : string) : string → string → Prop :=
  | reaches_here o : reaches s k o o
  | reaches_there x c o : x ≠ o → lends s x k c → reaches s k c o → reaches s k x o.

Abbreviation reserved s k := (reservations (jobs_db s) !! k).

Record scoped (s : sdb) : Prop := {
  scope_rows x k : selects s x k = true → is_Some (session_status s x);
  scope_marker x : is_Some (session_status s x) → scope_admitted s x ∈ [Some 0; Some 1];
  scope_nonempty x : is_Some (session_status s x) → ∃ k, selects s x k = true;
  scope_owned k x : reserved s k = Some x → selects s x k = true ∧ scope_admitted s x = Some 1;
  scope_lent x k c : lends s x k c →
    running s c = true ∧ scope_admitted s c = Some 1 ∧ selects s c k = true ∧ is_Some (admissions s !! c) ∧
    selects s x k = true ∧ scope_admitted s x = Some 1;
  scope_lender x k c : lends s x k c → reserved s k ≠ Some x;
  scope_borrower x k c c' : lends s x k c → lends s x k c' → c = c';
  scope_covered x k : running s x = true → scope_admitted s x = Some 1 → selects s x k = true →
    ∃ o, reserved s k = Some o ∧ reaches s k x o
}.

(** The tables the scope lives in. *)
Record same_scope (s s' : sdb) : Prop := {
  same_status x : session_status s' x = session_status s x;
  same_selects x k : selects s' x k = selects s x k;
  same_marker x : scope_admitted s' x = scope_admitted s x;
  same_reserved k : reserved s' k = reserved s k;
  same_transfers : transfers s' = transfers s;
  same_admissions x : is_Some (admissions s !! x) → is_Some (admissions s' !! x)
}.

#[export] Instance same_scope_refl : Reflexive same_scope.
Proof. by intros s; split. Qed.

#[export] Instance same_scope_trans : Transitive same_scope.
Proof.
  intros a b c [A1 A2 A3 A4 A5 A6] [B1 B2 B3 B4 B5 B6]. split; intros.
  - by rewrite B1. - by rewrite B2. - by rewrite B3. - by rewrite B4. - by rewrite B5. - by apply B6, A6.
Qed.

Lemma lends_transfers s s' x k c : transfers s' = transfers s → lends s' x k c ↔ lends s x k c.
Proof. unfold lends. by intros ->. Qed.

Lemma reaches_lift s s' k x o : (∀ y c, lends s y k c → lends s' y k c) → reaches s k x o → reaches s' k x o.
Proof. intros H. induction 1; [constructor|]. by eapply reaches_there; [|apply H|]. Qed.

Lemma reaches_running s k x o : scoped s → reaches s k x o → x = o ∨ running s o = true.
Proof.
  intros Hs. induction 1 as [|x c o Hne Hl _ IH]; [by left|right]. destruct IH as [<-|]; [|done].
  by apply (scope_lent s Hs) in Hl as (? & _).
Qed.

Lemma running_status s x : running s x = true ↔ session_status s x = Some "running".
Proof. apply bool_decide_eq_true. Qed.

Lemma running_eq s s' x : session_status s' x = session_status s x → running s' x = running s x.
Proof. unfold running. by intros ->. Qed.

Lemma lends_member s x k c : scoped s → lends s x k c → is_Some (session_status s x) ∧ is_Some (session_status s c).
Proof. intros Hs (_ & _ & Hc & _ & Hx & _)%scope_lent; [|done]. split; by eapply scope_rows. Qed.

Lemma scoped_same s s' : same_scope s s' → scoped s → scoped s'.
Proof.
  intros [E1 E2 E3 E4 E5 E6] Hs. pose proof (λ x k c, lends_transfers s s' x k c E5) as EL.
  assert (∀ x, running s' x = running s x) as ER by (intros; by apply running_eq).
  split.
  - intros x k. rewrite E1, E2. apply (scope_rows s Hs).
  - intros x. rewrite E1, E3. apply (scope_marker s Hs).
  - intros x. rewrite E1. intros [k Hk]%(scope_nonempty s Hs). exists k. by rewrite E2.
  - intros k x. rewrite E2, E3, E4. apply (scope_owned s Hs).
  - intros x k c. rewrite EL, ER, !E2, !E3. intros (? & ? & ? & ? & ? & ?)%(scope_lent s Hs). split_and!; auto.
  - intros x k c. rewrite EL, E4. apply (scope_lender s Hs).
  - intros x k c c'. rewrite !EL. apply (scope_borrower s Hs).
  - intros x k. rewrite ER, E2, E3, E4. intros H1 H2 H3. destruct (scope_covered s Hs x k H1 H2 H3) as (o & Ho & Hr).
    exists o. split; [done|]. revert Hr. apply reaches_lift. intros y c. apply EL.
Qed.

(** The thread limits are not part of the scope. *)
Lemma overrides_scope s s' : overrides_only s s' → same_scope s s'.
Proof. intros (ps & ns & l & ->). by split. Qed.

(** ** The check accepts every scoped session *)

Lemma active_children_lends s x k c : scoped s → c ∈ active_children s x k ↔ lends s x k c.
Proof.
  intros Hs. unfold active_children. rewrite list_elem_of_omap. split.
  - intros ([[c' k'] t] & Hin & H). apply elem_of_map_to_list in Hin. cbn [fst snd] in H.
    destruct (bool_decide (k' = k) && _ && _ && _ && _ && _ && _) eqn:E; [|discriminate]. injection H as <-.
    repeat apply andb_true_iff in E as [E ?]. repeat case_bool_decide; try discriminate. subst. by exists t.
  - intros Hl. pose proof (scope_lent s Hs _ _ _ Hl) as (H1 & H2 & H3 & H4 & _). destruct Hl as (t & Ht & Hx & Hst).
    exists ((c, k), t). split; [by apply elem_of_map_to_list|]. cbn [fst snd].
    rewrite H1, H3, !bool_decide_eq_true_2 by done. done.
Qed.

Lemma NoDup_active_children s x k : NoDup (active_children s x k).
Proof.
  unfold active_children. pose proof (NoDup_map_to_list (transfers s)) as Hnd. revert Hnd.
  pose proof (NoDup_fst_map_to_list (transfers s)) as Hf. revert Hf.
  induction (map_to_list (transfers s)) as [|[[c k'] t] l IH]; [constructor|]. rewrite fmap_cons. cbn [fst].
  intros [Hn Hf]%NoDup_cons [_ Hnd]%NoDup_cons. cbn [omap list_omap fst snd].
  destruct (bool_decide (k' = k) && _ && _ && _ && _ && _ && _) eqn:E; [|auto]. apply NoDup_cons. split; [|auto].
  repeat apply andb_true_iff in E as [E ?]. apply bool_decide_eq_true in E. subst k'.
  intros Hin. apply list_elem_of_omap in Hin as ([[c' k'] t'] & Hin & H'). cbn [fst snd] in H'.
  destruct (bool_decide (k' = k) && _ && _ && _ && _ && _ && _) eqn:E'; [|discriminate]. injection H' as ->.
  repeat apply andb_true_iff in E' as [E' ?]. apply bool_decide_eq_true in E'. subst k'.
  apply Hn. apply list_elem_of_fmap. by exists ((c, k), t').
Qed.

Lemma active_children_one s x k c : scoped s → lends s x k c → active_children s x k = [c].
Proof.
  intros Hs Hl. apply Permutation_singleton_r. symmetry. apply NoDup_Permutation; [apply NoDup_singleton|apply NoDup_active_children|].
  intros c'. rewrite list_elem_of_singleton, active_children_lends by done. split; [by intros ->|]. intros Hl'. by eapply scope_borrower.
Qed.

(** A chain never comes back: each session on it is further from the owner than the next. *)
Inductive chain (s : sdb) (k o : string) : nat → string → Prop :=
  | chain_here : chain s k o 0 o
  | chain_there n x c : x ≠ o → lends s x k c → chain s k o n c → chain s k o (S n) x.

Lemma reaches_chain s k x o : reaches s k x o → ∃ n, chain s k o n x.
Proof. induction 1 as [o|x c o Hne Hl _ [n Hn]]; [exists 0%nat|exists (S n)]; by econstructor. Qed.

Lemma chain_unique s k o n m x : scoped s → chain s k o n x → chain s k o m x → n = m.
Proof.
  intros Hs Hn. revert m. induction Hn as [|n x c Hne Hl _ IH]; intros m Hm; inversion Hm; subst; try done.
  f_equal. apply IH. match goal with H : lends s x k ?c' |- _ => by rewrite (scope_borrower s Hs x k c c') end.
Qed.

Lemma chain_session s k o n x : scoped s → is_Some (session_status s x) → chain s k o n x → is_Some (session_status s o).
Proof. intros Hs Hx. induction 1 as [|n x c Hne Hl _ IH]; [done|]. apply IH. by eapply lends_member. Qed.

Lemma descends_chain s k o n x fuel (seen : gset string) : scoped s → is_Some (session_status s x) → chain s k o n x →
  (∀ y, y ∈ seen → ∃ m, chain s k o m y ∧ (n < m)%nat) → (n ≤ fuel)%nat → descends fuel s k o seen x = Ok true.
Proof.
  intros Hs Hx Hc. revert fuel seen Hx. induction Hc as [|n x c Hne Hl Hc IH]; intros fuel seen Hx Hseen Hf.
  { destruct fuel; cbn; by rewrite bool_decide_eq_true_2. }
  destruct fuel as [|fuel]; [lia|]. cbn. rewrite bool_decide_eq_false_2 by done.
  assert (x ∉ seen) as Hns.
  { intros (m & Hm & Hlt)%Hseen. assert (S n = m); [|lia]. eapply chain_unique; [done| |done]. by econstructor. }
  rewrite bool_decide_eq_false_2 by done. cbn. rewrite (active_children_one s x k c) by done.
  apply IH; [by eapply lends_member| |lia]. intros y [Hy%elem_of_singleton|Hy]%elem_of_union; [subst y|].
  - exists (S n). split; [by econstructor|lia].
  - destruct (Hseen y Hy) as (m & Hm & Hlt). exists m. split; [done|lia].
Qed.

(** A chain is no longer than the table of sessions. *)
Lemma chain_size s k o n x (avoid : gset string) : scoped s → chain s k o n x → is_Some (session_status s x) →
  (∀ y, y ∈ avoid → is_Some (session_status s y) ∧ ∃ m, chain s k o m y ∧ (n < m)%nat) →
  (n + size avoid < size (sessions (jobs_db s)))%nat.
Proof.
  intros Hs Hc. revert avoid. induction Hc as [|n x c Hne Hl Hc IH]; intros avoid Hx Hav.
  - assert (avoid ∪ {[o]} ⊆ dom (sessions (jobs_db s))) as Hsub.
    { intros y [Hy|Hy%elem_of_singleton]%elem_of_union; apply elem_of_dom, (fmap_is_Some s_status).
      - by apply Hav in Hy as [? _].
      - by subst. }
    apply subseteq_size in Hsub. rewrite size_dom, size_union, size_singleton in Hsub; [lia|].
    intros y Hy Hyo%elem_of_singleton. subst y. apply Hav in Hy as (_ & m & Hm & Hlt). inversion Hm; subst; [lia|done].
  - assert (x ∉ avoid) as Hna.
    { intros (_ & m & Hm & Hlt)%Hav. assert (S n = m); [|lia]. eapply chain_unique; [done| |done]. by econstructor. }
    specialize (IH ({[x]} ∪ avoid)). rewrite size_union, size_singleton in IH; [|set_solver].
    enough (n + S (size avoid) < size (sessions (jobs_db s)))%nat by lia.
    replace (S (size avoid)) with (1 + size avoid)%nat by lia. apply IH; [by eapply lends_member|].
    intros y [Hy%elem_of_singleton|Hy]%elem_of_union; [subst y|].
    + split; [done|]. exists (S n). split; [by econstructor|lia].
    + destruct (Hav y Hy) as [? (m & Hm & Hlt)]. split; [done|]. exists m. split; [done|lia].
Qed.

Lemma descends_reaches s k x o : scoped s → is_Some (session_status s x) → reaches s k x o →
  _reservation_descends_from s x k o = Ok true.
Proof.
  intros Hs Hx [n Hn]%reaches_chain. unfold _reservation_descends_from.
  assert (n + size (∅ : gset string) < size (sessions (jobs_db s)))%nat as Hsz.
  { apply (chain_size s k o n x); [done..|]. intros y ?%elem_of_empty. done. }
  rewrite size_empty in Hsz. apply (descends_chain s k o n); [done..| |lia]. intros y ?%elem_of_empty. done.
Qed.

Lemma elem_selected s x k : k ∈ selected_keys_of s x ↔ selects s x k = true.
Proof.
  unfold selected_keys_of, component_rows_of, selects. rewrite list_elem_of_fmap, bool_decide_eq_true. split.
  - intros ([p k'] & -> & Hin). rewrite elem_of_sort_by in Hin. apply list_elem_of_fmap in Hin as ([x' k''] & [= _ ->] & Hin).
    apply elem_of_elements, elem_of_filter in Hin as [Hx Hin]. cbn in Hx. by subst x'.
  - intros Hin. exists (default 0 (positions s !! (x, k)), k). split; [done|]. rewrite elem_of_sort_by.
    apply list_elem_of_fmap. exists (x, k). split; [done|]. by apply elem_of_elements, elem_of_filter.
Qed.

Lemma elem_owned s x k : k ∈ owned_keys s x ↔ reserved s k = Some x.
Proof.
  unfold owned_keys. rewrite elem_of_py_sorted, list_elem_of_fmap. split.
  - intros ([k' x'] & -> & Hin). apply elem_of_map_to_list, map_lookup_filter_Some in Hin as [Hk Hx]. cbn in Hx. by subst x'.
  - intros Hk. exists (k, x). split; [done|]. by apply elem_of_map_to_list, map_lookup_filter_Some.
Qed.

Lemma NoDup_owned s x : NoDup (owned_keys s x).
Proof. unfold owned_keys. rewrite py_sorted_perm. apply NoDup_fst_map_to_list. Qed.

(** The loans of a session, as listed. *)
Definition loans (s : sdb) (x : string) : list (string * string) :=
  py_sorted (omap (λ q : (string * string) * transfer_row,
    if bool_decide (tr_source q.2 = x) && bool_decide (tr_state q.2 = "active") then Some (q.1.2, q.1.1) else None)
  (map_to_list (transfers s))).

Lemma elem_loans s x k c : (k, c) ∈ loans s x ↔ lends s x k c.
Proof.
  unfold loans. rewrite elem_of_py_sorted, list_elem_of_omap. split.
  - intros ([[c' k'] t] & Hin & H). apply elem_of_map_to_list in Hin. cbn [fst snd] in H.
    destruct (_ && _) eqn:E; [|discriminate]. injection H as <- <-. apply andb_true_iff in E as [E1 E2].
    apply bool_decide_eq_true in E1, E2. by exists t.
  - intros (t & Ht & Hx & Hst). exists ((c, k), t). split; [by apply elem_of_map_to_list|]. cbn [fst snd].
    by rewrite !bool_decide_eq_true_2.
Qed.

Lemma NoDup_loans s x : NoDup (loans s x).
Proof.
  unfold loans. rewrite py_sorted_perm. pose proof (NoDup_fst_map_to_list (transfers s)) as Hf. revert Hf.
  induction (map_to_list (transfers s)) as [|[[c k] t] l IH]; [constructor|]. rewrite fmap_cons. cbn [fst].
  intros [Hn Hf]%NoDup_cons. cbn [omap list_omap fst snd]. destruct (_ && _); [|auto]. apply NoDup_cons. split; [|auto].
  intros Hin. apply list_elem_of_omap in Hin as ([[c' k'] t'] & Hin & H'). cbn [fst snd] in H'.
  destruct (_ && _); [|discriminate]. injection H' as -> ->. apply Hn. apply list_elem_of_fmap. by exists ((c, k), t').
Qed.

Lemma elem_transferred s x k : k ∈ transferred_keys s x ↔ ∃ c, lends s x k c.
Proof.
  unfold transferred_keys. fold (loans s x). rewrite list_elem_of_fmap. split.
  - intros ([k' c] & -> & Hin). exists c. by apply elem_loans.
  - intros [c Hl]. exists (k, c). split; [done|]. by apply elem_loans.
Qed.

Lemma NoDup_transferred s x : scoped s → NoDup (transferred_keys s x).
Proof.
  intros Hs. unfold transferred_keys. fold (loans s x). apply NoDup_fmap_2_strong; [|apply NoDup_loans].
  intros [k c] [k' c'] Hc Hc' E. cbn in E. subst k'. apply elem_loans in Hc, Hc'. f_equal. by eapply scope_borrower.
Qed.

Lemma scope_accepted s x : scoped s → running s x = true →
  require_admitted_reservation_scope s x = Ok (bool_decide (scope_admitted s x = Some 1)).
Proof.
  intros Hs Hr. assert (is_Some (session_status s x)) as Hx by (apply running_status in Hr; eauto).
  unfold require_admitted_reservation_scope. rewrite Hr, bool_decide_eq_true_2 by by apply scope_marker. cbn [andb rbind require].
  destruct (scope_nonempty s Hs x Hx) as [k0 Hk0]. rewrite bool_decide_eq_false_2; [|intros E; apply elem_selected in Hk0; rewrite E in Hk0; by apply not_elem_of_nil in Hk0].
  cbn [negb rbind require]. destruct (decide (scope_admitted s x = Some 0)) as [H0|H0].
  - assert (owned_keys s x = []) as ->.
    { apply elem_of_nil_inv. intros k Hk%elem_owned. apply (scope_owned s Hs) in Hk as [_ E]. congruence. }
    assert (transferred_keys s x = []) as ->.
    { apply elem_of_nil_inv. intros k [c Hl]%elem_transferred. apply (scope_lent s Hs) in Hl as (_ & _ & _ & _ & _ & E). congruence. }
    rewrite H0. done.
  - assert (scope_admitted s x = Some 1) as H1.
    { pose proof (scope_marker s Hs x Hx) as Hm. apply list_elem_of_In in Hm. cbn in Hm. naive_solver. }
    rewrite H1. rewrite (bool_decide_eq_true_2 (NoDup _)).
    2:{ apply NoDup_app. split; [apply NoDup_owned|]. split; [|by apply NoDup_transferred].
        intros k Hk%elem_owned [c Hl]%elem_transferred. by eapply (scope_lender s Hs). }
    rewrite (bool_decide_eq_true_2 (list_to_set _ = _)).
    2:{ apply set_eq. intros k. rewrite !elem_of_list_to_set, elem_of_app, elem_owned, elem_transferred, elem_selected. split.
        - intros [Hk|[c Hl]]; [by apply (scope_owned s Hs)|by apply (scope_lent s Hs) in Hl as (_ & _ & _ & _ & ? & _)].
        - intros Hk. destruct (scope_covered s Hs x k Hr H1 Hk) as (o & Ho & Hre). inversion Hre; subst; eauto. }
    cbn [andb rbind require].
    enough (∀ l, (∀ k, k ∈ l → selects s x k = true) → is_ok (rmap (λ k,
      let! descends := match reserved s k with None => Ok false | Some owner => _reservation_descends_from s x k owner end in
      check! descends orelse RuntimeError saying "Execution session reservation cleanup lost its admitted transfer chain" in Ok ()) l) = true) as Hall.
    { specialize (Hall (selected_keys_of s x) (λ k, proj1 (elem_selected s x k))). destruct (rmap _ _); [done|discriminate]. }
    induction l as [|k l IH]; intros Hl; [done|]. cbn.
    destruct (scope_covered s Hs x k Hr H1) as (o & -> & Hre); [apply Hl; left|].
    rewrite (descends_reaches s k x o) by done. cbn. specialize (IH (λ k Hk, Hl k (list_elem_of_further _ _ _ Hk))).
    destruct (rmap _ l); [done|discriminate].
Qed.

(** What an accepted check says. *)
Lemma accepted_covered s x k b : require_admitted_reservation_scope s x = Ok b → scope_admitted s x = Some 1 →
  selects s x k = true → is_Some (reserved s k).
Proof.
  unfold require_admitted_reservation_scope. intros H H1 Hk%elem_selected. inv_ok. rewrite decide_False in H by congruence.
  inv_ok. match goal with H : rmap _ _ = Ok _ |- _ => apply rmap_ok in H as Hf end.
  apply list_elem_of_lookup in Hk as [i Hi]. destruct (Forall2_lookup_l _ _ _ _ _ Hf Hi) as (u & _ & Hu). cbn in Hu.
  destruct (reserved s k); [by eexists|]. cbn in Hu. discriminate.
Qed.

(** ** Changes of the scope *)

(** A new session [x] selects [keys]; nothing is reserved for it yet. *)
Record created (s s' : sdb) (x : string) (keys : list string) : Prop := {
  created_fresh : session_status s x = None;
  created_keys : keys ≠ [];
  created_status y : session_status s' y = if decide (y = x) then Some "running" else session_status s y;
  created_selects y k : selects s' y k = if decide (y = x) then bool_decide (k ∈ keys) else selects s y k;
  created_marker y : scope_admitted s' y = if decide (y = x) then Some 0 else scope_admitted s y;
  created_reserved k : reserved s' k = reserved s k;
  created_transfers : transfers s' = transfers s;
  created_admissions y : is_Some (admissions s !! y) → is_Some (admissions s' !! y)
}.

(** A lender, a borrower or an owner is a session. *)
Lemma lends_old s x y k c : scoped s → session_status s x = None → lends s y k c → y ≠ x ∧ c ≠ x.
Proof. intros Hs Hx [[? Hy] [? Hc]]%lends_member; [|done]. split; congruence. Qed.

Lemma reserved_old s x k y : scoped s → session_status s x = None → reserved s k = Some y → y ≠ x.
Proof. intros Hs Hx [Hy _]%(scope_owned s Hs) ->. apply (scope_rows s Hs) in Hy as [? ?]. congruence. Qed.

Lemma scoped_created s s' x keys : created s s' x keys → scoped s → scoped s'.
Proof.
  intros [Hx Hk E1 E2 E3 E4 E5 E6] Hs. pose proof (λ y k c, lends_transfers s s' y k c E5) as EL.
  assert (∀ y, y ≠ x → running s' y = running s y) as ER.
  { intros y Hy. apply running_eq. by rewrite E1, decide_False. }
  split.
  - intros y k. rewrite E1, E2. destruct (decide (y = x)); [done|]. apply (scope_rows s Hs).
  - intros y. rewrite E1, E3. destruct (decide (y = x)); [by left|]. apply (scope_marker s Hs).
  - intros y. rewrite E1. destruct (decide (y = x)) as [->|Hy].
    + intros _. destruct keys as [|k keys]; [done|]. exists k. rewrite E2, decide_True by done. apply bool_decide_eq_true. left.
    + intros [k Hks]%(scope_nonempty s Hs). exists k. by rewrite E2, decide_False.
  - intros k y. rewrite E4. intros Hy. pose proof (reserved_old s x k y Hs Hx Hy). rewrite E2, E3, !decide_False by done.
    by apply (scope_owned s Hs).
  - intros y k c. rewrite EL. intros Hl. destruct (lends_old s x y k c Hs Hx Hl) as [Hy Hc].
    rewrite ER, !E2, !E3, !decide_False by done. destruct (scope_lent s Hs _ _ _ Hl) as (? & ? & ? & ? & ? & ?). split_and!; auto.
  - intros y k c. rewrite EL, E4. apply (scope_lender s Hs).
  - intros y k c c'. rewrite !EL. apply (scope_borrower s Hs).
  - intros y k. rewrite E2, E3, E4. destruct (decide (y = x)) as [->|Hy]; [done|]. rewrite ER by done. intros H1 H2 H3.
    destruct (scope_covered s Hs y k H1 H2 H3) as (o & Ho & Hr). exists o. split; [done|]. revert Hr. apply reaches_lift. intros z c. apply EL.
Qed.

(** A running session takes all it selected at once, all of it free. *)
Record taken (s s' : sdb) (x : string) : Prop := {
  taken_running : running s x = true;
  taken_before : scope_admitted s x = Some 0;
  taken_free k : selects s x k = true → reserved s k = None;
  taken_status y : session_status s' y = session_status s y;
  taken_selects y k : selects s' y k = selects s y k;
  taken_marker y : scope_admitted s' y = if decide (y = x) then Some 1 else scope_admitted s y;
  taken_reserved k : reserved s' k = if selects s x k then Some x else reserved s k;
  taken_transfers : transfers s' = transfers s;
  taken_admissions y : is_Some (admissions s !! y) → is_Some (admissions s' !! y)
}.

Lemma scoped_taken s s' x : taken s s' x → scoped s → scoped s'.
Proof.
  intros [Hr H0 Hfree E1 E2 E3 E4 E5 E6] Hs. pose proof (λ y k c, lends_transfers s s' y k c E5) as EL.
  assert (∀ y, running s' y = running s y) as ER by (intros; by apply running_eq).
  assert (∀ y k c, lends s y k c → y ≠ x ∧ c ≠ x) as Hnot.
  { intros y k c (_ & Hc & _ & _ & _ & Hy)%(scope_lent s Hs). split; congruence. }
  split.
  - intros y k. rewrite E1, E2. apply (scope_rows s Hs).
  - intros y. rewrite E1, E3. destruct (decide (y = x)); [by right; left|]. apply (scope_marker s Hs).
  - intros y. rewrite E1. intros [k Hk]%(scope_nonempty s Hs). exists k. by rewrite E2.
  - intros k y. rewrite E2, E3, E4. destruct (selects s x k) eqn:Hsel.
    + intros [= <-]. by rewrite decide_True.
    + intros Hy. destruct (scope_owned s Hs _ _ Hy) as [Hy1 Hy2]. split; [done|]. destruct (decide (y = x)); [done|done].
  - intros y k c. rewrite EL. intros Hl. destruct (Hnot y k c Hl) as [Hy Hc]. rewrite ER, !E2, !E3, !decide_False by done.
    destruct (scope_lent s Hs _ _ _ Hl) as (? & ? & ? & ? & ? & ?). split_and!; auto.
  - intros y k c. rewrite EL, E4. intros Hl. destruct (Hnot y k c Hl) as [Hy _]. destruct (selects s x k); [congruence|].
    by apply (scope_lender s Hs _ _ _ Hl).
  - intros y k c c'. rewrite !EL. apply (scope_borrower s Hs).
  - intros y k. rewrite ER, E2, E3, E4. destruct (decide (y = x)) as [->|Hy].
    + intros _ _ ->. exists x. split; [done|constructor].
    + intros H1 H2 H3. destruct (scope_covered s Hs y k H1 H2 H3) as (o & Ho & Hre). exists o. split.
      * destruct (selects s x k) eqn:Hsel; [|done]. by rewrite (Hfree k Hsel) in Ho.
      * revert Hre. apply reaches_lift. intros z c. apply EL.
Qed.

(** A new interrupt [x] selects [keys] and takes them all, from their owners where they are reserved. *)
Record interrupted (s s' : sdb) (x : string) (keys : list string) : Prop := {
  int_fresh : session_status s x = None;
  int_keys : keys ≠ [];
  int_from k y : k ∈ keys → reserved s k = Some y → selects s y k = true;
  int_status y : session_status s' y = if decide (y = x) then Some "running" else session_status s y;
  int_selects y k : selects s' y k = if decide (y = x) then bool_decide (k ∈ keys) else selects s y k;
  int_marker y : scope_admitted s' y = if decide (y = x) then Some 1 else scope_admitted s y;
  int_reserved k : reserved s' k = if decide (k ∈ keys) then Some x else reserved s k;
  int_lends y k c : lends s' y k c ↔ lends s y k c ∨ (c = x ∧ k ∈ keys ∧ reserved s k = Some y);
  int_admissions y : is_Some (admissions s !! y) ∨ y = x → is_Some (admissions s' !! y)
}.

(** The owner lends on to a newcomer. *)
Lemma reaches_extend s s' k x o n : (∀ y c, lends s y k c → lends s' y k c) → lends s' o k n →
  (∀ y c, lends s y k c → c ≠ n) → o ≠ n → x ≠ n → reaches s k x o → reaches s' k x n.
Proof.
  intros Hl Hn Hc Ho Hx Hr. revert Hn Ho Hx. induction Hr as [o|x c o Hne Hlx _ IH]; intros Hn Ho Hx.
  - eapply reaches_there; [done|done|constructor].
  - eapply reaches_there; [done|by apply Hl|]. apply IH; [done|done|]. by eapply Hc.
Qed.

Lemma scoped_interrupted s s' x keys : interrupted s s' x keys → scoped s → scoped s'.
Proof.
  intros [Hx Hk Hfrom E1 E2 E3 E4 EL E6] Hs.
  assert (∀ y, y ≠ x → running s' y = running s y) as ER.
  { intros y Hy. apply running_eq. by rewrite E1, decide_False. }
  assert (running s' x = true) as Hrx by (apply running_status; by rewrite E1, decide_True).
  split.
  - intros y k. rewrite E1, E2. destruct (decide (y = x)); [done|]. apply (scope_rows s Hs).
  - intros y. rewrite E1, E3. destruct (decide (y = x)); [by right; left|]. apply (scope_marker s Hs).
  - intros y. rewrite E1. destruct (decide (y = x)) as [->|Hy].
    + intros _. destruct keys as [|k keys]; [done|]. exists k. rewrite E2, decide_True by done. apply bool_decide_eq_true. left.
    + intros [k Hks]%(scope_nonempty s Hs). exists k. by rewrite E2, decide_False.
  - intros k y. rewrite E4. destruct (decide (k ∈ keys)) as [Hin|Hin].
    + intros [= <-]. rewrite E2, E3, !decide_True by done. split; [by apply bool_decide_eq_true|done].
    + intros Hy. pose proof (reserved_old s x k y Hs Hx Hy). rewrite E2, E3, !decide_False by done. by apply (scope_owned s Hs).
  - intros y k c. rewrite EL. intros [Hl|(-> & Hin & Hy)].
    + destruct (lends_old s x y k c Hs Hx Hl) as [Hy Hc]. rewrite ER, !E2, !E3, !decide_False by done.
      destruct (scope_lent s Hs _ _ _ Hl) as (? & ? & ? & ? & ? & ?). split_and!; auto.
    + pose proof (reserved_old s x k y Hs Hx Hy). rewrite Hrx, !E2, !E3, !(decide_True (P := x = x)), !decide_False by done.
      rewrite bool_decide_eq_true_2 by done. destruct (scope_owned s Hs _ _ Hy). split_and!; auto.
  - intros y k c. rewrite EL, E4. intros [Hl|(-> & Hin & Hy)].
    + destruct (lends_old s x y k c Hs Hx Hl) as [Hy _]. destruct (decide (k ∈ keys)); [congruence|]. by eapply scope_lender.
    + rewrite decide_True by done. pose proof (reserved_old s x k y Hs Hx Hy). congruence.
  - intros y k c c'. rewrite !EL. intros [Hl|(-> & Hin & Hy)] [Hl'|(-> & Hin' & Hy')]; [by eapply scope_borrower| | |done].
    + by apply (scope_lender s Hs) in Hl.
    + by apply (scope_lender s Hs) in Hl'.
  - intros y k. rewrite E2, E3, E4. destruct (decide (y = x)) as [->|Hy].
    + intros _ _ Hin%bool_decide_eq_true. rewrite decide_True by done. exists x. split; [done|constructor].
    + rewrite ER by done. intros H1 H2 H3. destruct (scope_covered s Hs y k H1 H2 H3) as (o & Ho & Hre).
      destruct (decide (k ∈ keys)) as [Hin|Hin].
      * exists x. split; [done|]. apply (reaches_extend s s' k y o x); [|apply EL; by right| | |done|done].
        -- intros z c Hl. apply EL. by left.
        -- intros z c Hl. by apply (lends_old s x z k c).
        -- by eapply reserved_old.
      * exists o. split; [done|]. revert Hre. apply reaches_lift. intros z c Hl. apply EL. by left.
Qed.

(** A session [x] ends: what it owns goes, what it borrowed goes back to a running lender
    or, when the lender has ended, goes too. *)
Record ended (s s' : sdb) (x : string) : Prop := {
  end_status y : session_status s' y = if decide (y = x) then Some "terminal" else session_status s y;
  end_running : running s x = true;
  end_selects y k : selects s' y k = selects s y k;
  end_marker y : scope_admitted s' y = scope_admitted s y;
  end_lends y k c : lends s' y k c ↔ lends s y k c ∧ c ≠ x;
  end_borrowed y k : lends s y k x → reserved s k = Some x ∧ reserved s' k = if running s y then Some y else None;
  end_reserved k : (∀ y, ¬ lends s y k x) → reserved s' k = if decide (reserved s k = Some x) then None else reserved s k;
  end_admissions y : is_Some (admissions s !! y) → is_Some (admissions s' !! y)
}.

(** The last loan before a borrower that ends. *)
Lemma reaches_before s s' k x y : (∀ z c, lends s z k c → c ≠ x → lends s' z k c) → y ≠ x → reaches s k y x →
  ∃ l, lends s l k x ∧ reaches s' k y l ∧ (y = l ∨ ∃ z, lends s z k l).
Proof.
  intros Hl Hne Hr. revert Hne. remember x as o eqn:Ho. rewrite Ho in Hl. induction Hr as [o|y c o Hyo Hyc _ IH]; intros Hne; [done|].
  subst o. destruct (decide (c = x)) as [->|Hc].
  - exists y. split; [done|]. split; [constructor|by left].
  - destruct (IH eq_refl Hc) as (l & Hlx & Hre & Hlast). exists l. split; [done|]. split.
    + destruct (decide (y = l)) as [->|Hyl]; [constructor|]. eapply reaches_there; [done|by apply Hl|done].
    + destruct (decide (y = l)); [by left|right]. destruct Hlast as [<-|Hz]; [eauto|done].
Qed.

Lemma reaches_avoids s s' k x y o : (∀ z c, lends s z k c → c ≠ x → lends s' z k c) → (∀ z, ¬ lends s z k x) →
  reaches s k y o → reaches s' k y o.
Proof.
  intros Hl Hno. induction 1 as [|y c o Hne Hyc _ IH]; [constructor|]. eapply reaches_there; [done| |done].
  apply Hl; [done|]. intros ->. by eapply Hno.
Qed.

Lemma lent_or_not s k x : (∃ y, lends s y k x) ∨ ∀ y, ¬ lends s y k x.
Proof.
  destruct (transfers s !! (x, k)) as [t|] eqn:Ht.
  - destruct (decide (tr_state t = "active")) as [Hact|Hact]; [left; by exists (tr_source t), t|].
    right. intros y (t' & Ht' & _ & Hact'). congruence.
  - right. intros y (t' & Ht' & _). congruence.
Qed.

Lemma scoped_ended s s' x : ended s s' x → scoped s → scoped s'.
Proof.
  intros [E1 Hr E2 E3 EL Hb E4 E6] Hs.
  assert (∀ y, y ≠ x → running s' y = running s y) as ER.
  { intros y Hy. apply running_eq. by rewrite E1, decide_False. }
  pose proof (λ k, lent_or_not s k x) as Hdec.
  assert (is_Some (session_status s x)) as Hsx by (apply running_status in Hr; eauto).
  assert (∀ y, is_Some (session_status s' y) ↔ is_Some (session_status s y)) as EX.
  { intros y. rewrite E1. destruct (decide (y = x)) as [->|]; [by split; eauto|done]. }
  split.
  - intros y k. rewrite EX, E2. apply (scope_rows s Hs).
  - intros y. rewrite EX, E3. apply (scope_marker s Hs).
  - intros y. rewrite EX. intros [k Hk]%(scope_nonempty s Hs). exists k. by rewrite E2.
  - intros k y. rewrite E2, E3. destruct (Hdec k) as [[z Hz]|Hno].
    + destruct (Hb z k Hz) as [_ ->]. destruct (running s z); [|done]. intros [= <-].
      by destruct (scope_lent s Hs _ _ _ Hz) as (_ & _ & _ & _ & ? & ?).
    + rewrite E4 by done. destruct (decide _); [done|]. apply (scope_owned s Hs).
  - intros y k c [Hl Hc]%EL. rewrite ER, !E2, !E3 by done. destruct (scope_lent s Hs _ _ _ Hl) as (? & ? & ? & ? & ? & ?). split_and!; auto.
  - intros y k c [Hl Hc]%EL. destruct (Hdec k) as [[z Hz]|Hno].
    + destruct (Hb z k Hz) as [_ ->]. destruct (running s z); [|done]. intros [= <-]. apply Hc. by eapply scope_borrower.
    + rewrite E4 by done. destruct (decide _); [done|]. by eapply scope_lender.
  - intros y k c c' [Hl _]%EL [Hl' _]%EL. by eapply scope_borrower.
  - intros y k Hry. rewrite E2, E3. intros H2 H3. assert (y ≠ x) as Hy.
    { intros ->. apply running_status in Hry. rewrite E1, decide_True in Hry by done. done. }
    rewrite ER in Hry by done. destruct (scope_covered s Hs y k Hry H2 H3) as (o & Ho & Hre). destruct (Hdec k) as [[z Hz]|Hno].
    + destruct (Hb z k Hz) as [Hox Hz']. rewrite Hox in Ho. injection Ho as <-.
      destruct (reaches_before s s' k x y) as (l & Hlx & Hrl & Hlast); [intros a c Hl Hc; by apply EL|done|done|].
      assert (l = z) as ->.
      { destruct Hlx as (t & Ht & <- & _), Hz as (t' & Ht' & <- & _). congruence. }
      rewrite Hz'. destruct (running s z) eqn:Hnr; [by exists z|]. exfalso. destruct Hlast as [->|[a Ha]]; [congruence|].
      apply (scope_lent s Hs) in Ha as [? _]. congruence.
    + exists o. rewrite E4 by done. split.
      * rewrite decide_False; [done|]. rewrite Ho. intros [= ->].
        destruct (reaches_before s s k x y) as (l & Hlx & _); [done|done|done|]. by eapply Hno.
      * revert Hre. apply reaches_avoids with (x := x); [intros a c Hl Hc; by apply EL|done].
Qed.

(** A session without interrupt admission is marked terminal, nothing else. *)
Record stopped (s s' : sdb) (x : string) : Prop := {
  stop_interrupt : admissions s !! x = None;
  stop_status y : session_status s' y = if decide (y = x) then Some "terminal" else session_status s y;
  stop_running : running s x = true;
  stop_selects y k : selects s' y k = selects s y k;
  stop_marker y : scope_admitted s' y = scope_admitted s y;
  stop_reserved k : reserved s' k = reserved s k;
  stop_transfers : transfers s' = transfers s;
  stop_admissions y : is_Some (admissions s !! y) → is_Some (admissions s' !! y)
}.

Lemma scoped_stopped s s' x : stopped s s' x → scoped s → scoped s'.
Proof.
  intros [Hx E1 Hr E2 E3 E4 E5 E6] Hs. pose proof (λ y k c, lends_transfers s s' y k c E5) as EL.
  assert (∀ y, y ≠ x → running s' y = running s y) as ER.
  { intros y Hy. apply running_eq. by rewrite E1, decide_False. }
  assert (is_Some (session_status s x)) as Hsx by (apply running_status in Hr; eauto).
  assert (∀ y, is_Some (session_status s' y) ↔ is_Some (session_status s y)) as EX.
  { intros y. rewrite E1. destruct (decide (y = x)) as [->|]; [by split; eauto|done]. }
  split.
  - intros y k. rewrite EX, E2. apply (scope_rows s Hs).
  - intros y. rewrite EX, E3. apply (scope_marker s Hs).
  - intros y. rewrite EX. intros [k Hk]%(scope_nonempty s Hs). exists k. by rewrite E2.
  - intros k y. rewrite E2, E3, E4. apply (scope_owned s Hs).
  - intros y k c. rewrite EL. intros Hl. destruct (scope_lent s Hs _ _ _ Hl) as (? & ? & ? & [a Ha] & ? & ?).
    rewrite ER by congruence. rewrite !E2, !E3. split_and!; eauto.
  - intros y k c. rewrite EL, E4. apply (scope_lender s Hs).
  - intros y k c c'. rewrite !EL. apply (scope_borrower s Hs).
  - intros y k Hry. rewrite E2, E3, E4. intros H2 H3. assert (y ≠ x) as Hy.
    { intros ->. apply running_status in Hry. rewrite E1, decide_True in Hry by done. done. }
    rewrite ER in Hry by done. destruct (scope_covered s Hs y k Hry H2 H3) as (o & Ho & Hre). exists o. split; [done|].
    revert Hre. apply reaches_lift. intros z c. apply EL.
Qed.

(** ** Operations as changes of the scope *)

(** Changes of tables the scope does not read. *)
Lemma same_scope_tables s s' : core s' = core s → transfers s' = transfers s →
  (∀ x, is_Some (admissions s !! x) → is_Some (admissions s' !! x)) → same_scope s s'.
Proof. intros E1 E2 E3. split; intros; unfold session_status, selects, scope_admitted, jobs_db; rewrite ?E1; auto. Qed.

Lemma same_scope_core s d : base d = base (core s) → columns d = columns (core s) → same_scope s (set_core d s).
Proof. intros E1 E2. split; intros; unfold session_status, selects, scope_admitted, jobs_db; cbn; rewrite ?E1, ?E2; auto. Qed.

Lemma insert_some {A} (m : gmap string A) x v y : is_Some (m !! y) → is_Some (<[x := v]> m !! y).
Proof. destruct (decide (y = x)) as [->|]; [rewrite lookup_insert_eq|rewrite lookup_insert_ne by done]; eauto. Qed.

Lemma settle_interrupt_scope snapshot edges json s x o at_ s' b :
  _settle_interrupt_component snapshot edges json s x o at_ = Ok (s', b) → same_scope s s'.
Proof.
  unfold _settle_interrupt_component. destruct (admissions s !! x) as [a|]; [|by intros [= <- _]].
  destruct (negb _); [by intros [= <- _]|]. intros H. inv_ok. rename x0 into s2.
  match goal with H : (if ?c then _ else _) = Ok s2 |- _ => rename H into Hf end.
  assert (same_scope (release_pauses x at_ (set_core (set_holds (delete (x, encode_component_key (oc_component o))
    (holds (core s))) (core s)) s)) s2) as Hs2.
  { destruct (_ && _) in Hf; [|by injection Hf as <-]. destruct (retained_pointer _ _); [|discriminate]. inv_ok.
    by apply same_scope_tables. }
  transitivity s2.
  - etrans; [|exact Hs2]. apply (same_scope_trans _ (set_core (set_holds (delete (x, encode_component_key (oc_component o))
      (holds (core s))) (core s)) s)); [by apply same_scope_core|by apply same_scope_tables].
  - apply same_scope_tables; [done..|]. intros y. apply insert_some.
Qed.

Lemma publish_component_base au d x o d' : publish_component au d x o = Ok d' → base d' = base d ∧ columns d' = columns d.
Proof.
  unfold publish_component. destruct (read_pending d x _) as [[pe sh]|]; [|discriminate]. intros H. inv_ok.
  match goal with H : match ?m with Some _ => _ | None => _ end = _ |- _ => destruct m; [|discriminate] end. inv_ok.
  cbn. by destruct (negb _).
Qed.

Lemma publish_in_session_scope snapshot edges json env s x o at_ s' :
  publish_in_session snapshot edges json env s x o at_ = Ok s' → same_scope s s'.
Proof.
  unfold publish_in_session. intros H. inv_ok. destruct x1 as [s1 b]. cbn.
  match goal with H : publish_component _ _ _ _ = _ |- _ => apply publish_component_base in H as [Hb Hc] end.
  match goal with H : _settle_interrupt_component _ _ _ _ _ _ _ = _ |- _ => apply settle_interrupt_scope in H end.
  etrans; [|done]. by apply same_scope_core.
Qed.

Lemma publish_all_scope snapshot edges json env s x os at_ s' :
  publish_all_in_session snapshot edges json env s x os at_ = Ok s' → same_scope s s'.
Proof.
  apply (rfold_keeps (same_scope s)); [|done]. intros s1 o s2 _ H1 H2. etrans; [exact H1|]. by eapply publish_in_session_scope.
Qed.

Lemma publish_all_base au d x os d' : _publish_component_terminal_outcomes au d x os = Ok d' → base d' = base d ∧ columns d' = columns d.
Proof.
  revert d. induction os as [|o os IH]; intros d H; cbn in H; inv_ok; [done|].
  match goal with H : publish_component _ _ _ _ = _ |- _ => apply publish_component_base in H as [<- <-] end. by apply IH.
Qed.

Lemma finish_component_scope snapshot edges json env s x o p at_ s' b :
  finish_component snapshot edges json env s x o p at_ = Ok (s', b) → same_scope s s'.
Proof.
  unfold finish_component. intros H. inv_ok. destruct x0 as [d c]. cbn [fst snd] in H.
  assert (base d = base (core s) ∧ columns d = columns (core s)) as [Hb Hc].
  { unfold finish_successful_component_execution in Hx. inv_ok. destruct (bool_decide _) in Hx.
    - destruct (pending _ !! _); [|discriminate]. by inv_ok.
    - inv_ok. by eapply publish_all_base. }
  destruct c; inv_ok.
  - destruct x0 as [s1 b1]. cbn. match goal with H : _settle_interrupt_component _ _ _ _ _ _ _ = _ |- _ => apply settle_interrupt_scope in H end.
    etrans; [|done]. by apply same_scope_core.
  - by apply same_scope_core.
Qed.

Lemma insert_jobs_scope s x roots s' : insert_jobs s x roots = Ok s' → same_scope s s'.
Proof. unfold insert_jobs. intros H. inv_ok. by apply same_scope_tables. Qed.

Lemma select_jobs_scope s x t s' : select_jobs s x t = Ok s' → same_scope s s'.
Proof. unfold select_jobs. destruct (details s !! x); [|discriminate]. intros H. inv_ok. by apply same_scope_tables. Qed.

Lemma authorize_scope snapshot edges s x cs at_ s' : _authorize_interrupt_fences snapshot edges s x cs at_ = Ok s' → same_scope s s'.
Proof. unfold _authorize_interrupt_fences. intros H. inv_ok. by apply same_scope_tables. Qed.

Lemma insert_session_ok s x row c dt s' : insert_session s x row c dt = Ok s' →
  sessions (jobs_db s) !! x = None ∧ sessions (jobs_db s') = <[x := row]> (sessions (jobs_db s)) ∧
  columns (core s') = <[x := c]> (columns (core s)) ∧
  session_components (jobs_db s') = session_components (jobs_db s) ∧
  reservations (jobs_db s') = reservations (jobs_db s) ∧ transfers s' = transfers s ∧ admissions s' = admissions s.
Proof. unfold insert_session. intros H. inv_ok. by apply bool_decide_eq_true in Hg. Qed.

Lemma insert_components_ok s x keys s' : insert_components s x keys = Ok s' →
  NoDup keys ∧ sessions (jobs_db s') = sessions (jobs_db s) ∧ columns (core s') = columns (core s) ∧
  session_components (jobs_db s') = list_to_set (pair x <$> keys) ∪ session_components (jobs_db s) ∧
  reservations (jobs_db s') = reservations (jobs_db s) ∧ transfers s' = transfers s ∧ admissions s' = admissions s.
Proof. unfold insert_components. intros H. inv_ok. apply andb_true_iff in Hg as [Hn%bool_decide_eq_true _]. done. Qed.

(** Both together: a session with its selection. *)
Lemma new_session_ok s x row c dt keys s1 s' : scoped s → insert_session s x row c dt = Ok s1 → insert_components s1 x keys = Ok s' →
  session_status s x = None ∧ NoDup keys ∧
  (∀ y, session_status s' y = if decide (y = x) then Some (s_status row) else session_status s y) ∧
  (∀ y k, selects s' y k = if decide (y = x) then bool_decide (k ∈ keys) else selects s y k) ∧
  (∀ y, scope_admitted s' y = if decide (y = x) then Some (sc_scope_admitted c) else scope_admitted s y) ∧
  (∀ k, reserved s' k = reserved s k) ∧ transfers s' = transfers s ∧ admissions s' = admissions s.
Proof.
  intros Hs (Hf & A1 & A2 & A3 & A4 & A5 & A6)%insert_session_ok (Hn & B1 & B2 & B3 & B4 & B5 & B6)%insert_components_ok.
  assert (session_status s x = None) as Hx by (unfold session_status; by rewrite Hf).
  split; [done|]. split; [done|]. split_and!.
  - intros y. unfold session_status. rewrite B1, A1. destruct (decide (y = x)) as [->|]; [by rewrite lookup_insert_eq|].
    by rewrite lookup_insert_ne.
  - intros y k. unfold selects. rewrite B3, A3. destruct (decide (y = x)) as [->|Hy].
    + apply bool_decide_ext. rewrite elem_of_union, elem_of_list_to_set, list_elem_of_fmap. split.
      * intros [(k' & [= ->] & ?)|Hin]; [done|]. exfalso. assert (selects s x k = true) as [? ?]%(scope_rows s Hs); [|congruence].
        by apply bool_decide_eq_true.
      * intros Hk. left. by exists k.
    + apply bool_decide_ext. rewrite elem_of_union, elem_of_list_to_set, list_elem_of_fmap. split; [|by right].
      intros [(k' & [= -> _] & _)|?]; done.
  - intros y. unfold scope_admitted. rewrite B2, A2. destruct (decide (y = x)) as [->|]; [by rewrite lookup_insert_eq|].
    by rewrite lookup_insert_ne.
  - intros k. by rewrite B4, A4.
  - by rewrite B5.
  - by rewrite B6.
Qed.

Lemma insert_rows_inv {V} (rows : list (string * V)) m m' : insert_rows rows m = Ok m' →
  (∀ k, k ∈ rows.*1 → m !! k = None) ∧ (∀ k, k ∉ rows.*1 → m' !! k = m !! k) ∧ (∀ k v, (k, v) ∈ rows → m' !! k = Some v).
Proof.
  revert m. induction rows as [|[k v] rows IH]; intros m; cbn.
  { intros [= <-]. split_and!; [by intros ? ?%not_elem_of_nil|done|by intros ? ? ?%not_elem_of_nil]. }
  destruct (m !! k) eqn:Hk; [discriminate|]. intros (H1 & H2 & H3)%IH. split_and!.
  - intros k' [->|Hin]%elem_of_cons; [done|]. apply H1 in Hin. destruct (decide (k' = k)) as [->|]; [done|].
    by rewrite lookup_insert_ne in Hin.
  - intros k' [Hne Hnin]%not_elem_of_cons. rewrite H2 by done. by rewrite lookup_insert_ne.
  - intros k' v' [[= -> ->]|Hin]%elem_of_cons; [|by apply H3]. destruct (decide (k ∈ rows.*1)) as [Hin|Hnin].
    + apply H1 in Hin. by rewrite lookup_insert_eq in Hin.
    + rewrite H2 by done. by rewrite lookup_insert_eq.
Qed.

Lemma elem_selected_keys s x k : k ∈ selected_keys (core s) x ↔ selects s x k = true.
Proof.
  unfold selected_keys, selects. rewrite list_elem_of_fmap, bool_decide_eq_true. split.
  - intros ([x' k'] & -> & Hin). rewrite elem_of_py_sorted in Hin. apply elem_of_elements, elem_of_filter in Hin as [Hx Hin].
    cbn in Hx. by subst x'.
  - intros Hin. exists (x, k). split; [done|]. rewrite elem_of_py_sorted. by apply elem_of_elements, elem_of_filter.
Qed.

Lemma reserve_scope snapshot edges json env `{!OverrideLaws (overrides env)} s x shape s' b : scoped s →
  reserve snapshot edges json env s x shape = Ok (s', b) → scoped s'.
Proof.
  intros Hs. unfold reserve. intros H. inv_ok. destruct x0 as [d' b'].
  match goal with H : bind_pending _ _ _ _ = Ok _ |- _ => apply bind_frame, overrides_scope in H; apply (scoped_same _ _ H); clear H end.
  match goal with H : rmap _ _ = Ok _ |- _ => clear H end. cbn. unfold _reserve_execution_components in Hx.
  destruct (sessions (base (core s)) !! x) as [row|] eqn:Hrow; [|discriminate]. inv_ok.
  destruct (decide _) in Hx; inv_ok.
  { by replace (set_core (core s) s) with s by by destruct s. }
  match goal with H : insert_rows _ _ = Ok _ |- _ => apply insert_rows_inv in H as (I1 & I2 & I3) end.
  match goal with H : bool_decide (_ = Some 0) = true |- _ => apply bool_decide_eq_true in H as H0 end.
  assert (∀ k, k ∈ ((λ k, (k, x)) <$> selected_keys (core s) x).*1 ↔ selects s x k = true) as Hk.
  { intros k. rewrite <- list_fmap_compose, <- elem_selected_keys. by rewrite list_fmap_id. }
  eapply (scoped_taken s); [|done]. split.
  - apply running_status. unfold session_status, jobs_db. rewrite Hrow. cbn. by apply bool_decide_eq_true in Hg as ->.
  - done.
  - intros k Hsel. by apply I1, Hk.
  - done.
  - done.
  - intros y. unfold scope_admitted. cbn. destruct (decide (y = x)) as [->|Hy].
    + rewrite lookup_alter_eq. unfold scope_admitted in H0. by destruct (columns (core s) !! x).
    + by rewrite lookup_alter_ne.
  - intros k. cbn. destruct (selects s x k) eqn:Hsel.
    + apply I3. apply list_elem_of_fmap. exists k. split; [done|]. by apply elem_selected_keys.
    + apply I2. rewrite Hk. by rewrite Hsel.
  - done.
  - done.
Qed.

Lemma create_scope snapshot edges iso json env `{!OverrideLaws (overrides env)} s q s' v : scoped s →
  create_execution_session snapshot edges iso json env s q = Ok (s', v) → scoped s'.
Proof.
  intros Hs. unfold create_execution_session. intros H. apply rbind_ok in H as ([[start cs] ps] & Hchk & H).
  assert (start ∈ cs) as Hin.
  { unfold check_request in Hchk. inv_ok.
    by match goal with H : bool_decide (_ ∈ _) = true |- _ ∈ _ => apply bool_decide_eq_true in H end. }
  inv_ok. rename x1 into s1, x2 into s2.
  match goal with H1 : insert_session _ _ _ _ _ = Ok s1, H2 : insert_components _ _ _ = Ok s2 |- _ =>
    destruct (new_session_ok s _ _ _ _ _ _ _ Hs H1 H2) as (Hf & _ & E1 & E2 & E3 & E4 & E5 & E6) end.
  assert (scoped (set_parents x3 s2)) as Hs3.
  { eapply (scoped_created s _ (rq_session q) (encode_component_key <$> cs)); [|done]. split; try done.
    - by destruct cs; [apply not_elem_of_nil in Hin|].
    - intros y. cbn. by rewrite E6. }
  assert (scoped x4.1) as Hs4.
  { destruct (rq_sample q); [|by inv_ok]. inv_ok.
    match goal with H : reserve _ _ _ _ _ _ _ = Ok ?r |- _ => destruct r as [s4 b]; pose proof (reserve_scope _ _ _ _ _ _ _ _ _ Hs3 H); clear H end.
    match goal with H : select_jobs _ _ _ = Ok _ |- _ => apply select_jobs_scope in H end. by eapply scoped_same. }
  match goal with H : insert_jobs _ _ _ = Ok _ |- _ => apply insert_jobs_scope in H end.
  match goal with H : _authorize_interrupt_fences _ _ _ _ _ _ = Ok _ |- _ => apply authorize_scope in H end.
  match goal with H1 : same_scope x4.1 _, H2 : same_scope _ _ |- _ =>
    exact (scoped_same _ _ H2 (scoped_same _ _ H1 Hs4)) end.
Qed.

Lemma conflicts_ok snapshot edges s start sel preds shape b cf :
  _read_interrupt_admission_conflicts snapshot edges s start sel preds shape b = Ok cf →
  (∀ k o, (k, o) ∈ cf_reservations cf → o = reserved s k ∧ (∀ y, o = Some y → selects s y k = true)) ∧
  (cf_reservations cf).*1 = encode_component_key <$> sel ∧
  (∀ y k, (∃ kind, (y, k, kind) ∈ cf_transfers cf) ↔ (k, Some y) ∈ cf_reservations cf).
Proof.
  unfold _read_interrupt_admission_conflicts. intros H. inv_ok. cbn [cf_reservations cf_transfers].
  match goal with H : rmap (overlap s ?p) sel = Ok ?r |- _ => apply rmap_ok in H as Hrs; set (rs := r) in *; set (ps := p) in * end.
  assert (∀ c q, overlap s ps c = Ok q → q.1 = encode_component_key c ∧ q.2 = reserved s (encode_component_key c) ∧
    ∀ y, q.2 = Some y → selects s y (encode_component_key c) = true) as Hov.
  { intros c q Hq. unfold overlap in Hq. destruct (reserved s (encode_component_key c)) as [y|]; inv_ok; [|done].
    cbn. split; [done|]. split; [done|]. intros y' [= <-].
    by match goal with H : running s y && _ = true |- _ => apply andb_true_iff in H as [_ ?] end. }
  split; [|split].
  - intros k o Hin. apply list_elem_of_lookup in Hin as [i Hi]. destruct (Forall2_lookup_r _ _ _ _ _ Hrs Hi) as (c & _ & Hc).
    destruct (Hov c _ Hc) as (E1 & E2 & E3). cbn in *. by subst.
  - clear -Hrs Hov. induction Hrs as [|c q cs qs Hc _ IH]; [done|]. cbn. destruct (Hov c q Hc) as [-> _]. by rewrite IH.
  - intros y k. split.
    + intros [kind Hin]. apply list_elem_of_omap in Hin as ([k' o] & Hin & Ho). destruct o as [y'|]; [|discriminate].
      cbn in Ho. by injection Ho as -> -> _.
    + intros Hin. exists (transfer_kind ps y). apply list_elem_of_omap. exists (k, Some y). done.
Qed.

(** Taking the selected components one by one. *)
Lemma take_components_ok over `{!OverrideLaws over} x l s s' : NoDup l.*1 → rfold (take_component over x) s l = Ok s' →
  (∀ y, session_status s' y = session_status s y) ∧ (∀ y k, selects s' y k = selects s y k) ∧
  (∀ y, scope_admitted s' y = scope_admitted s y) ∧
  (∀ k, reserved s' k = if decide (k ∈ l.*1) then Some x else reserved s k) ∧
  transfers s' = transfers s ∧ admissions s' = admissions s.
Proof.
  revert s. induction l as [|[k o] l IH]; intros s Hnd H; cbn [rfold] in H; inv_ok; [done|].
  rewrite fmap_cons in Hnd |- *. apply NoDup_cons in Hnd as [Hk Hnd]. rename x0 into s1. apply IH in H as (E1 & E2 & E3 & E4 & E5 & E6); [|done].
  assert (∃ rs, overrides_only (set_jobs_db (set_reservations rs (jobs_db s)) s) s1 ∧ rs !! k = Some x ∧
    ∀ k', k' ≠ k → rs !! k' = reserved s k') as (rs & (ps & ns & lim & ->) & Hx1 & Hx2).
  { unfold take_component in Hx. cbn [fst snd] in Hx. inv_ok. destruct o as [y|]; inv_ok; eexists;
      (split; [first [by eapply transfer_frame|by eapply bind_frame]|]); split.
    - by rewrite lookup_insert_eq.
    - intros k' Hne. by rewrite lookup_insert_ne.
    - match goal with H : insert_unique _ _ _ = Ok _ |- _ => apply insert_unique_ok in H as [-> _] end. right. left.
    - intros k' Hne. match goal with H : insert_unique _ _ _ = Ok _ |- _ => apply insert_unique_ok in H as [Hi _] end.
      apply option_eq. intros v. rewrite Hi, list_elem_of_singleton. split; [|by left]. intros [?|[= -> _]]; done. }
  split_and!; [done..| |done|done]. intros k'. rewrite E4. cbn. destruct (decide (k' ∈ l.*1)) as [Hin|Hin].
  - rewrite decide_True; [done|]. by right.
  - destruct (decide (k' = k)) as [->|Hne].
    + rewrite decide_True; [done|]. left.
    + rewrite decide_False by by rewrite not_elem_of_cons. by apply Hx2.
Qed.

(** A reservation that is lent on becomes a loan of the newcomer. *)
Lemma new_loans s s' x (keys : list string) (ts : list (string * string * string)) at_ rows : transfers s' = rows →
  insert_unique "interrupt_scope_transfers" (transfers s)
    ((λ t : string * string * string, ((x, t.1.2), TransferRow t.1.1 t.2 "active" at_ None)) <$> ts) = Ok rows →
  (∀ y k, (∃ kind, (y, k, kind) ∈ ts) ↔ k ∈ keys ∧ reserved s k = Some y) →
  ∀ y k c, lends s' y k c ↔ lends s y k c ∨ (c = x ∧ k ∈ keys ∧ reserved s k = Some y).
Proof.
  intros E [Hi _]%insert_unique_ok Hts y k c. unfold lends. rewrite E. split.
  - intros (t & Ht & Hy & Hst). apply Hi in Ht as [Ht|Hin]; [left; by exists t|right].
    apply list_elem_of_fmap in Hin as ([[y' k'] kind] & [= -> -> ->] & Hin). cbn in *. subst y'. split; [done|].
    apply Hts. by exists kind.
  - intros [(t & Ht & ?)|(-> & Hk)]; [exists t; split; [apply Hi; by left|done]|]. apply Hts in Hk as [kind Hin].
    exists (TransferRow y kind "active" at_ None). split; [|done]. apply Hi. right. apply list_elem_of_fmap. by exists (y, k, kind).
Qed.

Lemma admit_scope snapshot edges json over `{!OverrideLaws over} s q s' v : scoped s → aq_components q ≠ [] →
  _admit_interrupt_execution snapshot edges json over s q = Ok (s', v) → scoped s'.
Proof.
  intros Hs Hne H. unfold _admit_interrupt_execution in H. cbv zeta in H.
  apply rbind_ok in H as (cf & Hcf & H). apply rbind_ok in H as (roots & _ & H).
  apply rbind_ok in H as (s1 & H1 & H). apply rbind_ok in H as (s2 & H2 & H).
  apply rbind_ok in H as (ads & Hads & H). apply rbind_ok in H as (s3 & H3 & H). apply rbind_ok in H as (trs & Htrs & H).
  destruct (conflicts_ok _ _ _ _ _ _ _ _ _ Hcf) as (C1 & C2 & C3).
  destruct (new_session_ok s _ _ _ _ _ _ _ Hs H1 H2) as (Hf & Hnd & E1 & E2 & E3 & E4 & E5 & E6).
  apply take_components_ok in H3 as (F1 & F2 & F3 & F4 & F5 & F6); [|first [exact _|by rewrite C2]..].
  set (keys := encode_component_key <$> aq_components q) in *. set (x := aq_session q) in *.
  assert (scoped (set_transfers trs s3)) as Hs3.
  { apply (scoped_interrupted s _ x keys); [|done]. split.
    - done.
    - unfold keys. by destruct (aq_components q).
    - intros k y Hk Hy. rewrite <- C2 in Hk. apply list_elem_of_fmap in Hk as ([k' o] & -> & Hin).
      destruct (C1 _ _ Hin) as [Ho Hsel]. apply Hsel. by rewrite Ho.
    - intros y. etrans; [apply F1|]. apply E1.
    - intros y k. etrans; [apply F2|]. apply E2.
    - intros y. etrans; [apply F3|]. apply E3.
    - intros k. etrans; [apply F4|]. rewrite C2. case_decide; [done|]. apply E4.
    - replace (transfers s3) with (transfers s) in Htrs by (rewrite F5; cbn; by rewrite E5).
      eapply new_loans; [reflexivity|exact Htrs|]. intros y k. rewrite C3. rewrite <- C2, list_elem_of_fmap. split.
      + intros Hin. destruct (C1 _ _ Hin) as [Ho _]. split; [by exists (k, Some y)|done].
      + intros [([k' o] & -> & Hin) Hy]. destruct (C1 _ _ Hin) as [Ho _]. cbn in *. congruence.
    - intros y Hy. cbn. rewrite F6. cbn. apply insert_unique_ok in Hads as [Hi _]. rewrite E6 in Hi. destruct Hy as [[a Ha]| ->].
      + exists a. apply Hi. by left.
      + eexists. apply Hi. right. left. }
  inv_ok.
  match goal with H : match aq_sample q with _ => _ end = Ok ?r |- _ => assert (same_scope (set_transfers trs s3) r.1) as S4 end.
  { destruct (aq_sample q); inv_ok; [|by apply same_scope_tables].
    match goal with H : select_jobs _ _ _ = Ok _ |- _ => apply select_jobs_scope in H; etrans; [|exact H] end. by apply same_scope_tables. }
  match goal with H : insert_jobs _ _ _ = Ok _ |- _ => apply insert_jobs_scope in H; pose proof (same_scope_trans _ _ _ S4 H) as S5 end.
  match goal with H : _authorize_interrupt_fences _ _ _ _ _ _ = Ok _ |- _ =>
    apply authorize_scope in H; exact (scoped_same _ _ (same_scope_trans _ _ _ S5 H) Hs3) end.
Qed.

Lemma rmap_length {A B} (f : A → result B) l ys : rmap f l = Ok ys → length ys = length l.
Proof. intros H%rmap_ok. by apply Forall2_length in H. Qed.

Lemma admit_interrupt_scope snapshot edges iso json over `{!OverrideLaws over} s q s' v : scoped s →
  admit_interrupt_execution snapshot edges iso json over s q = Ok (s', v) → scoped s'.
Proof.
  intros Hs. unfold admit_interrupt_execution. intros H. inv_ok.
  match goal with H : _admit_interrupt_execution _ _ _ _ _ _ = Ok _ |- _ => apply admit_scope in H; [done|exact _|done|] end.
  match goal with H : _ && _ && bool_decide (NoDup _) = true |- _ => apply andb_true_iff in H as [[H _]%andb_true_iff _] end.
  cbn. intros ->. by rewrite bool_decide_eq_true_2 in Hg0.
Qed.

Lemma acknowledge_request_scope s s' c o k : same_scope s s' → same_scope s (acknowledge_request c o k s').
Proof. intros H. etrans; [exact H|]. by apply same_scope_tables. Qed.

Lemma acknowledge_scope snapshot s x a g e now s' l :
  acknowledge_interrupt_pauses snapshot s x a g e now = Ok (s', l) → same_scope s s'.
Proof.
  unfold acknowledge_interrupt_pauses. intros H. inv_ok. destruct (decide _) in H; [by inv_ok|]. inv_ok.
  match goal with H : rfold _ ?s1 _ = Ok _ |- _ => revert H; apply (rfold_keeps (same_scope s)); [|by apply same_scope_tables] end.
  intros s1 r s2 _ H1. destruct (negb _); [by intros [= <-]|]. intros H2. inv_ok. by apply acknowledge_request_scope.
Qed.

Lemma settle_captures_scope snapshot at_ l : ∀ s r, settle_captures snapshot at_ s l = Ok r → same_scope s r.1.
Proof.
  induction l as [|[k row] l IH]; intros s r H; cbn [settle_captures] in H; inv_ok; [done|]. destruct x; inv_ok; [done|].
  apply IH in H. etrans; [|exact H]. by apply same_scope_tables.
Qed.

Lemma finalize_sample_scope snapshot json s x c sh sid reader s' :
  finalize_sample snapshot json s x c sh sid reader = Ok s' → same_scope s s'.
Proof.
  unfold finalize_sample. intros H. inv_ok. match goal with H : context [let '(_, _) := ?y in _] |- _ => destruct y as [roots selection] end. inv_ok.
  destruct (details s !! x); [|discriminate]. inv_ok.
  match goal with H : insert_jobs _ _ _ = Ok _ |- _ => apply insert_jobs_scope in H; etrans; [|etrans; [exact H|]] end;
  by apply same_scope_tables.
Qed.

Lemma acknowledge_all_scope s (l : list ((string * string * string) * pause_row)) :
  same_scope s (foldr (λ p s, let '(c, o, k) := p.1 in if all_acknowledged s c o k then acknowledge_request c o k s else s) s l).
Proof.
  induction l as [|[[[c o] k] r] l IH]; [done|]. cbn [foldr fst].
  destruct (all_acknowledged _ _ _ _); [by apply acknowledge_request_scope|done].
Qed.

Lemma freeze_scope snapshot edges json s q s' v :
  freeze snapshot edges json s q = Ok (s', v) → same_scope s s'.
Proof.
  unfold freeze. destruct (admissions s !! fq_session q) as [a|] eqn:Ha; [|discriminate]. intros H. inv_ok.
  destruct x as [s1 b]. match goal with H : settle_captures _ _ _ _ = Ok _ |- _ => apply settle_captures_scope in H as S1; cbn in S1 end.
  cbn [fst snd] in H. destruct b; [by inv_ok|].
  match goal with H : context [foldr ?f s1 ?l] |- _ => set (s2 := foldr f s1 l) in H; assert (same_scope s s2) as S2 end.
  { exact (same_scope_trans _ _ _ S1 (acknowledge_all_scope _ _)). }
  inv_ok. match goal with H : (if negb ?b then _ else _) = _ |- _ => destruct (negb b); [by inv_ok|] end.
  destruct (states _ !! _) as [st|]; [|discriminate]. inv_ok. etrans; [exact S2|].
  match goal with H : match fq_sample q with _ => _ end = Ok _ |- _ => rename H into Hsample end.
  match type of Hsample with context [set_admissions ?m ?s3] => assert (same_scope s2 (set_admissions m s3)) as S3 end.
  { etrans; [apply (same_scope_core s2 (set_holds (<[(fq_session q, ia_target a) := 1]> (holds (core s2))) (core s2))); done|].
    apply same_scope_tables; [done|done|]. intros y. apply insert_some. }
  destruct (fq_sample q); [apply finalize_sample_scope in Hsample; by etrans|by inv_ok].
Qed.

Lemma freeze_interrupt_scope snapshot edges iso json s q s' v :
  freeze_interrupt_target snapshot edges iso json s q = Ok (s', v) → same_scope s s'.
Proof. unfold freeze_interrupt_target. intros H. inv_ok. by eapply freeze_scope. Qed.

(** A session row whose status is kept. *)
Lemma status_alter s x f y : (∀ r, s_status (f r) = s_status r) →
  s_status <$> alter f x (sessions (jobs_db s)) !! y = session_status s y.
Proof.
  intros Hf. unfold session_status. destruct (decide (y = x)) as [->|]; [rewrite lookup_alter_eq|by rewrite lookup_alter_ne].
  destruct (_ !! x); cbn; by rewrite ?Hf.
Qed.

Lemma heartbeat_scope iso s x at_ s' b : heartbeat_execution_session iso s x at_ = Ok (s', b) → same_scope s s'.
Proof.
  unfold heartbeat_execution_session. intros H. inv_ok. destruct (running s x); [|by inv_ok]. inv_ok.
  split; try done. intros y. by apply status_alter.
Qed.

Lemma status_end x o at_ f nd s y : session_status s x = Some "running" →
  session_status (end_session x o at_ f nd s) y = if decide (y = x) then Some "terminal" else session_status s y.
Proof.
  unfold end_session, session_status. cbn. case_decide as Hy; [subst y; rewrite lookup_alter_eq|by rewrite lookup_alter_ne].
  by destruct (_ !! x).
Qed.

Lemma finish_session_scope iso s x o at_ f s' b : scoped s →
  finish_execution_session iso s x o at_ f = Ok (s', b) → scoped s'.
Proof.
  intros Hs. unfold finish_execution_session. intros H. inv_ok. destruct (running s x) eqn:Hr; cbn [negb] in H; inv_ok; [|done].
  apply (scoped_stopped s _ x); [|done]. match goal with H : bool_decide (_ = None) = true |- _ => apply bool_decide_eq_true in H end.
  split; try done. intros y. apply status_end. by apply running_status.
Qed.
