(* ===== verification/SessionSteps.v ===== *)
(** The exit of a session as a change of its scope, and the scope along any interleaving
    of the transactions of sessions. *)
From stdpp Require Import relations.
From S2P Require Import Prelude Topology Membership JobStore ComponentRows ComponentLife ComponentSafety Sessions ThreadOverrides Interrupts SelectedWork SessionLife SessionSafety.

#[local] Open Scope Z_scope.
#[local] Arguments encode_component_key : simpl never.
#[local] Arguments require_admitted_reservation_scope : simpl never.

(** ** Giving a scope back *)

Lemma elem_active_transfers s x k t : (k, t) ∈ active_transfers s x ↔ transfers s !! (x, k) = Some t ∧ tr_state t = "active".
Proof.
  unfold active_transfers, transfers_of. rewrite list_elem_of_filter, elem_of_sort_by, list_elem_of_fmap. cbn. split.
  - intros [Hst ([[x' k'] t'] & [= -> ->] & Hin)]. apply elem_of_map_to_list, map_lookup_filter_Some in Hin as [Ht Hx].
    cbn in Hx. by subst x'.
  - intros [Ht Hst]. split; [done|]. exists ((x, k), t). split; [done|]. by apply elem_of_map_to_list, map_lookup_filter_Some.
Qed.

Lemma NoDup_active_transfers s x : NoDup (active_transfers s x).*1.
Proof.
  apply NoDup_fmap_2_strong.
  - intros [k t] [k' t'] [Ht _]%elem_active_transfers [Ht' _]%elem_active_transfers E. cbn in E. subst k'. congruence.
  - unfold active_transfers, transfers_of. apply NoDup_filter. rewrite sort_by_perm.
    apply NoDup_fmap_2_strong; [|apply NoDup_map_to_list].
    intros [[x1 k1] t1] [[x2 k2] t2] [_ E1]%elem_of_map_to_list%map_lookup_filter_Some [_ E2]%elem_of_map_to_list%map_lookup_filter_Some [= -> ->].
    cbn in E1, E2. by subst.
Qed.

(** What a session that borrowed gets back to its lender. *)
Definition returnable (h : host) (s : sdb) (k : string) (t : transfer_row) : bool :=
  running s (tr_source t) && selects s (tr_source t) k
  && match sessions (jobs_db s) !! tr_source t with Some row => live h row | None => false end.

(** Loans [l] of [x] given back between [s] and [s']. *)
Record given_back (h : host) (x : string) (l : list (string * transfer_row)) (s s' : sdb) : Prop := {
  given_sessions : sessions (jobs_db s') = sessions (jobs_db s);
  given_selects : session_components (jobs_db s') = session_components (jobs_db s);
  given_columns : columns (core s') = columns (core s);
  given_states : states (core s') = states (core s);
  given_jobs : jobs (jobs_db s') = jobs (jobs_db s);
  given_admissions : admissions s' = admissions s;
  given_other k : k ∉ l.*1 → reserved s' k = reserved s k;
  given_loan k t : (k, t) ∈ l → reserved s k = Some x ∧ reserved s' k = if returnable h s k t then Some (tr_source t) else None;
  given_transfers c k : ¬ (c = x ∧ k ∈ l.*1) → transfers s' !! (c, k) = transfers s !! (c, k);
  given_finished k t : k ∈ l.*1 → transfers s' !! (x, k) = Some t → tr_state t ≠ "active"
}.

Lemma given_back_cons h x at_ k t l s s1 s' a a1 : k ∉ l.*1 → give_back h x at_ (s, a) (k, t) = Ok (s1, a1) →
  given_back h x l s1 s' → given_back h x ((k, t) :: l) s s'.
Proof.
  intros Hk Hg [G1 G2 G3 Gs Gj G4 G5 G6 G7 G8]. cbn in Hg. destruct a as [returned released]. fold (returnable h s k t) in Hg. inv_ok.
  apply bool_decide_eq_true in Hg0.
  set (rs := if returnable h s k t then <[k := tr_source t]> (reservations (jobs_db s)) else delete k (reservations (jobs_db s))).
  assert (∃ st, st ≠ "active" ∧ s1 = set_transfers (<[(x, k) := TransferRow (tr_source t) (tr_kind t) st (tr_created t) (Some at_)]> (transfers s))
    (set_jobs_db (set_reservations rs (jobs_db s)) s)) as (st & Hst & ->).
  { unfold rs. destruct (returnable h s k t); inv_ok; eexists; (split; [|reflexivity]); done. }
  assert (∀ k', k' ≠ k → rs !! k' = reserved s k') as Hrs.
  { intros k' Hne. unfold rs. destruct (returnable h s k t); [by rewrite lookup_insert_ne|by rewrite lookup_delete_ne]. }
  split; try done.
  - intros k' [Hne Hn]%not_elem_of_cons. rewrite G5 by done. by apply Hrs.
  - intros k' t' [[= -> ->]|Hin]%elem_of_cons.
    + split; [done|]. rewrite G5 by done. cbn. unfold rs. destruct (returnable h s k t); [by rewrite lookup_insert_eq|by rewrite lookup_delete_eq].
    + assert (k' ≠ k) as Hne by (intros ->; apply Hk, list_elem_of_fmap; by exists (k, t')).
      destruct (G6 _ _ Hin) as [Hr ->]. split; [|done]. cbn in Hr. by rewrite Hrs in Hr.
  - intros c k' Hn. rewrite G7; [|intros [-> ?]; apply Hn; split; [done|by right]]. cbn. rewrite lookup_insert_ne; [done|].
    intros [= <- <-]. apply Hn. split; [done|left].
  - intros k' t' [->|Hin]%elem_of_cons; [|by apply G8]. cbn [fst]. rewrite G7 by (intros [_ ?]; done). cbn.
    rewrite lookup_insert_eq. by intros [= <-].
Qed.

Lemma give_back_all h x at_ l : ∀ s a r, NoDup l.*1 → rfold (give_back h x at_) (s, a) l = Ok r → given_back h x l s r.1.
Proof.
  induction l as [|[k t] l IH]; intros s a r Hnd H; cbn [rfold] in H.
  { inv_ok. split; try done; by intros ? ? ?%not_elem_of_nil. }
  apply rbind_ok in H as ([s1 a1] & H1 & H). rewrite fmap_cons in Hnd. apply NoDup_cons in Hnd as [Hk Hnd].
  eapply given_back_cons; [exact Hk|exact H1|]. by eapply IH.
Qed.

(** The loans of a session that ends are the active transfers it reads. *)
Lemma loan_listed s y k x : lends s y k x ↔ ∃ t, (k, t) ∈ active_transfers s x ∧ tr_source t = y.
Proof. unfold lends. setoid_rewrite elem_active_transfers. naive_solver. Qed.

Lemma loan_key s k x : k ∈ (active_transfers s x).*1 ↔ ∃ y, lends s y k x.
Proof.
  rewrite list_elem_of_fmap. split.
  - intros ([k' t] & -> & Hin). exists (tr_source t). apply loan_listed. by exists t.
  - intros (y & (t & Hin & _)%loan_listed). by exists (k, t).
Qed.

Lemma finish_scope_given h s x at_ r : scoped s → _finish_interrupt_session_scope h s x at_ = Ok r →
  ∃ s0, same_scope s s0 ∧ jobs_db s0 = jobs_db s ∧ states (core s0) = states (core s) ∧ given_back h x (active_transfers s x) s0 r.1.
Proof.
  intros Hs. unfold _finish_interrupt_session_scope. destruct (admissions s !! x) as [a|] eqn:Ha; intros H.
  - apply rbind_ok in H as (s1 & H1 & H).
    assert (∃ d, s1 = set_core d s ∧ base d = base (core s) ∧ columns d = columns (core s) ∧ states d = states (core s)) as (d & -> & Hd & Hc & Hst).
    { destruct (decide _) in H1; inv_ok; [by eexists|]. exists (core s1). by destruct s1. }
    cbv zeta in H. inv_ok. match goal with H : rfold _ (?s2, _) _ = Ok _ |- _ => rename H into Hf; remember s2 as s1 eqn:E1 end.
    assert (transfers s1 = transfers s) as Ht by (subst s1; by destruct (decide (ia_state a ∈ _))). exists s1. split_and!.
    + subst s1. apply (same_scope_trans _ (set_core d s)); [by apply same_scope_core|]. destruct (decide (ia_state a ∈ _)); [|done].
      apply same_scope_tables; [done|done|]. intros y. apply insert_some.
    + subst s1. unfold jobs_db. by destruct (decide (ia_state a ∈ _)).
    + subst s1. by destruct (decide (ia_state a ∈ _)).
    + cbn [fst]. replace (active_transfers s1 x) with (active_transfers s x) in Hf by (unfold active_transfers, transfers_of; by rewrite Ht).
      eapply give_back_all; [apply NoDup_active_transfers|exact Hf].
  - inv_ok. exists s. split_and!; [done..|]. assert (active_transfers s x = []) as ->.
    { apply elem_of_nil_inv. intros [k t] Hin. assert (lends s (tr_source t) k x) as Hl by (apply loan_listed; by exists t).
      apply (scope_lent s Hs) in Hl as (_ & _ & _ & [? ?] & _). congruence. }
    by apply (give_back_all h x at_ [] s (0, 0) (s, (0, 0))); [constructor|].
Qed.

Lemma ended_given h x s s0 sf s' : scoped s → running s x = true → same_scope s s0 → jobs_db s0 = jobs_db s →
  given_back h x (active_transfers s x) s0 sf →
  (∀ y k, lends s y k x → running s y = true → is_Some (reserved sf k)) →
  (∀ y, session_status s' y = if decide (y = x) then Some "terminal" else session_status sf y) →
  (∀ y k, selects s' y k = selects sf y k) → (∀ y, scope_admitted s' y = scope_admitted sf y) →
  (∀ k, reserved s' k = if decide (reserved sf k = Some x) then None else reserved sf k) →
  transfers s' = transfers sf → (∀ y, is_Some (admissions sf !! y) → is_Some (admissions s' !! y)) → ended s s' x.
Proof.
  intros Hs Hr [S1 S2 S3 S4 S5 S6] Hj [G1 G2 G3 Gs Gj G4 G5 G6 G7 G8] Hsrc E1 E2 E3 E4 E5 E6. split.
  - intros y. rewrite E1. case_decide; [done|]. unfold session_status. by rewrite G1, Hj.
  - done.
  - intros y k. rewrite E2. unfold selects. by rewrite G2, Hj.
  - intros y. rewrite E3, <- S3. unfold scope_admitted. by rewrite G3.
  - intros y k c. unfold lends. rewrite E5, <- S5. destruct (decide (c = x ∧ k ∈ (active_transfers s x).*1)) as [[-> Hin]|Hn].
    + split; [|by intros [_ ?]]. intros (t & Ht & _ & Hst). by apply G8 in Ht.
    + rewrite G7 by done. split; [|by intros [? _]]. intros Hl. split; [done|]. intros ->. apply Hn. split; [done|].
      apply loan_key. exists y. unfold lends. by rewrite <- S5.
  - intros y k Hl. apply loan_listed in Hl as Hin. destruct Hin as (t & Hin & Hy). destruct (G6 k t Hin) as [Hx Hsf].
    rewrite S4 in Hx. split; [done|]. rewrite E4, Hsf. destruct (scope_lent s Hs _ _ _ Hl) as (_ & _ & _ & _ & Hsel & _).
    destruct (returnable h s0 k t) eqn:Hret; rewrite ?Hy.
    + apply andb_true_iff in Hret as [[Hrt _]%andb_true_iff _]. rewrite Hy, (running_eq s) in Hrt by apply S1. rewrite Hrt.
      rewrite decide_False; [done|]. intros [= ->]. by apply (scope_lender s Hs) in Hl.
    + rewrite decide_False by done. destruct (running s y) eqn:Hry; [|done]. destruct (Hsrc y k Hl Hry) as [o Ho]. congruence.
  - intros k Hno. rewrite E4, (G5 k), S4; [done|]. rewrite loan_key. intros [y Hy]. by eapply Hno.
  - intros y Hy. apply E6. rewrite G4. by apply S6.
Qed.

Lemma accepted_running s x b : require_admitted_reservation_scope s x = Ok b → running s x = true.
Proof. unfold require_admitted_reservation_scope. intros H. inv_ok. by apply andb_true_iff in Hg as [? _]. Qed.

(** The sessions a borrower's loans come from still own what came back to them. *)
Lemma sources_hold s x s0 sf rs h : scoped s → same_scope s s0 → jobs_db s0 = jobs_db s →
  given_back h x (active_transfers s x) s0 sf →
  rmap (λ y, if running sf y then require_admitted_reservation_scope sf y else Ok true)
    (py_sorted_set (tr_source ∘ snd <$> active_transfers s x)) = Ok rs →
  ∀ y k, lends s y k x → running s y = true → is_Some (reserved sf k).
Proof.
  intros Hs [S1 S2 S3 S4 S5 S6] Hj [G1 G2 G3 Gs Gj G4 G5 G6 G7 G8] Hc%rmap_ok y k Hl Hr.
  assert (y ∈ py_sorted_set (tr_source ∘ snd <$> active_transfers s x)) as Hin.
  { apply elem_of_py_sorted_set, list_elem_of_fmap. apply loan_listed in Hl as (t & Hin & <-). by exists (k, t). }
  apply list_elem_of_lookup in Hin as [i Hi]. destruct (Forall2_lookup_l _ _ _ _ _ Hc Hi) as (b & _ & Hb). cbn in Hb.
  destruct (scope_lent s Hs _ _ _ Hl) as (_ & _ & _ & _ & Hsel & Hm).
  assert (running sf y = running s y) as Hry by (apply running_eq; unfold session_status; by rewrite G1, Hj).
  rewrite Hry, Hr in Hb. eapply accepted_covered; [exact Hb| |].
  - rewrite <- Hm, <- S3. unfold scope_admitted. by rewrite G3.
  - rewrite <- Hsel. unfold selects. by rewrite G2, Hj.
Qed.

Lemma delete_reserved x s k : reserved (delete_reservations x s) k = if decide (reserved s k = Some x) then None else reserved s k.
Proof.
  unfold delete_reservations. cbn. case_decide as Hd.
  - apply map_lookup_filter_None. right. intros y Hy. cbn. congruence.
  - destruct (reserved s k) as [y|] eqn:Hy; [|apply map_lookup_filter_None; by left].
    apply map_lookup_filter_Some. split; [done|]. cbn. congruence.
Qed.

(** Publication stops the components it names, and nothing else starts or leases a job. *)
Record publishes (ks : list string) (s s' : sdb) : Prop := {
  publishes_running k : (st_lifecycle <$> states (core s') !! k) = Some "running" →
    (st_lifecycle <$> states (core s) !! k) = Some "running" ∧ k ∉ ks;
  publishes_jobs : jobs (jobs_db s') = jobs (jobs_db s)
}.

Lemma settle_interrupt_publishes snapshot edges json s x o at_ s' b :
  _settle_interrupt_component snapshot edges json s x o at_ = Ok (s', b) →
  states (core s') = states (core s) ∧ jobs (jobs_db s') = jobs (jobs_db s).
Proof.
  unfold _settle_interrupt_component. destruct (admissions s !! x) as [a|]; [|by intros [= <- _]].
  destruct (negb _); [by intros [= <- _]|]. intros H. inv_ok.
  match goal with H : (if ?c then _ else _) = Ok _ |- _ => destruct c; [destruct (retained_pointer _ _); [|discriminate]|] end; by inv_ok.
Qed.

Lemma publish_in_session_publishes snapshot edges json env s x o at_ s' : oc_lifecycle o ≠ "running" →
  publish_in_session snapshot edges json env s x o at_ = Ok s' → publishes [encode_component_key (oc_component o)] s s'.
Proof.
  intros Ho. unfold publish_in_session. intros H. inv_ok. rename x0 into d. destruct x1 as [s1 b]. cbn [fst].
  match goal with H : publish_component _ _ _ _ = _ |- _ => apply publish_component_base in H as Hb; rename H into Hp end.
  match goal with H : _settle_interrupt_component _ _ _ _ _ _ _ = _ |- _ => apply settle_interrupt_publishes in H as [E1 E2] end.
  split; [|rewrite E2; unfold jobs_db; cbn; by destruct Hb as [-> _]]. intros k. rewrite E1. cbn [core set_core states set_holds].
  unfold publish_component in Hp. destruct (read_pending _ _ _) as [[pe sh]|]; [|discriminate]. inv_ok.
  match type of Hp with match states ?d1 !! _ with _ => _ end = _ => assert (states d1 = states (core s)) as E3 by (by destruct (negb _)); rewrite E3 in Hp end.
  destruct (states (core s) !! _) as [r|]; [|discriminate]. inv_ok. cbn [states set_holds set_pending set_component_states].
  destruct (decide (k = encode_component_key (oc_component o))) as [->|Hk].
  - rewrite lookup_insert_eq. cbn. congruence.
  - rewrite lookup_insert_ne by done. intros H. split; [done|]. by rewrite list_elem_of_singleton.
Qed.

Lemma publish_all_publishes snapshot edges json env x at_ os : Forall (λ o, oc_lifecycle o ≠ "running") os → ∀ s s',
  publish_all_in_session snapshot edges json env s x os at_ = Ok s' → publishes (encode_component_key ∘ oc_component <$> os) s s'.
Proof.
  unfold publish_all_in_session. induction 1 as [|o os Ho _ IH]; intros s s' H; cbn [rfold] in H; inv_ok.
  { split; [|done]. intros k Hk. split; [done|]. apply not_elem_of_nil. }
  match goal with H : publish_in_session _ _ _ _ _ _ _ _ = _ |- _ => apply publish_in_session_publishes in H as [P1 P2]; [|done] end.
  apply IH in H as [Q1 Q2]. split; [|congruence]. intros k [Hk Hn]%Q1. apply P1 in Hk as [Hk Hn1]. split; [done|].
  rewrite fmap_cons, not_elem_of_cons. split; [|done]. intros ->. apply Hn1. by apply list_elem_of_singleton.
Qed.

(** A normalised outcome ends its component. *)
Lemma normalized_ends os os' : _normalize_component_terminal_outcomes os = Ok os' → Forall (λ o, oc_lifecycle o ≠ "running") os'.
Proof.
  intros [Hn _]%normalize_ok. eapply Forall_impl; [exact Hn|]. intros o (_ & Ho & _) E. rewrite E in Ho.
  by apply list_elem_of_In in Ho as [|[|[|[]]]].
Qed.

Lemma ended_overrides s x s' ps ns l : ended s s' x → ended s (set_overrides ps ns l s') x.
Proof. by intros []; split. Qed.

(** The whole exit: publication leaves the scope alone, the rest ends the session, every
    reservation is accounted for, and the scope is at rest. *)
Lemma settle_ended snapshot edges json env `{!OverrideLaws (overrides env)} h s x o at_ f now os fns s' st : scoped s →
  settle_execution_session snapshot edges json env h s x o at_ f now os fns = Ok (s', st) →
  (∃ sp, same_scope s sp ∧ ended sp s' x) ∧
  se_released st + default 0 (se_returned st) = Z.of_nat (length (owned_keys s x)) ∧
  (∀ k, reserved s k = Some x → (st_lifecycle <$> states (core s') !! k) ≠ Some "running") ∧
  (∀ k c n, reserved s k = Some x → decode_component_key k = Ok c → n ∈ c → leased s' n = false).
Proof.
  intros Hs H. unfold settle_execution_session in H. cbv zeta in H.
  apply rbind_ok in H as (b & Hacc & H). apply accepted_running in Hacc as Hr.
  apply rbind_ok in H as (os' & Hos & H). apply rbind_ok in H as (nd & _ & H). apply rbind_ok in H as (? & _ & H).
  apply rbind_ok in H as ([] & Hkeys%require_ok & H). apply rbind_ok in H as (cs & Hcs & H).
  apply rbind_ok in H as ([] & Hjobs%require_ok & H). apply rbind_ok in H as (? & _ & H).
  apply rbind_ok in H as (sp & Hp & H). apply publish_all_scope in Hp as Sp.
  apply (publish_all_publishes _ _ _ _ _ _ _ (normalized_ends _ _ Hos)) in Hp as [P1 P2].
  apply rbind_ok in H as ([sf q] & Hf & H). apply rbind_ok in H as (rs & Hrs & H). cbn [fst snd] in *.
  pose proof (scoped_same _ _ Sp Hs) as Hsp.
  assert (running sp x = true) as Hrp by (rewrite <- Hr; apply running_eq, Sp).
  destruct (finish_scope_given _ _ _ _ _ Hsp Hf) as (s0 & S0 & Hj & Hst0 & Hg). cbn [fst] in Hg.
  pose proof (sources_hold _ _ _ _ _ _ Hsp S0 Hj Hg Hrs) as Hsrc.
  assert (running sf x = true) as Hrf by (rewrite <- Hrp; apply running_eq; unfold session_status; by rewrite (given_sessions _ _ _ _ _ Hg), Hj).
  match type of H with context [end_session x o at_ f ?nd ?sn] => set (sd := delete_reservations x (end_session x o at_ f nd sn)) in * end.
  assert (ended sp sd x) as He.
  { eapply (ended_given h x sp s0 sf); try done.
    - intros y. etrans; [apply status_end|done]. by apply running_status.
    - intros k. etrans; [apply delete_reserved|]. done. }
  assert (overrides_only sd s' ∧ se_released st + default 0 (se_returned st) = Z.of_nat (length (owned_keys s x)))
    as [(ps & nos & lim & ->) Hcount].
  { inv_ok. match goal with H : (_ =? Z.of_nat (length (owned_keys s x))) = true |- _ => apply Z.eqb_eq in H end.
    destruct q as [n [m|]]; cbn [fst snd] in *; inv_ok; (split; [by eapply clear_frame|]); cbn; lia. }
  split; [exists sp; split; [done|]; by eapply ended_overrides|]. split; [done|]. split.
  - intros k Hk Hrun. change (states (core (set_overrides ps nos lim sd))) with (states (core sf)) in Hrun.
    rewrite (given_states _ _ _ _ _ Hg), Hst0 in Hrun. apply P1 in Hrun as [Hrun Hn]. apply Hn.
    rewrite forallb_forall in Hkeys. apply elem_owned in Hk.
    specialize (Hkeys k). rewrite bool_decide_eq_true in Hkeys. apply Hkeys, list_elem_of_In. unfold running_keys.
    by apply list_elem_of_filter.
  - intros k c n Hk Hc Hn. apply negb_true_iff in Hjobs. unfold leased.
    change (jobs (jobs_db (set_overrides ps nos lim sd))) with (jobs (jobs_db sf)). rewrite (given_jobs _ _ _ _ _ Hg), Hj, P2. fold (leased s n).
    apply not_true_iff_false. intros Hl. apply not_true_iff_false in Hjobs. apply Hjobs, existsb_exists. exists n. split; [|done].
    apply list_elem_of_In, elem_of_elements. apply rmap_ok in Hcs. apply elem_owned in Hk.
    apply list_elem_of_lookup in Hk as [i Hi]. destruct (Forall2_lookup_l _ _ _ _ _ Hcs Hi) as (c' & Hci & Hc'). 
    apply elem_of_nodes_of. exists c. split; [|done]. assert (c' = c) as <- by congruence. by eapply list_elem_of_lookup_2.
Qed.

Lemma settle_scope snapshot edges json env `{!OverrideLaws (overrides env)} h s x o at_ f now os fns s' st : scoped s →
  settle_execution_session snapshot edges json env h s x o at_ f now os fns = Ok (s', st) → scoped s'.
Proof.
  intros Hs H. apply settle_ended in H as ((sp & Hsp & He) & _); [|exact _|done]. eapply scoped_ended; [exact He|]. by eapply scoped_same.
Qed.

(** ** Any interleaving of transactions *)

(** One committed transaction, whatever it decides over the tables not modelled;
    [step_limits] changes thread limits, [step_other] is every transaction on jobs, component
    states, results, causes or holds that leaves sessions and reservations alone. *)
Inductive session_step (snapshot : string → result ComponentTopologySnapshot)
    (edges : string → result (list (string * string))) (iso json : string → bool) (s : sdb) : sdb → Prop :=
  | step_create env `{!OverrideLaws (overrides env)} q s' v :
      create_execution_session snapshot edges iso json env s q = Ok (s', v) → session_step snapshot edges iso json s s'
  | step_reserve_scope env `{!OverrideLaws (overrides env)} x shape s' b :
      reserve snapshot edges json env s x shape = Ok (s', b) → session_step snapshot edges iso json s s'
  | step_interrupt over `{!OverrideLaws over} q s' v :
      admit_interrupt_execution snapshot edges iso json over s q = Ok (s', v) → session_step snapshot edges iso json s s'
  | step_acknowledge x a g e now s' l : acknowledge_interrupt_pauses snapshot s x a g e now = Ok (s', l) →
      session_step snapshot edges iso json s s'
  | step_freeze q s' v : freeze_interrupt_target snapshot edges iso json s q = Ok (s', v) →
      session_step snapshot edges iso json s s'
  | step_heartbeat x at_ s' b : heartbeat_execution_session iso s x at_ = Ok (s', b) → session_step snapshot edges iso json s s'
  | step_publish env x o p at_ s' b : finish_component snapshot edges json env s x o p at_ = Ok (s', b) →
      session_step snapshot edges iso json s s'
  | step_finish_session x o at_ f s' b : finish_execution_session iso s x o at_ f = Ok (s', b) →
      session_step snapshot edges iso json s s'
  | step_settle_session env `{!OverrideLaws (overrides env)} h x o at_ f now os fns s' st :
      settle_execution_session snapshot edges json env h s x o at_ f now os fns = Ok (s', st) → session_step snapshot edges iso json s s'
  | step_limits s' : overrides_only s s' → session_step snapshot edges iso json s s'
  | step_other d : sessions (base d) = sessions (jobs_db s) → session_components (base d) = session_components (jobs_db s) →
      reservations (base d) = reservations (jobs_db s) → columns d = columns (core s) →
      session_step snapshot edges iso json s (set_core d s).

Lemma step_scoped snapshot edges iso json s s' : scoped s → session_step snapshot edges iso json s s' → scoped s'.
Proof.
  intros Hs. destruct 1 as [env ? q s' v H|env ? x shape s' b H|over ? q s' v H|x a g e now s' l H|q s' v H|x at_ s' b H|env x o p at_ s' b H
    |x o at_ f s' b H|env ? h x o at_ f now os fns s' st H|s' H|d H1 H2 H3 H4].
  - by eapply create_scope.
  - by eapply reserve_scope.
  - by eapply admit_interrupt_scope.
  - apply acknowledge_scope in H. by eapply scoped_same.
  - apply freeze_interrupt_scope in H. by eapply scoped_same.
  - apply heartbeat_scope in H. by eapply scoped_same.
  - apply finish_component_scope in H. by eapply scoped_same.
  - by eapply finish_session_scope.
  - by eapply settle_scope.
  - by eapply scoped_same, Hs; apply overrides_scope.
  - eapply scoped_same; [|exact Hs]. split; intros; unfold session_status, selects, scope_admitted, jobs_db; cbn;
      by rewrite ?H1, ?H2, ?H3, ?H4.
Qed.

Lemma steps_scoped snapshot edges iso json s s' : rtc (session_step snapshot edges iso json) s s' → scoped s → scoped s'.
Proof. induction 1 as [|s s1 s' H1 _ IH]; [done|]. intros Hs. apply IH. by eapply step_scoped. Qed.

(** No session was ever created. *)
Definition unused (s : sdb) : Prop :=
  sessions (jobs_db s) = ∅ ∧ session_components (jobs_db s) = ∅ ∧ reservations (jobs_db s) = ∅ ∧ transfers s = ∅.

Lemma scoped_unused s : unused s → scoped s.
Proof.
  intros (E1 & E2 & E3 & E4).
  assert (∀ x, session_status s x = None) as Hn by (intros x; unfold session_status; by rewrite E1, lookup_empty).
  assert (∀ x k, selects s x k = false) as Hsel by (intros x k; unfold selects; rewrite E2; by apply bool_decide_eq_false_2, not_elem_of_empty).
  assert (∀ x k c, ¬ lends s x k c) as Hl by (intros x k c (t & Ht & _); by rewrite E4, lookup_empty in Ht).
  split.
  - intros x k. by rewrite Hsel.
  - intros x [? Hx]. by rewrite Hn in Hx.
  - intros x [? Hx]. by rewrite Hn in Hx.
  - intros k x. by rewrite E3, lookup_empty.
  - by intros x k c ?%Hl.
  - by intros x k c ?%Hl.
  - by intros x k c c' ?%Hl.
  - intros x k Hr. apply running_status in Hr. by rewrite Hn in Hr.
Qed.

(** C9: Whatever sessions are created, reserve, interrupt one another, pause, freeze, publish
    and end, in any order, the cleanup check of every running session succeeds: it answers
    whether the session reserved its scope, and never reports a lost reservation or a broken
    or circular chain of loans. *)
Theorem admitted_scope_kept snapshot edges iso json s s' x :
  unused s → rtc (session_step snapshot edges iso json) s s' → running s' x = true →
  require_admitted_reservation_scope s' x = Ok (bool_decide (scope_admitted s' x = Some 1)).
Proof. intros Hs Hsteps Hr. apply scope_accepted; [|done]. eapply steps_scoped; [exact Hsteps|by apply scoped_unused]. Qed.

(** C10: A session that ends is terminal and owns nothing; what it borrowed is with its lender
    exactly when the lender still runs, what it reserved itself is free, every other session
    keeps its status and its reservations; the reported counts add up to what the session
    owned, none of it is left running and no job of it is left leased. *)
Theorem session_exit_settles snapshot edges iso json env `{!OverrideLaws (overrides env)} h s0 s x o at_ f now os fns s' st :
  unused s0 → rtc (session_step snapshot edges iso json) s0 s →
  settle_execution_session snapshot edges json env h s x o at_ f now os fns = Ok (s', st) →
  session_status s' x = Some "terminal" ∧ owned_keys s' x = [] ∧ active_transfers s' x = [] ∧
  (∀ y k, lends s y k x → reserved s' k = if running s y then Some y else None) ∧
  (∀ k, reserved s k = Some x → (∀ y, ¬ lends s y k x) → reserved s' k = None) ∧
  (∀ k y, reserved s k = Some y → y ≠ x → reserved s' k = Some y) ∧
  (∀ y, y ≠ x → session_status s' y = session_status s y) ∧
  se_released st + default 0 (se_returned st) = Z.of_nat (length (owned_keys s x)) ∧
  (∀ k, reserved s k = Some x → (st_lifecycle <$> states (core s') !! k) ≠ Some "running") ∧
  (∀ k c n, reserved s k = Some x → decode_component_key k = Ok c → n ∈ c → leased s' n = false).
Proof.
  intros Hu Hsteps H. pose proof (steps_scoped _ _ _ _ _ _ Hsteps (scoped_unused _ Hu)) as Hs.
  destruct (settle_ended _ _ _ _ _ _ _ _ _ _ _ _ _ _ _ Hs H) as ((sp & Hsp & He) & Hcount & Hidle & Hjobs).
  pose proof (scoped_same _ _ Hsp Hs) as Hsps. destruct Hsp as [S1 S2 S3 S4 S5 S6].
  pose proof (λ y k c, lends_transfers s sp y k c S5) as EL. destruct He as [E1 _ E2 E3 E4 E5 E6 E7].
  assert (∀ k y, reserved s k = Some y → (∀ z, ¬ lends s z k x) → reserved s' k = if decide (y = x) then None else Some y) as Hres.
  { intros k y Hy Hno. rewrite E6, S4, Hy; [by repeat case_decide; congruence|]. intros z Hz%EL. by eapply Hno. }
  split_and!.
  - by rewrite E1, decide_True.
  - apply elem_of_nil_inv. intros k Hk%elem_owned. destruct (lent_or_not sp k x) as [[z Hz]|Hno].
    + destruct (E5 z k Hz) as [Hx Hz']. rewrite Hk in Hz'. destruct (running sp z); [|done]. injection Hz' as <-.
      by apply (scope_lender sp Hsps) in Hz.
    + rewrite E6 in Hk by done. by repeat case_decide.
  - apply elem_of_nil_inv. intros [k t] Hin. assert (lends s' (tr_source t) k x) as [_ ?]%E4 by (apply loan_listed; by exists t). done.
  - intros y k Hl%EL. rewrite (proj2 (E5 y k Hl)). by rewrite (running_eq s sp).
  - intros k Hx Hno. rewrite (Hres k x) by done. by rewrite decide_True.
  - intros k y Hy Hne. rewrite (Hres k y); [by rewrite decide_False|done|]. intros z Hz%EL. apply E5 in Hz as [Hx _]. rewrite S4 in Hx. congruence.
  - intros y Hy. by rewrite E1, decide_False.
  - done.
  - done.
  - done.
Qed.

(** ** Runs *)

(** The tables after a transaction, and before it when it failed. *)
Definition after {A} (s : sdb) (r : result (sdb * A)) : sdb := match r with Ok (s', _) => s' | Err _ => s end.

Lemma after_ok {A} s (r : result (sdb * A)) : is_ok r = true → ∃ a, r = Ok (after s r, a).
Proof. destruct r as [[s' a]|]; [by exists a|done]. Qed.

Module sample.
Definition ka := encode_component_key ["a"].
Definition kb := encode_component_key ["b"].
Definition decode (shape : string) : result ComponentTopologySnapshot :=
  if bool_decide (shape = "shape") then Ok (MkSnapshot "shape" [["a"]; ["b"]]) else raise ValueError "not a shape".
Definition edges (shape : string) : result (list (string * string)) := Ok [("a", "b")].
Definition yes (text : string) : bool := true.
Definition here : host := Host "here" (λ _, true) (λ _, None) (λ _, Some 0).
Definition over : thread_overrides := stored_overrides decode yes yes yes yes yes here.
Definition env : surroundings := Surroundings over (λ _ _, Ok ()) (λ _ _, Ok ()) (λ _ _ _ _ _, Ok ()).

(** A graph [a -> b] with nothing executed. *)
Definition core0 : cdb := Cdb
  (Db ∅ ∅ ∅ ∅ ∅ ∅ {[1 := "shape"]} {[(ka, 1); (kb, 1)]} {["a" := "queued"; "b" := "queued"]} [] 0) ∅
  (Tables (Some 0) {[ka := 0; kb := 0]} {["a" := ka; "b" := kb]})
  {[ka := StateRow 1 None None "queued" None None 0 0; kb := StateRow 1 None None "queued" None None 0 0]} ∅ ∅ ∅ ∅.
Definition s0 : sdb := Sdb core0 ∅ ∅ ∅ ∅ ∅ ∅ ∅ ∅ ∅ ∅ ∅ ∅ ∅ None.

(** A main session over both components. *)
Definition creation := create_execution_session decode edges yes yes env s0
  (SessionRequest "m" "main" "run" ["a"] [["a"]; ["b"]] [] [] "t0" "here" 7 None "{}" "shape" None None).
Definition s1 : sdb := after s0 creation.
Definition reservation := reserve decode edges yes env s1 "m" "shape".
Definition s2 : sdb := after s1 reservation.

(** [a] runs a job for it. *)
Definition job (e : option string) : job_row := JobRow 1 RUNNING e (Some 7) (Some 8) (Some "t1") None None None None.
Definition core3 : cdb :=
  let d := jobs_db s2 in
  set_component_states (<[ka := StateRow 1 None None "running" None None 0 0]> (states (core s2)))
    (set_base (Db {[("a", 1) := job (Some "e")]} {[("a", 1) := InstanceRow "00000000000000000000000000000001" (Some "e") None]}
      {["e" := OwnerRow ("a", 1) 1 "m" ka "00000000000000000000000000000001" 1 0 None]}
      (sessions d) (session_components d) (reservations d) (shapes d) (definitions d) (nodes d) [] 0) (core s2)).
Definition s3 : sdb := set_core core3 s2.

(** An interrupt over [b]. *)
Definition request : admission_request := AdmissionRequest "i" "interrupt" ["b"] [["b"]] [] [["a"]] true "t2" "here" 9 None "{}" "shape" None None.
Definition interrupt := admit_interrupt_execution decode edges yes yes (overrides env) s3 request.
Definition s4 : sdb := after s3 interrupt.

(** The interrupt ends while the main session still runs. *)
Definition settled := settle_execution_session decode edges yes env here s4 "i" "finished" "t3" "[]" "t3" [] [].
Definition s5 : sdb := after s4 settled.

Lemma started : unused s0.
Proof. by vm_compute. Qed.

Lemma lent : lends s4 "m" kb "i".
Proof. exists (TransferRow "m" "direct-parent" "active" "t2" None). split_and!; by vm_compute. Qed.

Lemma creates : session_step decode edges yes yes s0 s1.
Proof. destruct (after_ok s0 creation) as [v H]; [by vm_compute|]. unfold creation at 1 in H. exact (step_create _ _ _ _ _ env _ _ _ H). Qed.

Lemma reserves : session_step decode edges yes yes s1 s2.
Proof. destruct (after_ok s1 reservation) as [v H]; [by vm_compute|]. unfold reservation at 1 in H. exact (step_reserve_scope _ _ _ _ _ env _ _ _ _ H). Qed.

Lemma executes : session_step decode edges yes yes s2 s3.
Proof. by apply (step_other _ _ _ _ s2 core3). Qed.

Lemma interrupts : ∃ v, admit_interrupt_execution decode edges yes yes (overrides env) s3 request = Ok (s4, v).
Proof. destruct (after_ok s3 interrupt) as [v H]; [by vm_compute|]. exists v. unfold interrupt at 1 in H. exact H. Qed.

Lemma interrupted_run : rtc (session_step decode edges yes yes) s0 s4.
Proof.
  eapply rtc_l; [exact creates|]. eapply rtc_l; [exact reserves|]. eapply rtc_l; [exact executes|].
  apply rtc_once. destruct interrupts as [v H]. exact (step_interrupt _ _ _ _ _ over _ _ _ H).
Qed.

Lemma settles : settle_execution_session decode edges yes env here s4 "i" "finished" "t3" "[]" "t3" [] [] = Ok (s5, Settlement 0 (Some 1)).
Proof. vm_compute. reflexivity. Qed.
End sample.

Lemma admitted_scope_kept_witness : require_admitted_reservation_scope sample.s4 "m" = Ok (bool_decide (scope_admitted sample.s4 "m" = Some 1)).
Proof. apply (admitted_scope_kept _ _ _ _ _ _ _ sample.started sample.interrupted_run). by vm_compute. Defined.

Lemma session_exit_settles_witness : owned_keys sample.s5 "i" = [] ∧ reserved sample.s5 sample.kb = if running sample.s4 "m" then Some "m" else None.
Proof.
  destruct (session_exit_settles _ _ _ _ _ _ _ _ _ _ _ _ _ _ _ _ _ sample.started sample.interrupted_run sample.settles) as (_ & Ho & _ & Hl & _).
  split; [exact Ho|]. apply Hl, sample.lent.
Defined.
