(* ===== verification/InterruptSafety.v ===== *)
(** What explicit interrupts guarantee: the predecessors they captured stay paused until the
    interrupt is settled, a frozen target has no unacknowledged predecessor execution, and
    the components fences look at are exactly the ancestors of a component. *)
From stdpp Require Import relations.
From S2P Require Import Prelude Topology Membership JobStore ComponentRows ComponentLife ComponentSafety Sessions ThreadOverrides Interrupts SelectedWork SessionLife SessionSafety SessionSteps.

#[local] Open Scope Z_scope.
#[local] Arguments encode_component_key : simpl never.
#[local] Arguments require_admitted_reservation_scope : simpl never.

(** ** Pauses *)

Definition admission_state (s : sdb) (x : string) : option string := ia_state <$> admissions s !! x.
Definition request_state (s : sdb) (q : string * string * string) : option string := pr_state <$> pauses s !! q.

Abbreviation open_admission := [Some "admitted"; Some "frozen"].
Abbreviation open_request := [Some "requested"; Some "acknowledged"].

(** The child still pauses the component of the owner. *)
Definition pause_open (s : sdb) (child owner k : string) : Prop :=
  admission_state s child ∈ open_admission ∧ request_state s (child, owner, k) ∈ open_request.

(** Until it is settled. *)
Definition pause_kept (s : sdb) (child owner k : string) : Prop :=
  admission_state s child = Some "settled" ∨ pause_open s child owner k.

Lemma pause_blocks s child owner c : pause_open s child owner (encode_component_key c) →
  child ∈ read_interrupt_claim_blockers s owner c.
Proof.
  intros [Ha Hp]. unfold read_interrupt_claim_blockers. apply elem_of_py_sorted_set, elem_of_app. left.
  unfold request_state in Hp. destruct (pauses s !! _) as [r|] eqn:Hr; [|by apply list_elem_of_In in Hp as [|[|[]]]].
  apply list_elem_of_omap. exists ((child, owner, encode_component_key c), r). split; [by apply elem_of_map_to_list|].
  cbn. rewrite !bool_decide_eq_true_2; [done|exact Ha| |done|done].
  cbn in Hp. apply list_elem_of_In in Hp as [[= E]|[[= E]|[]]]; rewrite <- E; by repeat constructor.
Qed.

Lemma blocked_raises s x c child : child ∈ read_interrupt_claim_blockers s x c →
  _require_interrupt_component_admission s x c = raise InterruptAdmissionPaused "Component admission is paused for interrupt session(s)".
Proof.
  intros Hin. unfold _require_interrupt_component_admission. rewrite bool_decide_eq_false_2; [done|].
  intros E. rewrite E in Hin. by apply not_elem_of_nil in Hin.
Qed.

Definition keeps_pauses (s s' : sdb) : Prop := ∀ child owner k, pause_kept s child owner k → pause_kept s' child owner k.

#[export] Instance keeps_pauses_refl : Reflexive keeps_pauses.
Proof. by intros s child owner k. Qed.

#[export] Instance keeps_pauses_trans : Transitive keeps_pauses.
Proof. intros a b c H1 H2 child owner k H. by apply H2, H1. Qed.

(** States that only move forward. *)
Lemma keeps_progress s s' :
  (∀ y, admission_state s y = Some "settled" → admission_state s' y = Some "settled") →
  (∀ y, admission_state s y ∈ open_admission → admission_state s' y ∈ open_admission) →
  (∀ q, request_state s q ∈ open_request → request_state s' q ∈ open_request) → keeps_pauses s s'.
Proof. intros H1 H2 H3 child owner k [H|[Ha Hp]]; [left|right; split]; auto. Qed.

(** Tables that only grow. *)
Lemma keeps_grow s s' : (∀ y a, admissions s !! y = Some a → admissions s' !! y = Some a) →
  (∀ q r, pauses s !! q = Some r → pauses s' !! q = Some r) → keeps_pauses s s'.
Proof.
  intros H1 H2. assert (∀ y v, admission_state s y = Some v → admission_state s' y = Some v) as Ha.
  { unfold admission_state. intros y v (a & Ha & ->)%fmap_Some. by rewrite (H1 _ _ Ha). }
  assert (∀ q v, request_state s q = Some v → request_state s' q = Some v) as Hp.
  { unfold request_state. intros q v (r & Hr & ->)%fmap_Some. by rewrite (H2 _ _ Hr). }
  apply keeps_progress; [auto| |].
  - intros y Hy. destruct (admission_state s y) eqn:E; [by rewrite (Ha _ _ E)|by apply list_elem_of_In in Hy as [|[|[]]]].
  - intros q Hq. destruct (request_state s q) eqn:E; [by rewrite (Hp _ _ E)|by apply list_elem_of_In in Hq as [|[|[]]]].
Qed.

Lemma keeps_same s s' : admissions s' = admissions s → pauses s' = pauses s → keeps_pauses s s'.
Proof. intros E1 E2. apply keeps_grow; [by rewrite E1|by rewrite E2]. Qed.

(** One interrupt is settled and only its requests are released. *)
Lemma keeps_settled x s s' : admission_state s' x = Some "settled" →
  (∀ y, y ≠ x → admissions s' !! y = admissions s !! y) →
  (∀ y o k, y ≠ x → pauses s' !! (y, o, k) = pauses s !! (y, o, k)) → keeps_pauses s s'.
Proof.
  intros Hx H1 H2 child owner k. destruct (decide (child = x)) as [->|Hne]; [by left|].
  unfold pause_kept, pause_open, admission_state, request_state. by rewrite H1, H2.
Qed.

(** ** Every transaction keeps pauses *)

Lemma settled_release x at_ (s : sdb) a : ia_state a = "settled" →
  keeps_pauses s (set_admissions (<[x := a]> (admissions s)) (release_pauses x at_ s)).
Proof.
  intros Ha. apply (keeps_settled x).
  - unfold admission_state. cbn. rewrite lookup_insert_eq. cbn. by rewrite Ha.
  - intros y Hy. cbn. by rewrite lookup_insert_ne.
  - intros y o k Hy. cbn. rewrite map_lookup_imap. destruct (pauses s !! _); [|done]. cbn. unfold open_pause. cbn.
    by rewrite bool_decide_eq_false_2.
Qed.

Lemma settle_interrupt_pauses snapshot edges json s x o at_ s' b :
  _settle_interrupt_component snapshot edges json s x o at_ = Ok (s', b) → keeps_pauses s s'.
Proof.
  unfold _settle_interrupt_component. destruct (admissions s !! x) as [a|]; [|by intros [= <- _]].
  destruct (negb _); [by intros [= <- _]|]. intros H. inv_ok. rename x0 into s2.
  match goal with H : (if ?c then _ else _) = Ok s2 |- _ => rename H into Hf end.
  set (s1 := release_pauses x at_ _) in Hf. assert (admissions s2 = admissions s1 ∧ pauses s2 = pauses s1) as [E1 E2].
  { destruct (_ && _) in Hf; [|by injection Hf as <-]. destruct (retained_pointer _ _); [|discriminate]. by inv_ok. }
  etrans; [eapply (settled_release x at_ s (AdmissionRow _ _ _ "settled" _ _ _ _ _ _)); done|].
  apply keeps_same; [|exact E2]. cbn [set_admissions admissions]. by rewrite E1.
Qed.

(** The interrupt tables of two states agree. *)
Abbreviation same_pauses s s' := (admissions s' = admissions s ∧ pauses s' = pauses s).

Lemma insert_session_pauses s x row c dt s' : insert_session s x row c dt = Ok s' → same_pauses s s'.
Proof. unfold insert_session. intros H. by inv_ok. Qed.

Lemma insert_components_pauses s x ks s' : insert_components s x ks = Ok s' → same_pauses s s'.
Proof. unfold insert_components. intros H. by inv_ok. Qed.

Lemma insert_jobs_pauses s x roots s' : insert_jobs s x roots = Ok s' → same_pauses s s'.
Proof. unfold insert_jobs. intros H. by inv_ok. Qed.

Lemma select_jobs_pauses s x t s' : select_jobs s x t = Ok s' → same_pauses s s'.
Proof. unfold select_jobs. destruct (details s !! x); [|discriminate]. intros H. by inv_ok. Qed.

Lemma authorize_pauses snapshot edges s x cs at_ s' : _authorize_interrupt_fences snapshot edges s x cs at_ = Ok s' → same_pauses s s'.
Proof. unfold _authorize_interrupt_fences. intros H. by inv_ok. Qed.

Lemma overrides_pauses s s' : overrides_only s s' → same_pauses s s'.
Proof. by intros (ps & ns & l & ->). Qed.

Lemma reserve_pauses snapshot edges json env `{!OverrideLaws (overrides env)} s x shape s' b :
  reserve snapshot edges json env s x shape = Ok (s', b) → same_pauses s s'.
Proof. unfold reserve. intros H. inv_ok. match goal with H : bind_pending _ _ _ _ = Ok _ |- _ => by apply bind_frame, overrides_pauses in H end. Qed.

(** Follow the named operations through a transaction. *)
Ltac same_pauses :=
  repeat match goal with
  | H : insert_session _ _ _ _ _ = Ok _ |- _ => apply insert_session_pauses in H as [? ?]
  | H : insert_components _ _ _ = Ok _ |- _ => apply insert_components_pauses in H as [? ?]
  | H : insert_jobs _ _ _ = Ok _ |- _ => apply insert_jobs_pauses in H as [? ?]
  | H : select_jobs _ _ _ = Ok _ |- _ => apply select_jobs_pauses in H as [? ?]
  | H : _authorize_interrupt_fences _ _ _ _ _ _ = Ok _ |- _ => apply authorize_pauses in H as [? ?]
  | H : reserve _ _ _ _ _ _ _ = Ok ?r |- _ => is_var r; destruct r
  | H : reserve _ _ _ _ _ _ _ = Ok _ |- _ => apply (reserve_pauses _ _ _ _) in H as [? ?]
  end; cbn [admissions pauses set_core set_jobs_db set_admissions set_parents set_transfers set_pauses set_paused set_session_jobs set_details fst snd] in *.

Lemma create_pauses snapshot edges iso json env `{!OverrideLaws (overrides env)} s q s' v :
  create_execution_session snapshot edges iso json env s q = Ok (s', v) → same_pauses s s'.
Proof.
  unfold create_execution_session. intros H. apply rbind_ok in H as ([[start cs] ps] & _ & H). inv_ok.
  match goal with H : match rq_sample q with _ => _ end = Ok _ |- _ => destruct (rq_sample q); inv_ok end; same_pauses; split; congruence.
Qed.

Lemma take_components_pauses over `{!OverrideLaws over} x l s s' : rfold (take_component over x) s l = Ok s' → same_pauses s s'.
Proof.
  apply (rfold_keeps (λ s1, same_pauses s s1)); [|done]. intros s1 [k o] s2 _ [E1 E2] H. unfold take_component in H. inv_ok.
  cbn [snd] in H. destruct o; inv_ok.
  - match goal with H : transfer_overrides _ _ _ _ _ = Ok _ |- _ => by apply transfer_frame, overrides_pauses in H as [-> ->] end.
  - match goal with H : bind_pending _ _ _ _ = Ok _ |- _ => by apply bind_frame, overrides_pauses in H as [-> ->] end.
Qed.

(** The rows an interrupt adds. *)
Lemma admit_tables snapshot edges json over `{!OverrideLaws over} s q s' v : _admit_interrupt_execution snapshot edges json over s q = Ok (s', v) →
  ∃ a cf, ia_state a = "admitted" ∧
    _read_interrupt_admission_conflicts snapshot edges s (aq_start q) (aq_components q) (aq_predecessors q) (aq_shape q) true = Ok cf ∧
    insert_unique "interrupt_admissions" (admissions s) [(aq_session q, a)] = Ok (admissions s') ∧
    insert_unique "interrupt_pause_requests" (pauses s) (pause_rows (aq_session q) (aq_started q) (cf_executions cf)) = Ok (pauses s').
Proof.
  intros H. unfold _admit_interrupt_execution in H. cbv zeta in H. apply rbind_ok in H as (cf & Hcf & H). inv_ok.
  match goal with H : rfold _ _ _ = Ok _ |- _ => apply (take_components_pauses _) in H as [? ?] end.
  match goal with H : insert_unique "interrupt_admissions" _ [(_, ?r)] = Ok _ |- _ => exists r, cf end.
  split; [done|]. split; [done|].
  match goal with H : match aq_sample q with _ => _ end = Ok _ |- _ => destruct (aq_sample q); inv_ok end; same_pauses; split;
    match goal with H1 : insert_unique ?t ?m _ = Ok ?m' |- insert_unique ?t ?n _ = Ok ?n' =>
      replace n' with m' by congruence; replace n with m by congruence; exact H1 end.
Qed.

Lemma insert_unique_grows {K V} `{Countable K} t (m m' : gmap K V) rows k v : insert_unique t m rows = Ok m' → m !! k = Some v → m' !! k = Some v.
Proof. intros [Hi _]%insert_unique_ok Hk. apply Hi. by left. Qed.

Lemma admit_keeps snapshot edges json over `{!OverrideLaws over} s q s' v : _admit_interrupt_execution snapshot edges json over s q = Ok (s', v) → keeps_pauses s s'.
Proof.
  intros H. apply (admit_tables _ _ _ _) in H as (a & cf & _ & _ & H1 & H2). apply keeps_grow; intros ? ? Hold; by eapply insert_unique_grows.
Qed.

Lemma acknowledge_request_keeps c o k s : admissions (acknowledge_request c o k s) = admissions s ∧ keeps_pauses s (acknowledge_request c o k s).
Proof.
  split; [done|]. apply keeps_progress; [done|done|]. intros q. unfold request_state. cbn.
  destruct (decide (q = (c, o, k))) as [->|]; [rewrite lookup_alter_eq|by rewrite lookup_alter_ne].
  destruct (pauses s !! _) as [r|]; [|done]. cbn. case_bool_decide as Hr; [intros _; cbn; right; left|done].
Qed.

Lemma acknowledge_keeps snapshot s x a g e now s' l : acknowledge_interrupt_pauses snapshot s x a g e now = Ok (s', l) → keeps_pauses s s'.
Proof.
  unfold acknowledge_interrupt_pauses. intros H. inv_ok. destruct (decide _) in H; [by inv_ok|]. inv_ok.
  match goal with H : rfold _ ?s1 _ = Ok _ |- _ => revert H; apply (rfold_keeps (keeps_pauses s)); [|by apply keeps_same] end.
  intros s1 r s2 _ H1. destruct (negb _); [by intros [= <-]|]. intros H2. inv_ok. etrans; [exact H1|].
  apply acknowledge_request_keeps.
Qed.

Lemma acknowledge_all_keeps s (l : list ((string * string * string) * pause_row)) :
  let s' := foldr (λ p s, let '(c, o, k) := p.1 in if all_acknowledged s c o k then acknowledge_request c o k s else s) s l in
  admissions s' = admissions s ∧ keeps_pauses s s'.
Proof.
  induction l as [|[[[c o] k] r] l IH]; [done|]. cbn [foldr fst]. destruct (all_acknowledged _ _ _ _); [|exact IH].
  destruct IH as [E1 K1]. match goal with |- context [acknowledge_request c o k ?s1] => destruct (acknowledge_request_keeps c o k s1) as [E2 K2] end.
  split; [by rewrite E2|]. by etrans.
Qed.

Lemma settle_captures_keeps snapshot at_ l : ∀ s r, settle_captures snapshot at_ s l = Ok r → same_pauses s r.1.
Proof.
  induction l as [|[k row] l IH]; intros s r H; cbn [settle_captures] in H; inv_ok; [done|]. destruct x; inv_ok; [done|].
  by apply IH in H.
Qed.

Lemma finalize_sample_pauses snapshot json s x c sh sid reader s' :
  finalize_sample snapshot json s x c sh sid reader = Ok s' →
  same_pauses s s' ∧ core s' = core s ∧ paused s' = paused s ∧ frozen s' = frozen s.
Proof.
  unfold finalize_sample. intros H. inv_ok. match goal with H : context [let '(_, _) := ?y in _] |- _ => destruct y as [roots selection] end. inv_ok.
  destruct (details s !! x); [|discriminate]. inv_ok.
  match goal with H : insert_jobs _ _ _ = Ok _ |- _ => unfold insert_jobs in H end. by inv_ok.
Qed.

(** The captured executions of a child. *)
Definition captures_of (s : sdb) (x : string) : list ((string * string) * paused_row) :=
  map_to_list (filter (λ p : (string * string) * paused_row, p.1.1 = x) (paused s)).

(** The requests of the child whose captures are all acknowledged. *)
Definition acknowledge_all (s : sdb) (x : string) : sdb :=
  foldr (λ (p : (string * string * string) * pause_row) s, let '(c, o, k) := p.1 in if all_acknowledged s c o k then acknowledge_request c o k s else s) s
    (filter (λ p : (string * string * string) * pause_row, p.1.1.1 = x ∧ pr_state p.2 = "requested") (map_to_list (pauses s))).

(** The row that holds parent [p] in the state observed, at the shape and of the graph it
    was produced under. *)
Definition records_parent (s : sdb) (p : key * state_snapshot) (r : frozen_row) : Prop :=
  ∃ st, states (core s) !! encode_component_key p.1 = Some st ∧ shapes (jobs_db s) !! st_shape st = Some (ss_shape_json p.2) ∧
    r = FrozenRow (st_shape st) (ss_lifecycle p.2) (ss_lineage p.2) (if ss_misaligned p.2 then 1 else 0) (ss_alignment p.2).

(** What a freeze leaves: it waits, or the target is frozen and held. *)
Record frozen_tables snapshot edges (s s' : sdb) (q : freeze_request) (s1 : sdb) (a b : admission_row) : Prop := {
  ft_admissions : admissions s' = <[fq_session q := b]> (admissions s);
  ft_frozen : ia_state b = "frozen" ∧ ia_target b = ia_target a ∧ ia_lineage b = fq_lineage q;
  ft_pauses : pauses s' = pauses (acknowledge_all s1 (fq_session q));
  ft_paused : paused s' = paused s1;
  ft_held : holds (core s') !! (fq_session q, ia_target a) = Some 1;
  ft_alone y : y ≠ fq_session q → holds (core s') !! (y, ia_target a) = None;
  ft_parents : ∃ c ps, decode_component_key (ia_target a) = Ok c ∧ _component_predecessors snapshot edges (fq_shape q) c = Ok ps ∧
    list_to_set (fq_parents q).*1 =@{gset key} list_to_set ps;
  ft_unchanged p : p ∈ fq_parents q → read_component_state_snapshot snapshot (core s) p.1 = Ok (Some p.2);
  ft_recorded k r : frozen s' !! k = Some r ↔
    frozen s !! k = Some r ∨ ∃ p, p ∈ fq_parents q ∧ k = (fq_session q, encode_component_key p.1) ∧ records_parent s p r
}.

Lemma parents_unchanged_ok snapshot s ps p : parents_unchanged snapshot s ps = Ok true → p ∈ ps →
  read_component_state_snapshot snapshot (core s) p.1 = Ok (Some p.2).
Proof.
  induction ps as [|p' ps IH]; [by intros _ ?%not_elem_of_nil|]. cbn [parents_unchanged]. intros H. inv_ok.
  case_bool_decide as Hp; [|discriminate]. intros [->|Hin]%elem_of_cons; [|by apply IH]. by subst.
Qed.

Lemma settle_captures_core snapshot at_ l : ∀ s r, settle_captures snapshot at_ s l = Ok r → core r.1 = core s ∧ frozen r.1 = frozen s.
Proof.
  induction l as [|[k row] l IH]; intros s r H; cbn [settle_captures] in H; inv_ok; [done|]. destruct x; inv_ok; [done|].
  by apply IH in H.
Qed.

Lemma acknowledge_all_core s x :
  core (acknowledge_all s x) = core s ∧ paused (acknowledge_all s x) = paused s ∧ frozen (acknowledge_all s x) = frozen s.
Proof.
  unfold acknowledge_all. induction (filter _ _) as [|[[[c o] k] r] l IH]; [done|]. cbn [foldr fst].
  by destruct (all_acknowledged _ _ _ _).
Qed.

(** The rows the freeze writes. *)
Lemma frozen_rows s x ps rows k r : rmap (frozen_row_of s x) ps = Ok rows →
  (k, r) ∈ rows ↔ ∃ p, p ∈ ps ∧ k = (x, encode_component_key p.1) ∧ records_parent s p r.
Proof.
  intros H%rmap_ok. assert (∀ p q, frozen_row_of s x p = Ok q ↔ q.1 = (x, encode_component_key p.1) ∧ records_parent s p q.2) as Hone.
  { intros p [k' r']. unfold frozen_row_of, records_parent. destruct (states (core s) !! _) as [st|]; [|split; [done|by intros (_ & ? & ? & _)]].
    case_bool_decide as Hs; cbn [require rbind fst snd].
    - split; [intros [= <- <-]; eauto|]. by intros (-> & ? & [= <-] & _ & ->).
    - split; [done|]. by intros (_ & ? & [= <-] & ? & _). }
  induction H as [|p q ps rows Hp _ IH]; [split; [by intros ?%not_elem_of_nil|by intros (? & ?%not_elem_of_nil & _)]|].
  rewrite elem_of_cons, IH. split.
  - intros [<-|(p' & ? & ?)]; [exists p; split; [left|by apply (Hone p (k, r))]|exists p'; split; [by right|done]].
  - intros (p' & [->|Hin]%elem_of_cons & Hkr); [left|right; eauto]. apply (Hone p (k, r)) in Hkr. congruence.
Qed.

Lemma freeze_tables snapshot edges json s q s' v :
  freeze snapshot edges json s q = Ok (s', v) →
  ∃ a s1 w, admissions s !! fq_session q = Some a ∧ ia_state a = "admitted" ∧
    settle_captures snapshot (fq_at q) s (captures_of s (fq_session q)) = Ok (s1, w) ∧
    ((v = None ∧ admissions s' = admissions s ∧ keeps_pauses s s') ∨
     (w = false ∧ ∃ b, frozen_tables snapshot edges s s' q s1 a b)).
Proof.
  unfold freeze. destruct (admissions s !! fq_session q) as [a|] eqn:Ha; [|discriminate]. intros H. inv_ok.
  destruct x as [s1 w]. exists a, s1, w. split; [done|]. apply bool_decide_eq_true in Hg. split; [done|]. split; [done|].
  apply settle_captures_keeps in Hx as Hs1. destruct Hs1 as [A1 P1]. apply settle_captures_core in Hx as [C1 Z1]. cbn [fst snd] in *.
  destruct w; [inv_ok; left; split_and!; [done..|by apply keeps_same]|].
  destruct (acknowledge_all_keeps s1 (filter (λ p, p.1.1.1 = fq_session q ∧ pr_state p.2 = "requested") (map_to_list (pauses s1)))) as [A2 K2].
  destruct (acknowledge_all_core s1 (fq_session q)) as (C2 & P2 & Z2).
  fold (acknowledge_all s1 (fq_session q)) in H, A2, K2. set (s2 := acknowledge_all s1 (fq_session q)) in *.
  inv_ok. destruct x1; cbn [negb] in H.
  2:{ inv_ok. left. split_and!; [done|congruence|]. etrans; [by apply (keeps_same s s1)|done]. }
  right. split; [done|]. destruct (states _ !! _) as [st|]; [|discriminate]. inv_ok.
  match goal with H : match fq_sample q with _ => _ end = Ok ?s3 |- _ => rename H into Hs end.
  match type of Hs with context [set_admissions (<[_ := ?b]> _)] => exists b end.
  match goal with H : forallb _ (map_to_list (holds _)) = true |- _ => rename H into Hfree end.
  assert (∀ y, holds (core s2) !! (y, ia_target a) = None) as Hnone.
  { intros y. destruct (holds (core s2) !! (y, ia_target a)) as [n|] eqn:Hy; [|done]. exfalso.
    rewrite forallb_forall in Hfree. specialize (Hfree ((y, ia_target a), n)).
    rewrite bool_decide_eq_true_2 in Hfree by done. apply diff_false_true. apply Hfree, list_elem_of_In. by apply elem_of_map_to_list. }
  match type of Hs with context [set_admissions ?m ?s3] => set (sx := set_admissions m s3) in * end.
  assert (same_pauses sx s' ∧ core s' = core sx ∧ paused s' = paused sx ∧ frozen s' = frozen sx) as ([E1 E2] & E3 & E4 & E5).
  { destruct (fq_sample q); [by apply finalize_sample_pauses in Hs|by inv_ok]. }
  split.
  - rewrite E1. subst sx. cbn. by rewrite A2, A1.
  - done.
  - by rewrite E2.
  - rewrite E4. subst sx. cbn. exact P2.
  - rewrite E3. subst sx. cbn. by rewrite lookup_insert_eq.
  - intros y Hy. rewrite E3. subst sx. cbn. rewrite lookup_insert_ne by congruence. apply Hnone.
  - match goal with H1 : decode_component_key _ = Ok ?c, H2 : _component_predecessors _ _ _ _ = Ok ?ps |- _ => exists c, ps end.
    split; [done|]. split; [done|].
    by match goal with H : bool_decide (list_to_set _ = _) = true |- _ => apply bool_decide_eq_true in H end.
  - intros p Hp. match goal with H : parents_unchanged _ _ _ = Ok true |- _ => apply (parents_unchanged_ok _ _ _ p) in H; [|done] end.
    by rewrite <- C1, <- C2.
  - intros k r. rewrite E5. subst sx. cbn [frozen set_admissions set_frozen].
    match goal with H : insert_unique _ _ _ = Ok _ |- _ => apply insert_unique_ok in H as [Hi _]; rewrite Hi; clear Hi end.
    match goal with H : rmap _ (fq_parents q) = Ok _ |- _ => rewrite (frozen_rows _ _ _ _ k r H) end.
    unfold records_parent, jobs_db in *. cbn [frozen core set_core]. rewrite Z2, Z1. cbn. by rewrite C2, C1.
Qed.

Lemma freeze_request_keeps snapshot edges json s q s' v : freeze snapshot edges json s q = Ok (s', v) → keeps_pauses s s'.
Proof.
  intros (a & s1 & w & Ha & Hst & Hc & [(_ & _ & K)|(_ & b & F)])%freeze_tables; [exact K|].
  apply settle_captures_keeps in Hc as [A1 P1]. cbn [fst] in A1, P1. destruct (acknowledge_all_keeps s1 (filter (λ p : (string * string * string) * pause_row,
    p.1.1.1 = fq_session q ∧ pr_state p.2 = "requested") (map_to_list (pauses s1)))) as [A2 K2].
  fold (acknowledge_all s1 (fq_session q)) in A2, K2. destruct F as [F1 (F2 & _) F3 _ _ _ _ _ _].
  transitivity (acknowledge_all s1 (fq_session q)).
  { etrans; [by apply (keeps_same s s1)|exact K2]. }
  assert (∀ y, admission_state s' y = if decide (y = fq_session q) then Some "frozen" else admission_state s y) as Ea.
  { intros y. unfold admission_state. rewrite F1. destruct (decide (y = fq_session q)) as [->|];
      [rewrite lookup_insert_eq; cbn; by rewrite F2|by rewrite lookup_insert_ne]. }
  assert (∀ y, admission_state (acknowledge_all s1 (fq_session q)) y = admission_state s y) as Eb.
  { intros y. unfold admission_state. by rewrite A2, A1. }
  apply keeps_progress.
  - intros y. rewrite Ea, Eb. destruct (decide (y = fq_session q)) as [->|]; [|done].
    unfold admission_state. rewrite Ha. cbn. congruence.
  - intros y. rewrite Ea, Eb. destruct (decide (y = fq_session q)); [intros _; right; left|done].
  - intros p. unfold request_state. by rewrite F3.
Qed.

Lemma freeze_keeps snapshot edges iso json s q s' v :
  freeze_interrupt_target snapshot edges iso json s q = Ok (s', v) → keeps_pauses s s'.
Proof. unfold freeze_interrupt_target. intros H. inv_ok. by eapply freeze_request_keeps. Qed.

Lemma publish_in_session_keeps snapshot edges json env s x o at_ s' :
  publish_in_session snapshot edges json env s x o at_ = Ok s' → keeps_pauses s s'.
Proof.
  unfold publish_in_session. intros H. inv_ok. destruct x1 as [s1 b]. cbn [fst].
  match goal with H : _settle_interrupt_component _ _ _ _ _ _ _ = _ |- _ => apply settle_interrupt_pauses in H end.
  etrans; [|eassumption]. by apply keeps_same.
Qed.

Lemma finish_component_keeps snapshot edges json env s x o p at_ s' b :
  finish_component snapshot edges json env s x o p at_ = Ok (s', b) → keeps_pauses s s'.
Proof.
  unfold finish_component. intros H. inv_ok. destruct x0 as [d c]. cbn [fst snd] in H. destruct c; inv_ok; [|by apply keeps_same].
  destruct x0 as [s1 b1]. cbn [fst]. match goal with H : _settle_interrupt_component _ _ _ _ _ _ _ = _ |- _ => apply settle_interrupt_pauses in H end.
  etrans; [|eassumption]. by apply keeps_same.
Qed.

Lemma heartbeat_pauses iso s x at_ s' b : heartbeat_execution_session iso s x at_ = Ok (s', b) → same_pauses s s'.
Proof. unfold heartbeat_execution_session. intros H. inv_ok. destruct (running s x); by inv_ok. Qed.

Lemma finish_session_pauses iso s x o at_ f s' b : finish_execution_session iso s x o at_ f = Ok (s', b) → same_pauses s s'.
Proof. unfold finish_execution_session. intros H. inv_ok. destruct (running s x); cbn [negb] in H; by inv_ok. Qed.

Lemma finish_scope_keeps h s x at_ r : _finish_interrupt_session_scope h s x at_ = Ok r → keeps_pauses s r.1.
Proof.
  unfold _finish_interrupt_session_scope. destruct (admissions s !! x) as [a|] eqn:Ha; intros H; [|by inv_ok].
  apply rbind_ok in H as (s1 & H1 & H). assert (same_pauses s s1) as [E1 E2] by (destruct (decide _) in H1; by inv_ok).
  cbv zeta in H. inv_ok. cbn [fst]. etrans; [by apply (keeps_same s s1)|].
  match goal with H : rfold _ (?s2, _) _ = Ok ?acc |- _ => rename H into Hf; transitivity s2 end.
  - destruct (decide (ia_state a ∈ _)); [by apply (settled_release x at_ s1)|done].
  - refine (rfold_keeps (λ q : sdb * (Z * Z), keeps_pauses _ q.1) _ _ _ _ _ _ Hf); [|done].
    intros [s2 [n m]] [k t] [s3 c] _ K Hg. cbn [fst] in *. etrans; [exact K|]. cbn in Hg. inv_ok.
    match goal with H : (if ?b then _ else _) = _ |- _ => destruct b end; inv_ok; by apply keeps_same.
Qed.

Lemma settle_keeps snapshot edges json env `{!OverrideLaws (overrides env)} h s x o at_ f now os fns s' st :
  settle_execution_session snapshot edges json env h s x o at_ f now os fns = Ok (s', st) → keeps_pauses s s'.
Proof.
  intros H. unfold settle_execution_session in H. cbv zeta in H.
  do 7 apply rbind_ok in H as (? & _ & H). apply rbind_ok in H as (? & _ & H).
  apply rbind_ok in H as (sp & Hp & H). apply rbind_ok in H as ([sf q] & Hf & H). apply finish_scope_keeps in Hf. cbn [fst snd] in *.
  assert (keeps_pauses s sp) as Kp.
  { revert Hp. unfold publish_all_in_session. apply (rfold_keeps (keeps_pauses s)); [|done]. intros s1 o1 s2 _ K H1.
    etrans; [exact K|]. by eapply publish_in_session_keeps. }
  assert (same_pauses sf s') as [E1 E2] .
  { inv_ok. match goal with H : clear_overrides _ _ _ = Ok _ |- _ => apply clear_frame, overrides_pauses in H as [? ?] end.
    destruct q as [n [m|]]; cbn [fst snd] in *; by inv_ok. }
  etrans; [exact Kp|]. etrans; [exact Hf|]. by apply keeps_same.
Qed.

Lemma step_keeps snapshot edges iso json s s' : session_step snapshot edges iso json s s' → keeps_pauses s s'.
Proof.
  destruct 1 as [env ? q s' v H|env ? x shape s' b H|over ? q s' v H|x a g e now s' l H|q s' v H|x at_ s' b H|env x o p at_ s' b H
    |x o at_ f s' b H|env ? h x o at_ f now os fns s' st H|s' H|d H1 H2 H3 H4].
  - apply (create_pauses _ _ _ _ _) in H as [? ?]. by apply keeps_same.
  - apply (reserve_pauses _ _ _ _) in H as [? ?]. by apply keeps_same.
  - unfold admit_interrupt_execution in H. inv_ok. by eapply admit_keeps.
  - by eapply acknowledge_keeps.
  - by eapply freeze_keeps.
  - apply heartbeat_pauses in H as [? ?]. by apply keeps_same.
  - by eapply finish_component_keeps.
  - apply finish_session_pauses in H as [? ?]. by apply keeps_same.
  - by eapply settle_keeps.
  - apply overrides_pauses in H as [? ?]. by apply keeps_same.
  - by apply keeps_same.
Qed.

Lemma steps_keep snapshot edges iso json s s' : rtc (session_step snapshot edges iso json) s s' → keeps_pauses s s'.
Proof. induction 1 as [|s s1 s' H1 _ IH]; [done|]. etrans; [by eapply step_keeps|done]. Qed.

(** ** Paused predecessors *)

Lemma captured snapshot s preds ex c n a : _active_predecessor_executions snapshot s preds = Ok ex →
  c ∈ preds → n ∈ c → a ∈ active_jobs_of s n →
  ∃ ob ow, (c, ob) ∈ ex ∧ ob_owner ob = Some ow ∧ reserved s (encode_component_key c) = Some (ow_session ow).
Proof.
  intros H Hc Hn Ha. unfold _active_predecessor_executions in H. inv_ok.
  match goal with H : rmap _ _ = Ok ?l |- _ => apply rmap_ok in H as Hf; clear H end.
  apply list_elem_of_lookup in Hc as [j Hj]. destruct (Forall2_lookup_l _ _ _ _ _ Hf Hj) as (l & Hl & Hin). cbn beta in Hin.
  apply rmap_ok in Hin as Hg. assert (a ∈ (node ← c; active_jobs_of s node)) as [m Hm]%list_elem_of_lookup.
  { apply list_elem_of_bind. by exists n. }
  destruct (Forall2_lookup_l _ _ _ _ _ Hg Hm) as ([c' ob] & Hob & E). cbn beta in E. inv_ok.
  destruct x0 as [ob'|]; [|discriminate]. inv_ok. repeat match goal with H : _ && _ = true |- _ => apply andb_true_iff in H as [? ?] end.
  match goal with H : is_active ?ob = true |- _ => rename ob into o; unfold is_active in H; apply andb_true_iff in H as [_ [ow How]%bool_decide_eq_true] end.
  exists o, ow. split_and!; [|done|].
  - apply list_elem_of_join. exists l. split; [by eapply list_elem_of_lookup_2|by eapply list_elem_of_lookup_2].
  - match goal with H : bool_decide (reserved s _ = _) = true |- _ => apply bool_decide_eq_true in H as -> end. by rewrite How.
Qed.

Lemma session_component_of l m : _session_component l = Ok m → m = component_key l.
Proof.
  unfold _session_component. intros H. inv_ok. f_equal.
  match goal with H : rmap _ _ = Ok _ |- _ => apply rmap_ok in H as Hf; clear -Hf end.
  induction Hf as [|n n1 l l1 Hn _ IH]; [done|]. apply validate_node_name_ok in Hn as ->. exact (f_equal (cons n) IH).
Qed.

(** C21: When an interrupt is admitted, every job that may still run in one of its direct
    predecessors belongs to the session that reserved that predecessor, and until the
    interrupt is settled, whatever transactions happen, that session can neither start the
    predecessor nor claim a job of it: every such claim is answered with the pause. *)
Theorem interrupt_pauses_predecessors snapshot edges iso json over `{!OverrideLaws over} s q s1 v c n a :
  admit_interrupt_execution snapshot edges iso json over s q = Ok (s1, v) →
  c ∈ aq_predecessors q → n ∈ component_key c → a ∈ active_jobs_of s n →
  ∃ owner, reserved s (encode_component_key c) = Some owner ∧
    ∀ s', rtc (session_step snapshot edges iso json) s1 s' →
      admission_state s' (aq_session q) = Some "settled" ∨
      (_require_interrupt_component_admission s' owner (component_key c) =
         raise InterruptAdmissionPaused "Component admission is paused for interrupt session(s)" ∧
       ∀ o bs s2 outs j b, claim_executions snapshot edges o s' bs = Ok (s2, outs) → bs !! j = Some b →
         b_session b = Some owner → b_component b = Some (component_key c) → b_node b ∈ component_key c →
         outs !! j = Some (Err (Exc InterruptAdmissionPaused "interrupt admission paused"))).
Proof.
  intros H Hc Hn Ha. unfold admit_interrupt_execution in H. inv_ok.
  match goal with H : _admit_interrupt_execution _ _ _ _ _ ?r = Ok _ |- _ => apply (admit_tables _ _ _ _) in H as (b & cf & Hb & Hcf & H1 & H2); cbn [aq_session aq_started aq_predecessors] in * end.
  match goal with H : rmap _session_component (aq_predecessors q) = Ok ?l |- _ => apply rmap_ok in H as Hf; clear H; assert (component_key c ∈ l) as Hin end.
  { apply list_elem_of_lookup in Hc as [j Hj]. destruct (Forall2_lookup_l _ _ _ _ _ Hf Hj) as (m & Hm & E).
    apply session_component_of in E as ->. by eapply list_elem_of_lookup_2. }
  assert (∃ owner, reserved s (encode_component_key c) = Some owner ∧
    ((aq_session q, owner, encode_component_key c), PauseRow "requested" (aq_started q) None) ∈ pause_rows (aq_session q) (aq_started q) (cf_executions cf))
    as (owner & Ho & Hrow).
  { unfold _read_interrupt_admission_conflicts in Hcf. inv_ok. cbn [cf_executions].
    match goal with H : _active_predecessor_executions _ _ _ = Ok _ |- _ =>
      destruct (captured _ _ _ _ (component_key c) n a H) as (ob & ow & Hex & How & Hres); [by apply elem_of_py_sorted|done|done|] end.
    rewrite encode_component in Hres. exists (ow_session ow). split; [done|]. unfold pause_rows. apply list_elem_of_fmap.
    exists (ow_session ow, encode_component_key c). split; [done|]. apply elem_of_remove_dups, list_elem_of_omap.
    exists (component_key c, ob). split; [done|]. cbn [fst snd]. rewrite How. cbn. by rewrite encode_component. }
  exists owner. split; [done|]. intros s' Hsteps. apply steps_keep in Hsteps.
  assert (pause_kept s1 (aq_session q) owner (encode_component_key (component_key c))) as Hk.
  { right. rewrite encode_component. unfold pause_open, admission_state, request_state.
    apply insert_unique_ok in H1 as [Hi _], H2 as [Hj _]. rewrite (proj2 (Hi _ _) (or_intror (list_elem_of_here _ _))).
    rewrite (proj2 (Hj _ _) (or_intror Hrow)). cbn. rewrite Hb. split; left. }
  apply Hsteps in Hk as [|Hk]; [by left|right]. apply pause_blocks in Hk. split; [by eapply blocked_raises|].
  intros o bs s2 outs j b2 Hcl Hb2 Hbx Hbc Hbn. eapply paused_claim_refused; try done. intros E. rewrite E in Hk. by apply not_elem_of_nil in Hk.
Qed.

(** ** Frozen targets *)

Lemma capture_of_same snapshot s s' e r : jobs_db s' = jobs_db s → capture_of snapshot s' e r = capture_of snapshot s e r.
Proof. unfold capture_of. by intros ->. Qed.

Lemma settle_captures_ok snapshot at_ l : NoDup l.*1 → ∀ s s1, settle_captures snapshot at_ s l = Ok (s1, false) →
  (∀ k r, (k, r) ∈ l → capture_of snapshot s k.2 r = Ok Settled ∧ paused s1 !! k = Some (stamp at_ r)) ∧
  (∀ k, k ∉ l.*1 → paused s1 !! k = paused s !! k).
Proof.
  induction l as [|[k r] l IH]; intros Hnd s s1 H; cbn [settle_captures] in H; inv_ok.
  { split; [by intros ? ? ?%not_elem_of_nil|done]. }
  destruct x; [discriminate|]. rewrite fmap_cons in Hnd. apply NoDup_cons in Hnd as [Hk Hnd]. cbn [fst] in Hk.
  apply (IH Hnd) in H as [H1 H2]. split.
  - intros k' r' [[= -> ->]|Hin]%elem_of_cons.
    + split; [done|]. rewrite H2 by done. cbn. by rewrite lookup_insert_eq.
    + destruct (H1 _ _ Hin) as [Hc Hp]. split; [|done]. by rewrite <- Hc.
  - intros k' [Hne Hn]%not_elem_of_cons. rewrite H2 by done. cbn. by rewrite lookup_insert_ne.
Qed.

Lemma elem_captures s x k r : (k, r) ∈ captures_of s x ↔ paused s !! k = Some r ∧ k.1 = x.
Proof. unfold captures_of. by rewrite elem_of_map_to_list, map_lookup_filter_Some. Qed.

(** A request whose captures are acknowledged does not stay requested. *)
Lemma acknowledge_all_requests s l p :
  (∀ c o k r, ((c, o, k), r) ∈ l → all_acknowledged s c o k = true) →
  let s' := foldr (λ (p : (string * string * string) * pause_row) s, let '(c, o, k) := p.1 in
    if all_acknowledged s c o k then acknowledge_request c o k s else s) s l in
  paused s' = paused s ∧ (request_state s' p = Some "requested" → request_state s p = Some "requested" ∧ p ∉ l.*1).
Proof.
  induction l as [|[[[c o] k] r] l IH]; intros Hall; cbn [foldr fst].
  { split; [done|]. intros H. split; [done|apply not_elem_of_nil]. }
  destruct IH as [E1 E2]; [intros c' o' k' r' Hin; apply (Hall _ _ _ r'); by right|].
  match goal with |- context [all_acknowledged ?t c o k] => set (s1 := t) in *; assert (all_acknowledged s1 c o k = true) as -> end.
  { unfold all_acknowledged. rewrite E1. apply (Hall _ _ _ r). left. }
  split; [done|]. unfold request_state at 1. cbn. destruct (decide (p = (c, o, k))) as [->|Hne].
  - rewrite lookup_alter_eq. destruct (pauses s1 !! _) as [r1|]; [|done]. cbn. case_bool_decide; [done|]. cbn. congruence.
  - rewrite lookup_alter_ne by done. intros [H1 H2]%E2. split; [done|]. apply not_elem_of_cons. by split.
Qed.

Lemma all_acknowledged_ok s x o k : (∀ e r, paused s !! (x, e) = Some r → is_Some (px_acknowledged r)) → all_acknowledged s x o k = true.
Proof.
  intros H. unfold all_acknowledged. apply forallb_forall. intros [[c e] r] Hin%list_elem_of_In%elem_of_map_to_list. cbn.
  apply negb_true_iff. destruct (decide (c = x)) as [->|Hne]; [|by rewrite (bool_decide_eq_false_2 (c = x))].
  destruct (H e r Hin) as [t ->]. rewrite (bool_decide_eq_false_2 (Some t = None)) by done. apply andb_false_r.
Qed.

(** Frozen parents are the observed ones, with their components normalised. *)
Lemma normal_parents (l : list (key * state_snapshot)) l' :
  rmap (λ p, let! m := _session_component p.1 in Ok (m, p.2)) l = Ok l' → l' = (λ p, (component_key p.1, p.2)) <$> l.
Proof.
  intros H%rmap_ok. induction H as [|[c st] p l l' Hp _ IH]; [done|]. rewrite fmap_cons, <- IH. cbn [fst snd] in Hp. inv_ok.
  match goal with H : _session_component _ = Ok _ |- _ => by apply session_component_of in H as -> end.
Qed.

(** What the freeze decision leaves of the captures and requests. *)
Lemma frozen_quiescent snapshot edges s s' q s1 a b : frozen_tables snapshot edges s s' q s1 a b →
  settle_captures snapshot (fq_at q) s (captures_of s (fq_session q)) = Ok (s1, false) →
  (∀ e r, paused s !! (fq_session q, e) = Some r → capture_of snapshot s e r = Ok Settled) ∧
  (∀ e r, paused s' !! (fq_session q, e) = Some r → is_Some (px_acknowledged r)) ∧
  ∀ o k, request_state s' (fq_session q, o, k) ≠ Some "requested".
Proof.
  intros F Hc. apply settle_captures_ok in Hc as [C1 C2]; [|apply NoDup_fst_map_to_list].
  assert (∀ e r, paused s1 !! (fq_session q, e) = Some r → is_Some (px_acknowledged r)) as Hack.
  { intros e r Hr. destruct (paused s !! (fq_session q, e)) as [r0|] eqn:Hr0.
    - destruct (C1 (fq_session q, e) r0) as [_ E]; [by apply elem_captures|]. rewrite E in Hr. injection Hr as <-.
      cbn. destruct (px_acknowledged r0); eauto.
    - rewrite C2 in Hr; [congruence|]. intros ([k r0] & E & [Hin _]%elem_captures)%list_elem_of_fmap. cbn in E. congruence. }
  split; [|split].
  - intros e r Hr. by apply (C1 (fq_session q, e) r), elem_captures.
  - rewrite (ft_paused _ _ _ _ _ _ _ _ F). exact Hack.
  - intros o k. unfold request_state. rewrite (ft_pauses _ _ _ _ _ _ _ _ F). unfold acknowledge_all.
    set (l := filter _ (map_to_list (pauses s1))). destruct (acknowledge_all_requests s1 l (fq_session q, o, k)) as [_ Hreq].
    { intros c o' k' r [[Hx _] _]%list_elem_of_filter. cbn in Hx. subst c. by apply all_acknowledged_ok. }
    intros [Hs1 Hn]%Hreq. apply Hn. unfold request_state in Hs1. destruct (pauses s1 !! _) as [r|] eqn:Hr; [|done].
    apply list_elem_of_fmap. exists ((fq_session q, o, k), r). split; [done|]. apply list_elem_of_filter. cbn in Hs1 |- *.
    split; [split; [done|congruence]|by apply elem_of_map_to_list].
Qed.

(** A settled capture that nobody acknowledged ran to its end. *)
Lemma settled_capture snapshot s e r : capture_of snapshot s e r = Ok Settled → px_acknowledged r = None →
  ∃ j, jobs (jobs_db s) !! px_addr r = Some j ∧ active_execution_id j = None.
Proof.
  unfold capture_of. intros H Hn. apply rbind_ok in H as (ob & Hob & H). destruct ob as [ob|]; cbn [mbind option_bind] in H; [|discriminate].
  destruct (ob_owner ob) as [ow|] eqn:How; cbn [mbind option_bind] in H; [|discriminate].
  rewrite (bool_decide_eq_true_2 (px_acknowledged r = None)), andb_true_r in H by done.
  unfold is_active in H. rewrite How, (bool_decide_eq_true_2 (is_Some (Some ow))), andb_true_r in H by done.
  assert (ob_active ob = None) as Hact.
  { destruct (ob_active ob) as [x|]; [|done]. rewrite (bool_decide_eq_true_2 (is_Some (Some x))), andb_true_r in H by done.
    destruct (_ && _ && _ && _) in H; [discriminate|]. by inv_ok. }
  unfold read_job_owner_observation in Hob. destruct (jobs (jobs_db s) !! px_addr r) as [j|]; [|discriminate]. exists j. split; [done|].
  inv_ok. destruct (match active_execution_id j with Some x => _ | None => _ end) as [x'|]; inv_ok; [|done].
  destruct (owners _ !! x'); [|discriminate]. inv_ok. destruct (sessions _ !! _); [|discriminate]. by inv_ok.
Qed.

(** C22: A target is frozen only when every captured predecessor execution of the interrupt was
    acknowledged or its job no longer runs; then every capture is stamped, no pause request is
    left unanswered, the interrupt is frozen with the lineage asked for and alone holds its
    target; the parents observed are exactly the direct predecessors in the states they have
    now, and the rows added to the record are exactly one for each of them, with its shape,
    lifecycle, lineage, misalignment and alignment. *)
Theorem freeze_quiescent snapshot edges iso json s q s' v :
  freeze_interrupt_target snapshot edges iso json s q = Ok (s', v) →
  admission_state s' (fq_session q) = Some "frozen" →
  (∀ e r, paused s !! (fq_session q, e) = Some r → px_acknowledged r = None →
    ∃ j, jobs (jobs_db s) !! px_addr r = Some j ∧ active_execution_id j = None) ∧
  (∀ e r, paused s' !! (fq_session q, e) = Some r → is_Some (px_acknowledged r)) ∧
  (∀ o k, request_state s' (fq_session q, o, k) ≠ Some "requested") ∧
  ∃ a b c ps, admissions s !! fq_session q = Some a ∧ ia_state a = "admitted" ∧
    admissions s' !! fq_session q = Some b ∧ ia_target b = ia_target a ∧ ia_lineage b = fq_lineage q ∧
    (∀ y, holds (core s') !! (y, ia_target a) = if decide (y = fq_session q) then Some 1 else None) ∧
    decode_component_key (ia_target a) = Ok c ∧ _component_predecessors snapshot edges (fq_shape q) c = Ok ps ∧
    (∀ p, p ∈ ps ↔ p ∈ component_key ∘ fst <$> fq_parents q) ∧
    (∀ p, p ∈ fq_parents q → read_component_state_snapshot snapshot (core s) (component_key p.1) = Ok (Some p.2)) ∧
    (∀ k r, frozen s' !! k = Some r ↔ frozen s !! k = Some r ∨
       ∃ p, p ∈ fq_parents q ∧ k = (fq_session q, encode_component_key (component_key p.1)) ∧ records_parent s (component_key p.1, p.2) r).
Proof.
  unfold freeze_interrupt_target. intros H Hst. inv_ok.
  match goal with H : rmap _ (fq_parents q) = Ok _ |- _ => apply normal_parents in H as -> end.
  apply freeze_tables in H as (a & s1 & w & Ha & Hadm & Hc & [(_ & E & _)|(-> & b & F)]); cbn [fq_session fq_at fq_parents fq_shape] in *.
  { unfold admission_state in Hst. rewrite E, Ha in Hst. cbn in Hst. congruence. }
  destruct (frozen_quiescent _ _ _ _ _ _ _ _ F Hc) as (Q1 & Q2 & Q3). destruct F as [F1 (F2 & F3 & F4) _ _ F5 F6 (c & ps & F7 & F8 & F9) F10 F11].
  cbn [fq_session fq_at fq_parents fq_shape fq_lineage] in *. split_and!; [|exact Q2|exact Q3|].
  - intros e r Hr Hn. eapply settled_capture; [by apply Q1|done].
  - exists a, b, c, ps. split_and!; [done|done|by rewrite F1, lookup_insert_eq|done|done| |done|done| | |].
    + intros y. destruct (decide (y = fq_session q)) as [->|Hy]; [exact F5|by apply F6].
    + intros p. rewrite <- (elem_of_list_to_set (C := gset key) p ps), <- F9, elem_of_list_to_set, <- list_fmap_compose. done.
    + intros p Hp. apply (F10 (component_key p.1, p.2)). apply list_elem_of_fmap. by exists p.
    + intros k r. rewrite F11. split; (intros [H|H]; [by left|right]).
      * destruct H as (p' & (p & -> & Hp)%list_elem_of_fmap & H). by exists p.
      * destruct H as (p & Hp & H). exists (component_key p.1, p.2). split; [|exact H]. apply list_elem_of_fmap. by exists p.
Qed.

(** ** Runs *)

Module paused_sample.
Import SessionSteps.sample.

Lemma running_job : ("a", 1) ∈ active_jobs_of s3 "a".
Proof. apply (bool_decide_eq_true_1 _). by vm_compute. Qed.

(** The job of [a] acknowledges the pause, and the target is frozen with an override. *)
Definition acknowledged : sdb := after s4 (acknowledge_interrupt_pauses decode s4 "m" ("a", 1) 1 "e" "t3").
Definition freezing : freeze_request := FreezeRequest "i" "shape"
  [(["a"], StateSnapshot ["a"] "shape" "running" (None, None) false 0)] (Some "unstable", Some "i") true "t4" None None.
Definition freezes := freeze_interrupt_target decode edges yes yes acknowledged freezing.
Definition held : sdb := after acknowledged freezes.

Lemma frozen : ∃ v, freeze_interrupt_target decode edges yes yes acknowledged freezing = Ok (held, v).
Proof. destruct (after_ok acknowledged freezes) as [v H]; [by vm_compute|]. exists v. unfold freezes at 1 in H. exact H. Qed.

Lemma holds_target : admission_state held "i" = Some "frozen".
Proof. by vm_compute. Qed.
End paused_sample.

Lemma interrupt_pauses_predecessors_witness : ∃ owner, reserved sample.s3 (encode_component_key ["a"]) = Some owner ∧
  (admission_state sample.s4 "i" = Some "settled" ∨
   _require_interrupt_component_admission sample.s4 owner (component_key ["a"]) =
     raise InterruptAdmissionPaused "Component admission is paused for interrupt session(s)").
Proof.
  destruct sample.interrupts as [v H]. assert ("a" ∈ component_key ["a"]) as Ha by (apply (bool_decide_eq_true_1 _); by vm_compute).
  destruct (interrupt_pauses_predecessors _ _ _ _ sample.over _ _ _ _ ["a"] "a" ("a", 1) H (list_elem_of_here _ _) Ha paused_sample.running_job) as (owner & Ho & Hs).
  exists owner. split; [exact Ho|]. destruct (Hs sample.s4 (rtc_refl _ _)) as [?|[? _]]; [by left|by right].
Defined.

Lemma freeze_quiescent_witness : (∀ o k, request_state paused_sample.held ("i", o, k) ≠ Some "requested") ∧
  ∃ a, admissions paused_sample.held !! "i" = Some a.
Proof.
  destruct paused_sample.frozen as [v H].
  destruct (freeze_quiescent _ _ _ _ _ _ _ _ H paused_sample.holds_target) as (_ & _ & Hr & a & b & c & ps & _ & _ & Hb & _).
  split; [exact Hr|exists b; exact Hb].
Defined.
