(* ===== verification/Ancestors.v ===== *)
(** The ancestors of a component in a stored shape ([storage/interrupt_common.py]): the
    worklist terminates within its fuel and finds exactly the components with a route to the
    target. *)
From stdpp Require Import relations.
From S2P Require Import Prelude Topology JobStore ComponentRows Sessions ThreadOverrides Interrupts SelectedWork.

(** ** Nodes and their components *)

Lemma fill_lookup (c l : key) (m : gmap string key) n :
  foldl (λ m n, <[n := c]> m) m l !! n = if decide (n ∈ l) then Some c else m !! n.
Proof.
  revert m. induction l as [|x l IH]; intros m; cbn [foldl]; [by rewrite decide_False by apply not_elem_of_nil|].
  rewrite IH. destruct (decide (n ∈ l)) as [Hin|Hn]; [by rewrite decide_True by by right|].
  destruct (decide (n = x)) as [->|Hne]; [rewrite lookup_insert_eq, decide_True; [done|left]|].
  rewrite lookup_insert_ne, decide_False; [done| |done]. by rewrite not_elem_of_cons.
Qed.

Lemma by_node_from (cs : list key) (m : gmap string key) n c : NoDup (mjoin cs) →
  (∀ n c, m !! n = Some c → n ∉ mjoin cs) →
  foldl (λ m c, foldl (λ m n, <[n := c]> m) m c) m cs !! n = Some c ↔ m !! n = Some c ∨ c ∈ cs ∧ n ∈ c.
Proof.
  revert m. induction cs as [|c0 cs IH]; intros m Hnd Hm; cbn [foldl].
  { split; [by left|]. intros [?|[?%not_elem_of_nil _]]; done. }
  cbn in Hnd. apply NoDup_app in Hnd as (Hc0 & Hd & Hcs). rewrite IH; [|done|].
  - rewrite fill_lookup, elem_of_cons. destruct (decide (n ∈ c0)) as [Hin|Hn].
    + split.
      * intros [[= <-]|[Hc Hnc]]; [right; by split; [left|]|right; by split; [right|]].
      * intros [Hmn|[[->|Hc] Hnc]]; [|by left|by right]. exfalso. apply (Hm _ _ Hmn). apply elem_of_app. by left.
    + split; [intros [?|[? ?]]; auto|]. intros [?|[[->|?] ?]]; auto. done.
  - intros n' c'. rewrite fill_lookup. destruct (decide (n' ∈ c0)) as [Hin|Hn]; [intros _; by apply Hd|].
    intros H Hin. apply (Hm _ _ H). apply elem_of_app. by right.
Qed.

Lemma by_node_lookup cs n c : NoDup (mjoin cs) → by_node cs !! n = Some c ↔ c ∈ cs ∧ n ∈ c.
Proof.
  intros Hnd. unfold by_node. rewrite by_node_from; [|done|by intros ? ? ?%lookup_empty_Some].
  rewrite lookup_empty. split; [by intros [|]|by right].
Qed.

(** An edge between two components. *)
Definition component_edge (cs : list key) (edges : list (string * string)) (a b : key) : Prop :=
  a ∈ cs ∧ b ∈ cs ∧ ∃ e, e ∈ edges ∧ e.1 ∈ a ∧ e.2 ∈ b.

Lemma direct_edges_ok cs edges : NoDup (mjoin cs) → Forall (λ e, e.1 ∈ mjoin cs ∧ e.2 ∈ mjoin cs) edges →
  ∃ pairs, direct_edges (by_node cs) edges = Ok pairs ∧ ∀ a b, (a, b) ∈ pairs ↔ a ≠ b ∧ component_edge cs edges a b.
Proof.
  intros Hnd Hcov. unfold direct_edges.
  set (f := λ e : string * string, let! s := component_at (by_node cs) e.1 in let! r := component_at (by_node cs) e.2 in Ok (s, r)).
  assert (∃ l, rmap f edges = Ok l ∧ ∀ a b, (a, b) ∈ l ↔ component_edge cs edges a b) as (l & -> & Hl).
  2:{ eexists. split; [done|]. intros a b. rewrite list_elem_of_filter, Hl. done. }
  induction Hcov as [|[n m] edges [Hn Hm] _ IH].
  { exists []. split; [done|]. intros a b. split; [by intros ?%not_elem_of_nil|]. intros (_ & _ & e & ?%not_elem_of_nil & _). done. }
  destruct IH as (l & Hl & IH). apply list_elem_of_join in Hn as (a & Hna & Ha), Hm as (b & Hmb & Hb). cbn [fst snd] in *.
  assert (f (n, m) = Ok (a, b)) as Hf.
  { unfold f, component_at. cbn. rewrite (proj2 (by_node_lookup cs n a Hnd)), (proj2 (by_node_lookup cs m b Hnd)) by done. done. }
  exists ((a, b) :: l). cbn [rmap]. rewrite Hf. cbn [rbind]. rewrite Hl. cbn [rbind]. split; [done|]. intros a' b'. rewrite elem_of_cons, IH. split.
  - intros [[= -> ->]|(? & ? & e & ? & ?)]; (split; [done|]; split; [done|]).
    + exists (n, m). split; [left|done].
    + exists e. split; [by right|done].
  - intros (Ha' & Hb' & e & [->|He]%elem_of_cons & H1 & H2); [left|right; split; [done|]; split; [done|]; by exists e].
    cbn in H1, H2. assert (Some a' = Some a) as [= ->].
    { rewrite <- (proj2 (by_node_lookup cs n a' Hnd)) by done. by rewrite (proj2 (by_node_lookup cs n a Hnd)). }
    assert (Some b' = Some b) as [= ->]; [|done].
    rewrite <- (proj2 (by_node_lookup cs m b' Hnd)) by done. by rewrite (proj2 (by_node_lookup cs m b Hnd)).
Qed.

(** ** The worklist *)

Lemma elem_direct_of pairs c a : a ∈ direct_of pairs c ↔ (a, c) ∈ pairs.
Proof.
  unfold direct_of. rewrite elem_of_remove_dups, list_elem_of_fmap. split.
  - intros ([x y] & -> & [Hy Hin]%list_elem_of_filter). cbn in *. by subst.
  - intros Hin. exists (a, c). split; [done|]. by apply list_elem_of_filter.
Qed.

(** The components the worklist may still meet. *)
Definition unseen (pairs : list (key * key)) (found : list key) : list key :=
  filter (λ c, c ∉ found) (remove_dups pairs.*1).

Lemma unseen_shrinks pairs current found :
  let new := filter (λ c, c ∉ found) (direct_of pairs current) in
  length new + length (unseen pairs (new ++ found)) ≤ length (unseen pairs found).
Proof.
  intros new. rewrite <- length_app. apply submseteq_length, NoDup_submseteq.
  - apply NoDup_app. split; [apply NoDup_filter, NoDup_remove_dups|]. split; [|apply NoDup_filter, NoDup_remove_dups].
    intros c Hc [Hn _]%list_elem_of_filter. apply Hn, elem_of_app. by left.
  - intros c [Hc|Hc]%elem_of_app; unfold unseen.
    + apply list_elem_of_filter in Hc as [Hn Hd%elem_direct_of]. apply list_elem_of_filter. split; [done|].
      apply elem_of_remove_dups, list_elem_of_fmap. by exists (c, current).
    + apply list_elem_of_filter in Hc as [Hn Hc]. apply list_elem_of_filter. split; [|done]. intros Hf. apply Hn, elem_of_app. by right.
Qed.

Lemma ancestors_loop_ok pairs target fuel found pending :
  target ∈ found → (∀ c, c ∈ found → rtc (λ a b, (a, b) ∈ pairs) c target) →
  (∀ c, c ∈ pending → c ∈ found) → (∀ c a, c ∈ found → c ∉ pending → (a, c) ∈ pairs → a ∈ found) →
  length pending + length (unseen pairs found) ≤ fuel →
  ∃ result, ancestors_loop fuel pairs found pending = Some result ∧ ∀ c, c ∈ result ↔ rtc (λ a b, (a, b) ∈ pairs) c target.
Proof.
  revert found pending. induction fuel as [|fuel IH]; intros found pending Ht Hsound Hsub Hclosed Hfuel.
  all: destruct pending as [|current pending].
  1, 3: exists found; (split; [done|]); intros c; (split; [apply Hsound|]); induction 1 as [|c d e Hcd _ Hd]; [done|];
    apply (Hclosed d c); [by apply Hd|apply not_elem_of_nil|done].
  { cbn in Hfuel. lia. }
  cbn [ancestors_loop]. set (new := filter (λ c, c ∉ found) (direct_of pairs current)). pose proof (unseen_shrinks pairs current found) as Hm.
  cbv zeta in Hm. fold new in Hm. apply IH.
  - apply elem_of_app. by right.
  - intros c [[_ Hd%elem_direct_of]%list_elem_of_filter|Hc]%elem_of_app; [|by apply Hsound].
    eapply rtc_l; [exact Hd|]. apply Hsound, Hsub. left.
  - intros c [Hc|Hc]%elem_of_app; apply elem_of_app; [by left|right]. apply Hsub. by right.
  - intros c a Hc Hn Hac. apply not_elem_of_app in Hn as [Hn1 Hn2]. apply elem_of_app.
    destruct (decide (a ∈ found)) as [Ha|Ha]; [by right|left]. apply elem_of_app in Hc as [Hc|Hc]; [done|].
    destruct (decide (c = current)) as [->|Hne].
    + apply list_elem_of_filter. split; [done|]. by apply elem_direct_of.
    + exfalso. apply Ha, (Hclosed c a Hc); [|done]. by apply not_elem_of_cons.
  - cbn in Hfuel. rewrite length_app. lia.
Qed.

Lemma unseen_pairs pairs found : length (unseen pairs found) ≤ length pairs.
Proof.
  unfold unseen. etrans; [apply length_filter|]. rewrite <- (length_fmap fst pairs). apply submseteq_length, NoDup_submseteq; [apply NoDup_remove_dups|].
  intros c. by rewrite elem_of_remove_dups.
Qed.

(** Routes along different components are routes. *)
Lemma rtc_distinct {A} `{EqDecision A} (R : A → A → Prop) a b : rtc (λ x y, x ≠ y ∧ R x y) a b ↔ rtc R a b.
Proof.
  split; (induction 1 as [|x y z Hxy _ IH]; [done|]).
  - eapply rtc_l; [apply Hxy|done].
  - destruct (decide (x = y)) as [->|Hne]; [done|]. by eapply rtc_l; [split|].
Qed.

(** In a shape whose components partition the nodes of its edges, the ancestors read for a
    component are exactly the components with a route of edges to it, itself included, each
    listed as often and in the order of the shape; the worklist always ends. *)
Theorem component_ancestors_exact snapshot shape_edges shape target sn edges :
  snapshot shape = Ok sn → shape_edges shape = Ok edges → NoDup (mjoin (components sn)) →
  Forall (λ e, e.1 ∈ mjoin (components sn) ∧ e.2 ∈ mjoin (components sn)) edges → target ∈ components sn →
  ∃ found, _component_ancestors snapshot shape_edges shape target = Ok found ∧ found `sublist_of` components sn ∧
    ∀ c, c ∈ found ↔ c ∈ components sn ∧ rtc (component_edge (components sn) edges) c target.
Proof.
  intros Hsn Hedges Hnd Hcov Ht. unfold _component_ancestors. rewrite Hsn, Hedges. cbn [rbind].
  destruct (direct_edges_ok _ _ Hnd Hcov) as (pairs & -> & Hpairs). cbn [rbind]. rewrite bool_decide_eq_true_2 by done. cbn [require rbind].
  destruct (ancestors_loop_ok pairs target (S (length pairs)) [target] [target]) as (found & -> & Hfound).
  - left.
  - by intros c ->%list_elem_of_singleton.
  - done.
  - intros c a Hc Hn. by destruct (Hn Hc).
  - pose proof (unseen_pairs pairs [target]). cbn. lia.
  - eexists. split; [done|]. split; [apply sublist_filter|]. intros c.
    assert (∀ x, rtc (λ a b, (a, b) ∈ pairs) x target ↔ rtc (λ a b, a ≠ b ∧ component_edge (components sn) edges a b) x target) as E.
    { intros x. split; apply rtc_subrel; intros a b; apply Hpairs. }
    rewrite list_elem_of_filter, Hfound, E, rtc_distinct. tauto.
Qed.

Lemma component_ancestors_exact_witness :
  ∃ found, _component_ancestors (λ shape, Ok (MkSnapshot shape [["a"]; ["b"; "c"]; ["d"]])) (λ _, Ok [("a", "b"); ("b", "c"); ("c", "b")]) "shape" ["b"; "c"]
    = Ok found ∧ found `sublist_of` [["a"]; ["b"; "c"]; ["d"]] ∧
    ∀ c, c ∈ found ↔ c ∈ [["a"]; ["b"; "c"]; ["d"]] ∧ rtc (component_edge [["a"]; ["b"; "c"]; ["d"]] [("a", "b"); ("b", "c"); ("c", "b")]) c ["b"; "c"].
Proof.
  apply (component_ancestors_exact _ _ _ _ (MkSnapshot "shape" [["a"]; ["b"; "c"]; ["d"]]) _); try done.
  - apply (bool_decide_eq_true_1 _). by vm_compute.
  - repeat constructor; apply (bool_decide_eq_true_1 _); by vm_compute.
  - apply (bool_decide_eq_true_1 _). by vm_compute.
Defined.
