(* ===== verification/Permits.v ===== *)
(** The durable API execution permits ([storage/api_admission.py],
    [storage/api_admission_grouped.py]): one row of [api_execution_permits] per running
    API execution, at most as many as the project-wide limit.

    The permit table changes; the job tables of [JobStore] are only read.  An operation
    that raises is rolled back, so an [Err] carries no table. *)
From S2P Require Import Prelude Topology JobStore.

#[local] Open Scope Z_scope.

(** [ApiExecutionPermitIdentity]. *)
Record permit_identity := PermitIdentity {
  p_session : string;
  p_node : string;
  p_job : Z;
  p_generation : Z;
  p_execution : string
}.

#[export] Instance permit_identity_eq_dec : EqDecision permit_identity.
Proof. solve_decision. Defined.

(** A row of [api_execution_permits], without its primary key. *)
Record permit_row := PermitRow {
  pr_session : string;
  pr_node : string;
  pr_job : Z;
  pr_generation : Z;
  pr_acquired : string
}.

#[export] Instance permit_row_eq_dec : EqDecision permit_row.
Proof. solve_decision. Defined.

Abbreviation permits := (gmap string permit_row).

(** [_validate_identity]. *)
Definition validate_identity (i : permit_identity) : result unit :=
  check! negb (bool_decide (strip (p_session i) = ""))
    orelse ValueError saying "API execution permit requires a session ID" in
  check! negb (bool_decide (strip (p_node i) = ""))
    orelse ValueError saying "API execution permit requires a node name" in
  check! 1 <=? p_job i
    orelse ValueError saying "API execution permit job ID must be a positive integer" in
  check! 0 <=? p_generation i
    orelse ValueError saying "API execution permit generation must be a non-negative integer" in
  check! valid_instance (p_execution i)
    orelse ValueError saying "API execution permit requires a native execution ID" in
  Ok tt.

Section permits.
Context (snapshot_components : string → result (list key)).
(** Whether [datetime.fromisoformat] accepts the text. *)
Context (is_isoformat : string → bool).
(** The value of [api_thread_limit], if the row exists. *)
Context (d : db) (thread_limit : option Z).

(** [_permit_from_row]. *)
Definition permit_from_row (x : string) (r : permit_row) : result permit_identity :=
  let i := PermitIdentity (pr_session r) (pr_node r) (pr_job r) (pr_generation r) x in
  let! _ := validate_identity i in
  check! negb (bool_decide (strip (pr_acquired r) = "")) && is_isoformat (pr_acquired r)
    orelse RuntimeError saying "Damaged API execution permit acquisition time" in
  Ok i.

Definition row_of (i : permit_identity) (acquired_at : string) : permit_row :=
  PermitRow (p_session i) (p_node i) (p_job i) (p_generation i) acquired_at.

(** The owner dictionary names the permit's own execution. *)
Definition owner_matches (i : permit_identity) (ow : owner) : bool :=
  bool_decide (ow_execution ow = p_execution i) && bool_decide (ow_session ow = p_session i)
  && bool_decide (ow_addr ow = (p_node i, p_job i)) && (ow_generation ow =? p_generation i).

(** The reservation and selection of the owning session's component. *)
Definition scope_held (i : permit_identity) (ow : owner) : bool :=
  let k := encode_component_key (ow_component ow) in
  bool_decide (s_status <$> sessions d !! p_session i = Some RUNNING)
  && bool_decide (reservations d !! k = Some (p_session i))
  && bool_decide ((p_session i, k) ∈ session_components d).

Definition session_running (ob : observation) : bool :=
  match ob_session ob with Some (_, s) => bool_decide (s_status s = RUNNING) | None => false end.

(** The job runs under exactly this execution. *)
Definition runs_execution (i : permit_identity) (ob : observation) : bool :=
  bool_decide (ob_status ob = RUNNING) && (ob_generation ob =? p_generation i)
  && bool_decide (ob_active ob = Some (p_execution i)) && session_running ob.

(** [_require_owner]. *)
Definition require_owner (require_current : bool) (i : permit_identity) : result owner :=
  let! found := read_execution_owner snapshot_components d (p_execution i) in
  let! ow := match found with
             | Some ow => if owner_matches i ow then Ok ow
                          else raise RuntimeError "API execution permit does not match its immutable owner"
             | None => raise RuntimeError "API execution permit does not match its immutable owner"
             end in
  if negb require_current then Ok ow
  else
    let! observed := read_job_owner_observation snapshot_components d (p_node i, p_job i) in
    check! match observed with
           | Some ob => runs_execution i ob && bool_decide (ob_owner ob = Some ow)
           | None => false
           end
      orelse RuntimeError saying "API permit acquisition requires the exact running job owner" in
    check! scope_held i ow
      orelse RuntimeError saying "API permit acquisition requires the exact session reservation" in
    Ok ow.

(** Recording a permit and reading it back. *)
Definition record_permit (ps : permits) (i : permit_identity) (now : string) : result permits :=
  let ps' := <[p_execution i := row_of i now]> ps in
  let! known := permit_from_row (p_execution i) (row_of i now) in
  check! bool_decide (known = i) orelse RuntimeError saying "API execution permit readback failed" in
  Ok ps'.

(** An existing row answers for the identity only if it is that identity's. *)
Definition recorded_permit (x : string) (r : permit_row) (i : permit_identity) : result bool :=
  let! known := permit_from_row x r in
  check! bool_decide (known = i) orelse RuntimeError saying "API execution permit identity changed" in
  Ok true.

(** How many more permits the limit allows; [None] when there is no limit. *)
Definition available_permits (ps : permits) : result (option Z) :=
  match thread_limit with
  | None => Ok None
  | Some l =>
      check! 1 <=? l orelse RuntimeError saying "Damaged aggregate API admission limit" in
      Ok (Some (l - Z.of_nat (size ps)))
  end.

(** [_try_acquire_api_execution_permit]; [now] is the clock at this call. *)
Definition try_acquire_api_execution_permit (ps : permits) (i : permit_identity) (now : string)
  : result (permits * bool) :=
  let! _ := validate_identity i in
  let! _ := require_owner true i in
  match ps !! p_execution i with
  | Some r => let! b := recorded_permit (p_execution i) r i in Ok (ps, b)
  | None =>
      let! available := available_permits ps in
      if match available with Some n => n <=? 0 | None => false end then Ok (ps, false)
      else let! ps := record_permit ps i now in Ok (ps, true)
  end.

(** The row is exactly the identity's, or the release is refused. *)
Definition exact_permit (x : string) (r : option permit_row) (i : permit_identity) : result unit :=
  let! known := match r with
                | Some r => permit_from_row x r
                | None => raise RuntimeError "Exact API execution permit is missing"
                end in
  check! bool_decide (known = i) orelse RuntimeError saying "Exact API execution permit is missing" in
  Ok tt.

(** [_release_api_execution_permit]. *)
Definition release_api_execution_permit (ps : permits) (i : permit_identity) : result (permits * bool) :=
  let! _ := validate_identity i in
  let! _ := require_owner false i in
  let! _ := exact_permit (p_execution i) (ps !! p_execution i) i in
  Ok (delete (p_execution i) ps, true).

(** ** Grouped mutations ([api_admission_grouped.py]) *)

(** [ApiExecutionPermitMutation], with the clock reading its turn sees. *)
Record permit_mutation := PermitMutation { pm_action : string; pm_identity : permit_identity; pm_now : string }.

(** [_apply_individually] on one mutation: a savepoint around the operation. *)
Definition savepoint {A} (ps : permits) (r : result (permits * A)) : permits * result A :=
  match r with Ok (ps, a) => (ps, Ok a) | Err e => (ps, Err e) end.

Definition acquire_one (ps : permits) (m : permit_mutation) : permits * result bool :=
  savepoint ps (try_acquire_api_execution_permit ps (pm_identity m) (pm_now m)).

Definition release_one (ps : permits) (m : permit_mutation) : permits * result bool :=
  savepoint ps (release_api_execution_permit ps (pm_identity m)).

Fixpoint individually (one : permits → permit_mutation → permits * result bool) (ps : permits)
    (ms : list permit_mutation) : permits * list (result bool) :=
  match ms with
  | [] => (ps, [])
  | m :: ms =>
      let '(ps, o) := one ps m in
      let '(ps, os) := individually one ps ms in (ps, o :: os)
  end.

(** [_current_owner]. *)
Definition current_owner (i : permit_identity) : result owner :=
  let! observed := read_job_owner_observation snapshot_components d (p_node i, p_job i) in
  match observed with
  | Some ob =>
      match ob_owner ob with
      | Some ow =>
          check! owner_matches i ow
            orelse RuntimeError saying "API execution permit does not match its immutable owner" in
          check! runs_execution i ob
            orelse RuntimeError saying "API permit acquisition requires the exact running job owner" in
          Ok ow
      | None => raise RuntimeError "API execution permit does not match its immutable owner"
      end
  | None => raise RuntimeError "API execution permit does not match its immutable owner"
  end.

(** [_require_scope]. *)
Definition require_scope (i : permit_identity) (ow : owner) : result unit :=
  check! scope_held i ow
    orelse RuntimeError saying "API permit acquisition requires the exact session reservation" in
  Ok tt.

(** What is known of one acquisition before any permit is recorded: its outcome, or
    that it waits for capacity. *)
Definition first_outcome (existing : permits) (i : permit_identity) : option (result bool) :=
  match (let! _ := validate_identity i in let! ow := current_owner i in require_scope i ow) with
  | Err e => Some (Err e)
  | Ok _ =>
      match existing !! p_execution i with
      | Some r => Some (recorded_permit (p_execution i) r i)
      | None => None
      end
  end.

(** The pending acquisitions in order, with the remaining capacity. *)
Fixpoint fill (ps existing : permits) (available : nat) (ms : list (permit_mutation * option (result bool)))
  : permits * list (result bool) :=
  match ms with
  | [] => (ps, [])
  | (m, Some o) :: ms => let '(ps, os) := fill ps existing available ms in (ps, o :: os)
  | (m, None) :: ms =>
      let i := pm_identity m in
      match existing !! p_execution i with
      | Some r => let '(ps, os) := fill ps existing available ms in
                  (ps, recorded_permit (p_execution i) r i :: os)
      | None =>
          match available with
          | O => let '(ps, os) := fill ps existing available ms in (ps, Ok false :: os)
          | S left_ =>
              match record_permit ps i (pm_now m) with
              | Err e => let '(ps, os) := fill ps existing available ms in (ps, Err e :: os)
              | Ok ps =>
                  let existing := <[p_execution i := row_of i (pm_now m)]> existing in
                  let '(ps, os) := fill ps existing left_ ms in (ps, Ok true :: os)
              end
          end
      end
  end.

(** [_apply_acquisitions]. *)
Definition apply_acquisitions (ps : permits) (ms : list permit_mutation) : permits * list (result bool) :=
  match ms with
  | [] => (ps, [])
  | [m] => individually acquire_one ps [m]
  | _ =>
      let slots := (λ m, (m, first_outcome ps (pm_identity m))) <$> ms in
      let pending := length (filter (λ p : permit_mutation * option (result bool), p.2 = None) slots) in
      if (pending =? 0)%nat then (ps, (λ p, default (Ok false) p.2) <$> slots)
      else
        match available_permits ps with
        | Err e => (ps, (λ p, default (Err e) p.2) <$> slots)
        | Ok available =>
            fill ps ps (match available with Some n => Z.to_nat (Z.max 0 n) | None => pending end) slots
        end
  end.

(** The admitted releases in order, against the rows read at the start. *)
Fixpoint drain (ps existing : permits) (ms : list (permit_mutation * option exc))
  : permits * list (result bool) :=
  match ms with
  | [] => (ps, [])
  | (m, Some e) :: ms => let '(ps, os) := drain ps existing ms in (ps, Err e :: os)
  | (m, None) :: ms =>
      let i := pm_identity m in
      match exact_permit (p_execution i) (existing !! p_execution i) i with
      | Err e => let '(ps, os) := drain ps existing ms in (ps, Err e :: os)
      | Ok _ =>
          let '(ps, os) := drain (delete (p_execution i) ps) (delete (p_execution i) existing) ms in
          (ps, Ok true :: os)
      end
  end.

(** [_apply_releases]. *)
Definition apply_releases (ps : permits) (ms : list permit_mutation) : permits * list (result bool) :=
  match ms with
  | [] => (ps, [])
  | [m] => individually release_one ps [m]
  | _ =>
      drain ps ps ((λ m, (m, match (let! _ := validate_identity (pm_identity m) in
                                    require_owner false (pm_identity m)) with
                             | Ok _ => None | Err e => Some e end)) <$> ms)
  end.

(** The maximal runs of consecutive mutations with the same action. *)
Fixpoint action_runs (ms : list permit_mutation) : list (string * list permit_mutation) :=
  match ms with
  | [] => []
  | m :: ms =>
      match action_runs ms with
      | (a, r) :: rs => if bool_decide (pm_action m = a) then (a, m :: r) :: rs
                        else (pm_action m, [m]) :: (a, r) :: rs
      | [] => [(pm_action m, [m])]
      end
  end.

Definition unknown_mutation (ps : permits) (m : permit_mutation) : permits * result bool :=
  (ps, raise RuntimeError "Unknown API execution permit mutation").

Definition apply_run (ps : permits) (run : string * list permit_mutation) : permits * list (result bool) :=
  if bool_decide (run.1 = "acquire") then apply_acquisitions ps run.2
  else if bool_decide (run.1 = "release") then apply_releases ps run.2
  else individually unknown_mutation ps run.2.

Fixpoint apply_runs (ps : permits) (runs : list (string * list permit_mutation))
  : permits * list (result bool) :=
  match runs with
  | [] => (ps, [])
  | r :: rs =>
      let '(ps, os) := apply_run ps r in
      let '(ps, os') := apply_runs ps rs in (ps, os ++ os')
  end.

(** [apply_api_execution_permit_mutations]. *)
Definition apply_api_execution_permit_mutations (ps : permits) (ms : list permit_mutation)
  : permits * list (result bool) := apply_runs ps (action_runs ms).

(** ** Readback and settlement *)

(** [_read_api_execution_permit_decision] of a validated identity. *)
Definition read_permit_decision (ps : permits) (i : permit_identity) (present : bool) : result (option bool) :=
  let! _ := validate_identity i in
  match ps !! p_execution i with
  | None => if present then Ok None else let! _ := require_owner false i in Ok (Some true)
  | Some r =>
      let! known := permit_from_row (p_execution i) r in
      check! bool_decide (known = i) orelse RuntimeError saying "API execution permit identity changed" in
      if present then let! _ := require_owner false i in Ok (Some true) else Ok None
  end.

(** The rows of a session, in the order of the query. *)
Definition session_permits (ps : permits) (s : string) : list (string * permit_row) :=
  let mine := filter (λ p : string * permit_row, pr_session p.2 = s) (map_to_list ps) in
  let keyed := py_sorted ((λ p, (pr_node p.2, (pr_job p.2, (pr_generation p.2, p.1)))) <$> mine) in
  omap (λ k, let x := k.2.2.2 in r ← ps !! x; Some (x, r)) keyed.

Fixpoint release_all (ps : permits) (is_ : list permit_identity) : result permits :=
  match is_ with
  | [] => Ok ps
  | i :: is_ =>
      let! _ := require_owner false i in
      let! p := release_api_execution_permit ps i in
      release_all p.1 is_
  end.

(** [_clear_api_execution_permits_for_session]. *)
Definition clear_api_execution_permits_for_session (ps : permits) (s : string) : result (permits * nat) :=
  check! negb (bool_decide (strip s = "")) orelse ValueError saying "API permit cleanup requires a session ID" in
  let! is_ := rmap (λ p, permit_from_row p.1 p.2) (session_permits ps s) in
  let! ps := release_all ps is_ in
  check! bool_decide (session_permits ps s = [])
    orelse RuntimeError saying "Session API execution permits were not cleared" in
  Ok (ps, length is_).


(** ** Grouped acquisitions against one at a time *)

(** Outcomes agree up to the text of an error. *)
Definition same_outcome (o o' : result bool) : Prop :=
  match o, o' with Ok b, Ok b' => b = b' | Err _, Err _ => True | _, _ => False end.

#[local] Instance same_outcome_refl : Reflexive same_outcome.
Proof. by intros [b|e]. Qed.

Lemma owner_from_row_fields x o ow :
  execution_owner_from_row snapshot_components d x o = Ok ow →
  ow_execution ow = x ∧ ow_addr ow = o_addr o ∧ ow_generation ow = o_generation o ∧ ow_session ow = o_session o.
Proof. unfold execution_owner_from_row. intros H. by inv_ok. Qed.

Lemma observed_owner_recorded a ob ow :
  read_job_owner_observation snapshot_components d a = Ok (Some ob) → ob_owner ob = Some ow →
  read_execution_owner snapshot_components d (ow_execution ow) = Ok (Some ow).
Proof.
  unfold read_job_owner_observation. destruct (jobs d !! a) as [j|]; [|intros; inv_ok; done].
  intros H Hob. inv_ok.
  destruct (match active_execution_id j with Some _ => _ | None => _ end) as [y|]; inv_ok; [|discriminate Hob].
  cbn in Hob. injection Hob as <-. destruct (owner_from_row_fields _ _ _ Hx3) as [-> _].
  unfold read_execution_owner. destruct (owners d !! y) as [o|]; [|discriminate Hx0].
  injection Hx0 as ->. by rewrite Hx3.
Qed.

Lemma observation_fields a ob :
  read_job_owner_observation snapshot_components d a = Ok (Some ob) →
  ∃ j, jobs d !! a = Some j ∧ ob_generation ob = generation j ∧ ob_active ob = active_execution_id j
    ∧ ob_status ob = status j.
Proof.
  unfold read_job_owner_observation. destruct (jobs d !! a) as [j|]; [|intros; inv_ok; done].
  intros H. inv_ok. exists j. split; [done|].
  destruct (match active_execution_id j with Some _ => _ | None => _ end) as [y|]; by inv_ok.
Qed.

(** What makes an acquisition admissible, read either way. *)
Lemma admissible_agree i :
  is_ok (let! ow := current_owner i in require_scope i ow) = is_ok (require_owner true i).
Proof.
  unfold current_owner, require_owner, require_scope. cbn [negb].
  destruct (read_job_owner_observation snapshot_components d (p_node i, p_job i)) as [[ob|]|e] eqn:Hob; cbn [rbind].
  - destruct (ob_owner ob) as [ow|] eqn:How; cbn [rbind].
    + destruct (owner_matches i ow) eqn:Hm; cbn [rbind require].
      * assert (ow_execution ow = p_execution i) as Hx.
        { unfold owner_matches in Hm. repeat (apply andb_prop in Hm as [Hm ?]). by apply bool_decide_eq_true_1 in Hm. }
        pose proof (observed_owner_recorded _ _ _ Hob How) as Hr. rewrite Hx in Hr. rewrite Hr. cbn [rbind].
        rewrite Hm. cbn [rbind]. rewrite (bool_decide_true (Some ow = Some ow)) by done. rewrite andb_true_r.
        destruct (runs_execution i ob); [|done]. cbn [rbind require]. by destruct (scope_held i ow).
      * destruct (read_execution_owner _ _ _) as [[ow'|]|e]; cbn [rbind]; [|done|done].
        destruct (owner_matches i ow') eqn:Hm'; [|done]. cbn [rbind].
        rewrite (bool_decide_false (Some ow = Some ow')) by (intros [= ->]; congruence).
        by rewrite andb_false_r.
    + destruct (read_execution_owner _ _ _) as [[ow'|]|e]; cbn [rbind]; [|done|done].
      destruct (owner_matches i ow'); [|done]. cbn [rbind].
      rewrite (bool_decide_false (None = Some ow')) by done. by rewrite andb_false_r.
  - destruct (read_execution_owner _ _ _) as [[ow'|]|e]; cbn [rbind]; [|done|done].
    by destruct (owner_matches i ow').
  - destruct (read_execution_owner _ _ _) as [[ow'|]|e']; cbn [rbind]; [|done|done].
    by destruct (owner_matches i ow').
Qed.

(** An acquisition by what its first outcome is. *)
Lemma acquire_one_decided ps0 ps m o :
  first_outcome ps0 (pm_identity m) = Some o →
  (∀ x, is_Some (ps0 !! x) → ps !! x = ps0 !! x) →
  ∃ o', acquire_one ps m = (ps, o') ∧ same_outcome o o'.
Proof.
  unfold first_outcome, acquire_one, try_acquire_api_execution_permit. intros H Hkeep.
  pose proof (admissible_agree (pm_identity m)) as Ha.
  destruct (validate_identity (pm_identity m)) as [[]|e]; cbn [rbind] in *.
  2:{ injection H as <-. by eexists. }
  destruct (let! ow := current_owner (pm_identity m) in require_scope (pm_identity m) ow) as [[]|e];
    destruct (require_owner true (pm_identity m)) as [ow|e']; cbn in Ha; try done; cbn [rbind].
  - destruct (ps0 !! p_execution (pm_identity m)) as [r|] eqn:Hr; [|done]. injection H as <-.
    rewrite (Hkeep _ (ex_intro _ r Hr)), Hr. destruct (recorded_permit _ _ _) as [b|e]; by eexists.
  - injection H as <-. by eexists.
Qed.

Lemma acquire_one_pending ps0 ps m :
  first_outcome ps0 (pm_identity m) = None →
  ps0 !! p_execution (pm_identity m) = None
  ∧ acquire_one ps m = savepoint ps
      match ps !! p_execution (pm_identity m) with
      | Some r => let! b := recorded_permit (p_execution (pm_identity m)) r (pm_identity m) in Ok (ps, b)
      | None =>
          let! available := available_permits ps in
          if match available with Some n => n <=? 0 | None => false end then Ok (ps, false)
          else let! ps := record_permit ps (pm_identity m) (pm_now m) in Ok (ps, true)
      end.
Proof.
  unfold first_outcome, acquire_one, try_acquire_api_execution_permit. intros H.
  pose proof (admissible_agree (pm_identity m)) as Ha.
  destruct (validate_identity (pm_identity m)) as [[]|e]; cbn [rbind] in *; [|done].
  destruct (let! ow := current_owner (pm_identity m) in require_scope (pm_identity m) ow) as [[]|e];
    destruct (require_owner true (pm_identity m)) as [ow|e']; cbn in Ha; try done.
  by destruct (ps0 !! p_execution (pm_identity m)).
Qed.

Lemma record_permit_ok ps i now ps' :
  record_permit ps i now = Ok ps' → ps' = <[p_execution i := row_of i now]> ps.
Proof. unfold record_permit. intros H. by inv_ok. Qed.

(** Both runs leave the same table and agree on every outcome. *)
Definition agree (p q : permits * list (result bool)) : Prop :=
  p.1 = q.1 ∧ Forall2 same_outcome p.2 q.2.

Lemma agree_cons p q o o' :
  agree p q → same_outcome o o' → agree (let '(ps, os) := p in (ps, o :: os)) (let '(ps, os) := q in (ps, o' :: os)).
Proof. destruct p, q. intros [H1 H2] Ho. split; [exact H1|]. by constructor. Qed.

Definition slots_of (ps : permits) (ms : list permit_mutation) : list (permit_mutation * option (result bool)) :=
  (λ m, (m, first_outcome ps (pm_identity m))) <$> ms.

Definition waiting (slots : list (permit_mutation * option (result bool))) : nat :=
  length (filter (λ p : permit_mutation * option (result bool), p.2 = None) slots).

(** The remaining capacity [fill] keeps. *)
Definition capacity_left (ps : permits) (available : nat) (slots : list (permit_mutation * option (result bool))) : Prop :=
  match thread_limit with
  | None => (waiting slots <= available)%nat
  | Some l => 1 <= l ∧ available = Z.to_nat (Z.max 0 (l - Z.of_nat (size ps)))
  end.

Lemma capacity_left_tail ps available s slots :
  capacity_left ps available (s :: slots) → capacity_left ps available slots.
Proof.
  unfold capacity_left, waiting. destruct thread_limit; [done|]. destruct s as [m [o|]].
  - by rewrite filter_cons_False.
  - rewrite filter_cons_True by done. cbn. lia.
Qed.

Lemma capacity_left_record ps i now m available slots :
  ps !! p_execution i = None → capacity_left ps (S available) ((m, None) :: slots) →
  capacity_left (<[p_execution i := row_of i now]> ps) available slots.
Proof.
  unfold capacity_left, waiting. intros Hn. destruct thread_limit as [l|].
  - rewrite map_size_insert_None by done. lia.
  - rewrite filter_cons_True by done. cbn. lia.
Qed.

Lemma capacity_left_full ps available m slots :
  capacity_left ps available ((m, None) :: slots) →
  ∃ a, available_permits ps = Ok a
    ∧ match a with Some n => n <=? 0 | None => false end = (available =? 0)%nat.
Proof.
  unfold capacity_left, available_permits, waiting. destruct thread_limit as [l|].
  - intros [Hl ->]. exists (Some (l - Z.of_nat (size ps))).
    destruct (1 <=? l) eqn:H1; [|lia]. split; [done|].
    destruct (_ =? 0)%nat eqn:H2; lia.
  - rewrite filter_cons_True by done. cbn. intros H. exists None. split; [done|].
    destruct available; [lia|done].
Qed.

Lemma fill_individually ps0 ms ps existing available :
  (∀ x, is_Some (ps0 !! x) → ps !! x = ps0 !! x) →
  (∀ x, ps0 !! x = None → existing !! x = ps !! x) →
  capacity_left ps available (slots_of ps0 ms) →
  agree (fill ps existing available (slots_of ps0 ms)) (individually acquire_one ps ms).
Proof.
  revert ps existing available. induction ms as [|m ms IH]; intros ps existing available Hkeep Hex Hcap; [by split|].
  change (slots_of ps0 (m :: ms)) with ((m, first_outcome ps0 (pm_identity m)) :: slots_of ps0 ms) in *.
  pose proof (capacity_left_tail _ _ _ _ Hcap) as Htail.
  destruct (first_outcome ps0 (pm_identity m)) as [o|] eqn:Hfirst; cbn [fill individually].
  { destruct (acquire_one_decided ps0 ps m o Hfirst Hkeep) as (o' & -> & Ho). by apply agree_cons; [apply IH|]. }
  destruct (acquire_one_pending ps0 ps m Hfirst) as [Hx ->]. rewrite (Hex _ Hx).
  destruct (ps !! p_execution (pm_identity m)) as [r|] eqn:Hr.
  { destruct (recorded_permit _ r _) as [b|e]; cbn [rbind savepoint]; (apply agree_cons; [by apply IH|done]). }
  destruct (capacity_left_full _ _ _ _ Hcap) as (a & -> & Hfull). cbn [rbind]. rewrite Hfull.
  destruct available as [|available]; cbn [Nat.eqb savepoint].
  { apply agree_cons; [by apply IH|done]. }
  destruct (record_permit ps (pm_identity m) (pm_now m)) as [ps'|e] eqn:Hrec; cbn [rbind savepoint].
  2:{ apply agree_cons; [by apply IH|done]. }
  apply record_permit_ok in Hrec as ->. apply agree_cons; [apply IH|done].
  - intros x Hsome. destruct (decide (p_execution (pm_identity m) = x)) as [<-|Hne].
    + rewrite Hx in Hsome. by destruct Hsome.
    + rewrite lookup_insert_ne by done. by apply Hkeep.
  - intros x Hnone. destruct (decide (p_execution (pm_identity m) = x)) as [<-|Hne].
    + by rewrite !lookup_insert_eq.
    + rewrite !lookup_insert_ne by done. by apply Hex.
  - by eapply capacity_left_record.
Qed.

(** When nothing can be recorded, the table stays and the decided outcomes stand. *)
Lemma unrecorded_individually ps (e : result bool) ms :
  (waiting (slots_of ps ms) = 0%nat ∨ (∃ x, e = Err x) ∧ ∃ x, available_permits ps = Err x) →
  agree (ps, (λ p : permit_mutation * option (result bool), default e p.2) <$> slots_of ps ms)
    (individually acquire_one ps ms).
Proof.
  induction ms as [|m ms IH]; intros H; [by split|].
  change (slots_of ps (m :: ms)) with ((m, first_outcome ps (pm_identity m)) :: slots_of ps ms) in *.
  rewrite fmap_cons. cbn [individually snd].
  assert (waiting (slots_of ps ms) = 0%nat ∨ (∃ x, e = Err x) ∧ ∃ x, available_permits ps = Err x) as Htail.
  { destruct H as [H|H]; [left|by right]. revert H. unfold waiting. rewrite filter_cons.
    destruct (decide _); cbn; [done|auto]. }
  specialize (IH Htail).
  destruct (first_outcome ps (pm_identity m)) as [o|] eqn:Hfirst.
  - destruct (acquire_one_decided ps ps m o Hfirst) as (o' & -> & Ho); [done|]. by apply (agree_cons (_, _)).
  - destruct H as [H|[[x ->] [y Hy]]]; [unfold waiting in H; by rewrite filter_cons_True in H|].
    destruct (acquire_one_pending ps ps m Hfirst) as [-> ->]. rewrite Hy. cbn [rbind savepoint default].
    by apply (agree_cons (_, _)).
Qed.

Lemma acquisitions_individually ps ms :
  agree (apply_acquisitions ps ms) (individually acquire_one ps ms).
Proof.
  destruct ms as [|m [|m' ms]]; [by split|by split|].
  unfold apply_acquisitions. cbv zeta. fold (slots_of ps (m :: m' :: ms)).
  fold (waiting (slots_of ps (m :: m' :: ms))). generalize (m :: m' :: ms). intros l.
  destruct (waiting (slots_of ps l) =? 0)%nat eqn:Hw.
  { apply unrecorded_individually. left. by apply Nat.eqb_eq. }
  destruct (available_permits ps) as [a|e] eqn:Ha.
  2:{ apply unrecorded_individually. right. split; [by exists e|]. by exists e. }
  apply fill_individually; [done|done|]. unfold capacity_left. unfold available_permits in Ha.
  destruct thread_limit as [lim|]; inv_ok; [|lia]. split; [lia|]. lia.
Qed.

Lemma releases_individually ps ms : apply_releases ps ms = individually release_one ps ms.
Proof.
  destruct ms as [|m [|m' ms]]; [done|done|]. unfold apply_releases. generalize (m :: m' :: ms). clear m m' ms.
  intros ms. revert ps. induction ms as [|m ms IH]; intros ps; [done|]. cbn [fmap list_fmap drain individually].
  unfold release_one at 1, release_api_execution_permit.
  destruct (validate_identity (pm_identity m)) as [[]|e]; cbn [rbind savepoint]; [|by rewrite <- IH].
  destruct (require_owner false (pm_identity m)) as [ow|e]; cbn [rbind savepoint]; [|by rewrite <- IH].
  destruct (exact_permit _ _ _) as [[]|e]; cbn [rbind savepoint]; by rewrite <- IH.
Qed.

(** ** A whole mutation queue *)

(** One mutation in its own transaction. *)
Definition apply_one (ps : permits) (m : permit_mutation) : permits * result bool :=
  if bool_decide (pm_action m = "acquire") then acquire_one ps m
  else if bool_decide (pm_action m = "release") then release_one ps m
  else unknown_mutation ps m.

Lemma individually_ext one one' ps ms :
  (∀ ps m, m ∈ ms → one ps m = one' ps m) → individually one ps ms = individually one' ps ms.
Proof.
  revert ps. induction ms as [|m ms IH]; intros ps H; [done|]. cbn [individually].
  rewrite (H ps m) by constructor. destruct (one' ps m) as [ps' o]. rewrite IH; [done|].
  intros ps2 m2 Hm. apply H. by constructor.
Qed.

Lemma individually_app one ps ms ms' :
  individually one ps (ms ++ ms')
  = let '(ps, os) := individually one ps ms in
    let '(ps, os') := individually one ps ms' in (ps, os ++ os').
Proof.
  revert ps. induction ms as [|m ms IH]; intros ps; cbn [app individually].
  { by destruct (individually one ps ms'). }
  destruct (one ps m) as [ps1 o]. rewrite IH. destruct (individually one ps1 ms) as [ps2 os].
  by destruct (individually one ps2 ms').
Qed.

Lemma run_individually ps a r :
  Forall (λ m, pm_action m = a) r → agree (apply_run ps (a, r)) (individually apply_one ps r).
Proof.
  intros HF. rewrite Forall_forall in HF. unfold apply_run. cbn [fst snd].
  assert (∀ one, (∀ ps m, pm_action m = a → apply_one ps m = one ps m) →
    individually apply_one ps r = individually one ps r) as Hext.
  { intros one Hone. apply individually_ext. intros ps' m Hm. by apply Hone, HF. }
  destruct (bool_decide (a = "acquire")) eqn:Ha; [|destruct (bool_decide (a = "release")) eqn:Hr].
  - rewrite (Hext acquire_one); [apply acquisitions_individually|]. intros ps' m Hm. unfold apply_one. by rewrite Hm, Ha.
  - rewrite (Hext release_one); [rewrite releases_individually; by split|].
    intros ps' m Hm. unfold apply_one. by rewrite Hm, Ha, Hr.
  - rewrite (Hext unknown_mutation); [by split|]. intros ps' m Hm. unfold apply_one. by rewrite Hm, Ha, Hr.
Qed.

Lemma action_runs_spec ms :
  (action_runs ms ≫= snd) = ms ∧ Forall (λ r, Forall (λ m, pm_action m = r.1) r.2) (action_runs ms).
Proof.
  induction ms as [|m ms [IH1 IH2]]; [by split|]. cbn [action_runs].
  destruct (action_runs ms) as [|[a r] rs].
  - cbn in IH1. subst ms. split; [done|]. by repeat constructor.
  - apply Forall_cons in IH2 as [Hr Hrs]. rewrite bind_cons in IH1. cbn [snd] in IH1.
    destruct (bool_decide (pm_action m = a)) eqn:Ha; rewrite !bind_cons; cbn [snd app].
    + apply bool_decide_eq_true_1 in Ha. split; [by rewrite IH1|]. constructor; [by constructor|done].
    + split; [by rewrite IH1|]. repeat constructor; done.
Qed.

Lemma runs_individually ps rs :
  Forall (λ r : string * list permit_mutation, Forall (λ m, pm_action m = r.1) r.2) rs →
  agree (apply_runs ps rs) (individually apply_one ps (rs ≫= snd)).
Proof.
  intros HF. revert ps. induction HF as [|[a r] rs Hr _ IH]; intros ps; [by split|].
  rewrite bind_cons, individually_app. cbn [apply_runs snd].
  destruct (run_individually ps a r Hr) as [H1 H2]. destruct (apply_run ps (a, r)) as [ps1 os1].
  destruct (individually apply_one ps r) as [ps1' os1']. cbn in H1, H2. subst ps1'.
  destruct (IH ps1) as [H3 H4]. destruct (apply_runs ps1 rs) as [ps2 os2].
  destruct (individually apply_one ps1 _) as [ps2' os2']. cbn in H3, H4. subst ps2'.
  split; [done|]. by apply Forall2_app.
Qed.

(** ** What the table always satisfies *)

(** Every permit row was recorded for an execution with exactly that ownership row. *)
Definition permits_owned (ps : permits) : Prop :=
  ∀ x r, ps !! x = Some r → ∃ o, owners d !! x = Some o
    ∧ o_session o = pr_session r ∧ o_addr o = (pr_node r, pr_job r) ∧ o_generation o = pr_generation r.

Lemma require_owner_ok b i ow :
  require_owner b i = Ok ow →
  ∃ o, owners d !! p_execution i = Some o ∧ o_session o = p_session i
    ∧ o_addr o = (p_node i, p_job i) ∧ o_generation o = p_generation i
    ∧ (b = true → job_execution_is_current d (p_node i, p_job i) (p_generation i) (Some (p_execution i)) = true).
Proof.
  unfold require_owner, read_execution_owner. destruct (owners d !! p_execution i) as [o|]; [|done].
  destruct (execution_owner_from_row _ d _ o) as [ow'|] eqn:Ho; [|done]. cbn [rbind].
  destruct (owner_matches i ow') eqn:Hm; [|done]. cbn [rbind].
  destruct (owner_from_row_fields _ _ _ Ho) as (_ & Ha & Hg & Hs).
  unfold owner_matches in Hm. repeat (apply andb_prop in Hm as [Hm ?]).
  repeat match goal with E : bool_decide _ = true |- _ => apply bool_decide_eq_true_1 in E end.
  intros H4. exists o. split; [done|]. split; [congruence|]. split; [congruence|]. split; [lia|].
  intros ->. cbn [negb] in H4. inv_ok. destruct x as [ob|]; [|done].
  apply andb_prop in Hg0 as [Hrun _]. unfold runs_execution in Hrun. repeat (apply andb_prop in Hrun as [Hrun ?]).
  repeat match goal with E : bool_decide _ = true |- _ => apply bool_decide_eq_true_1 in E end.
  destruct (observation_fields _ _ Hx) as (j & Hj & Hgen & Hact & _).
  unfold job_execution_is_current. rewrite Hj, <- Hgen, <- Hact, H3, (bool_decide_true (_ = _)) by done. lia.
Qed.

(** One mutation keeps the table owned and within the limit; what it records is the
    permit asked for, by the job's current execution. *)
Lemma acquire_one_spec ps m ps' o :
  acquire_one ps m = (ps', o) →
  ps' = ps ∨ (∃ row, owners d !! p_execution (pm_identity m) = Some row
      ∧ o_session row = p_session (pm_identity m)
      ∧ o_addr row = (p_node (pm_identity m), p_job (pm_identity m))
      ∧ o_generation row = p_generation (pm_identity m))
    ∧ job_execution_is_current d (p_node (pm_identity m), p_job (pm_identity m))
        (p_generation (pm_identity m)) (Some (p_execution (pm_identity m))) = true
    ∧ ps' = <[p_execution (pm_identity m) := row_of (pm_identity m) (pm_now m)]> ps
    ∧ ps !! p_execution (pm_identity m) = None ∧ o = Ok true
    ∧ ∀ l, thread_limit = Some l → Z.of_nat (size ps) < l.
Proof.
  unfold acquire_one, try_acquire_api_execution_permit.
  destruct (validate_identity _) as [[]|e]; cbn [rbind savepoint]; [|intros [= <- _]; by left].
  destruct (require_owner true _) as [ow|e] eqn:Ho; cbn [rbind savepoint]; [|intros [= <- _]; by left].
  destruct (ps !! p_execution (pm_identity m)) as [r|] eqn:Hr.
  { destruct (recorded_permit _ _ _); cbn; intros [= <- _]; by left. }
  destruct (available_permits ps) as [a|e] eqn:Ha; cbn [rbind savepoint]; [|intros [= <- _]; by left].
  destruct (match a with Some n => _ | None => _ end) eqn:Hfull; [intros [= <- _]; by left|].
  destruct (record_permit _ _ _) as [ps1|e] eqn:Hrec; cbn [rbind savepoint]; [|intros [= <- _]; by left].
  intros [= <- <-]. right. apply require_owner_ok in Ho as (row & H1 & H2 & H3 & H4 & H5).
  split; [by exists row|]. split; [by apply H5|]. split; [by apply record_permit_ok in Hrec|].
  split; [done|]. split; [done|]. intros l Heq. unfold available_permits in Ha. rewrite Heq in Ha. inv_ok. lia.
Qed.

Lemma release_one_spec ps m ps' o :
  release_one ps m = (ps', o) →
  (ps' = ps ∧ o ≠ Ok true) ∨ (ps' = delete (p_execution (pm_identity m)) ps ∧ o = Ok true).
Proof.
  unfold release_one, release_api_execution_permit.
  destruct (validate_identity _) as [[]|e]; cbn [rbind savepoint]; [|intros [= <- <-]; by left].
  destruct (require_owner false _) as [ow|e]; cbn [rbind savepoint]; [|intros [= <- <-]; by left].
  destruct (exact_permit _ _ _) as [[]|e]; cbn [rbind savepoint]; intros [= <- <-]; [by right|by left].
Qed.

Definition within_limit (bound : Z) (ps : permits) : Prop :=
  ∀ l, thread_limit = Some l → Z.of_nat (size ps) <= Z.max l bound.

Lemma apply_one_safe bound ps m :
  permits_owned ps → within_limit bound ps →
  permits_owned (apply_one ps m).1 ∧ within_limit bound (apply_one ps m).1.
Proof.
  intros Ho Hw. unfold apply_one. destruct (bool_decide _); [|destruct (bool_decide _); [|done]].
  - destruct (acquire_one ps m) as [ps' o] eqn:Ha.
    destruct (acquire_one_spec _ _ _ _ Ha) as [->|((row & Hr & Hs & Ha' & Hg) & _ & -> & Hn & _ & Hl)]; [done|].
    cbn. split.
    + intros x r [[<- <-]|[_ Hx]]%lookup_insert_Some; [by exists row|by apply Ho].
    + intros l Heq. rewrite map_size_insert_None by done. specialize (Hl l Heq). lia.
  - destruct (release_one ps m) as [ps' o] eqn:Ha.
    destruct (release_one_spec _ _ _ _ Ha) as [[-> _]|[-> _]]; [done|]. cbn. split.
    + intros x r [_ Hx]%lookup_delete_Some. by apply Ho.
    + intros l Heq. specialize (Hw l Heq). rewrite map_size_delete.
      destruct (ps !! _); unfold id; lia.
Qed.

Lemma individually_safe bound ps ms :
  permits_owned ps → within_limit bound ps →
  permits_owned (individually apply_one ps ms).1 ∧ within_limit bound (individually apply_one ps ms).1.
Proof.
  revert ps. induction ms as [|m ms IH]; intros ps Ho Hw; [done|]. cbn [individually].
  destruct (apply_one_safe bound ps m Ho Hw) as [Ho' Hw']. destruct (apply_one ps m) as [ps1 o].
  specialize (IH ps1 Ho' Hw'). by destruct (individually apply_one ps1 ms).
Qed.

Lemma mutations_individually ps ms :
  agree (apply_api_execution_permit_mutations ps ms) (individually apply_one ps ms).
Proof.
  destruct (action_runs_spec ms) as [H1 H2]. unfold apply_api_execution_permit_mutations.
  rewrite <- H1 at 2. by apply runs_individually.
Qed.

Lemma require_owner_weaken i ow : require_owner true i = Ok ow → require_owner false i = Ok ow.
Proof.
  unfold require_owner. cbn [negb]. intros H. apply rbind_ok in H as (found & -> & H). cbn [rbind].
  apply rbind_ok in H as (ow' & -> & H). cbn [rbind]. by inv_ok.
Qed.

Lemma exact_of_known x r i : permit_from_row x r = Ok i → exact_permit x (Some r) i = Ok tt.
Proof. intros H. unfold exact_permit. rewrite H. cbn [rbind]. by rewrite bool_decide_true. Qed.

Lemma recorded_of_known x r i : permit_from_row x r = Ok i → recorded_permit x r i = Ok true.
Proof. intros H. unfold recorded_permit. rewrite H. cbn [rbind]. by rewrite bool_decide_true. Qed.

(** A successful acquisition leaves exactly the identity's row. *)
Lemma try_acquire_row ps i now ps' :
  try_acquire_api_execution_permit ps i now = Ok (ps', true) →
  ∃ r, ps' !! p_execution i = Some r ∧ permit_from_row (p_execution i) r = Ok i
    ∧ validate_identity i = Ok tt ∧ (∃ ow, require_owner true i = Ok ow)
    ∧ (ps !! p_execution i = None → ps' = <[p_execution i := r]> ps
         ∧ ∀ l, thread_limit = Some l → Z.of_nat (size ps) < l).
Proof.
  unfold try_acquire_api_execution_permit. intros H. apply rbind_ok in H as ([] & Hv & H).
  apply rbind_ok in H as (ow & Ho & H). destruct (ps !! p_execution i) as [r|] eqn:Hr.
  - apply rbind_ok in H as (b & Hb & H). injection H as -> ->. exists r. rewrite Hr.
    unfold recorded_permit in Hb. inv_ok. apply bool_decide_eq_true_1 in Hg. subst x.
    split; [done|]. split; [done|]. split; [done|]. split; [by exists ow|]. done.
  - apply rbind_ok in H as (a & Ha & H). destruct (match a with Some n => _ | None => _ end) eqn:Hfull; [done|].
    apply rbind_ok in H as (ps1 & Hrec & H). injection H as ->. unfold record_permit in Hrec. inv_ok.
    apply bool_decide_eq_true_1 in Hg. subst x. exists (row_of i now). rewrite lookup_insert_eq.
    split; [done|]. split; [done|]. split; [done|]. split; [by exists ow|]. intros _. split; [done|].
    intros l Heq. unfold available_permits in Ha. rewrite Heq in Ha. inv_ok. lia.
Qed.

Lemma elem_of_session_permits ps s x r :
  (x, r) ∈ session_permits ps s ↔ ps !! x = Some r ∧ pr_session r = s.
Proof.
  unfold session_permits. rewrite list_elem_of_omap. split.
  - intros (k & Hk & Hx). apply elem_of_py_sorted, list_elem_of_fmap in Hk as ([y r'] & -> & Hy).
    apply list_elem_of_filter in Hy as [Hs Hy%elem_of_map_to_list]. cbn in Hx, Hs.
    destruct (ps !! y) as [r2|] eqn:Hr2; [|done]. injection Hx as <- <-. split; [done|congruence].
  - intros [Hx Hs]. exists (pr_node r, (pr_job r, (pr_generation r, x))). split.
    + apply elem_of_py_sorted, list_elem_of_fmap. exists (x, r). split; [done|].
      apply list_elem_of_filter. split; [done|]. by apply elem_of_map_to_list.
    + cbn. by rewrite Hx.
Qed.

Lemma release_all_lookup is_ ps ps' :
  release_all ps is_ = Ok ps' →
  ∀ x, ps' !! x = if bool_decide (x ∈ p_execution <$> is_) then None else ps !! x.
Proof.
  revert ps. induction is_ as [|i is_ IH]; intros ps; cbn [release_all fmap list_fmap].
  { intros [= <-] x. by rewrite bool_decide_false by apply not_elem_of_nil. }
  intros H x. apply rbind_ok in H as (ow & _ & H). apply rbind_ok in H as ([ps1 b] & Hr & H).
  unfold release_api_execution_permit in Hr. inv_ok. rewrite (IH _ H x). cbn [fst].
  destruct (decide (x = p_execution i)) as [->|Hne].
  - rewrite lookup_delete_eq. rewrite (bool_decide_true (p_execution i ∈ _ :: _)) by constructor. by destruct (bool_decide _).
  - rewrite lookup_delete_ne by done.
    rewrite (bool_decide_ext (x ∈ p_execution i :: (p_execution <$> is_)) (x ∈ p_execution <$> is_)); [done|].
    rewrite elem_of_cons. tauto.
Qed.

Lemma permit_from_row_execution x r i : permit_from_row x r = Ok i → p_execution i = x.
Proof. unfold permit_from_row. intros H. by inv_ok. Qed.

Lemma session_identities ps s is_ x :
  rmap (λ p, permit_from_row p.1 p.2) (session_permits ps s) = Ok is_ →
  x ∈ p_execution <$> is_ ↔ ∃ r, ps !! x = Some r ∧ pr_session r = s.
Proof.
  intros HF%rmap_ok. rewrite list_elem_of_fmap. split.
  - intros (i & -> & [k Hi]%list_elem_of_lookup). destruct (Forall2_lookup_r _ _ _ _ _ HF Hi) as ([y r] & Hy & Hp).
    cbn in Hp. rewrite (permit_from_row_execution _ _ _ Hp). exists r.
    apply elem_of_session_permits. by apply list_elem_of_lookup_2 in Hy.
  - intros (r & Hr). apply elem_of_session_permits, list_elem_of_lookup in Hr as [k Hk].
    destruct (Forall2_lookup_l _ _ _ _ _ HF Hk) as (i & Hi & Hp). cbn in Hp.
    exists i. split; [by rewrite (permit_from_row_execution _ _ _ Hp)|]. by apply list_elem_of_lookup_2 in Hi.
Qed.

(** ** Properties *)

(** The grouped writer is equivalent to one transaction per mutation in queue order:
    it leaves the same permit table, and request by request both grant, refuse for lack
    of capacity or raise (the text of an error may differ). *)
Theorem grouped_permits_sequential ps ms :
  let grouped := apply_api_execution_permit_mutations ps ms in
  let single := individually apply_one ps ms in
  grouped.1 = single.1
  ∧ Forall2 (λ o o', match o, o' with Ok b, Ok b' => b = b' | Err _, Err _ => True | _, _ => False end)
      grouped.2 single.2.
Proof. exact (mutations_individually ps ms). Qed.

(** C6: whatever mutations are queued, every permit row belongs to an execution whose
    recorded owner it names exactly, and while a limit is set the number of permits
    never grows past it. *)
Theorem permits_bounded ps ms :
  permits_owned ps →
  let ps' := (apply_api_execution_permit_mutations ps ms).1 in
  permits_owned ps'
  ∧ ∀ l, thread_limit = Some l → Z.of_nat (size ps') <= Z.max l (Z.of_nat (size ps)).
Proof.
  intros Ho. cbn zeta. rewrite (proj1 (mutations_individually ps ms)).
  apply (individually_safe (Z.of_nat (size ps)) ps ms Ho). intros l _. lia.
Qed.

(** A granted permit is held by the job's current execution, reads back as present,
    is granted again without a second row, and its release succeeds once, reads back as
    absent and, if the permit was new (so a slot was free), restores the table. *)
Theorem permit_acquire_release ps i now ps' :
  try_acquire_api_execution_permit ps i now = Ok (ps', true) →
  job_execution_is_current d (p_node i, p_job i) (p_generation i) (Some (p_execution i)) = true
  ∧ read_permit_decision ps' i true = Ok (Some true)
  ∧ (∀ later, try_acquire_api_execution_permit ps' i later = Ok (ps', true))
  ∧ release_api_execution_permit ps' i = Ok (delete (p_execution i) ps', true)
  ∧ read_permit_decision (delete (p_execution i) ps') i false = Ok (Some true)
  ∧ is_ok (release_api_execution_permit (delete (p_execution i) ps') i) = false
  ∧ (ps !! p_execution i = None → delete (p_execution i) ps' = ps
       ∧ ∀ l, thread_limit = Some l → Z.of_nat (size ps) < l).
Proof.
  intros (r & Hr & Hk & Hv & (ow & Ho) & Hnew)%try_acquire_row.
  pose proof (require_owner_weaken _ _ Ho) as Hw.
  split; [by destruct (require_owner_ok _ _ _ Ho) as (? & _ & _ & _ & _ & H); apply H|].
  unfold read_permit_decision, try_acquire_api_execution_permit, release_api_execution_permit.
  rewrite Hv, Ho, Hw, Hr, lookup_delete_eq. cbn [rbind].
  rewrite Hk, (exact_of_known _ _ _ Hk), (recorded_of_known _ _ _ Hk). cbn [rbind].
  rewrite bool_decide_true by done. repeat (split; [done|]).
  intros Hn. destruct (Hnew Hn) as [-> Hl]. split; [by rewrite delete_insert_id|done].
Qed.

(** settling a session either fails as a whole or removes exactly the session's own
    permits and reports how many there were. *)
Theorem session_permits_cleared ps s ps' n :
  clear_api_execution_permits_for_session ps s = Ok (ps', n) →
  (∀ x, ps' !! x = r ← ps !! x; if decide (pr_session r = s) then None else Some r)
  ∧ n = length (session_permits ps s).
Proof.
  unfold clear_api_execution_permits_for_session. intros H. inv_ok.
  split; [|by apply rmap_ok, Forall2_length in Hx]. intros y.
  rewrite (release_all_lookup _ _ _ Hx0 y).
  destruct (bool_decide (y ∈ p_execution <$> x)) eqn:Hy.
  - apply bool_decide_eq_true_1 in Hy. apply (session_identities _ _ _ _ Hx) in Hy as (r & -> & Hs). cbn.
    by rewrite decide_True.
  - apply bool_decide_eq_false_1 in Hy. destruct (ps !! y) as [r|] eqn:Hr; [|done]. cbn.
    rewrite decide_False; [done|]. intros Hs. apply Hy. apply (session_identities _ _ _ _ Hx). by exists r.
Qed.
End permits.

(** ** Two API jobs and one permit *)

Module PermitSample.

Definition xa : string := "aaaaaaaaaaaaaaaaaaaaaaaaaaaaaaaa".
Definition xb : string := "bbbbbbbbbbbbbbbbbbbbbbbbbbbbbbbb".

(** Both jobs of the sample project claimed. *)
Definition running : db :=
  match Sample.claim Sample.db0 [Sample.batch 1 xa; Sample.batch 2 xb] with Ok (d, _) => d | Err _ => Sample.db0 end.

Definition ia : permit_identity := PermitIdentity "s" "a" 1 0 xa.
Definition ib : permit_identity := PermitIdentity "s" "a" 2 0 xb.

Definition ask (i : permit_identity) : permit_mutation := PermitMutation "acquire" i "2024-01-01T00:00:00".
Definition give (i : permit_identity) : permit_mutation := PermitMutation "release" i "".

Definition apply (limit : option Z) : permits → list permit_mutation → permits * list (result bool) :=
  apply_api_execution_permit_mutations Sample.snap (λ _, true) running limit.

(** With one permit the second job waits until the first one releases. *)
Example one_permit :
  (apply (Some 1) ∅ [ask ia; ask ib; give ia; ask ib; ask ib; give ia]).2
  = [Ok true; Ok false; Ok true; Ok true; Ok true; raise RuntimeError "Exact API execution permit is missing"].
Proof. vm_compute. reflexivity. Qed.

Definition held : permits := (apply (Some 1) ∅ [ask ia]).1.

End PermitSample.

Lemma permits_bounded_witness :
  Z.of_nat (size (PermitSample.apply (Some 1) ∅ [PermitSample.ask PermitSample.ia; PermitSample.ask PermitSample.ib]).1) <= 1.
Proof.
  destruct (permits_bounded Sample.snap (λ _, true) PermitSample.running (Some 1) ∅
    [PermitSample.ask PermitSample.ia; PermitSample.ask PermitSample.ib]) as [_ H].
  - intros x r Hx. rewrite lookup_empty in Hx. discriminate.
  - exact (H 1 eq_refl).
Defined.

Lemma permit_acquire_release_witness :
  match try_acquire_api_execution_permit Sample.snap (λ _, true) PermitSample.running (Some 1) ∅ PermitSample.ia "t" with
  | Ok (ps', true) =>
      release_api_execution_permit Sample.snap (λ _, true) PermitSample.running ps' PermitSample.ia
      = Ok (delete PermitSample.xa ps', true)
  | _ => False
  end.
Proof.
  destruct (try_acquire_api_execution_permit _ _ _ _ _ _ _) as [[ps' [|]]|e] eqn:H;
    [|vm_compute in H; discriminate|vm_compute in H; discriminate].
  exact (proj1 (proj2 (proj2 (proj2 (permit_acquire_release _ _ _ _ _ _ _ _ H))))).
Defined.

Lemma session_permits_cleared_witness :
  match clear_api_execution_permits_for_session Sample.snap (λ _, true) PermitSample.running PermitSample.held "s" with
  | Ok (ps', n) => ps' !! PermitSample.xa = None ∧ n = 1%nat
  | Err _ => False
  end.
Proof.
  destruct (clear_api_execution_permits_for_session _ _ _ _ _) as [[ps' n]|e] eqn:H; [|vm_compute in H; discriminate].
  destruct (session_permits_cleared _ _ _ _ _ _ _ H) as [H1 H2]. split.
  - rewrite H1. vm_compute. reflexivity.
  - rewrite H2. vm_compute. reflexivity.
Defined.
