(* ===== verification/PermitControl.v ===== *)
(** The runtime controller of one API permit ([workflow/api_admission.py]) and the
    resolution of its writer futures ([workflow/admission_wait.py]).

    The controller is written against an interface, [PermitServices]: what the storage
    promises about one execution's durable permit.  [Permits] is shown to keep these
    promises at the end of the file, for a writer whose outcome may be lost or whose
    delivery may be interrupted at any call. *)
From S2P Require Import Prelude Topology JobStore Permits.

(** [ApiPermitStateError] and its two subclasses. *)
Definition is_permit_error (e : exc) : bool := bool_decide (exc_cls e = ApiPermitStateError).
Definition admission_error (msg : string) : exc := Exc ApiPermitStateError msg.
Definition release_error (msg : string) : exc := Exc ApiPermitStateError msg.

(** ** Waiting for a writer ([admission_wait.py]) *)

(** One [future.result()] that did not simply return: what was delivered, whether the
    future was done then, the exception it retains, and whether that is the very
    exception delivered. *)
Inductive poll A :=
  | Delivered (v : A)
  | Raised (e : exc) (done : bool) (stored : option exc) (same : bool).
Arguments Delivered {A} v.
Arguments Raised {A} e done stored same.

(** [_DrainedAdmission]: the value or the writer's error, and the first interruption. *)
Record drained A := Drained {
  dr_value : A + exc;
  dr_interruption : option exc
}.
Arguments Drained {A} dr_value dr_interruption.
Arguments dr_value {A}.
Arguments dr_interruption {A}.

(** [_record_interruption]; notes on exceptions are not modelled. *)
Definition record_interruption (interruption : option exc) (e : exc) : option exc :=
  match interruption with Some i => Some i | None => Some e end.

(** [_drain_admission_future] over the polls the waiter sees; [None] while waiting. *)
Fixpoint drain_future {A} (polls : list (poll A)) (interruption : option exc) : option (drained A) :=
  match polls with
  | [] => None
  | Delivered v :: _ => Some (Drained (inl v) interruption)
  | Raised e done stored same :: polls =>
      if negb done then drain_future polls (record_interruption interruption e)
      else
        match stored with
        | None => drain_future polls (record_interruption interruption e)
        | Some w => Some (Drained (inr w) (if same then interruption else record_interruption interruption e))
        end
  end.

(** [_DrainedAdmission.retained_error] when the writer failed with [w]. *)
Definition retained_error {A} (d : drained A) (w : exc) : exc := default w (dr_interruption d).

(** [AdmissionWaitResult]. *)
Record wait_result := WaitResult { wr_value : bool; wr_interruption : option exc }.

(** ** The controller *)

(** What the controller asks of the system it runs in, for its own execution. *)
Class PermitServices (W : Type) := {
  check_current : W → result unit * W;
  pause_children : W → result bool * W;
  acknowledge_pauses : W → result bool * W;
  pause_sleep : W → result unit * W;
  submit_acquire : W → result (drained bool) * W;
  submit_release : W → result (drained bool) * W;
  read_decision : bool → W → result (option bool) * W;
  (** Whether the permit row exists; not observable by the controller. *)
  durable : W → bool
}.

(** What the storage promises about the permit row. *)
Class PermitLaws (W : Type) `{PermitServices W} := {
  check_durable w : durable (check_current w).2 = durable w;
  children_durable w : durable (pause_children w).2 = durable w;
  acknowledge_durable w : durable (acknowledge_pauses w).2 = durable w;
  sleep_durable w : durable (pause_sleep w).2 = durable w;
  read_durable b w : durable (read_decision b w).2 = durable w;
  read_present w r w' : read_decision true w = (Ok r, w') →
    r = if durable w then Some true else None;
  read_absent w r w' : read_decision false w = (Ok r, w') →
    r = if durable w then None else Some true;
  acquire_unsent w e w' : submit_acquire w = (Err e, w') → durable w' = durable w;
  acquire_value w d b w' : submit_acquire w = (Ok d, w') → dr_value d = inl b → durable w' = b;
  release_value w d w' : submit_release w = (Ok d, w') → dr_value d = inl true → durable w' = false
}.

Section controller.
Context {W : Type} `{PermitServices W}.
(** The controller's identity. *)
Context (me : permit_identity).

Record pstate := PState { held : bool; current : option permit_identity; world : W }.

Definition call {A} (f : W → result A * W) : cmd pstate A := λ s,
  let '(r, w) := f (world s) in (r, PState (held s) (current s) w).

Definition set_held (b : bool) : cmd pstate unit := λ s, (Ok tt, PState b (current s) (world s)).

(** [resolve_admission_future] after the drain. *)
Definition resolve (d : drained bool) (present : bool) : cmd pstate wait_result :=
  match dr_value d with
  | inl v => ret (WaitResult v (dr_interruption d))
  | inr w =>
      let retained := retained_error d w in
      do! durable := catch (call (read_decision present)) (λ _, throw retained) in
      match durable with
      | None => throw retained
      | Some b => ret (WaitResult b (Some retained))
      end
  end.

(** [_PermitController.release]. *)
Definition release : cmd pstate unit := λ s,
  if negb (held s) then (Ok tt, s)
  else
    catch
      (do! d := call submit_release in
       do! settled := resolve d false in
       if negb (wr_value settled) then throw (Exc RuntimeError "API permit release returned an invalid result")
       else
         do! _ := set_held false in
         match wr_interruption settled with
         | Some _ => throw (release_error "API permit release was interrupted after its writer decision")
         | None => ret tt
         end)
      (λ _, throw (release_error "API execution permit could not be released")) s.

(** The pause loop of [_wait_for_prepermit_pause]; [None] when still paused after
    [fuel] rounds. *)
Fixpoint pause_loop (fuel : nat) (children : bool) : cmd pstate (option bool) :=
  if negb children then ret (Some true)
  else
    match fuel with
    | O => ret None
    | S fuel =>
        do! _ := call check_current in
        do! _ := call pause_sleep in
        do! _ := call check_current in
        do! children := call pause_children in
        pause_loop fuel children
    end.

(** [_wait_for_prepermit_pause]. *)
Definition wait_for_prepermit_pause (fuel : nat) : cmd pstate (option bool) := λ s,
  if held s then (Err (Exc RuntimeError "Pre-permit pause wait still owns API capacity"), s)
  else
    catch
      (do! children := call pause_children in
       if negb children then ret (Some false)
       else do! children := call acknowledge_pauses in pause_loop fuel children)
      (λ e, if is_permit_error e then throw e
            else do! _ := call check_current in
                 throw (admission_error "Claimed API execution could not resolve its interrupt pause")) s.

(** A failed resolution: read the durable row before anything else. *)
Definition resolve_failed : cmd pstate wait_result :=
  do! durable := catch (call (read_decision true))
    (λ _, throw (admission_error "API permit admission outcome could not be resolved")) in
  match durable with
  | Some true =>
      do! _ := set_held true in
      do! _ := release in
      throw (admission_error "API permit admission stopped after its durable insert")
  | Some false => throw (admission_error "API permit admission readback returned an invalid result")
  | None =>
      do! _ := call check_current in
      throw (admission_error "Claimed API execution could not establish its durable permit")
  end.

(** One admission request, up to its settled answer. *)
Definition request_permit : cmd pstate bool :=
  catch
    (do! d := call submit_acquire in
     do! settled := catch (resolve d true) (λ _, resolve_failed) in
     do! _ := (if wr_value settled then set_held true else ret tt) in
     match wr_interruption settled with
     | Some _ =>
         do! _ := (if wr_value settled then release else ret tt) in
         throw (admission_error "API permit admission was interrupted after its writer decision")
     | None => ret (wr_value settled)
     end)
    (λ e, if is_permit_error e then throw e
          else do! _ := call check_current in
               throw (admission_error "Claimed API execution could not establish its durable permit")).

(** One turn of [_PermitController.acquire]'s loop; [again] is the next turn. *)
Definition acquire_round (fuel : nat) (again : cmd pstate (option unit)) : cmd pstate (option unit) :=
  do! _ := call check_current in
  do! paused := wait_for_prepermit_pause fuel in
  match paused with
  | None => ret None
  | Some true => again
  | Some false =>
      do! acquired := request_permit in
      if acquired then
        do! _ := catch (call check_current) (λ e, do! _ := release in throw e) in
        do! pause_pending := catch (call pause_children) (λ _,
          do! _ := release in
          throw (admission_error "Claimed API execution could not validate interrupt pause state")) in
        if pause_pending then
          do! _ := release in
          do! paused := wait_for_prepermit_pause fuel in
          match paused with None => ret None | Some _ => again end
        else ret (Some tt)
      else
        do! _ := call check_current in
        do! _ := call pause_sleep in
        again
  end.

(** [_PermitController.acquire]; [None] when still waiting after [fuel] turns. *)
Fixpoint acquire (fuel : nat) : cmd pstate (option unit) := λ s,
  if held s then (Ok (Some tt), s)
  else match fuel with O => (Ok None, s) | S fuel => acquire_round fuel (acquire fuel) s end.

(** ** The permit around a task, and at its checkpoints *)

Definition set_current (c : option permit_identity) : cmd pstate unit := λ s, (Ok tt, PState (held s) c (world s)).

(** [_context_controller]: whether a controller is current; it must be this one. *)
Definition context_controller (expected : permit_identity) : cmd pstate bool := λ s,
  match current s with
  | None => (Ok false, s)
  | Some i => if bool_decide (i = expected) then (Ok true, s)
              else (Err (Exc RuntimeError "Checkpoint API permit does not match its execution"), s)
  end.

(** [release_current_api_execution_permit]. *)
Definition release_current_api_execution_permit (expected : permit_identity) : cmd pstate bool :=
  do! c := context_controller expected in
  if negb c then ret false else do! _ := release in ret true.

(** [reacquire_current_api_execution_permit]. *)
Definition reacquire_current_api_execution_permit (fuel : nat) (expected : permit_identity)
  : cmd pstate (option bool) :=
  do! c := context_controller expected in
  if negb c then ret (Some false)
  else do! r := acquire fuel in match r with None => ret None | Some _ => ret (Some true) end.

(** The exit of [api_execution_permit]: release, then restore the context. *)
Definition leave_permit {A} (previous : option permit_identity) (r : result A) : cmd pstate (option A) := λ s,
  let '(released, s) := release s in
  let s := PState (held s) previous (world s) in
  match released with
  | Err _ => (Err (release_error "API execution stopped before its durable permit could be released"), s)
  | Ok _ => match r with Ok a => (Ok (Some a), s) | Err e => (Err e, s) end
  end.

(** [with api_execution_permit(...): body]; [api] tells whether the node's runner is the
    API runner. *)
Definition api_execution_permit {A} (api : bool) (fuel : nat) (body : cmd pstate A) : cmd pstate (option A) := λ s,
  if negb api then (do! a := body in ret (Some a)) s
  else
    (do! r := acquire fuel in
     match r with
     | None => ret None
     | Some _ => λ s,
         let previous := current s in
         let '(r, s) := body (PState (held s) (Some me) (world s)) in
         leave_permit previous r s
     end) s.

End controller.

Section facts.
Context {W : Type} `{PermitLaws W}.
Context (me : permit_identity).
Implicit Types (c : option permit_identity).

(** The controller owns no capacity, or owns it knowingly. *)
Definition idle c (s : pstate) : Prop := current s = c ∧ held s = false ∧ durable (world s) = false.
Definition holding c (s : pstate) : Prop := current s = c ∧ held s = true ∧ durable (world s) = true.

(** Capacity the controller does not know of is never there. *)
Definition sound c (s : pstate) : Prop := current s = c ∧ (held s = false → durable (world s) = false).

(** Success gives [R]; an error is about permits or leaves no capacity owned. *)
Definition after {A} c (R : A → pstate → Prop) (r : result A) (s : @pstate W) : Prop :=
  match r with
  | Ok a => R a s
  | Err e => current s = c ∧ (is_permit_error e = true ∨ idle c s)
  end.

Lemma triple_bind {A B} P (m : cmd pstate A) (k : A → cmd pstate B) c R Q :
  triple P m (after c R) → (∀ a, triple (R a) (k a) (after c Q)) → triple P (cbind m k) (after c Q).
Proof. intros Hm Hk. eapply triple_cbind; [exact Hm|exact Hk|]. by intros e s Hs. Qed.

Lemma triple_ret {A} (a : A) c (R : A → pstate → Prop) : triple (R a) (ret a) (after c R).
Proof. by intros s. Qed.

Lemma triple_throw {A} c e (R : A → pstate → Prop) : triple (idle c) (throw e) (after c R).
Proof. intros s Hs. split; [apply Hs|by right]. Qed.

Lemma triple_throw_permit {A} c e (R : A → pstate → Prop) :
  is_permit_error e = true → triple (λ s, current s = c) (throw e) (after c R).
Proof. intros He s Hs. split; [exact Hs|by left]. Qed.

(** Calls that leave the row alone. *)
Class Harmless {A} (f : W → result A * W) : Prop := harmless w : durable (f w).2 = durable w.

#[local] Instance check_harmless : Harmless check_current := check_durable.
#[local] Instance children_harmless : Harmless pause_children := children_durable.
#[local] Instance acknowledge_harmless : Harmless acknowledge_pauses := acknowledge_durable.
#[local] Instance sleep_harmless : Harmless pause_sleep := sleep_durable.
#[local] Instance read_harmless b : Harmless (read_decision b) := read_durable b.

Lemma call_keeps {A} (f : W → result A * W) `{!Harmless f} s :
  current (call f s).2 = current s ∧ held (call f s).2 = held s
    ∧ durable (world (call f s).2) = durable (world s).
Proof. unfold call. pose proof (harmless (world s)). by destruct (f (world s)). Qed.

Lemma call_idle {A} (f : W → result A * W) `{!Harmless f} c :
  triple (idle c) (call f) (after c (λ _, idle c)).
Proof.
  intros s (Hc & Hh & Hd). destruct (call_keeps f s) as (H1 & H2 & H3).
  assert (idle c (call f s).2) as Hi by (split; [congruence|split; congruence]).
  destruct (call f s) as [[a|e] s1]; cbn in *; [done|]. split; [apply Hi|by right].
Qed.

Lemma call_holding {A} (f : W → result A * W) `{!Harmless f} c :
  triple (holding c) (call f) (λ _, holding c).
Proof.
  intros s (Hc & Hh & Hd). destruct (call_keeps f s) as (H1 & H2 & H3).
  split; [congruence|split; congruence].
Qed.

Lemma resolve_spec d present s :
  let '(r, s') := resolve d present s in
  current s' = current s ∧ held s' = held s ∧ durable (world s') = durable (world s)
  ∧ match r with
    | Err _ => ∃ e, dr_value d = inr e
    | Ok wr => dr_value d = inl (wr_value wr)
               ∨ wr_value wr = true ∧ durable (world s) = present
    end.
Proof.
  unfold resolve. destruct (dr_value d) as [v|e] eqn:Hd.
  { cbn. auto 10. }
  unfold cbind, catch, call. destruct (read_decision present (world s)) as [[r|e'] w] eqn:Hr.
  - pose proof (read_durable present (world s)) as Hw. rewrite Hr in Hw. cbn in Hw.
    destruct present.
    + apply read_present in Hr. destruct (durable (world s)) eqn:Hdur; subst r; cbn; eauto 10.
    + apply read_absent in Hr. destruct (durable (world s)) eqn:Hdur; subst r; cbn; eauto 10.
  - pose proof (read_durable present (world s)) as Hw. rewrite Hr in Hw. cbn in *. eauto 10.
Qed.

(** A release raises a permit error, or no capacity is owned any more. *)
Lemma release_spec c : triple (sound c) release
  (λ r s, match r with Ok _ => idle c s | Err e => current s = c ∧ is_permit_error e = true end).
Proof.
  intros s [Hc Hs]. unfold release. destruct (held s) eqn:Hh; cbn [negb]; [|cbn; split; auto].
  unfold catch, cbind, call. destruct (submit_release (world s)) as [[d|e] w] eqn:Hsub; [|split; [exact Hc|reflexivity]].
  pose proof (resolve_spec d false (PState (held s) (current s) w)) as Hres.
  rewrite Hh in Hres. rewrite Hh. destruct (resolve d false _) as [[wr|e] s1]; cbn in Hres |- *. 2: { destruct Hres as (H1 & _). split; [congruence|done]. }
  destruct Hres as (H1 & H2 & H3 & H4). destruct (wr_value wr) eqn:Hv; cbn; [|split; [congruence|done]].
  assert (durable (world s1) = false) as Hdur.
  { rewrite H3. destruct H4 as [H4|[_ H4]]; [|done]. by eapply release_value. }
  destruct (wr_interruption wr); cbn; (split; [cbn; congruence|done]).
Qed.

(** Releasing what is held, then raising [e]. *)
Lemma release_then {A} c (m : cmd pstate A) (R : A → pstate → Prop) :
  triple (idle c) m (after c R) → triple (sound c) (do! _ := release in m) (after c R).
Proof.
  intros Hm. eapply (triple_bind _ _ _ _ (λ _, idle c)); [|by intros []].
  eapply triple_weaken; [apply (release_spec c)|done|].
  intros [[]|e] s Hs; [exact Hs|]. split; [apply Hs|left; apply Hs].
Qed.

Lemma holding_sound c s : holding c s → sound c s.
Proof. intros (H1 & H2 & H3). split; [done|intros; congruence]. Qed.

(** What waiting leaves: no capacity, whether or not it is over. *)
Definition still_idle {A} c (r : option A) (s : @pstate W) : Prop := idle c s.

Lemma check_then_admission_error {A} c msg (R : A → pstate → Prop) :
  triple (idle c) (do! _ := call check_current in throw (admission_error msg)) (after c R).
Proof. eapply triple_bind; [apply call_idle, _|]. intros []. apply triple_throw. Qed.

Lemma pause_loop_idle c fuel children :
  triple (idle c) (pause_loop fuel children) (after c (still_idle c)).
Proof.
  revert children. induction fuel as [|fuel IH]; intros [|]; cbn [pause_loop negb];
    try exact (triple_ret (Some true) c (still_idle c)).
  eapply triple_bind; [apply call_idle, _|]. intros [].
  eapply triple_bind; [apply call_idle, _|]. intros [].
  eapply triple_bind; [apply call_idle, _|]. intros [].
  eapply triple_bind; [apply call_idle, _|]. intros b. apply IH.
Qed.

Lemma wait_idle c fuel :
  triple (idle c) (wait_for_prepermit_pause fuel) (after c (still_idle c)).
Proof.
  intros s Hs. unfold wait_for_prepermit_pause. rewrite (proj1 (proj2 Hs)). revert s Hs.
  apply (triple_catch _ _ _ (λ e s, current s = c ∧ (is_permit_error e = true ∨ idle c s))).
  - eapply (triple_bind _ _ _ c (λ _, idle c)); [apply call_idle, _|].
    intros [|]; cbn [negb]; [|exact (triple_ret (Some false) c (still_idle c))].
    eapply triple_bind; [apply call_idle, _|]. apply pause_loop_idle.
  - intros e. destruct (is_permit_error e) eqn:He.
    + intros s [Hc _]. split; [exact Hc|by left].
    + intros s [_ [?|Hs]]; [done|]. by apply check_then_admission_error.
Qed.

(** After a failed resolution only permit errors can hide capacity. *)
Lemma resolve_failed_spec c :
  triple (λ s, current s = c ∧ held s = false) resolve_failed (after c (λ _ _, False)).
Proof.
  intros s [Hc Hh].
  destruct (read_decision true (world s)) as [[r|e] w] eqn:Hr.
  2:{ assert (resolve_failed s = (Err (admission_error "API permit admission outcome could not be resolved"),
                                  PState (held s) (current s) w)) as ->.
      { unfold resolve_failed, cbind, catch, call. by rewrite Hr. }
      split; [exact Hc|by left]. }
  pose proof (read_durable true (world s)) as Hw. rewrite Hr in Hw. cbn [snd] in Hw.
  pose proof (read_present _ _ _ Hr) as Hp. destruct (durable (world s)) eqn:Hd; subst r.
  - assert (resolve_failed s
      = (do! _ := release in throw (admission_error "API permit admission stopped after its durable insert"))
          (PState true (current s) w)) as ->.
    { unfold resolve_failed, cbind, catch, call. by rewrite Hr. }
    apply (release_then c (throw _)); [apply triple_throw|]. by split.
  - assert (resolve_failed s
      = (do! _ := call check_current in
         throw (admission_error "Claimed API execution could not establish its durable permit"))
          (PState (held s) (current s) w)) as ->.
    { unfold resolve_failed, cbind, catch, call. by rewrite Hr. }
    by apply check_then_admission_error.
Qed.

Definition granted c (b : bool) (s : @pstate W) : Prop := if b then holding c s else idle c s.

(** The writer's settled answer is the truth, not yet acted on. *)
Definition answered c (b : bool) (s : @pstate W) : Prop :=
  current s = c ∧ held s = false ∧ durable (world s) = b.

Lemma submit_acquire_spec c :
  triple (idle c) (call submit_acquire)
    (after c (λ d s, current s = c ∧ held s = false ∧ ∀ b, dr_value d = inl b → durable (world s) = b)).
Proof.
  intros s (Hc & Hh & Hd). unfold call. destruct (submit_acquire (world s)) as [[d|e] w] eqn:Hsub; cbn.
  - split; [exact Hc|]. split; [exact Hh|]. intros b Hb. by eapply acquire_value.
  - apply acquire_unsent in Hsub. split; [exact Hc|]. right. split; [exact Hc|]. split; [exact Hh|]. cbn. congruence.
Qed.

Lemma resolve_acquire_spec c d :
  triple (λ s, current s = c ∧ held s = false ∧ ∀ b, dr_value d = inl b → durable (world s) = b)
    (catch (resolve d true) (λ _, resolve_failed)) (after c (λ r, answered c (wr_value r))).
Proof.
  apply (triple_catch _ _ _ (λ _ s, current s = c ∧ held s = false)).
  - intros s (Hc & Hh & Hd). pose proof (resolve_spec d true s) as Hres.
    destruct (resolve d true s) as [[r|e] s1]; destruct Hres as (H1 & H2 & H3 & H4).
    + split; [cbn; congruence|]. split; [cbn; congruence|]. cbn. rewrite H3.
      destruct H4 as [H4|[H4 H5]]; [by apply Hd|by rewrite H4].
    + split; cbn; congruence.
  - intros e. eapply triple_weaken; [apply (resolve_failed_spec c)|done|].
    intros [r|e'] s Hs; [done|exact Hs].
Qed.

Lemma settle_spec c (r : wait_result) :
  triple (answered c (wr_value r))
    (do! _ := (if wr_value r then set_held true else ret tt) in
     match wr_interruption r with
     | Some _ =>
         do! _ := (if wr_value r then release else ret tt) in
         throw (admission_error "API permit admission was interrupted after its writer decision")
     | None => ret (wr_value r)
     end) (after c (granted c)).
Proof.
  apply (triple_bind _ _ _ c (λ _, granted c (wr_value r))).
  { intros s (Hc & Hh & Hd). destruct (wr_value r); by cbn. }
  intros _. destruct (wr_interruption r); [|apply (triple_ret (wr_value r) c (granted c))].
  destruct (wr_value r); cbn [granted].
  - eapply triple_weaken; [apply (release_then c), triple_throw|apply holding_sound|done].
  - eapply (triple_bind _ _ _ c (λ _, idle c)); [by intros s Hs|]. intros _. apply triple_throw.
Qed.

Lemma request_permit_spec c : triple (idle c) request_permit (after c (granted c)).
Proof.
  apply (triple_catch _ _ _ (λ e s, current s = c ∧ (is_permit_error e = true ∨ idle c s))).
  - eapply triple_weaken; [|done|].
    + eapply triple_bind; [apply submit_acquire_spec|]. intros d.
      eapply triple_bind; [apply resolve_acquire_spec|]. intros r. apply settle_spec.
    + by intros [b|e] s Hs.
  - intros e. destruct (is_permit_error e) eqn:He.
    + intros s [Hc _]. split; [exact Hc|by left].
    + intros s [_ [?|Hs]]; [done|]. by apply check_then_admission_error.
Qed.

(** Where an acquisition ends. *)
Definition acquired c (r : option unit) (s : @pstate W) : Prop :=
  match r with Some _ => holding c s | None => idle c s end.

(** A check made while the new permit is held gives the permit back before raising. *)
Lemma checked_holding {A} c (f : W → result A * W) `{!Harmless f} (h : exc → cmd pstate A) :
  (∀ e, triple (sound c) (h e) (after c (λ _, holding c))) →
  triple (holding c) (catch (call f) h) (after c (λ _, holding c)).
Proof.
  intros Hh. apply (triple_catch _ _ _ (λ _, holding c)).
  - eapply triple_weaken; [apply (call_holding f c)|done|]. by intros [a|e] s Hs.
  - intros e. eapply triple_weaken; [apply Hh|apply holding_sound|done].
Qed.

Lemma acquire_round_spec c fuel again :
  triple (idle c) again (after c (acquired c)) →
  triple (idle c) (acquire_round fuel again) (after c (acquired c)).
Proof.
  intros Hagain. eapply triple_bind; [apply call_idle, _|]. intros [].
  eapply triple_bind; [apply wait_idle|].
  intros [[|]|]; [exact Hagain| |exact (triple_ret None c (acquired c))].
  eapply triple_bind; [apply request_permit_spec|]. intros [|]; cbn [granted].
  - eapply triple_bind; [apply (checked_holding c check_current)|].
    { intros e. apply (release_then c (throw e)), triple_throw. }
    intros []. eapply triple_bind; [apply (checked_holding c pause_children)|].
    { intros e. apply (release_then c (throw _)), triple_throw. }
    intros [|]; [|exact (triple_ret (Some tt) c (acquired c))].
    eapply triple_weaken; [apply (release_then c)|apply holding_sound|done].
    eapply triple_bind; [apply wait_idle|]. intros [b|]; [exact Hagain|exact (triple_ret None c (acquired c))].
  - eapply triple_bind; [apply call_idle, _|]. intros [].
    eapply triple_bind; [apply call_idle, _|]. intros []. exact Hagain.
Qed.

Lemma acquire_spec c fuel :
  triple (λ s, idle c s ∨ holding c s) (acquire fuel) (after c (acquired c)).
Proof.
  induction fuel as [|fuel IH]; intros s [Hs|Hs]; cbn [acquire]; rewrite (proj1 (proj2 Hs)); [exact Hs|exact Hs| |exact Hs].
  assert (triple (idle c) (acquire fuel) (after c (acquired c))) as IH'.
  { eapply triple_weaken; [exact IH|by left|done]. }
  by apply acquire_round_spec.
Qed.

(** ** Fuel is only a cut-off *)

(** [m'] does what [m] does wherever [m] is done. *)
Definition extends {A} (m m' : cmd (@pstate W) (option A)) : Prop := ∀ s, (m s).1 ≠ Ok None → m' s = m s.

Lemma extends_refl {A} (m : cmd pstate (option A)) : extends m m.
Proof. by intros s. Qed.

Lemma extends_trans {A} (m1 m2 m3 : cmd pstate (option A)) : extends m1 m2 → extends m2 m3 → extends m1 m3.
Proof. intros H1 H2 s Hs. rewrite <- (H1 s Hs). apply H2. by rewrite (H1 s Hs). Qed.

Lemma extends_bind {A B} (m : cmd pstate B) (k k' : B → cmd pstate (option A)) :
  (∀ b, extends (k b) (k' b)) → extends (cbind m k) (cbind m k').
Proof. intros Hk s. unfold cbind. destruct (m s) as [[b|e] s1]; [apply Hk|done]. Qed.

Lemma extends_bind_option {A B} (m m' : cmd pstate (option B)) (k k' : B → cmd pstate (option A)) :
  extends m m' → (∀ b, extends (k b) (k' b)) →
  extends (do! r := m in match r with Some b => k b | None => ret None end)
    (do! r := m' in match r with Some b => k' b | None => ret None end).
Proof.
  intros Hm Hk s Hs. unfold cbind in *. specialize (Hm s).
  destruct (m s) as [[[b|]|e] s1]; cbn in *; [|done|by rewrite Hm].
  rewrite Hm by done. by apply Hk.
Qed.

Lemma extends_catch {A} (m m' : cmd pstate (option A)) h : extends m m' → extends (catch m h) (catch m' h).
Proof.
  intros Hm s Hs. unfold catch in *. specialize (Hm s).
  destruct (m s) as [[[b|]|e] s1]; cbn in *; [by rewrite Hm|done|by rewrite Hm].
Qed.

Lemma pause_loop_extends fuel children : extends (pause_loop fuel children) (pause_loop (S fuel) children).
Proof.
  revert children. induction fuel as [|fuel IH]; intros [|]; try by apply extends_refl.
  { by intros s Hs. }
  change (extends
    (do! _ := call check_current in do! _ := call pause_sleep in do! _ := call check_current in
     do! children := call pause_children in pause_loop fuel children)
    (do! _ := call check_current in do! _ := call pause_sleep in do! _ := call check_current in
     do! children := call pause_children in pause_loop (S fuel) children)).
  do 3 (apply extends_bind; intros []). apply extends_bind. intros b. apply IH.
Qed.

Lemma wait_extends fuel : extends (wait_for_prepermit_pause fuel) (wait_for_prepermit_pause (S fuel)).
Proof.
  intros s. unfold wait_for_prepermit_pause. destruct (held s); [done|]. revert s.
  refine (extends_catch _ _ _ _).
  apply extends_bind. intros [|]; [|apply extends_refl]. apply extends_bind. intros b. apply pause_loop_extends.
Qed.

Lemma acquire_round_extends fuel again again' :
  extends again again' → extends (acquire_round fuel again) (acquire_round (S fuel) again').
Proof.
  intros Ha. unfold acquire_round. apply extends_bind. intros [].
  refine (extends_bind_option _ _ _ _ (wait_extends _) _). intros [|]; [exact Ha|].
  apply extends_bind. intros [|]; [|apply extends_bind; intros []; apply extends_bind; intros []; exact Ha].
  apply extends_bind. intros []. apply extends_bind. intros [|]; [|apply extends_refl]. apply extends_bind. intros [].
  refine (extends_bind_option _ _ _ _ (wait_extends _) _). intros b. exact Ha.
Qed.

Lemma acquire_extends n k : extends (acquire n) (acquire (n + k)).
Proof.
  assert (∀ m, extends (acquire m) (acquire (S m))) as Hstep.
  { induction m as [|m IH]; intros s; cbn [acquire]; destruct (held s); try done.
    by apply acquire_round_extends. }
  induction k as [|k IH]; [rewrite Nat.add_0_r; apply extends_refl|].
  rewrite Nat.add_succ_r. eapply extends_trans; [exact IH|apply Hstep].
Qed.

(** A system that refuses [n] times and then grants, undisturbed. *)
Inductive grants : nat → W → Prop :=
  | grants_now w w1 w2 w3 w4 w5 :
      check_current w = (Ok tt, w1) → pause_children w1 = (Ok false, w2) →
      submit_acquire w2 = (Ok (Drained (inl true) None), w3) →
      check_current w3 = (Ok tt, w4) → pause_children w4 = (Ok false, w5) → grants 0 w
  | grants_later n w w1 w2 w3 w4 w5 :
      check_current w = (Ok tt, w1) → pause_children w1 = (Ok false, w2) →
      submit_acquire w2 = (Ok (Drained (inl false) None), w3) →
      check_current w3 = (Ok tt, w4) → pause_sleep w4 = (Ok tt, w5) → grants n w5 → grants (S n) w.

Lemma acquire_grants n w c :
  grants n w → ∃ w', acquire (S n) (PState false c w) = (Ok (Some tt), PState true c w').
Proof.
  induction 1 as [w w1 w2 w3 w4 w5 H1 H2 H3 H4 H5|n w w1 w2 w3 w4 w5 H1 H2 H3 H4 H5 _ [w' IH]].
  - exists w5. cbn. unfold acquire_round, wait_for_prepermit_pause, request_permit, cbind, catch, call.
    cbn. rewrite H1. cbn. rewrite H2. cbn. rewrite H3. cbn. rewrite H4. cbn. rewrite H5. done.
  - exists w'. rewrite <- IH. remember (S n) as k. cbn [acquire held].
    unfold acquire_round, wait_for_prepermit_pause, request_permit, cbind, catch, call.
    cbn. rewrite H1. cbn. rewrite H2. cbn. rewrite H3. cbn. rewrite H4. cbn. rewrite H5. done.
Qed.

(** A task may give its permit back and take it again, but not lose track of it. *)
Definition keeps_track {A} (body : cmd (@pstate W) A) : Prop := ∀ s,
  held s = true → durable (world s) = true →
  let '(r, s') := body s in
  (∃ e, r = Err e ∧ is_permit_error e = true) ∨ (held s' = false → durable (world s') = false).

(** C33: the permit around a task.  The task body runs only while its durable permit is
    recorded and known to be held; and unless the call ends in a permit error, it leaves
    no permit recorded, whether the body succeeded, failed or the wait was given up.
    The surrounding context is restored in every case. *)
Theorem permit_scope {A} fuel (body : cmd pstate A) s :
  held s = false → durable (world s) = false → keeps_track body →
  let '(r, s') := api_execution_permit me true fuel body s in
  current s' = current s
  ∧ (match r with Err e => is_permit_error e = true | Ok _ => False end
     ∨ held s' = false ∧ durable (world s') = false)
  ∧ match acquire fuel s with
    | (Ok (Some _), s1) => held s1 = true ∧ durable (world s1) = true
        ∧ (r, s') = (let '(rb, sb) := body (PState true (Some me) (world s1)) in leave_permit (current s) rb sb)
    | (Ok None, s1) => (r, s') = (Ok None, s1)
    | (Err e, s1) => (r, s') = (Err e, s1)
    end.
Proof.
  intros Hh Hd Hbody. unfold api_execution_permit. cbn [negb]. unfold cbind.
  pose proof (acquire_spec (current s) fuel s) as Hacq.
  specialize (Hacq (or_introl (conj eq_refl (conj Hh Hd)))).
  destruct (acquire fuel s) as [[[[]|]|e] s1]; cbn [fst snd after acquired] in Hacq.
  2:{ cbn. split; [apply Hacq|]. split; [right; apply Hacq|done]. }
  2:{ split; [apply Hacq|]. split; [|done]. destruct Hacq as [_ [He|Hi]]; [by left|right; apply Hi]. }
  destruct Hacq as (Hc & Hh1 & Hd1). cbn. rewrite Hh1, Hc.
  specialize (Hbody (PState true (Some me) (world s1)) eq_refl Hd1).
  destruct (body _) as [rb sb]. pose proof (release_spec (current sb) sb) as Hrel.
  unfold leave_permit. destruct Hbody as [(e & -> & He)|Hsound].
  - destruct (release sb) as [[[]|e'] s2]; cbn; (split; [done|split; [by left|done]]).
  - specialize (Hrel (conj eq_refl Hsound)).
    destruct (release sb) as [[[]|e'] s2]; cbn [fst snd] in Hrel.
    + destruct Hrel as (_ & H2 & H3). destruct rb; cbn; (split; [done|split; [by right|done]]).
    + cbn. split; [done|]. split; [by left|done].
Qed.

(** fuel bounds only how long the controller waits: once an acquisition has ended,
    in success or in an error, more fuel gives the same end; and if the system refuses
    [n] times and then grants, every fuel above [n] is enough. *)
Theorem acquire_terminates n w c :
  grants n w → ∃ w', ∀ fuel, (n < fuel)%nat →
    acquire fuel (PState false c w) = (Ok (Some tt), PState true c w').
Proof.
  intros [w' Hg]%(acquire_grants n w c). exists w'. intros fuel Hf.
  replace fuel with (S n + (fuel - S n))%nat by lia. rewrite <- Hg.
  apply acquire_extends. by rewrite Hg.
Qed.
End facts.

(** ** The storage keeps its promises *)

(** How the next call goes: the job tables it sees, whether it is refused before being
    sent, whether a committed answer is lost, an interruption of the wait, and whether
    interrupts are pending. *)
Record fate := Fate {
  f_db : db;
  f_unsent : option exc;
  f_lost : option exc;
  f_interrupt : option exc;
  f_paused : bool
}.

(** The permit table, the job tables, and what is still to happen. *)
Record permit_world := PermitWorld { pw_db : db; pw_permits : permits; pw_script : list fate }.

Section storage.
Context (snapshot_components : string → result (list key)) (is_isoformat : string → bool).
Context (thread_limit : option Z) (me : permit_identity) (now : string).

Definition next (w : permit_world) : fate * permit_world :=
  match pw_script w with
  | [] => (Fate (pw_db w) None None None false, w)
  | f :: fs => (f, PermitWorld (f_db f) (pw_permits w) fs)
  end.

Definition submit (one : permits → permit_mutation → permits * result bool) (action : string) (w : permit_world)
  : result (drained bool) * permit_world :=
  let '(f, w) := next w in
  match f_unsent f with
  | Some e => (Err e, w)
  | None =>
      let '(ps, o) := one (pw_permits w) (PermitMutation action me now) in
      let value := match f_lost f with
                   | Some e => inr e
                   | None => match o with Ok b => inl b | Err e => inr e end
                   end in
      (Ok (Drained value (f_interrupt f)), PermitWorld (pw_db w) ps (pw_script w))
  end.

#[local] Instance storage_services : PermitServices permit_world := {|
  check_current w :=
    let '(_, w) := next w in
    (if job_execution_is_current (pw_db w) (p_node me, p_job me) (p_generation me) (Some (p_execution me))
     then Ok tt else raise JobRestartedError "generation was restarted", w);
  pause_children w := let '(f, w) := next w in (Ok (f_paused f), w);
  acknowledge_pauses w := let '(f, w) := next w in (Ok (f_paused f), w);
  pause_sleep w :=
    let '(f, w) := next w in (match f_interrupt f with Some e => Err e | None => Ok tt end, w);
  submit_acquire w := submit (acquire_one snapshot_components is_isoformat (pw_db (next w).2) thread_limit) "acquire" w;
  submit_release w := submit (release_one snapshot_components is_isoformat (pw_db (next w).2)) "release" w;
  read_decision present w :=
    let '(_, w) := next w in
    (read_permit_decision snapshot_components is_isoformat (pw_db w) (pw_permits w) me present, w);
  durable w := bool_decide (is_Some (pw_permits w !! p_execution me))
|}.

Lemma next_permits w : pw_permits (next w).2 = pw_permits w.
Proof. unfold next. by destruct (pw_script w). Qed.

Lemma read_decision_durable d ps present r :
  read_permit_decision snapshot_components is_isoformat d ps me present = Ok r →
  r = if bool_decide (is_Some (ps !! p_execution me)) then (if present then Some true else None)
      else if present then None else Some true.
Proof.
  unfold read_permit_decision. intros H. inv_ok. destruct (ps !! p_execution me) as [row|] eqn:Hrow.
  - rewrite (bool_decide_true (is_Some (Some row))) by done. inv_ok. destruct present; by inv_ok.
  - rewrite (bool_decide_false (is_Some None)) by (by intros []). destruct present; by inv_ok.
Qed.

Lemma acquire_one_durable d ps b ps' :
  acquire_one snapshot_components is_isoformat d thread_limit ps (PermitMutation "acquire" me now) = (ps', Ok b) →
  bool_decide (is_Some (ps' !! p_execution me)) = b.
Proof.
  unfold acquire_one. cbn. destruct (try_acquire_api_execution_permit _ _ _ _ _ _ _) as [[ps1 o]|e] eqn:Ht; [|done].
  cbn. intros [= <- <-]. destruct o.
  - apply try_acquire_row in Ht as (r & Hr & _). by rewrite bool_decide_true.
  - apply bool_decide_eq_false_2. unfold try_acquire_api_execution_permit in Ht.
    apply rbind_ok in Ht as (u & _ & Ht). apply rbind_ok in Ht as (ow & _ & Ht).
    destruct (ps !! p_execution me) as [r|] eqn:Hr.
    + apply rbind_ok in Ht as (b & Hb & Ht). unfold recorded_permit in Hb. by inv_ok.
    + apply rbind_ok in Ht as (a & _ & Ht). destruct (match a with Some n => _ | None => _ end).
      * injection Ht as <-. rewrite Hr. by intros [].
      * apply rbind_ok in Ht as (p & _ & Ht). by inv_ok.
Qed.

#[local] Instance storage_laws : PermitLaws permit_world.
Proof.
  split; cbn.
  - intros w. pose proof (next_permits w) as Hn. destruct (next w) as [f w1]. cbn in *. by rewrite Hn.
  - intros w. pose proof (next_permits w) as Hn. destruct (next w) as [f w1]. cbn in *. by rewrite Hn.
  - intros w. pose proof (next_permits w) as Hn. destruct (next w) as [f w1]. cbn in *. by rewrite Hn.
  - intros w. pose proof (next_permits w) as Hn. destruct (next w) as [f w1]. cbn in *. by rewrite Hn.
  - intros b w. pose proof (next_permits w) as Hn. destruct (next w) as [f w1]. cbn in *. by rewrite Hn.
  - intros w r w'. pose proof (next_permits w) as Hn. destruct (next w) as [f w1]. intros [= Hr <-].
    apply read_decision_durable in Hr. cbn in Hn. by rewrite <- Hn.
  - intros w r w'. pose proof (next_permits w) as Hn. destruct (next w) as [f w1]. intros [= Hr <-].
    apply read_decision_durable in Hr. cbn in Hn. by rewrite <- Hn.
  - intros w e w'. unfold submit. pose proof (next_permits w) as Hn. destruct (next w) as [f w1]. cbn in Hn.
    destruct (f_unsent f); [|by destruct (acquire_one _ _ _ _ _ _)]. intros [= _ <-]. by rewrite Hn.
  - intros w d b w'. unfold submit. destruct (next w) as [f w1]. cbn [snd].
    destruct (f_unsent f); [done|]. destruct (acquire_one _ _ _ _ _ _) as [ps o] eqn:Ha. intros [= <- <-].
    cbn. destruct (f_lost f); [done|]. destruct o as [b'|e]; [|done]. intros [= ->]. by apply acquire_one_durable in Ha.
  - intros w d w'. unfold submit. destruct (next w) as [f w1]. cbn [snd].
    destruct (f_unsent f); [done|]. destruct (release_one _ _ _ _ _) as [ps o] eqn:Ha. intros [= <- <-].
    cbn. destruct (f_lost f); [done|]. destruct o as [b'|e]; [|done]. intros [= ->].
    apply release_one_spec in Ha as [[_ Ha]|[-> _]]; [done|]. cbn. rewrite lookup_delete_eq.
    apply bool_decide_eq_false_2. by intros [].
Qed.
End storage.

Module ControlSample.

#[global] Instance services : PermitServices permit_world :=
  storage_services Sample.snap (λ _, true) (Some 1%Z) PermitSample.ia "t".

#[global] Instance laws : PermitLaws permit_world :=
  storage_laws Sample.snap (λ _, true) (Some 1%Z) PermitSample.ia "t".

Definition calm : fate := Fate PermitSample.running None None None false.

(** The acquisition's answer is lost after its commit; everything else is calm. *)
Definition lossy : list fate :=
  [calm; calm; Fate PermitSample.running None (Some (Exc UserError "writer closed")) None false].

Definition start (script : list fate) : @pstate permit_world :=
  PState false None (PermitWorld PermitSample.running ∅ script).

Definition task : cmd (@pstate permit_world) nat := ret 5.

(** The body runs in a calm world; after a lost answer the permit is read back, given
    back, and the attempt ends in a permit error. *)
Example calm_run :
  (api_execution_permit PermitSample.ia true 3 task (start [])).1 = Ok (Some 5)
  ∧ ∃ msg, (api_execution_permit PermitSample.ia true 3 task (start lossy)).1 = Err (Exc ApiPermitStateError msg).
Proof. split; [vm_compute; reflexivity|]. eexists. vm_compute. reflexivity. Qed.

Lemma task_keeps_track : keeps_track task.
Proof. intros s Hh _. right. intros Hf. change (held s = false) in Hf. rewrite Hh in Hf. discriminate Hf. Qed.

Definition before : permit_world := PermitWorld PermitSample.running ∅ [].
Definition granted_world : permit_world := (submit_acquire before).2.

End ControlSample.

Lemma permit_scope_witness :
  let '(r, s') := api_execution_permit PermitSample.ia true 3 ControlSample.task (ControlSample.start []) in
  r = Ok (Some 5) ∧ durable (world s') = false.
Proof.
  pose proof (permit_scope PermitSample.ia 3 ControlSample.task (ControlSample.start []) eq_refl eq_refl) as H.
  specialize (H ControlSample.task_keeps_track).
  destruct (api_execution_permit _ _ _ _ _) as [r s'] eqn:Hrun. destruct H as (_ & H & _).
  assert (r = Ok (Some 5)) as Hr by (vm_compute in Hrun; injection Hrun as <- _; reflexivity).
  split; [exact Hr|]. rewrite Hr in H. destruct H as [[]|[_ H]]. exact H.
Defined.

Lemma acquire_terminates_witness :
  ∃ w', ∀ fuel, (0 < fuel)%nat → acquire fuel (ControlSample.start []) = (Ok (Some tt), PState true None w').
Proof.
  apply (acquire_terminates 0 ControlSample.before None).
  apply (grants_now _ ControlSample.before ControlSample.before ControlSample.granted_world
    ControlSample.granted_world ControlSample.granted_world); vm_compute; reflexivity.
Defined.
