(* ===== verification/JobRun.v ===== *)
(** One job from claim to terminal publication ([workflow/job_lifecycle.py]).

    The loop runs against the job tables of [JobStore]; other workers, the command line
    and recovery act on the same tables between any two of its calls, through the
    [interfere] of its surroundings.  Handlers, faults of the framework's own writes and
    the choice of fresh execution ids come from the surroundings as well. *)
From S2P Require Import Prelude Topology JobStore.

#[local] Open Scope Z_scope.

(** [except Exception] does not catch [KeyboardInterrupt]. *)
Definition plain_exception (e : exc) : bool := negb (bool_decide (exc_cls e = KeyboardInterrupt)).

(** What a run does, in order. *)
Inductive run_action :=
  | RunPipeline (g : Z) (x : string)
  | CancelExecution (g : Z) (x : string)
  | WriteDebug
  | WriteOutput (g : Z) (x : string) (st : string)
  | Published (g : Z) (x : string) (st : string)
  | GetNodeStatus
  | RefreshNodeStatus.

Section run.
Context {J V W : Type}.

Record jstate := JState { j_db : db; j_log : list run_action; j_world : W }.

Record run_surroundings := RunSurroundings {
  load_job : W → result J * W;
  (** What others did to the tables since the previous call. *)
  interfere : W → db → db * W;
  (** [execution_claim_context]. *)
  claim_context : W → result (string * key) * W;
  (** Claims collected before and after this one in the same window, and the fresh
      execution id of this one. *)
  claim_window : W → (list (Z * string) * string * list (Z * string)) * W;
  (** [execute_with_fallbacks] inside [api_execution_permit]. *)
  pipeline : J → Z → string → bool → W → result V * W;
  node_running : W → bool * W;
  fault : run_action → W → option exc * W
}.

Context (snapshot_components : string → result (list key)) (readers : claim_readers).
Context (env : run_surroundings) (a : addr) (defer_refresh : bool).

Definition call {A} (f : W → result A * W) : cmd jstate A := λ s,
  let '(r, w) := f (j_world s) in (r, JState (j_db s) (j_log s) w).

Definition record (x : run_action) : cmd jstate unit := λ s,
  (Ok tt, JState (j_db s) (j_log s ++ [x]) (j_world s)).

(** A framework action: logged, then possibly failing. *)
Definition perform (x : run_action) : cmd jstate unit :=
  do! _ := record x in
  do! e := call (λ w, let '(e, w) := fault env x w in (Ok e, w)) in
  match e with Some e => throw e | None => ret tt end.

(** An operation on the tables, after whatever others did. *)
Definition transact {A} (f : db → result (db * A)) : cmd jstate A := λ s,
  let '(d, w) := interfere env (j_world s) (j_db s) in
  match f d with
  | Ok (d, x) => (Ok x, JState d (j_log s) w)
  | Err e => (Err e, JState d (j_log s) w)
  end.

Definition own_batch (before : list (Z * string)) (x : string) (after : list (Z * string))
    (context : string * key) (restart : option expected_restart) : claim_batch :=
  let requests := match restart with None => before ++ [(a.2, x)] ++ after | Some _ => [(a.2, x)] end in
  ClaimBatch a.1 requests.*1 requests.*2 "" 0 0 "" false None (Some context.1) (Some context.2)
    ((λ r, [Some r]) <$> restart).

(** [claim_job_execution]: this job's lease out of its batch. *)
Definition claim_job_execution (context : string * key) (restart : option expected_restart)
  : cmd jstate (Z * string) :=
  do! window := call (λ w, let '(x, w) := claim_window env w in (Ok x, w)) in
  let '(before, x, after) := window in
  do! leases := transact (λ d, claim_job_executions_batch snapshot_components readers d
                                 (own_batch before x after context restart)) in
  match leases with
  | Err e => throw e
  | Ok leases =>
      match leases !! (match restart with None => length before | Some _ => O end) with
      | Some l => ret l
      | None => throw (Exc RuntimeError "lease missing")
      end
  end.

(** [claim_with_interrupt_retry]. *)
Fixpoint claim_with_interrupt_retry (fuel : nat) (context : string * key) (restart : option expected_restart)
  : cmd jstate (option (Z * string)) :=
  match fuel with
  | O => ret None
  | S fuel =>
      catch (do! l := claim_job_execution context restart in ret (Some l))
        (λ e, if bool_decide (exc_cls e = InterruptAdmissionPaused)
              then claim_with_interrupt_retry fuel context restart else throw e)
  end.

(** The pipeline's outcome, or that the generation was superseded. *)
Inductive outcome := Result (v : V) | Failure (e : exc) | Superseded (e : exc).

Definition run_pipeline (job : J) (l : Z * string) (pre_recorded : bool) : cmd jstate outcome :=
  do! _ := record (RunPipeline l.1 l.2) in
  catch (do! v := call (pipeline env job l.1 l.2 pre_recorded) in ret (Result v))
    (λ e, if bool_decide (exc_cls e = ApiPermitStateError) then throw e
          else if bool_decide (exc_cls e = JobRestartedError) then ret (Superseded e)
          else ret (Failure e)).

(** [write_output] under [guard_job_execution], then [finalize_job_execution]. *)
Definition publish (l : Z * string) (st : string) : cmd jstate unit :=
  do! _ := transact (λ d, if job_execution_is_current d a l.1 (Some l.2) then Ok (d, tt)
                          else raise JobRestartedError "generation was restarted") in
  do! _ := perform (WriteOutput l.1 l.2 st) in
  do! _ := transact (λ d, let! d := finalize_job_execution snapshot_components d ""
                            (TerminalUpdate a l.1 l.2 st None) in Ok (d, tt)) in
  record (Published l.1 l.2 st).

(** The publication of an outcome; [false] when the generation was restarted. *)
Definition publish_outcome (l : Z * string) (o : V + exc) : cmd jstate bool :=
  catch
    (do! _ := (match o with
               | inl _ => publish l DONE
               | inr _ => do! _ := perform WriteDebug in publish l FAILED
               end) in
     ret true)
    (λ e, if bool_decide (exc_cls e = JobRestartedError)
          then do! _ := perform WriteDebug in ret false else throw e).

(** The node's status after a publication. *)
Definition refresh : cmd jstate unit :=
  if defer_refresh then ret tt
  else
    do! _ := perform GetNodeStatus in
    do! running := call (λ w, let '(b, w) := node_running env w in (Ok b, w)) in
    if negb running then perform RefreshNodeStatus else ret tt.

Definition finish (o : V + exc) : cmd jstate (option V) :=
  match o with
  | inl v => ret (Some v)
  | inr e => if plain_exception e then throw (Exc JobFailedError "Job failed") else throw e
  end.

(** The loop of [_run_job]; [None] when still running after [fuel] turns. *)
Fixpoint run_loop (fuel : nat) (preloaded : option J) (preclaimed : option (Z * string)) (pre_recorded : bool)
    (restart : option expected_restart) : cmd jstate (option V) :=
  match fuel with
  | O => ret None
  | S fuel =>
      do! job := (match preloaded with Some j => ret j | None => call (load_job env) end) in
      do! lease := (match preclaimed with
                    | Some l => ret (Some l)
                    | None => do! c := call (claim_context env) in claim_with_interrupt_retry fuel c restart
                    end) in
      let restart := match preclaimed with Some _ => restart | None => None end in
      match lease with
      | None => ret None
      | Some l =>
          do! o := run_pipeline job l pre_recorded in
          let settle (o : V + exc) :=
            do! published := publish_outcome l o in
            if published then do! _ := refresh in finish o
            else run_loop fuel None None false restart in
          match o with
          | Superseded _ =>
              do! _ := perform (CancelExecution l.1 l.2) in
              do! _ := perform WriteDebug in
              run_loop fuel None None false restart
          | Result v => settle (inl v)
          | Failure e => settle (inr e)
          end
      end
  end.

(** [_run_job]: readiness, a mounted task and a session scope, then the loop. *)
Definition run_job (ready : bool) (has_task : bool) (fuel : nat) (preloaded : option J)
    (preclaimed : option (Z * string)) (pre_recorded : bool) (restart : option expected_restart)
  : cmd jstate (option V) :=
  if negb ready then throw (Exc InvalidGraphError "Node is not ready yet")
  else if negb has_task then throw (Exc InvalidJobError "Node has no mounted task")
  else
    do! _ := call (claim_context env) in
    run_loop fuel preloaded preclaimed pre_recorded restart.


(** ** What the log and the tables say along a run *)

Definition leases_of (l : list run_action) : list (Z * string) :=
  omap (λ x, match x with RunPipeline g x => Some (g, x) | _ => None end) l.

Definition published (l : list run_action) : list (Z * string * string) :=
  omap (λ x, match x with Published g x st => Some (g, x, st) | _ => None end) l.

Lemma leases_of_app l k : leases_of (l ++ k) = leases_of l ++ leases_of k.
Proof. apply omap_app. Qed.

Lemma published_app l k : published (l ++ k) = published l ++ published k.
Proof. apply omap_app. Qed.

(** The execution was recorded for this job. *)
Definition mine (d : db) (x : string) : Prop := ∃ o, owners d !! x = Some o ∧ o_addr o = a.

(** It was, and is no longer the lease of any job. *)
Definition gone (d : db) (x : string) : Prop := mine d x ∧ ¬ leased d x.

Abbreviation step := (store_step snapshot_components readers).

Lemma owners_kept d d' x o : step d d' → owners d !! x = Some o → owners d' !! x = Some o.
Proof.
  intros [[Ho _ _]|[ls Hc]]%store_step_cases Hx; [by rewrite Ho|].
  rewrite (cl_owners_other _ _ _ Hc); [done|]. intros (l & -> & Hin)%list_elem_of_fmap.
  destruct (claimed_fresh_addr _ _ _ l _ Hc Hin eq_refl) as (? & ? & _ & _ & _ & _ & _ & Hn & _). congruence.
Qed.

Lemma mine_kept d d' x : rtc step d d' → mine d x → mine d' x.
Proof.
  intros Hrun (o & Ho & Ha). exists o. split; [|done]. revert Ho.
  induction Hrun; eauto using owners_kept.
Qed.

Lemma gone_kept d d' x : rtc step d d' → gone d x → gone d' x.
Proof.
  intros Hrun [Hm Hn]. split; [by eapply mine_kept|]. eapply ended_run; [exact Hrun| |exact Hn].
  destruct Hm as (o & Ho & _). by exists o.
Qed.

(** When another execution holds the job's lease, [x] holds none. *)
Lemma superseded_gone d x row :
  db_ok d → mine d x → jobs d !! a = Some row → active_execution_id row ≠ Some x → gone d x.
Proof.
  intros Hok (o & Ho & Ha) Hr Hx. split; [by exists o|]. intros (b & rb & Hb & Hxb).
  destruct (ok_active _ Hok b rb x Hb Hxb) as (_ & o' & _ & Ho' & Hob & _). congruence.
Qed.

Hypothesis env_steps : ∀ w d, db_ok d → rtc step d (interfere env w d).1.

(** Everything a run has done since [log0], before the lease of this turn: nothing was
    published, and every lease but the last is over. *)
Definition head (log0 : list run_action) (s : jstate) : Prop :=
  db_ok (j_db s) ∧ ∃ suf, j_log s = log0 ++ suf ∧ published suf = []
    ∧ Forall (λ l, mine (j_db s) l.2) (leases_of suf)
    ∧ ∀ pre l, leases_of suf = pre ++ [l] → Forall (λ l, gone (j_db s) l.2) pre.

(** With this turn's lease [l] claimed, all earlier leases are over. *)
Definition ready_with log0 (l : Z * string) (s : jstate) : Prop :=
  db_ok (j_db s) ∧ mine (j_db s) l.2 ∧ ∃ suf, j_log s = log0 ++ suf ∧ published suf = []
    ∧ Forall (λ l, gone (j_db s) l.2) (leases_of suf).

(** The pipeline ran under [l]. *)
Definition running log0 (l : Z * string) (s : jstate) : Prop :=
  db_ok (j_db s) ∧ mine (j_db s) l.2 ∧ ∃ suf pre, j_log s = log0 ++ suf ∧ published suf = []
    ∧ leases_of suf = pre ++ [l] ∧ Forall (λ l, gone (j_db s) l.2) pre.

(** [l]'s outcome was published, once. *)
Definition settled log0 (l : Z * string) (st : string) (s : jstate) : Prop :=
  db_ok (j_db s) ∧ ∃ suf pre, j_log s = log0 ++ suf ∧ published suf = [(l.1, l.2, st)]
    ∧ leases_of suf = pre ++ [l] ∧ Forall (λ l, gone (j_db s) l.2) (leases_of suf).

Lemma running_head log0 l s : running log0 l s → head log0 s.
Proof.
  intros (Hok & Hm & suf & pre & Hlog & Hp & Hl & Hg). split; [done|]. exists suf. split; [done|]. split; [done|].
  rewrite Hl. split.
  - apply Forall_app. split; [|by repeat constructor]. eapply Forall_impl; [exact Hg|]. by intros ? [? _].
  - intros pre' l' [-> _]%app_inj_tail. done.
Qed.

Lemma ready_head log0 l s : ready_with log0 l s → head log0 s.
Proof.
  intros (Hok & _ & suf & Hlog & Hp & Hg). split; [done|]. exists suf. split; [done|]. split; [done|]. split.
  - eapply Forall_impl; [exact Hg|]. by intros ? [? _].
  - intros pre l' Hl. rewrite Hl in Hg. by apply Forall_app in Hg as [? _].
Qed.

(** States that agree on the tables and the log, up to later table steps and to log
    entries that are neither attempts nor publications. *)
Definition later (s s' : jstate) : Prop :=
  (db_ok (j_db s) → rtc step (j_db s) (j_db s'))
  ∧ ∃ k, j_log s' = j_log s ++ k ∧ leases_of k = [] ∧ published k = [].

Lemma later_ok s s' : later s s' → db_ok (j_db s) → db_ok (j_db s').
Proof. intros [H _] Hok. eapply store_run_ok; [by apply H|done]. Qed.

Lemma later_gone s s' (ls : list (Z * string)) :
  later s s' → db_ok (j_db s) → Forall (λ l, gone (j_db s) l.2) ls → Forall (λ l, gone (j_db s') l.2) ls.
Proof. intros [H _] Hok Hg. eapply Forall_impl; [exact Hg|]. intros l. by apply gone_kept, H. Qed.

Lemma later_head log0 s s' : later s s' → head log0 s → head log0 s'.
Proof.
  intros Hl (Hok & suf & Hlog & Hp & Hm & Hg). split; [by eapply later_ok|].
  pose proof Hl as [Hrun (k & Hk & Hk1 & Hk2)]. exists (suf ++ k).
  rewrite leases_of_app, published_app, Hk1, Hk2, !app_nil_r, app_assoc, <- Hlog. split; [done|]. split; [done|].
  split; [eapply Forall_impl; [exact Hm|]; intros l; by apply mine_kept, Hrun|].
  intros pre l Hpre. by eapply later_gone, Hg.
Qed.

Lemma later_ready log0 l s s' : later s s' → ready_with log0 l s → ready_with log0 l s'.
Proof.
  intros Hl (Hok & Hm & suf & Hlog & Hp & Hg). split; [by eapply later_ok|].
  pose proof Hl as [Hrun (k & Hk & Hk1 & Hk2)]. split; [by eapply mine_kept; [apply Hrun|]|]. exists (suf ++ k).
  rewrite leases_of_app, published_app, Hk1, Hk2, !app_nil_r, app_assoc, <- Hlog. split; [done|]. split; [done|].
  by eapply later_gone.
Qed.

Lemma later_running log0 l s s' : later s s' → running log0 l s → running log0 l s'.
Proof.
  intros Hl (Hok & Hm & suf & pre & Hlog & Hp & Hpre & Hg). split; [by eapply later_ok|].
  pose proof Hl as [Hrun (k & Hk & Hk1 & Hk2)]. split; [by eapply mine_kept; [apply Hrun|]|]. exists (suf ++ k), pre.
  rewrite leases_of_app, published_app, Hk1, Hk2, !app_nil_r, app_assoc, <- Hlog. split; [done|]. split; [done|].
  split; [done|]. by eapply later_gone.
Qed.

Lemma later_settled log0 l st s s' : later s s' → settled log0 l st s → settled log0 l st s'.
Proof.
  intros Hl (Hok & suf & pre & Hlog & Hp & Hpre & Hg). split; [by eapply later_ok|].
  pose proof Hl as [Hrun (k & Hk & Hk1 & Hk2)]. exists (suf ++ k), pre.
  rewrite leases_of_app, published_app, Hk1, Hk2, !app_nil_r, app_assoc, <- Hlog. split; [done|]. split; [done|].
  split; [done|]. by eapply later_gone.
Qed.

(** Calls that only read the world, log other actions or step the tables. *)
Definition minor {A} (m : cmd jstate A) : Prop := ∀ s, later s (m s).2.

Lemma later_refl s : later s s.
Proof. split; [done|]. exists []. by rewrite app_nil_r. Qed.

Lemma later_trans s1 s2 s3 : later s1 s2 → later s2 s3 → later s1 s3.
Proof.
  intros H12 H23. pose proof H12 as [R12 (k & Hk & Hk1 & Hk2)]. destruct H23 as [R23 (k' & Hk' & Hk1' & Hk2')].
  split; [intros Hok; etrans; [by apply R12|apply R23; by eapply later_ok]|].
  exists (k ++ k'). rewrite Hk', Hk, leases_of_app, published_app, Hk1, Hk2, Hk1', Hk2', app_assoc. done.
Qed.

Lemma minor_ret {A} (x : A) : minor (ret x).
Proof. intros s. apply later_refl. Qed.

Lemma minor_throw {A} e : minor (@throw jstate A e).
Proof. intros s. apply later_refl. Qed.

Lemma minor_bind {A B} (m : cmd jstate A) (k : A → cmd jstate B) :
  minor m → (∀ x, minor (k x)) → minor (cbind m k).
Proof.
  intros Hm Hk s. specialize (Hm s). unfold cbind. destruct (m s) as [[x|e] s1]; [|exact Hm].
  eapply later_trans; [exact Hm|apply Hk].
Qed.

Lemma minor_call {A} (f : W → result A * W) : minor (call f).
Proof. intros s. unfold call. destruct (f (j_world s)). split; [done|]. exists []. by rewrite app_nil_r. Qed.

Definition plain_action (x : run_action) : bool :=
  match x with RunPipeline _ _ | Published _ _ _ => false | _ => true end.

Lemma minor_perform x : plain_action x = true → minor (perform x).
Proof.
  intros Hx. unfold perform. apply minor_bind.
  - intros s. split; [done|]. exists [x]. by destruct x.
  - intros []. apply minor_bind; [apply minor_call|]. intros [e|]; [apply minor_throw|apply minor_ret].
Qed.

Lemma minor_transact {A} (f : db → result (db * A)) :
  (∀ d d' x, f d = Ok (d', x) → db_ok d → rtc step d d') → minor (transact f).
Proof.
  intros Hf s. unfold transact. destruct (interfere env (j_world s) (j_db s)) as [d w] eqn:Hi.
  pose proof (env_steps (j_world s) (j_db s)) as He. rewrite Hi in He. cbn in He.
  destruct (f d) as [[d' x]|e] eqn:Hd; (split; [intros Hok|exists []; by rewrite app_nil_r]); cbn; [|by apply He].
  etrans; [by apply He|]. eapply Hf; [exact Hd|]. eapply store_run_ok; [by apply He|done].
Qed.


(** ** The claim of a turn *)

Lemma transact_spec {A} (f : db → result (db * A)) s :
  db_ok (j_db s) → let '(r, s') := transact f s in
  j_log s' = j_log s ∧ ∃ d, rtc step (j_db s) d
    ∧ match r with Ok x => f d = Ok (j_db s', x) | Err e => f d = Err e ∧ j_db s' = d end.
Proof.
  intros Hok. unfold transact. pose proof (env_steps (j_world s) (j_db s) Hok) as He.
  destruct (interfere env (j_world s) (j_db s)) as [d w]. cbn in He.
  destruct (f d) as [[d' x]|e] eqn:Hd; cbn; (split; [done|]); exists d; done.
Qed.

Lemma claim_batch_steps d b d' o :
  claim_job_executions_batch snapshot_components readers d b = Ok (d', o) → d' = d ∨ step d d'.
Proof.
  unfold claim_job_executions_batch. intros H. inv_ok. destruct (bool_decide (b_jobs b = [])).
  { inv_ok. match goal with E : (_, _) = (_, _) |- _ => injection E as <- _ | _ => idtac end. by left. }
  inv_ok. destruct x as [d1 os]. right. eapply step_claim.
  assert (d' = d1) as -> by (destruct os as [|o1 [|o2 os]]; by inv_ok). exact Hx.
Qed.

Lemma claim_batch_lease d b d' leases k x l :
  claim_job_executions_batch snapshot_components readers d b = Ok (d', Ok leases) →
  b_node b = a.1 → b_jobs b !! k = Some a.2 → b_executions b !! k = Some x → leases !! k = Some l →
  l.2 = x ∧ owners d !! x = None ∧ mine d' x
  ∧ ∃ row, jobs d' !! a = Some row ∧ active_execution_id row = Some x.
Proof.
  intros H Hn Hj Hx Hl. unfold claim_job_executions_batch in H. inv_ok.
  destruct (bool_decide (b_jobs b = [])) eqn:Hb; [apply bool_decide_eq_true_1 in Hb; by rewrite Hb in Hj|].
  inv_ok. destruct x0 as [d1 os]. apply apply_claims_claimed in Hx0 as (gs & HF & -> & Hc).
  destruct gs as [|g [|g' gs]]; [by inversion HF| |by inversion HF; subst; match goal with E : Forall2 _ [] _ |- _ => inversion E end].
  cbn in H. assert (g.1 = Ok leases ∧ d1 = d') as [Hgk ->] by (injection H as -> ->; done).
  destruct (group_lease _ _ _ 0 b leases HF eq_refl) as (ls & [_ Hls] & -> & Hin); [cbn; by rewrite Hgk|].
  destruct (Hls k a.2 x Hj Hx) as (y & Hy & _ & Hya & Hyx & _).
  rewrite list_lookup_fmap, Hy in Hl. injection Hl as <-.
  destruct (claimed_lease _ _ _ y Hc) as (row & row' & o & _ & _ & _ & H4 & H5 & _ & _ & H8 & H9 & H10 & _).
  { apply Hin. by apply list_elem_of_lookup_2 in Hy. }
  assert (l_addr y = a) as Haddr by (rewrite Hya, Hn; by destruct a). rewrite Haddr, Hyx in *.
  split; [done|]. split; [done|]. split; [by exists o|]. by exists row'.
Qed.

Lemma minor_claim c restart : minor (claim_job_execution c restart).
Proof.
  unfold claim_job_execution. apply minor_bind; [apply minor_call|]. intros [[before x] after].
  apply minor_bind.
  - apply minor_transact. intros d d' o Ho _. destruct (claim_batch_steps _ _ _ _ Ho) as [->|Hs]; [done|].
    by apply rtc_once.
  - intros [leases|e]; [|apply minor_throw]. destruct (leases !! _); [apply minor_ret|apply minor_throw].
Qed.

Lemma requests_lookup (before after : list (Z * string)) j x :
  (before ++ [(j, x)] ++ after).*1 !! length before = Some j
  ∧ (before ++ [(j, x)] ++ after).*2 !! length before = Some x.
Proof. split; rewrite fmap_app; cbn; (apply list_lookup_middle; by rewrite length_fmap). Qed.

(** Once the claim succeeded, all earlier leases of the run are over. *)
Lemma ready_after_claim log0 s d1 s' x l row :
  head log0 s → rtc step (j_db s) d1 → d1 = j_db s' ∨ step d1 (j_db s') →
  j_log s' = j_log s → owners d1 !! x = None → l.2 = x → mine (j_db s') x →
  jobs (j_db s') !! a = Some row → active_execution_id row = Some x → ready_with log0 l s'.
Proof.
  intros (Hok & suf & Hlog & Hp & Hm & _) Hrun Hstep Hlog' Hfresh Hlx Hmine Hrow Hact.
  assert (rtc step (j_db s) (j_db s')) as Hall.
  { destruct Hstep as [<-|Hs]; [done|]. eapply rtc_r; eauto. }
  assert (db_ok (j_db s')) as Hok' by (by eapply store_run_ok).
  split; [done|]. rewrite Hlx. split; [done|]. exists suf. rewrite Hlog'. split; [done|]. split; [done|].
  eapply Forall_impl; [exact Hm|]. intros y Hy. eapply superseded_gone; [done|by eapply mine_kept|done|].
  rewrite Hact. intros [= Heq]. destruct (mine_kept _ _ _ Hrun Hy) as (o & Ho & _). congruence.
Qed.

Lemma claim_spec log0 c restart :
  triple (head log0) (claim_job_execution c restart)
    (λ r s, match r with Ok l => ready_with log0 l s | Err _ => head log0 s end).
Proof.
  intros s Hs. pose proof (later_head log0 _ _ (minor_claim c restart s) Hs) as Hlater.
  destruct (claim_job_execution c restart s) as [[l|e] s'] eqn:Hc; [|exact Hlater]. cbn [fst snd].
  unfold claim_job_execution in Hc. apply cbind_ok in Hc as ([[before x] after] & s1 & Hw & Hc).
  apply cbind_ok in Hc as ([leases|e] & s2 & Ht & Hc); [|done].
  assert (head log0 s1) as Hs1.
  { unfold call in Hw. destruct (claim_window env (j_world s)) as [win w]. injection Hw as _ <-.
    eapply later_head; [|exact Hs]. split; [done|]. exists []. by rewrite app_nil_r. }
  destruct (leases !! _) as [l'|] eqn:Hl; [|done]. injection Hc as -> <-.
  pose proof (transact_spec (λ d, claim_job_executions_batch snapshot_components readers d
    (own_batch before x after c restart)) s1 (proj1 Hs1)) as Hspec. rewrite Ht in Hspec.
  destruct Hspec as (Hlog & d1 & Hrun & Hb).
  assert (∃ k, b_jobs (own_batch before x after c restart) !! k = Some a.2
    ∧ b_executions (own_batch before x after c restart) !! k = Some x ∧ leases !! k = Some l) as (k & H1 & H2 & H3).
  { destruct restart; [by exists O|]. exists (length before). cbn.
    destruct (requests_lookup before after a.2 x). done. }
  destruct (claim_batch_lease _ _ _ _ k x l Hb eq_refl H1 H2 H3) as (Hlx & Hfresh & Hmine & row & Hrow & Hact).
  eapply (ready_after_claim log0 s1 d1 s2); [exact Hs1|exact Hrun| |exact Hlog|exact Hfresh|exact Hlx|exact Hmine|exact Hrow|exact Hact].
  apply claim_batch_steps in Hb as [->|Hs']; [by left|by right].
Qed.

Lemma claim_retry_spec log0 fuel c restart :
  triple (head log0) (claim_with_interrupt_retry fuel c restart)
    (λ r s, match r with Ok (Some l) => ready_with log0 l s | _ => head log0 s end).
Proof.
  induction fuel as [|fuel IH]; cbn [claim_with_interrupt_retry]; [by intros s|].
  apply (triple_catch _ _ _ (λ _, head log0)).
  - eapply (triple_cbind _ _ _ (λ r s, match r with Ok l => ready_with log0 l s | Err _ => head log0 s end));
      [apply claim_spec| |done]. intros l s Hs. exact Hs.
  - intros e. destruct (bool_decide _); [exact IH|]. by intros s.
Qed.

(** ** The turn *)

Lemma record_run_spec log0 l : triple (ready_with log0 l) (record (RunPipeline l.1 l.2)) (λ _, running log0 l).
Proof.
  intros s (Hok & Hm & suf & Hlog & Hp & Hg). split; [exact Hok|]. split; [exact Hm|].
  exists (suf ++ [RunPipeline l.1 l.2]), (leases_of suf). cbn [record snd j_log j_db].
  rewrite Hlog, app_assoc, leases_of_app, published_app, Hp. split; [done|]. split; [done|].
  split; [by destruct l|done].
Qed.

Lemma minor_keeps {A} (P : jstate → Prop) (m : cmd jstate A) :
  (∀ s s', later s s' → P s → P s') → minor m → triple P m (λ _, P).
Proof. intros HP Hm s Hs. eapply HP; [apply Hm|exact Hs]. Qed.

Lemma run_pipeline_spec log0 l job pre :
  triple (ready_with log0 l) (run_pipeline job l pre) (λ _, running log0 l).
Proof.
  unfold run_pipeline. eapply (triple_cbind _ _ _ (λ _, running log0 l)); [apply record_run_spec| |done].
  intros []. apply (triple_catch _ _ _ (λ _, running log0 l)).
  - eapply (triple_cbind _ _ _ (λ _, running log0 l)); [|by intros v s|done].
    eapply triple_weaken; [apply minor_keeps; [apply later_running|apply minor_call]|done|]. by intros [v|e] s.
  - intros e. destruct (bool_decide _); [by intros s|]. destruct (bool_decide _); by intros s.
Qed.

(** A successful terminal write leaves the job unleased. *)
Lemma finalize_unleased d time u d' :
  finalize_job_execution snapshot_components d time u = Ok d' →
  step d d' ∧ ∃ row, jobs d' !! u_addr u = Some row ∧ active_execution_id row = None.
Proof.
  unfold finalize_job_execution. intros H. inv_ok. destruct (apply_terminal_updates _ d time [u]) as [d1 os] eqn:Hu.
  assert (d' = d1 ∧ ∀ o, os = [o] → is_ok o = true) as [-> Hos].
  { destruct os as [|[|] [|]]; inv_ok; split; try done; intros o [= <-]; done. }
  split; [by eapply step_terminal|]. rewrite apply_single in Hu. revert Hu.
  destruct (decide_terminal _ d (visible d) u) as [[st|]|e] eqn:Hd.
  - intros [= <- <-]. destruct (decide_accepts _ d (visible d) (jobs d) u st eq_refl Hd) as (row & _ & _ & _ & _ & Hw).
    exists (terminal_row u row). cbn. by rewrite Hw, lookup_insert_eq.
  - intros [= <- <-]. unfold decide_terminal, visible in Hd. rewrite lookup_fmap in Hd.
    destruct (jobs d !! u_addr u) as [row|] eqn:Hr; [|done]. cbn in Hd. exists row. split; [done|].
    destruct (negb _); [done|]. destruct (bool_decide (active_execution_id row = None)) eqn:Hn.
    { by apply bool_decide_eq_true_1 in Hn. }
    cbn [andb negb] in Hd. rewrite andb_true_r in Hd. destruct (negb _); [done|].
    destruct (match u_expected u with Some _ => _ | None => _ end); done.
  - intros [= <- <-]. by specialize (Hos _ eq_refl).
Qed.

Lemma unleased_gone d l row :
  db_ok d → mine d l → jobs d !! a = Some row → active_execution_id row = None → gone d l.
Proof. intros Hok Hm Hr Hn. eapply superseded_gone; [done|done|done|]. by rewrite Hn. Qed.

Lemma finalize_step_spec log0 l st :
  triple (running log0 l)
    (do! _ := transact (λ d, let! d := finalize_job_execution snapshot_components d ""
                          (TerminalUpdate a l.1 l.2 st None) in Ok (d, tt)) in
     record (Published l.1 l.2 st))
    (λ r s, match r with Ok _ => settled log0 l st s | Err _ => running log0 l s end).
Proof.
  set (f := λ d, let! d := finalize_job_execution snapshot_components d "" (TerminalUpdate a l.1 l.2 st None) in Ok (d, tt)).
  assert (∀ d d' x, f d = Ok (d', x) → step d d' ∧ ∃ row, jobs d' !! a = Some row ∧ active_execution_id row = None) as Hf.
  { intros d d' x H. unfold f in H. inv_ok. match goal with E : finalize_job_execution _ _ _ _ = _ |- _ =>
      apply finalize_unleased in E end. done. }
  intros s Hs. pose proof Hs as [Hok _].
  assert (later s (transact f s).2) as Hlater.
  { apply minor_transact. intros d d' x Hd _. apply rtc_once. by apply Hf in Hd as [? _]. }
  pose proof (transact_spec f s Hok) as Hspec. unfold cbind.
  destruct (transact f s) as [[[]|e] s1]; [|cbn; by eapply later_running].
  destruct Hspec as (Hlog & d & _ & Hd). apply Hf in Hd as (_ & row & Hrow & Hn). cbn [snd] in Hlater.
  destruct (later_running _ _ _ _ Hlater Hs) as (Hok1 & Hm & suf & pre & Hlog1 & Hp & Hl & Hg).
  cbn. split; [done|]. exists (suf ++ [Published l.1 l.2 st]), pre. cbn.
  rewrite Hlog1, leases_of_app, published_app, Hp, Hl, app_assoc. split; [done|]. split; [done|].
  cbn. rewrite app_nil_r. split; [done|]. apply Forall_app. split; [exact Hg|]. constructor; [|done].
  by eapply unleased_gone.
Qed.

Lemma publish_spec log0 l st :
  triple (running log0 l) (publish l st)
    (λ r s, match r with Ok _ => settled log0 l st s | Err _ => running log0 l s end).
Proof.
  unfold publish. eapply (triple_cbind _ _ _ (λ _, running log0 l)); [| |done].
  { apply minor_keeps; [apply later_running|]. apply minor_transact. intros d d' x.
    destruct (job_execution_is_current _ _ _ _); [|done]. by intros [= <- _] _. }
  intros []. eapply (triple_cbind _ _ _ (λ _, running log0 l)); [| |done].
  { apply minor_keeps; [apply later_running|]. by apply minor_perform. }
  intros []. apply finalize_step_spec.
Qed.

Definition status_of (o : V + exc) : string := match o with inl _ => DONE | inr _ => FAILED end.

Lemma publish_outcome_spec log0 l o :
  triple (running log0 l) (publish_outcome l o)
    (λ r s, match r with Ok true => settled log0 l (status_of o) s | _ => running log0 l s end).
Proof.
  unfold publish_outcome. apply (triple_catch _ _ _ (λ _, running log0 l)).
  - eapply (triple_cbind _ _ _ (λ r s, match r with Ok _ => settled log0 l (status_of o) s | Err _ => running log0 l s end));
      [|by intros [] s|done].
    destruct o; [apply publish_spec|]. eapply (triple_cbind _ _ _ (λ _, running log0 l)); [| |done].
    + apply minor_keeps; [apply later_running|by apply minor_perform].
    + intros []. apply publish_spec.
  - intros e. destruct (bool_decide _); [|by intros s].
    eapply (triple_cbind _ _ _ (λ _, running log0 l)); [|by intros [] s|done].
    apply minor_keeps; [apply later_running|by apply minor_perform].
Qed.

Lemma minor_refresh : minor refresh.
Proof.
  unfold refresh. destruct defer_refresh; [apply minor_ret|]. apply minor_bind; [by apply minor_perform|].
  intros []. apply minor_bind; [apply minor_call|]. intros [|]; [apply minor_ret|by apply minor_perform].
Qed.

(** How a run ends. *)
Definition ended log0 (r : result (option V)) (s : jstate) : Prop :=
  ((∀ v, r ≠ Ok (Some v)) ∧ head log0 s)
  ∨ ∃ l st, settled log0 l st s ∧
      match r with
      | Ok (Some _) => st = DONE
      | Ok None => False
      | Err e => defer_refresh = true → st = FAILED ∧ (exc_cls e = JobFailedError ∨ plain_exception e = false)
      end.

Lemma finish_spec log0 l o :
  triple (settled log0 l (status_of o)) (do! _ := refresh in finish o) (ended log0).
Proof.
  eapply (triple_cbind _ _ _ (λ r s, settled log0 l (status_of o) s ∧ (defer_refresh = true → is_ok r = true))).
  - intros s Hs. split; [eapply later_settled; [apply minor_refresh|exact Hs]|].
    intros Hd. unfold refresh. by rewrite Hd.
  - intros [] s [Hs _]. right. exists l, (status_of o). destruct o as [v|e]; [done|]. cbn.
    destruct (plain_exception e) eqn:He; cbn; (split; [exact Hs|]); intros _; (split; [done|]); [by left|by right].
  - intros e s [Hs Hd]. right. exists l, (status_of o). split; [exact Hs|]. intros H. by apply Hd in H.
Qed.

Lemma ended_none log0 s : head log0 s → ended log0 (Ok None) s.
Proof. intros Hs. left. by split. Qed.

Lemma run_loop_spec log0 fuel preloaded preclaimed pre_recorded restart :
  triple (λ s, match preclaimed with Some l => ready_with log0 l s | None => head log0 s end)
    (run_loop fuel preloaded preclaimed pre_recorded restart) (ended log0).
Proof.
  revert preloaded preclaimed pre_recorded restart.
  induction fuel as [|fuel IH]; intros preloaded preclaimed pre_recorded restart; cbn [run_loop].
  { intros s Hs. apply ended_none. destruct preclaimed; [by eapply ready_head|exact Hs]. }
  set (entry := λ s, match preclaimed with Some l => ready_with log0 l s | None => head log0 s end).
  assert (∀ s s', later s s' → entry s → entry s') as Hentry.
  { intros s s' Hl. unfold entry. destruct preclaimed; [by apply later_ready|by apply later_head]. }
  assert (∀ e s, entry s → ended log0 (Err e) s) as Hfail.
  { intros e s Hs. left. split; [done|]. unfold entry in Hs. destruct preclaimed; [by eapply ready_head|exact Hs]. }
  eapply (triple_cbind _ _ _ (λ _, entry)); [| |exact Hfail].
  { apply minor_keeps; [exact Hentry|]. destruct preloaded; [apply minor_ret|apply minor_call]. }
  intros job. eapply (triple_cbind _ _ _ (λ r s, match r with Ok (Some l) => ready_with log0 l s | _ => head log0 s end)).
  { unfold entry. destruct preclaimed as [l|]; [by intros s|].
    eapply (triple_cbind _ _ _ (λ _, head log0)); [|intros c; apply claim_retry_spec|done].
    apply minor_keeps; [apply later_head|apply minor_call]. }
  2:{ intros e s Hs. left. by split. }
  intros [l|]; [|by intros s Hs; apply ended_none].
  eapply (triple_cbind _ _ _ (λ _, running log0 l)); [apply run_pipeline_spec| |].
  2:{ intros e s Hs. left. split; [done|]. by eapply running_head. }
  assert (∀ o : V + exc, triple (running log0 l)
    (do! published := publish_outcome l o in
     if published then do! _ := refresh in finish o
     else run_loop fuel None None false match preclaimed with Some _ => restart | None => None end) (ended log0)) as Hsettle.
  { intros o. eapply triple_cbind; [apply publish_outcome_spec| |].
    - intros [|]; [apply finish_spec|]. eapply triple_weaken; [apply (IH None None)|apply running_head|done].
    - intros e s Hs. left. split; [done|]. exact (running_head _ _ _ Hs). }
  intros [v|e|e]; [apply (Hsettle (inl v))|apply (Hsettle (inr e))|].
  eapply triple_weaken; [|apply running_head|intros r s Hr; exact Hr].
  do 2 (eapply (triple_cbind _ _ _ (λ _, head log0));
    [apply minor_keeps; [apply later_head|by apply minor_perform]|intros []|intros e' s Hs; left; by split]).
  apply (IH None None).
Qed.

Lemma run_job_spec log0 ready has_task fuel preloaded preclaimed pre_recorded restart :
  triple (λ s, match preclaimed with Some l => ready_with log0 l s | None => head log0 s end)
    (run_job ready has_task fuel preloaded preclaimed pre_recorded restart) (ended log0).
Proof.
  set (entry := λ s, match preclaimed with Some l => ready_with log0 l s | None => head log0 s end).
  assert (∀ e s, entry s → ended log0 (Err e) s) as Hfail.
  { intros e s Hs. left. split; [done|]. unfold entry in Hs. destruct preclaimed; [by eapply ready_head|exact Hs]. }
  unfold run_job. destruct ready; [|intros s Hs; by apply Hfail].
  destruct has_task; [|intros s Hs; by apply Hfail]. cbn [negb].
  eapply (triple_cbind _ _ _ (λ _, entry)); [|intros c; apply run_loop_spec|exact Hfail].
  apply minor_keeps; [|apply minor_call]. intros s s' Hl. unfold entry.
  destruct preclaimed; [by apply later_ready|by apply later_head].
Qed.

Lemma entry_initial preclaimed s :
  db_ok (j_db s) → (∀ l, preclaimed = Some l → mine (j_db s) l.2) →
  match preclaimed with Some l => ready_with (j_log s) l s | None => head (j_log s) s end.
Proof.
  intros Hok Hpre. destruct preclaimed as [l|].
  - split; [done|]. split; [by apply Hpre|]. exists []. by rewrite app_nil_r.
  - split; [done|]. exists []. rewrite app_nil_r. split; [done|]. split; [done|]. split; [constructor|].
    intros pre l Hl. by destruct pre.
Qed.

(** ** Properties *)

#[local] Arguments perform : simpl never.
#[local] Arguments publish_outcome : simpl never.

Section undisturbed.
Hypothesis quiet_env : ∀ w d, interfere env w d = (d, w).
Hypothesis no_fault : ∀ e w, fault env e w = (None, w).

Lemma perform_calm e s : perform e s = (Ok tt, JState (j_db s) (j_log s ++ [e]) (j_world s)).
Proof. unfold perform, record, call, cbind. cbn. by rewrite no_fault. Qed.

Lemma publish_quiet s g x st row :
  st ∈ terminal_statuses → jobs (j_db s) !! a = Some row → generation row = g →
  active_execution_id row = Some x →
  ∃ s', publish (g, x) st s = (Ok tt, s')
    ∧ jobs (j_db s') = <[a := terminal_row (TerminalUpdate a g x st None) row]> (jobs (j_db s))
    ∧ published (j_log s') = published (j_log s) ++ [(g, x, st)].
Proof.
  intros Hst Hrow Hg Hx. unfold publish, transact, record, cbind. cbn.
  rewrite quiet_env. unfold job_execution_is_current. rewrite Hrow, Hg, Z.eqb_refl, Hx.
  rewrite (bool_decide_true (Some x = Some x)) by done. cbn. rewrite perform_calm. cbn. rewrite quiet_env.
  erewrite (finalize_current _ _ _ (TerminalUpdate a g x st None) row) by done. cbn.
  eexists. split; [done|]. cbn. split; [done|]. rewrite !published_app. cbn. by rewrite app_nil_r.
Qed.

Lemma publish_outcome_quiet s g x o row :
  jobs (j_db s) !! a = Some row → generation row = g → active_execution_id row = Some x →
  ∃ s', publish_outcome (g, x) o s = (Ok true, s')
    ∧ jobs (j_db s') = <[a := terminal_row (TerminalUpdate a g x (status_of o) None) row]> (jobs (j_db s))
    ∧ published (j_log s') = published (j_log s) ++ [(g, x, status_of o)].
Proof.
  intros Hrow Hg Hx. unfold publish_outcome, catch, cbind. destruct o as [v|e]; cbn [status_of].
  - destruct (publish_quiet s g x DONE row) as (s' & -> & H1 & H2); [by repeat constructor|done..|]. by exists s'.
  - rewrite perform_calm.
    destruct (publish_quiet (JState (j_db s) (j_log s ++ [WriteDebug]) (j_world s)) g x FAILED row)
      as (s' & -> & H1 & H2); [by repeat constructor|done..|]. exists s'. split; [done|]. split; [done|].
    rewrite H2. cbn. by rewrite published_app, app_nil_r.
Qed.

End undisturbed.

(** C1: whatever other workers, restarts and failures do around it, a run claims one
    lease after another and publishes at most one outcome, under its last lease.
    Returning a value means exactly that lease's DONE was published; a run that
    publishes nothing never returns a value; when node refresh is left to the caller, an
    error after a publication means FAILED was published, and it is [JobFailedError] or
    the handler's own non-[Exception].  Every lease the run gave up, and after a
    publication every lease it ever had, is no job's lease any more. *)
Theorem run_publishes_once ready has_task fuel preloaded preclaimed pre_recorded restart s :
  db_ok (j_db s) → (∀ l, preclaimed = Some l → mine (j_db s) l.2) →
  let '(r, s') := run_job ready has_task fuel preloaded preclaimed pre_recorded restart s in
  db_ok (j_db s') ∧ ∃ suf, j_log s' = j_log s ++ suf
  ∧ ((published suf = [] ∧ (∀ v, r ≠ Ok (Some v))
      ∧ ∀ pre l, leases_of suf = pre ++ [l] → Forall (λ l, gone (j_db s') l.2) pre)
     ∨ ∃ pre l st, leases_of suf = pre ++ [l] ∧ published suf = [(l.1, l.2, st)]
        ∧ Forall (λ l, gone (j_db s') l.2) (leases_of suf)
        ∧ match r with
          | Ok (Some _) => st = DONE
          | Ok None => False
          | Err e => defer_refresh = true →
              st = FAILED ∧ (exc_cls e = JobFailedError ∨ plain_exception e = false)
          end).
Proof.
  intros Hok Hpre. pose proof (run_job_spec (j_log s) ready has_task fuel preloaded preclaimed pre_recorded restart s
    (entry_initial _ _ Hok Hpre)) as Hend.
  destruct (run_job _ _ _ _ _ _ _ s) as [r s']. cbn [fst snd] in Hend.
  destruct Hend as [[Hr (Hok' & suf & Hlog & Hp & _ & Hg)]|(l & st & (Hok' & suf & pre & Hlog & Hp & Hl & Hg) & Hr)];
    (split; [done|]); exists suf; (split; [done|]); [by left|right]. by exists pre, l, st.
Qed.

(** Without interference or faults a claimed job is run to its end in one turn: the
    pipeline's value is returned and DONE published, or its failure is raised as
    [JobFailedError] (a non-[Exception] as it is) and FAILED published, and the job's row
    then has that status and no lease. *)
Theorem undisturbed_run fuel job g x pre_recorded s row r w :
  (∀ w d, interfere env w d = (d, w)) → (∀ e w, fault env e w = (None, w)) →
  (∀ w, (claim_context env w).1 = Ok ("", [])) → defer_refresh = true →
  jobs (j_db s) !! a = Some row → generation row = g → active_execution_id row = Some x →
  pipeline env job g x pre_recorded (claim_context env (j_world s)).2 = (r, w) →
  match r with Err e => exc_cls e ≠ ApiPermitStateError ∧ exc_cls e ≠ JobRestartedError | Ok _ => True end →
  let st := match r with Ok _ => DONE | Err _ => FAILED end in
  let '(r', s') := run_job true true (S fuel) (Some job) (Some (g, x)) pre_recorded None s in
  r' = match r with
       | Ok v => Ok (Some v)
       | Err e => Err (if plain_exception e then Exc JobFailedError "Job failed" else e)
       end
  ∧ jobs (j_db s') = <[a := terminal_row (TerminalUpdate a g x st None) row]> (jobs (j_db s))
  ∧ published (j_log s') = published (j_log s) ++ [(g, x, st)].
Proof.
  intros Hquiet Hfault Hctx Hdefer Hrow Hg Hx Hpipe Hr. cbn zeta.
  set (o := match r with Ok v => inl v | Err e => inr e end : V + exc).
  set (s1 := JState (j_db s) (j_log s ++ [RunPipeline g x]) w).
  destruct (publish_outcome_quiet Hquiet Hfault s1 g x o row Hrow Hg Hx) as (s2 & Hp & Hj & Hl).
  assert (run_job true true (S fuel) (Some job) (Some (g, x)) pre_recorded None s
    = finish o s2) as ->.
  { unfold run_job. cbn [negb]. unfold cbind at 1, call at 1. specialize (Hctx (j_world s)).
    destruct (claim_context env (j_world s)) as [c w1]. cbn in Hctx, Hpipe. subst c. cbn [run_loop].
    unfold run_pipeline, cbind, catch, call, record, ret, refresh. cbn. rewrite Hpipe.
    destruct r as [v|e]; unfold o in Hp; cbn.
    - fold s1. rewrite Hp, Hdefer. done.
    - destruct Hr as [H1 H2]. rewrite (bool_decide_false (_ = ApiPermitStateError)) by done.
      rewrite (bool_decide_false (_ = JobRestartedError)) by done. fold s1. rewrite Hp, Hdefer. done. }
  assert (finish o s2 = (match r with
       | Ok v => Ok (Some v)
       | Err e => Err (if plain_exception e then Exc JobFailedError "Job failed" else e)
       end, s2)) as -> by (destruct r as [v|e]; cbn; [done|]; by destruct (plain_exception e)).
  assert (status_of o = match r with Ok _ => DONE | Err _ => FAILED end) as Hst by (by destruct r).
  rewrite Hst in *. rewrite Hj, Hl. unfold s1. cbn. rewrite published_app. cbn. by rewrite app_nil_r.
Qed.
End run.

(** ** A job restarted once while it runs *)

Module RunSample.

(** The world counts the calls made to the tables.  Between the first claim and its
    publication another process restarts the job. *)
Definition restart_once (n : nat) (d : db) : db * nat :=
  (if (n =? 1)%nat
   then match commit_restart (λ _, "") Sample.owned_targets d Sample.request1 true [Sample.target1] with
        | Ok d => d | Err _ => d end
   else d, S n).

Definition surroundings : @run_surroundings unit nat nat := {|
  load_job w := (Ok tt, w);
  interfere n d := restart_once n d;
  claim_context w := (Ok ("s", ["a"]), w);
  claim_window n := (([], if (n =? 0)%nat then "e1" else "e2", []), n);
  pipeline _ _ _ _ w := (Ok 5%nat, w);
  node_running w := (true, w);
  fault _ w := (None, w)
|}.

Definition run (s : @jstate nat) : result (option nat) * jstate :=
  run_job Sample.snap Sample.readers surroundings ("a", 1) true true true 4 None None false None s.

Definition start : @jstate nat := JState Sample.db0 [] 0%nat.

Lemma restart_once_steps n d :
  db_ok d → rtc (store_step Sample.snap Sample.readers) d (restart_once n d).1.
Proof.
  intros _. unfold restart_once. destruct (n =? 1)%nat; [|done]. cbn [fst].
  destruct (commit_restart _ _ _ _ _ _) as [d'|e] eqn:H; [|done]. eapply rtc_once, step_restart. exact H.
Qed.

(** The first generation's result is discarded, the second one's published. *)
Example restarted_run :
  (run start).1 = Ok (Some 5%nat)
  ∧ leases_of (j_log (run start).2) = [(0, "e1"); (1, "e2")]
  ∧ published (j_log (run start).2) = [(1, "e2", DONE)].
Proof. split; [|split]; vm_compute; reflexivity. Qed.

End RunSample.

Lemma run_publishes_once_witness :
  let '(r, s') := RunSample.run RunSample.start in
  r = Ok (Some 5%nat) ∧ Forall (λ l, gone ("a", 1) (j_db s') l.2) (leases_of (j_log s')).
Proof.
  pose proof (run_publishes_once Sample.snap Sample.readers RunSample.surroundings ("a", 1) true
    RunSample.restart_once_steps true true 4 None None false None RunSample.start Sample.db0_ok) as H.
  specialize (H ltac:(discriminate)). fold (RunSample.run RunSample.start) in H.
  pose proof (proj1 RunSample.restarted_run) as Hr.
  destruct (RunSample.run RunSample.start) as [r s']. cbn [fst] in Hr. split; [exact Hr|].
  destruct H as (_ & suf & Hlog & [(_ & Hno & _)|(pre & l & st & _ & _ & Hg & _)]).
  - destruct (Hno _ Hr).
  - rewrite Hlog. exact Hg.
Defined.

Lemma undisturbed_run_witness :
  match jobs Sample.db1 !! ("a", 1) with
  | Some row =>
      (run_job Sample.snap Sample.readers
         {| load_job w := (Ok tt, w); interfere w d := (d, w); claim_context w := (Ok ("", []), w);
            claim_window w := (([], "", []), w); pipeline _ _ _ _ w := (Err (Exc UserError "boom"), w);
            node_running w := (true, w); fault _ w := (None, w) |}
         ("a", 1) true true true 1 (Some tt) (Some (0, "e1")) false None (JState Sample.db1 [] tt)).1
      = (Err (Exc JobFailedError "Job failed") : result (option nat))
  | None => False
  end.
Proof.
  destruct (jobs Sample.db1 !! ("a", 1)) as [row|] eqn:Hrow; [|vm_compute in Hrow; discriminate].
  set (env := {| load_job w := (Ok tt, w); interfere w d := (d, w); claim_context w := (Ok ("", []), w);
            claim_window w := (([], "", []), w); pipeline _ _ _ _ w := (Err (Exc UserError "boom"), w);
            node_running w := (true, w); fault _ w := (None, w) |} : @run_surroundings unit nat unit).
  pose proof (undisturbed_run Sample.snap Sample.readers env ("a", 1) true 0 tt 0 "e1" false
    (JState Sample.db1 [] tt) row (Err (Exc UserError "boom")) tt) as H.
  assert (generation row = 0 ∧ active_execution_id row = Some "e1") as [Hg Hx]
    by (vm_compute in Hrow; injection Hrow as <-; split; reflexivity).
  specialize (H ltac:(reflexivity) ltac:(reflexivity) ltac:(reflexivity) eq_refl Hrow Hg Hx eq_refl
    ltac:(split; discriminate)).
  destruct (run_job _ _ _ _ _ _ _ _ _ _ _ _ _) as [r s']. exact (proj1 H).
Defined.
