(* ===== verification/Network.v ===== *)
(** The network manager ([network/manager.py], [network/recovery.py], [network/types.py],
    [network/configuration.py]): connection shards shared by concurrent requests, the body
    of a response read against a stalled stream, replays on another shard, and the ingress
    queue the event loop drains.

    One event loop runs every request as a coroutine; a coroutine runs undisturbed between
    two awaits, so each function here is one such turn and [resume] is any turn of any
    request.  What the transport answers, what callbacks raise and the clock are inputs of
    a turn.  Times are integers in microseconds.  Shards are shared objects: a store by
    [shard_id], which [_clients] lists. *)
From S2P Require Import Prelude JsonText.

#[local] Open Scope Z_scope.

(** ** Configuration ([configuration.py]) *)

(** The Python values whose type [configure] checks. *)
Inductive argument := ANone | ABool (b : bool) | AInt (n : Z) | AOther.

Record NetworkConfig := MkConfig {
  http2 : bool;
  requested_streams_per_connection : Z;
  http2_stream_safety_cap : Z;
  streams_per_connection : Z;
  http1_connections_per_shard : Z;
  tcp_keepalive : bool;
  tcp_keepalive_idle_seconds : Z;
  tcp_keepalive_interval_seconds : Z;
  tcp_keepalive_probes : Z;
  json_terminal_grace : Z;
  cohort_stall : Z;
  cohort_terminal_evidence : Z;
  cohort_retry_limit : Z;
  transport_error_retry_limit : Z;
  architecture : string;
  state_flush_interval : Z
}.

Section configuration.
(** [os.getenv], and [float] of a text in microseconds. *)
Context (getenv : string → option string) (py_float : string → option Z).

Definition _positive_integer (value : argument) (environment : string) (default_ : Z) : result Z :=
  let! value := match value with
    | ANone => match getenv environment with
               | None => Ok (AInt default_)
               | Some t => match py_int t with Some n => Ok (AInt n) | None => raise ValueError "must be an integer >= 1" end
               end
    | v => Ok v
    end in
  match value with
  | AInt n => check! 1 <=? n orelse ValueError saying "must be an integer >= 1" in Ok n
  | _ => raise ValueError "must be an integer >= 1"
  end.

Definition _positive_float (environment : string) (default_ : Z) : result Z :=
  let! value := match getenv environment with
    | None => Ok default_
    | Some t => match py_float t with Some x => Ok x | None => raise ValueError "must be a positive number" end
    end in
  check! 0 <? value orelse ValueError saying "must be a positive number" in Ok value.

Definition _nonnegative_integer (environment : string) (default_ : Z) : result Z :=
  let! value := match getenv environment with
    | None => Ok default_
    | Some t => match py_int t with Some n => Ok n | None => raise ValueError "must be an integer >= 0" end
    end in
  check! 0 <=? value orelse ValueError saying "must be an integer >= 0" in Ok value.

Definition boolean_setting (value : argument) (environment : string) : result bool :=
  match value with
  | ANone => Ok (bool_decide (lower (strip (default "1" (getenv environment))) ∉ ["0"; "false"; "no"; "off"]))
  | ABool b => Ok b
  | _ => raise ValueError "tcp_keepalive must be a bool"
  end.

(** [configure], up to the client's own arguments; [active] says that the manager's thread
    runs. *)
Definition configure (http2_ streams cap http1 : argument) (arch : option string) (flush : Z)
    (keepalive idle interval probes : argument) (active : bool) : result NetworkConfig :=
  let! h2 := match http2_ with ABool b => Ok b | _ => raise ValueError "http2 must be a bool" end in
  let! n := match streams with
    | AInt n => check! 1 <=? n orelse ValueError saying "streams_per_connection must be an integer >= 1" in Ok n
    | _ => raise ValueError "streams_per_connection must be an integer >= 1"
    end in
  let! cap := _positive_integer cap "MWF_HTTP2_STREAM_SAFETY_CAP" 32 in
  let! http1 := _positive_integer http1 "MWF_HTTP1_CONNECTIONS_PER_SHARD" 16 in
  let! keepalive := boolean_setting keepalive "MWF_TCP_KEEPALIVE" in
  let! idle := _positive_integer idle "MWF_TCP_KEEPALIVE_IDLE_SECONDS" 30 in
  let! interval := _positive_integer interval "MWF_TCP_KEEPALIVE_INTERVAL_SECONDS" 10 in
  let! probes := _positive_integer probes "MWF_TCP_KEEPALIVE_PROBES" 3 in
  let! grace := _positive_float "MWF_JSON_TERMINAL_GRACE_SECONDS" 5000000 in
  let! stall := _positive_float "MWF_HTTP2_COHORT_STALL_SECONDS" 300000000 in
  let! evidence := _nonnegative_integer "MWF_HTTP2_COHORT_TERMINALS" 16 in
  check! 1 <=? evidence orelse ValueError saying "MWF_HTTP2_COHORT_TERMINALS must be an integer >= 1" in
  let! cohort := _nonnegative_integer "MWF_HTTP2_COHORT_RETRIES" 2 in
  let! transport := _nonnegative_integer "MWF_HTTP_TRANSPORT_RETRIES" 2 in
  let given := match arch with Some a => if bool_decide (a = "") then None else Some a | None => None end in
  let arch := lower (strip (default (default "manager" (getenv "MWF_NETWORK_ARCHITECTURE")) given)) in
  check! bool_decide (arch ∈ ["manager"; "direct"]) orelse ValueError saying "network architecture must be 'manager' or 'direct'" in
  check! (0 <? flush) && (flush <=? 2000000) orelse ValueError saying "state_flush_interval must be > 0 and <= 2 seconds" in
  check! negb active orelse RuntimeError saying "shared network manager is already active" in
  Ok (MkConfig h2 n cap (if h2 then Z.min n cap else n) http1 keepalive idle interval probes grace stall evidence cohort transport arch flush).
End configuration.

Definition _shard_capacity (c : NetworkConfig) : Z :=
  if http2 c then streams_per_connection c else Z.min (streams_per_connection c) (http1_connections_per_shard c).

(** ** Data ([types.py]) *)

(** [ClientShard]; [sh_closed] is whether its client was told to close. *)
Record ClientShard := MkShard {
  sh_closed : bool;
  created_at : Z;
  in_flight : Z;
  peak_in_flight : Z;
  requests_started : Z;
  requests_completed : Z;
  requests_failed : Z;
  last_terminal_at : Z;
  last_error : option string;
  retiring : bool;
  retired_reason : option string;
  retired_at : Z;
  cohort_stalls : Z
}.

(** Why an attempt ends without a response: a stalled stream, one of the transport's own
    errors ([httpx.NetworkError], [ProtocolError], [TimeoutException]), a [TimeoutError] of
    the event loop, or anything else, cancellation included. *)
Inductive failure := Cohort (reason : string) | Transport (text : string) | LoopTimeout | Other (text : string).

Record response := MkResponse { r_status : Z; r_content : string }.

(** [NetworkFuture]: the states of [concurrent.futures.Future]. *)
Inductive future := Pending | Running | Cancelled | Result (r : response) | Exception_ (f : failure).

Definition done (f : future) : bool := match f with Pending | Running => false | _ => true end.

(** [NetworkRequest], up to what is handed to the client. *)
Record NetworkRequest := MkRequest {
  rq_key : option (string * string);   (* project and node *)
  rq_expect_json : bool;
  rq_attempt_callback : bool;
  rq_read_timeout : option Z;
  rq_submitted_at : Z
}.

Record NetworkCounters := MkCounters {
  nc_submitted : Z;
  nc_dispatched : Z;
  nc_completed : Z;
  nc_failed : Z;
  nc_bytes_received : Z;
  nc_in_flight : Z;
  nc_peak_in_flight : Z;
  nc_max_ingress_delay : Z;
  nc_max_request : Z;
  nc_total_request : Z;
  nc_last_error : option failure
}.
Definition no_requests : NetworkCounters := MkCounters 0 0 0 0 0 0 0 0 0 0 None.

(** The row of [_active_requests] a running request keeps. *)
Record active := MkActive {
  a_shard_id : option Z;
  a_started_at : Z;
  a_physical_attempt : Z;
  a_replay_reason : option string;
  a_attempt_started_at : Z;
  a_terminal_baseline : Z;
  a_response_bytes : Z;
  a_last_progress_at : option Z;
  a_cohort_retries : Z;
  a_transport_retries : Z
}.

(** ** Coroutines *)

(** What was read of a response body so far. *)
Record reading := MkReading {
  rd_status : Z;
  rd_json : bool;              (* the content type is [application/json] *)
  rd_encoding : string;
  rd_headers_at : Z;
  rd_body : string;
  rd_complete : bool
}.

(** What [_request_with_progress] returns or raises. *)
Inductive outcome := Responded (r : response) | Raised (f : failure).

(** What happens once a closing client is closed: the handler of an attempt goes on, or the
    coroutine is over. *)
Inductive after := Replay (f : failure) | Leave.

(** Where a request's coroutine is suspended: created and not begun, awaiting the answer or
    its headers, awaiting a chunk, awaiting the read it cancelled, awaiting the end of the
    stream's context with its outcome decided, awaiting a client to close; [Turn] is inside
    a turn, with no shard. *)
Inductive position :=
  | Created
  | Requesting
  | Reading (r : reading)
  | Abandoning (r : reading) (f : option failure)
  | Ending (o : outcome)
  | Closing (k : after)
  | Turn
  | Finished.

(** The locals of [_execute]; [co_direct] marks a coroutine that [direct] wraps, and
    [co_cancel] that its task was asked to cancel. *)
Record coroutine := MkCoroutine {
  co_request : NetworkRequest;
  co_direct : bool;
  co_cancel : bool;
  co_position : position;
  co_shard : option Z;
  co_cohort_retries : Z;
  co_transport_retries : Z;
  co_physical_attempt : Z;
  co_replay_reason : option string;
  co_started : Z
}.

(** A coroutine that has a claimed shard. *)
Definition holding (p : position) : bool :=
  match p with Requesting | Reading _ | Abandoning _ _ | Ending _ => true | _ => false end.
Definition holds (id : Z) (co : coroutine) : bool := holding (co_position co) && bool_decide (co_shard co = Some id).

(** ** The manager *)

Record totals := MkTotals {
  t_retired_shards : Z;
  t_json_stream_recoveries : Z;
  t_cohort_stream_retries : Z;
  t_transport_error_retries : Z;
  t_recovery_shard_reuses : Z;
  t_recovery_shards_created : Z;
  t_requests_enqueued : Z;
  t_ingress_wakeups : Z
}.

(** Where the drain callback is: not running, taking requests, or past its loop. *)
Inductive draining := Idle | Taking (n : nat) | Drained.

(** Where a thread inside [submit_request] is: before the put, or before the wake-up. *)
Inductive submitting := Putting | Waking.

Record manager := MkManager {
  shards : gmap Z ClientShard;
  clients : list Z;
  next_shard_id : Z;
  next_client_index : nat;
  active_requests : gmap nat active;
  futures : gmap nat future;
  tasks : gmap nat coroutine;
  requests : gmap nat NetworkRequest;
  stats : gmap (string * string) NetworkCounters;
  ingress : list nat;
  scheduled : bool;
  callbacks : nat;             (* drains the loop has yet to run *)
  drain : draining;
  submitters : gmap nat submitting;
  counts : totals
}.

Definition network_init : manager := MkManager ∅ [] 1 0 ∅ ∅ ∅ ∅ ∅ [] false 0 Idle ∅ (MkTotals 0 0 0 0 0 0 0 0).

Definition set_shards (x : gmap Z ClientShard) (m : manager) : manager :=
  MkManager x (clients m) (next_shard_id m) (next_client_index m) (active_requests m) (futures m) (tasks m) (requests m) (stats m) (ingress m) (scheduled m) (callbacks m) (drain m) (submitters m) (counts m).
Definition set_pool (x : list Z) (next : Z) (i : nat) (m : manager) : manager :=
  MkManager (shards m) x next i (active_requests m) (futures m) (tasks m) (requests m) (stats m) (ingress m) (scheduled m) (callbacks m) (drain m) (submitters m) (counts m).
Definition set_active (x : gmap nat active) (m : manager) : manager :=
  MkManager (shards m) (clients m) (next_shard_id m) (next_client_index m) x (futures m) (tasks m) (requests m) (stats m) (ingress m) (scheduled m) (callbacks m) (drain m) (submitters m) (counts m).
Definition set_futures (x : gmap nat future) (m : manager) : manager :=
  MkManager (shards m) (clients m) (next_shard_id m) (next_client_index m) (active_requests m) x (tasks m) (requests m) (stats m) (ingress m) (scheduled m) (callbacks m) (drain m) (submitters m) (counts m).
Definition set_tasks (x : gmap nat coroutine) (m : manager) : manager :=
  MkManager (shards m) (clients m) (next_shard_id m) (next_client_index m) (active_requests m) (futures m) x (requests m) (stats m) (ingress m) (scheduled m) (callbacks m) (drain m) (submitters m) (counts m).
Definition set_requests (x : gmap nat NetworkRequest) (m : manager) : manager :=
  MkManager (shards m) (clients m) (next_shard_id m) (next_client_index m) (active_requests m) (futures m) (tasks m) x (stats m) (ingress m) (scheduled m) (callbacks m) (drain m) (submitters m) (counts m).
Definition set_stats (x : gmap (string * string) NetworkCounters) (m : manager) : manager :=
  MkManager (shards m) (clients m) (next_shard_id m) (next_client_index m) (active_requests m) (futures m) (tasks m) (requests m) x (ingress m) (scheduled m) (callbacks m) (drain m) (submitters m) (counts m).
Definition set_ingress (x : list nat) (s : bool) (k : nat) (d : draining) (ts : gmap nat submitting) (m : manager) : manager :=
  MkManager (shards m) (clients m) (next_shard_id m) (next_client_index m) (active_requests m) (futures m) (tasks m) (requests m) (stats m) x s k d ts (counts m).
Definition set_counts (x : totals) (m : manager) : manager :=
  MkManager (shards m) (clients m) (next_shard_id m) (next_client_index m) (active_requests m) (futures m) (tasks m) (requests m) (stats m) (ingress m) (scheduled m) (callbacks m) (drain m) (submitters m) x.

(** Changes of one shard, of one coroutine and of one counter. *)
Definition on_shard (id : Z) (f : ClientShard → ClientShard) (m : manager) : manager := set_shards (alter f id (shards m)) m.
Definition on_task (n : nat) (f : coroutine → coroutine) (m : manager) : manager := set_tasks (alter f n (tasks m)) m.
Definition on_active (n : nat) (f : active → active) (m : manager) : manager := set_active (alter f n (active_requests m)) m.

(** [_counter], for requests whose sink needs no registration. *)
Definition on_counter (rq : NetworkRequest) (f : NetworkCounters → NetworkCounters) (m : manager) : manager :=
  match rq_key rq with
  | None => m
  | Some k => set_stats (<[k := f (default no_requests (stats m !! k))]> (stats m)) m
  end.

Definition goto (p : position) (co : coroutine) : coroutine :=
  MkCoroutine (co_request co) (co_direct co) (co_cancel co) p (co_shard co) (co_cohort_retries co) (co_transport_retries co)
    (co_physical_attempt co) (co_replay_reason co) (co_started co).
Definition with_shard (id : option Z) (p : position) (co : coroutine) : coroutine :=
  MkCoroutine (co_request co) (co_direct co) (co_cancel co) p id (co_cohort_retries co) (co_transport_retries co)
    (co_physical_attempt co) (co_replay_reason co) (co_started co).
Definition with_retries (c t p : Z) (why : option string) (co : coroutine) : coroutine :=
  MkCoroutine (co_request co) (co_direct co) (co_cancel co) (co_position co) (co_shard co) c t p why (co_started co).

(** ** Shards *)

Definition claim_shard (s : ClientShard) : ClientShard :=
  MkShard (sh_closed s) (created_at s) (in_flight s + 1) (Z.max (peak_in_flight s) (in_flight s + 1)) (requests_started s + 1)
    (requests_completed s) (requests_failed s) (last_terminal_at s) (last_error s) (retiring s) (retired_reason s) (retired_at s) (cohort_stalls s).
Definition retire (why : string) (now : Z) (s : ClientShard) : ClientShard :=
  MkShard (sh_closed s) (created_at s) (in_flight s) (peak_in_flight s) (requests_started s)
    (requests_completed s) (requests_failed s) (last_terminal_at s) (last_error s) true (Some why) now (cohort_stalls s).
Definition count_stall (s : ClientShard) : ClientShard :=
  MkShard (sh_closed s) (created_at s) (in_flight s) (peak_in_flight s) (requests_started s)
    (requests_completed s) (requests_failed s) (last_terminal_at s) (last_error s) (retiring s) (retired_reason s) (retired_at s) (cohort_stalls s + 1).
Definition count_failure (why : string) (now : Z) (s : ClientShard) : ClientShard :=
  MkShard (sh_closed s) (created_at s) (in_flight s) (peak_in_flight s) (requests_started s)
    (requests_completed s) (requests_failed s + 1) now (Some why) (retiring s) (retired_reason s) (retired_at s) (cohort_stalls s).
Definition count_completion (now : Z) (s : ClientShard) : ClientShard :=
  MkShard (sh_closed s) (created_at s) (in_flight s) (peak_in_flight s) (requests_started s)
    (requests_completed s + 1) (requests_failed s) now (last_error s) (retiring s) (retired_reason s) (retired_at s) (cohort_stalls s).
Definition drop_claim (s : ClientShard) : ClientShard :=
  MkShard (sh_closed s) (created_at s) (Z.max 0 (in_flight s - 1)) (peak_in_flight s) (requests_started s)
    (requests_completed s) (requests_failed s) (last_terminal_at s) (last_error s) (retiring s) (retired_reason s) (retired_at s) (cohort_stalls s).
Definition close_client (s : ClientShard) : ClientShard :=
  MkShard true (created_at s) (in_flight s) (peak_in_flight s) (requests_started s)
    (requests_completed s) (requests_failed s) (last_terminal_at s) (last_error s) (retiring s) (retired_reason s) (retired_at s) (cohort_stalls s).

(** [_new_client_shard], when the client can be constructed. *)
Definition _new_client_shard (now : Z) (m : manager) : Z * manager :=
  let id := next_shard_id m in
  (id, set_shards (<[id := MkShard false now 0 0 0 0 0 0 None false None 0 0]> (shards m))
         (set_pool (clients m ++ [id]) (id + 1) (next_client_index m) m)).

(** One turn of the loop of [_acquire_client] at [index]: a usable shard with more requests
    in flight than the one selected so far. *)
Definition consider (capacity : Z) (m : manager) (selected : option (nat * Z)) (index : nat) : option (nat * Z) :=
  match clients m !! index with
  | Some id =>
      match shards m !! id with
      | Some s =>
          let load i := match shards m !! i with Some s => in_flight s | None => 0 end in
          if negb (retiring s) && (in_flight s <? capacity)
             && match selected with None => true | Some (_, id') => load id' <? in_flight s end
          then Some (index, id) else selected
      | None => selected
      end
  | None => selected
  end.

Definition rotation (m : manager) : list nat :=
  (λ offset, Nat.modulo (next_client_index m + offset) (length (clients m))) <$> seq 0 (length (clients m)).

Definition select_shard (c : NetworkConfig) (m : manager) : option (nat * Z) :=
  foldl (consider (_shard_capacity c) m) None (rotation m).

(** [_acquire_client]; [client_error] is what constructing a client raises. *)
Definition _acquire_client (c : NetworkConfig) (now : Z) (client_error : option failure) (m : manager) : (failure + Z) * manager :=
  match select_shard c m with
  | Some (index, id) =>
      (inr id, on_shard id claim_shard (set_pool (clients m) (next_shard_id m) (Nat.modulo (index + 1) (length (clients m))) m))
  | None =>
      match client_error with
      | Some f => (inl f, m)
      | None => let '(id, m) := _new_client_shard now m in
                (inr id, on_shard id claim_shard (set_pool (clients m) (next_shard_id m) 0 m))
      end
  end.

(** [_release_client] up to its await: whether the client has to be closed first. *)
Definition must_close (id : Z) (m : manager) : bool :=
  match shards m !! id with Some s => retiring s && (in_flight s =? 0) | None => false end.

(** [_release_client] after it: the shard leaves the list. *)
Definition remove_shard (id : Z) (m : manager) : manager :=
  let t := counts m in
  set_counts (MkTotals (t_retired_shards t + 1) (t_json_stream_recoveries t) (t_cohort_stream_retries t) (t_transport_error_retries t)
                (t_recovery_shard_reuses t) (t_recovery_shards_created t) (t_requests_enqueued t) (t_ingress_wakeups t))
    (set_pool (filter (λ i, i ≠ id) (clients m)) (next_shard_id m) (next_client_index m) m).

(** ** One turn of a request *)

(** What a turn is given: the clock, and what the attempt callback and the construction of
    a client raise. *)
Record surroundings := MkSurroundings { w_now : Z; w_callback_error : option failure; w_client_error : option failure }.

Definition add_retries (cohort transport reuses created : Z) (m : manager) : manager :=
  let t := counts m in
  set_counts (MkTotals (t_retired_shards t) (t_json_stream_recoveries t) (t_cohort_stream_retries t + cohort)
                (t_transport_error_retries t + transport) (t_recovery_shard_reuses t + reuses) (t_recovery_shards_created t + created)
                (t_requests_enqueued t) (t_ingress_wakeups t)) m.
Definition count_recovery (m : manager) : manager :=
  let t := counts m in
  set_counts (MkTotals (t_retired_shards t) (t_json_stream_recoveries t + 1) (t_cohort_stream_retries t)
                (t_transport_error_retries t) (t_recovery_shard_reuses t) (t_recovery_shards_created t)
                (t_requests_enqueued t) (t_ingress_wakeups t)) m.

Definition failure_text (f : failure) : string :=
  match f with Cohort r => r | Transport t => t | LoopTimeout => "TimeoutError" | Other t => t end.

Definition count_failed (f : failure) (k : NetworkCounters) : NetworkCounters :=
  MkCounters (nc_submitted k) (nc_dispatched k) (nc_completed k) (nc_failed k + 1) (nc_bytes_received k) (Z.max 0 (nc_in_flight k - 1))
    (nc_peak_in_flight k) (nc_max_ingress_delay k) (nc_max_request k) (nc_total_request k) (Some f).
Definition count_completed (duration bytes : Z) (k : NetworkCounters) : NetworkCounters :=
  MkCounters (nc_submitted k) (nc_dispatched k) (nc_completed k + 1) (nc_failed k) (nc_bytes_received k + bytes) (Z.max 0 (nc_in_flight k - 1))
    (nc_peak_in_flight k) (nc_max_ingress_delay k) (Z.max (nc_max_request k) duration) (nc_total_request k + duration) (nc_last_error k).
Definition count_dispatched (delay : Z) (k : NetworkCounters) : NetworkCounters :=
  MkCounters (nc_submitted k) (nc_dispatched k + 1) (nc_completed k) (nc_failed k) (nc_bytes_received k) (nc_in_flight k + 1)
    (Z.max (nc_peak_in_flight k) (nc_in_flight k + 1)) (Z.max (nc_max_ingress_delay k) delay) (nc_max_request k) (nc_total_request k) (nc_last_error k).
Definition count_submitted (k : NetworkCounters) : NetworkCounters :=
  MkCounters (nc_submitted k + 1) (nc_dispatched k) (nc_completed k) (nc_failed k) (nc_bytes_received k) (nc_in_flight k)
    (nc_peak_in_flight k) (nc_max_ingress_delay k) (nc_max_request k) (nc_total_request k) (nc_last_error k).

(** [if not future.done(): future.set_...]. *)
Definition settle_future (n : nat) (f : future) (m : manager) : manager :=
  match futures m !! n with
  | Some f0 => if done f0 then m else set_futures (<[n := f]> (futures m)) m
  | None => m
  end.

(** Release the shard of request [n] and either wait for its client to close or go on. *)
Definition release_then (n : nat) (k : after) (next : manager → manager) (m : manager) : manager :=
  match tasks m !! n with
  | Some co =>
      match co_shard co with
      | Some id =>
          let m := on_shard id drop_claim m in
          if must_close id m then on_shard id close_client (on_task n (goto (Closing k)) m)
          else next m
      | None => next m
      end
  | None => m
  end.

(** The [finally] of [_execute]. *)
Definition leave (n : nat) (m : manager) : manager :=
  release_then n Leave (on_task n (with_shard None Finished)) (set_active (delete n (active_requests m)) m).

(** [except BaseException] of [_execute]. *)
Definition conclude_error (now : Z) (n : nat) (f : failure) (m : manager) : manager :=
  match tasks m !! n with
  | Some co =>
      let m := match co_shard co with Some id => on_shard id (count_failure (failure_text f) now) m | None => m end in
      leave n (settle_future n (Exception_ f) (on_counter (co_request co) (count_failed f) m))
  | None => m
  end.

(** The [else] of [_execute]. *)
Definition conclude_response (now : Z) (n : nat) (r : response) (m : manager) : manager :=
  match tasks m !! n with
  | Some co =>
      let m := match co_shard co with Some id => on_shard id (count_completion now) m | None => m end in
      let bytes := Z.of_nat (String.length (r_content r)) in
      leave n (settle_future n (Result r) (on_counter (co_request co) (count_completed (now - co_started co) bytes) m))
  | None => m
  end.

Definition attempt_row (p : Z) (why : option string) (a : active) : active :=
  MkActive (a_shard_id a) (a_started_at a) p why (a_attempt_started_at a) (a_terminal_baseline a) (a_response_bytes a)
    (a_last_progress_at a) (a_cohort_retries a) (a_transport_retries a).
Definition claimed_row (id now baseline c t : Z) (a : active) : active :=
  MkActive (Some id) (a_started_at a) (a_physical_attempt a) (a_replay_reason a) now baseline 0 None c t.
Definition retry_row (c t : Z) (a : active) : active :=
  MkActive (a_shard_id a) (a_started_at a) (a_physical_attempt a) (a_replay_reason a) (a_attempt_started_at a) (a_terminal_baseline a)
    (a_response_bytes a) (a_last_progress_at a) c t.
Definition progress_row (bytes now : Z) (a : active) : active :=
  MkActive (a_shard_id a) (a_started_at a) (a_physical_attempt a) (a_replay_reason a) (a_attempt_started_at a) (a_terminal_baseline a)
    bytes (Some now) (a_cohort_retries a) (a_transport_retries a).

(** The head of the attempt loop, up to the await of the request. *)
Definition attempt (c : NetworkConfig) (w : surroundings) (n : nat) (m : manager) : manager :=
  match tasks m !! n with
  | Some co =>
      let p := co_physical_attempt co + 1 in
      let m := on_task n (with_retries (co_cohort_retries co) (co_transport_retries co) p (co_replay_reason co)) m in
      let m := on_active n (attempt_row p (co_replay_reason co)) m in
      match (if rq_attempt_callback (co_request co) then w_callback_error w else None) with
      | Some f => conclude_error (w_now w) n f m
      | None =>
          let recovering := negb ((co_cohort_retries co =? 0) && (co_transport_retries co =? 0)) in
          let next := next_shard_id m in
          match _acquire_client c (w_now w) (w_client_error w) m with
          | (inl f, m) => conclude_error (w_now w) n f m
          | (inr id, m) =>
              let m := if recovering then if next_shard_id m =? next then add_retries 0 0 1 0 m else add_retries 0 0 0 1 m else m in
              let baseline := match shards m !! id with Some s => requests_completed s + requests_failed s | None => 0 end in
              on_task n (with_shard (Some id) Requesting)
                (on_active n (claimed_row id (w_now w) baseline (co_cohort_retries co) (co_transport_retries co)) m)
          end
      end
  | None => m
  end.

(** The end of an attempt's handler, its shard released: raise, or the next attempt. *)
Definition replay (c : NetworkConfig) (w : surroundings) (n : nat) (f : failure) (m : manager) : manager :=
  match tasks m !! n with
  | Some co =>
      let m := on_task n (with_shard None Turn) m in
      match f with
      | Cohort _ =>
          if cohort_retry_limit c <=? co_cohort_retries co then conclude_error (w_now w) n f m else
          let m := on_task n (with_retries (co_cohort_retries co + 1) (co_transport_retries co) (co_physical_attempt co) (Some "cohort_stream_stall")) m in
          attempt c w n (on_active n (retry_row (co_cohort_retries co + 1) (co_transport_retries co)) m)
      | _ =>
          if transport_error_retry_limit c <=? co_transport_retries co then conclude_error (w_now w) n f m else
          let m := on_task n (with_retries (co_cohort_retries co) (co_transport_retries co + 1) (co_physical_attempt co) (Some "transport_error")) m in
          attempt c w n (on_active n (retry_row (co_cohort_retries co) (co_transport_retries co + 1)) (add_retries 0 1 0 0 m))
      end
  | None => m
  end.

(** The handlers of an attempt. *)
Definition attempt_failed (c : NetworkConfig) (w : surroundings) (n : nat) (f : failure) (m : manager) : manager :=
  match tasks m !! n with
  | Some co =>
      match co_shard co, f with
      | Some id, Cohort why =>
          let m := add_retries 1 0 0 0 (on_shard id (λ s, retire why (w_now w) (count_stall s)) m) in
          release_then n (Replay f) (replay c w n f) m
      | Some id, Transport why =>
          let m := on_shard id (λ s, count_failure why (w_now w) (retire why (w_now w) s)) m in
          release_then n (Replay f) (replay c w n f) m
      | _, _ => conclude_error (w_now w) n f m
      end
  | None => m
  end.

(** [_execute] from its first statement; the wrapper of direct mode counts the request. *)
Definition begin (c : NetworkConfig) (w : surroundings) (n : nat) (m : manager) : manager :=
  match tasks m !! n with
  | Some co =>
      let m := if co_direct co then on_counter (co_request co) count_submitted m else m in
      match futures m !! n with
      | Some Pending =>
          let now := w_now w in
          let m := set_futures (<[n := Running]> (futures m)) m in
          let m := on_counter (co_request co) (count_dispatched (now - rq_submitted_at (co_request co))) m in
          let m := set_active (<[n := MkActive None now 0 None 0 0 0 None 0 0]> (active_requests m)) m in
          let start co := MkCoroutine (co_request co) (co_direct co) (co_cancel co) Turn None 0 0 0 None now in
          attempt c w n (on_task n start m)
      | _ => on_task n (with_shard None Finished) m
      end
  | None => m
  end.

(** ** Reading a response ([recovery.py]) *)

Section recovery.
(** [gzip.decompress], [zlib.decompress] and the decoding of bytes by [json.loads]; [None]
    when they raise. *)
Context (gzip_decompress zlib_decompress decode_bytes : string → option string).

Definition _complete_json_document (content content_encoding : string) : bool :=
  let encoding := lower (strip content_encoding) in
  let decoded :=
    if bool_decide (encoding ∈ [""; "identity"]) then Some content
    else if bool_decide (encoding = "gzip") then gzip_decompress content
    else if bool_decide (encoding = "deflate") then zlib_decompress content
    else None in
  match decoded with
  | Some bytes => match decode_bytes bytes with Some text => bool_decide (is_Some (loads text)) | None => false end
  | None => false
  end.

(** [_cohort_stream_stall_reason]. *)
Definition _cohort_stream_stall_reason (c : NetworkConfig) (a : active) (s : ClientShard) (now : Z) : option string :=
  let sibling_terminals := requests_completed s + requests_failed s - a_terminal_baseline a in
  let available_siblings := Z.max 0 (in_flight s - 1) + sibling_terminals in
  let terminal_evidence := Z.min (cohort_terminal_evidence c) (Z.max 2 available_siblings) in
  let age := now - a_attempt_started_at a in
  if (cohort_stall c <=? age) && (terminal_evidence <=? sibling_terminals) && (a_attempt_started_at a <=? last_terminal_at s)
  then Some "stream remained nonterminal" else None.

(** How long the next wait for a chunk lasts. *)
Definition chunk_timeout (c : NetworkConfig) (rq : NetworkRequest) (a : active) (r : reading) (now : Z) : Z :=
  if rd_complete r then json_terminal_grace c else
  let t := Z.min 5000000 (cohort_stall c / 4) in
  match rq_read_timeout rq with
  | Some limit => Z.min t (Z.max 1000 (default (rd_headers_at r) (a_last_progress_at a) + limit - now))
  | None => t
  end.

(** The inner waiting loop while no chunk arrives and no sibling ends: waits of exactly
    [chunk_timeout], until the read is given up, with when and why ([None]: its document is
    complete). *)
Fixpoint silent_read (fuel : nat) (c : NetworkConfig) (rq : NetworkRequest) (a : active) (s : ClientShard) (r : reading) (now : Z) :
    option (Z * option failure) :=
  match fuel with
  | O => None
  | S fuel =>
      let now := now + chunk_timeout c rq a r now in
      if rd_complete r then Some (now, None) else
      match _cohort_stream_stall_reason c a s now with
      | Some why => Some (now, Some (Cohort why))
      | None =>
          match rq_read_timeout rq with
          | Some limit => if limit <=? now - default (rd_headers_at r) (a_last_progress_at a)
                          then Some (now, Some (Transport "ReadTimeout")) else silent_read fuel c rq a s r now
          | None => silent_read fuel c rq a s r now
          end
      end
  end.

(** What the coroutine is resumed with: response headers (with the whole body when a custom
    transport has it), an answer read whole, a chunk, the end of a wait without one, the end
    of the stream, the return of any other await, or an exception thrown into it. *)
Inductive event :=
  | Headers (status : Z) (json : bool) (encoding : string) (consumed : option string)
  | Answer (r : response)
  | Chunk (bytes : string)
  | Silent
  | EndOfStream
  | Return
  | Throw (f : failure).

(** The reading loop is left: note a missing end of stream, build the response. *)
Definition finish_body (now : Z) (n : nat) (r : reading) (ended : bool) (m : manager) : manager :=
  let m := if rd_complete r && negb ended then
             match tasks m !! n with
             | Some co => match co_shard co with
                          | Some id => count_recovery (on_shard id (retire "complete JSON arrived without HTTP/2 stream termination" now) m)
                          | None => m
                          end
             | None => m
             end
           else m in
  on_task n (goto (Ending (Responded (MkResponse (rd_status r) (rd_body r))))) m.

Definition with_chunk (r : reading) (bytes : string) : reading :=
  let body := (rd_body r ++ bytes)%string in
  MkReading (rd_status r) (rd_json r) (rd_encoding r) (rd_headers_at r) body
    (if rd_json r then _complete_json_document body (rd_encoding r) else rd_complete r).

(** One turn of the reading loop of [_request_with_progress]. *)
Definition on_reading (c : NetworkConfig) (now : Z) (n : nat) (co : coroutine) (id : Z) (a : active) (s : ClientShard) (r : reading)
    (e : event) (m : manager) : option manager :=
  match e with
  | Chunk bytes =>
      let r := with_chunk r bytes in
      let m := on_active n (progress_row (Z.of_nat (String.length (rd_body r))) now) m in
      let a := progress_row (Z.of_nat (String.length (rd_body r))) now a in
      Some (on_task n (goto (match (if rd_complete r then None else _cohort_stream_stall_reason c a s now) with
                             | Some why => Ending (Raised (Cohort why))
                             | None => Reading r
                             end)) m)
  | Silent =>
      Some (on_task n (goto (
        if rd_complete r then Abandoning r None else
        match _cohort_stream_stall_reason c a s now with
        | Some why => Abandoning r (Some (Cohort why))
        | None =>
            match rq_read_timeout (co_request co) with
            | Some limit => if limit <=? now - default (rd_headers_at r) (a_last_progress_at a)
                            then Abandoning r (Some (Transport "ReadTimeout")) else Reading r
            | None => Reading r
            end
        end)) m)
  | EndOfStream => Some (finish_body now n r true m)
  | Throw LoopTimeout => Some (finish_body now n r false m)
  | Throw f => Some (on_task n (goto (Ending (Raised f))) m)
  | _ => None
  end.

(** The turn of request [n] that an event starts; [None] when it cannot be resumed so. *)
Definition resume (c : NetworkConfig) (w : surroundings) (n : nat) (e : event) (m : manager) : option manager :=
  match tasks m !! n with
  | Some co =>
      match co_position co, e with
      | Created, Return => Some (begin c w n m)
      | Created, Throw _ => if co_cancel co then Some (on_task n (with_shard None Finished) m) else None
      | Requesting, Answer r => if rq_expect_json (co_request co) then None else Some (conclude_response (w_now w) n r m)
      | Requesting, Headers status json encoding consumed =>
          if rq_expect_json (co_request co) then
            Some (on_task n (goto (match consumed with
              | Some body => Ending (Responded (MkResponse status body))
              | None => Reading (MkReading status json encoding (w_now w) "" false)
              end)) m)
          else None
      | Requesting, Throw f => Some (attempt_failed c w n f m)
      | Reading r, e =>
          match co_shard co, active_requests m !! n with
          | Some id, Some a => match shards m !! id with Some s => on_reading c (w_now w) n co id a s r e m | None => None end
          | _, _ => None
          end
      | Abandoning r None, Return => Some (finish_body (w_now w) n r false m)
      | Abandoning r (Some f), Return => Some (on_task n (goto (Ending (Raised f))) m)
      | Abandoning r _, Throw LoopTimeout => Some (finish_body (w_now w) n r false m)
      | Abandoning r _, Throw f => Some (on_task n (goto (Ending (Raised f))) m)
      | Ending (Responded r), Return => Some (conclude_response (w_now w) n r m)
      | Ending (Raised f), Return => Some (attempt_failed c w n f m)
      | Ending _, Throw f => Some (attempt_failed c w n f m)
      | Closing k, Return =>
          match co_shard co with
          | Some id =>
              let m := remove_shard id m in
              Some (match k with Replay f => replay c w n f m | Leave => on_task n (with_shard None Finished) m end)
          | None => None
          end
      | Closing (Replay _), Throw f => Some (conclude_error (w_now w) n f m)
      | Closing Leave, Throw f => Some (on_task n (with_shard None Finished) m)
      | _, _ => None
      end
  | None => None
  end.
End recovery.

(** ** Ingress ([submit_request], [_drain_ingress], [NetworkFuture.cancel]) *)

Definition count_enqueued (m : manager) : manager :=
  let t := counts m in
  set_counts (MkTotals (t_retired_shards t) (t_json_stream_recoveries t) (t_cohort_stream_retries t) (t_transport_error_retries t)
                (t_recovery_shard_reuses t) (t_recovery_shards_created t) (t_requests_enqueued t + 1) (t_ingress_wakeups t)) m.
Definition count_wakeup (m : manager) : manager :=
  let t := counts m in
  set_counts (MkTotals (t_retired_shards t) (t_json_stream_recoveries t) (t_cohort_stream_retries t) (t_transport_error_retries t)
                (t_recovery_shard_reuses t) (t_recovery_shards_created t) (t_requests_enqueued t) (t_ingress_wakeups t + 1)) m.

Definition new_coroutine (rq : NetworkRequest) (direct cancelled : bool) : coroutine :=
  MkCoroutine rq direct cancelled Created None 0 0 0 None 0.

(** [submit_request], manager mode, in its three uninterrupted parts. *)
Definition submit (n : nat) (rq : NetworkRequest) (m : manager) : manager :=
  let m := count_enqueued (set_requests (<[n := rq]> (requests m)) (set_futures (<[n := Pending]> (futures m)) m)) in
  set_ingress (ingress m) (scheduled m) (callbacks m) (drain m) (<[n := Putting]> (submitters m)) m.
Definition put (n : nat) (m : manager) : manager :=
  set_ingress (ingress m ++ [n]) (scheduled m) (callbacks m) (drain m) (<[n := Waking]> (submitters m)) m.
Definition wake (n : nat) (m : manager) : manager :=
  if scheduled m then set_ingress (ingress m) (scheduled m) (callbacks m) (drain m) (delete n (submitters m)) m
  else count_wakeup (set_ingress (ingress m) true (callbacks m + 1) (drain m) (delete n (submitters m)) m).

(** Direct mode: the request's own task at once. *)
Definition submit_direct (n : nat) (rq : NetworkRequest) (m : manager) : manager :=
  let m := count_enqueued (set_requests (<[n := rq]> (requests m)) (set_futures (<[n := Pending]> (futures m)) m)) in
  count_wakeup (set_tasks (<[n := new_coroutine rq true false]> (tasks m)) m).

(** [_drain_ingress]: it starts, takes a request, leaves its loop, and is over. *)
Definition drain_batch : nat := 4096.
Definition drain_start (m : manager) : option manager :=
  match drain m, callbacks m with
  | Idle, S k => Some (set_ingress (ingress m) (scheduled m) k (Taking 0) (submitters m) m)
  | _, _ => None
  end.
Definition drain_take (m : manager) : option manager :=
  match drain m, ingress m with
  | Taking k, n :: rest =>
      if (k <? drain_batch)%nat then
        match requests m !! n with
        | Some rq =>
            let m := on_counter rq count_submitted (set_ingress rest (scheduled m) (callbacks m) (Taking (S k)) (submitters m) m) in
            let cancelled := match futures m !! n with Some Cancelled => true | _ => false end in
            Some (set_tasks (<[n := new_coroutine rq false cancelled]> (tasks m)) m)
        | None => None
        end
      else None
  | _, _ => None
  end.
Definition drain_leave (m : manager) : option manager :=
  match drain m with
  | Taking k => if (k =? drain_batch)%nat || bool_decide (ingress m = [])
                then Some (set_ingress (ingress m) (scheduled m) (callbacks m) Drained (submitters m) m) else None
  | _ => None
  end.
Definition drain_over (m : manager) : option manager :=
  match drain m with
  | Drained => Some (if bool_decide (ingress m = []) then set_ingress (ingress m) false (callbacks m) Idle (submitters m) m
                     else set_ingress (ingress m) true (callbacks m + 1) Idle (submitters m) m)
  | _ => None
  end.

(** [NetworkFuture.cancel]. *)
Definition cancel (n : nat) (m : manager) : manager :=
  let m := match futures m !! n with Some Pending => set_futures (<[n := Cancelled]> (futures m)) m | _ => m end in
  let mark co := MkCoroutine (co_request co) (co_direct co)
                   (match co_position co with Finished => co_cancel co | _ => true end) (co_position co) (co_shard co)
                   (co_cohort_retries co) (co_transport_retries co) (co_physical_attempt co) (co_replay_reason co) (co_started co) in
  on_task n mark m.

(** ** Steps: any thread submits or cancels at any time; the loop runs one callback or one
    turn of a coroutine at a time. *)
Inductive network_step (gunzip inflate decode : string → option string) (c : NetworkConfig) (m : manager) : manager → Prop :=
  | step_submit n rq : requests m !! n = None → network_step gunzip inflate decode c m (submit n rq m)
  | step_put n : submitters m !! n = Some Putting → network_step gunzip inflate decode c m (put n m)
  | step_wake n : submitters m !! n = Some Waking → network_step gunzip inflate decode c m (wake n m)
  | step_submit_direct n rq : requests m !! n = None → network_step gunzip inflate decode c m (submit_direct n rq m)
  | step_cancel n : network_step gunzip inflate decode c m (cancel n m)
  | step_drain m' : drain_start m = Some m' ∨ drain_take m = Some m' ∨ drain_leave m = Some m' ∨ drain_over m = Some m' →
      network_step gunzip inflate decode c m m'
  | step_turn w n e m' : drain m = Idle → resume gunzip inflate decode c w n e m = Some m' → network_step gunzip inflate decode c m m'.
