(* ===== verification/NetworkSafety.v ===== *)
(** What every interleaving of requests, cancellations and drains keeps of the network
    manager: exact accounting of its shards, one outcome for each request, bounded replays,
    and an ingress queue no wake-up is lost for. *)
From S2P Require Import Prelude Network.

#[local] Open Scope Z_scope.

(** ** Counting the entries of a map *)

Section tally.
Context {K V : Type} `{Countable K}.
Implicit Types (f : V → bool) (m : gmap K V).

Definition tally f m : Z := Z.of_nat (size (filter (λ q : K * V, f q.2 = true) m)).

Lemma tally_new f m k v : m !! k = None → tally f (<[k := v]> m) = tally f m + Z.b2z (f v).
Proof.
  intros Hk. unfold tally. destruct (f v) eqn:Hv; cbn [Z.b2z].
  - rewrite map_filter_insert_True by done. rewrite map_size_insert_None; [lia|]. apply map_lookup_filter_None. by left.
  - rewrite map_filter_insert_not' ; [lia|cbn; congruence|intros y Hy; congruence].
Qed.

Lemma tally_split f m k v : m !! k = Some v → tally f m = tally f (delete k m) + Z.b2z (f v).
Proof. intros Hk. rewrite <-(insert_delete_id _ _ _ Hk) at 1. apply tally_new. apply lookup_delete_eq. Qed.

Lemma tally_replace f m k v v' : m !! k = Some v → tally f (<[k := v']> m) = tally f m - Z.b2z (f v) + Z.b2z (f v').
Proof.
  intros Hk. rewrite (tally_split f m k v Hk). rewrite <-insert_delete_eq, tally_new by apply lookup_delete_eq. lia.
Qed.

Lemma tally_nonneg f m : 0 <= tally f m.
Proof. unfold tally. lia. Qed.

Lemma tally_positive f m k v : m !! k = Some v → f v = true → 1 <= tally f m.
Proof. intros Hk Hv. rewrite (tally_split f m k v Hk), Hv. pose proof (tally_nonneg f (delete k m)). cbn. lia. Qed.

Lemma tally_none f m : (∀ k v, m !! k = Some v → f v = false) → tally f m = 0.
Proof.
  intros Hm. unfold tally. replace (filter _ m) with (∅ : gmap K V); [by rewrite map_size_empty|]. symmetry. apply map_empty. intros k.
  apply map_lookup_filter_None. right. intros v Hk. cbn. by rewrite (Hm k v Hk).
Qed.
End tally.

(** What every step keeps, every run keeps. *)
Lemma rtc_keeps {A} (R : relation A) (P : A → Prop) : (∀ x y, P x → R x y → P y) → ∀ x y, rtc R x y → P x → P y.
Proof. intros Hstep x y Hr. induction Hr; eauto. Qed.

(** ** Positions *)

Definition running (p : position) : bool :=
  match p with Requesting | Reading _ | Abandoning _ _ | Ending _ | Closing (Replay _) | Turn => true | _ => false end.
Definition ended (p : position) : bool := match p with Closing Leave | Finished => true | _ => false end.
Definition closing (p : position) : bool := match p with Closing _ => true | _ => false end.

Definition config_ok (c : NetworkConfig) : Prop :=
  1 <= _shard_capacity c ∧ 0 <= cohort_retry_limit c ∧ 0 <= transport_error_retry_limit c.

(** A coroutine counts its attempts: one more than its replays, which are within limits. *)
Definition counted (c : NetworkConfig) (co : coroutine) : Prop :=
  0 <= co_cohort_retries co <= cohort_retry_limit c ∧ 0 <= co_transport_retries co <= transport_error_retry_limit c ∧
  match co_position co with
  | Created | Turn => co_physical_attempt co = co_cohort_retries co + co_transport_retries co
  | Finished | Closing Leave => 0 <= co_physical_attempt co <= 1 + co_cohort_retries co + co_transport_retries co
  | _ => co_physical_attempt co = 1 + co_cohort_retries co + co_transport_retries co
  end.

(** A change of one node's counters. *)
Definition bump (rq : NetworkRequest) (g : NetworkCounters → NetworkCounters) (st : gmap (string * string) NetworkCounters) :
    gmap (string * string) NetworkCounters :=
  match rq_key rq with None => st | Some k => <[k := g (default no_requests (st !! k))]> st end.

Lemma on_counter_eq rq g m : on_counter rq g m = set_stats (bump rq g (stats m)) m.
Proof. unfold on_counter, bump. destruct (rq_key rq); [done|by destruct m]. Qed.

(** What a turn of request [n] does to everything but the shards: it goes on, or its future
    is decided and its row and its place in the counters are given up. *)
Record ran (c : NetworkConfig) (n : nat) (co : coroutine) (m m' : manager) (co' : coroutine) : Prop := {
  ran_tasks : tasks m' = <[n := co']> (tasks m);
  ran_request : co_request co' = co_request co;
  ran_counted : counted c co';
  ran_requests : requests m' = requests m;
  ran_ingress : (ingress m', scheduled m', callbacks m', drain m', submitters m') = (ingress m, scheduled m, callbacks m, drain m, submitters m);
  ran_kind :
    (running (co_position co') = true ∧ futures m' = futures m ∧ stats m' = stats m ∧
     delete n (active_requests m') = delete n (active_requests m) ∧ (is_Some (active_requests m !! n) → is_Some (active_requests m' !! n))) ∨
    (ended (co_position co') = true ∧ active_requests m' = delete n (active_requests m) ∧
     ∃ f g, done f = true ∧ futures m' = <[n := f]> (futures m) ∧
       ((∃ x, g = count_failed x) ∨ ∃ d b, g = count_completed d b) ∧ stats m' = bump (co_request co) g (stats m))
}.

Lemma ran_trans c n co m1 co1 m2 co2 m3 : ran c n co m1 m2 co1 → running (co_position co1) = true → ran c n co1 m2 m3 co2 → ran c n co m1 m3 co2.
Proof.
  intros [T1 R1 C1 Q1 I1 K1] Hr [T2 R2 C2 Q2 I2 K2].
  destruct K1 as [(_ & F1 & S1 & D1 & A1)|(E & _)]; [|by destruct (co_position co1) as [| | | | |[]| |]].
  split; [|congruence|done|congruence|congruence|].
  - by rewrite T2, T1, insert_insert_eq.
  - destruct K2 as [(Hr2 & F2 & S2 & D2 & A2)|(E2 & A2 & f & g & Hd & F2 & Hg & S2)]; [left|right].
    + repeat split; try congruence. auto.
    + split; [done|]. split; [congruence|]. exists f, g. repeat split; congruence.
Qed.

(** A change of the rows and the retries of a running coroutine. *)
Lemma ran_stay c n co m m' co' : tasks m' = <[n := co']> (tasks m) → co_request co' = co_request co → counted c co' →
  running (co_position co') = true → requests m' = requests m → futures m' = futures m → stats m' = stats m →
  (ingress m', scheduled m', callbacks m', drain m', submitters m') = (ingress m, scheduled m, callbacks m, drain m, submitters m) →
  (active_requests m' = active_requests m ∨ ∃ f, active_requests m' = alter f n (active_requests m)) → ran c n co m m' co'.
Proof.
  intros HT HR HC Hrun HQ HF HS HI HA. split; [done..|]. left. repeat split; try done.
  - destruct HA as [->|[f ->]]; [done|]. apply map_eq. intros i. destruct (decide (i = n)) as [->|Hne]; [by rewrite !lookup_delete_eq|].
    by rewrite !lookup_delete_ne, lookup_alter_ne by done.
  - destruct HA as [->|[f ->]]; [done|]. rewrite lookup_alter_eq. intros [a ->]. by eexists.
Qed.

Lemma alter_at {K V} `{Countable K} (f : V → V) (n : K) (m : gmap K V) v : m !! n = Some v → alter f n m = <[n := f v]> m.
Proof.
  intros Hn. apply map_eq. intros i. destruct (decide (i = n)) as [->|Hne].
  - by rewrite lookup_alter_eq, Hn, lookup_insert_eq.
  - by rewrite lookup_alter_ne, lookup_insert_ne by done.
Qed.

(** ** Turns, but for the shards *)

Section turns.
Context (c : NetworkConfig) (Hc : config_ok c).

Definition may_end (co : coroutine) : Prop :=
  0 <= co_cohort_retries co <= cohort_retry_limit c ∧ 0 <= co_transport_retries co <= transport_error_retry_limit c ∧
  0 <= co_physical_attempt co <= 1 + co_cohort_retries co + co_transport_retries co.

Lemma counted_end co : counted c co → may_end co.
Proof. unfold counted, may_end. destruct (co_position co) as [| | | | |[]| |]; lia. Qed.

Lemma set_shards_id m : set_shards (shards m) m = m.
Proof. by destruct m. Qed.

(** What [leave] does: the coroutine is at its end, its row is gone. *)
Lemma leave_eq n m co : tasks m !! n = Some co →
  ∃ sh p i, leave n m = set_shards sh (set_active (delete n (active_requests m)) (set_tasks (<[n := with_shard i p co]> (tasks m)) m)) ∧ ended p = true.
Proof.
  intros Hn. unfold leave, release_then. cbn [tasks set_active]. rewrite Hn. destruct (co_shard co) as [id|] eqn:Hs.
  - cbn zeta. destruct (must_close id _).
    + eexists _, (Closing Leave), (Some id). split; [|done]. unfold on_shard, on_task. cbn. rewrite (alter_at _ _ _ _ Hn). unfold goto, with_shard. by rewrite Hs.
    + eexists _, Finished, None. split; [|done]. unfold on_shard, on_task. cbn. by rewrite (alter_at _ _ _ _ Hn).
  - eexists (shards m), Finished, None. split; [|done]. unfold on_task. cbn. rewrite (alter_at _ _ _ _ Hn). by destruct m.
Qed.

Lemma conclude_ran n co m f g sh : tasks m !! n = Some co → may_end co → futures m !! n = Some Running → done f = true →
  ((∃ x, g = count_failed x) ∨ ∃ d b, g = count_completed d b) →
  ∃ co', ran c n co m (leave n (settle_future n f (on_counter (co_request co) g (set_shards sh m)))) co'.
Proof.
  intros Hn Hm Hf Hd Hg. rewrite on_counter_eq. unfold settle_future. cbn [futures set_stats set_shards]. rewrite Hf. cbn [done].
  edestruct leave_eq as (sh' & p & i & -> & Hp); [exact Hn|]. eexists. split; try reflexivity.
  - destruct Hm as (H1 & H2 & H3). repeat split; cbn; try apply H1; try apply H2. by destruct p as [| | | | |[]| |].
  - right. split; [done|]. split; [done|]. exists f, g. done.
Qed.

Lemma conclude_error_ran now n co m f : tasks m !! n = Some co → may_end co → futures m !! n = Some Running →
  ∃ co', ran c n co m (conclude_error now n f m) co'.
Proof.
  intros Hn Hm Hf. unfold conclude_error. rewrite Hn. cbn zeta.
  assert (∀ sh, ∃ co', ran c n co m (leave n (settle_future n (Exception_ f) (on_counter (co_request co) (count_failed f) (set_shards sh m)))) co') as H.
  { intros sh. eapply conclude_ran; [done..|]. left. by eexists. }
  destruct (co_shard co) as [id|]; [apply H|]. specialize (H (shards m)). by rewrite set_shards_id in H.
Qed.

Lemma conclude_response_ran now n co m r : tasks m !! n = Some co → may_end co → futures m !! n = Some Running →
  ∃ co', ran c n co m (conclude_response now n r m) co'.
Proof.
  intros Hn Hm Hf. unfold conclude_response. rewrite Hn. cbn zeta.
  assert (∀ d b sh, ∃ co', ran c n co m (leave n (settle_future n (Result r) (on_counter (co_request co) (count_completed d b) (set_shards sh m)))) co') as H.
  { intros d b sh. eapply conclude_ran; [done..|]. right. by eexists _, _. }
  destruct (co_shard co) as [id|]; [apply H|]. specialize (H (now - co_started co) (Z.of_nat (String.length (r_content r))) (shards m)). by rewrite set_shards_id in H.
Qed.
Lemma acquire_eq now e m r m' : _acquire_client c now e m = (r, m') → ∃ sh cl nx i, m' = set_shards sh (set_pool cl nx i m).
Proof.
  unfold _acquire_client. destruct (select_shard c m) as [[i id]|].
  { intros [= <- <-]. by eexists _, _, _, _. }
  destruct e as [f|]; [intros [= <- <-]; exists (shards m), (clients m), (next_shard_id m), (next_client_index m); by destruct m|].
  unfold _new_client_shard. intros [= <- <-]. by eexists _, _, _, _.
Qed.

(** The counting of a reuse or of a new shard touches the totals only. *)
Lemma recovering_eq (b d : bool) m : ∃ t, (if b then if d then add_retries 0 0 1 0 m else add_retries 0 0 0 1 m else m) = set_counts t m.
Proof. destruct b, d; try by eexists. all: exists (counts m); by destruct m. Qed.

Lemma attempt_ran w n co m : tasks m !! n = Some co → counted c co → co_position co = Turn → futures m !! n = Some Running →
  ∃ co', ran c n co m (attempt c w n m) co'.
Proof.
  intros Hn Hcount Hp Hf. unfold attempt. rewrite Hn. cbn zeta.
  destruct Hcount as (H1 & H2 & H3). rewrite Hp in H3.
  set (co1 := with_retries (co_cohort_retries co) (co_transport_retries co) (co_physical_attempt co + 1) (co_replay_reason co) co).
  set (m1 := on_active n _ (on_task n _ m)).
  assert (tasks m1 !! n = Some co1) as Hn1 by (cbn; by rewrite (alter_at _ _ _ _ Hn), lookup_insert_eq).
  assert (∀ m2 co2, ran c n co1 m1 m2 co2 → ran c n co m m2 co2) as lift.
  { intros m2 co2 [T R C Q I K]. split; try done.
    - rewrite T. cbn. by rewrite (alter_at _ _ _ _ Hn), insert_insert_eq.
    - destruct K as [(Hr & F & S & D & A)|(E & A & f & g & Hd & F & Hg & S)]; [left|right].
      + repeat split; try done.
        * rewrite D. cbn. apply map_eq. intros i. destruct (decide (i = n)) as [->|Hne]; [by rewrite !lookup_delete_eq|]. by rewrite !lookup_delete_ne, lookup_alter_ne by done.
        * intros [a Ha]. apply A. cbn. rewrite lookup_alter_eq, Ha. by eexists.
      + split; [done|]. split; [|by exists f, g]. rewrite A. cbn. apply map_eq. intros i.
        destruct (decide (i = n)) as [->|Hne]; [by rewrite !lookup_delete_eq|]. by rewrite !lookup_delete_ne, lookup_alter_ne by done. }
  assert (may_end co1) as Hend by (repeat split; cbn; lia).
  assert (∀ f, ∃ co', ran c n co m (conclude_error (w_now w) n f m1) co') as Hfail.
  { intros f. destruct (conclude_error_ran (w_now w) n co1 m1 f Hn1 Hend) as [co' H]; [done|]. exists co'. by apply lift. }
  destruct (if rq_attempt_callback (co_request co) then w_callback_error w else None) as [f|]; [apply Hfail|].
  destruct (_acquire_client c (w_now w) (w_client_error w) m1) as [r m2] eqn:Ha.
  destruct (acquire_eq _ _ _ _ _ Ha) as (sh & cl & nx & i & Em2). destruct r as [f|id].
  - rewrite Em2. destruct (conclude_error_ran (w_now w) n co1 (set_shards sh (set_pool cl nx i m1)) f) as [co' H]; [done..|]. exists co'. apply lift.
    destruct H as [T R C Q I K]. by split.
  - match goal with |- context [if ?b then if ?d then add_retries 0 0 1 0 m2 else add_retries 0 0 0 1 m2 else m2] =>
      destruct (recovering_eq b d m2) as [t ->] end. rewrite Em2. clear Em2 Ha.
    exists (with_shard (Some id) Requesting co1). apply lift. eapply ran_stay; try reflexivity.
    + cbn. by rewrite (alter_at _ _ _ _ Hn1).
    + repeat split; cbn; lia.
    + right. by eexists.
Qed.

Lemma replay_ran w n co m f : tasks m !! n = Some co → counted c co → co_position co ≠ Turn → co_position co ≠ Created → ended (co_position co) = false →
  futures m !! n = Some Running → ∃ co', ran c n co m (replay c w n f m) co'.
Proof.
  intros Hn Hcount Hp Hp' He Hf. unfold replay. rewrite Hn. cbn zeta.
  assert (may_end co) as (M1 & M2 & M3) by by apply counted_end.
  assert (co_physical_attempt co = 1 + co_cohort_retries co + co_transport_retries co) as Hphys.
  { destruct Hcount as (_ & _ & H). by destruct (co_position co) as [| | | | |[]| |]. }
  set (m1 := on_task n (with_shard None Turn) m).
  assert (tasks m1 !! n = Some (with_shard None Turn co)) as Hn1 by (cbn; by rewrite (alter_at _ _ _ _ Hn), lookup_insert_eq).
  assert (∀ m2 co2, ran c n (with_shard None Turn co) m1 m2 co2 → ran c n co m m2 co2) as lift.
  { intros m2 co2 [T R C Q I K]. split; try done. rewrite T. cbn. by rewrite (alter_at _ _ _ _ Hn), insert_insert_eq. }
  assert (∀ x, ∃ co', ran c n co m (conclude_error (w_now w) n x m1) co') as Hfail.
  { intros x. destruct (conclude_error_ran (w_now w) n _ m1 x Hn1) as [co' H]; [by repeat split; cbn; lia|done|]. exists co'. by apply lift. }
  assert (∀ a b why m2, a <= cohort_retry_limit c → b <= transport_error_retry_limit c → 0 <= a → 0 <= b → a + b = co_cohort_retries co + co_transport_retries co + 1 →
    tasks m2 = tasks m1 → requests m2 = requests m1 → futures m2 = futures m1 → stats m2 = stats m1 → active_requests m2 = active_requests m1 →
    (ingress m2, scheduled m2, callbacks m2, drain m2, submitters m2) = (ingress m1, scheduled m1, callbacks m1, drain m1, submitters m1) →
    ∃ co', ran c n co m (attempt c w n (on_active n (retry_row a b) (on_task n (with_retries a b (co_physical_attempt co) why) m2))) co') as Hnext.
  { intros a b why m2 Ha Hb Ha0 Hb0 Hab ET EQ EF ES EA EI.
    set (co2 := with_retries a b (co_physical_attempt co) why (with_shard None Turn co)).
    assert (ran c n (with_shard None Turn co) m1 (on_active n (retry_row a b) (on_task n (with_retries a b (co_physical_attempt co) why) m2)) co2) as R1.
    { eapply ran_stay; try done.
      - cbn. rewrite ET. by rewrite (alter_at _ _ _ _ Hn1).
      - repeat split; cbn; lia.
      - right. eexists. cbn. by rewrite EA. }
    destruct (attempt_ran w n co2 (on_active n (retry_row a b) (on_task n (with_retries a b (co_physical_attempt co) why) m2))) as [co' H].
    - rewrite (ran_tasks _ _ _ _ _ _ R1). by rewrite lookup_insert_eq.
    - apply (ran_counted _ _ _ _ _ _ R1).
    - done.
    - cbn. by rewrite EF.
    - exists co'. apply lift. by eapply ran_trans. }
  destruct f as [why|t| |t]; cbn [co_cohort_retries co_transport_retries with_shard].
  { destruct (cohort_retry_limit c <=? _) eqn:E; [apply Hfail|]. apply Hnext; try done; lia. }
  all: destruct (transport_error_retry_limit c <=? _) eqn:E; [apply Hfail|];
    apply (Hnext (co_cohort_retries co) (co_transport_retries co + 1) (Some "transport_error") (add_retries 0 1 0 0 m1)); try done; lia.
Qed.

(** Releasing the shard, then either waiting for its client to close or going on. *)
Lemma release_then_ran n co m k next : tasks m !! n = Some co → counted c co → ended (co_position co) = false →
  co_position co ≠ Turn → co_position co ≠ Created → k ≠ Leave →
  (∀ sh, ∃ co', ran c n co m (next (set_shards sh m)) co') → ∃ co', ran c n co m (release_then n k next m) co'.
Proof.
  intros Hn Hcount He Hp Hp' Hk Hnext. unfold release_then. rewrite Hn. destruct (co_shard co) as [id|].
  - cbn zeta. destruct (must_close id _); [|apply Hnext]. exists (goto (Closing k) co). eapply ran_stay; try done.
    + cbn. by rewrite (alter_at _ _ _ _ Hn).
    + destruct Hcount as (H1 & H2 & H3). repeat split; cbn; try lia. destruct k as [f|]; [|done]. by destruct (co_position co) as [| | | | |[]| |].
    + cbn. by destruct k.
    + by left.
  - specialize (Hnext (shards m)). by rewrite set_shards_id in Hnext.
Qed.

(** Everything a turn may change of a manager besides what [ran] speaks of. *)
Lemma ran_shards n co m co' sh t m' : ran c n co (set_counts t (set_shards sh m)) m' co' → ran c n co m m' co'.
Proof. intros [T R C Q I K]. by split. Qed.

Lemma attempt_failed_ran w n co m f : tasks m !! n = Some co → counted c co → holding (co_position co) = true → futures m !! n = Some Running →
  ∃ co', ran c n co m (attempt_failed c w n f m) co'.
Proof.
  intros Hn Hcount Hh Hf. unfold attempt_failed. rewrite Hn.
  assert (may_end co) as Hm by by apply counted_end.
  assert (co_position co ≠ Turn ∧ co_position co ≠ Created ∧ ended (co_position co) = false) as (P1 & P2 & P3) by by destruct (co_position co).
  destruct (co_shard co) as [id|]; [|by apply conclude_error_ran]. destruct f as [why|t| |t]; try by apply conclude_error_ran.
  - set (m1 := add_retries 1 0 0 0 _). destruct (release_then_ran n co m1 (Replay (Cohort why)) (replay c w n (Cohort why))) as [co' H]; try done.
    + intros sh. edestruct (replay_ran w n co (set_shards sh m1)) as [co' H]; [done..|]. exists co'. destruct H as [T R C Q I K]. by split.
    + exists co'. eapply ran_shards, H.
  - set (m1 := on_shard id _ m). destruct (release_then_ran n co m1 (Replay (Transport t)) (replay c w n (Transport t))) as [co' H]; try done.
    + intros sh. edestruct (replay_ran w n co (set_shards sh m1)) as [co' H]; [done..|]. exists co'. destruct H as [T R C Q I K]. by split.
    + exists co'. destruct H as [T R C Q I K]. by split.
Qed.

Lemma finish_body_ran now n co m r b : tasks m !! n = Some co → counted c co → holding (co_position co) = true →
  ∃ co', ran c n co m (finish_body now n r b m) co'.
Proof.
  intros Hn Hcount Hh. exists (goto (Ending (Responded (MkResponse (rd_status r) (rd_body r)))) co). unfold finish_body. rewrite Hn. cbn zeta.
  assert (counted c (goto (Ending (Responded (MkResponse (rd_status r) (rd_body r)))) co)) as Hc'.
  { destruct Hcount as (H1 & H2 & H3). repeat split; cbn; try lia. by destruct (co_position co). }
  destruct (rd_complete r && negb b); [destruct (co_shard co) as [id|]|]; (eapply ran_stay; [|done..|by left]); cbn; by rewrite (alter_at _ _ _ _ Hn).
Qed.

Lemma goto_ran n co m p : tasks m !! n = Some co → counted c co → holding (co_position co) = true → holding p = true →
  ∃ co', ran c n co m (on_task n (goto p) m) co'.
Proof.
  intros Hn Hcount Hh Hp. exists (goto p co). eapply ran_stay; try done; [cbn; by rewrite (alter_at _ _ _ _ Hn)| | |by left].
  - destruct Hcount as (H1 & H2 & H3). repeat split; cbn; try lia. by destruct p, (co_position co).
  - cbn. by destruct p.
Qed.
End turns.

(** ** The invariant of requests, counters and the ingress queue *)

Definition key_running (k : string * string) (co : coroutine) : bool :=
  running (co_position co) && bool_decide (rq_key (co_request co) = Some k).

Definition waiting (f : future) : bool := match f with Pending | Cancelled => true | _ => false end.

(** A coroutine agrees with its future and its row. *)
Definition agrees (m : manager) (n : nat) (co : coroutine) : Prop :=
  requests m !! n = Some (co_request co) ∧
  ∃ f, futures m !! n = Some f ∧
    if running (co_position co) then f = Running ∧ is_Some (active_requests m !! n)
    else active_requests m !! n = None ∧
         if ended (co_position co) then done f = true else waiting f = true ∧ (co_cancel co = true → f = Cancelled).

(** A request without coroutine is about to be put in the queue or queued, once. *)
Definition queued (m : manager) (n : nat) : Prop :=
  active_requests m !! n = None ∧
  match requests m !! n with
  | None => futures m !! n = None ∧ (n ∉ ingress m) ∧ submitters m !! n = None
  | Some _ => (∃ f, futures m !! n = Some f ∧ waiting f = true) ∧ (n ∈ ingress m ↔ submitters m !! n ≠ Some Putting)
  end.

Definition counters_exact (st : gmap (string * string) NetworkCounters) (ts : gmap nat coroutine) : Prop :=
  ∀ k, let s := default no_requests (st !! k) in
    nc_in_flight s = tally (key_running k) ts ∧ nc_dispatched s = nc_completed s + nc_failed s + nc_in_flight s.

(** One drain is outstanding exactly when one is marked as scheduled, and one is while the
    queue holds a request nobody is about to announce. *)
Definition wakeful (m : manager) : Prop :=
  (callbacks m + match drain m with Idle => 0 | _ => 1 end = if scheduled m then 1 else 0)%nat ∧
  (ingress m ≠ [] → scheduled m = true ∨ ∃ n, submitters m !! n = Some Waking) ∧
  (∀ k, drain m = Taking k → (k <= drain_batch)%nat).

Record tidy (c : NetworkConfig) (m : manager) : Prop := {
  tidy_counted : ∀ n co, tasks m !! n = Some co → counted c co;
  tidy_agrees : ∀ n co, tasks m !! n = Some co → agrees m n co ∧ (n ∉ ingress m) ∧ submitters m !! n ≠ Some Putting;
  tidy_queued : ∀ n, tasks m !! n = None → queued m n;
  tidy_distinct : NoDup (ingress m);
  tidy_counters : counters_exact (stats m) (tasks m);
  tidy_wakeful : wakeful m
}.

Lemma counters_bump st ts n co co' g : counters_exact st ts → ts !! n = Some co → co_request co' = co_request co →
  (∀ s, let d := Z.b2z (running (co_position co')) - Z.b2z (running (co_position co)) in
        0 <= nc_in_flight s + d → nc_dispatched s = nc_completed s + nc_failed s + nc_in_flight s →
        nc_in_flight (g s) = nc_in_flight s + d ∧ nc_dispatched (g s) = nc_completed (g s) + nc_failed (g s) + nc_in_flight (g s)) →
  counters_exact (bump (co_request co) g st) (<[n := co']> ts).
Proof.
  intros Hex Hn HR Hg k. destruct (Hex k) as [H1 H2]. cbn zeta. rewrite (tally_replace _ _ _ _ co' Hn).
  unfold key_running at 2 3. rewrite HR. unfold bump. destruct (rq_key (co_request co)) as [k'|] eqn:Hk.
  - destruct (decide (k' = k)) as [->|Hne].
    + rewrite lookup_insert_eq. cbn [default]. rewrite !bool_decide_true by done. rewrite !andb_true_r.
      assert (key_running k co = running (co_position co)) as Hkr by (unfold key_running; rewrite Hk, bool_decide_true by done; apply andb_true_r).
      destruct (Hg (default no_requests (st !! k))) as [G1 G2]; [|done|].
      { rewrite H1, (tally_split _ _ _ _ Hn), Hkr. pose proof (tally_nonneg (key_running k) (delete n ts)). destruct (running _), (running _); cbn; lia. }
      split; [|exact G2]. etransitivity; [exact G1|]. rewrite H1. lia.
    + rewrite lookup_insert_ne by done. rewrite !bool_decide_false by congruence. rewrite !andb_false_r. cbn. split; [lia|done].
  - rewrite !bool_decide_false by congruence. rewrite !andb_false_r. cbn. split; [lia|done].
Qed.

Lemma bump_id rq st ts : counters_exact st ts → counters_exact (bump rq (λ s, s) st) ts.
Proof.
  intros H k. specialize (H k). unfold bump. destruct (rq_key rq) as [k'|]; [|done]. destruct (decide (k' = k)) as [->|Hne].
  - by rewrite lookup_insert_eq.
  - by rewrite lookup_insert_ne.
Qed.

(** A turn of a running request keeps the invariant. *)
Lemma ran_tidy c n co m m' co' : tidy c m → tasks m !! n = Some co → running (co_position co) = true → ran c n co m m' co' → tidy c m'.
Proof.
  intros [TC TA TQ TD TN TW] Hn Hrun [T R C Q I K]. injection I as I1 I2 I3 I4 I5.
  destruct (TA n co Hn) as [[Hreq (f & Hf & Hst)] [Hin Hsub]]. rewrite Hrun in Hst. destruct Hst as [-> Hact].
  assert (∀ i, i ≠ n → futures m' !! i = futures m !! i ∧ active_requests m' !! i = active_requests m !! i) as Hother.
  { intros i Hi. destruct K as [(_ & F & _ & D & _)|(_ & A & f & g & _ & F & _)].
    - split; [by rewrite F|]. rewrite <-(lookup_delete_ne (active_requests m') n i), D by done. by rewrite lookup_delete_ne.
    - rewrite F, A. by rewrite lookup_insert_ne, lookup_delete_ne by done. }
  split.
  - intros i x. rewrite T. intros [[<- <-]|[_ Hi]]%lookup_insert_Some; [done|by apply (TC i)].
  - intros i x. rewrite T, I1, I5. intros [[<- <-]|[Hne Hi]]%lookup_insert_Some.
    + split; [|done]. split; [congruence|]. destruct K as [(Hr & F & _ & _ & A)|(E & A & f & g & Hd & F & _)].
      * exists Running. rewrite F, Hr. auto.
      * exists f. rewrite F, A, lookup_insert_eq, lookup_delete_eq. destruct (running (co_position co')) eqn:Hr; [by destruct (co_position co') as [| | | | |[]| |]|].
        by rewrite E.
    + destruct (TA i x Hi) as [[H1 H2] H3]. split; [|done]. destruct (Hother i) as [E1 E2]; [done|]. unfold agrees. by rewrite E1, E2, Q.
  - intros i. rewrite T. intros [Hi Hne]%lookup_insert_None. specialize (TQ i Hi). destruct (Hother i) as [E1 E2]; [done|].
    unfold queued. rewrite E1, E2, Q, I1, I5. exact TQ.
  - by rewrite I1.
  - rewrite T. destruct K as [(Hr & _ & S & _)|(E & _ & f & g & _ & _ & Hg & S)]; rewrite S.
    + replace (stats m) with (bump (co_request co) (λ s, s) (stats m)).
      2: { unfold bump. destruct (rq_key (co_request co)) as [k|] eqn:Hk; [|done]. destruct (stats m !! k) eqn:Hs; [by rewrite insert_id|].
           exfalso. destruct (TN k) as [H1 _]. rewrite Hs in H1. cbn in H1. assert (1 <= tally (key_running k) (tasks m)); [|lia].
           eapply tally_positive; [exact Hn|]. unfold key_running. by rewrite Hrun, Hk, bool_decide_true. }
      apply counters_bump with (co := co); try done. intros s. rewrite Hr, Hrun. cbn. lia.
    + apply counters_bump with (co := co); try done. intros s. cbn zeta.
      replace (running (co_position co')) with false by (by destruct (co_position co') as [| | | | |[]| |]). rewrite Hrun. cbn [Z.b2z].
      destruct Hg as [[x ->]|(d & b & ->)]; cbn; lia.
  - unfold wakeful. by rewrite I1, I2, I3, I4, I5.
Qed.

(** A decided future stays decided as it is. *)
Definition settled (m m' : manager) : Prop := ∀ i f, futures m !! i = Some f → done f = true → futures m' !! i = Some f.

Lemma ran_settled c n co m m' co' : futures m !! n = Some Running → ran c n co m m' co' → settled m m'.
Proof.
  intros Hn [T R C Q I K] i f Hf Hd. assert (i ≠ n) as Hne by (intros ->; rewrite Hn in Hf; injection Hf as <-; done).
  destruct K as [(_ & F & _)|(_ & _ & f' & g & _ & F & _)]; rewrite F; [done|by rewrite lookup_insert_ne].
Qed.

(** Counting a submission leaves the accounts exact. *)
Lemma submitted_tidy c m rq : tidy c m → tidy c (on_counter rq count_submitted m).
Proof.
  intros [TC TA TQ TD TN TW]. rewrite on_counter_eq. split; try done. cbn. intros k. destruct (TN k) as [H1 H2]. unfold bump.
  destruct (rq_key rq) as [k'|]; [|done]. destruct (decide (k' = k)) as [->|Hne]; [rewrite lookup_insert_eq|rewrite lookup_insert_ne by done]; [|done].
  split; cbn; [exact H1|exact H2].
Qed.

(** A coroutine that neither starts nor stops to run. *)
Lemma idle_tidy c n co co' m : tidy c m → tasks m !! n = Some co → co_request co' = co_request co → counted c co' →
  running (co_position co) = false → running (co_position co') = false →
  (∀ f, futures m !! n = Some f →
    (if ended (co_position co) then done f = true else waiting f = true ∧ (co_cancel co = true → f = Cancelled)) →
    if ended (co_position co') then done f = true else waiting f = true ∧ (co_cancel co' = true → f = Cancelled)) →
  tidy c (set_tasks (<[n := co']> (tasks m)) m).
Proof.
  intros [TC TA TQ TD TN TW] Hn HR HC Hr Hr' Hf. split; try done.
  - intros i x. cbn. intros [[<- <-]|[_ Hi]]%lookup_insert_Some; [done|by apply (TC i)].
  - intros i x. cbn. intros [[<- <-]|[_ Hi]]%lookup_insert_Some; [|by apply TA].
    destruct (TA n co Hn) as [[Hreq (f & Hfut & H)] Hq]. split; [|done]. split; [cbn; congruence|]. exists f. rewrite Hr in H. rewrite Hr'. destruct H as [Ha H].
    split; [done|]. split; [done|]. by apply Hf.
  - intros i. cbn. intros [Hi _]%lookup_insert_None. by apply TQ.
  - cbn. intros k. destruct (TN k) as [H1 H2]. split; [|done]. rewrite H1, (tally_replace _ _ _ _ co' Hn). replace (key_running k co) with false by (unfold key_running; by rewrite Hr).
    replace (key_running k co') with false by (unfold key_running; by rewrite Hr'). cbn. lia.
Qed.

(** A request starts to run. *)
Lemma start_tidy c n co co' m a g : tidy c m → tasks m !! n = Some co → co_request co' = co_request co → counted c co' →
  running (co_position co) = false → running (co_position co') = true → (∃ d, g = count_dispatched d) → futures m !! n = Some Pending →
  tidy c (set_tasks (<[n := co']> (tasks m)) (set_active (<[n := a]> (active_requests m)) (on_counter (co_request co) g (set_futures (<[n := Running]> (futures m)) m)))).
Proof.
  intros [TC TA TQ TD TN TW] Hn HR HC Hr Hr' [d ->] Hf. rewrite on_counter_eq. split; try done.
  - intros i x. cbn. intros [[<- <-]|[_ Hi]]%lookup_insert_Some; [done|by apply (TC i)].
  - intros i x. cbn. intros [[<- <-]|[Hne Hi]]%lookup_insert_Some.
    + destruct (TA n co Hn) as [[Hreq _] Hq]. split; [|done]. split; [cbn; congruence|]. exists Running. rewrite Hr'. cbn. rewrite !lookup_insert_eq. by repeat split.
    + destruct (TA i x Hi) as [Ha Hq]. split; [|done]. unfold agrees. cbn. by rewrite !lookup_insert_ne.
  - intros i. cbn. intros [Hi Hne]%lookup_insert_None. specialize (TQ i Hi). unfold queued. cbn. by rewrite !lookup_insert_ne.
  - cbn. apply counters_bump with (co := co); try done. intros s. cbn zeta. rewrite Hr, Hr'. cbn. lia.
Qed.

Lemma begin_tidy c w n co m : config_ok c → tidy c m → tasks m !! n = Some co → co_position co = Created → tidy c (begin c w n m) ∧ settled m (begin c w n m).
Proof.
  intros Hc Ht Hn Hp. unfold begin. rewrite Hn. cbn zeta. set (m0 := if co_direct co then _ else m).
  assert (futures m0 = futures m) as EF by (unfold m0; destruct (co_direct co); [by rewrite on_counter_eq|done]).
  assert (tidy c m0) as Ht0 by (unfold m0; destruct (co_direct co); [by apply submitted_tidy|done]).
  assert (tasks m0 = tasks m) as ET by (unfold m0; destruct (co_direct co); [by rewrite on_counter_eq|done]). clearbody m0.
  assert (tasks m0 !! n = Some co) as Hn0 by by rewrite ET. clear ET Hn Ht.
  pose proof (tidy_counted c m0 Ht0 n co Hn0) as (C1 & C2 & C3).
  destruct (tidy_agrees c m0 Ht0 n co Hn0) as [[_ (f & Hf & Hw)] _]. rewrite Hp in Hw, C3. cbn in Hw. destruct Hw as (Ha & Hw & _).
  destruct f; try done; rewrite Hf.
  - cbn zeta. set (m1 := on_task n _ _). set (co1 := MkCoroutine (co_request co) (co_direct co) (co_cancel co) Turn None 0 0 0 None (w_now w)).
    assert (tasks m1 = <[n := co1]> (tasks m0)) as ET by (cbn; by rewrite on_counter_eq; cbn; rewrite (alter_at _ _ _ _ Hn0)).
    assert (tidy c m1) as Ht1.
    { unfold m1, on_task. cbn [tasks set_active]. rewrite on_counter_eq. cbn [tasks set_stats set_futures]. rewrite (alter_at _ _ _ _ Hn0). fold co1.
      assert (counted c co1) as Hc1 by (destruct Hc as (? & ? & ?); repeat split; cbn; lia).
      pose proof (start_tidy c n co co1 m0 (MkActive None (w_now w) 0 None 0 0 0 None 0 0)
        (count_dispatched (w_now w - rq_submitted_at (co_request co))) Ht0 Hn0 eq_refl Hc1 (f_equal running Hp) eq_refl (ex_intro _ _ eq_refl) Hf) as H.
      rewrite on_counter_eq in H. exact H. }
    assert (tasks m1 !! n = Some co1) as Hn1 by by rewrite ET, lookup_insert_eq.
    assert (futures m1 !! n = Some Running) as Hf1 by (cbn; rewrite on_counter_eq; apply lookup_insert_eq).
    destruct (attempt_ran c w n co1 m1 Hn1 (tidy_counted c m1 Ht1 n co1 Hn1) eq_refl Hf1) as [co' R].
    split; [exact (ran_tidy c n co1 m1 _ co' Ht1 Hn1 eq_refl R)|]. intros i f Hf' Hd. apply (ran_settled c n co1 m1 _ co' Hf1 R); [|done].
    cbn. rewrite on_counter_eq. cbn. rewrite lookup_insert_ne; [by rewrite EF|]. intros <-. rewrite <-EF, Hf in Hf'. by assert (f = Pending) as -> by congruence.
  - split; [|intros i f; cbn; by rewrite EF]. unfold on_task. rewrite (alter_at _ _ _ _ Hn0). apply (idle_tidy c n co); try done; [repeat split; cbn; lia|by rewrite Hp|].
    intros f' Hf' _. assert (f' = Cancelled) as -> by congruence. done.
Qed.

Section steps.
Context (gunzip inflate decode : string → option string) (c : NetworkConfig) (Hc : config_ok c).
Abbreviation resume := (resume gunzip inflate decode c).
Abbreviation network_step := (network_step gunzip inflate decode c).

Lemma goto_row_ran n co m p g : tasks m !! n = Some co → counted c co → holding (co_position co) = true → holding p = true →
  ∃ co', ran c n co m (on_task n (goto p) (on_active n g m)) co'.
Proof.
  intros Hn Hcount Hh Hp. exists (goto p co). eapply ran_stay; try done; [cbn; by rewrite (alter_at _ _ _ _ Hn)| | |right; by eexists].
  - destruct Hcount as (H1 & H2 & H3). repeat split; cbn; try lia. by destruct p, (co_position co).
  - cbn. by destruct p.
Qed.

Lemma reading_ran now n co m id a s r e m' : tasks m !! n = Some co → counted c co → co_position co = Reading r →
  on_reading gunzip inflate decode c now n co id a s r e m = Some m' → ∃ co', ran c n co m m' co'.
Proof.
  intros Hn Hcount Hp. assert (holding (co_position co) = true) as Hh by by rewrite Hp.
  destruct e as [| |bytes| | | |[| | |]]; cbn [on_reading]; try discriminate; intros [= <-]; try (by apply finish_body_ran); try (by apply goto_ran).
  - apply goto_row_ran; try done. case_goal; done.
  - apply goto_ran; try done. destruct (rd_complete r); [done|]. destruct (_cohort_stream_stall_reason c a s now); [done|].
    destruct (rq_read_timeout (co_request co)); [|done]. by destruct (_ <=? _).
Qed.

(** What [resume] does of a suspended coroutine, but for the shards. *)
Lemma resume_tidy w n e m m' : tidy c m → resume w n e m = Some m' → tidy c m' ∧ settled m m'.
Proof.
  intros Ht. unfold Network.resume. destruct (tasks m !! n) as [co|] eqn:Hn; [|done].
  assert (counted c co) as Hcount by by apply (tidy_counted c m Ht n).
  destruct (tidy_agrees c m Ht n co Hn) as [[_ (f & Hf & Hst)] _].
  assert (∀ m1 : manager, running (co_position co) = true → (futures m !! n = Some Running → ∃ co', ran c n co m m1 co') → tidy c m1 ∧ settled m m1) as Hgo.
  { intros m1 Hr H. rewrite Hr in Hst. destruct Hst as [-> _]. destruct (H Hf) as [co' R]. split; [by eapply ran_tidy|by eapply ran_settled]. }
  destruct (co_position co) as [| |r|r b|o|k| |] eqn:Hp.
  - destruct e as [| | | | | |x]; try done; [intros [= <-]; by eapply begin_tidy|]. destruct (co_cancel co) eqn:Hcan; [|done]. intros [= <-]. split; [|by intros ? ?].
    unfold on_task. rewrite (alter_at _ _ _ _ Hn). apply (idle_tidy c n co); try done; [|by rewrite Hp|].
    { destruct Hcount as (? & ? & H3), Hc as (? & ? & ?). rewrite Hp in H3. repeat split; cbn; lia. }
    intros f' Hf' _. cbn in Hst |- *. destruct Hst as (_ & _ & Hfc). specialize (Hfc eq_refl). assert (f' = Cancelled) as -> by congruence. done.
  - destruct e as [status json enc consumed|r| | | | |x]; try done; [destruct (rq_expect_json (co_request co)); [|done]|destruct (rq_expect_json (co_request co)); [done|]|];
      intros [= <-]; (apply Hgo; [done|]); intros Hrun.
    + apply goto_ran; try done; [by rewrite Hp|by destruct consumed].
    + apply conclude_response_ran; try done. by apply counted_end.
    + apply attempt_failed_ran; try done. by rewrite Hp.
  - destruct (co_shard co) as [id|]; [|by destruct e]. destruct (active_requests m !! n) as [a|]; [|by destruct e]. destruct (shards m !! id) as [s|]; [|by destruct e].
    intros H. apply Hgo; [done|]. intros _. by eapply reading_ran.
  - destruct b as [x|], e as [| | | | | |[| | |]]; try done; intros [= <-]; (apply Hgo; [done|]); intros Hrun;
      first [apply finish_body_ran; try done; by rewrite Hp|apply goto_ran; try done; by rewrite Hp].
  - destruct o as [r|x], e as [| | | | | |y]; try done; intros [= <-]; (apply Hgo; [done|]); intros Hrun;
      first [apply conclude_response_ran; try done; by apply counted_end|apply attempt_failed_ran; try done; by rewrite Hp].
  - destruct k as [x|].
    + destruct e as [| | | | | |y]; try done; [destruct (co_shard co) as [id|]; [|done]|]; intros [= <-]; (apply Hgo; [done|]); intros Hrun.
      * destruct (replay_ran c w n co (remove_shard id m) x) as [co' [T R C Q I K]]; try done; try (by rewrite Hp). exists co'. by split.
      * apply conclude_error_ran; try done. by apply counted_end.
    + assert (∀ m1, tidy c m1 → tasks m1 !! n = Some co → futures m1 !! n = Some f → tidy c (on_task n (with_shard None Finished) m1)) as Hfin.
      { intros m1 Ht1 Hn1 Hf1. unfold on_task. rewrite (alter_at _ _ _ _ Hn1). apply (idle_tidy c n co); try done; [|by rewrite Hp|].
        - destruct Hcount as (H1 & H2 & H3). rewrite Hp in H3. repeat split; cbn; lia.
        - intros f' Hf' _. cbn in Hst |- *. destruct Hst as [_ Hd]. by assert (f' = f) as -> by congruence. }
      destruct e as [| | | | | |y]; try done; [destruct (co_shard co) as [id|]; [|done]|]; intros [= <-]; (split; [|by intros ? ?]); apply Hfin; try done. destruct Ht; by split.
  - by destruct e.
  - by destruct e.
Qed.

Lemma submit_tidy n rq m : tidy c m → requests m !! n = None → tidy c (submit n rq m).
Proof.
  intros [TC TA TQ TD TN TW] Hn. assert (tasks m !! n = None) as Htn.
  { destruct (tasks m !! n) eqn:Ht; [|done]. destruct (TA _ _ Ht) as [[Hreq _] _]. congruence. }
  pose proof (TQ n Htn) as Hq. unfold queued in Hq. rewrite Hn in Hq. destruct Hq as (Ha & Hf & Hi & Hs). split; try done.
  - intros i co Hi'. cbn in Hi'. destruct (TA i co Hi') as [Ha' Hq']. assert (i ≠ n) by congruence. unfold agrees. cbn. rewrite !lookup_insert_ne by done. by split.
  - intros i Hi'. unfold queued. cbn. destruct (decide (i = n)) as [->|Hne].
    + rewrite !lookup_insert_eq. split; [done|]. split; [by eexists|]. split; [done|]. intros H. by destruct H.
    + rewrite !lookup_insert_ne by done. by apply TQ.
  - destruct TW as (W1 & W2 & W3). split; [done|]. split; [|done]. cbn. intros Hne. destruct (W2 Hne) as [|[i Hi']]; [by left|]. right. exists i.
    rewrite lookup_insert_ne; [done|]. intros ->. congruence.
Qed.

Lemma put_tidy n m : tidy c m → submitters m !! n = Some Putting → tidy c (put n m).
Proof.
  intros [TC TA TQ TD TN TW] Hs. assert (tasks m !! n = None) as Htn.
  { destruct (tasks m !! n) eqn:Ht; [|done]. destruct (TA _ _ Ht) as [_ [_ H]]. done. }
  assert (n ∉ ingress m) as Hi.
  { pose proof (TQ n Htn) as [_ Hq]. destruct (requests m !! n); [|naive_solver]. destruct Hq as [_ H]. intros Hx%H. by rewrite Hs in Hx. }
  split; try done.
  - intros i co Hi'. cbn in Hi'. destruct (TA i co Hi') as (Ha & H1 & H2). assert (i ≠ n) by congruence. split; [done|]. cbn. rewrite lookup_insert_ne by done.
    rewrite elem_of_app, list_elem_of_singleton. split; [by intros [?|?]|done].
  - intros i Hi'. destruct (TQ i Hi') as [Ha Hq]. split; [done|]. cbn. destruct (requests m !! i) eqn:Hr.
    + destruct Hq as [Hf H]. split; [done|]. rewrite elem_of_app, list_elem_of_singleton. destruct (decide (i = n)) as [->|Hne].
      * rewrite lookup_insert_eq. split; [done|]. auto.
      * rewrite lookup_insert_ne by done. rewrite <-H. split; [by intros [?|?]|by left].
    + destruct Hq as (Hf & H1 & H2). assert (i ≠ n) by congruence. rewrite lookup_insert_ne, elem_of_app, list_elem_of_singleton by done. split; [done|]. split; [|done].
      by intros [?|?].
  - cbn. apply NoDup_app. split; [done|]. split; [|apply NoDup_singleton]. intros x Hx. rewrite list_elem_of_singleton. by intros ->.
  - destruct TW as (W1 & W2 & W3). split; [done|]. split; [|done]. cbn. intros _. right. exists n. apply lookup_insert_eq.
Qed.

Lemma wake_tidy n m : tidy c m → submitters m !! n = Some Waking → tidy c (wake n m).
Proof.
  intros [TC TA TQ TD TN TW] Hs.
  assert (∀ s k x, tidy c (set_ingress (ingress m) s k (drain m) (delete n (submitters m)) (set_counts x m)) ↔
    (wakeful (set_ingress (ingress m) s k (drain m) (delete n (submitters m)) m))) as Hall.
  { intros s k x. split; [by intros []|]. intros HW. split; try done.
    - intros i co Hi. destruct (TA i co Hi) as (Ha & H1 & H2). split; [done|]. split; [done|]. cbn. by intros [_ ?]%lookup_delete_Some.
    - intros i Hi. destruct (TQ i Hi) as [Ha Hq]. split; [done|]. cbn. destruct (requests m !! i) eqn:Hr.
      + destruct Hq as [Hf H]. split; [done|]. destruct (decide (i = n)) as [->|Hne]; [rewrite lookup_delete_eq, H, Hs|by rewrite lookup_delete_ne]. done.
      + destruct Hq as (Hf & H1 & H2). split; [done|]. split; [done|]. apply lookup_delete_None. by right. }
  unfold wake. destruct TW as (W1 & W2 & W3). destruct (scheduled m) eqn:Hsch.
  - specialize (Hall (scheduled m) (callbacks m) (counts m)). rewrite Hsch in Hall. replace (set_counts (counts m) m) with m in Hall by (by destruct m). apply Hall.
    split; [done|]. split; [by left|done].
  - apply (Hall true (callbacks m + 1)%nat). split; [cbn; lia|]. split; [by left|done].
Qed.

Lemma submit_direct_tidy n rq m : tidy c m → requests m !! n = None → tidy c (submit_direct n rq m).
Proof.
  intros [TC TA TQ TD TN TW] Hn. assert (tasks m !! n = None) as Htn.
  { destruct (tasks m !! n) eqn:Ht; [|done]. destruct (TA _ _ Ht) as [[Hreq _] _]. congruence. }
  pose proof (TQ n Htn) as Hq. unfold queued in Hq. rewrite Hn in Hq. destruct Hq as (Ha & Hf & Hi & Hs). destruct Hc as (? & ? & ?). split; try done.
  - intros i co. cbn. intros [[<- <-]|[_ Hi']]%lookup_insert_Some; [repeat split; cbn; lia|by apply (TC i)].
  - intros i co. cbn. intros [[<- <-]|[Hne Hi']]%lookup_insert_Some.
    + split; [|by rewrite Hs]. split; [apply lookup_insert_eq|]. exists Pending. cbn. by rewrite lookup_insert_eq.
    + destruct (TA i co Hi') as [Ha' Hq']. unfold agrees. cbn. rewrite !lookup_insert_ne by done. by split.
  - intros i. cbn. intros [Hi' Hne]%lookup_insert_None. unfold queued. cbn. rewrite !lookup_insert_ne by done. by apply TQ.
  - cbn. intros k. destruct (TN k) as [H1' H2]. rewrite tally_new by done. replace (key_running k (new_coroutine rq true false)) with false by done. cbn. split; [lia|done].
Qed.

Lemma cancel_tidy n m : tidy c m → tidy c (cancel n m).
Proof.
  intros Ht. pose proof Ht as [TC TA TQ TD TN TW]. unfold cancel. cbn zeta. set (m1 := match futures m !! n with Some Pending => _ | _ => m end).
  set (mark := λ co : coroutine, _).
  assert (tasks m1 = tasks m ∧ requests m1 = requests m ∧ active_requests m1 = active_requests m ∧ stats m1 = stats m ∧
    (ingress m1, scheduled m1, callbacks m1, drain m1, submitters m1) = (ingress m, scheduled m, callbacks m, drain m, submitters m)) as (ET & EQ & EA & ES & EI).
  { unfold m1. by destruct (futures m !! n) as [[]|]. }
  injection EI as I1 I2 I3 I4 I5.
  assert (∀ i, futures m1 !! i = match futures m !! i with Some Pending => if decide (i = n) then Some Cancelled else Some Pending | x => x end) as EF.
  { intros i. unfold m1. destruct (decide (i = n)) as [->|Hne].
    - destruct (futures m !! n) as [[]|] eqn:Hf; cbn; rewrite ?lookup_insert_eq, ?Hf; try done. 
    - destruct (futures m !! n) as [[]|] eqn:Hf; cbn; rewrite ?lookup_insert_ne by done; by destruct (futures m !! i) as [[]|]. }
  assert (∀ i co, tasks (on_task n mark m1) !! i = Some co → ∃ co0, tasks m !! i = Some co0 ∧ co_request co = co_request co0 ∧ co_position co = co_position co0 ∧
    co_cohort_retries co = co_cohort_retries co0 ∧ co_transport_retries co = co_transport_retries co0 ∧ co_physical_attempt co = co_physical_attempt co0 ∧ (co_cancel co = true → co_cancel co0 = true ∨ i = n)) as Hback.
  { intros i co. cbn. rewrite ET. destruct (decide (i = n)) as [->|Hne].
    - rewrite lookup_alter_eq. destruct (tasks m !! n) as [co0|]; [|done]. intros [= <-]. exists co0. repeat split; auto.
    - rewrite lookup_alter_ne by done. intros Hi. exists co. repeat split; auto. }
  split.
  - intros i co Hi. destruct (Hback i co Hi) as (co0 & H0 & R & P & C1 & C2 & C3 & _). specialize (TC i co0 H0). unfold counted. by rewrite P, C1, C2, C3.
  - intros i co Hi. destruct (Hback i co Hi) as (co0 & H0 & R & P & _ & _ & _ & Hcan). destruct (TA i co0 H0) as [[Hreq (f & Hf & Hst)] Hq]. cbn. rewrite I1, I5.
    split; [|done]. unfold agrees. cbn. rewrite EQ, EA, EF, Hf, R, P. split; [done|]. destruct (running (co_position co0)) eqn:Hr.
    + destruct Hst as [-> Ha]. by exists Running.
    + destruct Hst as [Ha Hst]. destruct f; try (by exists Running, Hst); cbn in Hst.
      * destruct (decide (i = n)) as [->|Hne].
        { exists Cancelled. repeat split; try done. destruct (ended (co_position co0)); done. }
        exists Pending. repeat split; try done. destruct (ended (co_position co0)); [done|]. split; [done|]. intros H. destruct (Hcan H) as [H1|H1]; [|done]. destruct Hst as [_ Hst]. by specialize (Hst H1).
      * destruct (ended (co_position co0)); [done|]. by destruct Hst.
      * exists Cancelled. repeat split; try done. destruct (ended (co_position co0)); done.
      * exists (Result r). repeat split; try done. destruct (ended (co_position co0)); [done|]. by destruct Hst.
      * exists (Exception_ f). repeat split; try done. destruct (ended (co_position co0)); [done|]. by destruct Hst.
  - intros i Hi. cbn in Hi. rewrite ET in Hi. assert (tasks m !! i = None) as Hi0.
    { destruct (decide (i = n)) as [->|Hne]; [rewrite lookup_alter_eq in Hi; by destruct (tasks m !! n)|by rewrite lookup_alter_ne in Hi]. }
    specialize (TQ i Hi0). unfold queued in *. cbn. rewrite EA, EQ, EF, I1, I5. destruct (requests m !! i).
    + destruct TQ as (Ha & (f & Hf & Hw) & H). rewrite Hf. split; [done|]. split; [|done]. destruct f; try done; [destruct (decide (i = n))|]; by eexists.
    + destruct TQ as (Ha & Hf & H). by rewrite Hf.
  - cbn. by rewrite I1.
  - cbn. rewrite ES, ET. destruct (tasks m !! n) as [co|] eqn:Hn.
    + rewrite (alter_at _ _ _ _ Hn). intros k. destruct (TN k) as [H1 H2]. split; [|done]. rewrite H1, (tally_replace _ _ _ _ (mark co) Hn).
      replace (key_running k (mark co)) with (key_running k co) by done. lia.
    + replace (alter mark n (tasks m)) with (tasks m); [done|]. apply map_eq. intros i. destruct (decide (i = n)) as [->|]; [by rewrite lookup_alter_eq, Hn|by rewrite lookup_alter_ne].
  - unfold wakeful. cbn. by rewrite I1, I2, I3, I4, I5.
Qed.

(** A drain moves between its positions with the queue as it is. *)
Lemma drain_tidy (s : bool) (k : nat) (d : draining) m : tidy c m → (k + match d with Idle => 0 | _ => 1 end = if s then 1 else 0)%nat →
  (s = false → ingress m = [] ∨ ∃ n, submitters m !! n = Some Waking) → (∀ k, d = Taking k → (k <= drain_batch)%nat) → tidy c (set_ingress (ingress m) s k d (submitters m) m).
Proof.
  intros [TC TA TQ TD TN TW] Hk Hs Hb. split; try done. split; [done|]. split; [|done]. cbn. intros Hne. destruct s; [by left|]. destruct (Hs eq_refl); [done|by right].
Qed.

Lemma drain_take_tidy m m' : tidy c m → drain_take m = Some m' → tidy c m'.
Proof.
  intros Ht. unfold drain_take. destruct (drain m) as [|k|] eqn:Hd; try done. destruct (ingress m) as [|n rest] eqn:Hi; [done|].
  destruct (k <? drain_batch)%nat eqn:Hk; [|done]. destruct (requests m !! n) as [rq|] eqn:Hrq; [|done]. cbn zeta. intros [= <-].
  pose proof Ht as [TC TA TQ TD TN TW]. rewrite Hi in TD. apply NoDup_cons in TD as [Hnr Hnd].
  assert (tasks m !! n = None) as Htn.
  { destruct (tasks m !! n) eqn:Hn; [|done]. destruct (TA _ _ Hn) as (_ & H & _). rewrite Hi in H. by destruct H; left. }
  pose proof (TQ n Htn) as Hq. unfold queued in Hq. rewrite Hrq in Hq. destruct Hq as (Ha & (f & Hf & Hw) & Hq).
  assert (submitters m !! n ≠ Some Putting) as Hs by (apply Hq; rewrite Hi; by left).
  destruct Hc as (Hc1 & Hc2 & Hc3). rewrite on_counter_eq. split; try done.
  - intros i co. cbn. intros [[<- <-]|[_ Hi']]%lookup_insert_Some; [repeat split; cbn; lia|by apply (TC i)].
  - intros i co. cbn. intros [[<- <-]|[Hne Hi']]%lookup_insert_Some.
    + split; [|done]. split; [done|]. exists f. split; [done|]. cbn. split; [done|]. split; [done|]. rewrite Hf. by destruct f.
    + destruct (TA i co Hi') as (Ha' & H1 & H2). rewrite Hi in H1. split; [done|]. split; [|done]. intros Hx. apply H1. by right.
  - intros i. cbn. intros [Hi' Hne]%lookup_insert_None. destruct (TQ i Hi') as [Ha' H]. split; [done|]. cbn. destruct (requests m !! i).
    + destruct H as [H1 H2]. split; [done|]. rewrite <-H2, Hi, elem_of_cons. split; [by right|]. by intros [->|?].
    + destruct H as (H1 & H2 & H3). split; [done|]. split; [|done]. rewrite Hi in H2. intros Hx. apply H2. by right.
  - cbn. intros k0. destruct (TN k0) as [H1' H2]. rewrite tally_new by done.
    replace (key_running k0 (new_coroutine rq false _)) with false by done. cbn [Z.b2z].
    unfold bump. destruct (rq_key rq) as [k'|]; [|split; [lia|done]].
    destruct (decide (k' = k0)) as [->|Hne]; [rewrite lookup_insert_eq|rewrite lookup_insert_ne by done]; (split; [|exact H2]); (etransitivity; [exact H1'|lia]).
  - destruct TW as (W1 & W2 & W3). rewrite Hd in W1. split; [done|]. cbn. split; [intros _; left; destruct (scheduled m); [done|lia]|].
    intros k0 [= <-]. apply Nat.ltb_lt in Hk. exact Hk.
Qed.

Lemma drains_tidy m m' : tidy c m → drain_start m = Some m' ∨ drain_take m = Some m' ∨ drain_leave m = Some m' ∨ drain_over m = Some m' → tidy c m'.
Proof.
  intros Ht. destruct (tidy_wakeful c m Ht) as (W1 & W2 & W3). intros [H|[H|[H|H]]].
  - unfold drain_start in H. destruct (drain m) eqn:Hd; try done. destruct (callbacks m) as [|k] eqn:Hk; [done|]. injection H as <-.
    destruct (scheduled m) eqn:Hs; [|lia]. apply drain_tidy; [done|lia|done|intros ? [= <-]; lia].
  - by eapply drain_take_tidy.
  - unfold drain_leave in H. destruct (drain m) as [|k|] eqn:Hd; try done. destruct (_ || _); [|done]. injection H as <-.
    destruct (scheduled m) eqn:Hs; [|lia]. apply drain_tidy; [done|lia|done|done].
  - unfold drain_over in H. destruct (drain m) as [| |] eqn:Hd; try done. destruct (scheduled m) eqn:Hs; [|lia].
    case_bool_decide as Hi; injection H as <-; (apply drain_tidy; [done| |by auto|done]); lia.
Qed.

Lemma step_tidy m m' : tidy c m → network_step m m' → tidy c m' ∧ settled m m'.
Proof.
  intros Ht Hstep.
  assert (∀ n, requests m !! n = None → futures m !! n = None) as Hfresh.
  { intros n Hn. destruct (tasks m !! n) eqn:Hx; [destruct (tidy_agrees c m Ht _ _ Hx) as [[H _] _]; congruence|].
    pose proof (tidy_queued c m Ht n Hx) as [_ H]. rewrite Hn in H. apply H. }
  destruct Hstep as [n rq Hn|n Hn|n Hn|n rq Hn|n|m1 H|w n e m1 _ H].
  - split; [by apply submit_tidy|]. intros i f Hi _. cbn. rewrite lookup_insert_ne; [done|]. intros <-. specialize (Hfresh _ Hn). congruence.
  - split; [by apply put_tidy|by intros ? ?].
  - split; [by apply wake_tidy|]. unfold wake. by destruct (scheduled m); intros ? ?.
  - split; [by apply submit_direct_tidy|]. intros i f Hi _. cbn. rewrite lookup_insert_ne; [done|]. intros <-. specialize (Hfresh _ Hn). congruence.
  - split; [by apply cancel_tidy|]. intros i f Hi Hd. unfold cancel. cbn. destruct (futures m !! n) as [[]|] eqn:Hf; cbn; try done.
    rewrite lookup_insert_ne; [done|]. intros <-. rewrite Hf in Hi. by injection Hi as <-.
  - split; [by eapply drains_tidy|]. destruct H as [H|[H|[H|H]]].
    + unfold drain_start in H. destruct (drain m); try done. destruct (callbacks m); [done|]. injection H as <-. by intros ? ?.
    + unfold drain_take in H. destruct (drain m); try done. destruct (ingress m); [done|]. destruct (_ <? _)%nat; [|done].
      destruct (requests m !! _); [|done]. cbn zeta in H. injection H as <-. intros i f. by rewrite on_counter_eq.
    + unfold drain_leave in H. destruct (drain m); try done. destruct (_ || _); [|done]. injection H as <-. by intros ? ?.
    + unfold drain_over in H. destruct (drain m); try done. injection H as <-. intros ? ?. by case_bool_decide.
  - by eapply resume_tidy.
Qed.

Lemma init_tidy : tidy c network_init.
Proof.
  split; try done; [|apply NoDup_nil_2].
  intros n _. split; [done|]. cbn. split; [done|]. split; [apply not_elem_of_nil|done].
Qed.

End steps.

(** ** The invariant of the shards *)

(** Every shard counts exactly the requests that hold it, never above its capacity; a client
    told to close belongs to a retired shard without requests; the list holds what was
    created less what was closed, and at most one request waits for a client to close. *)
Record pool (c : NetworkConfig) (sh : gmap Z ClientShard) (cl : list Z) (nx rt : Z) (tk : gmap nat coroutine) : Prop := {
  pool_ids : ∀ id, is_Some (sh !! id) ↔ 1 <= id < nx;
  pool_next : 1 <= nx;
  pool_distinct : NoDup cl;
  pool_listed : ∀ id, id ∈ cl → is_Some (sh !! id);
  pool_flight : ∀ id s, sh !! id = Some s → in_flight s = tally (holds id) tk ∧ in_flight s <= _shard_capacity c;
  pool_closed : ∀ id s, sh !! id = Some s → sh_closed s = true → retiring s = true ∧ in_flight s = 0;
  pool_unlisted : ∀ id s, sh !! id = Some s → id ∉ cl → sh_closed s = true;
  pool_holding : ∀ n co, tk !! n = Some co → holding (co_position co) = true → ∃ id, co_shard co = Some id ∧ is_Some (sh !! id);
  pool_closing : ∀ n co, tk !! n = Some co → closing (co_position co) = true →
    ∃ id s, co_shard co = Some id ∧ sh !! id = Some s ∧ sh_closed s = true ∧ id ∈ cl;
  pool_single : ∀ n n' co co', tk !! n = Some co → tk !! n' = Some co' → closing (co_position co) = true → closing (co_position co') = true →
    co_shard co = co_shard co' → n = n';
  pool_free : ∀ n co, tk !! n = Some co → holding (co_position co) = false → closing (co_position co) = false → co_shard co = None;
  pool_count : Z.of_nat (length cl) + rt = nx - 1
}.

Definition Pool (c : NetworkConfig) (m : manager) : Prop :=
  pool c (shards m) (clients m) (next_shard_id m) (t_retired_shards (counts m)) (tasks m).

Section pools.
Context (c : NetworkConfig) (Hc : config_ok c).

(** A change of a shard that keeps what the invariant speaks of. *)
Definition gentle (f : ClientShard → ClientShard) : Prop :=
  ∀ s, sh_closed (f s) = sh_closed s ∧ in_flight (f s) = in_flight s ∧ (retiring s = true → retiring (f s) = true).

Lemma pool_shard sh cl nx rt tk id f : pool c sh cl nx rt tk → gentle f → pool c (alter f id sh) cl nx rt tk.
Proof.
  intros [PI PN PD PL PF PC PU PH PG PS PE PT] Hf.
  assert (∀ i s, alter f id sh !! i = Some s → ∃ s0, sh !! i = Some s0 ∧ sh_closed s = sh_closed s0 ∧ in_flight s = in_flight s0 ∧ (retiring s0 = true → retiring s = true)) as Hback.
  { intros i s. destruct (decide (i = id)) as [->|Hne]; [rewrite lookup_alter_eq|rewrite lookup_alter_ne by done; eauto 6].
    destruct (sh !! id) as [s0|]; [|done]. intros [= <-]. exists s0. destruct (Hf s0) as (? & ? & ?). auto. }
  assert (∀ i, is_Some (alter f id sh !! i) ↔ is_Some (sh !! i)) as Hdom.
  { intros i. destruct (decide (i = id)) as [->|Hne]; [rewrite lookup_alter_eq; by rewrite fmap_is_Some|by rewrite lookup_alter_ne]. }
  split; try done.
  - intros i. by rewrite Hdom.
  - intros i. rewrite Hdom. apply PL.
  - intros i s Hi. destruct (Hback i s Hi) as (s0 & H0 & _ & -> & _). by apply PF.
  - intros i s Hi Hcl. destruct (Hback i s Hi) as (s0 & H0 & E & -> & Hr). rewrite E in Hcl. destruct (PC i s0 H0 Hcl). auto.
  - intros i s Hi Hni. destruct (Hback i s Hi) as (s0 & H0 & -> & _). by eapply PU.
  - intros n co Hn Hh. destruct (PH n co Hn Hh) as (i & H1 & H2). exists i. by rewrite Hdom.
  - intros n co Hn Hh. destruct (PG n co Hn Hh) as (i & s & H1 & H2 & H3 & H4). destruct (proj2 (Hdom i)) as [s' Hs']; [by eexists|].
    destruct (Hback i s' Hs') as (s0 & H0 & E & _). exists i, s'. repeat split; try done. congruence.
Qed.

(** A coroutine keeps its hold: it stays with its shard, or with none. *)
Lemma pool_task sh cl nx rt tk n co co' : pool c sh cl nx rt tk → tk !! n = Some co →
  co_shard co' = co_shard co → holding (co_position co') = holding (co_position co) → closing (co_position co') = closing (co_position co) →
  pool c sh cl nx rt (<[n := co']> tk).
Proof.
  intros [PI PN PD PL PF PC PU PH PG PS PE PT] Hn Es Eh Eg.
  assert (∀ i, holds i co' = holds i co) as Eho by (intros i; unfold holds; by rewrite Es, Eh).
  assert (∀ i x, <[n := co']> tk !! i = Some x → ∃ y, tk !! i = Some y ∧ co_shard x = co_shard y ∧ holding (co_position x) = holding (co_position y) ∧ closing (co_position x) = closing (co_position y)) as Hback.
  { intros i x [[<- <-]|[_ Hi]]%lookup_insert_Some; [by exists co|by exists x]. }
  split; try done.
  - intros i s Hi. destruct (PF i s Hi) as [-> H]. split; [|done]. rewrite (tally_replace _ _ _ _ co' Hn), Eho. lia.
  - intros i x Hx. destruct (Hback i x Hx) as (y & Hy & E1 & E2 & E3). rewrite E1, E2. by apply PH with (n := i).
  - intros i x Hx. destruct (Hback i x Hx) as (y & Hy & E1 & E2 & E3). rewrite E1, E3. by apply PG with (n := i).
  - intros i j x y Hx Hy. destruct (Hback i x Hx) as (x' & Hx' & -> & _ & ->), (Hback j y Hy) as (y' & Hy' & -> & _ & ->). by apply PS.
  - intros i x Hx. destruct (Hback i x Hx) as (y & Hy & -> & -> & ->). by apply PE with (n := i).
Qed.

Lemma holds_tally sh cl nx rt tk id s n co : pool c sh cl nx rt tk → sh !! id = Some s → tk !! n = Some co →
  holding (co_position co) = true → co_shard co = Some id → 1 <= in_flight s.
Proof.
  intros HP Hs Hn Hh Hi. destruct (pool_flight _ _ _ _ _ _ HP id s Hs) as [-> _]. eapply tally_positive; [exact Hn|].
  unfold holds. by rewrite Hh, Hi, bool_decide_true.
Qed.

(** A claim is dropped; the coroutine keeps nothing. *)
Lemma pool_drop sh cl nx rt tk n co id co' : pool c sh cl nx rt tk → tk !! n = Some co → holding (co_position co) = true → co_shard co = Some id →
  holding (co_position co') = false → closing (co_position co') = false → co_shard co' = None →
  pool c (alter drop_claim id sh) cl nx rt (<[n := co']> tk).
Proof.
  intros HP Hn Hh Hi Hh' Hg' Hs'. pose proof HP as [PI PN PD PL PF PC PU PH PG PS PE PT]. 
  assert (closing (co_position co) = false) as Hg by by destruct (co_position co).
  assert (∀ i s, alter drop_claim id sh !! i = Some s → ∃ s0, sh !! i = Some s0 ∧ sh_closed s = sh_closed s0 ∧ retiring s = retiring s0 ∧
    in_flight s = in_flight s0 - Z.b2z (bool_decide (i = id))) as Hback.
  { intros i s. destruct (decide (i = id)) as [->|Hne].
    - rewrite lookup_alter_eq. destruct (sh !! id) as [s0|] eqn:Hs0; [|done]. intros [= <-]. exists s0. repeat split; try done.
      rewrite bool_decide_true by done. cbn. pose proof (holds_tally _ _ _ _ _ _ _ _ _ HP Hs0 Hn Hh Hi). lia.
    - rewrite lookup_alter_ne by done. intros Hs. exists s. rewrite bool_decide_false by done. cbn. repeat split; try done. lia. }
  assert (∀ i, is_Some (alter drop_claim id sh !! i) ↔ is_Some (sh !! i)) as Hdom.
  { intros i. destruct (decide (i = id)) as [->|Hne]; [rewrite lookup_alter_eq; by rewrite fmap_is_Some|by rewrite lookup_alter_ne]. }
  assert (∀ i x, <[n := co']> tk !! i = Some x → (i = n ∧ x = co') ∨ (i ≠ n ∧ tk !! i = Some x)) as Htk.
  { intros i x [[<- <-]|[? Hx]]%lookup_insert_Some; auto. }
  split; try done.
  - intros i. by rewrite Hdom.
  - intros i. rewrite Hdom. apply PL.
  - intros i s Hs. destruct (Hback i s Hs) as (s0 & H0 & _ & _ & ->). destruct (PF i s0 H0) as [-> H]. rewrite (tally_replace _ _ _ _ co' Hn).
    replace (holds i co') with false by (unfold holds; by rewrite Hh'). replace (holds i co) with (bool_decide (i = id)).
    + split; [cbn; lia|]. pose proof (tally_nonneg (holds i) tk). destruct (bool_decide _); cbn; lia.
    + unfold holds. rewrite Hh, Hi. apply bool_decide_ext. naive_solver.
  - intros i s Hs Hcl. destruct (Hback i s Hs) as (s0 & H0 & E1 & -> & ->). rewrite E1 in Hcl. destruct (PC i s0 H0 Hcl) as [? Hz]. split; [done|].
    case_bool_decide as Hid; [|cbn; lia]. subst i. pose proof (holds_tally _ _ _ _ _ _ _ _ _ HP H0 Hn Hh Hi). lia.
  - intros i s Hs Hni. destruct (Hback i s Hs) as (s0 & H0 & -> & _). by eapply PU.
  - intros i x Hx Hhx. destruct (Htk i x Hx) as [[-> ->]|[_ Hx']]; [congruence|]. destruct (PH i x Hx' Hhx) as (j & ? & ?). exists j. by rewrite Hdom.
  - intros i x Hx Hgx. destruct (Htk i x Hx) as [[-> ->]|[_ Hx']]; [congruence|]. destruct (PG i x Hx' Hgx) as (j & s & H1 & H2 & H3 & H4).
    destruct (proj2 (Hdom j)) as [s' Hs'']; [by eexists|]. destruct (Hback j s' Hs'') as (s0 & H0 & E & _). exists j, s'. repeat split; try done. congruence.
  - intros i j x y Hx Hy Hgx Hgy. destruct (Htk i x Hx) as [[-> ->]|[_ Hx']]; [congruence|]. destruct (Htk j y Hy) as [[-> ->]|[_ Hy']]; [congruence|]. by eapply PS.
  - intros i x Hx Hhx Hgx. destruct (Htk i x Hx) as [[-> ->]|[_ Hx']]; [done|]. by eapply PE.
Qed.

(** The client of a retired shard nobody holds is closed while the coroutine waits. *)
Lemma pool_close sh cl nx rt tk n co id s k co' : pool c sh cl nx rt tk → tk !! n = Some co → holding (co_position co) = false → closing (co_position co) = false →
  sh !! id = Some s → retiring s = true → in_flight s = 0 → sh_closed s = false → co_position co' = Closing k → co_shard co' = Some id →
  pool c (alter close_client id sh) cl nx rt (<[n := co']> tk).
Proof.
  intros HP Hn Hh Hg Hs Hr Hz Ho Hp' Hs'. pose proof HP as [PI PN PD PL PF PC PU PH PG PS PE PT].
  assert (id ∈ cl) as Hin. { destruct (decide (id ∈ cl)) as [|Hni]; [done|]. pose proof (PU id s Hs Hni). congruence. }
  rewrite (alter_at _ _ _ _ Hs).
  assert (∀ i x, <[n := co']> tk !! i = Some x → (i = n ∧ x = co') ∨ (i ≠ n ∧ tk !! i = Some x)) as Htk.
  { intros i x [[<- <-]|[? Hx]]%lookup_insert_Some; auto. }
  assert (∀ j x, tk !! j = Some x → closing (co_position x) = true → co_shard x ≠ Some id) as Hnot.
  { intros j x Hx Hgx E. destruct (PG j x Hx Hgx) as (i & s1 & H1 & H2 & H3 & _). congruence. }
  split; try done.
  - intros i. rewrite lookup_insert_is_Some. rewrite PI. destruct (proj1 (PI id)); [by eexists|]. split; [intros [<-|[_ ?]]; lia|]. destruct (decide (id = i)); [by left|by right].
  - intros i Hi. rewrite lookup_insert_is_Some. destruct (decide (id = i)); [by left|right; auto].
  - intros i s0. assert (tally (holds i) (<[n := co']> tk) = tally (holds i) tk) as ->.
    { rewrite (tally_replace _ _ _ _ co' Hn). unfold holds at 2 3. rewrite Hh, Hp'. cbn. lia. }
    intros [[<- <-]|[_ H]]%lookup_insert_Some; [apply (PF id s Hs)|by apply PF].
  - intros i s0 [[<- <-]|[_ H]]%lookup_insert_Some; [done|by eapply PC].
  - intros i s0 [[<- <-]|[_ H]]%lookup_insert_Some; [done|by eapply PU].
  - intros i x Hx Hhx. destruct (Htk i x Hx) as [[-> ->]|[_ Hx']]; [by rewrite Hp' in Hhx|]. destruct (PH i x Hx' Hhx) as (j & ? & ?). exists j. split; [done|].
    rewrite lookup_insert_is_Some. destruct (decide (id = j)); [by left|by right].
  - intros i x Hx Hgx. destruct (Htk i x Hx) as [[-> ->]|[_ Hx']]; [exists id, (close_client s); by rewrite lookup_insert_eq|].
    destruct (PG i x Hx' Hgx) as (j & s1 & H1 & H2 & H3 & H4). assert (j ≠ id) by (intros ->; by eapply Hnot). exists j, s1. by rewrite lookup_insert_ne.
  - intros i j x y Hx Hy Hgx Hgy E. destruct (Htk i x Hx) as [[-> ->]|[_ Hx']], (Htk j y Hy) as [[-> ->]|[_ Hy']]; try done.
    + rewrite Hs' in E. by destruct (Hnot j y Hy' Hgy).
    + rewrite Hs' in E. by destruct (Hnot i x Hx' Hgx).
    + by eapply PS.
  - intros i x Hx Hhx Hgx. destruct (Htk i x Hx) as [[-> ->]|[_ Hx']]; [by rewrite Hp' in Hgx|]. by eapply PE.
Qed.

(** A closed client leaves the list. *)
Lemma pool_remove sh cl nx rt tk n co co' id : pool c sh cl nx rt tk → tk !! n = Some co → closing (co_position co) = true → co_shard co = Some id →
  holding (co_position co') = false → closing (co_position co') = false → co_shard co' = None →
  pool c sh (filter (λ i, i ≠ id) cl) nx (rt + 1) (<[n := co']> tk).
Proof.
  intros HP Hn Hg Hi Hh' Hg' Hs'. pose proof HP as [PI PN PD PL PF PC PU PH PG PS PE PT].
  destruct (PG n co Hn Hg) as (id' & s & E & Hs & Hcl & Hin). rewrite Hi in E. injection E as <-.
  assert (holding (co_position co) = false) as Hh by by destruct (co_position co).
  assert (∀ i x, <[n := co']> tk !! i = Some x → (i = n ∧ x = co') ∨ (i ≠ n ∧ tk !! i = Some x)) as Htk.
  { intros i x [[<- <-]|[? Hx]]%lookup_insert_Some; auto. }
  split; try done.
  - by apply NoDup_filter.
  - intros i Hx. apply list_elem_of_filter in Hx as [_ Hx]. auto.
  - intros i s0 H0. destruct (PF i s0 H0) as [-> H]. split; [|done]. rewrite (tally_replace _ _ _ _ co' Hn).
    replace (holds i co') with false by (unfold holds; by rewrite Hh'). replace (holds i co) with false by (unfold holds; by rewrite Hh). cbn. lia.
  - intros i s0 H0 Hni. destruct (decide (i = id)) as [->|Hne]; [congruence|]. apply (PU i s0 H0). intros Hx. apply Hni. by apply list_elem_of_filter.
  - intros i x Hx Hhx. destruct (Htk i x Hx) as [[-> ->]|[_ Hx']]; [congruence|]. by apply PH with (n := i).
  - intros i x Hx Hgx. destruct (Htk i x Hx) as [[-> ->]|[Hne Hx']]; [congruence|]. destruct (PG i x Hx' Hgx) as (j & s1 & H1 & H2 & H3 & H4).
    exists j, s1. repeat split; try done. apply list_elem_of_filter. split; [|done]. intros ->. apply Hne. eapply PS; [exact Hx'|exact Hn|done..|congruence].
  - intros i j x y Hx Hy Hgx Hgy. destruct (Htk i x Hx) as [[-> ->]|[_ Hx']]; [congruence|]. destruct (Htk j y Hy) as [[-> ->]|[_ Hy']]; [congruence|]. by eapply PS.
  - intros i x Hx Hhx Hgx. destruct (Htk i x Hx) as [[-> ->]|[_ Hx']]; [done|]. by eapply PE.
  - assert (length cl = S (length (filter (λ i, i ≠ id) cl))) as HL; [|lia]. clear -PD Hin. induction cl as [|x cl IH]; [by apply not_elem_of_nil in Hin|].
    apply NoDup_cons in PD as [Hx PD]. destruct (decide (x = id)) as [->|Hne].
    + rewrite filter_cons_False by auto. cbn. f_equal. clear -Hx. induction cl as [|y cl IH]; [done|].
      apply not_elem_of_cons in Hx as [Hy Hx]. rewrite filter_cons_True by auto. cbn. f_equal. auto.
    + rewrite filter_cons_True by done. cbn. f_equal. apply IH; [done|]. apply elem_of_cons in Hin as [->|?]; done.
Qed.

(** A free coroutine claims a usable shard. *)
Lemma pool_claim sh cl nx rt tk n co id s co' : pool c sh cl nx rt tk → tk !! n = Some co → holding (co_position co) = false → closing (co_position co) = false →
  sh !! id = Some s → sh_closed s = false → in_flight s < _shard_capacity c →
  holding (co_position co') = true → co_shard co' = Some id → pool c (alter claim_shard id sh) cl nx rt (<[n := co']> tk).
Proof.
  intros HP Hn Hh Hg Hs Ho Hroom Hh' Hs'. pose proof HP as [PI PN PD PL PF PC PU PH PG PS PE PT].
  assert (closing (co_position co') = false) as Hg' by by destruct (co_position co').
  rewrite (alter_at _ _ _ _ Hs).
  assert (∀ i x, <[n := co']> tk !! i = Some x → (i = n ∧ x = co') ∨ (i ≠ n ∧ tk !! i = Some x)) as Htk.
  { intros i x [[<- <-]|[? Hx]]%lookup_insert_Some; auto. }
  assert (∀ i, is_Some (<[id := claim_shard s]> sh !! i) ↔ is_Some (sh !! i)) as Hdom.
  { intros i. rewrite lookup_insert_is_Some. destruct (decide (id = i)) as [<-|Hne]; [split; [by eexists|by left]|]. split; [by intros [?|[_ ?]]|by right]. }
  split; try done.
  - intros i. by rewrite Hdom.
  - intros i. rewrite Hdom. apply PL.
  - intros i s0 H0. assert (tally (holds i) (<[n := co']> tk) = tally (holds i) tk + Z.b2z (bool_decide (i = id))) as ->.
    { rewrite (tally_replace _ _ _ _ co' Hn). replace (holds i co) with false by (unfold holds; by rewrite Hh).
      replace (holds i co') with (bool_decide (i = id)) by (unfold holds; rewrite Hh', Hs'; apply bool_decide_ext; naive_solver). cbn. lia. }
    apply lookup_insert_Some in H0 as [[<- <-]|[Hne H0]].
    + rewrite bool_decide_true by done. destruct (PF id s Hs) as [Hf _]. cbn. lia.
    + rewrite bool_decide_false by congruence. destruct (PF i s0 H0) as [Hf ?]. cbn. lia.
  - intros i s0 [[<- <-]|[_ H]]%lookup_insert_Some; [cbn; congruence|by eapply PC].
  - intros i s0 [[<- <-]|[_ H]]%lookup_insert_Some Hni; [exact (PU id s Hs Hni)|by eapply PU].
  - intros i x Hx Hhx. destruct (Htk i x Hx) as [[-> ->]|[_ Hx']]; [exists id; rewrite Hdom; split; [done|by eexists]|].
    destruct (PH i x Hx' Hhx) as (j & ? & ?). exists j. by rewrite Hdom.
  - intros i x Hx Hgx. destruct (Htk i x Hx) as [[-> ->]|[_ Hx']]; [congruence|]. destruct (PG i x Hx' Hgx) as (j & s1 & H1 & H2 & H3 & H4).
    exists j, s1. rewrite lookup_insert_ne; [done|]. intros ->. congruence.
  - intros i j x y Hx Hy Hgx Hgy. destruct (Htk i x Hx) as [[-> ->]|[_ Hx']]; [congruence|]. destruct (Htk j y Hy) as [[-> ->]|[_ Hy']]; [congruence|]. by eapply PS.
  - intros i x Hx Hhx Hgx. destruct (Htk i x Hx) as [[-> ->]|[_ Hx']]; [congruence|]. by eapply PE.
Qed.

(** A new shard. *)
Lemma pool_new sh cl nx rt tk now : pool c sh cl nx rt tk →
  pool c (<[nx := MkShard false now 0 0 0 0 0 0 None false None 0 0]> sh) (cl ++ [nx]) (nx + 1) rt tk.
Proof.
  intros [PI PN PD PL PF PC PU PH PG PS PE PT]. assert (sh !! nx = None) as Hnx.
  { destruct (sh !! nx) eqn:H; [|done]. pose proof (proj1 (PI nx) (ex_intro _ _ H)). lia. }
  assert (∀ i, is_Some (<[nx := MkShard false now 0 0 0 0 0 0 None false None 0 0]> sh !! i) ↔ i = nx ∨ is_Some (sh !! i)) as Hdom.
  { intros i. rewrite lookup_insert_is_Some. destruct (decide (nx = i)) as [<-|Hne]; [naive_solver|]. naive_solver. }
  split; try done.
  - intros i. rewrite Hdom, PI. lia.
  - lia.
  - apply NoDup_app. split; [done|]. split; [|apply NoDup_singleton]. intros x Hx. rewrite list_elem_of_singleton. intros ->. destruct (PL nx Hx). congruence.
  - intros i. rewrite elem_of_app, list_elem_of_singleton, Hdom. intros [?| ->]; auto.
  - intros i s [[<- <-]|[Hne H]]%lookup_insert_Some; [|by apply PF]. destruct Hc as [H1 _]. split; [|cbn; lia]. symmetry. cbn. apply tally_none.
    intros n co Hn. unfold holds. destruct (holding (co_position co)) eqn:Hh; [|done]. destruct (PH n co Hn Hh) as (j & -> & [s Hj]). apply bool_decide_false. congruence.
  - intros i s [[<- <-]|[Hne H]]%lookup_insert_Some; [done|by eapply PC].
  - intros i s [[<- <-]|[Hne H]]%lookup_insert_Some Hni; [by destruct Hni; apply elem_of_app; right; left|]. apply (PU i s H). intros Hx. apply Hni. apply elem_of_app. by left.
  - intros n co Hn Hh. destruct (PH n co Hn Hh) as (j & ? & ?). exists j. rewrite Hdom. auto.
  - intros n co Hn Hh. destruct (PG n co Hn Hh) as (j & s & H1 & H2 & H3 & H4). exists j, s. rewrite lookup_insert_ne by congruence. rewrite elem_of_app. auto.
  - rewrite length_app. cbn. lia.
Qed.

(** ** Which shard a request gets *)

Definition usable (m : manager) (id : Z) : Prop := ∃ s, shards m !! id = Some s ∧ retiring s = false ∧ in_flight s < _shard_capacity c.
Definition load (m : manager) (id : Z) : Z := match shards m !! id with Some s => in_flight s | None => 0 end.

(** What the loop of [_acquire_client] has selected after the positions [l]. *)
Definition best (m : manager) (l : list nat) (r : option (nat * Z)) : Prop :=
  match r with
  | Some (i, id) => i ∈ l ∧ clients m !! i = Some id ∧ usable m id ∧
      ∀ j id', j ∈ l → clients m !! j = Some id' → usable m id' → load m id' <= load m id
  | None => ∀ j id', j ∈ l → clients m !! j = Some id' → ¬ usable m id'
  end.

Lemma consider_best m l r j : best m l r → best m (l ++ [j]) (consider (_shard_capacity c) m r j).
Proof.
  intros Hb. unfold consider.
  assert (∀ i, i ∈ l ++ [j] ↔ i ∈ l ∨ i = j) as Hel by (intros i; by rewrite elem_of_app, list_elem_of_singleton).
  assert ((∀ id', clients m !! j = Some id' → usable m id' → ∃ q, r = Some q ∧ load m id' <= load m q.2) → best m (l ++ [j]) r) as Hkeep.
  { intros H. destruct r as [[i id]|]; cbn in Hb |- *.
    - destruct Hb as (H1 & H2 & H3 & H4). split; [apply Hel; by left|]. split; [done|]. split; [done|]. intros k id' [Hk| ->]%Hel Hcl Hu; [by eapply H4|].
      destruct (H id' Hcl Hu) as (q & [= <-] & ?). done.
    - intros k id' [Hk| ->]%Hel Hcl Hu; [by eapply Hb|]. by destruct (H id' Hcl Hu) as (q & ? & _). }
  destruct (clients m !! j) as [id|] eqn:Hj; [|by apply Hkeep]. destruct (shards m !! id) as [s|] eqn:Hs.
  2: { apply Hkeep. intros id' [= <-] (s & Hs' & _). congruence. }
  cbn zeta. destruct (negb (retiring s) && (in_flight s <? _shard_capacity c) && _) eqn:Ht.
  - apply andb_prop in Ht as [[Hr Hroom]%andb_prop Hsel]. split; [apply Hel; by right|]. split; [done|].
    assert (usable m id) as Hu by (exists s; repeat split; [done|by destruct (retiring s)|lia]). split; [done|].
    assert (load m id = in_flight s) as El by (unfold load; by rewrite Hs).
    intros k id' [Hk| ->]%Hel Hcl Hu'; [|assert (id' = id) as -> by congruence; lia]. destruct r as [[i id0]|]; cbn in Hb.
    + destruct Hb as (_ & _ & _ & H4). specialize (H4 k id' Hk Hcl Hu'). rewrite El. unfold load at 2 in H4. lia.
    + by destruct (Hb k id' Hk Hcl).
  - apply Hkeep. intros id' [= <-] (s' & Hs' & Hr & Hroom). assert (s' = s) as -> by congruence. rewrite Hr in Ht. cbn in Ht.
    replace (in_flight s <? _shard_capacity c) with true in Ht by lia. cbn in Ht. destruct r as [[i id0]|]; [|done]. exists (i, id0). split; [done|].
    cbn. unfold load. rewrite Hs. lia.
Qed.

Lemma foldl_best m l l0 r : best m l0 r → best m (l0 ++ l) (foldl (consider (_shard_capacity c) m) r l).
Proof.
  revert l0 r. induction l as [|j l IH]; intros l0 r Hb; [by rewrite app_nil_r|]. cbn.
  replace (l0 ++ j :: l) with ((l0 ++ [j]) ++ l) by (by rewrite <-app_assoc). apply IH. by apply consider_best.
Qed.

Lemma rotation_all m i : (i < length (clients m))%nat ↔ i ∈ rotation m.
Proof.
  unfold rotation. set (n := length (clients m)). split.
  - intros Hi. apply list_elem_of_fmap. exists ((i + (n - next_client_index m mod n)) mod n)%nat. 
    assert (n ≠ 0)%nat as Hn by lia. assert (next_client_index m mod n < n)%nat as Hm by by apply Nat.mod_upper_bound. split.
    + rewrite Nat.Div0.add_mod_idemp_r. rewrite (Nat.div_mod_eq (next_client_index m) n) at 1.
      replace (n * (next_client_index m / n) + next_client_index m mod n + (i + (n - next_client_index m mod n)))%nat with (i + (next_client_index m / n + 1) * n)%nat by nia.
      rewrite Nat.Div0.mod_add. symmetry. by apply Nat.mod_small.
    + apply elem_of_seq. pose proof (Nat.mod_upper_bound (i + (n - next_client_index m mod n)) n Hn). lia.
  - intros Hi. apply list_elem_of_fmap in Hi as (k & -> & Hk). apply elem_of_seq in Hk. apply Nat.mod_upper_bound. lia.
Qed.

Lemma select_best m : match select_shard c m with
  | Some (i, id) => clients m !! i = Some id ∧ usable m id ∧ ∀ id', id' ∈ clients m → usable m id' → load m id' <= load m id
  | None => ∀ id, id ∈ clients m → ¬ usable m id
  end.
Proof.
  pose proof (foldl_best m (rotation m) [] None ltac:(by intros ? ? ?%not_elem_of_nil)) as H. change ([] ++ rotation m) with (rotation m) in H.
  assert (∀ id, id ∈ clients m → ∃ j, j ∈ rotation m ∧ clients m !! j = Some id) as Hall.
  { intros id Hid. apply list_elem_of_lookup in Hid as [j Hj]. exists j. split; [|done]. apply rotation_all. by eapply lookup_lt_Some. }
  unfold select_shard. destruct (foldl _ _ _) as [[i id]|]; cbn in H.
  - destruct H as (_ & H2 & H3 & H4). split; [done|]. split; [done|]. intros id' Hid Hu. destruct (Hall id' Hid) as (j & Hj & Hl). by eapply H4.
  - intros id Hid. destruct (Hall id Hid) as (j & Hj & Hl). by eapply H.
Qed.

Lemma acquire_pool now e n co m r m' : Pool c m → tasks m !! n = Some co → holding (co_position co) = false → closing (co_position co) = false →
  _acquire_client c now e m = (r, m') →
  match r with
  | inl f => m' = m
  | inr id => ∀ co', holding (co_position co') = true → co_shard co' = Some id →
      pool c (shards m') (clients m') (next_shard_id m') (t_retired_shards (counts m')) (<[n := co']> (tasks m'))
  end.
Proof.
  intros HP Hn Hh Hg. unfold _acquire_client. pose proof (select_best m) as Hsel. destruct (select_shard c m) as [[i id]|].
  - intros [= <- <-]. intros co' Hh' Hs'. destruct Hsel as (Hcl & (s & Hs & Hr & Hroom) & _). apply pool_claim with (co := co) (s := s); try done.
    destruct (sh_closed s) eqn:Hclosed; [|done]. destruct (pool_closed _ _ _ _ _ _ HP id s Hs Hclosed). congruence.
  - destruct e as [f|]; [by intros [= <- <-]|]. cbn. intros [= <- <-] co' Hh' Hs'.
    eapply pool_claim with (co := co); [by apply pool_new|done..|apply lookup_insert_eq|done| |done|done]. cbn. destruct Hc. lia.
Qed.

(** ** Turns keep the shards exact *)

Lemma counter_pool m rq g : Pool c m → Pool c (on_counter rq g m).
Proof. by rewrite on_counter_eq. Qed.

Lemma settle_pool m n f : Pool c m → Pool c (settle_future n f m).
Proof. unfold settle_future. destruct (futures m !! n) as [f0|]; [|done]. by destruct (done f0). Qed.

Lemma gentle_failure why now : gentle (count_failure why now).
Proof. by intros s. Qed.
Lemma gentle_completion now : gentle (count_completion now).
Proof. by intros s. Qed.
Lemma gentle_retire why now : gentle (retire why now).
Proof. by intros s. Qed.

Lemma shard_pool m id f : Pool c m → gentle f → Pool c (on_shard id f m).
Proof. intros HP Hf. by apply pool_shard. Qed.

Lemma task_pool m n co g : Pool c m → tasks m !! n = Some co → co_shard (g co) = co_shard co → holding (co_position (g co)) = holding (co_position co) →
  closing (co_position (g co)) = closing (co_position co) → Pool c (on_task n g m).
Proof. intros HP Hn H1 H2 H3. unfold Pool, on_task. cbn. rewrite (alter_at _ _ _ _ Hn). by eapply pool_task. Qed.

(** Releasing: either the client starts to close, or the coroutine is free and goes on. *)
Lemma release_pool m n co k next g : Pool c m → tasks m !! n = Some co → holding (co_position co) = true →
  holding (co_position (g co)) = false → closing (co_position (g co)) = false → co_shard (g co) = None →
  (∀ m', Pool c (on_task n g m') → tasks m' = tasks m → Pool c (next m')) → Pool c (release_then n k next m).
Proof.
  intros HP Hn Hh Hh' Hg' Hs' Hnext. unfold release_then. rewrite Hn. destruct (pool_holding _ _ _ _ _ _ HP n co Hn Hh) as (id & Hi & s & Hs). rewrite Hi. cbn zeta.
  assert (pool c (alter drop_claim id (shards m)) (clients m) (next_shard_id m) (t_retired_shards (counts m)) (<[n := with_shard None Turn co]> (tasks m))) as Hfree.
  { by eapply pool_drop. }
  destruct (must_close id (on_shard id drop_claim m)) eqn:Hm.
  - unfold must_close in Hm. cbn in Hm. rewrite lookup_alter_eq, Hs in Hm. cbn in Hm. apply andb_prop in Hm as [Hr Hz].
    pose proof (holds_tally _ _ _ _ _ _ _ _ _ HP Hs Hn Hh Hi) as Hone.
    unfold Pool. cbn. rewrite (alter_at _ _ _ _ Hn).
    replace (<[n := goto (Closing k) co]> (tasks m)) with (<[n := goto (Closing k) co]> (<[n := with_shard None Turn co]> (tasks m))) by apply insert_insert_eq.
    eapply pool_close with (s := drop_claim s); [exact Hfree|apply lookup_insert_eq|done|done|by rewrite lookup_alter_eq, Hs|done|cbn; lia| |done|done].
    cbn. destruct (sh_closed s) eqn:Hc'; [|done]. destruct (pool_closed _ _ _ _ _ _ HP id s Hs Hc'). lia.
  - apply Hnext; [|done]. unfold Pool, on_task. cbn. rewrite (alter_at _ _ _ _ Hn). by eapply pool_drop.
Qed.

Lemma leave_holding_pool m n co : Pool c m → tasks m !! n = Some co → holding (co_position co) = true → Pool c (leave n m).
Proof. intros HP Hn Hh. unfold leave. by eapply (release_pool (set_active _ m) n co Leave _ (with_shard None Finished)). Qed.

Lemma leave_free_pool m n co : Pool c m → tasks m !! n = Some co → holding (co_position co) = false → closing (co_position co) = false → Pool c (leave n m).
Proof.
  intros HP Hn Hh Hg. pose proof (pool_free _ _ _ _ _ _ HP n co Hn Hh Hg) as Hs. unfold leave, release_then. cbn [tasks set_active]. rewrite Hn, Hs.
  by apply (task_pool (set_active _ m) n co).
Qed.

(** Leaving from the wait for a client that failed to close: it is told again. *)
Lemma leave_closing_pool m n co : Pool c m → tasks m !! n = Some co → closing (co_position co) = true → Pool c (leave n m).
Proof.
  intros HP Hn Hg. destruct (pool_closing _ _ _ _ _ _ HP n co Hn Hg) as (id & s & Hi & Hs & Hcl & Hin).
  destruct (pool_closed _ _ _ _ _ _ HP id s Hs Hcl) as [Hr Hz]. unfold leave, release_then. cbn [tasks set_active]. rewrite Hn, Hi. cbn zeta.
  assert (drop_claim s = s) as Ed by (unfold drop_claim; rewrite Hz; destruct s; cbn in Hz |- *; by rewrite Hz).
  assert (close_client s = s) as Ec by (unfold close_client; rewrite <-Hcl; by destruct s).
  assert (on_shard id drop_claim (set_active (delete n (active_requests m)) m) = set_active (delete n (active_requests m)) m) as ->.
  { unfold on_shard. cbn. rewrite (alter_at _ _ _ _ Hs), Ed, insert_id by done. by destruct m. }
  unfold must_close. cbn [shards set_active]. rewrite Hs, Hr, Hz. cbn. unfold Pool. cbn. rewrite (alter_at _ _ _ _ Hs), Ec, insert_id by done.
  rewrite (alter_at _ _ _ _ Hn). apply pool_task with (co := co); try done; cbn; by destruct (co_position co).
Qed.

Lemma leave_pool m n co : Pool c m → tasks m !! n = Some co → Pool c (leave n m).
Proof.
  intros HP Hn. destruct (holding (co_position co)) eqn:Hh; [by eapply leave_holding_pool|].
  destruct (closing (co_position co)) eqn:Hg; [by eapply leave_closing_pool|by eapply leave_free_pool].
Qed.

Lemma conclude_pool m n co f g id h : Pool c m → tasks m !! n = Some co → gentle h →
  Pool c (leave n (settle_future n f (on_counter (co_request co) g (match id with Some i => on_shard i h m | None => m end)))).
Proof.
  intros HP Hn Hh. eapply (leave_pool _ n co).
  - apply settle_pool, counter_pool. destruct id; [by apply shard_pool|done].
  - rewrite on_counter_eq. unfold settle_future. destruct id; cbn; by repeat case_match.
Qed.

Lemma conclude_error_pool now m n co f : Pool c m → tasks m !! n = Some co → Pool c (conclude_error now n f m).
Proof. intros HP Hn. unfold conclude_error. rewrite Hn. cbn zeta. by apply conclude_pool. Qed.

Lemma conclude_response_pool now m n co r : Pool c m → tasks m !! n = Some co → Pool c (conclude_response now n r m).
Proof. intros HP Hn. unfold conclude_response. rewrite Hn. cbn zeta. by apply conclude_pool. Qed.

Lemma attempt_pool w m n co : Pool c m → tasks m !! n = Some co → holding (co_position co) = false → closing (co_position co) = false → Pool c (attempt c w n m).
Proof.
  intros HP Hn Hh Hg. unfold attempt. rewrite Hn. cbn zeta. set (m1 := on_active n _ (on_task n _ m)).
  set (co1 := with_retries (co_cohort_retries co) (co_transport_retries co) (co_physical_attempt co + 1) (co_replay_reason co) co).
  assert (tasks m1 !! n = Some co1) as Hn1 by (cbn; by rewrite (alter_at _ _ _ _ Hn), lookup_insert_eq).
  assert (Pool c m1) as HP1 by by eapply (task_pool m n co).
  destruct (if rq_attempt_callback (co_request co) then w_callback_error w else None) as [f|]; [by eapply conclude_error_pool|].
  destruct (_acquire_client c (w_now w) (w_client_error w) m1) as [r m2] eqn:Ha.
  pose proof (acquire_pool _ _ n co1 m1 r m2 HP1 Hn1 Hh Hg Ha) as Hr. destruct r as [f|id].
  - subst m2. by eapply conclude_error_pool.
  - destruct (acquire_eq c _ _ _ _ _ Ha) as (sh & cl & nx & i & Em2).
    assert (tasks m2 !! n = Some co1) as Hn2 by (by rewrite Em2).
    specialize (Hr (with_shard (Some id) Requesting co1) eq_refl eq_refl).
    match goal with |- context [if ?b then if ?d then add_retries 0 0 1 0 m2 else add_retries 0 0 0 1 m2 else m2] =>
      assert (t_retired_shards (counts (if b then if d then add_retries 0 0 1 0 m2 else add_retries 0 0 0 1 m2 else m2)) = t_retired_shards (counts m2)) as Et
        by (by destruct b, d); destruct (recovering_eq b d m2) as [t Em3]; rewrite Em3 in Et |- * end.
    unfold Pool. cbn. rewrite (alter_at _ _ _ _ Hn2). cbn in Et. by rewrite Et.
Qed.

(** After the release, the handler of an attempt. *)
Lemma replay_pool w m n f co : Pool c (on_task n (with_shard None Turn) m) → tasks m !! n = Some co → Pool c (replay c w n f m).
Proof.
  intros HP Hn. unfold replay. rewrite Hn. cbn zeta. set (m1 := on_task n (with_shard None Turn) m) in *.
  assert (tasks m1 !! n = Some (with_shard None Turn co)) as Hn1 by (cbn; by rewrite (alter_at _ _ _ _ Hn), lookup_insert_eq).
  assert (∀ a b why m2, tasks m2 = tasks m1 → Pool c m2 →
    Pool c (attempt c w n (on_active n (retry_row a b) (on_task n (with_retries a b (co_physical_attempt co) why) m2)))) as Hnext.
  { intros a b why m2 E HP2. assert (tasks m2 !! n = Some (with_shard None Turn co)) as Hn2 by by rewrite E.
    eapply (attempt_pool w _ n (with_retries a b (co_physical_attempt co) why (with_shard None Turn co))); [|cbn; by rewrite (alter_at _ _ _ _ Hn2), lookup_insert_eq|done..].
    by eapply (task_pool m2 n (with_shard None Turn co)). }
  destruct f as [why|t| |t].
  { destruct (_ <=? _); [by eapply conclude_error_pool|]. by apply Hnext. }
  all: destruct (_ <=? _); [by eapply conclude_error_pool|]; by apply (Hnext _ _ (Some "transport_error") (add_retries 0 1 0 0 m1)).
Qed.

Lemma attempt_failed_pool w m n co f : Pool c m → tasks m !! n = Some co → holding (co_position co) = true → Pool c (attempt_failed c w n f m).
Proof.
  intros HP Hn Hh. unfold attempt_failed. rewrite Hn.
  assert (∀ m1 k, Pool c m1 → tasks m1 = tasks m → Pool c (release_then n (Replay k) (replay c w n k) m1)) as Hrel.
  { intros m1 k HP1 E. assert (tasks m1 !! n = Some co) as Hn1 by by rewrite E.
    eapply (release_pool m1 n co (Replay k) _ (with_shard None Turn)); try done. intros m2 HP2 E2. eapply replay_pool; [exact HP2|]. by rewrite E2. }
  destruct (co_shard co) as [id|]; [|by eapply conclude_error_pool]. destruct f as [why|t| |t]; try (by eapply conclude_error_pool).
  - apply Hrel; [|done]. apply (shard_pool m id (λ s, retire why (w_now w) (count_stall s))); [done|by intros s].
  - apply Hrel; [|done]. apply (shard_pool m id (λ s, count_failure t (w_now w) (retire t (w_now w) s))); [done|by intros s].
Qed.

Lemma begin_pool w m n co : Pool c m → tasks m !! n = Some co → co_position co = Created → Pool c (begin c w n m).
Proof.
  intros HP Hn Hp. unfold begin. rewrite Hn. cbn zeta. set (m0 := if co_direct co then _ else m).
  assert (Pool c m0 ∧ tasks m0 = tasks m) as [HP0 E0] by (unfold m0; destruct (co_direct co); [split; [by apply counter_pool|by rewrite on_counter_eq]|done]).
  clearbody m0. assert (tasks m0 !! n = Some co) as Hn0 by by rewrite E0.
  assert (co_shard co = None) as Hs by (apply (pool_free _ _ _ _ _ _ HP n co Hn); by rewrite Hp).
  assert (Pool c (on_task n (with_shard None Finished) m0)) as Hdone by (eapply (task_pool m0 n co); try done; by rewrite ?Hp).
  destruct (futures m0 !! n) as [[]|]; try done. rewrite on_counter_eq.
  set (start := λ co1 : coroutine, MkCoroutine (co_request co1) _ _ _ _ _ _ _ _ _). set (m1 := set_active _ _).
  assert (Pool c m1) as HP1 by exact HP0.
  eapply (attempt_pool w _ n (start co)); [|cbn; by rewrite (alter_at _ _ _ _ Hn0), lookup_insert_eq|done..].
  eapply (task_pool m1 n co); try done; by rewrite ?Hp, ?Hs.
Qed.

Lemma goto_pool m n co p : Pool c m → tasks m !! n = Some co → holding (co_position co) = true → holding p = true → Pool c (on_task n (goto p) m).
Proof. intros HP Hn Hh Hp. eapply (task_pool m n co); try done; cbn; [by rewrite Hh|]. by destruct p, (co_position co). Qed.

Lemma finish_pool now m n co r b : Pool c m → tasks m !! n = Some co → holding (co_position co) = true → Pool c (finish_body now n r b m).
Proof.
  intros HP Hn Hh. unfold finish_body. rewrite Hn. cbn zeta. destruct (rd_complete r && negb b); [|by eapply goto_pool].
  destruct (co_shard co) as [id|]; [|by eapply goto_pool]. eapply (goto_pool (count_recovery (on_shard id _ m)) n co); try done.
  apply (shard_pool m id); [done|apply gentle_retire].
Qed.

Lemma reading_pool gunzip inflate decode now m n co id a s r e m' : Pool c m → tasks m !! n = Some co → holding (co_position co) = true →
  on_reading gunzip inflate decode c now n co id a s r e m = Some m' → Pool c m'.
Proof.
  intros HP Hn Hh. destruct e as [| |bytes| | | |[| | |]]; cbn [on_reading]; try discriminate; intros [= <-]; try (by eapply finish_pool); try (by eapply goto_pool).
  - eapply (goto_pool (on_active n _ m) n co); try done. case_goal; done.
  - eapply goto_pool; try done. case_goal; done.
Qed.

Lemma resume_pool gunzip inflate decode w n e m m' : Pool c m → resume gunzip inflate decode c w n e m = Some m' → Pool c m'.
Proof.
  intros HP. unfold resume. destruct (tasks m !! n) as [co|] eqn:Hn; [|done].
  assert (∀ m1, Pool c m1 → tasks m1 = tasks m → holding (co_position co) = false → closing (co_position co) = false → Pool c (on_task n (with_shard None Finished) m1)) as Hfin.
  { intros m1 HP1 E Hh Hg. assert (tasks m1 !! n = Some co) as Hn1 by by rewrite E. 
    eapply (task_pool m1 n co); [done|done|cbn; by rewrite (pool_free _ _ _ _ _ _ HP n co Hn Hh Hg)|by rewrite Hh|by rewrite Hg]. }
  destruct (co_position co) as [| |r|r b|o|k| |] eqn:Hp.
  - destruct e as [| | | | | |x]; try done; [intros [= <-]; by eapply begin_pool|]. destruct (co_cancel co); [|done]. intros [= <-]. by apply Hfin.
  - destruct e as [status json enc consumed|r| | | | |x]; try done; [destruct (rq_expect_json (co_request co)); [|done]|destruct (rq_expect_json (co_request co)); [done|]|]; intros [= <-].
    + eapply goto_pool; try done; [by rewrite Hp|by destruct consumed].
    + by eapply conclude_response_pool.
    + eapply attempt_failed_pool; try done. by rewrite Hp.
  - destruct (co_shard co) as [id|]; [|by destruct e]. destruct (active_requests m !! n) as [a|]; [|by destruct e]. destruct (shards m !! id) as [s|]; [|by destruct e].
    intros H. eapply reading_pool; try done. by rewrite Hp.
  - destruct b as [x|], e as [| | | | | |[| | |]]; try done; intros [= <-];
      first [eapply finish_pool; try done; by rewrite Hp|eapply goto_pool; try done; by rewrite Hp].
  - destruct o as [r|x], e as [| | | | | |y]; try done; intros [= <-];
      first [by eapply conclude_response_pool|eapply attempt_failed_pool; try done; by rewrite Hp].
  - destruct e as [| | | | | |y]; try (by destruct k).
    + destruct (co_shard co) as [id|] eqn:Hi; [|by destruct k].
      assert (∀ p, holding p = false → closing p = false → Pool c (on_task n (with_shard None p) (remove_shard id m))) as Hrem.
      { intros p Hh Hg. unfold Pool, on_task. cbn. rewrite (alter_at _ _ _ _ Hn). eapply pool_remove with (co := co); try done. by rewrite Hp. }
      destruct k as [f|]; intros [= <-]; [|by apply Hrem]. eapply replay_pool; [by apply Hrem|exact Hn].
    + destruct k as [f|]; intros [= <-]; [by eapply conclude_error_pool|].
      destruct (pool_closing _ _ _ _ _ _ HP n co Hn) as (id & s & Hi & Hs & _ & Hin); [by rewrite Hp|].
      assert (holding (co_position co) = false) as Hh by by rewrite Hp.
      pose proof HP as [PI PN PD PL PF PC PU PH PG PS PE PT].
      assert (∀ i x, <[n := with_shard None Finished co]> (tasks m) !! i = Some x → (i = n ∧ x = with_shard None Finished co) ∨ (i ≠ n ∧ tasks m !! i = Some x)) as Htk.
      { intros i x [[<- <-]|[? Hx]]%lookup_insert_Some; auto. }
      unfold Pool, on_task. cbn. rewrite (alter_at _ _ _ _ Hn). split; try done.
      * intros i s0 H0. destruct (PF i s0 H0) as [-> H]. split; [|done]. rewrite (tally_replace _ _ _ _ (with_shard None Finished co) Hn).
        replace (holds i co) with false by (unfold holds; by rewrite Hh). cbn. lia.
      * intros i x Hx Hhx. destruct (Htk i x Hx) as [[-> ->]|[_ Hx']]; [done|]. by apply PH with (n := i).
      * intros i x Hx Hgx. destruct (Htk i x Hx) as [[-> ->]|[_ Hx']]; [done|]. by apply PG with (n := i).
      * intros i j x z Hx Hy Hgx Hgy. destruct (Htk i x Hx) as [[-> ->]|[_ Hx']]; [done|]. destruct (Htk j z Hy) as [[-> ->]|[_ Hy']]; [done|]. by eapply PS.
      * intros i x Hx Hhx Hgx. destruct (Htk i x Hx) as [[-> ->]|[_ Hx']]; [done|]. by eapply PE.
  - by destruct e.
  - by destruct e.
Qed.

Lemma created_pool m n co : Pool c m → tasks m !! n = None → co_position co = Created → co_shard co = None →
  pool c (shards m) (clients m) (next_shard_id m) (t_retired_shards (counts m)) (<[n := co]> (tasks m)).
Proof.
  intros [PI PN PD PL PF PC PU PH PG PS PE PT] Hn Hp Hs.
  assert (∀ i x, <[n := co]> (tasks m) !! i = Some x → (i = n ∧ x = co) ∨ (i ≠ n ∧ tasks m !! i = Some x)) as Htk.
  { intros i x [[<- <-]|[? Hx]]%lookup_insert_Some; auto. }
  split; try done.
  - intros i s0 H0. destruct (PF i s0 H0) as [-> H]. split; [|done]. rewrite tally_new by done. unfold holds at 3. rewrite Hp. cbn. lia.
  - intros i x Hx Hhx. destruct (Htk i x Hx) as [[-> ->]|[_ Hx']]; [by rewrite Hp in Hhx|]. by apply PH with (n := i).
  - intros i x Hx Hgx. destruct (Htk i x Hx) as [[-> ->]|[_ Hx']]; [by rewrite Hp in Hgx|]. by apply PG with (n := i).
  - intros i j x y Hx Hy Hgx Hgy. destruct (Htk i x Hx) as [[-> ->]|[_ Hx']]; [by rewrite Hp in Hgx|]. destruct (Htk j y Hy) as [[-> ->]|[_ Hy']]; [by rewrite Hp in Hgy|]. by eapply PS.
  - intros i x Hx Hhx Hgx. destruct (Htk i x Hx) as [[-> ->]|[_ Hx']]; [done|]. by eapply PE.
Qed.

Lemma step_pool gunzip inflate decode m m' : tidy c m ∧ Pool c m → network_step gunzip inflate decode c m m' → tidy c m' ∧ Pool c m'.
Proof.
  intros [Ht HP] Hstep. split; [by eapply (step_tidy _ _ _ c Hc)|].
  assert (∀ n, requests m !! n = None → tasks m !! n = None) as Hfresh.
  { intros n Hn. destruct (tasks m !! n) eqn:Hx; [|done]. destruct (tidy_agrees c m Ht _ _ Hx) as [[H _] _]. congruence. }
  destruct Hstep as [n rq Hn|n Hn|n Hn|n rq Hn|n|m1 H|w n e m1 _ H]; try done.
  - unfold wake. by destruct (scheduled m).
  - exact (created_pool m n (new_coroutine rq true false) HP (Hfresh n Hn) eq_refl eq_refl).
  - unfold cancel. cbn zeta. set (m1 := match futures m !! n with Some Pending => _ | _ => m end).
    assert (Pool c m1 ∧ tasks m1 = tasks m) as [HP1 E1] by (unfold m1; by destruct (futures m !! n) as [[]|]). clearbody m1.
    destruct (tasks m1 !! n) as [co|] eqn:Hn; [by eapply (task_pool m1 n co)|]. unfold Pool, on_task. cbn.
    match goal with |- context [alter ?g n (tasks m1)] => replace (alter g n (tasks m1)) with (tasks m1) end; [done|]. apply map_eq. intros i.
    destruct (decide (i = n)) as [->|]; [by rewrite lookup_alter_eq, Hn|by rewrite lookup_alter_ne].
  - destruct H as [H|[H|[H|H]]].
    + unfold drain_start in H. destruct (drain m); try done. destruct (callbacks m); [done|]. by injection H as <-.
    + unfold drain_take in H. destruct (drain m); try done. destruct (ingress m) as [|i rest] eqn:Hi; [done|]. destruct (_ <? _)%nat; [|done].
      destruct (requests m !! i) as [rq|] eqn:Hrq; [|done]. cbn zeta in H. injection H as <-. rewrite on_counter_eq.
      assert (tasks m !! i = None) as Hti.
      { destruct (tasks m !! i) eqn:Hx; [|done]. destruct (tidy_agrees c m Ht _ _ Hx) as (_ & Hni & _). destruct Hni. rewrite Hi. left. }
      exact (created_pool m i (new_coroutine rq false (match futures m !! i with Some Cancelled => true | _ => false end)) HP Hti eq_refl eq_refl).
    + unfold drain_leave in H. destruct (drain m); try done. destruct (_ || _); [|done]. by injection H as <-.
    + unfold drain_over in H. destruct (drain m); try done. injection H as <-. by case_bool_decide.
  - by eapply resume_pool.
Qed.

Lemma init_pool : Pool c network_init.
Proof.
  split; cbn; try done; try lia.
  - intros id. rewrite lookup_empty. split; [by intros [? ?]|lia].
  - apply NoDup_nil_2.
  - by intros id ?%not_elem_of_nil.
Qed.

Lemma reachable_exact gunzip inflate decode m : rtc (network_step gunzip inflate decode c) network_init m → tidy c m ∧ Pool c m.
Proof. intros Hr. exact (rtc_keeps _ _ (step_pool gunzip inflate decode) _ _ Hr (conj (init_tidy c) init_pool)). Qed.
End pools.

(** Every configuration [configure] accepts has capacity and no negative limit. *)
Lemma configure_valid getenv py_float h n cap http1 arch flush k i v p act c :
  configure getenv py_float h n cap http1 arch flush k i v p act = Ok c → config_ok c.
Proof.
  assert (∀ a e d x, _positive_integer getenv a e d = Ok x → 1 <= x) as Hpos.
  { intros a e d x H. unfold _positive_integer in H. apply rbind_ok in H as (y & _ & H). destruct y; try discriminate H.
    apply rbind_ok in H as ([] & Hb & H). apply require_ok in Hb. injection H as <-. lia. }
  assert (∀ e d x, _nonnegative_integer getenv e d = Ok x → 0 <= x) as Hnon.
  { intros e d x H. unfold _nonnegative_integer in H. apply rbind_ok in H as (y & _ & H).
    apply rbind_ok in H as ([] & Hb & H). apply require_ok in Hb. injection H as <-. lia. }
  unfold configure. intros H.
  apply rbind_ok in H as (h2 & _ & H). apply rbind_ok in H as (ns & Hns & H). apply rbind_ok in H as (c1 & Hc1%Hpos & H).
  apply rbind_ok in H as (c2 & Hc2%Hpos & H). do 6 apply rbind_ok in H as (? & _ & H). apply rbind_ok in H as (ev & _ & H).
  apply rbind_ok in H as (? & _ & H). apply rbind_ok in H as (r1 & Hr1%Hnon & H). apply rbind_ok in H as (r2 & Hr2%Hnon & H).
  do 3 apply rbind_ok in H as (? & _ & H). injection H as <-.
  assert (1 <= ns) as Hn1.
  { destruct n; try discriminate Hns. apply rbind_ok in Hns as ([] & Hb & Hns). apply require_ok in Hb. injection Hns as <-. lia. }
  unfold config_ok, _shard_capacity. cbn. destruct h2; lia.
Qed.

(** A silent response is given up at most a millisecond after its read timeout, and after a
    number of waits linear in that timeout. *)
Lemma silent_read_ends c rq a s r limit now : 4 <= cohort_stall c → rq_read_timeout rq = Some limit → rd_complete r = false →
  let deadline := default (rd_headers_at r) (a_last_progress_at a) + limit in
  now <= deadline → ∃ t f, silent_read (Z.to_nat (deadline - now) + 1) c rq a s r now = Some (t, Some f) ∧ now <= t <= deadline + 1000.
Proof.
  intros Hstall Hrq Hr deadline Hnow. remember (Z.to_nat (deadline - now)) as k eqn:Hk. revert now Hnow Hk.
  induction k as [k IH] using (well_founded_induction lt_wf). intros now Hnow Hk.
  assert (1 <= cohort_stall c / 4) as H4 by (apply Z.div_le_lower_bound; lia).
  assert (1 <= chunk_timeout c rq a r now <= Z.max 1000 (deadline - now)) as Ht.
  { unfold chunk_timeout. rewrite Hr, Hrq. fold deadline. lia. }
  rewrite Nat.add_1_r. cbn [silent_read]. rewrite Hr, Hrq.
  destruct (_cohort_stream_stall_reason c a s _) as [why|]; [eexists _, _; split; [done|lia]|].
  destruct (limit <=? _) eqn:Hd; [eexists _, _; split; [done|lia]|].
  set (now' := now + chunk_timeout c rq a r now) in *.
  destruct (IH (Z.to_nat (deadline - now'))) with (now := now') as (t & f & Hs & Hb); [unfold now' in *; lia..|].
  exists t, f. split; [|lia]. assert (∃ j, k = (Z.to_nat (deadline - now') + 1 + j)%nat) as [j Hj] by (exists (k - (Z.to_nat (deadline - now') + 1))%nat; unfold now' in *; lia).
  rewrite Hj. clear -Hs. revert Hs. generalize (Z.to_nat (deadline - now') + 1)%nat as n. intros n. generalize now'. clear now'. induction n as [|n IHn]; intros now'; [done|].
  cbn [silent_read plus]. destruct (rd_complete r); [done|]. destruct (_cohort_stream_stall_reason c a s _); [done|]. destruct (rq_read_timeout rq); [destruct (_ <=? _); [done|]|]; apply IHn.
Qed.

(** ** Properties *)

Section properties.
Context (gunzip inflate decode : string → option string) (c : NetworkConfig) (Hc : config_ok c).
Abbreviation network_step := (network_step gunzip inflate decode c).

(** C31: whatever requests are submitted, cancelled, answered, stalled or fail, in any
    interleaving, every shard counts exactly the requests that hold it and never more than
    its capacity; a shard whose client was told to close is retired and held by no request,
    so no request is ever sent through a closed client; and the shards listed are those
    created less those counted as retired. *)
Theorem shards_exact m : rtc network_step network_init m →
  (∀ id s, shards m !! id = Some s →
     in_flight s = tally (holds id) (tasks m) ∧ 0 <= in_flight s <= _shard_capacity c ∧
     (sh_closed s = true → retiring s = true ∧ ∀ n co, tasks m !! n = Some co → holds id co = false)) ∧
  (∀ n co, tasks m !! n = Some co → holding (co_position co) = true →
     ∃ id s, co_shard co = Some id ∧ shards m !! id = Some s ∧ sh_closed s = false) ∧
  NoDup (clients m) ∧ Z.of_nat (length (clients m)) + t_retired_shards (counts m) = next_shard_id m - 1.
Proof.
  intros Hr. destruct (reachable_exact c Hc _ _ _ m Hr) as [_ HP].
  assert (∀ id s n co, shards m !! id = Some s → tasks m !! n = Some co → holds id co = true → 1 <= in_flight s) as Hone.
  { intros id s n co Hs Hn [Hh Hi]%andb_prop. apply bool_decide_eq_true in Hi. by eapply (holds_tally c); [exact HP|..]. }
  split; [|split; [|split]].
  - intros id s Hs. destruct (pool_flight _ _ _ _ _ _ HP id s Hs) as [Hf Hcap]. split; [done|]. split.
    { split; [|done]. rewrite Hf. apply tally_nonneg. }
    intros Hcl. destruct (pool_closed _ _ _ _ _ _ HP id s Hs Hcl) as [Hret Hz]. split; [done|]. intros n co Hn.
    destruct (holds id co) eqn:Hh; [|done]. specialize (Hone id s n co Hs Hn Hh). lia.
  - intros n co Hn Hh. destruct (pool_holding _ _ _ _ _ _ HP n co Hn Hh) as (id & Hi & s & Hs). exists id, s. split; [done|]. split; [done|].
    destruct (sh_closed s) eqn:Hcl; [|done]. destruct (pool_closed _ _ _ _ _ _ HP id s Hs Hcl) as [_ Hz].
    assert (1 <= in_flight s); [|lia]. eapply Hone; [exact Hs|exact Hn|]. unfold holds. by rewrite Hh, Hi, bool_decide_true.
  - apply HP.
  - apply HP.
Qed.

(** C32: every request is accounted for at every moment.  Before its coroutine begins its
    future waits and the request is about to be queued, queued, or has its coroutine; while
    it runs its future is running and it has one row of active requests; once it is over
    its future is decided and the row is gone.  A decided future never changes, and a
    request is sent at most once more than the replay limits allow together. *)
Theorem request_settles_once m : rtc network_step network_init m →
  (∀ n, is_Some (requests m !! n) → tasks m !! n = None →
     (futures m !! n = Some Pending ∨ futures m !! n = Some Cancelled) ∧ (submitters m !! n = Some Putting ∨ n ∈ ingress m)) ∧
  (∀ n co, tasks m !! n = Some co →
     match co_position co with
     | Created => futures m !! n = Some Pending ∨ futures m !! n = Some Cancelled
     | Closing Leave | Finished => active_requests m !! n = None ∧ ∃ f, futures m !! n = Some f ∧ done f = true
     | _ => futures m !! n = Some Running ∧ is_Some (active_requests m !! n)
     end ∧ co_physical_attempt co <= 1 + cohort_retry_limit c + transport_error_retry_limit c) ∧
  (∀ m' n f, rtc network_step m m' → futures m !! n = Some f → done f = true → futures m' !! n = Some f).
Proof.
  intros Hr. destruct (reachable_exact c Hc _ _ _ m Hr) as [Ht HP]. split; [|split].
  - intros n [rq Hrq] Hn. destruct (tidy_queued c m Ht n Hn) as [_ Hq]. rewrite Hrq in Hq. destruct Hq as [(f & Hf & Hw) Hq]. split.
    + rewrite Hf. destruct f; try discriminate Hw; auto.
    + destruct (submitters m !! n) as [[]|]; [by left|right; by apply Hq|right; by apply Hq].
  - intros n co Hn. destruct (tidy_agrees c m Ht n co Hn) as [[_ (f & Hf & Hst)] _]. pose proof (counted_end c co (tidy_counted c m Ht n co Hn)) as (H1 & H2 & H3).
    split; [|lia]. destruct (co_position co) as [| | | | |[]| |]; cbn in Hst; try (destruct Hst as [-> ?]; done).
    + destruct Hst as (_ & Hw & _). rewrite Hf. destruct f; try discriminate Hw; auto.
    + destruct Hst as [Ha Hd]. eauto.
    + destruct Hst as [Ha Hd]. eauto.
  - intros m' n f Hr' Hf Hd.
    assert (tidy c m' ∧ futures m' !! n = Some f) as [_ H]; [|done].
    eapply (rtc_keeps network_step (λ x, tidy c x ∧ futures x !! n = Some f)); [|exact Hr'|by split].
    intros x y [Hx Hfx] Hxy. destruct (step_tidy _ _ _ c Hc x y Hx Hxy) as [Hy Hs]. split; [done|]. by apply Hs.
Qed.

(** One step of the drain callback. *)
Definition drain_step (m m' : manager) : Prop :=
  drain_start m = Some m' ∨ drain_take m = Some m' ∨ drain_leave m = Some m' ∨ drain_over m = Some m'.

(** A bound on the drain's remaining steps. *)
Definition drain_work (m : manager) : nat :=
  (4 * length (ingress m) + 3 * callbacks m +
   match drain m with Idle => 0 | Taking O => 2 | Taking (S _) => 5 | Drained => if decide (ingress m = []) then 1 else 4 end)%nat.

Lemma drain_step_less m m' : (callbacks m <= 1)%nat → drain_step m m' → (drain_work m' < drain_work m)%nat.
Proof.
  intros Hcb. unfold drain_step, drain_work, drain_start, drain_take, drain_leave, drain_over. intros [H|[H|[H|H]]].
  - destruct (drain m); try done. destruct (callbacks m); [done|]. injection H as <-. cbn. lia.
  - destruct (drain m) as [|k|]; try done. destruct (ingress m) as [|n rest] eqn:Hi; [done|]. destruct (k <? drain_batch)%nat; [|done].
    destruct (requests m !! n); [|done]. cbn zeta in H. injection H as <-. rewrite on_counter_eq. cbn. destruct k; lia.
  - destruct (drain m) as [|k|]; try done. destruct (_ || _) eqn:Hg; [|done]. injection H as <-. cbn. destruct (decide (ingress m = [])) as [->|Hne]; destruct k; cbn; try lia.
    apply orb_prop in Hg as [Hg|Hg]; [by apply Nat.eqb_eq in Hg|]. by apply bool_decide_eq_true in Hg.
  - destruct (drain m) as [| |]; try done. injection H as <-. case_bool_decide as Hi; cbn; destruct (decide (ingress m = [])); try done; lia.
Qed.

(** C35: no wake-up is lost.  Once no thread is inside [submit_request], the event loop's
    drains take every queued request after a number of steps linear in the queue: while the
    queue holds a request a drain can go on, and when none can, the queue is empty and
    every request ever submitted has its coroutine. *)
Theorem ingress_drains m : rtc network_step network_init m → submitters m = ∅ →
  (∀ k m', nsteps drain_step k m m' → (k <= 4 * length (ingress m) + 8)%nat) ∧
  (∀ m', rtc drain_step m m' → (∀ m'', ¬ drain_step m' m'') → ingress m' = [] ∧ ∀ n, is_Some (requests m' !! n) → is_Some (tasks m' !! n)).
Proof.
  intros Hr Hs. destruct (reachable_exact c Hc _ _ _ m Hr) as [Ht _].
  assert (∀ x y, tidy c x ∧ submitters x = ∅ → drain_step x y → tidy c y ∧ submitters y = ∅) as Hkeep.
  { intros x y [Hx Hsx] H. split; [by eapply (drains_tidy c Hc)|]. destruct H as [H|[H|[H|H]]].
    - unfold drain_start in H. destruct (drain x); try done. destruct (callbacks x); [done|]. by injection H as <-.
    - unfold drain_take in H. destruct (drain x); try done. destruct (ingress x); [done|]. destruct (_ <? _)%nat; [|done].
      destruct (requests x !! _); [|done]. cbn zeta in H. injection H as <-. by rewrite on_counter_eq.
    - unfold drain_leave in H. destruct (drain x); try done. destruct (_ || _); [|done]. by injection H as <-.
    - unfold drain_over in H. destruct (drain x); try done. injection H as <-. by case_bool_decide. }
  assert (∀ x, tidy c x → (callbacks x <= 1)%nat) as Hcb.
  { intros x Hx. destruct (tidy_wakeful c x Hx) as (W & _). destruct (drain x), (scheduled x); lia. }
  split.
  - intros k m' Hk. assert (k + drain_work m' <= drain_work m)%nat as Hle.
    { clear Hr. assert (tidy c m ∧ submitters m = ∅) as Hinv by done. clear Ht Hs. induction Hk as [|k x y z Hxy _ IH]; [lia|].
      pose proof (drain_step_less x y (Hcb x (proj1 Hinv)) Hxy). specialize (IH (Hkeep x y Hinv Hxy)). lia. }
    pose proof (Hcb m Ht). unfold drain_work in Hle at 2. destruct (drain m) as [|[]|]; [lia..|]. destruct (decide _); lia.
  - intros m' Hr' Hstuck. destruct (rtc_keeps drain_step (λ x, tidy c x ∧ submitters x = ∅) Hkeep m m' Hr' (conj Ht Hs)) as [Ht' Hs'].
    assert (ingress m' = []) as Hi.
    { destruct (ingress m') as [|n rest] eqn:Hi; [done|]. exfalso. destruct (tidy_wakeful c m' Ht') as (W1 & W2 & W3).
      destruct W2 as [Hsch|[i Hi']]; [by rewrite Hi| |by rewrite Hs' in Hi']. rewrite Hsch in W1.
      destruct (drain m') as [|k|] eqn:Hd.
      - destruct (callbacks m') as [|j] eqn:Hj; [lia|]. eapply (Hstuck _). left. unfold drain_start. by rewrite Hd, Hj.
      - destruct (decide (k < drain_batch)%nat) as [Hlt|Hge].
        + assert (is_Some (requests m' !! n)) as [rq Hrq].
          { assert (tasks m' !! n = None) as Htn.
            { destruct (tasks m' !! n) eqn:Hx; [|done]. destruct (tidy_agrees c m' Ht' _ _ Hx) as (_ & Hni & _). destruct Hni. rewrite Hi. left. }
            destruct (tidy_queued c m' Ht' n Htn) as [_ Hq]. destruct (requests m' !! n); [by eexists|]. destruct Hq as (_ & Hni & _). destruct Hni. rewrite Hi. left. }
          eapply (Hstuck _). right. left. unfold drain_take. rewrite Hd, Hi, Hrq. rewrite (proj2 (Nat.ltb_lt _ _) Hlt). done.
        + assert (k = drain_batch) as -> by (specialize (W3 k eq_refl); lia).
          eapply (Hstuck _). right. right. left. unfold drain_leave. rewrite Hd, Nat.eqb_refl. done.
      - eapply (Hstuck _). right. right. right. unfold drain_over. by rewrite Hd. }
    split; [done|]. intros n [rq Hrq]. destruct (tasks m' !! n) eqn:Hx; [by eexists|]. exfalso.
    destruct (tidy_queued c m' Ht' n Hx) as [_ Hq]. rewrite Hrq in Hq. destruct Hq as [_ Hq]. rewrite Hs', Hi in Hq.
    by apply not_elem_of_nil with (x := n), Hq.
Qed.

(** A request gets the fullest shard that is listed, not retiring and below its capacity,
    and the next search starts behind it; a new shard is created exactly when no listed one
    is usable, so a request never waits for a connection; and constructing a client is the
    only thing that can fail, leaving the pool as it was. *)
Theorem acquire_packs now e m :
  match _acquire_client c now e m with
  | (inr id, m') =>
      (usable c m id ∧ (∀ id', id' ∈ clients m → usable c m id' → load m id' <= load m id) ∧ load m' id = load m id + 1 ∧ clients m' = clients m ∧
       ∃ i, clients m !! i = Some id ∧ next_client_index m' = Nat.modulo (i + 1) (length (clients m))) ∨
      ((∀ id', id' ∈ clients m → ¬ usable c m id') ∧ id = next_shard_id m ∧ load m' id = 1 ∧ clients m' = clients m ++ [id] ∧ next_client_index m' = 0%nat)
  | (inl f, m') => m' = m ∧ e = Some f ∧ ∀ id', id' ∈ clients m → ¬ usable c m id'
  end.
Proof.
  unfold _acquire_client. pose proof (select_best c m) as Hsel. destruct (select_shard c m) as [[i id]|].
  - destruct Hsel as (Hi & Hu & Hbest). left. split; [done|]. split; [done|]. split; [|by eauto]. destruct Hu as (s & Hs & _).
    unfold load, on_shard. cbn. by rewrite lookup_alter_eq, Hs.
  - destruct e as [f|]; [done|]. cbn. right. split; [done|]. split; [done|]. split; [|done]. unfold load, on_shard. cbn. by rewrite lookup_alter_eq, lookup_insert_eq.
Qed.
End properties.

(** ** A run *)

Module network_run.
Inductive action :=
  | Submit (n : nat) (rq : NetworkRequest) | Put (n : nat) | Wake (n : nat) | Direct (n : nat) (rq : NetworkRequest) | Cancel (n : nat)
  | Start | Take | LeaveLoop | Over
  | Turn (n : nat) (e : event).

Definition no_codec : string → option string := λ _, None.
Definition w0 : surroundings := MkSurroundings 100 None None.
Definition configured : result NetworkConfig :=
  configure (λ _, None) (λ _, None) (ABool true) (AInt 2) ANone ANone None 2000000 ANone ANone ANone ANone false.
Definition c : NetworkConfig := match configured with Ok c => c | Err _ => MkConfig true 1 1 1 1 true 1 1 1 1 1 1 0 0 "" 1 end.

Definition act (a : action) (m : manager) : option manager :=
  match a with
  | Submit n rq => match requests m !! n with None => Some (submit n rq m) | _ => None end
  | Put n => match submitters m !! n with Some Putting => Some (put n m) | _ => None end
  | Wake n => match submitters m !! n with Some Waking => Some (wake n m) | _ => None end
  | Direct n rq => match requests m !! n with None => Some (submit_direct n rq m) | _ => None end
  | Cancel n => Some (cancel n m)
  | Start => drain_start m
  | Take => drain_take m
  | LeaveLoop => drain_leave m
  | Over => drain_over m
  | Turn n e => match drain m with Idle => resume no_codec no_codec no_codec c w0 n e m | _ => None end
  end.

Fixpoint acts (l : list action) (m : manager) : option manager :=
  match l with [] => Some m | a :: l => match act a m with Some m => acts l m | None => None end end.

Lemma act_step a m m' : act a m = Some m' → network_step no_codec no_codec no_codec c m m'.
Proof.
  destruct a as [n rq|n|n|n rq|n| | | | |n e]; cbn [act]; intros H.
  - destruct (requests m !! n) eqn:E; [done|]. injection H as <-. by constructor.
  - destruct (submitters m !! n) as [[]|] eqn:E; try done. injection H as <-. by constructor.
  - destruct (submitters m !! n) as [[]|] eqn:E; try done. injection H as <-. by constructor.
  - destruct (requests m !! n) eqn:E; [done|]. injection H as <-. by constructor.
  - injection H as <-. constructor.
  - apply step_drain; auto.
  - apply step_drain; auto.
  - apply step_drain; auto.
  - apply step_drain; auto.
  - destruct (drain m) eqn:E; try done. by eapply step_turn.
Qed.

Lemma acts_reach l m m' : acts l m = Some m' → rtc (network_step no_codec no_codec no_codec c) m m'.
Proof.
  revert m. induction l as [|a l IH]; intros m; cbn [acts]; [by intros [= <-]|]. destruct (act a m) as [m1|] eqn:Ha; [|done].
  intros H. eapply rtc_l; [by eapply act_step|by apply IH].
Qed.

Lemma valid : config_ok c.
Proof. by apply (configure_valid (λ _, None) (λ _, None) (ABool true) (AInt 2) ANone ANone None 2000000 ANone ANone ANone ANone false). Qed.

Definition rq : NetworkRequest := MkRequest (Some ("p", "a")) false false None 50.

(** Two requests go through the queue, share a shard, and one replays on another. *)
Definition script : list action :=
  [Submit 0 rq; Put 0; Wake 0; Submit 1 rq; Put 1; Start; Take; Wake 1; Take; LeaveLoop; Over;
   Turn 0 Return; Turn 1 Return; Turn 0 (Throw (Transport "reset"))].
Definition served : manager := default network_init (acts script network_init).

Lemma served_reached : rtc (network_step no_codec no_codec no_codec c) network_init served.
Proof. apply (acts_reach script). vm_compute. reflexivity. Qed.

(** The state once both are submitted, nothing taken yet. *)
Definition submitted : manager := default network_init (acts [Submit 0 rq; Put 0; Wake 0; Submit 1 rq; Put 1; Wake 1] network_init).

Lemma submitted_reached : rtc (network_step no_codec no_codec no_codec c) network_init submitted.
Proof. apply (acts_reach [Submit 0 rq; Put 0; Wake 0; Submit 1 rq; Put 1; Wake 1]). vm_compute. reflexivity. Qed.

(** The second request is cancelled: its outcome is decided and the first shard, retired and
    now free, is closed; a second cancellation ends the wait for that. *)
Definition script' : list action := script ++ [Turn 1 (Throw (Other "CancelledError")); Turn 1 (Throw (Other "CancelledError"))].
Definition interrupted : manager := default network_init (acts script' network_init).

Lemma interrupted_reached : rtc (network_step no_codec no_codec no_codec c) network_init interrupted.
Proof. apply (acts_reach script'). vm_compute. reflexivity. Qed.
End network_run.

Lemma shards_exact_witness : in_flight <$> shards network_run.served !! 1 = Some 1 ∧
  ∀ n co, tasks network_run.served !! n = Some co → holding (co_position co) = true →
    ∃ id s, co_shard co = Some id ∧ shards network_run.served !! id = Some s ∧ sh_closed s = false.
Proof.
  split; [by vm_compute|].
  destruct (shards_exact network_run.no_codec network_run.no_codec network_run.no_codec network_run.c network_run.valid network_run.served network_run.served_reached) as (_ & H & _).
  exact H.
Defined.

Lemma request_settles_once_witness : (co_physical_attempt <$> tasks network_run.interrupted !! 0%nat = Some 2) ∧
  ∀ m' f, rtc (network_step network_run.no_codec network_run.no_codec network_run.no_codec network_run.c) network_run.interrupted m' →
    futures network_run.interrupted !! 1%nat = Some f → done f = true → futures m' !! 1%nat = Some f.
Proof.
  split; [by vm_compute|]. intros m' f.
  destruct (request_settles_once network_run.no_codec network_run.no_codec network_run.no_codec network_run.c network_run.valid
    network_run.interrupted network_run.interrupted_reached) as (_ & _ & H). apply H.
Defined.

Lemma ingress_drains_witness : ingress network_run.submitted = [0; 1]%nat ∧
  ∀ k m', nsteps drain_step k network_run.submitted m' → (k <= 16)%nat.
Proof.
  split; [by vm_compute|].
  destruct (ingress_drains network_run.no_codec network_run.no_codec network_run.no_codec network_run.c network_run.valid
    network_run.submitted network_run.submitted_reached) as [H _]; [by vm_compute|exact H].
Defined.

(** A retired shard whose closing is cancelled or fails stays listed: the run above reaches a
    state where its client is closed, no coroutine will remove it, and it is in the list. *)
Lemma interrupted_close_leaks : ∃ m, rtc (network_step network_run.no_codec network_run.no_codec network_run.no_codec network_run.c) network_init m ∧
  clients m = [1; 2] ∧ (sh_closed <$> shards m !! 1) = Some true ∧ t_retired_shards (counts m) = 0 ∧
  map_Forall (λ _ co, closing (co_position co) = false) (tasks m).
Proof.
  exists network_run.interrupted. split; [apply network_run.interrupted_reached|]. split; [by vm_compute|]. split; [by vm_compute|]. split; [by vm_compute|].
  apply (bool_decide_unpack _). by vm_compute.
Qed.
