(* ===== verification/JobCreation.v ===== *)
(** Creating and deleting jobs ([storage/job_creation.py], [auto_job_creation.py],
    [job_batches.py], [job_identity.py], [job_cleanup.py], [job_producers.py], parts of
    [events.py] and [component_misalignment.py]).

    A job is a row of [jobs], its instance, its input directory on disk, and perhaps an
    idempotency key that names it.  Rows change inside transactions of the SQLite writer and
    roll back; directories and the process's arrival latches do not.  A call is a [cmd] over
    both, and reads from the state which of its file calls fail and what its transactions
    come to: committed, refused, lost at COMMIT, or committed while the waiting caller is
    interrupted. *)
From S2P Require Import Prelude Json JsonText Sha256 Topology Membership JobStore ComponentRows ComponentLife Sessions ThreadOverrides Interrupts SelectedWork SessionLife.

#[local] Open Scope Z_scope.

(** ** Tables *)

(** The columns of [jobs] only creation writes. *)
Record payload := Payload { parent_json : option string; created_at : string }.

(** A row of [job_events] with its [data_json], of an event creation writes: [created],
    [origin_changed] or [jobs_created].  The other events are those of [JobStore]. *)
Record trail_row := TrailRow { tr_addr : addr; tr_time : string; tr_event : string; tr_data : string }.

Record jdb := Jdb {
  rows : sdb;
  payloads : gmap addr payload;
  (** [job_sequences]. *)
  sequences : gmap string Z;
  (** [idempotency]: key text and job, by node and key hash. *)
  idempotency : gmap (string * string) (string * Z);
  (** [default_job_specs]: first job, number and signature, by node and spec key. *)
  specs : gmap (string * string) (Z * Z * string);
  trail : list trail_row
}.

Definition set_rows x t := Jdb x (payloads t) (sequences t) (idempotency t) (specs t) (trail t).
Definition set_payloads x t := Jdb (rows t) x (sequences t) (idempotency t) (specs t) (trail t).
Definition set_sequences x t := Jdb (rows t) (payloads t) x (idempotency t) (specs t) (trail t).
Definition set_idempotency x t := Jdb (rows t) (payloads t) (sequences t) x (specs t) (trail t).
Definition set_specs x t := Jdb (rows t) (payloads t) (sequences t) (idempotency t) x (trail t).
Definition set_trail x t := Jdb (rows t) (payloads t) (sequences t) (idempotency t) (specs t) x.

Definition base_of (t : jdb) : JobStore.db := jobs_db (rows t).
Definition on_base (f : JobStore.db → JobStore.db) (t : jdb) : jdb := set_rows (set_jobs_db (f (base_of t)) (rows t)) t.
Definition registered (t : jdb) (a : addr) : bool := bool_decide (is_Some (jobs (base_of t) !! a)).

(** A job as its creator describes it; [params] and [parent] are dictionaries. *)
Record job := Job {
  j_id : Z;
  j_node : string;
  j_params : json;
  j_parent : option dict;
  j_component : option key;
  j_kind : option string;
  j_created_at : string
}.
Definition j_addr (j : job) : addr := (j_node j, j_id j).
Definition as_created (j : job) : created_job := CreatedJob (j_node j) (j_component j) (default "" (j_kind j)).

(** [validate_job_id]. *)
Definition validate_job_id (n : Z) : result Z :=
  check! 1 <=? n orelse ValueError saying "job_id must be an integer >= 1" in Ok n.

(** Group values by node, nodes in order of first appearance: [by_node.setdefault]. *)
Fixpoint setdefault_append {A} (node : string) (x : A) (groups : list (string * list A)) : list (string * list A) :=
  match groups with
  | [] => [(node, [x])]
  | (n, xs) :: rest => if bool_decide (n = node) then (n, xs ++ [x]) :: rest else (n, xs) :: setdefault_append node x rest
  end.
Definition by_node {A} (node : A → string) (l : list A) : list (string * list A) :=
  foldl (λ groups x, setdefault_append (node x) x groups) [] l.

(** ** Parents and metadata ([job_producers.py], [job_creation.py]) *)

Definition opt_str (s : option string) : json := match s with Some s => JStr s | None => JNull end.
Definition json_key (c : option key) : json := JArr (JStr <$> default [] c).

(** [_job_parent_json]. *)
Definition _job_parent_json (j : job) : option string :=
  let parent := match j_component j with
                | Some c => Some (dict_set "_mwf_job_kind" (opt_str (j_kind j))
                                    (dict_set "_mwf_from_component" (JArr (JStr <$> c)) (default [] (j_parent j))))
                | None => j_parent j
                end in
  (λ p, dumps false ", " ": " (JObj p)) <$> parent.

Fixpoint dict_del (k : string) (d : dict) : dict :=
  match d with [] => [] | kv :: d => if bool_decide (kv.1 = k) then d else kv :: dict_del k d end.

(** [d.pop(k, d.pop(old, None))]: the default is evaluated first. *)
Definition pop_either (k old : string) (d : dict) : option json * dict :=
  let fallback := dict_get old d in
  let d := dict_del old d in
  (match dict_get k d with Some v => Some v | None => fallback end, dict_del k d).

Record metadata := Metadata {
  md_addr : addr;
  md_parent : json;
  md_component : option (list json);
  md_kind : json;
  md_created_at : string
}.

(** [read_job_metadata] of a registered job. *)
Definition decode_parent (raw : json) : json * option (list json) * json :=
  match raw with
  | JObj d =>
      let '(component, d) := pop_either "_mwf_from_component" "from_component" d in
      let '(kind, d) := pop_either "_mwf_job_kind" "job_kind" d in
      (if bool_decide (d = []) then JNull else JObj d,
       match component with Some (JArr l) => Some l | _ => None end, default JNull kind)
  | v => (v, None, JNull)
  end.

Definition read_job_metadata (t : jdb) (node : string) (n : Z) : result (option metadata) :=
  let! n := validate_job_id n in
  match jobs (base_of t) !! (node, n), payloads t !! (node, n) with
  | Some _, Some p =>
      let! raw := match parent_json p with
                  | None | Some "" => Ok JNull
                  | Some text => match loads text with Some v => Ok v | None => raise ValueError "Expecting value" end
                  end in
      let '(parent, component, kind) := decode_parent raw in
      Ok (Some (Metadata (node, n) parent component kind (created_at p)))
  | _, _ => Ok None
  end.

(** ** Events of creation ([events.py]) *)

(** [_decode_event_data]. *)
Definition _decode_event_data (raw : string) : option dict :=
  match loads (if String.eqb raw "" then "{}" else raw) with Some (JObj d) => Some d | _ => None end.

(** [_created_event_origin]. *)
Definition _created_event_origin (data : dict) : json :=
  JObj [("parent", default JNull (dict_get "parent" data));
        ("producer_component", match dict_get "producer_component" data with Some (JArr l) => JArr l | _ => JArr [] end);
        ("job_kind", default JNull (dict_get "job_kind" data))].

(** The latest decodable [created] event of a job. *)
Definition previous_created (t : jdb) (a : addr) : option dict :=
  last (omap (λ r, _decode_event_data (tr_data r)) (filter (λ r, tr_addr r = a ∧ tr_event r = "created") (trail t))).

(** The rows one created event adds; dictionaries compare without regard to order. *)
Definition created_rows (t : jdb) (r : trail_row) : list trail_row :=
  let current := _created_event_origin (default [] (_decode_event_data (tr_data r))) in
  match _created_event_origin <$> previous_created t (tr_addr r) with
  | Some previous =>
      if bool_decide (sort_keys previous = sort_keys current) then [r]
      else [TrailRow (tr_addr r) (tr_time r) "origin_changed"
              (dumps false "," ":" (JObj [("previous_origin", previous); ("current_origin", current)])); r]
  | None => [r]
  end.

(** [insert_job_created_events]: every row is compared with the events before the call. *)
Definition insert_job_created_events (rs : list (addr * (string * string))) (t : jdb) : jdb :=
  set_trail (trail t ++ (rs ≫= λ q, created_rows t (TrailRow q.1 q.2.1 "created" q.2.2))) t.

Definition created_event_data (j : job) : string :=
  dumps false "," ":" (JObj [("status", JStr QUEUED);
    ("parent", match j_parent j with Some d => JObj d | None => JNull end);
    ("producer_component", json_key (j_component j)); ("job_kind", opt_str (j_kind j))]).

(** ** Identity ([job_identity.py]) *)

(** [idempotency_key_hash]. *)
Definition idempotency_key_hash (k : string) : result string :=
  check! negb (bool_decide (strip k = "")) orelse ValueError saying "idempotency_key must be a non-empty string" in
  Ok (hexdigest (utf8 k)).

Definition optional {A B} (f : A → result B) (o : option A) : result (option B) :=
  match o with None => Ok None | Some x => let! y := f x in Ok (Some y) end.

(** [list_job_ids]. *)
Definition list_job_ids (t : jdb) (node : string) : list Z :=
  py_sorted (omap (λ q : addr * job_row, if bool_decide (q.1.1 = node) then Some q.1.2 else None) (map_to_list (jobs (base_of t)))).

(** [SELECT COALESCE(MAX(job_id), 0)]; job ids are positive. *)
Definition max_job_id (t : jdb) (node : string) : Z := foldr Z.max 0 (list_job_ids t node).

(** [next_job_id]. *)
Definition next_job_id (t : jdb) (node : string) : Z := default (max_job_id t node + 1) (sequences t !! node).

(** The idempotency row of a hash, joined with its job. *)
Definition live_key (t : jdb) (node hash : string) : option (string * Z) :=
  q ← idempotency t !! (node, hash); if registered t (node, q.2) then Some q else None.

(** What creation does with a key: the job it already names, unless another key has its hash. *)
Definition resolve_key (t : jdb) (node : string) (k : option string) (hash : option string) : result (option Z) :=
  match k, hash with
  | Some k, Some h =>
      match live_key t node h with
      | Some (text, n) =>
          check! bool_decide (text = k) orelse RuntimeError saying "idempotency hash collision" in Ok (Some n)
      | None => Ok None
      end
  | _, _ => Ok None
  end.

(** [record_idempotent_job]. *)
Definition record_idempotent_job (t : jdb) (node k : string) (n : Z) : result jdb :=
  let! n := validate_job_id n in
  let! h := idempotency_key_hash k in
  Ok (set_idempotency (<[(node, h) := (k, n)]> (idempotency t)) t).

(** [advance_job_sequence] and the same statement at the end of creation. *)
Definition raise_sequence (node : string) (n : Z) (t : jdb) : jdb :=
  set_sequences (<[node := match sequences t !! node with Some m => Z.max m n | None => n end]> (sequences t)) t.
Definition advance_job_sequence (t : jdb) (node : string) (n : Z) : result jdb :=
  let! node := validate_node_name node in
  let! n := validate_job_id n in Ok (raise_sequence node n t).

(** [rewind_job_sequence_to_available]. *)
Definition rewind_job_sequence_to_available (t : jdb) (node : string) : result (jdb * Z) :=
  let! node := validate_node_name node in
  let n := max_job_id t node + 1 in Ok (set_sequences (<[node := n]> (sequences t)) t, n).

(** [default_job_spec_key], [default_job_spec_current] and [write_default_job_spec];
    [json_signature] sorts keys. *)
Definition default_job_spec_key (start number : Z) : string := (dump_int start ++ ":" ++ dump_int number)%string.
Definition json_signature (v : json) : string := dumps false "," ":" (sort_keys v).
Definition default_job_spec_current (t : jdb) (node : string) (start number : Z) (params : json) : bool :=
  match specs t !! (node, default_job_spec_key start number) with
  | None => false
  | Some (s, n, signature) =>
      (s =? start) && (n =? number) && bool_decide (signature = json_signature params)
      && (Z.of_nat (length (filter (λ i, start <= i ∧ i < start + number) (list_job_ids t node))) =? number)
  end.
Definition write_default_job_spec (t : jdb) (node : string) (start number : Z) (params : json) : jdb :=
  set_specs (<[(node, default_job_spec_key start number) := (start, number, json_signature params)]> (specs t)) t.

(** ** Statements of creation *)

(** [INSERT INTO jobs], whose trigger makes the instance [instance]. *)
Definition insert_job (a : addr) (p : payload) (instance : string) (t : jdb) : result jdb :=
  let d := base_of t in
  check! negb (registered t a) orelse UserError saying "UNIQUE constraint failed: jobs.node_name, jobs.job_id" in
  check! bool_decide (instances d !! a = None) && valid_instance instance
         && forallb (λ q : addr * instance_row, negb (bool_decide (instance_id q.2 = instance))) (map_to_list (instances d))
    orelse UserError saying "UNIQUE constraint failed: job_instances" in
  let row := JobRow 0 QUEUED None None None None None None None None in
  Ok (set_payloads (<[a := p]> (payloads t))
       (on_base (λ d, set_instances (<[a := InstanceRow instance None None]> (instances d)) (set_jobs (<[a := row]> (jobs d)) d)) t)).

Definition insert_jobs (fresh : addr → string) (js : list job) (t : jdb) : result jdb :=
  rfold (λ t j, insert_job (j_addr j) (Payload (_job_parent_json j) (j_created_at j)) (fresh (j_addr j)) t) t js.

Definition record_producer (a : addr) (execution : option string) (t : jdb) : result jdb :=
  let! d := _record_job_producer (base_of t) a execution in Ok (on_base (λ _, d) t).
Definition record_producers (js : list (job * option string)) (t : jdb) : result jdb :=
  rfold (λ t q, record_producer (j_addr q.1) q.2 t) t js.

(** The new keys of created jobs; the plain INSERT refuses a key that has a row. *)
Definition insert_keys (ks : list ((string * string) * (string * Z))) (t : jdb) : result jdb :=
  let! m := insert_unique "idempotency.node_name, idempotency.key_hash" (idempotency t) ks in Ok (set_idempotency m t).
Definition upsert_keys (ks : list ((string * string) * (string * Z))) (t : jdb) : jdb :=
  set_idempotency (foldl (λ m q, <[q.1 := q.2]> m) (idempotency t) ks) t.

Definition queue_nodes (ns : list string) (t : jdb) : jdb :=
  on_base (λ d, set_nodes (foldl (λ m n, <[n := QUEUED]> m) (nodes d) ns) d) t.

(** ** Arrivals at receivers ([component_misalignment.py]) *)

(** What a process remembers of an arrival it recorded: process, shape, members, generation. *)
Definition latch : Type := Z * Z * (key * Z).

(** ** Files and transactions of a running call *)

(** What a submitted transaction comes to: committed; not begun; run but not committed; or
    committed while its caller was interrupted. *)
Inductive answer := Committed | Refused (e : exc) | Lost (e : exc) | Interrupted (e : exc).

Record store := Store {
  tables : jdb;
  (** Input directories of jobs, with the document of [input.json] once written. *)
  inputs : gmap addr (option json);
  (** [.mwf/staged-jobs]. *)
  staging : gmap string json;
  latches : gmap string latch;
  (** Whether the next file calls fail, and what the next transactions come to. *)
  file_faults : list (option exc);
  answers : list answer
}.

Definition set_tables x s := Store x (inputs s) (staging s) (latches s) (file_faults s) (answers s).
Definition set_inputs x s := Store (tables s) x (staging s) (latches s) (file_faults s) (answers s).
Definition set_staging x s := Store (tables s) (inputs s) x (latches s) (file_faults s) (answers s).
Definition set_latches x s := Store (tables s) (inputs s) (staging s) x (file_faults s) (answers s).
Definition set_file_faults x s := Store (tables s) (inputs s) (staging s) (latches s) x (answers s).
Definition set_answers x s := Store (tables s) (inputs s) (staging s) (latches s) (file_faults s) x.

Definition file_call : cmd store () := λ s,
  match file_faults s with
  | [] => (Ok (), s)
  | None :: rest => (Ok (), set_file_faults rest s)
  | Some e :: rest => (Err e, set_file_faults rest s)
  end.

Definition pure_files (f : store → result store) : cmd store () := λ s,
  match f s with Ok s => (Ok (), s) | Err e => (Err e, s) end.

(** [mkdir(exist_ok=False)], a write in mode ["x"], [os.replace] and [rmtree].  A removal that
    fails leaves the directory here; in the code it may have removed part of it, which nobody
    reads, since the directories removed are those of jobs that are not registered. *)
Definition mkdir (a : addr) : cmd store () :=
  do! _ := file_call in pure_files (λ s,
    match inputs s !! a with
    | Some _ => raise FileExistsError "File exists"
    | None => Ok (set_inputs (<[a := None]> (inputs s)) s)
    end).
Definition write_input (a : addr) (v : json) : cmd store () :=
  do! _ := file_call in pure_files (λ s,
    match inputs s !! a with
    | Some None => Ok (set_inputs (<[a := Some v]> (inputs s)) s)
    | Some (Some _) => raise FileExistsError "File exists"
    | None => raise FileNotFoundError "No such file or directory"
    end).
Definition stage (name : string) (v : json) : cmd store () :=
  do! _ := file_call in pure_files (λ s,
    match staging s !! name with
    | Some _ => raise FileExistsError "File exists"
    | None => Ok (set_staging (<[name := v]> (staging s)) s)
    end).
Definition replace_input (name : string) (a : addr) : cmd store () :=
  do! _ := file_call in pure_files (λ s,
    match staging s !! name, inputs s !! a with
    | Some v, Some _ => Ok (set_staging (delete name (staging s)) (set_inputs (<[a := Some v]> (inputs s)) s))
    | _, _ => raise FileNotFoundError "No such file or directory"
    end).
Definition rmtree (a : addr) : cmd store () :=
  do! _ := file_call in pure_files (λ s,
    match inputs s !! a with
    | Some _ => Ok (set_inputs (delete a (inputs s)) s)
    | None => raise FileNotFoundError "No such file or directory"
    end).
(** [ignore_errors=True], and a last [remove_if_exists]. *)
Definition rmtree_ignoring (a : addr) : cmd store () := catch (rmtree a) (λ _, ret ()).
Definition unstage (name : string) : cmd store () :=
  do! _ := file_call in pure_files (λ s, Ok (set_staging (delete name (staging s)) s)).
(** [notify_queue_change]. *)
Definition notify : cmd store () := file_call.

Fixpoint each {St A} (f : A → cmd St ()) (l : list A) : cmd St () :=
  match l with [] => ret () | x :: l => do! _ := f x in each f l end.

Definition read {A} (f : jdb → result A) : cmd store A := λ s, (f (tables s), s).
Definition sql (f : jdb → result jdb) : cmd store () := λ s,
  match f (tables s) with Ok t => (Ok (), set_tables t s) | Err e => (Err e, s) end.

(** The locals of a call that its transaction assigns outlive a rollback too. *)
Definition lift {L A} (m : cmd store A) : cmd (store * L) A := λ p, let '(r, s) := m p.1 in (r, (s, p.2)).
Definition assign {L} (f : L → L) : cmd (store * L) () := λ p, (Ok (), (p.1, f p.2)).
Definition local {L} : cmd (store * L) L := λ p, (Ok p.2, p).
Definition with_locals {L A} (l : L) (m : cmd (store * L) A) : cmd store A := λ s, let '(r, p) := m (s, l) in (r, p.1).

(** [submit_db_mutation], [submit_grouped_db_mutation] and [db_transaction], up to the
    moment the transaction is over. *)
Definition in_writer {L A} (op : cmd (store * L) A) : cmd (store * L) A := λ p,
  let '(s, l) := p in
  let ans := match answers s with a :: _ => a | [] => Committed end in
  let s := set_answers (tail (answers s)) s in
  match ans with
  | Refused e => (Err e, (s, l))
  | _ =>
      let '(r, (s', l')) := op (s, l) in
      let rolled := (set_tables (tables s) s', l') in
      match r, ans with
      | Err _, Interrupted e => (Err e, rolled)
      | Err e, _ => (Err e, rolled)
      | Ok _, Lost e => (Err e, rolled)
      | Ok _, Interrupted e => (Err e, (s', l'))
      | Ok a, _ => (Ok a, (s', l'))
      end
  end.

Section creation.
Context (component_snapshot_from_shape : string → result ComponentTopologySnapshot).
Context (shape_edges : string → result (list (string * string))).
Context (is_json : string → bool).
(** [cause_decoded env] decodes the causes of input arrivals and of preparations. *)
Context (env : surroundings).
Context (pid : Z).

Abbreviation cut := (λ s, let! sn := component_snapshot_from_shape s in Ok (components sn)).

(** [_decode_component_job_cause], for its errors. *)
Definition _decode_component_job_cause (d : cdb) (receiver : string) (c : cause_row) : result () :=
  match ca_path c, ca_job c, ca_instance c with
  | None, Some n, Some i =>
      check! (1 <=? n) && valid_instance i orelse RuntimeError saying "Damaged component misalignment receiving job" in
      let! _ := match ca_producer c with
                | None => Ok ()
                | Some x => let! owner := read_execution_owner cut (base d) x in
                            check! bool_decide (is_Some owner) orelse RuntimeError saying "Damaged component misalignment job producer" in Ok ()
                end in
      check! match instances (base d) !! (receiver, n) with
             | Some row => negb (bool_decide (instance_id row = i)) || bool_decide (created_by_execution_id row = ca_producer c)
             | None => true
             end
        orelse RuntimeError saying "Component misalignment job creator disagrees with its instance" in
      Ok ()
  | _, _, _ => raise RuntimeError "Damaged component misalignment receiving job"
  end.

(** [_decode_component_arrival_cause], for its errors. *)
Definition _decode_component_arrival_cause (d : cdb) (receiver : string) (alignment : Z) (c : cause_row) (s : state_snapshot) : result () :=
  check! bool_decide (ca_component_key c = encode_component_key (ss_members s)) && bool_decide (receiver ∈ ss_members s)
         && (alignment =? ss_alignment s) && bool_decide (is_Some (shapes (base d) !! ca_shape c))
    orelse RuntimeError saying "Damaged component misalignment cause" in
  let! sn := component_snapshot_from_shape (default "" (shapes (base d) !! ca_shape c)) in
  check! bool_decide (ss_members s ∈ components sn)
    orelse RuntimeError saying "Misalignment cause has a different historical receiver component" in
  match ca_preparation c, ca_arrival_kind c with
  | Some _, _ => cause_decoded env d receiver alignment c s
  | None, Some "managed-job" => _decode_component_job_cause d receiver c
  | None, Some "managed-input" => cause_decoded env d receiver alignment c s
  | None, _ => raise RuntimeError "Damaged component misalignment arrival"
  end.

Definition arrival_authority (s : sdb) : authority :=
  authority_of component_snapshot_from_shape shape_edges is_json
    (Surroundings (overrides env) (clear_permits env) (receiver env) _decode_component_arrival_cause) s "".

(** [_read_job_receiver_state]. *)
Definition _read_job_receiver_state (s : sdb) (node : string) (expected_shape : option string) : result (option (Z * state_snapshot)) :=
  let! members := read_active_component_for_node (memberships (core s)) node in
  match members with
  | None => Ok None
  | Some m =>
      let! _ := match expected_shape with
                | None => Ok ()
                | Some sh =>
                    let! sn := component_snapshot_from_shape sh in
                    check! bool_decide (m ∈ components sn) && bool_decide (node ∈ m)
                      orelse RuntimeError saying "Managed receiver membership requires fresh preparation" in Ok ()
                end in
      let! state := read_component_state_snapshot component_snapshot_from_shape (core s) m in
      match state with
      | None => raise RuntimeError "Managed receiver component state is missing"
      | Some st =>
          let! sn := component_snapshot_from_shape (ss_shape_json st) in
          check! bool_decide (m ∈ components sn) orelse RuntimeError saying "Managed receiver does not match its producing shape" in
          let! identity := _read_component_producing_identity component_snapshot_from_shape s m in
          Ok (Some (identity.1, st))
      end
  end.

(** [validate_job_receiver_shape]. *)
Definition validate_job_receiver_shape (t : jdb) (node : string) (expected_shape : option string) : result () :=
  let! node := validate_node_name node in
  let! _ := _read_job_receiver_state (rows t) node expected_shape in Ok ().

(** [_mark_component_arrival] with the latches of this process: the identity to latch when
    the transaction has committed. *)
Definition mark_arrival (node : string) (shape : Z) (st : state_snapshot) (cause : cause_row) : cmd store (option latch) := λ s,
  let identity : latch := (pid, shape, (ss_members st, ss_alignment st)) in
  let latched := bool_decide (latches s !! node = Some identity) in
  let r := rows (tables s) in
  match _mark_component_arrival (arrival_authority r) (core r) node st latched cause with
  | Ok (d, true) => (Ok (Some identity), set_tables (set_rows (set_core d r) (tables s)) s)
  | Ok (d, false) => (Ok None, set_latches (delete node (latches s)) (set_tables (set_rows (set_core d r) (tables s)) s))
  | Err e => (Err e, s)
  end.

(** [_mark_component_job_arrival]. *)
Definition _mark_component_job_arrival (node : string) (n : Z) (expected_shape : option string) : cmd store (option latch) :=
  do! instance := read (λ t, match instances (base_of t) !! (node, n) with
                             | Some i => Ok i
                             | None => raise RuntimeError "Managed job arrival requires its inserted instance"
                             end) in
  do! observed := read (λ t, _read_job_receiver_state (rows t) node expected_shape) in
  match observed with
  | None => ret None
  | Some (shape, st) =>
      do! _ := read (λ t, match created_by_execution_id instance with
                          | None => Ok ()
                          | Some x => let! owner := read_execution_owner cut (base_of t) x in
                                      check! bool_decide (is_Some owner)
                                        orelse RuntimeError saying "Managed job producer has no historical execution identity" in Ok ()
                          end) in
      mark_arrival node shape st
        (CauseRow (encode_component_key (ss_members st)) shape (created_by_execution_id instance) (Some "managed-job") None
           (Some n) (Some (instance_id instance)) None)
  end.

Definition remember (node : string) (arrival : option latch) : cmd store () := λ s,
  (Ok (), match arrival with Some l => set_latches (<[node := l]> (latches s)) s | None => s end).

(** The two refusals of a publication at [node]. *)
Definition refuse_publication (t : jdb) (node : string) (producer : option string) : result () :=
  let! _ := receiver env (core (rows t)) node in
  _refuse_interrupt_held_publication component_snapshot_from_shape (rows t) node producer.

Definition validate_producer (t : jdb) (j : job) (producer : option string) : result () :=
  _validate_job_producer component_snapshot_from_shape (rows t) (as_created j) producer.

(** ** Reserving ids ([job_identity.py]) *)

Definition reserve (node : string) (count : Z) (producer : option string) (t : jdb) : result (jdb * list Z) :=
  let! _ := refuse_publication t node producer in
  let start := next_job_id t node in
  Ok (set_sequences (<[node := start + count]> (sequences t)) t, (λ i, start + Z.of_nat i) <$> seq 0 (Z.to_nat count)).

Definition transactional {A} (f : jdb → result (jdb * A)) : cmd store A := λ s,
  match f (tables s) with Ok (t, a) => (Ok a, set_tables t s) | Err e => (Err e, s) end.

Definition reserve_job_ids (node : string) (count : Z) (producer : option string) : cmd store (list Z) :=
  do! _ := read (λ _, require (1 <=? count) ValueError "count must be a positive integer") in
  do! node := read (λ _, validate_node_name node) in
  with_locals () (in_writer (lift (transactional (reserve node count producer)))).

(** ** Inputs whose job was never registered ([job_batches.py]) *)

(** [_discard_unregistered_job_inputs]: deciding and removing happen under the write lock. *)
Definition discard_input (a : addr) : cmd store () :=
  do! live := read (λ t, Ok (registered t a)) in if live : bool then ret () else rmtree_ignoring a.
Definition _discard_unregistered_job_inputs (js : list job) : cmd store () :=
  each (λ g : string * list job, do! _ := file_call in each (λ j, discard_input (j_addr j)) g.2) (by_node j_node js).

(** [discard_prepared_jobs], alone and while [e] is being raised. *)
Definition discard_prepared_jobs (js : list job) : cmd store () := _discard_unregistered_job_inputs js.
Definition discarding {A} (js : list job) (e : exc) : cmd store A :=
  do! _ := catch (discard_prepared_jobs js) (λ _, ret ()) in throw e.

(** ** One job with a given id ([job_creation.py]) *)

(** The nonlocals [created_input] and [arrival_identity] of [_commit_single_job]. *)
Record single := Single { created_input : option addr; arrival_identity : option latch }.

Record creation := Creation {
  c_job : job;
  c_key : option string;
  c_producer : option string;
  c_shape : option string;
  (** The document to write, when the caller has not prepared it. *)
  c_input : option json;
  c_time : string
}.

(** The random instance identities the trigger draws, by address. *)
Definition instance_source : Type := addr → string.

(** [publish] of [_commit_single_job]. *)
Definition publish_single (q : creation) (hash : option string) (fresh : instance_source) : cmd (store * single) (bool * Z) :=
  let j := c_job q in
  let a := j_addr j in
  do! _ := lift (read (λ t, validate_producer t j (c_producer q))) in
  do! found := lift (read (λ t, resolve_key t (j_node j) (c_key q) hash)) in
  match found with
  | Some n => ret (false, n)
  | None =>
      do! _ := lift (read (λ t, require (negb (registered t a)) ValueError "Job already exists")) in
      do! _ := lift (read (λ t, refuse_publication t (j_node j) (c_producer q))) in
      do! _ := match c_input q with
               | None => ret ()
               | Some v =>
                   do! _ := lift (mkdir a) in
                   do! _ := assign (λ l, Single (Some a) (arrival_identity l)) in
                   lift (write_input a v)
               end in
      do! _ := lift (sql (insert_jobs fresh [j])) in
      do! _ := lift (sql (record_producers [(j, c_producer q)])) in
      do! arrival := lift (_mark_component_job_arrival (j_node j) (j_id j) (c_shape q)) in
      do! _ := assign (λ l, Single (created_input l) arrival) in
      do! _ := lift (sql (λ t, Ok (insert_job_created_events [(a, (c_time q, created_event_data j))] t))) in
      do! _ := lift (sql (λ t, match c_key q, hash with
                               | Some k, Some h => insert_keys [((j_node j, h), (k, j_id j))] t
                               | _, _ => Ok t
                               end)) in
      do! _ := lift (sql (λ t, Ok (raise_sequence (j_node j) (j_id j + 1) (queue_nodes [j_node j] t)))) in
      ret (true, j_id j)
  end.

(** [publish_with_cleanup]. *)
Definition publish_with_cleanup (q : creation) (hash : option string) (fresh : instance_source) : cmd (store * single) (bool * Z) :=
  catch (publish_single q hash fresh) (λ e,
    do! l := local in
    do! _ := match created_input l with
             | Some a => catch (do! _ := lift (rmtree a) in assign (λ l, Single None (arrival_identity l))) (λ _, ret ())
             | None => ret ()
             end in
    throw e).

(** [_commit_single_job]. *)
Definition _commit_single_job (q : creation) (fresh : instance_source) : cmd store (bool * Z) :=
  let j := c_job q in
  do! _ := read (λ _, validate_job_id (j_id j)) in
  do! hash := read (λ _, optional idempotency_key_hash (c_key q)) in
  with_locals (Single None None) (
    do! r := catch (in_writer (publish_with_cleanup q hash fresh)) (λ e,
               do! l := local in
               match created_input l with
               | Some _ => lift (discarding [j] e)
               | None => throw e
               end) in
    if r.1 : bool then
      do! l := local in
      do! _ := lift (remember (j_node j) (arrival_identity l)) in
      do! _ := lift notify in ret r
    else ret r).

(** [commit_prepared_job_resolving_idempotency]: the input is on disk already. *)
Definition commit_prepared_job_resolving_idempotency (j : job) (k producer shape : option string) (time : string)
    (fresh : instance_source) : cmd store (bool * Z) :=
  _commit_single_job (Creation j k producer shape None time) fresh.

(** [load_job]; a missing or unwritten input reads as the empty dictionary. *)
Definition text_of_json (v : json) : option string := match v with JStr s => Some s | _ => None end.
Definition load_job (node : string) (n : Z) : cmd store job := λ s,
  match read_job_metadata (tables s) node n with
  | Ok (Some m) =>
      (Ok (Job n node (default (JObj []) (mjoin (inputs s !! (node, n))))
             (match md_parent m with JObj d => Some d | _ => None end)
             (md_component m ≫= mapM text_of_json) (text_of_json (md_kind m)) (md_created_at m)), s)
  | Ok None => (Err (Exc FileNotFoundError "Job does not exist"), s)
  | Err e => (Err e, s)
  end.

(** [create_job]. *)
Definition create_job (j : job) (k producer shape : option string) (time : string) (fresh : instance_source) : cmd store job :=
  do! _ := read (λ _, validate_job_id (j_id j)) in
  do! _ := read (λ t, require (negb (registered t (j_addr j))) ValueError "Job already exists") in
  do! _ := read (λ t, validate_job_receiver_shape t (j_node j) shape) in
  do! r := _commit_single_job (Creation j k producer shape (Some (j_params j)) time) fresh in
  if r.1 : bool then ret j else load_job (j_node j) r.2.

(** ** Grouped jobs with allocated ids ([auto_job_creation.py]) *)

Record AutoJobPublish := AutoPublish {
  provisional : job;
  staging_input : string;
  idempotency_key : option string;
  key_hash : option string;
  event_time : string;
  parent_event : option (string * Z * dict);
  producer_execution_id : option string;
  expected_shape : option string
}.

(** [published_dir] and [arrival_identity] of the members, by position. *)
Record group := Group { published_dir : gmap nat addr; arrivals : gmap nat latch }.

Definition outcome : Type := result (bool * Z).

Definition node_of (p : AutoJobPublish) : string := j_node (provisional p).
(** The job a member gets with id [n]. *)
Definition allocated (p : AutoJobPublish) (n : Z) : job :=
  let j := provisional p in Job n (j_node j) (j_params j) (j_parent j) (j_component j) (j_kind j) (j_created_at j).

(** The first loop: members whose producer is refused have their outcome, the others wait
    by node. *)
Definition validate_members (t : jdb) (ps : list AutoJobPublish) : list (option outcome) * list (string * list (nat * AutoJobPublish)) :=
  foldl (λ acc q,
    match validate_producer t (provisional q.2) (producer_execution_id q.2) with
    | Err e => (<[q.1 := Some (Err e)]> acc.1, acc.2)
    | Ok _ => (acc.1, setdefault_append (node_of q.2) q acc.2)
    end) (replicate (length ps) None, []) (zip (seq 0 (length ps)) ps).

(** What the second loop has decided: outcomes, members that get a job, next ids. *)
Record allocation := Allocation {
  al_outcomes : list (option outcome);
  al_pending : list (nat * AutoJobPublish * Z);
  al_next : gmap string Z
}.

(** One member of [node]; [st] holds [next_job_id] and [resolved_by_hash]. *)
Definition allocate_member (t : jdb) (node : string) (acc : allocation * (Z * gmap string (string * Z))) (q : nat * AutoJobPublish)
  : result (allocation * (Z * gmap string (string * Z))) :=
  let '(al, (next, resolved)) := acc in
  let p := q.2 in
  let! found := match h ← key_hash p; resolved !! h with
                | Some (text, n) =>
                    check! bool_decide (Some text = idempotency_key p) orelse RuntimeError saying "idempotency hash collision" in
                    Ok (Some n)
                | None => Ok None
                end in
  match found with
  | Some n => Ok (Allocation (<[q.1 := Some (Ok (false, n))]> (al_outcomes al)) (al_pending al) (al_next al), (next, resolved))
  | None =>
      match refuse_publication t node (producer_execution_id p) with
      | Err e => Ok (Allocation (<[q.1 := Some (Err e)]> (al_outcomes al)) (al_pending al) (al_next al), (next, resolved))
      | Ok _ =>
          Ok (Allocation (<[q.1 := Some (Ok (true, next))]> (al_outcomes al)) (al_pending al ++ [(q.1, p, next)])
                (<[node := next + 1]> (al_next al)),
              (next + 1, match key_hash p with
                         | Some h => <[h := (default "None" (idempotency_key p), next)]> resolved
                         | None => resolved
                         end))
      end
  end.

(** The second loop at one node. *)
Definition existing_by_hash (t : jdb) (node : string) (ps : list (nat * AutoJobPublish)) : gmap string (string * Z) :=
  list_to_map (omap (λ q : nat * AutoJobPublish, h ← key_hash q.2; row ← live_key t node h; Some (h, row)) ps).
Definition allocate_node (t : jdb) (al : allocation) (g : string * list (nat * AutoJobPublish)) : result allocation :=
  let! r := rfold (allocate_member t g.1) (al, (next_job_id t g.1, existing_by_hash t g.1 g.2)) g.2 in
  Ok r.1.

Definition allocate (t : jdb) (ps : list AutoJobPublish) : result allocation :=
  let v := validate_members t ps in
  rfold (allocate_node t) (Allocation v.1 [] ∅) v.2.

(** The row of [jobs_created] a decided member adds to its parent's trail. *)
Definition parent_row (q : AutoJobPublish * option outcome) : option trail_row :=
  match parent_event q.1, q.2 with
  | Some (node, n, data), Some (Ok (_, job_id)) =>
      Some (TrailRow (node, n) (event_time q.1) "jobs_created"
        (dumps false "," ":" (JObj (dict_set "jobs" (JArr [JObj [("node", JStr (node_of q.1)); ("job_id", JInt job_id);
           ("params", j_params (provisional q.1))]]) data))))
  | _, _ => None
  end.

(** Each pending input gets its directory and is moved there. *)
Definition publish_input (q : nat * AutoJobPublish * Z) : cmd (store * group) () :=
  let a := (node_of q.1.2, q.2) in
  do! _ := lift (mkdir a) in
  do! _ := assign (λ l, Group (<[q.1.1 := a]> (published_dir l)) (arrivals l)) in
  lift (replace_input (staging_input q.1.2) a).

Definition mark_member (q : nat * AutoJobPublish * Z) : cmd (store * group) () :=
  do! arrival := lift (_mark_component_job_arrival (node_of q.1.2) q.2 (expected_shape q.1.2)) in
  assign (λ l, Group (published_dir l)
    match arrival with Some x => <[q.1.1 := x]> (arrivals l) | None => delete q.1.1 (arrivals l) end).

(** The keys of the created members. *)
Definition pending_keys (pend : list (nat * AutoJobPublish * Z)) : list ((string * string) * (string * Z)) :=
  omap (λ q : nat * AutoJobPublish * Z,
    h ← key_hash q.1.2; k ← idempotency_key q.1.2; Some ((node_of q.1.2, h), (k, q.2))) pend.

(** The body of its [try]. *)
Definition publish_group (ps : list AutoJobPublish) (al : allocation) (fresh : instance_source) : cmd (store * group) () :=
  let pend := al_pending al in
  let js := (λ q : nat * AutoJobPublish * Z, allocated q.1.2 q.2) <$> pend in
  do! _ := each publish_input pend in
  do! _ := (if bool_decide (pend = []) then ret () else
    do! _ := lift (sql (insert_jobs fresh js)) in
    do! _ := lift (sql (record_producers (zip js ((λ q, producer_execution_id q.1.2) <$> pend)))) in
    do! _ := each mark_member pend in
    do! _ := lift (sql (λ t, Ok (insert_job_created_events
               ((λ q : nat * AutoJobPublish * Z, ((node_of q.1.2, q.2), (event_time q.1.2, created_event_data (provisional q.1.2)))) <$> pend) t))) in
    do! _ := lift (sql (insert_keys (pending_keys pend))) in
    lift (sql (λ t, Ok (queue_nodes (map_to_list (al_next al)).*1 (set_sequences (al_next al ∪ sequences t) t))))) in
  do! _ := lift (read (λ _, require (forallb (λ o : option outcome, bool_decide (is_Some o)) (al_outcomes al))
                              RuntimeError "auto-job publish group lost an outcome")) in
  lift (sql (λ t, Ok (set_trail (trail t ++ omap parent_row (zip ps (al_outcomes al))) t))).

(** Its [except]: every published directory is removed, and forgotten once it is gone. *)
Definition remove_published (i : nat) : cmd (store * group) () :=
  do! l := local in
  match published_dir l !! i with
  | Some a => catch (do! _ := lift (rmtree a) in assign (λ l, Group (delete i (published_dir l)) (arrivals l))) (λ _, ret ())
  | None => ret ()
  end.

(** [_apply_auto_job_publishes]. *)
Definition _apply_auto_job_publishes (ps : list AutoJobPublish) (fresh : instance_source) : cmd (store * group) (list outcome) :=
  if bool_decide (ps = []) then ret [] else
  do! al := lift (read (λ t, allocate t ps)) in
  do! _ := catch (publish_group ps al fresh) (λ e,
             do! _ := each (λ q : nat * AutoJobPublish * Z, remove_published q.1.1) (al_pending al) in throw e) in
  lift (read (λ _, match mapM (M := option) id (al_outcomes al) with
                   | Some os => Ok os
                   | None => raise RuntimeError "auto-job publish group lost an outcome"
                   end)).

Record auto_request := AutoRequest {
  a_node : string;
  a_params : json;
  a_parent : option dict;
  a_component : option key;
  a_kind : option string;
  a_key : option string;
  a_parent_event : option (string * Z * dict);
  a_producer : option string;
  a_shape : option string;
  (** The names and times the call draws. *)
  a_staging : string;
  a_created_at : string;
  a_time : string
}.

Definition _parent_event (q : auto_request) : result (option (string * Z * dict)) :=
  optional (λ p : string * Z * dict,
    let! node := validate_node_name p.1.1 in
    let! n := validate_job_id p.1.2 in Ok (node, n, p.2)) (a_parent_event q).

(** [create_auto_id_job]; the writer applies it in one group with [before] and [after]. *)
Definition create_auto_id_job (q : auto_request) (before after : list AutoJobPublish) (fresh : instance_source) : cmd store job :=
  do! node := read (λ _, validate_node_name (a_node q)) in
  do! _ := read (λ t, validate_job_receiver_shape t node (a_shape q)) in
  let j := Job 1 node (a_params q) (a_parent q) (a_component q) (a_kind q) (a_created_at q) in
  do! _ := stage (a_staging q) (a_params q) in
  do! hash := read (λ _, optional idempotency_key_hash (a_key q)) in
  do! event := read (λ _, _parent_event q) in
  let p := AutoPublish j (a_staging q) (a_key q) hash (a_time q) event (a_producer q) (a_shape q) in
  let mine := length before in
  with_locals (Group ∅ ∅) (
    do! r := (λ s,
      let '(r, s) := catch (
        do! os := in_writer (_apply_auto_job_publishes (before ++ p :: after) fresh) in
        lift (read (λ _, default (raise RuntimeError "grouped SQLite mutation returned the wrong number of outcomes") (os !! mine)))) (λ e,
          do! l := local in
          match published_dir l !! mine with
          | Some a => lift (discarding [allocated p a.2] e)
          | None => throw e
          end) s in
      (do! _ := lift (unstage (a_staging q)) in λ s, (r, s)) s) in
    if r.1 : bool then
      do! l := local in
      do! _ := lift (remember node (arrivals l !! mine)) in
      do! _ := lift notify in
      ret (allocated p r.2)
    else lift (load_job node r.2)).

(** ** Prepared batches ([job_batches.py]) *)

Definition one_node (js : list job) : result string :=
  match js with
  | [] => raise ValueError "batch commit requires jobs for one node"
  | j :: _ =>
      check! forallb (λ j', bool_decide (j_node j' = j_node j)) js orelse ValueError saying "batch commit requires jobs for one node" in
      Ok (j_node j)
  end.

Definition distinct_ids (js : list job) : result (list Z) :=
  let! ids := rmap (λ j, validate_job_id (j_id j)) js in
  check! bool_decide (NoDup ids) orelse ValueError saying "batch contains duplicate job ids" in Ok ids.

(** [write_job_payload]; the local is [prepared_jobs]. *)
Definition write_job_payload (j : job) : cmd (store * list job) () :=
  do! _ := lift (mkdir (j_addr j)) in
  do! _ := assign (λ l, l ++ [j]) in
  lift (write_input (j_addr j) (j_params j)).

(** The pool runs every payload; the first failure is raised at the end. *)
Fixpoint all_payloads (js : list job) : cmd (store * list job) () :=
  match js with
  | [] => ret ()
  | j :: js => λ p,
      let '(r, p) := write_job_payload j p in
      let '(r', p) := all_payloads js p in
      (match r with Ok _ => r' | Err e => Err e end, p)
  end.

(** [prepare_jobs_batch]. *)
Definition prepare_jobs_batch (js : list job) : cmd store () :=
  if bool_decide (js = []) then ret () else
  do! _ := read (λ _, one_node js) in
  do! _ := read (λ _, distinct_ids js) in
  with_locals [] (
    catch (if (length js <? 8)%nat then each write_job_payload js else all_payloads js) (λ e,
      do! prepared := local in lift (discarding prepared e))).

(** The keys of a batch, no two with one hash. *)
Fixpoint batch_hashes (seen : list string) (ks : list (option string)) : result (list (option string)) :=
  match ks with
  | [] => Ok []
  | None :: ks => let! hs := batch_hashes seen ks in Ok (None :: hs)
  | Some k :: ks =>
      let! h := idempotency_key_hash k in
      check! negb (bool_decide (h ∈ seen)) orelse ValueError saying "batch contains duplicate idempotency keys" in
      let! hs := batch_hashes (h :: seen) ks in Ok (Some h :: hs)
  end.

(** A job of a batch with its key and the key's hash. *)
Definition entry : Type := job * (option string * option string).
Definition entry_keys (es : list entry) : list ((string * string) * (string * Z)) :=
  omap (λ e : entry, k ← e.2.1; h ← e.2.2; Some ((j_node e.1, h), (k, j_id e.1))) es.
Definition created_events (js : list job) (time : string) : list (addr * (string * string)) :=
  (λ j, (j_addr j, (time, created_event_data j))) <$> js.
Definition batch_keys (js : list job) (ks : option (list (option string))) : result (list (option string)) :=
  let ks := default (replicate (length js) None) ks in
  check! (length ks =? length js)%nat orelse ValueError saying "idempotency_keys must match jobs length" in Ok ks.

(** What both transactions do with the rows of a batch at [node]. *)
Definition insert_batch (node : string) (js : list job) (producer shape : option string) (time : string) (fresh : instance_source)
  : cmd store (option latch) :=
  do! _ := sql (insert_jobs fresh js) in
  do! _ := sql (record_producers ((λ j, (j, producer)) <$> js)) in
  do! arrival := _mark_component_job_arrival node (match js with j :: _ => j_id j | [] => 0 end) shape in
  do! _ := sql (λ t, Ok (insert_job_created_events (created_events js time) t)) in ret arrival.

(** [commit_prepared_jobs_batch]; the local is [arrival_identity]. *)
Definition commit_prepared_jobs_batch (js : list job) (ks : option (list (option string))) (producer shape : option string)
    (time : string) (fresh : instance_source) : cmd store (list job) :=
  if bool_decide (js = []) then ret [] else
  do! node := read (λ _, one_node js) in
  do! ks := read (λ _, batch_keys js ks) in
  do! ids := read (λ _, distinct_ids js) in
  do! _ := read (λ t, require (forallb (λ i, negb (registered t (node, i))) ids) ValueError "Job already exists") in
  do! hs := read (λ _, batch_hashes [] ks) in
  let es : list entry := zip js (zip ks hs) in
  with_locals (None : option latch) (
    do! _ := in_writer (
      do! _ := lift (read (λ t, rmap (λ j, validate_producer t j producer) js)) in
      do! _ := lift (read (λ t, refuse_publication t node producer)) in
      do! arrival := lift (insert_batch node js producer shape time fresh) in
      do! _ := assign (λ _, arrival) in
      do! _ := lift (sql (λ t, Ok (upsert_keys (entry_keys es) t))) in
      lift (sql (λ t, Ok (raise_sequence node (foldr Z.max 0 ids + 1) (queue_nodes [node] t))))) in
    do! arrival := local in
    do! _ := lift (remember node arrival) in
    do! _ := lift notify in ret js).

(** The entries whose key names no registered job yet, and what the others resolve to. *)
Fixpoint resolve_entries (t : jdb) (es : list entry) : result (list entry * list (string * Z)) :=
  match es with
  | [] => Ok ([], [])
  | e :: es =>
      let! found := resolve_key t (j_node e.1) e.2.1 e.2.2 in
      let! rest := resolve_entries t es in
      match found, e.2.1 with
      | Some n, Some k => Ok (rest.1, (k, n) :: rest.2)
      | _, _ => Ok (e :: rest.1, rest.2)
      end
  end.

(** [commit_prepared_jobs_batch_resolving_idempotency]. *)
Definition commit_prepared_jobs_batch_resolving_idempotency (js : list job) (ks : option (list (option string)))
    (producer shape : option string) (time : string) (fresh : instance_source) : cmd store (list job * list (string * Z)) :=
  if bool_decide (js = []) then ret ([], []) else
  do! ks := read (λ _, batch_keys js ks) in
  do! node := read (λ _, one_node js) in
  do! hs := read (λ _, batch_hashes [] ks) in
  let es : list entry := zip js (zip ks hs) in
  with_locals (None : option latch) (
    do! r := in_writer (
      do! _ := lift (read (λ t, rmap (λ j, validate_producer t j producer) js)) in
      do! r := lift (read (λ t, resolve_entries t es)) in
      let commit := r.1.*1 in
      do! ids := lift (read (λ _, distinct_ids commit)) in
      do! _ := lift (read (λ t, require (forallb (λ i, negb (registered t (node, i))) ids) ValueError "Job already exists")) in
      do! _ := (if bool_decide (commit = []) then ret () else
        do! _ := lift (read (λ t, refuse_publication t node producer)) in
        do! arrival := lift (insert_batch node commit producer shape time fresh) in
        do! _ := assign (λ _, arrival) in
        do! _ := lift (sql (insert_keys (entry_keys r.1))) in
        lift (sql (λ t, Ok (queue_nodes [node] t)))) in
      ret (commit, r.2)) in
    do! _ := (if bool_decide (r.1 = []) then ret () else
      do! arrival := local in
      do! _ := lift (remember node arrival) in lift notify) in
    ret r).

(** [create_jobs_batch]. *)
Definition create_jobs_batch (js : list job) (ks : option (list (option string))) (shape : option string) (time : string)
    (fresh : instance_source) : cmd store (list job) :=
  do! _ := read (λ t, match js with [] => Ok () | j :: _ => validate_job_receiver_shape t (j_node j) shape end) in
  do! _ := prepare_jobs_batch js in
  catch (commit_prepared_jobs_batch js ks None shape time fresh) (λ e, discarding js e).
End creation.

(** ** Deletion and reset ([job_cleanup.py]) *)

(** The rows of the jobs whose address [P] selects; instances go with their jobs. *)
Definition delete_where (P : addr → bool) (preserve_events : bool) (t : jdb) : jdb :=
  let keep {A} (m : gmap addr A) := filter (λ q : addr * A, P q.1 = false) m in
  let t := set_idempotency (filter (λ q : (string * string) * (string * Z), P (q.1.1, q.2.2) = false) (idempotency t)) t in
  let t := if preserve_events then t
           else on_base (λ d, set_events (filter (λ e, P (e_addr e) = false) (events d)) d)
                  (set_trail (filter (λ r, P (tr_addr r) = false) (trail t)) t) in
  set_payloads (keep (payloads t)) (on_base (λ d, set_jobs (keep (jobs d)) (set_instances (keep (instances d)) d)) t).

Definition at_node (node : string) (a : addr) : bool := bool_decide (a.1 = node).
Definition among (node : string) (ids : list Z) (a : addr) : bool := bool_decide (a.1 = node) && bool_decide (a.2 ∈ ids).

Definition delete_rows (f : jdb → jdb) : cmd store () := with_locals () (in_writer (lift (sql (λ t, Ok (f t))))).

(** The directories of a node, registered or not. *)
Definition rmtree_node (node : string) : cmd store () :=
  catch (do! _ := file_call in pure_files (λ s, Ok (set_inputs (filter (λ q : addr * option json, q.1.1 ≠ node) (inputs s)) s))) (λ _, ret ()).

(** What a deletion removes after its transaction, when it holds no lock any more: the
    directory of a job, or every directory of a node. *)
Inductive doomed := JobDir (a : addr) | JobsDir (node : string).
Definition remove_dir (d : doomed) : cmd store () :=
  match d with JobDir a => rmtree_ignoring a | JobsDir node => rmtree_node node end.

(** The transaction of [delete_job], with whether there was such a job and what is left to
    remove; and the whole call. *)
Definition delete_job_rows (node : string) (n : Z) (remove_payload preserve_events : bool) : cmd store (bool * list doomed) :=
  do! _ := read (λ _, validate_job_id n) in
  do! existed := with_locals () (in_writer (lift (
    do! existed := read (λ t, Ok (registered t (node, n))) in
    do! _ := sql (λ t, Ok (delete_where (λ a, bool_decide (a = (node, n))) preserve_events t)) in ret existed))) in
  ret (existed, if remove_payload then [JobDir (node, n)] else []).
Definition delete_job (node : string) (n : Z) (remove_payload preserve_events : bool) : cmd store bool :=
  do! r := delete_job_rows node n remove_payload preserve_events in
  do! _ := each remove_dir r.2 in ret r.1.

(** [delete_jobs_batch]. *)
Definition delete_jobs_rows (node : string) (ids : list Z) (remove_payload preserve_events : bool) : cmd store (Z * list doomed) :=
  do! node := read (λ _, validate_node_name node) in
  do! ids := read (λ _, rmap validate_job_id ids) in
  do! existing := read (λ t, Ok (list_job_ids t node)) in
  let targets := filter (λ i, i ∈ ids) existing in
  if bool_decide (targets = []) then ret (0, []) else
  let whole := bool_decide (targets = existing) in
  do! _ := delete_rows (delete_where (if whole then at_node node else among node targets) preserve_events) in
  ret (Z.of_nat (length targets),
       if remove_payload then ((λ i, JobDir (node, i)) <$> targets) ++ (if whole then [JobsDir node] else []) else []).
Definition delete_jobs_batch (node : string) (ids : list Z) (remove_payload preserve_events : bool) : cmd store Z :=
  do! r := delete_jobs_rows node ids remove_payload preserve_events in
  do! _ := each remove_dir r.2 in ret r.1.

(** [delete_node_jobs]. *)
Definition delete_node_rows (node : string) (remove_payload preserve_events : bool) : cmd store (Z * list doomed) :=
  do! ids := read (λ t, Ok (list_job_ids t node)) in
  do! _ := delete_rows (λ t,
    let t := delete_where (at_node node) preserve_events t in
    set_sequences (<[node := 1]> (sequences t))
      (set_specs (filter (λ q : (string * string) * (Z * Z * string), q.1.1 ≠ node) (specs t)) t)) in
  ret (Z.of_nat (length ids), if remove_payload then [JobsDir node] else []).
Definition delete_node_jobs (node : string) (remove_payload preserve_events : bool) : cmd store Z :=
  do! r := delete_node_rows node remove_payload preserve_events in
  do! _ := each remove_dir r.2 in ret r.1.

(** A job as a reset leaves it, and its event. *)
Definition reset_row (r : job_row) : job_row := JobRow (generation r) QUEUED None None None None None None None None.
Definition reset_where (P : addr → bool) (preserve_events : bool) (time : string) (t : jdb) : jdb :=
  let t := if preserve_events then t
           else on_base (λ d, set_events (filter (λ e, P (e_addr e) = false) (events d)) d)
                  (set_trail (filter (λ r, P (tr_addr r) = false) (trail t)) t) in
  on_base (λ d,
    let hit := filter (λ q : addr * job_row, P q.1 = true) (map_to_list (jobs d)) in
    set_events (events d ++ ((λ q : addr * job_row, Event q.1 time "queued" None None (Some (status q.2)) (Some QUEUED) None) <$> hit))
      (set_instances (map_imap (λ a i, Some (if P a then InstanceRow (instance_id i) None (created_by_execution_id i) else i)) (instances d))
        (set_jobs (map_imap (λ a r, Some (if P a then reset_row r else r)) (jobs d)) d))) t.

(** [reset_nodes_for_run_batch]. *)
Definition reset_nodes_for_run_batch (ns : list string) (mark_nodes_queued preserve_events : bool) (time : string) : cmd store Z :=
  do! ns := read (λ _, rmap validate_node_name ns) in
  if bool_decide (ns = []) then ret 0 else
  let P (a : addr) := bool_decide (a.1 ∈ ns) in
  do! count := with_locals () (in_writer (lift (
    do! count := read (λ t, Ok (Z.of_nat (length (filter (λ q : addr * job_row, P q.1 = true) (map_to_list (jobs (base_of t))))))) in
    do! _ := sql (λ t, Ok (reset_where P preserve_events time t)) in
    do! _ := sql (λ t, Ok (if mark_nodes_queued then queue_nodes ns t else t)) in ret count))) in
  do! _ := (if count =? 0 then ret () else notify) in ret count.

(** [reset_jobs_for_run_batch]. *)
Definition reset_jobs_for_run_batch (node : string) (ids : list Z) (preserve_events : bool) (time : string) : cmd store Z :=
  do! node := read (λ _, validate_node_name node) in
  do! ids := read (λ _, rmap validate_job_id ids) in
  if bool_decide (ids = []) then ret 0 else
  do! count := with_locals () (in_writer (lift (
    do! existing := read (λ t, Ok (filter (λ i, i ∈ ids) (list_job_ids t node))) in
    do! _ := (if bool_decide (existing = []) then ret () else sql (λ t, Ok (reset_where (among node existing) preserve_events time t))) in
    ret (Z.of_nat (length existing))))) in
  do! _ := (if count =? 0 then ret () else notify) in ret count.
