(* ===== verification/CreationSafety.v ===== *)
(** What creation and deletion keep of the job tables, the idempotency keys, the id
    sequences and the inputs on disk, over histories in which the steps of batches and the
    directory removals of deletions interleave, and that grouped creation hands out ids as if
    its callers came one after the other. *)
From S2P Require Import Prelude Json JsonText Sha256 Topology Membership JobStore ComponentRows ComponentLife Sessions ThreadOverrides Interrupts SelectedWork SessionLife JobCreation.

#[local] Open Scope Z_scope.

(** ** Calls that keep a condition on the state whatever happens in them *)

Definition stays {St A} (I : St → Prop) (m : cmd St A) : Prop := ∀ p, I p → I (m p).2.

Section stays.
Context {St : Type} (I : St → Prop).

Lemma stays_ret {A} (a : A) : stays I (ret a).
Proof. by intros p Hp. Qed.
Lemma stays_throw {A} e : stays I (throw (A:=A) e).
Proof. by intros p Hp. Qed.
Lemma stays_bind {A B} (m : cmd St A) (k : A → cmd St B) : stays I m → (∀ a, stays I (k a)) → stays I (cbind m k).
Proof. intros Hm Hk p Hp. specialize (Hm p Hp). unfold cbind. destruct (m p) as [[a|e] p']; [by apply Hk|done]. Qed.
Lemma stays_catch {A} (m : cmd St A) h : stays I m → (∀ e, stays I (h e)) → stays I (catch m h).
Proof. intros Hm Hh p Hp. specialize (Hm p Hp). unfold catch. destruct (m p) as [[a|e] p']; [done|by apply Hh]. Qed.
Lemma stays_each {A} (f : A → cmd St ()) l : (∀ x, x ∈ l → stays I (f x)) → stays I (each f l).
Proof.
  induction l as [|x l IH]; intros H; [apply stays_ret|]. apply stays_bind; [apply H, list_elem_of_here|].
  intros _. apply IH. intros y Hy. apply H. by apply list_elem_of_further.
Qed.
Lemma stays_if {A} (b : bool) (m m' : cmd St A) : stays I m → stays I m' → stays I (if b then m else m').
Proof. by destruct b. Qed.
End stays.

Lemma stays_lift {L A} (I : store → Prop) (J : store * L → Prop) (m : cmd store A) :
  stays I m → (∀ p, J p → I p.1) → (∀ s l s', J (s, l) → I s' → J (s', l)) → stays J (lift (L := L) m).
Proof.
  intros Hm H1 H2 [s l] Hp. unfold lift. cbn [fst snd]. specialize (Hm s (H1 _ Hp)). destruct (m s) as [r s']. cbn in *. by eapply H2.
Qed.

(** Conditions on the inputs alone. *)
Definition on_inputs (P : gmap addr (option json) → Prop) (s : store) : Prop := P (inputs s).

Lemma read_stays {A} I (f : jdb → result A) : stays I (read f).
Proof. by intros p Hp. Qed.

(** Calls that leave the inputs as they are. *)
Definition no_files {A} (m : cmd store A) : Prop := ∀ s, inputs (m s).2 = inputs s.

Lemma no_files_stays {A} (m : cmd store A) P : no_files m → stays (on_inputs P) m.
Proof. intros H s Hs. unfold on_inputs. by rewrite H. Qed.

Create HintDb creation.

Lemma read_no_files {A} (f : jdb → result A) : no_files (read f).
Proof. by intros s. Qed.
Lemma sql_no_files f : no_files (sql f).
Proof. intros s. unfold sql. by destruct (f (tables s)). Qed.
Lemma transactional_no_files {A} (f : jdb → result (jdb * A)) : no_files (transactional f).
Proof. intros s. unfold transactional. by destruct (f (tables s)) as [[]|]. Qed.
Lemma ret_no_files {A} (a : A) : no_files (ret a).
Proof. by intros s. Qed.
Lemma file_call_no_files : no_files file_call.
Proof. intros s. unfold file_call. by destruct (file_faults s) as [|[]]. Qed.
Lemma remember_no_files n a : no_files (remember n a).
Proof. intros s. by destruct a. Qed.
Lemma no_files_bind {A B} (m : cmd store A) (k : A → cmd store B) : no_files m → (∀ a, no_files (k a)) → no_files (cbind m k).
Proof.
  intros Hm Hk s. unfold cbind. specialize (Hm s). destruct (m s) as [[a|e] s'] eqn:E; cbn in *; [|done]. by rewrite Hk.
Qed.
#[export] Hint Resolve read_no_files sql_no_files transactional_no_files ret_no_files file_call_no_files remember_no_files no_files_bind : creation.

(** ** Statements *)

(** The columns creation is about are untouched. *)
Definition frame (t t' : jdb) : Prop :=
  jobs (base_of t') = jobs (base_of t) ∧ idempotency t' = idempotency t ∧ sequences t' = sequences t ∧ payloads t' = payloads t.

#[export] Instance frame_refl : Reflexive frame.
Proof. by intros t. Qed.
#[export] Instance frame_trans : Transitive frame.
Proof. intros t1 t2 t3 (A1 & B1 & C1 & D1) (A2 & B2 & C2 & D2). unfold frame. by rewrite A2, B2, C2, D2. Qed.

Definition queued_row : job_row := JobRow 0 QUEUED None None None None None None None None.

Lemma registered_true t a : registered t a = true ↔ is_Some (jobs (base_of t) !! a).
Proof. apply bool_decide_eq_true. Qed.
Lemma registered_false t a : registered t a = false ↔ jobs (base_of t) !! a = None.
Proof. unfold registered. rewrite bool_decide_eq_false. by rewrite <-eq_None_not_Some. Qed.
Lemma frame_registered t t' a : frame t t' → registered t' a = registered t a.
Proof. intros (H & _). unfold registered. by rewrite H. Qed.

Lemma insert_job_ok a p i t t' : insert_job a p i t = Ok t' →
  registered t a = false ∧ jobs (base_of t') = <[a := queued_row]> (jobs (base_of t)) ∧
  payloads t' = <[a := p]> (payloads t) ∧ idempotency t' = idempotency t ∧ sequences t' = sequences t.
Proof.
  unfold insert_job. intros H. apply rbind_ok in H as ([] & Hr & H). apply require_ok, negb_true_iff in Hr.
  apply rbind_ok in H as ([] & _ & H). injection H as <-. by repeat split.
Qed.

Lemma insert_jobs_ok fresh js t t' : insert_jobs fresh js t = Ok t' →
  NoDup (j_addr <$> js) ∧ (∀ a, a ∈ j_addr <$> js → registered t a = false) ∧
  (∀ a, jobs (base_of t') !! a = if decide (a ∈ j_addr <$> js) then Some queued_row else jobs (base_of t) !! a) ∧
  (∀ j, j ∈ js → payloads t' !! j_addr j = Some (Payload (_job_parent_json j) (j_created_at j))) ∧
  idempotency t' = idempotency t ∧ sequences t' = sequences t.
Proof.
  unfold insert_jobs. revert t. induction js as [|j js IH]; intros t; cbn [rfold fmap list_fmap].
  { intros [= <-]. split; [constructor|]. split; [by intros a ?%not_elem_of_nil|]. split; [intros a; by rewrite decide_False by apply not_elem_of_nil|].
    split; [by intros j ?%not_elem_of_nil|done]. }
  intros (t1 & H1 & H2)%rbind_ok. destruct (insert_job_ok _ _ _ _ _ H1) as (Hr & Hj & Hp & Hi & Hs).
  destruct (IH _ H2) as (Hnd & Hnew & Hjobs & Hpay & Hi' & Hs').
  assert (j_addr j ∉ j_addr <$> js) as Hnin.
  { intros Hin%Hnew. apply registered_false in Hin. rewrite Hj, lookup_insert_eq in Hin. discriminate. }
  split; [by constructor|]. split.
  { intros a [->|Hin]%elem_of_cons; [done|]. apply registered_false. apply Hnew, registered_false in Hin. rewrite Hj in Hin.
    by apply lookup_insert_None in Hin as [? _]. }
  split.
  { intros a. rewrite Hjobs, Hj. destruct (decide (a ∈ j_addr <$> js)) as [Hin|Hnot].
    - rewrite decide_True; [done|]. by apply list_elem_of_further.
    - destruct (decide (a = j_addr j)) as [->|Hne].
      + rewrite lookup_insert_eq, decide_True; [done|]. apply list_elem_of_here.
      + rewrite lookup_insert_ne by done. rewrite decide_False; [done|]. intros [?|?]%elem_of_cons; done. }
  split; [|by rewrite Hi', Hs'].
  intros j' [->|Hin]%elem_of_cons; [|by apply Hpay].
  enough (∀ js t1 t', rfold (λ t j, insert_job (j_addr j) (Payload (_job_parent_json j) (j_created_at j)) (fresh (j_addr j)) t) t1 js = Ok t' →
    j_addr j ∉ j_addr <$> js → payloads t' !! j_addr j = payloads t1 !! j_addr j) as Hkeep.
  { rewrite (Hkeep _ _ _ H2 Hnin), Hp. apply lookup_insert_eq. }
  clear. induction js as [|k js IH]; intros t1 t'; cbn [rfold fmap list_fmap]; [by intros [= <-]|].
  intros (t2 & H1 & H2)%rbind_ok Hnin. destruct (insert_job_ok _ _ _ _ _ H1) as (_ & _ & Hp & _).
  rewrite (IH _ _ H2); [|by intros ?; apply Hnin, list_elem_of_further]. rewrite Hp. apply lookup_insert_ne.
  intros Heq. apply Hnin. rewrite Heq. apply list_elem_of_here.
Qed.

Lemma record_producer_frame a e t t' : record_producer a e t = Ok t' → frame t t'.
Proof.
  unfold record_producer, _record_job_producer. destruct e as [e|].
  - destruct (instances (base_of t) !! a); [|intros H; by apply rbind_ok in H as (? & [=] & _)].
    intros H. apply rbind_ok in H as (d & Hd & H). apply rbind_ok in Hd as ([] & _ & Hd). injection Hd as <-. injection H as <-. by repeat split.
  - intros H. apply rbind_ok in H as (d & [= <-] & H). injection H as <-. by repeat split.
Qed.

Lemma record_producers_frame js t t' : record_producers js t = Ok t' → frame t t'.
Proof.
  apply (rfold_keeps (frame t)); [|done]. intros t1 x t2 _ H1 H2. etransitivity; [exact H1|by eapply record_producer_frame].
Qed.

Lemma created_events_frame rs t : frame t (insert_job_created_events rs t).
Proof. by repeat split. Qed.
Lemma queue_nodes_frame ns t : frame t (queue_nodes ns t).
Proof. by repeat split. Qed.

Lemma mark_arrival_base au d n st b c d' x : _mark_component_arrival au d n st b c = Ok (d', x) → base d' = base d ∧ memberships d' = memberships d.
Proof.
  unfold _mark_component_arrival. destruct (ss_misaligned st && b); [by intros [= <- _]|].
  intros H. apply rbind_ok in H as (found & _ & H). case_bool_decide; [by injection H as <- _|].
  destruct (existsb _ found); [by injection H as <- _|]. apply rbind_ok in H as (d1 & Hd1 & H).
  apply rbind_ok in H as (? & _ & H). injection H as <- _. cbn.
  destruct (ss_misaligned st); [by injection Hd1 as <-|]. destruct (states d !! _); [|discriminate].
  apply rbind_ok in Hd1 as ([] & _ & Hd1). by injection Hd1 as <-.
Qed.

Section calls.
Context (component_snapshot_from_shape : string → result ComponentTopologySnapshot).
Context (shape_edges : string → result (list (string * string))).
Context (is_json : string → bool).
Context (env : surroundings).
Context (pid : Z).

Abbreviation mark := (mark_arrival component_snapshot_from_shape shape_edges is_json env pid).
Abbreviation mark_job := (_mark_component_job_arrival component_snapshot_from_shape shape_edges is_json env pid).

(** Calls that write no files and leave the columns of creation alone. *)
Definition quiet {A} (m : cmd store A) : Prop := ∀ s, inputs (m s).2 = inputs s ∧ frame (tables s) (tables (m s).2).

Lemma quiet_bind {A B} (m : cmd store A) (k : A → cmd store B) : quiet m → (∀ a, quiet (k a)) → quiet (cbind m k).
Proof.
  intros Hm Hk s. unfold cbind. destruct (Hm s) as [H1 H2]. destruct (m s) as [[a|e] s'] eqn:E; cbn in *; [|done].
  destruct (Hk a s') as [H3 H4]. split; [by rewrite H3|by etransitivity].
Qed.
Lemma quiet_read {A} (f : jdb → result A) : quiet (read f).
Proof. by intros s. Qed.
Lemma quiet_ret {A} (a : A) : quiet (ret a).
Proof. by intros s. Qed.
Lemma quiet_no_files {A} (m : cmd store A) : quiet m → no_files m.
Proof. intros H s. apply H. Qed.

Lemma mark_quiet n shape st c : quiet (mark n shape st c).
Proof.
  intros s. unfold mark_arrival. destruct (_mark_component_arrival _ _ _ _ _ _) as [[d []]|e] eqn:E; cbn; (split; [done|]); [..|done];
    destruct (mark_arrival_base _ _ _ _ _ _ _ _ E) as [Hb _]; unfold frame, base_of, jobs_db; cbn; by rewrite Hb.
Qed.

Lemma mark_job_quiet n i shape : quiet (mark_job n i shape).
Proof.
  unfold _mark_component_job_arrival. apply quiet_bind; [apply quiet_read|]. intros inst. apply quiet_bind; [apply quiet_read|].
  intros [[sh st]|]; [|apply quiet_ret]. apply quiet_bind; [apply quiet_read|]. intros _. apply mark_quiet.
Qed.

Lemma remember_quiet n a : quiet (remember n a).
Proof. intros s. by destruct a. Qed.
Lemma file_call_quiet : quiet file_call.
Proof. intros s. unfold file_call. by destruct (file_faults s) as [|[]]. Qed.
Lemma notify_quiet : quiet notify.
Proof. exact file_call_quiet. Qed.

(** ** What a transaction leaves *)

(** Files are as the operation left them; the tables too when it committed. *)
Lemma in_writer_cases {L A} (op : cmd (store * L) A) s l r s' l' : in_writer op (s, l) = (r, (s', l')) →
  (inputs s' = inputs s ∧ tables s' = tables s ∧ l' = l ∧ is_ok r = false) ∨
  ∃ s1 s2 r', tables s1 = tables s ∧ inputs s1 = inputs s ∧ staging s1 = staging s ∧ file_faults s1 = file_faults s ∧ latches s1 = latches s ∧ op (s1, l) = (r', (s2, l')) ∧ inputs s' = inputs s2 ∧
    ((tables s' = tables s ∧ is_ok r = false) ∨ (s' = s2 ∧ ∃ a, r' = Ok a ∧ (r = Ok a ∨ is_ok r = false))).
Proof.
  unfold in_writer. set (s1 := set_answers _ s). destruct (match answers s with a :: _ => a | [] => Committed end) as [|e|e|e].
  2: { intros [= <- <- <-]. by left. }
  all: destruct (op (s1, l)) as [[a|e'] [s2 l2]] eqn:E; intros [= <- <- <-]; right; exists s1, s2; eexists; repeat (split; [done||exact E|]).
  all: first [by left|by right; eauto].
Qed.

Lemma lift_ok {L A} (m : cmd store A) (p : store * L) a p' : lift m p = (Ok a, p') → ∃ s', m p.1 = (Ok a, s') ∧ p' = (s', p.2).
Proof. unfold lift. destruct (m p.1) as [r s'] eqn:E. intros [= -> <-]. eauto. Qed.
Lemma sql_ok f s x s' : sql f s = (Ok x, s') → ∃ t, f (tables s) = Ok t ∧ s' = set_tables t s.
Proof. unfold sql. destruct (f (tables s)) as [t|e]; [|discriminate]. intros [= <-]. eauto. Qed.
Lemma cmd_read_ok {A} (f : jdb → result A) s a s' : read f s = (Ok a, s') → f (tables s) = Ok a ∧ s' = s.
Proof. unfold read. by intros [= -> <-]. Qed.
Lemma lift_sql_ok {L} f (p : store * L) x p' : lift (sql f) p = (Ok x, p') → ∃ t, f (tables p.1) = Ok t ∧ p' = (set_tables t p.1, p.2).
Proof. intros (s' & (t & Ht & ->)%sql_ok & ->)%lift_ok. eauto. Qed.
Lemma lift_read_ok {L A} (f : jdb → result A) (p : store * L) a p' : lift (read f) p = (Ok a, p') → f (tables p.1) = Ok a ∧ p' = p.
Proof. intros (s' & [Hf ->]%cmd_read_ok & ->)%lift_ok. by destruct p. Qed.
Lemma lift_quiet_ok {L A} (m : cmd store A) (p : store * L) a p' : quiet m → lift m p = (Ok a, p') →
  frame (tables p.1) (tables p'.1) ∧ inputs p'.1 = inputs p.1 ∧ p'.2 = p.2.
Proof. intros Hm (s' & H & ->)%lift_ok. specialize (Hm p.1). rewrite H in Hm. cbn in *. tauto. Qed.
Lemma assign_ok {L} (f : L → L) (p : store * L) x p' : assign f p = (Ok x, p') → p' = (p.1, f p.2).
Proof. by intros [= <-]. Qed.

(** New jobs of a committed transaction, with the keys it recorded for them. *)
Definition addrs (N : list entry) : list addr := j_addr ∘ fst <$> N.

Record grown (t t' : jdb) (N : list entry) : Prop := {
  grown_distinct : NoDup (addrs N);
  grown_new : ∀ a, a ∈ addrs N → registered t a = false;
  grown_jobs : ∀ a, jobs (base_of t') !! a = if decide (a ∈ addrs N) then Some queued_row else jobs (base_of t) !! a;
  grown_payloads : ∀ e, e ∈ N → payloads t' !! j_addr e.1 = Some (Payload (_job_parent_json e.1) (j_created_at e.1));
  grown_keys : ∀ k v, idempotency t' !! k = Some v ↔ idempotency t !! k = Some v ∨ (k, v) ∈ entry_keys N;
  grown_keys_new : ∀ k, k ∈ (entry_keys N).*1 → idempotency t !! k = None
}.

Lemma grown_nothing t : grown t t [].
Proof.
  split; try done.
  - apply NoDup_nil_2.
  - by intros a ?%not_elem_of_nil.
  - by intros e ?%not_elem_of_nil.
  - intros k v. split; [by left|]. by intros [?|?%not_elem_of_nil].
  - by intros k ?%not_elem_of_nil.
Qed.

Lemma grown_registered t t' N a : grown t t' N → registered t' a = true ↔ registered t a = true ∨ a ∈ addrs N.
Proof.
  intros H. rewrite !registered_true, (grown_jobs _ _ _ H). case_decide; [|tauto]. split; [by right|eauto].
Qed.

(** Inserted rows and keys with quiet steps between them. *)
Lemma grown_from N fresh t0 t1 t2 t3 t4 t5 :
  frame t0 t1 → insert_jobs fresh N.*1 t1 = Ok t2 → frame t2 t3 → insert_keys (entry_keys N) t3 = Ok t4 →
  (jobs (base_of t5) = jobs (base_of t4) ∧ idempotency t5 = idempotency t4 ∧ payloads t5 = payloads t4) → grown t0 t5 N.
Proof.
  intros (J1 & I1 & S1 & P1) H2 (J3 & I3 & S3 & P3) H4 (J5 & I5 & P5). destruct (insert_jobs_ok _ _ _ _ H2) as (Hnd & Hnew & Hj & Hp & Hi & _).
  unfold insert_keys in H4. apply rbind_ok in H4 as (m & Hm & H4). injection H4 as <-. apply insert_unique_ok in Hm as [Hm1 Hm2].
  rewrite I3, Hi, I1 in Hm1, Hm2.
  assert (addrs N = j_addr <$> N.*1) as Ha by (unfold addrs; by rewrite list_fmap_compose).
  split; rewrite ?Ha; try done.
  - intros a Hin%Hnew. apply registered_false. apply registered_false in Hin. by rewrite J1 in Hin.
  - intros a. rewrite J5. change (base_of (set_idempotency m t3)) with (base_of t3). by rewrite J3, Hj, J1.
  - intros e He. cbn in P5. rewrite P5. rewrite P3. apply Hp. apply list_elem_of_fmap. eauto.
  - intros k v. rewrite I5. cbn. apply Hm1.
Qed.

Lemma mkdir_cases a s r s' : mkdir a s = (r, s') → (is_ok r = false ∧ inputs s' = inputs s) ∨ (r = Ok tt ∧ inputs s !! a = None ∧ inputs s' = <[a := None]> (inputs s)).
Proof.
  unfold mkdir, cbind, file_call, pure_files. destruct (file_faults s) as [|[e|] rest]; cbn.
  all: first [destruct (inputs s !! a) eqn:Ea|idtac]; cbn; intros [= <- <-]; eauto.
Qed.
Lemma write_cases a v s r s' : write_input a v s = (r, s') →
  (is_ok r = false ∧ inputs s' = inputs s) ∨ (r = Ok tt ∧ inputs s !! a = Some None ∧ inputs s' = <[a := Some v]> (inputs s)).
Proof.
  unfold write_input, cbind, file_call, pure_files. destruct (file_faults s) as [|[e|] rest]; cbn.
  all: try (destruct (inputs s !! a) as [[?|]|] eqn:Ea); cbn; intros [= <- <-]; eauto.
Qed.
Lemma rmtree_cases a s r s' : rmtree a s = (r, s') → (is_ok r = false ∧ inputs s' = inputs s) ∨ (r = Ok tt ∧ inputs s' = delete a (inputs s)).
Proof.
  unfold rmtree, cbind, file_call, pure_files. destruct (file_faults s) as [|[e|] rest]; cbn.
  all: try (destruct (inputs s !! a) as [?|] eqn:Ea); cbn; intros [= <- <-]; eauto.
Qed.

Section single.
Context (q : creation) (hash : option string) (fresh : instance_source).
Let a : addr := j_addr (c_job q).
Abbreviation publish := (publish_single component_snapshot_from_shape shape_edges is_json env pid q hash fresh).
Hypothesis Hash : is_Some (c_key q) → is_Some hash.

Lemma publish_single_ok p b n p' : publish p = (Ok (b, n), p') →
  (b = false ∧ p' = p ∧ resolve_key (tables p.1) (j_node (c_job q)) (c_key q) hash = Ok (Some n)) ∨
  (b = true ∧ n = j_id (c_job q) ∧ resolve_key (tables p.1) (j_node (c_job q)) (c_key q) hash = Ok None ∧
   grown (tables p.1) (tables p'.1) [(c_job q, (c_key q, hash))] ∧
   sequences (tables p'.1) = sequences (raise_sequence (j_node (c_job q)) (n + 1) (tables p.1)) ∧
   match c_input q with
   | None => inputs p'.1 = inputs p.1
   | Some v => inputs p.1 !! a = None ∧ inputs p'.1 = <[a := Some v]> (inputs p.1)
   end).
Proof using Hash.
  unfold publish_single. intros H.
  apply cbind_ok in H as (x1 & p1 & [_ ->]%lift_read_ok & H). apply cbind_ok in H as (found & p2 & [Hf ->]%lift_read_ok & H).
  destruct found as [n'|]; [injection H as <- <- <-; by left|]. right.
  apply cbind_ok in H as (x2 & p2 & [_ ->]%lift_read_ok & H). apply cbind_ok in H as (x3 & p3 & [_ ->]%lift_read_ok & H).
  apply cbind_ok in H as (x4 & p4 & Hin & H).
  assert (tables p4.1 = tables p.1 ∧ match c_input q with
     | None => inputs p4.1 = inputs p.1 | Some v => inputs p.1 !! a = None ∧ inputs p4.1 = <[a := Some v]> (inputs p.1) end) as [Ht4 Hi4].
  { destruct (c_input q) as [v|]; [|by injection Hin as _ <-].
    apply cbind_ok in Hin as (y1 & q1 & (s1 & Hmk & ->)%lift_ok & Hin). apply cbind_ok in Hin as (y2 & q2 & ->%assign_ok & Hin).
    apply lift_ok in Hin as (s2 & Hw & ->). cbn [fst] in *. fold a in Hmk, Hw.
    unfold mkdir in Hmk. apply cbind_ok in Hmk as (z & s3 & Hc & Hmk). destruct (file_call_quiet p.1) as [Q1 Q2].
    rewrite Hc in Q1, Q2. cbn in Q1, Q2.
    assert (tables s3 = tables p.1) as Q3. { clear - Hc. unfold file_call in Hc. destruct (file_faults p.1) as [|[] ?]; try discriminate; by injection Hc as _ <-. }
    unfold pure_files in Hmk. destruct (inputs s3 !! a) eqn:Ea; [discriminate|]. injection Hmk as <- <-.
    unfold write_input in Hw. apply cbind_ok in Hw as (z' & s4 & Hc' & Hw). destruct (file_call_quiet (set_inputs (<[a:=None]> (inputs s3)) s3)) as [R1 _].
    rewrite Hc' in R1. cbn in R1.
    assert (tables s4 = tables s3) as R3. { clear - Hc'. unfold file_call in Hc'. destruct (file_faults _) as [|[] ?]; try discriminate; by injection Hc' as _ <-. }
    unfold pure_files in Hw. rewrite R1, lookup_insert_eq in Hw. injection Hw as <- <-. cbn. rewrite insert_insert_eq, R3, Q3. split; [done|]. rewrite <-Q1. done. }
  apply cbind_ok in H as (x5 & p5 & (t5 & H5 & ->)%lift_sql_ok & H). apply cbind_ok in H as (x6 & p6 & (t6 & H6 & ->)%lift_sql_ok & H).
  apply cbind_ok in H as (arr & p7 & (F7 & I7 & L7)%(lift_quiet_ok _ _ _ _ (mark_job_quiet _ _ _)) & H).
  apply cbind_ok in H as (x8 & p8 & ->%assign_ok & H). apply cbind_ok in H as (x9 & p9 & (t9 & H9 & ->)%lift_sql_ok & H).
  apply cbind_ok in H as (x10 & p10 & (t10 & H10 & ->)%lift_sql_ok & H). apply cbind_ok in H as (x11 & p11 & (t11 & H11 & ->)%lift_sql_ok & H).
  injection H as <- <- <-. injection H9 as <-. injection H11 as <-. cbn [fst snd tables set_tables inputs] in *.
  split; [done|]. split; [done|]. split; [exact Hf|]. apply record_producers_frame in H6.
  assert (frame t5 (insert_job_created_events [(a, (c_time q, created_event_data (c_job q)))] (tables p7.1))) as F by (etransitivity; [exact H6|]; etransitivity; [exact F7|apply created_events_frame]).
  assert (insert_keys (entry_keys [(c_job q, (c_key q, hash))]) (insert_job_created_events [(a, (c_time q, created_event_data (c_job q)))] (tables p7.1)) = Ok t10) as H10'.
  { destruct (c_key q) as [k|] eqn:Ek.
    - destruct hash as [h|]; [exact H10|]. destruct (Hash ltac:(eauto)); discriminate.
    - unfold insert_keys. cbn. injection H10 as <-. reflexivity. }
  split; [|split].
  - eapply (grown_from [(c_job q, (c_key q, hash))] fresh _ _ _ _ t10); [|exact H5|exact F|exact H10'|done]. by rewrite Ht4.
  - destruct F as (_ & _ & F & _). destruct (insert_jobs_ok _ _ _ _ H5) as (_ & _ & _ & _ & _ & S5).
    assert (sequences t10 = sequences (tables p.1)) as S.
    { unfold insert_keys in H10'. apply rbind_ok in H10' as (m & _ & H10'). injection H10' as <-. cbn. cbn in F. by rewrite F, S5, Ht4. }
    unfold raise_sequence. cbn. by rewrite S.
  - destruct (c_input q); [destruct Hi4 as [? Hi4]; split; [done|]|]; by rewrite I7, Hi4.
Qed.

(** The only directory a running creation may have made is the one it remembers. *)
Definition own (m : gmap addr (option json)) (p : store * single) : Prop :=
  (created_input p.2 = None ∧ inputs p.1 = m) ∨
  (created_input p.2 = Some a ∧ m !! a = None ∧ ∃ v, inputs p.1 = <[a := v]> m).

Lemma own_lift {A} m (c : cmd store A) : quiet c → stays (own m) (lift c).
Proof. intros Hc [s l] H. unfold lift, own in *. destruct (Hc s) as [Hi _]. cbn in *. destruct (c s) as [r s']. cbn in *. by rewrite Hi. Qed.
Lemma quiet_sql_own m f : stays (own m) (lift (sql f)).
Proof. intros [s l] H. unfold lift, own, sql in *. cbn in *. by destruct (f (tables s)). Qed.

Lemma make_input_own m v : stays (own m)
  (do! _ := lift (mkdir a) in do! _ := assign (λ l, Single (Some a) (arrival_identity l)) in lift (write_input a v)).
Proof.
  intros [s l] H. unfold cbind, lift. cbn. destruct (mkdir a s) as [r s1] eqn:E. cbn.
  destruct (mkdir_cases _ _ _ _ E) as [[Hr Hi]|(-> & Ha & Hi)].
  { destruct r; [discriminate|]. unfold own in *. cbn in *. by rewrite Hi. }
  destruct H as [[_ Hm]|(_ & Hm & w & Hw)]; cbn in *; [|rewrite Hw, lookup_insert_eq in Ha; discriminate]. subst m. cbn.
  destruct (write_input a v s1) as [r2 s2] eqn:E2. right. cbn. split; [done|]. split; [done|].
  destruct (write_cases _ _ _ _ _ E2) as [[_ H2]|(_ & _ & H2)]; rewrite H2, Hi; [eauto|]. rewrite insert_insert_eq. eauto.
Qed.

Lemma assign_arrival_own m x : stays (own m) (assign (λ l, Single (created_input l) x)).
Proof. intros [s l] H. exact H. Qed.

Lemma publish_single_own m : stays (own m) publish.
Proof.
  unfold publish_single. apply stays_bind; [apply own_lift, quiet_read|]. intros _. apply stays_bind; [apply own_lift, quiet_read|].
  intros [n|]; [apply stays_ret|]. apply stays_bind; [apply own_lift, quiet_read|]. intros _.
  apply stays_bind; [apply own_lift, quiet_read|]. intros _. apply stays_bind.
  { destruct (c_input q); [apply make_input_own|apply stays_ret]. }
  intros _. apply stays_bind; [apply quiet_sql_own|]. intros _. apply stays_bind; [apply quiet_sql_own|]. intros _.
  apply stays_bind; [apply own_lift, mark_job_quiet|]. intros x. apply stays_bind; [apply assign_arrival_own|]. intros _.
  apply stays_bind; [apply quiet_sql_own|]. intros _. apply stays_bind; [apply quiet_sql_own|]. intros _.
  apply stays_bind; [apply quiet_sql_own|]. intros _. apply stays_ret.
Qed.

Lemma publish_cleanup_own m : stays (own m) (publish_with_cleanup component_snapshot_from_shape shape_edges is_json env pid q hash fresh).
Proof.
  unfold publish_with_cleanup. apply stays_catch; [apply publish_single_own|]. intros e [s l] H. unfold cbind, local. cbn.
  destruct (created_input l) as [a'|] eqn:El; [|exact H]. unfold catch, cbind, lift. cbn.
  destruct H as [[? _]|(Hl & Hm & v & Hv)]; cbn in *; [congruence|]. assert (a' = a) as -> by congruence.
  destruct (rmtree a s) as [r s1] eqn:E. destruct (rmtree_cases _ _ _ _ E) as [[Hr Hi]|(-> & Hi)].
  - destruct r; [discriminate|]. cbn. right. cbn. rewrite Hi. eauto.
  - cbn. left. cbn. split; [done|]. rewrite Hi, Hv. by rewrite delete_insert_id.
Qed.

(** A whole creation with a given id: committed or not, whatever its caller is told. *)
Lemma publish_cleanup_ok p x p' :
  publish_with_cleanup component_snapshot_from_shape shape_edges is_json env pid q hash fresh p = (Ok x, p') → publish p = (Ok x, p').
Proof.
  unfold publish_with_cleanup, catch. destruct (publish p) as [[y|e] p1] eqn:E; [done|]. unfold cbind at 1. cbn [local].
  intros H. apply cbind_ok in H as (? & ? & _ & H). discriminate.
Qed.
End single.

(** ** Discarding *)

Lemma setdefault_elem {A} n (x : A) groups g y : g ∈ setdefault_append n x groups → y ∈ g.2 →
  (g.1 = n ∧ y = x) ∨ ∃ g', g' ∈ groups ∧ g'.1 = g.1 ∧ y ∈ g'.2.
Proof.
  induction groups as [|[n' xs] rest IH]; cbn [setdefault_append].
  - intros ->%list_elem_of_singleton. cbn. intros ->%list_elem_of_singleton. by left.
  - case_bool_decide as Hn; intros [->|Hg]%elem_of_cons; cbn.
    + intros [Hy| ->%list_elem_of_singleton]%elem_of_app; [|by left]. right. exists (n', xs). split; [apply list_elem_of_here|done].
    + intros Hy. right. exists g. split; [by apply list_elem_of_further|done].
    + intros Hy. right. exists (n', xs). split; [apply list_elem_of_here|done].
    + intros Hy. destruct (IH Hg Hy) as [?|(g' & Hg' & ?)]; [by left|]. right. exists g'. split; [by apply list_elem_of_further|done].
Qed.

Lemma by_node_elem {A} (f : A → string) l g y : g ∈ by_node f l → y ∈ g.2 → y ∈ l ∧ f y = g.1.
Proof.
  unfold by_node. revert g. induction l as [|x l IH] using rev_ind; intros g; [by intros ?%not_elem_of_nil|].
  rewrite foldl_app. cbn [foldl]. intros Hg Hy. destruct (setdefault_elem _ _ _ _ _ Hg Hy) as [[Hn ->]|(g' & Hg' & Hn & Hy')].
  - split; [|done]. apply elem_of_app. right. apply list_elem_of_here.
  - destruct (IH _ Hg' Hy') as [H1 H2]. split; [|congruence]. apply elem_of_app. by left.
Qed.

(** Registered jobs and everybody else's directories are left alone. *)
Definition discards (t : jdb) (m : gmap addr (option json)) (js : list job) (s : store) : Prop :=
  tables s = t ∧ ∀ b, registered t b = true ∨ b ∉ j_addr <$> js → inputs s !! b = m !! b.

Lemma file_call_tables s : tables (file_call s).2 = tables s.
Proof. unfold file_call. by destruct (file_faults s) as [|[]]. Qed.

Lemma rmtree_ignoring_cases b s : tables (rmtree_ignoring b s).2 = tables s ∧
  (inputs (rmtree_ignoring b s).2 = inputs s ∨ inputs (rmtree_ignoring b s).2 = delete b (inputs s)).
Proof.
  unfold rmtree_ignoring, catch. destruct (rmtree b s) as [r s1] eqn:E.
  assert (tables s1 = tables s) as Ht.
  { revert E. unfold rmtree, cbind, pure_files. pose proof (file_call_tables s). destruct (file_call s) as [[|] s2]; cbn in *; [|intros [= <- <-]; done].
    destruct (inputs s2 !! b); intros [= <- <-]; done. }
  destruct (rmtree_cases b s r s1 E) as [[_ Hi]|[_ Hi]].
  - destruct r; cbn; split; auto.
  - destruct r; cbn; split; auto.
Qed.

Lemma discard_stays js t m : stays (discards t m js) (discard_prepared_jobs js).
Proof.
  unfold discard_prepared_jobs, _discard_unregistered_job_inputs. apply stays_each. intros g Hg.
  apply stays_bind.
  { intros s [Ht Hs]. split; [by rewrite file_call_tables|]. by rewrite file_call_no_files. }
  intros _. apply stays_each. intros j Hj. destruct (by_node_elem _ _ _ _ Hg Hj) as [Hin _].
  intros s [Ht Hs]. unfold discard_input, cbind, read. cbn. destruct (registered (tables s) (j_addr j)) eqn:E; [done|].
  destruct (rmtree_ignoring_cases (j_addr j) s) as [H1 H2]. split; [by rewrite H1|]. intros b Hb.
  destruct H2 as [->| ->]; [by apply Hs|]. rewrite lookup_delete_ne; [by apply Hs|]. intros <-.
  destruct Hb as [Hb|Hb]; [congruence|]. apply Hb. apply list_elem_of_fmap. eauto.
Qed.

Lemma discarding_cases {A} js e s : (discarding (A := A) js e s).1 = Err e ∧ discards (tables s) (inputs s) js (discarding (A := A) js e s).2.
Proof.
  unfold discarding, cbind, catch, throw. pose proof (discard_stays js (tables s) (inputs s) s) as H.
  destruct (discard_prepared_jobs js s) as [[]s1]; cbn in *; split; try done; apply H; by split.
Qed.

(** ** What a whole creation comes to *)

(** Nothing was committed: the tables are as before, and so is every directory there was. *)
Definition kept (s s' : store) : Prop := tables s' = tables s ∧ ∀ b, is_Some (inputs s !! b) → inputs s' !! b = inputs s !! b.

(** Jobs were committed: their inputs are in place, other directories as before. *)
Record committed (s s' : store) (N : list entry) : Prop := {
  committed_rows : grown (tables s) (tables s') N;
  committed_keys : ∀ e, e ∈ N → optional idempotency_key_hash e.2.1 = Ok e.2.2;
  committed_ids : ∀ e, e ∈ N → 1 ≤ j_id e.1
}.

Abbreviation commit_single := (_commit_single_job component_snapshot_from_shape shape_edges is_json env pid).

Lemma optional_hash k h : optional idempotency_key_hash k = Ok h → is_Some k → is_Some h.
Proof. destruct k; [|by intros _ [? ?]]. cbn. intros (x & _ & [= <-])%rbind_ok _. eauto. Qed.

Lemma after_commit n x s : tables ((do! _ := remember n x in notify) s).2 = tables s ∧ inputs ((do! _ := remember n x in notify) s).2 = inputs s.
Proof.
  unfold cbind, remember. destruct x; cbn; rewrite ?file_call_tables; (split; [done|]); by rewrite file_call_no_files.
Qed.

Lemma commit_single_effect q fresh s r s' : commit_single q fresh s = (r, s') →
  let j := c_job q in
  (kept s s' ∧ ∀ x, r = Ok x → ∃ h, x.1 = false ∧ optional idempotency_key_hash (c_key q) = Ok h ∧ resolve_key (tables s) (j_node j) (c_key q) h = Ok (Some x.2)) ∨
  (∃ h, committed s s' [(j, (c_key q, h))] ∧ resolve_key (tables s) (j_node j) (c_key q) h = Ok None ∧ (∀ x, r = Ok x → x = (true, j_id j)) ∧
     sequences (tables s') = sequences (raise_sequence (j_node j) (j_id j + 1) (tables s)) ∧
     match c_input q with
     | None => inputs s' = inputs s
     | Some v => inputs s !! j_addr j = None ∧ inputs s' = <[j_addr j := Some v]> (inputs s)
     end).
Proof.
  intros H. cbn zeta. unfold _commit_single_job in H. unfold cbind at 1, read at 1 in H.
  destruct (validate_job_id (j_id (c_job q))) as [n|e] eqn:Hid; [|injection H as <- <-; left; by split].
  unfold cbind at 1, read at 1 in H. destruct (optional idempotency_key_hash (c_key q)) as [h|e] eqn:Hh; [|injection H as <- <-; left; by split].
  unfold with_locals in H. pose proof (optional_hash _ _ Hh) as Hsome.
  assert (1 ≤ j_id (c_job q)) as Hpos.
  { unfold validate_job_id in Hid. apply rbind_ok in Hid as ([] & Hid & _). apply require_ok in Hid. lia. }
  destruct (cbind _ _ _) as [r0 [s0 l0]] eqn:E in H. injection H as -> <-. cbn [fst].
  unfold cbind in E. destruct (catch _ _ _) as [r1 [s1 l1]] eqn:E1 in E.
  unfold catch in E1. destruct (in_writer _ _) as [r2 [s2 l2]] eqn:E2 in E1.
  pose proof (in_writer_cases _ _ _ _ _ _ E2) as Hc.
  assert (∀ sx, tables sx = tables s2 → inputs sx = inputs s2 → (∃ x, r2 = Ok x) → r1 = r2 ∧ s1 = s2 ∧ l1 = l2) as Hok.
  { intros ? _ _ [x ->]. injection E1 as <- <- <-. done. }
  destruct Hc as [(Hi & Ht & -> & Hr2)|(sa & sb & r' & Ta & Ia & Sa & Fa & La & Hop & Hi & Hc)].
  { destruct r2 as [|e]; [discriminate|]. cbn in E1. unfold cbind, local in E1. cbn in E1. injection E1 as <- <- <-. injection E as <- <- <-.
    left. split; [|by intros ? [=]]. split; [done|]. intros b _. by rewrite Hi. }
  pose proof (publish_cleanup_own q h fresh (inputs s) (sa, Single None None)) as Hown.
  rewrite Hop in Hown. specialize (Hown (or_introl (conj eq_refl Ia))). cbn [fst snd] in Hown.
  destruct Hc as [[Ht Hr]|(-> & [b n0] & -> & Hr)].
  - destruct r2 as [|e]; [discriminate|]. unfold cbind, local in E1. cbn in E1. left.
    assert (kept s s1 ∧ ∃ e', r1 = Err e') as [Hk [e' ->]].
    { destruct Hown as [[Hl Hm]|(Hl & Hm & v & Hv)]; cbn [fst snd] in *; rewrite Hl in E1.
      - injection E1 as <- <- <-. split; [|eauto]. split; [done|]. intros b _. by rewrite Hi, Hm.
      - unfold lift in E1. cbn in E1. destruct (discarding_cases (A := bool * Z) [c_job q] e s2) as [D1 [D2 D3]].
        destruct (discarding [c_job q] e s2) as [r3 s3]. cbn in *. injection E1 as <- <- <-. split; [|eauto]. split; [by rewrite D2|].
        intros b Hb. rewrite D3, Hi, Hv; [apply lookup_insert_ne; intros Heq; rewrite <-Heq, Hm in Hb; by destruct Hb|].
        right. intros ->%list_elem_of_singleton. rewrite Hm in Hb. by destruct Hb. }
    injection E as <- <- <-. split; [done|]. by intros ? [=].
  - destruct (publish_single_ok q h fresh Hsome _ _ _ _ (publish_cleanup_ok _ _ _ _ _ _ Hop)) as [(-> & Heq & Hres)|(-> & -> & Hres & Hg & Hs & Hin)].
    + injection Heq as -> ->. cbn [fst] in Hres. rewrite Ta in Hres. left.
      destruct Hr as [->|Hr]; [|destruct r2 as [|e]; [discriminate|]]; cbn in E1; [|unfold cbind, local in E1; cbn in E1]; injection E1 as <- <- <-;
        cbn in E; injection E as <- <- <-; (split; [split; [done|]; intros b _; by rewrite Ia|]); [|by intros ? [=]].
      intros x [= <-]. by exists h.
    + cbn [fst] in *. rewrite Ta in Hres, Hg, Hs. rewrite Ia in Hin. right. exists h.
      assert (tables s0 = tables sb ∧ inputs s0 = inputs sb ∧ ∀ x, r = Ok x → x = (true, j_id (c_job q))) as (T0 & I0 & R0).
      { destruct Hr as [->|Hr].
        - destruct (Hok sb eq_refl eq_refl ltac:(eauto)) as (-> & -> & ->). cbn [fst] in E.
          destruct (after_commit (j_node (c_job q)) (arrival_identity l2) sb) as [A1 A2].
          unfold local, lift in E. unfold cbind in A1, A2. cbn in *. destruct (notify _) as [[]sx]; cbn in *; injection E as <- <- <-; cbn in *; (split; [done|split; [done|]]);
            [by intros x [= <-]|by intros x [=]].
        - destruct r2 as [|e]; [discriminate|]. unfold cbind, local in E1. cbn in E1.
          assert (tables s1 = tables sb ∧ inputs s1 = inputs sb ∧ is_ok r1 = false) as (T1 & I1 & Hr1).
          { destruct Hown as [[Hl Hm]|(Hl & Hm & v & Hv)]; cbn [fst snd] in *; rewrite Hl in E1; [injection E1 as <- <- <-; done|].
            unfold lift in E1. cbn in E1. destruct (discarding_cases (A := bool * Z) [c_job q] e sb) as [D1 [D2 D3]].
            destruct (discarding [c_job q] e sb) as [r3 s3]. cbn in *. injection E1 as <- <- <-. rewrite D1. split; [done|]. split; [|done].
            apply map_eq. intros b. apply D3. destruct (decide (b = j_addr (c_job q))) as [->|Hne].
            - left. apply (grown_registered _ _ _ _ Hg). right. apply list_elem_of_here.
            - right. intros ->%list_elem_of_singleton. done. }
          destruct r1; [discriminate|]. injection E as <- <- <-. split; [done|split; [done|]]. by intros ? [=]. }
      split; [|split; [done|split; [done|]]].
      * split; [by rewrite T0| |]; intros e ->%list_elem_of_singleton; done.
      * rewrite T0, I0. done.
Qed.

(** ** Grouped allocation, one caller after the other *)

(** What a node's allocator knows: its next id and the keys it has bound in this group. *)
Definition allocator : Type := Z * gmap string Z.

Definition serve (t : jdb) (st : allocator) (p : AutoJobPublish) : outcome * allocator :=
  match (h ← key_hash p; match st.2 !! h with Some n => Some n | None => snd <$> live_key t (node_of p) h end) with
  | Some n => (Ok (false, n), st)
  | None =>
      match refuse_publication component_snapshot_from_shape env t (node_of p) (producer_execution_id p) with
      | Err e => (Err e, st)
      | Ok _ => (Ok (true, st.1), (st.1 + 1, match key_hash p with Some h => <[h := st.1]> st.2 | None => st.2 end))
      end
  end.

Definition allocator_at (t : jdb) (σ : gmap string allocator) (n : string) : allocator := default (next_job_id t n, ∅) (σ !! n).

(** The outcomes when every caller is served in its turn. *)
Fixpoint one_by_one (t : jdb) (σ : gmap string allocator) (ps : list AutoJobPublish) : list outcome :=
  match ps with
  | [] => []
  | p :: ps =>
      match validate_producer component_snapshot_from_shape t (provisional p) (producer_execution_id p) with
      | Err e => Err e :: one_by_one t σ ps
      | Ok _ => let r := serve t (allocator_at t σ (node_of p)) p in r.1 :: one_by_one t (<[node_of p := r.2]> σ) ps
      end
  end.

Definition member : Type := nat * AutoJobPublish.
Definition recorded (q : member) (o : outcome) (al : allocation) : allocation :=
  match o with
  | Ok (true, n) => Allocation (<[q.1 := Some o]> (al_outcomes al)) (al_pending al ++ [(q.1, q.2, n)]) (<[node_of q.2 := n + 1]> (al_next al))
  | _ => Allocation (<[q.1 := Some o]> (al_outcomes al)) (al_pending al) (al_next al)
  end.

Definition serve_next (t : jdb) (acc : allocation * allocator) (q : member) : allocation * allocator :=
  let r := serve t acc.2 q.2 in (recorded q r.1 acc.1, r.2).
Definition serve_group (t : jdb) (al : allocation) (g : string * list member) : allocation :=
  (foldl (serve_next t) (al, (next_job_id t g.1, ∅)) g.2).1.
Definition serve_turn (t : jdb) (acc : allocation * gmap string allocator) (q : member) : allocation * gmap string allocator :=
  let r := serve t (allocator_at t acc.2 (node_of q.2)) q.2 in (recorded q r.1 acc.1, <[node_of q.2 := r.2]> acc.2).

(** The code's loop at a node is [serve] in turn. *)
Definition agree (t : jdb) (n : string) (resolved : gmap string (string * Z)) (seen : gmap string Z) (h : string) : Prop :=
  snd <$> resolved !! h = match seen !! h with Some m => Some m | None => snd <$> live_key t n h end.

Lemma allocate_members t n l : ∀ al next resolved seen r, Forall (λ q : member, node_of q.2 = n) l →
  (∀ q h, q ∈ l → key_hash q.2 = Some h → agree t n resolved seen h) →
  rfold (allocate_member component_snapshot_from_shape env t n) (al, (next, resolved)) l = Ok r →
  r.1 = (foldl (serve_next t) (al, (next, seen)) l).1.
Proof.
  induction l as [|q l IH]; intros al next resolved seen r Hn Hag; cbn [rfold foldl]; [by intros [= <-]|].
  apply Forall_cons in Hn as [Hq Hn]. intros ([al1 [next1 res1]] & H1 & H2)%rbind_ok. unfold allocate_member in H1. cbn [fst snd] in H1.
  apply rbind_ok in H1 as (found & Hf & H1).
  assert (found = (h ← key_hash q.2; match seen !! h with Some m => Some m | None => snd <$> live_key t n h end)) as ->.
  { destruct (key_hash q.2) as [h|] eqn:Eh; cbn in *; [|by injection Hf]. specialize (Hag q h (list_elem_of_here _ _) Eh). unfold agree in Hag.
    rewrite <-Hag. destruct (resolved !! h) as [[text m]|]; cbn in *; [|by injection Hf]. apply rbind_ok in Hf as (? & _ & Hf). by injection Hf. }
  clear Hf. unfold serve_next at 2, serve. cbn [fst snd]. rewrite Hq.
  destruct (h ← key_hash q.2; _) as [m|] eqn:Em.
  { injection H1 as <- <- <-. apply (IH _ _ _ seen _ Hn) in H2; [exact H2|]. intros q' h Hq'. apply Hag. by apply list_elem_of_further. }
  destruct (refuse_publication _ _ _ _ _) as [[]|e]; injection H1 as <- <- <-.
  - unfold recorded. rewrite Hq. eapply (IH _ _ _ _ _ Hn); [|exact H2]. intros q' h Hq' Hh. specialize (Hag q' h (list_elem_of_further _ _ _ Hq') Hh).
    destruct (key_hash q.2) as [h'|]; [|exact Hag]. unfold agree in *. destruct (decide (h = h')) as [->|Hne];
      [by rewrite !lookup_insert_eq|by rewrite !lookup_insert_ne].
  - apply (IH _ _ _ seen _ Hn) in H2; [exact H2|]. intros q' h Hq'. apply Hag. by apply list_elem_of_further.
Qed.

Lemma existing_agrees t n l q h : q ∈ l → key_hash q.2 = Some h → agree t n (existing_by_hash t n l) ∅ h.
Proof.
  intros Hq Hh. unfold agree. rewrite lookup_empty. f_equal. unfold existing_by_hash.
  set (f := λ q : nat * AutoJobPublish, _). assert (∀ k v, (k, v) ∈ omap f l → live_key t n k = Some v) as Hsound.
  { intros k v (q' & _ & Hf)%list_elem_of_omap. unfold f in Hf. destruct (key_hash q'.2) as [h'|]; [|discriminate]. cbn in Hf.
    destruct (live_key t n h') eqn:E; [|discriminate]. by injection Hf as <- <-. }
  destruct (live_key t n h) as [v|] eqn:E.
  - destruct (list_to_map (omap f l) !! h) as [v'|] eqn:E'.
    + apply elem_of_list_to_map_2, Hsound in E'. congruence.
    + exfalso. apply not_elem_of_list_to_map_2 in E'. apply E'. apply list_elem_of_fmap. exists (h, v). split; [done|].
      apply list_elem_of_omap. exists q. split; [done|]. unfold f. rewrite Hh. cbn. by rewrite E.
  - destruct (list_to_map (omap f l) !! h) as [v'|] eqn:E'; [|done]. apply elem_of_list_to_map_2, Hsound in E'. congruence.
Qed.

Lemma allocate_node_served t al g al' : Forall (λ q : member, node_of q.2 = g.1) g.2 →
  allocate_node component_snapshot_from_shape env t al g = Ok al' → al' = serve_group t al g.
Proof.
  intros Hn. unfold allocate_node. intros (r & Hr & [= <-])%rbind_ok. eapply allocate_members; [done| |exact Hr].
  intros q h. apply existing_agrees.
Qed.

(** Two allocations are alike when only the order of their pending members differs. *)
Definition alike (al al' : allocation) : Prop :=
  al_outcomes al = al_outcomes al' ∧ al_next al = al_next al' ∧ al_pending al ≡ₚ al_pending al'.

#[local] Instance alike_equivalence : Equivalence alike.
Proof.
  split; [by intros al|intros al al' (A & B & C); by repeat split|].
  intros a1 a2 a3 (A1 & B1 & C1) (A2 & B2 & C2). unfold alike. rewrite A1, B1, C1. by repeat split.
Qed.

Lemma recorded_alike q o al al' : alike al al' → alike (recorded q o al) (recorded q o al').
Proof.
  intros (A & B & C). unfold recorded. destruct o as [[[] n]|e]; repeat split; cbn; rewrite ?A, ?B, ?C; done.
Qed.

Lemma recorded_commute q o q' o' al : q.1 ≠ q'.1 → node_of q.2 ≠ node_of q'.2 →
  alike (recorded q o (recorded q' o' al)) (recorded q' o' (recorded q o al)).
Proof.
  intros Hi Hn. unfold recorded. destruct o as [[[] n]|e], o' as [[[] n']|e']; cbn; repeat split; cbn; try done; try by rewrite list_insert_insert_ne.
  - rewrite insert_insert_ne; [done|congruence].
  - rewrite <-!app_assoc. apply Permutation_app_head, Permutation_app_comm.
Qed.

Definition apart (q : member) (l : list member) : Prop := ∀ q', q' ∈ l → q.1 ≠ q'.1 ∧ node_of q.2 ≠ node_of q'.2.

Lemma serve_all_alike t l : ∀ al al' st, alike al al' →
  alike (foldl (serve_next t) (al, st) l).1 (foldl (serve_next t) (al', st) l).1 ∧
  (foldl (serve_next t) (al, st) l).2 = (foldl (serve_next t) (al', st) l).2.
Proof.
  induction l as [|q l IH]; intros al al' st H; [done|]. cbn [foldl]. unfold serve_next at 2 4 6 8. cbn [fst snd].
  apply IH. by apply recorded_alike.
Qed.

Lemma serve_all_commute t q o l : ∀ al st, apart q l →
  alike (foldl (serve_next t) (recorded q o al, st) l).1 (recorded q o (foldl (serve_next t) (al, st) l).1) ∧
  (foldl (serve_next t) (recorded q o al, st) l).2 = (foldl (serve_next t) (al, st) l).2.
Proof.
  induction l as [|q' l IH]; intros al st H; [done|]. cbn [foldl]. unfold serve_next at 2 4 6 8. cbn [fst snd].
  destruct (H q' (list_elem_of_here _ _)) as [H1 H2].
  destruct (serve_all_alike t l (recorded q' (serve t st q'.2).1 (recorded q o al)) (recorded q o (recorded q' (serve t st q'.2).1 al)) (serve t st q'.2).2) as [A B].
  { apply recorded_commute; congruence. }
  destruct (IH (recorded q' (serve t st q'.2).1 al) (serve t st q'.2).2) as [C D]. { intros q'' Hq. apply H. by apply list_elem_of_further. }
  split; [by etransitivity|by rewrite B].
Qed.

Lemma serve_group_alike t al al' g : alike al al' → alike (serve_group t al g) (serve_group t al' g).
Proof. intros H. apply serve_all_alike, H. Qed.
Lemma serve_groups_alike t gs : ∀ al al', alike al al' → alike (foldl (serve_group t) al gs) (foldl (serve_group t) al' gs).
Proof. induction gs as [|g gs IH]; intros al al' H; [done|]. cbn [foldl]. apply IH. by apply serve_group_alike. Qed.
Lemma serve_groups_commute t q o gs : ∀ al, (∀ g, g ∈ gs → apart q g.2) →
  alike (foldl (serve_group t) (recorded q o al) gs) (recorded q o (foldl (serve_group t) al gs)).
Proof.
  induction gs as [|g gs IH]; intros al H; [done|]. cbn [foldl]. etransitivity; [|apply IH; intros g' Hg; apply H; by apply list_elem_of_further].
  apply serve_groups_alike. apply serve_all_commute. apply H, list_elem_of_here.
Qed.

(** The allocator of a node once its group has been served. *)
Fixpoint allocator_of (t : jdb) (n : string) (gs : list (string * list member)) : allocator :=
  match gs with
  | [] => (next_job_id t n, ∅)
  | g :: gs => if bool_decide (g.1 = n) then (foldl (serve_next t) (Allocation [] [] ∅, (next_job_id t n, ∅)) g.2).2 else allocator_of t n gs
  end.

Lemma serve_all_state t l : ∀ al al' st, (foldl (serve_next t) (al, st) l).2 = (foldl (serve_next t) (al', st) l).2.
Proof. induction l as [|q l IH]; intros al al' st; [done|]. cbn [foldl]. unfold serve_next at 2 4. cbn [fst snd]. apply IH. Qed.

(** Groups as [by_node] makes them. *)
Definition well_grouped (gs : list (string * list member)) : Prop :=
  NoDup gs.*1 ∧ Forall (λ g, Forall (λ q : member, node_of q.2 = g.1) g.2) gs.

Lemma setdefault_append_fst {A} n (x : A) gs m : m ∈ (setdefault_append n x gs).*1 ↔ m = n ∨ m ∈ gs.*1.
Proof.
  induction gs as [|[k xs] gs IH]; cbn [setdefault_append].
  - cbn. rewrite list_elem_of_singleton. split; [by left|]. by intros [?|?%not_elem_of_nil].
  - case_bool_decide as Hk; cbn; rewrite !elem_of_cons, ?IH; [subst; tauto|tauto].
Qed.

Lemma setdefault_well_grouped q gs : well_grouped gs → well_grouped (setdefault_append (node_of q.2) q gs).
Proof.
  intros [Hnd Hall]. induction gs as [|[k xs] gs IH]; cbn [setdefault_append].
  - split; cbn; [apply NoDup_singleton|]. repeat constructor.
  - cbn in Hnd. apply NoDup_cons in Hnd as [Hk Hnd]. apply Forall_cons in Hall as [Hxs Hall]. cbn in Hxs. case_bool_decide as Hn.
    + split; [by constructor|]. constructor; [|done]. cbn. apply Forall_app. split; [done|]. by repeat constructor.
    + destruct (IH Hnd Hall) as [I1 I2]. split; [|by constructor]. cbn. constructor; [|done].
      rewrite setdefault_append_fst. intros [?|?]; [congruence|done].
Qed.

Lemma serve_append t q gs : ∀ al, well_grouped gs → (∀ g q', g ∈ gs → q' ∈ g.2 → q.1 ≠ q'.1) →
  alike (foldl (serve_group t) al (setdefault_append (node_of q.2) q gs))
    (recorded q (serve t (allocator_of t (node_of q.2) gs) q.2).1 (foldl (serve_group t) al gs)).
Proof.
  induction gs as [|[k xs] gs IH]; intros al [Hnd Hall] Hi; cbn [setdefault_append allocator_of].
  - cbn [foldl]. unfold serve_group. cbn. done.
  - cbn in Hnd. apply NoDup_cons in Hnd as [Hk Hnd]. apply Forall_cons in Hall as [Hxs Hall]. cbn in Hxs. cbn [fst snd].
    case_bool_decide as Hn.
    + subst k. cbn [foldl]. unfold serve_group at 2. cbn [fst snd]. rewrite foldl_app. cbn [foldl].
      unfold serve_next at 1. cbn [fst snd]. rewrite (serve_all_state t xs al (Allocation [] [] ∅)).
      apply serve_groups_commute. intros g Hg q' Hq'. split; [apply (Hi g q'); [by apply list_elem_of_further|done]|].
      rewrite Forall_forall in Hall. specialize (Hall g Hg). rewrite Forall_forall in Hall. rewrite (Hall q' Hq'). intros Heq. apply Hk.
      rewrite Heq. apply list_elem_of_fmap. eauto.
    + cbn [foldl]. apply IH; [by split|]. intros g q' Hg. apply Hi. by apply list_elem_of_further.
Qed.

Lemma allocator_append t q gs n : well_grouped gs →
  allocator_of t n (setdefault_append (node_of q.2) q gs) =
  if bool_decide (node_of q.2 = n) then (serve t (allocator_of t n gs) q.2).2 else allocator_of t n gs.
Proof.
  induction gs as [|[k xs] gs IH]; intros [Hnd Hall]; cbn [setdefault_append allocator_of fst snd].
  - case_bool_decide; [|done]. done.
  - cbn in Hnd. apply NoDup_cons in Hnd as [Hk Hnd]. apply Forall_cons in Hall as [Hxs Hall].
    destruct (decide (k = node_of q.2)) as [->|Hn].
    + rewrite (bool_decide_eq_true_2 (node_of q.2 = node_of q.2)) by done. cbn [allocator_of fst snd]. case_bool_decide; [|done]. by rewrite foldl_app.
    + rewrite (bool_decide_eq_false_2 (k = node_of q.2)) by done. cbn [allocator_of fst snd]. destruct (decide (k = n)) as [->|Hm].
      * rewrite !(bool_decide_eq_true_2 (n = n)) by done. rewrite bool_decide_eq_false_2; [done|congruence].
      * rewrite !(bool_decide_eq_false_2 (k = n)) by done. by apply IH.
Qed.

Definition groups_of (V : list member) : list (string * list member) := foldl (λ gs q, setdefault_append (node_of q.2) q gs) [] V.

Lemma groups_elem V g q : g ∈ groups_of V → q ∈ g.2 → q ∈ V.
Proof.
  revert g. induction V as [|x V IH] using rev_ind; intros g; [by intros ?%not_elem_of_nil|]. unfold groups_of. rewrite foldl_app. cbn [foldl].
  intros Hg Hq. apply elem_of_app. destruct (setdefault_elem _ _ _ _ _ Hg Hq) as [[_ ->]|(g' & Hg' & _ & Hq')].
  - right. apply list_elem_of_here.
  - left. by eapply IH.
Qed.

Lemma groups_in_turn t al V : NoDup V.*1 → well_grouped (groups_of V) ∧
  alike (foldl (serve_group t) al (groups_of V)) (foldl (serve_turn t) (al, ∅) V).1 ∧
  ∀ n, allocator_of t n (groups_of V) = allocator_at t (foldl (serve_turn t) (al, ∅) V).2 n.
Proof.
  induction V as [|q V IH] using rev_ind; intros Hnd.
  - split; [split; [apply NoDup_nil_2|constructor]|]. split; [done|]. intros n. unfold allocator_at. cbn. by rewrite lookup_empty.
  - rewrite fmap_app in Hnd. apply NoDup_app in Hnd as (Hnd & Hq & _). destruct (IH Hnd) as (Hw & Hal & Hst).
    unfold groups_of. rewrite !foldl_app. cbn [foldl]. fold (groups_of V). split; [by apply setdefault_well_grouped|]. split.
    + etransitivity; [apply serve_append; [done|]|].
      * intros g q' Hg Hq' Heq. apply (Hq q.1); [|apply list_elem_of_here]. rewrite Heq. apply list_elem_of_fmap. exists q'. split; [done|by eapply groups_elem].
      * unfold serve_turn at 1. cbn [fst]. rewrite Hst. by apply recorded_alike.
    + intros n. rewrite allocator_append by done. unfold serve_turn at 1, allocator_at at 1. cbn [snd]. rewrite !Hst.
      case_bool_decide as Hn; [rewrite <-Hn; by rewrite lookup_insert_eq|by rewrite lookup_insert_ne].
Qed.

Definition validated (t : jdb) (q : member) : bool :=
  is_ok (validate_producer component_snapshot_from_shape t (provisional q.2) (producer_execution_id q.2)).

(** The first loop, its outcomes apart from its groups. *)
Definition refuse_one (t : jdb) (os : list (option outcome)) (q : member) : list (option outcome) :=
  match validate_producer component_snapshot_from_shape t (provisional q.2) (producer_execution_id q.2) with
  | Err e => <[q.1 := Some (Err e)]> os
  | Ok _ => os
  end.
Definition first_loop (t : jdb) (acc : list (option outcome) * list (string * list member)) (q : member) : list (option outcome) * list (string * list member) :=
  match validate_producer component_snapshot_from_shape t (provisional q.2) (producer_execution_id q.2) with
  | Err e => (<[q.1 := Some (Err e)]> acc.1, acc.2)
  | Ok _ => (acc.1, setdefault_append (node_of q.2) q acc.2)
  end.

Lemma validate_members_split t zs : ∀ os gs,
  foldl (first_loop t) (os, gs) zs = (foldl (refuse_one t) os zs,
    foldl (λ gs q, setdefault_append (node_of q.2) q gs) gs (filter (λ q, validated t q = true) zs)).
Proof.
  induction zs as [|q zs IH]; intros os gs; [done|]. cbn [foldl]. unfold first_loop at 2, refuse_one at 2. destruct (validate_producer _ _ _ _) eqn:E; cbn [fst snd].
  - rewrite filter_cons_True by (unfold validated; by rewrite E). apply IH.
  - rewrite filter_cons_False by (unfold validated; by rewrite E). apply IH.
Qed.

Lemma members_nodup {A} (l : list A) k : NoDup (zip (seq k (length l)) l).*1.
Proof. rewrite fst_zip by (rewrite length_seq; lia). apply NoDup_seq. Qed.

(** The allocation of a group, as its callers in turn get it. *)
Definition refused_at_start (t : jdb) (ps : list AutoJobPublish) : list (option outcome) := (validate_members component_snapshot_from_shape t ps).1.
Definition turns (t : jdb) (ps : list AutoJobPublish) : allocation * gmap string allocator :=
  foldl (serve_turn t) (Allocation (refused_at_start t ps) [] ∅, ∅) (filter (λ q, validated t q = true) (zip (seq 0 (length ps)) ps)).

Lemma allocate_in_turn t ps al : allocate component_snapshot_from_shape env t ps = Ok al → alike al (turns t ps).1.
Proof.
  unfold allocate, turns, refused_at_start.
  change (validate_members component_snapshot_from_shape t ps) with (foldl (first_loop t) (replicate (length ps) None, []) (zip (seq 0 (length ps)) ps)).
  rewrite validate_members_split. cbn [fst snd].
  set (V := filter _ (zip _ ps)). set (al0 := Allocation _ [] ∅). intros H.
  change (rfold (allocate_node component_snapshot_from_shape env t) al0 (groups_of V) = Ok al) in H.
  assert (NoDup V.*1) as Hnd.
  { unfold V. eapply sublist_NoDup; [apply (members_nodup ps 0)|]. apply fmap_sublist, sublist_filter. }
  destruct (groups_in_turn t al0 V Hnd) as ([_ Hall] & Hal & _). etransitivity; [|exact Hal].
  assert (al = foldl (serve_group t) al0 (groups_of V)) as ->; [|done]. revert Hall H. clear. generalize al0, (groups_of V).
  intros b gs. revert b. induction gs as [|g gs IH]; intros b; cbn [rfold foldl]; [by intros _ [= <-]|].
  intros Hall. apply Forall_cons in Hall as [Hg Hall]. intros (al1 & H1 & H2)%rbind_ok. apply (allocate_node_served _ _ _ _ Hg) in H1 as ->. by apply IH.
Qed.

Definition start_of (t : jdb) (p : AutoJobPublish) : option outcome :=
  match validate_producer component_snapshot_from_shape t (provisional p) (producer_execution_id p) with
  | Err e => Some (Err e) | Ok _ => None end.

Lemma refuse_all_lookup t ps : ∀ k os, length os = (k + length ps)%nat →
  let r := foldl (refuse_one t) os (zip (seq k (length ps)) ps) in
  length r = length os ∧ (∀ j, (j < k)%nat → r !! j = os !! j) ∧
  ∀ i p, ps !! i = Some p → r !! (k + i)%nat = match start_of t p with Some o => Some (Some o) | None => os !! (k + i)%nat end.
Proof.
  induction ps as [|p ps IH]; intros k os Hl; cbn [length seq zip zip_with foldl]; [by repeat split|].
  destruct (IH (S k) (refuse_one t os (k, p))) as (L & A & B).
  { unfold refuse_one. destruct (validate_producer _ _ _ _); rewrite ?length_insert, Hl; cbn; lia. }
  split; [|split].
  - rewrite L. unfold refuse_one. destruct (validate_producer _ _ _ _); by rewrite ?length_insert.
  - intros j Hj. rewrite A by lia. unfold refuse_one. cbn [fst snd]. destruct (validate_producer _ _ _ _); [done|]. by rewrite list_lookup_insert_ne by lia.
  - intros [|i] q Hq; cbn in Hq.
    + injection Hq as <-. rewrite A by lia. replace (k + 0)%nat with k by lia. unfold refuse_one, start_of. cbn [fst snd].
      destruct (validate_producer _ _ _ _); [done|]. rewrite list_lookup_insert_eq; [done|cbn in Hl; lia].
    + replace (k + S i)%nat with (S k + i)%nat by lia. rewrite (B i q Hq). destruct (start_of t q); [done|].
      unfold refuse_one. cbn [fst snd]. destruct (validate_producer _ _ _ _); [done|]. by rewrite list_lookup_insert_ne by lia.
Qed.

Lemma refused_at_start_lookup t ps : length (refused_at_start t ps) = length ps ∧
  ∀ i p, ps !! i = Some p → refused_at_start t ps !! i = Some (start_of t p).
Proof.
  unfold refused_at_start.
  change (validate_members component_snapshot_from_shape t ps) with (foldl (first_loop t) (replicate (length ps) None, []) (zip (seq 0 (length ps)) ps)).
  rewrite validate_members_split. cbn [fst]. destruct (refuse_all_lookup t ps 0 (replicate (length ps) None)) as (L & _ & B); [by rewrite length_replicate|].
  rewrite length_replicate in L. split; [done|]. intros i p Hp. specialize (B i p Hp). cbn [Nat.add] in B. rewrite B.
  destruct (start_of t p); [done|]. rewrite lookup_replicate_2; [done|]. by eapply lookup_lt_Some.
Qed.

Lemma recorded_outcomes q o al : al_outcomes (recorded q o al) = <[q.1 := Some o]> (al_outcomes al).
Proof. unfold recorded. by destruct o as [[[] n]|]. Qed.
Lemma recorded_pending q o al x : x ∈ al_pending (recorded q o al) ↔ x ∈ al_pending al ∨ ∃ n, o = Ok (true, n) ∧ x = (q.1, q.2, n).
Proof.
  unfold recorded. destruct o as [[[] n]|e]; cbn.
  - rewrite elem_of_app, list_elem_of_singleton. split; [intros [?| ->]; eauto|]. intros [?|(n' & [= <-] & ->)]; auto.
  - split; [by left|]. by intros [?|(n' & [=] & _)].
  - split; [by left|]. by intros [?|(n' & [=] & _)].
Qed.

Lemma turns_lookup t ps : ∀ k al σ, (∀ i p, ps !! i = Some p → al_outcomes al !! (k + i)%nat = Some (start_of t p)) →
  let r := foldl (serve_turn t) (al, σ) (filter (λ q, validated t q = true) (zip (seq k (length ps)) ps)) in
  length (al_outcomes r.1) = length (al_outcomes al) ∧ (∀ j, (j < k)%nat → al_outcomes r.1 !! j = al_outcomes al !! j) ∧
  (∀ i p, ps !! i = Some p → al_outcomes r.1 !! (k + i)%nat = Some (one_by_one t σ ps !! i)) ∧
  ∀ x, x ∈ al_pending r.1 ↔ x ∈ al_pending al ∨ ∃ i p n, ps !! i = Some p ∧ one_by_one t σ ps !! i = Some (Ok (true, n)) ∧ x = ((k + i)%nat, p, n).
Proof.
  induction ps as [|p ps IH]; intros k al σ Hal; cbn [length seq zip zip_with].
  { cbn. repeat split; try done; [by left|]. intros [?|(i & ? & ? & ? & _)]; done. }
  assert (al_outcomes al !! k = Some (start_of t p)) as Hk by (replace k with (k + 0)%nat at 1 by lia; by apply Hal).
  assert (Htail : ∀ i q, ps !! i = Some q → al_outcomes al !! (S k + i)%nat = Some (start_of t q)) by (intros i q Hq; replace (S k + i)%nat with (k + S i)%nat by lia; by apply Hal).
  cbn [one_by_one]. destruct (validate_producer component_snapshot_from_shape t (provisional p) (producer_execution_id p)) eqn:E.
  - rewrite filter_cons_True by (unfold validated; cbn; by rewrite E). cbn [foldl]. unfold serve_turn at 2 4 6 8. cbn [fst snd].
    set (o := (serve t (allocator_at t σ (node_of p)) p).1).
    destruct (IH (S k) (recorded (k, p) o al) (<[node_of p := (serve t (allocator_at t σ (node_of p)) p).2]> σ)) as (L & A & B & C).
    { intros i q Hq. rewrite recorded_outcomes. cbn [fst]. rewrite list_lookup_insert_ne by lia. by apply Htail. }
    rewrite recorded_outcomes, length_insert in L. split; [exact L|]. split; [|split].
    + intros j Hj. rewrite A by lia. rewrite recorded_outcomes. cbn [fst]. by rewrite list_lookup_insert_ne by lia.
    + intros [|i] q Hq; cbn in Hq |- *.
      * injection Hq as <-. replace (k + 0)%nat with k by lia. rewrite A by lia. rewrite recorded_outcomes. cbn [fst].
        rewrite list_lookup_insert_eq; [done|]. by eapply lookup_lt_Some.
      * replace (k + S i)%nat with (S k + i)%nat by lia. by apply (B i q).
    + intros x. rewrite C, recorded_pending. cbn [fst snd]. split.
      * intros [[?|(n & Ho & ->)]|(i & q & n & Hq & Ho & ->)]; [by left| |].
        -- right. exists 0%nat, p, n. split; [done|]. split; [cbn; by f_equal|]. f_equal. f_equal. lia.
        -- right. exists (S i), q, n. split; [done|]. split; [done|]. f_equal. f_equal. lia.
      * intros [?|([|i] & q & n & Hq & Ho & ->)]; [by left; left| |].
        -- left. right. exists n. cbn in Hq, Ho. injection Hq as <-. injection Ho as Ho. split; [done|]. f_equal. f_equal. lia.
        -- right. exists i, q, n. split; [done|]. split; [done|]. f_equal. f_equal. lia.
  - rewrite filter_cons_False by (unfold validated; cbn; by rewrite E).
    destruct (IH (S k) al σ Htail) as (L & A & B & C). split; [exact L|]. split; [intros j Hj; apply A; lia|]. split.
    + intros [|i] q Hq; cbn in Hq |- *.
      * injection Hq as <-. replace (k + 0)%nat with k by lia. rewrite A by lia. rewrite Hk. unfold start_of. by rewrite E.
      * replace (k + S i)%nat with (S k + i)%nat by lia. by apply (B i q).
    + intros x. rewrite C. split; (intros [?|(i & q & n & Hq & Ho & ->)]; [by left|]).
      * right. exists (S i), q, n. split; [done|]. split; [done|]. f_equal. f_equal. lia.
      * destruct i as [|i]; cbn in Hq, Ho; [discriminate|]. right. exists i, q, n. split; [done|]. split; [done|]. f_equal. f_equal. lia.
Qed.

(** Keys bound in the group had no registered job before it. *)
Definition fresh_keys (t : jdb) (σ : gmap string allocator) : Prop :=
  ∀ n h m, (allocator_at t σ n).2 !! h = Some m → live_key t n h = None.

Lemma allocator_at_insert t σ n st m : allocator_at t (<[n := st]> σ) m = if decide (m = n) then st else allocator_at t σ m.
Proof. unfold allocator_at. case_decide; [subst; by rewrite lookup_insert_eq|by rewrite lookup_insert_ne]. Qed.

Lemma serve_cases t st p :
  (∃ n, serve t st p = (Ok (false, n), st)) ∨ (∃ e, serve t st p = (Err e, st)) ∨
  (serve t st p = (Ok (true, st.1), (st.1 + 1, match key_hash p with Some h => <[h := st.1]> st.2 | None => st.2 end)) ∧
   ∀ h, key_hash p = Some h → live_key t (node_of p) h = None ∧ st.2 !! h = None).
Proof.
  unfold serve. destruct (h ← key_hash p; _) as [n|] eqn:E; [left; eauto|]. destruct (refuse_publication _ _ _ _ _); [|right; left; eauto].
  right. right. split; [done|]. intros h Hh. rewrite Hh in E. cbn in E. destruct (st.2 !! h); [discriminate|]. split; [|done].
  by destruct (live_key t (node_of p) h).
Qed.

Lemma serve_fresh t σ p : fresh_keys t σ → fresh_keys t (<[node_of p := (serve t (allocator_at t σ (node_of p)) p).2]> σ).
Proof.
  intros H n h m. rewrite allocator_at_insert. case_decide as Hn; [|by apply H]. subst n.
  destruct (serve_cases t (allocator_at t σ (node_of p)) p) as [[n' ->]|[[e ->]|[-> Hk]]]; cbn; [by apply H|by apply H|].
  destruct (key_hash p) as [h'|]; [|by apply H]. destruct (decide (h = h')) as [->|Hne]; [intros _; by apply Hk|].
  rewrite lookup_insert_ne by done. by apply H.
Qed.

(** A member whose key names a registered job is told that job. *)
Lemma one_by_one_keyed t ps : ∀ σ i p h k n o, fresh_keys t σ → ps !! i = Some p → key_hash p = Some h →
  live_key t (node_of p) h = Some (k, n) → one_by_one t σ ps !! i = Some o → o = Ok (false, n) ∨ ∃ e, o = Err e.
Proof.
  induction ps as [|p' ps IH]; intros σ i p h k n o Hf Hp Hh Hl; [done|]. cbn [one_by_one].
  destruct (validate_producer _ _ _ _); cbn zeta; destruct i as [|i]; cbn.
  - injection Hp as ->. unfold serve. rewrite Hh. cbn. rewrite Hl. destruct ((allocator_at t σ (node_of p)).2 !! h) eqn:E.
    + apply Hf in E. congruence.
    + cbn. intros [= <-]. by left.
  - cbn in Hp. eapply IH; [|done..]. by apply serve_fresh.
  - intros [= <-]. right. eauto.
  - cbn in Hp. by eapply IH.
Qed.

Record lawful (t : jdb) (acc : allocation * gmap string allocator) : Prop := {
  lawful_start : ∀ n, next_job_id t n ≤ (allocator_at t acc.2 n).1;
  lawful_pending : ∀ x, x ∈ al_pending acc.1 → next_job_id t (node_of x.1.2) ≤ x.2 < (allocator_at t acc.2 (node_of x.1.2)).1;
  lawful_next : ∀ n, al_next acc.1 !! n = Some (allocator_at t acc.2 n).1 ∨
    (al_next acc.1 !! n = None ∧ (allocator_at t acc.2 n).1 = next_job_id t n);
  lawful_distinct : NoDup ((λ x, (node_of x.1.2, x.2)) <$> al_pending acc.1)
}.

Lemma lawful_turn t acc q : lawful t acc → lawful t (serve_turn t acc q).
Proof.
  intros [L1 L2 L3 L4]. unfold serve_turn. set (st := allocator_at t acc.2 (node_of q.2)).
  destruct (serve_cases t st q.2) as [[n ->]|[[e ->]|[-> _]]]; cbn [fst snd].
  1,2: assert (∀ m, allocator_at t (<[node_of q.2 := st]> acc.2) m = allocator_at t acc.2 m) as Hsame by (intros m; rewrite allocator_at_insert; by case_decide; subst);
    split; cbn [fst snd recorded al_pending al_next]; intros *; rewrite ?Hsame; auto.
  assert (∀ m, (allocator_at t acc.2 m).1 ≤ (allocator_at t (<[node_of q.2 := (st.1 + 1, match key_hash q.2 with Some h => <[h := st.1]> st.2 | None => st.2 end)]> acc.2) m).1) as Hup.
  { intros m. rewrite allocator_at_insert. case_decide as Hm; [|lia]. subst m. cbn. fold st. lia. }
  split; cbn [fst snd recorded al_pending al_next].
  - intros m. etransitivity; [apply L1|apply Hup].
  - intros x [Hx| ->%list_elem_of_singleton]%elem_of_app.
    + destruct (L2 x Hx) as [X1 X2]. split; [exact X1|]. eapply Z.lt_le_trans; [exact X2|apply Hup].
    + cbn [fst snd]. rewrite allocator_at_insert, decide_True by done. cbn. pose proof (L1 (node_of q.2)). fold st in H. lia.
  - intros m. rewrite allocator_at_insert. case_decide as Hm; [subst m; left; by rewrite lookup_insert_eq|].
    rewrite lookup_insert_ne by done. apply L3.
  - rewrite fmap_app. apply NoDup_app. split; [done|]. split; [|apply NoDup_singleton].
    intros y (x & -> & Hin)%list_elem_of_fmap Hy%list_elem_of_singleton. cbn in Hy. injection Hy as Hn Hm.
    destruct (L2 x Hin) as [_ X2]. rewrite Hn in X2. fold st in X2. lia.
Qed.

Lemma lawful_turns t ps : lawful t (turns t ps).
Proof.
  unfold turns. generalize (filter (λ q, validated t q = true) (zip (seq 0 (length ps)) ps)). intros V.
  assert (lawful t (Allocation (refused_at_start t ps) [] ∅, ∅)) as H.
  { split; cbn.
    - intros n. unfold allocator_at. rewrite lookup_empty. cbn. lia.
    - by intros x ?%not_elem_of_nil.
    - intros n. right. unfold allocator_at. by rewrite !lookup_empty.
    - apply NoDup_nil_2. }
  revert H. generalize (Allocation (refused_at_start t ps) [] ∅, ∅ : gmap string allocator).
  induction V as [|q V IH]; intros acc H; [done|]. cbn [foldl]. apply IH. by apply lawful_turn.
Qed.

(** What [_apply_auto_job_publishes] decides. *)
Record decided (t : jdb) (ps : list AutoJobPublish) (al : allocation) : Prop := {
  decided_outcomes : al_outcomes al = Some <$> one_by_one t ∅ ps;
  decided_pending : ∀ i p n, (i, p, n) ∈ al_pending al ↔ ps !! i = Some p ∧ one_by_one t ∅ ps !! i = Some (Ok (true, n));
  decided_ids : ∀ x, x ∈ al_pending al → next_job_id t (node_of x.1.2) ≤ x.2 ∧ ∃ z, al_next al !! node_of x.1.2 = Some z ∧ x.2 < z;
  decided_next : ∀ n z, al_next al !! n = Some z → next_job_id t n ≤ z;
  decided_distinct : NoDup ((λ x, (node_of x.1.2, x.2)) <$> al_pending al)
}.

Lemma one_by_one_length t ps : ∀ σ, length (one_by_one t σ ps) = length ps.
Proof. induction ps as [|p ps IH]; intros σ; [done|]. cbn. destruct (validate_producer _ _ _ _); cbn; by rewrite IH. Qed.

Lemma allocate_decided t ps al : allocate component_snapshot_from_shape env t ps = Ok al → decided t ps al.
Proof.
  intros H%allocate_in_turn. destruct (lawful_turns t ps) as [L1 L2 L3 L4]. destruct H as (A & B & C).
  destruct (refused_at_start_lookup t ps) as [R1 R2].
  destruct (turns_lookup t ps 0 (Allocation (refused_at_start t ps) [] ∅) ∅ R2) as (T1 & _ & T3 & T4).
  fold (turns t ps) in T1, T3, T4. cbn [al_outcomes] in T1. split.
  - rewrite A. apply list_eq_same_length with (length ps); [by rewrite length_fmap, one_by_one_length|by rewrite T1|].
    intros i x y Hi Hx Hy. destruct (lookup_lt_is_Some_2 ps i Hi) as [p Hp]. specialize (T3 i p Hp). cbn [Nat.add] in T3. rewrite T3 in Hx.
    rewrite list_lookup_fmap in Hy. destruct (lookup_lt_is_Some_2 (one_by_one t ∅ ps) i) as [o Ho]; [by rewrite one_by_one_length|].
    rewrite Ho in Hx, Hy. cbn in Hy. congruence.
  - intros i p n. rewrite C, T4. cbn [al_pending Nat.add]. split.
    + intros [?%not_elem_of_nil|(j & q & m & Hq & Ho & [= -> -> ->])]; done.
    + intros [Hp Ho]. right. eauto 10.
  - intros x Hx. rewrite C in Hx. specialize (L2 x Hx). split; [lia|]. rewrite B. destruct (L3 (node_of x.1.2)) as [->|[_ Hz]]; [|lia].
    eexists. split; [done|]. lia.
  - intros n z. rewrite B. intros Hz. specialize (L1 n). destruct (L3 n) as [Hs|[Hs _]]; rewrite Hs in Hz; [|discriminate]. by injection Hz as <-.
  - rewrite C. exact L4.
Qed.

(** ** What a group comes to *)

Definition pending : Type := nat * AutoJobPublish * Z.
Definition addr_of (x : pending) : addr := (node_of x.1.2, x.2).
Definition entry_of (x : pending) : entry := (allocated x.1.2 x.2, (idempotency_key x.1.2, key_hash x.1.2)).

Lemma entry_addrs pend : addrs (entry_of <$> pend) = addr_of <$> pend.
Proof. unfold addrs. rewrite <-list_fmap_compose. by apply list_fmap_ext. Qed.

Lemma pending_keys_entries pend : pending_keys pend = entry_keys (entry_of <$> pend).
Proof.
  induction pend as [|x pend IH]; [done|]. unfold pending_keys, entry_keys in *. cbn.
  destruct (key_hash x.1.2), (idempotency_key x.1.2); cbn; by rewrite IH.
Qed.

Lemma replace_cases name b s r s' : replace_input name b s = (r, s') → tables s' = tables s ∧
  ((is_ok r = false ∧ inputs s' = inputs s ∧ staging s' = staging s) ∨
   (r = Ok tt ∧ ∃ v, staging s !! name = Some v ∧ inputs s' = <[b := Some v]> (inputs s) ∧ staging s' = delete name (staging s))).
Proof.
  unfold replace_input, cbind, file_call, pure_files. destruct (file_faults s) as [|[e|] rest]; cbn.
  all: try (destruct (staging s !! name) as [v|] eqn:Es; [destruct (inputs s !! b) eqn:Ei|]); cbn; intros [= <- <-]; (split; [done|]); eauto 10.
Qed.

Lemma mkdir_rest b s r s' : mkdir b s = (r, s') → tables s' = tables s ∧ staging s' = staging s.
Proof.
  unfold mkdir, cbind, file_call, pure_files. destruct (file_faults s) as [|[e|] rest]; cbn.
  all: first [destruct (inputs s !! b) eqn:Ea|idtac]; cbn; intros [= <- <-]; done.
Qed.

Lemma publish_inputs_ok pend : ∀ p x p', each publish_input pend p = (Ok x, p') →
  tables p'.1 = tables p.1 ∧ (∀ n v, staging p'.1 !! n = Some v → staging p.1 !! n = Some v) ∧
  (∀ y, y ∈ pend → inputs p.1 !! addr_of y = None ∧
     ∃ v, staging p.1 !! staging_input y.1.2 = Some v ∧ inputs p'.1 !! addr_of y = Some (Some v)) ∧
  (∀ b, b ∉ addr_of <$> pend → inputs p'.1 !! b = inputs p.1 !! b).
Proof.
  induction pend as [|y pend IH]; intros p x p'; cbn [each].
  { intros [= _ <-]. split; [done|]. split; [done|]. split; [by intros y ?%not_elem_of_nil|done]. }
  intros H. apply cbind_ok in H as (u & p1 & H1 & H2). destruct (IH _ _ _ H2) as (T & S & A & B). clear IH H2.
  unfold publish_input in H1. apply cbind_ok in H1 as (u1 & q1 & (s1 & Hm & ->)%lift_ok & H1). apply cbind_ok in H1 as (u2 & q2 & ->%assign_ok & H1).
  apply lift_ok in H1 as (s2 & Hr & ->). cbn [fst snd] in *. destruct (mkdir_rest _ _ _ _ Hm) as [Tm Sm].
  destruct (mkdir_cases _ _ _ _ Hm) as [[? _]|(_ & Ha & Im)]; [discriminate|].
  destruct (replace_cases _ _ _ _ _ Hr) as [Tr [[? _]|(_ & v & Hv & Ir & Sr)]]; [discriminate|]. fold (addr_of y) in *.
  rewrite Im, insert_insert_eq in Ir. rewrite Sm in Hv, Sr.
  split; [by rewrite T, Tr, Tm|]. split; [intros n w Hn%S; rewrite Sr in Hn; by apply lookup_delete_Some in Hn as [_ ?]|]. split.
  - assert (addr_of y ∉ addr_of <$> pend) as Hnin.
    { intros (z & Hz & Hin)%list_elem_of_fmap. destruct (A z Hin) as [Hn _]. rewrite <-Hz, Ir, lookup_insert_eq in Hn. discriminate. }
    intros z [->|Hin]%elem_of_cons.
    + split; [done|]. exists v. split; [done|]. rewrite B by done. by rewrite Ir, lookup_insert_eq.
    + destruct (A z Hin) as [Hn (w & Hw & Hi)]. rewrite Ir in Hn. apply lookup_insert_None in Hn as [Hn _].
      split; [done|]. exists w. split; [|done]. rewrite Sr in Hw. by apply lookup_delete_Some in Hw as [_ ?].
  - intros b Hb. cbn in Hb. apply not_elem_of_cons in Hb as [Hne Hb]. rewrite B, Ir by done. by rewrite lookup_insert_ne.
Qed.

Lemma mark_members_quiet t i pend : stays (λ p : store * group, frame t (tables p.1) ∧ inputs p.1 = i)
  (each (mark_member component_snapshot_from_shape shape_edges is_json env pid) pend).
Proof.
  apply stays_each. intros y _. unfold mark_member. apply stays_bind.
  - intros [s l] [Hf Hi]. unfold lift. cbn [fst snd].
    destruct (mark_job_quiet (node_of y.1.2) y.2 (expected_shape y.1.2) s) as [Q1 Q2]. cbn [fst] in *.
    destruct (_mark_component_job_arrival _ _ _ _ _ _ _ _ _) as [r s'] eqn:E. cbn in *. split; [by etransitivity|congruence].
  - intros x p H. exact H.
Qed.

Abbreviation publish_members := (publish_group component_snapshot_from_shape shape_edges is_json env pid).

Lemma publish_group_ok ps al fresh p x p' : publish_members ps al fresh p = (Ok x, p') →
  grown (tables p.1) (tables p'.1) (entry_of <$> al_pending al) ∧
  sequences (tables p'.1) = (if bool_decide (al_pending al = []) then sequences (tables p.1) else al_next al ∪ sequences (tables p.1)) ∧
  (∀ y, y ∈ al_pending al → inputs p.1 !! addr_of y = None ∧
     ∃ v, staging p.1 !! staging_input y.1.2 = Some v ∧ inputs p'.1 !! addr_of y = Some (Some v)) ∧
  (∀ b, b ∉ addr_of <$> al_pending al → inputs p'.1 !! b = inputs p.1 !! b).
Proof.
  unfold publish_group. cbn zeta. intros H. apply cbind_ok in H as (u1 & p1 & H1 & H). destruct (publish_inputs_ok _ _ _ _ H1) as (T1 & _ & I1 & J1).
  apply cbind_ok in H as (u2 & p2 & H2 & H). apply cbind_ok in H as (u3 & p3 & [_ ->]%lift_read_ok & (t3 & [= <-] & ->)%lift_sql_ok).
  cbn [fst tables set_tables inputs]. case_bool_decide as Hp.
  { rewrite Hp in *. injection H2 as _ <-. cbn. rewrite T1. split; [|split; [done|split; [done|]]].
    - destruct (grown_nothing (tables p.1)) as [A B C D E F]. by split.
    - intros b Hb. by apply J1. }
  apply cbind_ok in H2 as (u4 & p4 & (t4 & H4 & ->)%lift_sql_ok & H2). apply cbind_ok in H2 as (u5 & p5 & (t5 & H5 & ->)%lift_sql_ok & H2).
  apply cbind_ok in H2 as (u6 & p6 & H6 & H2). apply cbind_ok in H2 as (u7 & p7 & (t7 & [= <-] & ->)%lift_sql_ok & H2).
  apply cbind_ok in H2 as (u8 & p8 & (t8 & H8 & ->)%lift_sql_ok & (t9 & [= <-] & ->)%lift_sql_ok). cbn [fst snd tables set_tables inputs] in *.
  pose proof (mark_members_quiet t4 (inputs p1.1) (al_pending al) (set_tables t5 (set_tables t4 p1.1), p1.2)) as Hq.
  rewrite H6 in Hq. destruct Hq as [F6 I6]; [split; [by eapply record_producers_frame|done]|]. cbn [fst snd] in F6, I6.
  assert ((λ q : nat * AutoJobPublish * Z, allocated q.1.2 q.2) <$> al_pending al = (entry_of <$> al_pending al).*1) as Hjs
    by (rewrite <-list_fmap_compose; by apply list_fmap_ext).
  rewrite Hjs in H4. rewrite pending_keys_entries in H8. rewrite T1 in H4.
  match type of H8 with insert_keys _ ?t = _ => assert (frame t4 t) as F by (etransitivity; [exact F6|by repeat split]); set (te := t) in * end.
  split; [|split; [|split]].
  - eapply grown_from; [reflexivity|exact H4|exact F|exact H8|done].
  - destruct F as (_ & _ & F & _). destruct (insert_jobs_ok _ _ _ _ H4) as (_ & _ & _ & _ & _ & S4).
    unfold insert_keys in H8. apply rbind_ok in H8 as (m & _ & H8). injection H8 as <-. cbn. cbn in F. by rewrite F, S4.
  - intros y Hy. destruct (I1 y Hy) as [A B]. split; [done|]. by rewrite I6.
  - intros b Hb. rewrite I6. by apply J1.
Qed.

(** A group in progress has touched only directories it remembers. *)
Definition group_own (m : gmap addr (option json)) (p : store * group) : Prop :=
  (∀ b, is_Some (m !! b) → inputs p.1 !! b = m !! b) ∧ (∀ i b, published_dir p.2 !! i = Some b → m !! b = None).

Lemma group_own_quiet {A} m (c : cmd store A) : no_files c → stays (group_own m) (lift c).
Proof. intros Hc [s l] [H1 H2]. unfold lift. cbn [fst snd]. specialize (Hc s). destruct (c s) as [r s']. cbn in *. split; cbn; [by rewrite Hc|done]. Qed.

Lemma publish_input_own m x : stays (group_own m) (publish_input x).
Proof.
  intros [s l] [H1 H2]. cbn [fst snd] in H1, H2. unfold publish_input. set (b := (node_of x.1.2, x.2) : addr). unfold cbind, lift, assign. cbn [fst snd].
  destruct (mkdir b s) as [r s1] eqn:E. destruct (mkdir_cases _ _ _ _ E) as [[Hr Hi]|(-> & Hb & Hi)].
  { destruct r; [discriminate|]. split; cbn; [by rewrite Hi|done]. }
  cbn [fst snd]. assert (m !! b = None) as Hm.
  { destruct (m !! b) eqn:Em; [|done]. rewrite (H1 b) in Hb by eauto. by rewrite Em in Hb. }
  assert (∀ v c, is_Some (m !! c) → <[b := v]> (inputs s) !! c = m !! c) as Hk.
  { intros v c Hc. rewrite lookup_insert_ne; [by apply H1|]. intros <-. rewrite Hm in Hc. by destruct Hc. }
  destruct (replace_input (staging_input x.1.2) b s1) as [r2 s2] eqn:E2. split; cbn [fst snd published_dir].
  - destruct (replace_cases _ _ _ _ _ E2) as [_ [(_ & -> & _)|(_ & v & _ & -> & _)]]; rewrite Hi; [apply Hk|].
    rewrite insert_insert_eq. apply Hk.
  - intros i c. destruct (decide (i = x.1.1)) as [->|Hne]; [rewrite lookup_insert_eq; by intros [= <-]|].
    rewrite lookup_insert_ne by done. apply H2.
Qed.

Lemma mark_member_own m x : stays (group_own m) (mark_member component_snapshot_from_shape shape_edges is_json env pid x).
Proof.
  unfold mark_member. apply stays_bind; [apply group_own_quiet, quiet_no_files, mark_job_quiet|]. intros a p H. exact H.
Qed.

Lemma publish_group_own m ps al fresh : stays (group_own m) (publish_members ps al fresh).
Proof.
  unfold publish_group. cbn zeta. apply stays_bind; [apply stays_each; intros x _; apply publish_input_own|]. intros _.
  apply stays_bind; [|intros _; apply stays_bind; [apply group_own_quiet, read_no_files|intros _; apply group_own_quiet, sql_no_files]].
  apply stays_if; [apply stays_ret|]. repeat (apply stays_bind; [|intros _]).
  all: first [apply group_own_quiet, sql_no_files|apply stays_each; intros x _; apply mark_member_own].
Qed.

Lemma remove_published_own m i : stays (group_own m) (remove_published i).
Proof.
  intros [s l] [H1 H2]. cbn [fst snd] in H1, H2. unfold remove_published, cbind at 1, local. cbn [snd]. destruct (published_dir l !! i) as [b|] eqn:Eb; [|by split].
  unfold catch, cbind, lift, assign, ret. cbn [fst snd]. destruct (rmtree b s) as [r s1] eqn:E.
  destruct (rmtree_cases _ _ _ _ E) as [[Hr Hi]|[-> Hi]].
  - destruct r; [discriminate|]. split; cbn; [by rewrite Hi|done].
  - split; cbn [fst snd published_dir].
    + intros c Hc. rewrite Hi, lookup_delete_ne; [by apply H1|]. intros <-. rewrite (H2 i b Eb) in Hc. by destruct Hc.
    + intros j c Hj. apply lookup_delete_Some in Hj as [_ Hj]. by eapply H2.
Qed.

Abbreviation apply_group := (_apply_auto_job_publishes component_snapshot_from_shape shape_edges is_json env pid).

Lemma apply_group_own m ps fresh : stays (group_own m) (apply_group ps fresh).
Proof.
  unfold _apply_auto_job_publishes. apply stays_if; [apply stays_ret|]. apply stays_bind; [apply group_own_quiet, read_no_files|]. intros al.
  apply stays_bind; [|intros _; apply group_own_quiet, read_no_files]. apply stays_catch; [apply publish_group_own|]. intros e.
  apply stays_bind; [|intros _; apply stays_throw]. apply stays_each. intros x _. apply remove_published_own.
Qed.

(** A member carries the hash of its key. *)
Definition well_keyed (p : AutoJobPublish) : Prop := optional idempotency_key_hash (idempotency_key p) = Ok (key_hash p).

Lemma apply_group_ok ps fresh p os p' : apply_group ps fresh p = (Ok os, p') →
  os = one_by_one (tables p.1) ∅ ps ∧ ∃ al, decided (tables p.1) ps al ∧
  grown (tables p.1) (tables p'.1) (entry_of <$> al_pending al) ∧
  sequences (tables p'.1) = (if bool_decide (al_pending al = []) then sequences (tables p.1) else al_next al ∪ sequences (tables p.1)) ∧
  (∀ y, y ∈ al_pending al → inputs p.1 !! addr_of y = None ∧
     ∃ v, staging p.1 !! staging_input y.1.2 = Some v ∧ inputs p'.1 !! addr_of y = Some (Some v)) ∧
  (∀ b, b ∉ addr_of <$> al_pending al → inputs p'.1 !! b = inputs p.1 !! b).
Proof.
  unfold _apply_auto_job_publishes. case_bool_decide as Hps.
  { intros [= <- <-]. subst ps. split; [done|]. exists (Allocation [] [] ∅). split.
    - split; cbn; try done; [|by intros x ?%not_elem_of_nil|apply NoDup_nil_2]. intros i p0 n. split; [by intros ?%not_elem_of_nil|by intros [? _]].
    - split; [apply grown_nothing|]. split; [done|]. split; [by intros y ?%not_elem_of_nil|done]. }
  intros H. apply cbind_ok in H as (al & p1 & [Hal ->]%lift_read_ok & H). apply cbind_ok in H as (u & p2 & Hg & H).
  apply lift_read_ok in H as [Hos ->]. apply allocate_decided in Hal. unfold catch in Hg.
  destruct (publish_members ps al fresh p) as [[x|e] p3] eqn:E.
  - injection Hg as -> ->. apply publish_group_ok in E as (G & Q & I & J). split; [|exists al; by split].
    rewrite (decided_outcomes _ _ _ Hal) in Hos. revert Hos. clear. generalize (one_by_one (tables p.1) ∅ ps). intros l.
    assert (mapM (M := option) id (Some <$> l) = Some l) as ->; [|by intros [= <-]]. induction l as [|x l IH]; [done|]. cbn. by rewrite IH.
  - apply cbind_ok in Hg as (? & ? & _ & Hg). discriminate.
Qed.

Lemma max_job_id_bound t n i : registered t (n, i) = true → i ≤ max_job_id t n.
Proof.
  intros [r Hr]%registered_true. unfold max_job_id. assert (i ∈ list_job_ids t n) as Hin.
  { unfold list_job_ids. rewrite (py_sorted_perm _). apply list_elem_of_omap. exists ((n, i), r).
    split; [by apply elem_of_map_to_list|]. cbn. by rewrite bool_decide_eq_true_2. }
  revert Hin. induction (list_job_ids t n) as [|j l IH]; [by intros ?%not_elem_of_nil|]. cbn. intros [->|H]%elem_of_cons; [lia|]. specialize (IH H). lia.
Qed.

Lemma max_job_id_nonneg t n : 0 ≤ max_job_id t n.
Proof. unfold max_job_id. induction (list_job_ids t n); cbn; lia. Qed.

(** Every key names a registered job and hashes to its row, ids stay below their sequence,
    and every registered job has its input. *)
Record sound (s : store) : Prop := {
  sound_keys : ∀ n h k i, idempotency (tables s) !! (n, h) = Some (k, i) → registered (tables s) (n, i) = true ∧ idempotency_key_hash k = Ok h;
  sound_positive : ∀ a, registered (tables s) a = true → 1 ≤ a.2;
  sound_sequences : ∀ n z, sequences (tables s) !! n = Some z → 1 ≤ z;
  sound_below : ∀ n i, registered (tables s) (n, i) = true → ∃ z, sequences (tables s) !! n = Some z ∧ i < z;
  sound_inputs : ∀ a, registered (tables s) a = true → ∃ v, inputs s !! a = Some (Some v)
}.

Lemma sound_next s n : sound s → 1 ≤ next_job_id (tables s) n ∧ ∀ i, registered (tables s) (n, i) = true → i < next_job_id (tables s) n.
Proof.
  intros H. unfold next_job_id. split.
  - destruct (sequences (tables s) !! n) as [z|] eqn:E; cbn; [by apply (sound_sequences _ H n)|]. pose proof (max_job_id_nonneg (tables s) n). lia.
  - intros i Hi. destruct (sound_below _ H n i Hi) as (z & -> & Hz). done.
Qed.

Lemma sound_same s s' : sound s → tables s' = tables s → (∀ b, is_Some (inputs s !! b) → inputs s' !! b = inputs s !! b) → sound s'.
Proof.
  intros [A B C D E] Ht Hi. split; rewrite Ht; try done. intros a Ha. destruct (E a Ha) as [v Hv]. exists v. rewrite Hi; [done|eauto].
Qed.

Lemma entry_keys_elem N n h k i : ((n, h), (k, i)) ∈ entry_keys N ↔ ∃ e, e ∈ N ∧ e.2 = (Some k, Some h) ∧ j_node e.1 = n ∧ j_id e.1 = i.
Proof.
  unfold entry_keys. rewrite list_elem_of_omap. split.
  - intros (e & He & H). exists e. split; [done|]. destruct e as [j [[k'|] [h'|]]]; cbn in *; try discriminate. by injection H as <- <- <- <-.
  - intros (e & He & H & <- & <-). exists e. split; [done|]. destruct e as [j [ok oh]]. cbn in *. injection H as -> ->. done.
Qed.

Lemma sound_grown s s' N : sound s → committed s s' N →
  (∀ b, is_Some (inputs s !! b) → inputs s' !! b = inputs s !! b ∨ b ∈ addrs N) → (∀ e, e ∈ N → ∃ v, inputs s' !! j_addr e.1 = Some (Some v)) →
  (∀ n z, sequences (tables s') !! n = Some z → 1 ≤ z) →
  (∀ n i z, registered (tables s) (n, i) = true → sequences (tables s) !! n = Some z → i < z → ∃ z', sequences (tables s') !! n = Some z' ∧ i < z') →
  (∀ e, e ∈ N → ∃ z, sequences (tables s') !! j_node e.1 = Some z ∧ j_id e.1 < z) → sound s'.
Proof.
  intros [A B C D0 D] [G K I] Hi Hn Hs1 Hold Hnew. assert (∀ a, a ∈ addrs N → ∃ e, e ∈ N ∧ a = j_addr e.1) as Haddr.
  { intros a (e & -> & He)%list_elem_of_fmap. eauto. }
  split.
  - intros n h k i Hk. apply (grown_keys _ _ _ G) in Hk as [Hk|Hk].
    + destruct (A n h k i Hk) as [Hr Hh]. split; [|done]. apply (grown_registered _ _ _ _ G). by left.
    + apply entry_keys_elem in Hk as (e & He & H2 & <- & <-). split.
      * apply (grown_registered _ _ _ _ G). right. apply list_elem_of_fmap. eauto.
      * specialize (K e He). rewrite H2 in K. cbn in K. apply rbind_ok in K as (x & Hx & [= <-]). done.
  - intros a [Ha|Ha]%(grown_registered _ _ _ _ G); [by apply B|]. destruct (Haddr a Ha) as (e & He & ->). by apply I.
  - done.
  - intros n i [Ha|Ha]%(grown_registered _ _ _ _ G); [destruct (D0 n i Ha) as (z & Hz & Hlt); by eapply Hold|].
    destruct (Haddr _ Ha) as (e & He & [= -> ->]). by apply Hnew.
  - intros a [Ha|Ha]%(grown_registered _ _ _ _ G).
    + destruct (D a Ha) as [v Hv]. destruct (Hi a) as [H|H]; [eauto|exists v; by rewrite H|]. destruct (Haddr a H) as (e & He & ->). by apply Hn.
    + destruct (Haddr a Ha) as (e & He & ->). by apply Hn.
Qed.

(** ** Batches *)

(** Directories a preparation has made are its own. *)
Definition batch_own (m : gmap addr (option json)) (p : store * list job) : Prop :=
  (∀ b, is_Some (m !! b) → inputs p.1 !! b = m !! b) ∧ ∀ j, j ∈ p.2 → m !! j_addr j = None.

Lemma write_job_own m j : stays (batch_own m) (write_job_payload j).
Proof.
  intros [s l] [H1 H2]. cbn [fst snd] in H1, H2. unfold write_job_payload, cbind, lift, assign. cbn [fst snd].
  destruct (mkdir (j_addr j) s) as [r s1] eqn:E. destruct (mkdir_cases _ _ _ _ E) as [[Hr Hi]|(-> & Hb & Hi)].
  { destruct r; [discriminate|]. split; cbn; [by rewrite Hi|done]. }
  cbn [fst snd]. assert (m !! j_addr j = None) as Hm.
  { destruct (m !! j_addr j) eqn:Em; [|done]. rewrite (H1 (j_addr j)) in Hb by eauto. by rewrite Em in Hb. }
  destruct (write_input (j_addr j) (j_params j) s1) as [r2 s2] eqn:E2. split; cbn [fst snd].
  - intros c Hc. assert (j_addr j ≠ c) by (intros <-; rewrite Hm in Hc; by destruct Hc).
    destruct (write_cases _ _ _ _ _ E2) as [[_ ->]|(_ & _ & ->)]; rewrite ?lookup_insert_ne, Hi, lookup_insert_ne by done; by apply H1.
  - intros j' [?| ->%list_elem_of_singleton]%elem_of_app; [by apply H2|done].
Qed.

Lemma all_payloads_own m js : stays (batch_own m) (all_payloads js).
Proof.
  induction js as [|j js IH]; [apply stays_ret|]. intros p Hp. cbn [all_payloads]. pose proof (write_job_own m j p Hp) as H.
  destruct (write_job_payload j p) as [r p1]. cbn [snd] in H. specialize (IH p1 H). destruct (all_payloads js p1) as [r' p2]. done.
Qed.

Lemma payload_tables j p : tables (write_job_payload j p).2.1 = tables p.1.
Proof.
  unfold write_job_payload, cbind, lift, assign. destruct (mkdir (j_addr j) p.1) as [[x|e] s1] eqn:E; destruct (mkdir_rest _ _ _ _ E) as [T _]; [|done].
  cbn [fst snd]. destruct (write_input _ _ s1) as [r2 s2] eqn:E2. cbn. rewrite <-T. revert E2. unfold write_input, cbind, pure_files.
  pose proof (file_call_tables s1). destruct (file_call s1) as [[|] s3]; cbn in *; [|by intros [= <- <-]]. destruct (inputs s3 !! _) as [[|]|]; by intros [= <- <-].
Qed.

Lemma prepare_effect js s r s' : prepare_jobs_batch js s = (r, s') → kept s s'.
Proof.
  unfold prepare_jobs_batch. case_bool_decide; [by intros [= _ <-]|]. unfold cbind at 1, read at 1. destruct (one_node js); [|by intros [= _ <-]].
  unfold cbind at 1, read at 1. destruct (distinct_ids js); [|by intros [= _ <-]]. unfold with_locals. intros Hx.
  set (body := if (length js <? 8)%nat then each write_job_payload js else all_payloads js) in Hx.
  assert (stays (batch_own (inputs s)) body) as Hown by (unfold body; apply stays_if; [apply stays_each; intros; apply write_job_own|apply all_payloads_own]).
  assert (stays (λ p : store * list job, tables p.1 = tables s) body) as Htab.
  { unfold body. apply stays_if; [apply stays_each; intros j _ p Hp; by rewrite payload_tables|]. clear. induction js as [|j js IH]; [apply stays_ret|].
    intros p Hp. cbn [all_payloads]. pose proof (payload_tables j p) as T. destruct (write_job_payload j p) as [r p1]. cbn [snd] in T.
    specialize (IH p1). destruct (all_payloads js p1) as [r' p2]. cbn in *. apply IH. congruence. }
  specialize (Hown (s, [])). specialize (Htab (s, []) eq_refl). cbn [fst snd] in *. unfold catch in Hx. destruct (body (s, [])) as [[x|e] [s1 l1]] eqn:E; cbn in *.
  - injection Hx as _ <-. split; [done|]. apply Hown. split; [done|]. by intros j ?%not_elem_of_nil.
  - unfold cbind, local, lift in Hx. cbn in Hx. destruct (discarding_cases (A := ()) l1 e s1) as [_ [D1 D2]]. destruct (discarding l1 e s1) as [r2 s2]. cbn in *.
    injection Hx as _ <-. destruct Hown as [O1 O2]; [split; [done|]; by intros j ?%not_elem_of_nil|]. cbn in *. split; [congruence|].
    intros b Hb. rewrite D2; [by apply O1|]. right. intros (j & -> & Hj)%list_elem_of_fmap. rewrite (O2 j Hj) in Hb. by destruct Hb.
Qed.

(** An input that is on disk, and an id below its node's sequence. *)
Definition has_input (s : store) (a : addr) : Prop := ∃ v, inputs s !! a = Some (Some v).
Definition below_sequence (t : jdb) (a : addr) : Prop := ∃ z, sequences t !! a.1 = Some z ∧ a.2 < z.

(** A prepared batch is on disk: each directory was new, and no write touches another. *)
Lemma write_job_keeps a j : stays (λ p : store * list job, has_input p.1 a) (write_job_payload j).
Proof.
  intros [s l] [v Hv]. cbn [fst] in Hv. unfold write_job_payload, cbind, lift, assign. cbn [fst snd].
  destruct (mkdir (j_addr j) s) as [r s1] eqn:E. destruct (mkdir_cases _ _ _ _ E) as [[Hr Hi]|(-> & Hb & Hi)].
  { destruct r; [discriminate|]. exists v. cbn. by rewrite Hi. }
  assert (j_addr j ≠ a) as Hne by (intros Heq; rewrite Heq in Hb; congruence).
  cbn [fst snd]. destruct (write_input (j_addr j) (j_params j) s1) as [r2 s2] eqn:E2. exists v. cbn.
  destruct (write_cases _ _ _ _ _ E2) as [[_ ->]|(_ & _ & ->)]; rewrite ?lookup_insert_ne by done; by rewrite Hi, lookup_insert_ne.
Qed.

Lemma write_job_written j p p' : write_job_payload j p = (Ok tt, p') → has_input p'.1 (j_addr j).
Proof.
  unfold write_job_payload. intros H. apply cbind_ok in H as (x1 & p1 & (s1 & _ & ->)%lift_ok & H).
  apply cbind_ok in H as (x2 & p2 & ->%assign_ok & (s2 & Hw & ->)%lift_ok). cbn [fst snd] in *.
  destruct (write_cases _ _ _ _ _ Hw) as [[? _]|(_ & _ & Hi)]; [discriminate|]. exists (j_params j). cbn. by rewrite Hi, lookup_insert_eq.
Qed.

Lemma all_payloads_keeps a js : stays (λ p : store * list job, has_input p.1 a) (all_payloads js).
Proof.
  induction js as [|j js IH]; [apply stays_ret|]. intros p Hp. cbn [all_payloads]. pose proof (write_job_keeps a j p Hp) as H.
  destruct (write_job_payload j p) as [r p1]. cbn [snd] in H. specialize (IH p1 H). by destruct (all_payloads js p1).
Qed.

Lemma payloads_written js : ∀ p p',
  each write_job_payload js p = (Ok tt, p') ∨ all_payloads js p = (Ok tt, p') → ∀ j, j ∈ js → has_input p'.1 (j_addr j).
Proof.
  induction js as [|j js IH]; intros p p' H k; [by intros ?%not_elem_of_nil|].
  assert (∃ p1, write_job_payload j p = (Ok tt, p1) ∧ (each write_job_payload js p1 = (Ok tt, p') ∨ all_payloads js p1 = (Ok tt, p'))) as (p1 & H1 & H2).
  { destruct H as [H|H].
    - cbn [each] in H. apply cbind_ok in H as ([] & p1 & H1 & H2). eauto.
    - cbn [all_payloads] in H. destruct (write_job_payload j p) as [[[]|e] p1]; destruct (all_payloads js p1) as [r2 p2] eqn:E; [|discriminate].
      injection H as -> ->. eauto. }
  intros [->|Hk]%elem_of_cons; [|by eapply IH]. pose proof (write_job_written _ _ _ H1) as Hw. destruct H2 as [H2|H2].
  - pose proof (stays_each _ write_job_payload js (λ x _, write_job_keeps (j_addr j) x) p1 Hw) as Hs. by rewrite H2 in Hs.
  - pose proof (all_payloads_keeps (j_addr j) js p1 Hw) as Hs. by rewrite H2 in Hs.
Qed.

Lemma prepare_written js s s' : prepare_jobs_batch js s = (Ok tt, s') → ∀ j, j ∈ js → has_input s' (j_addr j).
Proof.
  unfold prepare_jobs_batch. case_bool_decide as Hnil; [intros _ j Hj; rewrite Hnil in Hj; by apply not_elem_of_nil in Hj|].
  unfold cbind at 1, read at 1. destruct (one_node js); [|by intros [=]].
  unfold cbind at 1, read at 1. destruct (distinct_ids js); [|by intros [=]]. unfold with_locals, catch. intros H.
  destruct ((if (length js <? 8)%nat then each write_job_payload js else all_payloads js) (s, [])) as [[[]|e] [s1 l1]] eqn:E.
  - injection H as <-. intros j Hj. eapply (payloads_written js (s, []) (s1, l1)); [|done]. destruct (length js <? 8)%nat; auto.
  - unfold cbind, local, lift in H. cbn in H. pose proof (discarding_cases (A := ()) l1 e s1) as [D _].
    destruct (discarding l1 e s1) as [r2 s2]. cbn in *. congruence.
Qed.

Lemma batch_hashes_ok seen ks hs : batch_hashes seen ks = Ok hs → Forall2 (λ k h, optional idempotency_key_hash k = Ok h) ks hs.
Proof.
  revert seen hs. induction ks as [|[k|] ks IH]; intros seen hs; cbn; [by intros [= <-]| |].
  - intros (h & Hh & H)%rbind_ok. apply rbind_ok in H as ([] & _ & H). apply rbind_ok in H as (rest & Hr & [= <-]).
    constructor; [cbn; by rewrite Hh|by eapply IH].
  - intros (rest & Hr & [= <-])%rbind_ok. constructor; [done|by eapply IH].
Qed.

Lemma entries_keyed js ks hs (e : entry) : Forall2 (λ k h, optional idempotency_key_hash k = Ok h) ks hs → e ∈ zip js (zip ks hs) →
  optional idempotency_key_hash e.2.1 = Ok e.2.2 ∧ e.1 ∈ js.
Proof.
  intros HF. revert js. induction HF as [|k h ks hs Hkh _ IH]; intros [|j js]; cbn; try by intros ?%not_elem_of_nil.
  intros [->|He]%elem_of_cons; [split; [done|apply list_elem_of_here]|]. destruct (IH js He) as [? ?]. split; [done|by apply list_elem_of_further].
Qed.

Lemma entries_jobs (js : list job) (ks hs : list (option string)) : length ks = length js → length hs = length ks → (zip js (zip ks hs)).*1 = js.
Proof. intros H1 H2. apply fst_zip. rewrite length_zip_with. lia. Qed.

Lemma insert_batch_ok node js producer shape time fresh s arr s' :
  insert_batch component_snapshot_from_shape shape_edges is_json env pid node js producer shape time fresh s = (Ok arr, s') →
  inputs s' = inputs s ∧ ∃ t, insert_jobs fresh js (tables s) = Ok t ∧ frame t (tables s').
Proof.
  unfold insert_batch. intros H. apply cbind_ok in H as (u1 & s1 & (t1 & H1 & ->)%sql_ok & H). apply cbind_ok in H as (u2 & s2 & (t2 & H2 & ->)%sql_ok & H).
  apply cbind_ok in H as (a & s3 & H3 & H). apply cbind_ok in H as (u4 & s4 & (t4 & [= <-] & ->)%sql_ok & H). injection H as <- <-.
  destruct (mark_job_quiet node (match js with j :: _ => j_id j | [] => 0 end) shape (set_tables t2 (set_tables t1 s))) as [Q1 Q2]. rewrite H3 in Q1, Q2. cbn in Q1, Q2.
  split; [exact Q1|]. exists t1. split; [done|]. etransitivity; [by eapply record_producers_frame|]. etransitivity; [exact Q2|apply created_events_frame].
Qed.

Lemma distinct_ids_ok js ids : distinct_ids js = Ok ids → ids = j_id <$> js ∧ ∀ j, j ∈ js → 1 ≤ j_id j.
Proof.
  unfold distinct_ids. intros (x & Hx & H)%rbind_ok. apply rbind_ok in H as ([] & _ & [= <-]). apply rmap_ok in Hx.
  induction Hx as [|j i js ids Hj _ IH]; [split; [done|]; by intros j ?%not_elem_of_nil|]. destruct IH as [-> IH].
  unfold validate_job_id in Hj. apply rbind_ok in Hj as ([] & Hj & [= <-]). apply require_ok in Hj. split; [done|].
  intros k [->|Hk]%elem_of_cons; [lia|by apply IH].
Qed.

Lemma one_node_ok js n : one_node js = Ok n → ∀ j, j ∈ js → j_node j = n.
Proof.
  unfold one_node. destruct js as [|j js]; [by intros H|]. intros ([] & H%require_ok & [= <-])%rbind_ok. intros k Hk.
  rewrite forallb_forall in H. apply (bool_decide_eq_true (j_node k = j_node j)), H. by apply list_elem_of_In.
Qed.

Abbreviation commit_batch := (commit_prepared_jobs_batch component_snapshot_from_shape shape_edges is_json env pid).
Abbreviation commit_resolving := (commit_prepared_jobs_batch_resolving_idempotency component_snapshot_from_shape shape_edges is_json env pid).

(** A transaction without file calls: rolled back, or its effect. *)
Lemma in_writer_quiet {L A} (op : cmd (store * L) A) s l r s' l' :
  (∀ p, inputs (op p).2.1 = inputs p.1) → in_writer op (s, l) = (r, (s', l')) →
  inputs s' = inputs s ∧ ((tables s' = tables s ∧ is_ok r = false) ∨
    ∃ s1 a, tables s1 = tables s ∧ inputs s1 = inputs s ∧ op (s1, l) = (Ok a, (s', l')) ∧ (r = Ok a ∨ is_ok r = false)).
Proof.
  intros Hop H. destruct (in_writer_cases _ _ _ _ _ _ H) as [(Hi & Ht & _ & Hr)|(s1 & s2 & r' & T1 & I1 & _ & _ & _ & Ho & Hi & [[Ht Hr]|(-> & a & -> & Hr)])].
  - split; [done|by left].
  - specialize (Hop (s1, l)). rewrite Ho in Hop. cbn in Hop. split; [congruence|by left].
  - specialize (Hop (s1, l)). rewrite Ho in Hop. cbn in Hop. split; [congruence|right; eauto 10].
Qed.

Definition no_inputs {L A} (m : cmd (store * L) A) : Prop := ∀ p, inputs (m p).2.1 = inputs p.1.
Lemma no_inputs_bind {L A B} (m : cmd (store * L) A) (k : A → cmd (store * L) B) : no_inputs m → (∀ a, no_inputs (k a)) → no_inputs (cbind m k).
Proof. intros Hm Hk p. unfold cbind. specialize (Hm p). destruct (m p) as [[a|e] p'] eqn:E; cbn in *; [|done]. by rewrite Hk. Qed.
Lemma no_inputs_lift {L A} (m : cmd store A) : no_files m → no_inputs (lift (L := L) m).
Proof. intros Hm p. unfold lift. specialize (Hm p.1). by destruct (m p.1). Qed.
Lemma no_inputs_assign {L} (f : L → L) : no_inputs (assign f).
Proof. by intros p. Qed.
Lemma no_inputs_ret {L A} (a : A) : no_inputs (L := L) (ret a).
Proof. by intros p. Qed.
Lemma no_inputs_if {L A} (b : bool) (m m' : cmd (store * L) A) : no_inputs m → no_inputs m' → no_inputs (if b then m else m').
Proof. by destruct b. Qed.

Lemma insert_batch_no_files node js producer shape time fresh :
  no_files (insert_batch component_snapshot_from_shape shape_edges is_json env pid node js producer shape time fresh).
Proof.
  unfold insert_batch. apply no_files_bind; [apply sql_no_files|]. intros _. apply no_files_bind; [apply sql_no_files|]. intros _.
  apply no_files_bind; [apply quiet_no_files, mark_job_quiet|]. intros a. apply no_files_bind; [apply sql_no_files|]. intros _. apply ret_no_files.
Qed.

Lemma grown_queued t t' N ns : grown t t' N → grown t (queue_nodes ns t') N.
Proof. intros [A B C D E F]. by split. Qed.

(** Binding keys by an upsert. *)
Lemma upserted (es : list ((string * string) * (string * Z))) : ∀ (m : gmap (string * string) (string * Z)) k v,
  foldl (λ m q, <[q.1 := q.2]> m) m es !! k = Some v → (k, v) ∈ es ∨ m !! k = Some v.
Proof.
  induction es as [|[k' v'] es IH]; intros m k v; cbn [foldl]; [by right|]. intros [H|H]%IH; [left; by apply list_elem_of_further|].
  cbn in H. apply lookup_insert_Some in H as [[-> ->]|[_ H]]; [left; apply list_elem_of_here|by right].
Qed.

Lemma upserted_else (es : list ((string * string) * (string * Z))) : ∀ (m : gmap (string * string) (string * Z)) k,
  k ∉ es.*1 → foldl (λ m q, <[q.1 := q.2]> m) m es !! k = m !! k.
Proof.
  induction es as [|[k' v'] es IH]; intros m k; cbn; [done|]. intros Hk. rewrite IH by set_solver. rewrite lookup_insert_ne; [done|]. set_solver.
Qed.

(** The state with the keys of another, and entries without their keys. *)
Definition with_keys (t : jdb) (s : store) : store := set_tables (set_idempotency (idempotency t) (tables s)) s.
Definition keyless (N : list entry) : list entry := (λ e, (e.1, (None, None))) <$> N.

Lemma keyless_keys N : entry_keys (keyless N) = [].
Proof. by induction N. Qed.
Lemma keyless_jobs N : (keyless N).*1 = N.*1.
Proof. induction N; cbn; [done|]. by f_equal. Qed.

(** A plain batch: new jobs like those of any creation, and their keys bound whatever they
    named before. *)
Lemma batch_effect js keys producer shape time fresh s r s' : commit_batch js keys producer shape time fresh s = (r, s') →
  inputs s' = inputs s ∧ (tables s' = tables s ∨
    ∃ n ks N, (∀ j, j ∈ js → j_node j = n) ∧ batch_keys js keys = Ok ks ∧ N.*1 = js ∧
      committed s (with_keys (tables s) s') (keyless N) ∧
      (∀ e, e ∈ N → optional idempotency_key_hash e.2.1 = Ok e.2.2 ∧ ∃ m, js !! m = Some e.1 ∧ ks !! m = Some e.2.1) ∧
      idempotency (tables s') = idempotency (upsert_keys (entry_keys N) (tables s)) ∧
      sequences (tables s') = sequences (raise_sequence n (foldr Z.max 0 (j_id <$> js) + 1) (tables s))).
Proof.
  unfold commit_prepared_jobs_batch. case_bool_decide; [intros [= _ <-]; auto|].
  unfold cbind at 1, read at 1. destruct (one_node js) as [n|] eqn:Hn; [|intros [= _ <-]; auto].
  unfold cbind at 1, read at 1. destruct (batch_keys js keys) as [ks|] eqn:Hks; [|intros [= _ <-]; auto].
  unfold cbind at 1, read at 1. destruct (distinct_ids js) as [ids|] eqn:Hids; [|intros [= _ <-]; auto].
  unfold cbind at 1, read at 1. destruct (require _ _ _); [|intros [= _ <-]; auto].
  unfold cbind at 1, read at 1. destruct (batch_hashes [] ks) as [hs|] eqn:Hhs; [|intros [= _ <-]; auto].
  unfold with_locals. set (N := zip js (zip ks hs)). intros Hrun.
  destruct (cbind _ _ _) as [r0 [s0 l0]] eqn:E in Hrun. injection Hrun as -> <-. cbn [fst]. unfold cbind at 1 in E.
  destruct (in_writer _ _) as [r1 [s1 l1]] eqn:E1 in E.
  assert (tables s0 = tables s1 ∧ inputs s0 = inputs s1) as [T0 I0].
  { destruct r1; [|by injection E as _ <- _]. unfold cbind at 1, local in E. destruct (after_commit n l1 s1) as [A1 A2].
    unfold cbind, lift in E. unfold cbind in A1, A2. cbn in *. destruct (notify _) as [[]sx]; cbn in *; by injection E as _ <- _. }
  rewrite T0, I0. apply batch_hashes_ok in Hhs as Hkeyed. destruct (distinct_ids_ok _ _ Hids) as [-> Hpos].
  assert (length ks = length js) as Hlen.
  { unfold batch_keys in Hks. apply rbind_ok in Hks as ([] & Hl%require_ok & [= <-]). by apply Nat.eqb_eq in Hl. }
  apply in_writer_quiet in E1 as [Hi E1].
  2: { repeat (apply no_inputs_bind; [|intros ?]); try apply no_inputs_assign; apply no_inputs_lift; first [apply read_no_files|apply sql_no_files|apply insert_batch_no_files]. }
  split; [done|]. destruct E1 as [[Ht _]|(sa & x & Ta & Ia & Hop & _)]; [by left|]. right. exists n, ks, N.
  assert (N.*1 = js) as HN by (apply entries_jobs; [done|symmetry; by eapply Forall2_length]).
  apply cbind_ok in Hop as (u1 & p1 & [_ ->]%lift_read_ok & Hop). apply cbind_ok in Hop as (u2 & p2 & [_ ->]%lift_read_ok & Hop).
  apply cbind_ok in Hop as (arr & p3 & (s3 & (I3 & t3 & H3 & F3)%insert_batch_ok & ->)%lift_ok & Hop). apply cbind_ok in Hop as (u4 & p4 & ->%assign_ok & Hop).
  apply cbind_ok in Hop as (u5 & p5 & (t5 & [= <-] & ->)%lift_sql_ok & (t6 & [= <-] & Hop)%lift_sql_ok). cbn [fst snd] in *. injection Hop as -> _.
  fold N. cbn [tables set_tables].
  assert (grown (tables s) (set_idempotency (idempotency (tables s)) (tables s3)) (keyless N)) as G.
  { eapply (grown_from (keyless N) fresh (tables s) (tables sa) t3 (tables s3));
      [by rewrite Ta|by rewrite keyless_jobs, HN|exact F3|unfold insert_keys; rewrite keyless_keys; cbn; reflexivity|]. cbn.
    destruct F3 as (_ & I3' & _). destruct (insert_jobs_ok _ _ _ _ H3) as (_ & _ & _ & _ & I4 & _). by rewrite I3', I4, Ta. }
  assert (∀ e, e ∈ N → optional idempotency_key_hash e.2.1 = Ok e.2.2) as Hkey by (intros e He; apply (entries_keyed _ _ _ e Hkeyed He)).
  split; [by apply one_node_ok|]. split; [done|]. split; [done|]. split; [|split; [|split]].
  - split.
    + cbn. rewrite T0. cbn [tables set_tables]. destruct G as [G1 G2 G3 G4 G5 G6]. by split.
    + by intros e (e0 & -> & _)%list_elem_of_fmap.
    + intros e (e0 & -> & He)%list_elem_of_fmap. cbn. apply Hpos. rewrite <-HN. apply list_elem_of_fmap. eauto.
  - intros e He. split; [by apply Hkey|]. apply list_elem_of_lookup in He as [m Hm]. exists m. unfold N in Hm.
    rewrite lookup_zip_with_Some in Hm. destruct Hm as (j & kh & -> & Hj & (k & h & -> & Hk & _)%lookup_zip_with_Some). done.
  - destruct F3 as (_ & I3' & _). destruct (insert_jobs_ok _ _ _ _ H3) as (_ & _ & _ & _ & I4 & _). cbn. by rewrite I3', I4, Ta.
  - destruct F3 as (_ & _ & S3 & _). destruct (insert_jobs_ok _ _ _ _ H3) as (_ & _ & _ & _ & _ & S3').
    unfold raise_sequence, queue_nodes, upsert_keys. cbn. by rewrite S3, S3', Ta.
Qed.

Lemma resolve_entries_ok t es : ∀ N found, resolve_entries t es = Ok (N, found) →
  (∀ e, e ∈ N ↔ e ∈ es ∧ resolve_key t (j_node e.1) e.2.1 e.2.2 = Ok None) ∧
  (∀ k n, (k, n) ∈ found ↔ ∃ e, e ∈ es ∧ e.2.1 = Some k ∧ resolve_key t (j_node e.1) e.2.1 e.2.2 = Ok (Some n)).
Proof.
  induction es as [|e es IH]; intros N found; cbn [resolve_entries].
  { intros [= <- <-]. split; [intros e|intros k n]; (split; [by intros ?%not_elem_of_nil|]); [by intros [?%not_elem_of_nil _]|by intros (? & ?%not_elem_of_nil & _)]. }
  intros (o & Ho & H)%rbind_ok. apply rbind_ok in H as ([N1 f1] & H1 & H). destruct (IH _ _ H1) as [A B]. cbn [fst snd] in H.
  assert (∀ k, e.2.1 = k → o = None ∨ is_Some k) as Hkey.
  { intros k <-. destruct (e.2.1); [right; eauto|left]. cbn in Ho. by injection Ho. }
  destruct o as [n|]; [destruct (Hkey _ eq_refl) as [?|[k Ek]]; [discriminate|]; rewrite Ek in H; injection H as <- <-|injection H as <- <-].
  - split; [intros x|intros k' n']; rewrite elem_of_cons.
    + rewrite A. split; [intros [? ?]; auto|]. intros [[->|?] Hx]; [congruence|auto].
    + rewrite B. split.
      * intros [[= -> ->]|(x & ? & ?)]; [exists e; rewrite Ek in *; split; [apply list_elem_of_here|done]|exists x; split; [by apply list_elem_of_further|done]].
      * intros (x & [->|Hx]%elem_of_cons & Hk & Hr); [left; congruence|right; eauto].
  - split; [intros x|intros k' n'].
    + rewrite !elem_of_cons, A. split; [intros [->|[? ?]]; auto|]. intros [[->|?] ?]; auto.
    + rewrite B. split; intros (x & Hx & Hk & Hr).
      * exists x. split; [by apply list_elem_of_further|done].
      * apply elem_of_cons in Hx as [->|Hx]; [congruence|eauto].
Qed.

Lemma resolving_effect js ks producer shape time fresh s r s' : commit_resolving js ks producer shape time fresh s = (r, s') →
  inputs s' = inputs s ∧ ∃ N, (tables s' = tables s ∨ (committed s s' N ∧ sequences (tables s') = sequences (tables s))) ∧ (∀ e, e ∈ N → e.1 ∈ js ∧ resolve_key (tables s) (j_node e.1) e.2.1 e.2.2 = Ok None) ∧
    ∀ x, r = Ok x → x.1 = N.*1 ∧ (js = [] ∧ x.2 = [] ∨ ∃ ks' hs, batch_keys js ks = Ok ks' ∧ batch_hashes [] ks' = Ok hs ∧ is_ok (one_node js) ∧
      resolve_entries (tables s) (zip js (zip ks' hs)) = Ok (N, x.2)).
Proof.
  assert (∀ e : exc, s' = s → r = Err e → inputs s' = inputs s ∧ ∃ N, (tables s' = tables s ∨ (committed s s' N ∧ sequences (tables s') = sequences (tables s))) ∧ (∀ e, e ∈ N → e.1 ∈ js ∧ resolve_key (tables s) (j_node e.1) e.2.1 e.2.2 = Ok None) ∧
    ∀ x, r = Ok x → x.1 = N.*1 ∧ (js = [] ∧ x.2 = [] ∨ ∃ ks' hs, batch_keys js ks = Ok ks' ∧ batch_hashes [] ks' = Ok hs ∧ is_ok (one_node js) ∧
      resolve_entries (tables s) (zip js (zip ks' hs)) = Ok (N, x.2))) as Hfail.
  { intros e -> ->. split; [done|]. exists []. split; [by left|]. split; [by intros ? ?%not_elem_of_nil|by intros ? [=]]. }
  unfold commit_prepared_jobs_batch_resolving_idempotency. case_bool_decide.
  { intros [= <- <-]. split; [done|]. exists []. split; [by left|]. split; [by intros ? ?%not_elem_of_nil|]. intros x [= <-]. split; [done|by left]. }
  unfold cbind at 1, read at 1. destruct (batch_keys js ks) as [ks'|] eqn:Hks; [|by intros [= <- <-]; eapply Hfail].
  unfold cbind at 1, read at 1. destruct (one_node js) as [n|] eqn:Hn; [|by intros [= <- <-]; eapply Hfail].
  unfold cbind at 1, read at 1. destruct (batch_hashes [] ks') as [hs|] eqn:Hhs; [|by intros [= <- <-]; eapply Hfail].
  clear Hfail. unfold with_locals. set (es := zip js (zip ks' hs)). intros Hrun.
  destruct (cbind _ _ _) as [r0 [s0 l0]] eqn:E in Hrun. injection Hrun as -> <-. cbn [fst]. unfold cbind at 1 in E.
  destruct (in_writer _ _) as [r1 [s1 l1]] eqn:E1 in E.
  assert (tables s0 = tables s1 ∧ inputs s0 = inputs s1 ∧ ∀ x, r = Ok x → r1 = Ok x) as (T0 & I0 & R0).
  { destruct r1 as [x|e]; [|injection E as <- <- _; by repeat split]. case_bool_decide; [injection E as <- <- _; by repeat split|].
    unfold cbind at 1, local in E. destruct (after_commit n l1 s1) as [A1 A2].
    unfold cbind, lift in E. unfold cbind in A1, A2. cbn in *. destruct (notify _) as [[]sx]; cbn in *; injection E as <- <- _; by repeat split. }
  rewrite T0, I0. apply batch_hashes_ok in Hhs as Hkeyed.
  apply in_writer_quiet in E1 as [Hi E1].
  2: { repeat (apply no_inputs_bind; [|intros ?]); try apply no_inputs_assign; try apply no_inputs_ret; try apply no_inputs_lift; try apply read_no_files.
       apply no_inputs_if; [apply no_inputs_ret|]. repeat (apply no_inputs_bind; [|intros ?]); try apply no_inputs_assign; apply no_inputs_lift;
         first [apply read_no_files|apply sql_no_files|apply insert_batch_no_files]. }
  split; [done|]. destruct E1 as [[Ht Hr1]|(sa & x & Ta & Ia & Hop & Hr1)].
  { exists []. split; [by left|]. split; [by intros ? ?%not_elem_of_nil|]. intros x Hx. rewrite (R0 x Hx) in Hr1. discriminate. }
  apply cbind_ok in Hop as (u1 & p1 & [_ ->]%lift_read_ok & Hop). apply cbind_ok in Hop as ([N found] & p2 & [Hres ->]%lift_read_ok & Hop).
  cbn [fst snd] in *. rewrite Ta in Hres. destruct (resolve_entries_ok _ _ _ _ Hres) as [RN RF].
  apply cbind_ok in Hop as (ids & p3 & [Hids ->]%lift_read_ok & Hop). destruct (distinct_ids_ok _ _ Hids) as [_ Hpos].
  apply cbind_ok in Hop as (u4 & p4 & [_ ->]%lift_read_ok & Hop). apply cbind_ok in Hop as (u5 & p5 & Hbody & Hop). injection Hop as <- Hp5.
  exists N. split; [|split].
  2: { intros e He. destruct (proj1 (RN e) He) as [Hes ?]. split; [|done]. by apply (entries_keyed _ _ _ e Hkeyed Hes). }
  2: { intros y Hy. specialize (R0 y Hy). destruct Hr1 as [->|Hr1]; [|rewrite R0 in Hr1; discriminate]. injection R0 as <-. cbn. split; [done|].
       right. exists ks', hs. by repeat split. }
  case_bool_decide as HN.
  { injection Hbody as _ Hb. left. congruence. }
  right. apply cbind_ok in Hbody as (u6 & p6 & [_ ->]%lift_read_ok & Hbody).
  apply cbind_ok in Hbody as (arr & p7 & (s3 & (I3 & t3 & H3 & F3)%insert_batch_ok & ->)%lift_ok & Hbody). apply cbind_ok in Hbody as (u8 & p8 & ->%assign_ok & Hbody).
  apply cbind_ok in Hbody as (u9 & p9 & (t9 & H9 & ->)%lift_sql_ok & (t10 & [= <-] & Hlast)%lift_sql_ok). cbn [fst snd tables set_tables] in *.
  assert (s1 = set_tables (queue_nodes [n] t9) (set_tables t9 s3)) as Hs1 by congruence. rewrite Hs1. cbn [tables set_tables].
  assert (grown (tables s) t9 N) as G by (eapply (grown_from N fresh (tables s) (tables sa)); [by rewrite Ta|exact H3|exact F3|exact H9|done]).
  split.
  - split; [rewrite T0, Hs1; cbn [tables set_tables]; by apply grown_queued| |].
    + intros e He. destruct (proj1 (RN e) He) as [Hes _]. apply (entries_keyed _ _ _ e Hkeyed Hes).
    + intros e He. apply Hpos. apply list_elem_of_fmap. eauto.
  - destruct F3 as (_ & _ & S3 & _). destruct (insert_jobs_ok _ _ _ _ H3) as (_ & _ & _ & _ & _ & S3').
    unfold insert_keys in H9. apply rbind_ok in H9 as (m & _ & [= <-]). cbn. by rewrite S3, S3', Ta.
Qed.

(** ** Deletion *)

(** Rows were deleted or nothing was; no registered job lost its input. *)
Definition removed (s s' : store) : Prop :=
  (∀ a, registered (tables s') a = true → inputs s' !! a = inputs s !! a) ∧
  (tables s' = tables s ∨ (∃ P b, tables s' = delete_where P b (tables s)) ∨
   ∃ n b x, tables s' = set_sequences (<[n := 1]> (sequences (tables s))) (set_specs x (delete_where (at_node n) b (tables s)))).

Lemma delete_where_registered P b t a : registered (delete_where P b t) a = registered t a && negb (P a).
Proof.
  assert (jobs (base_of (delete_where P b t)) = filter (λ q : addr * job_row, P q.1 = false) (jobs (base_of t))) as HJ by (destruct b; done).
  apply eq_iff_eq_true. rewrite andb_true_iff, negb_true_iff, !registered_true, HJ. split.
  - intros [x [Hx HP]%map_lookup_filter_Some]. eauto.
  - intros [[x Hx] HP]. exists x. by apply map_lookup_filter_Some.
Qed.

Lemma delete_where_keys P b t k v : idempotency (delete_where P b t) !! k = Some v ↔ idempotency t !! k = Some v ∧ P (k.1, v.2) = false.
Proof.
  assert (idempotency (delete_where P b t) = filter (λ q : (string * string) * (string * Z), P (q.1.1, q.2.2) = false) (idempotency t)) as -> by (destruct b; done).
  rewrite map_lookup_filter_Some. done.
Qed.

Lemma delete_where_sequences P b t : sequences (delete_where P b t) = sequences t.
Proof. by destruct b. Qed.

Lemma delete_rows_cases f s r s' : delete_rows f s = (r, s') →
  inputs s' = inputs s ∧ ((tables s' = tables s ∧ is_ok r = false) ∨ tables s' = f (tables s)).
Proof.
  unfold delete_rows, with_locals. destruct (in_writer _ _) as [r0 [s0 l0]] eqn:E. intros [= <- <-]. apply in_writer_quiet in E as [Hi E].
  2: { apply no_inputs_lift, sql_no_files. }
  split; [done|]. destruct E as [[? ?]|(s1 & x & T1 & I1 & (t & [= <-] & Hs)%lift_sql_ok & Hr)]; [by left|]. right. injection Hs as -> _. cbn. by rewrite T1.
Qed.

(** What a deletion's transaction does: rows of the node go, or nothing does; no directory is
    removed yet, and those left to remove are of the node and of jobs that are gone. *)
Definition dooms (d : doomed) (a : addr) : Prop := match d with JobDir b => a = b | JobsDir n => a.1 = n end.
Definition doomed_node (d : doomed) : string := match d with JobDir b => b.1 | JobsDir n => n end.

Definition cleared {A} (n : string) (s s' : store) (r : result (A * list doomed)) : Prop :=
  inputs s' = inputs s ∧
  (tables s' = tables s ∨ (∃ P b, tables s' = delete_where P b (tables s)) ∨
   ∃ b x, tables s' = set_sequences (<[n := 1]> (sequences (tables s))) (set_specs x (delete_where (at_node n) b (tables s)))) ∧
  ∀ x d, r = Ok x → d ∈ x.2 → doomed_node d = n ∧ ∀ a, dooms d a → registered (tables s') a = false.

Lemma cleared_removed {A} n s s' (r : result (A * list doomed)) : cleared n s s' r → removed s s'.
Proof. intros (Hi & Ht & _). split; [intros a _; by rewrite Hi|]. destruct Ht as [?|[?|(b & x & ?)]]; eauto 10. Qed.

Lemma cleared_nothing {A} n s (r : result (A * list doomed)) : (∀ x, r = Ok x → x.2 = []) → cleared n s s r.
Proof. intros H. split; [done|]. split; [by left|]. intros x d Hx%H. rewrite Hx. by intros ?%not_elem_of_nil. Qed.

Lemma delete_job_effect n i rm pe s r s' : delete_job_rows n i rm pe s = (r, s') → cleared n s s' r.
Proof.
  unfold delete_job_rows. unfold cbind at 1, read at 1. destruct (validate_job_id i); [|by intros [= <- <-]; apply cleared_nothing].
  unfold cbind at 1. destruct (with_locals _ _ s) as [r1 s1] eqn:E. unfold with_locals in E. destruct (in_writer _ _) as [r0 [s0 l0]] eqn:E0 in E.
  injection E as <- <-. apply in_writer_quiet in E0 as [Hi E0].
  2: { apply no_inputs_lift. apply no_files_bind; [apply read_no_files|]. intros ex. apply no_files_bind; [apply sql_no_files|]. intros _. apply ret_no_files. }
  destruct E0 as [[Ht Hr]|(sa & x & Ta & Ia & (sb & Hop & Hsb)%lift_ok & Hr)].
  { destruct r0; [discriminate|]. intros [= <- <-]. split; [done|]. split; [by left|by intros ? ? [=]]. }
  cbn [fst] in Hop. apply cbind_ok in Hop as (ex & s2 & [_ ->]%cmd_read_ok & Hop). apply cbind_ok in Hop as (u & s2 & (t & [= <-] & ->)%sql_ok & Hop).
  injection Hop as _ <-. injection Hsb as -> _. cbn [fst] in *. rewrite Ta in *.
  intros H. assert (s' = set_tables (delete_where (λ a : addr, bool_decide (a = (n, i))) pe (tables s)) sa) as -> by (destruct r0; by injection H).
  split; [by cbn|]. split; [right; left; eexists _, _; done|]. intros y d -> Hd. destruct r0 as [z|]; [|discriminate]. injection H as <-. cbn in Hd.
  destruct rm; [|by apply not_elem_of_nil in Hd]. apply list_elem_of_singleton in Hd as ->. split; [done|]. intros a0 ->. cbn.
  rewrite delete_where_registered, bool_decide_eq_true_2 by done. by rewrite andb_false_r.
Qed.

Lemma list_job_ids_elem t n i : i ∈ list_job_ids t n ↔ registered t (n, i) = true.
Proof.
  unfold list_job_ids. rewrite elem_of_py_sorted, list_elem_of_omap, registered_true. split.
  - intros ([[n' i'] x] & Hin%elem_of_map_to_list & H). cbn in H. case_bool_decide; [|discriminate]. subst. injection H as <-. eauto.
  - intros [x Hx]. exists ((n, i), x). split; [by apply elem_of_map_to_list|]. cbn. by rewrite bool_decide_eq_true_2.
Qed.

(** The end of both bulk deletions. *)
Lemma delete_rows_then {A} n (f : jdb → jdb) (x : A * list doomed) s r s' :
  (do! _ := delete_rows f in ret x) s = (r, s') →
  ((∃ P b, f = delete_where P b) ∨ ∃ b y, f (tables s) = set_sequences (<[n := 1]> (sequences (tables s))) (set_specs y (delete_where (at_node n) b (tables s)))) →
  (∀ d, d ∈ x.2 → doomed_node d = n ∧ ∀ a, dooms d a → registered (f (tables s)) a = false) → cleared n s s' r.
Proof.
  unfold cbind. intros H Hf Hx. destruct (delete_rows f s) as [[y|e] s1] eqn:E; destruct (delete_rows_cases _ _ _ _ E) as [Hi Hc].
  - injection H as <- <-. destruct Hc as [[_ Hr]|Ht]; [discriminate|]. split; [done|]. rewrite Ht. split.
    + right. destruct Hf as [(P & b & ->)|(b & z & ->)]; [left; eauto|right; eauto].
    + intros z d [= <-]. apply Hx.
  - injection H as <- <-. split; [done|]. split; [|by intros ? ? [=]]. destruct Hc as [[? _]|Heq]; [by left|rewrite Heq; right].
    destruct Hf as [(P & b & ->)|(b & z & ->)]; [left; eauto|right; eauto].
Qed.

Lemma delete_jobs_effect n ids rm pe s r s' : delete_jobs_rows n ids rm pe s = (r, s') → cleared n s s' r.
Proof.
  unfold delete_jobs_rows. unfold cbind at 1, read at 1. destruct (validate_node_name n) as [n'|] eqn:En; [|by intros [= <- <-]; apply cleared_nothing].
  apply validate_node_name_ok in En as ->.
  unfold cbind at 1, read at 1. destruct (rmap _ ids) as [ids'|]; [|by intros [= <- <-]; apply cleared_nothing]. unfold cbind at 1, read at 1.
  set (existing := list_job_ids (tables s) n). set (targets := filter (λ i, i ∈ ids') existing).
  case_bool_decide; [by intros [= <- <-]; apply cleared_nothing; intros ? [= <-]|].
  set (whole := bool_decide (targets = existing)). set (P := if whole then at_node n else among n targets).
  intros Hrun. eapply delete_rows_then; [exact Hrun|left; eauto|]. intros d Hd. cbn [snd] in Hd. destruct rm; [|by apply not_elem_of_nil in Hd].
  apply elem_of_app in Hd as [(i & -> & Hi)%list_elem_of_fmap|Hd].
  - split; [done|]. intros a ->. rewrite delete_where_registered.
    assert (P (n, i) = true) as ->; [|by rewrite andb_false_r]. unfold P, at_node, among.
    destruct whole; cbn; rewrite bool_decide_eq_true_2 by done; [done|]. cbn. by rewrite bool_decide_eq_true_2.
  - destruct whole eqn:Ew; [|by apply not_elem_of_nil in Hd]. apply list_elem_of_singleton in Hd as ->. split; [done|]. cbn. intros a <-.
    rewrite delete_where_registered. unfold P, at_node. rewrite bool_decide_eq_true_2 by done. by rewrite andb_false_r.
Qed.

Lemma delete_node_effect n rm pe s r s' : delete_node_rows n rm pe s = (r, s') → cleared n s s' r.
Proof.
  unfold delete_node_rows. unfold cbind at 1, read at 1. intros Hrun. eapply delete_rows_then; [exact Hrun| |].
  - right. exists pe, (filter (λ q : (string * string) * (Z * Z * string), q.1.1 ≠ n) (specs (delete_where (at_node n) pe (tables s)))). by rewrite delete_where_sequences.
  - intros d Hd. cbn [snd] in Hd. destruct rm; [|by apply not_elem_of_nil in Hd]. apply list_elem_of_singleton in Hd as ->. split; [done|]. cbn. intros a <-.
    assert (∀ x y t, registered (set_sequences x (set_specs y t)) a = registered t a) as -> by done.
    rewrite delete_where_registered. unfold at_node. rewrite bool_decide_eq_true_2 by done. by rewrite andb_false_r.
Qed.

(** Removing what a deletion left over. *)
Lemma remove_dir_effect d s r s' : remove_dir d s = (r, s') → (∀ a, dooms d a → registered (tables s) a = false) →
  tables s' = tables s ∧ ∀ a, ¬ dooms d a → inputs s' !! a = inputs s !! a.
Proof.
  intros H Hd. destruct d as [b|n]; cbn in H.
  - pose proof (rmtree_ignoring_cases b s) as [T I]. rewrite H in T, I. cbn in T, I. split; [done|]. intros a Ha.
    destruct I as [->| ->]; [done|]. rewrite lookup_delete_ne; [done|]. intros ->. by apply Ha.
  - unfold rmtree_node, catch, cbind in H. pose proof (file_call_tables s) as T. pose proof (file_call_no_files s) as I.
    destruct (file_call s) as [[x|e] s1]; cbn in *; injection H as _ <-; (split; [done|]); intros a Ha; cbn; rewrite ?map_lookup_filter, I; [|done].
    destruct (inputs s !! a) as [v|]; [|done]. cbn. by rewrite option_guard_True.
Qed.

(** ** Every interleaving of creations, deletions and other transactions *)

Definition group_transaction (ps : list AutoJobPublish) (fresh : instance_source) (s : store) : result (list outcome) * (store * group) :=
  in_writer (apply_group ps fresh) (s, Group ∅ ∅).

(** What other components' transactions leave alone. *)
Definition same_jobs (t t' : jdb) : Prop :=
  (∀ a, registered t' a = registered t a) ∧ idempotency t' = idempotency t ∧ sequences t' = sequences t.

(** A moment of the history: the store, and what the calls under way have done so far.  A
    call has prepared inputs it has neither discarded nor is done with, and drawn ids it may
    still commit; a node is closed while its jobs are being deleted, with the directories
    still to be removed. *)
Record history := History {
  at_store : store;
  prepared : gset addr;
  issued : gset addr;
  closed : gset string;
  leftover : list doomed
}.
Definition moved (h : history) (s : store) : history := History s (prepared h) (issued h) (closed h) (leftover h).
Definition idle (s : store) : history := History s ∅ ∅ ∅ [].
Definition addresses (js : list job) : gset addr := list_to_set (j_addr <$> js).
Definition opened (h : history) (n : string) : Prop := n ∉ closed h.

(** What calls do one after the other, as the framework makes them.  Batches are committed by
    the call that prepared them, a resolving batch with ids it has reserved.  A command that
    deletes jobs or rewinds a sequence has the node for itself ([cli/cleanup.py]: cleanup runs
    before workers start and owns the active-run slot): it closes the node when no call has
    inputs or ids there, nothing is created there until its last directory is removed, and
    then it opens the node again.  Creations at other nodes, its own further deletions and
    everything else go on between its transaction and each removal. *)
Inductive creation_step (h : history) : history → Prop :=
  | step_single q fresh v r s' : c_input q = Some v → opened h (j_node (c_job q)) →
      commit_single q fresh (at_store h) = (r, s') → creation_step h (moved h s')
  | step_prepared_single q fresh r s' : c_input q = None → opened h (j_node (c_job q)) → j_addr (c_job q) ∈ prepared h →
      commit_single q fresh (at_store h) = (r, s') → creation_step h (moved h s')
  | step_group ps fresh r s' l : Forall well_keyed ps → (∀ p, p ∈ ps → opened h (node_of p)) →
      group_transaction ps fresh (at_store h) = (r, (s', l)) → creation_step h (moved h s')
  | step_prepare js r s' : (∀ j, j ∈ js → opened h (j_node j)) → prepare_jobs_batch js (at_store h) = (r, s') →
      creation_step h (History s' (if is_ok r then prepared h ∪ addresses js else prepared h) (issued h) (closed h) (leftover h))
  | step_batch js ks producer shape time fresh r s' : (∀ j, j ∈ js → opened h (j_node j) ∧ j_addr j ∈ prepared h) →
      commit_batch js ks producer shape time fresh (at_store h) = (r, s') → creation_step h (moved h s')
  | step_resolving js ks producer shape time fresh r s' :
      (∀ j, j ∈ js → opened h (j_node j) ∧ j_addr j ∈ prepared h ∧ j_addr j ∈ issued h) →
      commit_resolving js ks producer shape time fresh (at_store h) = (r, s') → creation_step h (moved h s')
  | step_discard js r s' : discard_prepared_jobs js (at_store h) = (r, s') →
      creation_step h (History s' (prepared h ∖ addresses js) (issued h) (closed h) (leftover h))
  | step_reserve n count producer r s' : opened h n →
      reserve_job_ids component_snapshot_from_shape env n count producer (at_store h) = (r, s') →
      creation_step h (History s' (prepared h) (match r with Ok ids => issued h ∪ list_to_set ((λ i, (n, i)) <$> ids) | Err _ => issued h end)
                         (closed h) (leftover h))
  | step_done P I : P ⊆ prepared h → I ⊆ issued h → creation_step h (History (at_store h) P I (closed h) (leftover h))
  | step_advance n z t : advance_job_sequence (tables (at_store h)) n z = Ok t → creation_step h (moved h (set_tables t (at_store h)))
  | step_record n k i t : registered (tables (at_store h)) (n, i) = true →
      record_idempotent_job (tables (at_store h)) n k i = Ok t → creation_step h (moved h (set_tables t (at_store h)))
  | step_close n : (∀ a, a ∈ prepared h ∪ issued h → a.1 ≠ n) →
      creation_step h (History (at_store h) (prepared h) (issued h) ({[n]} ∪ closed h) (leftover h))
  | step_rewind n t z : n ∈ closed h → rewind_job_sequence_to_available (tables (at_store h)) n = Ok (t, z) →
      creation_step h (moved h (set_tables t (at_store h)))
  | step_delete_job n i rm pe r s' : n ∈ closed h → delete_job_rows n i rm pe (at_store h) = (r, s') →
      creation_step h (History s' (prepared h) (issued h) (closed h) (leftover h ++ match r with Ok x => x.2 | Err _ => [] end))
  | step_delete_jobs n ids rm pe r s' : n ∈ closed h → delete_jobs_rows n ids rm pe (at_store h) = (r, s') →
      creation_step h (History s' (prepared h) (issued h) (closed h) (leftover h ++ match r with Ok x => x.2 | Err _ => [] end))
  | step_delete_node n rm pe r s' : n ∈ closed h → delete_node_rows n rm pe (at_store h) = (r, s') →
      creation_step h (History s' (prepared h) (issued h) (closed h) (leftover h ++ match r with Ok x => x.2 | Err _ => [] end))
  | step_remove l1 d l2 r s' : leftover h = l1 ++ d :: l2 → remove_dir d (at_store h) = (r, s') →
      creation_step h (History s' (prepared h) (issued h) (closed h) (l1 ++ l2))
  | step_open n : (∀ d, d ∈ leftover h → doomed_node d ≠ n) →
      creation_step h (History (at_store h) (prepared h) (issued h) (closed h ∖ {[n]}) (leftover h))
  (** Other transactions, and writes to the input of a registered job ([ensure_job]). *)
  | step_other s' : same_jobs (tables (at_store h)) (tables s') →
      (∀ a, inputs s' !! a = inputs (at_store h) !! a ∨ (registered (tables s') a = true ∧ has_input s' a)) → creation_step h (moved h s').

Lemma group_effect ps fresh s r s' l : group_transaction ps fresh s = (r, (s', l)) → Forall well_keyed ps → sound s →
  (kept s s' ∧ is_ok r = false) ∨
  ∃ al, decided (tables s) ps al ∧ committed s s' (entry_of <$> al_pending al) ∧
    sequences (tables s') = (if bool_decide (al_pending al = []) then sequences (tables s) else al_next al ∪ sequences (tables s)) ∧
    (∀ y, y ∈ al_pending al → inputs s !! addr_of y = None ∧
       ∃ v, staging s !! staging_input y.1.2 = Some v ∧ inputs s' !! addr_of y = Some (Some v)) ∧
    (∀ b, b ∉ addr_of <$> al_pending al → inputs s' !! b = inputs s !! b) ∧
    (r = Ok (one_by_one (tables s) ∅ ps) ∨ is_ok r = false).
Proof.
  unfold group_transaction. intros H Hw Hs. destruct (in_writer_cases _ _ _ _ _ _ H) as [(Hi & Ht & _ & Hr)|(s1 & s2 & r' & T1 & I1 & S1 & _ & _ & Hop & Hi & Hc)].
  { left. split; [|done]. split; [done|]. intros b _. by rewrite Hi. }
  destruct Hc as [[Ht Hr]|(-> & os & -> & Hr)].
  - left. split; [|done]. split; [done|]. intros b Hb. rewrite Hi.
    pose proof (apply_group_own (inputs s) ps fresh (s1, Group ∅ ∅)) as Hown. rewrite Hop in Hown. apply Hown; [|done].
    split; cbn; [by rewrite I1|]. intros i c. by rewrite lookup_empty.
  - right. apply apply_group_ok in Hop as (Hos & al & D & G & Q & I & J). cbn [fst snd] in *. rewrite T1, I1, S1 in *.
    exists al. split; [done|]. split; [|split; [done|split; [done|split; [done|by rewrite <-Hos]]]].
    split; [done| |]; intros e (x & -> & Hx)%list_elem_of_fmap; cbn.
    + destruct x as [[i p] n]. apply (decided_pending _ _ _ D) in Hx as [Hp _]. rewrite Forall_lookup in Hw. exact (Hw i p Hp).
    + destruct (decided_ids _ _ _ D x Hx) as [Hlow _]. destruct (sound_next s (node_of x.1.2) Hs) as [Hone _]. cbn. lia.
Qed.

Lemma sound_removed s s' : sound s → removed s s' → sound s'.
Proof.
  intros Hs [Hi Hc]. assert (∀ t', tables s' = t' →
    (∀ a, registered t' a = true → registered (tables s) a = true) → (∀ n h k i, idempotency t' !! (n, h) = Some (k, i) → idempotency (tables s) !! (n, h) = Some (k, i) ∧ registered t' (n, i) = registered (tables s) (n, i)) →
    (∀ n, sequences t' !! n = sequences (tables s) !! n ∨ (sequences t' !! n = Some 1 ∧ ∀ i, registered t' (n, i) = false)) → sound s') as Hmain.
  { intros t' Ht Hreg Hkey Hseq. split; rewrite ?Ht.
    - intros n h k i Hk. destruct (Hkey _ _ _ _ Hk) as [Hk' ->]. by apply (sound_keys _ Hs) in Hk'.
    - intros a Ha%Hreg. by apply (sound_positive _ Hs).
    - intros n z. destruct (Hseq n) as [->|[-> _]]; [by apply (sound_sequences _ Hs)|]. intros [= <-]. lia.
    - intros n i Ha. destruct (Hseq n) as [->|[_ Hnone]]; [by apply (sound_below _ Hs), Hreg|]. rewrite Hnone in Ha. discriminate.
    - intros a Ha. rewrite Hi by (by rewrite Ht). apply (sound_inputs _ Hs), Hreg, Ha. }
  assert (∀ P b a, registered (delete_where P b (tables s)) a = true → registered (tables s) a = true) as Hdel.
  { intros P b a. rewrite delete_where_registered, andb_true_iff. tauto. }
  assert (∀ P b n h k i, idempotency (delete_where P b (tables s)) !! (n, h) = Some (k, i) → idempotency (tables s) !! (n, h) = Some (k, i) ∧ registered (delete_where P b (tables s)) (n, i) = registered (tables s) (n, i)) as Hdk.
  { intros P b n h k i [Hk HP]%delete_where_keys. cbn in HP. split; [done|]. rewrite delete_where_registered, HP. by rewrite andb_true_r. }
  destruct Hc as [Ht|[(P & b & Ht)|(n & b & x & Ht)]].
  - apply (Hmain _ Ht); auto.
  - apply (Hmain _ Ht); [apply Hdel|apply Hdk|]. intros n. rewrite delete_where_sequences. by left.
  - apply (Hmain _ Ht); [apply Hdel|apply Hdk|]. intros m. cbn. destruct (decide (m = n)) as [->|Hne]; [right|left; by rewrite lookup_insert_ne].
    rewrite lookup_insert_eq. split; [done|]. intros i.
    assert (∀ y z t a, registered (set_sequences y (set_specs z t)) a = registered t a) as -> by done.
    rewrite delete_where_registered. unfold at_node. cbn. rewrite bool_decide_eq_true_2 by done. by rewrite andb_false_r.
Qed.

Lemma sound_sequence s n z : sound s → 1 ≤ z → (∀ i, registered (tables s) (n, i) = true → i < z) →
  sound (set_tables (set_sequences (<[n := z]> (sequences (tables s))) (tables s)) s).
Proof.
  intros [A B C D E] Hz Hb. split; cbn; try done.
  - intros m y [[<- <-]|[_ Hy]]%lookup_insert_Some; [done|by eapply C].
  - intros m i Hi. destruct (decide (m = n)) as [->|Hne]; [rewrite lookup_insert_eq; eauto|]. rewrite lookup_insert_ne by done. by apply D.
Qed.

Lemma reserve_effect n count producer s r s' : reserve_job_ids component_snapshot_from_shape env n count producer s = (r, s') →
  inputs s' = inputs s ∧ (tables s' = tables s ∨
    (1 ≤ count ∧ tables s' = set_sequences (<[n := next_job_id (tables s) n + count]> (sequences (tables s))) (tables s))).
Proof.
  unfold reserve_job_ids. unfold cbind at 1, read at 1. destruct (require (1 <=? count) _ _) as [[]|] eqn:Hc; [|intros [= _ <-]; auto].
  apply require_ok, Z.leb_le in Hc. unfold cbind at 1, read at 1. destruct (validate_node_name n) as [n'|] eqn:Hn; [|intros [= _ <-]; auto].
  apply validate_node_name_ok in Hn as ->.
  unfold with_locals. destruct (in_writer _ _) as [r0 [s0 l0]] eqn:E. intros [= <- <-]. cbn [fst].
  apply in_writer_quiet in E as [Hi E]; [|apply no_inputs_lift, transactional_no_files]. split; [done|].
  destruct E as [[? _]|(s1 & x & T1 & _ & (s2 & Ht & Hp)%lift_ok & _)]; [by left|]. cbn [fst] in Ht. unfold transactional in Ht. rewrite T1 in Ht.
  unfold reserve in Ht. destruct (refuse_publication _ _ _ _ _); cbn in Ht; [|by left]. injection Ht as _ <-. injection Hp as -> _. right. split; [done|]. cbn. by rewrite ?T1.
Qed.

Lemma raised_positive s n z m y : sound s → 1 ≤ z → sequences (raise_sequence n z (tables s)) !! m = Some y → 1 ≤ y.
Proof.
  intros Hs Hz. unfold raise_sequence. cbn. intros [[<- <-]|[_ Hy]]%lookup_insert_Some; [|by eapply sound_sequences].
  destruct (sequences (tables s) !! n); lia.
Qed.
Lemma raised_keeps t n z m (i y : Z) : sequences t !! m = Some y → i < y → ∃ z', sequences (raise_sequence n z t) !! m = Some z' ∧ i < z'.
Proof.
  intros Hy Hi. unfold raise_sequence. cbn. destruct (decide (m = n)) as [->|Hne]; [|rewrite lookup_insert_ne by done; eauto].
  rewrite lookup_insert_eq, Hy. eexists. split; [done|]. lia.
Qed.
Lemma raised_above t n z (i : Z) : i < z → ∃ z', sequences (raise_sequence n z t) !! n = Some z' ∧ i < z'.
Proof.
  intros Hi. unfold raise_sequence. cbn. rewrite lookup_insert_eq. eexists. split; [done|]. destruct (sequences t !! n); lia.
Qed.

Lemma sound_single q fresh r s s' : sound s →
  (c_input q = None → has_input s (j_addr (c_job q))) → commit_single q fresh s = (r, s') → sound s'.
Proof.
  intros Hs Hin H. destruct (commit_single_effect _ _ _ _ _ H) as [[[Ht Hi] _]|(h & Hc & _ & _ & Hq & Hfile)]; [by eapply sound_same|].
  eapply (sound_grown s s' _ Hs Hc).
  - intros b Hb. destruct (c_input q); [|left; by rewrite Hfile]. destruct Hfile as [Hnone Hfile]. left. rewrite Hfile, lookup_insert_ne; [done|].
    intros <-. rewrite Hnone in Hb. by destruct Hb.
  - intros e ->%list_elem_of_singleton. cbn. destruct (c_input q) as [v|]; [destruct Hfile as [_ ->]; rewrite lookup_insert_eq; eauto|]. rewrite Hfile. by apply Hin.
  - intros n z. rewrite Hq. pose proof (committed_ids _ _ _ Hc _ (list_elem_of_here _ _)) as Hpos. cbn in Hpos. apply raised_positive; [done|lia].
  - intros n i z Hr Hz Hlt. rewrite Hq. by eapply raised_keeps.
  - intros e ->%list_elem_of_singleton. rewrite Hq. apply raised_above. cbn. lia.
Qed.

Lemma sound_group ps fresh s r s' l : sound s → Forall well_keyed ps → group_transaction ps fresh s = (r, (s', l)) → sound s'.
Proof.
  intros Hs Hw H. destruct (group_effect _ _ _ _ _ _ H Hw Hs) as [[[Ht Hi] _]|(al & D & Hc & Hq & Hin & Hout & _)]; [by eapply sound_same|].
  eapply (sound_grown s s' _ Hs Hc).
  - intros b Hb. destruct (decide (b ∈ addr_of <$> al_pending al)) as [Hy|Hn]; [right; by rewrite entry_addrs|left; by apply Hout].
  - intros e (x & -> & Hx)%list_elem_of_fmap. destruct (Hin x Hx) as [_ (v & _ & Hv)]. exists v. exact Hv.
  - intros n z. rewrite Hq. case_bool_decide; [apply (sound_sequences _ Hs)|]. intros [Hz|[_ Hz]]%lookup_union_Some_raw; [|by apply (sound_sequences _ Hs) in Hz].
    apply (decided_next _ _ _ D) in Hz. destruct (sound_next s n Hs). lia.
  - intros n i z Hr Hz Hlt. rewrite Hq. case_bool_decide; [eauto|]. destruct (al_next al !! n) as [y|] eqn:Ey.
    + exists y. split; [by apply lookup_union_Some_raw; left|]. apply (decided_next _ _ _ D) in Ey. destruct (sound_next s n Hs) as [_ Hb]. specialize (Hb i Hr). lia.
    + exists z. split; [|done]. apply lookup_union_Some_raw. by right.
  - intros e (x & -> & Hx)%list_elem_of_fmap. rewrite Hq. case_bool_decide as Hnil; [rewrite Hnil in Hx; by apply not_elem_of_nil in Hx|].
    destruct (decided_ids _ _ _ D x Hx) as (_ & z & Hz & Hlt). exists z. split; [|done]. apply lookup_union_Some_raw. by left.
Qed.

Lemma list_max_above (l : list Z) (i : Z) : i ∈ l → i ≤ foldr Z.max 0 l.
Proof. induction l as [|j l IH]; [by intros ?%not_elem_of_nil|]. cbn. intros [->|H]%elem_of_cons; [lia|]. specialize (IH H). lia. Qed.
Lemma list_max_nonneg (l : list Z) : 0 ≤ foldr Z.max 0 l.
Proof. induction l; cbn; lia. Qed.

Lemma with_keys_registered t s a : registered (tables (with_keys t s)) a = registered (tables s) a.
Proof. done. Qed.

(** Binding keys to registered jobs. *)
Lemma sound_rebound s s' es : sound (with_keys (tables s) s') → idempotency (tables s') = idempotency (upsert_keys es (tables s)) →
  (∀ n h k i, ((n, h), (k, i)) ∈ es → registered (tables s') (n, i) = true ∧ idempotency_key_hash k = Ok h) → sound s'.
Proof.
  intros [A B C D E] Hk Hes. split; try done. intros n h k i. rewrite Hk. cbn. intros [H|H]%upserted; [by apply Hes|by apply (A n h k i)].
Qed.

Lemma sound_batch js ks producer shape time fresh s r s' : sound s → (∀ j, j ∈ js → has_input s (j_addr j)) →
  commit_batch js ks producer shape time fresh s = (r, s') → sound s'.
Proof.
  intros Hs Hd H. destruct (batch_effect _ _ _ _ _ _ _ _ _ H) as [Hi [Ht|(n & ks' & N & Hn & _ & HN & Hc & Hkey & Hid & Hq)]]; [eapply sound_same; [done..|]; intros b _; by rewrite Hi|].
  assert (∀ e, e ∈ N → e.1 ∈ js) as Hjs by (intros e He; rewrite <-HN; apply list_elem_of_fmap; eauto).
  assert (∀ e, e ∈ keyless N → e.1 ∈ js) as Hjs' by (intros e (e0 & -> & He)%list_elem_of_fmap; exact (Hjs e0 He)).
  pose proof (list_max_nonneg (j_id <$> js)) as Hmax. eapply (sound_rebound s s' (entry_keys N)); [|exact Hid|].
  - eapply (sound_grown s _ _ Hs Hc).
    + intros b _. left. exact (f_equal (lookup b) Hi).
    + intros e He%Hjs'%Hd. unfold has_input in He. cbn. by rewrite Hi.
    + intros m z. cbn. rewrite Hq. apply raised_positive; [done|lia].
    + intros m i z Hr Hz Hlt. cbn. rewrite Hq. by eapply raised_keeps.
    + intros e He%Hjs'. cbn. rewrite Hq, (Hn _ He). apply raised_above. assert (j_id e.1 ≤ foldr Z.max 0 (j_id <$> js)); [|lia].
      apply list_max_above. apply list_elem_of_fmap. eauto.
  - intros m h k i (e & He & H2 & <- & <-)%entry_keys_elem. split.
    + rewrite <-(with_keys_registered (tables s) s'). apply (grown_registered _ _ _ _ (committed_rows _ _ _ Hc)). right.
      apply list_elem_of_fmap. exists (e.1, (None, None)). split; [done|]. apply list_elem_of_fmap. eauto.
    + destruct (Hkey e He) as [Hh _]. rewrite H2 in Hh. cbn in Hh. apply rbind_ok in Hh as (x & Hx & [= <-]). done.
Qed.

Lemma sound_resolving js ks producer shape time fresh s r s' : sound s →
  (∀ j, j ∈ js → has_input s (j_addr j) ∧ below_sequence (tables s) (j_addr j)) →
  commit_resolving js ks producer shape time fresh s = (r, s') → sound s'.
Proof.
  intros Hs Hd H. destruct (resolving_effect _ _ _ _ _ _ _ _ _ H) as (Hi & N & [Ht|[Hc Hq]] & HN & _); [eapply sound_same; [done..|]; intros b _; by rewrite Hi|].
  eapply (sound_grown s s' _ Hs Hc); rewrite ?Hq.
  - intros b _. left. by rewrite Hi.
  - intros e He. destruct (HN e He) as [Hj _]. rewrite Hi. by apply Hd.
  - apply (sound_sequences _ Hs).
  - eauto.
  - intros e He. destruct (HN e He) as [Hj _]. by apply Hd.
Qed.

(** What holds all along: calls find what they prepared and reserved, and nothing is
    registered where a deletion still removes directories. *)
Record tidy (h : history) : Prop := {
  tidy_sound : sound (at_store h);
  tidy_prepared : ∀ a, a ∈ prepared h → has_input (at_store h) a;
  tidy_issued : ∀ a, a ∈ issued h → below_sequence (tables (at_store h)) a;
  tidy_closed : ∀ a, a ∈ prepared h ∪ issued h → a.1 ∉ closed h;
  tidy_leftover : ∀ d, d ∈ leftover h → doomed_node d ∈ closed h ∧ ∀ a, dooms d a → registered (tables (at_store h)) a = false
}.

Lemma nothing_under_way s : sound s → tidy (idle s).
Proof. intros H. split; cbn; try done; try set_solver. Qed.

(** A step that keeps the inputs prepared, the sequences of ids issued, and adds no job at a
    closed node. *)
Definition harmless (h : history) (s' : store) : Prop :=
  (∀ a, a ∈ prepared h → has_input (at_store h) a → has_input s' a) ∧
  (∀ a, a ∈ issued h → below_sequence (tables (at_store h)) a → below_sequence (tables s') a) ∧
  ∀ a, a.1 ∈ closed h → registered (tables s') a = true → registered (tables (at_store h)) a = true.

Lemma tidy_moved h s' P I L : tidy h → sound s' → harmless h s' →
  (∀ a, a ∈ P → a ∈ prepared h ∨ opened h a.1 ∧ has_input s' a) →
  (∀ a, a ∈ I → a ∈ issued h ∨ opened h a.1 ∧ below_sequence (tables s') a) →
  (∀ d, d ∈ L → d ∈ leftover h ∨ doomed_node d ∈ closed h ∧ ∀ a, dooms d a → registered (tables s') a = false) →
  tidy (History s' P I (closed h) L).
Proof.
  intros [A B C D E] Hs (H1 & H2 & H3) HP HI HL. split; cbn; [done| | | |].
  - intros a [Ha|[_ Ha]]%HP; auto.
  - intros a [Ha|[_ Ha]]%HI; auto.
  - intros a [[Ha|[Ha _]]%HP|[Ha|[Ha _]]%HI]%elem_of_union; try done; apply D; set_solver.
  - intros d [Hd|Hd]%HL; [|done]. destruct (E d Hd) as [Hn Hr]. split; [done|]. intros a Ha. apply not_true_iff_false. intros Ht.
    apply H3 in Ht; [rewrite (Hr a Ha) in Ht; discriminate|]. assert (a.1 = doomed_node d) as ->; [|done]. destruct d; cbn in *; by subst.
Qed.

Lemma tidy_stays h s' : tidy h → sound s' → harmless h s' → tidy (moved h s').
Proof. intros Ht Hs Hh. apply tidy_moved; auto. Qed.

(** Steps that leave rows, keys and sequences alone, and every prepared input. *)
Lemma harmless_same h s' : tables s' = tables (at_store h) → (∀ a, is_Some (inputs (at_store h) !! a) → inputs s' !! a = inputs (at_store h) !! a) → harmless h s'.
Proof.
  intros Ht Hi. unfold harmless. rewrite Ht. split_and!; [|done|done]. intros a _ [v Hv]. exists v. rewrite Hi; eauto.
Qed.

(** Steps that register jobs at open nodes. *)
Lemma harmless_grown h t' s' N : (∀ a, has_input (at_store h) a → has_input s' a) →
  grown (tables (at_store h)) t' N → (∀ a, registered (tables s') a = registered t' a) → (∀ e, e ∈ N → opened h (j_node e.1)) →
  (∀ n i z, sequences (tables (at_store h)) !! n = Some z → i < z → ∃ z', sequences (tables s') !! n = Some z' ∧ i < z') → harmless h s'.
Proof.
  intros Hi G Ht HN Hq. split_and!; [auto| |].
  - intros [n i] _ (z & Hz & Hlt). exact (Hq n i z Hz Hlt).
  - intros a Ha. rewrite Ht. intros [Hr|(e & -> & He)%list_elem_of_fmap]%(grown_registered _ _ _ _ G); [done|]. by apply HN in He.
Qed.

Lemma tidy_single h q fresh r s' : tidy h → (c_input q = None → j_addr (c_job q) ∈ prepared h) → opened h (j_node (c_job q)) →
  commit_single q fresh (at_store h) = (r, s') → tidy (moved h s').
Proof.
  intros Ht Hp Ho H. apply tidy_stays; [done|eapply sound_single; [by apply tidy_sound| |exact H]; intros Hn; by apply (tidy_prepared h Ht), Hp|].
  destruct (commit_single_effect _ _ _ _ _ H) as [[[T I] _]|(k & Hc & _ & _ & Hq & Hfile)]; [by apply harmless_same|].
  eapply harmless_grown; [|exact (committed_rows _ _ _ Hc)|done|by intros e ->%list_elem_of_singleton|].
  - intros a [v Hv]. exists v. destruct (c_input q); [|by rewrite Hfile]. destruct Hfile as [Hnone ->]. rewrite lookup_insert_ne; [done|].
    intros Heq. rewrite Heq, Hv in Hnone. discriminate.
  - intros n i z Hz Hlt. rewrite Hq. by eapply raised_keeps.
Qed.

Lemma tidy_group h ps fresh r s' l : tidy h → Forall well_keyed ps → (∀ p, p ∈ ps → opened h (node_of p)) →
  group_transaction ps fresh (at_store h) = (r, (s', l)) → tidy (moved h s').
Proof.
  intros Ht Hw Ho H. pose proof (tidy_sound _ Ht) as Hs. apply tidy_stays; [done|by eapply sound_group|].
  destruct (group_effect _ _ _ _ _ _ H Hw Hs) as [[[T I] _]|(al & D & Hc & Hq & Hin & Hout & _)]; [by apply harmless_same|].
  eapply harmless_grown; [|exact (committed_rows _ _ _ Hc)|done| |].
  - intros a [v Hv]. destruct (decide (a ∈ addr_of <$> al_pending al)) as [(y & -> & Hy)%list_elem_of_fmap|Hn]; [|exists v; by rewrite Hout].
    destruct (Hin y Hy) as [Hnone _]. rewrite Hnone in Hv. discriminate.
  - intros e ([[m p] n] & -> & Hx)%list_elem_of_fmap. apply (decided_pending _ _ _ D) in Hx as [Hp _]. apply (Ho p). by eapply list_elem_of_lookup_2.
  - intros n i z Hz Hlt. rewrite Hq. case_bool_decide; [eauto|]. destruct (al_next al !! n) as [y|] eqn:Ey.
    + exists y. split; [by apply lookup_union_Some_raw; left|]. apply (decided_next _ _ _ D) in Ey. unfold next_job_id in Ey. rewrite Hz in Ey. cbn in Ey. lia.
    + exists z. split; [|done]. apply lookup_union_Some_raw. by right.
Qed.

Lemma tidy_prepare h js r s' : tidy h → (∀ j, j ∈ js → opened h (j_node j)) → prepare_jobs_batch js (at_store h) = (r, s') →
  tidy (History s' (if is_ok r then prepared h ∪ addresses js else prepared h) (issued h) (closed h) (leftover h)).
Proof.
  intros Ht Ho H. destruct (prepare_effect _ _ _ _ H) as [T I]. apply tidy_moved; auto.
  - eapply sound_same; [by apply tidy_sound|done..].
  - by apply harmless_same.
  - intros a Ha. destruct r as [[]|e]; cbn in Ha; [|by left]. apply elem_of_union in Ha as [Ha|Ha]; [by left|right].
    apply elem_of_list_to_set, list_elem_of_fmap in Ha as (j & -> & Hj). split; [by apply Ho|]. by eapply prepare_written.
Qed.

Lemma tidy_batch h js ks producer shape time fresh r s' : tidy h → (∀ j, j ∈ js → opened h (j_node j) ∧ j_addr j ∈ prepared h) →
  commit_batch js ks producer shape time fresh (at_store h) = (r, s') → tidy (moved h s').
Proof.
  intros Ht Hj H. apply tidy_stays; [done|eapply sound_batch; [by apply tidy_sound| |exact H]; intros j Hin; by apply (tidy_prepared h Ht), Hj|].
  destruct (batch_effect _ _ _ _ _ _ _ _ _ H) as [Hi [T|(n & ks' & N & Hn & _ & HN & Hc & _ & _ & Hq)]]; [apply harmless_same; [done|]; intros b _; by rewrite Hi|].
  eapply harmless_grown; [|exact (committed_rows _ _ _ Hc)|done| |].
  - intros a. unfold has_input. by rewrite Hi.
  - intros e (e0 & -> & He)%list_elem_of_fmap. cbn. apply Hj. rewrite <-HN. apply list_elem_of_fmap. eauto.
  - intros m i z Hz Hlt. rewrite Hq. by eapply raised_keeps.
Qed.

Lemma tidy_resolving h js ks producer shape time fresh r s' : tidy h →
  (∀ j, j ∈ js → opened h (j_node j) ∧ j_addr j ∈ prepared h ∧ j_addr j ∈ issued h) →
  commit_resolving js ks producer shape time fresh (at_store h) = (r, s') → tidy (moved h s').
Proof.
  intros Ht Hj H. apply tidy_stays; [done|eapply sound_resolving; [by apply tidy_sound| |exact H]|].
  { intros j Hin. split; [by apply (tidy_prepared h Ht), Hj|by apply (tidy_issued h Ht), Hj]. }
  destruct (resolving_effect _ _ _ _ _ _ _ _ _ H) as (Hi & N & [T|[Hc Hq]] & HN & _); [apply harmless_same; [done|]; intros b _; by rewrite Hi|].
  eapply harmless_grown; [|exact (committed_rows _ _ _ Hc)|done| |].
  - intros a. unfold has_input. by rewrite Hi.
  - intros e He. apply Hj. by apply HN.
  - rewrite Hq. eauto.
Qed.

Lemma tidy_discard h js r s' : tidy h → discard_prepared_jobs js (at_store h) = (r, s') →
  tidy (History s' (prepared h ∖ addresses js) (issued h) (closed h) (leftover h)).
Proof.
  intros Ht H. pose proof (discard_stays js (tables (at_store h)) (inputs (at_store h)) (at_store h)) as Hx. rewrite H in Hx. destruct Hx as [T I]; [done|]. cbn in T, I.
  pose proof (tidy_sound _ Ht) as [A B C D E]. pose proof (tidy_prepared _ Ht) as HP.
  assert (sound s') as Hs by (split; rewrite ?T; try done; intros a Ha; destruct (E a Ha) as [v Hv]; exists v; rewrite I; auto).
  destruct Ht as [_ _ F G K]. split; cbn; rewrite ?T; [done| |done| |done].
  - intros a [Ha Hn]%elem_of_difference. destruct (HP a Ha) as [v Hv]. exists v. rewrite I; [done|]. right. intros Hin. apply Hn. by apply elem_of_list_to_set.
  - intros a Ha. apply G. set_solver.
Qed.

Lemma reserved_below n count producer s ids s' : reserve_job_ids component_snapshot_from_shape env n count producer s = (Ok ids, s') →
  ∀ i, i ∈ ids → ∃ z, sequences (tables s') !! n = Some z ∧ i < z.
Proof.
  unfold reserve_job_ids. intros H. apply cbind_ok in H as ([] & s1 & [Hc ->]%cmd_read_ok & H).
  apply cbind_ok in H as (n' & s2 & [->%validate_node_name_ok ->]%cmd_read_ok & H). unfold with_locals in H.
  destruct (in_writer _ _) as [r0 [s0 l0]] eqn:E. injection H as -> <-. cbn [fst].
  apply in_writer_quiet in E as [_ E]; [|apply no_inputs_lift, transactional_no_files].
  destruct E as [[_ ?]|(sa & x & Ta & _ & (s3 & Ht & Hp)%lift_ok & [[= <-]|?])]; try discriminate. cbn [fst] in Ht.
  unfold transactional in Ht. rewrite Ta in Ht. unfold reserve in Ht. destruct (refuse_publication _ _ _ _ _); cbn in Ht; [|discriminate].
  injection Ht as <- <-. injection Hp as -> _. intros i (m & -> & Hm%elem_of_seq)%list_elem_of_fmap. cbn.
  rewrite ?Ta. eexists. split; [apply lookup_insert_eq|]. lia.
Qed.

Lemma tidy_reserve h n count producer r s' : tidy h → opened h n →
  reserve_job_ids component_snapshot_from_shape env n count producer (at_store h) = (r, s') →
  tidy (History s' (prepared h) (match r with Ok ids => issued h ∪ list_to_set ((λ i, (n, i)) <$> ids) | Err _ => issued h end) (closed h) (leftover h)).
Proof.
  intros Ht Ho H. pose proof (tidy_sound _ Ht) as Hs. destruct (reserve_effect _ _ _ _ _ _ H) as [Hi Hc].
  assert (∀ a, a ∈ (match r with Ok ids => issued h ∪ list_to_set ((λ i, (n, i)) <$> ids) | Err _ => issued h end) →
    a ∈ issued h ∨ opened h a.1 ∧ below_sequence (tables s') a) as Hnew.
  { intros a Ha. destruct r as [ids|e]; [|by left]. apply elem_of_union in Ha as [Ha|Ha]; [by left|right].
    apply elem_of_list_to_set, list_elem_of_fmap in Ha as (i & -> & Hin). split; [done|]. eapply (reserved_below n); [exact H|done]. }
  destruct Hc as [T|[Hc T]].
  - apply tidy_moved; auto; [eapply sound_same; [done..|]|apply harmless_same; [done|]]; intros b _; by rewrite Hi.
  - destruct (sound_next _ n Hs) as [H1 H2]. pose proof (sound_sequence (at_store h) n (next_job_id (tables (at_store h)) n + count) Hs) as Hx.
    apply tidy_moved; auto.
    + eapply (sound_same _ s'); [apply Hx; [lia|intros i Hr; specialize (H2 i Hr); lia]|exact T|intros b _; by rewrite Hi].
    + split_and!; [intros a _; unfold has_input; by rewrite Hi| |by rewrite T].
      intros [m i] _ (z & Hz & Hlt). rewrite T. unfold below_sequence. cbn. destruct (decide (m = n)) as [->|Hne]; [|rewrite lookup_insert_ne by done; eauto].
      rewrite lookup_insert_eq. eexists. split; [done|]. unfold next_job_id. cbn in Hz. rewrite Hz. cbn in *. lia.
Qed.

Lemma tidy_cleared {A} h n (r : result (A * list doomed)) s' : tidy h → n ∈ closed h → cleared n (at_store h) s' r →
  tidy (History s' (prepared h) (issued h) (closed h) (leftover h ++ match r with Ok x => x.2 | Err _ => [] end)).
Proof.
  intros Ht Hn Hc. pose proof (sound_removed _ _ (tidy_sound _ Ht) (cleared_removed _ _ _ _ Hc)) as Hs. destruct Hc as (Hi & Hc & Hd).
  assert (∀ a, registered (tables s') a = true → registered (tables (at_store h)) a = true) as Hr.
  { intros a. destruct Hc as [->|[(P & b & ->)|(b & x & ->)]]; [done| |]; [|assert (∀ y z t, registered (set_sequences y (set_specs z t)) a = registered t a) as -> by done];
      rewrite delete_where_registered, andb_true_iff; tauto. }
  apply tidy_moved; auto.
  - split_and!; [intros a _; unfold has_input; by rewrite Hi| |auto]. intros [m i] Hm Hb.
    assert (m ≠ n) as Hne by (intros ->; apply (tidy_closed _ Ht (n, i)); [set_solver|done]). unfold below_sequence in *.
    destruct Hc as [->|[(P & b & ->)|(b & x & ->)]]; [done|by rewrite delete_where_sequences|]. cbn in *. by rewrite lookup_insert_ne.
  - intros d [Hin|Hin]%elem_of_app; [by left|right]. destruct r as [x|]; [|by apply not_elem_of_nil in Hin].
    destruct (Hd x d eq_refl Hin) as [-> ?]. by split.
Qed.

Lemma tidy_remove h l1 d l2 r s' : tidy h → leftover h = l1 ++ d :: l2 → remove_dir d (at_store h) = (r, s') →
  tidy (History s' (prepared h) (issued h) (closed h) (l1 ++ l2)).
Proof.
  intros Ht Hl H. destruct (tidy_leftover _ Ht d) as [Hn Hd]; [rewrite Hl; apply elem_of_app; right; apply list_elem_of_here|].
  destruct (remove_dir_effect _ _ _ _ H Hd) as [T I]. apply tidy_moved; auto.
  - pose proof (tidy_sound _ Ht) as [A B C D E]. split; rewrite ?T; try done. intros a Ha. rewrite I; [by apply E|]. intros Hx%Hd. congruence.
  - split_and!; rewrite ?T; [|done|done]. intros a Ha [v Hv]. exists v. rewrite I; [done|]. intros Hx.
    apply (tidy_closed _ Ht a); [set_solver|]. assert (a.1 = doomed_node d) as ->; [|done]. destruct d; cbn in *; by subst.
  - intros x Hx. left. rewrite Hl. set_solver.
Qed.

Lemma tidy_step h h' : tidy h → creation_step h h' → tidy h'.
Proof.
  intros Ht Hstep. pose proof (tidy_sound _ Ht) as Hs. destruct Hstep as [q fresh v r s' Hv Ho H|q fresh r s' Hv Ho Hp H|ps fresh r s' l Hw Ho H|js r s' Ho H|js ks pr sh ti fr r s' Hj H|
    js ks pr sh ti fr r s' Hj H|js r s' H|n c pr r s' Ho H|P I HP HI|n z t H|n k i t Hr H|n Hn|n t z Hn H|n i rm pe r s' Hn H|n ids rm pe r s' Hn H|n rm pe r s' Hn H|
    l1 d l2 r s' Hl H|n Hn|s' (H1 & H2 & H3) H4].
  - eapply tidy_single; [done| |done|exact H]. congruence.
  - by eapply tidy_single.
  - by eapply tidy_group.
  - by eapply tidy_prepare.
  - by eapply tidy_batch.
  - by eapply tidy_resolving.
  - by eapply tidy_discard.
  - by eapply tidy_reserve.
  - apply tidy_moved; auto; by apply harmless_same.
  - unfold advance_job_sequence in H. apply rbind_ok in H as (n' & _ & H). apply rbind_ok in H as (z' & Hz & [= <-]).
    unfold validate_job_id in Hz. apply rbind_ok in Hz as ([] & Hz%require_ok & [= <-]). apply tidy_stays; [done| |].
    + apply sound_sequence; [done| |].
      * destruct (sequences (tables (at_store h)) !! n') as [y|] eqn:E; [apply (sound_sequences _ Hs) in E|]; lia.
      * intros i Hr. destruct (sound_below _ Hs n' i Hr) as (y & -> & Hy). lia.
    + split_and!; [done| |done]. intros [m i] _ (y & Hy & Hlt). by eapply raised_keeps.
  - unfold record_idempotent_job in H. apply rbind_ok in H as (i' & Hi & H). apply rbind_ok in H as (x & Hx & [= <-]).
    unfold validate_job_id in Hi. apply rbind_ok in Hi as ([] & _ & [= <-]). apply tidy_stays; [done| |by split_and!].
    eapply (sound_rebound (at_store h) _ [((n, x), (k, i))]); [by destruct Hs; split|done|].
    by intros m y k' i' [= -> -> -> ->]%list_elem_of_singleton.
  - destruct Ht as [A B C D E]. split; cbn; auto.
    + intros a Ha. specialize (D a Ha). specialize (Hn a Ha). set_solver.
    + intros d Hd. destruct (E d Hd). set_solver.
  - unfold rewind_job_sequence_to_available in H. apply rbind_ok in H as (n' & ->%validate_node_name_ok & [= <- _]). apply tidy_stays; [done| |].
    + apply sound_sequence; [done| |].
      * pose proof (max_job_id_nonneg (tables (at_store h)) n). lia.
      * intros i Hr%max_job_id_bound. lia.
    + split_and!; [done| |done]. intros [m i] Hm (y & Hy & Hlt). unfold below_sequence. cbn. rewrite lookup_insert_ne; [eauto|].
      intros ->. apply (tidy_closed _ Ht (m, i)); [set_solver|done].
  - eapply tidy_cleared; [done|exact Hn|by eapply delete_job_effect].
  - eapply tidy_cleared; [done|exact Hn|by eapply delete_jobs_effect].
  - eapply tidy_cleared; [done|exact Hn|by eapply delete_node_effect].
  - by eapply tidy_remove.
  - destruct Ht as [A B C D E]. split; cbn; auto.
    + intros a Ha. specialize (D a Ha). set_solver.
    + intros d Hd. destruct (E d Hd). specialize (Hn d Hd). set_solver.
  - assert (∀ a, has_input (at_store h) a → has_input s' a) as Hin.
    { intros a [v Hv]. destruct (H4 a) as [Heq|[_ ?]]; [exists v; by rewrite Heq|done]. }
    apply tidy_stays; [done| |].
    + destruct Hs as [A B C D E]. split; [intros n x k i; rewrite H2, H1; apply A|intros a; rewrite H1; apply B|intros n z; rewrite H3; apply C|
        intros n i; rewrite H1, H3; apply D|intros a; rewrite H1; intros Ha; by apply Hin, E].
    + split_and!; [auto| |]; unfold below_sequence; rewrite ?H3; [done|]. intros a _. by rewrite H1.
Qed.

(** C24: from a sound state in which no call is under way, whatever creations, deletions and
    other transactions happen, with deletions and their directory removals interleaved with
    everything else, and whichever file calls and commits fail or are interrupted: every
    idempotency key names a registered job, job ids stay below their node's sequence, so an
    allocated id is free, every registered job has its input on disk, and so has every job
    prepared for a later commit; reserved ids stay below their sequence.  The conditions are
    those of [creation_step]: a batch is committed by the call that prepared it, a resolving
    one with ids it reserved, jobs of a node are deleted and its sequence rewound only while
    no call has inputs or ids there, and nothing is created there before the removals end. *)
Theorem creation_sound s h : sound s → rtc creation_step (idle s) h →
  (∀ n x k i, idempotency (tables (at_store h)) !! (n, x) = Some (k, i) →
     registered (tables (at_store h)) (n, i) = true ∧ idempotency_key_hash k = Ok x) ∧
  (∀ n i, registered (tables (at_store h)) (n, i) = true → 1 ≤ i < next_job_id (tables (at_store h)) n) ∧
  (∀ a, registered (tables (at_store h)) a = true ∨ a ∈ prepared h → ∃ v, inputs (at_store h) !! a = Some (Some v)) ∧
  (∀ n i, (n, i) ∈ issued h → i < next_job_id (tables (at_store h)) n).
Proof.
  intros Hs Hr. assert (tidy h) as [[A B C D E] P I _ _].
  { apply (nothing_under_way s) in Hs. induction Hr; eauto using tidy_step. }
  assert (∀ a, below_sequence (tables (at_store h)) a → a.2 < next_job_id (tables (at_store h)) a.1) as Hlt.
  { intros a (z & Hz & Hlt). unfold next_job_id. by rewrite Hz. }
  split_and!; [done| | |].
  - intros n i Hi. split; [exact (B (n, i) Hi)|]. exact (Hlt (n, i) (D n i Hi)).
  - intros a [Ha|Ha]; [by apply E|by apply P].
  - intros n i Hi. exact (Hlt (n, i) (I _ Hi)).
Qed.

(** What a step does to the keys of jobs that stay registered. *)
Lemma removed_keys s s' n h k i : removed s s' → idempotency (tables s) !! (n, h) = Some (k, i) → registered (tables s') (n, i) = true →
  idempotency (tables s') !! (n, h) = Some (k, i).
Proof.
  intros [_ [->|[(P & b & Ht)|(m & b & x & Ht)]]] Hk Hr; [done|rewrite Ht in *|rewrite Ht in *].
  - apply delete_where_keys. split; [done|]. rewrite delete_where_registered in Hr. apply andb_true_iff in Hr as [_ Hr]. by apply negb_true_iff in Hr.
  - cbn. apply delete_where_keys. split; [done|]. assert (∀ y z t a, registered (set_sequences y (set_specs z t)) a = registered t a) as E by done.
    rewrite E, delete_where_registered in Hr. apply andb_true_iff in Hr as [_ Hr]. by apply negb_true_iff in Hr.
Qed.

Lemma live_key_spec t n h k i : live_key t n h = Some (k, i) ↔ idempotency t !! (n, h) = Some (k, i) ∧ registered t (n, i) = true.
Proof.
  unfold live_key. destruct (idempotency t !! (n, h)) as [[k' i']|]; cbn; [|split; [discriminate|by intros [? _]]].
  destruct (registered t (n, i')) eqn:E; split; [by intros [= -> ->]|by intros [[= -> ->] _]|discriminate|]. intros [[= -> ->] H]. congruence.
Qed.

Lemma upserted_in (es : list ((string * string) * (string * Z))) : ∀ (m : gmap (string * string) (string * Z)) k,
  k ∈ es.*1 → ∃ v, foldl (λ m q, <[q.1 := q.2]> m) m es !! k = Some v ∧ (k, v) ∈ es.
Proof.
  induction es as [|[k' v'] es IH]; intros m k; cbn [fmap list_fmap foldl fst snd]; [by intros ?%not_elem_of_nil|]. intros Hk.
  destruct (decide (k ∈ es.*1)) as [Hin|Hn]; [destruct (IH (<[k' := v']> m) k Hin) as (v & ? & ?); exists v; split; [done|by apply list_elem_of_further]|].
  apply elem_of_cons in Hk as [->|?]; [|done]. exists v'. rewrite upserted_else, lookup_insert_eq by done. split; [done|apply list_elem_of_here].
Qed.

(** A call that binds a key whatever it named: a plain batch with this key, to its own job, or
    [record_idempotent_job], to the job it is told. *)
Definition binds_anew (h h' : history) (n x k : string) (i : Z) : Prop :=
  live_key (tables (at_store h')) n x = Some (k, i) ∧ idempotency_key_hash k = Ok x ∧
  ((∃ js ks producer shape time fresh r m j, commit_batch js (Some ks) producer shape time fresh (at_store h) = (r, at_store h') ∧
      js !! m = Some j ∧ ks !! m = Some (Some k) ∧ j_addr j = (n, i)) ∨
   ∃ t, record_idempotent_job (tables (at_store h)) n k i = Ok t ∧ at_store h' = set_tables t (at_store h)).

Lemma batch_keys_some js keys ks m (k : string) : batch_keys js keys = Ok ks → ks !! m = Some (Some k) → keys = Some ks.
Proof.
  unfold batch_keys. intros (u & _ & [= <-])%rbind_ok. destruct keys as [ks|]; [done|]. cbn. by intros [? _]%lookup_replicate.
Qed.

Lemma batch_binds h js keys producer shape time fresh r s' n x k i : tidy h →
  commit_batch js keys producer shape time fresh (at_store h) = (r, s') → idempotency (tables (at_store h)) !! (n, x) = Some (k, i) →
  idempotency (tables s') !! (n, x) = Some (k, i) ∨ ∃ k' i', binds_anew h (moved h s') n x k' i'.
Proof.
  intros Ht H Hk. destruct (batch_effect _ _ _ _ _ _ _ _ _ H) as [_ [->|(n0 & ks & N & Hn & Hks & HN & Hc & Hkey & Hid & _)]]; [by left|].
  destruct (decide ((n, x) ∈ (entry_keys N).*1)) as [Hin|Hno].
  2: { left. rewrite Hid. cbn. by rewrite upserted_else. }
  right. destruct (upserted_in _ (idempotency (tables (at_store h))) _ Hin) as ([k' i'] & Hl & He).
  apply entry_keys_elem in He as (e & He & H2 & Hn' & Hi'). destruct (Hkey e He) as [Hh (m & Hj & Hm)]. rewrite H2 in Hh, Hm. cbn in Hh, Hm.
  apply rbind_ok in Hh as (x' & Hx & [= ->]). exists k', i'. split; [|split; [done|]].
  - apply live_key_spec. cbn. split; [rewrite Hid; exact Hl|].
    rewrite <-(with_keys_registered (tables (at_store h)) s'). apply (grown_registered _ _ _ _ (committed_rows _ _ _ Hc)). right.
    apply list_elem_of_fmap. exists (e.1, (None, None)). split; [by rewrite <-Hn', <-Hi'|]. apply list_elem_of_fmap. eauto.
  - left. pose proof (batch_keys_some _ _ _ _ _ Hks Hm) as ->. exists js, ks, producer, shape, time, fresh, r, m, e.1.
    split; [exact H|]. split; [done|]. split; [done|]. unfold j_addr. by rewrite Hn', Hi'.
Qed.

Lemma step_keys h h' n x k i : tidy h → creation_step h h' → idempotency (tables (at_store h)) !! (n, x) = Some (k, i) →
  registered (tables (at_store h')) (n, i) = true →
  idempotency (tables (at_store h')) !! (n, x) = Some (k, i) ∨ ∃ k' i', binds_anew h h' n x k' i'.
Proof.
  intros Ht Hstep Hk Hr. pose proof (tidy_sound _ Ht) as Hs.
  assert (∀ s' N, committed (at_store h) s' N → idempotency (tables s') !! (n, x) = Some (k, i)) as Hgrow.
  { intros s' N [G _ _]. apply (grown_keys _ _ _ G). by left. }
  destruct Hstep as [q fresh v r s' Hv Ho H|q fresh r s' Hv Ho Hp H|ps fresh r s' l Hw Ho H|js r s' Ho H|js ks pr sh ti fr r s' Hj H|
    js ks pr sh ti fr r s' Hj H|js r s' H|m c pr r s' Ho H|P I HP HI|m z t H|m k1 j t Hr1 H|m Hm|m t z Hm H|m j rm pe r s' Hm H|m ids rm pe r s' Hm H|m rm pe r s' Hm H|
    l1 d l2 r s' Hl H|m Hm|s' (H1 & H2 & H3) H4]; cbn in *.
  - left. destruct (commit_single_effect _ _ _ _ _ H) as [[[-> _] _]|(h' & Hc & _)]; [done|by eapply Hgrow].
  - left. destruct (commit_single_effect _ _ _ _ _ H) as [[[-> _] _]|(h' & Hc & _)]; [done|by eapply Hgrow].
  - left. destruct (group_effect _ _ _ _ _ _ H Hw Hs) as [[[-> _] _]|(al & _ & Hc & _)]; [done|by eapply Hgrow].
  - left. by destruct (prepare_effect _ _ _ _ H) as [-> _].
  - by eapply batch_binds.
  - left. destruct (resolving_effect _ _ _ _ _ _ _ _ _ H) as (_ & N & [->|[Hc _]] & _); [done|by eapply Hgrow].
  - left. pose proof (discard_stays js (tables (at_store h)) (inputs (at_store h)) (at_store h)) as Hx. rewrite H in Hx. destruct Hx as [T _]; [done|]. cbn in T. by rewrite T.
  - left. destruct (reserve_effect _ _ _ _ _ _ H) as [_ [->|[_ ->]]]; done.
  - by left.
  - left. unfold advance_job_sequence in H. apply rbind_ok in H as (n' & _ & H). by apply rbind_ok in H as (z' & _ & [= <-]).
  - pose proof H as Hrec. unfold record_idempotent_job in H. apply rbind_ok in H as (j' & Hj & H). apply rbind_ok in H as (y & Hy & [= <-]).
    unfold validate_job_id in Hj. apply rbind_ok in Hj as ([] & _ & [= <-]). cbn.
    destruct (decide ((m, y) = (n, x))) as [[= -> ->]|Hne]; [right|left; by rewrite lookup_insert_ne].
    exists k1, j. split; [|split; [done|right; eauto]]. apply live_key_spec. cbn. by rewrite lookup_insert_eq.
  - by left.
  - left. unfold rewind_job_sequence_to_available in H. by apply rbind_ok in H as (n' & _ & [= <- _]).
  - left. eapply removed_keys; [eapply cleared_removed, delete_job_effect; exact H|done..].
  - left. eapply removed_keys; [eapply cleared_removed, delete_jobs_effect; exact H|done..].
  - left. eapply removed_keys; [eapply cleared_removed, delete_node_effect; exact H|done..].
  - left. destruct (tidy_leftover _ Ht d) as [_ Hd]; [rewrite Hl; apply elem_of_app; right; apply list_elem_of_here|].
    by destruct (remove_dir_effect _ _ _ _ H Hd) as [-> _].
  - by left.
  - left. by rewrite H2.
Qed.

Lemma live_key_resolves s n h k i : sound s → live_key (tables s) n h = Some (k, i) →
  idempotency_key_hash k = Ok h ∧ ∀ h', optional idempotency_key_hash (Some k) = Ok h' → resolve_key (tables s) n (Some k) h' = Ok (Some i).
Proof.
  intros Hs Hl. pose proof Hl as [Hk _]%live_key_spec. apply (sound_keys _ Hs) in Hk as [_ Hh]. split; [done|].
  intros h'. cbn. rewrite Hh. cbn. intros [= <-]. unfold resolve_key. rewrite Hl. cbn. by rewrite bool_decide_eq_true_2.
Qed.

(** A resolving batch that carries a key whose job is registered. *)
Lemma resolved_batch h n x k i js ks ks' hs N found m j : tidy h → live_key (tables (at_store h)) n x = Some (k, i) →
  batch_keys js (Some ks) = Ok ks' → batch_hashes [] ks' = Ok hs → one_node js = Ok n →
  resolve_entries (tables (at_store h)) (zip js (zip ks' hs)) = Ok (N, found) →
  js !! m = Some j → ks !! m = Some (Some k) → j_node j = n →
  (k, i) ∈ found ∧ (∀ z, (k, z) ∈ found → z = i) ∧ (NoDup js → j ∉ N.*1).
Proof.
  intros Ht Hl Hks Hhs Hone Hre Hj Hm Hn. destruct (live_key_resolves _ _ _ _ _ (tidy_sound _ Ht) Hl) as [Hh Hres].
  destruct (resolve_entries_ok _ _ _ _ Hre) as [RN RF]. apply batch_hashes_ok in Hhs as HF.
  assert (ks' = ks) as -> by (unfold batch_keys in Hks; by apply rbind_ok in Hks as (? & _ & [= <-])).
  assert (∀ e, e ∈ zip js (zip ks hs) → e.2.1 = Some k → resolve_key (tables (at_store h)) (j_node e.1) e.2.1 e.2.2 = Ok (Some i)) as Hget.
  { intros e He Hk. destruct (entries_keyed _ _ _ e HF He) as [Hx Hin]. rewrite (one_node_ok _ _ Hone _ Hin), Hk in *. by apply Hres. }
  destruct (Forall2_lookup_l _ _ _ _ _ HF Hm) as (hx & Hhx & _).
  assert ((j, (Some k, hx)) ∈ zip js (zip ks hs)) as Hin.
  { apply list_elem_of_lookup. exists m. rewrite lookup_zip_with_Some. exists j, (Some k, hx). split; [done|]. split; [done|]. rewrite lookup_zip_with_Some. eauto. }
  split; [|split].
  - apply RF. exists (j, (Some k, hx)). split; [done|]. split; [done|]. by apply Hget.
  - intros z (e & He & Hk & Hz)%RF. rewrite (Hget e He Hk) in Hz. by injection Hz.
  - intros Hd (e & -> & [He Hnone]%RN)%list_elem_of_fmap. pose proof He as [m' Hm']%list_elem_of_lookup.
    rewrite lookup_zip_with_Some in Hm'. destruct Hm' as (j' & kh & -> & Hj' & (k' & h' & -> & Hk' & _)%lookup_zip_with_Some). cbn in Hj.
    assert (m' = m) as -> by (eapply NoDup_lookup; [exact Hd|exact Hj'|exact Hj]). rewrite Hm in Hk'. injection Hk' as <-.
    rewrite (Hget _ He eq_refl) in Hnone. discriminate.
Qed.

(** C25: a keyed job is created once.  While the job a key names is registered, no step
    unbinds the key, and none binds it anew except the two calls whose statement overwrites
    it: a plain batch that carries this very key, to its own new job, and
    [record_idempotent_job].  Every other creation with that key is told this job: alone, it
    changes no table; in a group, its caller gets this job or an error; in a resolving batch,
    the answer maps the key to this job and to no other, and the batch's own job for it is not
    committed. *)
Theorem keyed_job_once h n x k i : tidy h → live_key (tables (at_store h)) n x = Some (k, i) →
  (∀ h', creation_step h h' → registered (tables (at_store h')) (n, i) = true →
     live_key (tables (at_store h')) n x = Some (k, i) ∨ ∃ k' i', binds_anew h h' n x k' i') ∧
  (∀ q fresh r s', j_node (c_job q) = n → c_key q = Some k → commit_single q fresh (at_store h) = (r, s') →
     tables s' = tables (at_store h) ∧ ∀ y, r = Ok y → y = (false, i)) ∧
  (∀ ps fresh os s' l m p o, Forall well_keyed ps → group_transaction ps fresh (at_store h) = (Ok os, (s', l)) →
     ps !! m = Some p → node_of p = n → idempotency_key p = Some k → os !! m = Some o → o = Ok (false, i) ∨ ∃ e, o = Err e) ∧
  (∀ js ks producer shape time fresh s' y m j, commit_resolving js (Some ks) producer shape time fresh (at_store h) = (Ok y, s') →
     js !! m = Some j → ks !! m = Some (Some k) → j_node j = n →
     (k, i) ∈ y.2 ∧ (∀ z, (k, z) ∈ y.2 → z = i) ∧ (NoDup js → j ∉ y.1)).
Proof.
  intros Ht Hl. pose proof (tidy_sound _ Ht) as Hs. destruct (live_key_resolves _ _ _ _ _ Hs Hl) as [Hh Hres]. pose proof Hl as [Hk Hr]%live_key_spec.
  split; [|split; [|split]].
  - intros h' Hstep Hr'. destruct (step_keys _ _ _ _ _ _ Ht Hstep Hk Hr') as [?|?]; [left|by right]. by apply live_key_spec.
  - intros q fresh r s' Hn Hq H. destruct (commit_single_effect _ _ _ _ _ H) as [[[T _] Hx]|(h' & Hc & Hnone & _)].
    + split; [done|]. intros y Hok. destruct (Hx y Hok) as (h' & H1 & H2 & H3). rewrite Hq, Hn in *. rewrite (Hres _ H2) in H3. destruct y. cbn in *. congruence.
    + pose proof (committed_keys _ _ _ Hc _ (list_elem_of_here _ _)) as H2. cbn in H2. rewrite Hq, Hn in *. rewrite (Hres _ H2) in Hnone. discriminate.
  - intros ps fresh os s' l m p o Hw H Hp Hn Hq Ho. destruct (group_effect _ _ _ _ _ _ H Hw Hs) as [[_ ?]|(al & _ & _ & _ & _ & _ & [[= ->]|?])]; [done| |done].
    rewrite Forall_lookup in Hw. pose proof (Hw m p Hp) as Hw'. unfold well_keyed in Hw'. rewrite Hq in Hw'. cbn in Hw'. rewrite Hh in Hw'. injection Hw' as Hw'.
    eapply (one_by_one_keyed (tables (at_store h)) ps ∅ m p x k); [|done|done|by rewrite Hn|done]. intros ? ? ?. unfold allocator_at. by rewrite !lookup_empty.
  - intros js ks pr sh ti fr s' y m j H Hj Hm Hn. destruct (resolving_effect _ _ _ _ _ _ _ _ _ H) as (_ & N & _ & _ & Hx).
    destruct (Hx y eq_refl) as [H1 [[-> _]|(ks' & hs & Hks & Hhs & Hone & Hre)]]; [by rewrite lookup_nil in Hj|]. rewrite H1.
    destruct (one_node js) as [n'|] eqn:En; [|by destruct Hone]. pose proof (one_node_ok _ _ En j) as Hn'.
    assert (n' = n) as -> by (rewrite <-Hn'; [done|by eapply list_elem_of_lookup_2]). by eapply resolved_batch.
Qed.

(** C26: a group is served as if its callers came one after the other.  Each gets the
    outcome of its turn: its refusal, the job its key names or an earlier caller has just
    created, or a new job with the next id of its node.  Exactly the jobs so handed out
    are registered, under addresses no job and no two callers had, with their keys bound
    and their staged inputs in place. *)
Theorem auto_group_in_turn ps fresh s os s' l : sound s → Forall well_keyed ps → group_transaction ps fresh s = (Ok os, (s', l)) →
  os = one_by_one (tables s) ∅ ps ∧
  (∀ n i, registered (tables s') (n, i) = true ↔
     registered (tables s) (n, i) = true ∨ ∃ m p, ps !! m = Some p ∧ node_of p = n ∧ os !! m = Some (Ok (true, i))) ∧
  (∀ m p i, ps !! m = Some p → os !! m = Some (Ok (true, i)) →
     registered (tables s) (node_of p, i) = false ∧ inputs s !! (node_of p, i) = None ∧ next_job_id (tables s) (node_of p) ≤ i ∧
     jobs (base_of (tables s')) !! (node_of p, i) = Some queued_row ∧
     (∃ v, staging s !! staging_input p = Some v ∧ inputs s' !! (node_of p, i) = Some (Some v)) ∧
     ∀ k h, idempotency_key p = Some k → key_hash p = Some h → live_key (tables s') (node_of p) h = Some (k, i)) ∧
  (∀ m m' p p' i, ps !! m = Some p → ps !! m' = Some p' → os !! m = Some (Ok (true, i)) → os !! m' = Some (Ok (true, i)) → node_of p = node_of p' → m = m').
Proof.
  intros Hs Hw H. destruct (group_effect _ _ _ _ _ _ H Hw Hs) as [[_ ?]|(al & D & [G K I] & _ & Hin & _ & [[= ->]|?])]; [done| |done].
  assert (∀ m p i, ps !! m = Some p → one_by_one (tables s) ∅ ps !! m = Some (Ok (true, i)) → (m, p, i) ∈ al_pending al) as Hpend
    by (intros m p i H1 H2; by apply (decided_pending _ _ _ D)).
  split; [done|]. split; [|split].
  - intros n i. rewrite (grown_registered _ _ _ _ G), entry_addrs. apply or_iff_compat_l. split.
    + intros ([[m p] z] & [= -> ->] & Hx)%list_elem_of_fmap. apply (decided_pending _ _ _ D) in Hx as [H1 H2]. eauto.
    + intros (m & p & H1 & <- & H2). apply list_elem_of_fmap. exists (m, p, i). split; [done|by apply Hpend].
  - intros m p i H1 H2. pose proof (Hpend _ _ _ H1 H2) as Hx. destruct (decided_ids _ _ _ D _ Hx) as [Hlow _]. destruct (Hin _ Hx) as [Hnone Hv].
    assert ((node_of p, i) ∈ addrs (entry_of <$> al_pending al)) as Ha by (rewrite entry_addrs; apply list_elem_of_fmap; exists (m, p, i); done).
    split; [by apply (grown_new _ _ _ G)|]. split; [done|]. split; [done|]. split; [rewrite (grown_jobs _ _ _ G); by rewrite decide_True|]. split; [done|].
    intros k h Hk Hh. apply live_key_spec. split.
    + apply (grown_keys _ _ _ G). right. apply entry_keys_elem. exists (entry_of (m, p, i)). split; [apply list_elem_of_fmap; eauto|]. cbn. by rewrite Hk, Hh.
    + apply (grown_registered _ _ _ _ G). by right.
  - intros m m' p p' i H1 H1' H2 H2' Hn. pose proof (decided_distinct _ _ _ D) as Hd.
    pose proof (Hpend _ _ _ H1 H2) as [a Ha]%list_elem_of_lookup. pose proof (Hpend _ _ _ H1' H2') as [b Hb]%list_elem_of_lookup.
    assert (a = b) as ->.
    { eapply (NoDup_lookup _ a b (node_of p, i) Hd); rewrite list_lookup_fmap; [by rewrite Ha|rewrite Hb; cbn; by rewrite Hn]. }
    congruence.
Qed.
End calls.

(** ** What a registered job remembers of its creation *)

Lemma dict_get_app k d d' : k ∉ d.*1 → dict_get k (d ++ d') = dict_get k d'.
Proof.
  induction d as [|[k' v'] d IH]; cbn; intros H; [done|]. rewrite bool_decide_eq_false_2 by set_solver. apply IH. set_solver.
Qed.
Lemma dict_del_app k d d' : k ∉ d.*1 → dict_del k (d ++ d') = d ++ dict_del k d'.
Proof.
  induction d as [|[k' v'] d IH]; cbn; intros H; [done|]. rewrite bool_decide_eq_false_2 by set_solver. rewrite IH; [done|set_solver].
Qed.

(** The keys of [parent_json] that are not the parent's own. *)
Definition reserved_keys : list string := ["_mwf_from_component"; "from_component"; "_mwf_job_kind"; "job_kind"].
Definition plain (d : dict) : Prop := writable (JObj d) = true ∧ ∀ k, k ∈ reserved_keys → k ∉ d.*1.

Lemma decode_parent_plain d : plain d → decode_parent (JObj d) = (if bool_decide (d = []) then JNull else JObj d, None, JNull).
Proof.
  intros [_ Hk]. assert (∀ k, k ∈ reserved_keys → dict_get k d = None ∧ dict_del k d = d) as H.
  { intros k Hin%Hk. rewrite <-(app_nil_r d). rewrite dict_get_app, dict_del_app by done. done. }
  unfold decode_parent, pop_either. destruct (H "_mwf_from_component") as [G1 D1]; [unfold reserved_keys; set_solver|].
  destruct (H "from_component") as [G2 D2]; [unfold reserved_keys; set_solver|]. destruct (H "_mwf_job_kind") as [G3 D3]; [unfold reserved_keys; set_solver|].
  destruct (H "job_kind") as [G4 D4]; [unfold reserved_keys; set_solver|]. rewrite D2, G2, G1, D1, D4, G4, G3, D3. done.
Qed.

Definition tagged (d : dict) (c : key) (kind : option string) : dict :=
  d ++ [("_mwf_from_component", JArr (JStr <$> c)); ("_mwf_job_kind", opt_str kind)].

Lemma tagged_set d c kind : plain d →
  dict_set "_mwf_job_kind" (opt_str kind) (dict_set "_mwf_from_component" (JArr (JStr <$> c)) d) = tagged d c kind.
Proof.
  intros [_ Hk]. rewrite (dict_set_new "_mwf_from_component") by (apply Hk; unfold reserved_keys; set_solver).
  rewrite dict_set_new; [by rewrite <-app_assoc|]. rewrite fmap_app. intros [H|H]%elem_of_app; [|cbn in H; set_solver].
  revert H. apply Hk. unfold reserved_keys. set_solver.
Qed.

Lemma decode_parent_tagged d c kind : plain d →
  decode_parent (JObj (tagged d c kind)) = (if bool_decide (d = []) then JNull else JObj d, Some (JStr <$> c), opt_str kind).
Proof.
  intros [_ Hk]. set (T1 := [("_mwf_from_component", JArr (JStr <$> c)); ("_mwf_job_kind", opt_str kind)] : dict). set (T2 := [("_mwf_job_kind", opt_str kind)] : dict).
  assert (∀ k T, k ∈ reserved_keys → dict_get k (d ++ T) = dict_get k T ∧ dict_del k (d ++ T) = d ++ dict_del k T) as A.
  { intros k T Hin%Hk. split; [by apply dict_get_app|by apply dict_del_app]. }
  destruct (A "from_component" T1) as [G1 D1]; [unfold reserved_keys; set_solver|]. change (dict_del "from_component" T1) with T1 in D1.
  destruct (A "_mwf_from_component" T1) as [G2 D2]; [unfold reserved_keys; set_solver|]. change (dict_del "_mwf_from_component" T1) with T2 in D2.
  destruct (A "job_kind" T2) as [G3 D3]; [unfold reserved_keys; set_solver|]. change (dict_del "job_kind" T2) with T2 in D3.
  destruct (A "_mwf_job_kind" T2) as [G4 D4]; [unfold reserved_keys; set_solver|]. change (dict_del "_mwf_job_kind" T2) with ([] : dict) in D4.
  unfold decode_parent, pop_either, tagged. fold T1. rewrite D1, G2, D2, D3, G4, D4, app_nil_r. done.
Qed.

Lemma tagged_writable d c kind : plain d → writable (JObj (tagged d c kind)) = true.
Proof.
  intros [Hw Hk]. cbn in Hw |- *. apply andb_true_iff in Hw as [Hn Hw]. apply bool_decide_eq_true in Hn.
  unfold tagged. rewrite forallb_app, Hw. apply andb_true_iff. split.
  - apply bool_decide_eq_true. rewrite fmap_app. apply NoDup_app. split; [done|]. split.
    + intros k Hd Hin. cbn in Hin. apply (Hk k); [|done]. unfold reserved_keys. set_solver.
    + cbn. apply NoDup_cons. split; [set_solver|]. apply NoDup_singleton.
  - cbn. assert (forallb writable (JStr <$> c) = true) as -> by (induction c; cbn; auto). by destruct kind.
Qed.

(** C29: a job read back is the job that was created: its parent, unless empty, the component
    that produced it and its kind come back out of the one text they are kept in. *)
Theorem metadata_roundtrip fresh js t t' j : insert_jobs fresh js t = Ok t' → j ∈ js → 1 ≤ j_id j →
  (∀ d, j_parent j = Some d → plain d) → (j_component j = None → j_kind j = None) →
  read_job_metadata t' (j_node j) (j_id j) = Ok (Some (Metadata (j_addr j)
    (match j_parent j with None | Some [] => JNull | Some d => JObj d end) ((λ c : key, JStr <$> c) <$> j_component j) (opt_str (j_kind j)) (j_created_at j))).
Proof.
  intros Hins Hj Hid Hplain Hkind. destruct (insert_jobs_ok _ _ _ _ Hins) as (_ & _ & Hjobs & Hpay & _).
  unfold read_job_metadata, validate_job_id. rewrite (proj2 (Z.leb_le _ _) Hid). cbn [require rbind].
  assert (jobs (base_of t') !! (j_node j, j_id j) = Some queued_row) as -> by (rewrite Hjobs, decide_True; [done|apply list_elem_of_fmap; exists j; done]).
  assert (payloads t' !! (j_node j, j_id j) = Some (Payload (_job_parent_json j) (j_created_at j))) as -> by exact (Hpay j Hj). cbn [parent_json created_at].
  assert (∀ d, writable (JObj d) = true → ∃ c r, dumps false ", " ": " (JObj d) = String c r ∧ loads (String c r) = Some (JObj d)) as Hread.
  { intros d Hw. exists "{"%char. eexists. split; [apply (dumps_object false " " " ")|].
    rewrite <-(dumps_object false " " " "). by apply (loads_dumps false " " " "). }
  unfold _job_parent_json. destruct (j_component j) as [c|] eqn:Ec.
  - assert (plain (default [] (j_parent j))) as Hp.
    { destruct (j_parent j); [by apply Hplain|]. split; [done|]. intros k _. apply not_elem_of_nil. }
    rewrite tagged_set by done. cbn [fmap option_fmap option_map]. destruct (Hread _ (tagged_writable _ c (j_kind j) Hp)) as (x & r & -> & ->).
    cbn [rbind]. rewrite decode_parent_tagged by done. do 3 f_equal. destruct (j_parent j) as [[|kv d]|]; done.
  - rewrite (Hkind eq_refl). destruct (j_parent j) as [d|] eqn:Ep; cbn [fmap option_fmap option_map]; [|done].
    pose proof (Hplain d eq_refl) as Hp. destruct (Hread d (proj1 Hp)) as (x & r & -> & ->). cbn [rbind]. rewrite decode_parent_plain by done.
    by destruct d.
Qed.

(** ** A group of four callers, a keyed job, and what a lost directory does *)

Module creation_sample.
Import causal_sample.
Definition env : surroundings := Surroundings over (λ _ _, Ok ()) (λ _ _, Ok ()) (λ _ _ _ _ _, Ok ()).
Definition i3 := "00000000000000000000000000000003".
Definition i4 := "00000000000000000000000000000004".
Definition fresh (a : addr) : string := if (a.2 =? 3) then i3 else i4.
Definition doc (n : Z) : json := JObj [("n", JInt n)].
Definition tables0 : jdb := Jdb s0 {[("a", 1) := Payload None "t0"; ("a", 2) := Payload None "t0"]} {["a" := 3]} ∅ ∅ [].
Definition store0 : store := Store tables0 {[("a", 1) := Some (doc 1); ("a", 2) := Some (doc 2)]}
  {["x" := doc 10; "y" := doc 11; "z" := doc 12; "w" := doc 13]} ∅ [] [].
Definition parent : dict := [("from_node", JStr "a"); ("from_job_id", JInt 1)].
Definition made (kind : string) (n : Z) : job := Job 1 "a" (doc n) (Some parent) (Some ["a"]) (Some kind) "t1".
Definition key_hash_of : string := Eval vm_compute in hexdigest (utf8 "order 7").
Definition member (kind : string) (name : string) (n : Z) (keyed : bool) : AutoJobPublish :=
  AutoPublish (made kind n) name (if keyed then Some "order 7" else None) (if keyed then Some key_hash_of else None) "t2"
    (Some ("a", 1, [])) (Some "e1") (Some "shape").
(** A keyed job, one whose kind is refused, one with the same key, and one without. *)
Definition callers : list AutoJobPublish := [member "component" "x" 10 true; member "dag" "y" 11 false; member "component" "z" 12 true; member "component" "w" 13 false].
Definition served := group_transaction decode edges yes env 7 callers fresh store0.
Definition store1 : store := served.2.1.
Definition outs : list outcome := match served.1 with Ok os => os | Err _ => [] end.

Lemma registered0 a : registered tables0 a = true → a = ("a", 1) ∨ a = ("a", 2).
Proof.
  intros [r H]%registered_true. unfold tables0, base_of, s0, core0 in H. cbn [rows core base jobs jobs_db] in H.
  apply lookup_insert_Some in H as [[<- _]|[_ [<- _]%lookup_singleton_Some]]; auto.
Qed.

Lemma sound0 : sound store0.
Proof.
  split; cbn [store0 tables].
  - intros n h k i H. unfold tables0 in H. cbn [idempotency] in H. by rewrite lookup_empty in H.
  - intros a [-> | ->]%registered0; cbn; lia.
  - unfold tables0. cbn [sequences]. intros n z [_ <-]%lookup_singleton_Some. lia.
  - intros n i [H|H]%registered0; injection H as -> ->; exists 3; (split; [by vm_compute|lia]).
  - intros a [-> | ->]%registered0; eexists; by vm_compute.
Qed.

Lemma keyed0 : Forall well_keyed callers.
Proof. repeat constructor; by vm_compute. Qed.

Lemma serves : group_transaction decode edges yes env 7 callers fresh store0 = (Ok outs, (store1, served.2.2)).
Proof. by vm_compute. Qed.

(** A later job with the key of the group's first. *)
Definition again : creation := Creation (Job 9 "a" (doc 20) (Some parent) (Some ["a"]) (Some "component") "t3") (Some "order 7") (Some "e1") (Some "shape") (Some (doc 20)) "t3".
Definition repeated := _commit_single_job decode edges yes env 7 again fresh store1.

(** A fan-out of one keyed job by reserve, prepare and commit; then a cleanup deletes job 1. *)
Definition j3 : job := Job 3 "a" (doc 20) (Some parent) (Some ["a"]) (Some "component") "t3".
Definition reserving := reserve_job_ids decode env "a" 1 (Some "e1") store0.
Definition h1 : history := History reserving.2 ∅ (match reserving.1 with Ok ids => ∅ ∪ list_to_set ((λ i, ("a", i)) <$> ids) | Err _ => ∅ end) ∅ [].
Definition preparing := prepare_jobs_batch [j3] (at_store h1).
Definition h2 : history := History preparing.2 (if is_ok preparing.1 then ∅ ∪ addresses [j3] else ∅) (issued h1) ∅ [].
Definition committing (s : store) :=
  commit_prepared_jobs_batch_resolving_idempotency decode edges yes env 7 [j3] (Some [Some "order 7"]) (Some "e1") (Some "shape") "t3" fresh s.
Definition h3 : history := moved h2 (committing (at_store h2)).2.
Definition h4 : history := History (at_store h3) ∅ ∅ ∅ [].
Definition h5 : history := History (at_store h4) ∅ ∅ ({["a"]} ∪ ∅) [].
Definition deleting := delete_jobs_rows "a" [1] true false (at_store h5).
Definition h6 : history := History deleting.2 ∅ ∅ ({["a"]} ∪ ∅) ([] ++ match deleting.1 with Ok x => x.2 | Err _ => [] end).
Definition removing := remove_dir (JobDir ("a", 1)) (at_store h6).
Definition h7 : history := History removing.2 ∅ ∅ ({["a"]} ∪ ∅) ([] ++ []).
Definition h8 : history := History (at_store h7) ∅ ∅ (({["a"]} ∪ ∅) ∖ {["a"]}) ([] ++ []).

Lemma fans_out : rtc (creation_step decode edges yes env 7) (idle store0) h8.
Proof.
  eapply rtc_l; [apply (step_reserve _ _ _ _ _ (idle store0) "a" 1 (Some "e1") reserving.1 reserving.2); [|apply surjective_pairing]; apply (bool_decide_unpack _); by vm_compute|].
  eapply rtc_l; [apply (step_prepare _ _ _ _ _ h1 [j3] preparing.1 preparing.2); [|apply surjective_pairing]; intros j ->%list_elem_of_singleton; apply (bool_decide_unpack _); by vm_compute|].
  eapply rtc_l; [apply (step_resolving _ _ _ _ _ h2 [j3] (Some [Some "order 7"]) (Some "e1") (Some "shape") "t3" fresh (committing (at_store h2)).1 (committing (at_store h2)).2);
    [|apply surjective_pairing]; intros j ->%list_elem_of_singleton; split_and!; apply (bool_decide_unpack _); by vm_compute|].
  eapply rtc_l; [apply (step_done _ _ _ _ _ h3 ∅ ∅); apply empty_subseteq|].
  eapply rtc_l; [apply (step_close _ _ _ _ _ h4 "a"); intros a Ha; cbn in Ha; set_solver|].
  eapply rtc_l; [apply (step_delete_jobs _ _ _ _ _ h5 "a" [1] true false deleting.1 deleting.2); [|apply surjective_pairing]; apply (bool_decide_unpack _); by vm_compute|].
  eapply rtc_l; [apply (step_remove _ _ _ _ _ h6 [] (JobDir ("a", 1)) [] removing.1 removing.2); [by vm_compute|apply surjective_pairing]|].
  apply rtc_once. apply (step_open _ _ _ _ _ h7 "a"). intros d Hd. cbn in Hd. by apply not_elem_of_nil in Hd.
Qed.

(** Without these conditions the calls alone keep nothing: when the node's jobs are deleted
    between preparation and commit, the commit registers a job without input, above the
    sequence of its node. *)
Definition unowned : job := Job 3 "a" (doc 20) None None None "t3".
Definition undercut : store :=
  let s1 := (reserve_job_ids decode env "a" 1 None store0).2 in
  let s2 := (prepare_jobs_batch [unowned] s1).2 in
  let s3 := (delete_node_jobs "a" true false s2).2 in
  (commit_prepared_jobs_batch_resolving_idempotency decode edges yes env 7 [unowned] None None (Some "shape") "t3" fresh s3).2.
Example undercut_commit :
  registered (tables undercut) ("a", 3) = true ∧ inputs undercut !! ("a", 3) = None ∧ next_job_id (tables undercut) "a" = 1.
Proof. by vm_compute. Qed.
End creation_sample.

Lemma creation_sound_witness : ∃ v, inputs (at_store creation_sample.h8) !! ("a", 3) = Some (Some v).
Proof.
  destruct (creation_sound causal_sample.decode causal_sample.edges causal_sample.yes creation_sample.env 7
    creation_sample.store0 creation_sample.h8 creation_sample.sound0 creation_sample.fans_out) as (_ & _ & H & _).
  apply H. left. by vm_compute.
Defined.

Lemma auto_group_in_turn_witness : creation_sample.outs !! 2%nat = Some (Ok (false, 3)) ∧ registered (tables creation_sample.store1) ("a", 4) = true.
Proof.
  destruct (auto_group_in_turn causal_sample.decode causal_sample.edges causal_sample.yes creation_sample.env 7 creation_sample.callers creation_sample.fresh
    creation_sample.store0 creation_sample.outs creation_sample.store1 creation_sample.served.2.2 creation_sample.sound0 creation_sample.keyed0 creation_sample.serves) as (_ & H & _).
  split; [by vm_compute|]. apply H. right. exists 3%nat. eexists. split; [by vm_compute|]. split; by vm_compute.
Defined.

Lemma keyed_job_once_witness :
  (tables creation_sample.repeated.2 = tables creation_sample.store1 ∧ creation_sample.repeated.1 = Ok (false, 3)) ∧
  (creation_sample.committing creation_sample.store1).1 = Ok ([], [("order 7", 3)]).
Proof.
  assert (tidy (idle creation_sample.store1)) as Ht.
  { apply nothing_under_way. eapply sound_group; [exact creation_sample.sound0|exact creation_sample.keyed0|exact creation_sample.serves]. }
  destruct (keyed_job_once causal_sample.decode causal_sample.edges causal_sample.yes creation_sample.env 7 (idle creation_sample.store1) "a"
    creation_sample.key_hash_of "order 7" 3 Ht) as (_ & H & _); [by vm_compute|].
  destruct (H creation_sample.again creation_sample.fresh creation_sample.repeated.1 creation_sample.repeated.2 eq_refl eq_refl) as [H1 _].
  { unfold creation_sample.repeated. by destruct (_commit_single_job _ _ _ _ _ _ _ _). }
  split; [split; [exact H1|by vm_compute]|by vm_compute].
Defined.

Lemma metadata_roundtrip_witness : ∃ t, read_job_metadata t "a" 1 =
  Ok (Some (Metadata ("a", 1) (JObj creation_sample.parent) (Some [JStr "a"]) (JStr "component") "t1")).
Proof.
  set (t0 := Jdb (set_jobs_db (set_instances ∅ (set_jobs ∅ (jobs_db causal_sample.s0))) causal_sample.s0) ∅ ∅ ∅ ∅ []).
  destruct (insert_jobs creation_sample.fresh [creation_sample.made "component" 5] t0) as [t|e] eqn:E; [|exfalso; revert E; by vm_compute].
  exists t. apply (metadata_roundtrip creation_sample.fresh [creation_sample.made "component" 5] t0 t (creation_sample.made "component" 5) E).
  - apply list_elem_of_here.
  - cbn. lia.
  - intros d [= <-]. split; [by vm_compute|]. intros k Hk. unfold reserved_keys in Hk. cbn. set_solver.
  - discriminate.
Defined.
