(* ===== verification/Operations.v ===== *)
(** What a running component keeps while its session decides about failed jobs
    ([workflow/component_execution_operation.py]).

    An operation records the outcome of every job its pumps ran, the attempts the session
    may restart and the accepted restarts ([expectations]) it still has to run.  The pump
    itself, the tables and the start and finish of the component are the record [pumping],
    instantiated by [ComponentPump] and the storage components. *)
From S2P Require Import Prelude Topology JobStore ComponentLife.

#[local] Open Scope Z_scope.

(** ** Dictionaries that keep the order of insertion *)

Section odict.
Context {K V : Type} `{EqDecision K}.

Fixpoint od_get (k : K) (d : list (K * V)) : option V :=
  match d with [] => None | q :: d => if bool_decide (q.1 = k) then Some q.2 else od_get k d end.
(** Assignment keeps the place of a key that is present. *)
Fixpoint od_set (k : K) (v : V) (d : list (K * V)) : list (K * V) :=
  match d with
  | [] => [(k, v)]
  | q :: d => if bool_decide (q.1 = k) then (k, v) :: d else q :: od_set k v d
  end.
Fixpoint od_pop (k : K) (d : list (K * V)) : list (K * V) :=
  match d with [] => [] | q :: d => if bool_decide (q.1 = k) then od_pop k d else q :: od_pop k d end.
Definition od_has (k : K) (d : list (K * V)) : bool := bool_decide (is_Some (od_get k d)).
Definition od_setdefault (k : K) (v : V) (d : list (K * V)) : list (K * V) := if od_has k d then d else od_set k v d.
Definition od_update (d d' : list (K * V)) : list (K * V) := foldl (λ d q, od_set q.1 q.2 d) d d'.

Lemma od_get_set k v d k' : od_get k' (od_set k v d) = if decide (k = k') then Some v else od_get k' d.
Proof.
  induction d as [|[k0 v0] d IH]; cbn.
  - case_decide; case_bool_decide; congruence.
  - case_bool_decide as E; cbn; [subst|rewrite IH]; repeat (case_decide || case_bool_decide); congruence.
Qed.

Lemma od_get_pop k d k' : od_get k' (od_pop k d) = if decide (k = k') then None else od_get k' d.
Proof.
  induction d as [|[k0 v0] d IH]; cbn; [by case_decide|].
  repeat (case_bool_decide || case_decide || cbn || rewrite IH); congruence.
Qed.

Lemma od_has_true k d : od_has k d = true ↔ is_Some (od_get k d).
Proof. apply bool_decide_eq_true. Qed.
Lemma od_has_false k d : od_has k d = false ↔ od_get k d = None.
Proof. unfold od_has. rewrite bool_decide_eq_false, eq_None_not_Some. done. Qed.

Lemma od_get_setdefault k v d k' : od_get k' (od_setdefault k v d) =
  match od_get k' d with Some x => Some x | None => if decide (k = k') then Some v else None end.
Proof.
  unfold od_setdefault. destruct (od_has k d) eqn:E.
  - apply od_has_true in E as [x E]. destruct (od_get k' d) eqn:E'; [done|]. case_decide; congruence.
  - apply od_has_false in E. rewrite od_get_set. case_decide as D; [subst; by rewrite E|]. by destruct (od_get k' d).
Qed.

Lemma od_has_set k v d k' : od_has k' (od_set k v d) = bool_decide (k = k') || od_has k' d.
Proof. unfold od_has. rewrite od_get_set. case_decide as E; [by rewrite (bool_decide_eq_true_2 (k = k')), (bool_decide_eq_true_2 (is_Some _)) by eauto|by rewrite (bool_decide_eq_false_2 (k = k'))]. Qed.
Lemma od_has_pop k d k' : od_has k' (od_pop k d) = negb (bool_decide (k = k')) && od_has k' d.
Proof.
  unfold od_has. rewrite od_get_pop. case_decide as E; [by rewrite (bool_decide_eq_true_2 (k = k'))|by rewrite (bool_decide_eq_false_2 (k = k'))].
Qed.
Lemma od_has_setdefault k v d k' : od_has k' (od_setdefault k v d) = bool_decide (k = k') || od_has k' d.
Proof.
  unfold od_setdefault. destruct (od_has k d) eqn:E; [|apply od_has_set]. case_bool_decide; [by subst|done].
Qed.

Lemma od_has_cons q d k : od_has k (q :: d) = bool_decide (q.1 = k) || od_has k d.
Proof. unfold od_has. cbn. by destruct (bool_decide (q.1 = k)). Qed.

Lemma od_get_Some k v d : od_get k d = Some v → (k, v) ∈ d.
Proof.
  induction d as [|[k0 v0] d IH]; [done|]. cbn. case_bool_decide; cbn; [intros [= ->]; subst; left|intros; right; auto].
Qed.
Lemma od_get_None k d : od_get k d = None ↔ k ∉ d.*1.
Proof.
  induction d as [|[k0 v0] d IH]; cbn; [split; [intros; apply not_elem_of_nil|done]|].
  rewrite not_elem_of_cons. case_bool_decide; [split; [done|intros [? _]; congruence]|]. rewrite IH. split; [intros; split; [congruence|done]|by intros [_ ?]].
Qed.
Lemma od_get_elem k d : k ∈ d.*1 ↔ is_Some (od_get k d).
Proof.
  rewrite <-not_eq_None_Some, od_get_None. split; [tauto|]. intros H. destruct (decide (k ∈ d.*1)); [done|by destruct H].
Qed.
End odict.

(** [dict.fromkeys(l)]: the elements in order of first appearance. *)
Definition fromkeys {A} `{EqDecision A} (l : list A) : list A :=
  foldl (λ seen x, if bool_decide (x ∈ seen) then seen else seen ++ [x]) [] l.

#[export] Instance expected_restart_eq_dec : EqDecision expected_restart.
Proof. solve_decision. Defined.

(** ** Failures and the state of an operation *)

(** [_execution_attempt_]: job, generation and execution. *)
Definition attempt : Type := addr * Z * string.

(** An exception with its attribute [execution_attempt]. *)
Record failure := Failure { f_exc : exc; f_attempt : option attempt }.

(** [isinstance(error, (JobFailedError, RestartClaimChanged, ComponentExecutionIncomplete))]. *)
Definition expected_failure (f : failure) : bool :=
  bool_decide (exc_cls (f_exc f) ∈ [JobFailedError; RestartClaimChanged; ComponentExecutionIncomplete]).

(** The attempt a captured restart replaces. *)
Definition attempt_of (a : addr) (e : expected_restart) : attempt := (a, ow_generation (x_owner e), ow_execution (x_owner e)).

Section operation.
Context {val : Type}.

(** The dictionaries the pumps write under the operation's lock. *)
Record ledger := Ledger {
  values : list (addr * val);
  errors : list (addr * failure);
  attempts : list (addr * attempt);
  abandoned : list (addr * attempt);
  cleanup_attempts : list (addr * attempt);
  expectations : list (addr * expected_restart);
  retried_expectations : list (addr * expected_restart)
}.

Record operation := Operation {
  component : key;
  ran : list string;
  work_nodes : gset string;
  book : ledger;
  unrelated_error : option failure;
  stop_admission : bool;
  replacement_epoch : bool;
  completion : option ComponentTerminalOutcome;
  completed : bool;
  started : bool;
  selected_restarts_only : bool
}.

Definition set_book b o := Operation (component o) (ran o) (work_nodes o) b (unrelated_error o) (stop_admission o)
  (replacement_epoch o) (completion o) (completed o) (started o) (selected_restarts_only o).
Definition set_ran r w o := Operation (component o) r w (book o) (unrelated_error o) (stop_admission o)
  (replacement_epoch o) (completion o) (completed o) (started o) (selected_restarts_only o).
Definition set_unrelated f o := Operation (component o) (ran o) (work_nodes o) (book o) f (stop_admission o)
  (replacement_epoch o) (completion o) (completed o) (started o) (selected_restarts_only o).
Definition set_stop b o := Operation (component o) (ran o) (work_nodes o) (book o) (unrelated_error o) b
  (replacement_epoch o) (completion o) (completed o) (started o) (selected_restarts_only o).
Definition set_epoch b o := Operation (component o) (ran o) (work_nodes o) (book o) (unrelated_error o) (stop_admission o)
  b (completion o) (completed o) (started o) (selected_restarts_only o).
Definition set_completed b o := Operation (component o) (ran o) (work_nodes o) (book o) (unrelated_error o) (stop_admission o)
  (replacement_epoch o) (completion o) b (started o) (selected_restarts_only o).
Definition set_started c o := Operation (component o) (ran o) (work_nodes o) (book o) (unrelated_error o) (stop_admission o)
  (replacement_epoch o) c (completed o) true (selected_restarts_only o).

Definition no_entries : ledger := Ledger [] [] [] [] [] [] [].
(** [__init__]; [tuple(sorted(component))]. *)
Definition new_operation (members : key) : operation :=
  Operation (py_sorted members) [] ∅ no_entries None false false None false false false.

(** What both constructors of a continuation record of its accepted restarts. *)
Definition accepted (replacements : list (addr * expected_restart)) : ledger :=
  Ledger [] [] ((λ q : addr * expected_restart, (q.1, attempt_of q.1 q.2)) <$> replacements) [] [] replacements [].

Definition from_pending_component (c : ComponentTerminalOutcome) (replacements : list (addr * expected_restart)) : operation :=
  Operation (py_sorted (oc_component c)) [] ∅ (accepted replacements) None true false (Some c) false true false.
Definition from_selected_restarts (members : key) (replacements : list (addr * expected_restart)) : operation :=
  Operation (py_sorted members) [] ∅ (accepted replacements) None true false None false true true.

(** ** Recording what the pumps report *)

Definition record_outcome (a : addr) (r : val + failure) (o : operation) : operation :=
  let b := book o in
  let abandoned := od_pop a (abandoned b) in
  let cleanup := od_pop a (cleanup_attempts b) in
  set_book (match r with
    | inr f =>
        match f_attempt f with
        | Some x => Ledger (values b) (od_set a f (errors b)) (od_set a x (attempts b)) abandoned cleanup
                      (od_pop a (expectations b)) (od_pop a (retried_expectations b))
        | None => Ledger (values b) (od_set a f (errors b)) (attempts b) abandoned cleanup (expectations b) (retried_expectations b)
        end
    | inl v => Ledger (od_set a v (values b)) (od_pop a (errors b)) (od_pop a (attempts b)) abandoned cleanup
                 (od_pop a (expectations b)) (od_pop a (retried_expectations b))
    end) o.

Definition record_abandoned (a : addr) (generation : Z) (execution : string) (released : bool) (o : operation) : operation :=
  let b := book o in
  let x : attempt := (a, generation, execution) in
  set_book (Ledger (values b)
    (if released then errors b else od_setdefault a (Failure (Exc JobFailedError "Job was abandoned before execution") (Some x)) (errors b))
    (od_set a x (attempts b)) (od_set a x (abandoned b)) (cleanup_attempts b) (expectations b) (retried_expectations b)) o.

Definition record_cleanup_attempt (x : attempt) (o : operation) : operation :=
  let b := book o in
  set_book (Ledger (values b) (errors b) (od_set x.1.1 x (attempts b)) (abandoned b) (od_set x.1.1 x (cleanup_attempts b))
    (expectations b) (retried_expectations b)) o.

Definition record_pump_error (f : failure) (o : operation) : operation :=
  if expected_failure f then o
  else match unrelated_error o with Some _ => o | None => set_unrelated (Some f) o end.

Definition expected_restart_of (a : addr) (o : operation) : option expected_restart := od_get a (expectations (book o)).

(** [retain_component_restarts]: [None] stands for [False]; a key outside the component
    ends the loop with an error. *)
Fixpoint retain_loop (replacements : list (addr * expected_restart)) (o : operation) : result operation :=
  match replacements with
  | [] => Ok o
  | (a, e) :: l =>
      check! bool_decide (a.1 ∈ component o) orelse RuntimeError saying "Nested restart lies outside its pending component" in
      let b := book o in
      let x := attempt_of a e in
      retain_loop l (set_book (Ledger (values b) (errors b) (od_set a x (attempts b)) (abandoned b) (od_set a x (cleanup_attempts b))
        (expectations b) (retried_expectations b)) o)
  end.
Definition retain_component_restarts (c : ComponentTerminalOutcome) (replacements : list (addr * expected_restart)) (o : operation)
  : result (option operation) :=
  if completed o || negb (bool_decide (completion o = Some c)) then Ok None
  else let! o := retain_loop replacements o in Ok (Some o).

(** [restart_job_ids]: [None] when the ordinary queue is open. *)
Definition restart_job_ids (node : string) (o : operation) : option (list Z) :=
  if negb (stop_admission o) && negb (replacement_epoch o) then None
  else Some (omap (λ q : addr * expected_restart,
    if bool_decide (q.1.1 = node) && negb (od_has q.1 (errors (book o))) then Some q.1.2 else None) (expectations (book o))).

Definition selected_queued_nodes (queued : list string) (o : operation) : list string :=
  if negb (stop_admission o) && negb (replacement_epoch o) then queued
  else filter (λ node, restart_job_ids node o ≠ Some []) (component o).

(** ** What a failed operation tells its session *)

Definition failed_nodes (o : operation) : list string :=
  if selected_restarts_only o then fromkeys (fst <$> (errors (book o)).*1) else component o.

Definition failed_component_outcomes (o : operation) : list ComponentTerminalOutcome :=
  match completion o with
  | Some c => if completed o then [] else [TerminalOutcome (oc_component c) (oc_shape c) (oc_alignment c) "failed" (None, None)]
  | None => []
  end.

Definition failed_attempts (o : operation) : list attempt :=
  let b := book o in
  omap (λ q : addr * attempt,
    if od_has q.1 (abandoned b) || od_has q.1 (cleanup_attempts b) || od_has q.1 (expectations b) || od_has q.1 (errors b)
    then Some q.2 else None) (attempts b).

Definition rejected_restarts (o : operation) : list (addr * expected_restart) :=
  let b := book o in
  omap (λ q : addr * failure,
    if bool_decide (exc_cls (f_exc q.2) = RestartClaimChanged) then pair q.1 <$> od_get q.1 (expectations b) else None) (errors b).

Definition exhausted_restarts (o : operation) : list (addr * expected_restart) :=
  let b := book o in
  filter (λ q : addr * expected_restart, od_get q.1 (expectations b) = Some q.2) (retried_expectations b).

(** [primary_error]; its argument is [None] only when an error is recorded. *)
Definition primary_error (f : option failure) (o : operation) : option failure :=
  match unrelated_error o with
  | Some u => Some u
  | None => match errors (book o) with q :: _ => Some q.2 | [] => f end
  end.

(** ** Continuing after the session accepted restarts *)

Definition resume_one (o : operation) (q : addr * expected_restart) : result operation :=
  let b := book o in
  let a := q.1 in
  check! od_has a (attempts b)
         && (od_has a (abandoned b) || od_has a (cleanup_attempts b) || od_has a (errors b) || od_has a (expectations b))
    orelse RuntimeError saying "Session continuation lies outside this component operation" in
  Ok (set_book (Ledger (values b) (od_pop a (errors b)) (attempts b) (abandoned b) (cleanup_attempts b)
    (od_set a q.2 (expectations b))
    (if bool_decide (od_get a (expectations b) = Some q.2) then od_set a q.2 (retried_expectations b)
     else od_pop a (retried_expectations b))) o).

Definition resume (replacements : list (addr * expected_restart)) (stop : bool) (o : operation) : result operation :=
  let! o := rfold resume_one o replacements in
  Ok (set_stop (selected_restarts_only o || stop || negb (bool_decide ((errors (book o)).*1 = []))
                || bool_decide (is_Some (unrelated_error o))) o).
End operation.
Arguments ledger : clear implicits.
Arguments operation : clear implicits.

(** ** Running an operation *)

(** What the operation calls: the start of its component ([None] inside a task of the same
    component), the pump, and what happens when the pump has found nothing more to do. *)
Record pumping (val W : Type) := Pumping {
  begin_full_component : key → W → (option ComponentTerminalOutcome + failure) * W;
  run_component : operation val → W → option failure * operation val * W;
  refresh_status : key → W → option failure * W;
  has_queued : key → W → bool;
  finish_successful : ComponentTerminalOutcome → W → option failure * W
}.
Arguments begin_full_component {val W} p.
Arguments run_component {val W} p.
Arguments refresh_status {val W} p.
Arguments has_queued {val W} p.
Arguments finish_successful {val W} p.

Section running.
Context {val W : Type} (p : pumping val W).

(** Accepted restarts no pump took. *)
Definition claim_changed : failure := Failure (Exc RestartClaimChanged "Restarted job was not claimed before its component stopped") None.
Definition mark_unclaimed (o : operation val) : operation val :=
  let b := book o in
  set_book (Ledger (values b) (foldl (λ es q, od_setdefault q.1 claim_changed es) (errors b) (expectations b))
    (attempts b) (abandoned b) (cleanup_attempts b) (expectations b) (retried_expectations b)) o.

(** [finish_execution]. *)
Definition finish_execution (o : operation val) (w : W) : (list string + failure) * operation val * W :=
  let '(f, w) := refresh_status p (component o) w in
  match f with
  | Some f => (inr f, o, w)
  | None =>
      if stop_admission o && has_queued p (component o) w then (inl (ran o), o, w)
      else
        let '(f, w) := match completion o with Some c => finish_successful p c w | None => (None, w) end in
        match f with
        | Some f => (inr f, o, w)
        | None => (inl (ran o), set_completed true o, w)
        end
  end.

(** The [while True] of [run]; [None] when the fuel is used up. *)
Fixpoint epochs (fuel : nat) (o : operation val) (w : W) : option ((list string + failure) * operation val * W) :=
  match fuel with
  | O => None
  | S fuel =>
      let o := set_epoch (negb (bool_decide ((expectations (book o)).*1 = []))) o in
      let '(f, o, w) := run_component p o w in
      match f with
      | Some f => let o := record_pump_error f o in Some (inr (default f (primary_error (Some f) o)), o, w)
      | None =>
          let o := mark_unclaimed o in
          match primary_error None o with
          | Some f => Some (inr f, o, w)
          | None =>
              if selected_restarts_only o then
                let '(f, w) := refresh_status p (component o) w in
                Some (match f with Some f => (inr f, o, w) | None => (inl (ran o), set_completed true o, w) end)
              else if replacement_epoch o then epochs fuel o w
              else Some (finish_execution o w)
          end
      end
  end.

Definition run (fuel : nat) (o : operation val) (w : W) : option ((list string + failure) * operation val * W) :=
  if started o then epochs fuel o w
  else
    let '(c, w) := begin_full_component p (component o) w in
    match c with
    | inr f => Some (inr f, o, w)
    | inl c => epochs fuel (set_started c o) w
    end.

(** *** What a pump may do to the operation *)

Inductive report : operation val → operation val → Prop :=
  | report_outcome a r o : report o (record_outcome a r o)
  | report_abandoned a g x released o : report o (record_abandoned a g x released o)
  | report_cleanup x o : report o (record_cleanup_attempt x o)
  | report_pump_error f o : report o (record_pump_error f o)
  | report_retain c rs o o' : retain_component_restarts c rs o = Ok (Some o') → report o o'
  | report_ran r w o : report o (set_ran r w o).

(** A job is accounted for: it has a value, or the session is told of its attempt. *)
Definition accounted (a : addr) (o : operation val) : Prop :=
  od_has a (values (book o)) = true ∨ ∃ x, od_get a (attempts (book o)) = Some x ∧
    (od_has a (abandoned (book o)) || od_has a (cleanup_attempts (book o)) || od_has a (expectations (book o)) || od_has a (errors (book o))) = true.
(** A restart is settled: run to a value or an error, or still expected. *)
Definition settled (a : addr) (o : operation val) : Prop :=
  od_has a (values (book o)) = true ∨ od_has a (errors (book o)) = true ∨ od_has a (expectations (book o)) = true.

Lemma accounted_listed a o : accounted a o → od_has a (values (book o)) = true ∨ ∃ x, x ∈ failed_attempts o ∧ od_get a (attempts (book o)) = Some x.
Proof.
  intros [?|(x & Hx & Hf)]; [by left|right]. exists x. split; [|done]. unfold failed_attempts.
  apply list_elem_of_omap. exists (a, x). split; [by apply od_get_Some|]. cbn [fst snd]. by rewrite Hf.
Qed.

#[local] Ltac at_key b a := destruct (decide (b = a)) as [<-|?];
  [rewrite ?(bool_decide_eq_true_2 (b = b)), ?decide_True by done|rewrite ?(bool_decide_eq_false_2 (b = a)), ?decide_False by done].

Lemma retain_loop_keeps a rs o o' : retain_loop rs o = Ok o' → accounted a o → accounted a o'.
Proof.
  revert o. induction rs as [|[b e] rs IH]; intros o; cbn [retain_loop]; [by intros [= <-]|].
  intros H. inv_ok. intros Ha. apply (IH _ H). unfold accounted in *. cbn -[od_has od_get]. destruct Ha as [?|(x & Hx & Hf)]; [by left|right].
  rewrite od_get_set, od_has_set. at_key b a; cbn -[od_has]; rewrite ?orb_true_r; eauto.
Qed.

Lemma report_accounted a o o' : report o o' → accounted a o → accounted a o'.
Proof.
  intros [b r q|b g e released q|y q|f q|c rs q q' H|rr w q]; [| | | | |done].
  - unfold accounted. destruct r as [v|f]; cbn -[od_has od_get]; [|destruct (f_attempt f); cbn -[od_has od_get]];
      rewrite ?od_get_set, ?od_get_pop, ?od_has_set, ?od_has_pop; at_key b a; cbn -[od_has]; rewrite ?orb_true_r; eauto.
    intros [?|(x & ? & _)]; [by left|right; eauto].
  - unfold accounted. cbn -[od_has od_get]. rewrite od_get_set, od_has_set. destruct released; rewrite ?od_has_setdefault; at_key b a; cbn -[od_has]; eauto.
  - unfold accounted. cbn -[od_has od_get]. rewrite od_get_set, od_has_set. at_key y.1.1 a; cbn -[od_has]; rewrite ?orb_true_r; eauto.
  - unfold record_pump_error. destruct (expected_failure f); [done|]. by destruct (unrelated_error q).
  - unfold retain_component_restarts in H. destruct (_ || _); [discriminate|]. inv_ok. by eapply retain_loop_keeps.
Qed.

Lemma retain_loop_settled a rs o o' : retain_loop rs o = Ok o' → settled a o → settled a o'.
Proof. revert o. induction rs as [|[b e] rs IH]; intros o; cbn [retain_loop]; [by intros [= <-]|]. intros H. inv_ok. intros Ha. by apply (IH _ H). Qed.

Lemma report_settled a o o' : report o o' → settled a o → settled a o'.
Proof.
  intros [b r q|b g e released q|y q|f q|c rs q q' H|rr w q]; [| |done| | |done].
  - unfold settled. destruct r as [v|f]; cbn -[od_has]; [|destruct (f_attempt f); cbn -[od_has]];
      rewrite ?od_has_set, ?od_has_pop; at_key b a; cbn -[od_has]; auto.
  - unfold settled. cbn -[od_has]. destruct released; rewrite ?od_has_setdefault; at_key b a; cbn -[od_has]; auto.
  - unfold record_pump_error. destruct (expected_failure f); [done|]. by destruct (unrelated_error q).
  - unfold retain_component_restarts in H. destruct (_ || _); [discriminate|]. inv_ok. by eapply retain_loop_settled.
Qed.

(** What no report changes. *)
Definition same_control (o o' : operation val) : Prop :=
  component o' = component o ∧ stop_admission o' = stop_admission o ∧ replacement_epoch o' = replacement_epoch o ∧
  completion o' = completion o ∧ completed o' = completed o ∧ started o' = started o ∧ selected_restarts_only o' = selected_restarts_only o ∧
  ∀ a, od_has a (expectations (book o')) = true → od_has a (expectations (book o)) = true.

Lemma retain_loop_control rs o o' : retain_loop rs o = Ok o' → same_control o o'.
Proof.
  revert o. induction rs as [|[b e] rs IH]; intros o; cbn [retain_loop]; [by intros [= <-]|]. intros H. inv_ok. apply IH in H. exact H.
Qed.

Lemma report_control o o' : report o o' → same_control o o'.
Proof.
  intros [b r q|b g e released q|y q|f q|c rs q q' H|rr w q]; [| |done| | |done].
  - unfold same_control. destruct r as [v|f]; cbn -[od_has]; [|destruct (f_attempt f); cbn -[od_has]]; repeat split; try done;
      intros ?; rewrite ?od_has_pop; by intros [_ ?]%andb_true_iff.
  - done.
  - unfold record_pump_error. destruct (expected_failure f); [done|]. by destruct (unrelated_error q).
  - unfold retain_component_restarts in H. destruct (_ || _); [discriminate|]. inv_ok. by eapply retain_loop_control.
Qed.

Lemma reports_keep o o' : rtc report o o' → same_control o o' ∧ ∀ a, (accounted a o → accounted a o') ∧ (settled a o → settled a o').
Proof.
  induction 1 as [o|o o1 o2 Hr _ [IHc IHa]]; [done|]. split.
  - destruct (report_control _ _ Hr) as (? & ? & ? & ? & ? & ? & ? & ?), IHc as (? & ? & ? & ? & ? & ? & ? & ?). split_and!; try congruence. auto.
  - intros a. split; intros Ha; apply IHa; [by eapply report_accounted|by eapply report_settled].
Qed.

Lemma mark_unclaimed_errors o a : od_has a (errors (book (mark_unclaimed o))) = od_has a (errors (book o)) || od_has a (expectations (book o)).
Proof.
  unfold mark_unclaimed. cbn [book set_book errors]. generalize (errors (book o)). induction (expectations (book o)) as [|[b e] l IH]; intros es; cbn [foldl].
  - by rewrite orb_false_r.
  - rewrite IH, od_has_setdefault, od_has_cons. cbn [fst]. by destruct (bool_decide (b = a)), (od_has a es).
Qed.

Lemma od_empty {K V} `{EqDecision K} (d : list (K * V)) : d = [] ↔ ∀ k, od_has k d = false.
Proof.
  split; [by intros ->|]. destruct d as [|[k v] d]; [done|]. intros H. specialize (H k).
  by rewrite od_has_cons, (bool_decide_eq_true_2 (_ = k)) in H.
Qed.

Lemma no_primary (o : operation val) : primary_error None o = None ↔ unrelated_error o = None ∧ errors (book o) = [].
Proof. unfold primary_error. destruct (unrelated_error o), (errors (book o)); naive_solver. Qed.
(** ** The life of an operation *)

Inductive initial : operation val → Prop :=
  | initial_new members : initial (new_operation members)
  | initial_pending c rs : NoDup rs.*1 → initial (from_pending_component c rs)
  | initial_selected members rs : NoDup rs.*1 → initial (from_selected_restarts members rs).

Inductive operation_step : operation val → operation val → Prop :=
  | step_report o o' : report o o' → operation_step o o'
  | step_resume rs stop o o' : resume rs stop o = Ok o' → operation_step o o'
  | step_run fuel o w r o' w' : run fuel o w = Some (r, o', w') → operation_step o o'.

(** Every accepted restart has the attempt it replaces. *)
Definition offered (o : operation val) : Prop := ∀ a, od_has a (expectations (book o)) = true → accounted a o.

Lemma accepted_accounted (rs : list (addr * expected_restart)) a : od_has a rs = true →
  ∃ x, od_get a ((λ q : addr * expected_restart, (q.1, attempt_of q.1 q.2)) <$> rs) = Some x.
Proof.
  induction rs as [|[b e] rs IH]; [done|]. rewrite od_has_cons. cbn. case_bool_decide; cbn; [eauto|done].
Qed.

Lemma initial_offered o : initial o → offered o.
Proof.
  intros [ms|c rs _|ms rs _] a Ha; [done| |]; right; destruct (accepted_accounted rs a Ha) as [x Hx]; exists x; cbn -[od_has] in *; by rewrite Ha.
Qed.

Lemma resume_one_accounted o q o' a : resume_one o q = Ok o' →
  (accounted a o → accounted a o') ∧ (od_has a (expectations (book o')) = true → a = q.1 ∨ od_has a (expectations (book o)) = true) ∧
  accounted q.1 o' ∧ od_has q.1 (expectations (book o')) = true.
Proof.
  unfold resume_one. intros H. inv_ok. apply andb_true_iff in Hg as [[x Hx]%od_has_true _]. unfold accounted. cbn -[od_has].
  rewrite !od_has_set, od_has_pop. split; [|split; [|split]].
  - intros [?|(y & Hy & Hf)]; [by left|right]. exists y. split; [done|]. at_key q.1 a; cbn -[od_has]; [by rewrite orb_true_r|done].
  - at_key q.1 a; [auto|]. cbn. auto.
  - right. exists x. split; [done|]. rewrite bool_decide_eq_true_2 by done. cbn. by rewrite orb_true_r.
  - by rewrite bool_decide_eq_true_2.
Qed.

Lemma resume_offered rs stop o o' : resume rs stop o = Ok o' → offered o → offered o'.
Proof.
  unfold resume. intros H Ho. inv_ok. change (offered x). revert o Ho Hx. induction rs as [|q rs IH]; intros o Ho; cbn [rfold]; [by intros [= <-]|].
  intros (o1 & H1 & H2)%rbind_ok. apply (IH o1); [|done]. intros a Ha. destruct (resume_one_accounted _ _ _ a H1) as (Hk & He & Hq & _).
  destruct (He Ha) as [->|?]; [done|]. by apply Hk, Ho.
Qed.

Context (Hpump : ∀ o w f o' w', run_component p o w = (f, o', w') → rtc report o o').

Lemma reports_offered o o' : rtc report o o' → offered o → offered o'.
Proof.
  intros Hr Ho a Ha. destruct (reports_keep _ _ Hr) as [(_ & _ & _ & _ & _ & _ & _ & He) Hk]. apply (Hk a), Ho, He, Ha.
Qed.

Lemma mark_accounted o a : accounted a o → accounted a (mark_unclaimed o).
Proof.
  intros [?|(x & Hx & Hf)]; [by left|right]. exists x. split; [done|]. rewrite mark_unclaimed_errors. cbn -[od_has] in *.
  rewrite !orb_true_iff in *. tauto.
Qed.

Lemma record_pump_error_book f (o : operation val) : book (record_pump_error f o) = book o.
Proof. unfold record_pump_error. destruct (expected_failure f); [done|]. by destruct (unrelated_error o). Qed.

Lemma finish_execution_book (o : operation val) w r o' w' : finish_execution o w = (r, o', w') → book o' = book o ∧ unrelated_error o' = unrelated_error o ∧
  ∀ ran', r = inl ran' → completed o' = true ∨ stop_admission o' = true.
Proof.
  unfold finish_execution. destruct (refresh_status p (component o) w) as [[f|] w1]; [by intros [= <- <- _]|].
  destruct (stop_admission o && _) eqn:Es; [intros [= <- <- _]; apply andb_true_iff in Es as [Es _]; eauto|].
  destruct (match completion o with Some _ => _ | None => _ end) as [[f|] w2]; intros [= <- <- _]; [done|]. cbn. auto.
Qed.

(** What an epoch leaves behind, whatever the pump did. *)
Definition closed (o o' : operation val) (r : list string + failure) : Prop :=
  (∀ a, (accounted a o → accounted a o')) ∧ (offered o → offered o') ∧
  ∀ ran', r = inl ran' → errors (book o') = [] ∧ unrelated_error o' = None ∧ expectations (book o') = [] ∧
    (completed o' = true ∨ stop_admission o' = true) ∧ ∀ a, settled a o → od_has a (values (book o')) = true.

Lemma closed_step o o1 o2 r : (∀ a, accounted a o → accounted a o1) → (offered o → offered o1) → (∀ a, settled a o → settled a o1) →
  closed o1 o2 r → closed o o2 r.
Proof.
  intros Ha Ho Hs (Ca & Co & Cr). split; [auto|]. split; [auto|]. intros ran' Hr. destruct (Cr ran' Hr) as (? & ? & ? & ? & Hv). split_and!; auto.
Qed.

Lemma epochs_closed fuel o w r o' w' : epochs fuel o w = Some (r, o', w') → closed o o' r.
Proof.
  revert o w. induction fuel as [|fuel IH]; intros o w; [done|]. cbn [epochs]. set (o0 := set_epoch _ o).
  destruct (run_component p o0 w) as [[f o1] w1] eqn:E1. pose proof (Hpump _ _ _ _ _ E1) as Hr.
  destruct (reports_keep _ _ Hr) as [_ Hk]. assert (∀ a, accounted a o → accounted a o1) as Ha by (intros a; apply (Hk a)).
  assert (∀ a, settled a o → settled a o1) as Hs by (intros a; apply (Hk a)).
  assert (offered o → offered o1) as Ho by (intros H; by apply (reports_offered o0)).
  destruct f as [f|].
  { intros [= <- <- _]. split; [|split; [|done]]; unfold offered, accounted; by rewrite record_pump_error_book. }
  assert (∀ a, od_has a (errors (book (mark_unclaimed o1))) = false → od_has a (expectations (book o1)) = false) as Hm.
  { intros a. rewrite mark_unclaimed_errors. by intros [_ ?]%orb_false_iff. }
  destruct (primary_error None (mark_unclaimed o1)) as [f|] eqn:Ep.
  { intros [= <- <- _]. split; [intros a; by intros ?%Ha%mark_accounted|]. split; [|done]. intros H a Hin. apply mark_accounted, Ho; done. }
  apply no_primary in Ep as [Hu He]. rewrite od_empty in He. assert (expectations (book o1) = []) as Hx by (apply od_empty; auto).
  assert (closed o1 (mark_unclaimed o1) (inr claim_changed)) as Hc0.
  { split; [intros a; apply mark_accounted|]. split; [|done]. intros H a Hin. apply mark_accounted, H, Hin. }
  assert (∀ a, settled a o1 → od_has a (values (book (mark_unclaimed o1))) = true) as Hv.
  { intros a [?|[H|H]]; [done| |]; specialize (He a); rewrite mark_unclaimed_errors in He; rewrite H in He; by rewrite ?orb_true_r in He. }
  assert (∀ o2 ran', book o2 = book (mark_unclaimed o1) → unrelated_error o2 = None → (completed o2 = true ∨ stop_admission o2 = true) → closed o o2 (inl ran')) as Hok.
  { intros o2 ran' Hb Hu2 Hc. apply (closed_step o o1); [done..|]. destruct Hc0 as (C1 & C2 & _). unfold closed, offered, accounted. rewrite Hb.
    split; [done|]. split; [done|]. intros _ _. split_and!; [by apply od_empty|done|done|done|done]. }
  assert (∀ o2 f, book o2 = book (mark_unclaimed o1) → closed o o2 (inr f)) as Hbad.
  { intros o2 f Hb. apply (closed_step o o1); [done..|]. destruct Hc0 as (C1 & C2 & _). unfold closed, offered, accounted. by rewrite Hb. }
  destruct (selected_restarts_only (mark_unclaimed o1)).
  { destruct (refresh_status p _ w1) as [[f|] w2]; intros [= <- <- _]; [by apply Hbad|]. apply Hok; auto. }
  destruct (replacement_epoch (mark_unclaimed o1)).
  - intros H%IH. destruct Hc0 as (C1 & C2 & _). apply (closed_step o (mark_unclaimed o1)); [intros a ?%Ha; by apply C1|intros ?%Ho; by apply C2| |done].
    intros a H1%Hs. left. by apply Hv.
  - intros [= H]. destruct (finish_execution_book _ _ _ _ _ H) as (Hb & Hu2 & Hc). destruct r as [ran'|f]; [|by apply Hbad].
    apply Hok; [done|congruence|eauto].
Qed.

Lemma ordinary_epoch_ends o w : expectations (book o) = [] → ∃ x, epochs 1 o w = Some x.
Proof.
  intros Hx. cbn [epochs]. rewrite Hx. cbn [fmap list_fmap]. rewrite bool_decide_eq_true_2 by done. cbn [negb].
  destruct (run_component p (set_epoch false o) w) as [[[f|] o1] w1] eqn:E1; [eauto|].
  destruct (primary_error None (mark_unclaimed o1)) as [f|]; [eauto|]. destruct (selected_restarts_only _); [destruct (refresh_status p _ w1); eauto|].
  destruct (reports_keep _ _ (Hpump _ _ _ _ _ E1)) as [(_ & _ & Hrep & _) _].
  replace (replacement_epoch (mark_unclaimed o1)) with false by (symmetry; exact Hrep). by eexists.
Qed.

(** An epoch of accepted restarts is followed by one of ordinary work, and that is all. *)
Lemma epochs_end o w : ∃ x, epochs 2 o w = Some x.
Proof.
  remember 1%nat as n eqn:En. cbn [epochs]. set (o0 := set_epoch _ o).
  destruct (run_component p o0 w) as [[[f|] o1] w1] eqn:E1; [eauto|].
  destruct (primary_error None (mark_unclaimed o1)) as [f|] eqn:Ep; [eauto|]. apply no_primary in Ep as [_ He]. rewrite od_empty in He.
  destruct (selected_restarts_only _); [destruct (refresh_status p _ w1); eauto|]. destruct (replacement_epoch (mark_unclaimed o1)); [|eauto].
  subst n. apply ordinary_epoch_ends. apply (od_empty (expectations (book o1))). intros a. specialize (He a).
  rewrite mark_unclaimed_errors in He. by apply orb_false_iff in He as [_ ?].
Qed.

Lemma run_closed fuel o w r o' w' : run fuel o w = Some (r, o', w') → closed o o' r ∨ (o' = o ∧ ∃ f, r = inr f).
Proof.
  unfold run. destruct (started o); [intros ?%epochs_closed; by left|].
  destruct (begin_full_component p (component o) w) as [[c|f] w1]; [|intros [= <- <- _]; right; eauto].
  intros H%epochs_closed. left. by apply (closed_step o (set_started c o)).
Qed.

Lemma life_offered o0 o : initial o0 → rtc operation_step o0 o → offered o.
Proof.
  intros Hi Hr. apply initial_offered in Hi. induction Hr as [|o o1 o2 Hs _ IH]; [done|]. apply IH. destruct Hs as [o o' H|rs stop o o' H|fuel o w r o' w' H].
  - apply (reports_offered o); [by apply rtc_once|done].
  - by eapply resume_offered.
  - destruct (run_closed _ _ _ _ _ _ H) as [(_ & Ho & _)|[-> _]]; auto.
Qed.

(** C12: an operation never loses a restart its session accepted.  Whatever its pumps
    report, a run of the operation ends after at most two epochs; when it returns, every
    accepted restart was run to a value and no error is left; when it raises, every
    accepted restart has a value or its attempt is among those the session is asked about
    again. *)
Theorem restarts_settled o0 o w : initial o0 → rtc operation_step o0 o →
  ∃ r o' w', run 2 o w = Some (r, o', w') ∧
    (∀ ran', r = inl ran' → errors (book o') = [] ∧ unrelated_error o' = None ∧ expectations (book o') = [] ∧
       (completed o' = true ∨ stop_admission o' = true) ∧
       ∀ a, od_has a (expectations (book o)) = true → od_has a (values (book o')) = true) ∧
    (∀ f, r = inr f → ∀ a, od_has a (expectations (book o)) = true →
       od_has a (values (book o')) = true ∨ ∃ x, x ∈ failed_attempts o' ∧ od_get a (attempts (book o')) = Some x).
Proof.
  intros Hi Hr. pose proof (life_offered _ _ Hi Hr) as Ho.
  assert (∃ x, run 2 o w = Some x) as [[[r o'] w'] H].
  { unfold run. destruct (started o); [apply epochs_end|]. destruct (begin_full_component p (component o) w) as [[c|f] w1]; [apply epochs_end|eauto]. }
  exists r, o', w'. split; [done|]. destruct (run_closed _ _ _ _ _ _ H) as [(Ha & _ & Hc)|[-> [f ->]]].
  - split; [|intros f _ a Hin; by apply accounted_listed, Ha, Ho]. intros ran' Hran. destruct (Hc ran' Hran) as (? & ? & ? & ? & Hv). split_and!; try done.
    intros a Hin. apply Hv. right. by right.
  - split; [done|]. intros _ _ a Hin. by apply accounted_listed, Ho.
Qed.
End running.

(** ** A restart accepted after a job was given back *)

Module restart_sample.
Definition lost : owner := Owner "e1" ("a", 1) 0 "s" ["a"] "i1" 1 0 None.
Definition replacement : addr * expected_restart := (("a", 1), ExpectedRestart "i1" 1 lost None).

(** A pump that runs every accepted restart. *)
Definition take (o : operation nat) : operation nat := foldl (λ o q, record_outcome q.1 (inl 7%nat) o) o (expectations (book o)).
Definition pumps : pumping nat unit :=
  Pumping nat unit (λ _ w, (inl None, w)) (λ o w, (None, take o, w)) (λ _ w, (None, w)) (λ _ _, false) (λ _ w, (None, w)).

Lemma take_reports o w f o' w' : run_component pumps o w = (f, o', w') → rtc report o o'.
Proof.
  intros [= <- <- _]. unfold take. generalize (expectations (book o)). intros l. revert o.
  induction l as [|q l IH]; intros o; cbn [foldl]; [done|]. eapply rtc_l; [apply report_outcome|apply IH].
Qed.

Definition given_back : operation nat := record_abandoned ("a", 1) 0 "e1" true (new_operation ["a"]).
Definition resumed : operation nat := match resume [replacement] false given_back with Ok o => o | Err _ => given_back end.
Example resumed_ok : resume [replacement] false given_back = Ok resumed.
Proof. reflexivity. Qed.
End restart_sample.

Lemma restarts_settled_witness :
  ∃ o', od_get ("a", 1) (values (book (val := nat) o')) = Some 7%nat ∧ expectations (book o') = [] ∧
    run restart_sample.pumps 2 restart_sample.resumed () = Some (inl [], o', ()).
Proof.
  destruct (restarts_settled restart_sample.pumps restart_sample.take_reports (new_operation ["a"]) restart_sample.resumed ()) as (r & o' & w' & Hrun & Hok & _).
  - constructor.
  - eapply rtc_l; [apply step_report, (report_abandoned ("a", 1) 0 "e1" true)|]. apply rtc_once. eapply step_resume. exact restart_sample.resumed_ok.
  - assert (r = inl []) as -> by (vm_compute in Hrun; injection Hrun as <- _ _; reflexivity).
    exists o'. destruct (Hok [] eq_refl) as (_ & _ & He & _). destruct w'. split; [|split; [exact He|exact Hrun]].
    vm_compute in Hrun. injection Hrun as <-. reflexivity.
Defined.
