(* ===== verification/ComponentPump.v ===== *)
(** The pump of one running component ([workflow/component_scheduler.py], the waiting rules
    of [workflow/component_state.py]).

    A component owns one pump thread per member at most.  Members with live runners are
    resident: their pump stays until the component stops.  A waiting member gets a pump only
    when no member it waits for has queued, running or failed jobs.  The coordinator reaps
    finished pumps, looks at one snapshot of the job rows, and stops when nothing is left,
    when only members waiting for each other are left, or when something failed; it returns
    once every pump has ended.

    The threads are steps of a relation: coordinator, pumps, and whatever else changes the
    tables in between. *)
From S2P Require Import Prelude Topology Membership JobStore ComponentLife Operations.

#[local] Open Scope Z_scope.

(** ** Observations of job rows ([job_queries.py]) *)

Definition has_status (d : db) (node : string) (statuses : list string) : bool :=
  existsb (λ q : addr * job_row, bool_decide (q.1.1 = node) && bool_decide (status q.2 ∈ statuses)) (map_to_list (jobs d)).

(** [nodes_with_job_statuses] of valid names, and [queued_nodes], [has_queued_jobs]. *)
Definition nodes_with_job_statuses (d : db) (names statuses : list string) : gset string :=
  list_to_set (filter (λ n, has_status d n statuses = true) names).
Definition has_queued_jobs (d : db) (node : string) : bool := has_status d node [QUEUED].

(** [nodes_by_job_status] for the three statuses of [observe_jobs]. *)
Record snapshot := Snapshot { seen_queued : gset string; seen_running : gset string; seen_failed : gset string }.
Definition observe_jobs (d : db) (names : list string) : snapshot :=
  Snapshot (nodes_with_job_statuses d names [QUEUED]) (nodes_with_job_statuses d names [RUNNING])
    (nodes_with_job_statuses d names [FAILED]).
Definition blocking (x : snapshot) : gset string := seen_queued x ∪ seen_running x ∪ seen_failed x.

(** [set_node_statuses]. *)
Definition WAITING := "waiting".
Definition set_node_statuses (rows : list (string * string)) (d : db) : db :=
  set_nodes (foldl (λ m q, <[q.1 := q.2]> m) (nodes d) rows) d.

(** ** Waiting members ([component_state.py]) *)

Record node_config := NodeConfig {
  waiting : bool;
  wait_for : option (list string);
  (** [(runner_override or runner) in {"threaded", "api"}]. *)
  live_runner : bool
}.

Section component.
Context {val : Type}.
(** The sorted members, the declared nodes, and whether the component has a cycle. *)
Context (members : list string) (config : string → node_config) (in_graph : string → bool) (cyclic : bool).

Definition peers (node : string) : list string := filter (λ n, n ≠ node) members.

(** [validate_waiting_configuration]: the notice about a member without peers. *)
Definition validate_waiting_configuration (node : string) : result (option string) :=
  let c := config node in
  if negb (waiting c) then Ok None else
  let! _ := match wait_for c with
            | None => Ok ()
            | Some declared =>
                check! negb (bool_decide (node ∈ declared)) orelse InvalidGraphError saying "Waiting node cannot wait for itself" in
                check! forallb in_graph declared orelse InvalidGraphError saying "Waiting node references unknown node(s)" in
                check! forallb (λ n, bool_decide (n ∈ peers node)) declared
                  orelse InvalidGraphError saying "Waiting node can only wait for vertices in Hoeflein component" in
                Ok ()
            end in
  Ok (if bool_decide (peers node = []) then Some "Node is declared waiting, but Hoeflein component is trivial" else None).

Definition waiting_dependencies (node : string) : result (gset string) :=
  let c := config node in
  if negb (waiting c) then Ok ∅ else
  let! _ := validate_waiting_configuration node in
  Ok (list_to_set (default (peers node) (wait_for c))).

(** [waiting_blockers], [node_is_waiting] and [node_waiting_ready] read the rows anew. *)
Definition waiting_blockers (d : db) (node : string) : result (gset string) :=
  let! deps := waiting_dependencies node in Ok (nodes_with_job_statuses d (elements deps) [QUEUED; RUNNING; FAILED]).
Definition node_is_waiting (d : db) (node : string) : result bool :=
  if negb (has_queued_jobs d node) then Ok false
  else if has_status d node [RUNNING] then Ok false
  else let! blockers := waiting_blockers d node in Ok (negb (bool_decide (blockers = ∅))).
Definition node_waiting_ready (d : db) (node : string) : result bool :=
  let! blockers := waiting_blockers d node in Ok (bool_decide (blockers = ∅)).

(** [_waiting_startable_nodes]: the members to start, and those to mark as waiting. *)
Fixpoint startable_loop (active queued blocked : gset string) (names : list string) : result (list string * list (string * string)) :=
  match names with
  | [] => Ok ([], [])
  | n :: names =>
      if bool_decide (n ∈ active) || negb (bool_decide (n ∈ queued)) then startable_loop active queued blocked names
      else
        let! deps := waiting_dependencies n in
        let! rest := startable_loop active queued blocked names in
        Ok (if bool_decide (deps ∩ blocked = ∅) then (n :: rest.1, rest.2) else (rest.1, (n, WAITING) :: rest.2))
  end.
Definition _waiting_startable_nodes (active queued blocked : gset string) : result (list string * list (string * string)) :=
  startable_loop active queued blocked members.

(** [resolve_wait_deadlock]: what the resolver chooses, if it is a queued member. *)
Context (wait_deadlock_resolver : option (list string → list string → list (string * list string) → option string)).

Definition resolve_wait_deadlock (queued blocked : gset string) : result (option string) :=
  match wait_deadlock_resolver with
  | None => Ok None
  | Some resolver =>
      let names := filter (λ n, n ∈ queued) members in
      let! blockers := rmap (λ n, let! deps := waiting_dependencies n in Ok (n, py_sorted (elements (deps ∩ blocked)))) names in
      Ok (match resolver members names blockers with
          | Some choice => if bool_decide (choice ∈ names) then Some choice else None
          | None => None
          end)
  end.

(** ** The state of a pumping component *)

(** Why the coordinator stopped without an error: the rows and the operation it saw. *)
Inductive verdict := Quiescent (d : db) (o : operation val) | Deadlocked (d : db) (o : operation val).

Inductive stage :=
  | Attaching
  | Reaping
  | Looking
  | Draining (why : option verdict)
  | Over (why : option verdict) (r : list string + failure).

Record pump := Pump {
  tables : db;
  oper : operation val;
  (** Submitted pumps the coordinator has not reaped, oldest first. *)
  futures : list (nat * string);
  (** Pumps that ended: [None] when they returned. *)
  outcomes : gmap nat (option failure);
  cancelled : gset nat;
  serial : nat;
  active : gset string;
  stop_event : bool;
  attached : gset string;
  first_error : option failure;
  at_stage : stage
}.

Definition set_tables x s := Pump x (oper s) (futures s) (outcomes s) (cancelled s) (serial s) (active s) (stop_event s) (attached s) (first_error s) (at_stage s).
Definition set_oper x s := Pump (tables s) x (futures s) (outcomes s) (cancelled s) (serial s) (active s) (stop_event s) (attached s) (first_error s) (at_stage s).
Definition set_futures f a s := Pump (tables s) (oper s) f (outcomes s) (cancelled s) (serial s) a (stop_event s) (attached s) (first_error s) (at_stage s).
Definition set_outcomes x s := Pump (tables s) (oper s) (futures s) x (cancelled s) (serial s) (active s) (stop_event s) (attached s) (first_error s) (at_stage s).
Definition set_cancelled x s := Pump (tables s) (oper s) (futures s) (outcomes s) x (serial s) (active s) (stop_event s) (attached s) (first_error s) (at_stage s).
Definition set_attached x s := Pump (tables s) (oper s) (futures s) (outcomes s) (cancelled s) (serial s) (active s) (stop_event s) x (first_error s) (at_stage s).
Definition set_stage x s := Pump (tables s) (oper s) (futures s) (outcomes s) (cancelled s) (serial s) (active s) (stop_event s) (attached s) (first_error s) x.
Definition stopping (f : option failure) s := Pump (tables s) (oper s) (futures s) (outcomes s) (cancelled s) (serial s) (active s) true (attached s) f (at_stage s).

(** [submit_node]. *)
Definition submit_node (node : string) (s : pump) : pump :=
  if bool_decide (node ∈ active s) || stop_event s then s
  else Pump (tables s) (oper s) (futures s ++ [(serial s, node)]) (outcomes s) (cancelled s) (S (serial s)) ({[node]} ∪ active s)
         (stop_event s) (attached s) (first_error s) (at_stage s).

(** [live_nodes], decided when the component starts. *)
Definition live_nodes (o : operation val) : list string :=
  if ((1 <? Z.of_nat (length members)) || cyclic) && negb (stop_admission o || replacement_epoch o)
  then filter (λ n, waiting (config n) = false ∧ live_runner (config n) = true) members else [].

(** The start of [_run_component], up to the wait for the resident pumps. *)
Definition start (d : db) (o : operation val) : pump :=
  let queued := selected_queued_nodes (filter (λ n, n ∈ seen_queued (observe_jobs d members)) members) o in
  let s0 := Pump d o [] ∅ ∅ 0 ∅ false ∅ None (Over None (inl (ran o))) in
  if bool_decide (queued = []) then s0
  else foldl (λ s n, submit_node n s)
         (set_stage Attaching (set_oper (set_ran (ran o) (work_nodes o ∪ list_to_set queued) o) s0)) (live_nodes o).

(** ** The coordinator *)

Definition live : Type := list string.

(** The resident members are attached, or a pump has ended early. *)
Definition attach_over (resident : live) (s : pump) : bool :=
  forallb (λ n, bool_decide (n ∈ attached s)) resident || existsb (λ q, bool_decide (is_Some (outcomes s !! q.1))) (futures s).

(** One finished pump; a failure stops the loop over the finished ones. *)
Definition reap_one (resident : live) (q : nat * string) (s : pump) : pump :=
  let s := set_futures (filter (λ p, p.1 ≠ q.1) (futures s)) (active s ∖ {[q.2]}) s in
  match outcomes s !! q.1 with
  | Some (Some f) => stopping (match first_error s with None => Some f | e => e end) (set_oper (record_pump_error f (oper s)) s)
  | _ =>
      let o := oper s in
      let s := set_oper (set_ran (if bool_decide (q.2 ∈ ran o) then ran o else ran o ++ [q.2]) (work_nodes o) o) s in
      if bool_decide (q.2 ∈ resident) && negb (stop_event s) then submit_node q.2 s else s
  end.

Fixpoint reap_loop (resident : live) (done : list (nat * string)) (s : pump) : pump :=
  match done with
  | [] => s
  | q :: done =>
      let s := reap_one resident q s in
      match first_error s with Some _ => s | None => reap_loop resident done s end
  end.

Definition reap (resident : live) (s : pump) : pump :=
  let s := reap_loop resident (filter (λ q, is_Some (outcomes s !! q.1)) (futures s)) s in
  match first_error s with Some _ => set_stage (Draining None) s | None => set_stage Looking s end.

(** The queued members the operation lets run. *)
Definition open_queue (x : snapshot) (o : operation val) : list string := selected_queued_nodes (elements (seen_queued x)) o.

(** The rest of a turn, over one snapshot. *)
Definition look_at (resident : live) (s : pump) : result pump :=
  let x := observe_jobs (tables s) members in
  let queued := list_to_set (open_queue x (oper s)) : gset string in
  let o := oper s in
  let s1 := set_oper (set_ran (ran o) (work_nodes o ∪ queued) o) s in
  let! st := _waiting_startable_nodes (active s1) queued (blocking x) in
  let s1 := set_tables (set_node_statuses st.2 (tables s1)) s1 in
  let s1 := foldl (λ s n, submit_node n s) s1 st.1 in
  if bool_decide (queued = ∅) && bool_decide (seen_running x = ∅)
  then Ok (set_stage (Draining (Some (Quiescent (tables s) o))) (stopping None s1))
  else if negb (bool_decide (queued = ∅)) && bool_decide (seen_running x = ∅) && bool_decide (active s1 ⊆ list_to_set resident) then
    let! stuck := rmap (λ n, let! deps := waiting_dependencies n in Ok (negb (bool_decide (deps ∩ blocking x = ∅)))) (elements queued) in
    if forallb id stuck then
      let! override := resolve_wait_deadlock queued (blocking x) in
      match override with
      | None => Ok (set_stage (Draining (Some (Deadlocked (tables s) o))) (stopping None s1))
      | Some n => Ok (set_stage Reaping (submit_node n s1))
      end
    else Ok (set_stage Reaping s1)
  else Ok (set_stage Reaping s1).

(** What a turn has done by the time it raises: the members with work are noted, and unless
    the search for startable members raised, those are marked and submitted. *)
Definition broken_off (s : pump) : pump :=
  let x := observe_jobs (tables s) members in
  let queued := list_to_set (open_queue x (oper s)) : gset string in
  let o := oper s in
  let s1 := set_oper (set_ran (ran o) (work_nodes o ∪ queued) o) s in
  match _waiting_startable_nodes (active s1) queued (blocking x) with
  | Ok st => foldl (λ s n, submit_node n s) (set_tables (set_node_statuses st.2 (tables s1)) s1) st.1
  | Err _ => s1
  end.

(** [except BaseException] around the loop. *)
Definition look (resident : live) (s : pump) : pump :=
  match look_at resident s with
  | Ok s => s
  | Err e => set_stage (Draining None) (stopping (Some (Failure e None)) (broken_off s))
  end.

(** The loop over the pumps that were left when the coordinator stopped. *)
Definition collect_one (s : pump) (q : nat * string) : pump :=
  match outcomes s !! q.1 with
  | Some (Some f) => set_oper (record_pump_error f (oper s)) (stopping (match first_error s with None => Some f | e => e end) s)
  | _ => s
  end.
Definition collect (s : pump) : pump := foldl collect_one s (filter (λ q, q.1 ∉ cancelled s) (futures s)).

(** Members that had work are reported even when their pump outlived the loop. *)
Definition report_work (o : operation val) : operation val :=
  set_ran (foldl (λ l n, if bool_decide (n ∈ work_nodes o) && negb (bool_decide (n ∈ l)) then l ++ [n] else l) (ran o) members) (work_nodes o) o.

(** ** Steps *)

Section steps.
(** What [_finalize_failed_component] does to tables and operation ([ComponentCleanup]). *)
Context (finalize : db → operation val → db * operation val).

(** The end of [_run_component], once every pump has ended. *)
Definition join (why : option verdict) (s : pump) : pump :=
  let s := collect s in
  match first_error s with
  | Some f => let '(d, o) := finalize (tables s) (oper s) in set_stage (Over why (inr f)) (set_oper o (set_tables d s))
  | None => let o := report_work (oper s) in set_stage (Over why (inl (ran o))) (set_oper o s)
  end.

Definition unfinished (s : pump) (f : nat) : Prop := outcomes s !! f = None ∧ f ∉ cancelled s.

Definition pumping_on (s : pump) : Prop := ∃ f n, (f, n) ∈ futures s ∧ unfinished s f.

Inductive pump_step (resident : live) : pump → pump → Prop :=
  (* Other threads and processes change the tables. *)
  | step_tables d s : pump_step resident s (set_tables d s)
  (* A pump reports the outcome of a job or one it gave back. *)
  | step_outcome a r s : pumping_on s → pump_step resident s (set_oper (record_outcome a r (oper s)) s)
  | step_abandoned a g x released s : pumping_on s → pump_step resident s (set_oper (record_abandoned a g x released (oper s)) s)
  (* A nested call of a job hands the restarts its session accepted to this operation. *)
  | step_retain c rs o s : pumping_on s → retain_component_restarts c rs (oper s) = Ok (Some o) → pump_step resident s (set_oper o s)
  (* A pump is attached, or ends. *)
  | step_attach f n s : (f, n) ∈ futures s → pump_step resident s (set_attached ({[n]} ∪ attached s) s)
  | step_end f n r s : (f, n) ∈ futures s → unfinished s f → pump_step resident s (set_outcomes (<[f := r]> (outcomes s)) s)
  (* After a failure, pumps that have not begun are cancelled. *)
  | step_cancel f n why s : at_stage s = Draining why → is_Some (first_error s) → (f, n) ∈ futures s → unfinished s f →
      pump_step resident s (set_cancelled ({[f]} ∪ cancelled s) s)
  (* The coordinator. *)
  | step_released s : at_stage s = Attaching → attach_over resident s = true → pump_step resident s (set_stage Reaping s)
  | step_reap s : at_stage s = Reaping → pump_step resident s (reap resident s)
  | step_look s : at_stage s = Looking → pump_step resident s (look resident s)
  | step_join why s : at_stage s = Draining why → (∀ f n, (f, n) ∈ futures s → ¬ unfinished s f) → pump_step resident s (join why s).
End steps.
End component.
