(* ===== verification/ComponentCleanup.v ===== *)
(** What remains of a failed component once its pumps have ended
    ([workflow/component_failure_cleanup.py], [storage/execution_terminal.py]).

    Executions of the session that still hold jobs of the component are settled: as their
    output says where one was written, as failed otherwise. *)
From S2P Require Import Prelude Json JsonText Topology JobStore ComponentLife Operations.

#[local] Open Scope Z_scope.

(** [list_jobs(node, status=RUNNING)] of the nodes in order. *)
Definition running_jobs (members : list string) (d : db) : list addr :=
  members ≫= λ n, pair n <$> py_sorted (omap (λ q : addr * job_row,
    if bool_decide (q.1.1 = n) && bool_decide (status q.2 = RUNNING) then Some q.1.2 else None) (map_to_list (jobs d))).

(** ** Recovering written outputs *)

Section outputs.
Context (snapshot_components : string → result (list key)).
(** What [read_json] gives for the output file of a job, and [int] of a number that is not
    one. *)
Context (output : addr → result json) (int_of_float : string → result Z).

(** [int(output_generation)]. *)
Definition int_of_json (v : json) : result Z :=
  match v with
  | JInt z => Ok z
  | JBool b => Ok (if b then 1 else 0)
  | JFloat t => int_of_float t
  | JStr s => match py_int s with Some z => Ok z | None => raise ValueError "invalid literal for int()" end
  | _ => raise TypeError "int() argument must be a string or a real number"
  end.

(** The status the output file of a job gives its execution of generation [g]; [None] when
    it is passed over. *)
Definition output_status (a : addr) (g : Z) : result (option string) :=
  let! v := output a in
  match v with
  | JObj o =>
      match dict_get "status" o with
      | Some (JArr _ | JObj _) => raise TypeError "unhashable type"
      | Some (JStr st) =>
          if negb (bool_decide (st ∈ terminal_statuses)) then Ok None else
          let! same := match dict_get "generation" o with
                       | None | Some JNull => Ok true
                       | Some v =>
                           match int_of_json v with
                           | Ok n => Ok (n =? g)
                           | Err e => if bool_decide (exc_cls e ∈ [TypeError; ValueError]) then Ok false else Err e
                           end
                       end in
          Ok (if same : bool then Some st else None)
      | _ => Ok None
      end
  | _ => Ok None
  end.

(** The update of one row; [None] when the row is passed over. *)
Definition recovered_update (attempts : option (list (addr * attempt))) (owners : option (list (addr * owner_expectation)))
  (a : addr) (row : job_row) (x : string) : result (option terminal_update) :=
  let mine := match attempts with
              | None => true
              | Some l => bool_decide (od_get a l = Some (a, generation row, x))
              end in
  if negb mine then Ok None else
  let! s := output_status a (generation row) in
  match s with
  | None => Ok None
  | Some st =>
      let! t := match owners with
                | None => Ok None
                | Some l => match od_get a l with Some t => Ok (Some t) | None => raise KeyError "execution owner" end
                end in
      Ok (Some (TerminalUpdate a (generation row) x st t))
  end.

(** The rows [reconcile_terminal_outputs] selects. *)
Definition leased_rows (names : option (list string)) (d : db) : list (addr * job_row * string) :=
  omap (λ q : addr * job_row,
    match active_execution_id q.2 with
    | Some x => if bool_decide (status q.2 = RUNNING) && match names with Some l => bool_decide (q.1.1 ∈ l) | None => true end
                then Some (q, x) else None
    | None => None
    end) (map_to_list (jobs d)).

(** The updates node by node, in the order their nodes appear first. *)
Definition by_node (us : list terminal_update) : list terminal_update :=
  fromkeys ((λ u, (u_addr u).1) <$> us) ≫= λ n, filter (λ u, (u_addr u).1 = n) us.

Definition reconcile_terminal_outputs (time : string) (names : option (list string)) (attempts : option (list (addr * attempt)))
  (owners : option (list (addr * owner_expectation))) (d : db) : result (db * Z) :=
  let! us := rmap (λ q : addr * job_row * string, recovered_update attempts owners q.1.1 q.1.2 q.2) (leased_rows names d) in
  let '(d, outcomes) := publish_each snapshot_components d time (by_node (omap id us)) in
  Ok (d, Z.of_nat (length (filter (λ r, r = Ok tt) outcomes))).

(** ** The cleanup *)

(** The sorted members, the session and the component each node was admitted with. *)
Context (members : list string) (session_id : string) (admitted : gmap string key).

(** The running execution of a job of this session, if it is one to clean up. *)
Definition cleanup_candidate (d : db) (retained : option (list attempt)) (abandoned : list (addr * attempt)) (a : addr)
  : option (attempt * owner_expectation) :=
  match read_job_owner_observation snapshot_components d a with
  | Ok (Some ob) =>
      match ob_owner ob with
      | Some ow =>
          let x : attempt := (a, ow_generation ow, ow_execution ow) in
          if bool_decide (ow_session ow = session_id) && bool_decide (admitted !! a.1 = Some (ow_component ow))
             && bool_decide (list_to_set (ow_component ow) = (list_to_set members : gset string))
             && bool_decide (ob_status ob = RUNNING) && bool_decide (ob_active ob = Some (ow_execution ow))
             && match ob_session ob with Some (_, row) => bool_decide (s_status row = RUNNING) | None => false end
             && match retained with Some l => bool_decide (x ∈ l) | None => true end
             && match od_get a abandoned with Some y => bool_decide (y = x) | None => true end
             && bool_decide (reservations d !! encode_component_key (ow_component ow) = Some (ow_session ow))
          then Some (x, OwnerExpectation (ow_session ow) (ow_component ow) (ow_instance ow)) else None
      | None => None
      end
  | _ => None
  end.

Section failed.
Context {val : Type} (time : string).

(** [nested] when a task of the same component made the call that failed. *)
Definition cleanup_candidates (d : db) (nested : bool) (o : operation val) : list (attempt * owner_expectation) :=
  omap (cleanup_candidate d (if nested then Some (failed_attempts o) else None) (abandoned (book o))) (running_jobs members d).

Definition fail_candidate (d : db) (c : attempt * owner_expectation) : db :=
  let '(((a, g), x), t) := c in
  match finalize_job_execution snapshot_components d time (TerminalUpdate a g x FAILED (Some t)) with Ok d => d | Err _ => d end.

(** [_finalize_failed_component] of an operation.  Whatever a step of it raises is
    ignored. *)
Definition _finalize_failed_component (nested : bool) (d : db) (o : operation val) : db * operation val :=
  let cs := cleanup_candidates d nested o in
  let o := foldl (λ o c, record_cleanup_attempt c.1 o) o cs in
  let attempts := (λ c : attempt * owner_expectation, (c.1.1.1, c)) <$> cs in
  let d :=
    if bool_decide (running_jobs members d = []) then d
    else match reconcile_terminal_outputs time (Some members) (Some ((λ q, (q.1, q.2.1)) <$> attempts)) (Some ((λ q, (q.1, q.2.2)) <$> attempts)) d with
         | Ok (d, _) => d
         | Err _ => d
         end in
  (foldl fail_candidate d (omap (λ a, od_get a attempts) (running_jobs members d)), o).

(** ** What the cleanup changes *)

Abbreviation publish1 := (λ d u, (apply_terminal_updates snapshot_components d time [u]).1).








Context (d0 : db) (Hok : db_ok d0).

(** The dictionaries of the cleanup. *)
Abbreviation keyed cs := ((λ c : attempt * owner_expectation, (c.1.1.1, c)) <$> cs).

(** What each candidate is to be settled with. *)
Section verdicts.
Context (fin : attempt * owner_expectation → string).














End verdicts.








Abbreviation reconciled cs := (reconcile_terminal_outputs time (Some members) (Some ((λ q, (q.1, q.2.1)) <$> keyed cs)) (Some ((λ q, (q.1, q.2.2)) <$> keyed cs)) d0).






End failed.
End outputs.

(** The cleanup only reports to the operation. *)
Lemma finalize_failed_reports {val} snaps out int members session admitted time nested d (o : operation val) :
  rtc report o (_finalize_failed_component snaps out int members session admitted time nested d o).2.
Proof.
  unfold _finalize_failed_component. cbn [snd]. generalize (cleanup_candidates snaps members session admitted d nested o). intros cs.
  revert o. induction cs as [|c cs IH]; intros o; cbn [foldl]; [done|]. eapply rtc_l; [apply report_cleanup|apply IH].
Qed.

(** ** A concrete failure *)

Module cleanup_sample.
Definition no_output (a : addr) : result json := Ok JNull.
Definition done_output (a : addr) : result json := Ok (JObj [("status", JStr DONE); ("generation", JStr "0")]).
Definition no_float (t : string) : result Z := raise ValueError "not a number".
Definition scope : gmap string key := {["a" := ["a"]]}.
Definition op : operation nat := new_operation ["a"].
Definition clean (output : addr → result json) : db * operation nat :=
  _finalize_failed_component Sample.snap output no_float ["a"] "s" scope "t9" false Sample.db1 op.

Definition status_of (d : db) (j : Z) : option string := status <$> jobs d !! ("a", j).
Example without_output : status_of (clean no_output).1 1 = Some FAILED ∧ status_of (clean no_output).1 2 = Some QUEUED.
Proof. split; vm_compute; reflexivity. Qed.
Example with_output : status_of (clean done_output).1 1 = Some DONE.
Proof. vm_compute. reflexivity. Qed.

(** The execution that holds job 1. *)
Definition mine : attempt * owner_expectation := ((("a", 1), 0, "e1"), OwnerExpectation "s" ["a"] Sample.hex1).
End cleanup_sample.

