(* ===== verification/PumpSafety.v ===== *)
(** What every interleaving of a component's pumps and their coordinator keeps
    ([ComponentPump]): one pump for each member, waiting members admitted only past their
    peers' work, and no return before every pump has ended. *)
From S2P Require Import Prelude Json JsonText Topology Membership JobStore ComponentLife Operations ComponentPump ComponentCleanup.

#[local] Open Scope Z_scope.

Section pump.
Context {val : Type} (members : list string) (config : string → node_config) (in_graph : string → bool) (cyclic : bool).
Context (resolver : option (list string → list string → list (string * list string) → option string)).
Context (finalize : db → operation val → db * operation val).

Abbreviation pump := (pump (val := val)).
Abbreviation deps := (waiting_dependencies members config in_graph).
Abbreviation step := (pump_step members config in_graph resolver finalize).

(** ** Accounting of the pumps *)

(** Each member has at most one pump the coordinator has not reaped; every pump it has
    reaped has ended. *)
Record sound (s : pump) : Prop := {
  one_each : NoDup (futures s).*2;
  own_number : NoDup (futures s).*1;
  numbered : ∀ f n, (f, n) ∈ futures s → (f < serial s)%nat ∧ n ∈ members;
  counted : active s = list_to_set (futures s).*2;
  bounded : (∀ f r, outcomes s !! f = Some r → (f < serial s)%nat) ∧ ∀ f, f ∈ cancelled s → (f < serial s)%nat;
  reaped : ∀ f, (f < serial s)%nat → f ∉ (futures s).*1 → is_Some (outcomes s !! f);
  clean : first_error s = None → cancelled s = ∅ ∧ ∀ f, (f < serial s)%nat → f ∉ (futures s).*1 → outcomes s !! f = Some None
}.

Lemma submit_sound n s : n ∈ members → sound s → sound (submit_node n s).
Proof.
  intros Hn [A B C D E F G]. unfold submit_node. case_bool_decide as Ha; cbn [orb]; [done|]. destruct (stop_event s); [done|].
  assert (serial s ∉ (futures s).*1) as Hs.
  { intros ([f m] & Hf & Hin)%list_elem_of_fmap. cbn in Hf. subst. apply C in Hin as [? _]. lia. }
  split; cbn.
  - rewrite fmap_app. apply NoDup_app. split; [done|]. split; [|apply NoDup_singleton]. intros m Hm ->%list_elem_of_singleton.
    apply Ha. rewrite D. by apply elem_of_list_to_set.
  - rewrite fmap_app. apply NoDup_app. split; [done|]. split; [|apply NoDup_singleton]. by intros m Hm ->%list_elem_of_singleton.
  - intros f m [H|H%list_elem_of_singleton]%elem_of_app; [apply C in H as [? ?]; split; [lia|done]|]. injection H as -> ->. split; [lia|done].
  - rewrite fmap_app, list_to_set_app_L, D. cbn. set_solver.
  - destruct E as [E1 E2]. split; [intros f r H; apply E1 in H; lia|intros f H; apply E2 in H; lia].
  - intros f Hf Hnin. rewrite fmap_app, not_elem_of_app in Hnin. destruct Hnin as [H1 H2]. apply F; [|done]. cbn in H2. assert (f ≠ serial s) by set_solver. lia.
  - intros He. destruct (G He) as [G1 G2]. split; [done|]. intros f Hf Hnin. rewrite fmap_app, not_elem_of_app in Hnin. destruct Hnin as [H1 H2].
    apply G2; [|done]. cbn in H2. assert (f ≠ serial s) by set_solver. lia.
Qed.

Lemma submits_sound ns s : (∀ n, n ∈ ns → n ∈ members) → sound s → sound (foldl (λ s n, submit_node n s) s ns).
Proof.
  revert s. induction ns as [|n ns IH]; intros s Hn Hs; cbn; [done|]. apply IH; [set_solver|]. apply submit_sound; [set_solver|done].
Qed.

(** Steps that change neither pumps nor failures. *)
Lemma accounts_same s s' : futures s' = futures s → outcomes s' = outcomes s → cancelled s' = cancelled s → serial s' = serial s → active s' = active s →
  first_error s' = first_error s → sound s → sound s'.
Proof. intros E1 E2 E3 E4 E5 E6 [A B C D E F G]. split; rewrite ?E1, ?E2, ?E3, ?E4, ?E5, ?E6; done. Qed.

Lemma live_members (o : operation val) n : n ∈ live_nodes members config cyclic o → n ∈ members ∧ waiting (config n) = false.
Proof. unfold live_nodes. destruct (_ && _); [|by intros ?%not_elem_of_nil]. intros [[? _] ?]%list_elem_of_filter. done. Qed.

Lemma idle_sound d (o : operation val) st : sound (Pump d o [] ∅ ∅ 0 ∅ false ∅ None st).
Proof.
  split; cbn; [apply NoDup_nil_2|apply NoDup_nil_2|intros ? ? H; by apply not_elem_of_nil in H|done| |lia|].
  - split; [intros ? ? H; by rewrite lookup_empty in H|intros f H; by apply not_elem_of_empty in H].
  - split; [done|lia].
Qed.

Lemma start_sound d (o : operation val) : sound (start members config cyclic d o).
Proof.
  unfold start. case_bool_decide; [apply idle_sound|]. apply submits_sound; [intros n Hn; by eapply live_members|apply idle_sound].
Qed.

Lemma reap_one_sound resident q s : sound s → q ∈ futures s → is_Some (outcomes s !! q.1) → first_error s = None → sound (reap_one resident q s).
Proof.
  intros [A B C D E F G] Hq Ho He. destruct q as [f n]. unfold reap_one. cbn [fst snd].
  set (rest := filter (λ p, p.1 ≠ f) (futures s)).
  assert (∀ g m, (g, m) ∈ rest ↔ g ≠ f ∧ (g, m) ∈ futures s) as Hrest by (intros; unfold rest; by rewrite list_elem_of_filter).
  assert (∀ g, (g < serial s)%nat → g ∉ rest.*1 → g = f ∨ g ∉ (futures s).*1) as Hnum.
  { intros g Hg Hn. destruct (decide (g = f)); [by left|right]. intros ([g' m] & -> & Hin)%list_elem_of_fmap. apply Hn.
    apply list_elem_of_fmap. exists (g', m). split; [done|]. by apply Hrest. }
  assert (rest.*2 `sublist_of` (futures s).*2) as Hsub2 by (apply fmap_sublist, sublist_filter).
  assert (rest.*1 `sublist_of` (futures s).*1) as Hsub1 by (apply fmap_sublist, sublist_filter).
  assert (∀ g m, (g, m) ∈ futures s → g = f → m = n) as Huniq.
  { intros g m Hg ->. destruct (list_elem_of_lookup_1 _ _ Hg) as [i Hi]. destruct (list_elem_of_lookup_1 _ _ Hq) as [j Hj].
    assert (i = j) as ->. { eapply (NoDup_lookup _ i j f B); rewrite list_lookup_fmap; [by rewrite Hi|by rewrite Hj]. } congruence. }
  assert (active s ∖ {[n]} = list_to_set rest.*2) as Hact.
  { rewrite D. apply set_eq. intros m. rewrite elem_of_difference, !elem_of_list_to_set, elem_of_singleton, !list_elem_of_fmap. split.
    - intros [([g m'] & -> & Hin) Hne]. exists (g, m'). split; [done|]. apply Hrest. split; [|done]. intros ->. apply Hne. by apply (Huniq f).
    - intros ([g m'] & -> & [Hg Hin]%Hrest). cbn. split; [by exists (g, m')|]. intros ->. apply Hg.
      destruct (list_elem_of_lookup_1 _ _ Hin) as [i Hi]. destruct (list_elem_of_lookup_1 _ _ Hq) as [j Hj].
      assert (i = j) as ->. { eapply (NoDup_lookup _ i j n A); rewrite list_lookup_fmap; [by rewrite Hi|by rewrite Hj]. } congruence. }
  set (s1 := set_futures rest (active s ∖ {[n]}) s).
  destruct Ho as [r Hr]. cbn [fst] in Hr.
  assert (∀ e, (e = None → r = None) → sound (Pump (tables s1) (oper s1) rest (outcomes s) (cancelled s) (serial s) (active s1) (stop_event s1) (attached s1) e (at_stage s1))) as Hmain.
  { intros e Hcase. split; cbn.
    - by eapply sublist_NoDup.
    - by eapply sublist_NoDup.
    - intros g m [_ Hin]%Hrest. by apply C.
    - done.
    - done.
    - intros g Hg Hn. destruct (Hnum g Hg Hn) as [->|?]; [by eexists|auto].
    - intros He'. destruct (G He) as [G1 G2]. split; [done|]. intros g Hg Hn. destruct (Hnum g Hg Hn) as [->|?]; [|auto]. by rewrite Hr, Hcase. }
  change (outcomes s1 !! f) with (outcomes s !! f). rewrite Hr. destruct r as [e|].
  - eapply accounts_same; [| | | | | |apply (Hmain (Some e)); done]; try done. unfold stopping. cbn. by rewrite He.
  - set (s2 := set_oper _ s1). assert (sound s2) as Hs2 by (eapply accounts_same; [| | | | | |apply (Hmain None); done]; done).
    destruct (_ && _); [|done]. apply submit_sound; [by apply (C f n)|done].
Qed.

Lemma reap_one_rest resident q (s : pump) p : p ∈ futures s → p.1 ≠ q.1 → p ∈ futures (reap_one resident q s).
Proof.
  intros Hp Hne. unfold reap_one. set (s1 := set_futures _ _ s).
  assert (p ∈ futures s1) as H1 by (by apply list_elem_of_filter). destruct (outcomes s1 !! q.1) as [[e|]|]; [done| |];
    (destruct (_ && _); [|done]; unfold submit_node; destruct (_ || _); [done|]; cbn; apply elem_of_app; by left).
Qed.

Lemma reap_one_fields resident q (s : pump) : outcomes (reap_one resident q s) = outcomes s ∧ cancelled (reap_one resident q s) = cancelled s ∧
  at_stage (reap_one resident q s) = at_stage s ∧ (first_error (reap_one resident q s) = None → stop_event (reap_one resident q s) = stop_event s) ∧
  tables (reap_one resident q s) = tables s.
Proof.
  unfold reap_one. set (s1 := set_futures _ _ s). change (outcomes s1) with (outcomes s). destruct (outcomes s !! q.1) as [[e|]|].
  - split_and!; try done. cbn. destruct (first_error s); done.
  - destruct (_ && _); [|done]. unfold submit_node. by destruct (_ || _).
  - destruct (_ && _); [|done]. unfold submit_node. by destruct (_ || _).
Qed.

Lemma reap_loop_sound resident done s : sound s → NoDup done.*1 → (∀ q, q ∈ done → q ∈ futures s ∧ is_Some (outcomes s !! q.1)) → first_error s = None →
  sound (reap_loop resident done s) ∧ at_stage (reap_loop resident done s) = at_stage s ∧
  (first_error (reap_loop resident done s) = None → stop_event (reap_loop resident done s) = stop_event s) ∧ tables (reap_loop resident done s) = tables s.
Proof.
  revert s. induction done as [|q l IH]; intros s Hs Hnd Hq He; cbn [reap_loop]; [done|].
  cbn [fmap list_fmap] in Hnd. apply NoDup_cons in Hnd as [Hnq Hnd]. destruct (Hq q) as [Hin Hout]; [apply list_elem_of_here|].
  pose proof (reap_one_sound resident q s Hs Hin Hout He) as Hs1.
  destruct (reap_one_fields resident q s) as (E1 & E2 & E3 & E4 & E5). destruct (first_error (reap_one resident q s)) eqn:Ef.
  - split_and!; try done. congruence.
  - destruct (IH (reap_one resident q s)) as (H1 & H2 & H3 & H4); try done.
    { intros p Hp. destruct (Hq p) as [H5 H6]; [by apply list_elem_of_further|]. rewrite E1. split; [|done]. apply reap_one_rest; [done|].
      intros Heq. apply Hnq. rewrite <-Heq. apply list_elem_of_fmap. eauto. }
    split_and!; [done|congruence| |congruence]. intros H5. rewrite (H3 H5). auto.
Qed.

(** ** What each stage knows *)

(** The coordinator's reason to stop held of the rows it saw. *)
Definition verdict_holds (v : verdict (val := val)) : Prop :=
  match v with
  | Quiescent d o => (∀ n, n ∈ open_queue (observe_jobs d members) o → False) ∧ ∀ n, n ∈ members → has_status d n [RUNNING] = false
  | Deadlocked d o =>
      (∀ n, n ∈ members → has_status d n [RUNNING] = false) ∧
      ∀ n, n ∈ open_queue (observe_jobs d members) o → ∃ peers m, deps n = Ok peers ∧ m ∈ peers ∧ m ∈ members ∧ has_status d m [QUEUED; FAILED] = true
  end.

Definition ended (s : pump) : Prop := ∀ f n, (f, n) ∈ futures s → ¬ unfinished s f.

Definition stage_ok (s : pump) : Prop :=
  match at_stage s with
  | Attaching | Reaping | Looking => first_error s = None ∧ stop_event s = false
  | Draining None => is_Some (first_error s) ∧ stop_event s = true
  | Draining (Some v) => first_error s = None ∧ stop_event s = true ∧ verdict_holds v
  | Over why (inl done) =>
      ((why = None ∧ serial s = 0%nat) ∨ ∃ v, why = Some v ∧ verdict_holds v ∧ ∀ n, n ∈ members → n ∈ work_nodes (oper s) → n ∈ done) ∧
      ended s ∧ first_error s = None ∧ done = ran (oper s) ∧ ∀ f, (f < serial s)%nat → outcomes s !! f = Some None
  | Over why (inr e) => ended s ∧ first_error s = Some e
  end.

Lemma look_cases resident s (s' : pump) : look_at members config in_graph resolver resident s = Ok s' →
  ∃ x st queued s1, x = observe_jobs (tables s) members ∧ queued = list_to_set (open_queue x (oper s)) ∧
    _waiting_startable_nodes members config in_graph (active s) queued (blocking x) = Ok st ∧
    s1 = foldl (λ s n, submit_node n s) (set_tables (set_node_statuses st.2 (tables s))
           (set_oper (set_ran (ran (oper s)) (work_nodes (oper s) ∪ queued) (oper s)) s)) st.1 ∧
    ((queued = ∅ ∧ seen_running x = ∅ ∧ s' = set_stage (Draining (Some (Quiescent (tables s) (oper s)))) (stopping None s1)) ∨
     (s' = set_stage Reaping s1) ∨
     (queued ≠ ∅ ∧ seen_running x = ∅ ∧ active s1 ⊆ list_to_set resident ∧
      (∀ n, n ∈ queued → ∃ d, deps n = Ok d ∧ d ∩ blocking x ≠ ∅) ∧
      ((resolve_wait_deadlock members config in_graph resolver queued (blocking x) = Ok None ∧
        s' = set_stage (Draining (Some (Deadlocked (tables s) (oper s)))) (stopping None s1)) ∨
       ∃ n, resolve_wait_deadlock members config in_graph resolver queued (blocking x) = Ok (Some n) ∧ s' = set_stage Reaping (submit_node n s1)))).
Proof.
  unfold look_at. intros H. apply rbind_ok in H as (st & Hst & H). set (x := observe_jobs (tables s) members) in *.
  set (queued := list_to_set (open_queue x (oper s)) : gset string) in *.
  set (s1 := foldl _ _ _) in H. exists x, st, queued, s1. split; [done|]. split; [done|]. split; [exact Hst|]. split; [done|].
  destruct (bool_decide (queued = ∅) && bool_decide (seen_running x = ∅)) eqn:E1.
  { injection H as <-. apply andb_true_iff in E1 as [?%bool_decide_eq_true ?%bool_decide_eq_true]. by left. }
  right. destruct (negb (bool_decide (queued = ∅)) && _ && _) eqn:E2; [|injection H as <-; by left].
  apply rbind_ok in H as (stuck & Hstuck & H). destruct (forallb id stuck) eqn:E3; [|injection H as <-; by left]. right.
  rewrite !andb_true_iff, negb_true_iff, bool_decide_eq_false, !bool_decide_eq_true in E2. destruct E2 as [[? ?] ?].
  split_and!; try done.
  - intros n Hn. apply elem_of_elements in Hn. apply rmap_ok in Hstuck. apply list_elem_of_lookup_1 in Hn as [i Hi].
    destruct (Forall2_lookup_l _ _ _ _ _ Hstuck Hi) as (b & Hb & Hrun). apply rbind_ok in Hrun as (d & Hd & [= <-]).
    rewrite forallb_forall in E3. specialize (E3 _ (proj1 (list_elem_of_In _ _) (list_elem_of_lookup_2 _ _ _ Hb))).
    apply negb_true_iff, bool_decide_eq_false in E3. eauto.
  - apply rbind_ok in H as ([n|] & Hov & [= <-]); [right; eauto|by left].
Qed.

Lemma startable_spec active queued blocked names st n : startable_loop members config in_graph active queued blocked names = Ok st → n ∈ st.1 →
  n ∈ names ∧ (n ∉ active) ∧ n ∈ queued ∧ ∃ d, deps n = Ok d ∧ d ∩ blocked = ∅.
Proof.
  revert st. induction names as [|m names IH]; intros st; cbn [startable_loop]; [by intros [= <-] ?%not_elem_of_nil|].
  destruct (bool_decide (m ∈ active) || _) eqn:E; [intros H Hn; destruct (IH _ H Hn) as (? & ?); split; [by right|done]|].
  apply orb_false_iff in E as [E1%bool_decide_eq_false E2]. apply negb_false_iff, bool_decide_eq_true in E2.
  intros H. apply rbind_ok in H as (d & Hd & H). apply rbind_ok in H as (rest & Hrest & [= <-]).
  case_bool_decide as Ed; cbn [fst].
  - intros [->|Hn]%elem_of_cons; [split; [left|]; eauto 10|]. destruct (IH _ Hrest Hn) as (? & ?). split; [by right|done].
  - intros Hn. destruct (IH _ Hrest Hn) as (? & ?). split; [by right|done].
Qed.

Lemma deadlock_choice queued blocked n : resolve_wait_deadlock members config in_graph resolver queued blocked = Ok (Some n) → n ∈ members ∧ n ∈ queued.
Proof.
  unfold resolve_wait_deadlock. destruct resolver as [r|]; [|discriminate]. intros H. apply rbind_ok in H as (bl & _ & [= H]).
  destruct (r _ _ _) as [c|]; [|discriminate]. case_bool_decide as E; [|discriminate]. injection H as <-. by apply list_elem_of_filter in E as [? ?].
Qed.

Lemma submit_fields n (s : pump) : let s' := submit_node n s in
  outcomes s' = outcomes s ∧ cancelled s' = cancelled s ∧ at_stage s' = at_stage s ∧ first_error s' = first_error s ∧ stop_event s' = stop_event s ∧
  oper s' = oper s ∧ tables s' = tables s.
Proof. unfold submit_node. by destruct (_ || _). Qed.

Lemma submits_fields ns (s : pump) : let s' := foldl (λ s n, submit_node n s) s ns in
  outcomes s' = outcomes s ∧ cancelled s' = cancelled s ∧ at_stage s' = at_stage s ∧ first_error s' = first_error s ∧ stop_event s' = stop_event s ∧
  oper s' = oper s ∧ tables s' = tables s.
Proof.
  revert s. induction ns as [|n ns IH]; intros s; cbn; [done|]. destruct (IH (submit_node n s)) as (-> & -> & -> & -> & -> & -> & ->). apply submit_fields.
Qed.

Lemma submit_from n (s : pump) q : q ∈ futures (submit_node n s) → q ∈ futures s ∨ (q.2 = n ∧ (n ∉ active s) ∧ stop_event s = false).
Proof.
  unfold submit_node. case_bool_decide; cbn [orb]; [auto|]. destruct (stop_event s); [auto|]. cbn. intros [?| ->%list_elem_of_singleton]%elem_of_app; auto.
Qed.

Lemma submit_keeps n (s : pump) : futures s ⊆ futures (submit_node n s) ∧ active s ⊆ active (submit_node n s).
Proof. unfold submit_node. destruct (_ || _); [done|]. cbn. split; [intros x ?; apply elem_of_app; by left|set_solver]. Qed.

Lemma submits_from ns (s : pump) q : q ∈ futures (foldl (λ s n, submit_node n s) s ns) → q ∈ futures s ∨ (q.2 ∈ ns ∧ q.2 ∉ active s).
Proof.
  revert s. induction ns as [|n ns IH]; intros s; cbn; [auto|]. intros [H|[H Ha]]%IH.
  - apply submit_from in H as [?|(-> & ? & _)]; [by left|right]. split; [left|done].
  - right. split; [by right|]. intros Hin. apply Ha. by apply submit_keeps.
Qed.

Lemma has_status_nodes d n l : n ∈ nodes_with_job_statuses d members l ↔ n ∈ members ∧ has_status d n l = true.
Proof. unfold nodes_with_job_statuses. rewrite elem_of_list_to_set, list_elem_of_filter. tauto. Qed.

Lemma has_status_app d n l l' : has_status d n l = true → has_status d n (l ++ l') = true ∧ has_status d n (l' ++ l) = true.
Proof.
  unfold has_status. rewrite !existsb_exists. intros (q & Hq & [E1 E2]%andb_true_iff). apply bool_decide_eq_true in E2.
  split; exists q; (split; [done|]); rewrite E1; apply bool_decide_eq_true, elem_of_app; auto.
Qed.

Lemma no_running d : seen_running (observe_jobs d members) = ∅ → ∀ n, n ∈ members → has_status d n [RUNNING] = false.
Proof.
  intros H n Hn. destruct (has_status d n [RUNNING]) eqn:E; [|done]. exfalso. apply (not_elem_of_empty (C := gset string) n). rewrite <-H.
  by apply has_status_nodes.
Qed.

Lemma blocked_by d n : seen_running (observe_jobs d members) = ∅ → n ∈ blocking (observe_jobs d members) → n ∈ members ∧ has_status d n [QUEUED; FAILED] = true.
Proof.
  intros Hr. unfold blocking. rewrite Hr, union_empty_r_L, elem_of_union. cbn [observe_jobs seen_queued seen_failed]. rewrite !has_status_nodes.
  intros [[? ?%(has_status_app _ _ _ [FAILED])]|[? ?%(has_status_app _ _ _ [QUEUED])]]; tauto.
Qed.

Lemma broken_off_cases (s : pump) : let s1 := set_oper (set_ran (ran (oper s)) (work_nodes (oper s) ∪ list_to_set (open_queue (observe_jobs (tables s) members) (oper s))) (oper s)) s in
  broken_off members config in_graph s = s1 ∨
  ∃ st, _waiting_startable_nodes members config in_graph (active s) (list_to_set (open_queue (observe_jobs (tables s) members) (oper s)))
      (blocking (observe_jobs (tables s) members)) = Ok st ∧
    broken_off members config in_graph s = foldl (λ s n, submit_node n s) (set_tables (set_node_statuses st.2 (tables s)) s1) st.1.
Proof. unfold broken_off. cbn zeta. cbn [active set_oper]. destruct (_waiting_startable_nodes _ _ _ _ _ _) as [st|e]; eauto. Qed.

Lemma broken_off_sound s : sound s → sound (broken_off members config in_graph s).
Proof.
  intros Hs. destruct (broken_off_cases s) as [->|(st & Hst & ->)]; [by eapply accounts_same; [| | | | | |exact Hs]|].
  apply submits_sound; [|by eapply accounts_same; [| | | | | |exact Hs]]. intros n Hn. by destruct (startable_spec _ _ _ _ _ _ Hst Hn) as (? & _).
Qed.

Lemma look_good resident s : sound s → stage_ok s → at_stage s = Looking →
  sound (look members config in_graph resolver resident s) ∧ stage_ok (look members config in_graph resolver resident s).
Proof.
  intros Hs Hst Hl. unfold stage_ok in Hst. rewrite Hl in Hst. destruct Hst as [He Hstop]. unfold look.
  destruct (look_at _ _ _ _ resident s) as [s'|e] eqn:E.
  2: { split; [|by cbn; eauto]. pose proof (broken_off_sound s Hs) as [A B C D F G H]. split; done. }
  destruct (look_cases _ _ _ E) as (x & st & queued & s1 & -> & Hqueued & Hstart & Hs1 & Hcase).
  assert (sound s1) as Hsound.
  { rewrite Hs1. apply submits_sound; [|by eapply accounts_same; [| | | | | |exact Hs]]. intros n Hn. by destruct (startable_spec _ _ _ _ _ _ Hstart Hn) as (? & _). }
  destruct (submits_fields st.1 (set_tables (set_node_statuses st.2 (tables s)) (set_oper (set_ran (ran (oper s)) (work_nodes (oper s) ∪ queued) (oper s)) s)))
    as (E1 & E2 & E3 & E4 & E5 & E6 & E7). cbn in E3, E4, E5. rewrite <-Hs1 in *.
  assert (sound (stopping None s1)) as Hstopped by (eapply accounts_same; [| | | | | |exact Hsound]; try done; by rewrite E4).
  destruct Hcase as [(Hq & Hr & ->)|[->|(Hq & Hr & Hact & Hblock & [[Hres ->]|(n & Hres & ->)])]].
  - split; [by eapply accounts_same; [| | | | | |exact Hstopped]|]. cbn. split_and!; [done|done| |by apply no_running]. intros n Hn.
    apply (not_elem_of_empty (C := gset string) n). rewrite <-Hq, Hqueued. by apply elem_of_list_to_set.
  - split; [by eapply accounts_same; [| | | | | |exact Hsound]|]. cbn. split; congruence.
  - split; [by eapply accounts_same; [| | | | | |exact Hstopped]|]. cbn. split_and!; [done|done|by apply no_running|].
    intros n Hn. destruct (Hblock n) as (d & Hd & Hne); [rewrite Hqueued; by apply elem_of_list_to_set|]. apply set_choose_L in Hne as [m [Hm1 Hm2]%elem_of_intersection].
    destruct (blocked_by _ _ Hr Hm2). eauto 10.
  - apply deadlock_choice in Hres as [Hn _]. split; [by eapply accounts_same; [| | | | | |apply (submit_sound n s1); done]|].
    destruct (submit_fields n s1) as (_ & _ & _ & F4 & F5 & _). cbn. split; congruence.
Qed.

Lemma reap_good resident s : sound s → stage_ok s → at_stage s = Reaping → sound (reap resident s) ∧ stage_ok (reap resident s).
Proof.
  intros Hs Hst Hl. unfold stage_ok in Hst. rewrite Hl in Hst. destruct Hst as [He Hstop]. unfold reap. set (done := filter _ _).
  assert (done.*1 `sublist_of` (futures s).*1) as Hsub by (apply fmap_sublist, sublist_filter).
  destruct (reap_loop_sound resident done s Hs) as (H1 & _ & H3 & _); [eapply sublist_NoDup; [exact (own_number _ Hs)|exact Hsub]| |done|].
  { intros q [? ?]%list_elem_of_filter. done. }
  destruct (first_error (reap_loop resident done s)) eqn:Ef; (split; [by eapply accounts_same; [| | | | | |exact H1]|]); cbn.
  - rewrite Ef. split; [by eexists|].
    assert (∀ d, first_error s = None → is_Some (first_error (reap_loop resident d s)) → stop_event (reap_loop resident d s) = true) as Hstopped.
    { clear. intros d. revert s. induction d as [|q d IH]; intros s He; cbn [reap_loop]; [rewrite He; by intros []|].
      destruct (first_error (reap_one resident q s)) eqn:E; [|by apply IH]. intros _. revert E. unfold reap_one. set (s1 := set_futures _ _ s).
      destruct (outcomes s1 !! q.1) as [[e|]|]; [done| |]; (destruct (_ && _); [unfold submit_node; destruct (_ || _)|]; cbn; congruence). }
    apply Hstopped; [done|]. by rewrite Ef.
  - split; [done|]. rewrite <-Hstop. by apply H3.
Qed.

(** [collect] changes the first error and what the operation knows of pump errors. *)
Lemma collect_fold l (s : pump) : let s' := foldl collect_one s l in
  futures s' = futures s ∧ outcomes s' = outcomes s ∧ cancelled s' = cancelled s ∧ serial s' = serial s ∧ active s' = active s ∧ tables s' = tables s ∧
  ran (oper s') = ran (oper s) ∧ work_nodes (oper s') = work_nodes (oper s) ∧ rtc report (oper s) (oper s') ∧
  (first_error s' = None → first_error s = None ∧ ∀ q, q ∈ l → ∀ e, outcomes s !! q.1 ≠ Some (Some e)) ∧
  (∀ e, first_error s = Some e → first_error s' = Some e).
Proof.
  revert s. induction l as [|q l IH]; intros s; cbn [foldl].
  { split_and!; try done. intros He. split; [done|]. intros q Hq. by apply not_elem_of_nil in Hq. }
  destruct (IH (collect_one s q)) as (-> & -> & -> & -> & -> & -> & -> & -> & Hr & Hn & Hs).
  unfold collect_one in *. destruct (outcomes s !! q.1) as [[f|]|] eqn:E.
  - cbn in *. split_and!; try done.
    + unfold record_pump_error. destruct (expected_failure f); [done|]. by destruct (unrelated_error (oper s)).
    + unfold record_pump_error. destruct (expected_failure f); [done|]. by destruct (unrelated_error (oper s)).
    + eapply rtc_l; [apply report_pump_error|exact Hr].
    + intros He. destruct (Hn He) as [H _]. by destruct (first_error s).
    + intros e He. apply Hs. by rewrite He.
  - split_and!; try done. intros He. destruct (Hn He) as [H1 H2]. split; [done|]. intros p [->|Hp]%elem_of_cons; [congruence|by apply H2].
  - split_and!; try done. intros He. destruct (Hn He) as [H1 H2]. split; [done|]. intros p [->|Hp]%elem_of_cons; [congruence|by apply H2].
Qed.

Lemma report_work_fields (o : operation val) : rtc report o (report_work members o) ∧ work_nodes (report_work members o) = work_nodes o ∧
  ∀ n, n ∈ members → n ∈ work_nodes o → n ∈ ran (report_work members o).
Proof.
  split; [by apply rtc_once; constructor|]. split; [done|]. unfold report_work. cbn [ran set_ran]. generalize (ran o) as l. intros l n Hn Hw.
  assert (∀ ns l, n ∈ ns ∨ n ∈ l → n ∈ foldl (λ l n, if bool_decide (n ∈ work_nodes o) && negb (bool_decide (n ∈ l)) then l ++ [n] else l) l ns) as H; [|auto].
  clear l Hn. induction ns as [|m ns IH]; intros l; cbn; [by intros [?%not_elem_of_nil|?]|].
  intros H. apply IH. destruct H as [[->|H]%elem_of_cons|H]; [|by left|right].
  - right. rewrite (bool_decide_eq_true_2 (m ∈ work_nodes o)) by done. cbn. case_bool_decide as E; cbn; [done|]. apply elem_of_app. right. left.
  - destruct (_ && _); [|done]. apply elem_of_app. by left.
Qed.

Hypothesis finalize_reports : ∀ d o, rtc report o (finalize d o).2.

Lemma join_good why s : sound s → stage_ok s → at_stage s = Draining why → ended s →
  sound (join members finalize why s) ∧ stage_ok (join members finalize why s) ∧ rtc report (oper s) (oper (join members finalize why s)).
Proof.
  intros Hs Hst Hl Hend. unfold join, collect. set (l := filter _ _). destruct (collect_fold l s) as (E1 & E2 & E3 & E4 & E5 & E6 & E7 & E8 & Hr & Hn & He).
  set (s1 := foldl collect_one s l) in *.
  assert (sound s1) as Hs1.
  { destruct Hs as [A B C D F G H]. split; rewrite ?E1, ?E2, ?E3, ?E4, ?E5; try done. intros [Hf _]%Hn. by apply H. }
  assert (ended s1) as Hend1 by (unfold ended, unfinished; by rewrite E1, E2, E3).
  destruct (first_error s1) as [f|] eqn:Ef.
  - pose proof (finalize_reports (tables s1) (oper s1)) as Hf. destruct (finalize (tables s1) (oper s1)) as [d o].
    split; [by eapply accounts_same; [| | | | | |exact Hs1]|]. split; [by cbn|]. by etrans.
  - destruct (report_work_fields (oper s1)) as (R1 & R2 & R3). split; [by eapply accounts_same; [| | | | | |exact Hs1]|]. split; [|by etrans].
    destruct (Hn eq_refl) as [Hnone Hok]. cbn. split; [|split; [done|split; [done|split; [done|]]]].
    + right. unfold stage_ok in Hst. rewrite Hl in Hst. destruct why as [v|]; [destruct Hst as (_ & _ & ?); eauto|]. destruct Hst as [[? ?] _]. congruence.
    + rewrite E2, E4. intros f Hf. destruct (clean _ Hs Hnone) as [Hc Hall]. destruct (decide (f ∈ (futures s).*1)) as [Hin|Hin]; [|by apply Hall].
      apply list_elem_of_fmap in Hin as ([f' n] & -> & Hin). cbn in *. destruct (outcomes s !! f') as [[e|]|] eqn:Ho; [|done|].
      * exfalso. eapply (Hok (f', n)); [|exact Ho]. apply list_elem_of_filter. cbn. rewrite Hc. split; [set_solver|done].
      * exfalso. apply (Hend f' n Hin). split; [done|]. rewrite Hc. set_solver.
Qed.

(** ** What the pumps tell the operation *)

Lemma submit_oper n (s : pump) : oper (submit_node n s) = oper s.
Proof. unfold submit_node. by destruct (_ || _). Qed.
Lemma submits_oper ns (s : pump) : oper (foldl (λ s n, submit_node n s) s ns) = oper s.
Proof. revert s. induction ns as [|n ns IH]; intros s; cbn; [done|]. by rewrite IH, submit_oper. Qed.

Lemma reap_loop_reports resident done (s : pump) : rtc report (oper s) (oper (reap_loop resident done s)).
Proof.
  revert s. induction done as [|q done IH]; intros s; cbn [reap_loop]; [done|].
  assert (rtc report (oper s) (oper (reap_one resident q s))) as H1.
  { unfold reap_one. set (s1 := set_futures _ _ s). destruct (outcomes s1 !! q.1) as [[e|]|]; [by apply rtc_once; constructor| |];
      (destruct (_ && _); rewrite ?submit_oper; apply rtc_once; constructor). }
  destruct (first_error _); [done|]. etrans; [exact H1|apply IH].
Qed.

Lemma look_reports resident (s : pump) : rtc report (oper s) (oper (look members config in_graph resolver resident s)).
Proof.
  unfold look. destruct (look_at _ _ _ _ resident s) as [s'|e] eqn:E.
  2: { cbn. destruct (broken_off_cases s) as [->|(st & _ & ->)]; rewrite ?submits_oper; apply rtc_once; constructor. }
  destruct (look_cases _ _ _ E) as (x & st & queued & s1 & _ & _ & _ & Hs1 & Hcase).
  assert (oper s1 = set_ran (ran (oper s)) (work_nodes (oper s) ∪ queued) (oper s)) as H1 by (rewrite Hs1; apply submits_oper).
  assert (oper s' = oper s1) as -> by (destruct Hcase as [(_ & _ & ->)|[->|(_ & _ & _ & _ & [[_ ->]|(n & _ & ->)])]]; cbn; by rewrite ?submit_oper).
  rewrite H1. apply rtc_once. constructor.
Qed.

Lemma join_reports why (s : pump) : rtc report (oper s) (oper (join members finalize why s)).
Proof.
  unfold join, collect. destruct (collect_fold (filter (λ q, q.1 ∉ cancelled s) (futures s)) s) as (_ & _ & _ & _ & _ & _ & _ & _ & Hr & _).
  set (s1 := foldl collect_one s _) in *. destruct (first_error s1).
  - pose proof (finalize_reports (tables s1) (oper s1)) as Hf. destruct (finalize (tables s1) (oper s1)) as [d o]. by etrans.
  - destruct (report_work_fields (oper s1)) as (R1 & _). by etrans.
Qed.

(** All a component's threads do to its operation is to report: [Operations.restarts_settled]
    applies to [_run_component]. *)
Lemma pump_reports resident d (o : operation val) s : rtc (step resident) (start members config cyclic d o) s → rtc report o (oper s).
Proof.
  intros Hr. assert (rtc report o (oper (start members config cyclic d o))) as H0.
  { unfold start. case_bool_decide; [done|]. rewrite submits_oper. apply rtc_once. constructor. }
  revert H0. induction Hr as [|s0 s1 s2 Hstep _ IH]; [done|]. intros H0. apply IH. etrans; [exact H0|]. clear IH H0.
  destruct Hstep as [d' s|a r s Hp|a g x released s Hp|c rs o' s Hp Hret|f n s Hf|f n r s Hf Hu|f n why s Hl He Hf Hu|s Hl Ho|s Hl|s Hl|why s Hl Hend]; try done.
  - apply rtc_once. constructor.
  - apply rtc_once. constructor.
  - apply rtc_once. by eapply report_retain.
  - unfold reap. destruct (first_error _); apply reap_loop_reports.
  - apply look_reports.
  - apply join_reports.
Qed.

Lemma step_good resident s s' : step resident s s' → sound s → stage_ok s → sound s' ∧ stage_ok s'.
Proof.
  intros Hstep Hs Hst. destruct Hstep as [d s|a r s Hp|a g x released s Hp|c rs o s Hp Hret|f n s Hf|f n r s Hf Hu|f n why s Hl He Hf Hu|s Hl Ho|s Hl|s Hl|why s Hl Hend].
  - split; [by eapply accounts_same; [| | | | | |exact Hs]|done].
  - destruct Hp as (g & m & Hg & Hu). split; [by eapply accounts_same; [| | | | | |exact Hs]|]. unfold stage_ok in *. cbn. destruct (at_stage s) as [| | |[]|? []]; try done.
  - destruct Hp as (g' & m & Hg & Hu). split; [by eapply accounts_same; [| | | | | |exact Hs]|]. unfold stage_ok in *. cbn. destruct (at_stage s) as [| | |[]|? []]; try done.
  - destruct Hp as (g & m & Hg & Hu). split; [by eapply accounts_same; [| | | | | |exact Hs]|]. unfold stage_ok in *. cbn. destruct (at_stage s) as [| | |[]|? []]; try done;
      destruct Hst as (_ & Hend & _); by destruct (Hend g m Hg).
  - split; [by eapply accounts_same; [| | | | | |exact Hs]|done].
  - split.
    + destruct Hs as [A B C D [E1 E2] F G]. split; cbn; try done.
      * split; [|done]. intros g q [[<- _]|[_ H]]%lookup_insert_Some; [by apply C in Hf as [? _]|by eapply E1].
      * intros g Hg Hn. destruct (decide (g = f)) as [->|?]; [by rewrite lookup_insert_eq|rewrite lookup_insert_ne by done; auto].
      * intros He. destruct (G He) as [G1 G2]. split; [done|]. intros g Hg Hn. rewrite lookup_insert_ne; [auto|]. intros <-. apply Hn. apply list_elem_of_fmap. by exists (f, n).
    + unfold stage_ok in *. cbn. destruct (at_stage s) as [| | |[]|? []]; try done; exfalso; assert (ended s) as Hend by tauto; by apply (Hend f n Hf).
  - split.
    + destruct Hs as [A B C D [E1 E2] F G]. split; cbn; try done; [|intros Hn; rewrite Hn in He; by destruct He].
      split; [done|]. intros g [->%elem_of_singleton|H]%elem_of_union; [by apply C in Hf as [? _]|by apply E2].
    + unfold stage_ok in *. cbn. rewrite Hl in *. done.
  - split; [by eapply accounts_same; [| | | | | |exact Hs]|]. unfold stage_ok in *. rewrite Hl in Hst. by cbn.
  - by apply reap_good.
  - by apply look_good.
  - destruct (join_good why s) as (? & ? & _); auto.
Qed.

Lemma start_stage d (o : operation val) : stage_ok (start members config cyclic d o).
Proof.
  unfold start. case_bool_decide.
  - cbn. split_and!; try done; [by left|by intros ? ? ?%not_elem_of_nil|lia].
  - match goal with |- context [foldl _ ?s0 ?ns] => destruct (submits_fields ns s0) as (_ & _ & E1 & E2 & E3 & _) end.
    unfold stage_ok. cbn zeta in E1, E2, E3. rewrite E1, E2, E3. done.
Qed.

Lemma reachable_good resident s0 s : rtc (step resident) s0 s → sound s0 → stage_ok s0 → sound s ∧ stage_ok s.
Proof. induction 1 as [|s0 s1 s2 H1 _ IH]; [done|]. intros Hs Hst. destruct (step_good _ _ _ H1 Hs Hst). by apply IH. Qed.

(** C13: a component's pumps are joined.  Whatever the interleaving, a member never has two
    pumps at once; the call ends only when every pump has ended or was cancelled unbegun;
    and it returns only if no pump failed, after it saw rows with nothing queued to run and
    nothing running, or only members that wait for queued or failed peers, and with every
    member that had work reported. *)
Theorem pumps_joined resident d (o : operation val) s : rtc (step resident) (start members config cyclic d o) s →
  NoDup (futures s).*2 ∧ (∀ f n, (f, n) ∈ futures s → n ∈ members) ∧
  ∀ why r, at_stage s = Over why r →
    (∀ f, (f < serial s)%nat → is_Some (outcomes s !! f) ∨ f ∈ cancelled s) ∧
    (∀ done, r = inl done → done = ran (oper s) ∧ (∀ f, (f < serial s)%nat → outcomes s !! f = Some None) ∧
       ((why = None ∧ serial s = 0%nat) ∨ ∃ v, why = Some v ∧ verdict_holds v ∧ ∀ n, n ∈ members → n ∈ work_nodes (oper s) → n ∈ done)) ∧
    (∀ e, r = inr e → first_error s = Some e).
Proof.
  intros Hr. destruct (reachable_good _ _ _ Hr (start_sound d o) (start_stage d o)) as [Hs Hst].
  split; [apply (one_each _ Hs)|]. split; [intros f n Hf; by apply (numbered _ Hs) in Hf as [_ ?]|]. intros why r Hl.
  unfold stage_ok in Hst. rewrite Hl in Hst.
  assert (ended s) as Hend by (destruct r; [by destruct Hst as (_ & ? & _)|by destruct Hst as (? & _)]).
  split; [|split].
  - intros f Hf. destruct (decide (f ∈ (futures s).*1)) as [Hin|Hin]; [|left; by apply (reaped _ Hs)].
    apply list_elem_of_fmap in Hin as ([f' n] & -> & Hin). cbn. specialize (Hend _ _ Hin). unfold unfinished in Hend.
    destruct (outcomes s !! f') eqn:E; [by left; eexists|right]. destruct (decide (f' ∈ cancelled s)); [done|by destruct Hend].
  - intros done ->. destruct Hst as (? & _ & _ & ? & ?). done.
  - intros e ->. by destruct Hst as [_ ?].
Qed.

(** ** Who is admitted *)

Lemma reap_loop_from resident done (s : pump) q : q ∈ futures (reap_loop resident done s) → q ∈ futures s ∨ q.2 ∈ resident.
Proof.
  revert s. induction done as [|p done IH]; intros s; cbn [reap_loop]; [auto|].
  assert (q ∈ futures (reap_one resident p s) → q ∈ futures s ∨ q.2 ∈ resident) as H1.
  { unfold reap_one. set (s1 := set_futures _ _ s). assert (q ∈ futures s1 → q ∈ futures s) as Hf by (by intros [_ ?]%list_elem_of_filter).
    destruct (outcomes s1 !! p.1) as [[e|]|]; [intros H; left; exact (Hf H)| |];
      (destruct (_ && _) eqn:E; [|intros H; left; exact (Hf H)]; intros [H|(-> & _)]%submit_from; [left; exact (Hf H)|right];
       apply andb_true_iff in E as [E%bool_decide_eq_true _]; exact E). }
  destruct (first_error (reap_one resident p s)); [done|]. intros [H|H]%IH; [by apply H1|by right].
Qed.

(** What the rows say when a member is admitted past its peers. *)
Definition unblocked (d : db) (n : string) : Prop :=
  ∃ ds, deps n = Ok ds ∧ ∀ m, m ∈ ds → m ∈ members → has_status d m [QUEUED; RUNNING; FAILED] = false.

(** Only members that wait for each other are left, and the resolver names one. *)
Definition overridden (d : db) (o : operation val) (busy : gset string) (n : string) : Prop :=
  (∀ m, m ∈ members → has_status d m [RUNNING] = false) ∧
  (∀ m, m ∈ open_queue (observe_jobs d members) o → ∃ ds, deps m = Ok ds ∧ ds ∩ blocking (observe_jobs d members) ≠ ∅) ∧
  resolve_wait_deadlock members config in_graph resolver (list_to_set (open_queue (observe_jobs d members) o)) (blocking (observe_jobs d members)) = Ok (Some n) ∧
  ∀ m, m ∈ busy → waiting (config m) = false.

Lemma blocking_members d m l : l = [QUEUED; RUNNING; FAILED] → m ∈ members → has_status d m l = true → m ∈ blocking (observe_jobs d members).
Proof.
  intros -> Hm. unfold blocking. cbn. rewrite !elem_of_union, !has_status_nodes. unfold has_status. rewrite existsb_exists.
  intros (q & Hq & [E1%bool_decide_eq_true E2%bool_decide_eq_true]%andb_true_iff). rewrite !existsb_exists.
  assert (∀ x, status q.2 = x → ∃ y, In y (map_to_list (jobs d)) ∧ bool_decide (y.1.1 = m) && bool_decide (status y.2 ∈ [x]) = true) as H.
  { intros x Hx. exists q. split; [done|]. apply andb_true_iff. split; apply bool_decide_eq_true; [done|]. apply list_elem_of_singleton. exact Hx. }
  rewrite !elem_of_cons in E2. destruct E2 as [E|[E|[E|E%not_elem_of_nil]]]; [| | |done]; specialize (H _ E); tauto.
Qed.

(** C14: a waiting member is admitted only past its peers.  In no step does a member that
    waits get a pump, unless the rows the coordinator has just read show it queued and no
    member it waits for queued, running or failed, or show that nothing runs, that every
    queued member waits for such a peer, and that no pump but resident ones is left, and the
    resolver names it.  It never gets one beside a pump it has. *)
Theorem waiting_admitted_past_peers (o : operation val) s s' f n :
  step (live_nodes members config cyclic o) s s' → (f, n) ∈ futures s' → (f, n) ∉ futures s → waiting (config n) = true →
  at_stage s = Looking ∧ n ∈ open_queue (observe_jobs (tables s) members) (oper s) ∧ (n ∉ active s) ∧
  (unblocked (tables s) n ∨ overridden (tables s) (oper s) (active s) n).
Proof.
  intros Hstep Hin Hnew Hw. destruct Hstep as [d s|a r s Hp|a g x released s Hp|c rs o' s Hp Hret|f' n' s Hf|f' n' r s Hf Hu|f' n' why s Hl He Hf Hu|s Hl Ho|s Hl|s Hl|why s Hl Hend]; try done.
  - exfalso. unfold reap in Hin. assert ((f, n) ∈ futures (reap_loop (live_nodes members config cyclic o) (filter (λ q, is_Some (outcomes s !! q.1)) (futures s)) s)) as H
      by (by destruct (first_error _)). apply reap_loop_from in H as [?|[_ ?]%live_members]; [done|]. cbn in *. congruence.
  - split; [done|]. unfold look in Hin.
    assert (∀ st (s1 : pump), _waiting_startable_nodes members config in_graph (active s) (list_to_set (open_queue (observe_jobs (tables s) members) (oper s)))
        (blocking (observe_jobs (tables s) members)) = Ok st → futures s1 = futures s → active s1 = active s →
      (f, n) ∈ futures (foldl (λ s n, submit_node n s) s1 st.1) → n ∈ open_queue (observe_jobs (tables s) members) (oper s) ∧ (n ∉ active s) ∧
        (unblocked (tables s) n ∨ overridden (tables s) (oper s) (active s) n)) as Hsubmitted.
    { intros st s1 Hstart Hf Ha0 [?|[Hn Ha]]%submits_from; [by rewrite Hf in *|]. destruct (startable_spec _ _ _ _ _ _ Hstart Hn) as (_ & H1 & H2 & ds & H3 & H4).
      split; [by apply elem_of_list_to_set in H2|]. split; [done|]. left. exists ds. split; [done|]. intros m Hm1 Hm2.
      destruct (has_status (tables s) m [QUEUED; RUNNING; FAILED]) eqn:Eh; [|done]. exfalso.
      apply (not_elem_of_empty (C := gset string) m). rewrite <-H4. apply elem_of_intersection. split; [done|]. by eapply blocking_members. }
    destruct (look_at _ _ _ _ _ s) as [s'|e] eqn:E.
    2: { cbn in Hin. destruct (broken_off_cases s) as [Hb|(st & Hst & Hb)]; rewrite Hb in Hin; [done|eapply Hsubmitted; [exact Hst| | |exact Hin]; reflexivity]. }
    destruct (look_cases _ _ _ E) as (x & st & queued & s1 & -> & Hqueued & Hstart & Hs1 & Hcase).
    assert (∀ m, m ∈ queued ↔ m ∈ open_queue (observe_jobs (tables s) members) (oper s)) as Hopen by (intros m; rewrite Hqueued; apply elem_of_list_to_set).
    assert (active s ⊆ active s1) as Hact.
    { rewrite Hs1. generalize (st.1). intros l. match goal with |- _ ⊆ active (foldl _ ?s0 _) => change (active s) with (active s0); generalize s0 end.
      induction l as [|m l IH]; intros s0; cbn; [done|]. etrans; [apply (submit_keeps m)|apply IH]. }
    assert ((f, n) ∈ futures s1 → n ∈ open_queue (observe_jobs (tables s) members) (oper s) ∧ (n ∉ active s) ∧
      (unblocked (tables s) n ∨ overridden (tables s) (oper s) (active s) n)) as Hfirst.
    { rewrite Hs1, Hqueued. rewrite Hqueued in Hstart. intros Hf. eapply Hsubmitted; [exact Hstart| | |exact Hf]; reflexivity. }
    destruct Hcase as [(_ & _ & ->)|[->|(Hq & Hr & Hlive & Hblock & [[_ ->]|(m & Hres & ->)])]]; try (by apply Hfirst).
    apply submit_from in Hin as [?|(Hm & Ha & _)]; [by apply Hfirst|]. cbn in Hm. subst m.
    destruct (deadlock_choice _ _ _ Hres) as [_ Hqn]. split; [by apply Hopen|]. split; [set_solver|]. right.
    split_and!; [by apply no_running| |by rewrite <-Hqueued|].
    + intros m Hm%Hopen. by apply Hblock.
    + intros m Hm%Hact%Hlive. apply elem_of_list_to_set, live_members in Hm as [_ ?]. done.
  - exfalso. apply Hnew. unfold join in Hin. destruct (collect_fold (filter (λ q, q.1 ∉ cancelled s) (futures s)) s) as (E1 & _). fold (collect s) in E1.
    cbn zeta in E1. destruct (first_error (collect s)); [destruct (finalize _ _)|]; cbn in Hin; by rewrite E1 in Hin.
Qed.
End pump.

(** ** A member that waits for its peer *)

Module pump_sample.
Definition members : list string := ["a"; "b"].
Definition config (n : string) : node_config := NodeConfig (bool_decide (n = "b")) None false.
Definition in_graph (n : string) : bool := bool_decide (n ∈ members).
Definition finalize : db → operation nat → db * operation nat :=
  _finalize_failed_component Sample.snap cleanup_sample.no_output cleanup_sample.no_float members "s" ∅ "t9" false.
Lemma finalize_ok d o : rtc report o (finalize d o).2.
Proof. apply finalize_failed_reports. Qed.

Abbreviation step := (pump_step members config in_graph None finalize []).
Definition op : operation nat := new_operation ["a"; "b"].
(** A job of each member, with their statuses. *)
Definition rows (a b : string) : db :=
  set_jobs {[("a", 1) := JobRow 0 a None None None None None None None None; ("b", 1) := JobRow 0 b None None None None None None None None]} Sample.db0.

Definition s0 := start members config true (rows QUEUED QUEUED) op.
Definition s1 := look members config in_graph None [] (reap [] (set_stage Reaping s0)).
(** Member a runs and ends; then the rows show b queued alone. *)
Definition s2 := reap [] (set_outcomes {[0%nat := None]} (set_tables (rows DONE QUEUED) s1)).
Definition s3 := look members config in_graph None [] s2.
Definition finished : pump := set_tables (rows DONE DONE) s3.
Definition ended_b : pump := set_outcomes (<[1%nat := None]> (outcomes finished)) finished.
Definition s4 := look members config in_graph None [] (reap [] ended_b).
Definition why4 := match at_stage s4 with Draining why => why | _ => None end.
Definition s5 := join members finalize why4 s4.

Lemma first_run : rtc step s0 s1.
Proof.
  eapply rtc_l; [apply step_released; reflexivity|]. eapply rtc_l; [apply step_reap; reflexivity|]. apply rtc_once. apply step_look. reflexivity.
Qed.
Lemma peer_done : rtc step s1 s2.
Proof.
  eapply rtc_l; [apply (step_tables _ _ _ _ _ _ (rows DONE QUEUED))|]. eapply rtc_l.
  { eapply (step_end _ _ _ _ _ _ 0 "a" None); [by left|]. split; [reflexivity|]. apply not_elem_of_empty. }
  apply rtc_once. apply step_reap. reflexivity.
Qed.
Lemma step3 : step s2 s3.
Proof. apply step_look. reflexivity. Qed.
Lemma ended_reaping : at_stage ended_b = Reaping.
Proof. vm_compute. reflexivity. Qed.
Lemma reaped_looking : at_stage (reap [] ended_b) = Looking.
Proof. vm_compute. reflexivity. Qed.
Lemma second_run : rtc step s3 s4.
Proof.
  eapply rtc_l; [apply (step_tables _ _ _ _ _ _ (rows DONE DONE))|]. fold finished. eapply (rtc_l _ _ ended_b).
  { apply (step_end _ _ _ _ _ _ 1 "b" None); [vm_compute; left|]. split; [vm_compute; reflexivity|]. assert (cancelled finished = ∅) as -> by (vm_compute; reflexivity). apply not_elem_of_empty. }
  eapply rtc_l; [exact (step_reap _ _ _ _ _ _ ended_b ended_reaping)|]. apply rtc_once. exact (step_look members config in_graph None finalize [] _ reaped_looking).
Qed.
Lemma nothing_left : futures s4 = [].
Proof. vm_compute. reflexivity. Qed.
Lemma draining : at_stage s4 = Draining why4.
Proof.
  assert (match at_stage s4 with Draining _ => true | _ => false end = true) as H by (vm_compute; reflexivity).
  unfold why4. by destruct (at_stage s4).
Qed.
Lemma step5 : step s4 s5.
Proof. apply step_join; [exact draining|]. intros f n. rewrite nothing_left. by intros ?%not_elem_of_nil. Qed.
Lemma whole_run : rtc step s0 s5.
Proof. etrans; [exact first_run|]. etrans; [exact peer_done|]. eapply rtc_l; [exact step3|]. etrans; [exact second_run|]. apply rtc_once. exact step5. Qed.
Lemma over : ∃ why, at_stage s5 = Over why (inl ["a"; "b"]).
Proof.
  assert (match at_stage s5 with Over _ (inl l) => bool_decide (l = ["a"; "b"]) | _ => false end = true) as H by (vm_compute; reflexivity).
  destruct (at_stage s5) as [| | | |why [l|]]; try done. apply bool_decide_eq_true in H as ->. by exists why.
Qed.
End pump_sample.

Lemma pumps_joined_witness : outcomes pump_sample.s5 !! 1%nat = Some None ∧ ran (oper pump_sample.s5) = ["a"; "b"].
Proof.
  destruct (pumps_joined pump_sample.members pump_sample.config pump_sample.in_graph true None pump_sample.finalize pump_sample.finalize_ok
    [] _ _ _ pump_sample.whole_run) as (_ & _ & H).
  destruct pump_sample.over as [why Hover]. destruct (H _ _ Hover) as (_ & Hdone & _). destruct (Hdone _ eq_refl) as (Hran & Hout & _).
  split; [|exact (eq_sym Hran)]. apply Hout. vm_compute. lia.
Defined.

Lemma waiting_admitted_past_peers_witness : "b" ∉ active pump_sample.s2.
Proof.
  apply (waiting_admitted_past_peers pump_sample.members pump_sample.config pump_sample.in_graph true None pump_sample.finalize pump_sample.finalize_ok
    pump_sample.op pump_sample.s2 pump_sample.s3 1 "b").
  - exact pump_sample.step3.
  - vm_compute. left.
  - vm_compute. apply not_elem_of_nil.
  - reflexivity.
Defined.
