(* ===== verification/DagRun.v ===== *)
(** Scheduling the components of a session ([workflow/dag_scheduler.py],
    [workflow/dag_execution_operation.py]).

    The units of a session are components.  The scheduler goes round a loop: it looks which
    units are ready, shares the API pumps of the host out to those it can start, submits
    them to its executor and waits until one ends.  A unit's thread runs the operation of
    its component ([Operations]).  Threads, the tables and the scheduler are steps of a
    relation, with a step for every look at the tables; what the scheduler reads there is
    the record [dag_reads].  Runners that run one unit after another are not modelled. *)
From S2P Require Import Prelude Topology JobStore Capacity ComponentLife Operations.

#[local] Open Scope Z_scope.

(** What the scheduler reads: the lifecycle of a boundary, fences and blockers of
    interrupts, the stored lifecycle of a unit, queued jobs, readiness of a component, the
    thread limit of a node, and the units a resolver of waiting members has given up. *)
Record dag_reads (W : Type) := DagReads {
  boundary_lifecycle : W → key → result string;
  fenced : W → key → result bool;
  paused : W → key → result bool;
  stored_lifecycle : W → key → result (option string);
  node_queued : W → string → bool;
  component_ready : W → key → result bool;
  requested_max_threads : W → string → Z;
  deadlock_blocked : W → key → bool
}.
Arguments boundary_lifecycle {W} d.
Arguments fenced {W} d.
Arguments paused {W} d.
Arguments stored_lifecycle {W} d.
Arguments node_queued {W} d.
Arguments component_ready {W} d.
Arguments requested_max_threads {W} d.
Arguments deadlock_blocked {W} d.

Section dag.
Context {val W : Type} (reads : dag_reads W).

(** ** The operation of a whole selection *)

Record dag_op := DagOp {
  operations : list (key * operation val);
  (** [api_pump_allocations] of each operation, fixed when it is made. *)
  api_pump_allocations : list (key * list (string * Z));
  reported : list (key * nat);
  dag_errors : list (key * failure);
  dag_ran : list string;
  dag_unrelated : option failure;
  dag_stop : bool;
  admission_stopped : bool
}.

Definition set_operations x o := DagOp x (api_pump_allocations o) (reported o) (dag_errors o) (dag_ran o) (dag_unrelated o) (dag_stop o) (admission_stopped o).
Definition set_allocations x o := DagOp (operations o) x (reported o) (dag_errors o) (dag_ran o) (dag_unrelated o) (dag_stop o) (admission_stopped o).
Definition set_dag_errors x o := DagOp (operations o) (api_pump_allocations o) (reported o) x (dag_ran o) (dag_unrelated o) (dag_stop o) (admission_stopped o).
Definition set_reported r l o := DagOp (operations o) (api_pump_allocations o) r (dag_errors o) l (dag_unrelated o) (dag_stop o) (admission_stopped o).
Definition set_dag_unrelated x o := DagOp (operations o) (api_pump_allocations o) (reported o) (dag_errors o) (dag_ran o) x (dag_stop o) (admission_stopped o).
Definition set_dag_stop x o := DagOp (operations o) (api_pump_allocations o) (reported o) (dag_errors o) (dag_ran o) (dag_unrelated o) x (admission_stopped o).
Definition set_admission_stopped x o := DagOp (operations o) (api_pump_allocations o) (reported o) (dag_errors o) (dag_ran o) (dag_unrelated o) (dag_stop o) x.

Definition new_dag : dag_op := DagOp [] [] [] [] [] None false false.

(** [component_operation]: the unit's operation, made when it is first launched, with the
    pumps of that launch; a later launch does not change them. *)
Definition component_operation (u : key) (api_pumps : list (string * Z)) (o : dag_op) : dag_op :=
  set_allocations (if od_has u (operations o) then api_pump_allocations o else od_set u api_pumps (api_pump_allocations o))
    (set_operations (od_setdefault u (new_operation u) (operations o)) o).

Definition is_resuming (u : key) (o : dag_op) : bool :=
  match od_get u (operations o) with
  | Some p => existsb (λ q : addr * expected_restart, negb (od_has q.1 (errors (book p)))) (expectations (book p))
  | None => false
  end.

Definition suspended_units (o : dag_op) : list key :=
  (filter (λ q : key * operation val, od_has q.1 (dag_errors o) = true ∨ expectations (book q.2) ≠ []) (operations o)).*1.

(** The three failures a session may decide about. *)
Definition record_unrelated (f : failure) (o : dag_op) : dag_op :=
  if expected_failure f then o else match dag_unrelated o with Some _ => o | None => set_dag_unrelated (Some f) o end.

Definition record_unit (u : key) (f : option failure) (o : dag_op) : dag_op :=
  match od_get u (operations o) with
  | None => o
  | Some p =>
      let o := set_reported (od_set u (length (ran p)) (reported o)) (dag_ran o ++ drop (default 0%nat (od_get u (reported o))) (ran p)) o in
      match f with
      | None => set_dag_errors (od_pop u (dag_errors o)) o
      | Some f =>
          let f := default f (primary_error (Some f) p) in
          record_unrelated f (set_dag_errors (od_set u f (dag_errors o)) o)
      end
  end.

Definition dag_retain_component_restarts (c : ComponentTerminalOutcome) (replacements : list (addr * expected_restart)) (o : dag_op) : result (option dag_op) :=
  match od_get (oc_component c) (operations o) with
  | None => Ok None
  | Some p =>
      let! p := retain_component_restarts c replacements p in
      Ok ((λ p, set_operations (od_set (oc_component c) p (operations o)) o) <$> p)
  end.

Definition dag_failed_attempts (o : dag_op) : list attempt := operations o ≫= λ q, failed_attempts q.2.
Definition dag_rejected_restarts (o : dag_op) : list (addr * expected_restart) := foldl od_update [] ((λ q : key * operation val, rejected_restarts q.2) <$> operations o).
Definition dag_exhausted_restarts (o : dag_op) : list (addr * expected_restart) := foldl od_update [] ((λ q : key * operation val, exhausted_restarts q.2) <$> operations o).
Definition dag_failed_nodes (units : list key) (o : dag_op) : list string := units ≫= λ u, if od_has u (dag_errors o) then u else [].
Definition dag_failed_component_outcomes (o : dag_op) : list ComponentTerminalOutcome := operations o ≫= λ q, failed_component_outcomes q.2.

Definition dag_primary_error (f : option failure) (o : dag_op) : option failure :=
  match dag_unrelated o with
  | Some u => Some u
  | None => match dag_errors o with q :: _ => Some q.2 | [] => f end
  end.

(** [retain_exit_error]. *)
Definition retain_exit_error (f : option failure) (o : dag_op) : dag_op :=
  match f with Some f => record_unrelated f o | None => o end.

(** [resume]: each unit takes the accepted restarts of its members. *)
Definition resume_stop (replacements : list (addr * expected_restart)) (stop : bool) (o : dag_op) : bool :=
  stop || admission_stopped o || bool_decide (is_Some (dag_unrelated o))
  || existsb (λ q : key * operation val, bool_decide (is_Some (unrelated_error q.2))
                || existsb (λ e : addr * failure, negb (od_has e.1 replacements)) (errors (book q.2))) (operations o).

Definition resume_unit (replacements : list (addr * expected_restart)) (acc : dag_op * list (addr * expected_restart)) (q : key * operation val)
  : result (dag_op * list (addr * expected_restart)) :=
  let '(o, remaining) := acc in
  let '(u, p) := q in
  let selected := filter (λ r : addr * expected_restart, r.1.1 ∈ u) replacements in
  if negb (bool_decide (selected = [])) then
    let! p := resume selected (dag_stop o) p in
    let o := set_operations (od_set u p (operations o)) o in
    let o := if bool_decide (errors (book p) = []) && bool_decide (unrelated_error p = None) then set_dag_errors (od_pop u (dag_errors o)) o else o in
    check! forallb (λ r : addr * expected_restart, od_has r.1 remaining) selected orelse KeyError saying "replacement" in
    Ok (o, foldl (λ l r, od_pop r.1 l) remaining selected)
  else if negb (completed p) then
    let! p := resume [] (dag_stop o) p in
    Ok (set_operations (od_set u p (operations o)) o, remaining)
  else Ok (o, remaining).

Definition dag_resume (replacements : list (addr * expected_restart)) (stop : bool) (o : dag_op) : result dag_op :=
  let o := set_dag_stop (resume_stop replacements stop o) o in
  let! acc := rfold (resume_unit replacements) (o, replacements) (operations o) in
  check! bool_decide (acc.2 = []) orelse RuntimeError saying "Session continuation lies outside the selected DAG operations" in
  Ok acc.1.

(** ** The scheduler *)

(** The arguments of [_run_concurrently]; [api n] says that node n has the API runner. *)
Context (units : list key) (ready_check : option (W → string → bool)) (task_parent : option key) (api : string → bool) (cpu_count : option Z).
Context (interrupt_blocked : list key) (refuse_after refuse_before : option key).

Definition boundary_terminal (w : W) (c : option key) : result bool :=
  match c with
  | None => Ok false
  | Some c => let! l := boundary_lifecycle reads w c in Ok (bool_decide (l ∈ ["done"; "failed"]))
  end.

Definition unit_ready (w : W) (o : dag_op) (u : key) : result bool :=
  if bool_decide (u ∈ interrupt_blocked) then Ok false else
  let! f := fenced reads w u in
  if f : bool then Ok false else
  let! b := paused reads w u in
  if b : bool then Ok false else
  if is_resuming u o then Ok true else
  if dag_stop o then Ok false else
  if match od_get u (operations o) with Some p => completed p | None => false end then Ok false else
  let! l := stored_lifecycle reads w u in
  match l with
  | None => raise RuntimeError "Selected component has no stored lifecycle"
  | Some l =>
      if bool_decide (l = "running") && negb (od_has u (operations o)) && negb (bool_decide (task_parent = Some u)) then Ok false else
      if negb (bool_decide (l ∈ ["queued"; "sampled"]) || existsb (node_queued reads w) u) then Ok false else
      let! r := component_ready reads w u in
      Ok ((r : bool) && match ready_check with None => true | Some c => forallb (c w) u end)
  end.

Fixpoint any_paused (w : W) (us : list key) : result bool :=
  match us with
  | [] => Ok false
  | u :: us =>
      if bool_decide (u ∈ interrupt_blocked) then any_paused w us else
      let! f := fenced reads w u in
      if f : bool then any_paused w us else
      let! b := paused reads w u in
      if b : bool then Ok true else any_paused w us
  end.
Definition waiting_on_interrupt (w : W) (o : dag_op) : result bool :=
  if admission_stopped o || dag_stop o then Ok false else any_paused w units.

(** *** Sharing the pumps *)

(** A submitted unit with its entries of [futures], [in_flight] and [future_api_pumps],
    which the scheduler adds and removes together; [fl_pumps] is what it accounts for, the
    unit runs with the [api_pump_allocations] of its operation. *)
Record flight := Flight { fl_future : nat; fl_unit : key; fl_pumps : list (string * Z) }.

Definition api_members (u : key) : list string := filter (λ n, api n = true) u.
Definition limits_of (w : W) (ns : list string) : gmap string Z := list_to_map ((λ n, (n, requested_max_threads reads w n)) <$> ns).

Definition active_api_pumps (fs : list flight) : gmap string Z := list_to_map (fs ≫= fl_pumps).

(** [allocate_api_pumps] with an optional budget; it never runs out of fuel. *)
Definition allocate (limits : gmap string Z) (budget : option Z) : result (gmap string Z) :=
  let! r := Pumps.allocate_api_pumps limits cpu_count None budget in Ok (default ∅ r).

(** The loop over [ready]: units to launch, their API members, whether one was skipped. *)
Fixpoint fit (available : Z) (ready : list key) : list key * list string * bool :=
  match ready with
  | [] => ([], [], false)
  | u :: ready =>
      let ns := api_members u in
      if available <? Z.of_nat (length ns) then let '(launch, l, _) := fit available ready in (launch, l, true)
      else let '(launch, l, skipped) := fit (available - Z.of_nat (length ns)) ready in (u :: launch, ns ++ l, skipped)
  end.

Definition plan (w : W) (fs : list flight) (ready : list key) : result (list key * list string * gmap string Z) :=
  let active := active_api_pumps fs in
  let! target := allocate (limits_of w (elements (dom active) ++ (ready ≫= api_members))) None in
  let target_total := sum_values target in
  let available := Z.max 0 (target_total - sum_values active) in
  let '(launch, ns, skipped) := fit available ready in
  let! wave := if bool_decide (ns = []) then Ok ∅
               else allocate (limits_of w ns) (Some (if skipped then Z.of_nat (length ns) else target_total - sum_values active)) in
  Ok (launch, ns, wave).

(** *** State and steps *)

Inductive dag_stage :=
  | Top
  | Scanning (todo ready : list key)
  | Launching (todo : list key) (wave : gmap string Z)
  | Waiting
  | Reaping (done : list flight)
  (** [wait(futures)] after a unit failed; the executor's own wait; the end. *)
  | Failing (f : failure)
  | Leaving (r : option failure)
  | Left (r : option failure).

Record dag := Dag {
  world : W;
  dag_oper : dag_op;
  flights : list flight;
  dag_outcomes : gmap nat (option failure);
  dag_cancelled : gset nat;
  next_future : nat;
  api_admission : gset string;
  refused : bool;
  dag_at : dag_stage
}.

Definition set_world x s := Dag x (dag_oper s) (flights s) (dag_outcomes s) (dag_cancelled s) (next_future s) (api_admission s) (refused s) (dag_at s).
Definition set_dag_oper x s := Dag (world s) x (flights s) (dag_outcomes s) (dag_cancelled s) (next_future s) (api_admission s) (refused s) (dag_at s).
Definition set_flights x s := Dag (world s) (dag_oper s) x (dag_outcomes s) (dag_cancelled s) (next_future s) (api_admission s) (refused s) (dag_at s).
Definition set_dag_outcomes x s := Dag (world s) (dag_oper s) (flights s) x (dag_cancelled s) (next_future s) (api_admission s) (refused s) (dag_at s).
Definition set_dag_cancelled x s := Dag (world s) (dag_oper s) (flights s) (dag_outcomes s) x (next_future s) (api_admission s) (refused s) (dag_at s).
Definition set_admission x s := Dag (world s) (dag_oper s) (flights s) (dag_outcomes s) (dag_cancelled s) (next_future s) x (refused s) (dag_at s).
Definition set_refused x s := Dag (world s) (dag_oper s) (flights s) (dag_outcomes s) (dag_cancelled s) (next_future s) (api_admission s) x (dag_at s).
Definition set_at x s := Dag (world s) (dag_oper s) (flights s) (dag_outcomes s) (dag_cancelled s) (next_future s) (api_admission s) (refused s) x.

Definition dag_start (w : W) (o : dag_op) : dag := Dag w o [] ∅ ∅ 0 ∅ false Top.

(** [admission_stopped = True] with the event of the caller. *)
Definition stop_here (s : dag) : dag := set_refused true (set_dag_oper (set_admission_stopped true (dag_oper s)) s).

Definition error_of (e : exc) : failure := Failure e None.
(** What the loop raises outside its [try]. *)
Definition escape (f : failure) (s : dag) : dag := set_at (Leaving (Some f)) s.

(** The boundaries at the head of the loop. *)
Definition at_boundary (c : option key) (s : dag) : result dag :=
  if admission_stopped (dag_oper s) then Ok s
  else let! t := boundary_terminal (world s) c in Ok (if t : bool then stop_here s else s).
Definition top (s : dag) : dag :=
  match (let! s := at_boundary refuse_after s in at_boundary refuse_before s) with
  | Ok s => set_at (Scanning units []) s
  | Err e => escape (error_of e) s
  end.

(** One unit of the list comprehension [ready]. *)
Definition scan (u : key) (todo ready : list key) (s : dag) : dag :=
  let o := dag_oper s in
  if (negb (admission_stopped o) || is_resuming u o) && negb (bool_decide (u ∈ fl_unit <$> flights s)) && negb (deadlock_blocked reads (world s) u)
  then match unit_ready (world s) o u with
       | Ok b => set_at (Scanning todo (if b : bool then ready ++ [u] else ready)) s
       | Err e => escape (error_of e) s
       end
  else set_at (Scanning todo ready) s.

Definition plan_wave (ready : list key) (s : dag) : dag :=
  let '(ready, s) := match refuse_before with
                     | Some c => if bool_decide (c ∈ ready) then ([], stop_here s) else (ready, s)
                     | None => (ready, s)
                     end in
  match plan (world s) (flights s) ready with
  | Ok (launch, ns, wave) => set_at (Launching launch wave) (set_admission (dom (active_api_pumps (flights s)) ∪ list_to_set ns) s)
  | Err e => escape (error_of e) s
  end.

Definition submit_unit (u : key) (wave : gmap string Z) (s : dag) : dag :=
  let unit_api_pumps := (λ n, (n, wave !!! n)) <$> api_members u in
  Dag (world s) (component_operation u unit_api_pumps (dag_oper s)) (flights s ++ [Flight (next_future s) u unit_api_pumps])
    (dag_outcomes s) (dag_cancelled s) (S (next_future s)) (api_admission s) (refused s) (dag_at s).

Definition launch_one (u : key) (todo : list key) (wave : gmap string Z) (s : dag) : dag :=
  match unit_ready (world s) (dag_oper s) u with
  | Ok true => set_at (Launching todo wave) (submit_unit u wave s)
  | Ok false => set_at (Launching todo wave) s
  | Err e => escape (error_of e) s
  end.

(** Nothing is left to launch: wait, look again after a pause, or leave. *)
Definition launched (s : dag) : dag :=
  if negb (bool_decide (fl_future <$> flights s = [])) then set_at Waiting s
  else match waiting_on_interrupt (world s) (dag_oper s) with
       | Ok true => set_at Top s
       | Ok false => set_at (Leaving None) s
       | Err e => escape (error_of e) s
       end.

(** [InterruptAdmissionPaused]: the unit's thread did not begin its component. *)
Definition is_pause (f : failure) : bool := bool_decide (exc_cls (f_exc f) = InterruptAdmissionPaused).

Definition discard_unstarted_operation (u : key) (o : dag_op) : result (dag_op) :=
  match od_get u (operations o) with
  | None => Ok o
  | Some p =>
      check! negb (started p) orelse RuntimeError saying "Interrupt pause escaped from a begun component" in
      Ok (set_allocations (od_pop u (api_pump_allocations o)) (set_operations (od_pop u (operations o)) o))
  end.

Definition land (x : flight) (s : dag) : dag :=
  let fs := filter (λ y, fl_future y ≠ fl_future x) (flights s) in
  set_admission (dom (active_api_pumps fs)) (set_flights fs s).

(** One finished future. *)
Definition settle_one (x : flight) (done : list flight) (s : dag) : dag :=
  let s := land x s in
  match dag_outcomes s !! fl_future x with
  | Some (Some f) =>
      if is_pause f then
        match discard_unstarted_operation (fl_unit x) (dag_oper s) with
        | Ok o => set_at (Reaping done) (set_dag_oper o s)
        | Err e => escape (error_of e) s
        end
      else set_at (Failing f) (set_dag_oper (record_unit (fl_unit x) (Some f) (dag_oper s)) s)
  | _ =>
      let s := set_dag_oper (record_unit (fl_unit x) None (dag_oper s)) s in
      set_at (Reaping done) (if bool_decide (refuse_after = Some (fl_unit x)) then stop_here s else s)
  end.

(** The cleanup of the [ExitStack], around the executor's wait. *)
Definition left_with (r : option failure) (s : dag) : dag := set_at (Left r) (set_dag_oper (retain_exit_error r (dag_oper s)) s).

Definition running (s : dag) (x : flight) : Prop := x ∈ flights s ∧ dag_outcomes s !! fl_future x = None ∧ fl_future x ∉ dag_cancelled s.

Inductive dag_step : dag → dag → Prop :=
  (* Everything outside this scheduler. *)
  | dag_world w s : dag_step s (set_world w s)
  (* A unit's thread changes its operation, and ends. *)
  | dag_unit x p p' s : running s x → od_get (fl_unit x) (operations (dag_oper s)) = Some p →
      dag_step s (set_dag_oper (set_operations (od_set (fl_unit x) p' (operations (dag_oper s))) (dag_oper s)) s)
  | dag_end x r s : running s x → dag_step s (set_dag_outcomes (<[fl_future x := r]> (dag_outcomes s)) s)
  (* [pending.cancel()] of a unit that has not begun. *)
  | dag_cancel x f s : dag_at s = Failing f → running s x → dag_step s (set_dag_cancelled ({[fl_future x]} ∪ dag_cancelled s) s)
  (* The scheduler. *)
  | dag_top s : dag_at s = Top → dag_step s (top s)
  | dag_scan u todo ready s : dag_at s = Scanning (u :: todo) ready → dag_step s (scan u todo ready s)
  | dag_plan ready s : dag_at s = Scanning [] ready → dag_step s (plan_wave ready s)
  | dag_launch u todo wave s : dag_at s = Launching (u :: todo) wave → dag_step s (launch_one u todo wave s)
  | dag_launched wave s : dag_at s = Launching [] wave → dag_step s (launched s)
  (* [wait(futures, return_when=FIRST_COMPLETED)]: some of the units that ended. *)
  | dag_wait done s : dag_at s = Waiting → done ≠ [] → NoDup (fl_future <$> done) →
      (∀ x, x ∈ done → x ∈ flights s ∧ is_Some (dag_outcomes s !! fl_future x)) → dag_step s (set_at (Reaping done) s)
  | dag_settle x done s : dag_at s = Reaping (x :: done) → dag_step s (settle_one x done s)
  | dag_settled s : dag_at s = Reaping [] → dag_step s (set_at Top s)
  | dag_failed f s : dag_at s = Failing f → (∀ x, ¬ running s x) → dag_step s (escape f s)
  | dag_left r s : dag_at s = Leaving r → (∀ x, ¬ running s x) → dag_step s (left_with r s).

(** [DagExecutionOperation.run] after the scheduler: the units it did not come to. *)
Definition collect_unit (outcomes : gmap nat (option failure)) (o : dag_op) (x : flight) : dag_op :=
  match outcomes !! fl_future x with
  | Some r => record_unit (fl_unit x) r o
  | None => o
  end.

Definition run_end (r : option failure) (s : dag) : (list string + failure) * dag_op :=
  let o := retain_exit_error r (dag_oper s) in
  let o := foldl (collect_unit (dag_outcomes s)) o (filter (λ x, fl_future x ∉ dag_cancelled s) (flights s)) in
  match r, dag_unrelated o, dag_errors o with
  | None, None, [] => (inl (dag_ran o), o)
  | _, _, _ => (inr (default (error_of (Exc RuntimeError "no error")) (dag_primary_error r o)), o)
  end.
End dag.
Arguments dag_op : clear implicits.
