(* ===== verification/DagSafety.v ===== *)
(** What every interleaving of the scheduler and its units keeps ([DagRun]): units and pumps
    are accounted for, the accounts never over-commit the host's pumps, and neither do the
    operations as long as no unit is launched again (an example shows one that is), a
    boundary stops new admissions, and a scheduler with nothing in flight launches what is ready. *)
From S2P Require Import Prelude Topology JobStore Capacity ComponentLife Operations DagRun.

#[local] Open Scope Z_scope.

Definition sum_list (l : list Z) : Z := foldr Z.add 0 l.

Lemma sum_list_app l l' : sum_list (l ++ l') = sum_list l + sum_list l'.
Proof. induction l as [|x l IH]; cbn; [done|]. unfold sum_list in *. lia. Qed.

Lemma sum_values_list (l : list (string * Z)) : NoDup l.*1 → sum_values (list_to_map l : gmap string Z) = sum_list l.*2.
Proof.
  induction l as [|[k v] l IH]; cbn; [intros _; apply sum_values_empty|]. intros [Hk Hl]%NoDup_cons.
  rewrite sum_values_insert_new; [|by apply not_elem_of_list_to_map]. by rewrite IH.
Qed.

(** Values of a map along a list of distinct keys. *)
Lemma sum_along (m : gmap string Z) ns : NoDup ns → (∀ n, n ∈ ns ↔ is_Some (m !! n)) → sum_list ((λ n, m !!! n) <$> ns) = sum_values m.
Proof.
  intros Hnd Hin. rewrite <-(list_fmap_id ns) in Hnd.
  assert (m = list_to_map ((λ n, (n, m !!! n)) <$> ns)) as Hm.
  { apply map_eq. intros n. destruct (decide (n ∈ ns)) as [Hn|Hn].
    - apply Hin in Hn as Hs. destruct Hs as [v Hv]. rewrite Hv. symmetry. apply elem_of_list_to_map_1.
      + rewrite <-list_fmap_compose. exact Hnd.
      + apply list_elem_of_fmap. exists n. by rewrite (lookup_total_correct _ _ _ Hv).
    - rewrite (not_elem_of_list_to_map_1 _ n).
      + destruct (m !! n) eqn:E; [|done]. destruct Hn. apply Hin. by eexists.
      + rewrite <-list_fmap_compose. by rewrite list_fmap_id. }
  transitivity (sum_values (list_to_map ((λ n, (n, m !!! n)) <$> ns))); [|by rewrite <-Hm].
  rewrite sum_values_list; [|rewrite <-list_fmap_compose; exact Hnd]. by rewrite <-list_fmap_compose.
Qed.

Section dag.
Context {val W : Type} (reads : dag_reads W).
Context (units : list key) (ready_check : option (W → string → bool)) (task_parent : option key) (api : string → bool) (cpu_count : option Z).
Context (interrupt_blocked : list key) (refuse_after refuse_before : option key).

(** Units are distinct components without common nodes; thread limits are positive. *)
Context (Hunits : NoDup units) (Hnodes : NoDup (mjoin units)).
Context (Hlimits : ∀ w n, 1 ≤ requested_max_threads reads w n) (Hcpu : 1 ≤ default 1 cpu_count).

Abbreviation dag := (dag (val := val) (W := W)).
Abbreviation step := (dag_step reads units ready_check task_parent api cpu_count interrupt_blocked refuse_after refuse_before).
Abbreviation api_members := (api_members api).

(** The most pumps the host ever runs: a pump for each API member, or its budget. *)
Definition host_bound : Z := Z.max (Z.of_nat (length (units ≫= api_members))) (Pumps.pump_budget_of cpu_count None None).
Definition pump_total (fs : list flight) : Z := sum_list (fs ≫= fl_pumps).*2.

(** *** Members of distinct units *)

Lemma unit_unique u v n : u ∈ units → v ∈ units → n ∈ u → n ∈ v → u = v.
Proof.
  intros [i Hi]%list_elem_of_lookup_1 [j Hj]%list_elem_of_lookup_1 Hu Hv. destruct (decide (i = j)) as [->|Hne]; [congruence|exfalso].
  clear Hunits. revert i j Hi Hj Hne. induction units as [|w us IH]; intros i j Hi Hj Hne; [done|]. cbn in Hnodes. apply NoDup_app in Hnodes as (_ & Hd & Hr).
  destruct i as [|i], j as [|j]; cbn in Hi, Hj; [done| | |eapply IH; eauto].
  - injection Hi as ->. apply (Hd n Hu). apply list_elem_of_join. eauto using list_elem_of_lookup_2.
  - injection Hj as ->. apply (Hd n Hv). apply list_elem_of_join. eauto using list_elem_of_lookup_2.
Qed.

Lemma unit_nodup u : u ∈ units → NoDup u.
Proof.
  clear Hunits. induction units as [|w us IH]; [by intros ?%not_elem_of_nil|]. cbn in Hnodes. apply NoDup_app in Hnodes as (Hw & _ & Hr).
  intros [->|H]%elem_of_cons; auto.
Qed.

Lemma api_members_nodup us : NoDup us → us ⊆ units → NoDup (us ≫= api_members).
Proof.
  intros Hus Hin. apply NoDup_bind; [|intros u Hu; by apply NoDup_filter, unit_nodup, Hin|done].
  intros u v n Hu Hv [_ Hn]%list_elem_of_filter [_ Hn']%list_elem_of_filter. by apply (unit_unique u v n); [apply Hin|apply Hin| |].
Qed.

(** A flight as it was submitted. *)
Definition flight_ok (x : flight) : Prop := fl_unit x ∈ units ∧ (fl_pumps x).*1 = api_members (fl_unit x) ∧ Forall (λ p, 1 ≤ p) (fl_pumps x).*2.
Definition flights_ok (fs : list flight) : Prop := NoDup (fl_unit <$> fs) ∧ Forall flight_ok fs.

Lemma pump_keys fs : Forall flight_ok fs → (fs ≫= fl_pumps).*1 = (fl_unit <$> fs) ≫= api_members.
Proof.
  induction 1 as [|x fs (_ & Hx & _) _ IH]; [done|]. cbn. rewrite fmap_app, Hx. f_equal. exact IH.
Qed.

Lemma flights_units fs : Forall flight_ok fs → fl_unit <$> fs ⊆ units.
Proof. intros Hf u (x & -> & Hx)%list_elem_of_fmap. by apply (proj1 (Forall_forall _ _) Hf). Qed.

Lemma pumps_nodup fs : flights_ok fs → NoDup (fs ≫= fl_pumps).*1.
Proof. intros [Hnd Hf]. rewrite pump_keys by done. apply api_members_nodup; [done|by apply flights_units]. Qed.

Lemma active_sum fs : flights_ok fs → sum_values (active_api_pumps fs) = pump_total fs.
Proof. intros H. apply sum_values_list, pumps_nodup, H. Qed.

Lemma active_dom fs n : flights_ok fs → n ∈ dom (active_api_pumps fs) ↔ n ∈ (fl_unit <$> fs) ≫= api_members.
Proof. intros [_ H]. unfold active_api_pumps. rewrite dom_list_to_map_L, elem_of_list_to_set. by rewrite pump_keys. Qed.

(** *** Planning a wave *)

Lemma limits_lookup w ns n l : limits_of reads w ns !! n = Some l ↔ n ∈ ns ∧ l = requested_max_threads reads w n.
Proof.
  unfold limits_of. induction ns as [|m ns IH]; cbn; [rewrite lookup_empty; split; [done|by intros [?%not_elem_of_nil _]]|].
  rewrite elem_of_cons. destruct (decide (m = n)) as [->|Hne].
  - rewrite lookup_insert_eq. split; [intros [= <-]; auto|by intros [_ ->]].
  - rewrite lookup_insert_ne, IH by done. split; [tauto|]. intros [[?|?] ->]; [congruence|done].
Qed.

Lemma limits_dom w ns : dom (limits_of reads w ns) = list_to_set ns.
Proof.
  apply set_eq. intros n. rewrite elem_of_dom, elem_of_list_to_set. split.
  - intros [l H]. by apply limits_lookup in H as [? _].
  - intros H. exists (requested_max_threads reads w n). by apply limits_lookup.
Qed.

Lemma allocate_spec w ns budget : match budget with Some b => 1 ≤ b | None => True end →
  ∃ t, allocate cpu_count (limits_of reads w ns) budget = Ok t ∧ dom t = list_to_set ns ∧ (∀ n v, t !! n = Some v → 1 ≤ v) ∧
    Z.of_nat (size (list_to_set ns : gset string)) ≤ sum_values t ≤
      Z.max (Z.of_nat (size (list_to_set ns : gset string))) (Pumps.pump_budget_of cpu_count None budget).
Proof.
  intros Hb. destruct (Pumps.allocate_api_pumps_cases (limits_of reads w ns) cpu_count None budget) as (t & Ht & [Hd Hw] & _ & Hs).
  - intros k l [_ ->]%limits_lookup. apply Hlimits.
  - unfold Pumps.processors_valid. by destruct budget.
  - exists t. unfold allocate. rewrite Ht. split; [done|]. rewrite <-(limits_dom w ns), size_dom. split; [by rewrite Hd, <-Pumps.independent_dom|].
    split; [|rewrite Hs; lia]. intros n v Hv. apply elem_of_dom_2 in Hv as Hin. rewrite Hd in Hin. apply elem_of_dom in Hin as [c Hc]. by apply (Hw n v c).
Qed.

Lemma fit_spec available ready launch ns skipped : fit api available ready = (launch, ns, skipped) →
  launch `sublist_of` ready ∧ ns = launch ≫= api_members ∧ (0 ≤ available → Z.of_nat (length ns) ≤ available).
Proof.
  revert available launch ns skipped. induction ready as [|u ready IH]; intros available launch ns skipped; cbn [fit].
  { intros [= <- <- _]. split; [done|]. split; [done|]. by cbn. }
  destruct (available <? Z.of_nat (length (api_members u))) eqn:E.
  - destruct (fit api available ready) as [[l0 n0] s0] eqn:Ef. intros [= <- <- _]. destruct (IH _ _ _ _ Ef) as (? & ? & ?). split_and!; [by constructor|done|done].
  - destruct (fit api _ ready) as [[l0 n0] s0] eqn:Ef. intros [= <- <- _]. destruct (IH _ _ _ _ Ef) as (? & -> & ?). apply Z.ltb_ge in E.
    split; [by constructor|]. split; [done|]. intros _. rewrite length_app. lia.
Qed.

Lemma fit_first available u ready launch ns skipped : fit api available (u :: ready) = (launch, ns, skipped) → Z.of_nat (length (api_members u)) ≤ available →
  ∃ l, launch = u :: l.
Proof.
  cbn [fit]. intros H Hle. rewrite (proj2 (Z.ltb_ge _ _) Hle) in H. destruct (fit api _ ready) as [[l0 n0] s0]. injection H as <- _ _. by eexists.
Qed.

Definition wave_total (us : list key) (wave : gmap string Z) : Z := sum_list ((λ n, wave !!! n) <$> (us ≫= api_members)).

Lemma size_nodup (ns : list string) : NoDup ns → size (list_to_set ns : gset string) = length ns.
Proof. apply size_list_to_set. Qed.

Lemma size_members (ns : list string) : (∀ n, n ∈ ns → n ∈ units ≫= api_members) → Z.of_nat (size (list_to_set ns : gset string)) ≤ Z.of_nat (length (units ≫= api_members)).
Proof.
  intros H. rewrite <-(size_nodup (units ≫= api_members)) by by apply api_members_nodup. apply inj_le, subseteq_size. intros n. rewrite !elem_of_list_to_set. apply H.
Qed.

Lemma bind_members (us : list key) n : us ⊆ units → n ∈ us ≫= api_members → n ∈ units ≫= api_members.
Proof. rewrite !list_elem_of_bind. intros H (u & Hn & Hu). exists u. split; [done|by apply H]. Qed.

Lemma plan_spec w fs ready : flights_ok fs → NoDup ready → ready ⊆ units → (∀ u, u ∈ ready → u ∉ fl_unit <$> fs) → pump_total fs ≤ host_bound →
  ∃ launch ns wave, plan reads api cpu_count w fs ready = Ok (launch, ns, wave) ∧ launch `sublist_of` ready ∧
    (∀ n, n ∈ launch ≫= api_members → 1 ≤ wave !!! n) ∧ pump_total fs + wave_total launch wave ≤ host_bound ∧
    (∀ u r, ready = u :: r → fs = [] → ∃ l, launch = u :: l).
Proof.
  intros Hfs Hnd Hin Hout Hle. unfold plan. set (active := active_api_pumps fs). set (keys := elements (dom active) ++ _).
  destruct (allocate_spec w keys None I) as (t & Ht & Hdt & _ & Hlow & Hhigh). rewrite Ht. cbn [rbind].
  assert (sum_values t ≤ host_bound) as Hbound.
  { etrans; [exact Hhigh|]. unfold host_bound. apply Z.max_le_compat_r, size_members. intros n [Hn|Hn]%elem_of_app.
    - apply elem_of_elements, active_dom in Hn; [|done]. eapply bind_members; [|exact Hn]. by apply flights_units; destruct Hfs.
    - by eapply bind_members. }
  pose proof (active_sum _ Hfs) as Hsum. fold active in Hsum. rewrite Hsum.
  destruct (fit api (Z.max 0 (sum_values t - pump_total fs)) ready) as [[launch ns] skipped] eqn:Hfit.
  destruct (fit_spec _ _ _ _ _ Hfit) as (Hsub & Hns & Hlen). specialize (Hlen (Z.le_max_l _ _)).
  assert (NoDup ns) as Hnsd.
  { rewrite Hns. apply api_members_nodup; [by eapply sublist_NoDup|]. intros u Hu. apply Hin. by eapply sublist_subseteq. }
  assert (∀ u r, ready = u :: r → fs = [] → ∃ l, launch = u :: l) as Hfirst.
  { intros u r Hr Hf. rewrite Hr in Hfit. eapply fit_first; [exact Hfit|]. rewrite Hf in Hsum |- *. change (pump_total []) with 0.
    etrans; [|apply Z.le_max_r]. rewrite Z.sub_0_r. etrans; [|exact Hlow]. apply inj_le. rewrite <-(size_nodup (api_members u)).
    - apply subseteq_size. intros n. rewrite !elem_of_list_to_set. intros Hn. apply elem_of_app. right. apply list_elem_of_bind. exists u. rewrite Hr. split; [done|left].
    - apply NoDup_filter, unit_nodup, Hin. rewrite Hr. left. }
  case_bool_decide as Hempty.
  - cbn [rbind]. exists launch, ns, ∅. split; [done|]. split; [done|]. rewrite Hempty in Hns. split; [rewrite <-Hns; by intros n ?%not_elem_of_nil|].
    split; [|done]. unfold wave_total. rewrite <-Hns. cbn. lia.
  - assert (0 < Z.of_nat (length ns)) as Hpos by (destruct ns; [done|cbn; lia]). set (b := if skipped then _ else _).
    assert (Z.of_nat (length ns) ≤ sum_values t - pump_total fs) as Hroom by lia.
    assert (Z.of_nat (length ns) ≤ b ≤ sum_values t - pump_total fs) as Hb by (unfold b; destruct skipped; lia).
    destruct (allocate_spec w ns (Some b)) as (wave & Hw & Hdw & Hone & _ & Hws); [lia|]. rewrite Hw. cbn [rbind].
    exists launch, ns, wave. split; [done|]. split; [done|]. rewrite size_nodup in Hws by done. cbn [Pumps.pump_budget_of] in Hws.
    assert (∀ n, n ∈ ns ↔ is_Some (wave !! n)) as Hdom by (intros n; rewrite <-elem_of_dom, Hdw; by rewrite elem_of_list_to_set).
    split; [|split; [|done]].
    + intros n Hn. rewrite <-Hns in Hn. apply Hdom in Hn as [v Hv]. rewrite (lookup_total_correct _ _ _ Hv). by eapply Hone.
    + unfold wave_total. rewrite <-Hns, sum_along by done. lia.
Qed.

(** *** The invariant *)

Record good (s : dag) : Prop := {
  g_flights : flights_ok (flights s);
  g_numbers : NoDup (fl_future <$> flights s);
  g_fresh : (∀ x, x ∈ flights s → (fl_future x < next_future s)%nat) ∧ (∀ f r, dag_outcomes s !! f = Some r → (f < next_future s)%nat) ∧
    ∀ f, f ∈ dag_cancelled s → (f < next_future s)%nat;
  g_total : pump_total (flights s) ≤ host_bound;
  g_operations : ∀ x, x ∈ flights s → is_Some (od_get (fl_unit x) (operations (dag_oper s)));
  g_landed : ∀ f, (f < next_future s)%nat → f ∉ fl_future <$> flights s → is_Some (dag_outcomes s !! f)
}.

Definition harmless (r : option failure) : Prop := match r with None => True | Some f => is_pause f = true end.
(** Every unit the scheduler has come to ended well or was paused before it began. *)
Definition clean (s : dag) : Prop := ∀ f, (f < next_future s)%nat → f ∉ fl_future <$> flights s → ∃ r, dag_outcomes s !! f = Some r ∧ harmless r.

Definition may_start (s : dag) (u : key) : Prop :=
  u ∈ units ∧ (u ∉ fl_unit <$> flights s) ∧ (admission_stopped (dag_oper s) = true → is_resuming u (dag_oper s) = true).

Definition dag_stage_ok (s : dag) : Prop :=
  match dag_at s with
  | Top | Waiting => clean s
  | Scanning todo ready => clean s ∧ NoDup (ready ++ todo) ∧ todo ⊆ units ∧ ∀ u, u ∈ ready → may_start s u
  | Launching todo wave => clean s ∧ NoDup todo ∧ (∀ u, u ∈ todo → may_start s u ∧ refuse_before ≠ Some u) ∧
      (∀ n, n ∈ todo ≫= api_members → 1 ≤ wave !!! n) ∧ pump_total (flights s) + wave_total todo wave ≤ host_bound
  | Reaping done => clean s ∧ NoDup (fl_future <$> done) ∧ ∀ x, x ∈ done → x ∈ flights s ∧ is_Some (dag_outcomes s !! fl_future x)
  | Leaving None => clean s ∧ flights s = []
  | Failing _ | Leaving (Some _) => True
  | Left r => (∀ x, ¬ running s x) ∧ (r = None → clean s ∧ flights s = [])
  end.

Lemma good_same (s s' : dag) : flights s' = flights s → next_future s' = next_future s → dag_outcomes s' = dag_outcomes s → dag_cancelled s' = dag_cancelled s →
  operations (dag_oper s') = operations (dag_oper s) → good s → good s'.
Proof. intros E1 E2 E3 E4 E5 [A B C D E F]. split; rewrite ?E1, ?E2, ?E3, ?E4, ?E5; done. Qed.

Lemma clean_same (s s' : dag) : flights s' = flights s → next_future s' = next_future s → dag_outcomes s' = dag_outcomes s → clean s → clean s'.
Proof. intros E1 E2 E3. unfold clean. by rewrite E1, E2, E3. Qed.

Lemma start_good w (o : dag_op val) : good (dag_start w o) ∧ dag_stage_ok (dag_start w o).
Proof.
  split.
  - split; cbn; try done; [split; [apply NoDup_nil_2|apply Forall_nil_2]|apply NoDup_nil_2| | | |lia].
    + split; [by intros ? ?%not_elem_of_nil|]. split; [intros f r H; by rewrite lookup_empty in H|intros f H; by apply not_elem_of_empty in H].
    + unfold host_bound, pump_total. cbn. lia.
    + by intros ? ?%not_elem_of_nil.
  - cbn. intros f Hf. cbn in Hf. lia.
Qed.

Lemma top_good s : good s → dag_stage_ok s → dag_at s = Top → good (top reads units refuse_after refuse_before s) ∧ dag_stage_ok (top reads units refuse_after refuse_before s).
Proof.
  intros Hg Hst Hl. unfold dag_stage_ok in Hst. rewrite Hl in Hst. unfold top.
  assert (∀ c (s s' : dag), at_boundary reads c s = Ok s' → flights s' = flights s ∧ next_future s' = next_future s ∧ dag_outcomes s' = dag_outcomes s ∧ dag_cancelled s' = dag_cancelled s ∧
    operations (dag_oper s') = operations (dag_oper s)) as Hafter.
  { clear. unfold at_boundary. intros c s s'. destruct (admission_stopped (dag_oper s)); [by intros [= <-]|]. intros (t & _ & H)%rbind_ok. by destruct t; injection H as <-. }
  destruct (rbind _ _) as [s'|e] eqn:E; [|split; [by eapply good_same; [| | | | |exact Hg]|done]].
  apply rbind_ok in E as (s1 & (A1 & A2 & A3 & A4 & A5)%Hafter & (B1 & B2 & B3 & B4 & B5)%Hafter).
  split; [eapply good_same; [| | | | |exact Hg]; cbn; congruence|]. cbn.
  split; [eapply clean_same; [| | |exact Hst]; cbn; congruence|]. split; [done|]. split; [done|]. by intros u ?%not_elem_of_nil.
Qed.

Lemma scan_good u todo ready s : good s → dag_stage_ok s → dag_at s = Scanning (u :: todo) ready →
  good (scan reads ready_check task_parent interrupt_blocked u todo ready s) ∧ dag_stage_ok (scan reads ready_check task_parent interrupt_blocked u todo ready s).
Proof.
  intros Hg Hst Hl. unfold dag_stage_ok in Hst. rewrite Hl in Hst. destruct Hst as (Hc & Hnd & Hsub & Hready).
  assert (todo ⊆ units) as Hsub' by set_solver. assert (u ∈ units) as Hu by set_solver.
  assert (NoDup ((ready ++ [u]) ++ todo)) as Hnd1 by (by rewrite <-app_assoc).
  assert (NoDup (ready ++ todo)) as Hnd2.
  { eapply sublist_NoDup; [exact Hnd|]. apply sublist_app; [done|]. by apply sublist_cons. }
  unfold scan. destruct (_ && _ && _) eqn:E; [|split; [by eapply good_same; [| | | | |exact Hg]|by cbn]].
  rewrite !andb_true_iff, orb_true_iff, !negb_true_iff, bool_decide_eq_false in E. destruct E as [[E1 E2] _].
  destruct (unit_ready _ _ _ _ _ _ u) as [b|e]; [|split; [by eapply good_same; [| | | | |exact Hg]|done]].
  split; [by eapply good_same; [| | | | |exact Hg]|]. cbn. destruct b; [|done]. split; [done|]. split; [done|]. split; [done|].
  intros v [Hv|Hv%list_elem_of_singleton]%elem_of_app; [by apply Hready|]. subst v. split; [done|]. split; [done|]. cbn. intros Hstop. destruct E1; [congruence|done].
Qed.

Lemma plan_good ready s : good s → dag_stage_ok s → dag_at s = Scanning [] ready →
  good (plan_wave reads api cpu_count refuse_before ready s) ∧ dag_stage_ok (plan_wave reads api cpu_count refuse_before ready s).
Proof.
  intros Hg Hst Hl. unfold dag_stage_ok in Hst. rewrite Hl in Hst. destruct Hst as (Hc & Hnd & _ & Hready). rewrite app_nil_r in Hnd.
  unfold plan_wave. set (p := match refuse_before with Some _ => _ | None => _ end).
  assert (∃ ready' s', p = (ready', s') ∧ good s' ∧ clean s' ∧ NoDup ready' ∧ (∀ u, u ∈ ready' → may_start s' u ∧ refuse_before ≠ Some u)) as (r' & s' & -> & Hg' & Hc' & Hnd' & Hr').
  { unfold p. destruct refuse_before as [c|]; [|exists ready, s; split_and!; try done; intros u Hu; split; [by apply Hready|done]].
    case_bool_decide as Hin.
    - eexists [], _. split; [done|]. split; [by eapply good_same; [| | | | |exact Hg]|]. split; [done|]. split; [apply NoDup_nil_2|by intros ? ?%not_elem_of_nil].
    - exists ready, s. split_and!; try done. intros u Hu. split; [by apply Hready|]. congruence. }
  destruct (plan_spec (world s') (flights s') r') as (launch & ns & wave & -> & Hsub & Hone & Hsum & _).
  - apply g_flights, Hg'.
  - done.
  - intros u Hu. by apply Hr' in Hu as [[? _] _].
  - intros u Hu. by apply Hr' in Hu as [(_ & ? & _) _].
  - apply g_total, Hg'.
  - split; [by eapply good_same; [| | | | |exact Hg']|]. cbn. split; [done|]. split; [by eapply sublist_NoDup|].
    split; [|split; done]. intros u Hu. apply Hr'. by eapply sublist_subseteq.
Qed.

Abbreviation ready_at w o u := (unit_ready reads ready_check task_parent interrupt_blocked w o u).

Lemma wave_total_cons u us wave : wave_total (u :: us) wave = sum_list ((λ n, wave !!! n) <$> api_members u) + wave_total us wave.
Proof. unfold wave_total. cbn. by rewrite fmap_app, sum_list_app. Qed.

Lemma sum_list_nonneg l : Forall (λ p, 1 ≤ p) l → 0 ≤ sum_list l.
Proof. induction 1; cbn; [done|]. unfold sum_list in *. lia. Qed.

Lemma wave_positive us (wave : gmap string Z) : (∀ n, n ∈ us ≫= api_members → 1 ≤ wave !!! n) → Forall (λ p, 1 ≤ p) ((λ n, wave !!! n) <$> us ≫= api_members).
Proof. intros H. apply Forall_fmap, Forall_forall. exact H. Qed.

Lemma pump_total_app fs fs' : pump_total (fs ++ fs') = pump_total fs + pump_total fs'.
Proof. unfold pump_total. by rewrite bind_app, fmap_app, sum_list_app. Qed.

Lemma submit_good u todo wave (s : dag) : good s → clean s → NoDup (u :: todo) → (∀ v, v ∈ u :: todo → may_start s v ∧ refuse_before ≠ Some v) →
  (∀ n, n ∈ (u :: todo) ≫= api_members → 1 ≤ wave !!! n) → pump_total (flights s) + wave_total (u :: todo) wave ≤ host_bound →
  good (set_at (Launching todo wave) (submit_unit api u wave s)) ∧ dag_stage_ok (set_at (Launching todo wave) (submit_unit api u wave s)).
Proof.
  intros [A B (C1 & C2 & C3) D E F] Hc Hnd Hmay Hone Hsum. apply NoDup_cons in Hnd as [Hnu Hnd].
  destruct (Hmay u) as [(Hu1 & Hu2 & _) _]; [left|].
  set (x := Flight (next_future s) u ((λ n, (n, wave !!! n)) <$> api_members u)).
  assert (pump_total [x] = sum_list ((λ n, wave !!! n) <$> api_members u)) as Hx.
  { unfold pump_total. cbn. by rewrite app_nil_r, <-list_fmap_compose. }
  assert (flight_ok x) as Hok.
  { split; [done|]. cbn. rewrite <-!list_fmap_compose. split; [apply list_fmap_id|]. apply Forall_fmap, Forall_forall. intros n Hn. cbn. apply Hone. cbn.
    apply elem_of_app. by left. }
  rewrite wave_total_cons in Hsum. pose proof (sum_list_nonneg _ (wave_positive todo wave (λ n Hn, Hone n (proj2 (elem_of_app _ _ _) (or_intror Hn))))) as Hpos.
  change (0 ≤ wave_total todo wave) in Hpos.
  assert (next_future s ∉ fl_future <$> flights s) as Hnew.
  { intros (y & Hy & Hin)%list_elem_of_fmap. apply C1 in Hin. lia. }
  split.
  - split; cbn.
    + destruct A as [A1 A2]. split; [|apply Forall_app; split; [done|by apply Forall_singleton]]. rewrite fmap_app. apply NoDup_app. split; [done|].
      split; [by intros v Hv ->%list_elem_of_singleton|apply NoDup_singleton].
    + rewrite fmap_app. apply NoDup_app. split; [done|]. split; [by intros v Hv ->%list_elem_of_singleton|apply NoDup_singleton].
    + split; [|split; [intros f r H; apply C2 in H; lia|intros f H; apply C3 in H; lia]].
      intros y [Hy|Hy%list_elem_of_singleton]%elem_of_app; [apply C1 in Hy; lia|subst y; cbn; lia].
    + change (pump_total (flights s ++ [x]) ≤ host_bound). rewrite pump_total_app, Hx. lia.
    + intros y Hy. rewrite od_get_setdefault. destruct (od_get _ _) eqn:Eo; [done|]. apply elem_of_app in Hy as [Hy|Hy%list_elem_of_singleton].
      * apply E in Hy as [? Hy]. congruence.
      * subst y. cbn. by rewrite decide_True.
    + intros f Hf. rewrite fmap_app, not_elem_of_app. intros [H1 H2]. apply F; [|done]. cbn in H2. assert (f ≠ next_future s) by set_solver. lia.
  - cbn. split; [|split; [done|split; [|split]]].
    + intros f Hf. cbn in *. rewrite fmap_app, not_elem_of_app. intros [H1 H2]. apply Hc; [|done]. cbn in H2. assert (f ≠ next_future s) by set_solver. lia.
    + intros v Hv. destruct (Hmay v) as [(V1 & V2 & V3) V4]; [by right|]. split; [|done]. split; [done|]. assert (v ≠ u) as Hne by (by intros ->).
      split; [cbn; rewrite fmap_app, not_elem_of_app; cbn; set_solver|]. cbn. intros Hs. specialize (V3 Hs). unfold is_resuming in *. cbn.
      rewrite od_get_setdefault. destruct (od_get v _); done.
    + intros n Hn. apply Hone. cbn. apply elem_of_app. by right.
    + change (pump_total (flights s ++ [x]) + wave_total todo wave ≤ host_bound). rewrite pump_total_app, Hx. lia.
Qed.

Lemma launch_good u todo wave (s : dag) : good s → dag_stage_ok s → dag_at s = Launching (u :: todo) wave →
  good (launch_one reads ready_check task_parent api interrupt_blocked u todo wave s) ∧ dag_stage_ok (launch_one reads ready_check task_parent api interrupt_blocked u todo wave s).
Proof.
  intros Hg Hst Hl. unfold dag_stage_ok in Hst. rewrite Hl in Hst. destruct Hst as (Hc & Hnd & Hmay & Hone & Hsum). unfold launch_one.
  destruct (ready_at (world s) (dag_oper s) u) as [[|]|e]; [by apply submit_good| |split; [by eapply good_same; [| | | | |exact Hg]|done]].
  split; [by eapply good_same; [| | | | |exact Hg]|]. cbn. apply NoDup_cons in Hnd as [_ Hnd].
  split; [done|]. split; [done|]. split; [intros v Hv; apply Hmay; by right|].
  assert (Forall (λ p, 1 ≤ p) ((λ n, wave !!! n) <$> api_members u)) as Hpu.
  { apply Forall_fmap, Forall_forall. intros n Hn. apply Hone. cbn. apply elem_of_app. by left. }
  split; [intros n Hn; apply Hone; cbn; apply elem_of_app; by right|]. rewrite wave_total_cons in Hsum. apply sum_list_nonneg in Hpu.
  change (pump_total (flights s) + wave_total todo wave ≤ host_bound). lia.
Qed.

Lemma launched_good wave (s : dag) : good s → dag_stage_ok s → dag_at s = Launching [] wave →
  good (launched reads units interrupt_blocked s) ∧ dag_stage_ok (launched reads units interrupt_blocked s).
Proof.
  intros Hg Hst Hl. unfold dag_stage_ok in Hst. rewrite Hl in Hst. destruct Hst as (Hc & _). unfold launched.
  case_bool_decide as Hf; cbn [negb]; [|split; [by eapply good_same; [| | | | |exact Hg]|done]].
  destruct (waiting_on_interrupt _ _ _ _ _) as [[|]|e]; (split; [by eapply good_same; [| | | | |exact Hg]|]); try done. cbn.
  split; [done|]. by apply fmap_nil_inv in Hf.
Qed.

Lemma total_sublist fs fs' : fs `sublist_of` fs' → Forall flight_ok fs' → pump_total fs ≤ pump_total fs'.
Proof.
  induction 1 as [|x fs fs' _ IH|x fs fs' _ IH]; [done| |]; intros [Hx Hf]%Forall_cons; specialize (IH Hf).
  - change (x :: fs) with ([x] ++ fs). change (x :: fs') with ([x] ++ fs'). rewrite !pump_total_app. lia.
  - change (x :: fs') with ([x] ++ fs'). rewrite pump_total_app. destruct Hx as (_ & _ & Hp%sum_list_nonneg).
    unfold pump_total in *. cbn [mbind list_bind]. rewrite app_nil_r. lia.
Qed.

Lemma same_flight (s : dag) x y : good s → x ∈ flights s → y ∈ flights s → fl_unit x = fl_unit y ∨ fl_future x = fl_future y → x = y.
Proof.
  intros Hg [i Hi]%list_elem_of_lookup_1 [j Hj]%list_elem_of_lookup_1 Heq.
  assert (i = j) as ->; [|congruence]. destruct Heq as [Heq|Heq].
  - eapply (NoDup_lookup _ i j (fl_unit x)); [apply (proj1 (g_flights _ Hg))| |]; rewrite list_lookup_fmap; [by rewrite Hi|by rewrite Hj, Heq].
  - eapply (NoDup_lookup _ i j (fl_future x)); [apply (g_numbers _ Hg)| |]; rewrite list_lookup_fmap; [by rewrite Hi|by rewrite Hj, Heq].
Qed.

Lemma record_unit_operations u f (o : dag_op val) : operations (record_unit u f o) = operations o ∧ admission_stopped (record_unit u f o) = admission_stopped o.
Proof.
  unfold record_unit. destruct (od_get u (operations o)) as [p|]; [|done]. destruct f as [f|]; [|done].
  unfold record_unrelated. destruct (expected_failure _); [done|]. cbn. by destruct (dag_unrelated o).
Qed.

(** A flight that ended leaves. *)
Lemma land_good x (s : dag) : good s → x ∈ flights s → is_Some (dag_outcomes s !! fl_future x) → good (land x s).
Proof.
  intros Hg Hx Ho. pose proof Hg as [A B (C1 & C2 & C3) D E F]. unfold land. cbn.
  assert (filter (λ y, fl_future y ≠ fl_future x) (flights s) `sublist_of` flights s) as Hsub by apply sublist_filter.
  split; cbn.
  - destruct A as [A1 A2]. split; [eapply sublist_NoDup; [exact A1|by apply fmap_sublist]|]. apply Forall_forall. intros y [_ Hy]%list_elem_of_filter.
    by apply (proj1 (Forall_forall _ _) A2).
  - eapply sublist_NoDup; [exact B|by apply fmap_sublist].
  - split; [|done]. intros y [_ Hy]%list_elem_of_filter. by apply C1.
  - etrans; [apply (total_sublist _ _ Hsub); by destruct A|done].
  - intros y [_ Hy]%list_elem_of_filter. by apply E.
  - intros f Hf Hn. destruct (decide (f = fl_future x)) as [->|Hne]; [done|]. apply F; [done|]. intros (y & -> & Hy)%list_elem_of_fmap.
    apply Hn. apply list_elem_of_fmap. exists y. split; [done|]. apply list_elem_of_filter. done.
Qed.

Lemma land_clean x (s : dag) r : clean s → dag_outcomes s !! fl_future x = Some r → harmless r → clean (land x s).
Proof.
  intros Hc Ho Hr f Hf Hn. cbn in *. destruct (decide (f = fl_future x)) as [->|Hne]; [eauto|]. apply Hc; [done|].
  intros (y & -> & Hy)%list_elem_of_fmap. apply Hn. apply list_elem_of_fmap. exists y. split; [done|]. apply list_elem_of_filter. done.
Qed.

Lemma settle_good x done_ (s : dag) : good s → dag_stage_ok s → dag_at s = Reaping (x :: done_) →
  good (settle_one refuse_after x done_ s) ∧ dag_stage_ok (settle_one refuse_after x done_ s).
Proof.
  intros Hg Hst Hl. unfold dag_stage_ok in Hst. rewrite Hl in Hst. destruct Hst as (Hc & Hnd & Hdone). cbn in Hnd. apply NoDup_cons in Hnd as [Hnx Hnd].
  destruct (Hdone x) as [Hx [r Hr]]; [left|]. pose proof (land_good x s Hg Hx (mk_is_Some _ _ Hr)) as Hg1.
  assert (∀ y, y ∈ done_ → y ∈ flights (land x s) ∧ is_Some (dag_outcomes (land x s) !! fl_future y)) as Hrest.
  { intros y Hy. destruct (Hdone y) as [? ?]; [by right|]. split; [|done]. apply list_elem_of_filter. split; [|done]. intros Heq. apply Hnx.
    rewrite <-Heq. apply list_elem_of_fmap. eauto. }
  unfold settle_one. change (dag_outcomes (land x s)) with (dag_outcomes s). rewrite Hr. destruct r as [f|].
  - destruct (is_pause f) eqn:Ep.
    + destruct (discard_unstarted_operation (fl_unit x) _) as [o|e] eqn:Ed; [|split; [by eapply good_same; [| | | | |exact Hg1]|done]].
      assert (good (set_at (Reaping done_) (set_dag_oper o (land x s)))) as Hg2.
      { destruct Hg1 as [A B C D E F]. split; cbn; try done. intros y Hy. unfold discard_unstarted_operation in Ed.
        destruct (od_get (fl_unit x) _) as [p|]; inv_ok; [|by apply E]. cbn. rewrite od_get_pop. case_decide as Heq; [|by apply E].
        exfalso. apply list_elem_of_filter in Hy as [Hne Hy]. apply Hne. by rewrite (same_flight s x y Hg Hx Hy (or_introl Heq)). }
      split; [exact Hg2|]. cbn. split; [|split; done]. exact (clean_same (land x s) _ eq_refl eq_refl eq_refl (land_clean x s (Some f) Hc Hr Ep)).
    + split; [|done]. eapply good_same; [| | | | |exact Hg1]; try done. apply record_unit_operations.
  - set (s1 := set_dag_oper _ _). assert (good s1) as Hg2 by (eapply good_same; [| | | | |exact Hg1]; try done; apply record_unit_operations).
    assert (clean s1) as Hc1 by exact (clean_same (land x s) _ eq_refl eq_refl eq_refl (land_clean x s None Hc Hr I)).
    case_bool_decide; (split; [by eapply good_same; [| | | | |exact Hg2]|]); cbn; (split; [|split; done]); by eapply clean_same; [| | |exact Hc1].
Qed.

(** A unit's thread changes its own operation only. *)
Lemma unit_step_good x p p' (s : dag) : good s → dag_stage_ok s → running s x → od_get (fl_unit x) (operations (dag_oper s)) = Some p →
  let s' := set_dag_oper (set_operations (od_set (fl_unit x) p' (operations (dag_oper s))) (dag_oper s)) s in good s' ∧ dag_stage_ok s'.
Proof.
  intros Hg Hst Hx Hp. cbn zeta. split.
  - destruct Hg as [A B C D E F]. split; cbn; try done. intros y Hy. rewrite od_get_set. case_decide; [by eexists|by apply E].
  - assert (∀ u, may_start s u → may_start (set_dag_oper (set_operations (od_set (fl_unit x) p' (operations (dag_oper s))) (dag_oper s)) s) u) as Hmay.
    { intros u (U1 & U2 & U3). split; [done|]. split; [done|]. cbn. intros Hs. specialize (U3 Hs). unfold is_resuming in *. cbn. rewrite od_get_set.
      rewrite decide_False; [done|]. intros <-. apply U2, list_elem_of_fmap. exists x. split; [done|apply Hx]. }
    unfold dag_stage_ok in *. cbn. destruct (dag_at s) as [|todo ready|todo wave| |l|f|[f|]|r] eqn:El; try done.
    + destruct Hst as (? & ? & ? & H). split; [done|]. split; [done|]. split; [done|]. intros u Hu. apply Hmay, H, Hu.
    + destruct Hst as (? & ? & H & ?). split; [done|]. split; [done|]. split; [|done]. intros u Hu. destruct (H u Hu) as [Hu' ?]. split; [apply Hmay, Hu'|done].
Qed.

Lemma not_in_flight (s : dag) x : good s → running s x → ∀ f, f ∉ fl_future <$> flights s → f ≠ fl_future x.
Proof. intros _ [Hx _] f Hf ->. apply Hf, list_elem_of_fmap. eauto. Qed.

Lemma end_good x r (s : dag) : good s → dag_stage_ok s → running s x →
  let s' := set_dag_outcomes (<[fl_future x := r]> (dag_outcomes s)) s in good s' ∧ dag_stage_ok s'.
Proof.
  intros Hg Hst Hx. cbn zeta. pose proof Hg as [A B (C1 & C2 & C3) D E F].
  assert (∀ f, f ∉ fl_future <$> flights s → <[fl_future x := r]> (dag_outcomes s) !! f = dag_outcomes s !! f) as Hother.
  { intros f Hf. rewrite lookup_insert_ne; [done|]. intros <-. by apply (not_in_flight s x Hg Hx _ Hf). }
  split.
  - split; cbn; try done.
    + split; [done|]. split; [|done]. intros f q [[<- _]|[_ H]]%lookup_insert_Some; [apply C1, Hx|by eapply C2].
    + intros f Hf Hn. rewrite Hother by done. by apply F.
  - assert (clean s → clean (set_dag_outcomes (<[fl_future x := r]> (dag_outcomes s)) s)) as Hclean.
    { intros Hc f Hf Hn. cbn in *. rewrite Hother by done. by apply Hc. }
    unfold dag_stage_ok in *. cbn. destruct (dag_at s) as [|todo ready|todo wave| |l|f|[f|]|q] eqn:El; try tauto.
    + destruct Hst as (? & ? & H). split; [by apply Hclean|]. split; [done|]. intros y Hy. destruct (H y Hy) as [? ?]. split; [done|].
      destruct (decide (fl_future x = fl_future y)) as [->|?]; [rewrite lookup_insert_eq; by eexists|by rewrite lookup_insert_ne].
    + destruct Hst as [H _]. by destruct (H x).
Qed.

Lemma cancel_good x f (s : dag) : good s → dag_stage_ok s → dag_at s = Failing f → running s x →
  let s' := set_dag_cancelled ({[fl_future x]} ∪ dag_cancelled s) s in good s' ∧ dag_stage_ok s'.
Proof.
  intros Hg Hst Hl Hx. cbn zeta. pose proof Hg as [A B (C1 & C2 & C3) D E F]. split; [|unfold dag_stage_ok; cbn; by rewrite Hl].
  split; cbn; try done. split; [done|]. split; [done|]. intros g [->%elem_of_singleton|H]%elem_of_union; [apply C1, Hx|by apply C3].
Qed.

Lemma dag_step_good (s s' : dag) : step s s' → good s → dag_stage_ok s → good s' ∧ dag_stage_ok s'.
Proof.
  intros [w q|x p p' q Hx Hp|x r q Hx|x f q Hl Hx|q Hl|u todo ready q Hl|ready q Hl|u todo wave q Hl|wave q Hl|done_ q Hl Hne Hnd Hdone|x done_ q Hl|q Hl|f q Hl Hend|r q Hl Hend] Hg Hst.
  - split; [by eapply good_same; [| | | | |exact Hg]|done].
  - by eapply unit_step_good.
  - by apply end_good.
  - by eapply cancel_good.
  - by apply top_good.
  - by apply scan_good.
  - by apply plan_good.
  - by apply launch_good.
  - by eapply launched_good.
  - split; [by eapply good_same; [| | | | |exact Hg]|]. unfold dag_stage_ok in Hst. rewrite Hl in Hst. done.
  - by apply settle_good.
  - split; [by eapply good_same; [| | | | |exact Hg]|]. unfold dag_stage_ok in Hst. rewrite Hl in Hst. apply Hst.
  - split; [by eapply good_same; [| | | | |exact Hg]|done].
  - split.
    + eapply good_same; [| | | | |exact Hg]; try done. unfold left_with, retain_exit_error. cbn. destruct r as [f|]; [|done].
      unfold record_unrelated. destruct (expected_failure f); [done|]. by destruct (dag_unrelated _).
    + unfold dag_stage_ok in *. rewrite Hl in Hst. cbn. split; [exact Hend|]. intros ->. exact Hst.
Qed.

Lemma dag_good w (o : dag_op val) s : rtc step (dag_start w o) s → good s ∧ dag_stage_ok s.
Proof.
  intros Hr. destruct (start_good w o) as [Hg Hst]. revert Hg Hst. induction Hr as [|s0 s1 s2 Hs _ IH]; [done|].
  intros Hg Hst. destruct (dag_step_good _ _ Hs Hg Hst). by apply IH.
Qed.

(** *** Theorems *)

Lemma record_unit_has u r v (o : dag_op val) : u ≠ v → od_has v (dag_errors (record_unit u r o)) = od_has v (dag_errors o).
Proof.
  intros Hne. unfold record_unit. destruct (od_get u (operations o)) as [p|]; [|done]. destruct r as [f|].
  - assert (∀ g q, dag_errors (record_unrelated g q) = dag_errors q) as -> by (intros g q; unfold record_unrelated; destruct (expected_failure g); [done|]; by destruct (dag_unrelated q)).
    cbn -[od_has]. by rewrite od_has_set, bool_decide_eq_false_2.
  - cbn -[od_has]. by rewrite od_has_pop, bool_decide_eq_false_2.
Qed.

Lemma record_unit_error u f (o : dag_op val) : is_Some (od_get u (operations o)) → od_has u (dag_errors (record_unit u (Some f) o)) = true.
Proof.
  intros [p Hp]. unfold record_unit. rewrite Hp. set (g := default f _).
  assert (∀ q, dag_errors (record_unrelated g q) = dag_errors q) as -> by (intros q; unfold record_unrelated; destruct (expected_failure g); [done|]; by destruct (dag_unrelated q)).
  cbn -[od_has]. by rewrite od_has_set, bool_decide_eq_true_2.
Qed.

Lemma collect_errors outs fs (o : dag_op val) x f : NoDup (fl_unit <$> fs) → (∀ y, y ∈ fs → is_Some (od_get (fl_unit y) (operations o))) →
  x ∈ fs → outs !! fl_future x = Some (Some f) → od_has (fl_unit x) (dag_errors (foldl (collect_unit outs) o fs)) = true.
Proof.
  revert o x. induction fs as [|y fs IH] using rev_ind; intros o x Hnd Hops Hx Ho; [by apply not_elem_of_nil in Hx|].
  rewrite foldl_app. cbn [foldl]. set (o1 := foldl _ o fs). rewrite fmap_app in Hnd. apply NoDup_app in Hnd as (Hnd & Hdisj & _).
  assert (operations o1 = operations o) as Hop.
  { unfold o1. clear. revert o. induction fs as [|z fs IH]; intros o; cbn; [done|]. rewrite IH. unfold collect_unit.
    destruct (outs !! fl_future z); [apply record_unit_operations|done]. }
  apply elem_of_app in Hx as [Hx|Hx%list_elem_of_singleton].
  - assert (fl_unit y ≠ fl_unit x) as Hne.
    { intros Heq. apply (Hdisj (fl_unit x)); [apply list_elem_of_fmap; eauto|]. cbn. rewrite Heq. left. }
    assert (od_has (fl_unit x) (dag_errors o1) = true) as H1 by (apply IH; [done|intros z Hz; apply Hops, elem_of_app; by left|done|done]).
    unfold collect_unit. destruct (outs !! fl_future y); [by rewrite record_unit_has|done].
  - subst y. unfold collect_unit. rewrite Ho. apply record_unit_error. rewrite Hop. apply Hops, elem_of_app. right. left.
Qed.

Lemma retain_exit_operations r (o : dag_op val) : operations (retain_exit_error r o) = operations o.
Proof. unfold retain_exit_error. destruct r as [f|]; [|done]. unfold record_unrelated. destruct (expected_failure f); [done|]. by destruct (dag_unrelated o). Qed.

(** C16: the scheduler joins its units.  Whatever the interleaving, no unit is in flight
    twice; the call ends only when every unit it submitted has ended or was cancelled
    unbegun; it returns only if all of them returned, or were paused by an interrupt before
    they began; and every failure it did not come to is still recorded for its unit. *)
Theorem dag_units_joined w (o : dag_op val) s : rtc step (dag_start w o) s →
  NoDup (fl_unit <$> flights s) ∧ (∀ x, x ∈ flights s → fl_unit x ∈ units) ∧
  ∀ r, dag_at s = Left r →
    (∀ f, (f < next_future s)%nat → is_Some (dag_outcomes s !! f) ∨ f ∈ dag_cancelled s) ∧
    (∀ x f, x ∈ flights s → fl_future x ∉ dag_cancelled s → dag_outcomes s !! fl_future x = Some (Some f) →
       od_has (fl_unit x) (dag_errors (run_end r s).2) = true) ∧
    (∀ l o', run_end r s = (inl l, o') → r = None ∧ ∀ f, (f < next_future s)%nat → ∃ q, dag_outcomes s !! f = Some q ∧ harmless q).
Proof.
  intros Hr. destruct (dag_good _ _ _ Hr) as [Hg Hst]. split; [apply (g_flights _ Hg)|]. split.
  { intros x Hx. by apply (proj1 (Forall_forall _ _) (proj2 (g_flights _ Hg)) x Hx). }
  intros r Hl. unfold dag_stage_ok in Hst. rewrite Hl in Hst. destruct Hst as [Hend Hnone]. split; [|split].
  - intros f Hf. destruct (decide (f ∈ fl_future <$> flights s)) as [Hin|Hin]; [|left; by apply (g_landed _ Hg)].
    apply list_elem_of_fmap in Hin as (x & -> & Hx). destruct (dag_outcomes s !! fl_future x) eqn:Eo; [left; by eexists|right].
    destruct (decide (fl_future x ∈ dag_cancelled s)); [done|]. by destruct (Hend x).
  - intros x f Hx Hc Ho. unfold run_end. set (fs := filter _ _).
    assert (x ∈ fs) as Hin by by apply list_elem_of_filter.
    assert (od_has (fl_unit x) (dag_errors (foldl (collect_unit (dag_outcomes s)) (retain_exit_error r (dag_oper s)) fs)) = true) as H.
    { eapply collect_errors; [|intros y [_ Hy]%list_elem_of_filter; rewrite retain_exit_operations; by apply (g_operations _ Hg)|done|done].
      eapply sublist_NoDup; [apply (g_flights _ Hg)|]. apply fmap_sublist, sublist_filter. }
    set (o1 := foldl _ _ fs) in *. destruct r as [g|]; [exact H|]. destruct (dag_unrelated o1); [exact H|]. destruct (dag_errors o1) eqn:Ed; cbn [snd]; rewrite Ed; exact H.
  - intros l o' H. unfold run_end in H. destruct r as [f|]; [done|]. split; [done|]. intros f Hf.
    destruct (Hnone eq_refl) as [Hc Hfl]. apply Hc; [done|]. rewrite Hfl. apply not_elem_of_nil.
Qed.

(** *** The pumps units run with *)

(** Every unit that has an operation has pumps for exactly its API members. *)
Definition own_pumps (u : key) (l : list (string * Z)) : Prop := l.*1 = api_members u ∧ Forall (λ p, 1 ≤ p) l.*2.
Definition allocated (o : dag_op val) : Prop :=
  ∀ u, u ∈ units → is_Some (od_get u (operations o)) → ∃ l, od_get u (api_pump_allocations o) = Some l ∧ own_pumps u l.

(** What the operation of a unit in flight runs with. *)
Definition running_pumps (s : dag) (x : flight) : list (string * Z) := default [] (od_get (fl_unit x) (api_pump_allocations (dag_oper s))).
Definition running_total (s : dag) : Z := sum_list (flights s ≫= running_pumps s).*2.

(** A step that launches no unit whose operation was already there. *)
Definition first_step (s s' : dag) : Prop :=
  step s s' ∧ ∀ x, x ∈ flights s' → x ∉ flights s → od_get (fl_unit x) (operations (dag_oper s)) = None.

Lemma record_unit_allocations u f (o : dag_op val) : api_pump_allocations (record_unit u f o) = api_pump_allocations o.
Proof.
  unfold record_unit. destruct (od_get u (operations o)) as [p|]; [|done]. destruct f as [f|]; [|done].
  unfold record_unrelated. destruct (expected_failure _); [done|]. cbn. by destruct (dag_unrelated o).
Qed.

(** The steps that change operations and their pumps: the launch of a unit, and the end of
    one that was paused before it began. *)
Inductive allocating (s s' : dag) : Prop :=
  | keeps_pumps : api_pump_allocations (dag_oper s') = api_pump_allocations (dag_oper s) →
      (∀ u, is_Some (od_get u (operations (dag_oper s'))) → is_Some (od_get u (operations (dag_oper s)))) → flights s' ⊆ flights s → allocating s s'
  | launches u wave a : s' = set_at a (submit_unit api u wave s) → allocating s s'
  | forgets x : x ∈ flights s → (∀ u, u ≠ fl_unit x → od_get u (api_pump_allocations (dag_oper s')) = od_get u (api_pump_allocations (dag_oper s))) →
      (∀ u, is_Some (od_get u (operations (dag_oper s'))) → u ≠ fl_unit x ∧ is_Some (od_get u (operations (dag_oper s)))) →
      flights s' ⊆ flights s → (∀ y, y ∈ flights s' → fl_unit y ≠ fl_unit x) → allocating s s'.

Lemma settle_allocating x done_ (s : dag) : good s → dag_stage_ok s → dag_at s = Reaping (x :: done_) → allocating s (settle_one refuse_after x done_ s).
Proof.
  intros Hg Hst Hl. unfold dag_stage_ok in Hst. rewrite Hl in Hst. destruct Hst as (_ & _ & Hdone). destruct (Hdone x) as [Hx _]; [left|].
  assert (flights (land x s) ⊆ flights s) as Hsub by (intros y; cbn; by intros [_ ?]%list_elem_of_filter).
  unfold settle_one. destruct (dag_outcomes (land x s) !! fl_future x) as [[f|]|].
  - destruct (is_pause f).
    + unfold discard_unstarted_operation. change (dag_oper (land x s)) with (dag_oper s).
      destruct (od_get (fl_unit x) (operations (dag_oper s))) as [p|]; [|apply keeps_pumps; done].
      destruct (negb (started p)); cbn [require rbind]; [|apply keeps_pumps; done].
      apply (forgets _ _ x); [done| | |exact Hsub|].
      * intros u Hu. cbn. by rewrite od_get_pop, decide_False.
      * intros u. cbn. rewrite od_get_pop. case_decide; [by intros []|]. done.
      * intros y. cbn. intros [Hne Hy]%list_elem_of_filter Heq. apply Hne. by rewrite (same_flight s x y Hg Hx Hy (or_introl (eq_sym Heq))).
    + apply keeps_pumps; cbn; [apply record_unit_allocations|intros u; by rewrite (proj1 (record_unit_operations _ _ _))|exact Hsub].
  - destruct (bool_decide (refuse_after = _)); (apply keeps_pumps; cbn; [apply record_unit_allocations|intros u; by rewrite (proj1 (record_unit_operations _ _ _))|exact Hsub]).
  - destruct (bool_decide (refuse_after = _)); (apply keeps_pumps; cbn; [apply record_unit_allocations|intros u; by rewrite (proj1 (record_unit_operations _ _ _))|exact Hsub]).
Qed.

Lemma top_allocations (s : dag) : let s' := top reads units refuse_after refuse_before s in
  api_pump_allocations (dag_oper s') = api_pump_allocations (dag_oper s) ∧ operations (dag_oper s') = operations (dag_oper s) ∧ flights s' = flights s.
Proof.
  cbn zeta. unfold top. destruct (rbind _ _) as [s'|e] eqn:E; [|done].
  assert (∀ c (a b : dag), at_boundary reads c a = Ok b → api_pump_allocations (dag_oper b) = api_pump_allocations (dag_oper a) ∧ operations (dag_oper b) = operations (dag_oper a) ∧ flights b = flights a) as Hb.
  { clear. intros c a b. unfold at_boundary. destruct (admission_stopped (dag_oper a)); [by intros [= <-]|]. intros (t & _ & H)%rbind_ok. by destruct t; injection H as <-. }
  apply rbind_ok in E as (s1 & (A1 & A2 & A3)%Hb & (B1 & B2 & B3)%Hb). cbn. split_and!; congruence.
Qed.

Lemma step_allocating (s s' : dag) : step s s' → good s → dag_stage_ok s → allocating s s'.
Proof.
  intros [w q|x p p' q Hx Hp|x r q Hx|x f q Hl Hx|q Hl|u todo ready q Hl|ready q Hl|u todo wave q Hl|wave q Hl|ds q Hl Hne Hnd Hdone|x ds q Hl|q Hl|f q Hl Hend|r q Hl Hend] Hg Hst;
    try (apply keeps_pumps; done).
  - apply keeps_pumps; [done| |done]. intros u. cbn. rewrite od_get_set. case_decide as Eu; [intros _; rewrite <-Eu; by eexists|done].
  - destruct (top_allocations q) as (E1 & E2 & E3). apply keeps_pumps; [done|by rewrite E2|by rewrite E3].
  - unfold scan. destruct (_ && _ && _); [destruct (ready_at _ _ u)|]; by apply keeps_pumps.
  - unfold plan_wave. destruct refuse_before as [c|]; [case_bool_decide|]; (destruct (plan _ _ _ _ _ _) as [[[? ?] ?]|]; by apply keeps_pumps).
  - unfold launch_one. destruct (ready_at (world q) (dag_oper q) u) as [[|]|e]; [by eapply launches|by apply keeps_pumps..].
  - unfold launched. destruct (negb _); [|destruct (waiting_on_interrupt _ _ _ _ _) as [[|]|]]; by apply keeps_pumps.
  - by apply settle_allocating.
  - apply keeps_pumps; [|intros u|done]; unfold left_with, retain_exit_error; cbn; (destruct r as [f|]; [|done]);
      unfold record_unrelated; (destruct (expected_failure f); [done|]); by destruct (dag_unrelated _).
Qed.

(** Steps keep every operation supplied with pumps, and the pumps of the units in flight
    those that are accounted for, as long as no operation is launched again. *)
Definition as_accounted (s : dag) : Prop := ∀ x, x ∈ flights s → od_get (fl_unit x) (api_pump_allocations (dag_oper s)) = Some (fl_pumps x).

Lemma submitted_elem u wave a (s : dag) : ∃ x, fl_unit x = u ∧ x ∈ flights (set_at a (submit_unit api u wave s)) ∧
  fl_pumps x = (λ n, (n, wave !!! n)) <$> api_members u ∧ fl_future x = next_future s ∧ flights (set_at a (submit_unit api u wave s)) = flights s ++ [x].
Proof. eexists (Flight (next_future s) u _). split; [done|]. split; [cbn; apply elem_of_app; right; left|]. done. Qed.

Lemma step_allocated (s s' : dag) : step s s' → good s → dag_stage_ok s → good s' → allocated (dag_oper s) → allocated (dag_oper s').
Proof.
  intros Hs Hg Hst Hg' Ha. destruct (step_allocating _ _ Hs Hg Hst) as [E1 E2 _|u wave a ->|x Hx E1 E2 _ _].
  - intros u Hu Ho. rewrite E1. apply Ha; [done|]. by apply E2.
  - destruct (submitted_elem u wave a s) as (x & Hxu & Hx & Hxp & _). pose proof (proj1 (Forall_forall _ _) (proj2 (g_flights _ Hg')) x Hx) as (_ & K1 & K2).
    intros v Hv. cbn. rewrite od_get_setdefault. destruct (od_get v (operations (dag_oper s))) as [p|] eqn:Ev.
    + intros _. destruct (Ha v Hv) as (l & Hl & Hown); [by eexists|]. exists l. split; [|done].
      destruct (od_has u (operations (dag_oper s))) eqn:Eu; [done|]. rewrite od_get_set, decide_False; [done|]. intros ->. apply od_has_false in Eu. congruence.
    + case_decide as Euv; [intros _|by intros []]. subst v. rewrite (proj2 (od_has_false _ _) Ev), od_get_set, decide_True by done.
      eexists. split; [done|]. rewrite Hxu, Hxp in K1. rewrite Hxp in K2. by split.
  - intros u Hu Ho. destruct (E2 u Ho) as [Hne Ho']. rewrite E1 by done. by apply Ha.
Qed.

Lemma step_accounted (s s' : dag) : first_step s s' → good s → dag_stage_ok s → good s' → as_accounted s → as_accounted s'.
Proof.
  intros [Hs Hfirst] Hg Hst Hg' Ha. destruct (step_allocating _ _ Hs Hg Hst) as [E1 _ E3|u wave a ->|x Hx E1 _ E3 E4].
  - intros y Hy. rewrite E1. by apply Ha, E3.
  - destruct (submitted_elem u wave a s) as (x & Hxu & Hx & Hxp & Hxf & Hfl).
    assert (x ∉ flights s) as Hnew by (intros Hin; apply (proj1 (g_fresh _ Hg)) in Hin; lia).
    pose proof (Hfirst x Hx Hnew) as Hnone. rewrite Hxu in Hnone. pose proof (proj2 (od_has_false _ _) Hnone) as Hhas.
    intros y Hy. cbn -[od_get]. rewrite Hhas, od_get_set. destruct (decide (u = fl_unit y)) as [Eu|Eu].
    + rewrite <-Hxp. f_equal. f_equal. apply (same_flight _ x y Hg' Hx Hy). left. congruence.
    + rewrite Hfl in Hy. apply elem_of_app in Hy as [Hy| ->%list_elem_of_singleton]; [by apply Ha|congruence].
  - intros y Hy. rewrite E1 by by apply E4. by apply Ha, E3.
Qed.

Lemma dag_allocated w (o : dag_op val) s : allocated o → rtc step (dag_start w o) s → allocated (dag_oper s).
Proof.
  intros Ha Hr. destruct (start_good w o) as [Hg Hst]. change o with (dag_oper (dag_start w o)) in Ha. revert Ha Hg Hst.
  induction Hr as [|s0 s1 s2 Hs _ IH]; [done|]. intros Ha Hg Hst. destruct (dag_step_good _ _ Hs Hg Hst) as [Hg' Hst']. apply IH; [by eapply step_allocated|done|done].
Qed.

Lemma dag_accounted w (o : dag_op val) s : rtc first_step (dag_start w o) s → as_accounted s.
Proof.
  intros Hr. destruct (start_good w o) as [Hg Hst]. assert (as_accounted (dag_start w o)) as Ha by (by intros x ?%not_elem_of_nil). revert Ha Hg Hst.
  induction Hr as [|s0 s1 s2 Hs _ IH]; [done|]. intros Ha Hg Hst. destruct (dag_step_good _ _ (proj1 Hs) Hg Hst) as [Hg' Hst']. apply IH; [by eapply step_accounted|done|done].
Qed.

Lemma accounted_total (s : dag) : as_accounted s → running_total s = pump_total (flights s).
Proof.
  unfold running_total, pump_total. intros H. f_equal. f_equal.
  assert (∀ x, x ∈ flights s → running_pumps s x = fl_pumps x) as Heq by (intros x Hx; unfold running_pumps; by rewrite (H x Hx)).
  clear H. revert Heq. generalize (running_pumps s). induction (flights s) as [|x fs IH]; intros f Heq; cbn; [done|].
  rewrite (Heq x) by left. f_equal. apply IH. intros y Hy. apply Heq. by right.
Qed.

(** C17: The scheduler never over-commits the pumps of the host in its accounts.  In every
    state the pumps accounted to the units in flight add up to at most the host's budget, or
    one for each API member if those are more; each API member of a unit in flight has its
    own, both in the accounts and in what its operation runs with.  As long as no unit is
    launched whose operation was there before, the operations run with exactly what is
    accounted, so the bound holds for the pumps that run; an operation that is launched again
    keeps its first pumps ([overcommit_sample]). *)
Theorem dag_pumps_bounded w (o : dag_op val) s : allocated o → rtc step (dag_start w o) s →
  pump_total (flights s) ≤ host_bound ∧
  (∀ x, x ∈ flights s → own_pumps (fl_unit x) (fl_pumps x) ∧ own_pumps (fl_unit x) (running_pumps s x)) ∧
  (rtc first_step (dag_start w o) s → (∀ x, x ∈ flights s → running_pumps s x = fl_pumps x) ∧ running_total s ≤ host_bound).
Proof.
  intros Ha Hr. destruct (dag_good _ _ _ Hr) as [Hg _]. split; [apply (g_total _ Hg)|]. split.
  - intros x Hx. destruct (proj1 (Forall_forall _ _) (proj2 (g_flights _ Hg)) x Hx) as (Hu & Hk & Hp). split; [by split|].
    destruct (dag_allocated _ _ _ Ha Hr (fl_unit x) Hu (g_operations _ Hg x Hx)) as (l & Hl & Hown). unfold running_pumps. by rewrite Hl.
  - intros Hf%dag_accounted. split; [intros x Hx; unfold running_pumps; by rewrite (Hf x Hx)|]. rewrite accounted_total by done. apply (g_total _ Hg).
Qed.

(** C18: a boundary stops admission.  Admission never reopens within a call; a unit is
    submitted only at its turn in a wave and when the tables then show it ready; a unit the
    call refuses is never submitted, and once admission has stopped, only units with an
    accepted restart are. *)
Theorem dag_boundaries_kept w (o : dag_op val) s s' : rtc step (dag_start w o) s → step s s' →
  (admission_stopped (dag_oper s) = true → admission_stopped (dag_oper s') = true) ∧
  ∀ x, x ∈ flights s' → x ∉ flights s →
    ready_at (world s) (dag_oper s) (fl_unit x) = Ok true ∧ refuse_before ≠ Some (fl_unit x) ∧ (fl_unit x ∉ fl_unit <$> flights s) ∧
    (admission_stopped (dag_oper s) = true → is_resuming (fl_unit x) (dag_oper s) = true).
Proof.
  intros Hr Hstep. destruct (dag_good _ _ _ Hr) as [Hg Hst].
  destruct Hstep as [w' q|x p p' q Hx Hp|x r q Hx|x f q Hl Hx|q Hl|u todo ready q Hl|ready q Hl|u todo wave q Hl|wave q Hl|ds q Hl Hne Hnd Hdone|x ds q Hl|q Hl|f q Hl Hend|r q Hl Hend];
    try (split; [done|intros y Hy Hny; by destruct Hny]).
  - unfold top. destruct (rbind _ _) as [s'|e] eqn:E; [|split; [done|intros y Hy Hny; by destruct Hny]].
    assert (∀ c (a b : dag), at_boundary reads c a = Ok b → flights b = flights a ∧ (admission_stopped (dag_oper a) = true → admission_stopped (dag_oper b) = true)) as Hb.
    { clear. intros c a b. unfold at_boundary. destruct (admission_stopped (dag_oper a)) eqn:Ea; [intros [= <-]; by rewrite Ea|]. intros (t & _ & H)%rbind_ok. by destruct t; injection H as <-. }
    apply rbind_ok in E as (s1 & [A1 A2]%Hb & [B1 B2]%Hb). split; [auto|]. intros y Hy Hny. destruct Hny. cbn in Hy. by rewrite <-A1, <-B1.
  - unfold scan. destruct (_ && _ && _); [destruct (ready_at _ _ u)|]; (split; [done|intros y Hy Hny; by destruct Hny]).
  - unfold plan_wave. destruct refuse_before as [c|]; [case_bool_decide|]; (destruct (plan _ _ _ _ _ _) as [[[? ?] ?]|]; (split; [done|intros y Hy Hny; by destruct Hny])).
  - unfold dag_stage_ok in Hst. rewrite Hl in Hst. destruct Hst as (_ & _ & Hmay & _). unfold launch_one.
    destruct (ready_at (world q) (dag_oper q) u) as [[|]|e] eqn:Eu; try (split; [done|intros y Hy Hny; by destruct Hny]).
    split; [done|]. intros y [Hy|Hy%list_elem_of_singleton]%elem_of_app Hny; [by destruct Hny|]. subst y. cbn.
    destruct (Hmay u) as [(_ & ? & ?) ?]; [left|]. done.
  - unfold launched. destruct (negb _); [|destruct (waiting_on_interrupt _ _ _ _ _) as [[|]|]]; (split; [done|intros y Hy Hny; by destruct Hny]).
  - unfold settle_one. assert (∀ y, y ∈ flights (land x q) → y ∈ flights q) as Hland by (by intros y [_ ?]%list_elem_of_filter).
    destruct (dag_outcomes (land x q) !! fl_future x) as [[f|]|].
    + destruct (is_pause f).
      * destruct (discard_unstarted_operation _ _) as [o1|e] eqn:Ed; (split; [|intros y Hy Hny; destruct Hny; by apply Hland]); [|done].
        unfold discard_unstarted_operation in Ed. destruct (od_get _ _); inv_ok; done.
      * split; [|intros y Hy Hny; destruct Hny; by apply Hland]. cbn. by rewrite (proj2 (record_unit_operations _ _ _)).
    + destruct (bool_decide (refuse_after = _)); (split; [|intros y Hy Hny; destruct Hny; by apply Hland]); [done|]. cbn. by rewrite (proj2 (record_unit_operations _ _ _)).
    + destruct (bool_decide (refuse_after = _)); (split; [|intros y Hy Hny; destruct Hny; by apply Hland]); [done|]. cbn. by rewrite (proj2 (record_unit_operations _ _ _)).
  - split; [|intros y Hy Hny; by destruct Hny]. unfold left_with, retain_exit_error. cbn. destruct r as [f|]; [|done].
    unfold record_unrelated. destruct (expected_failure f); [done|]. by destruct (dag_unrelated _).
Qed.

(** C19: an idle scheduler launches what is ready.  When nothing is in flight and the units
    found ready do not include the one refused, the sharing of pumps succeeds and the first
    ready unit is in the wave: the guaranteed first pumps never keep every unit waiting. *)
Theorem idle_scheduler_launches w (o : dag_op val) s u ready : rtc step (dag_start w o) s →
  dag_at s = Scanning [] (u :: ready) → flights s = [] → (∀ c, refuse_before = Some c → c ∉ u :: ready) →
  ∃ todo wave, dag_at (plan_wave reads api cpu_count refuse_before (u :: ready) s) = Launching (u :: todo) wave.
Proof.
  intros Hr Hl Hf Hc. destruct (dag_good _ _ _ Hr) as [Hg Hst]. unfold dag_stage_ok in Hst. rewrite Hl in Hst. destruct Hst as (_ & Hnd & _ & Hready).
  rewrite app_nil_r in Hnd.
  destruct (plan_spec (world s) (flights s) (u :: ready)) as (launch & ns & wave & Hp & _ & _ & _ & Hfirst); try done.
  - apply g_flights, Hg.
  - intros v Hv. by apply Hready.
  - intros v Hv. by apply Hready.
  - apply g_total, Hg.
  - destruct (Hfirst u ready eq_refl Hf) as [l ->]. exists l, wave. unfold plan_wave. destruct refuse_before as [c|]; [|by rewrite Hp].
    rewrite bool_decide_eq_false_2 by by apply Hc. by rewrite Hp.
Qed.
End dag.

(** ** Two units; one fails while an interrupt pauses the other *)

Module dag_sample.
Definition reads : dag_reads unit := DagReads unit (λ _ _, Ok "running") (λ _ _, Ok false) (λ _ _, Ok false) (λ _ _, Ok (Some "queued"))
  (λ _ _, true) (λ _ _, Ok true) (λ _ _, 100) (λ _ _, false).
Definition units : list key := [["a"]; ["b"]].
Definition api (n : string) : bool := bool_decide (n = "a").
Abbreviation step := (dag_step (val := nat) reads units None None api (Some 4) [] None None).
Abbreviation dag := (dag (val := nat) (W := unit)).

Definition q0 : dag := dag_start () new_dag.
Definition q1 : dag := top reads units None None q0.
Definition q2 : dag := scan reads None None [] ["a"] [["b"]] [] q1.
Definition q3 : dag := scan reads None None [] ["b"] [] [["a"]] q2.
Definition q4 : dag := plan_wave reads api (Some 4) None [["a"]; ["b"]] q3.
Definition wave : gmap string Z := {["a" := 2]}.
Definition q5 : dag := launch_one reads None None api [] ["a"] [["b"]] wave q4.
Definition q6 : dag := launch_one reads None None api [] ["b"] [] wave q5.
Definition q7 : dag := launched reads units [] q6.
Definition xa : flight := Flight 0 ["a"] [("a", 2)].
Definition xb : flight := Flight 1 ["b"] [].
Definition job_failed : failure := Failure (Exc JobFailedError "job a/1 failed") (Some (("a", 1), 0, "e1")).
Definition interrupted : failure := Failure (Exc InterruptAdmissionPaused "paused") None.
Definition q8 : dag := set_dag_outcomes (<[0%nat := Some job_failed]> (dag_outcomes q7)) q7.
Definition q9 : dag := set_dag_outcomes (<[1%nat := Some interrupted]> (dag_outcomes q8)) q8.
Definition q10 : dag := set_at (Reaping [xa]) q9.
Definition q11 : dag := settle_one None xa [] q10.
Definition q12 : dag := escape job_failed q11.
Definition q13 : dag := left_with (Some job_failed) q12.

Lemma units_distinct : NoDup units.
Proof. apply (bool_decide_unpack _). vm_compute. exact I. Qed.
Lemma nodes_distinct : NoDup (mjoin units).
Proof. apply (bool_decide_unpack _). vm_compute. exact I. Qed.
Lemma limits_positive w n : 1 ≤ requested_max_threads reads w n.
Proof. cbn. lia. Qed.

Lemma to_scan : rtc step q0 q3.
Proof.
  eapply rtc_l; [exact (dag_top _ _ _ _ _ _ _ _ _ q0 eq_refl)|]. eapply rtc_l; [exact (dag_scan _ _ _ _ _ _ _ _ _ ["a"] [["b"]] [] q1 eq_refl)|].
  eapply rtc_l; [exact (dag_scan _ _ _ _ _ _ _ _ _ ["b"] [] [["a"]] q2 eq_refl)|]. apply rtc_refl.
Qed.
Lemma scanned : dag_at q3 = Scanning [] [["a"]; ["b"]].
Proof. vm_compute. reflexivity. Qed.
Lemma planned : dag_at q4 = Launching [["a"]; ["b"]] wave.
Proof. vm_compute. reflexivity. Qed.
Lemma to_wave : rtc step q0 q4.
Proof. eapply rtc_r; [exact to_scan|]. exact (dag_plan _ _ _ _ _ _ _ _ _ _ q3 scanned). Qed.
Lemma launch_a : step q4 q5.
Proof. exact (dag_launch _ _ _ _ _ _ _ _ _ _ _ _ q4 planned). Qed.
Lemma at5 : dag_at q5 = Launching [["b"]] wave.
Proof. vm_compute. reflexivity. Qed.
Lemma at6 : dag_at q6 = Launching [] wave.
Proof. vm_compute. reflexivity. Qed.
Lemma at7 : dag_at q7 = Waiting ∧ flights q7 = [xa; xb] ∧ dag_outcomes q7 = ∅ ∧ dag_cancelled q7 = ∅.
Proof. split_and!; vm_compute; reflexivity. Qed.
Lemma to_flight : rtc step q0 q7.
Proof.
  eapply rtc_r; [|exact (dag_launched _ _ _ _ _ _ _ _ _ _ q6 at6)]. eapply rtc_r; [|exact (dag_launch _ _ _ _ _ _ _ _ _ _ _ _ q5 at5)].
  eapply rtc_r; [exact to_wave|exact launch_a].
Qed.
(** Both units are launched for the first time. *)
Abbreviation first := (first_step (val := nat) reads units None None api (Some 4) [] None None).
Lemma first_same (s s' : dag) : step s s' → flights s' = flights s → first s s'.
Proof. intros Hs Hf. split; [exact Hs|]. intros x Hx Hn. by rewrite Hf in Hx. Qed.
Lemma first_new (s s' : dag) y : step s s' → flights s' = flights s ++ [y] → od_get (fl_unit y) (operations (dag_oper s)) = None → first s s'.
Proof. intros Hs Hf Hy. split; [exact Hs|]. intros x Hx Hn. rewrite Hf in Hx. by apply elem_of_app in Hx as [Hx| ->%list_elem_of_singleton]. Qed.
Lemma first_flight : rtc first q0 q7.
Proof.
  eapply rtc_l; [apply first_same; [exact (dag_top _ _ _ _ _ _ _ _ _ q0 eq_refl)|vm_compute; reflexivity]|].
  eapply rtc_l; [apply first_same; [exact (dag_scan _ _ _ _ _ _ _ _ _ ["a"] [["b"]] [] q1 eq_refl)|vm_compute; reflexivity]|].
  eapply rtc_l; [apply first_same; [exact (dag_scan _ _ _ _ _ _ _ _ _ ["b"] [] [["a"]] q2 eq_refl)|vm_compute; reflexivity]|].
  eapply rtc_l; [apply first_same; [exact (dag_plan _ _ _ _ _ _ _ _ _ _ q3 scanned)|vm_compute; reflexivity]|].
  eapply rtc_l; [apply (first_new _ _ xa); [exact launch_a|vm_compute; reflexivity..]|].
  eapply rtc_l; [apply (first_new _ _ xb); [exact (dag_launch _ _ _ _ _ _ _ _ _ _ _ _ q5 at5)|vm_compute; reflexivity..]|].
  apply rtc_once, first_same; [exact (dag_launched _ _ _ _ _ _ _ _ _ _ q6 at6)|vm_compute; reflexivity].
Qed.
Lemma to_end : rtc step q0 q9.
Proof.
  destruct at7 as (_ & Hf & Ho & Hc). eapply rtc_r; [eapply rtc_r; [exact to_flight|]|].
  - apply (dag_end _ _ _ _ _ _ _ _ _ xa (Some job_failed) q7). unfold running. rewrite Hf, Ho, Hc. split; [left|]. split; [done|apply not_elem_of_empty].
  - apply (dag_end _ _ _ _ _ _ _ _ _ xb (Some interrupted) q8). unfold running, q8. cbn [set_dag_outcomes flights dag_outcomes dag_cancelled]. rewrite Hf, Ho, Hc.
    split; [right; left|]. split; [done|apply not_elem_of_empty].
Qed.
Lemma at10 : dag_at q10 = Reaping [xa].
Proof. reflexivity. Qed.
Lemma at11 : dag_at q11 = Failing job_failed ∧ flights q11 = [xb] ∧ dag_outcomes q11 !! 1%nat = Some (Some interrupted).
Proof. split_and!; vm_compute; reflexivity. Qed.
Lemma none_running x : flights q11 = [xb] → dag_outcomes q11 !! 1%nat = Some (Some interrupted) → x ∈ flights q11 → dag_outcomes q11 !! fl_future x = None → False.
Proof. intros -> Ho ->%list_elem_of_singleton Hn. cbn in Hn. by rewrite Ho in Hn. Qed.
Lemma whole_call : rtc step q0 q13.
Proof.
  destruct at7 as (_ & Hf & Ho & Hc). destruct at11 as (H11 & Hf11 & Ho11).
  eapply rtc_r; [eapply rtc_r; [eapply rtc_r; [eapply rtc_r; [exact to_end|]|]|]|].
  - apply (dag_wait _ _ _ _ _ _ _ _ _ [xa] q9); [apply at7|done|apply NoDup_singleton|]. intros x ->%list_elem_of_singleton.
    unfold q9, q8. cbn [set_dag_outcomes flights dag_outcomes]. rewrite Hf, Ho. split; [left|by eexists].
  - exact (dag_settle _ _ _ _ _ _ _ _ _ xa [] q10 at10).
  - apply (dag_failed _ _ _ _ _ _ _ _ _ job_failed q11 H11). intros x (Hx & Hn & _). by apply (none_running x).
  - apply (dag_left _ _ _ _ _ _ _ _ _ (Some job_failed) q12 eq_refl). intros x (Hx & Hn & _). by apply (none_running x).
Qed.

(** The failure of the job is not what the call raises: the pause is. *)
Example pause_hides_failure : match run_end (Some job_failed) q13 with (inr f, _) => f = interrupted | _ => False end.
Proof. vm_compute. reflexivity. Qed.
End dag_sample.

(** ** A resumed unit keeps the pumps of its first launch *)

Module overcommit_sample.
Import restart_sample.
(** The world says whether [b] is ready; both units have the API runner. *)
Definition reads : dag_reads bool := DagReads bool (λ _ _, Ok "running") (λ _ _, Ok false) (λ _ _, Ok false) (λ _ _, Ok (Some "queued"))
  (λ _ _, true) (λ w u, Ok (w || bool_decide (u = ["a"]))) (λ _ _, 1000) (λ _ _, false).
Definition units : list key := [["a"]; ["b"]].
Definition api (n : string) : bool := true.
Abbreviation dag := (dag (val := nat) (W := bool)).
Abbreviation step := (dag_step (val := nat) reads units None None api (Some 4) [] None None).

(** The scheduler alone, up to the end of its wave. *)
Definition turn (s : dag) : dag :=
  match dag_at s with
  | Top => top reads units None None s
  | Scanning (u :: todo) ready => scan reads None None [] u todo ready s
  | Scanning [] ready => plan_wave reads api (Some 4) None ready s
  | Launching (u :: todo) wave => launch_one reads None None api [] u todo wave s
  | _ => s
  end.
Fixpoint wave_of (fuel : nat) (s : dag) : dag := match fuel with O => s | S fuel => wave_of fuel (turn s) end.

Lemma turn_steps (s : dag) : rtc step s (turn s).
Proof.
  unfold turn. destruct (dag_at s) as [|[|u todo] ready|[|u todo] wave| | | | |] eqn:E; try apply rtc_refl; apply rtc_once.
  - by apply dag_top.
  - by apply dag_plan.
  - by apply dag_scan.
  - by apply dag_launch.
Qed.
Lemma wave_steps fuel (s : dag) : rtc step s (wave_of fuel s).
Proof. revert s. induction fuel as [|fuel IH]; intros s; cbn; [apply rtc_refl|]. etrans; [apply turn_steps|apply IH]. Qed.

(** [a] alone gets every pump; its job is given back and its restart accepted; then [b] is
    ready too. *)
Definition r0 : dag := wave_of 6 (dag_start false new_dag).
Definition lost_job : failure := Failure (Exc JobFailedError "Job was abandoned before execution") (Some (("a", 1), 0, "e1")).
Definition o1 : dag_op nat := record_unit ["a"] (Some lost_job) (set_operations (od_set ["a"] given_back (operations (dag_oper r0))) (dag_oper r0)).
Definition o2 : dag_op nat := match dag_resume [replacement] false o1 with Ok o => o | Err _ => o1 end.
Definition r1 : dag := wave_of 6 (dag_start true o2).

Example resumed_unit_overcommits : rtc step (dag_start true o2) r1 ∧
  pump_total (flights r1) = 12 ∧ running_total r1 = 18 ∧ host_bound units api (Some 4) = 12.
Proof. split; [apply wave_steps|]. split_and!; vm_compute; reflexivity. Qed.
End overcommit_sample.

Lemma dag_units_joined_witness : od_has ["b"] (dag_errors (run_end (Some dag_sample.job_failed) dag_sample.q13).2) = true.
Proof.
  destruct (dag_units_joined dag_sample.reads dag_sample.units None None dag_sample.api (Some 4) [] None None dag_sample.units_distinct dag_sample.nodes_distinct
    dag_sample.limits_positive ltac:(done) () _ _ dag_sample.whole_call) as (_ & _ & H).
  destruct (H (Some dag_sample.job_failed) eq_refl) as (_ & H2 & _). apply (H2 dag_sample.xb dag_sample.interrupted).
  - vm_compute. left.
  - assert (dag_cancelled dag_sample.q13 = ∅) as -> by (vm_compute; reflexivity). apply not_elem_of_empty.
  - vm_compute. reflexivity.
Defined.

Lemma dag_pumps_bounded_witness : pump_total (flights dag_sample.q7) ≤ 12 ∧ running_total dag_sample.q7 ≤ 12.
Proof.
  assert (allocated dag_sample.units dag_sample.api (new_dag (val := nat))) as Hnew by (by intros u _ []).
  destruct (dag_pumps_bounded dag_sample.reads dag_sample.units None None dag_sample.api (Some 4) [] None None dag_sample.units_distinct dag_sample.nodes_distinct
    dag_sample.limits_positive ltac:(done) () _ _ Hnew dag_sample.to_flight) as (H1 & _ & H2).
  split; [exact H1|exact (proj2 (H2 dag_sample.first_flight))].
Defined.

Lemma dag_boundaries_kept_witness : ["a"] ∉ fl_unit <$> flights dag_sample.q4.
Proof.
  apply (proj2 (dag_boundaries_kept dag_sample.reads dag_sample.units None None dag_sample.api (Some 4) [] None None dag_sample.units_distinct dag_sample.nodes_distinct
    dag_sample.limits_positive ltac:(done) () _ _ _ dag_sample.to_wave dag_sample.launch_a) dag_sample.xa).
  - vm_compute. left.
  - vm_compute. apply not_elem_of_nil.
Defined.

Lemma idle_scheduler_launches_witness : ∃ todo wave,
  dag_at (plan_wave dag_sample.reads dag_sample.api (Some 4) None [["a"]; ["b"]] dag_sample.q3) = Launching (["a"] :: todo) wave.
Proof.
  apply (idle_scheduler_launches dag_sample.reads dag_sample.units None None dag_sample.api (Some 4) [] None None dag_sample.units_distinct dag_sample.nodes_distinct
    dag_sample.limits_positive ltac:(done) () _ _ ["a"] [["b"]] dag_sample.to_scan dag_sample.scanned).
  - vm_compute. reflexivity.
  - discriminate.
Defined.
