(* ===== verification/Driver.v ===== *)
(** The driver of a session ([workflow/execution_session_driver.py]): it keeps a root
    operation until the session decides to end, and continuations for the restarts the
    session accepted on the way.

    The root may be the operation of a component, of a selection of components or of the
    jobs of one node; what the driver uses of it is the class [RootOperation], what its
    theorems rely on the class [RootLaws].  Continuations are operations of components
    ([Operations]).  The session's decision is an argument ([finish]). *)
From S2P Require Import Prelude Topology JobStore ComponentLife Operations.

#[local] Open Scope Z_scope.

(** ** What the driver uses of a root operation *)

Class RootOperation (O W R : Type) := {
  op_run : O → W → (R + failure) * O * W;
  op_resume : list (addr * expected_restart) → bool → O → result O;
  (** [None]: the operation has no [retain_component_restarts]. *)
  op_retain : option (ComponentTerminalOutcome → list (addr * expected_restart) → O → result (option O));
  op_failed_attempts : O → list attempt;
  op_rejected : O → list (addr * expected_restart);
  op_exhausted : O → list (addr * expected_restart);
  op_failed_nodes : O → list string;
  op_outcomes : O → list ComponentTerminalOutcome;
  op_primary : failure → O → failure;
  (** Whether an operation of a component is completed; [None] for other operations. *)
  op_component_completed : O → option bool;
  op_continues : bool
}.

(** Nothing is left of an operation that returned. *)
Class RootLaws (O W R : Type) `{RootOperation O W R} := {
  op_clean : O → Prop;
  op_run_clean (o : O) (w : W) (r : R) (o' : O) (w' : W) : op_run o w = (inl r, o', w') → op_clean o';
  op_retain_clean f c rs (o o' : O) : op_retain = Some f → f c rs o = Ok (Some o') → op_clean o → op_clean o'
}.

(** [decision], if it is not empty. *)
Record decision := Decision {
  restarts : list (addr * expected_restart);
  component_restarts : list (addr * ComponentTerminalOutcome)
}.

(** The arguments of [finish]; [error] is the text of [ec_error]. *)
Record exit_call := ExitCall {
  ec_status : string;
  ec_error : option failure;
  ec_body : option failure;
  ec_attempts : list attempt;
  ec_rejected : list (addr * expected_restart);
  ec_exhausted : list (addr * expected_restart);
  ec_failed_nodes : list string;
  ec_outcomes : list ComponentTerminalOutcome
}.

(** ** Continuations of components as roots *)

Section component.
Context {val W : Type} (p : pumping val W).

(** [run]; two epochs are enough ([Operations.epochs_end]). *)
Definition run_continuation (o : operation val) (w : W) : (list string + failure) * operation val * W :=
  match run p 2 o w with Some x => x | None => (inr claim_changed, o, w) end.

Definition primary (f : failure) (o : operation val) : failure := default f (primary_error (Some f) o).

#[export] Instance component_root : RootOperation (operation val) W (list string) := {
  op_run := run_continuation;
  op_resume := resume;
  op_retain := Some retain_component_restarts;
  op_failed_attempts := failed_attempts;
  op_rejected := rejected_restarts;
  op_exhausted := exhausted_restarts;
  op_failed_nodes := failed_nodes;
  op_outcomes := failed_component_outcomes;
  op_primary := primary;
  op_component_completed o := Some (completed o);
  op_continues := false
}.
End component.

(** ** One turn *)

Section driver.
Context {T R val W : Type} `{RootOperation T W R} (p : pumping val W).
Context (finish : exit_call → W → result (option decision) * W).
Context (continue_full_components : bool).

Record driving := Driving {
  root : T;
  unrelated : option failure;
  root_failure : option failure;
  run_root : bool;
  root_replacements : option (list (addr * expected_restart));
  root_paused : bool;
  root_incomplete : bool;
  last_result : option R;
  adopted : list (key * operation val);
  adopted_by_job : list (addr * key);
  adopted_errors : list (key * failure);
  ready_adopted : list key;
  outside : W
}.

Definition set_root o rs r s := Driving o (unrelated s) (root_failure s) r rs (root_paused s) (root_incomplete s) (last_result s) (adopted s) (adopted_by_job s) (adopted_errors s) (ready_adopted s) (outside s).
Definition set_adopted a e w s := Driving (root s) (unrelated s) (root_failure s) (run_root s) (root_replacements s) (root_paused s) (root_incomplete s) (last_result s) a (adopted_by_job s) e (ready_adopted s) w.
Definition set_jobs_of b s := Driving (root s) (unrelated s) (root_failure s) (run_root s) (root_replacements s) (root_paused s) (root_incomplete s) (last_result s) (adopted s) b (adopted_errors s) (ready_adopted s) (outside s).
Definition set_ready l s := Driving (root s) (unrelated s) (root_failure s) (run_root s) (root_replacements s) (root_paused s) (root_incomplete s) (last_result s) (adopted s) (adopted_by_job s) (adopted_errors s) l (outside s).
Definition set_paused b s := Driving (root s) (unrelated s) (root_failure s) (run_root s) (root_replacements s) b (root_incomplete s) (last_result s) (adopted s) (adopted_by_job s) (adopted_errors s) (ready_adopted s) (outside s).
Definition set_incomplete f b s := Driving (root s) (unrelated s) f (run_root s) (root_replacements s) (root_paused s) b (last_result s) (adopted s) (adopted_by_job s) (adopted_errors s) (ready_adopted s) (outside s).
Definition set_ran_root o u f r w s := Driving o u f (run_root s) (root_replacements s) (root_paused s) (root_incomplete s) r (adopted s) (adopted_by_job s) (adopted_errors s) (ready_adopted s) w.
Definition set_outside w s := Driving (root s) (unrelated s) (root_failure s) (run_root s) (root_replacements s) (root_paused s) (root_incomplete s) (last_result s) (adopted s) (adopted_by_job s) (adopted_errors s) (ready_adopted s) w.

(** The variables of [drive] before its loop. *)
Definition begin_drive (o : T) (adopted_operations : list (operation val)) (initial_failure : option failure) (w : W) : driving :=
  let a := foldl (λ d o, od_set (component o) o d) [] adopted_operations in
  Driving o None initial_failure (bool_decide (initial_failure = None)) None false false None a
    (foldl (λ d q, od_set q.1 q.2 d) [] (a ≫= λ q, (λ t : addr * attempt, (t.1, component q.2)) <$> attempts (book q.2))) [] a.*1 w.

Inductive turned := Continue (s : driving) | Returned (r : option R) (s : driving) | Raised (f : failure) (s : driving).

Definition raised (e : exc) : failure := Failure e None.

(** One continuation of [ready_adopted]. *)
Definition run_adopted (s : driving) (c : key) : driving :=
  match od_get c (adopted s) with
  | None => s
  | Some o =>
      let '(r, o, w) := run_continuation p o (outside s) in
      set_adopted (od_set c o (adopted s)) (match r with inl _ => od_pop c (adopted_errors s) | inr f => od_set c (primary f o) (adopted_errors s) end) w s
  end.

(** A root paused for failed continuations runs again when they succeeded. *)
Definition reopen_root (s : driving) : driving :=
  if continue_full_components && root_paused s && negb (root_incomplete s) && bool_decide ((adopted_errors s).*1 = []) && bool_decide (root_failure s = None)
  then set_paused false (set_root (root s) (Some (default [] (root_replacements s))) true s) else s.

Definition resume_root (s : driving) : result driving :=
  match root_replacements s with
  | None => Ok s
  | Some rs =>
      let failed := negb (bool_decide ((adopted_errors s).*1 = [])) in
      let! o := op_resume rs (negb continue_full_components || root_incomplete s || bool_decide (is_Some (unrelated s)) || failed) (root s) in
      Ok (set_paused failed (set_root o None (run_root s) s))
  end.

Definition run_root_operation (s : driving) : result driving :=
  if negb (run_root s) then Ok s else
  let! s := resume_root s in
  let '(r, o, w) := op_run (root s) (outside s) in
  Ok (match r with
      | inl v => set_ran_root o (unrelated s) (unrelated s) (Some v) w s
      | inr f =>
          let f := default (op_primary f o) (unrelated s) in
          set_ran_root o (if expected_failure f then unrelated s else Some f) (Some f) (last_result s) w s
      end).

Definition failure_of (s : driving) : option failure :=
  match root_failure s with Some f => Some f | None => snd <$> head (adopted_errors s) end.

Definition unfinished_adopted (s : driving) : option (key * operation val) := find (λ q : key * operation val, negb (completed q.2)) (adopted s).

Definition resume_adopted (q : key * operation val) (s : driving) : result driving :=
  let! o := resume [] false q.2 in
  Ok (set_ready [component q.2] (set_adopted (od_set q.1 o (adopted s)) (adopted_errors s) (outside s) (set_root (root s) (root_replacements s) false s))).

(** No failure is left: go on with one unfinished selection, or return. *)
Definition go_on (s : driving) : turned :=
  let again (r : result driving) := match r with Ok s => Continue s | Err e => Raised (raised e) s end in
  if root_incomplete s then
    match unfinished_adopted s with
    | Some q => again (resume_adopted q s)
    | None => Continue (set_incomplete (root_failure s) false (set_root (root s) (Some []) true s))
    end
  else if negb continue_full_components then Returned (last_result s) s
  else match op_component_completed (root s), unfinished_adopted s with
       | Some false, _ => again (let! o := op_resume [] false (root s) in Ok (set_root o (root_replacements s) true s))
       | _, Some q => again (resume_adopted q s)
       | _, None => Returned (last_result s) s
       end.

(** *** Asking the session *)

(** Dictionaries and sets of the operations that are not completed, root first. *)
Definition pending_adopted (s : driving) : list (operation val) := (filter (λ q : key * operation val, completed q.2 = false) (adopted s)).*2.
Definition exit_question (f : failure) (s : driving) : exit_call :=
  let l := pending_adopted s in
  ExitCall "failed" (Some f) (Some f) (op_failed_attempts (root s) ++ (l ≫= failed_attempts))
    (foldl od_update [] (op_rejected (root s) :: (rejected_restarts <$> l))) (foldl od_update [] (op_exhausted (root s) :: (exhausted_restarts <$> l)))
    (fromkeys (op_failed_nodes (root s) ++ (l ≫= failed_nodes)))
    (foldl (λ d c, od_set (oc_component c) c d) [] (op_outcomes (root s) ++ (l ≫= failed_component_outcomes))).*2.

(** Where an accepted restart belongs: to the root, which may keep it for a component it has
    begun, or to the continuation of its component. *)
Definition sort_restart (root_attempts : list addr) (d : decision) (acc : driving * list (addr * expected_restart) * list (key * list (addr * expected_restart)))
  (q : addr * expected_restart) : result (driving * list (addr * expected_restart) * list (key * list (addr * expected_restart))) :=
  let '(s, local, selected) := acc in
  let '(a, e) := q in
  if bool_decide (a ∈ root_attempts) && negb (od_has a (adopted_by_job s)) then Ok (s, od_set a e local, selected) else
  let proposal := od_get a (component_restarts d) in
  let! kept := match proposal, op_retain with Some c, Some retain => retain c [q] (root s) | _, _ => Ok None end in
  match kept with
  | Some o => Ok (set_root o (root_replacements s) (run_root s) s, od_set a e local, selected)
  | None =>
      let c := match proposal with Some c => oc_component c | None => ow_component (x_owner e) end in
      Ok (set_jobs_of (od_set a c (adopted_by_job s)) s, local, od_set c (default [] (od_get c selected) ++ [q]) selected)
  end.

(** A continuation learns of the attempts it does not know. *)
Definition admit_attempts (selected : list (addr * expected_restart)) (o : operation val) : operation val :=
  foldl (λ o q, if od_has q.1 (attempts (book o)) then o else record_cleanup_attempt (attempt_of q.1 q.2) o) o selected.

Definition adopt_one (d : decision) (s : driving) (q : key * list (addr * expected_restart)) : result driving :=
  let '(c, selected) := q in
  let! o := match od_get c (adopted s) with
            | None =>
                Ok (match find (λ q : addr * expected_restart, od_has q.1 (component_restarts d)) selected with
                    | Some r => match od_get r.1 (component_restarts d) with
                                | Some proposal => from_pending_component proposal selected
                                | None => from_selected_restarts c selected
                                end
                    | None => from_selected_restarts c selected
                    end)
            | Some o => resume selected true (admit_attempts selected o)
            end in
  Ok (set_ready (ready_adopted s ++ [c]) (set_adopted (od_set c o (adopted s)) (adopted_errors s) (outside s) s)).

Definition place (d : decision) (s : driving) : result driving :=
  let root_attempts := (λ t : attempt, t.1.1) <$> op_failed_attempts (root s) in
  let! acc := rfold (sort_restart root_attempts d) (s, [], []) (restarts d) in
  let '(s, local, selected) := acc in
  let! s := rfold (adopt_one d) s selected in
  let incomplete := match root_failure s with Some f => bool_decide (exc_cls (f_exc f) = ComponentExecutionIncomplete) | None => false end in
  let s := if negb (bool_decide (selected.*1 = [])) && continue_full_components && op_continues && incomplete && bool_decide (unrelated s = None)
           then set_incomplete None true s else s in
  Ok (set_root (root s) (if bool_decide (local.*1 = []) then root_replacements s else Some local) (negb (bool_decide (local.*1 = []))) s).

Definition ask (f : failure) (s : driving) : turned :=
  let '(r, w) := finish (exit_question f s) (outside s) in
  let s := set_outside w s in
  match r with
  | Err e => Raised (raised e) s
  | Ok None => Raised f s
  | Ok (Some d) => match place d s with Ok s => Continue s | Err e => Raised (raised e) s end
  end.

(** One turn of [while True]. *)
Definition turn (s : driving) : turned :=
  let s := set_ready [] (foldl run_adopted s (ready_adopted s)) in
  match run_root_operation (reopen_root s) with
  | Err e => Raised (raised e) s
  | Ok s => match failure_of s with None => go_on s | Some f => ask f s end
  end.

Fixpoint drive (fuel : nat) (s : driving) : option turned :=
  match fuel with
  | O => None
  | S fuel => match turn s with Continue s => drive fuel s | t => Some t end
  end.
End driver.
Arguments driving : clear implicits.
Arguments turned : clear implicits.

(** ** Completing a session *)

Section complete.
Context {T R val W : Type} `{RootOperation T W R} (p : pumping val W).
Context (finish : exit_call → W → result (option decision) * W).

(** The restarts of a decision by the component they continue. *)
Definition by_component (d : decision) : list (key * list (addr * expected_restart)) :=
  foldl (λ l q, let c := match od_get q.1 (component_restarts d) with Some c => oc_component c | None => ow_component (x_owner q.2) end in
                od_set c (default [] (od_get c l) ++ [q]) l) [] (restarts d).

Definition continuation_of (d : decision) (q : key * list (addr * expected_restart)) : operation val :=
  match find (λ r : addr * expected_restart, od_has r.1 (component_restarts d)) q.2 with
  | Some r => match od_get r.1 (component_restarts d) with
              | Some proposal => from_pending_component proposal q.2
              | None => from_selected_restarts q.1 q.2
              end
  | None => from_selected_restarts q.1 q.2
  end.

(** [finish_component]: [publish] is the transaction that ends the component; the jobs it
    finds unfinished are continued. *)
Definition finish_component (publish : ComponentTerminalOutcome → W → result unit * W) (fuel : nat) (completion : ComponentTerminalOutcome) (w : W)
  : option (option failure * W) :=
  let '(r, w) := publish completion w in
  match r with
  | Ok _ => Some (None, w)
  | Err e =>
      if negb (bool_decide (exc_cls e = ComponentExecutionIncomplete)) then Some (Some (raised e), w) else
      match drive (H := component_root p) p finish true fuel (begin_drive (from_pending_component completion []) [] (Some (raised e)) w) with
      | None | Some (Continue _) => None
      | Some (Raised f s) => Some (Some f, outside s)
      | Some (Returned _ s) => Some (None, outside s)
      end
  end.

(** [complete]: [None] inside a failure stands for a return; [retained] is the root the
    session was driven with before. *)
Fixpoint complete (fuel : nat) (status : string) (error body_exception : option failure) (retained : option T) (w : W)
  : option (option failure * option T * W) :=
  match fuel with
  | 0%nat => None
  | S fuel =>
      let '(r, w) := finish (ExitCall status error body_exception [] [] [] [] []) w in
      match r with
      | Err e => Some (Some (raised e), retained, w)
      | Ok None => Some (None, retained, w)
      | Ok (Some d) =>
          let stop (f : failure) (retained : option T) (w : W) := Some (Some (default f body_exception), retained, w) in
          match continuation_of d <$> by_component d with
          | [] => stop (raised (Exc IndexError "list index out of range")) retained w
          | o :: os =>
              match drive (H := component_root p) p finish (bool_decide (body_exception = None)) fuel (begin_drive o os None w) with
              | None | Some (Continue _) => None
              | Some (Raised f s) => stop f retained (outside s)
              | Some (Returned _ s) =>
                  match body_exception, retained with
                  | None, Some t =>
                      if op_continues (RootOperation := H) then
                        match drive p finish true fuel (begin_drive t [] None (outside s)) with
                        | None | Some (Continue _) => None
                        | Some (Raised f s) => stop f (Some (root s)) (outside s)
                        | Some (Returned _ s) => complete fuel status error body_exception (Some (root s)) (outside s)
                        end
                      else complete fuel status error body_exception retained (outside s)
                  | _, _ => complete fuel status error body_exception retained (outside s)
                  end
              end
          end
      end
  end.
End complete.
