(* ===== verification/DriverSafety.v ===== *)
(** The driver of a session loses no restart the session accepted ([Driver]). *)
From S2P Require Import Prelude Topology JobStore ComponentLife Operations Driver.

#[local] Open Scope Z_scope.

(** ** Dictionaries *)

Section odict.
Context {K V : Type} `{EqDecision K}.

End odict.

(** ** What running and resuming a continuation keeps *)


Section continuation.
Context {val W : Type} (p : pumping val W).
Context (Hpump : ∀ o w f o' w', run_component p o w = (f, o', w') → rtc report o o').




End continuation.

Section resumed.
Context {val : Type}.





End resumed.

(** ** What every turn keeps *)

Section driver.
Context {T R val W : Type} `{RootLaws T W R} (p : pumping val W).
Context (Hpump : ∀ o w f o' w', run_component p o w = (f, o', w') → rtc report o o').
Context (finish : exit_call → W → result (option decision) * W) (continue_full : bool).

Abbreviation driving := (driving T R val W).
Abbreviation turn := (turn p finish continue_full).









(** *** Placing accepted restarts *)

















(** *** Turns *)











End driver.

(** ** The operation of a component as root *)

Section component_laws.
Context {val W : Type} (p : pumping val W).
Context (Hpump : ∀ o w f o' w', run_component p o w = (f, o', w') → rtc report o o').




End component_laws.

Module drive_sample.
Import restart_sample.
Abbreviation driving := (driving (operation nat) (list string) nat bool).
End drive_sample.

